(* ===== verification/_CoqProject ===== *)
-Q . S2P
Prelude.v
CMem.v
Crc.v
Digest.v
Md5.v
Sha.v
ModbusCommon.v
ModbusFrame.v
ModbusSlave.v
ModbusSpec.v
ModbusSlaveCorrect.v
ModbusSession.v
ModbusMaster.v
ModbusMasterCorrect.v
ModbusLink.v
Ring.v
RtRingbuffer.v
RingBuffer1.v
Fifo.v
MinHeap.v
TimerList.v
RbTree.v
RbTreeCorrect.v
RbErase.v
StrMap.v
Regex.v
RegexCorrect.v
Membuf.v
Mqtt.v
MqttCorrect.v
MqttQueue.v
MqttClient.v
MqttClientCorrect.v
MqttReceive.v
MqttExchange.v
StrDic.v
Utility.v
HashMap.v
Sort.v
NumText.v
Stropt.v
Aes.v
AesCorrect.v
Vector.v
ThreadPool.v
ThreadRace.v
IniRw.v
IniRwCorrect.v
DataBuffer.v
Ymodem.v
YmodemCorrect.v
Sbuf.v
IniConfig.v
IniConfigCorrect.v
