(* ===== verification/Prelude.v ===== *)
(** * Verification of the BigBox toolbox

    BigBox (src/source/) is a collection of small, mostly independent C
    components: protocol stacks, buffers, timers, containers, algorithms and
    wrappers around system calls.  This library models the components whose
    behaviour is decided by their own code, as executable functions on explicit
    state, and proves what makes each of them correct.  The system-call wrappers,
    device drivers, C++ parts and third-party sources are not modelled.

    ** Conventions

    - Unsigned integers are [Z] with the wrap-around of their width written out
      (CMem.v); a C array is a list indexed by [Z] ([znth], [zset] below), and a
      function that could access memory outside an object, divide by zero,
      overflow a signed integer or fail an assertion returns an [option]: [None]
      is that undefined or aborting behaviour.  The correctness theorems prove
      that the call returns [Some], so they are memory-safety theorems as well.
    - State is a record passed through the operations; a null pointer is [None]
      where the code tests for it.
    - The byte order of the host, the success of each allocation, the contents of
      fresh memory, the clock, callbacks and user handlers are parameters.
    - [return_if b with e ;; k] is an early return; [x <- m ; k] (the option bind
      of stdpp) stops at undefined behaviour.

    ** Components

    - Checksums: fun_algorithm/crc.c, crc_table.c - Crc.v.  The bitwise and the
      table-driven CRCs over one linear shift register; equivalence of the two
      forms where it holds, and burst-error detection of the CRC-16.
    - Message digests: fun_algorithm/md5.c, sha.c.  Digest.v has what the three
      hashes share (rotations, byte orders, folding a compression function over
      64-byte blocks, padding, hexadecimal output); Md5.v and Sha.v the unrolled
      compression functions, the buffered update and final functions and the
      string and file wrappers, against the hash functions of RFC 1321 and
      FIPS 180 written as folds over the rounds.
    - Modbus RTU: fun_protocol/modbus/.  ModbusCommon.v has modbus.h (errors,
      the frame union, masks) and [modbusCRC]; ModbusFrame.v the lemmas on frames
      under construction; ModbusSlave.v the slave (slave/sregs.c, slave/scoils.c
      and its half of modbus.c); ModbusSpec.v the abstract server [serve], a
      function from frames and a store of coils and registers to replies;
      ModbusSlaveCorrect.v the simulation of the handlers; ModbusSession.v the
      refinement theorems for a call and for a session, write protection,
      rejection of damaged frames, initialisation and the override table.
      ModbusMaster.v has the master (master/*.c and its half of modbus.c),
      ModbusMasterCorrect.v its builders and parsers against the same abstract
      requests, ModbusLink.v the transaction of a master with a slave; the master
      stores what it reads in bytes, so that of registers only the low halves arrive.
      The
      configuration modelled has dynamic frames, register and coil arrays and
      override tables; the callback and static-memory configurations are not
      modelled.
    - Ring buffers: fun_buffer/.  Ring.v has circular windows, two-segment copies
      and the class [BoundedQueue], the contract of a byte queue, with its
      first-in first-out theorem for any run of puts and gets; RtRingbuffer.v
      (rt_ringbuffer.c, mirror bits), RingBuffer1.v (ringbuffer1.c, free-running
      32-bit indices and items of any size) and Fifo.v (fifo.c and
      ringbuffer_simple.c, one cell kept free) are three implementations with
      their instances.
    - Timers: fun_timer/.  MinHeap.v (minheap.c) proves the heap order, the
      multiset of nodes and the resulting sort; TimerList.v (timer_list.c) keeps
      the doubly linked list in a store of addresses and proves the pointer
      operations, the order of expiry and what [event_process_timeouts] fires.
    - Red-black tree: fun_struct/rbtree.c, rbtree.h, map.c.  RbTree.v has the
      intrusive tree on a store of cells whose first word packs the parent with
      the colour.  RbTreeCorrect.v relates stores to trees and to paths above a
      hole (zippers), runs the pointer operations on lists of separate cells, and
      proves rotations, insertion and traversal; RbErase.v deletion and
      replacement.  StrMap.v is map.c, a string map on that tree, against finite
      maps.
    - Regular expressions: fun_regex/regex.c.  Regex.v has the compiler into the
      two static arrays and the backtracking matcher; RegexCorrect.v gives patterns
      an abstract syntax with a language of texts and proves that the index
      returned is the first start of a match.
    - Growable buffer: fun_buffer/membuf.c.  Membuf.v relates a buffer to the bytes
      it holds and proves of which sequences of operations the assertions and copies
      are defined, that those are the sequence of their effects on the bytes, and
      when the reservation of space ends.
    - MQTT: fun_protocol/mqtt/e_mqtt.c.  Mqtt.v has the packers and unpackers of
      every packet; MqttCorrect.v writes the packets out as bytes and proves that
      they are what is packed and what is unpacked, and what reading a fixed header
      gives on every input.  MqttQueue.v is the message queue that grows from
      both ends of one block of memory, and the packet identifiers of the shift
      register; MqttClient.v the client: requests, [__mqtt_send], [__mqtt_recv]
      and [mqtt_sync] with the clock, the socket and the callbacks as a world.
      MqttClientCorrect.v proves what requests and sending do to the queue,
      MqttReceive.v that reception consumes a stream of packets however the socket
      cuts it up, up to its end or its first error, MqttExchange.v that two idle
      clients complete a QoS 2 exchange with one delivery when packets are repeated.
    - String dictionary: fun_ini/string_dic_p.c - StrDic.v.  Parallel arrays with
      hashes and free slots against finite maps, for any sequence of operations.
    - INI reader and editor: fun_ini/ini_2/inirw.c.  IniRw.v has the line reader,
      the section search, the readers of strings and integers and the editor on the
      bytes of the file; IniRwCorrect.v gives documents (sections, entries, values,
      comments) an abstract syntax and proves what is read from a written document,
      that setting a key is the edit of the document, and that it reads back.
    - Hash map: fun_cstl/hashmap.c, list_p.h - HashMap.v.  Buckets of chained
      nodes with back pointers on a store, against finite maps.
    - Growable vector: fun_cstl/vector.c - Vector.v, against lists.
    - Sorting and searching: fun_sort/ - Sort.v.  The quicksort sorts whatever
      pivot is drawn; the binary search finds what there is to find.
    - Base utilities, number texts, strings: fun_base/utility.c (Utility.v: byte
      orders, BCD, base 64, hexadecimal, the linear congruential generator),
      fun_base/type_c.c (NumText.v: integers of every base with their limits),
      fun_string/stropt.c (Stropt.v: searching, trimming, tokenising, number texts).
    - AES: fun_other/aes.c.  Aes.v has the byte tables, the rounds and the key
      schedule; AesCorrect.v proves them equal to the cipher of FIPS 197 over the
      field of 256 elements, and decryption inverse to encryption.
    - Thread pool: fun_threadpool/.  ThreadPool.v has the task queue, the eventfd
      queue and the workers as a labelled transition system in which a call of the
      queue is one step, as a system call is.  The code has no lock; ThreadRace.v
      therefore makes each load and store of the queue a step, shows runs that lose
      a task or run it twice, and proves that in the runs in which no two calls of
      the queue overlap tasks leave it in their order and no wake-up is lost.
    - Configurations: fun_ini/ini_config1.c.  IniConfig.v has the reader of lines
      (with the formats of sscanf it uses), the loader, the entries and the writer
      on the string dictionary; IniConfigCorrect.v proves that a configuration is
      loaded from the file it is saved to, and has the inputs on which it is not.
    - Y-modem: fun_protocol/ymodem/.  Ymodem.v has the check, the numbers, the packets,
      the receiver and the sender over a line of events (the functions that receive
      and send a byte are left to the application); YmodemCorrect.v proves the check
      to be the CRC-16 of XMODEM, what is on the line when a file is sent to any peer,
      that sending ends, and what the receiver makes of a session.
    - Data buffer: fun_buffer/data_buffer.c - DataBuffer.v.  What each append does,
      the inverted tests included.
    - Growable string: fun_buffer/sbuf.c - Sbuf.v.  A session of appends, insertions and
      removals is one on a list of characters; the copies that go wrong as examples.

    ** Loops and fuel

    Counted loops are [for_range] and [for_ret] below, structural in the count.
    The other loops have fuel: the sift loops of MinHeap.v run with the number of
    nodes, more than the height of the tree; the scan of a timer list with the
    number of cells of the store plus one; [event_process_timeouts] with the
    length of the list plus one, which is enough when the callbacks leave the
    timers alone; the descents of a red-black tree with the number of its nodes;
    the loops of regex.c with the length of the pattern or of the text; the loops
    over the remaining length of an MQTT packet with five turns, one more than the
    code allows; [next_pid] with 65535 turns, the period of the register; sending
    with one turn more than the bytes to send, receiving with two more than the
    free room, dispatching with one more than the packets; the slot search of the
    dictionary, the base 64 loops and the loops over strings with the length plus
    one; the chain walks of the hash map with the number of nodes; the binary
    search with the number of elements plus one; a partition with the length of
    its range plus two and the recursion of the quicksort with the number of
    elements; the decimal-to-hexadecimal loop with eleven digits; the round
    constants of AES with their index; the doubling loop of a vector with 65
    turns; the line loops of the INI reader and of the configurations with the length of
    the file plus one; the loops around a Y-modem block with ten turns, the errors allowed, those
    around the first and last packet and the receiver with fuel that the theorems
    bound by what arrives on the line; the doubling loop of membuf.c, which need not end, with fuel that the
    theorems quantify over.  Each theorem about such a loop proves that the
    result is [Some], so the fuel is never exhausted.

    ** Not modelled

    Input and output decides the behaviour of what is left: the wrappers around
    sockets, files, processes, threads, event polling and devices, the AT command
    channel and the CoAP and FTP clients.  Third-party code - mbedTLS and the HTTP
    parser, libubox, nginx's slab allocator, kconfig, the C++ JSON library - is not
    this program's own.  The containers of fun_cstl/ other than the vector and the
    hash map are layers over a second copy of the red-black tree and of the linked
    lists; the older MQTT client is a copy of the one modelled.  Some sources have
    no meaning to model: the bitmap macros and the message buffer do not compile,
    and the memory pool links objects outside its blocks.  Of modelled components the
    callback and static-memory configurations of Modbus, printing, the readers and
    writers of floating-point numbers and the functions that only free memory are
    left out.

    This file has the notations, tactics, array accesses, counted loops and
    generic lemmas that the components share. *)

From stdpp Require Export prelude.
Export ZArith.

Declare Scope bigbox_scope.
Delimit Scope bigbox_scope with bb.
Open Scope Z_scope.
Open Scope bigbox_scope.

(** ** Notations *)

(** The length of an array, as the integer C code compares indices with. *)
Abbreviation zlen l := (Z.of_nat (length l)).

(** [check b else e ;; k]: an early return [if (b) return e;] of a handler. *)
Notation "'return_if' b 'with' e ;; k" := (if b then e else k)
  (at level 10, b at level 99, e at level 99, k at level 200,
   format "'[v' 'return_if'  b  'with'  e  ;; '/' k ']'") : bigbox_scope.

(** ** Tactics *)

(** Linear arithmetic with division and modulo by constants. *)
Ltac zlia := Z.to_euclidean_division_equations; lia.

(** Turn the boolean tests of the code into the propositions they decide. *)
Ltac zbool :=
  repeat match goal with
  | H : (_ <? _) = true |- _ => apply Z.ltb_lt in H
  | H : (_ <? _) = false |- _ => apply Z.ltb_ge in H
  | H : (_ <=? _) = true |- _ => apply Z.leb_le in H
  | H : (_ <=? _) = false |- _ => apply Z.leb_gt in H
  | H : (_ >? _) = true |- _ => rewrite Z.gtb_ltb in H
  | H : (_ >? _) = false |- _ => rewrite Z.gtb_ltb in H
  | H : (_ >=? _) = true |- _ => rewrite Z.geb_leb in H
  | H : (_ >=? _) = false |- _ => rewrite Z.geb_leb in H
  | H : (_ =? _) = true |- _ => apply Z.eqb_eq in H
  | H : (_ =? _) = false |- _ => apply Z.eqb_neq in H
  | H : negb _ = true |- _ => apply negb_true_iff in H
  | H : negb _ = false |- _ => apply negb_false_iff in H
  | H : _ && _ = true |- _ => apply andb_true_iff in H as [? ?]
  | H : _ || _ = false |- _ => apply orb_false_iff in H as [? ?]
  end.

(** Split the first integer comparison of the goal. *)
Ltac zcase :=
  match goal with
  | |- context [?a <? ?b] => destruct (Z.ltb_spec a b)
  | |- context [?a <=? ?b] => destruct (Z.leb_spec a b)
  | |- context [?a =? ?b] => destruct (Z.eqb_spec a b)
  | |- context [?a >? ?b] => rewrite (Z.gtb_ltb a b)
  | |- context [?a >=? ?b] => rewrite (Z.geb_leb a b)
  end.

(** Decide a comparison of the goal that arithmetic settles. *)
Ltac ztrue b := replace b with true by (symmetry; repeat (zcase; try zlia); auto).
Ltac zfalse b := replace b with false by (symmetry; repeat (zcase; try zlia); auto).

(** Split every boolean conditional of the goal, keeping its equation. *)
Ltac case_if :=
  match goal with
  | |- context [if ?b then _ else _] =>
      lazymatch b with
      | context [if _ then _ else _] => fail
      | _ => let E := fresh "E" in destruct b eqn:E
      end
  end.

(** ** Arrays indexed by integers; [None] is an out-of-bounds access. *)

Section arrays.
Context {A : Type}.
Implicit Types (l : list A) (i : Z).

Definition znth l i : option A := if 0 <=? i then l !! Z.to_nat i else None.

Definition zset l i (x : A) : option (list A) :=
  if (0 <=? i) && (i <? zlen l) then Some (<[Z.to_nat i := x]> l) else None.

Lemma znth_lt l i : 0 <= i < zlen l -> exists x, znth l i = Some x.
Proof.
  intros H. unfold znth. ztrue (0 <=? i).
  destruct (lookup_lt_is_Some_2 l (Z.to_nat i)) as [x Hx]; [lia | eauto].
Qed.

Lemma znth_Some l i x : znth l i = Some x <-> 0 <= i /\ l !! Z.to_nat i = Some x.
Proof. unfold znth. zcase; intuition (try lia; try congruence). Qed.

Lemma znth_Some_lt l i x : znth l i = Some x -> 0 <= i < zlen l.
Proof. intros [Hi H%lookup_lt_Some]%znth_Some. lia. Qed.

Lemma znth_of_nat l (k : nat) : znth l (Z.of_nat k) = l !! k.
Proof. unfold znth. ztrue (0 <=? Z.of_nat k). by rewrite Nat2Z.id. Qed.

Lemma znth_app_l l k i : i < zlen l -> znth (l ++ k) i = znth l i.
Proof. intros H. unfold znth. zcase; [|done]. apply lookup_app_l. lia. Qed.

Lemma znth_app_r l k i : zlen l <= i -> znth (l ++ k) i = znth k (i - zlen l).
Proof.
  intros H. unfold znth. repeat zcase; try lia.
  rewrite lookup_app_r by lia. f_equal. lia.
Qed.

Lemma znth_take l i n : i < Z.of_nat n -> znth (take n l) i = znth l i.
Proof. intros. unfold znth. zcase; [|done]. apply lookup_take_lt. lia. Qed.

Lemma zset_Some l i x :
  0 <= i < zlen l -> zset l i x = Some (<[Z.to_nat i := x]> l).
Proof. intros. unfold zset. by ztrue ((0 <=? i) && (i <? zlen l)). Qed.

Lemma zset_inv l i x l' :
  zset l i x = Some l' -> 0 <= i < zlen l /\ l' = <[Z.to_nat i := x]> l.
Proof. unfold zset. case_if; [|done]. zbool. by intros [= <-]. Qed.

Lemma zset_length l i x l' : zset l i x = Some l' -> length l' = length l.
Proof. intros [? ->]%zset_inv. apply length_insert. Qed.

Lemma zset_app_l l k i x :
  0 <= i < zlen l -> zset (l ++ k) i x = Some (<[Z.to_nat i := x]> l ++ k).
Proof.
  intros H. rewrite zset_Some by (rewrite length_app; lia).
  by rewrite insert_app_l by lia.
Qed.

(** Writing the cell right after a prefix, the way a frame is filled. *)
Lemma zset_snoc l y k i x :
  i = zlen l -> zset (l ++ y :: k) i x = Some (l ++ x :: k).
Proof.
  intros ->. rewrite zset_Some by (rewrite length_app; cbn; lia).
  rewrite Nat2Z.id. rewrite insert_app_r_alt by lia. by rewrite Nat.sub_diag.
Qed.
End arrays.

(** ** Counted loops

    [for_range n i body s] runs [body i], [body (i+1)], ... [n] times on the
    loop state; [for_ret] is the same loop when the body can leave the function
    early with a value.  A [None] of the body (undefined behaviour) is the
    loop's. *)

Fixpoint for_range {S} (n : nat) (i : Z) (body : Z -> S -> option S) (s : S) : option S :=
  match n with
  | O => Some s
  | S n' => body i s ≫= for_range n' (i + 1) body
  end.

Fixpoint for_ret {S R} (n : nat) (i : Z) (body : Z -> S -> option (S + R)) (s : S)
    : option (S + R) :=
  match n with
  | O => Some (inl s)
  | S n' =>
      r ← body i s;
      match r with
      | inl s' => for_ret n' (i + 1) body s'
      | inr e => Some (inr e)
      end
  end.

(** Whether [p] holds for one of [i .. i+n-1], tested in order up to the first hit. *)
Fixpoint exists_range (n : nat) (i : Z) (p : Z -> option bool) : option bool :=
  match n with
  | O => Some false
  | S n' => b ← p i; if (b : bool) then Some true else exists_range n' (i + 1) p
  end.

Lemma for_range_inv {S} (I : Z -> S -> Prop) (body : Z -> S -> option S) n i s :
  (forall k s, i <= k < i + Z.of_nat n -> I k s ->
     exists s', body k s = Some s' /\ I (k + 1) s') ->
  I i s ->
  exists s', for_range n i body s = Some s' /\ I (i + Z.of_nat n) s'.
Proof.
  revert i s. induction n as [|n IH]; intros i s Hb Hi; cbn [for_range].
  - exists s. split; [done|]. by replace (i + Z.of_nat 0) with i by lia.
  - destruct (Hb i s) as (s' & -> & Hs'); [lia | done |]. cbn.
    destruct (IH (i + 1) s') as (s'' & ? & Hs''); [|done|].
    { intros k t Hk. apply Hb. lia. }
    exists s''. split; [done|]. by replace (i + Z.of_nat (Datatypes.S n)) with (i + 1 + Z.of_nat n) by lia.
Qed.

Lemma for_range_add {S} (body : Z -> S -> option S) n m i s :
  for_range (n + m) i body s = s ← for_range n i body s; for_range m (i + Z.of_nat n) body s.
Proof.
  revert i s. induction n as [|n IH]; intros i s; cbn [Nat.add for_range].
  - by rewrite Z.add_0_r.
  - destruct (body i s) as [t|]; [|done]. cbn [mbind option_bind]. rewrite IH.
    by replace (i + 1 + Z.of_nat n) with (i + Z.of_nat (Datatypes.S n)) by lia.
Qed.

Lemma for_ret_inv {S R} (I : Z -> S -> Prop) (body : Z -> S -> option (S + R)) n i s :
  (forall k s, i <= k < i + Z.of_nat n -> I k s ->
     exists s', body k s = Some (inl s') /\ I (k + 1) s') ->
  I i s ->
  exists s', for_ret n i body s = Some (inl s') /\ I (i + Z.of_nat n) s'.
Proof.
  revert i s. induction n as [|n IH]; intros i s Hb Hi; cbn [for_ret].
  - exists s. split; [done|]. by replace (i + Z.of_nat 0) with i by lia.
  - destruct (Hb i s) as (s' & -> & Hs'); [lia | done |]. cbn.
    destruct (IH (i + 1) s') as (s'' & ? & Hs''); [|done|].
    { intros k t Hk. apply Hb. lia. }
    exists s''. split; [done|]. by replace (i + Z.of_nat (Datatypes.S n)) with (i + 1 + Z.of_nat n) by lia.
Qed.

(** What a loop that returns has established. *)
Lemma for_range_partial {S} (I : Z -> S -> Prop) (body : Z -> S -> option S) n i s s' :
  (forall k t t', i <= k < i + Z.of_nat n -> I k t -> body k t = Some t' -> I (k + 1) t') ->
  I i s -> for_range n i body s = Some s' -> I (i + Z.of_nat n) s'.
Proof.
  revert i s. induction n as [|n IH]; intros i s Hb Hi; cbn [for_range].
  - intros [= <-]. by rewrite Z.add_0_r.
  - destruct (body i s) as [t|] eqn:E; [|done]. cbn [mbind option_bind]. intros H.
    replace (i + Z.of_nat (Datatypes.S n)) with (i + 1 + Z.of_nat n) by lia.
    eapply IH; [|eapply Hb; [|done..]; lia|done]. intros k u u' Hk. apply Hb. lia.
Qed.

(** A loop whose body is total on its range is a fold over the indices. *)
Lemma for_range_fold {S} (g : S -> Z -> S) (body : Z -> S -> option S) n i s :
  (forall k s, i <= k < i + Z.of_nat n -> body k s = Some (g s k)) ->
  for_range n i body s = Some (fold_left g (seqZ i (Z.of_nat n)) s).
Proof.
  revert i s. induction n as [|n IH]; intros i s H; cbn [for_range]; [done|].
  rewrite H by lia. cbn [mbind option_bind]. rewrite IH by (intros; apply H; lia).
  rewrite (seqZ_cons i (Z.of_nat (Datatypes.S n))) by lia.
  by replace (Z.pred (Z.of_nat (Datatypes.S n))) with (Z.of_nat n) by lia.
Qed.

(** A loop that extends an array by a function of what it has so far. *)
Lemma for_range_extend {A} (next : list A -> A) (body : Z -> list A -> option (list A)) n i m :
  i = zlen m ->
  (forall m', i <= zlen m' < i + Z.of_nat n -> body (zlen m') m' = Some (m' ++ [next m'])) ->
  for_range n i body m = Some (Nat.iter n (fun m => m ++ [next m]) m).
Proof.
  revert i m. induction n as [|n IH]; intros i m -> H; [done|]. cbn [for_range].
  rewrite H by lia. cbn [mbind option_bind].
  rewrite IH; [by rewrite Nat.iter_succ_r | rewrite length_app; cbn; lia | intros; apply H; lia].
Qed.

Lemma iter_extend_length {A} (next : list A -> A) n m :
  length (Nat.iter n (fun m => m ++ [next m]) m) = (length m + n)%nat.
Proof.
  induction n as [|n IH]; [cbn; lia|]. rewrite Nat.iter_succ, length_app, IH. cbn. lia.
Qed.

(** A loop that fills an array from the left. *)
Lemma for_range_snoc {A} (g : Z -> A) (body : Z -> list A -> option (list A)) n i out :
  (forall k out, i <= k < i + Z.of_nat n -> body k out = Some (out ++ [g k])) ->
  for_range n i body out = Some (out ++ (g <$> seqZ i (Z.of_nat n))).
Proof.
  revert i out. induction n as [|n IH]; intros i out H; cbn [for_range].
  - by rewrite app_nil_r.
  - rewrite H by lia. cbn [mbind option_bind]. rewrite IH by (intros; apply H; lia).
    rewrite (seqZ_cons i (Z.of_nat (S n))), <- app_assoc by lia.
    by replace (Z.pred (Z.of_nat (S n))) with (Z.of_nat n) by lia.
Qed.

(** Two loop bodies that agree on the states an invariant allows. *)
Lemma for_range_ext_inv {S} (I : S -> Prop) (b1 b2 : Z -> S -> option S) n i s :
  (forall k s, i <= k < i + Z.of_nat n -> I s ->
     b1 k s = b2 k s /\ forall s', b2 k s = Some s' -> I s') ->
  I s -> for_range n i b1 s = for_range n i b2 s.
Proof.
  revert i s. induction n as [|n IH]; intros i s Hb Hs; cbn [for_range]; [done|].
  destruct (Hb i s) as [-> Hi]; [lia | done |].
  destruct (b2 i s) as [s'|]; cbn; [|done].
  apply IH; [|auto]. intros k t Hk. apply Hb. lia.
Qed.

Lemma exists_range_spec n i (p : Z -> option bool) (q : Z -> bool) :
  (forall k, i <= k < i + Z.of_nat n -> p k = Some (q k)) ->
  exists_range n i p = Some (existsb q (seqZ i (Z.of_nat n))).
Proof.
  revert i. induction n as [|n IH]; intros i H; [done|].
  cbn [exists_range]. rewrite H by lia. cbn [mbind option_bind].
  rewrite seqZ_cons by lia. cbn [existsb].
  replace (Z.pred (Z.of_nat (S n))) with (Z.of_nat n) by lia.
  destruct (q i); cbn [orb]; [done|]. apply IH. intros k Hk. apply H. lia.
Qed.

(** ** Iteration *)

Lemma iter_inv {A} (P : A -> Prop) (f : A -> A) n x :
  (forall y, P y -> P (f y)) -> P x -> P (Nat.iter n f x).
Proof. intros Hf Hx. induction n; [done|]. rewrite Nat.iter_succ. auto. Qed.

Lemma iter_morph {A B} (h : A -> B) (f : A -> A) (g : B -> B) n x :
  (forall y, h (f y) = g (h y)) -> h (Nat.iter n f x) = Nat.iter n g (h x).
Proof. intros Hh. induction n; [done|]. by rewrite !Nat.iter_succ, Hh, IHn. Qed.

(** ** Options and lists *)

Lemma bind_Some {A B} (f : A -> option B) x : (Some x ≫= f) = f x.
Proof. done. Qed.

Lemma fold_left_cons {A B} (f : A -> B -> A) b l a :
  fold_left f (b :: l) a = fold_left f l (f a b).
Proof. done. Qed.

Lemma fold_left_ext {A B} (f g : A -> B -> A) l a :
  (forall a b, f a b = g a b) -> fold_left f l a = fold_left g l a.
Proof. intros H. revert a. induction l as [|b l IH]; intros a; cbn; [done|]. by rewrite H. Qed.

Lemma fold_left_inv {A B} (P : A -> Prop) (Q : B -> Prop) (f : A -> B -> A) l a :
  (forall a b, P a -> Q b -> P (f a b)) -> Forall Q l -> P a -> P (fold_left f l a).
Proof. intros Hf Hl. revert a. induction Hl; cbn; auto. Qed.

Lemma fold_left_ext_inv {A B} (P : A -> Prop) (Q : B -> Prop) (f g : A -> B -> A) l a :
  (forall a b, P a -> Q b -> f a b = g a b /\ P (g a b)) ->
  Forall Q l -> P a -> fold_left f l a = fold_left g l a.
Proof.
  intros Hf Hl. revert a. induction Hl as [|b l Hb _ IH]; intros a Ha; cbn; [done|].
  destruct (Hf a b) as [-> ?]; auto.
Qed.

Lemma list_eq_znth {A} (l k : list A) :
  zlen l = zlen k -> (forall i, 0 <= i < zlen l -> znth l i = znth k i) -> l = k.
Proof.
  intros Hlen H. apply list_eq_same_length with (n := length l); [lia | done |].
  intros i x y Hi Hx Hy. specialize (H (Z.of_nat i) ltac:(lia)).
  rewrite !znth_of_nat in H. congruence.
Qed.

Lemma znth_inserts {A} (k l : list A) i j :
  0 <= i ->
  znth (list_inserts (Z.to_nat i) k l) j
  = if (i <=? j) && (j <? i + zlen k) && (j <? zlen l) then znth k (j - i) else znth l j.
Proof.
  intros Hi. unfold znth. destruct (Z.leb_spec 0 j) as [Hj|Hj].
  2: { by zfalse (i <=? j). }
  destruct ((i <=? j) && (j <? i + zlen k) && (j <? zlen l)) eqn:E.
  - zbool. ztrue (0 <=? j - i). rewrite list_lookup_inserts by lia. f_equal. lia.
  - destruct (Z.ltb_spec j (zlen l)) as [Hl|Hl].
    + destruct (Z.leb_spec i j); [|by rewrite list_lookup_inserts_lt by lia].
      destruct (Z.ltb_spec j (i + zlen k)); [done|].
      by rewrite list_lookup_inserts_ge by lia.
    + rewrite !lookup_ge_None_2; [done|lia|rewrite length_inserts; lia].
Qed.

Lemma take_inserts {A} (k l : list A) n i :
  (i + length k <= n)%nat -> take n (list_inserts i k l) = list_inserts i k (take n l).
Proof.
  revert i. induction k as [|x k IH]; intros i H; [done|]. cbn in H |- *.
  rewrite take_insert_lt by lia. by rewrite IH by lia.
Qed.

Lemma Forall_inserts {A} (P : A -> Prop) (k l : list A) i :
  Forall P k -> Forall P l -> Forall P (list_inserts i k l).
Proof. intros Hk. revert i. induction Hk; intros; cbn; [done|]. apply Forall_insert; auto. Qed.

(** A test run on every index below [n], for checks by computation. *)
Lemma forallb_seqZ (p : Z -> bool) n i :
  forallb p (seqZ 0 n) = true -> 0 <= i < n -> p i = true.
Proof. rewrite forallb_forall. intros H Hi. apply H, list_elem_of_In, elem_of_seqZ. lia. Qed.

Create HintDb bigbox.
Create Rewrite HintDb bblen.
#[export] Hint Rewrite @length_app @length_insert @length_take @length_drop @length_replicate
  @length_fmap @length_seq @length_seqZ @length_cons @length_nil @length_inserts : bblen.

(** Lengths of the list expressions of a goal, then arithmetic. *)
Ltac len := autorewrite with bblen in *; cbn [length] in *; lia.

(** ** Copies into an array *)

Lemma inserts_app {A} (k l r : list A) i :
  (i + length k <= length l)%nat -> list_inserts i k (l ++ r) = list_inserts i k l ++ r.
Proof.
  revert i. induction k as [|x k IH]; intros i H; [done|]. cbn in H |- *.
  rewrite IH by lia. apply insert_app_l. rewrite length_inserts. lia.
Qed.

(** An array overwritten by a copy that fits. *)
Lemma inserts_eq {A} (k l : list A) i :
  (i + length k <= length l)%nat -> list_inserts i k l = take i l ++ k ++ drop (i + length k) l.
Proof.
  revert i. induction k as [|x k IH]; intros i H; cbn in *; [by rewrite Nat.add_0_r, take_drop|].
  rewrite IH by lia. rewrite insert_app_l by (rewrite length_take; lia).
  rewrite (take_S_r l i (default x (l !! i))).
  2: { destruct (lookup_lt_is_Some_2 l i) as [y ->]; [lia|done]. }
  rewrite insert_app_r_alt by (rewrite length_take; lia). rewrite length_take, Nat.min_l by lia.
  rewrite Nat.sub_diag. cbn. rewrite <- app_assoc. cbn. do 4 f_equal. lia.
Qed.

Lemma take_inserts_snoc {A} (k l : list A) i :
  (i + length k <= length l)%nat -> take (i + length k) (list_inserts i k l) = take i l ++ k.
Proof.
  intros. rewrite inserts_eq by done. rewrite app_assoc, take_app_le by len.
  apply take_ge. len.
Qed.

(** ** Positions in lists without duplicates *)

Lemma NoDup_split_unique {A} (a : A) l1 l2 k1 k2 :
  NoDup (l1 ++ a :: l2) -> l1 ++ a :: l2 = k1 ++ a :: k2 -> l1 = k1 /\ l2 = k2.
Proof.
  revert k1. induction l1 as [|x l1 IH]; intros [|y k1] Hn E; cbn in *; simplify_eq.
  - done.
  - apply NoDup_cons in Hn as [Hn _]. exfalso. apply Hn, elem_of_app. right. left.
  - apply NoDup_cons in Hn as [Hn _]. exfalso. apply Hn, elem_of_app. right. left.
  - apply NoDup_cons in Hn as [_ Hn]. destruct (IH k1 Hn) as [-> ->]; done.
Qed.

(** ** Exchanging two cells *)

Definition swap {A} (l : list A) (i j : Z) : list A :=
  match znth l i, znth l j with
  | Some a, Some b => <[Z.to_nat j := a]> (<[Z.to_nat i := b]> l)
  | _, _ => l
  end.

Lemma znth_insert {A} (l : list A) i j x :
  0 <= i < zlen l -> znth (<[Z.to_nat i := x]> l) j = if j =? i then Some x else znth l j.
Proof.
  intros Hi. unfold znth. destruct (Z.leb_spec 0 j); [|by zfalse (j =? i)].
  destruct (Z.eqb_spec j i) as [->|].
  - apply list_lookup_insert_eq. lia.
  - apply list_lookup_insert_ne. lia.
Qed.

Lemma znth_swap {A} (l : list A) i j k :
  0 <= i < zlen l -> 0 <= j < zlen l ->
  znth (swap l i j) k
  = if k =? j then znth l i else if k =? i then znth l j else znth l k.
Proof.
  intros Hi Hj. destruct (znth_lt l i Hi) as [a Ha], (znth_lt l j Hj) as [b Hb].
  unfold swap. rewrite Ha, Hb. by rewrite !znth_insert by len.
Qed.

Lemma swap_length {A} (l : list A) i j : length (swap l i j) = length l.
Proof. unfold swap. destruct (znth l i), (znth l j); by rewrite ?length_insert. Qed.
#[export] Hint Rewrite @swap_length : bblen.

Lemma insert_perm {A} (l : list A) i x y :
  l !! i = Some x -> x :: <[i := y]> l ≡ₚ y :: l.
Proof.
  intros H. pose proof (lookup_lt_Some _ _ _ H).
  rewrite (delete_Permutation (<[i := y]> l) i y) by (by apply list_lookup_insert_eq).
  rewrite delete_take_drop, take_insert_ge, drop_insert_lt, <- delete_take_drop by lia.
  etrans; [apply Permutation_swap|].
  constructor. symmetry. by apply delete_Permutation.
Qed.

Lemma double_insert_perm {A} (l : list A) i j x y :
  l !! i = Some x -> l !! j = Some y -> <[j := x]> (<[i := y]> l) ≡ₚ l.
Proof.
  intros Hi Hj. apply (Permutation_cons_inv (a := y)).
  destruct (decide (i = j)) as [->|Hne].
  - assert (x = y) as -> by congruence. by rewrite !list_insert_id by (rewrite ?list_insert_id; done).
  - rewrite insert_perm by (by rewrite list_lookup_insert_ne). by apply insert_perm.
Qed.

Lemma swap_permutation {A} (l : list A) i j : swap l i j ≡ₚ l.
Proof.
  unfold swap. destruct (znth l i) as [x|] eqn:Hi; [|done]. destruct (znth l j) as [y|] eqn:Hj; [|done].
  apply znth_Some in Hi as [_ Hi], Hj as [_ Hj]. by apply double_insert_perm.
Qed.
