(* ===== verification/CMem.v ===== *)
(** * Machine words and byte memory

    Unsigned C integers are [Z] with the wrap-around of their width written
    out ([u8], [u16], [u32]); a C object of type [uint8_t[]] is a [list Z], and
    reading or writing outside it is [None].  The byte order of the host is the
    boolean [be] (the [ARCH_USED_BIG_ENDIAN] configuration macro). *)

From S2P Require Import Prelude.

(** ** Words *)

Definition u8 (x : Z) : Z := x `mod` 2 ^ 8.
Definition u16 (x : Z) : Z := x `mod` 2 ^ 16.
Definition u32 (x : Z) : Z := x `mod` 2 ^ 32.
Definition u64 (x : Z) : Z := x `mod` 2 ^ 64.

(** Whether an [int] holds the number: the operations on [int] must not leave this range. *)
Definition is_int (x : Z) : bool := (- 2 ^ 31 <=? x) && (x <? 2 ^ 31).

(** Conversion of [uint32_t] to [int]. *)
Definition int32 (x : Z) : Z := if u32 x <? 2147483648 then u32 x else u32 x - 4294967296.

(** [int] multiplication; overflow is undefined. *)
Definition int_mul (a b : Z) : option Z :=
  if is_int (a * b) then Some (a * b) else None.

Abbreviation is_u8 x := (0 <= x < 256).
Abbreviation is_u16 x := (0 <= x < 65536).
Abbreviation is_u32 x := (0 <= x < 4294967296).

Abbreviation bytes_ok m := (Forall (fun b => is_u8 b) m).

(** Deciding byte ranges by computation. *)
Lemma bytes_ok_decide m : forallb (fun b => (0 <=? b) && (b <? 256)) m = true -> bytes_ok m.
Proof.
  rewrite forallb_forall. intros H. apply Forall_forall. intros b Hb%list_elem_of_In%H.
  zbool. lia.
Qed.

Lemma int_mul_Some a b : - 2 ^ 31 <= a * b < 2 ^ 31 -> int_mul a b = Some (a * b).
Proof. intros. unfold int_mul, is_int. by ztrue ((- 2 ^ 31 <=? a * b) && (a * b <? 2 ^ 31)). Qed.

Lemma u8_range x : is_u8 (u8 x).
Proof. unfold u8. zlia. Qed.

Lemma u16_range x : is_u16 (u16 x).
Proof. unfold u16. zlia. Qed.

Lemma u32_range x : is_u32 (u32 x).
Proof. unfold u32. zlia. Qed.

Lemma u64_range x : 0 <= u64 x < 2 ^ 64.
Proof. apply Z.mod_pos_bound. lia. Qed.

Lemma u8_id x : is_u8 x -> u8 x = x.
Proof. intros. unfold u8. zlia. Qed.

Lemma u16_id x : is_u16 x -> u16 x = x.
Proof. intros. unfold u16. zlia. Qed.

Lemma u32_id x : is_u32 x -> u32 x = x.
Proof. intros. unfold u32. zlia. Qed.

#[export] Hint Resolve u8_range u16_range u32_range : bigbox.

Lemma land_ones_mod x n : 0 <= n -> Z.land x (2 ^ n - 1) = x `mod` 2 ^ n.
Proof. intros. rewrite <- Z.land_ones by done. by rewrite Z.ones_equiv, <- Z.sub_1_r. Qed.

Lemma lor_disjoint_add hi lo n :
  0 <= n -> 0 <= lo < 2 ^ n -> Z.lor (hi * 2 ^ n) lo = hi * 2 ^ n + lo.
Proof.
  intros Hn Hlo. rewrite <- Z.shiftl_mul_pow2 by done.
  assert (Z.land (Z.shiftl hi n) lo = 0) as Hd.
  { apply Z.bits_inj'. intros k Hk. rewrite Z.land_spec, Z.bits_0.
    destruct (Z.lt_ge_cases k n); [by rewrite Z.shiftl_spec_low|].
    rewrite <- (Z.mod_small lo (2 ^ n)) by done.
    by rewrite Z.mod_pow2_bits_high, andb_false_r. }
  by rewrite Z.add_nocarry_lxor, Z.lxor_lor.
Qed.

Lemma testbit_high x n i : 0 <= x < 2 ^ n -> n <= i -> 0 <= n -> Z.testbit x i = false.
Proof.
  intros. rewrite <- (Z.mod_small x (2 ^ n)) by done. by apply Z.mod_pow2_bits_high.
Qed.

Lemma bits_range x n :
  0 <= n -> (forall i, n <= i -> Z.testbit x i = false) -> 0 <= x < 2 ^ n.
Proof.
  intros Hn H. replace x with (x `mod` 2 ^ n); [apply Z.mod_pos_bound; lia|].
  apply Z.bits_inj'. intros i Hi. destruct (Z.lt_ge_cases i n).
  - by rewrite Z.mod_pow2_bits_low.
  - rewrite Z.mod_pow2_bits_high by lia. symmetry. auto.
Qed.

Lemma lxor_range x y n : 0 <= n -> 0 <= x < 2 ^ n -> 0 <= y < 2 ^ n -> 0 <= Z.lxor x y < 2 ^ n.
Proof.
  intros. apply bits_range; [done|]. intros. rewrite Z.lxor_spec.
  by rewrite !(testbit_high _ n).
Qed.

Lemma lor_range x y n : 0 <= n -> 0 <= x < 2 ^ n -> 0 <= y < 2 ^ n -> 0 <= Z.lor x y < 2 ^ n.
Proof.
  intros. apply bits_range; [done|]. intros. rewrite Z.lor_spec.
  by rewrite !(testbit_high _ n).
Qed.

Lemma land_range x y n : 0 <= n -> 0 <= x < 2 ^ n -> 0 <= Z.land x y < 2 ^ n.
Proof.
  intros. apply bits_range; [done|]. intros. rewrite Z.land_spec.
  by rewrite (testbit_high x n).
Qed.

Lemma shiftr_range x n k : 0 <= n -> 0 <= k -> 0 <= x < 2 ^ n -> 0 <= Z.shiftr x k < 2 ^ n.
Proof.
  intros. apply bits_range; [done|]. intros. rewrite Z.shiftr_spec by lia.
  apply (testbit_high _ n); lia.
Qed.

(** ** Byte memory *)

(** An access [m[i]] and a store [m[i] = v] of a [uint8_t] array. *)
Definition rd8 (m : list Z) (i : Z) : option Z := znth m i.
Definition wr8 (m : list Z) (i v : Z) : option (list Z) := zset m i (u8 v).

(** A packed [uint16_t] member at byte offset [i], in the host's byte order. *)
Definition load16 (be : bool) (b0 b1 : Z) : Z :=
  if be then b0 * 256 + b1 else b1 * 256 + b0.

Definition store16 (be : bool) (v : Z) : list Z :=
  if be then [u16 v `div` 256; u16 v `mod` 256] else [u16 v `mod` 256; u16 v `div` 256].

Definition rd16 (be : bool) (m : list Z) (i : Z) : option Z :=
  b0 ← rd8 m i; b1 ← rd8 m (i + 1); Some (load16 be b0 b1).

Definition wr16 (be : bool) (m : list Z) (i v : Z) : option (list Z) :=
  match store16 be v with
  | [b0; b1] => m ← wr8 m i b0; wr8 m (i + 1) b1
  | _ => None
  end.

(** [memcpy (m + i, src, n)] with [src] the [n] bytes copied. *)
Definition wr_bytes (m : list Z) (i : Z) (src : list Z) : option (list Z) :=
  if (0 <=? i) && (i + zlen src <=? zlen m)
  then Some (list_inserts (Z.to_nat i) src m) else None.

(** The [n] bytes at offset [i]. *)
Definition rd_bytes (m : list Z) (i n : Z) : option (list Z) :=
  if (0 <=? i) && (0 <=? n) && (i + n <=? zlen m)
  then Some (take (Z.to_nat n) (drop (Z.to_nat i) m)) else None.

(** [calloc (n, 1)]: [n] zero bytes. *)
Definition zeros (n : Z) : list Z := replicate (Z.to_nat n) 0.

Lemma zeros_length n : length (zeros n) = Z.to_nat n.
Proof. apply length_replicate. Qed.
#[export] Hint Rewrite zeros_length : bblen.

Lemma zeros_len n : 0 <= n -> zlen (zeros n) = n.
Proof. intros. len. Qed.

Lemma load_store16 be v : is_u16 v ->
  match store16 be v with [a; b] => load16 be a b = v | _ => False end.
Proof. intros. unfold store16, load16. rewrite u16_id by done. destruct be; zlia. Qed.

Lemma store16_ok be v : bytes_ok (store16 be v).
Proof.
  pose proof (u16_range v). unfold store16.
  destruct be; repeat constructor; zlia.
Qed.

Lemma store16_length be v : length (store16 be v) = 2%nat.
Proof. by destruct be. Qed.

Lemma load16_range be a b : is_u8 a -> is_u8 b -> is_u16 (load16 be a b).
Proof. intros. unfold load16. destruct be; lia. Qed.

(** Two host words are equal exactly when their bytes are. *)
Lemma load16_inj be a b c d : is_u8 a -> is_u8 b -> is_u8 c -> is_u8 d ->
  load16 be a b = load16 be c d -> a = c /\ b = d.
Proof. unfold load16. destruct be; lia. Qed.

Lemma wr8_Some m i v : 0 <= i < zlen m -> wr8 m i v = Some (<[Z.to_nat i := u8 v]> m).
Proof. apply zset_Some. Qed.

Lemma wr8_snoc l y k i v : i = zlen l -> wr8 (l ++ y :: k) i v = Some (l ++ u8 v :: k).
Proof. apply zset_snoc. Qed.

Lemma wr8_length m i v m' : wr8 m i v = Some m' -> length m' = length m.
Proof. apply zset_length. Qed.

Lemma rd8_lt m i : 0 <= i < zlen m -> exists b, rd8 m i = Some b.
Proof. apply znth_lt. Qed.

Lemma rd8_byte m i b : bytes_ok m -> rd8 m i = Some b -> is_u8 b.
Proof.
  intros Hm [_ H]%znth_Some. rewrite Forall_lookup in Hm. eauto.
Qed.

Lemma wr8_ok m i v m' : bytes_ok m -> wr8 m i v = Some m' -> bytes_ok m'.
Proof.
  intros Hm [? ->]%zset_inv. apply Forall_insert; [done|]. auto with bigbox.
Qed.

Lemma zeros_ok n : bytes_ok (zeros n).
Proof. apply Forall_replicate. lia. Qed.

#[export] Hint Resolve store16_ok zeros_ok rd8_byte wr8_ok : bigbox.

(** ** Copies between byte arrays *)

(** [memcpy (&dst[doff], &src[soff], n)]. *)
Definition memcpy (dst : list Z) (doff : Z) (src : list Z) (soff n : Z) : option (list Z) :=
  data ← rd_bytes src soff n; wr_bytes dst doff data.

(** [memmove] inside one object, and [memcpy], which the ranges may not overlap. *)
Definition memmove_in (m : list Z) (doff soff n : Z) : option (list Z) :=
  data ← rd_bytes m soff n; wr_bytes m doff data.
Definition memcpy_in (m : list Z) (doff soff n : Z) : option (list Z) :=
  if (n =? 0) || (n <=? Z.abs (doff - soff)) then memmove_in m doff soff n else None.

Lemma memcpy_Some dst doff src soff n :
  0 <= doff -> 0 <= soff -> 0 <= n -> doff + n <= zlen dst -> soff + n <= zlen src ->
  memcpy dst doff src soff n
  = Some (list_inserts (Z.to_nat doff) (take (Z.to_nat n) (drop (Z.to_nat soff) src)) dst).
Proof.
  intros. unfold memcpy, rd_bytes.
  ztrue ((0 <=? soff) && (0 <=? n) && (soff + n <=? zlen src)). rewrite bind_Some.
  unfold wr_bytes. rewrite length_take, length_drop.
  by ztrue ((0 <=? doff) && (doff + Z.of_nat (Z.to_nat n `min` (length src - Z.to_nat soff)) <=? zlen dst)).
Qed.

(** A copy behind what is written already. *)
Lemma wr_bytes_app l rest data i :
  i = zlen l -> zlen data <= zlen rest ->
  wr_bytes (l ++ rest) i data = Some (l ++ data ++ drop (length data) rest).
Proof.
  intros -> Hd. unfold wr_bytes.
  rewrite length_app, Nat2Z.inj_add. ztrue ((0 <=? zlen l) && (zlen l + zlen data <=? zlen l + zlen rest)).
  rewrite Nat2Z.id, inserts_eq by len. rewrite take_app_length.
  by rewrite <- drop_drop, drop_app_length.
Qed.

Lemma rd_bytes_app l data rest i n :
  i = zlen l -> n = zlen data -> rd_bytes (l ++ data ++ rest) i n = Some data.
Proof.
  intros -> ->. unfold rd_bytes. rewrite !length_app.
  ztrue ((0 <=? zlen l) && (0 <=? zlen data)
         && (zlen l + zlen data <=? Z.of_nat (length l + (length data + length rest)))).
  by rewrite !Nat2Z.id, drop_app_length, take_app_length.
Qed.

Lemma memcpy_app l rest data i n :
  i = zlen l -> 0 <= n <= zlen data -> n <= zlen rest ->
  memcpy (l ++ rest) i data 0 n = Some (l ++ take (Z.to_nat n) data ++ drop (Z.to_nat n) rest).
Proof.
  intros -> Hn Hr. unfold memcpy, rd_bytes.
  ztrue ((0 <=? 0) && (0 <=? n) && (0 + n <=? zlen data)). rewrite bind_Some, drop_0, wr_bytes_app by len.
  rewrite length_take, Nat.min_l by lia. done.
Qed.

Lemma memmove_front pre k rest i n : i = zlen pre -> n = zlen k ->
  memmove_in (pre ++ k ++ rest) 0 i n = Some (k ++ drop (length k) (pre ++ k ++ rest)).
Proof.
  intros -> ->. unfold memmove_in. rewrite rd_bytes_app, bind_Some by done.
  apply (wr_bytes_app []); [done | rewrite !length_app; lia].
Qed.

Lemma rd8_skip pre l i (j : nat) : i = zlen pre + Z.of_nat j -> rd8 (pre ++ l) i = l !! j.
Proof. intros ->. unfold rd8. rewrite znth_app_r by lia. rewrite Z.add_simpl_l. apply znth_of_nat. Qed.

Lemma wr8_at l y k i v : i = zlen l -> is_u8 v -> wr8 (l ++ y :: k) i v = Some (l ++ v :: k).
Proof. intros -> Hv. by rewrite wr8_snoc, u8_id. Qed.

Lemma rd_bytes_prefix m rest i n d : rd_bytes m i n = Some d -> rd_bytes (m ++ rest) i n = Some d.
Proof.
  unfold rd_bytes. intros H. destruct ((0 <=? i) && (0 <=? n) && (i + n <=? zlen m)) eqn:E; [|done].
  rewrite !andb_true_iff in E. zbool.
  rewrite length_app. ztrue ((0 <=? i) && (0 <=? n) && (i + n <=? Z.of_nat (length m + length rest))).
  rewrite <- H. f_equal. rewrite drop_app_le, take_app_le by (rewrite ?length_drop; lia). done.
Qed.

Lemma rd8_prefix m rest i b : rd8 m i = Some b -> rd8 (m ++ rest) i = Some b.
Proof. unfold rd8. intros H. rewrite znth_app_l; [done|]. apply znth_Some_lt in H. lia. Qed.

(** ** Reading loops

    [for (i = 0; i < n; i++) s = f (s, m[i])] folds [f] over the bytes read. *)

Lemma for_range_rd_fold {S} (f : S -> Z -> S) m n i s :
  0 <= i -> i + Z.of_nat n <= zlen m ->
  for_range n i (fun k s => b ← rd8 m k; Some (f s b)) s
  = Some (fold_left f (take n (drop (Z.to_nat i) m)) s).
Proof.
  revert i s. induction n as [|n IH]; intros i s Hi Hn; [done|].
  cbn [for_range]. destruct (rd8_lt m i) as [b Hb]; [lia|].
  rewrite Hb. cbn [mbind option_bind]. rewrite IH by lia.
  unfold rd8 in Hb. apply znth_Some in Hb as [_ Hb].
  rewrite (drop_S m b (Z.to_nat i)) by done.
  cbn [take fold_left]. by replace (Z.to_nat (i + 1)) with (Datatypes.S (Z.to_nat i)) by lia.
Qed.

(** The same loop from the start of the array. *)
Lemma for_range_rd_fold0 {S} (f : S -> Z -> S) m n s :
  0 <= n <= zlen m ->
  for_range (Z.to_nat n) 0 (fun k s => b ← rd8 m k; Some (f s b)) s
  = Some (fold_left f (take (Z.to_nat n) m) s).
Proof. intros. rewrite for_range_rd_fold by lia. by rewrite drop_0. Qed.

(** ** Strings *)

(** The sign of [strcmp]: bytes compared as unsigned, the end of a string first. *)
Fixpoint strcmp (a b : list Z) : Z :=
  match a, b with
  | [], [] => 0
  | [], _ :: _ => -1
  | _ :: _, [] => 1
  | x :: a, y :: b => if x <? y then -1 else if y <? x then 1 else strcmp a b
  end.

Lemma strcmp_range a b : strcmp a b = -1 \/ strcmp a b = 0 \/ strcmp a b = 1.
Proof. revert b. induction a as [|x a IH]; intros [|y b]; cbn; auto. repeat case_if; auto. Qed.

Lemma strcmp_eq a b : strcmp a b = 0 -> a = b.
Proof.
  revert b. induction a as [|x a IH]; intros [|y b]; cbn; try done.
  repeat case_if; try done. zbool. intros ->%IH. f_equal. lia.
Qed.

Lemma strcmp_refl a : strcmp a a = 0.
Proof. induction a as [|x a IH]; cbn; [done|]. by zfalse (x <? x). Qed.

Lemma strcmp_flip a b : 0 < strcmp a b -> strcmp b a < 0.
Proof.
  revert b. induction a as [|x a IH]; intros [|y b]; cbn; try lia.
  destruct (Z.ltb_spec x y), (Z.ltb_spec y x); try lia. apply IH.
Qed.

Lemma strcmp_trans a b c : strcmp a b < 0 -> strcmp b c < 0 -> strcmp a c < 0.
Proof.
  revert b c. induction a as [|x a IH]; intros [|y b] [|z c]; cbn; try lia.
  repeat case_if; zbool; try lia. apply IH.
Qed.

(** The characters up to the first NUL. *)
Fixpoint c_str (m : list Z) : list Z :=
  match m with
  | c :: m => if c =? 0 then [] else c :: c_str m
  | [] => []
  end.

Lemma c_str_app s rest : 0 ∉ s -> c_str (s ++ 0 :: rest) = s.
Proof.
  induction s as [|c s IH]; intros H; [done|]. apply not_elem_of_cons in H as [Hc H]. cbn [app c_str].
  rewrite (proj2 (Z.eqb_neq c 0)) by congruence. by rewrite IH.
Qed.
