(* ===== verification/Crc.v ===== *)
(** * Checksums: fun_algorithm/crc.c and fun_algorithm/crc_table.c

    The three bitwise checksums of crc.c and the three table-driven ones of
    crc_table.c, with the reference register machine they are compared with.
    The debugging [printf] calls of [crc32] are not modelled.  A [NULL] or too
    short input buffer is [None] where the code dereferences it. *)

From S2P Require Import Prelude CMem.

(** ** Bit steps *)

Definition crc8_bit (crc : Z) : Z :=
  if negb (Z.land crc 1 =? 0) then Z.lxor (Z.shiftr crc 1) 0x8C else Z.shiftr crc 1.

Definition crc16_bit (crc : Z) : Z :=
  if negb (Z.land crc 1 =? 0) then Z.lxor (Z.shiftr crc 1) 0xA001 else Z.shiftr crc 1.

Definition crc32_bit (r : Z) : Z :=
  if negb (Z.land r 1 =? 0) then Z.lxor (Z.shiftr r 1) 0xEDB88320 else Z.shiftr r 1.

(** ** crc.c *)

Definition crc8_byte (crc data : Z) : Z := Nat.iter 8 crc8_bit (Z.lxor crc (Z.land data 0xFF)).
Definition crc16_byte (crc data : Z) : Z := Nat.iter 8 crc16_bit (Z.lxor crc data).
Definition crc32_byte (r data : Z) : Z := Nat.iter 8 crc32_bit (Z.lxor r data).

(** [while (len--)] with a negative [len] runs off the buffer. *)
Definition crc8 (ptr : list Z) (len : Z) : option Z :=
  if len <? 0 then None
  else for_range (Z.to_nat len) 0 (fun i crc => data ← rd8 ptr i; Some (crc8_byte crc data)) 0.

Definition crc16 (input : list Z) (len : Z) : option Z :=
  for_range (Z.to_nat len) 0
    (fun i crc => b ← rd8 input i; Some (crc16_byte crc b)) 0xFFFF.

Definition crc32 (input : list Z) (len : Z) : option Z :=
  r ← for_range (Z.to_nat len) 0
        (fun i r => b ← rd8 input i; Some (crc32_byte r b)) 0xFFFFFFFF;
  Some (u32 (Z.lxor r 0xFFFFFFFF)).

(** ** crc_table.c *)

Definition sht75_crc_table : list Z :=
  [0; 49; 98; 83; 196; 245; 166; 151; 185; 136; 219; 234; 125; 76; 31; 46;
   67; 114; 33; 16; 135; 182; 229; 212; 250; 203; 152; 169; 62; 15; 92; 109;
   134; 183; 228; 213; 66; 115; 32; 17; 63; 14; 93; 108; 251; 202; 153; 168;
   197; 244; 167; 150; 1; 48; 99; 82; 124; 77; 30; 47; 184; 137; 218; 235;
   61; 12; 95; 110; 249; 200; 155; 170; 132; 181; 230; 215; 64; 113; 34; 19;
   126; 79; 28; 45; 186; 139; 216; 233; 199; 246; 165; 148; 3; 50; 97; 80;
   187; 138; 217; 232; 127; 78; 29; 44; 2; 51; 96; 81; 198; 247; 164; 149;
   248; 201; 154; 171; 60; 13; 94; 111; 65; 112; 35; 18; 133; 180; 231; 214;
   122; 75; 24; 41; 190; 143; 220; 237; 195; 242; 161; 144; 7; 54; 101; 84;
   57; 8; 91; 106; 253; 204; 159; 174; 128; 177; 226; 211; 68; 117; 38; 23;
   252; 205; 158; 175; 56; 9; 90; 107; 69; 116; 39; 22; 129; 176; 227; 210;
   191; 142; 221; 236; 123; 74; 25; 40; 6; 55; 100; 85; 194; 243; 160; 145;
   71; 118; 37; 20; 131; 178; 225; 208; 254; 207; 156; 173; 58; 11; 88; 105;
   4; 53; 102; 87; 192; 241; 162; 147; 189; 140; 223; 238; 121; 72; 27; 42;
   193; 240; 163; 146; 5; 52; 103; 86; 120; 73; 26; 43; 188; 141; 222; 239;
   130; 179; 224; 209; 70; 119; 36; 21; 59; 10; 89; 104; 255; 206; 157; 172].

(** [for (a = 0; a < len; a++) crc = sht75_crc_table[*ptr++ ^ crc];] *)
Definition crc8_tab (input_str : option (list Z)) (len : Z) : option Z :=
  match input_str with
  | None => Some 0
  | Some ptr =>
      for_range (Z.to_nat len) 0
        (fun a crc => b ← rd8 ptr a; znth sht75_crc_table (Z.lxor b crc)) 0
  end.

Definition init_crc16_entry (i : Z) : Z :=
  fst (Nat.iter 8
    (fun '(crc, c) =>
       (if negb (Z.land (Z.lxor crc c) 0x0001 =? 0)
        then Z.lxor (Z.shiftr crc 1) 0xA001 else Z.shiftr crc 1,
        Z.shiftr c 1)) (0, i)).

Definition init_crc16_table : list Z := init_crc16_entry <$> seqZ 0 256.

(** [a] is a [size_t]: a negative [len] compares as a huge bound. *)
Definition crc16_tab (input_str : option (list Z)) (len : Z) : option Z :=
  let crc_tab16 := init_crc16_table in
  match input_str with
  | None => Some 0
  | Some ptr =>
      if len <? 0 then None
      else for_range (Z.to_nat len) 0
        (fun a crc =>
           b ← rd8 ptr a;
           t ← znth crc_tab16 (Z.land (Z.lxor crc b) 0x00FF);
           Some (Z.lxor (Z.shiftr crc 8) t)) 0
  end.

Definition init_crc32_table : list Z := Nat.iter 8 crc32_bit <$> seqZ 0 256.

Definition crc32_tab (input_str : list Z) (len : Z) : option Z :=
  let crc_table32 := init_crc32_table in
  if len <? 0 then None
  else for_range (Z.to_nat len) 0
    (fun i crc =>
       b ← rd8 input_str i;
       t ← znth crc_table32 (Z.land (Z.lxor crc b) 0xff);
       Some (Z.lxor t (Z.shiftr crc 8))) 0.

(** ** The reflected shift register

    All three bit steps are one step of a right-shifting register with feedback
    polynomial [poly]; it is linear over exclusive or, and invertible on
    [n]-bit states when [poly] has bit [n-1]. *)

Section lfsr.
Variable poly : Z.

Definition lfsr_bit (x : Z) : Z :=
  if negb (Z.land x 1 =? 0) then Z.lxor (Z.shiftr x 1) poly else Z.shiftr x 1.

Definition lfsr_byte (crc data : Z) : Z := Nat.iter 8 lfsr_bit (Z.lxor crc data).

Lemma lfsr_bit_alt x :
  lfsr_bit x = Z.lxor (Z.shiftr x 1) (if Z.testbit x 0 then poly else 0).
Proof.
  unfold lfsr_bit. replace (Z.land x 1) with (Z.b2z (Z.testbit x 0)).
  - destruct (Z.testbit x 0); cbn; [done|]. by rewrite Z.lxor_0_r.
  - change 1 with (Z.ones 1). by rewrite Z.land_ones, Z.bit0_mod by lia.
Qed.

Lemma lfsr_bit_linear x y : lfsr_bit (Z.lxor x y) = Z.lxor (lfsr_bit x) (lfsr_bit y).
Proof.
  rewrite !lfsr_bit_alt, Z.shiftr_lxor, Z.lxor_spec.
  apply Z.bits_inj'. intros i Hi. rewrite !Z.lxor_spec.
  destruct (Z.testbit x 0), (Z.testbit y 0); cbn [xorb]; rewrite ?Z.bits_0;
    destruct (Z.testbit (Z.shiftr x 1) i), (Z.testbit (Z.shiftr y 1) i),
      (Z.testbit poly i); done.
Qed.

Lemma lfsr_iter_linear k x y :
  Nat.iter k lfsr_bit (Z.lxor x y) = Z.lxor (Nat.iter k lfsr_bit x) (Nat.iter k lfsr_bit y).
Proof. induction k; [done|]. by rewrite !Nat.iter_succ, IHk, lfsr_bit_linear. Qed.

(** A state whose [k] low bits are clear is only shifted. *)
Lemma lfsr_iter_shift k x :
  Nat.iter k lfsr_bit (Z.shiftl x (Z.of_nat k)) = x.
Proof.
  revert x. induction k as [|k IH]; intros x; [by rewrite Z.shiftl_0_r|].
  rewrite Nat.iter_succ_r.
  transitivity (Nat.iter k lfsr_bit (Z.shiftl x (Z.of_nat k))); [f_equal | apply IH].
  rewrite lfsr_bit_alt, Z.shiftl_spec_low by lia. rewrite Z.lxor_0_r.
  rewrite Z.shiftr_shiftl_l by lia. f_equal. lia.
Qed.

(** The table method: the low byte is looked up, the high part shifted in. *)
Lemma lfsr_byte_split x :
  0 <= x -> Nat.iter 8 lfsr_bit x
            = Z.lxor (Nat.iter 8 lfsr_bit (Z.land x 255)) (Z.shiftr x 8).
Proof.
  intros Hx. rewrite <- (lfsr_iter_shift 8 (Z.shiftr x 8)), <- lfsr_iter_linear. f_equal.
  apply Z.bits_inj'. intros i Hi. rewrite Z.lxor_spec, Z.land_spec.
  change 255 with (Z.ones 8). destruct (Z.lt_ge_cases i 8).
  - rewrite Z.ones_spec_low, Z.shiftl_spec_low by lia. by rewrite andb_true_r, xorb_false_r.
  - rewrite Z.ones_spec_high, Z.shiftl_spec, Z.shiftr_spec by lia.
    rewrite andb_false_r. cbn [xorb]. f_equal. lia.
Qed.

Lemma lfsr_two_bytes c a b :
  lfsr_byte (lfsr_byte c a) b
  = Nat.iter 16 lfsr_bit (Z.lxor c (Z.lxor a (Z.shiftl b 8))).
Proof.
  unfold lfsr_byte. rewrite <- (lfsr_iter_shift 8 b) at 1.
  rewrite <- lfsr_iter_linear, <- Nat.iter_add. by rewrite Z.lxor_assoc.
Qed.

Variable n : Z.
Hypothesis Hn : 8 <= n.
Hypothesis Hpoly : 0 <= poly < 2 ^ n.
Hypothesis Htop : Z.testbit poly (n - 1) = true.

Lemma lfsr_bit_range x : 0 <= x < 2 ^ n -> 0 <= lfsr_bit x < 2 ^ n.
Proof.
  intros Hx. rewrite lfsr_bit_alt. apply lxor_range; [lia| |].
  - apply shiftr_range; lia.
  - destruct (Z.testbit x 0); [done|]. split; [done|]. by apply Z.pow_pos_nonneg; lia.
Qed.

Lemma lfsr_bit_kernel x : 0 <= x < 2 ^ n -> lfsr_bit x = 0 -> x = 0.
Proof.
  intros Hx H. rewrite lfsr_bit_alt in H. apply Z.lxor_eq in H.
  destruct (Z.testbit x 0) eqn:E.
  - exfalso. rewrite <- H, Z.shiftr_spec in Htop by lia.
    by rewrite (testbit_high x n) in Htop by lia.
  - apply Z.bits_inj'. intros i Hi. rewrite Z.bits_0.
    destruct (Z.eq_dec i 0) as [->|]; [done|].
    replace i with ((i - 1) + 1) by lia. by rewrite <- Z.shiftr_spec, H, Z.bits_0 by lia.
Qed.

Lemma lfsr_iter_range k x : 0 <= x < 2 ^ n -> 0 <= Nat.iter k lfsr_bit x < 2 ^ n.
Proof.
  intros Hx. apply (iter_inv (fun y => 0 <= y < 2 ^ n)); [|done].
  intros y Hy. by apply lfsr_bit_range.
Qed.

Lemma lfsr_iter_kernel k x : 0 <= x < 2 ^ n -> Nat.iter k lfsr_bit x = 0 -> x = 0.
Proof.
  intros Hx. induction k as [|k IH]; [done|]. rewrite Nat.iter_succ. intros H.
  apply IH, lfsr_bit_kernel, H. by apply lfsr_iter_range.
Qed.

Lemma lfsr_iter_inj k x y :
  0 <= x < 2 ^ n -> 0 <= y < 2 ^ n ->
  Nat.iter k lfsr_bit x = Nat.iter k lfsr_bit y -> x = y.
Proof.
  intros Hx Hy H. apply Z.lxor_eq, (lfsr_iter_kernel k); [by apply lxor_range; [lia|..]|].
  by rewrite lfsr_iter_linear, H, Z.lxor_nilpotent.
Qed.

Lemma lfsr_byte_range c d : 0 <= c < 2 ^ n -> is_u8 d -> 0 <= lfsr_byte c d < 2 ^ n.
Proof.
  intros. apply lfsr_iter_range, lxor_range; [lia | done |].
  assert (2 ^ 8 <= 2 ^ n) by (apply Z.pow_le_mono_r; lia). lia.
Qed.

Lemma lfsr_fold_range l c :
  bytes_ok l -> 0 <= c < 2 ^ n -> 0 <= fold_left lfsr_byte l c < 2 ^ n.
Proof.
  intros Hl Hc. apply (fold_left_inv (fun c => 0 <= c < 2 ^ n) (fun d => is_u8 d)); [|done..].
  intros. by apply lfsr_byte_range.
Qed.

(** The register after a message determines the register before it. *)
Lemma lfsr_fold_inj l c c' :
  bytes_ok l -> 0 <= c < 2 ^ n -> 0 <= c' < 2 ^ n ->
  fold_left lfsr_byte l c = fold_left lfsr_byte l c' -> c = c'.
Proof.
  intros Hl. revert c c'. induction Hl as [|d l Hd _ IH]; intros c c' Hc Hc'; cbn [fold_left]; [done|].
  intros H. apply IH in H; [|by apply lfsr_byte_range..].
  assert (2 ^ 8 <= 2 ^ n) by (apply Z.pow_le_mono_r; lia).
  apply (lfsr_iter_inj 8) in H; [|apply lxor_range; lia..].
  apply Z.lxor_eq. apply (f_equal (fun x => Z.lxor x d)) in H.
  rewrite !Z.lxor_assoc, !Z.lxor_nilpotent, !Z.lxor_0_r in H.
  by rewrite H, Z.lxor_nilpotent.
Qed.

Lemma lxor_shiftl8 x y : is_u8 x -> Z.lxor x (Z.shiftl y 8) = y * 256 + x.
Proof.
  intros Hx. rewrite Z.lxor_comm, Z.lxor_lor.
  - rewrite Z.shiftl_mul_pow2 by lia. apply (lor_disjoint_add y x 8); lia.
  - apply Z.bits_inj'. intros i Hi. rewrite Z.land_spec, Z.bits_0.
    destruct (Z.lt_ge_cases i 8); [by rewrite Z.shiftl_spec_low|].
    by rewrite (testbit_high x 8), andb_false_r by lia.
Qed.

(** Two adjacent bytes enter an [n >= 16]-bit register without collision. *)
Lemma lfsr_burst l c a b a' b' :
  16 <= n -> bytes_ok l -> 0 <= c < 2 ^ n ->
  is_u8 a -> is_u8 b -> is_u8 a' -> is_u8 b' ->
  fold_left lfsr_byte (a :: b :: l) c = fold_left lfsr_byte (a' :: b' :: l) c ->
  a = a' /\ b = b'.
Proof.
  intros Hn16 Hl Hc Ha Hb Ha' Hb' H. rewrite !fold_left_cons in H.
  apply lfsr_fold_inj in H; [|done | by repeat apply lfsr_byte_range..].
  rewrite !lfsr_two_bytes in H.
  assert (2 ^ 16 <= 2 ^ n) by (apply Z.pow_le_mono_r; lia).
  rewrite !lxor_shiftl8 in H by done.
  apply (lfsr_iter_inj 16) in H; [|apply lxor_range; lia..].
  apply (f_equal (Z.lxor c)) in H.
  rewrite <- !Z.lxor_assoc, !Z.lxor_nilpotent, !Z.lxor_0_l in H. lia.
Qed.
End lfsr.

(** ** crc.c computes the register machine *)

(** The CRC-16 register after the bytes [l], from the initial value [init]. *)
Definition crc16_of (init : Z) (l : list Z) : Z := fold_left crc16_byte l init.

Lemma crc16_spec input len :
  0 <= len <= zlen input ->
  crc16 input len = Some (crc16_of 0xFFFF (take (Z.to_nat len) input)).
Proof. apply for_range_rd_fold0. Qed.

Lemma crc16_of_range init l : is_u16 init -> bytes_ok l -> is_u16 (crc16_of init l).
Proof. intros. apply (lfsr_fold_range 0xA001 16); [lia | lia | done | done]. Qed.

Lemma crc16_of_burst init pre suf a b a' b' :
  is_u16 init -> bytes_ok pre -> bytes_ok suf ->
  is_u8 a -> is_u8 b -> is_u8 a' -> is_u8 b' ->
  crc16_of init (pre ++ a :: b :: suf) = crc16_of init (pre ++ a' :: b' :: suf) ->
  a = a' /\ b = b'.
Proof.
  intros Hi Hpre Hsuf Ha Hb Ha' Hb'. unfold crc16_of. rewrite !fold_left_app.
  apply (lfsr_burst 0xA001 16); try done; try lia. by apply crc16_of_range.
Qed.

Lemma crc16_of_single init pre suf a a' :
  is_u16 init -> bytes_ok pre -> bytes_ok suf -> is_u8 a -> is_u8 a' ->
  crc16_of init (pre ++ a :: suf) = crc16_of init (pre ++ a' :: suf) -> a = a'.
Proof.
  intros Hi Hpre Hsuf Ha Ha'. unfold crc16_of. rewrite !fold_left_app, !fold_left_cons.
  intros H. pose proof (crc16_of_range init pre Hi Hpre) as Hr. unfold crc16_of in Hr.
  apply (lfsr_fold_inj 0xA001 16) in H; try done; try lia;
    [|by apply (lfsr_byte_range 0xA001 16)..].
  apply (lfsr_iter_inj 0xA001 16) in H; try done; try lia; [|apply (lxor_range _ _ 16); lia..].
  apply (f_equal (Z.lxor (fold_left crc16_byte pre init))) in H.
  by rewrite <- !Z.lxor_assoc, !Z.lxor_nilpotent, !Z.lxor_0_l in H.
Qed.

(** ** crc_table.c *)

Lemma land_255_range x : 0 <= x -> is_u8 (Z.land x 255).
Proof. intros. change 255 with (2 ^ 8 - 1). rewrite land_ones_mod by lia. zlia. Qed.

(** A table built by mapping [f] over the byte values answers with [f]. *)
Lemma znth_table (f : Z -> Z) i : is_u8 i -> znth (f <$> seqZ 0 256) i = Some (f i).
Proof.
  intros. apply znth_Some. split; [lia|]. rewrite list_lookup_fmap.
  rewrite lookup_seqZ_lt by lia. cbn. do 2 f_equal. lia.
Qed.

Definition crc16_entry_agrees (i : Z) : bool := init_crc16_entry i =? Nat.iter 8 crc16_bit i.

Lemma crc16_entries_agree : forallb crc16_entry_agrees (seqZ 0 256) = true.
Proof. vm_compute. reflexivity. Qed.

Lemma crc16_entry_spec i : is_u8 i -> init_crc16_entry i = Nat.iter 8 crc16_bit i.
Proof. intros Hi. apply Z.eqb_eq. exact (forallb_seqZ _ _ i crc16_entries_agree Hi). Qed.

Lemma crc16_tab_step crc b :
  is_u16 crc -> is_u8 b ->
  (t ← znth init_crc16_table (Z.land (Z.lxor crc b) 0x00FF);
   Some (Z.lxor (Z.shiftr crc 8) t)) = Some (crc16_byte crc b).
Proof.
  intros Hc Hb. assert (is_u16 (Z.lxor crc b)) as Hx by (apply (lxor_range _ _ 16); lia).
  pose proof (land_255_range (Z.lxor crc b) ltac:(lia)).
  unfold init_crc16_table. rewrite znth_table by done. cbn [mbind option_bind]. f_equal.
  rewrite crc16_entry_spec by done. unfold crc16_byte.
  change crc16_bit with (lfsr_bit 0xA001). rewrite (lfsr_byte_split _ (Z.lxor crc b)) by lia.
  rewrite Z.lxor_comm. f_equal. rewrite Z.shiftr_lxor.
  rewrite (Z.shiftr_div_pow2 b) by lia. change (2 ^ 8) with 256.
  rewrite (Z.div_small b) by done. by rewrite Z.lxor_0_r.
Qed.

Lemma crc32_tab_step crc b :
  is_u32 crc -> is_u8 b ->
  (t ← znth init_crc32_table (Z.land (Z.lxor crc b) 0xff);
   Some (Z.lxor t (Z.shiftr crc 8))) = Some (crc32_byte crc b).
Proof.
  intros Hc Hb. assert (is_u32 (Z.lxor crc b)) as Hx by (apply (lxor_range _ _ 32); lia).
  pose proof (land_255_range (Z.lxor crc b) ltac:(lia)).
  unfold init_crc32_table. rewrite znth_table by done. cbn [mbind option_bind]. f_equal.
  unfold crc32_byte. change crc32_bit with (lfsr_bit 0xEDB88320).
  rewrite (lfsr_byte_split _ (Z.lxor crc b)) by lia. f_equal. rewrite Z.shiftr_lxor.
  rewrite (Z.shiftr_div_pow2 b) by lia. change (2 ^ 8) with 256.
  rewrite (Z.div_small b) by done. by rewrite Z.lxor_0_r.
Qed.

(** A reading loop whose body computes [f] on the states of an invariant. *)
Lemma for_range_rd_inv (I : Z -> Prop) (f : Z -> Z -> Z) (g : Z -> Z -> option Z) m len c :
  0 <= len <= zlen m -> bytes_ok m -> I c ->
  (forall c b, I c -> is_u8 b -> g c b = Some (f c b) /\ I (f c b)) ->
  for_range (Z.to_nat len) 0 (fun k s => b ← rd8 m k; g s b) c
  = Some (fold_left f (take (Z.to_nat len) m) c).
Proof.
  intros Hlen Hm Hc Hg. rewrite <- for_range_rd_fold0 by done.
  apply (for_range_ext_inv I); [|done]. intros k s Hk Hs.
  destruct (rd8_lt m k) as [b Hb]; [lia|]. rewrite Hb. cbn.
  destruct (Hg s b) as [-> ?]; [done | by eapply rd8_byte |].
  split; [done|]. by intros s' [= <-].
Qed.

(** Bit reversal of a byte. *)
Definition rev8 (x : Z) : Z :=
  fold_left Z.lor
    ((fun i => if Z.testbit x i then Z.shiftl 1 (7 - i) else 0) <$> seqZ 0 8) 0.

Definition sht75_agrees (i : Z) : bool :=
  bool_decide (znth sht75_crc_table i = Some (rev8 (Nat.iter 8 crc8_bit (rev8 i)))).

Definition rev8_byte (i : Z) : bool :=
  (0 <=? rev8 i) && (rev8 i <? 256) && (rev8 (rev8 i) =? i)
  && (0 <=? Nat.iter 8 crc8_bit i) && (Nat.iter 8 crc8_bit i <? 256).

Definition rev8_linear_at (i j : Z) : bool := rev8 (Z.lxor i j) =? Z.lxor (rev8 i) (rev8 j).
Definition rev8_linear_row (i : Z) : bool := forallb (rev8_linear_at i) (seqZ 0 256).

Lemma sht75_all_agree : forallb sht75_agrees (seqZ 0 256) = true.
Proof. vm_compute. reflexivity. Qed.

Lemma rev8_all_bytes : forallb rev8_byte (seqZ 0 256) = true.
Proof. vm_compute. reflexivity. Qed.

Lemma rev8_all_linear : forallb rev8_linear_row (seqZ 0 256) = true.
Proof. vm_compute. reflexivity. Qed.

Lemma sht75_spec i : is_u8 i ->
  znth sht75_crc_table i = Some (rev8 (Nat.iter 8 crc8_bit (rev8 i))).
Proof.
  intros Hi. eapply bool_decide_eq_true_1. exact (forallb_seqZ _ _ i sht75_all_agree Hi).
Qed.

Lemma rev8_spec i : is_u8 i ->
  is_u8 (rev8 i) /\ rev8 (rev8 i) = i /\ is_u8 (Nat.iter 8 crc8_bit i).
Proof.
  intros Hi. pose proof (forallb_seqZ _ _ i rev8_all_bytes Hi) as H.
  unfold rev8_byte in H. zbool. done.
Qed.

Lemma rev8_lxor i j : is_u8 i -> is_u8 j -> rev8 (Z.lxor i j) = Z.lxor (rev8 i) (rev8 j).
Proof.
  intros Hi Hj. apply Z.eqb_eq.
  exact (forallb_seqZ _ _ j (forallb_seqZ _ _ i rev8_all_linear Hi) Hj).
Qed.

Lemma crc8_byte_spec c d :
  is_u8 c -> is_u8 d -> crc8_byte c d = Nat.iter 8 crc8_bit (Z.lxor c d).
Proof.
  intros. unfold crc8_byte. change 0xFF with (2 ^ 8 - 1). rewrite land_ones_mod by lia.
  by rewrite Z.mod_small by lia.
Qed.

(** One byte of [crc8_tab] is one byte of [crc8] seen through bit reversal. *)
Lemma crc8_tab_step c d :
  is_u8 c -> is_u8 d ->
  znth sht75_crc_table (Z.lxor d c) = Some (rev8 (crc8_byte (rev8 c) (rev8 d)))
  /\ is_u8 (rev8 (crc8_byte (rev8 c) (rev8 d))).
Proof.
  intros Hc Hd. destruct (rev8_spec c Hc) as (? & _ & _), (rev8_spec d Hd) as (? & _ & _).
  assert (is_u8 (Z.lxor (rev8 c) (rev8 d))) as Hx by (apply (lxor_range _ _ 8); lia).
  assert (is_u8 (Z.lxor c d)) as Hx' by (apply (lxor_range _ _ 8); lia).
  rewrite Z.lxor_comm, crc8_byte_spec, sht75_spec, rev8_lxor by done.
  split; [done|]. by apply rev8_spec, rev8_spec.
Qed.

Lemma crc8_mirror_fold l c :
  bytes_ok l -> is_u8 c ->
  fold_left (fun c d => rev8 (crc8_byte (rev8 c) (rev8 d))) l (rev8 c)
  = rev8 (fold_left crc8_byte (rev8 <$> l) c).
Proof.
  intros Hl. revert c. induction Hl as [|d l Hd _ IH]; intros c Hc; [done|].
  rewrite fmap_cons, !fold_left_cons. destruct (rev8_spec c Hc) as (? & -> & _).
  apply IH. destruct (rev8_spec d Hd) as (Hd' & _ & _).
  rewrite crc8_byte_spec by done. apply rev8_spec. apply (lxor_range _ _ 8); lia.
Qed.

(** ** Properties *)

Section properties.
Variables (m : list Z) (len : Z).
Hypothesis Hm : bytes_ok m.
Hypothesis Hlen : 0 <= len <= zlen m.

(** The table-driven CRC-16 is the bitwise register started at zero. *)
Theorem crc16_tab_correct :
  crc16_tab (Some m) len = Some (crc16_of 0 (take (Z.to_nat len) m)).
Proof.
  unfold crc16_tab. zfalse (len <? 0).
  apply (for_range_rd_inv (fun c => is_u16 c)); [done.. | lia |].
  intros c b Hc Hb. rewrite crc16_tab_step by done. split; [done|].
  apply (lfsr_byte_range 0xA001 16); try lia; done.
Qed.

(** The table-driven CRC-32 is the bitwise register of [crc32] started at zero
    and not complemented at the end. *)
Theorem crc32_tab_correct :
  crc32_tab m len = Some (fold_left crc32_byte (take (Z.to_nat len) m) 0).
Proof.
  unfold crc32_tab. zfalse (len <? 0).
  apply (for_range_rd_inv (fun c => is_u32 c)); [done.. | lia |].
  intros c b Hc Hb. rewrite crc32_tab_step by done. split; [done|].
  apply (lfsr_byte_range 0xEDB88320 32); try lia; done.
Qed.

(** The table-driven CRC-8 is [crc8] of the bit-reversed message, bit-reversed. *)
Theorem crc8_tab_mirrors_crc8 :
  crc8_tab (Some m) len = rev8 <$> crc8 (rev8 <$> m) len.
Proof.
  unfold crc8_tab, crc8. zfalse (len <? 0).
  rewrite for_range_rd_fold0 by (autorewrite with bblen; done).
  rewrite <- fmap_take. cbn [fmap option_fmap option_map].
  rewrite <- crc8_mirror_fold by (try apply Forall_take; done).
  apply (for_range_rd_inv (fun c => is_u8 c)); [done.. | done |]. intros. by apply crc8_tab_step.
Qed.
End properties.

(** C40: Two messages of one length that differ only within two adjacent bytes have
    different CRC-16 values: every burst error of up to 16 bits aligned on a
    byte is detected. *)
Theorem crc16_detects_burst pre suf a b a' b' len :
  bytes_ok pre -> bytes_ok suf -> is_u8 a -> is_u8 b -> is_u8 a' -> is_u8 b' ->
  len = zlen pre + 2 + zlen suf -> (a, b) <> (a', b') ->
  crc16 (pre ++ a :: b :: suf) len <> crc16 (pre ++ a' :: b' :: suf) len.
Proof.
  intros ? ? ? ? ? ? -> Hne H. rewrite !crc16_spec in H by len.
  injection H. rewrite !take_ge by len. intros E. apply crc16_of_burst in E as [-> ->]; done.
Qed.

(** ** Concrete runs: the check message "123456789" *)

Definition check_message : list Z := [49; 50; 51; 52; 53; 54; 55; 56; 57].

Lemma check_message_ok : bytes_ok check_message.
Proof. apply bytes_ok_decide. reflexivity. Qed.

Lemma crc16_tab_correct_witness : crc16_tab (Some check_message) 9 = Some 0xBB3D.
Proof.
  rewrite (crc16_tab_correct check_message 9 check_message_ok ltac:(cbn; lia)).
  vm_compute. reflexivity.
Defined.

Lemma crc32_tab_correct_witness : crc32_tab check_message 9 = Some 0x2DFD2D88.
Proof.
  rewrite (crc32_tab_correct check_message 9 check_message_ok ltac:(cbn; lia)).
  vm_compute. reflexivity.
Defined.

Lemma crc8_tab_mirrors_crc8_witness :
  crc8_tab (Some check_message) 9 = rev8 <$> crc8 (rev8 <$> check_message) 9.
Proof. apply (crc8_tab_mirrors_crc8 check_message 9 check_message_ok). cbn. lia. Defined.

Lemma crc16_detects_burst_witness :
  crc16 [49; 50; 51; 52] 4 <> crc16 [49; 178; 50; 52] 4.
Proof.
  apply (crc16_detects_burst [49] [52] 50 51 178 50 4); try lia; try reflexivity; try congruence.
  - apply bytes_ok_decide. reflexivity.
  - apply bytes_ok_decide. reflexivity.
Defined.
