(* ===== verification/Digest.v ===== *)
(** * Iterated hash functions: what md5.c and sha.c share

    Words and their byte encodings, the fold of a compression function over the
    64-byte blocks of a padded message, and the invariant of a context that has
    absorbed a message. *)

From S2P Require Import Prelude CMem.

(** [assign v := e ;; k]: an assignment of a long sequence, kept as an opaque
    step so that the sequence is never expanded. *)
Definition assigned {A B} (e : A) (k : A -> B) : B := k e.

Notation "'assign' v ':=' e ';;' k" := (assigned e (fun v => k))
  (at level 10, v name, e at level 99, k at level 200,
   format "'[v' 'assign'  v  ':='  e  ;; '/' k ']'") : bigbox_scope.

(** ** 32-bit words *)

Definition not32 (x : Z) : Z := u32 (Z.lnot x).
Definition rotl (x n : Z) : Z := Z.lor (u32 (Z.shiftl x n)) (Z.shiftr x (32 - n)).
Definition rotr (x n : Z) : Z := Z.lor (Z.shiftr x n) (u32 (Z.shiftl x (32 - n))).

(** Byte [k] of a number, counted from the least significant. *)
Definition byte (x k : Z) : Z := u8 (Z.shiftr x (8 * k)).

Lemma byte_range x k : is_u8 (byte x k).
Proof. apply u8_range. Qed.

Definition le_bytes (n : Z) (x : Z) : list Z := byte x <$> seqZ 0 n.
Definition be_bytes (n : Z) (x : Z) : list Z := (fun k => byte x (n - 1 - k)) <$> seqZ 0 n.

Lemma le_bytes_length n x : length (le_bytes n x) = Z.to_nat n.
Proof. unfold le_bytes. len. Qed.
Lemma be_bytes_length n x : length (be_bytes n x) = Z.to_nat n.
Proof. unfold be_bytes. len. Qed.
#[export] Hint Rewrite le_bytes_length be_bytes_length : bblen.

Lemma le_bytes_ok n x : bytes_ok (le_bytes n x).
Proof. apply Forall_fmap, Forall_true. intros. apply byte_range. Qed.
Lemma be_bytes_ok n x : bytes_ok (be_bytes n x).
Proof. apply Forall_fmap, Forall_true. intros. apply byte_range. Qed.
#[export] Hint Resolve le_bytes_ok be_bytes_ok : bigbox.

Lemma u8_land_byte w k : u8 (Z.land (Z.shiftr w (8 * k)) 0xFF) = byte w k.
Proof. change 0xFF with (2 ^ 8 - 1). rewrite land_ones_mod by lia. unfold byte, u8. by rewrite Zmod_mod. Qed.

(** Four bytes assembled with shifts, from the least significant. *)
Lemma lor_bytes b0 b1 b2 b3 :
  is_u8 b0 -> is_u8 b1 -> is_u8 b2 ->
  Z.lor (Z.lor (Z.lor b0 (Z.shiftl b1 8)) (Z.shiftl b2 16)) (Z.shiftl b3 24)
  = b0 + b1 * 2 ^ 8 + b2 * 2 ^ 16 + b3 * 2 ^ 24.
Proof.
  intros. rewrite !Z.shiftl_mul_pow2 by lia.
  rewrite (Z.lor_comm b0), (lor_disjoint_add b1 b0 8) by lia.
  rewrite (Z.lor_comm _ (b2 * _)), (lor_disjoint_add b2 _ 16) by lia.
  rewrite (Z.lor_comm _ (b3 * _)), (lor_disjoint_add b3 _ 24) by lia. lia.
Qed.

(** Big-endian assembly. *)
Lemma lor_bytes_be b0 b1 b2 b3 :
  is_u8 b1 -> is_u8 b2 -> is_u8 b3 ->
  Z.lor (Z.lor (Z.lor (Z.shiftl b0 24) (Z.shiftl b1 16)) (Z.shiftl b2 8)) b3
  = b3 + b2 * 2 ^ 8 + b1 * 2 ^ 16 + b0 * 2 ^ 24.
Proof.
  intros. rewrite <- lor_bytes by done. rewrite !(Z.lor_comm b3), (Z.lor_comm (Z.shiftl b2 8)).
  apply Z.bits_inj'. intros n Hn. rewrite !Z.lor_spec.
  repeat match goal with |- context [Z.testbit ?x n] => destruct (Z.testbit x n) end; done.
Qed.

(** ** Blocks *)

Section blocks.
Context {S : Type} (compress : S -> list Z -> S).

(** The compression function over the first [n] blocks. *)
Fixpoint fold_blocks (n : nat) (st : S) (l : list Z) : S :=
  match n with
  | O => st
  | Datatypes.S n => fold_blocks n (compress st (take 64 l)) (drop 64 l)
  end.

(** Over all whole blocks of a message. *)
Definition absorb (st : S) (l : list Z) : S := fold_blocks (length l / 64) st l.

Lemma fold_blocks_app n st l1 l2 :
  length l1 = (64 * n)%nat -> fold_blocks n st (l1 ++ l2) = fold_blocks n st l1.
Proof.
  revert st l1. induction n as [|n IH]; intros st l1 Hl; [done|]. cbn [fold_blocks].
  rewrite take_app_le, drop_app_le by lia. apply IH. rewrite length_drop. lia.
Qed.

Lemma fold_blocks_add n m st l :
  fold_blocks (n + m) st l = fold_blocks m (fold_blocks n st l) (drop (64 * n) l).
Proof.
  revert st l. induction n as [|n IH]; intros st l; [by rewrite drop_0|].
  cbn [Nat.add fold_blocks]. rewrite IH, drop_drop. do 2 f_equal. lia.
Qed.

Lemma absorb_blocks n st l : length l = (64 * n)%nat -> absorb st l = fold_blocks n st l.
Proof. intros Hl. unfold absorb. by rewrite Hl, Nat.mul_comm, Nat.div_mul by lia. Qed.

Lemma absorb_app n st l1 l2 :
  length l1 = (64 * n)%nat -> absorb st (l1 ++ l2) = absorb (absorb st l1) l2.
Proof.
  intros Hl. rewrite (absorb_blocks n _ l1) by done. unfold absorb.
  rewrite length_app, Hl, (Nat.mul_comm 64), Nat.div_add_l by lia.
  rewrite fold_blocks_add, fold_blocks_app by done. rewrite <- Hl. by rewrite drop_app_length.
Qed.

Lemma absorb_one st l : length l = 64%nat -> absorb st l = compress st l.
Proof. intros Hl. rewrite (absorb_blocks 1) by done. cbn. by rewrite take_ge by lia. Qed.

(** ** Contexts *)

(** A context absorbed [msg] from [st0]: its state is the fold over the whole
    blocks of [msg] and its buffer starts with the rest. *)
Definition absorbed (st0 : S) (msg : list Z) (st : S) (buf : list Z) : Prop :=
  exists full rest n, msg = full ++ rest /\ length full = (64 * n)%nat /\ (length rest < 64)%nat
    /\ st = absorb st0 full /\ length buf = 64%nat /\ take (length rest) buf = rest.

Lemma absorbed_nil st0 buf : length buf = 64%nat -> absorbed st0 [] st0 buf.
Proof. intros. exists [], [], 0%nat. cbn. repeat split; [lia|done]. Qed.

Lemma absorbed_rest_len (full rest : list Z) n :
  length full = (64 * n)%nat -> (length rest < 64)%nat -> zlen (full ++ rest) `mod` 64 = zlen rest.
Proof.
  intros Hf Hr. rewrite length_app, Hf.
  replace (Z.of_nat (64 * n + length rest)) with (zlen rest + Z.of_nat n * 64) by lia.
  rewrite Z_mod_plus_full, Z.mod_small; lia.
Qed.

Lemma absorbed_length st0 msg st buf : absorbed st0 msg st buf -> length buf = 64%nat.
Proof. by intros (? & ? & ? & ? & ? & ? & ? & ? & ?). Qed.

(** A message of whole blocks is all in the state. *)
Lemma absorbed_whole st0 msg st buf :
  absorbed st0 msg st buf -> zlen msg `mod` 64 = 0 -> st = absorb st0 msg.
Proof.
  intros (full & rest & n & -> & Hf & Hr & -> & _) Hm.
  rewrite (absorbed_rest_len _ _ n) in Hm by done. destruct rest; [|cbn in Hm; lia].
  by rewrite app_nil_r.
Qed.

(** Bytes that do not fill the block are stored after the rest. *)
Lemma absorbed_store st0 msg st buf data :
  absorbed st0 msg st buf -> zlen msg `mod` 64 + zlen data < 64 ->
  absorbed st0 (msg ++ data) st (list_inserts (Z.to_nat (zlen msg `mod` 64)) data buf).
Proof.
  intros (full & rest & n & -> & Hf & Hr & -> & Hb & Ht) Hd.
  rewrite (absorbed_rest_len _ _ n) in * by done. rewrite Nat2Z.id.
  exists full, (rest ++ data), n. rewrite length_app, length_inserts, app_assoc.
  do 5 (split; [done || lia|]). by rewrite take_inserts_snoc, Ht by lia.
Qed.

(** Bytes that fill it are compressed with the rest. *)
Lemma absorbed_fill st0 msg st buf buf' data :
  absorbed st0 msg st buf -> zlen msg `mod` 64 + zlen data = 64 -> length buf' = 64%nat ->
  absorbed st0 (msg ++ data)
    (compress st (list_inserts (Z.to_nat (zlen msg `mod` 64)) data buf)) buf'.
Proof.
  intros (full & rest & n & -> & Hf & Hr & -> & Hb & Ht) Hd Hb'.
  rewrite (absorbed_rest_len _ _ n) in * by done. rewrite Nat2Z.id.
  exists (full ++ rest ++ data), [], (Datatypes.S n). rewrite app_nil_r, !length_app, app_assoc.
  do 3 (split; [done || (cbn; lia)|]). split; [|by split].
  rewrite <- app_assoc, (absorb_app n) by done. rewrite (absorb_one _ (rest ++ data)) by (rewrite length_app; lia).
  f_equal. rewrite <- (take_ge (list_inserts _ _ _) (length rest + length data))
    by (rewrite length_inserts; lia).
  by rewrite take_inserts_snoc, Ht by lia.
Qed.

(** Whole blocks are compressed directly when nothing is pending. *)
Lemma absorbed_blocks st0 msg st buf data k :
  absorbed st0 msg st buf -> zlen msg `mod` 64 = 0 -> length data = (64 * k)%nat ->
  absorbed st0 (msg ++ data) (fold_blocks k st data) buf.
Proof.
  intros H Hm Hd. pose proof (absorbed_whole _ _ _ _ H Hm) as ->.
  destruct H as (full & rest & n & -> & Hf & Hr & _ & Hb & _).
  rewrite (absorbed_rest_len _ _ n) in Hm by done. destruct rest; [|cbn in Hm; lia].
  rewrite app_nil_r. exists (full ++ data), [], (n + k)%nat.
  rewrite app_nil_r, length_app. do 3 (split; [done || (cbn; lia)|]). split; [|by split].
  by rewrite (absorb_app n), (absorb_blocks k _ data) by done.
Qed.
End blocks.

(** ** Padding *)

(** The zero bytes between the 0x80 byte and the length of a message of [n] bytes. *)
Definition pad_zeros (n : Z) : Z := (55 - n) `mod` 64.

(** The padded message, with the encoding of its length in bits. *)
Definition pad (len_bytes : Z -> list Z) (msg : list Z) : list Z :=
  msg ++ [0x80] ++ zeros (pad_zeros (zlen msg)) ++ len_bytes (u64 (8 * zlen msg)).

Lemma pad_length len_bytes msg :
  (forall x, length (len_bytes x) = 8%nat) -> zlen (pad len_bytes msg) `mod` 64 = 0.
Proof.
  intros Hl. unfold pad. rewrite !length_app, Hl. cbn [length].
  assert (0 <= pad_zeros (zlen msg)) by (apply Z.mod_pos_bound; lia).
  rewrite !Nat2Z.inj_add, zeros_len by done. unfold pad_zeros. zlia.
Qed.

(** ** Printing a digest *)

Definition hex_digit (d : Z) : Z := if d <? 10 then 48 + d else 87 + d.

(** [snprintf (out + off, size, "%02x", v)]: at most [size - 1] characters and a NUL. *)
Definition snprintf_02x (out : list Z) (off size v : Z) : option (list Z) :=
  wr_bytes out off (take (Z.to_nat (size - 1)) [hex_digit (v / 16); hex_digit (v `mod` 16)] ++ [0]).

(** [for (i = 0; i < n; i++) snprintf (out + i*2, size, "%02x", bytes[i]);] *)
Definition print_bytes (size n : Z) (bytes out : list Z) : option (list Z) :=
  for_range (Z.to_nat n) 0
    (fun i out => v ← rd8 bytes i; snprintf_02x out (i * 2) size v) out.

(** The two cells each byte keeps: its digits, or one digit and a NUL when the
    size leaves no room for the second. *)
Definition hex_cells (size : Z) (bytes : list Z) : list Z :=
  concat ((fun v => [hex_digit (v / 16); if size =? 3 then hex_digit (v `mod` 16) else 0]) <$> bytes).

Lemma hex_cells_length size bytes : length (hex_cells size bytes) = (2 * length bytes)%nat.
Proof. unfold hex_cells. induction bytes; cbn in *; lia. Qed.

Lemma hex_cells_app size l1 l2 : hex_cells size (l1 ++ l2) = hex_cells size l1 ++ hex_cells size l2.
Proof. unfold hex_cells. by rewrite fmap_app, concat_app. Qed.

Lemma print_bytes_cells size n bytes out :
  size = 2 \/ size = 3 -> 0 <= n <= zlen bytes -> 2 * n + 1 <= zlen out ->
  exists rest, print_bytes size n bytes out = Some (hex_cells size (take (Z.to_nat n) bytes) ++ rest)
    /\ zlen rest = zlen out - 2 * n.
Proof.
  intros Hs Hn Ho. unfold print_bytes.
  destruct (for_range_inv (fun i out' => 0 <= i /\ exists rest,
      out' = hex_cells size (take (Z.to_nat i) bytes) ++ rest /\ zlen rest = zlen out - 2 * i)
    (fun i out => v ← rd8 bytes i; snprintf_02x out (i * 2) size v) (Z.to_nat n) 0 out)
    as (out' & -> & _ & rest & -> & Hr).
  - intros i out' Hi (_ & rest & -> & Hr). destruct (rd8_lt bytes i) as [v Hv]; [lia|].
    rewrite Hv, bind_Some. unfold snprintf_02x.
    rewrite wr_bytes_app.
    2: { rewrite hex_cells_length, length_take. lia. }
    2: { rewrite length_app, length_take. cbn [length]. lia. }
    eexists. split; [done|]. split; [lia|]. apply znth_Some in Hv as [_ Hv].
    replace (Z.to_nat (i + 1)) with (S (Z.to_nat i)) by lia.
    rewrite (take_S_r _ _ v), hex_cells_app, <- app_assoc by done.
    destruct Hs as [-> | ->]; [exists (drop 2 rest) | exists (0 :: drop 3 rest)];
      rewrite <- app_assoc; (split; [done | len]).
  - split; [lia|]. exists out. split; [done | lia].
  - rewrite Z.add_0_l, Z2Nat.id in * by lia. by exists rest.
Qed.

(** An array without room for the last NUL is overrun. *)
Lemma print_bytes_overrun n bytes out :
  0 < n -> zlen out < 2 * n + 1 -> print_bytes 3 n bytes out = None.
Proof.
  intros Hn Ho. destruct (print_bytes 3 n bytes out) as [out'|] eqn:E; [|done].
  unfold print_bytes in E.
  apply (for_range_partial (fun k s => zlen s = zlen out /\ (0 < k -> 2 * k + 1 <= zlen out))) in E.
  - lia.
  - intros k s s' Hk [Hs _] Hb. destruct (rd8 bytes k) as [v|]; [|done]. cbn [mbind option_bind] in Hb.
    unfold snprintf_02x, wr_bytes in Hb. case_match eqn:E'; [|done]. zbool.
    apply (inj Some) in Hb as <-. rewrite length_inserts. split; [done|]. intros _.
    change (zlen (_ ++ _)) with 3 in *. lia.
  - split; [done | lia].
Qed.
