(* ===== verification/Md5.v ===== *)
(** * fun_algorithm/md5.c

    The context, the unrolled compression function, the incremental update and
    the two printing functions; the reference is RFC 1321's 64-step loop over the
    blocks of the padded message. *)

From S2P Require Import Prelude CMem Digest.

(** ** State *)

Abbreviation md5_state := (Z * Z * Z * Z)%type.

Record MD5_CTX := mkMD5 {
  md5_count0 : Z;
  md5_count1 : Z;
  md5_st : md5_state;
  md5_buffer : list Z
}.

Definition PADDING : list Z := 0x80 :: zeros 63.

(** The buffer of a fresh context is indeterminate. *)
Definition MD5Init (buffer : list Z) : MD5_CTX :=
  mkMD5 0 0 (0x67452301, 0xEFCDAB89, 0x98BADCFE, 0x10325476) buffer.

(** ** Encoding *)

(** [while (j < len)] writes four bytes of each word. *)
Definition MD5Encode (output : list Z) (input : list Z) (len : Z) : option (list Z) :=
  for_range (Z.to_nat ((len + 3) / 4)) 0
    (fun i output =>
       w ← znth input i;
       output ← wr8 output (4 * i) (Z.land w 0xFF);
       output ← wr8 output (4 * i + 1) (Z.land (Z.shiftr w 8) 0xFF);
       output ← wr8 output (4 * i + 2) (Z.land (Z.shiftr w 16) 0xFF);
       wr8 output (4 * i + 3) (Z.land (Z.shiftr w 24) 0xFF)) output.

(** The words assigned, in order; the shift into the sign bit is taken as the
    two's complement shift compilers give. *)
Definition MD5Decode (input : list Z) (len : Z) : option (list Z) :=
  for_range (Z.to_nat ((len + 3) / 4)) 0
    (fun i output =>
       b0 ← rd8 input (4 * i); b1 ← rd8 input (4 * i + 1);
       b2 ← rd8 input (4 * i + 2); b3 ← rd8 input (4 * i + 3);
       Some (output ++ [Z.lor (Z.lor (Z.lor b0 (Z.shiftl b1 8)) (Z.shiftl b2 16)) (Z.shiftl b3 24)]))
    [].

(** ** Compression *)

Definition F_ (x y z : Z) : Z := Z.lor (Z.land x y) (Z.land (not32 x) z).
Definition G_ (x y z : Z) : Z := Z.lor (Z.land x z) (Z.land y (not32 z)).
Definition H_ (x y z : Z) : Z := Z.lxor (Z.lxor x y) z.
Definition I_ (x y z : Z) : Z := Z.lxor y (Z.lor x (not32 z)).

Definition FF (a b c d x s ac : Z) : Z := u32 (rotl (u32 (a + F_ b c d + x + ac)) s + b).
Definition GG (a b c d x s ac : Z) : Z := u32 (rotl (u32 (a + G_ b c d + x + ac)) s + b).
Definition HH (a b c d x s ac : Z) : Z := u32 (rotl (u32 (a + H_ b c d + x + ac)) s + b).
Definition II (a b c d x s ac : Z) : Z := u32 (rotl (u32 (a + I_ b c d + x + ac)) s + b).

Definition MD5Transform (state : md5_state) (block : list Z) : option md5_state :=
  let '(s0, s1, s2, s3) := state in
  x ← MD5Decode block 64;
  match x with
  | [x0; x1; x2; x3; x4; x5; x6; x7; x8; x9; x10; x11; x12; x13; x14; x15] =>
    let a := s0 in let b := s1 in let c := s2 in let d := s3 in
    assign a := FF a b c d x0 7 0xd76aa478 ;;
    assign d := FF d a b c x1 12 0xe8c7b756 ;;
    assign c := FF c d a b x2 17 0x242070db ;;
    assign b := FF b c d a x3 22 0xc1bdceee ;;
    assign a := FF a b c d x4 7 0xf57c0faf ;;
    assign d := FF d a b c x5 12 0x4787c62a ;;
    assign c := FF c d a b x6 17 0xa8304613 ;;
    assign b := FF b c d a x7 22 0xfd469501 ;;
    assign a := FF a b c d x8 7 0x698098d8 ;;
    assign d := FF d a b c x9 12 0x8b44f7af ;;
    assign c := FF c d a b x10 17 0xffff5bb1 ;;
    assign b := FF b c d a x11 22 0x895cd7be ;;
    assign a := FF a b c d x12 7 0x6b901122 ;;
    assign d := FF d a b c x13 12 0xfd987193 ;;
    assign c := FF c d a b x14 17 0xa679438e ;;
    assign b := FF b c d a x15 22 0x49b40821 ;;
    assign a := GG a b c d x1 5 0xf61e2562 ;;
    assign d := GG d a b c x6 9 0xc040b340 ;;
    assign c := GG c d a b x11 14 0x265e5a51 ;;
    assign b := GG b c d a x0 20 0xe9b6c7aa ;;
    assign a := GG a b c d x5 5 0xd62f105d ;;
    assign d := GG d a b c x10 9 0x2441453 ;;
    assign c := GG c d a b x15 14 0xd8a1e681 ;;
    assign b := GG b c d a x4 20 0xe7d3fbc8 ;;
    assign a := GG a b c d x9 5 0x21e1cde6 ;;
    assign d := GG d a b c x14 9 0xc33707d6 ;;
    assign c := GG c d a b x3 14 0xf4d50d87 ;;
    assign b := GG b c d a x8 20 0x455a14ed ;;
    assign a := GG a b c d x13 5 0xa9e3e905 ;;
    assign d := GG d a b c x2 9 0xfcefa3f8 ;;
    assign c := GG c d a b x7 14 0x676f02d9 ;;
    assign b := GG b c d a x12 20 0x8d2a4c8a ;;
    assign a := HH a b c d x5 4 0xfffa3942 ;;
    assign d := HH d a b c x8 11 0x8771f681 ;;
    assign c := HH c d a b x11 16 0x6d9d6122 ;;
    assign b := HH b c d a x14 23 0xfde5380c ;;
    assign a := HH a b c d x1 4 0xa4beea44 ;;
    assign d := HH d a b c x4 11 0x4bdecfa9 ;;
    assign c := HH c d a b x7 16 0xf6bb4b60 ;;
    assign b := HH b c d a x10 23 0xbebfbc70 ;;
    assign a := HH a b c d x13 4 0x289b7ec6 ;;
    assign d := HH d a b c x0 11 0xeaa127fa ;;
    assign c := HH c d a b x3 16 0xd4ef3085 ;;
    assign b := HH b c d a x6 23 0x4881d05 ;;
    assign a := HH a b c d x9 4 0xd9d4d039 ;;
    assign d := HH d a b c x12 11 0xe6db99e5 ;;
    assign c := HH c d a b x15 16 0x1fa27cf8 ;;
    assign b := HH b c d a x2 23 0xc4ac5665 ;;
    assign a := II a b c d x0 6 0xf4292244 ;;
    assign d := II d a b c x7 10 0x432aff97 ;;
    assign c := II c d a b x14 15 0xab9423a7 ;;
    assign b := II b c d a x5 21 0xfc93a039 ;;
    assign a := II a b c d x12 6 0x655b59c3 ;;
    assign d := II d a b c x3 10 0x8f0ccc92 ;;
    assign c := II c d a b x10 15 0xffeff47d ;;
    assign b := II b c d a x1 21 0x85845dd1 ;;
    assign a := II a b c d x8 6 0x6fa87e4f ;;
    assign d := II d a b c x15 10 0xfe2ce6e0 ;;
    assign c := II c d a b x6 15 0xa3014314 ;;
    assign b := II b c d a x13 21 0x4e0811a1 ;;
    assign a := II a b c d x4 6 0xf7537e82 ;;
    assign d := II d a b c x11 10 0xbd3af235 ;;
    assign c := II c d a b x2 15 0x2ad7d2bb ;;
    assign b := II b c d a x9 21 0xeb86d391 ;;
    Some (u32 (s0 + a), u32 (s1 + b), u32 (s2 + c), u32 (s3 + d))
  | _ => None
  end.

(** ** Update and final *)

(** [for (i = partlen; i+64 <= inputlen; i+=64)], the index in 32 bits. *)
Fixpoint update_blocks (fuel : nat) (st : md5_state) (input : list Z) (i inputlen : Z)
    : option (md5_state * Z) :=
  match fuel with
  | O => None
  | S fuel =>
      if u32 (i + 64) <=? inputlen
      then block ← rd_bytes input i 64;
           st ← MD5Transform st block;
           update_blocks fuel st input (u32 (i + 64)) inputlen
      else Some (st, i)
  end.

Definition MD5Update (context : MD5_CTX) (input : list Z) (inputlen : Z) : option MD5_CTX :=
  let index := Z.land (Z.shiftr (md5_count0 context) 3) 0x3F in
  let partlen := 64 - index in
  let bits := u32 (Z.shiftl inputlen 3) in
  let count0 := u32 (md5_count0 context + bits) in
  let count1 := if count0 <? bits then u32 (md5_count1 context + 1) else md5_count1 context in
  let count1 := u32 (count1 + Z.shiftr inputlen 29) in
  '(st, buffer, index, i) ←
    (if inputlen >=? partlen
     then buffer ← memcpy (md5_buffer context) index input 0 partlen;
          st ← MD5Transform (md5_st context) buffer;
          '(st, i) ← update_blocks (Z.to_nat (inputlen / 64 + 1)) st input partlen inputlen;
          Some (st, buffer, 0, i)
     else Some (md5_st context, md5_buffer context, index, 0));
  buffer ← memcpy buffer index input i (inputlen - i);
  Some (mkMD5 count0 count1 st buffer).

(** The digest is written to the caller's array. *)
Definition MD5Final (context : MD5_CTX) (digest : list Z) : option (list Z * MD5_CTX) :=
  let index := Z.land (Z.shiftr (md5_count0 context) 3) 0x3F in
  let padlen := if index <? 56 then 56 - index else 120 - index in
  bits ← MD5Encode (zeros 8) [md5_count0 context; md5_count1 context] 8;
  context ← MD5Update context PADDING padlen;
  context ← MD5Update context bits 8;
  let '(a, b, c, d) := md5_st context in
  digest ← MD5Encode digest [a; b; c; d] 16;
  Some (digest, context).

(** ** Strings and files

    A C string is its bytes before the NUL; the context of a call lives on the
    stack, its buffer [buffer] and the array [md5_value] are indeterminate. *)

Definition md5_string (buffer md5_value str md5_str : list Z) : option (list Z) :=
  let md5 := MD5Init buffer in
  md5 ← MD5Update md5 str (u32 (zlen str));
  '(md5_value, _) ← MD5Final md5 md5_value;
  md5_str ← print_bytes 3 16 md5_value md5_str;
  wr8 md5_str 32 0.

(** The reading loop, over the results of [read]: [None] for an error.  At the end
    of the list [read] returns 0. *)
Fixpoint md5_read_loop (md5 : MD5_CTX) (reads : list (option (list Z)))
    : option (option MD5_CTX) :=
  match reads with
  | None :: _ => Some None
  | Some data :: reads =>
      md5 ← MD5Update md5 data (zlen data);
      if (zlen data =? 0) || (zlen data <? 1024) then Some (Some md5) else md5_read_loop md5 reads
  | [] => md5 ← MD5Update md5 [] 0; Some (Some md5)
  end.

(** [file] is [None] when [open] fails; the result is the return value and the string. *)
Definition md5_file (buffer md5_value : list Z) (file : option (list (option (list Z))))
    (md5_str : list Z) : option (Z * list Z) :=
  match file with
  | None => Some (-1, md5_str)
  | Some reads =>
      md5 ← md5_read_loop (MD5Init buffer) reads;
      match md5 with
      | None => Some (-1, md5_str)
      | Some md5 =>
          '(md5_value, _) ← MD5Final md5 md5_value;
          md5_str ← print_bytes 2 16 md5_value md5_str;
          md5_str ← wr8 md5_str 32 0;
          Some (0, md5_str)
      end
  end.

(** ** Reference: RFC 1321

    The constants are [floor (2^32 * abs (sin (i+1)))]. *)

Definition md5_T : list Z :=
  [0xd76aa478; 0xe8c7b756; 0x242070db; 0xc1bdceee; 0xf57c0faf; 0x4787c62a; 0xa8304613; 0xfd469501;
   0x698098d8; 0x8b44f7af; 0xffff5bb1; 0x895cd7be; 0x6b901122; 0xfd987193; 0xa679438e; 0x49b40821;
   0xf61e2562; 0xc040b340; 0x265e5a51; 0xe9b6c7aa; 0xd62f105d; 0x2441453; 0xd8a1e681; 0xe7d3fbc8;
   0x21e1cde6; 0xc33707d6; 0xf4d50d87; 0x455a14ed; 0xa9e3e905; 0xfcefa3f8; 0x676f02d9; 0x8d2a4c8a;
   0xfffa3942; 0x8771f681; 0x6d9d6122; 0xfde5380c; 0xa4beea44; 0x4bdecfa9; 0xf6bb4b60; 0xbebfbc70;
   0x289b7ec6; 0xeaa127fa; 0xd4ef3085; 0x4881d05; 0xd9d4d039; 0xe6db99e5; 0x1fa27cf8; 0xc4ac5665;
   0xf4292244; 0x432aff97; 0xab9423a7; 0xfc93a039; 0x655b59c3; 0x8f0ccc92; 0xffeff47d; 0x85845dd1;
   0x6fa87e4f; 0xfe2ce6e0; 0xa3014314; 0x4e0811a1; 0xf7537e82; 0xbd3af235; 0x2ad7d2bb; 0xeb86d391].

Definition md5_shift (i : nat) : Z :=
  default 0 (([7; 12; 17; 22; 5; 9; 14; 20; 4; 11; 16; 23; 6; 10; 15; 21]) !! (4 * (i / 16) + i mod 4)%nat).

(** The function and the message word of step [i]. *)
Definition md5_fun (i : nat) (b c d : Z) : Z :=
  match (i / 16)%nat with
  | O => F_ b c d | 1%nat => G_ b c d | 2%nat => H_ b c d | _ => I_ b c d
  end.

Definition md5_word (i : nat) : nat :=
  match (i / 16)%nat with
  | O => i | 1%nat => (5 * i + 1) mod 16 | 2%nat => (3 * i + 5) mod 16 | _ => (7 * i) mod 16
  end.

Definition md5_step (X : list Z) (st : md5_state) (i : nat) : md5_state :=
  let '(a, b, c, d) := st in
  let t := u32 (a + md5_fun i b c d + default 0 (X !! md5_word i) + default 0 (md5_T !! i)) in
  (d, u32 (b + rotl t (md5_shift i)), b, c).

Definition md5_add (s t : md5_state) : md5_state :=
  let '(s0, s1, s2, s3) := s in let '(a, b, c, d) := t in
  (u32 (s0 + a), u32 (s1 + b), u32 (s2 + c), u32 (s3 + d)).

Definition md5_compress (X : list Z) (st : md5_state) : md5_state :=
  md5_add st (fold_left (md5_step X) (seq 0 64) st).

(** One step of the loop, in the code's macros. *)
Definition md5_macro (i : nat) : Z -> Z -> Z -> Z -> Z -> Z -> Z -> Z :=
  match (i / 16)%nat with O => FF | 1%nat => GG | 2%nat => HH | _ => II end.

(** The code's chain of assignments follows the loop when its next one does. *)
Lemma md5_step_macro X (f : Z -> option md5_state) (s : md5_state) i l a b c d e :
  e = md5_macro i a b c d (default 0 (X !! md5_word i)) (md5_shift i) (default 0 (md5_T !! i)) ->
  (forall v, f v = Some (md5_add s (fold_left (md5_step X) l (d, v, b, c)))) ->
  assigned e f = Some (md5_add s (fold_left (md5_step X) (i :: l) (a, b, c, d))).
Proof.
  intros -> H. unfold assigned. rewrite H. cbn [fold_left]. do 3 f_equal. unfold md5_step, md5_fun, md5_macro.
  rewrite (Z.add_comm b). destruct (i / 16)%nat as [|[|[|k]]]; done.
Qed.

(** The goal is never normalised: its chain of [let]s doubles at each unfolding. *)
Ltac md5_next :=
  lazymatch goal with
  | |- assigned ?e ?f = Some (md5_add ?s (fold_left (md5_step ?X) (?i :: ?l) (?a, ?b, ?c, ?d))) =>
      refine (md5_step_macro X f s i l a b c d e eq_refl _); intros ?; cbv beta
  end.

(** The sixteen words of a block. *)
Lemma length_16 {A} (X : list A) : length X = 16%nat ->
  exists x0 x1 x2 x3 x4 x5 x6 x7 x8 x9 x10 x11 x12 x13 x14 x15,
    X = [x0; x1; x2; x3; x4; x5; x6; x7; x8; x9; x10; x11; x12; x13; x14; x15].
Proof.
  intros Hl. do 16 (destruct X as [|? X]; [discriminate Hl|]). destruct X; [|discriminate Hl].
  repeat eexists.
Qed.

Lemma MD5Transform_compress state block X :
  MD5Decode block 64 = Some X -> length X = 16%nat ->
  MD5Transform state block = Some (md5_compress X state).
Proof.
  intros HX (x0 & x1 & x2 & x3 & x4 & x5 & x6 & x7 & x8 & x9 & x10 & x11 & x12 & x13 & x14 & x15
    & ->)%length_16.
  destruct state as [[[s0 s1] s2] s3]. cbv beta iota delta [MD5Transform].
  rewrite HX, bind_Some. clear HX. cbv beta iota zeta.
  lazymatch goal with |- ?L = Some (md5_compress ?X ?s) =>
    let l := eval vm_compute in (seq 0 64) in
    change (L = Some (md5_add s (fold_left (md5_step X) l s)))
  end.
  do 64 md5_next. reflexivity.
Qed.

(** ** Encoding words *)

(** The little-endian words of a block. *)
Definition md5_words (block : list Z) : list Z :=
  (fun i => let b k := default 0 (block !! Z.to_nat (4 * i + k)) in
            b 0 + b 1 * 2 ^ 8 + b 2 * 2 ^ 16 + b 3 * 2 ^ 24) <$> seqZ 0 16.

Lemma MD5Decode_words block :
  length block = 64%nat -> bytes_ok block -> MD5Decode block 64 = Some (md5_words block).
Proof.
  intros Hl Hb. unfold MD5Decode. change (Z.to_nat ((64 + 3) / 4)) with 16%nat.
  rewrite (for_range_snoc (fun i => let b k := default 0 (block !! Z.to_nat (4 * i + k)) in
            b 0 + b 1 * 2 ^ 8 + b 2 * 2 ^ 16 + b 3 * 2 ^ 24)); [done|].
  intros k out Hk. cbv beta zeta. rewrite <- (Z.add_0_r (4 * k)) at 1.
  assert (forall j, 0 <= j < 4 -> exists b, rd8 block (4 * k + j) = Some b /\ is_u8 b
            /\ default 0 (block !! Z.to_nat (4 * k + j)) = b) as H.
  { intros j Hj. destruct (rd8_lt block (4 * k + j)) as [b Hr]; [lia|]. exists b.
    split; [done|]. split; [by eapply rd8_byte|]. apply znth_Some in Hr as [_ ->]. done. }
  destruct (H 0 ltac:(lia)) as (b0 & -> & ? & ->), (H 1 ltac:(lia)) as (b1 & -> & ? & ->),
    (H 2 ltac:(lia)) as (b2 & -> & ? & ->), (H 3 ltac:(lia)) as (b3 & -> & ? & ->).
  cbn [mbind option_bind]. by rewrite lor_bytes.
Qed.

(** The compression of a block, total. *)
Definition md5_block (st : md5_state) (block : list Z) : md5_state :=
  md5_compress (md5_words block) st.

Lemma MD5Transform_block st block :
  length block = 64%nat -> bytes_ok block -> MD5Transform st block = Some (md5_block st block).
Proof. intros. apply MD5Transform_compress; [by apply MD5Decode_words | done]. Qed.

(** The bytes of a list of words. *)
Definition le_words (ws : list Z) : list Z := concat (le_bytes 4 <$> ws).

Lemma le_words_length ws : length (le_words ws) = (4 * length ws)%nat.
Proof.
  unfold le_words. induction ws as [|w ws IH]; [done|]. cbn [fmap list_fmap concat].
  rewrite length_app, IH, le_bytes_length. cbn. lia.
Qed.

Lemma le_words_snoc ws w : le_words (ws ++ [w]) = le_words ws ++ le_bytes 4 w.
Proof. unfold le_words. rewrite fmap_app, concat_app. cbn. by rewrite app_nil_r. Qed.

Lemma MD5Encode_words output ws :
  zlen output = 4 * zlen ws -> MD5Encode output ws (zlen output) = Some (le_words ws).
Proof.
  intros Hl. unfold MD5Encode. replace (Z.to_nat _) with (length ws) by (rewrite Hl; zlia).
  destruct (for_range_inv (fun i out => 0 <= i /\ exists rest,
      out = le_words (take (Z.to_nat i) ws) ++ rest /\ zlen rest = 4 * (zlen ws - i))
    (fun i output =>
       w ← znth ws i;
       output ← wr8 output (4 * i) (Z.land w 0xFF);
       output ← wr8 output (4 * i + 1) (Z.land (Z.shiftr w 8) 0xFF);
       output ← wr8 output (4 * i + 2) (Z.land (Z.shiftr w 16) 0xFF);
       wr8 output (4 * i + 3) (Z.land (Z.shiftr w 24) 0xFF)) (length ws) 0 output)
    as (out & -> & _ & rest & -> & Hr).
  - intros i out Hi (_ & rest & -> & Hr).
    destruct rest as [|r0 [|r1 [|r2 [|r3 rest]]]]; cbn in Hr; try lia.
    destruct (znth_lt ws i) as [w Hw]; [lia|]. rewrite Hw. cbn [mbind option_bind].
    assert (zlen (le_words (take (Z.to_nat i) ws)) = 4 * i) as Hp
      by (rewrite le_words_length, length_take; lia).
    rewrite wr8_snoc by lia. cbn [mbind option_bind].
    do 3 (rewrite cons_middle, app_assoc, wr8_snoc by (rewrite !length_app; cbn [length]; lia);
          cbn [mbind option_bind]).
    eexists. split; [done|]. split; [lia|]. exists rest. split; [|lia].
    apply znth_Some in Hw as [_ Hw]. replace (Z.to_nat (i + 1)) with (S (Z.to_nat i)) by lia.
    rewrite (take_S_r _ _ w) by done. rewrite le_words_snoc, <- !app_assoc.
    change (le_bytes 4 w) with [byte w 0; byte w 1; byte w 2; byte w 3].
    rewrite <- (u8_land_byte w 0), <- (u8_land_byte w 1), <- (u8_land_byte w 2), <- (u8_land_byte w 3).
    done.
  - split; [lia|]. exists output. split; [done | lia].
  - rewrite take_ge by lia. destruct rest; [by rewrite app_nil_r | cbn in Hr; lia].
Qed.

(** ** The context invariant *)

Definition md5_IV : md5_state := (0x67452301, 0xEFCDAB89, 0x98BADCFE, 0x10325476).

(** The context has absorbed [msg] since [MD5Init]. *)
Record md5_absorbed (ctx : MD5_CTX) (msg : list Z) : Prop := {
  ma_blocks : absorbed md5_block md5_IV msg (md5_st ctx) (md5_buffer ctx);
  ma_count : md5_count0 ctx + 2 ^ 32 * md5_count1 ctx = u64 (8 * zlen msg);
  ma_count0 : is_u32 (md5_count0 ctx);
  ma_count1 : is_u32 (md5_count1 ctx);
  ma_bytes : bytes_ok (md5_buffer ctx)
}.

Lemma md5_absorbed_init buffer :
  length buffer = 64%nat -> bytes_ok buffer -> md5_absorbed (MD5Init buffer) [].
Proof. intros. constructor; cbn; [by apply absorbed_nil | done | lia | lia | done]. Qed.

Lemma md5_index ctx msg :
  md5_absorbed ctx msg -> Z.land (Z.shiftr (md5_count0 ctx) 3) 0x3F = zlen msg `mod` 64.
Proof.
  intros [_ Hc H0 H1 _]. change 0x3F with (2 ^ 6 - 1). rewrite land_ones_mod by lia.
  rewrite Z.shiftr_div_pow2 by lia. unfold u64 in Hc. zlia.
Qed.

(** The bit count in two words, with its carry. *)
Lemma md5_counts c0 c1 len n :
  is_u32 c0 -> is_u32 c1 -> is_u32 n -> 0 <= len -> c0 + 2 ^ 32 * c1 = u64 (8 * len) ->
  let bits := u32 (Z.shiftl n 3) in
  let c0' := u32 (c0 + bits) in
  let c1' := if c0' <? bits then u32 (c1 + 1) else c1 in
  c0' + 2 ^ 32 * u32 (c1' + Z.shiftr n 29) = u64 (8 * (len + n)).
Proof.
  intros H0 H1 Hn Hl Hc. cbv zeta. rewrite Z.shiftl_mul_pow2, Z.shiftr_div_pow2 by lia.
  unfold u32, u64 in *. case_if; zbool; zlia.
Qed.

Lemma update_blocks_fold fuel st input i n :
  0 <= i <= n -> n <= zlen input -> n + 64 < 2 ^ 32 -> bytes_ok input ->
  (n - i) / 64 < Z.of_nat fuel ->
  exists k, update_blocks fuel st input i n
    = Some (fold_blocks md5_block k st (take (64 * k) (drop (Z.to_nat i) input)), i + 64 * Z.of_nat k)
    /\ 0 <= n - (i + 64 * Z.of_nat k) < 64.
Proof.
  revert st i. induction fuel as [|fuel IH]; intros st i Hi Hn Hb Hok Hf; [zlia|].
  cbn [update_blocks]. rewrite u32_id by lia. destruct (Z.leb_spec (i + 64) n) as [Hle|Hgt].
  - assert (length (take 64 (drop (Z.to_nat i) input)) = 64%nat) as Hl by len.
    unfold rd_bytes. ztrue ((0 <=? i) && (0 <=? 64) && (i + 64 <=? zlen input)).
    rewrite bind_Some. change (Z.to_nat 64) with 64%nat.
    rewrite MD5Transform_block by auto using Forall_take, Forall_drop. rewrite bind_Some.
    destruct (IH (md5_block st (take 64 (drop (Z.to_nat i) input))) (i + 64)) as (k & -> & Hk);
      [lia | lia | lia | done | zlia |].
    exists (S k). split; [|lia]. cbn [fold_blocks]. do 2 f_equal; [|lia].
    rewrite take_take, Nat.min_l by lia. f_equal. rewrite skipn_firstn_comm, drop_drop.
    f_equal; [lia|]. f_equal. lia.
  - exists 0%nat. cbn. split; [|lia]. do 2 f_equal. lia.
Qed.

(** ** Update and final *)

(** An update absorbs the first [n] bytes of its input. *)
Lemma MD5Update_absorbs ctx msg input n :
  md5_absorbed ctx msg -> 0 <= n <= zlen input -> n + 64 < 2 ^ 32 -> bytes_ok input ->
  exists ctx', MD5Update ctx input n = Some ctx'
    /\ md5_absorbed ctx' (msg ++ take (Z.to_nat n) input).
Proof.
  intros Ha Hn Hb Hok. pose proof (md5_index _ _ Ha) as Hidx.
  destruct Ha as [Habs Hc Hc0 Hc1 Hby]. pose proof (absorbed_length _ _ _ _ _ Habs) as Hlen.
  pose proof (md5_counts _ _ (zlen msg) n Hc0 Hc1 ltac:(lia) ltac:(lia) Hc) as Hcount.
  cbv zeta in Hcount. unfold MD5Update. rewrite Hidx. cbv zeta.
  set (c0 := u32 (_ + u32 _)) in *. set (c1 := u32 (_ + Z.shiftr n 29)) in *.
  set (idx := zlen msg `mod` 64) in *. assert (0 <= idx < 64) by (subst idx; zlia).
  assert (zlen (take (Z.to_nat n) input) = n) as Hlt by len.
  assert (Hfin : forall st buf, absorbed md5_block md5_IV (msg ++ take (Z.to_nat n) input) st buf ->
    bytes_ok buf -> md5_absorbed (mkMD5 c0 c1 st buf) (msg ++ take (Z.to_nat n) input)).
  { intros st buf ? ?. constructor; cbn; [done | | subst c0; apply u32_range | subst c1; apply u32_range | done].
    rewrite length_app, Nat2Z.inj_add, Hlt. done. }
  rewrite Z.geb_leb. destruct (Z.leb_spec (64 - idx) n) as [Hge|Hlt'].
  - rewrite memcpy_Some by lia. rewrite bind_Some, drop_0.
    set (data := take (Z.to_nat (64 - idx)) input).
    set (buf := list_inserts (Z.to_nat idx) data (md5_buffer ctx)).
    assert (length buf = 64%nat) by (subst buf; len).
    assert (bytes_ok buf) by (apply Forall_inserts; [by apply Forall_take | done]).
    rewrite MD5Transform_block by done. rewrite bind_Some.
    assert (absorbed md5_block md5_IV (msg ++ data) (md5_block (md5_st ctx) buf) buf) as Hfill
      by (apply absorbed_fill; [done | subst data; len | done]).
    destruct (update_blocks_fold (Z.to_nat (n / 64 + 1)) (md5_block (md5_st ctx) buf) input
      (64 - idx) n) as (k & -> & Hk); [lia | lia | done | done | zlia |].
    rewrite !bind_Some. cbn [fst snd]. rewrite memcpy_Some by lia. rewrite bind_Some.
    eexists. split; [done|]. apply Hfin.
    + assert (zlen data = 64 - idx) as Hd by (subst data; len).
      assert (zlen (msg ++ data) `mod` 64 = 0) as Hm
        by (rewrite length_app, Nat2Z.inj_add, Hd; subst idx; zlia).
      set (mid := take (64 * k) (drop (Z.to_nat (64 - idx)) input)).
      assert (length mid = (64 * k)%nat) as Hmid by (subst mid; len).
      pose proof (absorbed_blocks _ _ _ _ _ _ _ Hfill Hm Hmid) as Hblk.
      assert (zlen ((msg ++ data) ++ mid) `mod` 64 = 0) as Hm'
        by (rewrite length_app, Nat2Z.inj_add, Hmid; zlia).
      set (rest := take _ (drop (Z.to_nat (64 - idx + _)) input)).
      replace (take (Z.to_nat n) input) with (data ++ mid ++ rest).
      * rewrite !app_assoc. apply (absorbed_store _ _ _ _ _ rest) in Hblk;
          [|rewrite Hm'; subst rest; len]. by rewrite Hm' in Hblk.
      * subst data mid rest. replace (Z.to_nat (64 - idx + 64 * Z.of_nat k))
          with (Z.to_nat (64 - idx) + 64 * k)%nat by lia.
        rewrite <- drop_drop, take_take_drop, take_take_drop. f_equal. lia.
    + apply Forall_inserts; [by apply Forall_take, Forall_drop | done].
  - rewrite bind_Some. cbn [fst snd]. rewrite memcpy_Some by lia. rewrite bind_Some.
    eexists. split; [done|]. apply Hfin.
    + rewrite Z.sub_0_r, drop_0. apply absorbed_store; [done | fold idx; lia].
    + apply Forall_inserts; [by apply Forall_take, Forall_drop | done].
Qed.

(** The digest of RFC 1321: the loop over the blocks of the padded message. *)
Definition md5_digest (msg : list Z) : list Z :=
  let '(a, b, c, d) := absorb md5_block md5_IV (pad (le_bytes 8) msg) in le_words [a; b; c; d].

Lemma PADDING_take padlen :
  1 <= padlen <= 64 -> take (Z.to_nat padlen) PADDING = [0x80] ++ zeros (padlen - 1).
Proof.
  intros. unfold PADDING, zeros. replace (Z.to_nat padlen) with (S (Z.to_nat (padlen - 1))) by lia.
  cbn [take app]. by rewrite take_replicate, Nat.min_l by lia.
Qed.

Lemma le_words_count c0 c1 :
  is_u32 c0 -> is_u32 c1 -> le_words [c0; c1] = le_bytes 8 (c0 + 2 ^ 32 * c1).
Proof.
  intros. change (le_words [c0; c1]) with ((byte c0 <$> [0; 1; 2; 3]) ++ (byte c1 <$> [0; 1; 2; 3])).
  unfold le_bytes. change (seqZ 0 8) with ([0; 1; 2; 3] ++ [4; 5; 6; 7]). rewrite fmap_app.
  cbn [fmap list_fmap app]. unfold byte, u8. rewrite !Z.shiftr_div_pow2 by lia.
  repeat (apply (f_equal2 cons); [cbn -[Z.div Z.modulo Z.add Z.mul]; zlia|]). done.
Qed.

Lemma MD5Final_digest ctx msg digest :
  md5_absorbed ctx msg -> zlen digest = 16 ->
  exists ctx', MD5Final ctx digest = Some (md5_digest msg, ctx').
Proof.
  intros Ha Hd. unfold MD5Final. rewrite (md5_index ctx msg) by done. cbv zeta.
  set (padlen := if _ <? 56 then _ else _).
  assert (1 <= padlen <= 64 /\ padlen = pad_zeros (zlen msg) + 1) as [Hp Hpad].
  { subst padlen. unfold pad_zeros. case_if; zbool; zlia. }
  change 8 with (zlen (zeros 8)) at 2. rewrite MD5Encode_words by done. rewrite bind_Some.
  pose proof Ha as [_ Hc Hc0 Hc1 _]. rewrite le_words_count, Hc by done.
  destruct (MD5Update_absorbs ctx msg PADDING padlen) as (ctx1 & -> & Ha1);
    [done | change (zlen PADDING) with 64; lia | lia | |].
  { constructor; [lia | apply zeros_ok]. }
  rewrite bind_Some. rewrite PADDING_take in Ha1 by done.
  destruct (MD5Update_absorbs ctx1 (msg ++ [0x80] ++ zeros (padlen - 1))
      (le_bytes 8 (u64 (8 * zlen msg))) 8) as (ctx2 & -> & Ha2);
    [done | rewrite le_bytes_length; lia | lia | apply le_bytes_ok |].
  rewrite bind_Some, take_ge in * by (rewrite le_bytes_length; lia).
  replace ((msg ++ [0x80] ++ zeros (padlen - 1)) ++ le_bytes 8 (u64 (8 * zlen msg)))
    with (pad (le_bytes 8) msg) in Ha2.
  2: { unfold pad. rewrite <- !app_assoc, Hpad. do 3 f_equal. f_equal. lia. }
  pose proof (absorbed_whole _ _ _ _ _ (ma_blocks _ _ Ha2)
    (pad_length (le_bytes 8) msg (fun x => le_bytes_length 8 x))) as Hst.
  unfold md5_digest. rewrite <- Hst. destruct (md5_st ctx2) as [[[a b] c] d].
  rewrite <- Hd, MD5Encode_words by (rewrite Hd; done). rewrite bind_Some. by eexists.
Qed.

(** A message given in any chunks. *)
Definition md5_updates (ctx : MD5_CTX) (chunks : list (list Z)) : option MD5_CTX :=
  foldl (fun octx chunk => ctx ← octx; MD5Update ctx chunk (zlen chunk)) (Some ctx) chunks.

Definition md5_chunk_ok (chunk : list Z) : Prop := bytes_ok chunk /\ zlen chunk + 64 < 2 ^ 32.

Lemma md5_updates_absorb ctx msg chunks :
  md5_absorbed ctx msg -> Forall md5_chunk_ok chunks ->
  exists ctx', md5_updates ctx chunks = Some ctx' /\ md5_absorbed ctx' (msg ++ concat chunks).
Proof.
  unfold md5_updates. intros Ha Hc. revert ctx msg Ha.
  induction Hc as [|chunk chunks [Hb Hl] _ IH]; intros ctx msg Ha; cbn.
  - exists ctx. by rewrite app_nil_r.
  - destruct (MD5Update_absorbs ctx msg chunk (zlen chunk)) as (ctx' & -> & Ha');
      [done | lia | done | done |].
    rewrite Nat2Z.id, firstn_all in Ha'. apply IH in Ha'. by rewrite <- app_assoc in Ha'.
Qed.

(** C10: however a message is cut into updates of fewer than 2^32 - 64 bytes each (the
    index of MD5Update is a 32-bit number and wraps for larger ones), [MD5Init],
    [MD5Update]s and [MD5Final] stay inside the context's buffer and write to the
    caller's 16 bytes the digest RFC 1321 defines for the whole message. *)
Theorem md5_streams_rfc1321 buffer digest chunks :
  length buffer = 64%nat -> bytes_ok buffer -> zlen digest = 16 -> Forall md5_chunk_ok chunks ->
  exists ctx ctx', md5_updates (MD5Init buffer) chunks = Some ctx
    /\ MD5Final ctx digest = Some (md5_digest (concat chunks), ctx').
Proof.
  intros Hl Hb Hd Hc.
  destruct (md5_updates_absorb (MD5Init buffer) [] chunks) as (ctx & -> & Ha);
    [by apply md5_absorbed_init | done |].
  destruct (MD5Final_digest ctx (concat chunks) digest Ha Hd) as [ctx' H]. eauto.
Qed.

Lemma le_words_digest_length msg : length (md5_digest msg) = 16%nat.
Proof. unfold md5_digest. by destruct (absorb _ _ _) as [[[a b] c] d]. Qed.

(** The two printing functions end the same way. *)
Lemma print_digest size msg md5_str :
  size = 2 \/ size = 3 -> zlen md5_str = 33 ->
  (out ← print_bytes size 16 (md5_digest msg) md5_str; wr8 out 32 0)
  = Some (hex_cells size (md5_digest msg) ++ [0]).
Proof.
  intros Hs Hl. destruct (print_bytes_cells size 16 (md5_digest msg) md5_str) as (rest & -> & Hr);
    [done | rewrite le_words_digest_length; lia | lia |].
  rewrite bind_Some. rewrite take_ge by (rewrite le_words_digest_length; lia).
  destruct rest as [|r [|]]; cbn in Hr; try lia. apply wr8_snoc.
  rewrite hex_cells_length, le_words_digest_length. done.
Qed.

(** [md5_string] writes the 32 lower-case hexadecimal digits of the RFC 1321
    digest of the string and a terminating NUL. *)
Theorem md5_string_hex buffer md5_value str md5_str :
  length buffer = 64%nat -> bytes_ok buffer -> zlen md5_value = 16 ->
  md5_chunk_ok str -> zlen md5_str = 33 ->
  md5_string buffer md5_value str md5_str = Some (hex_cells 3 (md5_digest str) ++ [0]).
Proof.
  intros Hl Hb Hv [Hs Hn] Ho. unfold md5_string. rewrite u32_id by lia.
  destruct (MD5Update_absorbs (MD5Init buffer) [] str (zlen str)) as (ctx & -> & Ha);
    [by apply md5_absorbed_init | lia | done | done |].
  rewrite Nat2Z.id, firstn_all in Ha. rewrite bind_Some.
  destruct (MD5Final_digest ctx str md5_value Ha Hv) as [ctx' ->]. rewrite bind_Some.
  apply print_digest; auto.
Qed.

(** The whole blocks of 1024 bytes before the last, short read. *)
Lemma md5_read_loop_absorbs ctx msg blocks last reads :
  md5_absorbed ctx msg ->
  Forall (fun b => bytes_ok b /\ zlen b = 1024) blocks -> bytes_ok last -> zlen last < 1024 ->
  exists ctx', md5_read_loop ctx ((Some <$> blocks) ++ Some last :: reads) = Some (Some ctx')
    /\ md5_absorbed ctx' (msg ++ concat blocks ++ last).
Proof.
  intros Ha Hblk Hlast Hl. revert ctx msg Ha.
  induction Hblk as [|b blocks [Hb Hlen] _ IH]; intros ctx msg Ha; cbn [fmap list_fmap app concat].
  - cbn [md5_read_loop].
    destruct (MD5Update_absorbs ctx msg last (zlen last)) as (ctx' & -> & Ha');
      [done | lia | lia | done |]. rewrite Nat2Z.id, firstn_all in Ha'. rewrite bind_Some.
    rewrite (proj2 (Z.ltb_lt _ _) Hl), orb_true_r. by exists ctx'.
  - cbn [md5_read_loop].
    destruct (MD5Update_absorbs ctx msg b (zlen b)) as (ctx' & -> & Ha');
      [done | lia | lia | done |]. rewrite Nat2Z.id, firstn_all in Ha'. rewrite bind_Some.
    zfalse ((zlen b =? 0) || (zlen b <? 1024)). apply IH in Ha'. by rewrite <- !app_assoc in *.
Qed.

(** [md5_file] digests the whole file, but each [snprintf] leaves room for one
    character only: the caller gets the first digit of every byte, each followed
    by a NUL, so the result read as a string has one character. *)
Theorem md5_file_truncates buffer md5_value blocks last md5_str :
  length buffer = 64%nat -> bytes_ok buffer -> zlen md5_value = 16 ->
  Forall (fun b => bytes_ok b /\ zlen b = 1024) blocks -> bytes_ok last -> zlen last < 1024 ->
  zlen md5_str = 33 ->
  md5_file buffer md5_value (Some ((Some <$> blocks) ++ [Some last])) md5_str
  = Some (0, hex_cells 2 (md5_digest (concat blocks ++ last)) ++ [0]).
Proof.
  intros Hl Hb Hv Hblk Hlast Hsz Ho. unfold md5_file.
  destruct (md5_read_loop_absorbs (MD5Init buffer) [] blocks last []) as (ctx & -> & Ha);
    [by apply md5_absorbed_init | done | done | done |]. rewrite bind_Some.
  destruct (MD5Final_digest ctx _ md5_value Ha Hv) as [ctx' ->]. rewrite bind_Some.
  pose proof (print_digest 2 (concat blocks ++ last) md5_str ltac:(auto) Ho) as Hp.
  cbn [app] in *. destruct (print_bytes _ _ _ _) as [out|]; [|done].
  cbn [mbind option_bind] in *. by rewrite Hp.
Qed.

(** ** Test vectors of RFC 1321 and witnesses *)

Definition ascii_abc : list Z := [97; 98; 99].

Example md5_abc :
  hex_cells 3 (md5_digest ascii_abc)
  = [57;48;48;49;53;48;57;56;51;99;100;50;52;102;98;48;100;54;57;54;51;102;55;100;50;56;101;49;55;102;55;50].
Proof. vm_compute. reflexivity. Qed.

Lemma md5_streams_rfc1321_witness :
  exists ctx ctx', md5_updates (MD5Init (zeros 64)) [[97]; []; [98; 99]] = Some ctx
    /\ MD5Final ctx (zeros 16) = Some (md5_digest (concat [[97]; []; [98; 99]]), ctx').
Proof.
  apply (md5_streams_rfc1321 (zeros 64) (zeros 16) [[97]; []; [98; 99]]);
    [done | apply zeros_ok | done | repeat constructor; cbn; lia].
Defined.

Lemma md5_string_hex_witness :
  md5_string (zeros 64) (zeros 16) ascii_abc (zeros 33) = Some (hex_cells 3 (md5_digest ascii_abc) ++ [0]).
Proof.
  apply md5_string_hex; [done | apply zeros_ok | done | | done]. split; [|cbn; lia].
  repeat constructor; lia.
Defined.

Lemma md5_file_truncates_witness :
  md5_file (zeros 64) (zeros 16) (Some ((Some <$> [zeros 1024]) ++ [Some ascii_abc])) (zeros 33)
  = Some (0, hex_cells 2 (md5_digest (concat [zeros 1024] ++ ascii_abc)) ++ [0]).
Proof.
  apply md5_file_truncates; [done | apply zeros_ok | done | | | done | done].
  - constructor; [|constructor]. split; [apply zeros_ok | done].
  - repeat constructor; lia.
Defined.
