(* ===== verification/Sha.v ===== *)
(** * fun_algorithm/sha.c

    SHA-1 and SHA-256: the two contexts share their buffering (the update and
    final functions are the same text over another transform), modelled once
    over the transform; the reference is FIPS 180's rounds over the blocks of the
    padded message. *)

From S2P Require Import Prelude CMem Digest.

(** ** Contexts *)

Record SHA_CTX (S : Type) := mkSHA {
  sha_data : list Z;
  sha_datalen : Z;
  sha_bitlen : Z;
  sha_state : S
}.
Arguments mkSHA {S} _ _ _ _.
Arguments sha_data {S} _.
Arguments sha_datalen {S} _.
Arguments sha_bitlen {S} _.
Arguments sha_state {S} _.

Section buffering.
Context {S : Type} (transform : S -> list Z -> option S).

(** The body of the update loop, for the byte [b]. *)
Definition sha_push (ctx : SHA_CTX S) (b : Z) : option (SHA_CTX S) :=
  buf ← wr8 (sha_data ctx) (sha_datalen ctx) b;
  let datalen := u32 (sha_datalen ctx + 1) in
  if datalen =? 64
  then st ← transform (sha_state ctx) buf;
       Some (mkSHA buf 0 (u64 (sha_bitlen ctx + 512)) st)
  else Some (mkSHA buf datalen (sha_bitlen ctx) (sha_state ctx)).

Definition sha_update (ctx : SHA_CTX S) (data : list Z) (len : Z) : option (SHA_CTX S) :=
  for_range (Z.to_nat len) 0 (fun i ctx => b ← rd8 data i; sha_push ctx b) ctx.

(** [while (i < n) data[i++] = 0x00;] *)
Definition fill_zeros (data : list Z) (i n : Z) : option (list Z) :=
  for_range (Z.to_nat (n - i)) i (fun k data => wr8 data k 0x00) data.

(** The eight stores of the length, from the last byte down. *)
Definition store_length (data : list Z) (bitlen : Z) : option (list Z) :=
  data ← wr8 data 63 bitlen;
  data ← wr8 data 62 (Z.shiftr bitlen 8);
  data ← wr8 data 61 (Z.shiftr bitlen 16);
  data ← wr8 data 60 (Z.shiftr bitlen 24);
  data ← wr8 data 59 (Z.shiftr bitlen 32);
  data ← wr8 data 58 (Z.shiftr bitlen 40);
  data ← wr8 data 57 (Z.shiftr bitlen 48);
  wr8 data 56 (Z.shiftr bitlen 56).

(** The final function up to the copy of the state to the caller's array. *)
Definition sha_finish (ctx : SHA_CTX S) : option (SHA_CTX S) :=
  let i := sha_datalen ctx in
  '(data, st) ←
    (if sha_datalen ctx <? 56
     then data ← wr8 (sha_data ctx) i 0x80;
          data ← fill_zeros data (i + 1) 56;
          Some (data, sha_state ctx)
     else data ← wr8 (sha_data ctx) i 0x80;
          data ← fill_zeros data (i + 1) 64;
          st ← transform (sha_state ctx) data;
          data ← wr_bytes data 0 (zeros 56);
          Some (data, st));
  let bitlen := u64 (sha_bitlen ctx + u32 (sha_datalen ctx * 8)) in
  data ← store_length data bitlen;
  st ← transform st data;
  Some (mkSHA data (sha_datalen ctx) bitlen st).
End buffering.

(** ** SHA-1 *)

(** The state words and the constants, both in the context. *)
Abbreviation sha1_h := (Z * Z * Z * Z * Z)%type.
Record sha1_words := mkSha1 { sha1_st : sha1_h; sha1_k : Z * Z * Z * Z }.

Definition SHA1_CTX : Type := SHA_CTX sha1_words.

(** [m], as the list of the words assigned so far. *)
Definition be_word_loop (data : list Z) : option (list Z) :=
  for_range 16 0
    (fun i m =>
       b0 ← rd8 data (4 * i); b1 ← rd8 data (4 * i + 1);
       b2 ← rd8 data (4 * i + 2); b3 ← rd8 data (4 * i + 3);
       Some (m ++ [u32 (Z.shiftl b0 24 + Z.shiftl b1 16 + Z.shiftl b2 8 + b3)])) [].

Definition sha1_extend (m : list Z) : option (list Z) :=
  for_range 64 16
    (fun i m =>
       w3 ← znth m (i - 3); w8 ← znth m (i - 8); w14 ← znth m (i - 14); w16 ← znth m (i - 16);
       let w := Z.lxor (Z.lxor (Z.lxor w3 w8) w14) w16 in
       Some (m ++ [Z.lor (u32 (Z.shiftl w 1)) (Z.shiftr w 31)])) m.

(** Twenty rounds from [i] with the function [f] and the constant [k]. *)
Definition sha1_rounds (f : Z -> Z -> Z -> Z) (k : Z) (m : list Z) (i : Z) (s : sha1_h) : option sha1_h :=
  for_range 20 i
    (fun i '(a, b, c, d, e) =>
       w ← znth m i;
       let t := u32 (rotl a 5 + f b c d + e + k + w) in
       Some (t, a, rotl b 30, c, d)) s.

Definition sha1_transform (ctx : sha1_words) (data : list Z) : option sha1_words :=
  m ← be_word_loop data;
  m ← sha1_extend m;
  let '(k0, k1, k2, k3) := sha1_k ctx in
  let '(s0, s1, s2, s3, s4) := sha1_st ctx in
  s ← sha1_rounds (fun b c d => Z.lxor (Z.land b c) (Z.land (not32 b) d)) k0 m 0 (sha1_st ctx);
  s ← sha1_rounds (fun b c d => Z.lxor (Z.lxor b c) d) k1 m 20 s;
  s ← sha1_rounds (fun b c d => Z.lxor (Z.lxor (Z.land b c) (Z.land b d)) (Z.land c d)) k2 m 40 s;
  s ← sha1_rounds (fun b c d => Z.lxor (Z.lxor b c) d) k3 m 60 s;
  let '(a, b, c, d, e) := s in
  Some (mkSha1 (u32 (s0 + a), u32 (s1 + b), u32 (s2 + c), u32 (s3 + d), u32 (s4 + e)) (sha1_k ctx)).

Definition sha1_IV : sha1_words :=
  mkSha1 (0x67452301, 0xEFCDAB89, 0x98BADCFE, 0x10325476, 0xc3d2e1f0)
    (0x5a827999, 0x6ed9eba1, 0x8f1bbcdc, 0xca62c1d6).

(** The data array of a fresh context is indeterminate. *)
Definition sha1_init (data : list Z) : SHA1_CTX := mkSHA data 0 0 sha1_IV.

Definition sha1_update : SHA1_CTX -> list Z -> Z -> option SHA1_CTX := sha_update sha1_transform.

Definition sha1_final (ctx : SHA1_CTX) (hash : list Z) : option (SHA1_CTX * list Z) :=
  ctx ← sha_finish sha1_transform ctx;
  let '(s0, s1, s2, s3, s4) := sha1_st (sha_state ctx) in
  hash ← for_range 4 0
    (fun i hash =>
       hash ← wr8 hash i (Z.land (Z.shiftr s0 (24 - i * 8)) 0xff);
       hash ← wr8 hash (i + 4) (Z.land (Z.shiftr s1 (24 - i * 8)) 0xff);
       hash ← wr8 hash (i + 8) (Z.land (Z.shiftr s2 (24 - i * 8)) 0xff);
       hash ← wr8 hash (i + 12) (Z.land (Z.shiftr s3 (24 - i * 8)) 0xff);
       wr8 hash (i + 16) (Z.land (Z.shiftr s4 (24 - i * 8)) 0xff)) hash;
  Some (ctx, hash).

(** ** SHA-256 *)

Abbreviation sha256_h := (Z * Z * Z * Z * Z * Z * Z * Z)%type.

Definition SHA256_CTX : Type := SHA_CTX sha256_h.

Definition CH (x y z : Z) : Z := Z.lxor (Z.land x y) (Z.land (not32 x) z).
Definition MAJ (x y z : Z) : Z := Z.lxor (Z.lxor (Z.land x y) (Z.land x z)) (Z.land y z).
Definition EP0 (x : Z) : Z := Z.lxor (Z.lxor (rotr x 2) (rotr x 13)) (rotr x 22).
Definition EP1 (x : Z) : Z := Z.lxor (Z.lxor (rotr x 6) (rotr x 11)) (rotr x 25).
Definition SIG0 (x : Z) : Z := Z.lxor (Z.lxor (rotr x 7) (rotr x 18)) (Z.shiftr x 3).
Definition SIG1 (x : Z) : Z := Z.lxor (Z.lxor (rotr x 17) (rotr x 19)) (Z.shiftr x 10).

(** The rows of the source. *)
Definition sha256_k : list Z := Eval cbv in concat [
  [0x428a2f98; 0x71374491; 0xb5c0fbcf; 0xe9b5dba5; 0x3956c25b; 0x59f111f1; 0x923f82a4; 0xab1c5ed5];
  [0xd807aa98; 0x12835b01; 0x243185be; 0x550c7dc3; 0x72be5d74; 0x80deb1fe; 0x9bdc06a7; 0xc19bf174];
  [0xe49b69c1; 0xefbe4786; 0x0fc19dc6; 0x240ca1cc; 0x2de92c6f; 0x4a7484aa; 0x5cb0a9dc; 0x76f988da];
  [0x983e5152; 0xa831c66d; 0xb00327c8; 0xbf597fc7; 0xc6e00bf3; 0xd5a79147; 0x06ca6351; 0x14292967];
  [0x27b70a85; 0x2e1b2138; 0x4d2c6dfc; 0x53380d13; 0x650a7354; 0x766a0abb; 0x81c2c92e; 0x92722c85];
  [0xa2bfe8a1; 0xa81a664b; 0xc24b8b70; 0xc76c51a3; 0xd192e819; 0xd6990624; 0xf40e3585; 0x106aa070];
  [0x19a4c116; 0x1e376c08; 0x2748774c; 0x34b0bcb5; 0x391c0cb3; 0x4ed8aa4a; 0x5b9cca4f; 0x682e6ff3];
  [0x748f82ee; 0x78a5636f; 0x84c87814; 0x8cc70208; 0x90befffa; 0xa4506ceb; 0xbef9a3f7; 0xc67178f2]].

Definition sha256_words (data : list Z) : option (list Z) :=
  for_range 16 0
    (fun i m =>
       b0 ← rd8 data (4 * i); b1 ← rd8 data (4 * i + 1);
       b2 ← rd8 data (4 * i + 2); b3 ← rd8 data (4 * i + 3);
       Some (m ++ [u32 (Z.lor (Z.lor (Z.lor (Z.shiftl b0 24) (Z.shiftl b1 16)) (Z.shiftl b2 8)) b3)])) [].

Definition sha256_extend (m : list Z) : option (list Z) :=
  for_range 48 16
    (fun i m =>
       w2 ← znth m (i - 2); w7 ← znth m (i - 7); w15 ← znth m (i - 15); w16 ← znth m (i - 16);
       Some (m ++ [u32 (SIG1 w2 + w7 + SIG0 w15 + w16)])) m.

Definition sha256_transform (st : sha256_h) (data : list Z) : option sha256_h :=
  m ← sha256_words data;
  m ← sha256_extend m;
  let '(s0, s1, s2, s3, s4, s5, s6, s7) := st in
  s ← for_range 64 0
    (fun i '(a, b, c, d, e, f, g, h) =>
       ki ← znth sha256_k i; mi ← znth m i;
       let t1 := u32 (h + EP1 e + CH e f g + ki + mi) in
       let t2 := u32 (EP0 a + MAJ a b c) in
       Some (u32 (t1 + t2), a, b, c, u32 (d + t1), e, f, g)) st;
  let '(a, b, c, d, e, f, g, h) := s in
  Some (u32 (s0 + a), u32 (s1 + b), u32 (s2 + c), u32 (s3 + d),
        u32 (s4 + e), u32 (s5 + f), u32 (s6 + g), u32 (s7 + h)).

Definition sha256_IV : sha256_h :=
  (0x6a09e667, 0xbb67ae85, 0x3c6ef372, 0xa54ff53a, 0x510e527f, 0x9b05688c, 0x1f83d9ab, 0x5be0cd19).

Definition sha256_init (data : list Z) : SHA256_CTX := mkSHA data 0 0 sha256_IV.

Definition sha256_update : SHA256_CTX -> list Z -> Z -> option SHA256_CTX := sha_update sha256_transform.

Definition sha256_final (ctx : SHA256_CTX) (hash : list Z) : option (SHA256_CTX * list Z) :=
  ctx ← sha_finish sha256_transform ctx;
  let '(s0, s1, s2, s3, s4, s5, s6, s7) := sha_state ctx in
  hash ← for_range 4 0
    (fun i hash =>
       hash ← wr8 hash i (Z.land (Z.shiftr s0 (24 - i * 8)) 0xff);
       hash ← wr8 hash (i + 4) (Z.land (Z.shiftr s1 (24 - i * 8)) 0xff);
       hash ← wr8 hash (i + 8) (Z.land (Z.shiftr s2 (24 - i * 8)) 0xff);
       hash ← wr8 hash (i + 12) (Z.land (Z.shiftr s3 (24 - i * 8)) 0xff);
       hash ← wr8 hash (i + 16) (Z.land (Z.shiftr s4 (24 - i * 8)) 0xff);
       hash ← wr8 hash (i + 20) (Z.land (Z.shiftr s5 (24 - i * 8)) 0xff);
       hash ← wr8 hash (i + 24) (Z.land (Z.shiftr s6 (24 - i * 8)) 0xff);
       wr8 hash (i + 28) (Z.land (Z.shiftr s7 (24 - i * 8)) 0xff)) hash;
  Some (ctx, hash).

(** ** Strings

    [data] and [hash] are the indeterminate stack arrays of 64 and 40 bytes; a
    null argument returns at once. *)

Definition sha1_string (data hash : list Z) (str output : option (list Z)) : option (option (list Z)) :=
  match str, output with
  | Some str, Some output =>
      let ctx := sha1_init data in
      ctx ← sha1_update ctx str (u32 (zlen str));
      '(_, hash) ← sha1_final ctx hash;
      output ← print_bytes 3 40 hash output;
      output ← wr8 output 40 0;
      Some (Some output)
  | _, _ => Some output
  end.

Definition sha256_string (data hash : list Z) (input output : option (list Z)) : option (option (list Z)) :=
  match input, output with
  | Some input, Some output =>
      let ctx := sha256_init data in
      ctx ← sha256_update ctx input (u32 (zlen input));
      '(_, hash) ← sha256_final ctx hash;
      output ← print_bytes 3 40 hash output;
      output ← wr8 output 40 0;
      Some (Some output)
  | _, _ => Some output
  end.

Example sha1_abc :
  ('(_, h) ← (ctx ← sha1_update (sha1_init (zeros 64)) [97;98;99] 3; sha1_final ctx (zeros 20)); Some (take 4 h))
  = Some [0xa9; 0x99; 0x3e; 0x36].
Proof. vm_compute. reflexivity. Qed.

Example sha256_abc :
  ('(_, h) ← (ctx ← sha256_update (sha256_init (zeros 64)) [97;98;99] 3; sha256_final ctx (zeros 32)); Some (take 4 h))
  = Some [0xba; 0x78; 0x16; 0xbf].
Proof. vm_compute. reflexivity. Qed.

(** ** Reference: FIPS 180

    The message schedule extends the sixteen words of the block; a round takes
    the step number, its function and constant. *)

Definition block_words (block : list Z) : list Z :=
  (fun i => let b k := default 0 (block !! Z.to_nat (4 * i + k)) in
            b 3 + b 2 * 2 ^ 8 + b 1 * 2 ^ 16 + b 0 * 2 ^ 24) <$> seqZ 0 16.

(** The word [j] places before the end. *)
Definition back (m : list Z) (j : Z) : Z := default 0 (znth m (zlen m - j)).

Definition schedule (next : list Z -> Z) (n : nat) (block : list Z) : list Z :=
  Nat.iter n (fun m => m ++ [next m]) (block_words block).

Definition sha1_next (m : list Z) : Z :=
  rotl (Z.lxor (Z.lxor (Z.lxor (back m 3) (back m 8)) (back m 14)) (back m 16)) 1.

Definition Parity (x y z : Z) : Z := Z.lxor (Z.lxor x y) z.

Definition sha1_f (t : Z) : Z -> Z -> Z -> Z :=
  if t <? 20 then CH else if t <? 40 then Parity else if t <? 60 then MAJ else Parity.

Definition sha1_K (k : Z * Z * Z * Z) (t : Z) : Z :=
  let '(k0, k1, k2, k3) := k in
  if t <? 20 then k0 else if t <? 40 then k1 else if t <? 60 then k2 else k3.

Definition sha1_round (k : Z * Z * Z * Z) (w : list Z) (s : sha1_h) (t : Z) : sha1_h :=
  let '(a, b, c, d, e) := s in
  (u32 (rotl a 5 + sha1_f t b c d + e + sha1_K k t + default 0 (znth w t)), a, rotl b 30, c, d).

Definition sha1_block (ctx : sha1_words) (block : list Z) : sha1_words :=
  let '(s0, s1, s2, s3, s4) := sha1_st ctx in
  let '(a, b, c, d, e) :=
    fold_left (sha1_round (sha1_k ctx) (schedule sha1_next 64 block)) (seqZ 0 80) (sha1_st ctx) in
  mkSha1 (u32 (s0 + a), u32 (s1 + b), u32 (s2 + c), u32 (s3 + d), u32 (s4 + e)) (sha1_k ctx).

Definition sha256_next (m : list Z) : Z :=
  u32 (SIG1 (back m 2) + back m 7 + SIG0 (back m 15) + back m 16).

Definition sha256_round (w : list Z) (s : sha256_h) (t : Z) : sha256_h :=
  let '(a, b, c, d, e, f, g, h) := s in
  let t1 := u32 (h + EP1 e + CH e f g + default 0 (znth sha256_k t) + default 0 (znth w t)) in
  let t2 := u32 (EP0 a + MAJ a b c) in
  (u32 (t1 + t2), a, b, c, u32 (d + t1), e, f, g).

Definition sha256_block (st : sha256_h) (block : list Z) : sha256_h :=
  let '(s0, s1, s2, s3, s4, s5, s6, s7) := st in
  let '(a, b, c, d, e, f, g, h) :=
    fold_left (sha256_round (schedule sha256_next 48 block)) (seqZ 0 64) st in
  (u32 (s0 + a), u32 (s1 + b), u32 (s2 + c), u32 (s3 + d),
   u32 (s4 + e), u32 (s5 + f), u32 (s6 + g), u32 (s7 + h)).

(** ** The transforms perform the rounds *)

(** Reading the four bytes of word [i] of a block. *)
Lemma block_bytes block k :
  length block = 64%nat -> bytes_ok block -> 0 <= k < 16 ->
  exists b0 b1 b2 b3, rd8 block (4 * k) = Some b0 /\ rd8 block (4 * k + 1) = Some b1
    /\ rd8 block (4 * k + 2) = Some b2 /\ rd8 block (4 * k + 3) = Some b3
    /\ is_u8 b0 /\ is_u8 b1 /\ is_u8 b2 /\ is_u8 b3
    /\ (let b k' := default 0 (block !! Z.to_nat (4 * k + k')) in
        b 3 + b 2 * 2 ^ 8 + b 1 * 2 ^ 16 + b 0 * 2 ^ 24 = b3 + b2 * 2 ^ 8 + b1 * 2 ^ 16 + b0 * 2 ^ 24).
Proof.
  intros Hl Hb Hk. cbv zeta.
  assert (forall j, 0 <= j < 4 -> exists b, rd8 block (4 * k + j) = Some b /\ is_u8 b
            /\ default 0 (block !! Z.to_nat (4 * k + j)) = b) as H.
  { intros j Hj. destruct (rd8_lt block (4 * k + j)) as [b Hr]; [lia|]. exists b.
    split; [done|]. split; [by eapply rd8_byte|]. apply znth_Some in Hr as [_ ->]. done. }
  destruct (H 0 ltac:(lia)) as (b0 & H0 & ? & ->), (H 1 ltac:(lia)) as (b1 & ? & ? & ->),
    (H 2 ltac:(lia)) as (b2 & ? & ? & ->), (H 3 ltac:(lia)) as (b3 & ? & ? & ->).
  rewrite Z.add_0_r in H0. by exists b0, b1, b2, b3.
Qed.

Lemma be_word_loop_words block :
  length block = 64%nat -> bytes_ok block -> be_word_loop block = Some (block_words block).
Proof.
  intros Hl Hb. unfold be_word_loop, block_words. apply (for_range_snoc _ _ 16 0 []).
  intros k out Hk. destruct (block_bytes block k) as (b0 & b1 & b2 & b3 & -> & -> & -> & -> & ? & ? & ? & ? & E);
    [done | done | lia |]. cbn [mbind option_bind]. rewrite E, !Z.shiftl_mul_pow2 by lia.
  rewrite u32_id by lia. do 3 f_equal. lia.
Qed.

Lemma sha256_words_words block :
  length block = 64%nat -> bytes_ok block -> sha256_words block = Some (block_words block).
Proof.
  intros Hl Hb. unfold sha256_words, block_words. apply (for_range_snoc _ _ 16 0 []).
  intros k out Hk. destruct (block_bytes block k) as (b0 & b1 & b2 & b3 & -> & -> & -> & -> & ? & ? & ? & ? & E);
    [done | done | lia |]. cbn [mbind option_bind]. rewrite E, lor_bytes_be, u32_id by lia. done.
Qed.

Lemma znth_back m k j : k = zlen m - j -> 0 < j <= zlen m -> znth m k = Some (back m j).
Proof. intros -> Hj. unfold back. by destruct (znth_lt m (zlen m - j)) as [x ->]; [lia|]. Qed.

Lemma block_words_len block : zlen (block_words block) = 16.
Proof. unfold block_words. len. Qed.

Lemma sha1_extend_schedule block :
  sha1_extend (block_words block) = Some (schedule sha1_next 64 block).
Proof.
  unfold sha1_extend, schedule. apply for_range_extend; [by rewrite block_words_len|]. intros m Hm.
  rewrite (znth_back m (zlen m - 3) 3), (znth_back m (zlen m - 8) 8), (znth_back m (zlen m - 14) 14), (znth_back m (zlen m - 16) 16) by lia. done.
Qed.

Lemma sha256_extend_schedule block :
  sha256_extend (block_words block) = Some (schedule sha256_next 48 block).
Proof.
  unfold sha256_extend, schedule. apply for_range_extend; [by rewrite block_words_len|]. intros m Hm.
  rewrite (znth_back m (zlen m - 2) 2), (znth_back m (zlen m - 7) 7), (znth_back m (zlen m - 15) 15), (znth_back m (zlen m - 16) 16) by lia. done.
Qed.

Lemma schedule_len next n block : zlen (schedule next n block) = 16 + Z.of_nat n.
Proof. unfold schedule. rewrite iter_extend_length. pose proof (block_words_len block). lia. Qed.

(** Twenty rounds with the function and constant of their range. *)
Lemma sha1_rounds_fold f k kk w i s :
  zlen w = 80 -> 0 <= i <= 60 ->
  (forall t, i <= t < i + 20 -> sha1_f t = f /\ sha1_K kk t = k) ->
  sha1_rounds f k w i s = Some (fold_left (sha1_round kk w) (seqZ i 20) s).
Proof.
  intros Hw Hi Hf. unfold sha1_rounds. apply (for_range_fold _ _ 20).
  intros t [[[[a b] c] d] e] Ht. destruct (Hf t ltac:(lia)) as [E1 E2].
  destruct (znth_lt w t) as [x Hx]; [lia|]. rewrite Hx. cbn [mbind option_bind].
  unfold sha1_round. by rewrite E1, E2, Hx.
Qed.

Lemma sha1_transform_block ctx block :
  length block = 64%nat -> bytes_ok block -> sha1_transform ctx block = Some (sha1_block ctx block).
Proof.
  intros Hl Hb. unfold sha1_transform, sha1_block.
  rewrite be_word_loop_words, bind_Some, sha1_extend_schedule, bind_Some by done.
  destruct ctx as [[[[[s0 s1] s2] s3] s4] kk]. cbn [sha1_st sha1_k].
  set (w := schedule _ _ _). assert (zlen w = 80) as Hw by apply schedule_len. clearbody w.
  change (seqZ 0 80) with (seqZ 0 20 ++ seqZ 20 20 ++ seqZ 40 20 ++ seqZ 60 20).
  rewrite !fold_left_app. destruct kk as [[[k0 k1] k2] k3].
  do 4 (rewrite (sha1_rounds_fold _ _ (k0, k1, k2, k3)), bind_Some;
    [| done | lia | intros t Ht; unfold sha1_f, sha1_K; split; repeat (zcase; try lia); done]).
  by destruct (fold_left _ _ _) as [[[[a b] c] d] e].
Qed.

Lemma sha256_transform_block st block :
  length block = 64%nat -> bytes_ok block -> sha256_transform st block = Some (sha256_block st block).
Proof.
  intros Hl Hb. unfold sha256_transform, sha256_block.
  rewrite sha256_words_words, bind_Some, sha256_extend_schedule, bind_Some by done.
  set (w := schedule _ _ _). assert (zlen w = 64) as Hw by apply schedule_len. clearbody w.
  destruct st as [[[[[[[s0 s1] s2] s3] s4] s5] s6] s7].
  rewrite (for_range_fold (sha256_round w)), bind_Some.
  { change (Z.of_nat (Z.to_nat 64)) with 64. change (Z.of_nat 64) with 64.
    by destruct (fold_left _ _ _) as [[[[[[[a b] c] d] e] f] g] h]. }
  intros t [[[[[[[a b] c] d] e] f] g] h] Ht.
  destruct (znth_lt w t) as [x Hx]; [lia|]. destruct (znth_lt sha256_k t) as [y Hy]; [cbn; lia|].
  unfold sha256_round. by rewrite Hx, Hy.
Qed.

(** ** Buffering *)

(** The while loop that clears the rest of the block. *)
Lemma fill_zeros_app l rest i n :
  i = zlen l -> i <= n <= zlen l + zlen rest ->
  fill_zeros (l ++ rest) i n = Some (l ++ zeros (n - i) ++ drop (Z.to_nat (n - i)) rest).
Proof.
  intros Hi Hn. unfold fill_zeros, zeros.
  assert (Hk : (Z.to_nat (n - i) <= length rest)%nat) by lia. clear Hn.
  generalize dependent (Z.to_nat (n - i)). intros k. revert i l rest Hi.
  induction k as [|k IH]; intros i l rest Hi Hk.
  - by rewrite drop_0.
  - destruct rest as [|r rest]; [cbn in Hk; lia|]. cbn [for_range]. rewrite wr8_snoc by done.
    cbn [mbind option_bind]. rewrite cons_middle, app_assoc.
    rewrite IH; [| len | cbn in Hk; lia]. by rewrite <- app_assoc.
Qed.

Lemma wr8_app_r l r i v : zlen l <= i < zlen l + zlen r ->
  wr8 (l ++ r) i v = wr8 r (i - zlen l) v ≫= fun r' => Some (l ++ r').
Proof.
  intros Hi. rewrite !wr8_Some by len. rewrite bind_Some.
  rewrite insert_app_r_alt by lia. do 3 f_equal. lia.
Qed.

(** A store at a constant index of an array given by its cells. *)
Ltac wr8_step :=
  rewrite wr8_Some by (cbn [length]; lia);
  match goal with |- context [<[?k := ?v]> ?l] => let n := eval vm_compute in k in change k with n end;
  cbn [mbind option_bind insert list_insert].

Lemma store_length_be l r bitlen :
  zlen l = 56 -> zlen r = 8 -> store_length (l ++ r) bitlen = Some (l ++ be_bytes 8 bitlen).
Proof.
  intros Hl Hr. destruct r as [|r0 [|r1 [|r2 [|r3 [|r4 [|r5 [|r6 [|r7 [|]]]]]]]]]; cbn in Hr; try lia.
  unfold store_length. do 8 (rewrite wr8_app_r by (cbn; lia); rewrite Hl; cbn [mbind option_bind]; wr8_step).
  done.
Qed.

Section buffering_correct.
Context {S : Type} (transform : S -> list Z -> option S) (compress : S -> list Z -> S) (st0 : S).
Context (transform_compress : forall st block,
  length block = 64%nat -> bytes_ok block -> transform st block = Some (compress st block)).

(** The context has absorbed [msg] since its initialisation. *)
Record sha_absorbed (ctx : SHA_CTX S) (msg : list Z) : Prop := {
  sa_blocks : absorbed compress st0 msg (sha_state ctx) (sha_data ctx);
  sa_datalen : sha_datalen ctx = zlen msg `mod` 64;
  sa_bitlen : sha_bitlen ctx = u64 (8 * (zlen msg - zlen msg `mod` 64));
  sa_bytes : bytes_ok (sha_data ctx)
}.

Lemma sha_absorbed_init data :
  length data = 64%nat -> bytes_ok data -> sha_absorbed (mkSHA data 0 0 st0) [].
Proof. intros. constructor; cbn; [by apply absorbed_nil | done | done | done]. Qed.

(** One byte of an update. *)
Lemma sha_push_absorbs ctx msg b :
  sha_absorbed ctx msg -> is_u8 b ->
  exists ctx', sha_push transform ctx b = Some ctx' /\ sha_absorbed ctx' (msg ++ [b]).
Proof.
  intros [Ha Hd Hb Hok] Hbyte. pose proof (absorbed_length _ _ _ _ _ Ha) as Hl.
  assert (0 <= zlen msg `mod` 64 < 64) as Hidx by zlia. unfold sha_push. rewrite Hd.
  rewrite wr8_Some, bind_Some, u8_id by lia. cbv zeta. rewrite u32_id by lia.
  change (<[?k := b]> ?l) with (list_inserts k [b] l).
  set (buf := list_inserts _ _ _).
  assert (length buf = 64%nat) by (subst buf; len).
  assert (bytes_ok buf) by (apply Forall_inserts; [by apply Forall_singleton | done]).
  assert (zlen (msg ++ [b]) = zlen msg + 1) as Hl' by len.
  destruct (Z.eqb_spec (zlen msg `mod` 64 + 1) 64) as [E|E].
  - rewrite transform_compress, bind_Some by done. eexists. split; [done|].
    constructor; cbn [sha_state sha_data sha_datalen sha_bitlen]; rewrite ?Hl'; [|zlia| |done].
    + by apply absorbed_fill.
    + rewrite Hb. unfold u64. zlia.
  - eexists. split; [done|]. constructor; cbn [sha_state sha_data sha_datalen sha_bitlen]; rewrite ?Hl'; [|zlia| |done].
    + apply absorbed_store; [done | cbn; lia].
    + rewrite Hb. f_equal. zlia.
Qed.

Lemma sha_update_absorbs ctx msg data len :
  sha_absorbed ctx msg -> 0 <= len <= zlen data -> bytes_ok data ->
  exists ctx', sha_update transform ctx data len = Some ctx'
    /\ sha_absorbed ctx' (msg ++ take (Z.to_nat len) data).
Proof.
  intros Ha Hlen Hok. unfold sha_update.
  edestruct (for_range_inv (fun i ctx => 0 <= i /\ sha_absorbed ctx (msg ++ take (Z.to_nat i) data)))
    as (ctx' & -> & _ & H).
  3: { exists ctx'. split; [done|]. by rewrite Z.add_0_l, Z2Nat.id in H by lia. }
  - intros i ctx1 Hi [_ Hc]. destruct (rd8_lt data i) as [b Hb]; [lia|]. rewrite Hb, bind_Some.
    destruct (sha_push_absorbs ctx1 _ b Hc) as (ctx2 & -> & H2); [by eapply rd8_byte|].
    exists ctx2. split; [done|]. split; [lia|]. apply znth_Some in Hb as [_ Hb].
    replace (Z.to_nat (i + 1)) with (Datatypes.S (Z.to_nat i)) by lia.
    rewrite (take_S_r _ _ b) by done. by rewrite app_assoc.
  - split; [lia|]. rewrite take_0, app_nil_r. done.
Qed.

(** The tail that completes the pending bytes of a block. *)
Lemma compress_tail ctx msg tail :
  sha_absorbed ctx msg -> zlen msg `mod` 64 + zlen tail = 64 -> bytes_ok tail ->
  let block := take (Z.to_nat (sha_datalen ctx)) (sha_data ctx) ++ tail in
  transform (sha_state ctx) block = Some (compress (sha_state ctx) block)
  /\ forall buf, length buf = 64%nat ->
       absorbed compress st0 (msg ++ tail) (compress (sha_state ctx) block) buf.
Proof.
  intros [Ha Hd Hb Hok] Ht Htok block. pose proof (absorbed_length _ _ _ _ _ Ha) as Hl.
  assert (list_inserts (Z.to_nat (zlen msg `mod` 64)) tail (sha_data ctx) = block) as E.
  { rewrite inserts_eq by zlia. rewrite (drop_ge (sha_data ctx)) by zlia.
    by rewrite app_nil_r, <- Hd. }
  split.
  - apply transform_compress; subst block.
    + rewrite length_app, length_take, Hd. zlia.
    + apply Forall_app. split; [by apply Forall_take | done].
  - intros buf Hbuf. rewrite <- E. by apply absorbed_fill.
Qed.

(** The 0x80 byte and the zeros after the pending bytes, up to cell [n]. *)
Lemma pad_block ctx msg n :
  sha_absorbed ctx msg -> zlen msg `mod` 64 < n <= 64 ->
  (data ← wr8 (sha_data ctx) (sha_datalen ctx) 0x80; fill_zeros data (sha_datalen ctx + 1) n)
  = Some ((take (Z.to_nat (sha_datalen ctx)) (sha_data ctx) ++ 0x80 :: zeros (n - (sha_datalen ctx + 1)))
          ++ drop (Z.to_nat n) (sha_data ctx)).
Proof.
  intros [Ha Hd Hb Hok] Hn. pose proof (absorbed_length _ _ _ _ _ Ha) as Hl. rewrite Hd.
  assert (0 <= zlen msg `mod` 64) by zlia. set (k := zlen msg `mod` 64) in *.
  set (l := take (Z.to_nat k) (sha_data ctx)). assert (zlen l = k) as Hk by (subst l; len).
  rewrite <- (take_drop (Z.to_nat k) (sha_data ctx)) at 1. fold l.
  destruct (drop (Z.to_nat k) (sha_data ctx)) as [|r rest] eqn:E.
  { apply (f_equal length) in E. rewrite length_drop in E. cbn in E. lia. }
  assert (Hrest : rest = drop (Z.to_nat (k + 1)) (sha_data ctx)).
  { replace (Z.to_nat (k + 1)) with (Z.to_nat k + 1)%nat by lia. by rewrite <- drop_drop, E. }
  rewrite wr8_snoc, bind_Some by done. change (u8 0x80) with 0x80.
  rewrite cons_middle, app_assoc, fill_zeros_app; [| len | subst rest; len].
  f_equal. rewrite <- !app_assoc. cbn [app]. do 3 f_equal. rewrite Hrest, drop_drop. f_equal. lia.
Qed.

Lemma sha_finish_absorbs ctx msg :
  sha_absorbed ctx msg ->
  exists ctx', sha_finish transform ctx = Some ctx'
    /\ sha_state ctx' = absorb compress st0 (pad (be_bytes 8) msg).
Proof.
  intros Hs. pose proof Hs as [Ha Hd Hb Hok]. pose proof (absorbed_length _ _ _ _ _ Ha) as Hl.
  unfold sha_finish. cbv zeta. set (bitlen := u64 (_ + _)).
  assert (bitlen = u64 (8 * zlen msg)) as Hbit.
  { subst bitlen. rewrite Hb, Hd, u32_id by zlia. unfold u64. zlia. }
  clearbody bitlen. subst bitlen. assert (0 <= zlen msg `mod` 64 < 64) as Hidx by zlia.
  pose proof (fun n => pad_block ctx msg n Hs) as Hpad.
  destruct (Z.ltb_spec (sha_datalen ctx) 56) as [Hlt|Hge].
  - specialize (Hpad 56 ltac:(lia)). destruct (wr8 _ _ _) as [d|]; [|done].
    cbn [mbind option_bind] in Hpad |- *. rewrite Hpad. cbn [mbind option_bind].
    rewrite store_length_be, <- app_assoc; [| rewrite Hd; len | len]. cbn [mbind option_bind].
    destruct (compress_tail ctx msg
        ((0x80 :: zeros (56 - (sha_datalen ctx + 1))) ++ be_bytes 8 (u64 (8 * zlen msg))) Hs)
      as [-> Habs]; [rewrite Hd; len | |].
    { apply Forall_app. split; [constructor; [lia | apply zeros_ok] | apply be_bytes_ok]. }
    cbn [mbind option_bind]. eexists. split; [done|]. cbn [sha_state].
    assert (msg ++ (0x80 :: zeros (56 - (sha_datalen ctx + 1))) ++ be_bytes 8 (u64 (8 * zlen msg))
      = pad (be_bytes 8) msg) as E.
    { unfold pad. by replace (pad_zeros (zlen msg)) with (56 - (sha_datalen ctx + 1))
        by (unfold pad_zeros; rewrite Hd; zlia). }
    specialize (Habs (sha_data ctx) Hl). rewrite E in Habs.
    apply (absorbed_whole _ _ _ _ _ Habs). apply pad_length. intros. by rewrite be_bytes_length.
  - specialize (Hpad 64 ltac:(lia)). destruct (wr8 _ _ _) as [d|]; [|done].
    cbn [mbind option_bind] in Hpad |- *. rewrite Hpad. cbn [mbind option_bind].
    rewrite (drop_ge (sha_data ctx)), app_nil_r by lia.
    set (tail := 0x80 :: zeros (64 - (sha_datalen ctx + 1))).
    destruct (compress_tail ctx msg tail Hs) as [-> Habs]; [subst tail; rewrite Hd; len | |].
    { constructor; [lia | apply zeros_ok]. }
    cbn [mbind option_bind]. set (st1 := compress _ _) in *.
    set (data := take _ _ ++ tail). assert (length data = 64%nat) as Hdl by (subst data tail; len).
    pose proof (wr_bytes_app [] data (zeros 56) 0 eq_refl) as Hw. cbn [app] in Hw.
    rewrite Hw by len. cbn [mbind option_bind].
    rewrite store_length_be by len. cbn [mbind option_bind].
    set (last := zeros 56 ++ be_bytes 8 (u64 (8 * zlen msg))).
    rewrite transform_compress; [| subst last; len
      | subst last; apply Forall_app; split; [apply zeros_ok | apply be_bytes_ok]].
    cbn [mbind option_bind]. eexists. split; [done|]. cbn [sha_state].
    specialize (Habs data Hdl).
    assert (zlen (msg ++ tail) `mod` 64 = 0) as Hm by (subst tail; autorewrite with bblen; cbn [length]; zlia).
    assert (zlen last = 64) as Hll by (subst last; len).
    apply (absorbed_fill _ _ _ _ _ data last) in Habs; [| by rewrite Hm, Hll | done].
    rewrite Hm, inserts_eq, (drop_ge data), app_nil_r in Habs by lia. cbn [Z.to_nat take app] in Habs.
    replace ((msg ++ tail) ++ last) with (pad (be_bytes 8) msg) in Habs.
    + apply (absorbed_whole _ _ _ _ _ Habs). apply pad_length. intros. by rewrite be_bytes_length.
    + unfold pad. subst tail last. rewrite <- !app_assoc. cbn [app]. do 2 f_equal.
      rewrite app_assoc. f_equal. unfold zeros. rewrite <- replicate_add. f_equal.
      unfold pad_zeros. rewrite Hd. zlia.
Qed.
End buffering_correct.

(** ** Digests *)

Definition be_words (ws : list Z) : list Z := concat (be_bytes 4 <$> ws).

Definition sha1_digest (msg : list Z) : list Z :=
  let '(s0, s1, s2, s3, s4) := sha1_st (absorb sha1_block sha1_IV (pad (be_bytes 8) msg)) in
  be_words [s0; s1; s2; s3; s4].

Definition sha256_digest (msg : list Z) : list Z :=
  let '(s0, s1, s2, s3, s4, s5, s6, s7) := absorb sha256_block sha256_IV (pad (be_bytes 8) msg) in
  be_words [s0; s1; s2; s3; s4; s5; s6; s7].

(** The bytes stored by the four turns of the output loops. *)
Ltac hash_bytes :=
  change (24 - 0 * 8) with (8 * 3); change (24 - (0 + 1) * 8) with (8 * 2);
  change (24 - (0 + 1 + 1) * 8) with (8 * 1); change (24 - (0 + 1 + 1 + 1) * 8) with (8 * 0);
  rewrite !u8_land_byte; reflexivity.

Lemma sha1_hash_loop s0 s1 s2 s3 s4 hash :
  20 <= zlen hash ->
  for_range 4 0
    (fun i hash =>
       hash ← wr8 hash i (Z.land (Z.shiftr s0 (24 - i * 8)) 0xff);
       hash ← wr8 hash (i + 4) (Z.land (Z.shiftr s1 (24 - i * 8)) 0xff);
       hash ← wr8 hash (i + 8) (Z.land (Z.shiftr s2 (24 - i * 8)) 0xff);
       hash ← wr8 hash (i + 12) (Z.land (Z.shiftr s3 (24 - i * 8)) 0xff);
       wr8 hash (i + 16) (Z.land (Z.shiftr s4 (24 - i * 8)) 0xff)) hash
  = Some (be_words [s0; s1; s2; s3; s4] ++ drop 20 hash).
Proof.
  intros H. do 20 (destruct hash as [|? hash]; [cbn in H; lia|]). clear H. cbn [for_range].
  do 20 wr8_step. f_equal. hash_bytes.
Qed.

Lemma sha256_hash_loop s0 s1 s2 s3 s4 s5 s6 s7 hash :
  32 <= zlen hash ->
  for_range 4 0
    (fun i hash =>
       hash ← wr8 hash i (Z.land (Z.shiftr s0 (24 - i * 8)) 0xff);
       hash ← wr8 hash (i + 4) (Z.land (Z.shiftr s1 (24 - i * 8)) 0xff);
       hash ← wr8 hash (i + 8) (Z.land (Z.shiftr s2 (24 - i * 8)) 0xff);
       hash ← wr8 hash (i + 12) (Z.land (Z.shiftr s3 (24 - i * 8)) 0xff);
       hash ← wr8 hash (i + 16) (Z.land (Z.shiftr s4 (24 - i * 8)) 0xff);
       hash ← wr8 hash (i + 20) (Z.land (Z.shiftr s5 (24 - i * 8)) 0xff);
       hash ← wr8 hash (i + 24) (Z.land (Z.shiftr s6 (24 - i * 8)) 0xff);
       wr8 hash (i + 28) (Z.land (Z.shiftr s7 (24 - i * 8)) 0xff)) hash
  = Some (be_words [s0; s1; s2; s3; s4; s5; s6; s7] ++ drop 32 hash).
Proof.
  intros H. do 32 (destruct hash as [|? hash]; [cbn in H; lia|]). clear H. cbn [for_range].
  do 32 wr8_step. f_equal. hash_bytes.
Qed.

Lemma sha1_digest_length msg : length (sha1_digest msg) = 20%nat.
Proof. unfold sha1_digest. by destruct (sha1_st _) as [[[[a b] c] d] e]. Qed.

Lemma sha256_digest_length msg : length (sha256_digest msg) = 32%nat.
Proof. unfold sha256_digest. by destruct (absorb _ _ _) as [[[[[[[a b] c] d] e] f] g] h]. Qed.

(** A message given in any chunks. *)
Definition sha_updates {S} (transform : S -> list Z -> option S) (ctx : SHA_CTX S)
    (chunks : list (list Z)) : option (SHA_CTX S) :=
  foldl (fun octx chunk => ctx ← octx; sha_update transform ctx chunk (zlen chunk)) (Some ctx) chunks.

Lemma sha_updates_absorb {S} (transform : S -> list Z -> option S) compress st0
    (H : forall st block, length block = 64%nat -> bytes_ok block ->
       transform st block = Some (compress st block)) ctx msg chunks :
  sha_absorbed compress st0 ctx msg -> Forall (fun c => bytes_ok c) chunks ->
  exists ctx', sha_updates transform ctx chunks = Some ctx'
    /\ sha_absorbed compress st0 ctx' (msg ++ concat chunks).
Proof.
  unfold sha_updates. intros Ha Hc. revert ctx msg Ha.
  induction Hc as [|chunk chunks Hb _ IH]; intros ctx msg Ha; cbn.
  - exists ctx. by rewrite app_nil_r.
  - destruct (sha_update_absorbs transform compress st0 H ctx msg chunk (zlen chunk))
      as (ctx' & -> & Ha'); [done | lia | done |].
    rewrite Nat2Z.id, firstn_all in Ha'. apply IH in Ha'. by rewrite <- app_assoc in Ha'.
Qed.

Lemma sha1_final_digest ctx msg hash :
  sha_absorbed sha1_block sha1_IV ctx msg -> 20 <= zlen hash ->
  exists ctx', sha1_final ctx hash = Some (ctx', sha1_digest msg ++ drop 20 hash).
Proof.
  intros Ha Hh. unfold sha1_final, sha1_digest.
  destruct (sha_finish_absorbs _ _ _ sha1_transform_block ctx msg Ha) as (ctx' & -> & <-).
  cbn [mbind option_bind]. destruct (sha1_st (sha_state ctx')) as [[[[s0 s1] s2] s3] s4].
  rewrite sha1_hash_loop by done. by exists ctx'.
Qed.

Lemma sha256_final_digest ctx msg hash :
  sha_absorbed sha256_block sha256_IV ctx msg -> 32 <= zlen hash ->
  exists ctx', sha256_final ctx hash = Some (ctx', sha256_digest msg ++ drop 32 hash).
Proof.
  intros Ha Hh. unfold sha256_final, sha256_digest.
  destruct (sha_finish_absorbs _ _ _ sha256_transform_block ctx msg Ha) as (ctx' & -> & <-).
  cbn [mbind option_bind]. destruct (sha_state ctx') as [[[[[[[s0 s1] s2] s3] s4] s5] s6] s7].
  rewrite sha256_hash_loop by done. by exists ctx'.
Qed.

(** C9: however a message is cut into updates, both hashes stay inside their
    64-byte block and leave in the first 20 (32) bytes of the caller's array the
    FIPS 180 digest of the whole message; the rest of the array is untouched. *)
Theorem sha_streams_fips180 data hash chunks :
  length data = 64%nat -> bytes_ok data -> 32 <= zlen hash -> Forall (fun c => bytes_ok c) chunks ->
  (exists ctx ctx', sha_updates sha1_transform (sha1_init data) chunks = Some ctx
     /\ sha1_final ctx hash = Some (ctx', sha1_digest (concat chunks) ++ drop 20 hash))
  /\ (exists ctx ctx', sha_updates sha256_transform (sha256_init data) chunks = Some ctx
     /\ sha256_final ctx hash = Some (ctx', sha256_digest (concat chunks) ++ drop 32 hash)).
Proof.
  intros Hl Hb Hh Hc. split.
  - destruct (sha_updates_absorb sha1_transform sha1_block sha1_IV sha1_transform_block (sha1_init data) [] chunks)
      as (ctx & -> & Ha); [by apply sha_absorbed_init | done |].
    destruct (sha1_final_digest ctx _ hash Ha) as [ctx' H]; [lia|]. eauto.
  - destruct (sha_updates_absorb sha256_transform sha256_block sha256_IV sha256_transform_block (sha256_init data) [] chunks)
      as (ctx & -> & Ha); [by apply sha_absorbed_init | done |].
    destruct (sha256_final_digest ctx _ hash Ha) as [ctx' H]; [lia|]. eauto.
Qed.

(** Forty cells printed, the string then cut after twenty bytes. *)
Lemma print_forty hash output :
  zlen hash = 40 -> 81 <= zlen output ->
  exists rest, (output ← print_bytes 3 40 hash output; output ← wr8 output 40 0; Some (Some output))
    = Some (Some (hex_cells 3 (take 20 hash) ++ 0 :: rest)) /\ zlen rest = zlen output - 41.
Proof.
  intros Hh Ho. destruct (print_bytes_cells 3 40 hash output) as (rest & -> & Hr); [auto | lia | lia |].
  cbn [mbind option_bind]. change (Z.to_nat 40) with 40%nat. rewrite (take_ge hash) by lia.
  replace (hex_cells 3 hash) with (hex_cells 3 (take 20 hash) ++ hex_cells 3 (drop 20 hash))
    by (by rewrite <- hex_cells_app, take_drop). rewrite <- app_assoc.
  assert (zlen (hex_cells 3 (take 20 hash)) = 40) as Hl by (rewrite hex_cells_length; len).
  assert (zlen (hex_cells 3 (drop 20 hash)) = 40) as Hl' by (rewrite hex_cells_length; len).
  destruct (hex_cells 3 (drop 20 hash)) as [|c cells]; [cbn in Hl'; lia|]. cbn [app].
  rewrite wr8_snoc by done. cbn [mbind option_bind]. eexists. split; [done|].
  rewrite length_app. cbn in Hl'. lia.
Qed.

Lemma sha1_string_prints data hash str output :
  length data = 64%nat -> bytes_ok data -> zlen hash = 40 -> bytes_ok str -> is_u32 (zlen str) ->
  sha1_string data hash (Some str) (Some output)
  = (output ← print_bytes 3 40 (sha1_digest str ++ drop 20 hash) output;
     output ← wr8 output 40 0; Some (Some output)).
Proof.
  intros Hl Hb Hh Hs Hn. unfold sha1_string. cbv zeta. rewrite u32_id by done.
  destruct (sha_update_absorbs sha1_transform sha1_block sha1_IV sha1_transform_block
    (sha1_init data) [] str (zlen str)) as (ctx & Hu & Ha);
    [by apply sha_absorbed_init | lia | done |].
  unfold sha1_update. rewrite Hu, bind_Some. rewrite Nat2Z.id, firstn_all in Ha.
  by destruct (sha1_final_digest ctx str hash Ha ltac:(lia)) as [ctx' ->].
Qed.

Lemma sha256_string_prints data hash str output :
  length data = 64%nat -> bytes_ok data -> zlen hash = 40 -> bytes_ok str -> is_u32 (zlen str) ->
  sha256_string data hash (Some str) (Some output)
  = (output ← print_bytes 3 40 (sha256_digest str ++ drop 32 hash) output;
     output ← wr8 output 40 0; Some (Some output)).
Proof.
  intros Hl Hb Hh Hs Hn. unfold sha256_string. cbv zeta. rewrite u32_id by done.
  destruct (sha_update_absorbs sha256_transform sha256_block sha256_IV sha256_transform_block
    (sha256_init data) [] str (zlen str)) as (ctx & Hu & Ha);
    [by apply sha_absorbed_init | lia | done |].
  unfold sha256_update. rewrite Hu, bind_Some. rewrite Nat2Z.id, firstn_all in Ha.
  by destruct (sha256_final_digest ctx str hash Ha ltac:(lia)) as [ctx' ->].
Qed.

(** The two string functions write 81 bytes.  With that much room
    [sha1_string] leaves the 40 digits of the digest and a NUL, but the string of
    [sha256_string] ends after the first 20 of the 32 bytes; with less room, even
    the 65 bytes a SHA-256 string takes, both overrun the caller's array. *)
Theorem sha_strings_outcomes data hash str output :
  length data = 64%nat -> bytes_ok data -> zlen hash = 40 -> bytes_ok str -> is_u32 (zlen str) ->
  if 81 <=? zlen output
  then (exists rest, sha1_string data hash (Some str) (Some output)
          = Some (Some (hex_cells 3 (sha1_digest str) ++ 0 :: rest)))
       /\ (exists rest, sha256_string data hash (Some str) (Some output)
          = Some (Some (hex_cells 3 (take 20 (sha256_digest str)) ++ 0 :: rest)))
  else sha1_string data hash (Some str) (Some output) = None
       /\ sha256_string data hash (Some str) (Some output) = None.
Proof.
  intros Hl Hb Hh Hs Hn. rewrite sha1_string_prints, sha256_string_prints by done.
  pose proof (sha1_digest_length str). pose proof (sha256_digest_length str).
  destruct (Z.leb_spec 81 (zlen output)) as [Ho|Ho].
  - split.
    + destruct (print_forty (sha1_digest str ++ drop 20 hash) output) as (rest & -> & _);
        [len | done |]. exists rest. by rewrite take_app_le, take_ge by lia.
    + destruct (print_forty (sha256_digest str ++ drop 32 hash) output) as (rest & -> & _);
        [len | done |]. exists rest. by rewrite take_app_le by lia.
  - by rewrite !print_bytes_overrun by lia.
Qed.

(** ** Witnesses *)

Lemma sha_streams_fips180_witness :
  (exists ctx ctx', sha_updates sha1_transform (sha1_init (zeros 64)) [[97]; [98; 99]] = Some ctx
     /\ sha1_final ctx (zeros 32) = Some (ctx', sha1_digest (concat [[97]; [98; 99]]) ++ drop 20 (zeros 32)))
  /\ (exists ctx ctx', sha_updates sha256_transform (sha256_init (zeros 64)) [[97]; [98; 99]] = Some ctx
     /\ sha256_final ctx (zeros 32) = Some (ctx', sha256_digest (concat [[97]; [98; 99]]) ++ drop 32 (zeros 32))).
Proof.
  apply sha_streams_fips180; [done | apply zeros_ok | done | repeat constructor; lia].
Defined.

Lemma sha_strings_outcomes_witness :
  if 81 <=? zlen (zeros 65)
  then (exists rest, sha1_string (zeros 64) (zeros 40) (Some [97; 98; 99]) (Some (zeros 65))
          = Some (Some (hex_cells 3 (sha1_digest [97; 98; 99]) ++ 0 :: rest)))
       /\ (exists rest, sha256_string (zeros 64) (zeros 40) (Some [97; 98; 99]) (Some (zeros 65))
          = Some (Some (hex_cells 3 (take 20 (sha256_digest [97; 98; 99])) ++ 0 :: rest)))
  else sha1_string (zeros 64) (zeros 40) (Some [97; 98; 99]) (Some (zeros 65)) = None
       /\ sha256_string (zeros 64) (zeros 40) (Some [97; 98; 99]) (Some (zeros 65)) = None.
Proof.
  apply sha_strings_outcomes; [done | apply zeros_ok | done | repeat constructor; lia | cbn; lia].
Defined.
