(* ===== verification/ModbusCommon.v ===== *)
(** * Modbus: what master and slave share

    fun_protocol/modbus/modbus.h and the first part of modbus.c: the error and
    exception enumerations, the bit-array accessors, the byte-order helpers,
    the frame checksum and the [ModbusParser] view of a frame. *)

From S2P Require Import Prelude CMem Crc.

(** ** Enumerations *)

(** [MODBUS_OK] is an alias of [MODBUS_ERROR_OK]. *)
Inductive ModbusError :=
| MODBUS_ERROR_OK
| MODBUS_ERROR_EXCEPTION
| MODBUS_ERROR_ALLOC
| MODBUS_ERROR_OTHER
| MODBUS_ERROR_NULLPTR
| MODBUS_ERROR_PARSE
| MODBUS_ERROR_BUILD.

Inductive ModbusFrameError :=
| MODBUS_FERROR_OK
| MODBUS_FERROR_CRC
| MODBUS_FERROR_LENGTH
| MODBUS_FERROR_COUNT
| MODBUS_FERROR_VALUE
| MODBUS_FERROR_RANGE
| MODBUS_FERROR_NOSRC
| MODBUS_FERROR_NOREAD
| MODBUS_FERROR_NOWRITE
| MODBUS_FERROR_NOFUN
| MODBUS_FERROR_BADFUN
| MODBUS_FERROR_NULLFUN
| MODBUS_FERROR_MISM_FUN
| MODBUS_FERROR_MISM_ADDR
| MODBUS_FERROR_MISM_INDEX
| MODBUS_FERROR_MISM_COUNT
| MODBUS_FERROR_MISM_VALUE
| MODBUS_FERROR_MISM_MASK
| MODBUS_FERROR_BROADCAST.

Inductive ModbusExceptionCode :=
| MODBUS_EXCEP_ILLEGAL_FUNCTION
| MODBUS_EXCEP_ILLEGAL_ADDRESS
| MODBUS_EXCEP_ILLEGAL_VALUE
| MODBUS_EXCEP_SLAVE_FAILURE
| MODBUS_EXCEP_ACK
| MODBUS_EXCEP_NACK.

Inductive ModbusDataType :=
| MODBUS_NO_TYPE
| MODBUS_HOLDING_REGISTER
| MODBUS_INPUT_REGISTER
| MODBUS_COIL
| MODBUS_DISCRETE_INPUT.

#[export] Instance ModbusError_eq_dec : EqDecision ModbusError.
Proof. solve_decision. Defined.
#[export] Instance ModbusFrameError_eq_dec : EqDecision ModbusFrameError.
Proof. solve_decision. Defined.
#[export] Instance ModbusExceptionCode_eq_dec : EqDecision ModbusExceptionCode.
Proof. solve_decision. Defined.
#[export] Instance ModbusDataType_eq_dec : EqDecision ModbusDataType.
Proof. solve_decision. Defined.

(** The value an exception code has on the wire. *)
Definition exception_code (c : ModbusExceptionCode) : Z :=
  match c with
  | MODBUS_EXCEP_ILLEGAL_FUNCTION => 1
  | MODBUS_EXCEP_ILLEGAL_ADDRESS => 2
  | MODBUS_EXCEP_ILLEGAL_VALUE => 3
  | MODBUS_EXCEP_SLAVE_FAILURE => 4
  | MODBUS_EXCEP_ACK => 5
  | MODBUS_EXCEP_NACK => 7
  end.

(** ** Helpers *)

Definition modbusBitsToBytes (n : Z) : Z :=
  if negb (n =? 0) then u16 (1 + Z.shiftr (n - 1) 3) else 0.

Definition modbusSwapEndian (data : Z) : Z :=
  u16 (Z.lor (Z.shiftl data 8) (Z.shiftr data 8)).

Definition modbusMatchEndian (be : bool) (data : Z) : Z :=
  if be then data else modbusSwapEndian data.

Definition modbusMaskRead (mask : option (list Z)) (maskLength bit : Z) : option Z :=
  match mask with
  | None => Some 255
  | Some m =>
      return_if (Z.shiftr bit 3 >=? maskLength) with Some 255 ;;
      b ← rd8 m (Z.shiftr bit 3);
      Some (u8 (Z.shiftr (Z.land b (Z.shiftl 1 (bit `mod` 8))) (bit `mod` 8)))
  end.

(** The array is written in place: the result is the return value and the array. *)
Definition modbusMaskWrite (mask : list Z) (maskLength bit value : Z) : option (Z * list Z) :=
  return_if (Z.shiftr bit 3 >=? maskLength) with Some (255, mask) ;;
  b ← rd8 mask (Z.shiftr bit 3);
  m ← wr8 mask (Z.shiftr bit 3)
        (if negb (value =? 0)
         then Z.lor b (Z.shiftl 1 (bit `mod` 8))
         else Z.land b (Z.lnot (Z.shiftl 1 (bit `mod` 8))));
  Some (0, m).

(** The inner loop [for (j = 8; j != 0; j--)] of [modbusCRC]. *)
Definition modbusCRC_bit (crc : Z) : Z :=
  if negb (Z.land crc 0x0001 =? 0) then Z.lxor (Z.shiftr crc 1) 0xA001 else Z.shiftr crc 1.

Definition modbusCRC (data : option (list Z)) (length : Z) : option Z :=
  match data with
  | None => Some 0
  | Some d =>
      crc ← for_range (Z.to_nat length) 0
              (fun i crc => b ← rd8 d i; Some (Nat.iter 8 modbusCRC_bit (Z.lxor crc b)))
              0xFFFF;
      Some (modbusSwapEndian crc)
  end.

(** ** The [ModbusParser] union

    Every member is a packed struct over the frame bytes, so a field is its
    byte offset; 16-bit fields are loaded in host order. *)

Section parser.
Variable be : bool.

Definition p_address (p : list Z) : option Z := rd8 p 0.
Definition p_function (p : list Z) : option Z := rd8 p 1.
(** [index] of every request and of the write responses. *)
Definition p_index (p : list Z) : option Z := rd16 be p 2.
(** [count], [value] or [andmask], the second 16-bit member. *)
Definition p_count (p : list Z) : option Z := rd16 be p 4.
(** [ormask] of function 22. *)
Definition p_ormask (p : list Z) : option Z := rd16 be p 6.
(** [length] and [values] of [request15] and [request16]. *)
Definition p_request_length (p : list Z) : option Z := rd8 p 6.
Definition p_request_value8 (p : list Z) (i : Z) : option Z := rd8 p (7 + i).
Definition p_request_value16 (p : list Z) (i : Z) : option Z := rd16 be p (7 + 2 * i).
(** [length] and [values] of [response0102] and [response0304]; [code] of [exception]. *)
Definition p_response_length (p : list Z) : option Z := rd8 p 2.
Definition p_response_value16 (p : list Z) (i : Z) : option Z := rd16 be p (3 + 2 * i).
Definition p_exception_code (p : list Z) : option Z := rd8 p 2.
End parser.

(** ** Reference notions *)

(** A 16-bit value on the wire: most significant byte first. *)
Definition be16 (v : Z) : list Z := [v `div` 256; v `mod` 256].

(** The two checksum bytes that close a frame with content [l]. *)
Definition crc_bytes (be : bool) (l : list Z) : list Z :=
  store16 be (modbusSwapEndian (crc16_of 0xFFFF l)).

(** A complete frame. *)
Definition adu (be : bool) (l : list Z) : list Z := l ++ crc_bytes be l.

(** Bit [i] of a byte array, least significant bit of each byte first. *)
Definition bit_at (m : list Z) (i : Z) : bool :=
  match znth m (i `div` 8) with
  | Some b => Z.testbit b (i `mod` 8)
  | None => false
  end.

(** The first [n] bits of a byte array. *)
Definition bits_of (n : Z) (m : list Z) : list bool := bit_at m <$> seqZ 0 n.

(** ** Lemmas *)

Lemma modbusBitsToBytes_spec n : is_u16 n -> modbusBitsToBytes n = (n + 7) `div` 8.
Proof.
  intros Hn. unfold modbusBitsToBytes. zcase; cbn [negb]; [by subst|].
  rewrite Z.shiftr_div_pow2 by lia. change (2 ^ 3) with 8.
  rewrite u16_id by zlia. zlia.
Qed.

Lemma modbusSwapEndian_spec v :
  is_u16 v -> modbusSwapEndian v = v `mod` 256 * 256 + v `div` 256.
Proof.
  intros Hv. unfold modbusSwapEndian.
  rewrite Z.shiftr_div_pow2, Z.shiftl_mul_pow2 by lia.
  rewrite lor_disjoint_add by zlia. unfold u16. change (2 ^ 8) with 256. zlia.
Qed.

Lemma modbusSwapEndian_range v : is_u16 (modbusSwapEndian v).
Proof. apply u16_range. Qed.

Lemma modbusSwapEndian_involutive v :
  is_u16 v -> modbusSwapEndian (modbusSwapEndian v) = v.
Proof.
  intros Hv. pose proof (modbusSwapEndian_range v).
  rewrite (modbusSwapEndian_spec (modbusSwapEndian v)), (modbusSwapEndian_spec v) by done. zlia.
Qed.

Lemma modbusMatchEndian_range be v : is_u16 v -> is_u16 (modbusMatchEndian be v).
Proof. intros. destruct be; cbn; [done | apply modbusSwapEndian_range]. Qed.

(** A register stored through [modbusMatchEndian] travels most significant byte first. *)
Lemma store16_match be v : is_u16 v -> store16 be (modbusMatchEndian be v) = be16 v.
Proof.
  intros Hv. unfold store16, be16. rewrite u16_id by by apply modbusMatchEndian_range.
  destruct be; cbn; [done|]. rewrite modbusSwapEndian_spec by done. f_equal; [|f_equal]; zlia.
Qed.

Lemma match_load16 be a b :
  is_u8 a -> is_u8 b -> modbusMatchEndian be (load16 be a b) = a * 256 + b.
Proof.
  intros. destruct be; cbn; [done|]. rewrite modbusSwapEndian_spec by lia. zlia.
Qed.

Lemma be16_ok v : is_u16 v -> bytes_ok (be16 v).
Proof. intros. repeat constructor; zlia. Qed.

Lemma crc_bytes_length be l : length (crc_bytes be l) = 2%nat.
Proof. apply store16_length. Qed.

Lemma crc_bytes_ok be l : bytes_ok (crc_bytes be l).
Proof. apply store16_ok. Qed.

Lemma adu_length be l : length (adu be l) = (length l + 2)%nat.
Proof. unfold adu. by rewrite length_app, crc_bytes_length. Qed.

Lemma adu_ok be l : bytes_ok l -> bytes_ok (adu be l).
Proof. intros. apply Forall_app_2; [done | apply crc_bytes_ok]. Qed.

#[export] Hint Rewrite adu_length crc_bytes_length store16_length : bblen.
#[export] Hint Resolve be16_ok crc_bytes_ok adu_ok modbusMatchEndian_range modbusSwapEndian_range : bigbox.

Lemma modbusCRC_spec d n :
  0 <= n <= zlen d ->
  modbusCRC (Some d) n = Some (modbusSwapEndian (crc16_of 0xFFFF (take (Z.to_nat n) d))).
Proof.
  intros. unfold modbusCRC.
  rewrite (for_range_rd_fold0 (fun crc b => Nat.iter 8 modbusCRC_bit (Z.lxor crc b))) by done.
  done.
Qed.

(** *** Bits of byte arrays *)

Lemma bit_at_byte m i b :
  0 <= i -> m !! Z.to_nat (i `div` 8) = Some b -> bit_at m i = Z.testbit b (i `mod` 8).
Proof.
  intros Hi Hb. unfold bit_at.
  replace (znth m (i `div` 8)) with (Some b); [done|].
  symmetry. apply znth_Some. split; [zlia | done].
Qed.

Lemma shiftr3 x : Z.shiftr x 3 = x `div` 8.
Proof. by rewrite Z.shiftr_div_pow2 by lia. Qed.

Lemma mask_bit_value b k :
  0 <= k < 8 -> u8 (Z.shiftr (Z.land b (Z.shiftl 1 k)) k) = Z.b2z (Z.testbit b k).
Proof.
  intros Hk. assert (Z.shiftr (Z.land b (Z.shiftl 1 k)) k = Z.b2z (Z.testbit b k)) as ->.
  - apply Z.bits_inj'. intros i Hi. rewrite Z.shiftr_spec, Z.land_spec, Z.shiftl_spec by lia.
    replace (i + k - k) with i by lia. destruct (Z.eq_dec i 0) as [->|].
    + rewrite Z.b2z_bit0. cbn. by rewrite andb_true_r.
    + rewrite (testbit_high 1 1 i), andb_false_r by lia.
      symmetry. apply (testbit_high _ 1); [|lia..]. by destruct (Z.testbit b k).
  - by destruct (Z.testbit b k).
Qed.

Lemma modbusMaskRead_spec m L bit :
  L <= zlen m -> 0 <= bit < 8 * L ->
  modbusMaskRead (Some m) L bit = Some (Z.b2z (bit_at m bit)).
Proof.
  intros HL Hbit. unfold modbusMaskRead. rewrite shiftr3.
  zfalse (bit `div` 8 >=? L).
  unfold rd8. destruct (znth_lt m (bit `div` 8)) as [b Hb]; [zlia|]. rewrite Hb. cbn.
  rewrite mask_bit_value by zlia. unfold bit_at. by rewrite Hb.
Qed.

Lemma modbusMaskRead_out m L bit :
  8 * L <= bit -> modbusMaskRead (Some m) L bit = Some 255.
Proof. intros. unfold modbusMaskRead. rewrite shiftr3. by ztrue (bit `div` 8 >=? L). Qed.

(** The byte [modbusMaskWrite] stores. *)
Definition set_bit (b k value : Z) : Z :=
  if negb (value =? 0) then Z.lor b (Z.shiftl 1 k) else Z.land b (Z.lnot (Z.shiftl 1 k)).

Lemma testbit_shiftl1 k i : 0 <= k -> 0 <= i -> Z.testbit (Z.shiftl 1 k) i = bool_decide (i = k).
Proof.
  intros. rewrite Z.shiftl_spec by lia. case_bool_decide as E.
  - subst. by rewrite Z.sub_diag.
  - destruct (Z.lt_ge_cases i k); [by rewrite Z.testbit_neg_r by lia|].
    apply (testbit_high 1 1); lia.
Qed.

Lemma set_bit_spec b k v i :
  0 <= k -> 0 <= i ->
  Z.testbit (set_bit b k v) i = if bool_decide (i = k) then negb (v =? 0) else Z.testbit b i.
Proof.
  intros Hk Hi. unfold set_bit. destruct (v =? 0); cbn [negb].
  - rewrite Z.land_spec, Z.lnot_spec, testbit_shiftl1 by lia.
    case_bool_decide; cbn; by rewrite ?andb_false_r, ?andb_true_r.
  - rewrite Z.lor_spec, testbit_shiftl1 by lia.
    case_bool_decide; cbn; by rewrite ?orb_false_r, ?orb_true_r.
Qed.

Lemma set_bit_range b k v : is_u8 b -> 0 <= k < 8 -> is_u8 (set_bit b k v).
Proof.
  intros Hb Hk. apply (bits_range _ 8); [lia|]. intros i Hi. rewrite set_bit_spec by lia.
  rewrite bool_decide_eq_false_2 by lia. apply (testbit_high _ 8); lia.
Qed.

Lemma bit_at_insert m j b i :
  0 <= i -> (j < length m)%nat ->
  bit_at (<[j := b]> m) i
  = if bool_decide (i `div` 8 = Z.of_nat j) then Z.testbit b (i `mod` 8) else bit_at m i.
Proof.
  intros Hi Hj. unfold bit_at, znth. ztrue (0 <=? i `div` 8).
  case_bool_decide as E.
  - rewrite E, Nat2Z.id, list_lookup_insert_eq by done. done.
  - by rewrite list_lookup_insert_ne by zlia.
Qed.

Lemma modbusMaskWrite_spec m L bit v :
  bytes_ok m -> L <= zlen m -> 0 <= bit < 8 * L ->
  exists m', modbusMaskWrite m L bit v = Some (0, m')
    /\ length m' = length m /\ bytes_ok m'
    /\ forall i, 0 <= i ->
         bit_at m' i = if bool_decide (i = bit) then negb (v =? 0) else bit_at m i.
Proof.
  intros Hm HL Hbit. unfold modbusMaskWrite. rewrite shiftr3.
  zfalse (bit `div` 8 >=? L).
  destruct (rd8_lt m (bit `div` 8)) as [b Hb]; [zlia|]. rewrite Hb. cbn [mbind option_bind].
  pose proof (rd8_byte _ _ _ Hm Hb) as Hb8.
  change (if negb (v =? 0) then _ else _) with (set_bit b (bit `mod` 8) v).
  assert (is_u8 (set_bit b (bit `mod` 8) v)) by (apply set_bit_range; zlia).
  rewrite wr8_Some, u8_id by zlia. cbn [mbind option_bind].
  eexists. split; [done|]. split; [apply length_insert|].
  split; [by apply Forall_insert|]. intros i Hi. rewrite bit_at_insert by zlia.
  apply znth_Some in Hb as [_ Hb].
  case_bool_decide as E; [|by rewrite bool_decide_eq_false_2 by zlia].
  rewrite set_bit_spec by zlia.
  case_bool_decide as E1; case_bool_decide as E2; try done; try zlia.
  symmetry. apply bit_at_byte; [done|]. rewrite <- Hb. f_equal. zlia.
Qed.

Lemma bits_of_length n m : length (bits_of n m) = Z.to_nat n.
Proof. unfold bits_of. by autorewrite with bblen. Qed.

#[export] Hint Rewrite bits_of_length : bblen.

Lemma bits_of_lookup n m i :
  0 <= i < n -> bits_of n m !! Z.to_nat i = Some (bit_at m i).
Proof.
  intros. unfold bits_of. rewrite list_lookup_fmap, lookup_seqZ_lt by lia.
  cbn. do 2 f_equal. lia.
Qed.

Lemma bits_of_ext n m m' :
  (forall i, 0 <= i < n -> bit_at m i = bit_at m' i) -> bits_of n m = bits_of n m'.
Proof.
  intros H. unfold bits_of. apply list_fmap_ext. intros i x Hx.
  apply lookup_seqZ in Hx as [-> ?]. apply H. lia.
Qed.

Lemma bits_of_set n m m' bit v :
  0 <= bit < n ->
  (forall i, 0 <= i -> bit_at m' i = if bool_decide (i = bit) then v else bit_at m i) ->
  bits_of n m' = <[Z.to_nat bit := v]> (bits_of n m).
Proof.
  intros Hbit H. apply list_eq_znth; [len|]. intros i Hi.
  autorewrite with bblen in Hi. unfold znth. ztrue (0 <=? i).
  rewrite bits_of_lookup, H by lia. case_bool_decide as E.
  - subst. rewrite list_lookup_insert_eq by len. done.
  - rewrite list_lookup_insert_ne by lia. by rewrite bits_of_lookup by lia.
Qed.

(** Byte arrays of one length with the same bits are equal. *)
Lemma bytes_eq_bits m m' :
  bytes_ok m -> bytes_ok m' -> length m = length m' ->
  (forall i, 0 <= i < 8 * zlen m -> bit_at m i = bit_at m' i) -> m = m'.
Proof.
  intros Hm Hm' Hlen H. apply list_eq_same_length with (n := length m); [lia | done |].
  intros k x y Hk Hx Hy.
  pose proof (Forall_lookup_1 _ _ _ _ Hm Hx) as Hx8.
  pose proof (Forall_lookup_1 _ _ _ _ Hm' Hy) as Hy8. cbn beta in Hx8, Hy8.
  apply Z.bits_inj'. intros j Hj. destruct (Z.lt_ge_cases j 8).
  - assert (forall l z, l !! k = Some z -> bit_at l (8 * Z.of_nat k + j) = Z.testbit z j) as Hbit.
    { intros l z Hz. rewrite (bit_at_byte l _ z); [f_equal; zlia | lia |].
      rewrite <- Hz. f_equal. zlia. }
    rewrite <- (Hbit m x), <- (Hbit m' y) by done. apply H. lia.
  - by rewrite !(testbit_high _ 8) by lia.
Qed.
