(* ===== verification/ModbusFrame.v ===== *)
(** * Modbus: filling and reading frames

    The shapes of frame-building code that the slave's replies and the
    master's requests share: writes in order into zeroed memory, the checksum
    over the prefix written last.  Every lemma has the rest of the handler as
    the continuation [k]. *)

From S2P Require Import Prelude CMem Crc ModbusCommon.

Lemma store_load16 be a b : is_u8 a -> is_u8 b -> store16 be (load16 be a b) = [a; b].
Proof.
  intros. unfold store16, load16. destruct be; rewrite u16_id by lia;
    (f_equal; [|f_equal]; zlia).
Qed.

Lemma wr16_at be l x y r v a b :
  store16 be v = [a; b] -> wr16 be (l ++ x :: y :: r) (zlen l) v = Some (l ++ a :: b :: r).
Proof.
  intros E. pose proof (store16_ok be v) as Hok. rewrite E in Hok.
  inversion_clear Hok as [|? ? Ha Hok']. inversion_clear Hok' as [|? ? Hb _].
  unfold wr16. rewrite E. rewrite wr8_snoc by done. cbn [mbind option_bind].
  rewrite u8_id by done.
  change (l ++ a :: y :: r) with (l ++ [a] ++ (y :: r)). rewrite app_assoc.
  rewrite wr8_snoc by len. rewrite u8_id by done. by rewrite <- app_assoc.
Qed.

Lemma wr8_frame l x r m i v :
  m = l ++ x :: r -> i = zlen l -> is_u8 v -> wr8 m i v = Some (l ++ v :: r).
Proof. intros -> -> Hv. rewrite wr8_snoc by done. by rewrite u8_id. Qed.

Lemma wr16_at' be l x y r m i v a b :
  m = l ++ x :: y :: r -> i = zlen l -> store16 be v = [a; b] ->
  wr16 be m i v = Some (l ++ a :: b :: r).
Proof. intros -> ->. apply wr16_at. Qed.

Lemma wr16_store be l x y r m i v :
  m = l ++ x :: y :: r -> i = zlen l -> wr16 be m i v = Some (l ++ store16 be v ++ r).
Proof.
  intros -> ->. pose proof (store16_length be v) as H.
  destruct (store16 be v) as [|a [|b [|]]] eqn:E; try discriminate H.
  by apply wr16_at.
Qed.

(** Step over a write at the end of the concrete prefix [l] of the frame. *)
Ltac fill8 l :=
  erewrite (wr8_frame l);
  [rewrite bind_Some | reflexivity | reflexivity | assumption].
Ltac fill16 be l :=
  erewrite (wr16_at' be l);
  [rewrite bind_Some | reflexivity | reflexivity | eassumption].

(** The checksum of a filled prefix, stored right after it. *)
Lemma seal_frame {R} be l x y n (k : list Z -> option R) :
  n = zlen l ->
  (crc ← modbusCRC (Some (l ++ [x; y])) n; b ← wr16 be (l ++ [x; y]) n crc; k b)
  = k (adu be l).
Proof.
  intros ->. rewrite modbusCRC_spec by len. rewrite Nat2Z.id, take_app_length.
  cbn [mbind option_bind].
  destruct (store16 be (modbusSwapEndian (crc16_of 0xFFFF l))) as [|a [|b [|]]] eqn:E;
    try (pose proof (store16_length be (modbusSwapEndian (crc16_of 0xFFFF l))) as HL;
         rewrite E in HL; discriminate HL).
  rewrite (wr16_at be l x y [] _ a b) by done.
  unfold adu, crc_bytes. by rewrite E.
Qed.

Lemma seal_frame' {R} be l x y n m (k : list Z -> option R) :
  m = l ++ [x; y] -> n = zlen l ->
  (crc ← modbusCRC (Some m) n; b ← wr16 be m n crc; k b) = k (adu be l).
Proof. intros ->. apply seal_frame. Qed.

(** A frame of two 16-bit fields: read requests, single writes, write replies. *)
Lemma build_frame8 {R} be addr fn v w a b c d (k : list Z -> option R) :
  is_u8 addr -> is_u8 fn -> store16 be v = [a; b] -> store16 be w = [c; d] ->
  (m ← wr8 (zeros 8) 0 addr; m ← wr8 m 1 fn; m ← wr16 be m 2 v; m ← wr16 be m 4 w;
   crc ← modbusCRC (Some m) 6; m ← wr16 be m 6 crc; k m)
  = k (adu be [addr; fn; a; b; c; d]).
Proof.
  intros Ha Hf Hv Hw. change (zeros 8) with ([] ++ [0;0;0;0;0;0;0;0]).
  fill8 (@nil Z).
  fill8 [addr].
  fill16 be [addr; fn].
  fill16 be [addr; fn; a; b].
  apply (seal_frame' be [addr; fn; a; b; c; d] 0 0); reflexivity.
Qed.

(** A frame of three 16-bit fields: mask writes and their replies. *)
Lemma build_frame10 {R} be addr fn v w u a b c d e f (k : list Z -> option R) :
  is_u8 addr -> is_u8 fn ->
  store16 be v = [a; b] -> store16 be w = [c; d] -> store16 be u = [e; f] ->
  (m ← wr8 (zeros 10) 0 addr; m ← wr8 m 1 fn; m ← wr16 be m 2 v; m ← wr16 be m 4 w;
   m ← wr16 be m 6 u; crc ← modbusCRC (Some m) 8; m ← wr16 be m 8 crc; k m)
  = k (adu be [addr; fn; a; b; c; d; e; f]).
Proof.
  intros Ha Hf Hv Hw Hu. change (zeros 10) with ([] ++ [0;0;0;0;0;0;0;0;0;0]).
  fill8 (@nil Z).
  fill8 [addr].
  fill16 be [addr; fn].
  fill16 be [addr; fn; a; b].
  fill16 be [addr; fn; a; b; c; d].
  apply (seal_frame' be [addr; fn; a; b; c; d; e; f] 0 0); reflexivity.
Qed.

Lemma zeros_split a b : 0 <= a -> 0 <= b -> zeros (a + b) = zeros a ++ zeros b.
Proof. intros. unfold zeros. by rewrite Z2Nat.inj_add, replicate_add by lia. Qed.

Lemma zeros_succ n : 0 < n -> zeros n = 0 :: zeros (n - 1).
Proof. intros. unfold zeros. by replace (Z.to_nat n) with (S (Z.to_nat (n - 1))) by lia. Qed.

Lemma flat_map_store_length be vs : zlen (flat_map (store16 be) vs) = 2 * zlen vs.
Proof.
  induction vs as [|v vs IH]; cbn [flat_map]; [done|].
  rewrite length_app, store16_length. cbn [length]. lia.
Qed.

(** The loop [for (i = 0; i < n; i++) values[i] = g(src[i]);] over a zeroed block
    of 16-bit cells; [vs] are the values stored. *)
Lemma fill_store {A} be (g : A -> Z) (hd : list Z) (vs : list Z) (src : Z -> option A) r :
  (forall i, 0 <= i < zlen vs -> g <$> src i = znth vs i) ->
  for_range (length vs) 0 (fun i m => v ← src i; wr16 be m (zlen hd + 2 * i) (g v))
    (hd ++ zeros (2 * zlen vs) ++ r)
  = Some (hd ++ flat_map (store16 be) vs ++ r).
Proof.
  intros Hsrc. set (out := flat_map (store16 be)).
  destruct (for_range_inv
    (fun i m => m = hd ++ out (take (Z.to_nat i) vs) ++ zeros (2 * (zlen vs - i)) ++ r)
    (fun i m => v ← src i; wr16 be m (zlen hd + 2 * i) (g v))
    (length vs) 0 (hd ++ zeros (2 * zlen vs) ++ r)) as (m & -> & ->).
  - intros i m Hi ->. specialize (Hsrc i ltac:(lia)).
    destruct (znth_lt vs i) as [v Hv]; [lia|]. rewrite Hv in Hsrc.
    apply znth_Some in Hv as [_ Hv].
    destruct (src i) as [x|]; [|done]. injection Hsrc as Hx. rewrite bind_Some, Hx.
    eexists. split; [|done].
    rewrite (zeros_succ (2 * (zlen vs - i))), (zeros_succ (2 * (zlen vs - i) - 1)) by lia.
    cbn [app]. rewrite app_assoc.
    pose proof (flat_map_store_length be (take (Z.to_nat i) vs)) as Hfl. fold out in Hfl.
    rewrite (wr16_store be (hd ++ out (take (Z.to_nat i) vs)) 0 0
               (zeros (2 * (zlen vs - i) - 1 - 1) ++ r)).
    + f_equal. replace (Z.to_nat (i + 1)) with (S (Z.to_nat i)) by lia.
      rewrite (take_S_r _ _ v) by done. unfold out. rewrite flat_map_app. cbn [flat_map].
      rewrite app_nil_r, <- !app_assoc.
      by replace (2 * (zlen vs - (i + 1))) with (2 * (zlen vs - i) - 1 - 1) by lia.
    + done.
    + rewrite length_app. rewrite length_take in Hfl. lia.
  - by rewrite Z.sub_0_r.
  - rewrite firstn_all2 by lia. by replace (2 * (zlen vs - (0 + zlen vs))) with 0 by lia.
Qed.

(** Stored through [modbusMatchEndian], the values travel most significant byte first. *)
Lemma fill_words be (hd : list Z) (vs : list Z) (src : Z -> option Z) r :
  Forall (fun v => is_u16 v) vs ->
  (forall i, 0 <= i < zlen vs -> src i = znth vs i) ->
  for_range (length vs) 0
    (fun i m => v ← src i; wr16 be m (zlen hd + 2 * i) (modbusMatchEndian be v))
    (hd ++ zeros (2 * zlen vs) ++ r)
  = Some (hd ++ flat_map be16 vs ++ r).
Proof.
  intros Hvs Hsrc.
  pose proof (fill_store be (modbusMatchEndian be) hd (modbusMatchEndian be <$> vs) src r) as H.
  rewrite length_fmap in H. rewrite H.
  - do 3 f_equal. clear Hsrc H. induction Hvs as [|v vs Hv _ IH]; cbn [flat_map fmap list_fmap]; [done|].
    rewrite store16_match by done. by f_equal.
  - intros i Hi. rewrite Hsrc by done. unfold znth. ztrue (0 <=? i).
    by rewrite list_lookup_fmap.
Qed.
