(* ===== verification/ModbusSlave.v ===== *)
(** * Modbus slave: state and request handlers

    The slave half of fun_protocol/modbus/modbus.c and the handlers of
    slave/sregs.c and slave/scoils.c, in the configuration with dynamically
    allocated frames and register arrays (no [*_STATIC_MEM_*], no
    [*_CALLBACK] macro) and all functions compiled in.

    A handler takes the slave structure and returns the error code with the
    updated structure; [None] is undefined behaviour (an access outside a
    buffer).  The request frame, which a handler only reads, is [parser]; the
    response frame is freshly allocated.  The register, coil and mask arrays
    belong to the user and are distinct objects. *)

From S2P Require Import Prelude CMem ModbusCommon.

(** ** State *)

Record ModbusSlave := mkSlave {
  sl_address : Z;
  sl_registers : option (list Z);
  sl_inputRegisters : option (list Z);
  sl_registerMask : option (list Z);
  sl_registerMaskLength : Z;
  sl_registerCount : Z;
  sl_inputRegisterCount : Z;
  sl_coils : option (list Z);
  sl_discreteInputs : option (list Z);
  sl_coilMask : option (list Z);
  sl_coilMaskLength : Z;
  sl_coilCount : Z;
  sl_discreteInputCount : Z;
  sl_lastException : option ModbusExceptionCode;
  sl_parseError : ModbusFrameError;
  sl_response_frame : option (list Z);
  sl_response_length : Z;
  sl_request_frame : option (list Z);
  sl_request_length : Z
}.

(** Assignments to members of [*status]. *)
Definition set_parseError (s : ModbusSlave) (e : ModbusFrameError) : ModbusSlave :=
  mkSlave (sl_address s) (sl_registers s) (sl_inputRegisters s) (sl_registerMask s)
    (sl_registerMaskLength s) (sl_registerCount s) (sl_inputRegisterCount s) (sl_coils s)
    (sl_discreteInputs s) (sl_coilMask s) (sl_coilMaskLength s) (sl_coilCount s)
    (sl_discreteInputCount s) (sl_lastException s) e (sl_response_frame s)
    (sl_response_length s) (sl_request_frame s) (sl_request_length s).

Definition set_lastException (s : ModbusSlave) (c : ModbusExceptionCode) : ModbusSlave :=
  mkSlave (sl_address s) (sl_registers s) (sl_inputRegisters s) (sl_registerMask s)
    (sl_registerMaskLength s) (sl_registerCount s) (sl_inputRegisterCount s) (sl_coils s)
    (sl_discreteInputs s) (sl_coilMask s) (sl_coilMaskLength s) (sl_coilCount s)
    (sl_discreteInputCount s) (Some c) (sl_parseError s) (sl_response_frame s)
    (sl_response_length s) (sl_request_frame s) (sl_request_length s).

Definition set_response (s : ModbusSlave) (frame : option (list Z)) (len : Z) : ModbusSlave :=
  mkSlave (sl_address s) (sl_registers s) (sl_inputRegisters s) (sl_registerMask s)
    (sl_registerMaskLength s) (sl_registerCount s) (sl_inputRegisterCount s) (sl_coils s)
    (sl_discreteInputs s) (sl_coilMask s) (sl_coilMaskLength s) (sl_coilCount s)
    (sl_discreteInputCount s) (sl_lastException s) (sl_parseError s) frame len
    (sl_request_frame s) (sl_request_length s).

Definition set_response_frame (s : ModbusSlave) (frame : option (list Z)) : ModbusSlave :=
  set_response s frame (sl_response_length s).

Definition set_request (s : ModbusSlave) (frame : option (list Z)) (len : Z) : ModbusSlave :=
  mkSlave (sl_address s) (sl_registers s) (sl_inputRegisters s) (sl_registerMask s)
    (sl_registerMaskLength s) (sl_registerCount s) (sl_inputRegisterCount s) (sl_coils s)
    (sl_discreteInputs s) (sl_coilMask s) (sl_coilMaskLength s) (sl_coilCount s)
    (sl_discreteInputCount s) (sl_lastException s) (sl_parseError s) (sl_response_frame s)
    (sl_response_length s) frame len.

Definition set_registers (s : ModbusSlave) (r : list Z) : ModbusSlave :=
  mkSlave (sl_address s) (Some r) (sl_inputRegisters s) (sl_registerMask s)
    (sl_registerMaskLength s) (sl_registerCount s) (sl_inputRegisterCount s) (sl_coils s)
    (sl_discreteInputs s) (sl_coilMask s) (sl_coilMaskLength s) (sl_coilCount s)
    (sl_discreteInputCount s) (sl_lastException s) (sl_parseError s) (sl_response_frame s)
    (sl_response_length s) (sl_request_frame s) (sl_request_length s).

Definition set_coils (s : ModbusSlave) (c : list Z) : ModbusSlave :=
  mkSlave (sl_address s) (sl_registers s) (sl_inputRegisters s) (sl_registerMask s)
    (sl_registerMaskLength s) (sl_registerCount s) (sl_inputRegisterCount s) (Some c)
    (sl_discreteInputs s) (sl_coilMask s) (sl_coilMaskLength s) (sl_coilCount s)
    (sl_discreteInputCount s) (sl_lastException s) (sl_parseError s) (sl_response_frame s)
    (sl_response_length s) (sl_request_frame s) (sl_request_length s).

Abbreviation SlaveResult := (option (ModbusError * ModbusSlave)).

(** A function called with a possibly [NULL] status pointer. *)
Definition nullable {S} (f : S -> option (ModbusError * S)) (status : option S)
    : option (ModbusError * option S) :=
  match status with
  | None => Some (MODBUS_ERROR_NULLPTR, None)
  | Some s => '(e, s') ← f s; Some (e, Some s')
  end.

(** ** Handlers

    [be] is the host byte order, [calloc_ok n] whether an allocation of [n]
    bytes succeeds, [userFunctions] the override table (a function code with a
    possibly [NULL] handler; empty when [userFunctions] is [NULL]). *)

Section slave.
Variable be : bool.
Variable calloc_ok : Z -> bool.
Variable userFunctions : list (Z * option (ModbusSlave -> list Z -> SlaveResult)).

Definition modbusBuildException (status : ModbusSlave) (function : Z)
    (code : ModbusExceptionCode) : SlaveResult :=
  let status := set_lastException status code in
  broadcast ← match sl_request_frame status with
              | None => Some false
              | Some requestParser => a ← p_address requestParser; Some (a =? 0)
              end;
  return_if (broadcast : bool)
    with Some (MODBUS_ERROR_OK, set_response status (sl_response_frame status) 0) ;;
  return_if negb (calloc_ok 5) with Some (MODBUS_ERROR_ALLOC, set_response_frame status None) ;;
  exception ← wr8 (zeros 5) 0 (sl_address status);
  exception ← wr8 exception 1 (Z.lor (Z.shiftl 1 7) function);
  exception ← wr8 exception 2 (exception_code code);
  crc ← modbusCRC (Some exception) 3;
  exception ← wr16 be exception 3 crc;
  Some (MODBUS_ERROR_EXCEPTION, set_response status (Some exception) 5).

Definition modbusBuildExceptionErr (status : ModbusSlave) (function : Z)
    (code : ModbusExceptionCode) (parseError : ModbusFrameError) : SlaveResult :=
  let status := set_parseError status parseError in
  '(err, status) ← modbusBuildException status function code;
  Some (if bool_decide (err = MODBUS_ERROR_OK) then MODBUS_ERROR_PARSE else err, status).

(** *** slave/sregs.c *)

Definition modbusParseRequest0304 (status : ModbusSlave) (parser : option (list Z)) : SlaveResult :=
  match parser with
  | None => Some (MODBUS_ERROR_NULLPTR, status)
  | Some parser =>
    function ← p_function parser;
    return_if negb (function =? 3) && negb (function =? 4)
      with Some (MODBUS_ERROR_PARSE, set_parseError status MODBUS_FERROR_BADFUN) ;;
    address ← p_address parser;
    return_if address =? 0
      with Some (MODBUS_ERROR_PARSE, set_parseError status MODBUS_FERROR_BROADCAST) ;;
    return_if negb (sl_request_length status =? 8)
      with modbusBuildExceptionErr status function MODBUS_EXCEP_ILLEGAL_VALUE MODBUS_FERROR_LENGTH ;;
    index ← p_index be parser;
    count ← p_count be parser;
    let index := modbusMatchEndian be index in
    let count := modbusMatchEndian be count in
    return_if (count =? 0) || (count >? 125)
      with modbusBuildExceptionErr status function MODBUS_EXCEP_ILLEGAL_VALUE MODBUS_FERROR_COUNT ;;
    match (if function =? 3 then sl_registers status else sl_inputRegisters status) with
    | None =>
      modbusBuildExceptionErr status function MODBUS_EXCEP_ILLEGAL_ADDRESS MODBUS_FERROR_NOSRC
    | Some registers =>
      let registerCount :=
        if function =? 3 then sl_registerCount status else sl_inputRegisterCount status in
      return_if (index >=? registerCount) || (u32 (index + count) >? registerCount)
        with modbusBuildExceptionErr status function MODBUS_EXCEP_ILLEGAL_ADDRESS MODBUS_FERROR_RANGE ;;
      let frameLength := u8 (5 + Z.shiftl count 1) in
      return_if negb (calloc_ok frameLength)
        with Some (MODBUS_ERROR_ALLOC, set_response_frame status None) ;;
      builder ← wr8 (zeros frameLength) 0 (sl_address status);
      builder ← wr8 builder 1 function;
      builder ← wr8 builder 2 (Z.shiftl count 1);
      builder ← for_range (Z.to_nat count) 0
        (fun i builder =>
           r ← znth registers (index + i);
           wr16 be builder (3 + 2 * i) (modbusMatchEndian be r)) builder;
      crc ← modbusCRC (Some builder) (frameLength - 2);
      builder ← wr16 be builder (3 + 2 * count) crc;
      Some (MODBUS_ERROR_OK,
            set_parseError (set_response status (Some builder) frameLength) MODBUS_FERROR_OK)
    end
  end.

Definition modbusParseRequest06 (status : ModbusSlave) (parser : option (list Z)) : SlaveResult :=
  match parser with
  | None => Some (MODBUS_ERROR_NULLPTR, status)
  | Some parser =>
    return_if negb (sl_request_length status =? 8)
      with modbusBuildExceptionErr status 6 MODBUS_EXCEP_ILLEGAL_VALUE MODBUS_FERROR_LENGTH ;;
    rindex ← p_index be parser;
    rvalue ← p_count be parser;
    let index := modbusMatchEndian be rindex in
    let value := modbusMatchEndian be rvalue in
    match (if index >=? sl_registerCount status then None else sl_registers status) with
    | None =>
      modbusBuildExceptionErr status 6 MODBUS_EXCEP_ILLEGAL_ADDRESS MODBUS_FERROR_RANGE
    | Some registers =>
      protect ← modbusMaskRead (sl_registerMask status) (sl_registerMaskLength status) index;
      return_if protect =? 1
        with modbusBuildExceptionErr status 6 MODBUS_EXCEP_SLAVE_FAILURE MODBUS_FERROR_NOWRITE ;;
      return_if negb (calloc_ok 8)
        with Some (MODBUS_ERROR_ALLOC, set_response_frame status None) ;;
      let status := set_response_frame status (Some (zeros 8)) in
      registers ← zset registers index value;
      let status := set_registers status registers in
      address ← p_address parser;
      return_if address =? 0 with Some (MODBUS_ERROR_OK, set_parseError status MODBUS_FERROR_OK) ;;
      function ← p_function parser;
      builder ← wr8 (zeros 8) 0 (sl_address status);
      builder ← wr8 builder 1 function;
      builder ← wr16 be builder 2 rindex;
      builder ← wr16 be builder 4 rvalue;
      crc ← modbusCRC (Some builder) 6;
      builder ← wr16 be builder 6 crc;
      Some (MODBUS_ERROR_OK, set_parseError (set_response status (Some builder) 8) MODBUS_FERROR_OK)
    end
  end.

Definition modbusParseRequest16 (status : ModbusSlave) (parser : option (list Z)) : SlaveResult :=
  match parser with
  | None => Some (MODBUS_ERROR_NULLPTR, status)
  | Some parser =>
    return_if negb (sl_request_length status >=? 7)
      with modbusBuildExceptionErr status 16 MODBUS_EXCEP_ILLEGAL_VALUE MODBUS_FERROR_LENGTH ;;
    length ← p_request_length parser;
    let frameLength := u8 (9 + length) in
    return_if negb (sl_request_length status =? frameLength)
      with modbusBuildExceptionErr status 16 MODBUS_EXCEP_ILLEGAL_VALUE MODBUS_FERROR_LENGTH ;;
    rindex ← p_index be parser;
    rcount ← p_count be parser;
    let index := modbusMatchEndian be rindex in
    let count := modbusMatchEndian be rcount in
    return_if (length =? 0) || (count =? 0) || negb (count =? Z.shiftr length 1) || (count >? 123)
      with modbusBuildExceptionErr status 16 MODBUS_EXCEP_ILLEGAL_VALUE MODBUS_FERROR_COUNT ;;
    match sl_registers status with
    | None =>
      modbusBuildExceptionErr status 16 MODBUS_EXCEP_ILLEGAL_ADDRESS MODBUS_FERROR_NOSRC
    | Some registers =>
      return_if (index >=? sl_registerCount status) || (u32 (index + count) >? sl_registerCount status)
        with modbusBuildExceptionErr status 16 MODBUS_EXCEP_ILLEGAL_ADDRESS MODBUS_FERROR_RANGE ;;
      protect ← exists_range (Z.to_nat count) 0
        (fun i => r ← modbusMaskRead (sl_registerMask status) (sl_registerMaskLength status) (u16 (index + i));
                  Some (r =? 1));
      return_if (protect : bool)
        with modbusBuildExceptionErr status 16 MODBUS_EXCEP_SLAVE_FAILURE MODBUS_FERROR_NOWRITE ;;
      return_if negb (calloc_ok 8)
        with Some (MODBUS_ERROR_ALLOC, set_response_frame status None) ;;
      let status := set_response_frame status (Some (zeros 8)) in
      registers ← for_range (Z.to_nat count) 0
        (fun i registers =>
           v ← p_request_value16 be parser i;
           zset registers (index + i) (modbusMatchEndian be v)) registers;
      let status := set_registers status registers in
      address ← p_address parser;
      return_if address =? 0 with Some (MODBUS_ERROR_OK, set_parseError status MODBUS_FERROR_OK) ;;
      function ← p_function parser;
      builder ← wr8 (zeros 8) 0 (sl_address status);
      builder ← wr8 builder 1 function;
      builder ← wr16 be builder 2 rindex;
      builder ← wr16 be builder 4 rcount;
      crc ← modbusCRC (Some builder) 6;
      builder ← wr16 be builder 6 crc;
      Some (MODBUS_ERROR_OK, set_parseError (set_response status (Some builder) 8) MODBUS_FERROR_OK)
    end
  end.

Definition modbusParseRequest22 (status : ModbusSlave) (parser : option (list Z)) : SlaveResult :=
  match parser with
  | None => Some (MODBUS_ERROR_NULLPTR, status)
  | Some parser =>
    return_if negb (sl_request_length status =? 10)
      with modbusBuildExceptionErr status 22 MODBUS_EXCEP_ILLEGAL_VALUE MODBUS_FERROR_LENGTH ;;
    rindex ← p_index be parser;
    randmask ← p_count be parser;
    rormask ← p_ormask be parser;
    let index := modbusMatchEndian be rindex in
    let andmask := modbusMatchEndian be randmask in
    let ormask := modbusMatchEndian be rormask in
    match sl_registers status with
    | None =>
      modbusBuildExceptionErr status 22 MODBUS_EXCEP_ILLEGAL_ADDRESS MODBUS_FERROR_NOSRC
    | Some registers =>
      return_if index >=? sl_registerCount status
        with modbusBuildExceptionErr status 22 MODBUS_EXCEP_ILLEGAL_ADDRESS MODBUS_FERROR_RANGE ;;
      protect ← modbusMaskRead (sl_registerMask status) (sl_registerMaskLength status) index;
      return_if protect =? 1
        with modbusBuildExceptionErr status 22 MODBUS_EXCEP_SLAVE_FAILURE MODBUS_FERROR_NOWRITE ;;
      return_if negb (calloc_ok 10)
        with Some (MODBUS_ERROR_ALLOC, set_response_frame status None) ;;
      let status := set_response_frame status (Some (zeros 10)) in
      value ← znth registers index;
      let value := u16 (Z.lor (Z.land value andmask) (Z.land ormask (Z.lnot andmask))) in
      registers ← zset registers index value;
      let status := set_registers status registers in
      address ← p_address parser;
      return_if address =? 0 with Some (MODBUS_ERROR_OK, set_parseError status MODBUS_FERROR_OK) ;;
      function ← p_function parser;
      builder ← wr8 (zeros 10) 0 (sl_address status);
      builder ← wr8 builder 1 function;
      builder ← wr16 be builder 2 rindex;
      builder ← wr16 be builder 4 randmask;
      builder ← wr16 be builder 6 rormask;
      crc ← modbusCRC (Some builder) 8;
      builder ← wr16 be builder 8 crc;
      Some (MODBUS_ERROR_OK, set_parseError (set_response status (Some builder) 10) MODBUS_FERROR_OK)
    end
  end.

(** *** slave/scoils.c *)

Definition modbusParseRequest0102 (status : ModbusSlave) (parser : option (list Z)) : SlaveResult :=
  match parser with
  | None => Some (MODBUS_ERROR_NULLPTR, status)
  | Some parser =>
    function ← p_function parser;
    return_if negb (function =? 1) && negb (function =? 2)
      with Some (MODBUS_ERROR_PARSE, set_parseError status MODBUS_FERROR_BADFUN) ;;
    address ← p_address parser;
    return_if address =? 0
      with Some (MODBUS_ERROR_PARSE, set_parseError status MODBUS_FERROR_BROADCAST) ;;
    return_if negb (sl_request_length status =? 8)
      with modbusBuildExceptionErr status function MODBUS_EXCEP_ILLEGAL_VALUE MODBUS_FERROR_LENGTH ;;
    index ← p_index be parser;
    count ← p_count be parser;
    let index := modbusMatchEndian be index in
    let count := modbusMatchEndian be count in
    return_if (count =? 0) || (count >? 2000)
      with modbusBuildExceptionErr status function MODBUS_EXCEP_ILLEGAL_VALUE MODBUS_FERROR_COUNT ;;
    let coils := if function =? 1 then sl_coils status else sl_discreteInputs status in
    let coilCount := if function =? 1 then sl_coilCount status else sl_discreteInputCount status in
    return_if bool_decide (coils = None)
      with modbusBuildExceptionErr status function MODBUS_EXCEP_ILLEGAL_ADDRESS MODBUS_FERROR_NOSRC ;;
    return_if (index >=? coilCount) || (u32 (index + count) >? coilCount)
      with modbusBuildExceptionErr status function MODBUS_EXCEP_ILLEGAL_ADDRESS MODBUS_FERROR_RANGE ;;
    let frameLength := u8 (5 + modbusBitsToBytes count) in
    return_if negb (calloc_ok frameLength)
      with Some (MODBUS_ERROR_ALLOC, set_response_frame status None) ;;
    builder ← wr8 (zeros frameLength) 0 (sl_address status);
    builder ← wr8 builder 1 function;
    builder ← wr8 builder 2 (modbusBitsToBytes count);
    r ← for_ret (Z.to_nat count) 0
      (fun i builder =>
         coil ← modbusMaskRead coils (modbusBitsToBytes coilCount) (u16 (i + index));
         return_if coil =? 255
           with Some (inr (MODBUS_ERROR_OTHER, set_response_frame status (Some builder))) ;;
         length ← p_response_length builder;
         '(e, values) ← modbusMaskWrite (drop 3 builder) length i coil;
         let builder := take 3 builder ++ values in
         return_if e =? 255
           with Some (inr (MODBUS_ERROR_OTHER, set_response_frame status (Some builder))) ;;
         Some (inl builder)) builder;
    match r with
    | inr e => Some e
    | inl builder =>
      crc ← modbusCRC (Some builder) (frameLength - 2);
      builder ← wr16 be builder (frameLength - 2) crc;
      Some (MODBUS_ERROR_OK, set_response status (Some builder) frameLength)
    end
  end.

Definition modbusParseRequest05 (status : ModbusSlave) (parser : option (list Z)) : SlaveResult :=
  match parser with
  | None => Some (MODBUS_ERROR_NULLPTR, status)
  | Some parser =>
    return_if negb (sl_request_length status =? 8)
      with modbusBuildExceptionErr status 5 MODBUS_EXCEP_ILLEGAL_VALUE MODBUS_FERROR_LENGTH ;;
    rindex ← p_index be parser;
    rvalue ← p_count be parser;
    let index := modbusMatchEndian be rindex in
    let value := modbusMatchEndian be rvalue in
    return_if negb (value =? 0x0000) && negb (value =? 0xFF00)
      with modbusBuildExceptionErr status 5 MODBUS_EXCEP_ILLEGAL_VALUE MODBUS_FERROR_VALUE ;;
    match sl_coils status with
    | None =>
      modbusBuildExceptionErr status 5 MODBUS_EXCEP_ILLEGAL_ADDRESS MODBUS_FERROR_NOSRC
    | Some coils =>
      return_if index >=? sl_coilCount status
        with modbusBuildExceptionErr status 5 MODBUS_EXCEP_ILLEGAL_ADDRESS MODBUS_FERROR_RANGE ;;
      protect ← modbusMaskRead (sl_coilMask status) (sl_coilMaskLength status) index;
      return_if protect =? 1
        with modbusBuildExceptionErr status 5 MODBUS_EXCEP_SLAVE_FAILURE MODBUS_FERROR_NOWRITE ;;
      return_if negb (calloc_ok 8)
        with Some (MODBUS_ERROR_ALLOC, set_response_frame status None) ;;
      let status := set_response_frame status (Some (zeros 8)) in
      '(e, coils) ← modbusMaskWrite coils (modbusBitsToBytes (sl_coilCount status)) index
                      (Z.b2z (value =? 0xFF00));
      let status := set_coils status coils in
      return_if e =? 255 with Some (MODBUS_ERROR_OTHER, status) ;;
      address ← p_address parser;
      return_if address =? 0 with Some (MODBUS_ERROR_OK, set_parseError status MODBUS_FERROR_OK) ;;
      function ← p_function parser;
      builder ← wr8 (zeros 8) 0 (sl_address status);
      builder ← wr8 builder 1 function;
      builder ← wr16 be builder 2 rindex;
      builder ← wr16 be builder 4 rvalue;
      crc ← modbusCRC (Some builder) 6;
      builder ← wr16 be builder 6 crc;
      Some (MODBUS_ERROR_OK, set_parseError (set_response status (Some builder) 8) MODBUS_FERROR_OK)
    end
  end.

Definition modbusParseRequest15 (status : ModbusSlave) (parser : option (list Z)) : SlaveResult :=
  match parser with
  | None => Some (MODBUS_ERROR_NULLPTR, status)
  | Some parser =>
    return_if negb (sl_request_length status >=? 7)
      with modbusBuildExceptionErr status 15 MODBUS_EXCEP_ILLEGAL_VALUE MODBUS_FERROR_LENGTH ;;
    length ← p_request_length parser;
    let frameLength := u8 (9 + length) in
    return_if negb (sl_request_length status =? frameLength)
      with modbusBuildExceptionErr status 15 MODBUS_EXCEP_ILLEGAL_VALUE MODBUS_FERROR_LENGTH ;;
    rindex ← p_index be parser;
    rcount ← p_count be parser;
    let index := modbusMatchEndian be rindex in
    let count := modbusMatchEndian be rcount in
    return_if (length =? 0) || (count =? 0) || negb (modbusBitsToBytes count =? length)
              || (count >? 1968)
      with modbusBuildExceptionErr status 15 MODBUS_EXCEP_ILLEGAL_VALUE MODBUS_FERROR_COUNT ;;
    match sl_coils status with
    | None =>
      modbusBuildExceptionErr status 15 MODBUS_EXCEP_ILLEGAL_ADDRESS MODBUS_FERROR_NOSRC
    | Some coils =>
      return_if (index >=? sl_coilCount status) || (u32 (index + count) >? sl_coilCount status)
        with modbusBuildExceptionErr status 15 MODBUS_EXCEP_ILLEGAL_ADDRESS MODBUS_FERROR_RANGE ;;
      protect ← exists_range (Z.to_nat count) 0
        (fun i => r ← modbusMaskRead (sl_coilMask status) (sl_coilMaskLength status) (u16 (index + i));
                  Some (r =? 1));
      return_if (protect : bool)
        with modbusBuildExceptionErr status 15 MODBUS_EXCEP_SLAVE_FAILURE MODBUS_FERROR_NOWRITE ;;
      return_if negb (calloc_ok 8)
        with Some (MODBUS_ERROR_ALLOC, set_response_frame status None) ;;
      let status := set_response_frame status (Some (zeros 8)) in
      r ← for_ret (Z.to_nat count) 0
        (fun i coils =>
           coil ← modbusMaskRead (Some (drop 7 parser)) length i;
           return_if coil =? 255 with Some (inr (MODBUS_ERROR_OTHER, set_coils status coils)) ;;
           '(e, coils) ← modbusMaskWrite coils (modbusBitsToBytes (sl_coilCount status))
                           (u16 (index + i)) coil;
           return_if e =? 255 with Some (inr (MODBUS_ERROR_OTHER, set_coils status coils)) ;;
           Some (inl coils)) coils;
      match r with
      | inr e => Some e
      | inl coils =>
        let status := set_coils status coils in
        address ← p_address parser;
        return_if address =? 0
          with Some (MODBUS_ERROR_OK, set_parseError status MODBUS_FERROR_OK) ;;
        function ← p_function parser;
        builder ← wr8 (zeros 8) 0 (sl_address status);
        builder ← wr8 builder 1 function;
        builder ← wr16 be builder 2 rindex;
        builder ← wr16 be builder 4 rcount;
        crc ← modbusCRC (Some builder) 6;
        builder ← wr16 be builder 6 crc;
        Some (MODBUS_ERROR_OK,
              set_parseError (set_response status (Some builder) 8) MODBUS_FERROR_OK)
      end
    end
  end.

(** *** modbus.c *)

(** The first entry of the override table for [function]. *)
Definition find_userFunction (function : Z)
    : option (option (ModbusSlave -> list Z -> SlaveResult)) :=
  snd <$> find (fun u => fst u =? function) userFunctions.

Definition modbusParseRequest_builtin (status : ModbusSlave) (parser : list Z) (function : Z)
    : option SlaveResult :=
  if (function =? 1) || (function =? 2) then Some (modbusParseRequest0102 status (Some parser))
  else if (function =? 3) || (function =? 4) then Some (modbusParseRequest0304 status (Some parser))
  else if function =? 5 then Some (modbusParseRequest05 status (Some parser))
  else if function =? 6 then Some (modbusParseRequest06 status (Some parser))
  else if function =? 15 then Some (modbusParseRequest15 status (Some parser))
  else if function =? 16 then Some (modbusParseRequest16 status (Some parser))
  else if function =? 22 then Some (modbusParseRequest22 status (Some parser))
  else None.

Definition modbusParseRequest (status : ModbusSlave) : SlaveResult :=
  let status := set_response status None 0 in
  let status := set_parseError status MODBUS_FERROR_OK in
  match (if sl_request_length status <? 4 then None else sl_request_frame status) with
  | None => Some (MODBUS_ERROR_PARSE, set_parseError status MODBUS_FERROR_LENGTH)
  | Some frame =>
    crc ← rd16 be frame (sl_request_length status - 2);
    crc' ← modbusCRC (Some frame) (sl_request_length status - 2);
    return_if negb (crc =? crc')
      with Some (MODBUS_ERROR_PARSE, set_parseError status MODBUS_FERROR_CRC) ;;
    address ← p_address frame;
    return_if negb (address =? sl_address status) && negb (address =? 0)
      with Some (MODBUS_ERROR_OK, status) ;;
    function ← p_function frame;
    match find_userFunction function with
    | Some (Some handler) => handler status frame
    | Some None =>
      modbusBuildExceptionErr status function MODBUS_EXCEP_ILLEGAL_FUNCTION MODBUS_FERROR_NULLFUN
    | None =>
      match modbusParseRequest_builtin status frame function with
      | Some r => r
      | None =>
        modbusBuildExceptionErr status function MODBUS_EXCEP_ILLEGAL_FUNCTION MODBUS_FERROR_NOFUN
      end
    end
  end.

(** A table that is empty or [NULL] is normalised to both. *)
Definition init_table (count : Z) (table : option (list Z)) : Z * option (list Z) :=
  if (count =? 0) || bool_decide (table = None) then (0, None) else (count, table).

Definition modbusSlaveInit (status : ModbusSlave) : SlaveResult :=
  let status := set_request status None 0 in
  let status := set_response status None 0 in
  return_if sl_address status =? 0 with Some (MODBUS_ERROR_OTHER, status) ;;
  let '(rc, r) := init_table (sl_registerCount status) (sl_registers status) in
  let '(ic, i) := init_table (sl_inputRegisterCount status) (sl_inputRegisters status) in
  let '(cc, c) := init_table (sl_coilCount status) (sl_coils status) in
  let '(dc, d) := init_table (sl_discreteInputCount status) (sl_discreteInputs status) in
  Some (MODBUS_ERROR_OK,
        mkSlave (sl_address status) r i (sl_registerMask status) (sl_registerMaskLength status)
          rc ic c d (sl_coilMask status) (sl_coilMaskLength status) cc dc
          (sl_lastException status) (sl_parseError status) (sl_response_frame status)
          (sl_response_length status) (sl_request_frame status) (sl_request_length status)).

Definition modbusSlaveEnd (status : ModbusSlave) : SlaveResult :=
  Some (MODBUS_ERROR_OK, set_response_frame status None).
End slave.
