(* ===== verification/ModbusSpec.v ===== *)
(** * Modbus: the abstract server

    What a Modbus slave promises, independently of how slave/*.c computes it:
    the requests a frame can carry, their effect on a store of coils and
    registers, and the reply.  ModbusSlaveCorrect.v proves that
    [modbusParseRequest] implements [serve]. *)

From S2P Require Import Prelude CMem Crc ModbusCommon.

(** ** Requests *)

Inductive BitTable := Coils | Discretes.
Inductive RegTable := Holding | Inputs.

(** One constructor per request layout; the numbers are what the frame says,
    not yet validated. *)
Inductive Request :=
| ReadBits (t : BitTable) (index count : Z)
| ReadRegs (t : RegTable) (index count : Z)
| WriteCoil (index value : Z)
| WriteReg (index value : Z)
| WriteCoils (index count : Z) (data : list Z)
| WriteRegs (index count : Z) (data : list Z)
| MaskWrite (index andmask ormask : Z).

Definition request_function (r : Request) : Z :=
  match r with
  | ReadBits Coils _ _ => 1 | ReadBits Discretes _ _ => 2
  | ReadRegs Holding _ _ => 3 | ReadRegs Inputs _ _ => 4
  | WriteCoil _ _ => 5 | WriteReg _ _ => 6
  | WriteCoils _ _ _ => 15 | WriteRegs _ _ _ => 16 | MaskWrite _ _ _ => 22
  end.

(** The request's bytes between address and checksum. *)
Definition request_pdu (r : Request) : list Z :=
  request_function r ::
  match r with
  | ReadBits _ i c | ReadRegs _ i c | WriteCoil i c | WriteReg i c => be16 i ++ be16 c
  | WriteCoils i c d | WriteRegs i c d => be16 i ++ be16 c ++ zlen d :: d
  | MaskWrite i a o => be16 i ++ be16 a ++ be16 o
  end.

Inductive Decoded :=
| DRequest (r : Request)
| DMalformed (e : ModbusFrameError)
| DUnknown.

Abbreviation word a b := (a * 256 + b).

(** The arguments of a frame, checksum included: two 16-bit fields, or two
    fields, a byte count and the data.  The slave computes the expected length
    of a multiple write in 8 bits, so the length byte of a 7- or 8-byte frame
    (there a checksum byte) can pass the length check; such a frame is still
    rejected, as a bad count. *)
Definition decode_fixed (mk : Z -> Z -> Request) (args : list Z) : Decoded :=
  match args with
  | [i1; i0; c1; c0; _; _] => DRequest (mk (word i1 i0) (word c1 c0))
  | _ => DMalformed MODBUS_FERROR_LENGTH
  end.

Definition decode_multiple (mk : Z -> Z -> list Z -> Request) (args : list Z) : Decoded :=
  match args with
  | i1 :: i0 :: c1 :: c0 :: n :: rest =>
      if zlen rest =? n + 2
      then DRequest (mk (word i1 i0) (word c1 c0) (take (Z.to_nat n) rest))
      else if 7 + zlen rest =? 9 + n - 256 then DMalformed MODBUS_FERROR_COUNT
      else DMalformed MODBUS_FERROR_LENGTH
  | _ => DMalformed MODBUS_FERROR_LENGTH
  end.

Definition decode (f : list Z) : Decoded :=
  match f with
  | _ :: fn :: args =>
      if fn =? 1 then decode_fixed (ReadBits Coils) args
      else if fn =? 2 then decode_fixed (ReadBits Discretes) args
      else if fn =? 3 then decode_fixed (ReadRegs Holding) args
      else if fn =? 4 then decode_fixed (ReadRegs Inputs) args
      else if fn =? 5 then decode_fixed WriteCoil args
      else if fn =? 6 then decode_fixed WriteReg args
      else if fn =? 15 then decode_multiple WriteCoils args
      else if fn =? 16 then decode_multiple WriteRegs args
      else if fn =? 22 then
        match args with
        | [i1; i0; a1; a0; o1; o0; _; _] =>
            DRequest (MaskWrite (word i1 i0) (word a1 a0) (word o1 o0))
        | _ => DMalformed MODBUS_FERROR_LENGTH
        end
      else DUnknown
  | _ => DUnknown
  end.

(** ** The store *)

(** [None] is a table the slave does not have; the [ro] predicates mark the
    write-protected coils and registers. *)
Record Store := mkStore {
  st_coils : option (list bool);
  st_discretes : option (list bool);
  st_holding : option (list Z);
  st_inputs : option (list Z);
  st_coil_ro : Z -> bool;
  st_reg_ro : Z -> bool
}.

Definition st_bits (st : Store) (t : BitTable) : option (list bool) :=
  match t with Coils => st_coils st | Discretes => st_discretes st end.

Definition st_regs (st : Store) (t : RegTable) : option (list Z) :=
  match t with Holding => st_holding st | Inputs => st_inputs st end.

Definition put_coils (st : Store) (i : Z) (bs : list bool) : Store :=
  mkStore (list_inserts (Z.to_nat i) bs <$> st_coils st) (st_discretes st) (st_holding st)
    (st_inputs st) (st_coil_ro st) (st_reg_ro st).

Definition put_regs (st : Store) (i : Z) (vs : list Z) : Store :=
  mkStore (st_coils st) (st_discretes st) (list_inserts (Z.to_nat i) vs <$> st_holding st)
    (st_inputs st) (st_coil_ro st) (st_reg_ro st).

(** The [n] cells from [i] of a table. *)
Definition slice {A} (i n : Z) (l : list A) : list A := take (Z.to_nat n) (drop (Z.to_nat i) l).

(** ** Validation *)

Abbreviation fault := (option (ModbusExceptionCode * ModbusFrameError)).

(** The access [i .. i+n-1] to a table of [len] cells, [None] for no table. *)
Definition range_fault (len : option Z) (i n : Z) : fault :=
  match len with
  | None => Some (MODBUS_EXCEP_ILLEGAL_ADDRESS, MODBUS_FERROR_NOSRC)
  | Some len =>
      if i + n <=? len then None else Some (MODBUS_EXCEP_ILLEGAL_ADDRESS, MODBUS_FERROR_RANGE)
  end.

Definition count_fault (bad : bool) (k : fault) : fault :=
  if bad then Some (MODBUS_EXCEP_ILLEGAL_VALUE, MODBUS_FERROR_COUNT) else k.

Definition then_fault (f k : fault) : fault := match f with Some e => Some e | None => k end.

Definition protect_fault (ro : bool) : fault :=
  if ro then Some (MODBUS_EXCEP_SLAVE_FAILURE, MODBUS_FERROR_NOWRITE) else None.

Definition validate (st : Store) (r : Request) : fault :=
  let size {A} (t : option (list A)) := (fun l : list A => zlen l) <$> t in
  match r with
  | ReadBits t i n =>
      count_fault ((n =? 0) || (2000 <? n)) (range_fault (size (st_bits st t)) i n)
  | ReadRegs t i n =>
      count_fault ((n =? 0) || (125 <? n)) (range_fault (size (st_regs st t)) i n)
  | WriteCoil i v =>
      if negb (v =? 0) && negb (v =? 0xFF00)
      then Some (MODBUS_EXCEP_ILLEGAL_VALUE, MODBUS_FERROR_VALUE)
      else then_fault (range_fault (size (st_coils st)) i 1) (protect_fault (st_coil_ro st i))
  | WriteReg i v =>
      (* a missing register table is reported as a range error *)
      then_fault (range_fault (Some (default 0 (size (st_holding st)))) i 1)
        (protect_fault (st_reg_ro st i))
  | WriteCoils i n d =>
      count_fault ((zlen d =? 0) || (n =? 0) || negb ((n + 7) `div` 8 =? zlen d) || (1968 <? n))
        (then_fault (range_fault (size (st_coils st)) i n)
           (protect_fault (existsb (fun k => st_coil_ro st (i + k)) (seqZ 0 n))))
  | WriteRegs i n d =>
      count_fault ((zlen d =? 0) || (n =? 0) || negb (n =? zlen d `div` 2) || (123 <? n))
        (then_fault (range_fault (size (st_holding st)) i n)
           (protect_fault (existsb (fun k => st_reg_ro st (i + k)) (seqZ 0 n))))
  | MaskWrite i _ _ =>
      then_fault (range_fault (size (st_holding st)) i 1) (protect_fault (st_reg_ro st i))
  end.

(** ** Execution of a valid request *)

(** The [n] 16-bit values at the start of a byte block. *)
Fixpoint words (n : nat) (d : list Z) : list Z :=
  match n, d with
  | S n', a :: b :: d' => word a b :: words n' d'
  | _, _ => []
  end.

(** Eight bits per byte, least significant bit first, zero padded. *)
Fixpoint pack_byte (bs : list bool) : Z :=
  match bs with
  | [] => 0
  | b :: bs' => Z.b2z b + 2 * pack_byte bs'
  end.

Definition pack_bits (bs : list bool) : list Z :=
  (fun j => pack_byte (take 8 (drop (8 * j) bs))) <$> seq 0 (Nat.div (length bs + 7) 8).

Definition mask_value (v andmask ormask : Z) : Z :=
  Z.lor (Z.land v andmask) (Z.land ormask (Z.lnot andmask)).

Definition execute (st : Store) (r : Request) : Store :=
  match r with
  | ReadBits _ _ _ | ReadRegs _ _ _ => st
  | WriteCoil i v => put_coils st i [v =? 0xFF00]
  | WriteReg i v => put_regs st i [v]
  | WriteCoils i n d => put_coils st i (bits_of n d)
  | WriteRegs i n d => put_regs st i (words (Z.to_nat n) d)
  | MaskWrite i a o =>
      put_regs st i ((fun v => mask_value v a o) <$> slice i 1 (default [] (st_holding st)))
  end.

(** The reply's bytes between address and checksum. *)
Definition response_pdu (st : Store) (r : Request) : list Z :=
  request_function r ::
  match r with
  | ReadBits t i n =>
      let d := pack_bits (slice i n (default [] (st_bits st t))) in zlen d :: d
  | ReadRegs t i n =>
      let d := slice i n (default [] (st_regs st t)) in 2 * zlen d :: flat_map be16 d
  | WriteCoil i v | WriteReg i v => be16 i ++ be16 v
  | WriteCoils i n _ | WriteRegs i n _ => be16 i ++ be16 n
  | MaskWrite i a o => be16 i ++ be16 a ++ be16 o
  end.

(** The size of the reply frame, known before anything is read or written. *)
Definition response_size (r : Request) : Z :=
  match r with
  | ReadBits _ _ n => 5 + (n + 7) `div` 8
  | ReadRegs _ _ n => 5 + 2 * n
  | MaskWrite _ _ _ => 10
  | _ => 8
  end.

(** ** The server *)

Record Reply := mkReply {
  rp_error : ModbusError;                    (* the return value *)
  rp_ferror : ModbusFrameError;              (* [parseError] *)
  rp_exception : option ModbusExceptionCode; (* the new [lastException], if any *)
  rp_frame : option (list Z)                 (* the frame to send, if any *)
}.

Definition read_function (fn : Z) : bool := (1 <=? fn) && (fn <=? 4).

Section serve.
Variable be : bool.
Variable calloc_ok : Z -> bool.
Variable me : Z.

(** An exception is answered, unless the request was broadcast. *)
Definition reply_exception (broadcast : bool) (fn : Z) (c : ModbusExceptionCode)
    (e : ModbusFrameError) : Reply :=
  if broadcast then mkReply MODBUS_ERROR_PARSE e (Some c) None
  else if calloc_ok 5
  then mkReply MODBUS_ERROR_EXCEPTION e (Some c)
         (Some (adu be [me; Z.lor 128 fn; exception_code c]))
  else mkReply MODBUS_ERROR_ALLOC e (Some c) None.

Definition serve_request (broadcast : bool) (st : Store) (r : Request) : Reply * Store :=
  match validate st r with
  | Some (c, e) => (reply_exception broadcast (request_function r) c e, st)
  | None =>
      if calloc_ok (response_size r)
      then (mkReply MODBUS_ERROR_OK MODBUS_FERROR_OK None
              (if broadcast then None else Some (adu be (me :: response_pdu st r))),
            execute st r)
      else (mkReply MODBUS_ERROR_ALLOC MODBUS_FERROR_OK None None, st)
  end.

(** A frame whose checksum is right and whose address is ours or broadcast. *)
Definition serve_frame (st : Store) (f : list Z) : Reply * Store :=
  let broadcast := default 0 (f !! 0%nat) =? 0 in
  let fn := default 0 (f !! 1%nat) in
  if broadcast && read_function fn
  then (mkReply MODBUS_ERROR_PARSE MODBUS_FERROR_BROADCAST None None, st)
  else match decode f with
       | DUnknown =>
           (reply_exception broadcast fn MODBUS_EXCEP_ILLEGAL_FUNCTION MODBUS_FERROR_NOFUN, st)
       | DMalformed e => (reply_exception broadcast fn MODBUS_EXCEP_ILLEGAL_VALUE e, st)
       | DRequest r => serve_request broadcast st r
       end.

(** The checksum of a frame: its last two bytes against the bytes before. *)
Definition crc_valid (f : list Z) : bool :=
  bool_decide (drop (length f - 2) f = crc_bytes be (take (length f - 2) f)).

Definition serve (st : Store) (frame : option (list Z)) : Reply * Store :=
  match frame with
  | None => (mkReply MODBUS_ERROR_PARSE MODBUS_FERROR_LENGTH None None, st)
  | Some f =>
      if zlen f <? 4 then (mkReply MODBUS_ERROR_PARSE MODBUS_FERROR_LENGTH None None, st)
      else if negb (crc_valid f)
      then (mkReply MODBUS_ERROR_PARSE MODBUS_FERROR_CRC None None, st)
      else
        let a := default 0 (f !! 0%nat) in
        if negb (a =? me) && negb (a =? 0)
        then (mkReply MODBUS_ERROR_OK MODBUS_FERROR_OK None None, st)
        else serve_frame st f
  end.
End serve.

(** ** Packed bits *)

Lemma pack_byte_testbit bs k :
  0 <= k -> Z.testbit (pack_byte bs) k = default false (bs !! Z.to_nat k).
Proof.
  revert k. induction bs as [|b bs IH]; intros k Hk; cbn [pack_byte].
  - by rewrite Z.testbit_0_l.
  - rewrite Z.add_comm. destruct (Z.eq_dec k 0) as [->|].
    + by rewrite Z.testbit_0_r.
    + replace k with (Z.succ (k - 1)) at 1 by lia. rewrite Z.testbit_succ_r by lia.
      rewrite IH by lia. by replace (Z.to_nat k) with (S (Z.to_nat (k - 1))) by lia.
Qed.

Lemma pack_byte_range bs : 0 <= pack_byte bs < 2 ^ zlen bs.
Proof.
  induction bs as [|b bs IH]; cbn [pack_byte length]; [lia|].
  rewrite Nat2Z.inj_succ, Z.pow_succ_r by lia. destruct b; cbn [Z.b2z]; lia.
Qed.

Lemma pack_bits_length bs : zlen (pack_bits bs) = (zlen bs + 7) `div` 8.
Proof. unfold pack_bits. autorewrite with bblen. rewrite Nat2Z.inj_div. f_equal. lia. Qed.

Lemma pack_bits_ok bs : bytes_ok (pack_bits bs).
Proof.
  apply Forall_fmap, Forall_true. intros j. cbn.
  pose proof (pack_byte_range (take 8 (drop (8 * j) bs))) as [H1 H2]. split; [done|].
  eapply Z.lt_le_trans; [done|]. change 256 with (2 ^ 8). apply Z.pow_le_mono_r; len.
Qed.

Lemma pack_bits_bit bs i :
  0 <= i -> bit_at (pack_bits bs) i = default false (bs !! Z.to_nat i).
Proof.
  intros Hi. destruct (Z.lt_ge_cases i (8 * ((zlen bs + 7) `div` 8))) as [H|H].
  - unfold pack_bits.
    rewrite (bit_at_byte _ _ (pack_byte (take 8 (drop (8 * Z.to_nat (i `div` 8)) bs)))); [|done|].
    + rewrite pack_byte_testbit by zlia.
      rewrite lookup_take_lt, lookup_drop by zlia. do 2 f_equal. zlia.
    + rewrite list_lookup_fmap, lookup_seq_lt; [done|].
      apply Nat2Z.inj_lt. rewrite Nat2Z.inj_div. zlia.
  - unfold bit_at. rewrite lookup_ge_None_2 by zlia.
    pose proof (pack_bits_length bs).
    unfold znth. ztrue (0 <=? i `div` 8). by rewrite lookup_ge_None_2 by zlia.
Qed.

(** Packing is determined by the bits. *)
Lemma pack_bits_unique m bs :
  bytes_ok m -> zlen m = (zlen bs + 7) `div` 8 ->
  (forall i, 0 <= i < 8 * zlen m -> bit_at m i = default false (bs !! Z.to_nat i)) ->
  m = pack_bits bs.
Proof.
  intros Hm Hlen H. apply bytes_eq_bits; [done | apply pack_bits_ok | |].
  - pose proof (pack_bits_length bs). lia.
  - intros i Hi. rewrite pack_bits_bit by lia. auto.
Qed.

Lemma bits_of_pack bs : bits_of (zlen bs) (pack_bits bs) = bs.
Proof.
  apply list_eq_znth; [len|]. intros i Hi. autorewrite with bblen in Hi.
  unfold znth. ztrue (0 <=? i). rewrite bits_of_lookup by lia.
  rewrite pack_bits_bit by lia.
  destruct (lookup_lt_is_Some_2 bs (Z.to_nat i)) as [b ->]; [lia | done].
Qed.

(** ** Blocks of 16-bit values *)

Lemma words_be16 vs : words (length vs) (flat_map be16 vs) = vs.
Proof. induction vs as [|v vs IH]; cbn; [done|]. rewrite IH. f_equal. zlia. Qed.

Lemma be16_words n d :
  bytes_ok d -> length d = (2 * n)%nat -> flat_map be16 (words n d) = d.
Proof.
  revert d. induction n as [|n IH]; intros d Hd Hlen; [by destruct d|].
  destruct d as [|a [|b d]]; cbn in Hlen; try lia.
  apply Forall_cons in Hd as [Ha Hd]. apply Forall_cons in Hd as [Hb Hd].
  cbn [words flat_map]. rewrite IH by (done || lia). unfold be16. cbn [app].
  f_equal; [zlia|]. f_equal. zlia.
Qed.

Lemma words_length n d : (2 * n <= length d)%nat -> length (words n d) = n.
Proof.
  revert d. induction n as [|n IH]; intros d H; [done|].
  destruct d as [|a [|b d]]; cbn in *; [lia..|]. rewrite IH; lia.
Qed.

Lemma words_ok n d : bytes_ok d -> Forall (fun v => is_u16 v) (words n d).
Proof.
  revert d. induction n as [|n IH]; intros d H; cbn; [by constructor|].
  destruct H as [|a d Ha H]; [by constructor|]. destruct H as [|b d Hb H]; [by constructor|].
  constructor; [lia | auto].
Qed.

Lemma words_lookup n d i a b :
  (i < n)%nat -> d !! (2 * i)%nat = Some a -> d !! (2 * i + 1)%nat = Some b ->
  words n d !! i = Some (word a b).
Proof.
  revert d i. induction n as [|n IH]; intros d i Hi Ha Hb; [lia|].
  destruct i as [|i].
  - destruct d as [|a' [|b' d]]; try done. cbn in *. congruence.
  - replace (2 * S i)%nat with (S (S (2 * i))) in Ha, Hb by lia.
    destruct d as [|a' [|b' d]]; try done. apply IH; [lia | done | done].
Qed.

Lemma flat_map_be16_length vs : zlen (flat_map be16 vs) = 2 * zlen vs.
Proof. induction vs as [|v vs IH]; cbn [flat_map]; [done|]. rewrite length_app. cbn [length be16]. lia. Qed.

Lemma slice_length {A} i n (l : list A) :
  0 <= i -> 0 <= n -> i + n <= zlen l -> zlen (slice i n l) = n.
Proof. intros. unfold slice. len. Qed.

Lemma slice_lookup {A} i n (l : list A) k :
  0 <= i -> 0 <= k < n -> slice i n l !! Z.to_nat k = l !! Z.to_nat (i + k).
Proof.
  intros. unfold slice. rewrite lookup_take_lt, lookup_drop by lia. f_equal. lia.
Qed.

Lemma mask_value_range v a o : is_u16 v -> is_u16 a -> is_u16 o -> is_u16 (mask_value v a o).
Proof.
  intros. apply (lor_range _ _ 16); [lia | by apply land_range | by apply land_range].
Qed.
