(* ===== verification/ModbusSlaveCorrect.v ===== *)
(** * Modbus slave: refinement of the abstract server

    [modbusParseRequest] (ModbusSlave.v) implements [serve] (ModbusSpec.v): for
    every well-formed slave and every request frame it returns (no access
    outside a buffer), with the server's error codes, its reply frame and its
    new store, and the slave stays well formed. *)

From S2P Require Import Prelude CMem Crc ModbusCommon ModbusFrame ModbusSlave ModbusSpec.

(** ** Well-formed slaves and the store they represent *)

Definition regs_wf (t : option (list Z)) (count : Z) : Prop :=
  is_u16 count /\ forall l, t = Some l -> count <= zlen l /\ Forall (fun v => is_u16 v) l.

Definition bits_wf (t : option (list Z)) (count : Z) : Prop :=
  is_u16 count /\ forall l, t = Some l -> (count + 7) `div` 8 <= zlen l /\ bytes_ok l.

Definition mask_wf (m : option (list Z)) (len : Z) : Prop :=
  forall l, m = Some l -> len <= zlen l /\ bytes_ok l.

Definition frame_wf (f : option (list Z)) (len : Z) : Prop :=
  0 <= len < 256 /\ forall l, f = Some l -> len <= zlen l /\ bytes_ok l.

Definition slave_wf (s : ModbusSlave) : Prop :=
  (0 < sl_address s < 256)
  /\ regs_wf (sl_registers s) (sl_registerCount s)
  /\ regs_wf (sl_inputRegisters s) (sl_inputRegisterCount s)
  /\ mask_wf (sl_registerMask s) (sl_registerMaskLength s)
  /\ bits_wf (sl_coils s) (sl_coilCount s)
  /\ bits_wf (sl_discreteInputs s) (sl_discreteInputCount s)
  /\ mask_wf (sl_coilMask s) (sl_coilMaskLength s)
  /\ frame_wf (sl_request_frame s) (sl_request_length s).

(** Write protection as the mask arrays encode it. *)
Definition mask_ro (m : option (list Z)) (len i : Z) : bool :=
  match m with None => false | Some m => (i `div` 8 <? len) && bit_at m i end.

Definition abs (s : ModbusSlave) : Store :=
  mkStore
    (bits_of (sl_coilCount s) <$> sl_coils s)
    (bits_of (sl_discreteInputCount s) <$> sl_discreteInputs s)
    (take (Z.to_nat (sl_registerCount s)) <$> sl_registers s)
    (take (Z.to_nat (sl_inputRegisterCount s)) <$> sl_inputRegisters s)
    (mask_ro (sl_coilMask s) (sl_coilMaskLength s))
    (mask_ro (sl_registerMask s) (sl_registerMaskLength s)).

(** The frame the application sends after a call: [response.length] bytes. *)
Definition sent_frame (s : ModbusSlave) : option (list Z) :=
  if sl_response_length s =? 0 then None
  else take (Z.to_nat (sl_response_length s)) <$> sl_response_frame s.

(** What a call from [s] must give to implement a reply and a new store. *)
Definition answers (s : ModbusSlave) (r : SlaveResult) (spec : Reply * Store) : Prop :=
  exists s', r = Some (rp_error spec.1, s')
    /\ sl_parseError s' = rp_ferror spec.1
    /\ sl_lastException s' = match rp_exception spec.1 with
                             | Some c => Some c | None => sl_lastException s end
    /\ sent_frame s' = rp_frame spec.1
    /\ abs s' = spec.2
    /\ slave_wf s'
    /\ sl_address s' = sl_address s
    /\ sl_registerCount s' = sl_registerCount s
    /\ sl_coilCount s' = sl_coilCount s.

Lemma answers_intro s e s' pe ex fr st :
  sl_parseError s' = pe ->
  sl_lastException s' = match ex with Some c => Some c | None => sl_lastException s end ->
  sent_frame s' = fr ->
  abs s' = st ->
  slave_wf s' ->
  sl_address s' = sl_address s ->
  sl_registerCount s' = sl_registerCount s ->
  sl_coilCount s' = sl_coilCount s ->
  answers s (Some (e, s')) (mkReply e pe ex fr, st).
Proof. intros. exists s'. tauto. Qed.

(** A frame is ready to be sent when the allocation is filled to its length. *)
Lemma sent_ready s fr : 0 < zlen fr ->
  sl_response_frame s = Some fr -> sl_response_length s = zlen fr -> sent_frame s = Some fr.
Proof.
  intros Hn Hf Hl. unfold sent_frame. rewrite Hl, Hf. zfalse (zlen fr =? 0).
  cbn. by rewrite Nat2Z.id, firstn_all.
Qed.

Ltac ready :=
  apply sent_ready;
  [len | done | cbn [sl_response_length set_response set_parseError]; len].

Lemma sent_nothing s : sl_response_length s = 0 -> sent_frame s = None.
Proof. intros H. unfold sent_frame. by rewrite H. Qed.

(** The range test of a single access, as the specification writes it. *)
Lemma fits_one i len : (i + 1 <=? len) = negb (i >=? len).
Proof. rewrite Z.geb_leb. destruct (Z.leb_spec len i), (Z.leb_spec (i + 1) len); lia || done. Qed.

Lemma fits_many i n len :
  is_u16 i -> 0 < n < 65536 -> (i + n <=? len) = negb ((i >=? len) || (u32 (i + n) >? len)).
Proof.
  intros. rewrite u32_id, Z.geb_leb, Z.gtb_ltb by lia.
  destruct (Z.leb_spec len i), (Z.leb_spec (i + n) len), (Z.ltb_spec len (i + n)); lia || done.
Qed.

Lemma range_ok i n len :
  (i >=? len) || (u32 (i + n) >? len) = false -> is_u16 i -> 0 < n < 65536 -> i + n <= len.
Proof. intros H ? ?. rewrite <- negb_true_iff, <- fits_many in H by done. by zbool. Qed.

(** ** Lemmas on protection masks *)

Lemma mask_read_ro m len i :
  mask_wf m len -> 0 <= i ->
  exists r, modbusMaskRead m len i = Some r /\ (r =? 1) = mask_ro m len i.
Proof.
  intros Hm Hi. destruct m as [m|]; [|by exists 255].
  destruct (Hm m eq_refl) as [Hlen _]. cbn [mask_ro].
  destruct (Z.ltb_spec (i `div` 8) len).
  - exists (Z.b2z (bit_at m i)). rewrite modbusMaskRead_spec by zlia.
    split; [done|]. by destruct (bit_at m i).
  - exists 255. rewrite modbusMaskRead_out by zlia. done.
Qed.

(** The protection scan of the multiple writes. *)
Lemma protect_scan m len index n :
  mask_wf m len -> 0 <= index -> 0 <= n -> index + n <= 65536 ->
  exists_range (Z.to_nat n) 0
    (fun i => r ← modbusMaskRead m len (u16 (index + i)); Some (r =? 1))
  = Some (existsb (fun k => mask_ro m len (index + k)) (seqZ 0 n)).
Proof.
  intros Hm Hi Hn Hr.
  rewrite (exists_range_spec _ _ _ (fun k => mask_ro m len (index + k))).
  - by rewrite Z2Nat.id by lia.
  - intros k Hk. rewrite u16_id by lia.
    destruct (mask_read_ro m len (index + k)) as (r & -> & <-); [done | lia | done].
Qed.

(** ** Writes to the tables *)

Lemma abs_write_registers s l i vs :
  sl_registers s = Some l -> 0 <= i -> i + zlen vs <= sl_registerCount s ->
  abs (set_registers s (list_inserts (Z.to_nat i) vs l)) = put_regs (abs s) i vs.
Proof.
  intros Hl Hi Hn. unfold abs, put_regs. cbn. rewrite Hl. cbn.
  by rewrite take_inserts by lia.
Qed.

Lemma wf_write_registers s l i vs :
  slave_wf s -> sl_registers s = Some l -> Forall (fun v => is_u16 v) vs ->
  slave_wf (set_registers s (list_inserts i vs l)).
Proof.
  intros (H1 & [Hc Hr] & H) Hl Hvs. split; [done|]. split; [|done]. split; [done|].
  intros l' [= <-]. destruct (Hr _ Hl). rewrite length_inserts.
  split; [done|]. by apply Forall_inserts.
Qed.

Lemma abs_write_coils s l l' i bs :
  sl_coils s = Some l -> 0 <= i -> i + zlen bs <= sl_coilCount s ->
  (forall j, 0 <= j < sl_coilCount s ->
     bit_at l' j = if (i <=? j) && (j <? i + zlen bs)
                   then default false (znth bs (j - i)) else bit_at l j) ->
  abs (set_coils s l') = put_coils (abs s) i bs.
Proof.
  intros Hl Hi Hn H. unfold abs, put_coils. cbn. rewrite Hl. cbn. do 2 f_equal.
  apply list_eq_znth; [len|]. intros j Hj. autorewrite with bblen in Hj.
  rewrite znth_inserts by done. autorewrite with bblen.
  rewrite Z2Nat.id by lia. ztrue (j <? sl_coilCount s). rewrite andb_true_r.
  assert (forall m, znth (bits_of (sl_coilCount s) m) j = Some (bit_at m j)) as Hb.
  { intros m. unfold znth. ztrue (0 <=? j). apply bits_of_lookup. lia. }
  rewrite !Hb, H by lia. case_if; [|done]. zbool.
  destruct (znth_lt bs (j - i)) as [b ->]; [lia | done].
Qed.

Lemma wf_write_coils s l l' :
  slave_wf s -> sl_coils s = Some l -> length l' = length l -> bytes_ok l' ->
  slave_wf (set_coils s l').
Proof.
  intros (H1 & H2 & H3 & H4 & [Hc Hb] & H) Hl Hlen Hok.
  refine (conj H1 (conj H2 (conj H3 (conj H4 (conj (conj Hc _) H))))).
  intros l2 [= <-]. destruct (Hb _ Hl). by rewrite Hlen.
Qed.

(** ** Fields of a frame *)

Lemma p_index_cons be a f x y l : p_index be (a :: f :: x :: y :: l) = Some (load16 be x y).
Proof. done. Qed.
Lemma p_count_cons be a f i j x y l :
  p_count be (a :: f :: i :: j :: x :: y :: l) = Some (load16 be x y).
Proof. done. Qed.
Lemma p_ormask_cons be a f i j c d x y l :
  p_ormask be (a :: f :: i :: j :: c :: d :: x :: y :: l) = Some (load16 be x y).
Proof. done. Qed.
Lemma p_address_cons a l : p_address (a :: l) = Some a.
Proof. done. Qed.
Lemma p_function_cons a f l : p_function (a :: f :: l) = Some f.
Proof. done. Qed.
Lemma p_request_length_cons a f i j c d n l :
  p_request_length (a :: f :: i :: j :: c :: d :: n :: l) = Some n.
Proof. done. Qed.

(** Load the fields of the request of the goal. *)
Ltac load_fields :=
  rewrite ?p_index_cons, ?p_count_cons, ?p_ormask_cons, ?p_address_cons, ?p_function_cons,
    ?p_request_length_cons, ?bind_Some;
  repeat rewrite match_load16 by assumption.

(** ** Replies *)

(** A slave about to handle the frame [a :: fn :: args], checksum included. *)
Record pending (s : ModbusSlave) (a fn : Z) (args rest : list Z) : Prop := {
  pd_wf : slave_wf s;
  pd_frame : sl_request_frame s = Some (a :: fn :: args ++ rest);
  pd_len : sl_request_length s = 2 + zlen args;
  pd_me : a = sl_address s \/ a = 0;
  pd_pe : sl_parseError s = MODBUS_FERROR_OK;
  pd_resp : sl_response_length s = 0
}.

Section replies.
Context (be : bool) (calloc_ok : Z -> bool) (s : ModbusSlave).
Context (a fn : Z) (args rest : list Z).
Hypothesis Hp : pending s a fn args rest.

Abbreviation me := (sl_address s).

Lemma me_range : 0 < me < 256.
Proof. apply Hp. Qed.

Lemma frame_bytes : is_u8 a /\ is_u8 fn /\ bytes_ok args /\ 2 + zlen args < 256.
Proof.
  destruct Hp as [(_ & _ & _ & _ & _ & _ & _ & H) Hf Hl _ _ _].
  destruct H as [Hn H]. destruct (H _ Hf) as [_ HF].
  inversion_clear HF as [|? ? Ha HF']. inversion_clear HF' as [|? ? Hfn HF''].
  apply Forall_app in HF'' as [? _]. split_and!; try done; lia.
Qed.

Lemma exception_answers c e :
  answers s (modbusBuildExceptionErr be calloc_ok s fn c e)
    (reply_exception be calloc_ok me (a =? 0) fn c e, abs s).
Proof.
  destruct frame_bytes as (Ha & Hf & _). pose proof me_range as Hm.
  destruct Hp as [Hwf Hframe _ _ Hpe Hresp].
  unfold modbusBuildExceptionErr, modbusBuildException, reply_exception.
  cbn [set_parseError set_lastException sl_request_frame].
  rewrite Hframe, p_address_cons, !bind_Some. cbn [sl_address set_parseError set_lastException].
  destruct (a =? 0); cbn [mbind option_bind].
  { apply answers_intro; done. }
  destruct (calloc_ok 5); cbn [negb].
  2: { apply answers_intro; try done. by apply sent_nothing. }
  change (zeros 5) with ([] ++ [0;0;0;0;0]).
  assert (is_u8 me) by lia.
  assert (is_u8 (Z.lor (Z.shiftl 1 7) fn)) by
    (apply (lor_range _ _ 8); change (2 ^ 8) with 256; change (Z.shiftl 1 7) with 128; lia).
  assert (is_u8 (exception_code c)) by (destruct c; cbn; lia).
  fill8 (@nil Z). fill8 [me]. fill8 [me; Z.lor (Z.shiftl 1 7) fn].
  rewrite (seal_frame' be [me; Z.lor (Z.shiftl 1 7) fn; exception_code c] 0 0)
    by reflexivity.
  rewrite bind_Some. rewrite bool_decide_eq_false_2 by done.
  apply answers_intro; try done. ready.
Qed.

Lemma exception_answers' b c e :
  (a =? 0) = b ->
  answers s (modbusBuildExceptionErr be calloc_ok s fn c e)
    (reply_exception be calloc_ok me b fn c e, abs s).
Proof. intros <-. apply exception_answers. Qed.

Lemma serve_frame_cons :
  serve_frame be calloc_ok me (abs s) (a :: fn :: args)
  = if (a =? 0) && read_function fn
    then (mkReply MODBUS_ERROR_PARSE MODBUS_FERROR_BROADCAST None None, abs s)
    else match decode (a :: fn :: args) with
         | DUnknown =>
             (reply_exception be calloc_ok me (a =? 0) fn MODBUS_EXCEP_ILLEGAL_FUNCTION
                MODBUS_FERROR_NOFUN, abs s)
         | DMalformed e =>
             (reply_exception be calloc_ok me (a =? 0) fn MODBUS_EXCEP_ILLEGAL_VALUE e, abs s)
         | DRequest r => serve_request be calloc_ok me (a =? 0) (abs s) r
         end.
Proof. done. Qed.

Lemma broadcast_answers :
  answers s (Some (MODBUS_ERROR_PARSE, set_parseError s MODBUS_FERROR_BROADCAST))
    (mkReply MODBUS_ERROR_PARSE MODBUS_FERROR_BROADCAST None None, abs s).
Proof. destruct Hp. apply answers_intro; try done. by apply sent_nothing. Qed.

Lemma alloc_answers :
  answers s (Some (MODBUS_ERROR_ALLOC, set_response_frame s None))
    (mkReply MODBUS_ERROR_ALLOC MODBUS_FERROR_OK None None, abs s).
Proof. destruct Hp. apply answers_intro; try done. by apply sent_nothing. Qed.
End replies.

(** The slave [s1] is [s] after the request's writes, with the store [st]. *)
Record wrote (s s1 : ModbusSlave) (st : Store) : Prop := {
  wr_abs : abs s1 = st;
  wr_wf : slave_wf s1;
  wr_exception : sl_lastException s1 = sl_lastException s;
  wr_resp : sl_response_length s1 = 0;
  wr_address : sl_address s1 = sl_address s;
  wr_registerCount : sl_registerCount s1 = sl_registerCount s;
  wr_coilCount : sl_coilCount s1 = sl_coilCount s
}.

(** The end of the write handlers: nothing is sent to a broadcast request, the
    others echo two fields of the request. *)
Lemma echo8_answers be s s1 st a fn v w b0 b1 b2 b3 :
  wrote s s1 st -> is_u8 fn -> store16 be v = [b0; b1] -> store16 be w = [b2; b3] ->
  answers s
    (return_if a =? 0 with Some (MODBUS_ERROR_OK, set_parseError s1 MODBUS_FERROR_OK) ;;
     m ← wr8 (zeros 8) 0 (sl_address s1); m ← wr8 m 1 fn; m ← wr16 be m 2 v; m ← wr16 be m 4 w;
     crc ← modbusCRC (Some m) 6; m ← wr16 be m 6 crc;
     Some (MODBUS_ERROR_OK, set_parseError (set_response s1 (Some m) 8) MODBUS_FERROR_OK))
    (mkReply MODBUS_ERROR_OK MODBUS_FERROR_OK None
       (if a =? 0 then None else Some (adu be [sl_address s; fn; b0; b1; b2; b3])), st).
Proof.
  intros [] Hfn Hv Hw. destruct (a =? 0).
  - apply answers_intro; try done. by apply sent_nothing.
  - assert (0 < sl_address s1 < 256) as Hme by apply wr_wf0.
    rewrite (build_frame8 be _ fn v w b0 b1 b2 b3) by (done || lia).
    rewrite <- wr_address0. apply answers_intro; try done. ready.
Qed.

Lemma be16_word a b : is_u8 a -> is_u8 b -> be16 (word a b) = [a; b].
Proof. intros. unfold be16. f_equal; [|f_equal]; zlia. Qed.

(** Name the request's bytes, with their ranges. *)
Ltac name_bytes :=
  repeat match goal with
  | H : bytes_ok (_ :: _) |- _ => apply Forall_cons in H as [? H]
  end.

(** Refuse the request with the exception both sides name. *)
Ltac by_exception Hp :=
  cbn [then_fault count_fault protect_fault range_fault request_function];
  apply (exception_answers' _ _ _ _ _ _ _ Hp); first [done | congruence | by apply Z.eqb_neq].

(** Dispose of a request of the wrong length. *)
Tactic Notation "wrong_length" integer(n) ident(args) constr(Hp) :=
  match goal with |- context [negb (2 + ?l =? ?k)] => ztrue (negb (2 + l =? k)) end;
  match goal with |- context [decode ?f] =>
    replace (decode f) with (DMalformed MODBUS_FERROR_LENGTH);
    [by_exception Hp
    | do n (destruct args as [|? args]; try done); by destruct args]
  end.

(** The tables the store shows have the configured sizes. *)
Definition src_regs (s : ModbusSlave) (t : RegTable) : option (list Z) * Z :=
  match t with
  | Holding => (sl_registers s, sl_registerCount s)
  | Inputs => (sl_inputRegisters s, sl_inputRegisterCount s)
  end.

Definition src_bits (s : ModbusSlave) (t : BitTable) : option (list Z) * Z :=
  match t with
  | Coils => (sl_coils s, sl_coilCount s)
  | Discretes => (sl_discreteInputs s, sl_discreteInputCount s)
  end.

Lemma src_regs_wf s t : slave_wf s -> regs_wf (src_regs s t).1 (src_regs s t).2.
Proof. intros (_ & H1 & H2 & _). by destruct t. Qed.

Lemma src_bits_wf s t : slave_wf s -> bits_wf (src_bits s t).1 (src_bits s t).2.
Proof. intros (_ & _ & _ & _ & H1 & H2 & _). by destruct t. Qed.

Lemma abs_regs s t :
  st_regs (abs s) t = take (Z.to_nat (src_regs s t).2) <$> (src_regs s t).1.
Proof. by destruct t. Qed.

Lemma abs_bits s t : st_bits (abs s) t = bits_of (src_bits s t).2 <$> (src_bits s t).1.
Proof. by destruct t. Qed.

Lemma size_regs s t : slave_wf s ->
  (fun l : list Z => zlen l) <$> st_regs (abs s) t
  = (fun _ => (src_regs s t).2) <$> (src_regs s t).1.
Proof.
  intros [Hc H]%(src_regs_wf s t). rewrite abs_regs. destruct (src_regs s t).1 as [l|]; [|done].
  cbn. destruct (H l eq_refl). f_equal. len.
Qed.

Lemma size_bits s t : slave_wf s ->
  (fun l : list bool => zlen l) <$> st_bits (abs s) t
  = (fun _ => (src_bits s t).2) <$> (src_bits s t).1.
Proof.
  intros [Hc H]%(src_bits_wf s t). rewrite abs_bits. destruct (src_bits s t).1 as [l|]; [|done].
  cbn. f_equal. len.
Qed.

Lemma size_holding s : slave_wf s ->
  (fun l : list Z => zlen l) <$> st_holding (abs s)
  = (fun _ => sl_registerCount s) <$> sl_registers s.
Proof. apply (size_regs s Holding). Qed.

Lemma size_coils s : slave_wf s ->
  (fun l : list bool => zlen l) <$> st_coils (abs s)
  = (fun _ => sl_coilCount s) <$> sl_coils s.
Proof. apply (size_bits s Coils). Qed.

Lemma abs_reg_ro s : st_reg_ro (abs s) = mask_ro (sl_registerMask s) (sl_registerMaskLength s).
Proof. done. Qed.

Lemma abs_coil_ro s : st_coil_ro (abs s) = mask_ro (sl_coilMask s) (sl_coilMaskLength s).
Proof. done. Qed.

(** ** slave/sregs.c *)

Section handlers.
Context (be : bool) (calloc_ok : Z -> bool).

Abbreviation serves s a fn args :=
  (serve_frame be calloc_ok (sl_address s) (abs s) (a :: fn :: args)).

Lemma ParseRequest06_answers s a args rest :
  pending s a 6 args rest ->
  answers s (modbusParseRequest06 be calloc_ok s (Some (a :: 6 :: args ++ rest)))
    (serves s a 6 args).
Proof.
  intros Hp. pose proof (frame_bytes _ _ _ _ _ Hp) as (Ha & Hf & Hargs & _).
  rewrite serve_frame_cons, andb_false_r. unfold modbusParseRequest06.
  rewrite (pd_len _ _ _ _ _ Hp).
  destruct (decide (length args = 6%nat)) as [E|E]; [|by wrong_length 6 args Hp].
  destruct args as [|i1 [|i0 [|c1 [|c0 [|k1 [|k0 [|]]]]]]]; try done.
  zfalse (negb (2 + zlen [i1;i0;c1;c0;k1;k0] =? 8)). cbn [app]. name_bytes. load_fields.
  change (decode _) with (DRequest (WriteReg (word i1 i0) (word c1 c0))).
  unfold serve_request. cbn [validate]. rewrite size_holding by apply Hp.
  destruct (sl_registers s) as [l|] eqn:Hl; cbn [fmap option_fmap option_map from_option].
  2: { unfold range_fault. zfalse (word i1 i0 + 1 <=? 0). case_if; by_exception Hp. }
  unfold range_fault. rewrite (fits_one _ (sl_registerCount s)).
  destruct (word i1 i0 >=? sl_registerCount s) eqn:Hi; [by_exception Hp|].
  cbn [negb then_fault].
  pose proof (pd_wf _ _ _ _ _ Hp) as (Hme & [Hc Hregs] & _ & Hmask & _).
  destruct (mask_read_ro _ _ (word i1 i0) Hmask) as (r & -> & Hr); [lia|].
  rewrite bind_Some, Hr, abs_reg_ro.
  destruct (mask_ro _ _ _); [by_exception Hp|].
  cbn [protect_fault response_size].
  destruct (calloc_ok 8); cbn [negb]; [|by apply (alloc_answers _ _ _ _ _ Hp)].
  destruct (Hregs _ Hl) as [Hcl Hl16]. zbool.
  rewrite zset_Some by lia. rewrite !bind_Some.
  unfold response_pdu. cbn [request_function execute]. rewrite !be16_word by done. cbn [app].
  apply echo8_answers; [|lia|by apply store_load16..].
  constructor; try done; try apply Hp.
  - apply (abs_write_registers s l _ [word c1 c0]); [done | lia | cbn; lia].
  - apply (wf_write_registers s l _ [word c1 c0]); [apply Hp | done |]. constructor; [lia | done].
Qed.

Lemma echo10_answers s s1 st a v w u b0 b1 b2 b3 b4 b5 :
  wrote s s1 st ->
  store16 be v = [b0; b1] -> store16 be w = [b2; b3] -> store16 be u = [b4; b5] ->
  answers s
    (return_if a =? 0 with Some (MODBUS_ERROR_OK, set_parseError s1 MODBUS_FERROR_OK) ;;
     m ← wr8 (zeros 10) 0 (sl_address s1); m ← wr8 m 1 22; m ← wr16 be m 2 v; m ← wr16 be m 4 w;
     m ← wr16 be m 6 u; crc ← modbusCRC (Some m) 8; m ← wr16 be m 8 crc;
     Some (MODBUS_ERROR_OK, set_parseError (set_response s1 (Some m) 10) MODBUS_FERROR_OK))
    (mkReply MODBUS_ERROR_OK MODBUS_FERROR_OK None
       (if a =? 0 then None else Some (adu be [sl_address s; 22; b0; b1; b2; b3; b4; b5])), st).
Proof.
  intros [] Hv Hw Hu. destruct (a =? 0).
  - apply answers_intro; try done. by apply sent_nothing.
  - assert (0 < sl_address s1 < 256) as Hme by apply wr_wf0.
    rewrite (build_frame10 be _ 22 v w u b0 b1 b2 b3 b4 b5) by (done || lia).
    rewrite <- wr_address0. apply answers_intro; try done. ready.
Qed.

Lemma ParseRequest22_answers s a args rest :
  pending s a 22 args rest ->
  answers s (modbusParseRequest22 be calloc_ok s (Some (a :: 22 :: args ++ rest)))
    (serves s a 22 args).
Proof.
  intros Hp. pose proof (frame_bytes _ _ _ _ _ Hp) as (Ha & Hf & Hargs & _).
  rewrite serve_frame_cons, andb_false_r. unfold modbusParseRequest22.
  rewrite (pd_len _ _ _ _ _ Hp).
  destruct (decide (length args = 8%nat)) as [E|E]; [|by wrong_length 8 args Hp].
  destruct args as [|i1 [|i0 [|a1 [|a0 [|o1 [|o0 [|k1 [|k0 [|]]]]]]]]]; try done.
  zfalse (negb (2 + zlen [i1;i0;a1;a0;o1;o0;k1;k0] =? 10)). cbn [app]. name_bytes. load_fields.
  change (decode _) with (DRequest (MaskWrite (word i1 i0) (word a1 a0) (word o1 o0))).
  unfold serve_request. cbn [validate]. rewrite size_holding by apply Hp.
  destruct (sl_registers s) as [l|] eqn:Hl; cbn [fmap option_fmap option_map]; [|by_exception Hp].
  unfold range_fault. rewrite (fits_one _ (sl_registerCount s)).
  destruct (word i1 i0 >=? sl_registerCount s) eqn:Hi; [by_exception Hp|].
  cbn [negb then_fault].
  pose proof (pd_wf _ _ _ _ _ Hp) as (Hme & [Hc Hregs] & _ & Hmask & _).
  destruct (mask_read_ro _ _ (word i1 i0) Hmask) as (r & -> & Hr); [lia|].
  rewrite bind_Some, Hr, abs_reg_ro.
  destruct (mask_ro _ _ _); [by_exception Hp|].
  cbn [protect_fault response_size].
  destruct (calloc_ok 10); cbn [negb]; [|by apply (alloc_answers _ _ _ _ _ Hp)].
  destruct (Hregs _ Hl) as [Hcl Hl16]. zbool.
  destruct (znth_lt l (word i1 i0)) as [v Hv]; [lia|].
  rewrite Hv, bind_Some, zset_Some by lia. rewrite !bind_Some.
  apply znth_Some in Hv as [_ Hv].
  pose proof (Forall_lookup_1 _ _ _ _ Hl16 Hv) as Hv16. cbn beta in Hv16.
  unfold response_pdu. cbn [request_function execute]. rewrite !be16_word by done. cbn [app].
  fold (mask_value v (word a1 a0) (word o1 o0)).
  rewrite (u16_id (mask_value v (word a1 a0) (word o1 o0))) by (apply mask_value_range; lia).
  replace (slice (word i1 i0) 1 (default [] (st_holding (abs s)))) with [v].
  2: { cbn [abs st_holding]. rewrite Hl. cbn [fmap option_fmap option_map default from_option id].
       unfold slice. rewrite (drop_S _ v); [done|]. by rewrite lookup_take_lt by lia. }
  apply echo10_answers; [|by apply store_load16..].
  constructor; try done; try apply Hp.
  - apply (abs_write_registers s l _ [mask_value v (word a1 a0) (word o1 o0)]);
      [done | lia | cbn; lia].
  - apply (wf_write_registers s l _ [mask_value v (word a1 a0) (word o1 o0)]);
      [apply Hp | done |]. constructor; [|done]. apply mask_value_range; lia.
Qed.

(** The copy loop of a multiple register write. *)
Lemma write_registers_loop parser (l ws : list Z) index :
  0 <= index -> index + zlen ws <= zlen l ->
  (forall i, 0 <= i < zlen ws ->
     (fun v => modbusMatchEndian be v) <$> p_request_value16 be parser i = znth ws i) ->
  for_range (length ws) 0
    (fun i registers =>
       v ← p_request_value16 be parser i;
       zset registers (index + i) (modbusMatchEndian be v)) l
  = Some (list_inserts (Z.to_nat index) ws l).
Proof.
  intros Hi Hlen Hsrc.
  destruct (for_range_inv
    (fun i regs => regs = list_inserts (Z.to_nat index) (take (Z.to_nat i) ws) l)
    (fun i registers =>
       v ← p_request_value16 be parser i;
       zset registers (index + i) (modbusMatchEndian be v))
    (length ws) 0 l) as (m & -> & ->); [|done|].
  - intros i m Hr ->. destruct (znth_lt ws i) as [w Hw]; [lia|].
    pose proof (Hsrc i) as Hv. rewrite Hw in Hv.
    destruct (p_request_value16 be parser i) as [v|]; [|by specialize (Hv ltac:(lia))].
    cbn in Hv. specialize (Hv ltac:(lia)). injection Hv as <-. rewrite bind_Some.
    rewrite zset_Some by (rewrite length_inserts; lia). eexists. split; [done|].
    apply znth_Some in Hw as [_ Hw].
    replace (Z.to_nat (i + 1)) with (S (Z.to_nat i)) by lia.
    erewrite take_S_r by done. rewrite list_inserts_app_l. cbn.
    f_equal. rewrite length_take. lia.
  - do 2 f_equal. apply firstn_all2. lia.
Qed.

(** The shapes of the arguments of a multiple write, as the 8-bit length check
    of the handler tells them apart. *)
Inductive multiple_case : list Z -> Prop :=
| mc_short args : zlen args < 5 -> multiple_case args
| mc_ok i1 i0 c1 c0 d k1 k0 :
    multiple_case (i1 :: i0 :: c1 :: c0 :: zlen d :: d ++ [k1; k0])
| mc_wrap i1 i0 c1 c0 n tail :
    254 <= n < 256 -> 7 + zlen tail = 9 + n - 256 ->
    multiple_case (i1 :: i0 :: c1 :: c0 :: n :: tail)
| mc_bad i1 i0 c1 c0 n tail :
    7 + zlen tail <> 9 + n -> 7 + zlen tail <> 9 + n - 256 ->
    multiple_case (i1 :: i0 :: c1 :: c0 :: n :: tail).

Lemma multiple_cases args : bytes_ok args -> multiple_case args.
Proof.
  intros H. destruct (Z.lt_ge_cases (zlen args) 5); [by constructor|].
  destruct args as [|i1 [|i0 [|c1 [|c0 [|n tail]]]]]; try (cbn in *; lia).
  name_bytes.
  destruct (Z.eq_dec (7 + zlen tail) (9 + n)) as [E|E].
  - rewrite <- (take_drop (length tail - 2) tail) in *.
    destruct (drop (length tail - 2) tail) as [|k1 [|k0 [|]]] eqn:Ed;
      apply (f_equal length) in Ed; rewrite length_drop in Ed; cbn in Ed;
      try (exfalso; len).
    replace n with (zlen (take (length tail - 2) tail)) by len. apply mc_ok.
  - destruct (Z.eq_dec (7 + zlen tail) (9 + n - 256)); [apply mc_wrap; lia | by apply mc_bad].
Qed.

(** The byte count of a multiple write, as the handler sees it: [Some n] when it
    passes the length check. *)
Lemma multiple_length s a fn args rest :
  pending s a fn args rest ->
  match args with
  | _ :: _ :: _ :: _ :: n :: tail =>
      negb (2 + zlen args >=? 7) = false
      /\ negb (2 + zlen args =? u8 (9 + n))
         = negb ((7 + zlen tail =? 9 + n) || (7 + zlen tail =? 9 + n - 256))
  | _ => negb (2 + zlen args >=? 7) = true
  end.
Proof.
  intros Hp. pose proof (frame_bytes _ _ _ _ _ Hp) as (_ & _ & Hargs & Hlen).
  destruct args as [|i1 [|i0 [|c1 [|c0 [|n tail]]]]]; try done. name_bytes. cbn [length] in *.
  split; [by zfalse (negb (2 + Z.of_nat (S (S (S (S (S (length tail)))))) >=? 7))|].
  unfold u8. change (2 ^ 8) with 256. f_equal. repeat zcase; cbn [orb]; zlia || done.
Qed.

Lemma rd16_words hd d rest n i :
  bytes_ok d -> 2 * Z.of_nat n <= zlen d -> 0 <= i < Z.of_nat n ->
  (fun v => modbusMatchEndian be v) <$> rd16 be (hd ++ d ++ rest) (zlen hd + 2 * i)
  = znth (words n d) i.
Proof.
  intros Hd Hn Hi.
  destruct (lookup_lt_is_Some_2 d (2 * Z.to_nat i)%nat) as [x Hx]; [lia|].
  destruct (lookup_lt_is_Some_2 d (2 * Z.to_nat i + 1)%nat) as [y Hy]; [lia|].
  assert (forall (k : nat) z, d !! k = Some z -> rd8 (hd ++ d ++ rest) (zlen hd + Z.of_nat k) = Some z) as Hrd.
  { intros k z Hz. unfold rd8. rewrite znth_app_r by lia.
    replace (zlen hd + Z.of_nat k - zlen hd) with (Z.of_nat k) by lia.
    rewrite znth_of_nat. by apply lookup_app_l_Some. }
  unfold rd16.
  replace (zlen hd + 2 * i) with (zlen hd + Z.of_nat (2 * Z.to_nat i)%nat) by lia.
  rewrite (Hrd _ _ Hx), bind_Some.
  replace (zlen hd + Z.of_nat (2 * Z.to_nat i) + 1)
    with (zlen hd + Z.of_nat (2 * Z.to_nat i + 1)) by lia.
  rewrite (Hrd _ _ Hy), bind_Some. cbn [fmap option_fmap option_map].
  pose proof (Forall_lookup_1 _ _ _ _ Hd Hx). pose proof (Forall_lookup_1 _ _ _ _ Hd Hy).
  rewrite match_load16 by done. symmetry. apply znth_Some. split; [lia|].
  apply words_lookup; [lia | done | done].
Qed.

Lemma ParseRequest16_answers s a args rest :
  pending s a 16 args rest ->
  answers s (modbusParseRequest16 be calloc_ok s (Some (a :: 16 :: args ++ rest)))
    (serves s a 16 args).
Proof.
  intros Hp. pose proof (frame_bytes _ _ _ _ _ Hp) as (Ha & Hf & Hargs & Hshort).
  pose proof (multiple_length _ _ _ _ _ Hp) as Hml.
  rewrite serve_frame_cons, andb_false_r. unfold modbusParseRequest16.
  rewrite (pd_len _ _ _ _ _ Hp). change (decode _) with (decode_multiple WriteRegs args).
  destruct (multiple_cases _ Hargs)
    as [args Hs|i1 i0 c1 c0 d k1 k0|i1 i0 c1 c0 n tail Hn Hw|i1 i0 c1 c0 n tail H1 H2].
  - ztrue (negb (2 + zlen args >=? 7)).
    replace (decode_multiple WriteRegs args) with (DMalformed MODBUS_FERROR_LENGTH); [by_exception Hp|].
    do 5 (destruct args as [|? args]; try done). cbn in Hs. lia.
  - (* a frame of the announced length *)
    destruct Hml as [-> Hml]. cbn [app]. name_bytes. apply Forall_app in Hargs as [Hd _].
    rewrite <- app_assoc. cbn [app length] in *. load_fields.
    assert (zlen (d ++ [k1; k0]) = zlen d + 2) as Hdk by len.
    rewrite Hml. clear Hml. unfold decode_multiple. cbn [length]. rewrite Hdk, Z.eqb_refl.
    ztrue (7 + (zlen d + 2) =? 9 + zlen d). cbn [orb negb]. rewrite Nat2Z.id, take_app_length.
    unfold serve_request. cbn [validate].
    rewrite Z.shiftr_div_pow2, Z.gtb_ltb by lia. change (2 ^ 1) with 2.
    destruct (_ || _) eqn:Hcount; [by_exception Hp|]. zbool.
    cbn [count_fault]. rewrite size_holding by apply Hp.
    destruct (sl_registers s) as [l|] eqn:Hl; cbn [fmap option_fmap option_map]; [|by_exception Hp].
    unfold range_fault. rewrite fits_many by zlia.
    destruct (_ || (u32 _ >? _)) eqn:Hrange; [by_exception Hp|]. cbn [negb then_fault].
    apply range_ok in Hrange; [|zlia..].
    pose proof (pd_wf _ _ _ _ _ Hp) as (Hme & [Hc Hregs] & _ & Hmask & _).
    destruct (Hregs _ Hl) as [Hcl Hl16].
    rewrite protect_scan by (done || zlia). rewrite bind_Some, abs_reg_ro.
    destruct (existsb _ _); [by_exception Hp|]. cbn [protect_fault response_size].
    destruct (calloc_ok 8); cbn [negb]; [|by apply (alloc_answers _ _ _ _ _ Hp)].
    set (ws := words (Z.to_nat (word c1 c0)) d).
    assert (zlen ws = word c1 c0) as Hws by (unfold ws; rewrite words_length; zlia).
    replace (Z.to_nat (word c1 c0)) with (length ws) by lia.
    rewrite write_registers_loop; [|lia..|].
    2: { intros i Hi. unfold p_request_value16.
         apply (rd16_words [a; 16; i1; i0; c1; c0; zlen d]); [done | zlia | zlia]. }
    rewrite !bind_Some.
    unfold response_pdu. cbn [request_function execute]. rewrite !be16_word by done. cbn [app].
    fold ws.
    apply echo8_answers; [|lia|by apply store_load16..].
    constructor; try done; try apply Hp.
    + apply (abs_write_registers s l _ ws); [done | lia | lia].
    + apply (wf_write_registers s l _ ws); [apply Hp | done | by apply words_ok].
  - (* the length test passes by wrap-around *)
    destruct Hml as [-> Hml]. name_bytes. cbn [app length] in *. load_fields.
    rewrite Hml. clear Hml. unfold decode_multiple. rewrite Hw, Z.eqb_refl, orb_true_r.
    zfalse (zlen tail =? n + 2). cbn [negb].
    destruct (_ || (_ >? 123)) eqn:Hcount; [by_exception Hp|].
    zbool. rewrite Z.shiftr_div_pow2 in * by lia. zlia.
  - (* wrong length *)
    destruct Hml as [-> Hml]. name_bytes. cbn [app length] in *. load_fields.
    rewrite Hml. clear Hml. unfold decode_multiple.
    zfalse (7 + zlen tail =? 9 + n). zfalse (7 + zlen tail =? 9 + n - 256).
    zfalse (zlen tail =? n + 2). by_exception Hp.
Qed.

(** *** Reads *)

Definition regs_function (t : RegTable) : Z := match t with Holding => 3 | Inputs => 4 end.
Definition bits_function (t : BitTable) : Z := match t with Coils => 1 | Discretes => 2 end.

Lemma request_function_regs t i n : request_function (ReadRegs t i n) = regs_function t.
Proof. by destruct t. Qed.
Lemma request_function_bits t i n : request_function (ReadBits t i n) = bits_function t.
Proof. by destruct t. Qed.

Lemma decode_fixed_bad mk args :
  length args <> 6%nat -> decode_fixed mk args = DMalformed MODBUS_FERROR_LENGTH.
Proof. intros H. do 6 (destruct args as [|? args]; try done). by destruct args. Qed.

Lemma slice_in {A} i n k (l : list A) :
  0 <= i -> 0 <= n -> i + n <= k -> slice i n (take (Z.to_nat k) l) = slice i n l.
Proof.
  intros. unfold slice. rewrite skipn_firstn_comm, firstn_firstn. f_equal. lia.
Qed.

Lemma slice_ok i n l (P : Z -> Prop) : Forall P l -> Forall P (slice i n l).
Proof. intros. by apply Forall_take, Forall_drop. Qed.

(** The reply frame of a register read. *)
Lemma build_read_regs {R} addr fn l index count (k : list Z -> option R) :
  is_u8 addr -> is_u8 fn -> Forall (fun v => is_u16 v) l ->
  0 <= index -> 0 <= count <= 125 -> index + count <= zlen l ->
  (builder ← wr8 (zeros (5 + 2 * count)) 0 addr;
   builder ← wr8 builder 1 fn;
   builder ← wr8 builder 2 (2 * count);
   builder ← for_range (Z.to_nat count) 0
     (fun i builder =>
        r ← znth l (index + i); wr16 be builder (3 + 2 * i) (modbusMatchEndian be r)) builder;
   crc ← modbusCRC (Some builder) (3 + 2 * count);
   builder ← wr16 be builder (3 + 2 * count) crc; k builder)
  = k (adu be (addr :: fn :: 2 * count :: flat_map be16 (slice index count l))).
Proof.
  intros Ha Hf Hl Hi Hc Hr.
  replace (zeros (5 + 2 * count)) with ([] ++ 0 :: 0 :: 0 :: zeros (2 * count) ++ [0; 0]).
  2: { replace (5 + 2 * count) with (3 + (2 * count + 2)) by lia.
       by rewrite (zeros_split 3), (zeros_split (2 * count) 2) by lia. }
  assert (is_u8 (2 * count)) by lia.
  fill8 (@nil Z). fill8 [addr]. fill8 [addr; fn].
  set (vs := slice index count l).
  assert (zlen vs = count) as Hvs by (apply slice_length; lia).
  pose proof (fill_words be [addr; fn; 2 * count] vs (fun i => znth l (index + i)) [0; 0]) as Hloop.
  change (zlen [addr; fn; 2 * count]) with 3 in Hloop. rewrite Hvs in Hloop.
  replace (Z.to_nat count) with (length vs) by lia.
  cbn [app] in Hloop |- *. rewrite Hloop; [|by apply slice_ok|].
  2: { intros i Hir. unfold vs, znth. ztrue (0 <=? index + i). ztrue (0 <=? i).
       by rewrite slice_lookup by lia. }
  rewrite bind_Some. apply (seal_frame' be (addr :: fn :: 2 * count :: flat_map be16 vs) 0 0).
  - done.
  - pose proof (flat_map_be16_length vs). cbn [length]. lia.
Qed.

Lemma ParseRequest0304_answers s a t args rest :
  pending s a (regs_function t) args rest ->
  answers s (modbusParseRequest0304 be calloc_ok s (Some (a :: regs_function t :: args ++ rest)))
    (serves s a (regs_function t) args).
Proof.
  intros Hp. pose proof (frame_bytes _ _ _ _ _ Hp) as (Ha & Hf & Hargs & _).
  rewrite serve_frame_cons. unfold modbusParseRequest0304.
  replace (decode _) with (decode_fixed (ReadRegs t) args) by (by destruct t).
  replace (read_function (regs_function t)) with true by (by destruct t). rewrite andb_true_r.
  rewrite p_function_cons, bind_Some.
  replace (negb (regs_function t =? 3) && negb (regs_function t =? 4)) with false
    by (by destruct t).
  rewrite p_address_cons, bind_Some. rewrite (pd_len _ _ _ _ _ Hp).
  destruct (a =? 0) eqn:Hbc; [by apply (broadcast_answers _ _ _ _ _ Hp)|].
  destruct (decide (length args = 6%nat)) as [E|E].
  2: { rewrite decode_fixed_bad by done. ztrue (negb (2 + zlen args =? 8)). by_exception Hp. }
  destruct args as [|i1 [|i0 [|c1 [|c0 [|k1 [|k0 [|]]]]]]]; try done.
  zfalse (negb (2 + zlen [i1;i0;c1;c0;k1;k0] =? 8)). cbn [app decode_fixed]. name_bytes.
  load_fields. unfold serve_request. cbn [validate].
  rewrite request_function_regs.
  rewrite Z.gtb_ltb. destruct (_ || (125 <? _)) eqn:Hcount; [by_exception Hp|]. zbool.
  cbn [count_fault]. rewrite size_regs by apply Hp.
  replace (if regs_function t =? 3 then sl_registers s else sl_inputRegisters s)
    with (src_regs s t).1 by (by destruct t).
  replace (if regs_function t =? 3 then sl_registerCount s else sl_inputRegisterCount s)
    with (src_regs s t).2 by (by destruct t).
  pose proof (src_regs_wf s t (pd_wf _ _ _ _ _ Hp)) as [Hc Hregs].
  pose proof (abs_regs s t) as Habs.
  destruct (src_regs s t) as [src n]. cbn [fst snd] in *.
  unfold range_fault.
  destruct src as [l|]; cbn [fmap option_fmap option_map]; [|by_exception Hp].
  rewrite fits_many by lia.
  destruct (_ || (u32 _ >? _)) eqn:Hrange; [by_exception Hp|]. cbn [negb then_fault].
  apply range_ok in Hrange; [|lia..]. destruct (Hregs _ eq_refl) as [Hcl Hl16].
  rewrite Z.shiftl_mul_pow2 by lia. change (2 ^ 1) with 2.
  rewrite u8_id by lia. cbn [response_size]. rewrite (Z.mul_comm (word c1 c0) 2).
  destruct (calloc_ok _); cbn [negb]; [|by apply (alloc_answers _ _ _ _ _ Hp)].
  replace (5 + 2 * word c1 c0 - 2) with (3 + 2 * word c1 c0) by lia.
  pose proof (me_range _ _ _ _ _ Hp).
  rewrite build_read_regs by (done || lia).
  unfold response_pdu. cbn [execute]. rewrite Habs. cbn [fmap option_fmap option_map default].
  cbn [from_option id]. rewrite slice_in by lia.
  rewrite slice_length by lia.
  rewrite request_function_regs.
  destruct Hp. apply answers_intro; try done.
  apply sent_ready; [len | done |]. cbn [sl_response_length set_response set_parseError].
  rewrite adu_length. pose proof (flat_map_be16_length (slice (word i1 i0) (word c1 c0) l)) as Hfl.
  rewrite slice_length in Hfl by lia. cbn [length]. lia.
Qed.

(** ** slave/scoils.c *)

Lemma ParseRequest05_answers s a args rest :
  pending s a 5 args rest ->
  answers s (modbusParseRequest05 be calloc_ok s (Some (a :: 5 :: args ++ rest)))
    (serves s a 5 args).
Proof.
  intros Hp. pose proof (frame_bytes _ _ _ _ _ Hp) as (Ha & Hf & Hargs & _).
  rewrite serve_frame_cons, andb_false_r. unfold modbusParseRequest05.
  rewrite (pd_len _ _ _ _ _ Hp).
  destruct (decide (length args = 6%nat)) as [E|E]; [|by wrong_length 6 args Hp].
  destruct args as [|i1 [|i0 [|c1 [|c0 [|k1 [|k0 [|]]]]]]]; try done.
  zfalse (negb (2 + zlen [i1;i0;c1;c0;k1;k0] =? 8)). cbn [app]. name_bytes. load_fields.
  change (decode _) with (DRequest (WriteCoil (word i1 i0) (word c1 c0))).
  unfold serve_request. cbn [validate].
  destruct (negb (word c1 c0 =? 0) && _); [by_exception Hp|].
  rewrite size_coils by apply Hp.
  destruct (sl_coils s) as [l|] eqn:Hl; cbn [fmap option_fmap option_map]; [|by_exception Hp].
  unfold range_fault. rewrite (fits_one _ (sl_coilCount s)).
  destruct (word i1 i0 >=? sl_coilCount s) eqn:Hi; [by_exception Hp|].
  cbn [negb then_fault].
  pose proof (pd_wf _ _ _ _ _ Hp) as (Hme & _ & _ & _ & [Hc Hcoils] & _ & Hmask & _).
  destruct (mask_read_ro _ _ (word i1 i0) Hmask) as (r & -> & Hr); [lia|].
  rewrite bind_Some, Hr, abs_coil_ro.
  destruct (mask_ro _ _ _); [by_exception Hp|].
  cbn [protect_fault response_size].
  destruct (calloc_ok 8); cbn [negb]; [|by apply (alloc_answers _ _ _ _ _ Hp)].
  destruct (Hcoils _ Hl) as [Hcl Hlok]. zbool.
  change (sl_coilCount (set_response_frame s (Some (zeros 8)))) with (sl_coilCount s).
  rewrite modbusBitsToBytes_spec by lia.
  destruct (modbusMaskWrite_spec l ((sl_coilCount s + 7) `div` 8) (word i1 i0)
              (Z.b2z (word c1 c0 =? 0xFF00))) as (l' & -> & Hlen & Hok & Hbit); [done|lia|zlia|].
  rewrite !bind_Some. change (0 =? 255) with false. cbn match.
  unfold response_pdu. cbn [request_function execute]. rewrite !be16_word by done. cbn [app].
  apply echo8_answers; [|lia|by apply store_load16..].
  constructor; try done; try apply Hp.
  - apply (abs_write_coils s l l' _ [word c1 c0 =? 0xFF00]); [done | lia | cbn; lia |].
    intros j Hj. rewrite Hbit by lia. cbn [length]; change (Z.of_nat 1) with 1.
    case_bool_decide as Ej.
    + subst j. ztrue ((word i1 i0 <=? word i1 i0) && (word i1 i0 <? word i1 i0 + 1)).
      rewrite Z.sub_diag. by destruct (word c1 c0 =? 0xFF00).
    + by zfalse ((word i1 i0 <=? j) && (j <? word i1 i0 + 1)).
  - by apply (wf_write_coils s l l'); [apply Hp | ..].
Qed.

Lemma bit_at_app_l m m' i : 0 <= i < 8 * zlen m -> bit_at (m ++ m') i = bit_at m i.
Proof. intros. unfold bit_at. by rewrite znth_app_l by zlia. Qed.

(** The copy loop of a multiple coil write. *)
Lemma write_coils_loop (s1 : ModbusSlave) l d rest index n N :
  bytes_ok l -> bytes_ok d -> 0 <= index -> 0 <= n -> index + n <= N -> is_u16 N ->
  (N + 7) `div` 8 <= zlen l -> n <= 8 * zlen d ->
  exists l',
    for_ret (Z.to_nat n) 0
      (fun i coils =>
         coil ← modbusMaskRead (Some (d ++ rest)) (zlen d) i;
         return_if coil =? 255
           with Some (inr (MODBUS_ERROR_OTHER, set_coils s1 coils)) ;;
         '(e, coils) ← modbusMaskWrite coils ((N + 7) `div` 8) (u16 (index + i)) coil;
         return_if e =? 255 with Some (inr (MODBUS_ERROR_OTHER, set_coils s1 coils)) ;;
         Some (inl coils)) l
    = Some (inl l')
    /\ length l' = length l /\ bytes_ok l'
    /\ forall j, 0 <= j ->
         bit_at l' j = if (index <=? j) && (j <? index + n) then bit_at d (j - index)
                       else bit_at l j.
Proof.
  intros Hl Hd Hi Hn Hr HN HNl Hnd.
  match goal with |- context [for_ret _ _ ?body _] =>
    destruct (for_ret_inv
      (fun i l' => length l' = length l /\ bytes_ok l' /\ forall j, 0 <= j ->
         bit_at l' j = if (index <=? j) && (j <? index + i) then bit_at d (j - index)
                       else bit_at l j)
      body (Z.to_nat n) 0 l) as (l' & -> & Hlen & Hok & Hbit)
  end.
  - intros i m Hir (Hlen & Hok & Hbit). cbn beta.
    rewrite modbusMaskRead_spec by (rewrite ?length_app; lia). rewrite bind_Some.
    rewrite bit_at_app_l by lia.
    replace (Z.b2z (bit_at d i) =? 255) with false by (by destruct (bit_at d i)).
    rewrite u16_id by lia.
    destruct (modbusMaskWrite_spec m ((N + 7) `div` 8) (index + i) (Z.b2z (bit_at d i)))
      as (m' & -> & Hlen' & Hok' & Hbit'); [done | lia | zlia |].
    rewrite bind_Some. change (0 =? 255) with false. cbn match.
    eexists. split; [done|]. split; [lia|]. split; [done|].
    intros j Hj. rewrite Hbit', Hbit by done. case_bool_decide as Ej.
    + subst j. ztrue ((index <=? index + i) && (index + i <? index + (i + 1))).
      replace (index + i - index) with i by lia. by destruct (bit_at d i).
    + replace (j <? index + (i + 1)) with (j <? index + i); [done|].
      repeat zcase; lia || done.
  - split; [done|]. split; [done|]. intros j Hj.
    by zfalse ((index <=? j) && (j <? index + 0)).
  - exists l'. split; [done|]. split; [done|]. split; [done|].
    by replace n with (0 + Z.of_nat (Z.to_nat n)) by lia.
Qed.

Lemma bits_of_znth n m i : 0 <= i < n -> znth (bits_of n m) i = Some (bit_at m i).
Proof. intros. unfold znth. ztrue (0 <=? i). by apply bits_of_lookup. Qed.

Lemma ParseRequest15_answers s a args rest :
  pending s a 15 args rest ->
  answers s (modbusParseRequest15 be calloc_ok s (Some (a :: 15 :: args ++ rest)))
    (serves s a 15 args).
Proof.
  intros Hp. pose proof (frame_bytes _ _ _ _ _ Hp) as (Ha & Hf & Hargs & Hshort).
  pose proof (multiple_length _ _ _ _ _ Hp) as Hml.
  rewrite serve_frame_cons, andb_false_r. unfold modbusParseRequest15.
  rewrite (pd_len _ _ _ _ _ Hp). change (decode _) with (decode_multiple WriteCoils args).
  destruct (multiple_cases _ Hargs)
    as [args Hs|i1 i0 c1 c0 d k1 k0|i1 i0 c1 c0 n tail Hn Hw|i1 i0 c1 c0 n tail H1 H2].
  - ztrue (negb (2 + zlen args >=? 7)).
    replace (decode_multiple WriteCoils args) with (DMalformed MODBUS_FERROR_LENGTH); [by_exception Hp|].
    do 5 (destruct args as [|? args]; try done). cbn in Hs. lia.
  - destruct Hml as [-> Hml]. cbn [app]. name_bytes. apply Forall_app in Hargs as [Hd _].
    rewrite <- app_assoc. cbn [app length] in *. load_fields.
    assert (zlen (d ++ [k1; k0]) = zlen d + 2) as Hdk by len.
    rewrite Hml. clear Hml. unfold decode_multiple. cbn [length]. rewrite Hdk, Z.eqb_refl.
    ztrue (7 + (zlen d + 2) =? 9 + zlen d). cbn [orb negb]. rewrite Nat2Z.id, take_app_length.
    unfold serve_request. cbn [validate].
    rewrite (modbusBitsToBytes_spec (word c1 c0)), Z.gtb_ltb by lia.
    destruct (_ || _) eqn:Hcount; [by_exception Hp|]. zbool.
    cbn [count_fault]. rewrite size_coils by apply Hp.
    destruct (sl_coils s) as [l|] eqn:Hl; cbn [fmap option_fmap option_map]; [|by_exception Hp].
    unfold range_fault. rewrite fits_many by zlia.
    destruct (_ || (u32 _ >? _)) eqn:Hrange; [by_exception Hp|]. cbn [negb then_fault].
    apply range_ok in Hrange; [|zlia..].
    pose proof (pd_wf _ _ _ _ _ Hp) as (Hme & _ & _ & _ & [Hc Hcoils] & _ & Hmask & _).
    destruct (Hcoils _ Hl) as [Hcl Hlok].
    rewrite protect_scan by (done || zlia). rewrite bind_Some, abs_coil_ro.
    destruct (existsb _ _); [by_exception Hp|]. cbn [protect_fault response_size].
    destruct (calloc_ok 8); cbn [negb]; [|by apply (alloc_answers _ _ _ _ _ Hp)].
    change (sl_coilCount (set_response_frame s (Some (zeros 8)))) with (sl_coilCount s).
    rewrite modbusBitsToBytes_spec by lia.
    change (drop 7 _) with (d ++ k1 :: k0 :: rest).
    destruct (write_coils_loop (set_response_frame s (Some (zeros 8))) l d (k1 :: k0 :: rest)
                (word i1 i0) (word c1 c0) (sl_coilCount s))
      as (l' & -> & Hlen & Hok & Hbit); [done | done | zlia..|].
    rewrite !bind_Some.
    unfold response_pdu. cbn [request_function execute]. rewrite !be16_word by done. cbn [app].
    apply echo8_answers; [|lia|by apply store_load16..].
    constructor; try done; try apply Hp.
    + apply (abs_write_coils s l l' _ (bits_of (word c1 c0) d)); [done | lia | len |].
      intros j Hj. rewrite Hbit by lia. autorewrite with bblen. rewrite Z2Nat.id by lia.
      case_if; [|done]. zbool. by rewrite bits_of_znth by lia.
    + by apply (wf_write_coils s l l'); [apply Hp | ..].
  - destruct Hml as [-> Hml]. name_bytes. cbn [app length] in *. load_fields.
    rewrite Hml. clear Hml. unfold decode_multiple. rewrite Hw, Z.eqb_refl, orb_true_r.
    zfalse (zlen tail =? n + 2). cbn [negb].
    destruct (_ || (_ >? 1968)) eqn:Hcount; [by_exception Hp|].
    zbool. rewrite modbusBitsToBytes_spec in * by lia. zlia.
  - destruct Hml as [-> Hml]. name_bytes. cbn [app length] in *. load_fields.
    rewrite Hml. clear Hml. unfold decode_multiple.
    zfalse (7 + zlen tail =? 9 + n). zfalse (7 + zlen tail =? 9 + n - 256).
    zfalse (zlen tail =? n + 2). by_exception Hp.
Qed.

(** *** Bit reads *)

Lemma modbusMaskWrite_app m r L bit v m' :
  L <= zlen m -> 0 <= bit < 8 * L ->
  modbusMaskWrite m L bit v = Some (0, m') ->
  modbusMaskWrite (m ++ r) L bit v = Some (0, m' ++ r).
Proof.
  intros HL Hbit. unfold modbusMaskWrite. rewrite shiftr3. zfalse (bit `div` 8 >=? L).
  unfold rd8. rewrite znth_app_l by zlia.
  destruct (znth m (bit `div` 8)) as [b|]; [|done]. rewrite !bind_Some.
  unfold wr8. rewrite zset_app_l, zset_Some by zlia. rewrite !bind_Some. by intros [= <-].
Qed.

(** The loop that packs the requested bits into the reply. *)
Lemma pack_loop (st : ModbusSlave) src index n N hd :
  bytes_ok src -> (N + 7) `div` 8 <= zlen src ->
  0 <= index -> 0 < n <= 2000 -> index + n <= N -> is_u16 N ->
  length hd = 2%nat ->
  for_ret (Z.to_nat n) 0
    (fun i builder =>
       coil ← modbusMaskRead (Some src) ((N + 7) `div` 8) (u16 (i + index));
       return_if coil =? 255
         with Some (inr (MODBUS_ERROR_OTHER, set_response_frame st (Some builder))) ;;
       length ← p_response_length builder;
       '(e, values) ← modbusMaskWrite (drop 3 builder) length i coil;
       let builder := take 3 builder ++ values in
       return_if e =? 255
         with Some (inr (MODBUS_ERROR_OTHER, set_response_frame st (Some builder))) ;;
       Some (inl builder))
    ((hd ++ [(n + 7) `div` 8]) ++ zeros ((n + 7) `div` 8) ++ [0; 0])
  = Some (inl ((hd ++ [(n + 7) `div` 8]) ++ pack_bits (slice index n (bits_of N src)) ++ [0; 0])).
Proof.
  intros Hsrc HN Hi Hn Hr HN16 Hhd. set (L := (n + 7) `div` 8).
  assert (n <= 8 * L < n + 8) as HL by (unfold L; zlia).
  destruct hd as [|h0 [|h1 [|]]]; try done. cbn [app].
  match goal with |- context [for_ret _ _ ?body _] =>
    destruct (for_ret_inv
      (fun i b => exists vals, b = h0 :: h1 :: L :: vals ++ [0; 0]
         /\ zlen vals = L /\ bytes_ok vals
         /\ forall j, 0 <= j -> bit_at vals j = (j <? i) && bit_at src (index + j))
      body (Z.to_nat n) 0 (h0 :: h1 :: L :: zeros L ++ [0; 0]))
      as (b & -> & vals & -> & Hlen & Hok & Hbit)
  end.
  - intros i b Hir (vals & -> & Hlen & Hok & Hbit).
    rewrite u16_id by lia. rewrite modbusMaskRead_spec by zlia. rewrite bind_Some.
    replace (Z.b2z (bit_at src (i + index)) =? 255) with false
      by (by destruct (bit_at src (i + index))).
    change (p_response_length _) with (Some L). rewrite bind_Some.
    change (drop 3 _) with (vals ++ [0; 0]). cbn [take].
    destruct (modbusMaskWrite_spec vals L i (Z.b2z (bit_at src (i + index))))
      as (vals' & Hw & Hlen' & Hok' & Hbit'); [done | lia | lia |].
    rewrite (modbusMaskWrite_app _ _ _ _ _ vals') by (done || lia).
    rewrite bind_Some. change (0 =? 255) with false. cbn match. eexists. split; [done|].
    exists vals'. split; [done|]. split; [lia|]. split; [done|].
    intros j Hj. rewrite Hbit', Hbit by done. case_bool_decide as Ej.
    + subst j. ztrue (i <? i + 1). rewrite (Z.add_comm index i).
      by destruct (bit_at src (i + index)).
    + f_equal. repeat zcase; lia || done.
  - exists (zeros L). split; [done|]. split; [apply zeros_len; lia|]. split; [apply zeros_ok|].
    intros j Hj. zfalse (j <? 0). cbn [andb]. unfold bit_at.
    destruct (znth (zeros L) (j `div` 8)) as [x|] eqn:E; [|done].
    apply znth_Some in E as [_ E]. apply lookup_replicate in E as [-> _]. apply Z.testbit_0_l.
  - do 5 f_equal. f_equal.
    assert (zlen (slice index n (bits_of N src)) = n) as Hs by (apply slice_length; rewrite ?bits_of_length; lia).
    apply pack_bits_unique; [done | by rewrite Hs |]. intros j Hj. rewrite Hbit by lia.
    destruct (Z.ltb_spec j (0 + Z.of_nat (Z.to_nat n))) as [H|H]; cbn [andb].
    + rewrite slice_lookup by lia. by rewrite bits_of_lookup by lia.
    + by rewrite lookup_ge_None_2 by lia.
Qed.

Lemma ParseRequest0102_answers s a t args rest :
  pending s a (bits_function t) args rest ->
  answers s (modbusParseRequest0102 be calloc_ok s (Some (a :: bits_function t :: args ++ rest)))
    (serves s a (bits_function t) args).
Proof.
  intros Hp. pose proof (frame_bytes _ _ _ _ _ Hp) as (Ha & Hf & Hargs & _).
  rewrite serve_frame_cons. unfold modbusParseRequest0102.
  replace (decode _) with (decode_fixed (ReadBits t) args) by (by destruct t).
  replace (read_function (bits_function t)) with true by (by destruct t). rewrite andb_true_r.
  rewrite p_function_cons, bind_Some.
  replace (negb (bits_function t =? 1) && negb (bits_function t =? 2)) with false
    by (by destruct t).
  rewrite p_address_cons, bind_Some. rewrite (pd_len _ _ _ _ _ Hp).
  destruct (a =? 0) eqn:Hbc; [by apply (broadcast_answers _ _ _ _ _ Hp)|].
  destruct (decide (length args = 6%nat)) as [E|E].
  2: { rewrite decode_fixed_bad by done. ztrue (negb (2 + zlen args =? 8)). by_exception Hp. }
  destruct args as [|i1 [|i0 [|c1 [|c0 [|k1 [|k0 [|]]]]]]]; try done.
  zfalse (negb (2 + zlen [i1;i0;c1;c0;k1;k0] =? 8)). cbn [app decode_fixed]. name_bytes.
  load_fields. unfold serve_request. cbn [validate]. rewrite request_function_bits.
  rewrite Z.gtb_ltb. destruct (_ || (2000 <? _)) eqn:Hcount; [by_exception Hp|]. zbool.
  cbn [count_fault]. rewrite size_bits by apply Hp.
  replace (if bits_function t =? 1 then sl_coils s else sl_discreteInputs s)
    with (src_bits s t).1 by (by destruct t).
  replace (if bits_function t =? 1 then sl_coilCount s else sl_discreteInputCount s)
    with (src_bits s t).2 by (by destruct t).
  pose proof (src_bits_wf s t (pd_wf _ _ _ _ _ Hp)) as [Hc Hbits].
  pose proof (abs_bits s t) as Habs.
  destruct (src_bits s t) as [src n]. cbn [fst snd] in *. unfold range_fault.
  destruct src as [l|]; cbn [fmap option_fmap option_map]; [|by_exception Hp].
  rewrite bool_decide_eq_false_2 by done.
  rewrite fits_many by lia.
  destruct (_ || (u32 _ >? _)) eqn:Hrange; [by_exception Hp|]. cbn [negb then_fault].
  apply range_ok in Hrange; [|lia..]. destruct (Hbits _ eq_refl) as [Hcl Hlok].
  rewrite !modbusBitsToBytes_spec by lia. rewrite u8_id by zlia. cbn [response_size].
  destruct (calloc_ok _); cbn [negb]; [|by apply (alloc_answers _ _ _ _ _ Hp)].
  set (c := word c1 c0) in *. set (L := (c + 7) `div` 8).
  assert (0 < L <= 250) as HL by (unfold L; zlia).
  replace (zeros (5 + L)) with ([] ++ 0 :: 0 :: 0 :: zeros L ++ [0; 0]).
  2: { replace (5 + L) with (3 + (L + 2)) by lia.
       by rewrite (zeros_split 3), (zeros_split L 2) by lia. }
  pose proof (me_range _ _ _ _ _ Hp). assert (is_u8 (sl_address s)) by lia.
  assert (is_u8 L) by lia.
  fill8 (@nil Z). fill8 [sl_address s]. fill8 [sl_address s; bits_function t].
  pose proof (pack_loop s l (word i1 i0) c n [sl_address s; bits_function t]) as Hloop.
  cbn [app] in Hloop |- *. fold L in Hloop. rewrite Hloop by (done || lia). clear Hloop.
  rewrite bind_Some.
  set (vs := pack_bits (slice (word i1 i0) c (bits_of n l))).
  assert (zlen vs = L) as Hvs.
  { unfold vs. rewrite pack_bits_length, slice_length by (rewrite ?bits_of_length; lia). done. }
  rewrite (seal_frame' be (sl_address s :: bits_function t :: L :: vs) 0 0);
    [|done | cbn [length]; lia].
  unfold response_pdu. cbn [execute]. rewrite Habs. cbn [fmap option_fmap option_map].
  cbn [default from_option id]. fold vs. rewrite Hvs. rewrite request_function_bits.
  destruct Hp. apply answers_intro; try done.
  apply sent_ready; [len | done |]. cbn [sl_response_length set_response set_parseError].
  rewrite adu_length. cbn [length]. lia.
Qed.
End handlers.
