(* ===== verification/ModbusSession.v ===== *)
(** * Modbus slave: the whole request parser and sessions

    [modbusParseRequest] on an arbitrary buffer refines [serve]; a session of
    many frames refines the abstract server run on the same frames.  The
    consequences a user of the library relies on follow from the server:
    write protection, rejection of corrupted frames, addressing. *)

From S2P Require Import Prelude CMem Crc ModbusCommon ModbusFrame ModbusSlave ModbusSpec.
From S2P Require Import ModbusSlaveCorrect.

(** ** The checksum test *)

Lemma crc_test be F n :
  bytes_ok F -> 2 <= n <= zlen F ->
  exists w, rd16 be F (n - 2) = Some w
    /\ (w =? modbusSwapEndian (crc16_of 0xFFFF (take (Z.to_nat (n - 2)) F)))
       = crc_valid be (take (Z.to_nat n) F).
Proof.
  intros HF Hn.
  assert (exists body x y r, F = body ++ x :: y :: r /\ zlen body = n - 2)
    as (body & x & y & r & -> & Hk).
  { exists (take (Z.to_nat (n - 2)) F).
    destruct (drop (Z.to_nat (n - 2)) F) as [|x [|y r]] eqn:Ed;
      apply (f_equal length) in Ed as Hl; rewrite length_drop in Hl; cbn in Hl; try lia.
    exists x, y, r. rewrite <- Ed, take_drop. split; [done|len]. }
  apply Forall_app in HF as [Hb Hr]. inversion_clear Hr as [|? ? Hx Hr'].
  inversion_clear Hr' as [|? ? Hy _].
  exists (load16 be x y). split.
  - unfold rd16, rd8. rewrite <- Hk. rewrite !znth_app_r by lia.
    by replace (zlen body + 1 - zlen body) with 1 by lia; rewrite Z.sub_diag.
  - replace (Z.to_nat (n - 2)) with (length body) by lia. rewrite take_app_length.
    replace (Z.to_nat n) with (length body + 2)%nat by lia.
    rewrite take_app_add. change (take 2 (x :: y :: r)) with [x; y].
    unfold crc_valid. rewrite length_app. cbn [length].
    replace (length body + 2 - 2)%nat with (length body) by lia.
    rewrite drop_app_length, take_app_length. unfold crc_bytes.
    set (v := modbusSwapEndian _).
    assert (is_u16 v) as Hv by apply modbusSwapEndian_range.
    pose proof (load_store16 be v Hv) as Hls.
    apply eq_bool_prop_intro. rewrite !Is_true_true, Z.eqb_eq, bool_decide_eq_true.
    split; [intros <-; by rewrite store_load16|]. intros E. by rewrite <- E in Hls.
Qed.

(** ** One request *)

Section request.
Context (be : bool) (calloc_ok : Z -> bool).
Context (userFunctions : list (Z * option (ModbusSlave -> list Z -> SlaveResult))).

Abbreviation parse := (modbusParseRequest be calloc_ok userFunctions).
Abbreviation frame_of s := (take (Z.to_nat (sl_request_length s)) <$> sl_request_frame s).

Lemma builtin_answers s a fn args rest :
  pending s a fn args rest ->
  answers s
    (match modbusParseRequest_builtin be calloc_ok s (a :: fn :: args ++ rest) fn with
     | Some r => r
     | None => modbusBuildExceptionErr be calloc_ok s fn MODBUS_EXCEP_ILLEGAL_FUNCTION
                 MODBUS_FERROR_NOFUN
     end)
    (serve_frame be calloc_ok (sl_address s) (abs s) (a :: fn :: args)).
Proof.
  intros Hp. unfold modbusParseRequest_builtin.
  destruct (Z.eqb_spec fn 1) as [->|H1]; [by apply (ParseRequest0102_answers _ _ _ _ Coils)|].
  destruct (Z.eqb_spec fn 2) as [->|H2]; [by apply (ParseRequest0102_answers _ _ _ _ Discretes)|].
  destruct (Z.eqb_spec fn 3) as [->|H3]; [by apply (ParseRequest0304_answers _ _ _ _ Holding)|].
  destruct (Z.eqb_spec fn 4) as [->|H4]; [by apply (ParseRequest0304_answers _ _ _ _ Inputs)|].
  destruct (Z.eqb_spec fn 5) as [->|H5]; [by apply ParseRequest05_answers|].
  destruct (Z.eqb_spec fn 6) as [->|H6]; [by apply ParseRequest06_answers|].
  destruct (Z.eqb_spec fn 15) as [->|H15]; [by apply ParseRequest15_answers|].
  destruct (Z.eqb_spec fn 16) as [->|H16]; [by apply ParseRequest16_answers|].
  destruct (Z.eqb_spec fn 22) as [->|H22]; [by apply ParseRequest22_answers|].
  cbn [orb]. rewrite serve_frame_cons.
  replace (read_function fn) with false by (unfold read_function; repeat zcase; lia || done).
  rewrite andb_false_r. unfold decode.
  rewrite (proj2 (Z.eqb_neq _ _) H1), (proj2 (Z.eqb_neq _ _) H2), (proj2 (Z.eqb_neq _ _) H3),
    (proj2 (Z.eqb_neq _ _) H4), (proj2 (Z.eqb_neq _ _) H5), (proj2 (Z.eqb_neq _ _) H6),
    (proj2 (Z.eqb_neq _ _) H15), (proj2 (Z.eqb_neq _ _) H16), (proj2 (Z.eqb_neq _ _) H22).
  by apply (exception_answers _ _ _ _ _ _ _ Hp).
Qed.

Lemma rd8_at l m b r i : m = l ++ b :: r -> i = zlen l -> rd8 m i = Some b.
Proof. intros -> ->. unfold rd8. rewrite znth_app_r by lia. by rewrite Z.sub_diag. Qed.

Lemma parse_answers s :
  slave_wf s -> (forall fn, find_userFunction userFunctions fn = None) ->
  answers s (parse s) (serve be calloc_ok (sl_address s) (abs s) (frame_of s)).
Proof.
  intros Hwf Huser. unfold modbusParseRequest. cbv zeta.
  set (s1 := set_parseError (set_response s None 0) MODBUS_FERROR_OK).
  change (slave_wf s1) in Hwf. change (sl_address s) with (sl_address s1).
  change (abs s) with (abs s1). change (frame_of s) with (frame_of s1).
  match goal with |- answers s ?r ?sp => change (answers s1 r sp) end.
  pose proof Hwf as (Hme & _ & _ & _ & _ & _ & _ & [Hlen Hframe]).
  destruct (sl_request_frame s1) as [F|] eqn:HF.
  2: { cbn [fmap option_fmap option_map serve]. case_if; by apply answers_intro. }
  destruct (Hframe _ eq_refl) as [HnF HFok]. cbn [fmap option_fmap option_map serve].
  rewrite length_take.
  replace (Z.of_nat (Z.to_nat (sl_request_length s1) `min` length F))
    with (sl_request_length s1) by lia.
  destruct (Z.ltb_spec (sl_request_length s1) 4) as [H4|H4]; [by apply answers_intro|].
  destruct (crc_test be F (sl_request_length s1)) as (w & -> & Hcrc); [done | lia |].
  rewrite bind_Some, modbusCRC_spec, bind_Some, Hcrc by lia.
  destruct (crc_valid be _); cbn [negb]; [|by apply answers_intro].
  destruct F as [|a [|fn t]]; try (cbn [length] in HnF; lia).
  rewrite p_address_cons, bind_Some.
  change (default 0 (take _ _ !! 0%nat)) with
    (default 0 (take (Z.to_nat (sl_request_length s1)) (a :: fn :: t) !! 0%nat)).
  set (n := (Z.to_nat (sl_request_length s1) - 2)%nat).
  replace (Z.to_nat (sl_request_length s1)) with (S (S n)) by lia. cbn [take].
  change (default 0 ((a :: fn :: take n t) !! 0%nat)) with a.
  destruct (negb (a =? sl_address s1) && negb (a =? 0)) eqn:Ha; [by apply answers_intro|].
  rewrite p_function_cons, bind_Some, Huser.
  rewrite <- (take_drop n t) at 1. apply builtin_answers. constructor; try done.
  - by rewrite take_drop.
  - cbn [length] in HnF. rewrite length_take. lia.
  - destruct (Z.eqb_spec a (sl_address s1)); [by left|].
    destruct (Z.eqb_spec a 0); [by right | done].
Qed.
End request.

(** ** Write protection, on the server *)

Section protection.
Context (be : bool) (calloc_ok : Z -> bool) (me : Z).

Lemma inserts_protected {A} (ro : Z -> bool) (l vs : list A) i n k :
  0 <= i -> zlen vs = n -> (forall j, 0 <= j < n -> ro (i + j) = false) -> ro k = true ->
  znth (list_inserts (Z.to_nat i) vs l) k = znth l k.
Proof.
  intros Hi Hn Hro Hk. rewrite znth_inserts by done. case_if; [|done]. zbool.
  specialize (Hro (k - i) ltac:(lia)). replace (i + (k - i)) with k in Hro by lia. congruence.
Qed.

Lemma existsb_seqZ_false p n :
  existsb p (seqZ 0 n) = false -> forall j, 0 <= j < n -> p j = false.
Proof.
  intros H j Hj. apply not_true_iff_false. intros Hp. apply not_true_iff_false in H. apply H.
  apply existsb_exists. exists j. split; [|done]. apply list_elem_of_In, elem_of_seqZ. lia.
Qed.

(** The cells a request may write, and with how many values. *)
Definition request_wf (r : Request) : Prop :=
  match r with
  | ReadBits _ i n | ReadRegs _ i n | WriteCoil i n | WriteReg i n => is_u16 i /\ is_u16 n
  | WriteCoils i n d | WriteRegs i n d => is_u16 i /\ is_u16 n /\ bytes_ok d /\ zlen d < 256
  | MaskWrite i a o => is_u16 i /\ is_u16 a /\ is_u16 o
  end.

Lemma then_fault_None f g : then_fault f g = None -> f = None /\ g = None.
Proof. by destruct f. Qed.

Lemma protect_fault_None b : protect_fault b = None -> b = false.
Proof. by destruct b. Qed.

Lemma count_fault_None b k : count_fault b k = None -> b = false /\ k = None.
Proof. by destruct b. Qed.

Lemma execute_protects_regs st r k :
  request_wf r -> validate st r = None -> st_reg_ro st k = true ->
  (fun l => znth l k) <$> st_holding (execute st r) = (fun l => znth l k) <$> st_holding st.
Proof.
  intros Hr Hv Hk. destruct r as [| |i v|i v|i n d|i n d|i a o]; 
    unfold validate in Hv; cbn [execute put_regs put_coils st_holding]; try done;
    destruct (st_holding st) as [l|]; cbn [fmap option_fmap option_map default from_option id] in *;
    try done; f_equal; cbn [request_wf] in Hr.
  - apply then_fault_None in Hv as [_ Hv%protect_fault_None].
    apply (inserts_protected (st_reg_ro st) l [v] i 1); [lia | done | | done].
    intros j Hj. by replace (i + j) with i by lia.
  - apply count_fault_None in Hv as [Hc Hv]. apply then_fault_None in Hv as [_ Hv].
    apply protect_fault_None in Hv. zbool.
    apply (inserts_protected (st_reg_ro st) l _ i n); [lia | | | done].
    + rewrite words_length by zlia. lia.
    + by apply existsb_seqZ_false.
  - apply then_fault_None in Hv as [Hr' Hv%protect_fault_None].
    apply (inserts_protected (st_reg_ro st) l _ i 1); [lia | | | done].
    + rewrite length_fmap. unfold range_fault in Hr'.
      destruct (Z.leb_spec (i + 1) (zlen l)); [|done]. apply slice_length; lia.
    + intros j Hj. by replace (i + j) with i by lia.
Qed.

Lemma execute_protects_coils st r k :
  request_wf r -> validate st r = None -> st_coil_ro st k = true ->
  (fun l => znth l k) <$> st_coils (execute st r) = (fun l => znth l k) <$> st_coils st.
Proof.
  intros Hr Hv Hk. destruct r as [| |i v|i v|i n d|i n d|i a o]; 
    unfold validate in Hv; cbn [execute put_regs put_coils st_coils]; try done;
    destruct (st_coils st) as [l|]; cbn [fmap option_fmap option_map default from_option id] in *;
    try done; f_equal; cbn [request_wf] in Hr.
  - destruct (negb _ && _); [done|].
    apply then_fault_None in Hv as [_ Hv%protect_fault_None].
    apply (inserts_protected (st_coil_ro st) l [v =? 0xFF00] i 1); [lia | done | | done].
    intros j Hj. by replace (i + j) with i by lia.
  - apply count_fault_None in Hv as [Hc Hv]. apply then_fault_None in Hv as [_ Hv].
    apply protect_fault_None in Hv. zbool.
    apply (inserts_protected (st_coil_ro st) l _ i n); [lia | len | | done].
    by apply existsb_seqZ_false.
Qed.

(** What [decode] accepts is well formed. *)
Lemma decode_wf f r : bytes_ok f -> decode f = DRequest r -> request_wf r.
Proof.
  intros Hf. unfold decode. destruct f as [|a [|fn args]]; try done. name_bytes.
  assert (forall mk, (forall i c, is_u16 i -> is_u16 c -> request_wf (mk i c)) ->
            decode_fixed mk args = DRequest r -> request_wf r) as Hfix.
  { intros mk Hmk. destruct args as [|i1 [|i0 [|c1 [|c0 [|k1 [|k0 [|]]]]]]]; try done.
    cbn. intros [= <-]. name_bytes. apply Hmk; lia. }
  assert (forall mk, (forall i c d, is_u16 i -> is_u16 c -> bytes_ok d -> zlen d < 256 ->
                        request_wf (mk i c d)) ->
            decode_multiple mk args = DRequest r -> request_wf r) as Hmul.
  { intros mk Hmk. destruct args as [|i1 [|i0 [|c1 [|c0 [|n rest]]]]]; try done.
    cbn. name_bytes. repeat case_if; intros [= <-]. zbool.
    apply Hmk; try lia; [by apply Forall_take | len]. }
  repeat case_if; try (apply Hfix; by cbn); try (apply Hmul; by cbn); try done.
  destruct args as [|i1 [|i0 [|a1 [|a0 [|o1 [|o0 [|k1 [|k0 [|]]]]]]]]]; try done.
  intros [= <-]. name_bytes. cbn. lia.
Qed.

(** The server changes its store only by executing a validated request. *)
Lemma serve_store st frame :
  (forall f, frame = Some f -> bytes_ok f) ->
  (serve be calloc_ok me st frame).2 = st
  \/ exists r, request_wf r /\ validate st r = None
       /\ (serve be calloc_ok me st frame).2 = execute st r.
Proof.
  intros Hok. unfold serve. destruct frame as [f|]; [|by left].
  specialize (Hok f eq_refl).
  repeat (case_if; [by left|]). unfold serve_frame. case_if; [by left|].
  destruct (decode f) as [r| |] eqn:Hd; [|by left..].
  unfold serve_request. destruct (validate st r) as [[]|] eqn:Hv; [by left|].
  case_if; [right | by left]. exists r. split; [|done]. by eapply decode_wf.
Qed.
End protection.

(** ** Sessions *)

(** What a call shows: return value, [parseError], frame to send. *)
Abbreviation Shown := (ModbusError * ModbusFrameError * option (list Z))%type.

Section session.
Context (be : bool) (calloc_ok : Z -> bool).

(** The application stores a received frame in [status->request] and calls the
    parser. *)
Definition deliver (s : ModbusSlave) (frame : list Z) : ModbusSlave :=
  set_request s (Some frame) (zlen frame).

Fixpoint slave_session (s : ModbusSlave) (frames : list (list Z))
    : option (list Shown * ModbusSlave) :=
  match frames with
  | [] => Some ([], s)
  | f :: frames =>
      '(e, s) ← modbusParseRequest be calloc_ok [] (deliver s f);
      '(out, s') ← slave_session s frames;
      Some ((e, sl_parseError s, sent_frame s) :: out, s')
  end.

Fixpoint serve_session (me : Z) (st : Store) (frames : list (list Z)) : list Shown * Store :=
  match frames with
  | [] => ([], st)
  | f :: frames =>
      let '(rp, st) := serve be calloc_ok me st (Some f) in
      let '(out, st') := serve_session me st frames in
      ((rp_error rp, rp_ferror rp, rp_frame rp) :: out, st')
  end.

Lemma deliver_wf s f : slave_wf s -> bytes_ok f -> zlen f < 256 -> slave_wf (deliver s f).
Proof.
  intros (H1 & H2 & H3 & H4 & H5 & H6 & H7 & _) Hf Hlen.
  refine (conj H1 (conj H2 (conj H3 (conj H4 (conj H5 (conj H6 (conj H7 _))))))).
  split; [cbn; lia|]. intros l [= <-]. split; [cbn; lia | done].
Qed.

Lemma session_answers s frames :
  slave_wf s -> Forall (fun f => bytes_ok f /\ zlen f < 256) frames ->
  exists s', slave_session s frames
             = Some ((serve_session (sl_address s) (abs s) frames).1, s')
    /\ abs s' = (serve_session (sl_address s) (abs s) frames).2 /\ slave_wf s'.
Proof.
  intros Hwf Hfs. revert s Hwf. induction Hfs as [|f frames [Hf Hlen] _ IH]; intros s Hwf.
  { by exists s. }
  destruct (parse_answers be calloc_ok [] (deliver s f))
    as (s1 & Hrun & Hpe & _ & Hsent & Habs & Hwf1 & Hme & _); [by apply deliver_wf | done |].
  cbn [slave_session serve_session]. rewrite Hrun, bind_Some.
  change (sl_request_frame (deliver s f)) with (Some f) in *.
  change (sl_request_length (deliver s f)) with (zlen f) in *.
  change (sl_address (deliver s f)) with (sl_address s) in *.
  change (abs (deliver s f)) with (abs s) in *.
  cbn [fmap option_fmap option_map] in *. rewrite Nat2Z.id, firstn_all in *.
  destruct (serve be calloc_ok (sl_address s) (abs s) (Some f)) as [rp st] eqn:Hserve.
  cbn [fst snd] in *. destruct (IH s1 Hwf1) as (s' & Hs' & Habs' & Hwf').
  rewrite Hs', bind_Some. rewrite Hme, Habs in *.
  destruct (serve_session _ st frames) as [out st']. cbn [fst snd] in *.
  exists s'. by rewrite Hpe, Hsent.
Qed.
End session.

(** ** Initialisation *)

(** The tables the application configured: a table counts only if it has cells. *)
Definition configured (count : Z) (table : option (list Z)) : option (list Z) :=
  if count =? 0 then None else table.

Lemma init_table_spec count table :
  init_table count table
  = (if bool_decide (configured count table = None) then 0 else count, configured count table).
Proof.
  unfold init_table, configured. destruct (count =? 0); cbn [orb]; [done|].
  by destruct table.
Qed.

Lemma configured_regs_wf t count :
  regs_wf t count -> regs_wf (configured count t)
                       (if bool_decide (configured count t = None) then 0 else count).
Proof.
  intros [Hc H]. unfold configured. destruct (Z.eqb_spec count 0); cbn.
  { by split; [lia|]. }
  destruct t as [l|]; cbn; [|by split; [lia|]].
  done.
Qed.

Lemma configured_bits_wf t count :
  bits_wf t count -> bits_wf (configured count t)
                       (if bool_decide (configured count t = None) then 0 else count).
Proof.
  intros [Hc H]. unfold configured. destruct (Z.eqb_spec count 0); cbn.
  { by split; [lia|]. }
  destruct t as [l|]; cbn; [|by split; [lia|]].
  done.
Qed.

(** ** Encoding *)

Lemma crc_valid_adu be l : crc_valid be (adu be l) = true.
Proof.
  unfold crc_valid. rewrite adu_length, Nat.add_sub. unfold adu.
  rewrite drop_app_length, take_app_length. by apply bool_decide_eq_true.
Qed.

Lemma word_be16 v : v `div` 256 * 256 + v `mod` 256 = v.
Proof. zlia. Qed.

Lemma decode_encode a r k1 k0 :
  request_wf r -> decode (a :: request_pdu r ++ [k1; k0]) = DRequest r.
Proof.
  intros Hr. unfold request_pdu, be16.
  destruct r as [[]|[]| | |i n d|i n d|]; cbn [request_function app];
    try (unfold decode; cbn; by rewrite !word_be16).
  all: match goal with |- decode (_ :: ?fn :: ?args) = DRequest ?r =>
         match r with ?mk _ _ _ => change (decode_multiple mk args = DRequest r) end end.
  all: unfold decode_multiple; rewrite length_app; cbn [length].
  all: ztrue (Z.of_nat (length d + 2) =? zlen d + 2).
  all: by rewrite !word_be16, Nat2Z.id, take_app_length.
Qed.

(** ** Properties *)

Section properties.
Context (be : bool) (calloc_ok : Z -> bool).

(** C1: [modbusParseRequest] refines the abstract Modbus server.  For every
    well-formed slave and whatever bytes the request buffer holds, the call
    returns (no access outside a frame, table or mask), its return value,
    [parseError], [lastException], reply frame and stored registers and coils
    are the ones [serve] gives for the frame, and the slave stays well formed. *)
Theorem modbusParseRequest_refines_serve userFunctions s :
  slave_wf s -> (forall fn, find_userFunction userFunctions fn = None) ->
  answers s (modbusParseRequest be calloc_ok userFunctions s)
    (serve be calloc_ok (sl_address s) (abs s)
       (take (Z.to_nat (sl_request_length s)) <$> sl_request_frame s)).
Proof. apply parse_answers. Qed.

(** C2: A session of any number of arbitrary frames, delivered one after the
    other, shows exactly what the abstract server shows on the same frames and
    leaves the store it leaves. *)
Theorem slave_session_refines s frames :
  slave_wf s -> Forall (fun f => bytes_ok f /\ zlen f < 256) frames ->
  exists s', slave_session be calloc_ok s frames
             = Some ((serve_session be calloc_ok (sl_address s) (abs s) frames).1, s')
    /\ abs s' = (serve_session be calloc_ok (sl_address s) (abs s) frames).2 /\ slave_wf s'.
Proof. apply session_answers. Qed.

(** C39: No request, valid or not, changes a register whose bit is set in
    [registerMask] or a coil whose bit is set in [coilMask]. *)
Theorem protected_cells_unchanged s k :
  slave_wf s -> 0 <= k ->
  exists e s', modbusParseRequest be calloc_ok [] s = Some (e, s')
    /\ (mask_ro (sl_registerMask s) (sl_registerMaskLength s) k = true ->
        (fun l => znth l k) <$> st_holding (abs s') = (fun l => znth l k) <$> st_holding (abs s))
    /\ (mask_ro (sl_coilMask s) (sl_coilMaskLength s) k = true ->
        (fun l => znth l k) <$> st_coils (abs s') = (fun l => znth l k) <$> st_coils (abs s)).
Proof.
  intros Hwf Hk.
  destruct (parse_answers be calloc_ok [] s) as (s' & Hrun & _ & _ & _ & Habs & _); [done..|].
  eexists _, s'. split; [done|]. rewrite Habs.
  match goal with |- context [serve ?b ?c ?m ?st ?fr] =>
    destruct (serve_store b c m st fr) as [->|(r & Hr & Hv & ->)] end.
  - destruct (sl_request_frame s) as [F|] eqn:HF; [|done]. intros f [= <-].
    apply Forall_take. destruct Hwf as (_ & _ & _ & _ & _ & _ & _ & _ & H). by apply (H F).
  - done.
  - rewrite <- abs_reg_ro, <- abs_coil_ro.
    split; intros; [by apply execute_protects_regs | by apply execute_protects_coils].
Qed.

(** A frame whose content was damaged in transmission within two adjacent
    bytes is never obeyed: the call reports a CRC error, sends nothing and leaves
    the tables alone. *)
Theorem damaged_request_rejected s pre suf a b a' b' :
  slave_wf s -> (a, b) <> (a', b') ->
  bytes_ok (pre ++ a :: b :: suf) -> is_u8 a' -> is_u8 b' -> zlen pre + zlen suf < 252 ->
  exists s', modbusParseRequest be calloc_ok []
               (deliver s ((pre ++ a' :: b' :: suf) ++ crc_bytes be (pre ++ a :: b :: suf)))
             = Some (MODBUS_ERROR_PARSE, s')
    /\ sl_parseError s' = MODBUS_FERROR_CRC /\ sent_frame s' = None /\ abs s' = abs s.
Proof.
  intros Hwf Hne Hok Ha' Hb' Hlen. apply Forall_app in Hok as [Hpre Hok].
  inversion_clear Hok as [|? ? Ha Hok']. inversion_clear Hok' as [|? ? Hb Hsuf].
  set (f := (pre ++ a' :: b' :: suf) ++ crc_bytes be (pre ++ a :: b :: suf)).
  assert (zlen f = zlen pre + zlen suf + 4) as Hf by (unfold f; len).
  destruct (parse_answers be calloc_ok [] (deliver s f))
    as (s' & Hrun & Hpe & _ & Hsent & Habs & _); [|done|].
  { apply deliver_wf; [done | | lia]. repeat apply Forall_app_2; auto with bigbox. }
  change (sl_request_frame (deliver s f)) with (Some f) in *.
  change (sl_request_length (deliver s f)) with (zlen f) in *.
  cbn [fmap option_fmap option_map] in *. rewrite Nat2Z.id, firstn_all in *.
  assert (crc_valid be f = false) as Hcrc.
  { unfold crc_valid, f. apply bool_decide_eq_false_2. rewrite length_app, crc_bytes_length.
    rewrite Nat.add_sub, drop_app_length, take_app_length. intros E.
    unfold crc_bytes in E.
    set (c1 := crc16_of _ (pre ++ a :: b :: suf)) in *.
    set (c2 := crc16_of _ (pre ++ a' :: b' :: suf)) in *.
    assert (is_u16 c1) by (apply crc16_of_range; [lia | by apply Forall_app_2; auto]).
    assert (is_u16 c2) by (apply crc16_of_range; [lia | by apply Forall_app_2; auto]).
    pose proof (load_store16 be _ (modbusSwapEndian_range c1)) as H1.
    pose proof (load_store16 be _ (modbusSwapEndian_range c2)) as H2.
    rewrite E in H1. destruct (store16 be (modbusSwapEndian c2)) as [|x [|y [|]]]; try done.
    assert (modbusSwapEndian c1 = modbusSwapEndian c2) as Hs by congruence.
    apply (f_equal modbusSwapEndian) in Hs. rewrite !modbusSwapEndian_involutive in Hs by done.
    apply crc16_of_burst in Hs as [-> ->]; done || lia. }
  unfold serve in *. rewrite Hcrc in *. zfalse (zlen f <? 4). 
  rewrite Hf in *. replace (zlen pre + zlen suf + 4 <? 4) with false in * by lia.
  exists s'. done.
Qed.

(** [modbusSlaveInit] refuses the broadcast address and otherwise gives a
    well-formed slave with no pending frames, whose store holds exactly the
    configured non-empty tables. *)
Theorem modbusSlaveInit_ready s :
  is_u8 (sl_address s) ->
  regs_wf (sl_registers s) (sl_registerCount s) ->
  regs_wf (sl_inputRegisters s) (sl_inputRegisterCount s) ->
  bits_wf (sl_coils s) (sl_coilCount s) ->
  bits_wf (sl_discreteInputs s) (sl_discreteInputCount s) ->
  mask_wf (sl_registerMask s) (sl_registerMaskLength s) ->
  mask_wf (sl_coilMask s) (sl_coilMaskLength s) ->
  exists e s', modbusSlaveInit s = Some (e, s')
    /\ e = (if sl_address s =? 0 then MODBUS_ERROR_OTHER else MODBUS_ERROR_OK)
    /\ sl_request_frame s' = None /\ sent_frame s' = None
    /\ (e = MODBUS_ERROR_OK ->
        slave_wf s'
        /\ abs s' = mkStore
             (bits_of (sl_coilCount s) <$> configured (sl_coilCount s) (sl_coils s))
             (bits_of (sl_discreteInputCount s)
                <$> configured (sl_discreteInputCount s) (sl_discreteInputs s))
             (take (Z.to_nat (sl_registerCount s))
                <$> configured (sl_registerCount s) (sl_registers s))
             (take (Z.to_nat (sl_inputRegisterCount s))
                <$> configured (sl_inputRegisterCount s) (sl_inputRegisters s))
             (mask_ro (sl_coilMask s) (sl_coilMaskLength s))
             (mask_ro (sl_registerMask s) (sl_registerMaskLength s))).
Proof.
  intros Ha Hr Hi Hc Hd Hm Hcm. unfold modbusSlaveInit. cbn [sl_address set_request set_response].
  destruct (Z.eqb_spec (sl_address s) 0) as [E|E]; [by eexists _, _|].
  rewrite !init_table_spec. eexists _, _. split; [done|]. split; [done|]. split; [done|].
  split; [done|]. intros _. split.
  - split; [cbn; lia|]. split; [by apply configured_regs_wf|]. split; [by apply configured_regs_wf|].
    split; [done|]. split; [by apply configured_bits_wf|]. split; [by apply configured_bits_wf|].
    split; [done|]. split; [cbn; lia | done].
  - unfold abs. cbn. f_equal;
      match goal with |- context [configured ?n ?t] => by destruct (configured n t) end.
Qed.

(** An entry of the override table whose handler is [NULL] disables its
    function: an intact request for it, addressed to this slave, is answered with
    an illegal-function exception and [MODBUS_FERROR_NULLFUN], and changes no
    table. *)
Theorem null_handler_disables userFunctions s fn data :
  slave_wf s -> is_u8 fn -> bytes_ok data -> zlen data < 252 ->
  find_userFunction userFunctions fn = Some None ->
  exists s', modbusParseRequest be calloc_ok userFunctions
               (deliver s (adu be (sl_address s :: fn :: data)))
             = Some (if calloc_ok 5 then MODBUS_ERROR_EXCEPTION else MODBUS_ERROR_ALLOC, s')
    /\ sl_parseError s' = MODBUS_FERROR_NULLFUN
    /\ sl_lastException s' = Some MODBUS_EXCEP_ILLEGAL_FUNCTION
    /\ sent_frame s' = (if calloc_ok 5 then Some (adu be [sl_address s; Z.lor 128 fn; 1]) else None)
    /\ abs s' = abs s.
Proof.
  intros Hwf Hfn Hdata Hlen Huser. set (f := adu be (sl_address s :: fn :: data)).
  assert (zlen f = zlen data + 4) as Hfl by (unfold f; len).
  pose proof Hwf as [Hme _].
  assert (bytes_ok f) as Hf.
  { apply adu_ok. constructor; [lia|]. by constructor. }
  pose proof (deliver_wf s f Hwf Hf ltac:(lia)) as Hwf'.
  unfold modbusParseRequest. cbv zeta.
  set (s1 := set_parseError _ _). change (sl_request_length s1) with (zlen f).
  change (sl_request_frame s1) with (Some f). change (sl_address s1) with (sl_address s).
  zfalse (zlen f <? 4).
  destruct (crc_test be f (zlen f)) as (w & -> & Hcrc); [done | lia |].
  rewrite bind_Some, modbusCRC_spec, bind_Some, Hcrc by lia.
  rewrite Nat2Z.id, firstn_all. unfold f at 1. rewrite crc_valid_adu. cbn [negb].
  change (p_address f) with (Some (sl_address s)). change (p_function f) with (Some fn).
  rewrite bind_Some, Z.eqb_refl. cbn [negb andb]. rewrite bind_Some, Huser.
  assert (pending s1 (sl_address s) fn (data ++ crc_bytes be (sl_address s :: fn :: data)) [])
    as Hp.
  { constructor; try done; [by rewrite app_nil_r | | by left].
    change (sl_request_length s1) with (zlen f). rewrite Hfl. len. }
  destruct (exception_answers be calloc_ok s1 _ _ _ _ Hp
              MODBUS_EXCEP_ILLEGAL_FUNCTION MODBUS_FERROR_NULLFUN)
    as (s' & Hrun & Hpe & Hex & Hsent & Habs & _).
  exists s'. rewrite Hrun. unfold reply_exception in *.
  replace (sl_address s =? 0) with false in * by lia.
  change (sl_address s1) with (sl_address s) in *.
  by destruct (calloc_ok 5).
Qed.

(** Requests survive their encoding: the frame made of an address, the
    request's bytes and two checksum bytes decodes to the request. *)
Theorem decode_request_pdu a r k1 k0 :
  request_wf r -> decode (a :: request_pdu r ++ [k1; k0]) = DRequest r.
Proof. apply decode_encode. Qed.
End properties.

(** ** Concrete runs *)

(** A slave with address 7, four holding registers (the last one protected), two
    input registers and twelve coils. *)
Definition sample_slave : ModbusSlave :=
  mkSlave 7 (Some [0x1234; 0x00FF; 0; 9]) (Some [5; 6]) (Some [8]) 1 4 2
    (Some [0xA5; 0x0F]) None None 0 12 0 None MODBUS_FERROR_OK None 0 None 0.

(** Write register 1, read registers 0 and 1, try to write the protected register. *)
Definition sample_frames : list (list Z) :=
  [ adu false [7; 6; 0; 1; 0xAB; 0xCD];
    adu false [7; 3; 0; 0; 0; 2];
    adu false [7; 6; 0; 3; 0; 1] ].

Lemma sample_slave_wf : slave_wf sample_slave.
Proof.
  unfold slave_wf, regs_wf, bits_wf, mask_wf, frame_wf. cbn.
  repeat match goal with |- _ /\ _ => split end; intros; simplify_eq; cbn;
    repeat first [lia | apply Forall_nil_2 | apply Forall_cons_2 | split | zlia].
Qed.

Lemma sample_frames_ok : Forall (fun f => bytes_ok f /\ zlen f < 256) sample_frames.
Proof.
  unfold sample_frames.
  repeat (apply Forall_cons_2; [split; [by apply bytes_ok_decide | done]|]).
  apply Forall_nil_2.
Qed.

Lemma modbusParseRequest_refines_serve_witness :
  exists s', modbusParseRequest false (fun _ => true) [] (deliver sample_slave (adu false [7; 3; 0; 0; 0; 2]))
             = Some (MODBUS_ERROR_OK, s')
    /\ sent_frame s' = Some (adu false [7; 3; 4; 0x12; 0x34; 0; 0xFF]).
Proof.
  destruct (modbusParseRequest_refines_serve false (fun _ => true) []
              (deliver sample_slave (adu false [7; 3; 0; 0; 0; 2])))
    as (s' & Hrun & _ & _ & Hsent & _).
  - apply deliver_wf; [apply sample_slave_wf | (apply bytes_ok_decide; vm_compute; reflexivity) | vm_compute; reflexivity].
  - intros fn. reflexivity.
  - exists s'. split; [rewrite Hrun; vm_compute; reflexivity | rewrite Hsent; vm_compute; reflexivity].
Defined.

Lemma slave_session_refines_witness :
  exists s', slave_session false (fun _ => true) sample_slave sample_frames
    = Some ([ (MODBUS_ERROR_OK, MODBUS_FERROR_OK, Some (adu false [7; 6; 0; 1; 0xAB; 0xCD]));
              (MODBUS_ERROR_OK, MODBUS_FERROR_OK, Some (adu false [7; 3; 4; 0x12; 0x34; 0xAB; 0xCD]));
              (MODBUS_ERROR_EXCEPTION, MODBUS_FERROR_NOWRITE, Some (adu false [7; 0x86; 4])) ], s')
    /\ st_holding (abs s') = Some [0x1234; 0xABCD; 0; 9].
Proof.
  destruct (slave_session_refines false (fun _ => true) sample_slave sample_frames)
    as (s' & Hrun & Habs & _).
  - apply sample_slave_wf.
  - apply sample_frames_ok.
  - exists s'. split; [rewrite Hrun; vm_compute; reflexivity | rewrite Habs; vm_compute; reflexivity].
Defined.

Lemma protected_cells_unchanged_witness :
  mask_ro (sl_registerMask sample_slave) (sl_registerMaskLength sample_slave) 3 = true
  /\ exists e s',
       modbusParseRequest false (fun _ => true) [] (deliver sample_slave (adu false [7; 6; 0; 3; 0; 1]))
       = Some (e, s')
       /\ (fun l => znth l 3) <$> st_holding (abs s') = Some (Some 9).
Proof.
  split; [reflexivity|].
  destruct (protected_cells_unchanged false (fun _ => true)
              (deliver sample_slave (adu false [7; 6; 0; 3; 0; 1])) 3) as (e & s' & Hrun & Hr & _).
  - apply deliver_wf; [apply sample_slave_wf | (apply bytes_ok_decide; vm_compute; reflexivity) | vm_compute; reflexivity].
  - lia.
  - exists e, s'. split; [exact Hrun|]. rewrite Hr by reflexivity. reflexivity.
Defined.

Lemma damaged_request_rejected_witness :
  exists s',
    modbusParseRequest true (fun _ => true) []
      (deliver sample_slave (([7; 6; 0] ++ 2 :: 0xAB :: [0xCD])
                               ++ crc_bytes true ([7; 6; 0] ++ 1 :: 0xAB :: [0xCD])))
    = Some (MODBUS_ERROR_PARSE, s') /\ abs s' = abs sample_slave.
Proof.
  destruct (damaged_request_rejected true (fun _ => true) sample_slave [7; 6; 0] [0xCD] 1 0xAB 2 0xAB)
    as (s' & Hrun & _ & _ & Habs).
  - apply sample_slave_wf.
  - congruence.
  - (apply bytes_ok_decide; vm_compute; reflexivity).
  - lia.
  - lia.
  - reflexivity.
  - exists s'. split; [exact Hrun | exact Habs].
Defined.

Lemma modbusSlaveInit_ready_witness :
  exists s', modbusSlaveInit sample_slave = Some (MODBUS_ERROR_OK, s') /\ slave_wf s'.
Proof.
  destruct (modbusSlaveInit_ready sample_slave) as (e & s' & Hrun & He & _ & _ & Hok).
  - cbn. lia.
  - apply sample_slave_wf.
  - apply sample_slave_wf.
  - apply sample_slave_wf.
  - apply sample_slave_wf.
  - apply sample_slave_wf.
  - apply sample_slave_wf.
  - exists s'. cbn in He. subst e. split; [exact Hrun | apply Hok; reflexivity].
Defined.

Lemma null_handler_disables_witness :
  exists s',
    modbusParseRequest false (fun _ => true) [(3, None)]
      (deliver sample_slave (adu false (7 :: 3 :: [0; 0; 0; 2])))
    = Some (MODBUS_ERROR_EXCEPTION, s')
    /\ sent_frame s' = Some (adu false [7; 0x83; 1]).
Proof.
  destruct (null_handler_disables false (fun _ => true) [(3, None)] sample_slave 3 [0; 0; 0; 2])
    as (s' & Hrun & _ & _ & Hsent & _).
  - apply sample_slave_wf.
  - lia.
  - (apply bytes_ok_decide; vm_compute; reflexivity).
  - reflexivity.
  - reflexivity.
  - exists s'. split; [exact Hrun | exact Hsent].
Defined.

Lemma decode_request_pdu_witness :
  decode (7 :: request_pdu (WriteCoils 3 10 [0xFF; 0x01]) ++ [0; 0])
  = DRequest (WriteCoils 3 10 [0xFF; 0x01]).
Proof.
  apply (decode_request_pdu 7 (WriteCoils 3 10 [0xFF; 0x01]) 0 0).
  cbn. repeat split; try lia. (apply bytes_ok_decide; vm_compute; reflexivity).
Defined.
