(* ===== verification/ModbusMaster.v ===== *)
(** * Modbus master: state, request builders and response parsers

    The master half of fun_protocol/modbus/modbus.c and master/mbregs.c,
    mbcoils.c (builders), mpregs.c, mpcoils.c (parsers), in the configuration
    with dynamically allocated frames and data buffer, all functions compiled in.

    [data.coils] and [data.regs] always hold the same pointer (set from one
    [calloc], cleared together), so they are one byte block, [md_mem].  The
    block has two bytes for a register, but modbus.h declares [uint8_t *regs]:
    [regs[i] = v] stores the low byte of [v] in byte [i]. *)

From S2P Require Import Prelude CMem ModbusCommon.

(** ** State *)

(** [status->data]. *)
Record MasterData := mkData {
  md_address : Z;
  md_index : Z;
  md_count : Z;
  md_length : Z;
  md_type : ModbusDataType;
  md_function : Z;
  md_mem : option (list Z)
}.

(** [status->exception]. *)
Record MasterException := mkException {
  me_address : Z;
  me_function : Z;
  me_code : Z
}.

Record ModbusMaster := mkMaster {
  mm_predictedResponseLength : Z;
  mm_request_frame : option (list Z);
  mm_request_length : Z;
  mm_response_frame : option (list Z);
  mm_response_length : Z;
  mm_data : MasterData;
  mm_exception : MasterException;
  mm_parseError : ModbusFrameError;
  mm_buildError : ModbusFrameError
}.

Definition data_reset : MasterData := mkData 0 0 0 0 MODBUS_NO_TYPE 0 None.
Definition exception_reset : MasterException := mkException 0 0 0.

(** Assignments to members of [*status]. *)
Definition set_request_out (s : ModbusMaster) (frame : option (list Z)) (len predicted : Z)
    : ModbusMaster :=
  mkMaster predicted frame len (mm_response_frame s) (mm_response_length s) (mm_data s)
    (mm_exception s) (mm_parseError s) (mm_buildError s).

Definition set_buildError (s : ModbusMaster) (e : ModbusFrameError) : ModbusMaster :=
  mkMaster (mm_predictedResponseLength s) (mm_request_frame s) (mm_request_length s)
    (mm_response_frame s) (mm_response_length s) (mm_data s) (mm_exception s) (mm_parseError s) e.

Definition set_mparseError (s : ModbusMaster) (e : ModbusFrameError) : ModbusMaster :=
  mkMaster (mm_predictedResponseLength s) (mm_request_frame s) (mm_request_length s)
    (mm_response_frame s) (mm_response_length s) (mm_data s) (mm_exception s) e (mm_buildError s).

Definition set_data (s : ModbusMaster) (d : MasterData) : ModbusMaster :=
  mkMaster (mm_predictedResponseLength s) (mm_request_frame s) (mm_request_length s)
    (mm_response_frame s) (mm_response_length s) d (mm_exception s) (mm_parseError s)
    (mm_buildError s).

Definition set_mem (s : ModbusMaster) (m : option (list Z)) : ModbusMaster :=
  let d := mm_data s in
  set_data s (mkData (md_address d) (md_index d) (md_count d) (md_length d) (md_type d)
                (md_function d) m).

Definition set_exception (s : ModbusMaster) (x : MasterException) : ModbusMaster :=
  mkMaster (mm_predictedResponseLength s) (mm_request_frame s) (mm_request_length s)
    (mm_response_frame s) (mm_response_length s) (mm_data s) x (mm_parseError s)
    (mm_buildError s).

Definition set_mresponse (s : ModbusMaster) (frame : option (list Z)) (len : Z) : ModbusMaster :=
  mkMaster (mm_predictedResponseLength s) (mm_request_frame s) (mm_request_length s)
    frame len (mm_data s) (mm_exception s) (mm_parseError s) (mm_buildError s).

Abbreviation MasterResult := (option (ModbusError * ModbusMaster)).

Section master.
Variable be : bool.
Variable calloc_ok : Z -> bool.

(** ** Builders *)

(** Leaving with a frame error. *)
Definition build_fail (status : ModbusMaster) (e : ModbusFrameError) : MasterResult :=
  Some (MODBUS_ERROR_BUILD, set_buildError status e).

(** *** master/mbcoils.c *)

Definition modbusBuildRequest0102 (status : ModbusMaster) (function address index count : Z)
    : MasterResult :=
  return_if negb (function =? 1) && negb (function =? 2)
    with build_fail status MODBUS_FERROR_BADFUN ;;
  return_if address =? 0 with build_fail status MODBUS_FERROR_BROADCAST ;;
  let status := set_request_out status (mm_request_frame status) 0 0 in
  return_if (count =? 0) || (count >? 2000) with build_fail status MODBUS_FERROR_COUNT ;;
  return_if negb (calloc_ok 8) with Some (MODBUS_ERROR_ALLOC, set_request_out status None 0 0) ;;
  builder ← wr8 (zeros 8) 0 address;
  builder ← wr8 builder 1 function;
  builder ← wr16 be builder 2 (modbusMatchEndian be index);
  builder ← wr16 be builder 4 (modbusMatchEndian be count);
  crc ← modbusCRC (Some builder) 6;
  builder ← wr16 be builder 6 crc;
  Some (MODBUS_ERROR_OK,
        set_buildError (set_request_out status (Some builder) 8 (u8 (4 + 1 + modbusBitsToBytes count)))
          MODBUS_FERROR_OK).

Definition modbusBuildRequest05 (status : ModbusMaster) (address index value : Z) : MasterResult :=
  let status := set_request_out status (mm_request_frame status) 0 0 in
  return_if negb (calloc_ok 8) with Some (MODBUS_ERROR_ALLOC, set_request_out status None 0 0) ;;
  let value := if negb (value =? 0) then 0xFF00 else 0x0000 in
  builder ← wr8 (zeros 8) 0 address;
  builder ← wr8 builder 1 5;
  builder ← wr16 be builder 2 (modbusMatchEndian be index);
  builder ← wr16 be builder 4 (modbusMatchEndian be value);
  crc ← modbusCRC (Some builder) 6;
  builder ← wr16 be builder 6 crc;
  Some (MODBUS_ERROR_OK,
        set_buildError (set_request_out status (Some builder) 8 (if negb (address =? 0) then 8 else 0))
          MODBUS_FERROR_OK).

Definition modbusBuildRequest15 (status : ModbusMaster) (address index count : Z)
    (values : option (list Z)) : MasterResult :=
  let frameLength := u8 (9 + modbusBitsToBytes count) in
  match values with
  | None => Some (MODBUS_ERROR_NULLPTR, status)
  | Some values =>
    let status := set_request_out status (mm_request_frame status) 0 0 in
    return_if (count =? 0) || (count >? 1968) with build_fail status MODBUS_FERROR_COUNT ;;
    return_if negb (calloc_ok frameLength)
      with Some (MODBUS_ERROR_ALLOC, set_request_out status None 0 0) ;;
    builder ← wr8 (zeros frameLength) 0 address;
    builder ← wr8 builder 1 15;
    builder ← wr16 be builder 2 (modbusMatchEndian be index);
    builder ← wr16 be builder 4 (modbusMatchEndian be count);
    builder ← wr8 builder 6 (modbusBitsToBytes count);
    length ← p_request_length builder;
    builder ← for_range (Z.to_nat length) 0
      (fun i builder => v ← rd8 values i; wr8 builder (7 + i) v) builder;
    crc ← modbusCRC (Some builder) (frameLength - 2);
    builder ← wr16 be builder (frameLength - 2) crc;
    Some (MODBUS_ERROR_OK,
          set_buildError (set_request_out status (Some builder) frameLength
                            (if negb (address =? 0) then 4 + 4 else 0))
            MODBUS_FERROR_OK)
  end.

(** *** master/mbregs.c *)

Definition modbusBuildRequest0304 (status : ModbusMaster) (function address index count : Z)
    : MasterResult :=
  return_if negb (function =? 3) && negb (function =? 4)
    with build_fail status MODBUS_FERROR_BADFUN ;;
  return_if address =? 0 with build_fail status MODBUS_FERROR_BROADCAST ;;
  let status := set_request_out status (mm_request_frame status) 0 0 in
  return_if (count =? 0) || (count >? 125) with build_fail status MODBUS_FERROR_COUNT ;;
  return_if negb (calloc_ok 8) with Some (MODBUS_ERROR_ALLOC, set_request_out status None 0 0) ;;
  builder ← wr8 (zeros 8) 0 address;
  builder ← wr8 builder 1 function;
  builder ← wr16 be builder 2 (modbusMatchEndian be index);
  builder ← wr16 be builder 4 (modbusMatchEndian be count);
  crc ← modbusCRC (Some builder) 6;
  builder ← wr16 be builder 6 crc;
  Some (MODBUS_ERROR_OK,
        set_buildError (set_request_out status (Some builder) 8 (u8 (4 + 1 + Z.shiftl count 1)))
          MODBUS_FERROR_OK).

Definition modbusBuildRequest06 (status : ModbusMaster) (address index value : Z) : MasterResult :=
  let status := set_request_out status (mm_request_frame status) 0 0 in
  return_if negb (calloc_ok 8) with Some (MODBUS_ERROR_ALLOC, set_request_out status None 0 0) ;;
  builder ← wr8 (zeros 8) 0 address;
  builder ← wr8 builder 1 6;
  builder ← wr16 be builder 2 (modbusMatchEndian be index);
  builder ← wr16 be builder 4 (modbusMatchEndian be value);
  crc ← modbusCRC (Some builder) 6;
  builder ← wr16 be builder 6 crc;
  Some (MODBUS_ERROR_OK,
        set_buildError (set_request_out status (Some builder) 8 (if negb (address =? 0) then 8 else 0))
          MODBUS_FERROR_OK).

Definition modbusBuildRequest16 (status : ModbusMaster) (address index count : Z)
    (values : option (list Z)) : MasterResult :=
  let frameLength := u8 (9 + Z.shiftl count 1) in
  match values with
  | None => Some (MODBUS_ERROR_NULLPTR, status)
  | Some values =>
    let status := set_request_out status (mm_request_frame status) 0 0 in
    return_if (count =? 0) || (count >? 123) with build_fail status MODBUS_FERROR_COUNT ;;
    return_if negb (calloc_ok frameLength)
      with Some (MODBUS_ERROR_ALLOC, set_request_out status None 0 0) ;;
    builder ← wr8 (zeros frameLength) 0 address;
    builder ← wr8 builder 1 16;
    builder ← wr16 be builder 2 (modbusMatchEndian be index);
    builder ← wr16 be builder 4 (modbusMatchEndian be count);
    builder ← wr8 builder 6 (Z.shiftl count 1);
    builder ← for_range (Z.to_nat count) 0
      (fun i builder => v ← znth values i; wr16 be builder (7 + 2 * i) (modbusMatchEndian be v))
      builder;
    crc ← modbusCRC (Some builder) (frameLength - 2);
    builder ← wr16 be builder (7 + 2 * count) crc;
    Some (MODBUS_ERROR_OK,
          set_buildError (set_request_out status (Some builder) frameLength
                            (if negb (address =? 0) then 4 + 4 else 0))
            MODBUS_FERROR_OK)
  end.

Definition modbusBuildRequest22 (status : ModbusMaster) (address index andmask ormask : Z)
    : MasterResult :=
  let status := set_request_out status (mm_request_frame status) 0 0 in
  return_if negb (calloc_ok 10) with Some (MODBUS_ERROR_ALLOC, set_request_out status None 0 0) ;;
  builder ← wr8 (zeros 10) 0 address;
  builder ← wr8 builder 1 22;
  builder ← wr16 be builder 2 (modbusMatchEndian be index);
  builder ← wr16 be builder 4 (modbusMatchEndian be andmask);
  builder ← wr16 be builder 6 (modbusMatchEndian be ormask);
  crc ← modbusCRC (Some builder) 8;
  builder ← wr16 be builder 8 crc;
  Some (MODBUS_ERROR_OK,
        set_buildError (set_request_out status (Some builder) 10 (if negb (address =? 0) then 10 else 0))
          MODBUS_FERROR_OK).

(** ** Parsers *)

Variable userFunctions : list (Z * option (ModbusMaster -> list Z -> list Z -> MasterResult)).

Definition parse_fail (status : ModbusMaster) (e : ModbusFrameError) : MasterResult :=
  Some (MODBUS_ERROR_PARSE, set_mparseError status e).

(** [status->data.regs[i] = v], an assignment to a [uint8_t]. *)
Definition store_reg (m : list Z) (i v : Z) : option (list Z) := wr8 m i v.

(** *** master/mpregs.c *)

Definition modbusParseResponse0304 (status : ModbusMaster) (parser requestParser : option (list Z))
    : MasterResult :=
  match parser, requestParser with
  | Some parser, Some requestParser =>
    function ← p_function parser;
    return_if negb (function =? 3) && negb (function =? 4)
      with parse_fail status MODBUS_FERROR_BADFUN ;;
    length ← p_response_length parser;
    return_if negb (mm_response_length status =? 5 + length) || negb (mm_request_length status =? 8)
      with parse_fail status MODBUS_FERROR_LENGTH ;;
    count ← p_count be requestParser;
    let count := modbusMatchEndian be count in
    address ← p_address parser;
    return_if address =? 0 with parse_fail status MODBUS_FERROR_BROADCAST ;;
    raddress ← p_address requestParser;
    return_if negb (address =? raddress) with parse_fail status MODBUS_FERROR_MISM_ADDR ;;
    rfunction ← p_function requestParser;
    return_if negb (function =? rfunction) with parse_fail status MODBUS_FERROR_MISM_FUN ;;
    return_if (length =? 0) || negb (length =? Z.shiftl count 1) || (length >? 250)
      with parse_fail status MODBUS_FERROR_LENGTH ;;
    return_if negb (calloc_ok (Z.shiftr length 1 * 2))
      with Some (MODBUS_ERROR_ALLOC, set_mem status None) ;;
    mem ← for_range (Z.to_nat count) 0
      (fun i mem => v ← p_response_value16 be parser i; store_reg mem i (modbusMatchEndian be v))
      (zeros (Z.shiftr length 1 * 2));
    index ← p_index be requestParser;
    Some (MODBUS_ERROR_OK,
          set_mparseError
            (set_data status
               (mkData address (modbusMatchEndian be index) count length
                  (if function =? 3 then MODBUS_HOLDING_REGISTER else MODBUS_INPUT_REGISTER)
                  function (Some mem)))
            MODBUS_FERROR_OK)
  | _, _ => Some (MODBUS_ERROR_NULLPTR, status)
  end.

Definition modbusParseResponse06 (status : ModbusMaster) (parser requestParser : option (list Z))
    : MasterResult :=
  match parser, requestParser with
  | Some parser, Some requestParser =>
    return_if negb (mm_response_length status =? 8) || negb (mm_request_length status =? 8)
      with parse_fail status MODBUS_FERROR_LENGTH ;;
    address ← p_address parser;
    return_if address =? 0 with parse_fail status MODBUS_FERROR_BROADCAST ;;
    raddress ← p_address requestParser;
    return_if negb (address =? raddress) with parse_fail status MODBUS_FERROR_MISM_ADDR ;;
    function ← p_function parser;
    rfunction ← p_function requestParser;
    return_if negb (function =? rfunction) with parse_fail status MODBUS_FERROR_MISM_FUN ;;
    index ← p_index be parser;
    rindex ← p_index be requestParser;
    return_if negb (index =? rindex) with parse_fail status MODBUS_FERROR_MISM_INDEX ;;
    value ← p_count be parser;
    rvalue ← p_count be requestParser;
    return_if negb (value =? rvalue) with parse_fail status MODBUS_FERROR_MISM_VALUE ;;
    return_if negb (calloc_ok 2) with Some (MODBUS_ERROR_ALLOC, set_mem status None) ;;
    mem ← store_reg (zeros 2) 0 (modbusMatchEndian be value);
    Some (MODBUS_ERROR_OK,
          set_mparseError
            (set_data status
               (mkData address (modbusMatchEndian be index) 1 2 MODBUS_HOLDING_REGISTER 6 (Some mem)))
            MODBUS_FERROR_OK)
  | _, _ => Some (MODBUS_ERROR_NULLPTR, status)
  end.

Definition modbusParseResponse16 (status : ModbusMaster) (parser requestParser : option (list Z))
    : MasterResult :=
  match parser, requestParser with
  | Some parser, Some requestParser =>
    return_if mm_request_length status <? 7 with parse_fail status MODBUS_FERROR_LENGTH ;;
    rlength ← p_request_length requestParser;
    return_if negb (mm_request_length status =? 9 + rlength) || negb (mm_response_length status =? 8)
      with parse_fail status MODBUS_FERROR_LENGTH ;;
    address ← p_address parser;
    return_if address =? 0 with parse_fail status MODBUS_FERROR_BROADCAST ;;
    raddress ← p_address requestParser;
    return_if negb (address =? raddress) with parse_fail status MODBUS_FERROR_MISM_ADDR ;;
    function ← p_function parser;
    rfunction ← p_function requestParser;
    return_if negb (function =? rfunction) with parse_fail status MODBUS_FERROR_MISM_FUN ;;
    index ← p_index be parser;
    rindex ← p_index be requestParser;
    return_if negb (index =? rindex) with parse_fail status MODBUS_FERROR_MISM_INDEX ;;
    rawcount ← p_count be parser;
    rcount ← p_count be requestParser;
    return_if negb (rawcount =? rcount) with parse_fail status MODBUS_FERROR_MISM_COUNT ;;
    let count := modbusMatchEndian be rawcount in
    return_if count >? 123 with parse_fail status MODBUS_FERROR_COUNT ;;
    Some (MODBUS_ERROR_OK,
          set_mparseError
            (set_data status
               (mkData address (modbusMatchEndian be index) count 0 MODBUS_HOLDING_REGISTER 16
                  (md_mem (mm_data status))))
            MODBUS_FERROR_OK)
  | _, _ => Some (MODBUS_ERROR_NULLPTR, status)
  end.

Definition modbusParseResponse22 (status : ModbusMaster) (parser requestParser : option (list Z))
    : MasterResult :=
  match parser, requestParser with
  | Some parser, Some requestParser =>
    return_if negb (mm_response_length status =? 10) || negb (mm_request_length status =? 10)
      with parse_fail status MODBUS_FERROR_LENGTH ;;
    address ← p_address parser;
    return_if address =? 0 with parse_fail status MODBUS_FERROR_BROADCAST ;;
    raddress ← p_address requestParser;
    return_if negb (address =? raddress) with parse_fail status MODBUS_FERROR_MISM_ADDR ;;
    function ← p_function parser;
    rfunction ← p_function requestParser;
    return_if negb (function =? rfunction) with parse_fail status MODBUS_FERROR_MISM_FUN ;;
    index ← p_index be parser;
    rindex ← p_index be requestParser;
    return_if negb (index =? rindex) with parse_fail status MODBUS_FERROR_MISM_INDEX ;;
    andmask ← p_count be parser;
    randmask ← p_count be requestParser;
    ormask ← p_ormask be parser;
    rormask ← p_ormask be requestParser;
    return_if negb (andmask =? randmask) || negb (ormask =? rormask)
      with parse_fail status MODBUS_FERROR_MISM_MASK ;;
    Some (MODBUS_ERROR_OK,
          set_mparseError
            (set_data status
               (mkData address (modbusMatchEndian be index) 1 0 MODBUS_HOLDING_REGISTER 22
                  (md_mem (mm_data status))))
            MODBUS_FERROR_OK)
  | _, _ => Some (MODBUS_ERROR_NULLPTR, status)
  end.

(** *** master/mpcoils.c *)

Definition modbusParseResponse0102 (status : ModbusMaster) (parser requestParser : option (list Z))
    : MasterResult :=
  match parser, requestParser with
  | Some parser, Some requestParser =>
    function ← p_function parser;
    return_if negb (function =? 1) && negb (function =? 2)
      with parse_fail status MODBUS_FERROR_BADFUN ;;
    length ← p_response_length parser;
    return_if negb (mm_response_length status =? 5 + length) || negb (mm_request_length status =? 8)
      with parse_fail status MODBUS_FERROR_LENGTH ;;
    count ← p_count be requestParser;
    let count := modbusMatchEndian be count in
    address ← p_address parser;
    return_if address =? 0 with parse_fail status MODBUS_FERROR_BROADCAST ;;
    raddress ← p_address requestParser;
    return_if negb (address =? raddress) with parse_fail status MODBUS_FERROR_MISM_ADDR ;;
    rfunction ← p_function requestParser;
    return_if negb (function =? rfunction) with parse_fail status MODBUS_FERROR_MISM_FUN ;;
    return_if (length =? 0) || (length >? 250) || negb (length =? modbusBitsToBytes count)
      with parse_fail status MODBUS_FERROR_LENGTH ;;
    return_if negb (calloc_ok (modbusBitsToBytes count))
      with Some (MODBUS_ERROR_ALLOC, set_mem status None) ;;
    values ← rd_bytes parser 3 length;
    mem ← wr_bytes (zeros (modbusBitsToBytes count)) 0 values;
    index ← p_index be requestParser;
    Some (MODBUS_ERROR_OK,
          set_mparseError
            (set_data status
               (mkData address (modbusMatchEndian be index) count length
                  (if function =? 1 then MODBUS_COIL else MODBUS_DISCRETE_INPUT)
                  function (Some mem)))
            MODBUS_FERROR_OK)
  | _, _ => Some (MODBUS_ERROR_NULLPTR, status)
  end.

Definition modbusParseResponse05 (status : ModbusMaster) (parser requestParser : option (list Z))
    : MasterResult :=
  match parser, requestParser with
  | Some parser, Some requestParser =>
    return_if negb (mm_response_length status =? 8) || negb (mm_request_length status =? 8)
      with parse_fail status MODBUS_FERROR_LENGTH ;;
    address ← p_address parser;
    return_if address =? 0 with parse_fail status MODBUS_FERROR_BROADCAST ;;
    raddress ← p_address requestParser;
    return_if negb (address =? raddress) with parse_fail status MODBUS_FERROR_MISM_ADDR ;;
    function ← p_function parser;
    rfunction ← p_function requestParser;
    return_if negb (function =? rfunction) with parse_fail status MODBUS_FERROR_MISM_FUN ;;
    index ← p_index be parser;
    rindex ← p_index be requestParser;
    return_if negb (index =? rindex) with parse_fail status MODBUS_FERROR_MISM_INDEX ;;
    value ← p_count be parser;
    rvalue ← p_count be requestParser;
    return_if negb (value =? rvalue) with parse_fail status MODBUS_FERROR_MISM_VALUE ;;
    return_if negb (calloc_ok 1) with Some (MODBUS_ERROR_ALLOC, set_mem status None) ;;
    mem ← wr8 (zeros 1) 0 (Z.b2z (negb (value =? 0)));
    Some (MODBUS_ERROR_OK,
          set_mparseError
            (set_data status
               (mkData address (modbusMatchEndian be rindex) 1 1 MODBUS_COIL 5 (Some mem)))
            MODBUS_FERROR_OK)
  | _, _ => Some (MODBUS_ERROR_NULLPTR, status)
  end.

Definition modbusParseResponse15 (status : ModbusMaster) (parser requestParser : option (list Z))
    : MasterResult :=
  match parser, requestParser with
  | Some parser, Some requestParser =>
    return_if mm_request_length status <? 7 with parse_fail status MODBUS_FERROR_LENGTH ;;
    rlength ← p_request_length requestParser;
    return_if negb (mm_request_length status =? 9 + rlength) || negb (mm_response_length status =? 8)
      with parse_fail status MODBUS_FERROR_LENGTH ;;
    address ← p_address parser;
    return_if address =? 0 with parse_fail status MODBUS_FERROR_BROADCAST ;;
    raddress ← p_address requestParser;
    return_if negb (address =? raddress) with parse_fail status MODBUS_FERROR_MISM_ADDR ;;
    function ← p_function parser;
    rfunction ← p_function requestParser;
    return_if negb (function =? rfunction) with parse_fail status MODBUS_FERROR_MISM_FUN ;;
    index ← p_index be parser;
    rindex ← p_index be requestParser;
    return_if negb (index =? rindex) with parse_fail status MODBUS_FERROR_MISM_INDEX ;;
    rawcount ← p_count be parser;
    rcount ← p_count be requestParser;
    return_if negb (rawcount =? rcount) with parse_fail status MODBUS_FERROR_MISM_COUNT ;;
    let count := modbusMatchEndian be rawcount in
    return_if count >? 1968 with parse_fail status MODBUS_FERROR_COUNT ;;
    Some (MODBUS_ERROR_OK,
          set_mparseError
            (set_data status
               (mkData address (modbusMatchEndian be index) (modbusMatchEndian be rawcount) 0
                  MODBUS_COIL 15 (md_mem (mm_data status))))
            MODBUS_FERROR_OK)
  | _, _ => Some (MODBUS_ERROR_NULLPTR, status)
  end.

(** *** modbus.c *)

Definition modbusParseException (status : ModbusMaster) (parser : option (list Z)) : MasterResult :=
  match parser with
  | None => Some (MODBUS_ERROR_NULLPTR, status)
  | Some parser =>
    address ← p_address parser;
    function ← p_function parser;
    code ← p_exception_code parser;
    Some (MODBUS_ERROR_EXCEPTION, set_exception status (mkException address function code))
  end.

(** The first entry of the override table for [function]. *)
Definition find_masterFunction (function : Z)
    : option (option (ModbusMaster -> list Z -> list Z -> MasterResult)) :=
  snd <$> find (fun u => fst u =? function) userFunctions.

Definition modbusParseResponse_builtin (status : ModbusMaster) (parser requestParser : list Z)
    (function : Z) : option MasterResult :=
  let p := Some parser in
  let rp := Some requestParser in
  if negb (Z.land function 128 =? 0) && (mm_response_length status =? 5)
  then Some (modbusParseException status p)
  else if (function =? 1) || (function =? 2) then Some (modbusParseResponse0102 status p rp)
  else if (function =? 3) || (function =? 4) then Some (modbusParseResponse0304 status p rp)
  else if function =? 5 then Some (modbusParseResponse05 status p rp)
  else if function =? 6 then Some (modbusParseResponse06 status p rp)
  else if function =? 15 then Some (modbusParseResponse15 status p rp)
  else if function =? 16 then Some (modbusParseResponse16 status p rp)
  else if function =? 22 then Some (modbusParseResponse22 status p rp)
  else None.

Definition modbusParseResponse (status : ModbusMaster) : MasterResult :=
  let status := set_exception status exception_reset in
  let status := set_data status data_reset in
  match (if mm_response_length status <? 4 then None else mm_response_frame status),
        (if mm_request_length status <? 4 then None else mm_request_frame status) with
  | Some parser, Some requestParser =>
    crcresp ← rd16 be parser (mm_response_length status - 2);
    crcreq ← rd16 be requestParser (mm_request_length status - 2);
    crc ← modbusCRC (Some parser) (mm_response_length status - 2);
    crc' ← modbusCRC (Some requestParser) (mm_request_length status - 2);
    return_if negb (crcresp =? crc) || negb (crcreq =? crc')
      with parse_fail status MODBUS_FERROR_CRC ;;
    let status := set_mparseError status MODBUS_FERROR_OK in
    function ← p_function parser;
    match find_masterFunction function with
    | Some (Some handler) => handler status parser requestParser
    | Some None => parse_fail status MODBUS_FERROR_NULLFUN
    | None =>
      match modbusParseResponse_builtin status parser requestParser function with
      | Some r => r
      | None => parse_fail status MODBUS_FERROR_NOFUN
      end
    end
  | _, _ => parse_fail status MODBUS_FERROR_LENGTH
  end.

Definition modbusMasterInit (status : ModbusMaster) : MasterResult :=
  let status := set_request_out status None 0 (mm_predictedResponseLength status) in
  let status := set_mresponse status None 0 in
  let d := mm_data status in
  let status := set_data status (mkData 0 0 0 0 MODBUS_NO_TYPE (md_function d) None) in
  let status := set_exception status exception_reset in
  Some (MODBUS_ERROR_OK, status).

Definition modbusMasterEnd (status : ModbusMaster) : MasterResult :=
  let status := set_request_out status None (mm_request_length status)
                  (mm_predictedResponseLength status) in
  Some (MODBUS_ERROR_OK, set_mem status None).
End master.
