(* ===== verification/ModbusMasterCorrect.v ===== *)
(** * Modbus master: what is sent, what is accepted

    The builders produce the frame of the abstract request (ModbusSpec.v); the
    response parser accepts exactly the replies that answer the request sent,
    and reads every other byte string without leaving a buffer. *)

From S2P Require Import Prelude CMem Crc ModbusCommon ModbusFrame ModbusSpec ModbusMaster.
From S2P Require Import ModbusSlaveCorrect ModbusSession.

(** ** Builders *)

(** The limits the protocol sets on a request. *)
Definition request_limits (r : Request) : Prop :=
  request_wf r /\
  match r with
  | ReadBits _ _ n => 0 < n <= 2000
  | ReadRegs _ _ n => 0 < n <= 125
  | WriteCoil _ v => v = 0 \/ v = 0xFF00
  | WriteCoils _ n d => 0 < n <= 1968 /\ zlen d = (n + 7) `div` 8
  | WriteRegs _ n d => 0 < n <= 123 /\ zlen d = 2 * n
  | WriteReg _ _ | MaskWrite _ _ _ => True
  end.

Definition is_read (r : Request) : bool :=
  match r with ReadBits _ _ _ | ReadRegs _ _ _ => true | _ => false end.

(** The builder an application calls for a request. *)
Definition master_build (be : bool) (calloc_ok : Z -> bool) (s : ModbusMaster) (address : Z)
    (r : Request) : MasterResult :=
  match r with
  | ReadBits Coils i n => modbusBuildRequest0102 be calloc_ok s 1 address i n
  | ReadBits Discretes i n => modbusBuildRequest0102 be calloc_ok s 2 address i n
  | ReadRegs Holding i n => modbusBuildRequest0304 be calloc_ok s 3 address i n
  | ReadRegs Inputs i n => modbusBuildRequest0304 be calloc_ok s 4 address i n
  | WriteCoil i v => modbusBuildRequest05 be calloc_ok s address i v
  | WriteReg i v => modbusBuildRequest06 be calloc_ok s address i v
  | WriteCoils i n d => modbusBuildRequest15 be calloc_ok s address i n (Some d)
  | WriteRegs i n d => modbusBuildRequest16 be calloc_ok s address i n (Some (words (Z.to_nat n) d))
  | MaskWrite i a o => modbusBuildRequest22 be calloc_ok s address i a o
  end.

(** The request frame [l] is ready to be sent, and a reply of [predicted] bytes
    is expected. *)
Definition built (s : ModbusMaster) (res : MasterResult) (fr : list Z) (predicted : Z) : Prop :=
  res = Some (MODBUS_ERROR_OK,
              set_buildError (set_request_out s (Some fr) (zlen fr) predicted) MODBUS_FERROR_OK).

Lemma built_intro s fr fr' n p p' :
  fr = fr' -> n = zlen fr' -> p = p' ->
  built s (Some (MODBUS_ERROR_OK,
             set_buildError
               (set_request_out (set_request_out s (mm_request_frame s) 0 0) (Some fr) n p)
               MODBUS_FERROR_OK)) fr' p'.
Proof. by intros -> -> ->. Qed.

Section builders.
Context (be : bool) (calloc_ok : Z -> bool) (s : ModbusMaster).
Hypothesis Hcalloc : forall n, calloc_ok n = true.

Lemma built_fr8 addr fn v w p :
  is_u8 addr -> is_u8 fn -> is_u16 v -> is_u16 w ->
  built s
    (m ← wr8 (zeros 8) 0 addr; m ← wr8 m 1 fn; m ← wr16 be m 2 (modbusMatchEndian be v);
     m ← wr16 be m 4 (modbusMatchEndian be w);
     crc ← modbusCRC (Some m) 6; m ← wr16 be m 6 crc;
     Some (MODBUS_ERROR_OK,
           set_buildError (set_request_out (set_request_out s (mm_request_frame s) 0 0) (Some m) 8 p)
             MODBUS_FERROR_OK))
    (adu be (addr :: fn :: be16 v ++ be16 w)) p.
Proof.
  intros Ha Hf Hv Hw.
  rewrite (build_frame8 be addr fn _ _ _ _ _ _ _ Ha Hf (store16_match be v Hv) (store16_match be w Hw)).
  apply built_intro; [done | by rewrite adu_length | done].
Qed.

(** [for (i = 0; i < length; i++) values[i] = src[i];] *)
Lemma fill_bytes (hd d r : list Z) :
  bytes_ok d ->
  for_range (length d) 0 (fun i m => v ← rd8 d i; wr8 m (zlen hd + i) v) (hd ++ zeros (zlen d) ++ r)
  = Some (hd ++ d ++ r).
Proof.
  intros Hd.
  destruct (for_range_inv
    (fun i m => m = hd ++ take (Z.to_nat i) d ++ zeros (zlen d - i) ++ r)
    (fun i m => v ← rd8 d i; wr8 m (zlen hd + i) v)
    (length d) 0 (hd ++ zeros (zlen d) ++ r)) as (m & -> & ->).
  - intros i m Hi ->. destruct (rd8_lt d i) as [v Hv]; [lia|].
    pose proof (rd8_byte _ _ _ Hd Hv) as Hv8. rewrite Hv, bind_Some.
    apply znth_Some in Hv as [_ Hv].
    rewrite (zeros_succ (zlen d - i)) by lia. cbn [app]. rewrite app_assoc.
    rewrite wr8_snoc by len. rewrite u8_id by done. eexists. split; [done|].
    replace (Z.to_nat (i + 1)) with (S (Z.to_nat i)) by lia.
    erewrite take_S_r by done. rewrite <- !app_assoc. cbn [app].
    by replace (zlen d - (i + 1)) with (zlen d - i - 1) by lia.
  - by rewrite Z.sub_0_r.
  - rewrite firstn_all2 by lia. by replace (zlen d - (0 + zlen d)) with 0 by lia.
Qed.

Lemma zeros_frame n :
  0 <= n -> zeros (9 + n) = [] ++ 0 :: 0 :: 0 :: 0 :: 0 :: 0 :: 0 :: zeros n ++ [0; 0].
Proof.
  intros. replace (9 + n) with (7 + (n + 2)) by lia.
  by rewrite (zeros_split 7), (zeros_split n 2) by lia.
Qed.

Lemma build_answers address r :
  request_limits r -> is_u8 address -> (is_read r = true -> address <> 0) ->
  built s (master_build be calloc_ok s address r) (adu be (address :: request_pdu r))
    (if address =? 0 then 0 else response_size r).
Proof.
  intros [Hwf Hlim] Ha Hread.
  assert (is_read r = true -> (address =? 0) = false) as Hr0.
  { intros H. by apply Z.eqb_neq, Hread. }
  destruct r as [[] i n|[] i n|i v|i v|i n d|i n d|i am om]; cbn [request_wf] in Hwf;
    cbn [master_build]; unfold request_pdu; cbn [request_function app response_size].
  - unfold modbusBuildRequest0102. cbn [Z.eqb Pos.eqb negb andb]. rewrite Hr0 by done.
    zfalse ((n =? 0) || (n >? 2000)). rewrite Hcalloc. cbn [negb].
    rewrite modbusBitsToBytes_spec, u8_id by zlia. by apply built_fr8; lia.
  - unfold modbusBuildRequest0102. cbn [Z.eqb Pos.eqb negb andb]. rewrite Hr0 by done.
    zfalse ((n =? 0) || (n >? 2000)). rewrite Hcalloc. cbn [negb].
    rewrite modbusBitsToBytes_spec, u8_id by zlia. by apply built_fr8; lia.
  - unfold modbusBuildRequest0304. cbn [Z.eqb Pos.eqb negb andb]. rewrite Hr0 by done.
    zfalse ((n =? 0) || (n >? 125)). rewrite Hcalloc. cbn [negb].
    rewrite Z.shiftl_mul_pow2, u8_id, (Z.mul_comm n) by lia. by apply built_fr8; lia.
  - unfold modbusBuildRequest0304. cbn [Z.eqb Pos.eqb negb andb]. rewrite Hr0 by done.
    zfalse ((n =? 0) || (n >? 125)). rewrite Hcalloc. cbn [negb].
    rewrite Z.shiftl_mul_pow2, u8_id, (Z.mul_comm n) by lia. by apply built_fr8; lia.
  - unfold modbusBuildRequest05. rewrite Hcalloc. cbn [negb].
    replace (if negb (v =? 0) then 0xFF00 else 0) with v by (by destruct Hlim; subst).
    replace (if address =? 0 then 0 else 8) with (if negb (address =? 0) then 8 else 0)
      by (by destruct (address =? 0)).
    by apply built_fr8; lia.
  - unfold modbusBuildRequest06. rewrite Hcalloc. cbn [negb].
    replace (if address =? 0 then 0 else 8) with (if negb (address =? 0) then 8 else 0)
      by (by destruct (address =? 0)).
    by apply built_fr8; lia.
  - unfold modbusBuildRequest15. destruct Hwf as (Hi & Hn & Hd & _). destruct Hlim as [Hlim Hdl].
    rewrite modbusBitsToBytes_spec by lia. rewrite <- Hdl. rewrite u8_id by zlia.
    zfalse ((n =? 0) || (n >? 1968)). rewrite Hcalloc. cbn [negb].
    rewrite zeros_frame by lia. assert (is_u8 (zlen d)) by zlia. assert (is_u8 15) by lia.
    pose proof (store16_match be i Hi) as Hsi. pose proof (store16_match be n Hn) as Hsn.
    fill8 (@nil Z). fill8 [address]. fill16 be [address; 15].
    fill16 be [address; 15; i `div` 256; i `mod` 256].
    fill8 [address; 15; i `div` 256; i `mod` 256; n `div` 256; n `mod` 256].
    cbn [app]. rewrite p_request_length_cons, bind_Some. rewrite Nat2Z.id.
    pose proof (fill_bytes [address; 15; i `div` 256; i `mod` 256; n `div` 256; n `mod` 256; zlen d]
                  d [0; 0] Hd) as Hloop.
    match type of Hloop with context [zlen ?h + _] => change (zlen h) with 7 in Hloop end.
    cbn [app] in Hloop. rewrite Hloop, bind_Some.
    rewrite (seal_frame' be ([address; 15] ++ be16 i ++ be16 n ++ zlen d :: d) 0 0);
      [|done | cbn [app length be16]; lia].
    apply built_intro; [done | rewrite adu_length; cbn [app length be16]; lia |].
    by destruct (address =? 0).
  - unfold modbusBuildRequest16. destruct Hwf as (Hi & Hn & Hd & _). destruct Hlim as [Hlim Hdl].
    rewrite Z.shiftl_mul_pow2 by lia. replace (n * 2 ^ 1) with (zlen d) by lia. rewrite u8_id by lia.
    zfalse ((n =? 0) || (n >? 123)). rewrite Hcalloc. cbn [negb].
    rewrite zeros_frame by lia. assert (is_u8 (zlen d)) by zlia. assert (is_u8 16) by lia.
    pose proof (store16_match be i Hi) as Hsi. pose proof (store16_match be n Hn) as Hsn.
    fill8 (@nil Z). fill8 [address]. fill16 be [address; 16].
    fill16 be [address; 16; i `div` 256; i `mod` 256].
    fill8 [address; 16; i `div` 256; i `mod` 256; n `div` 256; n `mod` 256].
    set (ws := words (Z.to_nat n) d).
    assert (zlen ws = n) as Hws by (unfold ws; rewrite words_length; lia).
    pose proof (fill_words be
      [address; 16; i `div` 256; i `mod` 256; n `div` 256; n `mod` 256; zlen d]
      ws (znth ws) [0; 0] (words_ok _ _ Hd)) as Hloop.
    match type of Hloop with context [zlen ?h + _] => change (zlen h) with 7 in Hloop end.
    cbn [app] in Hloop |- *. rewrite Hws in Hloop. replace (2 * n) with (zlen d) in Hloop by lia.
    replace (Z.to_nat n) with (length ws) by lia.
    rewrite Hloop, bind_Some; [|done].
    replace (flat_map be16 ws) with d by (symmetry; apply be16_words; [done | lia]).
    replace (9 + zlen d - 2) with (7 + 2 * n) by lia.
    rewrite (seal_frame' be ([address; 16] ++ be16 i ++ be16 n ++ zlen d :: d) 0 0);
      [|done | cbn [app length be16]; lia].
    apply built_intro; [done | rewrite adu_length; cbn [app length be16]; lia |].
    by destruct (address =? 0).
  - unfold modbusBuildRequest22. destruct Hwf as (Hi & Hn & Ho). rewrite Hcalloc. cbn [negb].
    rewrite (build_frame10 be address 22 _ _ _ _ _ _ _ _ _ _ Ha ltac:(lia)
               (store16_match be i Hi) (store16_match be am Hn) (store16_match be om Ho)).
    apply built_intro; [done | by rewrite adu_length | by destruct (address =? 0)].
Qed.
End builders.

(** ** Response parsers *)

(** The outcome of a parser: accepted with some data, or an error that leaves
    the data cleared. *)
Definition outcome (s : ModbusMaster) (res : MasterResult) (od : option MasterData) : Prop :=
  match od with
  | Some d => res = Some (MODBUS_ERROR_OK, set_mparseError (set_data s d) MODBUS_FERROR_OK)
  | None => exists e s', res = Some (e, s') /\ e <> MODBUS_ERROR_OK /\ mm_data s' = mm_data s
              /\ mm_exception s' = mm_exception s
  end.

Lemma fails s e : outcome s (parse_fail s e) None.
Proof. by eexists _, _. Qed.

Lemma load16_eqb be a b c d :
  is_u8 a -> is_u8 b -> is_u8 c -> is_u8 d ->
  (load16 be a b =? load16 be c d) = (a =? c) && (b =? d).
Proof.
  intros. apply eq_bool_prop_intro. rewrite !Is_true_true, andb_true_iff, !Z.eqb_eq.
  split; [by apply load16_inj | by intros [-> ->]].
Qed.

Lemma p_response_length_cons a f n l : p_response_length (a :: f :: n :: l) = Some n.
Proof. done. Qed.

Section parsers.
Context (be : bool) (calloc_ok : Z -> bool) (s : ModbusMaster).
Hypothesis Hcalloc : forall n, calloc_ok n = true.
Hypothesis Hdata : mm_data s = data_reset.

(** The first [k] bytes agree and the address is not the broadcast one. *)
Definition echoes (k : nat) (f q : list Z) : bool :=
  negb (default 0 (f !! 0%nat) =? 0) && bool_decide (take k f = take k q).

Lemma cons_eqb (x y : Z) l k :
  bool_decide (x :: l = y :: k) = (x =? y) && bool_decide (l = k).
Proof.
  apply eq_bool_prop_intro.
  rewrite !Is_true_true, andb_true_iff, !bool_decide_eq_true, Z.eqb_eq.
  split; [by intros [= -> ->] | by intros [-> ->]].
Qed.

Lemma ParseResponse06_outcome f q rest rest' :
  bytes_ok f -> bytes_ok q -> 4 <= zlen f -> 4 <= zlen q ->
  mm_response_length s = zlen f -> mm_request_length s = zlen q ->
  outcome s (modbusParseResponse06 be calloc_ok s (Some (f ++ rest)) (Some (q ++ rest')))
    (if (zlen f =? 8) && (zlen q =? 8) && echoes 6 f q
     then match f with
          | a :: _ :: i1 :: i0 :: v1 :: v0 :: _ =>
              Some (mkData a (word i1 i0) 1 2 MODBUS_HOLDING_REGISTER 6
                      (Some [u8 (word v1 v0); 0]))
          | _ => None
          end
     else None).
Proof.
  intros Hf Hq Hlf Hlq Hrf Hrq. unfold modbusParseResponse06. rewrite Hrf, Hrq.
  destruct (zlen f =? 8) eqn:Ef; cbn [negb orb andb]; [|apply fails].
  destruct (zlen q =? 8) eqn:Eq; cbn [negb orb andb]; [|apply fails].
  zbool.
  destruct f as [|a [|fn [|i1 [|i0 [|v1 [|v0 [|k1 [|k0 [|]]]]]]]]]; cbn in Ef; try lia.
  destruct q as [|a' [|fn' [|i1' [|i0' [|v1' [|v0' [|k1' [|k0' [|]]]]]]]]]; cbn in Eq; try lia.
  cbn [app]. name_bytes. load_fields. cbn [mbind option_bind].
  unfold echoes. cbn [take]. change (default 0 ((a :: _) !! 0%nat)) with a.
  rewrite !cons_eqb, !load16_eqb by done. rewrite bool_decide_eq_true_2 by done.
  destruct (a =? 0); cbn [negb andb]; [apply fails|].
  destruct (a =? a'); cbn [negb andb]; [|apply fails].
  destruct (fn =? fn'); cbn [negb andb]; [|apply fails].
  destruct (i1 =? i1'), (i0 =? i0'); cbn [negb andb]; try apply fails.
  destruct (v1 =? v1'), (v0 =? v0'); cbn [negb andb]; try apply fails.
  rewrite Hcalloc. cbn [negb]. unfold store_reg. change (zeros 2) with [0; 0].
  rewrite (wr8_snoc [] 0 [0]) by done. done.
Qed.

Lemma ParseResponse05_outcome f q rest rest' :
  bytes_ok f -> bytes_ok q -> 4 <= zlen f -> 4 <= zlen q ->
  mm_response_length s = zlen f -> mm_request_length s = zlen q ->
  outcome s (modbusParseResponse05 be calloc_ok s (Some (f ++ rest)) (Some (q ++ rest')))
    (if (zlen f =? 8) && (zlen q =? 8) && echoes 6 f q
     then match f with
          | a :: _ :: i1 :: i0 :: v1 :: v0 :: _ =>
              Some (mkData a (word i1 i0) 1 1 MODBUS_COIL 5 (Some [Z.b2z (negb (word v1 v0 =? 0))]))
          | _ => None
          end
     else None).
Proof.
  intros Hf Hq Hlf Hlq Hrf Hrq. unfold modbusParseResponse05. rewrite Hrf, Hrq.
  destruct (zlen f =? 8) eqn:Ef; cbn [negb orb andb]; [|apply fails].
  destruct (zlen q =? 8) eqn:Eq; cbn [negb orb andb]; [|apply fails].
  zbool.
  destruct f as [|a [|fn [|i1 [|i0 [|v1 [|v0 [|k1 [|k0 [|]]]]]]]]]; cbn in Ef; try lia.
  destruct q as [|a' [|fn' [|i1' [|i0' [|v1' [|v0' [|k1' [|k0' [|]]]]]]]]]; cbn in Eq; try lia.
  cbn [app]. name_bytes. load_fields. cbn [mbind option_bind].
  unfold echoes. cbn [take]. change (default 0 ((a :: _) !! 0%nat)) with a.
  rewrite !cons_eqb, !load16_eqb by done. rewrite bool_decide_eq_true_2 by done.
  destruct (a =? 0); cbn [negb andb]; [apply fails|].
  destruct (a =? a'); cbn [negb andb]; [|apply fails].
  destruct (fn =? fn'); cbn [negb andb]; [|apply fails].
  destruct (Z.eqb_spec i1 i1') as [<-|], (Z.eqb_spec i0 i0') as [<-|]; cbn [negb andb];
    try apply fails.
  destruct (v1 =? v1'), (v0 =? v0'); cbn [negb andb]; try apply fails.
  rewrite Hcalloc. cbn [negb].
  replace (load16 be v1 v0 =? 0) with (word v1 v0 =? 0).
  2: { unfold load16. destruct be; repeat zcase; lia || done. }
  unfold outcome. by destruct (word v1 v0 =? 0).
Qed.

(** The echo of a multiple write: [limit] is the count the parser allows. *)
Lemma multiple_echo (limit : Z) (mk : Z -> Z -> Z -> MasterData) f q rest rest' :
  bytes_ok f -> bytes_ok q -> 4 <= zlen f -> 4 <= zlen q ->
  mm_response_length s = zlen f -> mm_request_length s = zlen q ->
  outcome s
    (return_if mm_request_length s <? 7 with parse_fail s MODBUS_FERROR_LENGTH ;;
     rlength ← p_request_length (q ++ rest');
     return_if negb (mm_request_length s =? 9 + rlength) || negb (mm_response_length s =? 8)
       with parse_fail s MODBUS_FERROR_LENGTH ;;
     address ← p_address (f ++ rest);
     return_if address =? 0 with parse_fail s MODBUS_FERROR_BROADCAST ;;
     raddress ← p_address (q ++ rest');
     return_if negb (address =? raddress) with parse_fail s MODBUS_FERROR_MISM_ADDR ;;
     function ← p_function (f ++ rest);
     rfunction ← p_function (q ++ rest');
     return_if negb (function =? rfunction) with parse_fail s MODBUS_FERROR_MISM_FUN ;;
     index ← p_index be (f ++ rest);
     rindex ← p_index be (q ++ rest');
     return_if negb (index =? rindex) with parse_fail s MODBUS_FERROR_MISM_INDEX ;;
     rawcount ← p_count be (f ++ rest);
     rcount ← p_count be (q ++ rest');
     return_if negb (rawcount =? rcount) with parse_fail s MODBUS_FERROR_MISM_COUNT ;;
     let count := modbusMatchEndian be rawcount in
     return_if count >? limit with parse_fail s MODBUS_FERROR_COUNT ;;
     Some (MODBUS_ERROR_OK,
           set_mparseError (set_data s (mk address (modbusMatchEndian be index) count))
             MODBUS_FERROR_OK))
    (if (7 <=? zlen q) && (zlen q =? 9 + default 0 (q !! 6%nat)) && (zlen f =? 8) && echoes 6 f q
     then match f with
          | a :: _ :: i1 :: i0 :: c1 :: c0 :: _ =>
              if limit <? word c1 c0 then None else Some (mk a (word i1 i0) (word c1 c0))
          | _ => None
          end
     else None).
Proof.
  intros Hf Hq Hlf Hlq Hrf Hrq. rewrite Hrf, Hrq.
  rewrite (Z.ltb_antisym 7 (zlen q)).
  destruct (Z.leb_spec 7 (zlen q)) as [E7|E7]; cbn [negb orb andb]; [|apply fails].
  destruct q as [|a' [|fn' [|i1' [|i0' [|v1' [|v0' [|n' q]]]]]]]; cbn [length] in E7; try lia.
  cbn [app]. rewrite p_request_length_cons. cbn [mbind option_bind].
  change (default 0 ((a' :: _) !! 6%nat)) with n'.
  destruct (_ =? 9 + n'); cbn [negb orb andb]; [|apply fails].
  destruct (zlen f =? 8) eqn:Ef; cbn [negb orb andb]; [|apply fails]. zbool.
  destruct f as [|a [|fn [|i1 [|i0 [|v1 [|v0 [|k1 [|k0 [|]]]]]]]]]; cbn in Ef; try lia.
  cbn [app]. name_bytes. load_fields. cbn [mbind option_bind].
  unfold echoes. cbn [take]. change (default 0 ((a :: _) !! 0%nat)) with a.
  rewrite !cons_eqb, !load16_eqb by done. rewrite bool_decide_eq_true_2 by done.
  destruct (a =? 0); cbn [negb andb]; [apply fails|].
  destruct (a =? a'); cbn [negb andb]; [|apply fails].
  destruct (fn =? fn'); cbn [negb andb]; [|apply fails].
  destruct (i1 =? i1'), (i0 =? i0'); cbn [negb andb]; try apply fails.
  destruct (v1 =? v1'), (v0 =? v0'); cbn [negb andb]; try apply fails.
  rewrite Z.gtb_ltb. destruct (limit <? word v1 v0); [apply fails | done].
Qed.

Lemma ParseResponse22_outcome f q rest rest' :
  bytes_ok f -> bytes_ok q -> 4 <= zlen f -> 4 <= zlen q ->
  mm_response_length s = zlen f -> mm_request_length s = zlen q ->
  outcome s (modbusParseResponse22 be s (Some (f ++ rest)) (Some (q ++ rest')))
    (if (zlen f =? 10) && (zlen q =? 10) && echoes 8 f q
     then match f with
          | a :: _ :: i1 :: i0 :: _ =>
              Some (mkData a (word i1 i0) 1 0 MODBUS_HOLDING_REGISTER 22 None)
          | _ => None
          end
     else None).
Proof.
  intros Hf Hq Hlf Hlq Hrf Hrq. unfold modbusParseResponse22. rewrite Hrf, Hrq.
  destruct (zlen f =? 10) eqn:Ef; cbn [negb orb andb]; [|apply fails].
  destruct (zlen q =? 10) eqn:Eq; cbn [negb orb andb]; [|apply fails].
  zbool.
  destruct f as [|a [|fn [|i1 [|i0 [|v1 [|v0 [|o1 [|o0 [|k1 [|k0 [|]]]]]]]]]]]; cbn in Ef; try lia.
  destruct q as [|a' [|fn' [|i1' [|i0' [|v1' [|v0' [|o1' [|o0' [|k1' [|k0' [|]]]]]]]]]]];
    cbn in Eq; try lia.
  cbn [app]. name_bytes. load_fields. cbn [mbind option_bind].
  unfold echoes. cbn [take]. change (default 0 ((a :: _) !! 0%nat)) with a.
  rewrite !cons_eqb, !load16_eqb by done. rewrite bool_decide_eq_true_2 by done.
  destruct (a =? 0); cbn [negb andb]; [apply fails|].
  destruct (a =? a'); cbn [negb andb]; [|apply fails].
  destruct (fn =? fn'); cbn [negb andb]; [|apply fails].
  destruct (i1 =? i1'), (i0 =? i0'); cbn [negb andb]; try apply fails.
  destruct (v1 =? v1'), (v0 =? v0'), (o1 =? o1'), (o0 =? o0'); cbn [negb andb orb];
    try apply fails.
  rewrite Hdata. done.
Qed.

(** The head of a read response: what both read parsers check before the count. *)
Lemma response_words l : bytes_ok l -> forall n d rest i,
  l = d ++ rest -> 2 * Z.of_nat n <= zlen d -> 0 <= i < Z.of_nat n ->
  forall a fn len, (fun v => modbusMatchEndian be v)
    <$> p_response_value16 be (a :: fn :: len :: l) i = znth (words n d) i.
Proof.
  intros Hl n d rest i -> Hn Hi a fn len. apply Forall_app in Hl as [Hd _].
  apply (rd16_words be [a; fn; len] d rest n i); done.
Qed.

Definition regs_type (t : RegTable) : ModbusDataType :=
  match t with Holding => MODBUS_HOLDING_REGISTER | Inputs => MODBUS_INPUT_REGISTER end.
Definition bits_type (t : BitTable) : ModbusDataType :=
  match t with Coils => MODBUS_COIL | Discretes => MODBUS_DISCRETE_INPUT end.

(** What is left of the registers received: their low bytes, in the first half of
    the block. *)
Definition low_regs (ws : list Z) : list Z := map u8 ws ++ zeros (zlen ws).

Lemma fill_low (ws : list Z) (src : Z -> option Z) :
  (forall i, 0 <= i < zlen ws -> modbusMatchEndian be <$> src i = znth ws i) ->
  for_range (length ws) 0 (fun i mem => v ← src i; store_reg mem i (modbusMatchEndian be v)) (zeros (zlen ws + zlen ws))
  = Some (low_regs ws).
Proof.
  intros Hsrc.
  destruct (for_range_inv
    (fun i m => m = map u8 (take (Z.to_nat i) ws) ++ zeros (zlen ws - i) ++ zeros (zlen ws))
    (fun i mem => v ← src i; store_reg mem i (modbusMatchEndian be v))
    (length ws) 0 (zeros (zlen ws + zlen ws))) as (m & -> & ->).
  - intros i m Hi ->. destruct (znth_lt ws i) as [w Hw]; [lia|]. specialize (Hsrc i ltac:(lia)). rewrite Hw in Hsrc.
    destruct (src i) as [v|]; [|done]. injection Hsrc as Hv. rewrite bind_Some, Hv. unfold store_reg.
    apply znth_Some in Hw as [_ Hw].
    rewrite (zeros_succ (zlen ws - i)) by lia. cbn [app].
    rewrite wr8_snoc by (rewrite length_map, length_take; lia). eexists. split; [done|].
    replace (Z.to_nat (i + 1)) with (S (Z.to_nat i)) by lia.
    erewrite take_S_r by done. rewrite map_app, <- !app_assoc. cbn [map app].
    by replace (zlen ws - (i + 1)) with (zlen ws - i - 1) by lia.
  - rewrite Z.sub_0_r. cbn. by rewrite (zeros_split (zlen ws) (zlen ws)) by lia.
  - rewrite firstn_all2 by lia. unfold low_regs. by replace (zlen ws - (0 + zlen ws)) with 0 by lia.
Qed.

Lemma ParseResponse0304_outcome t f q rest rest' :
  bytes_ok (f ++ rest) -> bytes_ok q -> 4 <= zlen f -> 4 <= zlen q ->
  mm_response_length s = zlen f -> mm_request_length s = zlen q ->
  f !! 1%nat = Some (regs_function t) ->
  outcome s (modbusParseResponse0304 be calloc_ok s (Some (f ++ rest)) (Some (q ++ rest')))
    (match f, q with
     | a :: _ :: n :: d, _ :: _ :: i1 :: i0 :: c1 :: c0 :: _ =>
         if (zlen f =? 5 + n) && (zlen q =? 8) && echoes 2 f q
            && negb (n =? 0) && (n =? 2 * word c1 c0) && (n <=? 250)
         then Some (mkData a (word i1 i0) (word c1 c0) n (regs_type t) (regs_function t)
                      (Some (low_regs (words (Z.to_nat (word c1 c0)) d))))
         else None
     | _, _ => None
     end).
Proof.
  intros Hf Hq Hlf Hlq Hrf Hrq Hfn. unfold modbusParseResponse0304. rewrite Hrf, Hrq.
  destruct f as [|a [|fn [|n d]]]; cbn [length] in Hlf; try lia. injection Hfn as ->.
  cbn [app] in Hf |- *. name_bytes. rewrite p_function_cons, p_response_length_cons.
  cbn [mbind option_bind].
  replace (negb (regs_function t =? 3) && negb (regs_function t =? 4)) with false
    by (by destruct t).
  destruct (_ =? 5 + n) eqn:Ef; cbn [negb orb andb].
  2: { destruct q as [|? [|? [|? [|? [|? [|? ?]]]]]]; apply fails. }
  destruct (zlen q =? 8) eqn:Eq; cbn [negb orb andb].
  2: { destruct q as [|? [|? [|? [|? [|? [|? ?]]]]]]; apply fails. }
  zbool. cbn [length] in Ef.
  destruct q as [|a' [|fn' [|i1 [|i0 [|c1 [|c0 [|k1 [|k0 [|]]]]]]]]]; cbn in Eq; try lia.
  cbn [app]. name_bytes. load_fields. cbn [mbind option_bind].
  unfold echoes. cbn [take]. change (default 0 ((a :: _) !! 0%nat)) with a.
  rewrite !cons_eqb. rewrite bool_decide_eq_true_2 by done.
  destruct (a =? 0); cbn [negb andb]; [apply fails|].
  destruct (a =? a'); cbn [negb andb]; [|apply fails].
  destruct (regs_function t =? fn'); cbn [negb andb]; [|apply fails].
  rewrite Z.shiftl_mul_pow2, (Z.mul_comm (word c1 c0)) by lia. change (2 ^ 1) with 2.
  rewrite Z.gtb_ltb, (Z.ltb_antisym n 250).
  destruct (Z.eqb_spec n 0); cbn [negb andb orb]; [apply fails|].
  destruct (Z.eqb_spec n (2 * word c1 c0)) as [En|]; cbn [negb andb orb]; [|apply fails].
  destruct (n <=? 250); cbn [negb]; [|apply fails].
  rewrite Hcalloc. cbn [negb].
  rewrite Z.shiftr_div_pow2 by lia. change (2 ^ 1) with 2.
  replace (n `div` 2 * 2) with n by zlia.
  set (ws := words (Z.to_nat (word c1 c0)) d).
  assert (zlen ws = word c1 c0) as Hws by (unfold ws; rewrite words_length; lia).
  pose proof (fill_low ws (p_response_value16 be (a :: regs_function t :: n :: d ++ rest))) as Hloop.
  replace (zlen ws + zlen ws) with n in Hloop by lia. replace (Z.to_nat (word c1 c0)) with (length ws) by lia.
  rewrite Hloop.
  { unfold outcome. cbn [mbind option_bind]. rewrite match_load16 by done. by destruct t. }
  intros i Hi. apply (response_words _ Hf _ d rest); [done | lia | lia].
Qed.

Lemma ParseResponse0102_outcome t f q rest rest' :
  bytes_ok (f ++ rest) -> bytes_ok q -> 4 <= zlen f -> 4 <= zlen q ->
  mm_response_length s = zlen f -> mm_request_length s = zlen q ->
  f !! 1%nat = Some (bits_function t) ->
  outcome s (modbusParseResponse0102 be calloc_ok s (Some (f ++ rest)) (Some (q ++ rest')))
    (match f, q with
     | a :: _ :: n :: d, _ :: _ :: i1 :: i0 :: c1 :: c0 :: _ =>
         if (zlen f =? 5 + n) && (zlen q =? 8) && echoes 2 f q
            && negb (n =? 0) && (n <=? 250) && (n =? (word c1 c0 + 7) `div` 8)
         then Some (mkData a (word i1 i0) (word c1 c0) n (bits_type t) (bits_function t)
                      (Some (take (Z.to_nat n) d)))
         else None
     | _, _ => None
     end).
Proof.
  intros Hf Hq Hlf Hlq Hrf Hrq Hfn. unfold modbusParseResponse0102. rewrite Hrf, Hrq.
  destruct f as [|a [|fn [|n d]]]; cbn [length] in Hlf; try lia. injection Hfn as ->.
  cbn [app] in Hf |- *. name_bytes. rewrite p_function_cons, p_response_length_cons.
  cbn [mbind option_bind].
  replace (negb (bits_function t =? 1) && negb (bits_function t =? 2)) with false
    by (by destruct t).
  destruct (_ =? 5 + n) eqn:Ef; cbn [negb orb andb].
  2: { destruct q as [|? [|? [|? [|? [|? [|? ?]]]]]]; apply fails. }
  destruct (zlen q =? 8) eqn:Eq; cbn [negb orb andb].
  2: { destruct q as [|? [|? [|? [|? [|? [|? ?]]]]]]; apply fails. }
  zbool. cbn [length] in Ef.
  destruct q as [|a' [|fn' [|i1 [|i0 [|c1 [|c0 [|k1 [|k0 [|]]]]]]]]]; cbn in Eq; try lia.
  cbn [app]. name_bytes. load_fields. cbn [mbind option_bind].
  unfold echoes. cbn [take]. change (default 0 ((a :: _) !! 0%nat)) with a.
  rewrite !cons_eqb. rewrite bool_decide_eq_true_2 by done.
  destruct (a =? 0); cbn [negb andb]; [apply fails|].
  destruct (a =? a'); cbn [negb andb]; [|apply fails].
  destruct (bits_function t =? fn'); cbn [negb andb]; [|apply fails].
  rewrite modbusBitsToBytes_spec by lia.
  rewrite Z.gtb_ltb, (Z.ltb_antisym n 250).
  destruct (Z.eqb_spec n 0); cbn [negb andb orb]; [apply fails|].
  destruct (n <=? 250); cbn [negb andb orb]; [|apply fails].
  destruct (Z.eqb_spec n ((word c1 c0 + 7) `div` 8)) as [En|]; cbn [negb andb orb]; [|apply fails].
  rewrite Hcalloc, <- En. cbn [negb].
  unfold rd_bytes. cbn [length]. rewrite length_app.
  ztrue ((0 <=? 3) && (0 <=? n) && (3 + n <=? Z.of_nat (S (S (S (length d + length rest)))))).
  change (drop (Z.to_nat 3) (a :: bits_function t :: n :: d ++ rest)) with (d ++ rest).
  rewrite take_app_le by lia. cbn [mbind option_bind].
  unfold wr_bytes. rewrite length_take.
  pose proof (zeros_len n ltac:(lia)) as Hz.
  ztrue ((0 <=? 0) && (0 + Z.of_nat (Z.to_nat n `min` length d) <=? zlen (zeros n))).
  rewrite <- (app_nil_r (zeros n)).
  rewrite list_inserts_0_r by (rewrite length_take; lia). rewrite app_nil_r. cbn [mbind option_bind].
  unfold outcome. rewrite match_load16 by done. by destruct t.
Qed.

Lemma ParseResponse15_outcome f q rest rest' :
  bytes_ok f -> bytes_ok q -> 4 <= zlen f -> 4 <= zlen q ->
  mm_response_length s = zlen f -> mm_request_length s = zlen q ->
  outcome s (modbusParseResponse15 be s (Some (f ++ rest)) (Some (q ++ rest')))
    (if (7 <=? zlen q) && (zlen q =? 9 + default 0 (q !! 6%nat)) && (zlen f =? 8) && echoes 6 f q
     then match f with
          | a :: _ :: i1 :: i0 :: c1 :: c0 :: _ =>
              if 1968 <? word c1 c0 then None
              else Some (mkData a (word i1 i0) (word c1 c0) 0 MODBUS_COIL 15 None)
          | _ => None
          end
     else None).
Proof.
  intros. pose proof (multiple_echo 1968 (fun a i c => mkData a i c 0 MODBUS_COIL 15 (md_mem (mm_data s)))
                        f q rest rest') as H'.
  rewrite Hdata in H'. unfold modbusParseResponse15. rewrite Hdata. by apply H'.
Qed.

Lemma ParseResponse16_outcome f q rest rest' :
  bytes_ok f -> bytes_ok q -> 4 <= zlen f -> 4 <= zlen q ->
  mm_response_length s = zlen f -> mm_request_length s = zlen q ->
  outcome s (modbusParseResponse16 be s (Some (f ++ rest)) (Some (q ++ rest')))
    (if (7 <=? zlen q) && (zlen q =? 9 + default 0 (q !! 6%nat)) && (zlen f =? 8) && echoes 6 f q
     then match f with
          | a :: _ :: i1 :: i0 :: c1 :: c0 :: _ =>
              if 123 <? word c1 c0 then None
              else Some (mkData a (word i1 i0) (word c1 c0) 0 MODBUS_HOLDING_REGISTER 16 None)
          | _ => None
          end
     else None).
Proof.
  intros. pose proof (multiple_echo 123
                        (fun a i c => mkData a i c 0 MODBUS_HOLDING_REGISTER 16 (md_mem (mm_data s)))
                        f q rest rest') as H'.
  rewrite Hdata in H'. unfold modbusParseResponse16. rewrite Hdata. by apply H'.
Qed.
End parsers.
