(* ===== verification/ModbusLink.v ===== *)
(** * Modbus: master and slave together

    The master accepts exactly the replies to the request it sent
    ([reply_data], [accept]); a transaction master - slave - master reads and
    writes the slave's tables. *)

From S2P Require Import Prelude CMem Crc ModbusCommon ModbusFrame ModbusSpec ModbusSlave.
From S2P Require Import ModbusMaster ModbusSlaveCorrect ModbusSession ModbusMasterCorrect.

(** ** Replies to a request *)

(** What the master's [data] holds after the reply [pdu] to [r]: coils as they came, of
    a register its low byte. *)
Definition reply_data (address : Z) (r : Request) (pdu : list Z) : option MasterData :=
  let echo (expected : list Z) d := if bool_decide (pdu = expected) then Some d else None in
  match r with
  | ReadBits t i n =>
      match pdu with
      | fn :: len :: d =>
          if (fn =? bits_function t) && (len =? zlen d) && (len =? (n + 7) `div` 8)
          then Some (mkData address i n len (bits_type t) fn (Some d)) else None
      | _ => None
      end
  | ReadRegs t i n =>
      match pdu with
      | fn :: len :: d =>
          if (fn =? regs_function t) && (len =? zlen d) && (len =? 2 * n)
          then Some (mkData address i n len (regs_type t) fn
                       (Some (low_regs (words (Z.to_nat n) d)))) else None
      | _ => None
      end
  | WriteCoil i v =>
      echo (5 :: be16 i ++ be16 v)
        (mkData address i 1 1 MODBUS_COIL 5 (Some [Z.b2z (negb (v =? 0))]))
  | WriteReg i v =>
      echo (6 :: be16 i ++ be16 v)
        (mkData address i 1 2 MODBUS_HOLDING_REGISTER 6 (Some [u8 v; 0]))
  | WriteCoils i n _ =>
      echo (15 :: be16 i ++ be16 n) (mkData address i n 0 MODBUS_COIL 15 None)
  | WriteRegs i n _ =>
      echo (16 :: be16 i ++ be16 n) (mkData address i n 0 MODBUS_HOLDING_REGISTER 16 None)
  | MaskWrite i am om =>
      echo (22 :: be16 i ++ be16 am ++ be16 om)
        (mkData address i 1 0 MODBUS_HOLDING_REGISTER 22 None)
  end.

(** Whether the frame [f] answers the request [r] sent to [address]. *)
Definition accept (be : bool) (address : Z) (r : Request) (f : list Z) : option MasterData :=
  match f with
  | a :: t =>
      if (4 <=? zlen f) && crc_valid be f && (a =? address) && negb (address =? 0)
      then reply_data address r (take (length t - 2) t) else None
  | [] => None
  end.

(** ** The parsers' conditions, as properties of the reply *)

Lemma echo_cond k a t address tb crc :
  length tb = (k - 1)%nat -> (2 <= k)%nat ->
  (zlen (a :: t) =? Z.of_nat k + 2) && echoes k (a :: t) ((address :: tb) ++ crc)
  = (a =? address) && negb (address =? 0) && bool_decide (take (length t - 2) t = tb).
Proof.
  intros Htb Hk. apply eq_bool_prop_intro. unfold echoes.
  change (default 0 ((a :: t) !! 0%nat)) with a.
  rewrite take_app_le by (cbn; lia). rewrite (take_ge (address :: tb)) by (cbn; lia).
  rewrite !Is_true_true, !andb_true_iff, !negb_true_iff, !bool_decide_eq_true, !Z.eqb_eq, !Z.eqb_neq.
  destruct k as [|k]; [lia|]. cbn [take length].
  replace (S k - 1)%nat with k in Htb by lia. split.
  - intros (Hl & Ha & [= -> Ht]). replace (length t - 2)%nat with k by lia. auto.
  - intros ((-> & Ha) & Ht). apply (f_equal length) in Ht as Hl. rewrite length_take in Hl.
    replace (length t - 2)%nat with k in Ht by lia. split; [lia|]. split; [done|]. by rewrite Ht.
Qed.

Lemma echoes_fn k a fn t address fn' tb :
  (2 <= k)%nat -> fn <> fn' -> echoes k (a :: fn :: t) (address :: fn' :: tb) = false.
Proof.
  intros Hk Hne. unfold echoes. rewrite bool_decide_eq_false_2, andb_false_r; [done|].
  destruct k as [|[|k]]; [lia..|]. cbn. congruence.
Qed.

Lemma echoes_2 a fn t address tb :
  echoes 2 (a :: fn :: t) (address :: fn :: tb) = (a =? address) && negb (address =? 0).
Proof.
  unfold echoes. change (default 0 ((a :: fn :: t) !! 0%nat)) with a. cbn [take].
  apply eq_bool_prop_intro.
  rewrite !Is_true_true, !andb_true_iff, !negb_true_iff, bool_decide_eq_true, Z.eqb_eq, !Z.eqb_neq.
  split; [by intros [? [= ->]] | by intros [-> ?]].
Qed.

Lemma words_take n k d : (2 * n <= k)%nat -> words n (take k d) = words n d.
Proof.
  revert k d. induction n as [|n IH]; intros k d H; [done|].
  destruct k as [|[|k]]; try lia. destruct d as [|a [|b d]]; cbn; try done.
  f_equal. apply IH. lia.
Qed.

(** ** Accepting responses *)

Section accepting.
Context (be : bool) (calloc_ok : Z -> bool).
Hypothesis Hcalloc : forall n, calloc_ok n = true.

Lemma outcome_weaken s res od :
  outcome s res od -> mm_data s = data_reset ->
  exists e s', res = Some (e, s')
    /\ match od with
       | Some d => e = MODBUS_ERROR_OK /\ mm_data s' = d /\ mm_parseError s' = MODBUS_FERROR_OK
       | None => e <> MODBUS_ERROR_OK /\ mm_data s' = data_reset
       end.
Proof.
  intros H Hd. destruct od as [d|].
  - cbn in H. rewrite H. by eexists _, _.
  - destruct H as (e & s' & -> & He & Hs' & _). eexists _, _. split; [done|]. by rewrite Hs'.
Qed.

Lemma reply_data_fn address r fn p :
  fn <> request_function r -> reply_data address r (fn :: p) = None.
Proof.
  intros Hne. destruct r as [[] i n|[] i n|i v|i v|i n d|i n d|i am om]; cbn in *;
    try (rewrite bool_decide_eq_false_2 by congruence; done);
    destruct p; try done; by rewrite (proj2 (Z.eqb_neq _ _) Hne).
Qed.

Lemma accept_fn address r a fn t :
  fn <> request_function r -> 4 <= zlen (a :: fn :: t) -> accept be address r (a :: fn :: t) = None.
Proof.
  intros Hne Hl. unfold accept. case_if; [|done]. cbn [length] in *.
  replace (S (length t) - 2)%nat with (S (length t - 2)) by lia. cbn [take].
  by apply reply_data_fn.
Qed.

(** A slave about to accept [f] as the answer to [q]. *)
Record awaiting (s : ModbusMaster) (f rest q : list Z) : Prop := {
  aw_f : bytes_ok (f ++ rest);
  aw_q : bytes_ok q;
  aw_flen : 4 <= zlen f;
  aw_qlen : 4 <= zlen q;
  aw_data : mm_data s = data_reset;
  aw_response : mm_response_length s = zlen f;
  aw_request : mm_request_length s = zlen q
}.

Lemma awaiting_f s f rest q : awaiting s f rest q -> bytes_ok f.
Proof. intros [H _ _ _ _ _ _]. by apply Forall_app in H as [? _]. Qed.

Abbreviation builtin := (modbusParseResponse_builtin be calloc_ok).
Abbreviation exceptional f fn := (negb (Z.land fn 128 =? 0) && (zlen f =? 5)).

Lemma outcome_none s res od : outcome s res od -> od = None -> outcome s res None.
Proof. by intros ? <-. Qed.

Lemma outcome_eq s res od od' : outcome s res od -> od = od' -> outcome s res od'.
Proof. by intros ? <-. Qed.

(** A response with another function code than the request is not accepted. *)
Lemma other_function s a fn t rest address rfn tb :
  awaiting s (a :: fn :: t) rest (address :: rfn :: tb) -> fn <> rfn ->
  exceptional (a :: fn :: t) fn = false ->
  match builtin s (a :: fn :: t ++ rest) (address :: rfn :: tb) fn with
  | Some res => outcome s res None | None => True end.
Proof.
  intros Hw Hne Hex. pose proof (awaiting_f _ _ _ _ Hw) as Hf. destruct Hw as [Hfr Hq Hfl Hql Hd Hrf Hrq].
  unfold modbusParseResponse_builtin. rewrite Hrf, Hex.
  assert (forall k, (2 <= k)%nat -> echoes k (a :: fn :: t) (address :: rfn :: tb) = false) as Hech.
  { intros. by apply echoes_fn. }
  rewrite <- (app_nil_r (address :: rfn :: tb)).
  change (a :: fn :: t ++ rest) with ((a :: fn :: t) ++ rest).
  destruct (Z.eqb_spec fn 1) as [->|H1]; cbn [orb].
  { eapply outcome_none; [by apply (ParseResponse0102_outcome be calloc_ok s Hcalloc Coils)|].
    destruct t; [done|]. do 4 (destruct tb as [|? tb]; [done|]). by rewrite Hech, ?andb_false_r by lia. }
  destruct (Z.eqb_spec fn 2) as [->|H2]; cbn [orb].
  { eapply outcome_none; [by apply (ParseResponse0102_outcome be calloc_ok s Hcalloc Discretes)|].
    destruct t; [done|]. do 4 (destruct tb as [|? tb]; [done|]). by rewrite Hech, ?andb_false_r by lia. }
  destruct (Z.eqb_spec fn 3) as [->|H3]; cbn [orb].
  { eapply outcome_none; [by apply (ParseResponse0304_outcome be calloc_ok s Hcalloc Holding)|].
    destruct t; [done|]. do 4 (destruct tb as [|? tb]; [done|]). by rewrite Hech, ?andb_false_r by lia. }
  destruct (Z.eqb_spec fn 4) as [->|H4]; cbn [orb].
  { eapply outcome_none; [by apply (ParseResponse0304_outcome be calloc_ok s Hcalloc Inputs)|].
    destruct t; [done|]. do 4 (destruct tb as [|? tb]; [done|]). by rewrite Hech, ?andb_false_r by lia. }
  destruct (Z.eqb_spec fn 5) as [->|H5].
  { eapply outcome_none; [by apply (ParseResponse05_outcome be calloc_ok s Hcalloc)|].
    by rewrite Hech, ?andb_false_r by lia. }
  destruct (Z.eqb_spec fn 6) as [->|H6].
  { eapply outcome_none; [by apply (ParseResponse06_outcome be calloc_ok s Hcalloc)|].
    by rewrite Hech, ?andb_false_r by lia. }
  destruct (Z.eqb_spec fn 15) as [->|H15].
  { eapply outcome_none; [by apply (ParseResponse15_outcome be s Hd)|].
    by rewrite Hech, ?andb_false_r by lia. }
  destruct (Z.eqb_spec fn 16) as [->|H16].
  { eapply outcome_none; [by apply (ParseResponse16_outcome be s Hd)|].
    by rewrite Hech, ?andb_false_r by lia. }
  destruct (Z.eqb_spec fn 22) as [->|H22]; [|done].
  eapply outcome_none; [by apply (ParseResponse22_outcome be s Hd)|].
  by rewrite Hech, ?andb_false_r by lia.
Qed.

(** A response that must repeat the request's fields [tb]. *)
Lemma echo_outcome s res k a t address tb crc od d :
  outcome s res
    (if (zlen (a :: t) =? Z.of_nat k + 2) && echoes k (a :: t) ((address :: tb) ++ crc)
     then od else None) ->
  length tb = (k - 1)%nat -> (2 <= k)%nat ->
  (a = address -> take (length t - 2) t = tb -> od = Some d) ->
  outcome s res
    (if (a =? address) && negb (address =? 0)
     then if bool_decide (take (length t - 2) t = tb) then Some d else None else None).
Proof.
  intros H Htb Hk Hod. rewrite echo_cond in H by done.
  destruct (Z.eqb_spec a address) as [Ea|]; cbn [andb] in *; [|done].
  destruct (negb (address =? 0)); cbn [andb] in *; [|done].
  case_bool_decide as Et; [|done]. by rewrite Hod in H.
Qed.

(** A content without its last two bytes. *)
Lemma take_minus2 (t tb : list Z) :
  2 <= zlen t -> take (length t - 2) t = tb -> exists k1 k0, t = tb ++ [k1; k0].
Proof.
  intros Hl <-. destruct (drop (length t - 2) t) as [|k1 [|k0 [|]]] eqn:E;
    pose proof (f_equal length E) as El; rewrite length_drop in El; cbn in El; try lia.
  exists k1, k0. by rewrite <- E, take_drop.
Qed.

Abbreviation request_adu address r := (adu be (address :: request_pdu r)).

Lemma fixed_adu_length address r : 
  match r with WriteCoils _ _ _ | WriteRegs _ _ _ | MaskWrite _ _ _ => True
  | _ => zlen (request_adu address r) = 8 end.
Proof. destruct r as [[] i n|[] i n|i v|i v|i n d|i n d|i am om]; try done; by rewrite adu_length. Qed.

Lemma same_05 s a t rest address i v :
  is_u16 i -> is_u16 v ->
  awaiting s (a :: 5 :: t) rest (request_adu address (WriteCoil i v)) ->
  outcome s
    (modbusParseResponse05 be calloc_ok s (Some (a :: 5 :: t ++ rest))
       (Some (request_adu address (WriteCoil i v))))
    (if (a =? address) && negb (address =? 0)
     then reply_data address (WriteCoil i v) (take (length (5 :: t) - 2) (5 :: t)) else None).
Proof.
  intros Hi Hv Hw. pose proof (awaiting_f _ _ _ _ Hw) as Hf. destruct Hw as [_ Hq Hfl Hql Hd Hrf Hrq].
  pose proof (ParseResponse05_outcome be calloc_ok s Hcalloc _ _ rest [] Hf Hq Hfl Hql Hrf Hrq) as H.
  rewrite app_nil_r, (fixed_adu_length address (WriteCoil i v)), andb_true_r in H.
  apply (echo_outcome s _ 6 a (5 :: t) address (5 :: be16 i ++ be16 v) _ _ _ H); [done | lia |].
  intros -> (k1 & k0 & [= ->])%take_minus2; [|cbn in Hfl |- *; lia].
  cbn [app be16]. by rewrite !word_be16.
Qed.

Lemma same_06 s a t rest address i v :
  is_u16 i -> is_u16 v ->
  awaiting s (a :: 6 :: t) rest (request_adu address (WriteReg i v)) ->
  outcome s
    (modbusParseResponse06 be calloc_ok s (Some (a :: 6 :: t ++ rest))
       (Some (request_adu address (WriteReg i v))))
    (if (a =? address) && negb (address =? 0)
     then reply_data address (WriteReg i v) (take (length (6 :: t) - 2) (6 :: t)) else None).
Proof.
  intros Hi Hv Hw. pose proof (awaiting_f _ _ _ _ Hw) as Hf. destruct Hw as [_ Hq Hfl Hql Hd Hrf Hrq].
  pose proof (ParseResponse06_outcome be calloc_ok s Hcalloc _ _ rest [] Hf Hq Hfl Hql Hrf Hrq) as H.
  rewrite app_nil_r, (fixed_adu_length address (WriteReg i v)), andb_true_r in H.
  apply (echo_outcome s _ 6 a (6 :: t) address (6 :: be16 i ++ be16 v) _ _ _ H); [done | lia |].
  intros -> (k1 & k0 & [= ->])%take_minus2; [|cbn in Hfl |- *; lia].
  cbn [app be16]. by rewrite !word_be16.
Qed.

Lemma same_22 s a t rest address i am om :
  is_u16 i -> is_u16 am -> is_u16 om ->
  awaiting s (a :: 22 :: t) rest (request_adu address (MaskWrite i am om)) ->
  outcome s
    (modbusParseResponse22 be s (Some (a :: 22 :: t ++ rest))
       (Some (request_adu address (MaskWrite i am om))))
    (if (a =? address) && negb (address =? 0)
     then reply_data address (MaskWrite i am om) (take (length (22 :: t) - 2) (22 :: t))
     else None).
Proof.
  intros Hi Ha Ho Hw. pose proof (awaiting_f _ _ _ _ Hw) as Hf.
  destruct Hw as [_ Hq Hfl Hql Hd Hrf Hrq].
  pose proof (ParseResponse22_outcome be s Hd _ _ rest [] Hf Hq Hfl Hql Hrf Hrq) as H.
  assert (zlen (request_adu address (MaskWrite i am om)) = 10) as Hq10 by (by rewrite adu_length).
  rewrite app_nil_r, Hq10, andb_true_r in H.
  apply (echo_outcome s _ 8 a (22 :: t) address (22 :: be16 i ++ be16 am ++ be16 om) _ _ _ H);
    [done | lia |].
  intros -> (k1 & k0 & [= ->])%take_minus2; [|cbn in Hfl |- *; lia].
  cbn [app be16]. by rewrite !word_be16.
Qed.

Lemma multiple_adu_length address i n d mk :
  mk = WriteCoils \/ mk = WriteRegs ->
  let q := request_adu address (mk i n d) in
  (7 <=? zlen q) && (zlen q =? 9 + default 0 (q !! 6%nat)) = true.
Proof.
  intros H q. assert (zlen q = 9 + zlen d /\ q !! 6%nat = Some (zlen d)) as [-> ->].
  { unfold q. destruct H as [-> | ->]; rewrite adu_length; unfold request_pdu;
      cbn [request_function be16 app length]; (split; [lia | done]). }
  cbn [default from_option id]. apply andb_true_iff. split; [apply Z.leb_le; lia | apply Z.eqb_refl].
Qed.

Lemma same_15 s a t rest address i n d :
  is_u16 i -> 0 < n <= 1968 ->
  awaiting s (a :: 15 :: t) rest (request_adu address (WriteCoils i n d)) ->
  outcome s
    (modbusParseResponse15 be s (Some (a :: 15 :: t ++ rest))
       (Some (request_adu address (WriteCoils i n d))))
    (if (a =? address) && negb (address =? 0)
     then reply_data address (WriteCoils i n d) (take (length (15 :: t) - 2) (15 :: t)) else None).
Proof.
  intros Hi Hn Hw. pose proof (awaiting_f _ _ _ _ Hw) as Hf. destruct Hw as [_ Hq Hfl Hql Hd Hrf Hrq].
  pose proof (ParseResponse15_outcome be s Hd _ _ rest [] Hf Hq Hfl Hql Hrf Hrq) as H.
  rewrite app_nil_r, (multiple_adu_length address i n d WriteCoils) in H by auto.
  cbn [andb] in H.
  change (echoes 6 ?f (request_adu address (WriteCoils i n d)))
    with (echoes 6 f ((address :: 15 :: be16 i ++ be16 n)
            ++ (zlen d :: d ++ crc_bytes be (address :: request_pdu (WriteCoils i n d))))) in H.
  apply (echo_outcome s _ 6 a (15 :: t) address (15 :: be16 i ++ be16 n) _ _ _ H); [done | lia |].
  intros -> (k1 & k0 & [= ->])%take_minus2; [|cbn in Hfl |- *; lia].
  cbn [app be16]. rewrite !word_be16. by zfalse (1968 <? n).
Qed.

Lemma same_16 s a t rest address i n d :
  is_u16 i -> 0 < n <= 123 ->
  awaiting s (a :: 16 :: t) rest (request_adu address (WriteRegs i n d)) ->
  outcome s
    (modbusParseResponse16 be s (Some (a :: 16 :: t ++ rest))
       (Some (request_adu address (WriteRegs i n d))))
    (if (a =? address) && negb (address =? 0)
     then reply_data address (WriteRegs i n d) (take (length (16 :: t) - 2) (16 :: t)) else None).
Proof.
  intros Hi Hn Hw. pose proof (awaiting_f _ _ _ _ Hw) as Hf. destruct Hw as [_ Hq Hfl Hql Hd Hrf Hrq].
  pose proof (ParseResponse16_outcome be s Hd _ _ rest [] Hf Hq Hfl Hql Hrf Hrq) as H.
  rewrite app_nil_r, (multiple_adu_length address i n d WriteRegs) in H by auto.
  cbn [andb] in H.
  change (echoes 6 ?f (request_adu address (WriteRegs i n d)))
    with (echoes 6 f ((address :: 16 :: be16 i ++ be16 n)
            ++ (zlen d :: d ++ crc_bytes be (address :: request_pdu (WriteRegs i n d))))) in H.
  apply (echo_outcome s _ 6 a (16 :: t) address (16 :: be16 i ++ be16 n) _ _ _ H); [done | lia |].
  intros -> (k1 & k0 & [= ->])%take_minus2; [|cbn in Hfl |- *; lia].
  cbn [app be16]. rewrite !word_be16. by zfalse (123 <? n).
Qed.

Lemma same_0304 s a tt t rest address i n :
  is_u16 i -> 0 < n <= 125 ->
  awaiting s (a :: regs_function tt :: t) rest (request_adu address (ReadRegs tt i n)) ->
  outcome s
    (modbusParseResponse0304 be calloc_ok s (Some (a :: regs_function tt :: t ++ rest))
       (Some (request_adu address (ReadRegs tt i n))))
    (if (a =? address) && negb (address =? 0)
     then reply_data address (ReadRegs tt i n)
            (take (length (regs_function tt :: t) - 2) (regs_function tt :: t)) else None).
Proof.
  intros Hi Hn Hw. pose proof (awaiting_f _ _ _ _ Hw) as Hf.
  destruct Hw as [Hfr Hq Hfl Hql Hd Hrf Hrq].
  pose proof (ParseResponse0304_outcome be calloc_ok s Hcalloc tt _ _ rest [] Hfr Hq Hfl Hql Hrf Hrq eq_refl) as H.
  rewrite app_nil_r, (fixed_adu_length address (ReadRegs tt i n)) in H.
  unfold adu, request_pdu in H. rewrite request_function_regs in H. cbn [app be16] in H.
  destruct t as [|len d]; [cbn in Hfl; lia|].
  rewrite echoes_2, !word_be16 in H. unfold adu, request_pdu. rewrite request_function_regs.
  cbn [app be16]. change ((a :: ?x) ++ rest) with (a :: x ++ rest) in H. cbn [app] in H.
  eapply outcome_eq; [exact H|]. clear H. cbn [length] in *.
  destruct d as [|d0 d]; [cbn in Hfl; lia|]. cbn [length] in *.
  assert (is_u8 len) as Hlen8 by (do 2 apply Forall_cons in Hf as [_ Hf]; by apply Forall_cons in Hf as [? _]).
  destruct d as [|d1 d].
  { cbn [length]. zfalse (Z.of_nat 4 =? 5 + len). by repeat case_if. }
  cbn [length]. replace (S (S (S (S (length d)))) - 2)%nat with (S (S (length d))) by lia.
  cbn [take reply_data]. rewrite !Z.eqb_refl.
  assert (zlen (take (length d) (d0 :: d1 :: d)) = zlen d) as Htl by (rewrite length_take; cbn; lia).
  rewrite Htl. cbn [andb].
  replace (Z.of_nat (S (S (S (S (S (length d)))))) =? 5 + len) with (len =? zlen d)
    by (repeat zcase; lia || done).
  cbn [Z.eqb Pos.eqb andb].
  destruct (Z.eqb_spec a address) as [->|]; cbn [andb]; rewrite ?andb_false_r; cbn [andb]; [|done].
  destruct (negb (address =? 0)); cbn [andb]; rewrite ?andb_false_r; cbn [andb]; [|done].
  destruct (Z.eqb_spec len (zlen d)) as [El|]; cbn [andb]; [|done].
  destruct (Z.eqb_spec len (2 * n)) as [En|]; cbn [andb]; rewrite ?andb_false_r; cbn [andb]; [|done].
  zfalse (len =? 0). ztrue (len <=? 250). cbn [negb andb].
  by rewrite words_take by lia.
Qed.

Lemma same_0102 s a tt t rest address i n :
  is_u16 i -> 0 < n <= 2000 ->
  awaiting s (a :: bits_function tt :: t) rest (request_adu address (ReadBits tt i n)) ->
  outcome s
    (modbusParseResponse0102 be calloc_ok s (Some (a :: bits_function tt :: t ++ rest))
       (Some (request_adu address (ReadBits tt i n))))
    (if (a =? address) && negb (address =? 0)
     then reply_data address (ReadBits tt i n)
            (take (length (bits_function tt :: t) - 2) (bits_function tt :: t)) else None).
Proof.
  intros Hi Hn Hw. pose proof (awaiting_f _ _ _ _ Hw) as Hf.
  destruct Hw as [Hfr Hq Hfl Hql Hd Hrf Hrq].
  pose proof (ParseResponse0102_outcome be calloc_ok s Hcalloc tt _ _ rest [] Hfr Hq Hfl Hql Hrf Hrq eq_refl) as H.
  rewrite app_nil_r, (fixed_adu_length address (ReadBits tt i n)) in H.
  unfold adu, request_pdu in H. rewrite request_function_bits in H. cbn [app be16] in H.
  destruct t as [|len d]; [cbn in Hfl; lia|].
  rewrite echoes_2, !word_be16 in H. unfold adu, request_pdu. rewrite request_function_bits.
  cbn [app be16]. change ((a :: ?x) ++ rest) with (a :: x ++ rest) in H. cbn [app] in H.
  eapply outcome_eq; [exact H|]. clear H. cbn [length] in *.
  destruct d as [|d0 d]; [cbn in Hfl; lia|]. cbn [length] in *.
  assert (is_u8 len) as Hlen8 by (do 2 apply Forall_cons in Hf as [_ Hf]; by apply Forall_cons in Hf as [? _]).
  destruct d as [|d1 d].
  { cbn [length]. zfalse (Z.of_nat 4 =? 5 + len). by repeat case_if. }
  cbn [length]. replace (S (S (S (S (length d)))) - 2)%nat with (S (S (length d))) by lia.
  cbn [take reply_data]. rewrite !Z.eqb_refl.
  assert (zlen (take (length d) (d0 :: d1 :: d)) = zlen d) as Htl by (rewrite length_take; cbn; lia).
  rewrite Htl. cbn [andb].
  replace (Z.of_nat (S (S (S (S (S (length d)))))) =? 5 + len) with (len =? zlen d)
    by (repeat zcase; lia || done).
  cbn [Z.eqb Pos.eqb andb].
  destruct (Z.eqb_spec a address) as [->|]; cbn [andb]; rewrite ?andb_false_r; cbn [andb]; [|done].
  destruct (negb (address =? 0)); cbn [andb]; rewrite ?andb_false_r; cbn [andb]; [|done].
  destruct (Z.eqb_spec len (zlen d)) as [El|]; cbn [andb]; [|done].
  destruct (Z.eqb_spec len ((n + 7) `div` 8)) as [En|]; cbn [andb]; rewrite ?andb_false_r; cbn [andb]; [|done].
  zfalse (len =? 0). ztrue (len <=? 250). cbn [negb andb].
  by rewrite El, Nat2Z.id.
Qed.

Lemma same_function s a t rest address r :
  request_limits r ->
  awaiting s (a :: request_function r :: t) rest (request_adu address r) ->
  crc_valid be (a :: request_function r :: t) = true ->
  exists res, builtin s (a :: request_function r :: t ++ rest) (request_adu address r)
                (request_function r) = Some res
    /\ outcome s res (accept be address r (a :: request_function r :: t)).
Proof.
  intros [Hrwf Hlim] Hw Hcrc. pose proof (aw_flen _ _ _ _ Hw) as Hfl.
  unfold accept. rewrite Hcrc. ztrue (4 <=? zlen (a :: request_function r :: t)). cbn [andb].
  unfold modbusParseResponse_builtin.
  replace (Z.land (request_function r) 128 =? 0) with true by (by destruct r as [[]|[]| | | | |]).
  cbn [negb andb].
  destruct r as [[] i n|[] i n|i v|i v|i n d|i n d|i am om];
    cbn [request_function Z.eqb Pos.eqb orb] in *; cbn [request_wf] in Hrwf.
  - eexists. split; [done|]. apply (same_0102 s a Coils t rest); lia || done.
  - eexists. split; [done|]. apply (same_0102 s a Discretes t rest); lia || done.
  - eexists. split; [done|]. apply (same_0304 s a Holding t rest); lia || done.
  - eexists. split; [done|]. apply (same_0304 s a Inputs t rest); lia || done.
  - eexists. split; [done|]. apply same_05; lia || done.
  - eexists. split; [done|]. apply same_06; lia || done.
  - eexists. split; [done|]. apply same_15; lia || done.
  - eexists. split; [done|]. apply same_16; lia || done.
  - eexists. split; [done|]. apply same_22; lia || done.
Qed.

(** The application stores the bytes received in [status->response]. *)
Definition receive (s : ModbusMaster) (f rest : list Z) : ModbusMaster :=
  set_mresponse s (Some (f ++ rest)) (zlen f).

(** The master [s] has built the request [r]. *)
Definition requested (s : ModbusMaster) (address : Z) (r : Request) : Prop :=
  mm_request_frame s = Some (request_adu address r)
  /\ mm_request_length s = zlen (request_adu address r).

Lemma request_pdu_ok r : request_wf r -> bytes_ok (request_pdu r).
Proof.
  intros Hr. unfold request_pdu. apply Forall_cons_2.
  { destruct r as [[]|[]| | | | |]; cbn; lia. }
  destruct r as [t i n|t i n|i v|i v|i n d|i n d|i am om]; cbn [request_wf] in Hr;
    repeat apply Forall_app_2; try (apply be16_ok; lia);
    constructor; try apply Hr; lia.
Qed.

Lemma request_adu_min address r : 8 <= zlen (request_adu address r).
Proof.
  rewrite adu_length. unfold request_pdu.
  destruct r as [[]|[]| | | | |]; cbn [request_function length app be16]; lia.
Qed.

Lemma judge s address r f rest :
  request_limits r -> is_u8 address -> requested s address r -> bytes_ok (f ++ rest) ->
  exists e s', modbusParseResponse be calloc_ok [] (receive s f rest) = Some (e, s')
    /\ match accept be address r f with
       | Some d => e = MODBUS_ERROR_OK /\ mm_data s' = d /\ mm_parseError s' = MODBUS_FERROR_OK
       | None => e <> MODBUS_ERROR_OK /\ mm_data s' = data_reset
       end.
Proof.
  intros Hlim Haddr [Hqf Hql] Hok. unfold modbusParseResponse. cbv zeta.
  set (s0 := set_data _ _).
  change (mm_response_length s0) with (zlen f). change (mm_response_frame s0) with (Some (f ++ rest)).
  change (mm_request_length s0) with (mm_request_length s).
  change (mm_request_frame s0) with (mm_request_frame s). rewrite Hql, Hqf.
  pose proof (request_adu_min address r) as Hqmin.
  zfalse (zlen (request_adu address r) <? 4).
  destruct (Z.ltb_spec (zlen f) 4) as [Hf4|Hf4].
  { eexists _, _. split; [done|]. unfold accept. destruct f; [done|]. by zfalse (4 <=? zlen (z :: f)). }
  assert (bytes_ok (request_adu address r)) as Hq.
  { apply adu_ok. constructor; [done|]. by apply request_pdu_ok, Hlim. }
  destruct (crc_test be (f ++ rest) (zlen f)) as (w & -> & Hcrc); [done | len |].
  destruct (crc_test be (request_adu address r) (zlen (request_adu address r))) as (w' & -> & Hcrc');
    [done | len |].
  rewrite !bind_Some, !modbusCRC_spec, !bind_Some, Hcrc, Hcrc' by len.
  rewrite !Nat2Z.id, take_app_length, firstn_all, crc_valid_adu, orb_false_r.
  destruct f as [|a [|fn t]]; try (cbn in Hf4; lia).
  destruct (crc_valid be (a :: fn :: t)) eqn:Hv; cbn [negb].
  2: { eexists _, _. split; [done|]. unfold accept. rewrite Hv. by rewrite andb_false_r. }
  change (p_function _) with (Some fn). rewrite bind_Some.
  change (find_masterFunction [] fn) with (@None (option (ModbusMaster -> list Z -> list Z -> MasterResult))).
  cbn match. set (s1 := set_mparseError s0 MODBUS_FERROR_OK).
  assert (awaiting s1 (a :: fn :: t) rest (request_adu address r)) as Hw.
  { constructor; try done. lia. }
  destruct (Z.eqb_spec fn (request_function r)) as [->|Hne].
  - destruct (same_function s1 a t rest address r Hlim Hw Hv) as (res & Hres & Hout).
    cbn [app]. rewrite Hres. by apply outcome_weaken in Hout.
  - rewrite accept_fn by done.
    destruct (exceptional (a :: fn :: t) fn) eqn:Hex.
    { cbn [app]. unfold modbusParseResponse_builtin.
      change (mm_response_length s1) with (zlen (a :: fn :: t)). rewrite Hex.
      destruct t as [|c t]; [cbn in Hf4; lia|].
      eexists _, _. split; [done|]. done. }
    pose proof (other_function s1 a fn t rest address (request_function r)
      (match r with
       | ReadBits _ i c | ReadRegs _ i c | WriteCoil i c | WriteReg i c => be16 i ++ be16 c
       | WriteCoils i c d | WriteRegs i c d => be16 i ++ be16 c ++ zlen d :: d
       | MaskWrite i a o => be16 i ++ be16 a ++ be16 o
       end ++ crc_bytes be (address :: request_pdu r)) Hw Hne Hex) as Hoth.
    change (a :: fn :: t ++ rest) with ((a :: fn :: t) ++ rest) in Hoth.
    match type of Hoth with match builtin _ _ ?q _ with _ => _ end =>
      change q with (request_adu address r) in Hoth end.
    destruct (builtin s1 _ _ fn) as [res|].
    + by apply outcome_weaken in Hoth.
    + by eexists _, _.
Qed.

Lemma lor128_exceptional fn : is_u8 fn -> (Z.land (Z.lor 128 fn) 128 =? 0) = false.
Proof.
  intros Hfn. apply Z.eqb_neq. intros H. apply (f_equal (fun x => Z.testbit x 7)) in H.
  rewrite Z.land_spec, Z.lor_spec in H. cbn in H. done.
Qed.

Lemma exception_received s address r fn c rest :
  request_limits r -> is_u8 address -> requested s address r -> bytes_ok rest -> is_u8 fn ->
  is_u8 c ->
  exists s', modbusParseResponse be calloc_ok []
               (receive s (adu be [address; Z.lor 128 fn; c]) rest) = Some (MODBUS_ERROR_EXCEPTION, s')
    /\ mm_exception s' = mkException address (Z.lor 128 fn) c /\ mm_data s' = data_reset.
Proof.
  intros Hlim Haddr [Hqf Hql] Hrest Hfn Hc. unfold modbusParseResponse. cbv zeta.
  set (f := adu be [address; Z.lor 128 fn; c]).
  assert (is_u8 (Z.lor 128 fn)) by
    (apply (lor_range _ _ 8); change (2 ^ 8) with 256; lia).
  assert (bytes_ok f) as Hf.
  { apply adu_ok. by repeat apply Forall_cons_2. }
  assert (bytes_ok (f ++ rest)) as Hfr by by apply Forall_app_2.
  assert (zlen f = 5) as Hfl by (unfold f; by rewrite adu_length).
  set (s0 := set_data _ _).
  change (mm_response_length s0) with (zlen f). change (mm_response_frame s0) with (Some (f ++ rest)).
  change (mm_request_length s0) with (mm_request_length s).
  change (mm_request_frame s0) with (mm_request_frame s). rewrite Hql, Hqf.
  pose proof (request_adu_min address r) as Hqmin.
  zfalse (zlen (request_adu address r) <? 4). zfalse (zlen f <? 4).
  assert (bytes_ok (request_adu address r)) as Hq.
  { apply adu_ok. constructor; [done|]. by apply request_pdu_ok, Hlim. }
  destruct (crc_test be (f ++ rest) (zlen f)) as (w & -> & Hcrc); [done | len |].
  destruct (crc_test be (request_adu address r) (zlen (request_adu address r))) as (w' & -> & Hcrc');
    [done | len |].
  rewrite !bind_Some, !modbusCRC_spec, !bind_Some, Hcrc, Hcrc' by len.
  rewrite !Nat2Z.id, take_app_length, firstn_all. unfold f at 1. rewrite !crc_valid_adu. cbn [negb orb].
  change (p_function (f ++ rest)) with (Some (Z.lor 128 fn)). rewrite bind_Some.
  change (find_masterFunction [] (Z.lor 128 fn))
    with (@None (option (ModbusMaster -> list Z -> list Z -> MasterResult))).
  cbn match. unfold modbusParseResponse_builtin. rewrite lor128_exceptional by done.
  change (mm_response_length _) with (zlen f). rewrite Hfl. cbn [negb andb Z.eqb Pos.eqb].
  by eexists.
Qed.
End accepting.

(** ** A transaction *)

Section transaction.
Context (be : bool) (calloc_ok : Z -> bool).

(** The master asks, the slave answers, the master reads the answer.  The last
    component is the reply's frame. *)
Definition transaction (ms : ModbusMaster) (ss : ModbusSlave) (address : Z) (r : Request)
    : option (ModbusError * ModbusMaster * ModbusSlave * list Z) :=
  '(_, ms) ← master_build be calloc_ok ms address r;
  q ← mm_request_frame ms;
  '(_, ss) ← modbusParseRequest be calloc_ok [] (deliver ss q);
  f ← sent_frame ss;
  '(e, ms) ← modbusParseResponse be calloc_ok [] (receive ms f []);
  Some (e, ms, ss, f).

(** What the master's data must show after a successful request. *)
Definition expected_data (st : Store) (address : Z) (r : Request) : MasterData :=
  match r with
  | ReadBits t i n =>
      mkData address i n ((n + 7) `div` 8) (bits_type t) (bits_function t)
        (Some (pack_bits (slice i n (default [] (st_bits st t)))))
  | ReadRegs t i n =>
      mkData address i n (2 * n) (regs_type t) (regs_function t)
        (Some (low_regs (slice i n (default [] (st_regs st t)))))
  | WriteCoil i v => mkData address i 1 1 MODBUS_COIL 5 (Some [Z.b2z (v =? 0xFF00)])
  | WriteReg i v => mkData address i 1 2 MODBUS_HOLDING_REGISTER 6 (Some [u8 v; 0])
  | WriteCoils i n _ => mkData address i n 0 MODBUS_COIL 15 None
  | WriteRegs i n _ => mkData address i n 0 MODBUS_HOLDING_REGISTER 16 None
  | MaskWrite i _ _ => mkData address i 1 0 MODBUS_HOLDING_REGISTER 22 None
  end.

Lemma range_fault_None len i n : range_fault len i n = None -> exists l, len = Some l /\ i + n <= l.
Proof.
  unfold range_fault. destruct len as [l|]; [|done]. destruct (Z.leb_spec (i + n) l); [|done].
  by exists l.
Qed.

Lemma valid_slice {A} (t : option (list A)) i n :
  0 <= i -> 0 <= n ->
  range_fault ((fun l : list A => zlen l) <$> t) i n = None -> zlen (slice i n (default [] t)) = n.
Proof.
  intros Hi Hn (l & Hl & Hr)%range_fault_None. destruct t as [l'|]; [|done]. injection Hl as <-.
  by apply slice_length.
Qed.

(** The reply the server gives to a valid request carries the expected data. *)
Lemma reply_data_response st address r :
  request_limits r -> validate st r = None ->
  (forall t l, st_regs st t = Some l -> Forall (fun v => is_u16 v) l) ->
  reply_data address r (response_pdu st r) = Some (expected_data st address r).
Proof.
  intros [Hwf Hlim] Hv Hst. unfold response_pdu.
  destruct r as [t i n|t i n|i v|i v|i n d|i n d|i am om]; cbn [request_wf] in Hwf;
    cbn [reply_data expected_data];
    try by rewrite bool_decide_eq_true_2.
  - rewrite request_function_bits, Z.eqb_refl. unfold validate in Hv.
    apply count_fault_None in Hv as [_ Hv].
    pose proof (valid_slice (st_bits st t) i n ltac:(lia) ltac:(lia) Hv) as Hs.
    rewrite pack_bits_length, Hs, !Z.eqb_refl. done.
  - rewrite request_function_regs, Z.eqb_refl. unfold validate in Hv.
    apply count_fault_None in Hv as [_ Hv].
    pose proof (valid_slice (st_regs st t) i n ltac:(lia) ltac:(lia) Hv) as Hs.
    rewrite flat_map_be16_length, Hs, !Z.eqb_refl. cbn [andb]. do 3 f_equal.
    set (vs := slice i n (default [] (st_regs st t))) in *.
    replace (Z.to_nat n) with (length vs) by lia. by rewrite words_be16.
  - rewrite bool_decide_eq_true_2 by done. do 3 f_equal. destruct Hlim as [-> | ->]; done.
Qed.

Lemma flat_map_be16_ok vs : Forall (fun v => is_u16 v) vs -> bytes_ok (flat_map be16 vs).
Proof.
  induction 1 as [|v vs Hv _ IH]; cbn [flat_map]; [done|].
  apply Forall_app_2; [by apply be16_ok | done].
Qed.

Lemma response_pdu_ok st r :
  request_wf r -> validate st r = None ->
  (forall t l, st_regs st t = Some l -> Forall (fun v => is_u16 v) l) ->
  bytes_ok (response_pdu st r) /\ 3 + zlen (response_pdu st r) = response_size r /\ 5 <= response_size r <= 255.
Proof.
  intros Hwf Hv Hst. unfold response_pdu.
  destruct r as [t i n|t i n|i v|i v|i n d|i n d|i am om]; cbn [request_wf] in Hwf;
    cbn [response_size].
  - unfold validate in Hv. apply count_fault_None in Hv as [Hc Hv]. zbool.
    pose proof (valid_slice (st_bits st t) i n ltac:(lia) ltac:(lia) Hv) as Hs.
    pose proof (pack_bits_length (slice i n (default [] (st_bits st t)))) as Hp. rewrite Hs in Hp.
    rewrite Hp. cbn [length]. split; [|zlia].
    apply Forall_cons_2; [destruct t; cbn; lia|]. apply Forall_cons_2; [zlia | apply pack_bits_ok].
  - unfold validate in Hv. apply count_fault_None in Hv as [Hc Hv]. zbool.
    pose proof (valid_slice (st_regs st t) i n ltac:(lia) ltac:(lia) Hv) as Hs.
    pose proof (flat_map_be16_length (slice i n (default [] (st_regs st t)))) as Hp. rewrite Hs in *.
    cbn [length]. split; [|zlia].
    apply Forall_cons_2; [destruct t; cbn; lia|]. apply Forall_cons_2; [lia|].
    assert (Forall (fun v => is_u16 v) (slice i n (default [] (st_regs st t)))) as H16.
    { apply slice_ok. destruct (st_regs st t) eqn:E; [by eapply Hst | done]. }
    by apply flat_map_be16_ok.
  - split; [|cbn; lia]. apply Forall_cons_2; [cbn; lia|]. apply Forall_app_2; apply be16_ok; lia.
  - split; [|cbn; lia]. apply Forall_cons_2; [cbn; lia|]. apply Forall_app_2; apply be16_ok; lia.
  - split; [|cbn; lia]. apply Forall_cons_2; [cbn; lia|]. apply Forall_app_2; apply be16_ok; lia.
  - split; [|cbn; lia]. apply Forall_cons_2; [cbn; lia|]. apply Forall_app_2; apply be16_ok; lia.
  - split; [|cbn; lia]. apply Forall_cons_2; [cbn; lia|]. repeat apply Forall_app_2; apply be16_ok; lia.
Qed.

Lemma abs_regs_u16 s : slave_wf s ->
  forall t l, st_regs (abs s) t = Some l -> Forall (fun v => is_u16 v) l.
Proof.
  intros Hwf t l Hl. rewrite abs_regs in Hl. pose proof (src_regs_wf s t Hwf) as [_ H].
  destruct (src_regs s t).1 as [l'|]; [|done]. injection Hl as <-. apply Forall_take. by apply H.
Qed.

Lemma request_adu_max address r : request_limits r ->
  zlen (adu be (address :: request_pdu r)) < 256.
Proof.
  intros [_ Hlim]. rewrite adu_length. unfold request_pdu.
  destruct r as [[]|[]| | | | |]; cbn [request_function length app be16]; zlia.
Qed.

(** What the server answers to a request frame addressed to it. *)
Lemma serve_request_adu me st r :
  request_limits r -> is_u8 me -> me <> 0 ->
  serve be calloc_ok me st (Some (adu be (me :: request_pdu r)))
  = serve_request be calloc_ok me false st r.
Proof.
  intros [Hwf Hlim] Hme H0. unfold serve.
  pose proof (request_adu_min be me r). zfalse (zlen (adu be (me :: request_pdu r)) <? 4).
  rewrite crc_valid_adu. cbn [negb]. unfold adu.
  change (default 0 (((me :: request_pdu r) ++ _) !! 0%nat)) with me.
  rewrite Z.eqb_refl. cbn [negb andb]. unfold serve_frame.
  change (default 0 (((me :: request_pdu r) ++ _) !! 0%nat)) with me.
  rewrite (proj2 (Z.eqb_neq me 0) H0). cbn [andb].
  pose proof (crc_bytes_length be (me :: request_pdu r)) as Hl.
  destruct (crc_bytes be (me :: request_pdu r)) as [|k1 [|k0 [|]]]; try done.
  cbn [app]. by rewrite decode_encode.
Qed.

Lemma init_address s e s' : modbusSlaveInit s = Some (e, s') -> sl_address s' = sl_address s.
Proof. unfold modbusSlaveInit. case_if; [by intros [= _ <-]|]. rewrite !init_table_spec. by intros [= _ <-]. Qed.

(** A reply on the wire: bytes, and a length that fits [response.length]. *)
Definition wire_frame (g : list Z) : Prop := bytes_ok g /\ 5 <= zlen g < 256.

Lemma adu_wire l : bytes_ok l -> 3 <= zlen l <= 253 -> wire_frame (adu be l).
Proof. intros Hl Hn. split; [by apply adu_ok|]. rewrite adu_length. lia. Qed.

Lemma reply_exception_wire me b fn c e g : is_u8 me -> is_u8 fn ->
  rp_frame (reply_exception be calloc_ok me b fn c e) = Some g -> wire_frame g.
Proof.
  intros Hme Hfn. unfold reply_exception. repeat case_if; cbn [rp_frame]; intros [= <-].
  apply adu_wire; [|cbn; lia]. repeat apply Forall_cons_2; [done | | destruct c; cbn; lia | done].
  apply (lor_range _ _ 8); change (2 ^ 8) with 256; lia.
Qed.

Lemma serve_wire me st f g : is_u8 me -> bytes_ok f ->
  (forall t l, st_regs st t = Some l -> Forall (fun v => is_u16 v) l) ->
  rp_frame (serve be calloc_ok me st (Some f)).1 = Some g -> wire_frame g.
Proof.
  intros Hme Hf Hst. unfold serve. repeat (case_if; [done|]). zbool. unfold serve_frame.
  destruct f as [|a [|fn args]]; cbn [length] in *; try lia. name_bytes.
  change (default 0 ((a :: fn :: args) !! 1%nat)) with fn.
  case_if; [done|]. destruct (decode (a :: fn :: args)) as [r| |] eqn:Hd;
    [|by apply reply_exception_wire..].
  apply decode_wf in Hd as Hr; [|by repeat apply Forall_cons_2].
  unfold serve_request. destruct (validate st r) as [[c e]|] eqn:Hv.
  { apply reply_exception_wire; [done|]. destruct r as [[]|[]| | | | |]; cbn; lia. }
  repeat case_if; cbn [fst rp_frame]; try done. intros [= <-].
  destruct (response_pdu_ok st r Hr Hv Hst) as (Hok & Hsz & Hmax).
  apply adu_wire; [by apply Forall_cons_2 | cbn [length]; lia].
Qed.

Definition shown_typed (x : Shown) : Prop := forall g, x.2 = Some g -> wire_frame g.

Lemma session_typed s frames :
  slave_wf s -> Forall (fun f => bytes_ok f /\ zlen f < 256) frames ->
  exists out s', slave_session be calloc_ok s frames = Some (out, s')
    /\ slave_wf s' /\ sl_address s' = sl_address s
    /\ length out = length frames /\ Forall shown_typed out.
Proof.
  intros Hwf Hfs. revert s Hwf. induction Hfs as [|f frames [Hf Hlen] _ IH]; intros s Hwf.
  { by exists [], s. }
  destruct (parse_answers be calloc_ok [] (deliver s f))
    as (s1 & Hrun & _ & _ & Hsent & _ & Hwf1 & Hme & _); [by apply deliver_wf | done |].
  cbn [slave_session]. rewrite Hrun, bind_Some.
  change (sl_request_frame (deliver s f)) with (Some f) in *.
  change (sl_request_length (deliver s f)) with (zlen f) in *.
  change (sl_address (deliver s f)) with (sl_address s) in *.
  change (abs (deliver s f)) with (abs s) in *.
  cbn [fmap option_fmap option_map] in *. rewrite Nat2Z.id, firstn_all in *.
  destruct (IH s1 Hwf1) as (out & s' & -> & Hwf' & Hme' & Hl & Hout). rewrite bind_Some.
  eexists _, s'. split_and!; [done | done | congruence | cbn; congruence |].
  constructor; [|done]. intros g. cbn [snd]. rewrite Hsent.
  apply serve_wire; [destruct Hwf; lia | done | by apply abs_regs_u16].
Qed.

Hypothesis Hcalloc : forall n, calloc_ok n = true.

(** The slave's half of a transaction. *)
Lemma slave_half ss r :
  slave_wf ss -> request_limits r ->
  answers (deliver ss (adu be (sl_address ss :: request_pdu r)))
    (modbusParseRequest be calloc_ok [] (deliver ss (adu be (sl_address ss :: request_pdu r))))
    (serve_request be calloc_ok (sl_address ss) false (abs ss) r).
Proof.
  intros Hwf Hlim. pose proof (proj1 Hwf) as Hme.
  set (q := adu be (sl_address ss :: request_pdu r)).
  assert (bytes_ok q) as Hq.
  { apply adu_ok. constructor; [lia|]. by apply request_pdu_ok, Hlim. }
  pose proof (request_adu_max (sl_address ss) r Hlim) as Hmax.
  pose proof (deliver_wf ss q Hwf Hq Hmax) as Hwf'.
  pose proof (parse_answers be calloc_ok [] (deliver ss q) Hwf' (fun _ => eq_refl)) as H.
  change (sl_request_frame (deliver ss q)) with (Some q) in H.
  change (sl_request_length (deliver ss q)) with (zlen q) in H.
  change (sl_address (deliver ss q)) with (sl_address ss) in H.
  change (abs (deliver ss q)) with (abs ss) in H.
  cbn [fmap option_fmap option_map] in H. rewrite Nat2Z.id, firstn_all in H.
  unfold q in H at 3. rewrite serve_request_adu in H by (done || lia). exact H.
Qed.

Lemma transaction_valid ms ss r :
  slave_wf ss -> request_limits r -> validate (abs ss) r = None ->
  exists ms1 ms' ss' f,
    master_build be calloc_ok ms (sl_address ss) r = Some (MODBUS_ERROR_OK, ms1)
    /\ transaction ms ss (sl_address ss) r = Some (MODBUS_ERROR_OK, ms', ss', f)
    /\ mm_data ms' = expected_data (abs ss) (sl_address ss) r
    /\ abs ss' = execute (abs ss) r
    /\ zlen f = mm_predictedResponseLength ms1.
Proof.
  intros Hwf Hlim Hv. pose proof (proj1 Hwf) as Hme.
  pose proof (build_answers be calloc_ok ms Hcalloc (sl_address ss) r Hlim ltac:(lia) ltac:(lia)) as Hb.
  unfold transaction. rewrite Hb, bind_Some. cbn [mm_request_frame set_buildError set_request_out].
  rewrite bind_Some.
  destruct (slave_half ss r Hwf Hlim) as (ss' & Hrun & _ & _ & Hsent & Habs & _).
  rewrite Hrun, bind_Some.
  unfold serve_request in Hsent, Habs. rewrite Hv, Hcalloc in Hsent, Habs.
  cbn [fst snd rp_frame] in Hsent, Habs. rewrite Hsent, bind_Some.
  destruct (response_pdu_ok (abs ss) r (proj1 Hlim) Hv (abs_regs_u16 ss Hwf)) as (Hok & Hsz & _).
  set (f := adu be (sl_address ss :: response_pdu (abs ss) r)).
  set (ms1 := set_buildError _ _).
  assert (bytes_ok f) as Hf by (apply adu_ok; constructor; [lia | done]).
  assert (zlen f = response_size r) as Hfl by (unfold f; rewrite adu_length; cbn [length]; lia).
  assert (4 <= response_size r) as H4 by (destruct Hlim, r; cbn [response_size]; zlia).
  destruct (judge be calloc_ok Hcalloc ms1 (sl_address ss) r f []) as (e & ms' & Hp & Hacc);
    [done | lia | done | by rewrite app_nil_r |].
  rewrite Hp, bind_Some.
  assert (accept be (sl_address ss) r f = Some (expected_data (abs ss) (sl_address ss) r)) as Ha.
  { unfold accept, f, adu. cbn [app].
    change (sl_address ss :: response_pdu (abs ss) r ++ _) with f.
    unfold f at 2. rewrite crc_valid_adu, Z.eqb_refl.
    rewrite (proj2 (Z.eqb_neq (sl_address ss) 0)) by lia.
    rewrite (proj2 (Z.leb_le 4 (zlen f))) by lia. cbn [negb andb]. rewrite length_app, crc_bytes_length, Nat.add_sub, take_app_length.
    apply reply_data_response; [done..|]. by apply abs_regs_u16. }
  rewrite Ha in Hacc. destruct Hacc as (-> & Hdata & _).
  eexists ms1, ms', ss', f. split; [done|]. split; [done|]. split; [done|]. split; [done|].
  cbn [ms1 mm_predictedResponseLength set_buildError set_request_out].
  by zfalse (sl_address ss =? 0).
Qed.

Lemma transaction_refused ms ss r c e :
  slave_wf ss -> request_limits r -> validate (abs ss) r = Some (c, e) ->
  exists ms' ss' f,
    transaction ms ss (sl_address ss) r = Some (MODBUS_ERROR_EXCEPTION, ms', ss', f)
    /\ mm_exception ms'
       = mkException (sl_address ss) (Z.lor 128 (request_function r)) (exception_code c)
    /\ mm_data ms' = data_reset /\ abs ss' = abs ss /\ sl_parseError ss' = e.
Proof.
  intros Hwf Hlim Hv. pose proof (proj1 Hwf) as Hme.
  pose proof (build_answers be calloc_ok ms Hcalloc (sl_address ss) r Hlim ltac:(lia) ltac:(lia)) as Hb.
  unfold transaction. rewrite Hb, bind_Some. cbn [mm_request_frame set_buildError set_request_out].
  rewrite bind_Some.
  destruct (slave_half ss r Hwf Hlim) as (ss' & Hrun & Hpe & _ & Hsent & Habs & _).
  rewrite Hrun, bind_Some.
  unfold serve_request, reply_exception in Hsent, Habs, Hpe. rewrite Hv, Hcalloc in Hsent, Habs, Hpe.
  cbn [fst snd rp_frame rp_ferror] in Hsent, Habs, Hpe. rewrite Hsent, bind_Some.
  set (ms1 := set_buildError _ _).
  destruct (exception_received be calloc_ok ms1 (sl_address ss) r (request_function r)
              (exception_code c) []) as (ms' & Hp & Hexc & Hdata);
    [done | lia | done | done | by destruct r as [[]|[]| | | | |] | by destruct c |].
  rewrite Hp, bind_Some. by eexists _, _, _.
Qed.
End transaction.

(** ** Properties *)

Section properties.
Context (be : bool) (calloc_ok : Z -> bool).
Hypothesis Hcalloc : forall n, calloc_ok n = true.

(** Within the protocol's limits every builder of the master produces the frame
    of the abstract request - address, function, fields most significant byte
    first, data, checksum - and predicts the length of the reply (nothing is
    expected for a broadcast). *)
Theorem master_build_frame ms address r :
  request_limits r -> is_u8 address -> (is_read r = true -> address <> 0) ->
  master_build be calloc_ok ms address r
  = Some (MODBUS_ERROR_OK,
          set_buildError
            (set_request_out ms (Some (adu be (address :: request_pdu r)))
               (zlen (adu be (address :: request_pdu r)))
               (if address =? 0 then 0 else response_size r))
            MODBUS_FERROR_OK).
Proof. apply build_answers, Hcalloc. Qed.

(** C6: The master accepts exactly the answers to its request, provided every [calloc]
    succeeds and no function is overridden.  Whatever bytes arrive after the request
    [r] was built, [modbusParseResponse] returns without reading outside the buffer;
    it returns [MODBUS_OK] just when the frame has a valid checksum, comes from the
    slave addressed and is a reply to [r], and then [data] has the reply's address,
    range, type, function and length and its coils, packed, or - as [regs] is an array
    of bytes - the low byte of each of its registers, followed by as many zeros;
    otherwise [data] is empty. *)
Theorem master_accepts_replies ms address r f rest :
  request_limits r -> is_u8 address -> requested be ms address r -> bytes_ok (f ++ rest) ->
  exists e ms', modbusParseResponse be calloc_ok [] (receive ms f rest) = Some (e, ms')
    /\ match accept be address r f with
       | Some d => e = MODBUS_ERROR_OK /\ mm_data ms' = d /\ mm_parseError ms' = MODBUS_FERROR_OK
       | None => e <> MODBUS_ERROR_OK /\ mm_data ms' = data_reset
       end.
Proof. apply judge, Hcalloc. Qed.

(** C3: A transaction for a request within the protocol's limits that the slave can
    serve succeeds end to end, when both peers have the same byte order, no function is
    overridden and every [calloc] succeeds: the master builds the frame, the slave
    executes the request on its tables and replies, the master accepts the reply, the
    reply has the length the master predicted, and the master's [data] holds the slave's
    coils, or the low bytes of its registers - all that the array of bytes [regs] can
    keep of them. *)
Theorem transaction_succeeds ms ss r :
  slave_wf ss -> request_limits r -> validate (abs ss) r = None ->
  exists ms1 ms' ss' f,
    master_build be calloc_ok ms (sl_address ss) r = Some (MODBUS_ERROR_OK, ms1)
    /\ transaction be calloc_ok ms ss (sl_address ss) r = Some (MODBUS_ERROR_OK, ms', ss', f)
    /\ mm_data ms' = expected_data (abs ss) (sl_address ss) r
    /\ abs ss' = execute (abs ss) r
    /\ zlen f = mm_predictedResponseLength ms1.
Proof. by apply transaction_valid. Qed.

(** A transaction for a request the slave must refuse - no such table, range,
    write protection - changes nothing and delivers the slave's exception code to
    the master. *)
Theorem transaction_excepted ms ss r c e :
  slave_wf ss -> request_limits r -> validate (abs ss) r = Some (c, e) ->
  exists ms' ss' f,
    transaction be calloc_ok ms ss (sl_address ss) r = Some (MODBUS_ERROR_EXCEPTION, ms', ss', f)
    /\ mm_exception ms'
       = mkException (sl_address ss) (Z.lor 128 (request_function r)) (exception_code c)
    /\ mm_data ms' = data_reset /\ abs ss' = abs ss /\ sl_parseError ss' = e.
Proof. by apply transaction_refused. Qed.
End properties.

(** C7: Types are preserved over the life of a slave.  From any configuration
    with a nonzero 8-bit address (0 is refused with an error) whose tables have at
    least their declared cells, with values of the declared widths,
    [modbusSlaveInit] gives a well-formed slave, and after any sequence of received
    frames of at most 255 bytes, valid or not, it is still one: every register a
    16-bit and every coil cell and mask cell an 8-bit value, every table as long as
    its count says, the address unchanged; and every reply sent on the way is a
    string of bytes whose length fits the 8-bit [response.length]. *)
Theorem slave_life_typed be calloc_ok s frames :
  is_u8 (sl_address s) -> sl_address s <> 0 ->
  regs_wf (sl_registers s) (sl_registerCount s) ->
  regs_wf (sl_inputRegisters s) (sl_inputRegisterCount s) ->
  bits_wf (sl_coils s) (sl_coilCount s) ->
  bits_wf (sl_discreteInputs s) (sl_discreteInputCount s) ->
  mask_wf (sl_registerMask s) (sl_registerMaskLength s) ->
  mask_wf (sl_coilMask s) (sl_coilMaskLength s) ->
  Forall (fun f => bytes_ok f /\ zlen f < 256) frames ->
  exists s0 out s',
    modbusSlaveInit s = Some (MODBUS_ERROR_OK, s0)
    /\ slave_session be calloc_ok s0 frames = Some (out, s')
    /\ slave_wf s0 /\ slave_wf s' /\ sl_address s' = sl_address s
    /\ length out = length frames /\ Forall shown_typed out.
Proof.
  intros Ha H0 Hr Hi Hc Hd Hm Hcm Hf.
  destruct (modbusSlaveInit_ready s) as (e & s0 & Hinit & -> & _ & _ & Hready); try done.
  rewrite (proj2 (Z.eqb_neq _ 0) H0) in *. destruct (Hready eq_refl) as [Hwf _].
  destruct (session_typed be calloc_ok s0 frames Hwf Hf) as (out & s' & Hrun & Hwf' & Ha' & H).
  exists s0, out, s'. split_and!; try done; [|apply H..].
  rewrite Ha'. by eapply init_address.
Qed.

(** [modbusCRC] swaps the bytes of the checksum on every host, so the byte
    order on the wire follows the host: a frame built on a little-endian host is
    rejected by a big-endian one, whatever its content, unless the two checksum
    bytes happen to be equal. *)
Theorem mixed_endian_peers_reject l :
  bytes_ok l -> crc16_of 0xFFFF l `div` 256 <> crc16_of 0xFFFF l `mod` 256 ->
  crc_valid true (adu false l) = false /\ crc_valid false (adu true l) = false.
Proof.
  intros Hl Hne. pose proof (crc16_of_range 0xFFFF l ltac:(lia) Hl) as Hc.
  unfold crc_valid. rewrite !adu_length, !Nat.add_sub. unfold adu.
  rewrite !drop_app_length, !take_app_length. unfold crc_bytes, store16.
  rewrite u16_id by apply modbusSwapEndian_range. rewrite modbusSwapEndian_spec by done.
  split; apply bool_decide_eq_false_2; intros [= E _]; zlia.
Qed.

(** ** Concrete runs *)

Definition sample_master : ModbusMaster :=
  mkMaster 0 None 0 None 0 data_reset exception_reset MODBUS_FERROR_OK MODBUS_FERROR_OK.

Lemma master_build_frame_witness :
  master_build false (fun _ => true) sample_master 7 (ReadRegs Holding 1 2)
  = Some (MODBUS_ERROR_OK,
          set_buildError (set_request_out sample_master (Some (adu false [7; 3; 0; 1; 0; 2])) 8 9)
            MODBUS_FERROR_OK).
Proof.
  apply (master_build_frame false (fun _ => true) (fun _ => eq_refl) sample_master 7
           (ReadRegs Holding 1 2)).
  - cbn. cbn; repeat split; lia.
  - lia.
  - lia.
Defined.

Lemma master_accepts_replies_witness :
  exists ms',
    modbusParseResponse true (fun _ => true) []
      (receive (set_request_out sample_master (Some (adu true [7; 3; 0; 1; 0; 1])) 8 7)
         (adu true [7; 3; 2; 0x12; 0x34]) [9; 9])
    = Some (MODBUS_ERROR_OK, ms')
    /\ mm_data ms' = mkData 7 1 1 2 MODBUS_HOLDING_REGISTER 3 (Some [0x34; 0]).
Proof.
  destruct (master_accepts_replies true (fun _ => true) (fun _ => eq_refl)
              (set_request_out sample_master (Some (adu true [7; 3; 0; 1; 0; 1])) 8 7)
              7 (ReadRegs Holding 1 1) (adu true [7; 3; 2; 0x12; 0x34]) [9; 9])
    as (e & ms' & Hrun & Hacc).
  - cbn; repeat split; lia.
  - lia.
  - split; reflexivity.
  - apply bytes_ok_decide. vm_compute. reflexivity.
  - vm_compute in Hacc. destruct Hacc as (-> & Hd & _).
    exists ms'. split; [exact Hrun | exact Hd].
Defined.

Lemma transaction_succeeds_witness :
  exists ms' ss' f,
    transaction false (fun _ => true) sample_master sample_slave 7 (WriteRegs 0 2 [0xAB; 0xCD; 1; 2])
    = Some (MODBUS_ERROR_OK, ms', ss', f)
    /\ st_holding (abs ss') = Some [0xABCD; 0x0102; 0; 9].
Proof.
  destruct (transaction_succeeds false (fun _ => true) (fun _ => eq_refl) sample_master sample_slave
              (WriteRegs 0 2 [0xAB; 0xCD; 1; 2])) as (ms1 & ms' & ss' & f & _ & Hrun & _ & Habs & _).
  - apply sample_slave_wf.
  - cbn. repeat split; try lia. apply bytes_ok_decide. reflexivity.
  - reflexivity.
  - exists ms', ss', f. split; [exact Hrun|]. rewrite Habs. reflexivity.
Defined.

Lemma slave_life_typed_witness :
  exists s0 out s',
    modbusSlaveInit sample_slave = Some (MODBUS_ERROR_OK, s0)
    /\ slave_session false (fun _ => true) s0 sample_frames = Some (out, s') /\ slave_wf s'.
Proof.
  destruct sample_slave_wf as (Ha & Hr & Hi & Hm & Hc & Hd & Hcm & _).
  destruct (slave_life_typed false (fun _ => true) sample_slave sample_frames)
    as (s0 & out & s' & Hinit & Hrun & _ & Hwf & _); try assumption.
  - cbn. lia.
  - discriminate.
  - apply sample_frames_ok.
  - exists s0, out, s'. split; [exact Hinit | split; [exact Hrun | exact Hwf]].
Defined.

Lemma transaction_excepted_witness :
  exists ms' ss' f,
    transaction false (fun _ => true) sample_master sample_slave 7 (WriteReg 3 1)
    = Some (MODBUS_ERROR_EXCEPTION, ms', ss', f)
    /\ mm_exception ms' = mkException 7 0x86 4.
Proof.
  destruct (transaction_excepted false (fun _ => true) (fun _ => eq_refl) sample_master sample_slave
              (WriteReg 3 1) MODBUS_EXCEP_SLAVE_FAILURE MODBUS_FERROR_NOWRITE)
    as (ms' & ss' & f & Hrun & Hexc & _).
  - apply sample_slave_wf.
  - cbn; repeat split; lia.
  - reflexivity.
  - exists ms', ss', f. split; [exact Hrun | exact Hexc].
Defined.

Lemma mixed_endian_peers_reject_witness :
  crc_valid true (adu false [7; 3; 0; 0; 0; 2]) = false.
Proof.
  apply (mixed_endian_peers_reject [7; 3; 0; 0; 0; 2]).
  - apply bytes_ok_decide. reflexivity.
  - vm_compute. congruence.
Defined.

(** [modbus.h] declares [uint8_t *regs]: the master keeps only the low byte of each
    register, in the first half of the block. *)
Lemma uint8_regs_truncate :
  (fun r => mm_data (snd r)) <$>
    modbusParseResponse false (fun _ => true) []
      (receive (set_request_out sample_master (Some (adu false [7; 3; 0; 1; 0; 2])) 8 9)
         (adu false [7; 3; 4; 0x12; 0x34; 0x56; 0x78]) [])
  = Some (mkData 7 1 2 4 MODBUS_HOLDING_REGISTER 3 (Some [0x34; 0x78; 0; 0])).
Proof. vm_compute. reflexivity. Qed.
