(* ===== verification/Ring.v ===== *)
(** * Circular storage and the bounded-queue interface

    What the ring buffers of fun_buffer/ have in common: a window of a circular
    byte array, the two-segment copies that fill and empty it, and the interface
    [BoundedQueue] a client of any of them relies on. *)

From S2P Require Import Prelude CMem.

(** ** Windows *)

(** The cell at position [k] of the circular array [m]. *)
Definition cell (m : list Z) (k : Z) : Z := default 0 (znth m (k `mod` zlen m)).

(** [n] cells from position [r]. *)
Definition window (m : list Z) (r n : Z) : list Z := (fun k => cell m (r + k)) <$> seqZ 0 n.

Lemma window_length m r n : length (window m r n) = Z.to_nat n.
Proof. unfold window. by autorewrite with bblen. Qed.
#[export] Hint Rewrite window_length : bblen.

Lemma znth_window m r n k : 0 <= k < n -> znth (window m r n) k = Some (cell m (r + k)).
Proof.
  intros. apply znth_Some. split; [lia|]. unfold window.
  rewrite list_lookup_fmap, lookup_seqZ_lt by lia. cbn. do 3 f_equal. lia.
Qed.

Lemma window_ext m m' r r' n :
  (forall k, 0 <= k < n -> cell m (r + k) = cell m' (r' + k)) -> window m r n = window m' r' n.
Proof.
  intros H. apply list_eq_znth; [len|]. intros k Hk. autorewrite with bblen in Hk.
  rewrite !znth_window by lia. by rewrite H by lia.
Qed.

Lemma window_app m m' r n data :
  0 <= n ->
  (forall k, 0 <= k < n -> cell m' (r + k) = cell m (r + k)) ->
  (forall j, 0 <= j < zlen data -> Some (cell m' (r + n + j)) = znth data j) ->
  window m' r (n + zlen data) = window m r n ++ data.
Proof.
  intros Hn Hold Hnew. apply list_eq_znth; [len|]. intros k Hk. autorewrite with bblen in Hk.
  rewrite znth_window by lia. destruct (Z.lt_ge_cases k n).
  - rewrite znth_app_l by len. rewrite znth_window, Hold by lia. done.
  - rewrite znth_app_r by len. rewrite window_length, Z2Nat.id by lia.
    rewrite <- Hnew by lia. do 2 f_equal. lia.
Qed.

Lemma window_take m r n k : 0 <= k <= n -> take (Z.to_nat k) (window m r n) = window m r k.
Proof.
  intros. apply list_eq_znth; [len|]. intros j Hj. autorewrite with bblen in Hj.
  rewrite znth_take, !znth_window by lia. done.
Qed.

Lemma window_drop m r n k :
  0 <= k <= n -> drop (Z.to_nat k) (window m r n) = window m (r + k) (n - k).
Proof.
  intros. apply list_eq_znth; [len|]. intros j Hj. autorewrite with bblen in Hj.
  rewrite znth_window by lia. unfold znth. ztrue (0 <=? j). rewrite lookup_drop.
  rewrite <- Z2Nat.inj_add by lia. rewrite <- (znth_of_nat _ (Z.to_nat (k + j))).
  rewrite Z2Nat.id, znth_window by lia. do 2 f_equal. lia.
Qed.

Lemma cell_mod m k : cell m (k `mod` zlen m) = cell m k.
Proof. unfold cell. by rewrite Zmod_mod. Qed.

Lemma window_mod m r n : window m (r `mod` zlen m) n = window m r n.
Proof.
  apply window_ext. intros k Hk. unfold cell. by rewrite Zplus_mod_idemp_l.
Qed.

Lemma window_nil m r n : n <= 0 -> window m r n = [].
Proof. intros. unfold window. by rewrite seqZ_nil. Qed.

(** ** Two-segment copies *)

(** [data] written at [w], wrapping at the end of the array. *)
Definition wrap_write (m : list Z) (w : Z) (data : list Z) : list Z :=
  let n1 := Z.to_nat (zlen m - w) in
  list_inserts 0 (drop n1 data) (list_inserts (Z.to_nat w) (take n1 data) m).

Lemma wrap_write_length m w data : length (wrap_write m w data) = length m.
Proof. unfold wrap_write. by rewrite !length_inserts. Qed.
#[export] Hint Rewrite wrap_write_length : bblen.

Lemma wrap_write_ok m w data : bytes_ok m -> bytes_ok data -> bytes_ok (wrap_write m w data).
Proof.
  intros. apply Forall_inserts; [by apply Forall_drop|].
  by apply Forall_inserts; [apply Forall_take|].
Qed.

Lemma mod_once k s : s <= k < 2 * s -> k `mod` s = k - s.
Proof. intros. symmetry. apply (Z.mod_unique k s 1); lia. Qed.

(** The cells a wrapped write sets. *)
Lemma wrap_write_new m w data j :
  0 <= w < zlen m -> zlen data <= zlen m -> 0 <= j < zlen data ->
  Some (cell (wrap_write m w data) (w + j)) = znth data j.
Proof.
  intros Hw Hd Hj. unfold cell. autorewrite with bblen.
  set (s := zlen m) in *. unfold wrap_write. fold s.
  destruct (znth_lt data j Hj) as [x Hx]. rewrite Hx.
  destruct (Z.lt_ge_cases (w + j) s).
  - rewrite Z.mod_small by lia. rewrite (znth_inserts _ _ 0) by lia.
    rewrite length_drop, length_inserts. fold s.
    case_if. { zbool. lia. }
    rewrite znth_inserts by lia. rewrite length_take. fold s.
    ztrue ((w <=? w + j) && (w + j <? w + Z.of_nat (Z.to_nat (s - w) `min` length data)) && (w + j <? s)).
    replace (w + j - w) with j by lia. rewrite znth_take by lia. by rewrite Hx.
  - rewrite mod_once by lia. rewrite (znth_inserts _ _ 0) by lia.
    rewrite length_drop, length_inserts. fold s.
    ztrue ((0 <=? w + j - s) && (w + j - s <? 0 + Z.of_nat (length data - Z.to_nat (s - w))) && (w + j - s <? s)).
    unfold znth. ztrue (0 <=? w + j - s - 0). rewrite lookup_drop.
    replace (Z.to_nat (s - w) + Z.to_nat (w + j - s - 0))%nat with (Z.to_nat j) by lia.
    apply znth_Some in Hx as [_ ->]. done.
Qed.

(** The cells it leaves alone. *)
Lemma wrap_write_old m w data j :
  0 <= w < zlen m -> zlen data <= zlen m -> zlen data <= j < zlen m ->
  cell (wrap_write m w data) (w + j) = cell m (w + j).
Proof.
  intros Hw Hd Hj. unfold cell. autorewrite with bblen.
  set (s := zlen m) in *. unfold wrap_write. fold s. f_equal.
  destruct (Z.lt_ge_cases (w + j) s).
  - rewrite Z.mod_small by lia. rewrite (znth_inserts _ _ 0) by lia.
    rewrite length_drop, length_inserts. fold s.
    case_if; [zbool; lia|]. rewrite znth_inserts by lia. rewrite length_take.
    case_if; [zbool; lia | done].
  - rewrite mod_once by lia. rewrite (znth_inserts _ _ 0) by lia.
    rewrite length_drop, length_inserts. fold s.
    case_if; [zbool; lia|]. rewrite znth_inserts by lia. rewrite length_take.
    case_if; [zbool; lia | done].
Qed.

(** Appending to the window that ends where the write starts. *)
Lemma window_wrap_write m r n data :
  0 <= r < zlen m -> 0 <= n -> n + zlen data <= zlen m ->
  window (wrap_write m ((r + n) `mod` zlen m) data) r (n + zlen data) = window m r n ++ data.
Proof.
  intros Hr Hn Hd. set (w := (r + n) `mod` zlen m). assert (0 <= w < zlen m) by (unfold w; zlia).
  assert (forall k, cell (wrap_write m w data) k
    = cell (wrap_write m w data) (w + (k - w) `mod` zlen m)) as Hc.
  { intros k. unfold cell. autorewrite with bblen. do 2 f_equal. rewrite Zplus_mod_idemp_r. f_equal. lia. }
  assert (forall k, cell m k = cell m (w + (k - w) `mod` zlen m)) as Hc'.
  { intros k. unfold cell. do 2 f_equal. rewrite Zplus_mod_idemp_r. f_equal. lia. }
  assert (forall j, (r + n + j - w) `mod` zlen m = j `mod` zlen m) as Hj.
  { intros j. unfold w. rewrite Zminus_mod_idemp_r. f_equal. lia. }
  apply window_app; [done | |].
  - intros k Hk. rewrite Hc, (Hc' (r + k)). apply wrap_write_old; [done | lia |].
    replace (r + k) with (r + n + (k - n)) by lia. rewrite Hj.
    replace ((k - n) `mod` zlen m) with (k - n + zlen m); [lia|].
    apply (Z.mod_unique _ _ (-1)); lia.
  - intros j Hjd. rewrite Hc, Hj, Z.mod_small by lia. apply wrap_write_new; lia.
Qed.

(** Overwriting the whole array from [w]: the window that ends there. *)
Lemma cell_range m k : bytes_ok m -> 0 < zlen m -> is_u8 (cell m k).
Proof.
  intros Hm Hl. unfold cell. destruct (znth_lt m (k `mod` zlen m)) as [b Hb]; [zlia|].
  rewrite Hb. cbn. by eapply rd8_byte.
Qed.

(** Two-segment reading: the cells up to the end of the array, then from its start. *)
Lemma window_segments m r n :
  0 <= r < zlen m -> zlen m - r <= n <= zlen m ->
  window m r n
  = take (Z.to_nat (zlen m - r)) (drop (Z.to_nat r) m) ++ take (Z.to_nat (n - (zlen m - r))) m.
Proof.
  intros Hr Hn. apply list_eq_znth; [len|]. intros k Hk. autorewrite with bblen in Hk.
  rewrite znth_window by lia. unfold cell. destruct (Z.lt_ge_cases k (zlen m - r)).
  - rewrite znth_app_l by len. rewrite znth_take by lia. rewrite Z.mod_small by lia.
    destruct (znth_lt m (r + k)) as [x Hx]; [lia|]. rewrite Hx.
    cbn [default from_option id]. symmetry.
    unfold znth. ztrue (0 <=? k). rewrite lookup_drop. apply znth_Some in Hx as [_ <-].
    f_equal. lia.
  - rewrite znth_app_r by len. rewrite length_take, length_drop. rewrite znth_take by lia.
    rewrite mod_once by lia.
    replace (k - Z.of_nat (Z.to_nat (zlen m - r) `min` (length m - Z.to_nat r))) with (r + k - zlen m) by lia.
    destruct (znth_lt m (r + k - zlen m)) as [x Hx]; [lia|]. by rewrite Hx.
Qed.

Lemma window_straight m r n :
  0 <= r -> 0 <= n -> r + n <= zlen m ->
  window m r n = take (Z.to_nat n) (drop (Z.to_nat r) m).
Proof.
  intros Hr Hn Hs. apply list_eq_znth; [len|]. intros k Hk. autorewrite with bblen in Hk.
  rewrite znth_window by lia. unfold cell. rewrite Z.mod_small by lia.
  destruct (znth_lt m (r + k)) as [x Hx]; [lia|]. rewrite Hx.
    cbn [default from_option id]. symmetry.
  rewrite znth_take by lia. unfold znth. ztrue (0 <=? k). rewrite lookup_drop.
  apply znth_Some in Hx as [_ <-]. f_equal. lia.
Qed.

(** Two copies into the array, the second at its start or empty. *)
Lemma memcpy_wrap m w w2 data n :
  0 <= w < zlen m -> 0 <= n <= zlen m -> n <= zlen data -> 0 <= w2 <= zlen m ->
  let n1 := Z.min (zlen m - w) n in
  (n = n1 \/ w2 = 0) ->
  exists m1, memcpy m w data 0 n1 = Some m1
    /\ memcpy m1 w2 data n1 (n - n1) = Some (wrap_write m w (take (Z.to_nat n) data)).
Proof.
  intros Hw Hn Hd Hw2 n1 H2. unfold wrap_write.
  rewrite memcpy_Some by lia. change (Z.to_nat 0) with 0%nat. rewrite drop_0.
  eexists. split; [done|].
  replace (take (Z.to_nat (zlen m - w)) (take (Z.to_nat n) data)) with (take (Z.to_nat n1) data).
  2: { rewrite firstn_firstn. f_equal. lia. }
  destruct (Z.eq_dec n n1) as [E|E].
  - rewrite memcpy_Some by (rewrite ?length_inserts; lia).
    replace (n - n1) with 0 by lia. rewrite (drop_ge (take _ data)) by (rewrite length_take; lia). done.
  - destruct H2 as [H2| ->]; [done|]. rewrite memcpy_Some by (rewrite ?length_inserts; lia).
    change (Z.to_nat 0) with 0%nat. do 2 f_equal.
    rewrite skipn_firstn_comm. replace (Z.to_nat n1) with (Z.to_nat (zlen m - w)) by lia.
    f_equal. lia.
Qed.

(** Two copies out of the array. *)
Lemma memcpy_unwrap m r r2 dst n :
  0 <= r < zlen m -> 0 <= n <= zlen m -> n <= zlen dst -> 0 <= r2 <= zlen m ->
  let n1 := Z.min (zlen m - r) n in
  (n = n1 \/ r2 = 0) ->
  exists d1, memcpy dst 0 m r n1 = Some d1
    /\ memcpy d1 n1 m r2 (n - n1) = Some (window m r n ++ drop (Z.to_nat n) dst).
Proof.
  intros Hr Hn Hd Hr2 n1 H2.
  assert (forall (l : list Z) d, (length l <= length d)%nat ->
    list_inserts 0 l d = l ++ drop (length l) d) as Hins.
  { intros l d Hl. rewrite <- (take_drop (length l) d) at 1.
    apply list_inserts_0_r. rewrite length_take. lia. }
  rewrite memcpy_Some by lia. eexists. split; [done|]. change (Z.to_nat 0) with 0%nat.
  set (a := take (Z.to_nat n1) (drop (Z.to_nat r) m)). assert (zlen a = n1) as Ha by (unfold a; len).
  rewrite Hins by lia. destruct (Z.eq_dec n n1) as [E|E].
  - rewrite memcpy_Some by (rewrite ?length_app, ?length_drop; lia).
    rewrite E, Z.sub_diag. cbn [Z.to_nat take list_inserts]. rewrite window_straight by lia.
    fold a. by replace (length a) with (Z.to_nat n1) by lia.
  - destruct H2 as [H2| ->]; [done|].
    rewrite memcpy_Some by (rewrite ?length_app, ?length_drop; lia).
    rewrite (window_segments m r n) by lia. change (Z.to_nat 0) with 0%nat. rewrite drop_0.
    replace (zlen m - r) with n1 by lia. fold a.
    replace (Z.to_nat n1) with (length a + 0)%nat by lia. rewrite list_inserts_app_r.
    rewrite Hins by (rewrite length_take, length_drop; lia).
    rewrite <- app_assoc, length_take, drop_drop.
    do 4 f_equal. lia.
Qed.

Lemma memcpy_zero dst doff src soff :
  0 <= doff <= zlen dst -> 0 <= soff <= zlen src -> memcpy dst doff src soff 0 = Some dst.
Proof. intros. by rewrite memcpy_Some by lia. Qed.

(** ** Bounded queues

    The contract of a ring buffer, whatever its index arithmetic: a put stores
    the longest prefix that fits at the end, a get removes a prefix. *)

Class BoundedQueue (Q : Type) := {
  q_wf : Q -> Prop;
  q_contents : Q -> list Z;
  q_capacity : Q -> Z;
  q_put : Q -> list Z -> option (Z * Q);
  q_get : Q -> Z -> option (list Z * Q);
  q_len_ok : forall q, q_wf q -> zlen (q_contents q) <= q_capacity q;
  q_put_ok : forall q data, q_wf q -> bytes_ok data -> zlen data < 65536 ->
    exists q', q_put q data
      = Some (Z.min (zlen data) (q_capacity q - zlen (q_contents q)), q')
      /\ q_wf q' /\ q_capacity q' = q_capacity q
      /\ q_contents q' = q_contents q
           ++ take (Z.to_nat (q_capacity q - zlen (q_contents q))) data;
  q_get_ok : forall q n, q_wf q -> 0 <= n < 65536 ->
    exists q', q_get q n = Some (take (Z.to_nat n) (q_contents q), q')
      /\ q_wf q' /\ q_capacity q' = q_capacity q
      /\ q_contents q' = drop (Z.to_nat n) (q_contents q)
}.

(** *** A client: any interleaving of puts and gets *)

Inductive QueueOp := QPut (data : list Z) | QGet (n : Z).

Definition op_ok (op : QueueOp) : Prop :=
  match op with
  | QPut data => bytes_ok data /\ zlen data < 65536
  | QGet n => 0 <= n < 65536
  end.

(** The bytes accepted and the bytes delivered by a run, in order. *)
Fixpoint q_run {Q} `{BoundedQueue Q} (q : Q) (ops : list QueueOp)
    : option (list Z * list Z * Q) :=
  match ops with
  | [] => Some ([], [], q)
  | QPut data :: ops =>
      '(n, q) ← q_put q data;
      '(ins, outs, q) ← q_run q ops;
      Some (take (Z.to_nat n) data ++ ins, outs, q)
  | QGet n :: ops =>
      '(out, q) ← q_get q n;
      '(ins, outs, q) ← q_run q ops;
      Some (ins, out ++ outs, q)
  end.

Lemma q_run_fifo {Q} `{BoundedQueue Q} (q : Q) ops :
  q_wf q -> Forall op_ok ops ->
  exists ins outs q', q_run q ops = Some (ins, outs, q') /\ q_wf q'
    /\ q_contents q ++ ins = outs ++ q_contents q' /\ q_capacity q' = q_capacity q.
Proof.
  intros Hq Hops. revert q Hq. induction Hops as [|op ops Hop _ IH]; intros q Hq.
  { exists [], [], q. rewrite app_nil_r. done. }
  destruct op as [data|n]; cbn [q_run op_ok] in *.
  - destruct Hop as [Hd Hl]. destruct (q_put_ok q data Hq Hd Hl) as (q1 & -> & Hq1 & Hcap & Hc).
    rewrite bind_Some. destruct (IH q1 Hq1) as (ins & outs & q' & -> & Hq' & Hio & Hcap').
    rewrite bind_Some. eexists _, _, _. split; [done|]. split; [done|]. split; [|congruence].
    rewrite <- Hio, Hc. pose proof (q_len_ok q Hq). rewrite <- app_assoc. do 2 f_equal.
    destruct (Z.le_ge_cases (zlen data) (q_capacity q - zlen (q_contents q))).
    + rewrite Z.min_l by done. by rewrite !take_ge by lia.
    + by rewrite Z.min_r by done.
  - destruct (q_get_ok q n Hq Hop) as (q1 & -> & Hq1 & Hcap & Hc). rewrite bind_Some.
    destruct (IH q1 Hq1) as (ins & outs & q' & -> & Hq' & Hio & Hcap'). rewrite bind_Some.
    eexists _, _, _. split; [done|]. split; [done|]. split; [|congruence].
    rewrite <- app_assoc, <- Hio, Hc, app_assoc. by rewrite take_drop.
Qed.
