(* ===== verification/RtRingbuffer.v ===== *)
(** * fun_buffer/rt_ringbuffer.c: ring buffer with mirror bits

    The indices run over the pool once per mirror; equal indices mean empty in
    the same mirror and full in different mirrors.  [assert] failures and
    accesses outside the pool or the caller's buffer are [None]. *)

From S2P Require Import Prelude CMem Ring.

(** ** State *)

Record ringbuffer := mkRb {
  rb_buffer_ptr : list Z;
  rb_read_mirror : bool;
  rb_read_index : Z;
  rb_write_mirror : bool;
  rb_write_index : Z;
  rb_buffer_size : Z
}.

Inductive ringbuffer_state := RINGBUFFER_EMPTY | RINGBUFFER_FULL | RINGBUFFER_HALFFULL.

#[export] Instance ringbuffer_state_eq_dec : EqDecision ringbuffer_state.
Proof. solve_decision. Defined.

(** The indices are 15-bit fields. *)
Definition u15 (x : Z) : Z := x `mod` 2 ^ 15.

Definition set_write (rb : ringbuffer) (mirror : bool) (index : Z) : ringbuffer :=
  mkRb (rb_buffer_ptr rb) (rb_read_mirror rb) (rb_read_index rb) mirror (u15 index)
    (rb_buffer_size rb).
Definition set_read (rb : ringbuffer) (mirror : bool) (index : Z) : ringbuffer :=
  mkRb (rb_buffer_ptr rb) mirror (u15 index) (rb_write_mirror rb) (rb_write_index rb)
    (rb_buffer_size rb).
Definition set_pool (rb : ringbuffer) (pool : list Z) : ringbuffer :=
  mkRb pool (rb_read_mirror rb) (rb_read_index rb) (rb_write_mirror rb) (rb_write_index rb)
    (rb_buffer_size rb).

(** ** Operations *)

Definition ringbuffer_status (rb : ringbuffer) : ringbuffer_state :=
  if rb_read_index rb =? rb_write_index rb
  then if Bool.eqb (rb_read_mirror rb) (rb_write_mirror rb)
       then RINGBUFFER_EMPTY else RINGBUFFER_FULL
  else RINGBUFFER_HALFFULL.

(** [ALIGN_DOWN(size, 8)]. *)
Definition align_down8 (size : Z) : Z := Z.land size (Z.lnot (8 - 1)).

Definition ringbuffer_init (pool : list Z) (size : Z) : option ringbuffer :=
  if size >? 0 then Some (mkRb pool false 0 false 0 (align_down8 size)) else None.

Definition ringbuffer_data_len (rb : ringbuffer) : Z :=
  match ringbuffer_status rb with
  | RINGBUFFER_EMPTY => 0
  | RINGBUFFER_FULL => rb_buffer_size rb
  | RINGBUFFER_HALFFULL =>
      if rb_write_index rb >? rb_read_index rb
      then rb_write_index rb - rb_read_index rb
      else rb_buffer_size rb - (rb_read_index rb - rb_write_index rb)
  end.

Definition ringbuffer_space_len (rb : ringbuffer) : Z :=
  rb_buffer_size rb - ringbuffer_data_len rb.

Definition ringbuffer_put (rb : ringbuffer) (ptr : list Z) (length : Z) : option (Z * ringbuffer) :=
  let size := u16 (ringbuffer_space_len rb) in
  return_if size =? 0 with Some (0, rb) ;;
  let length := if size <? length then size else length in
  let to_end := rb_buffer_size rb - rb_write_index rb in
  return_if to_end >? length
    with (pool ← memcpy (rb_buffer_ptr rb) (rb_write_index rb) ptr 0 length;
          Some (length, set_write (set_pool rb pool) (rb_write_mirror rb)
                          (rb_write_index rb + length))) ;;
  pool ← memcpy (rb_buffer_ptr rb) (rb_write_index rb) ptr 0 to_end;
  pool ← memcpy pool 0 ptr to_end (length - to_end);
  Some (length, set_write (set_pool rb pool) (negb (rb_write_mirror rb)) (length - to_end)).

Definition ringbuffer_put_force (rb : ringbuffer) (ptr : list Z) (length : Z)
    : option (Z * ringbuffer) :=
  let space_length := u16 (ringbuffer_space_len rb) in
  let '(off, length) :=
    if length >? rb_buffer_size rb
    then (length - rb_buffer_size rb, rb_buffer_size rb) else (0, length) in
  let to_end := rb_buffer_size rb - rb_write_index rb in
  return_if to_end >? length
    with (pool ← memcpy (rb_buffer_ptr rb) (rb_write_index rb) ptr off length;
          let rb := set_write (set_pool rb pool) (rb_write_mirror rb) (rb_write_index rb + length) in
          let rb := if length >? space_length
                    then set_read rb (rb_read_mirror rb) (rb_write_index rb) else rb in
          Some (length, rb)) ;;
  pool ← memcpy (rb_buffer_ptr rb) (rb_write_index rb) ptr off to_end;
  pool ← memcpy pool 0 ptr (off + to_end) (length - to_end);
  let rb := set_write (set_pool rb pool) (negb (rb_write_mirror rb)) (length - to_end) in
  let rb := if length >? space_length
            then set_read rb (negb (rb_read_mirror rb)) (rb_write_index rb) else rb in
  Some (length, rb).

(** The destination is the caller's buffer [ptr]. *)
Definition ringbuffer_get (rb : ringbuffer) (ptr : list Z) (length : Z)
    : option (Z * list Z * ringbuffer) :=
  let size := ringbuffer_data_len rb in
  return_if size =? 0 with Some (0, ptr, rb) ;;
  let length := if size <? length then u16 size else length in
  let to_end := rb_buffer_size rb - rb_read_index rb in
  return_if to_end >? length
    with (ptr ← memcpy ptr 0 (rb_buffer_ptr rb) (rb_read_index rb) length;
          Some (length, ptr, set_read rb (rb_read_mirror rb) (rb_read_index rb + length))) ;;
  ptr ← memcpy ptr 0 (rb_buffer_ptr rb) (rb_read_index rb) to_end;
  ptr ← memcpy ptr to_end (rb_buffer_ptr rb) 0 (length - to_end);
  Some (length, ptr, set_read rb (negb (rb_read_mirror rb)) (length - to_end)).

Definition ringbuffer_putchar (rb : ringbuffer) (ch : Z) : option (Z * ringbuffer) :=
  return_if ringbuffer_space_len rb =? 0 with Some (0, rb) ;;
  pool ← wr8 (rb_buffer_ptr rb) (rb_write_index rb) ch;
  let rb := set_pool rb pool in
  Some (1, if rb_write_index rb =? rb_buffer_size rb - 1
           then set_write rb (negb (rb_write_mirror rb)) 0
           else set_write rb (rb_write_mirror rb) (rb_write_index rb + 1)).

Definition ringbuffer_putchar_force (rb : ringbuffer) (ch : Z) : option (Z * ringbuffer) :=
  let old_state := ringbuffer_status rb in
  pool ← wr8 (rb_buffer_ptr rb) (rb_write_index rb) ch;
  let rb := set_pool rb pool in
  let full := bool_decide (old_state = RINGBUFFER_FULL) in
  Some (1,
    if rb_write_index rb =? rb_buffer_size rb - 1
    then let rb := set_write rb (negb (rb_write_mirror rb)) 0 in
         if full then set_read rb (negb (rb_read_mirror rb)) (rb_write_index rb) else rb
    else let rb := set_write rb (rb_write_mirror rb) (rb_write_index rb + 1) in
         if full then set_read rb (rb_read_mirror rb) (rb_write_index rb) else rb).

(** The character read, [None] when the buffer is empty. *)
Definition ringbuffer_getchar (rb : ringbuffer) : option (option Z * ringbuffer) :=
  return_if ringbuffer_data_len rb =? 0 with Some (None, rb) ;;
  ch ← rd8 (rb_buffer_ptr rb) (rb_read_index rb);
  Some (Some ch,
        if rb_read_index rb =? rb_buffer_size rb - 1
        then set_read rb (negb (rb_read_mirror rb)) 0
        else set_read rb (rb_read_mirror rb) (rb_read_index rb + 1)).

Definition ringbuffer_reset (rb : ringbuffer) : ringbuffer :=
  mkRb (rb_buffer_ptr rb) false 0 false 0 (rb_buffer_size rb).

Definition ringbuffer_get_size (rb : ringbuffer) : Z := rb_buffer_size rb.

(** The three ways out of [ringbuffer_create]. *)
Inductive created :=
| CreateNull
| CreateFreed                 (* the structure was freed and is returned *)
| CreateOk (rb : ringbuffer).

(** [rb_ok], [pool_ok n]: whether the two allocations succeed; [fill]: the
    indeterminate contents of the pool.  The size passed to [ringbuffer_init]
    is converted to [int16_t]. *)
Definition ringbuffer_create (rb_ok : bool) (pool_ok : Z -> bool) (fill : Z -> list Z)
    (size : Z) : option created :=
  return_if negb (size >? 0) with None ;;
  let size := align_down8 size in
  return_if negb rb_ok with Some CreateNull ;;
  return_if negb (pool_ok size) with Some CreateFreed ;;
  rb ← ringbuffer_init (fill size) (if size <? 32768 then size else size - 65536);
  Some (CreateOk rb).

(** ** Invariant and contents *)

(** In the same mirror the writer is ahead, in different mirrors the reader is.
    The pool may be longer than the aligned size; the excess is never used. *)
Definition rb_wf (rb : ringbuffer) : Prop :=
  0 < rb_buffer_size rb < 32768
  /\ rb_buffer_size rb <= zlen (rb_buffer_ptr rb)
  /\ bytes_ok (rb_buffer_ptr rb)
  /\ 0 <= rb_read_index rb < rb_buffer_size rb
  /\ 0 <= rb_write_index rb < rb_buffer_size rb
  /\ if Bool.eqb (rb_read_mirror rb) (rb_write_mirror rb)
     then rb_read_index rb <= rb_write_index rb
     else rb_write_index rb <= rb_read_index rb.

Definition rb_len (rb : ringbuffer) : Z :=
  if Bool.eqb (rb_read_mirror rb) (rb_write_mirror rb)
  then rb_write_index rb - rb_read_index rb
  else rb_buffer_size rb - (rb_read_index rb - rb_write_index rb).

Definition rb_cells (rb : ringbuffer) : list Z :=
  take (Z.to_nat (rb_buffer_size rb)) (rb_buffer_ptr rb).

Definition rb_contents (rb : ringbuffer) : list Z :=
  window (rb_cells rb) (rb_read_index rb) (rb_len rb).

Lemma data_len_spec rb : rb_wf rb -> ringbuffer_data_len rb = rb_len rb.
Proof.
  intros (_ & _ & _ & _ & _ & H). unfold ringbuffer_data_len, ringbuffer_status, rb_len.
  rewrite Z.gtb_ltb. destruct (Bool.eqb _ _); repeat zcase; lia.
Qed.

Lemma rb_len_range rb : rb_wf rb -> 0 <= rb_len rb <= rb_buffer_size rb.
Proof.
  intros (_ & _ & _ & Hr & Hw & H). unfold rb_len. destruct (Bool.eqb _ _); lia.
Qed.

Lemma rb_contents_length rb : rb_wf rb -> zlen (rb_contents rb) = rb_len rb.
Proof. intros H%rb_len_range. unfold rb_contents. len. Qed.

Lemma rb_cells_length rb : rb_wf rb -> zlen (rb_cells rb) = rb_buffer_size rb.
Proof. intros (Hs & Hl & _). unfold rb_cells. rewrite length_take. lia. Qed.

Lemma rb_cells_ok rb : rb_wf rb -> bytes_ok (rb_cells rb).
Proof. intros (_ & _ & H & _). by apply Forall_take. Qed.

Lemma rb_contents_ok rb : rb_wf rb -> bytes_ok (rb_contents rb).
Proof.
  intros Hwf. apply Forall_fmap, Forall_true. intros k.
  apply cell_range; [by apply rb_cells_ok | rewrite rb_cells_length by done; apply Hwf].
Qed.

(** Where the writer is, relative to the reader. *)
Lemma write_position rb : rb_wf rb ->
  rb_write_index rb = (rb_read_index rb + rb_len rb) `mod` zlen (rb_cells rb).
Proof.
  intros Hwf. rewrite rb_cells_length by done.
  destruct Hwf as (Hs & Hl & _ & Hr & Hw & H). unfold rb_len. destruct (Bool.eqb _ _).
  - rewrite Z.mod_small; lia.
  - rewrite mod_once; lia.
Qed.

Lemma u15_id x : 0 <= x < 32768 -> u15 x = x.
Proof. intros. unfold u15. zlia. Qed.

(** The two-segment copy of the put operations, on a pool with excess [r]. *)
Lemma copy_in {R} p m r w data off n s (k1 k2 : list Z -> option R) :
  p = m ++ r -> zlen m = s -> 0 <= w < s -> 0 <= off -> 0 <= n <= s -> off + n <= zlen data ->
  let src := take (Z.to_nat n) (drop (Z.to_nat off) data) in
  (return_if s - w >? n with (pool ← memcpy p w data off n; k1 pool) ;;
   pool ← memcpy p w data off (s - w);
   pool ← memcpy pool 0 data (off + (s - w)) (n - (s - w)); k2 pool)
  = (if s - w >? n then k1 else k2) (wrap_write m w src ++ r).
Proof.
  intros -> Hm Hw Ho Hn Hd src. assert (zlen src = n) as Hsrc by (unfold src; len).
  unfold wrap_write. rewrite Hm, Z.gtb_ltb. destruct (Z.ltb_spec n (s - w)).
  - rewrite memcpy_Some by (rewrite ?length_app; lia). fold src. rewrite bind_Some.
    rewrite inserts_app by lia. by rewrite (take_ge src), (drop_ge src) by lia.
  - rewrite memcpy_Some by (rewrite ?length_app; lia). rewrite bind_Some.
    assert (take (Z.to_nat (s - w)) (drop (Z.to_nat off) data) = take (Z.to_nat (s - w)) src) as Ht.
    { unfold src. rewrite firstn_firstn. f_equal. lia. }
    rewrite Ht, inserts_app by (rewrite length_take; lia).
    rewrite memcpy_Some by (rewrite ?length_app, ?length_inserts; lia). rewrite bind_Some.
    assert (take (Z.to_nat (n - (s - w))) (drop (Z.to_nat (off + (s - w))) data)
            = drop (Z.to_nat (s - w)) src) as Hd2.
    { unfold src. rewrite skipn_firstn_comm, drop_drop. f_equal; [lia|]. f_equal. lia. }
    rewrite Hd2, inserts_app by (rewrite length_inserts, length_drop; lia). done.
Qed.

(** The state after writing [n] bytes at the writer. *)
Definition advance_write (rb : ringbuffer) (cells : list Z) (n : Z) : ringbuffer :=
  let to_end := rb_buffer_size rb - rb_write_index rb in
  let rb' := set_pool rb (cells ++ drop (Z.to_nat (rb_buffer_size rb)) (rb_buffer_ptr rb)) in
  if to_end >? n then set_write rb' (rb_write_mirror rb) (rb_write_index rb + n)
  else set_write rb' (negb (rb_write_mirror rb)) (n - to_end).

Lemma pool_split rb : rb_buffer_ptr rb = rb_cells rb ++ drop (Z.to_nat (rb_buffer_size rb)) (rb_buffer_ptr rb).
Proof. unfold rb_cells. by rewrite take_drop. Qed.

(** Appending at most [space] bytes keeps the invariant and extends the contents. *)
Lemma advance_write_spec rb data :
  rb_wf rb -> bytes_ok data -> zlen data <= rb_buffer_size rb - rb_len rb ->
  let rb' := advance_write rb (wrap_write (rb_cells rb) (rb_write_index rb) data) (zlen data) in
  rb_wf rb' /\ rb_contents rb' = rb_contents rb ++ data /\ rb_buffer_size rb' = rb_buffer_size rb.
Proof.
  intros Hwf Hd Hn rb'.
  pose proof (rb_cells_length rb Hwf) as Hcl. pose proof (rb_cells_ok rb Hwf) as Hcok.
  pose proof (rb_len_range rb Hwf) as Hlen. pose proof (write_position rb Hwf) as Hpos.
  assert (rb_buffer_size rb' = rb_buffer_size rb
    /\ rb_read_index rb' = rb_read_index rb /\ rb_read_mirror rb' = rb_read_mirror rb
    /\ rb_buffer_ptr rb' = wrap_write (rb_cells rb) (rb_write_index rb) data
                            ++ drop (Z.to_nat (rb_buffer_size rb)) (rb_buffer_ptr rb))
    as (Hs' & Hr' & Hm' & Hp').
  { unfold rb', advance_write. by case_if. }
  assert (rb_cells rb' = wrap_write (rb_cells rb) (rb_write_index rb) data) as Hc'.
  { unfold rb_cells at 1. rewrite Hs', Hp'. apply take_app_length'. autorewrite with bblen. lia. }
  assert (rb_len rb' = rb_len rb + zlen data
    /\ 0 <= rb_write_index rb' < rb_buffer_size rb
    /\ if Bool.eqb (rb_read_mirror rb) (rb_write_mirror rb')
       then rb_read_index rb <= rb_write_index rb'
       else rb_write_index rb' <= rb_read_index rb) as (Hlen' & Hw' & Hord').
  { destruct Hwf as (Hs & _ & _ & Hr & Hw & Hord). unfold rb_len in *. rewrite Hs', Hr', Hm'.
    unfold rb', advance_write. rewrite Z.gtb_ltb.
    destruct (Z.ltb_spec (zlen data) (rb_buffer_size rb - rb_write_index rb));
      cbn [rb_write_index rb_write_mirror set_write]; rewrite u15_id by lia;
      destruct (rb_read_mirror rb), (rb_write_mirror rb); cbn [Bool.eqb negb] in *; lia. }
  split; [|split; [|done]].
  - destruct Hwf as (Hs & Hl & Hok & Hr & Hw & Hord). unfold rb_wf. rewrite Hs', Hr', Hm', Hp'.
    split; [done|]. split; [rewrite length_app; autorewrite with bblen; lia|].
    split; [apply Forall_app_2; [by apply wrap_write_ok | by apply Forall_drop]|].
    done.
  - unfold rb_contents. rewrite Hc', Hr', Hlen', Hpos.
    apply window_wrap_write; [rewrite Hcl; apply Hwf | lia | lia].
Qed.

(** The state after reading [n] bytes. *)
Definition advance_read (rb : ringbuffer) (n : Z) : ringbuffer :=
  let to_end := rb_buffer_size rb - rb_read_index rb in
  if to_end >? n then set_read rb (rb_read_mirror rb) (rb_read_index rb + n)
  else set_read rb (negb (rb_read_mirror rb)) (n - to_end).

Lemma advance_read_spec rb n :
  rb_wf rb -> 0 <= n <= rb_len rb ->
  rb_wf (advance_read rb n)
  /\ rb_contents (advance_read rb n) = drop (Z.to_nat n) (rb_contents rb)
  /\ rb_buffer_size (advance_read rb n) = rb_buffer_size rb.
Proof.
  intros Hwf Hn. pose proof (rb_cells_length rb Hwf) as Hcl.
  set (rb' := advance_read rb n).
  assert (rb_buffer_size rb' = rb_buffer_size rb /\ rb_buffer_ptr rb' = rb_buffer_ptr rb
    /\ rb_write_index rb' = rb_write_index rb /\ rb_write_mirror rb' = rb_write_mirror rb)
    as (Hs' & Hp' & Hw' & Hm').
  { unfold rb', advance_read. by case_if. }
  assert (rb_len rb' = rb_len rb - n
    /\ 0 <= rb_read_index rb' < rb_buffer_size rb
    /\ rb_read_index rb' = (rb_read_index rb + n) `mod` rb_buffer_size rb
    /\ if Bool.eqb (rb_read_mirror rb') (rb_write_mirror rb)
       then rb_read_index rb' <= rb_write_index rb
       else rb_write_index rb <= rb_read_index rb') as (Hlen' & Hr' & Hpos & Hord').
  { destruct Hwf as (Hs & _ & _ & Hr & Hw & Hord). unfold rb_len in *. rewrite Hs', Hw', Hm'.
    unfold rb', advance_read. rewrite Z.gtb_ltb.
    destruct (Z.ltb_spec n (rb_buffer_size rb - rb_read_index rb));
      cbn [rb_read_index rb_read_mirror set_read];
      destruct (rb_read_mirror rb), (rb_write_mirror rb); cbn [Bool.eqb negb] in *;
      rewrite ?u15_id by lia; rewrite ?Z.mod_small by lia; rewrite ?mod_once by lia; lia. }
  split; [|split; [|done]].
  - destruct Hwf as (Hs & Hl & Hok & Hr & Hw & Hord). unfold rb_wf. by rewrite Hs', Hp', Hw', Hm'.
  - unfold rb_contents. rewrite window_drop by lia. rewrite Hlen', Hpos.
    unfold rb_cells. rewrite Hs', Hp'. fold (rb_cells rb). rewrite <- Hcl. apply window_mod.
Qed.

(** The two-segment copy of [ringbuffer_get]. *)
Lemma copy_out {R} p m ex r n s dst (k1 k2 : list Z -> option R) :
  p = m ++ ex -> zlen m = s -> 0 <= r < s -> 0 <= n <= s -> n <= zlen dst ->
  (return_if s - r >? n with (dst ← memcpy dst 0 p r n; k1 dst) ;;
   dst ← memcpy dst 0 p r (s - r);
   dst ← memcpy dst (s - r) p 0 (n - (s - r)); k2 dst)
  = (if s - r >? n then k1 else k2) (window m r n ++ drop (Z.to_nat n) dst).
Proof.
  intros -> Hm Hr Hn Hd. rewrite Z.gtb_ltb.
  assert (forall i k, 0 <= i -> 0 <= k -> i + k <= s ->
    take (Z.to_nat k) (drop (Z.to_nat i) (m ++ ex)) = take (Z.to_nat k) (drop (Z.to_nat i) m)) as Hex.
  { intros i k Hi Hk Hik. rewrite drop_app_le by lia. apply take_app_le. rewrite length_drop. lia. }
  assert (forall k (l : list Z), zlen l = k -> k <= zlen dst ->
    list_inserts 0 l dst = l ++ drop (Z.to_nat k) dst) as Hins.
  { intros k l Hl Hk. rewrite <- (take_drop (Z.to_nat k) dst) at 1.
    apply list_inserts_0_r. rewrite length_take. lia. }
  destruct (Z.ltb_spec n (s - r)).
  - rewrite memcpy_Some by (rewrite ?length_app; lia). rewrite bind_Some, Hex by lia.
    rewrite (Hins n) by len. by rewrite window_straight by lia.
  - rewrite memcpy_Some by (rewrite ?length_app; lia). rewrite bind_Some, Hex by lia.
    rewrite (Hins (s - r)) by len.
    rewrite memcpy_Some by (rewrite ?length_app, ?length_take, ?length_drop; lia).
    rewrite bind_Some, Hex, (window_segments m r n) by lia. f_equal. rewrite Hm, drop_0.
    set (a := take (Z.to_nat (s - r)) (drop (Z.to_nat r) m)).
    assert (zlen a = s - r) as Ha by (unfold a; len).
    set (b := take (Z.to_nat (n - (s - r))) m).
    assert (zlen b = n - (s - r)) as Hb by (unfold b; len).
    rewrite <- app_assoc.
    replace (Z.to_nat (s - r)) with (length a + 0)%nat by lia. rewrite list_inserts_app_r. f_equal.
    rewrite <- (take_drop (length b) (drop _ dst)). rewrite list_inserts_0_r.
    + f_equal. rewrite drop_drop. f_equal. lia.
    + rewrite length_take, length_drop. lia.
Qed.

Lemma put_spec rb data length :
  rb_wf rb -> bytes_ok data -> 0 <= length <= zlen data -> is_u16 length ->
  let n := Z.min length (rb_buffer_size rb - rb_len rb) in
  exists rb', ringbuffer_put rb data length = Some (n, rb')
    /\ rb_wf rb' /\ rb_contents rb' = rb_contents rb ++ take (Z.to_nat n) data
    /\ rb_buffer_size rb' = rb_buffer_size rb.
Proof.
  intros Hwf Hd Hl H16 n. unfold ringbuffer_put, ringbuffer_space_len.
  rewrite data_len_spec by done. pose proof (rb_len_range rb Hwf) as Hlen.
  pose proof Hwf as (Hs & Hp & _ & Hr & Hw & _).
  rewrite u16_id by lia.
  destruct (Z.eqb_spec (rb_buffer_size rb - rb_len rb) 0) as [E|E].
  { exists rb. replace n with 0 by lia. by rewrite app_nil_r. }
  replace (if _ <? length then _ else length) with n by (unfold n; zcase; lia).
  rewrite (copy_in _ _ _ (rb_write_index rb) data 0 n (rb_buffer_size rb) _ _ (pool_split rb))
    by (rewrite ?rb_cells_length by done; lia).
  change (Z.to_nat 0) with 0%nat. rewrite drop_0.
  pose proof (advance_write_spec rb (take (Z.to_nat n) data) Hwf) as H.
  replace (zlen (take (Z.to_nat n) data)) with n in H by len.
  destruct H as (Hwf' & Hc' & Hs'); [by apply Forall_take | lia |].
  unfold advance_write in *. case_if; eexists; (split; [done|]); done.
Qed.

Lemma get_spec rb dst length :
  rb_wf rb -> is_u16 length -> Z.min length (rb_len rb) <= zlen dst ->
  let n := Z.min length (rb_len rb) in
  exists rb', ringbuffer_get rb dst length
      = Some (n, take (Z.to_nat n) (rb_contents rb) ++ drop (Z.to_nat n) dst, rb')
    /\ rb_wf rb' /\ rb_contents rb' = drop (Z.to_nat n) (rb_contents rb)
    /\ rb_buffer_size rb' = rb_buffer_size rb.
Proof.
  intros Hwf H16 Hd n. unfold ringbuffer_get.
  rewrite data_len_spec by done. pose proof (rb_len_range rb Hwf) as Hlen.
  pose proof Hwf as (Hs & Hp & _ & Hr & Hw & _).
  destruct (Z.eqb_spec (rb_len rb) 0) as [E|E].
  { exists rb. replace n with 0 by lia. by rewrite !drop_0. }
  replace (if _ <? length then _ else length) with n.
  2: { unfold n. zcase; [rewrite u16_id by lia|]; lia. }
  rewrite (copy_out _ _ _ (rb_read_index rb) n (rb_buffer_size rb) _ _ _ (pool_split rb))
    by (rewrite ?rb_cells_length by done; lia).
  unfold rb_contents. rewrite window_take by lia. fold (rb_contents rb).
  destruct (advance_read_spec rb n Hwf) as (Hwf' & Hc' & Hs'); [lia|].
  unfold advance_read in *. case_if; eexists; (split; [done|]); done.
Qed.

(** ** Single characters *)

Lemma inserts_1 {A} (l : list A) i x : list_inserts i [x] l = <[i := x]> l.
Proof. done. Qed.

(** Writing one character is a put of one byte. *)
Lemma putchar_put rb ch :
  rb_wf rb -> is_u8 ch -> ringbuffer_putchar rb ch = ringbuffer_put rb [ch] 1.
Proof.
  intros Hwf Hch. pose proof Hwf as (Hs & Hp & _ & Hr & Hw & _).
  pose proof (rb_len_range rb Hwf). unfold ringbuffer_putchar, ringbuffer_put.
  unfold ringbuffer_space_len. rewrite data_len_spec by done. rewrite u16_id by lia.
  destruct (Z.eqb_spec (rb_buffer_size rb - rb_len rb) 0) as [E|E]; [done|].
  zfalse (rb_buffer_size rb - rb_len rb <? 1).
  rewrite wr8_Some by lia. rewrite u8_id by done. rewrite bind_Some.
  cbn [rb_write_index rb_buffer_size rb_write_mirror set_pool].
  destruct (Z.eqb_spec (rb_write_index rb) (rb_buffer_size rb - 1)).
  - zfalse (rb_buffer_size rb - rb_write_index rb >? 1).
    replace (rb_buffer_size rb - rb_write_index rb) with 1 by lia. cbv iota.
    rewrite memcpy_Some, bind_Some by (cbn [length]; lia).
    rewrite memcpy_Some by (cbn [length]; rewrite ?length_inserts; lia). done.
  - ztrue (rb_buffer_size rb - rb_write_index rb >? 1).
    by rewrite memcpy_Some by (cbn [length]; lia).
Qed.

(** Reading one character is a get into a one-byte buffer. *)
Lemma getchar_get rb b :
  rb_wf rb ->
  ringbuffer_get rb [b] 1
  = '(c, rb') ← ringbuffer_getchar rb;
    Some (match c with Some _ => 1 | None => 0 end, [default b c], rb').
Proof.
  intros Hwf. pose proof Hwf as (Hs & Hp & _ & Hr & Hw & _).
  pose proof (rb_len_range rb Hwf). unfold ringbuffer_getchar, ringbuffer_get.
  rewrite data_len_spec by done. destruct (Z.eqb_spec (rb_len rb) 0) as [E|E]; [done|].
  zfalse (rb_len rb <? 1). destruct (rd8_lt (rb_buffer_ptr rb) (rb_read_index rb)) as [c Hc]; [lia|].
  rewrite Hc, !bind_Some. apply znth_Some in Hc as [_ Hc].
  assert (take 1 (drop (Z.to_nat (rb_read_index rb)) (rb_buffer_ptr rb)) = [c]) as Ht.
  { by rewrite (drop_S _ c). }
  destruct (Z.eqb_spec (rb_read_index rb) (rb_buffer_size rb - 1)).
  - zfalse (rb_buffer_size rb - rb_read_index rb >? 1).
    replace (rb_buffer_size rb - rb_read_index rb) with 1 by lia. cbv iota.
    rewrite memcpy_Some, bind_Some by (cbn [length]; lia). change (Z.to_nat 1) with 1%nat.
    rewrite Ht. rewrite memcpy_Some by (rewrite ?length_inserts; cbn [length]; lia). done.
  - ztrue (rb_buffer_size rb - rb_read_index rb >? 1). cbv iota.
    rewrite memcpy_Some, bind_Some by (cbn [length]; lia). change (Z.to_nat 1) with 1%nat.
    by rewrite Ht.
Qed.

(** ** Forced writes *)

Lemma rb_full_iff rb : rb_wf rb ->
  ringbuffer_status rb = RINGBUFFER_FULL <-> rb_len rb = rb_buffer_size rb.
Proof.
  intros (Hs & _ & _ & Hr & Hw & H). unfold ringbuffer_status, rb_len.
  destruct (Bool.eqb _ _); zcase; split; intros; try congruence; lia.
Qed.

(** The state after a write of [src] that overtakes the reader. *)
Definition overtake (rb : ringbuffer) (src : list Z) : ringbuffer :=
  let rb' := advance_write rb (wrap_write (rb_cells rb) (rb_write_index rb) src) (zlen src) in
  set_read rb' (if rb_buffer_size rb - rb_write_index rb >? zlen src
                then rb_read_mirror rb else negb (rb_read_mirror rb)) (rb_write_index rb').

Definition same_mirror (rb : ringbuffer) : bool :=
  Bool.eqb (rb_read_mirror rb) (rb_write_mirror rb).

(** From different mirrors the last [buffer_size] bytes are kept; from the same
    mirror both mirrors flip and the buffer ends up empty. *)
Lemma overtake_spec rb src :
  rb_wf rb -> bytes_ok src -> rb_buffer_size rb - rb_len rb < zlen src <= rb_buffer_size rb ->
  rb_wf (overtake rb src) /\ rb_buffer_size (overtake rb src) = rb_buffer_size rb
  /\ rb_contents (overtake rb src)
     = if same_mirror rb then []
       else drop (Z.to_nat (rb_len rb + zlen src - rb_buffer_size rb)) (rb_contents rb) ++ src.
Proof.
  intros Hwf Hd Hn. pose proof (rb_cells_length rb Hwf) as Hcl.
  pose proof (rb_cells_ok rb Hwf) as Hcok. pose proof (rb_len_range rb Hwf) as Hlen.
  pose proof (write_position rb Hwf) as Hpos. rewrite Hcl in Hpos.
  pose proof Hwf as (Hs & Hl & Hok & Hr & Hw & Hord). unfold same_mirror.
  set (s := rb_buffer_size rb) in *. set (w := rb_write_index rb) in *. set (n := zlen src) in *.
  set (cells := wrap_write (rb_cells rb) w src) in *.
  assert (zlen cells = s) as Hcs by (unfold cells; len).
  set (rb' := overtake rb src).
  assert (rb_buffer_size rb' = s
    /\ rb_buffer_ptr rb' = cells ++ drop (Z.to_nat s) (rb_buffer_ptr rb)
    /\ rb_write_index rb' = (w + n) `mod` s /\ rb_read_index rb' = (w + n) `mod` s
    /\ rb_write_mirror rb' = (if s - w >? n then rb_write_mirror rb else negb (rb_write_mirror rb))
    /\ rb_read_mirror rb' = (if s - w >? n then rb_read_mirror rb else negb (rb_read_mirror rb)))
    as (Hs' & Hp' & Hw' & Hr' & Hwm & Hrm).
  { unfold rb', overtake, advance_write. fold s w n cells. rewrite Z.gtb_ltb.
    destruct (Z.ltb_spec n (s - w));
      cbn [rb_buffer_size rb_buffer_ptr rb_write_index rb_read_index rb_write_mirror
           rb_read_mirror set_read set_write set_pool].
    - rewrite !Z.mod_small, !u15_id by (rewrite ?u15_id; lia). done.
    - rewrite !mod_once, !u15_id by (rewrite ?u15_id; lia).
      replace (n - (s - w)) with (w + n - s) by lia. done. }
  assert (Bool.eqb (rb_read_mirror rb') (rb_write_mirror rb')
          = Bool.eqb (rb_read_mirror rb) (rb_write_mirror rb)) as Hm.
  { rewrite Hwm, Hrm. destruct (s - w >? n), (rb_read_mirror rb), (rb_write_mirror rb); done. }
  assert (0 <= (w + n) `mod` s < s) as Hmod by zlia.
  assert (rb_cells rb' = cells) as Hc'.
  { unfold rb_cells at 1. rewrite Hs', Hp'. apply take_app_length'. lia. }
  split; [|split; [done|]].
  - unfold rb_wf. rewrite Hs', Hp', Hw', Hr', Hm.
    split; [done|]. split; [rewrite length_app; lia|].
    split; [apply Forall_app_2; [by apply wrap_write_ok | by apply Forall_drop]|].
    split; [done|]. split; [done|]. destruct (Bool.eqb _ _); lia.
  - unfold rb_contents. rewrite Hc', Hr'. unfold rb_len at 1. rewrite Hs', Hw', Hr', Hm.
    destruct (Bool.eqb _ _) eqn:Em; [by rewrite window_nil by lia|].
    rewrite window_drop by lia.
    replace (rb_len rb - (rb_len rb + n - s)) with (s - n) by lia.
    rewrite <- (window_mod (rb_cells rb)), Hcl.
    replace ((rb_read_index rb + (rb_len rb + n - s)) `mod` s) with ((w + n) `mod` s).
    2: { rewrite Hpos, Zplus_mod_idemp_l. symmetry.
         rewrite <- (Z_mod_plus_full _ 1 s). f_equal. lia. }
    replace (s - ((w + n) `mod` s - (w + n) `mod` s)) with (s - n + n) by lia.
    unfold cells. replace w with (((w + n) `mod` s + (s - n)) `mod` zlen (rb_cells rb)) at 1.
    2: { rewrite Hcl, Zplus_mod_idemp_l. replace (w + n + (s - n)) with (w + 1 * s) by lia.
         rewrite Z_mod_plus_full. by rewrite Z.mod_small. }
    apply window_wrap_write; lia.
Qed.

Lemma put_force_spec rb data length :
  rb_wf rb -> bytes_ok data -> 0 <= length <= zlen data -> is_u16 length ->
  let n := Z.min length (rb_buffer_size rb) in
  exists rb', ringbuffer_put_force rb data length = Some (n, rb')
    /\ rb_wf rb' /\ rb_buffer_size rb' = rb_buffer_size rb
    /\ rb_contents rb'
       = if same_mirror rb && (rb_buffer_size rb - rb_len rb <? n) then []
         else drop (Z.to_nat (rb_len rb + n - rb_buffer_size rb)) (rb_contents rb)
              ++ drop (Z.to_nat (length - n)) (take (Z.to_nat length) data).
Proof.
  intros Hwf Hd Hl H16 n. pose proof (rb_len_range rb Hwf) as Hlen.
  pose proof Hwf as (Hs & Hp & _ & Hr & Hw & _). unfold ringbuffer_put_force, ringbuffer_space_len.
  rewrite data_len_spec, u16_id by (done || lia).
  replace (if length >? rb_buffer_size rb then _ else _) with (length - n, n).
  2: { unfold n. rewrite Z.gtb_ltb. zcase; f_equal; lia. }
  rewrite (copy_in _ _ _ (rb_write_index rb) data (length - n) n (rb_buffer_size rb) _ _ (pool_split rb))
    by (rewrite ?rb_cells_length by done; lia).
  replace (drop (Z.to_nat (length - n)) (take (Z.to_nat length) data))
    with (take (Z.to_nat n) (drop (Z.to_nat (length - n)) data)).
  2: { rewrite skipn_firstn_comm. f_equal. lia. }
  set (src := take _ (drop _ data)). assert (zlen src = n) as Hsrc by (unfold src; len).
  assert (bytes_ok src) as Hok by (by apply Forall_take, Forall_drop).
  destruct (Z.ltb_spec (rb_buffer_size rb - rb_len rb) n) as [Hover|Hfit].
  - rewrite andb_true_r. destruct (overtake_spec rb src Hwf Hok) as (Hwf' & Hs' & Hc'); [lia|].
    rewrite Hsrc in Hc'. exists (overtake rb src). split; [|done].
    unfold overtake, advance_write. rewrite Hsrc.
    destruct (rb_buffer_size rb - rb_write_index rb >? n);
      by ztrue (n >? rb_buffer_size rb - rb_len rb).
  - rewrite andb_false_r. destruct (advance_write_spec rb src Hwf Hok) as (Hwf' & Hc' & Hs'); [lia|].
    replace (Z.to_nat (rb_len rb + n - rb_buffer_size rb)) with 0%nat by lia. rewrite drop_0.
    eexists. split; [|done]. unfold advance_write. rewrite Hsrc.
    destruct (rb_buffer_size rb - rb_write_index rb >? n);
      by zfalse (n >? rb_buffer_size rb - rb_len rb).
Qed.

(** A forced character is a forced put of one byte. *)
Lemma putchar_force_put rb ch :
  rb_wf rb -> is_u8 ch -> ringbuffer_putchar_force rb ch = ringbuffer_put_force rb [ch] 1.
Proof.
  intros Hwf Hch. pose proof Hwf as (Hs & Hp & _ & Hr & Hw & _).
  pose proof (rb_len_range rb Hwf) as Hlen. pose proof (rb_full_iff rb Hwf) as Hfull.
  unfold ringbuffer_putchar_force, ringbuffer_put_force, ringbuffer_space_len.
  rewrite data_len_spec, u16_id by (done || lia).
  zfalse (1 >? rb_buffer_size rb). cbv beta iota.
  rewrite wr8_Some by lia. rewrite u8_id by done. rewrite bind_Some.
  cbn [rb_write_index rb_buffer_size rb_write_mirror set_pool].
  replace (bool_decide _) with (1 >? rb_buffer_size rb - rb_len rb).
  2: { rewrite Z.gtb_ltb. case_bool_decide as E; rewrite Hfull in E; zcase; lia. }
  destruct (Z.eqb_spec (rb_write_index rb) (rb_buffer_size rb - 1)).
  - zfalse (rb_buffer_size rb - rb_write_index rb >? 1).
    replace (rb_buffer_size rb - rb_write_index rb) with 1 by lia. cbv iota.
    rewrite memcpy_Some, bind_Some by (cbn [length]; lia).
    rewrite memcpy_Some by (cbn [length]; rewrite ?length_inserts; lia). rewrite bind_Some.
    by case_if.
  - ztrue (rb_buffer_size rb - rb_write_index rb >? 1). cbv iota.
    rewrite memcpy_Some, bind_Some by (cbn [length]; lia). by case_if.
Qed.

(** ** Creation *)

Lemma align_down8_spec size : align_down8 size = size - size `mod` 8.
Proof.
  unfold align_down8. change (8 - 1) with (Z.ones 3).
  rewrite <- Z.ldiff_land, Z.ldiff_ones_r by lia.
  rewrite Z.shiftl_mul_pow2, Z.shiftr_div_pow2 by lia. change (2 ^ 3) with 8. zlia.
Qed.

Lemma ringbuffer_init_spec pool size :
  8 <= size < 32768 -> bytes_ok pool -> align_down8 size <= zlen pool ->
  exists rb, ringbuffer_init pool size = Some rb /\ rb_wf rb /\ rb_contents rb = []
    /\ rb_buffer_size rb = align_down8 size.
Proof.
  intros Hs Hok Hp. unfold ringbuffer_init. ztrue (size >? 0). eexists. split; [done|].
  rewrite align_down8_spec in *.
  assert (0 < size - size `mod` 8 < 32768) by zlia. split; [|split].
  - unfold rb_wf. cbn. repeat (split; [done || lia|]). lia.
  - unfold rb_contents, rb_len. cbn. by rewrite window_nil by lia.
  - done.
Qed.

Lemma reset_spec rb : rb_wf rb -> rb_wf (ringbuffer_reset rb) /\ rb_contents (ringbuffer_reset rb) = [].
Proof.
  intros (Hs & Hp & Hok & Hr & Hw & _). split.
  - unfold rb_wf. cbn. repeat (split; [done || lia|]). lia.
  - unfold rb_contents, rb_len. cbn. by rewrite window_nil by lia.
Qed.

(** ** The ring buffer as a bounded queue *)

(** [ringbuffer_get] into a fresh buffer: the bytes delivered. *)
Definition rb_take (rb : ringbuffer) (n : Z) : option (list Z * ringbuffer) :=
  '(k, dst, rb) ← ringbuffer_get rb (zeros n) n; Some (take (Z.to_nat k) dst, rb).

#[export] Program Instance ringbuffer_queue : BoundedQueue ringbuffer := {
  q_wf := rb_wf;
  q_contents := rb_contents;
  q_capacity := rb_buffer_size;
  q_put rb data := ringbuffer_put rb data (zlen data);
  q_get := rb_take
}.
Next Obligation.
  intros rb Hwf. pose proof (rb_len_range rb Hwf). rewrite rb_contents_length by done. lia.
Qed.
Next Obligation.
  intros rb data Hwf Hd Hl. rewrite rb_contents_length by done.
  destruct (put_spec rb data (zlen data) Hwf Hd) as (rb' & Hput & Hwf' & Hc & Hs); [lia..|].
  exists rb'. split; [done|]. split; [done|]. split; [done|]. rewrite Hc. f_equal.
  destruct (Z.le_ge_cases (zlen data) (rb_buffer_size rb - rb_len rb)).
  - rewrite Z.min_l by done. by rewrite !take_ge by lia.
  - by rewrite Z.min_r by done.
Qed.
Next Obligation.
  intros rb n Hwf Hn. unfold rb_take. pose proof (rb_len_range rb Hwf).
  pose proof (rb_contents_length rb Hwf).
  destruct (get_spec rb (zeros n) n Hwf Hn) as (rb' & -> & Hwf' & Hc & Hs).
  { rewrite zeros_len by lia. lia. }
  rewrite bind_Some. exists rb'. split; [|split; [done|]]; [|split; [done|]].
  - do 2 f_equal. rewrite take_app_le, firstn_firstn by (rewrite length_take; lia).
    destruct (Z.le_ge_cases n (rb_len rb)); [f_equal; lia|]. by rewrite !take_ge by lia.
  - rewrite Hc. destruct (Z.le_ge_cases n (rb_len rb)); [f_equal; lia|].
    by rewrite !drop_ge by lia.
Qed.

(** ** Properties *)

(** C37: a ring buffer set up by [ringbuffer_init] is a first-in first-out queue:
    under every sequence of puts (each accepting the prefix that fits) and gets,
    the bytes accepted are the bytes delivered followed by the bytes still held,
    in order, never more than the aligned pool size, and no access leaves the pool. *)
Theorem ringbuffer_fifo pool size ops :
  8 <= size < 32768 -> bytes_ok pool -> align_down8 size <= zlen pool -> Forall op_ok ops ->
  exists rb ins outs rb', ringbuffer_init pool size = Some rb
    /\ q_run rb ops = Some (ins, outs, rb')
    /\ ins = outs ++ rb_contents rb'
    /\ zlen (rb_contents rb') <= size - size `mod` 8.
Proof.
  intros Hs Hok Hp Hops. destruct (ringbuffer_init_spec pool size Hs Hok Hp) as (rb & Hi & Hwf & Hc & Hsz).
  pose proof (q_run_fifo rb ops) as Hfifo.
  destruct (Hfifo Hwf Hops) as (ins & outs & rb' & Hrun & Hwf' & Hio & Hcap).
  exists rb, ins, outs, rb'. split; [done|]. split; [done|].
  cbn [q_contents q_capacity ringbuffer_queue] in *. rewrite Hc in Hio. split; [done|].
  rewrite rb_contents_length by done. pose proof (rb_len_range rb' Hwf') as Hl.
  rewrite Hcap, Hsz, align_down8_spec in Hl. lia.
Qed.

Definition sample_ops : list QueueOp :=
  [QPut [1; 2; 3; 4; 5; 6]; QGet 4; QPut [7; 8; 9; 10; 11; 12; 13]; QGet 5; QGet 100].

Lemma ringbuffer_fifo_witness :
  exists rb ins outs rb', ringbuffer_init (zeros 8) 9 = Some rb
    /\ q_run rb sample_ops = Some (ins, outs, rb')
    /\ ins = outs ++ rb_contents rb' /\ zlen (rb_contents rb') <= 9 - 9 `mod` 8.
Proof.
  apply (ringbuffer_fifo (zeros 8) 9 sample_ops);
    [lia | apply zeros_ok | vm_compute; discriminate |].
  unfold sample_ops. repeat (apply Forall_cons_2 || apply Forall_nil_2); cbn [op_ok length];
    try lia; (split; [apply bytes_ok_decide; vm_compute; reflexivity | lia]).
Defined.

Example sample_run :
  (rb ← ringbuffer_init (zeros 8) 9; '(ins, outs, rb') ← q_run rb sample_ops; Some (ins, outs))
  = Some ([1; 2; 3; 4; 5; 6; 7; 8; 9; 10; 11; 12], [1; 2; 3; 4; 5; 6; 7; 8; 9; 10; 11; 12]).
Proof. reflexivity. Qed.

(** [ringbuffer_put_force] always stores [min (length, buffer_size)] bytes
    within the pool.  When they fit, or the reader is in the other mirror, the
    buffer afterwards holds the last [buffer_size] bytes of the old contents
    followed by the new ones; when they overtake a reader in the same mirror,
    flipping both mirrors leaves the buffer empty, the new data included. *)
Theorem ringbuffer_put_force_keeps_last rb data :
  rb_wf rb -> bytes_ok data -> zlen data < 65536 ->
  let s := rb_buffer_size rb in
  let n := Z.min (zlen data) s in
  exists rb', ringbuffer_put_force rb data (zlen data) = Some (n, rb') /\ rb_wf rb'
    /\ rb_contents rb'
       = if same_mirror rb && (s - rb_len rb <? n) then []
         else let all := rb_contents rb ++ data in drop (length all - Z.to_nat s) all.
Proof.
  intros Hwf Hd Hl s n. pose proof (rb_len_range rb Hwf) as Hlen. fold s in Hlen.
  pose proof (rb_contents_length rb Hwf) as Hcl.
  destruct (put_force_spec rb data (zlen data) Hwf Hd) as (rb' & Hput & Hwf' & _ & Hc); [lia..|].
  fold s n in Hput, Hc. exists rb'. split; [done|]. split; [done|]. rewrite Hc.
  case_if; [done|]. cbv zeta. rewrite length_app, (take_ge data) by lia.
  destruct (Z.le_ge_cases (zlen data) s) as [Hle|Hge].
  - replace (Z.to_nat (zlen data - n)) with 0%nat by (unfold n; lia).
    rewrite drop_0, drop_app_le by lia. f_equal. f_equal. unfold n. lia.
  - rewrite (drop_ge (rb_contents rb)) by (unfold n; lia). rewrite drop_app_ge by lia.
    rewrite app_nil_l. f_equal. unfold n. lia.
Qed.

(** One byte held, eight forced: eight reported, none held. *)
Lemma ringbuffer_put_force_keeps_last_witness :
  let rb := mkRb (zeros 8) false 0 false 1 8 in
  let data := [1; 2; 3; 4; 5; 6; 7; 8] in
  rb_wf rb /\ exists rb', ringbuffer_put_force rb data 8 = Some (8, rb') /\ rb_wf rb'
    /\ rb_contents rb' = [].
Proof.
  cbv zeta. assert (rb_wf (mkRb (zeros 8) false 0 false 1 8)) as Hwf.
  { split; [cbn; lia|]. split; [vm_compute; discriminate|]. split; [apply (zeros_ok 8)|]. cbn. lia. }
  split; [exact Hwf|].
  destruct (ringbuffer_put_force_keeps_last _ [1; 2; 3; 4; 5; 6; 7; 8] Hwf)
    as (rb' & Hp & Hw & Hc); [apply bytes_ok_decide; vm_compute; reflexivity | cbn; lia |].
  exists rb'. split; [exact Hp|]. split; [exact Hw|]. rewrite Hc. reflexivity.
Defined.

(** The single-character operations are the block operations at length one:
    the same count, state and byte for [ringbuffer_putchar], its forced variant
    (which drops exactly the oldest byte of a full buffer) and [ringbuffer_getchar]. *)
Theorem ringbuffer_char_ops rb ch :
  rb_wf rb -> is_u8 ch ->
  ringbuffer_putchar rb ch = ringbuffer_put rb [ch] 1
  /\ ringbuffer_putchar_force rb ch = ringbuffer_put_force rb [ch] 1
  /\ ringbuffer_get rb [ch] 1
     = ('(c, rb') ← ringbuffer_getchar rb;
        Some (match c with Some _ => 1 | None => 0 end, [default ch c], rb')).
Proof.
  intros Hwf Hch. split; [by apply putchar_put|]. split; [by apply putchar_force_put|].
  by apply getchar_get.
Qed.

Lemma ringbuffer_char_ops_witness :
  let rb := mkRb (zeros 8) true 7 false 7 8 in
  rb_wf rb /\ ringbuffer_putchar_force rb 65 = ringbuffer_put_force rb [65] 1.
Proof.
  cbv zeta. assert (rb_wf (mkRb (zeros 8) true 7 false 7 8)) as Hwf.
  { split; [cbn; lia|]. split; [vm_compute; discriminate|]. split; [apply (zeros_ok 8)|]. cbn. lia. }
  split; [exact Hwf|]. apply (ringbuffer_char_ops _ 65 Hwf). lia.
Defined.

(** [ringbuffer_create]: [NULL] when the structure cannot be allocated, the
    pointer it has just freed when the pool cannot, a failed assertion when the
    size rounds down to zero or does not fit [int16_t], and otherwise an empty,
    well-formed buffer of the size rounded down to a multiple of eight. *)
Theorem ringbuffer_create_outcomes rb_ok pool_ok fill size :
  0 < size < 65536 -> (forall n, 0 <= n -> zlen (fill n) = n /\ bytes_ok (fill n)) ->
  let s := size - size `mod` 8 in
  if negb rb_ok then ringbuffer_create rb_ok pool_ok fill size = Some CreateNull
  else if negb (pool_ok s) then ringbuffer_create rb_ok pool_ok fill size = Some CreateFreed
  else if (s =? 0) || (32768 <=? s) then ringbuffer_create rb_ok pool_ok fill size = None
  else exists rb, ringbuffer_create rb_ok pool_ok fill size = Some (CreateOk rb)
         /\ rb_wf rb /\ rb_contents rb = [] /\ ringbuffer_get_size rb = s.
Proof.
  intros Hs Hfill s. unfold ringbuffer_create. ztrue (size >? 0).
  cbn [negb]. cbv zeta. rewrite align_down8_spec. fold s.
  assert (0 <= s < 65536 /\ s `mod` 8 = 0) as [Hsr Hsm] by (unfold s; zlia).
  destruct rb_ok; cbn [negb]; [|done]. destruct (pool_ok s); cbn [negb]; [|done].
  destruct (Hfill s) as [Hfl Hfo]; [lia|].
  destruct (Z.ltb_spec s 32768).
  - zfalse (32768 <=? s). rewrite orb_false_r. destruct (Z.eqb_spec s 0) as [E|E].
    { unfold ringbuffer_init. by zfalse (s >? 0). }
    destruct (ringbuffer_init_spec (fill s) s) as (rb & -> & Hwf & Hc & Hsz);
      [zlia | done | rewrite align_down8_spec; lia |].
    exists rb. split; [done|]. split; [done|]. split; [done|].
    unfold ringbuffer_get_size. rewrite Hsz, align_down8_spec. lia.
  - ztrue (32768 <=? s). rewrite orb_true_r. unfold ringbuffer_init. by zfalse (s - 65536 >? 0).
Qed.

(** A pool that cannot be allocated: the freed structure is returned. *)
Lemma ringbuffer_create_outcomes_witness :
  ringbuffer_create true (fun _ => false) zeros 20 = Some CreateFreed.
Proof.
  apply (ringbuffer_create_outcomes true (fun _ => false) zeros 20); [lia|].
  intros n Hn. split; [by apply zeros_len | apply zeros_ok].
Defined.
