(* ===== verification/RingBuffer1.v ===== *)
(** * fun_buffer/ringbuffer1.c: item ring buffer with free-running indices

    [head] and [tail] are 32-bit counters that wrap; their difference is the
    number of items and their low bits, [count] being a power of two, the slot. *)

From S2P Require Import Prelude CMem Ring.

(** ** State *)

Record RINGBUFF_T := mkRingBuff {
  rbf_data : list Z;
  rbf_count : Z;
  rbf_itemSz : Z;
  rbf_head : Z;
  rbf_tail : Z
}.

Definition set_head (rb : RINGBUFF_T) (data : list Z) (head : Z) : RINGBUFF_T :=
  mkRingBuff data (rbf_count rb) (rbf_itemSz rb) (u32 head) (rbf_tail rb).
Definition set_tail (rb : RINGBUFF_T) (tail : Z) : RINGBUFF_T :=
  mkRingBuff (rbf_data rb) (rbf_count rb) (rbf_itemSz rb) (rbf_head rb) (u32 tail).

(** ** Operations *)

Definition RB_INDH (rb : RINGBUFF_T) : Z := Z.land (rbf_head rb) (u32 (rbf_count rb - 1)).
Definition RB_INDT (rb : RINGBUFF_T) : Z := Z.land (rbf_tail rb) (u32 (rbf_count rb - 1)).

Definition RingBuffer_Init (buffer : list Z) (itemSize count : Z) : Z * RINGBUFF_T :=
  (1, mkRingBuff buffer count itemSize 0 0).

Definition RingBuffer_Flush (rb : RINGBUFF_T) : RINGBUFF_T :=
  mkRingBuff (rbf_data rb) (rbf_count rb) (rbf_itemSz rb) 0 0.

Definition RingBuffer_GetSize (rb : RINGBUFF_T) : Z := rbf_count rb.
Definition RingBuffer_GetCount (rb : RINGBUFF_T) : Z := int32 (rbf_head rb - rbf_tail rb).
Definition RingBuffer_GetFree (rb : RINGBUFF_T) : Z := rbf_count rb - RingBuffer_GetCount rb.
Definition RingBuffer_IsFull (rb : RINGBUFF_T) : bool := RingBuffer_GetCount rb >=? rbf_count rb.
Definition RingBuffer_IsEmpty (rb : RINGBUFF_T) : bool := rbf_head rb =? rbf_tail rb.

Definition RingBuffer_Insert (rb : RINGBUFF_T) (data : list Z) : option (Z * RINGBUFF_T) :=
  return_if RingBuffer_IsFull rb with Some (0, rb) ;;
  m ← memcpy (rbf_data rb) (u32 (RB_INDH rb * rbf_itemSz rb)) data 0 (rbf_itemSz rb);
  Some (1, set_head rb m (rbf_head rb + 1)).

Definition RingBuffer_InsertMult (rb : RINGBUFF_T) (data : list Z) (num : Z)
    : option (Z * RINGBUFF_T) :=
  return_if RingBuffer_IsFull rb with Some (0, rb) ;;
  let free := RingBuffer_GetFree rb in
  let cnt1 := if u32 (RB_INDH rb + free) >=? rbf_count rb
              then int32 (rbf_count rb - RB_INDH rb) else free in
  let cnt2 := free - cnt1 in
  let cnt1 := Z.min cnt1 num in
  let num := num - cnt1 in
  let cnt2 := Z.min cnt2 num in
  n1 ← int_mul cnt1 (rbf_itemSz rb);
  n2 ← int_mul cnt2 (rbf_itemSz rb);
  m ← memcpy (rbf_data rb) (u32 (RB_INDH rb * rbf_itemSz rb)) data 0 n1;
  let rb := set_head rb m (rbf_head rb + cnt1) in
  m ← memcpy (rbf_data rb) (u32 (RB_INDH rb * rbf_itemSz rb)) data n1 n2;
  Some (cnt1 + cnt2, set_head rb m (rbf_head rb + cnt2)).

(** The caller's buffer [data] receives the items. *)
Definition RingBuffer_Pop (rb : RINGBUFF_T) (data : list Z) : option (Z * list Z * RINGBUFF_T) :=
  return_if RingBuffer_IsEmpty rb with Some (0, data, rb) ;;
  data ← memcpy data 0 (rbf_data rb) (u32 (RB_INDT rb * rbf_itemSz rb)) (rbf_itemSz rb);
  Some (1, data, set_tail rb (rbf_tail rb + 1)).

Definition RingBuffer_PopMult (rb : RINGBUFF_T) (data : list Z) (num : Z)
    : option (Z * list Z * RINGBUFF_T) :=
  return_if RingBuffer_IsEmpty rb with Some (0, data, rb) ;;
  let used := RingBuffer_GetCount rb in
  let cnt1 := if u32 (RB_INDT rb + used) >=? rbf_count rb
              then int32 (rbf_count rb - RB_INDT rb) else used in
  let cnt2 := used - cnt1 in
  let cnt1 := Z.min cnt1 num in
  let num := num - cnt1 in
  let cnt2 := Z.min cnt2 num in
  n1 ← int_mul cnt1 (rbf_itemSz rb);
  n2 ← int_mul cnt2 (rbf_itemSz rb);
  data ← memcpy data 0 (rbf_data rb) (u32 (RB_INDT rb * rbf_itemSz rb)) n1;
  let rb := set_tail rb (rbf_tail rb + cnt1) in
  data ← memcpy data n1 (rbf_data rb) (u32 (RB_INDT rb * rbf_itemSz rb)) n2;
  Some (cnt1 + cnt2, data, set_tail rb (rbf_tail rb + cnt2)).

(** ** Invariant and contents *)

(** The header's requirement: [count] a power of two, [buffer] of [count] items
    of [itemSz] bytes, all of it addressable with an [int]. *)
Definition rbf_wf (rb : RINGBUFF_T) : Prop :=
  (exists k, 1 <= k <= 30 /\ rbf_count rb = 2 ^ k)
  /\ 0 < rbf_itemSz rb /\ rbf_count rb * rbf_itemSz rb < 2147483648
  /\ zlen (rbf_data rb) = rbf_count rb * rbf_itemSz rb
  /\ bytes_ok (rbf_data rb)
  /\ is_u32 (rbf_head rb) /\ is_u32 (rbf_tail rb)
  /\ u32 (rbf_head rb - rbf_tail rb) <= rbf_count rb.

(** Items held. *)
Definition rbf_items (rb : RINGBUFF_T) : Z := u32 (rbf_head rb - rbf_tail rb).

(** The bytes of the items held, oldest first. *)
Definition rbf_contents (rb : RINGBUFF_T) : list Z :=
  window (rbf_data rb) (rbf_tail rb `mod` rbf_count rb * rbf_itemSz rb)
    (rbf_items rb * rbf_itemSz rb).

Lemma count_range k : 1 <= k <= 30 -> 2 <= 2 ^ k <= 1073741824.
Proof.
  intros. split; [change 2 with (2 ^ 1) at 1 | change 1073741824 with (2 ^ 30)];
    apply Z.pow_le_mono_r; lia.
Qed.

Lemma u32_mod_count x k : 1 <= k <= 30 -> u32 x `mod` 2 ^ k = x `mod` 2 ^ k.
Proof.
  intros. unfold u32. symmetry. replace 32 with (k + (32 - k)) by lia.
  rewrite Z.pow_add_r, Z.rem_mul_r by lia. rewrite Z.mul_comm, Z_mod_plus_full. by rewrite Zmod_mod.
Qed.

Lemma mask_mod x k : 1 <= k <= 30 -> Z.land x (u32 (2 ^ k - 1)) = x `mod` 2 ^ k.
Proof.
  intros Hk. pose proof (count_range k Hk). rewrite u32_id by lia. apply land_ones_mod. lia.
Qed.

Lemma RB_INDH_mod rb : rbf_wf rb -> RB_INDH rb = rbf_head rb `mod` rbf_count rb.
Proof. intros [(k & Hk & Hc) _]. unfold RB_INDH. rewrite Hc. by apply mask_mod. Qed.

Lemma RB_INDT_mod rb : rbf_wf rb -> RB_INDT rb = rbf_tail rb `mod` rbf_count rb.
Proof. intros [(k & Hk & Hc) _]. unfold RB_INDT. rewrite Hc. by apply mask_mod. Qed.

Lemma rbf_count_range rb : rbf_wf rb -> 2 <= rbf_count rb <= 1073741824.
Proof. intros [(k & Hk & ->) _]. by apply count_range. Qed.

Lemma GetCount_items rb : rbf_wf rb -> RingBuffer_GetCount rb = rbf_items rb.
Proof.
  intros Hwf. pose proof (rbf_count_range rb Hwf). destruct Hwf as (_ & _ & _ & _ & _ & _ & _ & H').
  unfold RingBuffer_GetCount, rbf_items, int32. by ztrue (u32 (rbf_head rb - rbf_tail rb) <? 2147483648).
Qed.

Lemma rbf_items_range rb : rbf_wf rb -> 0 <= rbf_items rb <= rbf_count rb.
Proof.
  intros (_ & _ & _ & _ & _ & _ & _ & H'). unfold rbf_items.
  pose proof (u32_range (rbf_head rb - rbf_tail rb)). lia.
Qed.

Lemma rbf_contents_length rb : rbf_wf rb -> zlen (rbf_contents rb) = rbf_items rb * rbf_itemSz rb.
Proof.
  intros Hwf. pose proof (rbf_items_range rb Hwf). unfold rbf_contents.
  rewrite window_length. destruct Hwf as (_ & Hsz & _). nia.
Qed.

Lemma IsEmpty_items rb : rbf_wf rb -> RingBuffer_IsEmpty rb = (rbf_items rb =? 0).
Proof.
  intros (_ & _ & _ & _ & _ & Hh & Ht & _). unfold RingBuffer_IsEmpty, rbf_items, u32.
  repeat zcase; zlia.
Qed.

(** The slot of the head is [items] slots after the slot of the tail. *)
Lemma head_position rb : rbf_wf rb ->
  rbf_head rb `mod` rbf_count rb
  = (rbf_tail rb `mod` rbf_count rb + rbf_items rb) `mod` rbf_count rb.
Proof.
  intros [(k & Hk & Hc) _]. rewrite Zplus_mod_idemp_l. unfold rbf_items. rewrite Hc.
  rewrite <- (Zplus_mod_idemp_r (u32 _)), u32_mod_count by done.
  rewrite Zplus_mod_idemp_r. f_equal. lia.
Qed.

(** Scaling slots to bytes. *)
Lemma scale_mod a c sz : 0 < c -> 0 < sz -> (a * sz) `mod` (c * sz) = a `mod` c * sz.
Proof. intros. rewrite Z.mul_mod_distr_r; lia. Qed.

(** ** The two segments *)

(** The segment lengths the code computes for [n = min (avail, num)] items from
    slot [i]: up to the end of the buffer, and the rest. *)
Lemma segment_counts i count avail num :
  0 <= i < count -> 2 <= count <= 1073741824 -> 0 <= avail <= count -> 0 <= num ->
  let n := Z.min avail num in
  let cnt1 := if u32 (i + avail) >=? count then int32 (count - i) else avail in
  Z.min cnt1 num = Z.min (count - i) n
  /\ Z.min (avail - cnt1) (num - Z.min cnt1 num) = n - Z.min (count - i) n.
Proof.
  intros Hi Hc Ha Hn n cnt1. assert (cnt1 = Z.min (count - i) avail) as ->; [|lia].
  unfold cnt1. rewrite u32_id by lia. rewrite Z.geb_leb. zcase; [|lia].
  unfold int32. rewrite u32_id by lia. ztrue (count - i <? 2147483648). lia.
Qed.

(** The second segment starts at slot 0 whenever it is not empty. *)
Lemma segment2_slot h c n count :
  0 < count -> let i := h `mod` count in c = Z.min (count - i) n ->
  n = c \/ (h + c) `mod` count = 0.
Proof.
  intros Hc i ->. destruct (Z.le_gt_cases n (count - i)); [left; lia|right].
  rewrite Z.min_l by lia. unfold i. rewrite (Z.div_mod h count) at 1 by lia.
  replace (count * (h `div` count) + h `mod` count + (count - h `mod` count))
    with ((h `div` count + 1) * count) by lia.
  apply Z_mod_mult.
Qed.

(** ** Functional specifications *)

(** The state after storing [src], [n] items long, at the head. *)
Definition stored (rb : RINGBUFF_T) (src : list Z) (n : Z) : RINGBUFF_T :=
  set_head rb (wrap_write (rbf_data rb) (RB_INDH rb * rbf_itemSz rb) src) (rbf_head rb + n).

(** The state after consuming [n] items at the tail. *)
Definition consumed (rb : RINGBUFF_T) (n : Z) : RINGBUFF_T := set_tail rb (rbf_tail rb + n).

Lemma u32_add_l a b : u32 (u32 a + b) = u32 (a + b).
Proof. unfold u32. apply Zplus_mod_idemp_l. Qed.

Lemma u32_sub_add_l a b n : u32 (u32 (a + n) - b) = u32 (u32 (a - b) + n).
Proof. unfold u32. rewrite Zminus_mod_idemp_l, Zplus_mod_idemp_l. f_equal. lia. Qed.

Lemma u32_sub_add_r a b n : u32 (a - u32 (b + n)) = u32 (u32 (a - b) - n).
Proof. unfold u32. rewrite Zminus_mod_idemp_r, Zminus_mod_idemp_l. f_equal. lia. Qed.

Lemma stored_spec rb src n :
  rbf_wf rb -> bytes_ok src -> 0 <= n <= rbf_count rb - rbf_items rb ->
  zlen src = n * rbf_itemSz rb ->
  rbf_wf (stored rb src n) /\ rbf_contents (stored rb src n) = rbf_contents rb ++ src.
Proof.
  intros Hwf Hok Hn Hlen. pose proof (rbf_count_range rb Hwf) as Hc.
  pose proof (rbf_items_range rb Hwf) as Hi. pose proof (head_position rb Hwf) as Hpos.
  pose proof (RB_INDH_mod rb Hwf) as Hh.
  pose proof Hwf as (Hk & Hsz & Hmax & Hd & Hdok & Hhr & Htr & _).
  assert (rbf_items (stored rb src n) = rbf_items rb + n) as Hitems.
  { unfold rbf_items, stored. cbn [rbf_head rbf_tail set_head]. rewrite u32_sub_add_l.
    fold (rbf_items rb). apply u32_id. lia. }
  split.
  - split; [exact Hk|]. split; [done|]. split; [done|].
    split; [cbn; autorewrite with bblen; done|]. split; [by apply wrap_write_ok|].
    split; [apply u32_range|]. split; [done|]. fold (rbf_items (stored rb src n)). rewrite Hitems. cbn. lia.
  - unfold rbf_contents. rewrite Hitems. cbn [stored set_head rbf_data rbf_tail rbf_count rbf_itemSz].
    rewrite Z.mul_add_distr_r, <- Hlen, Hh, Hpos, <- scale_mod by lia. rewrite <- Hd, Z.mul_add_distr_r.
    apply window_wrap_write; [|nia|rewrite Hlen, Hd; nia].
    rewrite Hd. assert (0 <= rbf_tail rb `mod` rbf_count rb < rbf_count rb) by (apply Z.mod_pos_bound; lia).
    nia.
Qed.

Lemma consumed_spec rb n :
  rbf_wf rb -> 0 <= n <= rbf_items rb ->
  rbf_wf (consumed rb n)
  /\ rbf_contents (consumed rb n) = drop (Z.to_nat (n * rbf_itemSz rb)) (rbf_contents rb).
Proof.
  intros Hwf Hn. pose proof (rbf_count_range rb Hwf) as Hc.
  pose proof (rbf_items_range rb Hwf) as Hi.
  pose proof Hwf as (Hk & Hsz & Hmax & Hd & Hdok & Hhr & Htr & _).
  assert (rbf_items (consumed rb n) = rbf_items rb - n) as Hitems.
  { unfold rbf_items, consumed. cbn [rbf_head rbf_tail set_tail]. rewrite u32_sub_add_r.
    fold (rbf_items rb). apply u32_id. lia. }
  split.
  - split; [exact Hk|]. split; [done|]. split; [done|]. split; [done|]. split; [done|].
    split; [done|]. split; [apply u32_range|]. fold (rbf_items (consumed rb n)). rewrite Hitems. cbn. lia.
  - unfold rbf_contents. rewrite Hitems. cbn [consumed set_tail rbf_data rbf_tail rbf_count rbf_itemSz].
    rewrite window_drop by nia. rewrite Z.mul_sub_distr_r.
    rewrite <- (window_mod _ (_ + n * rbf_itemSz rb)), Hd, <- Z.mul_add_distr_r, scale_mod by lia.
    rewrite Zplus_mod_idemp_l. destruct Hk as (k & Hk & ->). by rewrite u32_mod_count.
Qed.

Lemma RB_INDH_set rb m h : rbf_wf rb -> RB_INDH (set_head rb m h) = h `mod` rbf_count rb.
Proof.
  intros [(k & Hk & Hc) _]. unfold RB_INDH. cbn. rewrite Hc, mask_mod by done.
  by apply u32_mod_count.
Qed.

Lemma RB_INDT_set rb t : rbf_wf rb -> RB_INDT (set_tail rb t) = t `mod` rbf_count rb.
Proof.
  intros [(k & Hk & Hc) _]. unfold RB_INDT. cbn. rewrite Hc, mask_mod by done.
  by apply u32_mod_count.
Qed.

(** Slots and counts in bytes. *)
Lemma slot_bytes c sz i n :
  0 < sz -> c * sz < 2147483648 -> 0 <= i < c -> 0 <= n <= c ->
  0 <= i * sz < c * sz /\ 0 <= n * sz <= c * sz
  /\ Z.min (c - i) n * sz = Z.min (c * sz - i * sz) (n * sz)
  /\ (n - Z.min (c - i) n) * sz = n * sz - Z.min (c - i) n * sz.
Proof.
  intros. split; [nia|]. split; [nia|]. split; [|lia].
  rewrite <- Z.mul_min_distr_nonneg_r by lia. f_equal. lia.
Qed.

Lemma InsertMult_spec rb data num :
  rbf_wf rb -> bytes_ok data -> 0 <= num ->
  let n := Z.min num (rbf_count rb - rbf_items rb) in
  n * rbf_itemSz rb <= zlen data ->
  RingBuffer_InsertMult rb data num
  = Some (n, if rbf_items rb =? rbf_count rb then rb
             else stored rb (take (Z.to_nat (n * rbf_itemSz rb)) data) n).
Proof.
  intros Hwf Hok Hnum n Hlen. pose proof (rbf_count_range rb Hwf) as Hc.
  pose proof (rbf_items_range rb Hwf) as Hi. pose proof (RB_INDH_mod rb Hwf) as Hh.
  pose proof Hwf as (Hk & Hsz & Hmax & Hd & Hdok & Hhr & Htr & _).
  unfold RingBuffer_InsertMult, RingBuffer_IsFull, RingBuffer_GetFree.
  rewrite GetCount_items, Z.geb_leb by done. destruct (Z.eqb_spec (rbf_items rb) (rbf_count rb)).
  { ztrue (rbf_count rb <=? rbf_items rb). do 2 f_equal. lia. }
  zfalse (rbf_count rb <=? rbf_items rb).
  assert (0 <= RB_INDH rb < rbf_count rb) as Hir by (rewrite Hh; apply Z.mod_pos_bound; lia).
  set (i := RB_INDH rb) in *. set (c := rbf_count rb) in *. set (sz := rbf_itemSz rb) in *.
  destruct (segment_counts i c (c - rbf_items rb) num) as [H1 H2]; [done..|lia|done|].
  cbv zeta. rewrite H2, H1. rewrite (Z.min_comm _ num). fold n. set (c1 := Z.min (c - i) n).
  destruct (slot_bytes c sz i n) as (Hw & Hn & Hn1 & Hn2); [done.. | lia |]. fold c1 in Hn1, Hn2.
  rewrite !int_mul_Some, !bind_Some by lia. rewrite (u32_id (i * sz)) by lia.
  set (w2 := (rbf_head rb + c1) `mod` c). assert (0 <= w2 < c) as Hw2 by (apply Z.mod_pos_bound; lia).
  destruct (slot_bytes c sz w2 n) as (Hw2s & _); [done.. | lia |].
  destruct (memcpy_wrap (rbf_data rb) (i * sz) (w2 * sz) data (n * sz)) as (m1 & E1 & E2);
    [lia | lia | done | lia | |].
  { rewrite Hd, <- Hn1. destruct (segment2_slot (rbf_head rb) c1 n c) as [E|E];
      [lia | by rewrite <- Hh | left; by rewrite <- E | right]. unfold w2. by rewrite E. }
  rewrite Hd, <- Hn1 in E1, E2. rewrite E1, bind_Some.
  rewrite RB_INDH_set by done. cbn [rbf_data rbf_itemSz rbf_count set_head rbf_head]. fold c w2 sz.
  rewrite (u32_id (w2 * sz)), Hn2, E2, bind_Some by lia. f_equal. f_equal; [lia|].
  unfold stored, set_head. cbn [rbf_itemSz rbf_count rbf_tail]. fold i sz. rewrite u32_add_l.
  f_equal. f_equal. lia.
Qed.

Lemma PopMult_spec rb dst num :
  rbf_wf rb -> 0 <= num ->
  let n := Z.min num (rbf_items rb) in
  n * rbf_itemSz rb <= zlen dst ->
  RingBuffer_PopMult rb dst num
  = Some (n, take (Z.to_nat (n * rbf_itemSz rb)) (rbf_contents rb)
              ++ drop (Z.to_nat (n * rbf_itemSz rb)) dst,
          if rbf_items rb =? 0 then rb else consumed rb n).
Proof.
  intros Hwf Hnum n Hlen. pose proof (rbf_count_range rb Hwf) as Hc.
  pose proof (rbf_items_range rb Hwf) as Hi. pose proof (RB_INDT_mod rb Hwf) as Hh.
  pose proof Hwf as (Hk & Hsz & Hmax & Hd & Hdok & Hhr & Htr & _).
  unfold RingBuffer_PopMult. rewrite GetCount_items, IsEmpty_items by done.
  destruct (Z.eqb_spec (rbf_items rb) 0) as [E|E].
  { replace n with 0 by lia. by rewrite !drop_0. }
  unfold rbf_contents. rewrite <- Hh.
  assert (0 <= RB_INDT rb < rbf_count rb) as Hir by (rewrite Hh; apply Z.mod_pos_bound; lia).
  set (i := RB_INDT rb) in *. set (c := rbf_count rb) in *. set (sz := rbf_itemSz rb) in *.
  destruct (segment_counts i c (rbf_items rb) num) as [H1 H2]; [done..|].
  cbv zeta. rewrite H2, H1. rewrite (Z.min_comm _ num). fold n. set (c1 := Z.min (c - i) n).
  destruct (slot_bytes c sz i n) as (Hw & Hn & Hn1 & Hn2); [done.. | lia |]. fold c1 in Hn1, Hn2.
  rewrite !int_mul_Some, !bind_Some by lia. rewrite (u32_id (i * sz)) by lia.
  set (r2 := (rbf_tail rb + c1) `mod` c). assert (0 <= r2 < c) as Hr2 by (apply Z.mod_pos_bound; lia).
  destruct (slot_bytes c sz r2 n) as (Hr2s & _); [done.. | lia |].
  destruct (memcpy_unwrap (rbf_data rb) (i * sz) (r2 * sz) dst (n * sz)) as (d1 & E1 & E2);
    [lia | lia | done | lia | |].
  { rewrite Hd, <- Hn1. destruct (segment2_slot (rbf_tail rb) c1 n c) as [E'|E'];
      [lia | by rewrite <- Hh | left; by rewrite <- E' | right]. unfold r2. by rewrite E'. }
  rewrite Hd, <- Hn1 in E1, E2. rewrite E1, bind_Some.
  rewrite RB_INDT_set by done. cbn [rbf_data rbf_itemSz rbf_count set_tail rbf_tail]. fold c r2 sz.
  rewrite (u32_id (r2 * sz)), Hn2, E2, bind_Some by lia.
  rewrite window_take by (split; [lia|]; apply Z.mul_le_mono_nonneg_r; lia).
  f_equal. f_equal; [f_equal; lia|].
  unfold consumed, set_tail. cbn [rbf_data rbf_itemSz rbf_count rbf_head]. rewrite u32_add_l.
  f_equal. f_equal. lia.
Qed.

(** ** Single items *)

Lemma Insert_one rb data :
  rbf_wf rb -> bytes_ok data -> rbf_itemSz rb <= zlen data ->
  RingBuffer_Insert rb data = RingBuffer_InsertMult rb data 1.
Proof.
  intros Hwf Hok Hlen. pose proof (rbf_count_range rb Hwf) as Hc.
  pose proof (rbf_items_range rb Hwf) as Hi. pose proof (RB_INDH_mod rb Hwf) as Hh.
  pose proof Hwf as (Hk & Hsz & Hmax & Hd & _).
  rewrite InsertMult_spec by (done || lia || nia).
  unfold RingBuffer_Insert, RingBuffer_IsFull. rewrite GetCount_items, Z.geb_leb by done.
  destruct (Z.eqb_spec (rbf_items rb) (rbf_count rb)) as [E|E].
  { ztrue (rbf_count rb <=? rbf_items rb). do 2 f_equal. lia. }
  zfalse (rbf_count rb <=? rbf_items rb). rewrite Z.min_l, Z.mul_1_l by lia.
  assert (0 <= RB_INDH rb < rbf_count rb) as Hir by (rewrite Hh; apply Z.mod_pos_bound; lia).
  assert (RB_INDH rb * rbf_itemSz rb + rbf_itemSz rb <= zlen (rbf_data rb)) by (rewrite Hd; nia).
  assert (0 <= RB_INDH rb * rbf_itemSz rb) by nia.
  rewrite u32_id, memcpy_Some, bind_Some by lia. unfold stored, wrap_write.
  rewrite (drop_ge (take _ data)) by (rewrite length_take; lia).
  rewrite (take_ge (take _ data)) by (rewrite length_take; lia). done.
Qed.

Lemma Pop_one rb dst :
  rbf_wf rb -> rbf_itemSz rb <= zlen dst ->
  RingBuffer_Pop rb dst = RingBuffer_PopMult rb dst 1.
Proof.
  intros Hwf Hlen. pose proof (rbf_count_range rb Hwf) as Hc.
  pose proof (rbf_items_range rb Hwf) as Hi. pose proof (RB_INDT_mod rb Hwf) as Hh.
  pose proof Hwf as (Hk & Hsz & Hmax & Hd & _).
  rewrite PopMult_spec by (done || lia || nia).
  unfold RingBuffer_Pop. rewrite IsEmpty_items by done.
  destruct (Z.eqb_spec (rbf_items rb) 0) as [E|E].
  { rewrite E. by rewrite !drop_0. }
  rewrite Z.min_l, Z.mul_1_l by lia.
  assert (0 <= RB_INDT rb < rbf_count rb) as Hir by (rewrite Hh; apply Z.mod_pos_bound; lia).
  assert (RB_INDT rb * rbf_itemSz rb + rbf_itemSz rb <= zlen (rbf_data rb)) by (rewrite Hd; nia).
  assert (0 <= RB_INDT rb * rbf_itemSz rb) by nia.
  rewrite u32_id, memcpy_Some, bind_Some by lia. unfold rbf_contents. rewrite <- Hh.
  rewrite window_take, window_straight by nia. do 3 f_equal.
  rewrite <- (take_drop (Z.to_nat (rbf_itemSz rb)) dst) at 1.
  apply list_inserts_0_r. rewrite !length_take, length_drop. lia.
Qed.

(** ** Contracts *)

Lemma InsertMult_contract rb data num :
  rbf_wf rb -> bytes_ok data -> 0 <= num ->
  let n := Z.min num (rbf_count rb - rbf_items rb) in
  n * rbf_itemSz rb <= zlen data ->
  exists rb', RingBuffer_InsertMult rb data num = Some (n, rb') /\ rbf_wf rb'
    /\ rbf_contents rb' = rbf_contents rb ++ take (Z.to_nat (n * rbf_itemSz rb)) data
    /\ rbf_itemSz rb' = rbf_itemSz rb /\ rbf_count rb' = rbf_count rb.
Proof.
  intros Hwf Hok Hnum n Hlen. pose proof (rbf_items_range rb Hwf) as Hi.
  pose proof Hwf as (_ & Hsz & _). rewrite InsertMult_spec by done. fold n.
  eexists. split; [done|]. destruct (Z.eqb_spec (rbf_items rb) (rbf_count rb)) as [E|E].
  - replace n with 0 by lia. by rewrite app_nil_r.
  - destruct (stored_spec rb (take (Z.to_nat (n * rbf_itemSz rb)) data) n) as [Hwf' Hc];
      [done | by apply Forall_take | lia | rewrite length_take; nia | done].
Qed.

Lemma PopMult_contract rb dst num :
  rbf_wf rb -> 0 <= num ->
  let n := Z.min num (rbf_items rb) in
  n * rbf_itemSz rb <= zlen dst ->
  exists rb', RingBuffer_PopMult rb dst num
      = Some (n, take (Z.to_nat (n * rbf_itemSz rb)) (rbf_contents rb)
                 ++ drop (Z.to_nat (n * rbf_itemSz rb)) dst, rb')
    /\ rbf_wf rb'
    /\ rbf_contents rb' = drop (Z.to_nat (n * rbf_itemSz rb)) (rbf_contents rb)
    /\ rbf_itemSz rb' = rbf_itemSz rb /\ rbf_count rb' = rbf_count rb.
Proof.
  intros Hwf Hnum n Hlen. pose proof (rbf_items_range rb Hwf) as Hi.
  rewrite PopMult_spec by done. fold n. eexists. split; [done|].
  destruct (Z.eqb_spec (rbf_items rb) 0) as [E|E].
  - replace n with 0 by lia. done.
  - destruct (consumed_spec rb n) as [Hwf' Hc]; [done | lia | done].
Qed.

(** ** One-byte items: a bounded queue *)

Definition rbf_take (rb : RINGBUFF_T) (n : Z) : option (list Z * RINGBUFF_T) :=
  '(k, dst, rb) ← RingBuffer_PopMult rb (zeros n) n; Some (take (Z.to_nat k) dst, rb).

#[export] Program Instance RINGBUFF_queue : BoundedQueue RINGBUFF_T := {
  q_wf rb := rbf_wf rb /\ rbf_itemSz rb = 1;
  q_contents := rbf_contents;
  q_capacity := rbf_count;
  q_put rb data := RingBuffer_InsertMult rb data (zlen data);
  q_get := rbf_take
}.
Next Obligation.
  intros rb [Hwf Hsz]. rewrite rbf_contents_length, Hsz by done.
  pose proof (rbf_items_range rb Hwf). lia.
Qed.
Next Obligation.
  intros rb data [Hwf Hsz] Hd Hl. pose proof (rbf_items_range rb Hwf).
  rewrite rbf_contents_length, Hsz, Z.mul_1_r by done.
  destruct (InsertMult_contract rb data (zlen data) Hwf Hd) as (rb' & Hput & Hwf' & Hc & Hsz' & Hcap);
    [lia | rewrite Hsz; lia |].
  exists rb'. split; [done|]. split; [split; congruence|]. split; [done|].
  rewrite Hc, Hsz, Z.mul_1_r. f_equal.
  destruct (Z.le_ge_cases (zlen data) (rbf_count rb - rbf_items rb)).
  - rewrite Z.min_l by done. by rewrite !take_ge by lia.
  - by rewrite Z.min_r by done.
Qed.
Next Obligation.
  intros rb n [Hwf Hsz] Hn. unfold rbf_take. pose proof (rbf_items_range rb Hwf).
  pose proof (rbf_contents_length rb Hwf) as Hlen. rewrite Hsz, Z.mul_1_r in Hlen.
  destruct (PopMult_contract rb (zeros n) n Hwf) as (rb' & -> & Hwf' & Hc & Hsz' & Hcap);
    [lia | rewrite zeros_len by lia; rewrite Hsz; lia |].
  rewrite Hsz, Z.mul_1_r in *. rewrite bind_Some. exists rb'.
  split; [|split; [split; congruence|]]; [|split; [done|]].
  - do 2 f_equal. rewrite take_app_le, firstn_firstn by (rewrite length_take; lia).
    destruct (Z.le_ge_cases n (rbf_items rb)); [f_equal; lia|]. by rewrite !take_ge by lia.
  - rewrite Hc. destruct (Z.le_ge_cases n (rbf_items rb)); [f_equal; lia|].
    by rewrite !drop_ge by lia.
Qed.

Lemma Init_wf buffer sz k :
  1 <= k <= 30 -> 0 < sz -> 2 ^ k * sz < 2147483648 -> bytes_ok buffer ->
  zlen buffer = 2 ^ k * sz ->
  let rb := (RingBuffer_Init buffer sz (2 ^ k)).2 in
  rbf_wf rb /\ rbf_contents rb = [] /\ rbf_itemSz rb = sz /\ rbf_count rb = 2 ^ k.
Proof.
  intros Hk Hsz Hmax Hok Hl rb. pose proof (count_range k Hk).
  split; [|split; [by apply window_nil | done]].
  split; [by exists k|]. repeat (split; [done || (cbn; lia)|]). change (0 <= 2 ^ k). lia.
Qed.

Lemma Flush_spec rb : rbf_wf rb ->
  rbf_wf (RingBuffer_Flush rb) /\ rbf_contents (RingBuffer_Flush rb) = [].
Proof.
  intros Hwf. pose proof (rbf_count_range rb Hwf). destruct Hwf as (Hk & Hsz & Hm & Hd & Hok & _).
  split; [|by apply window_nil]. split; [done|]. repeat (split; [done || (cbn; lia)|]).
  change (0 <= rbf_count rb). lia.
Qed.

(** ** Properties *)

(** For any item size and wherever the 32-bit counters stand (their overflow
    included), [RingBuffer_InsertMult] stores the longest prefix of the items
    that fits behind those held and [RingBuffer_PopMult] removes the oldest
    ones, touching no other byte of the caller's buffer; both report the item
    count, keep the invariant and stay inside the arrays. *)
Theorem RingBuffer_mult_contract rb data dst num :
  rbf_wf rb -> bytes_ok data -> 0 <= num ->
  let free := rbf_count rb - rbf_items rb in
  let nin := Z.min num free in
  let nout := Z.min num (rbf_items rb) in
  nin * rbf_itemSz rb <= zlen data -> nout * rbf_itemSz rb <= zlen dst ->
  (exists rb', RingBuffer_InsertMult rb data num = Some (nin, rb') /\ rbf_wf rb'
    /\ rbf_contents rb' = rbf_contents rb ++ take (Z.to_nat (nin * rbf_itemSz rb)) data)
  /\ (exists rb', RingBuffer_PopMult rb dst num
        = Some (nout, take (Z.to_nat (nout * rbf_itemSz rb)) (rbf_contents rb)
                      ++ drop (Z.to_nat (nout * rbf_itemSz rb)) dst, rb')
      /\ rbf_wf rb'
      /\ rbf_contents rb' = drop (Z.to_nat (nout * rbf_itemSz rb)) (rbf_contents rb)).
Proof.
  intros Hwf Hok Hnum free nin nout Hin Hout. split.
  - destruct (InsertMult_contract rb data num Hwf Hok Hnum Hin) as (rb' & H & Hwf' & Hc & _).
    by exists rb'.
  - destruct (PopMult_contract rb dst num Hwf Hnum Hout) as (rb' & H & Hwf' & Hc & _).
    by exists rb'.
Qed.

(** Four two-byte slots with the head about to overflow; three items held. *)
Definition sample_ring : RINGBUFF_T :=
  mkRingBuff [1; 2; 3; 4; 5; 6; 7; 8] 4 2 4294967295 4294967292.

Lemma sample_ring_wf : rbf_wf sample_ring.
Proof.
  split; [by exists 2|]. split; [cbn; lia|]. split; [cbn; lia|]. split; [reflexivity|].
  split; [apply bytes_ok_decide; vm_compute; reflexivity|]. split; [cbn; lia|].
  split; [cbn; lia|]. vm_compute. discriminate.
Qed.

Lemma RingBuffer_mult_contract_witness :
  (exists rb', RingBuffer_InsertMult sample_ring [9; 9; 9; 9] 2 = Some (1, rb') /\ rbf_wf rb'
    /\ rbf_contents rb' = [1; 2; 3; 4; 5; 6; 9; 9])
  /\ (exists rb', RingBuffer_PopMult sample_ring [0; 0; 0; 0] 2 = Some (2, [1; 2; 3; 4], rb')
      /\ rbf_wf rb' /\ rbf_contents rb' = [5; 6]).
Proof.
  apply (RingBuffer_mult_contract sample_ring [9; 9; 9; 9] [0; 0; 0; 0] 2 sample_ring_wf);
    [apply bytes_ok_decide; vm_compute; reflexivity | lia | vm_compute; discriminate..].
Defined.

(** [RingBuffer_Insert] and [RingBuffer_Pop] are the multiple-item operations
    at one item. *)
Theorem RingBuffer_single_is_mult rb data dst :
  rbf_wf rb -> bytes_ok data -> rbf_itemSz rb <= zlen data -> rbf_itemSz rb <= zlen dst ->
  RingBuffer_Insert rb data = RingBuffer_InsertMult rb data 1
  /\ RingBuffer_Pop rb dst = RingBuffer_PopMult rb dst 1.
Proof. intros. split; [by apply Insert_one | by apply Pop_one]. Qed.

Lemma RingBuffer_single_is_mult_witness :
  RingBuffer_Insert sample_ring [9; 9] = RingBuffer_InsertMult sample_ring [9; 9] 1.
Proof.
  apply (RingBuffer_single_is_mult sample_ring [9; 9] [0; 0] sample_ring_wf);
    [apply bytes_ok_decide; vm_compute; reflexivity | cbn; lia..].
Defined.

(** From [RingBuffer_Init] with one-byte items, any sequence of
    multiple-item insertions and removals delivers the accepted bytes in order. *)
Theorem RingBuffer_fifo buffer k ops :
  1 <= k <= 30 -> bytes_ok buffer -> zlen buffer = 2 ^ k -> Forall op_ok ops ->
  exists ins outs rb', q_run (RingBuffer_Init buffer 1 (2 ^ k)).2 ops = Some (ins, outs, rb')
    /\ ins = outs ++ rbf_contents rb' /\ zlen (rbf_contents rb') <= 2 ^ k.
Proof.
  intros Hk Hok Hl Hops. pose proof (count_range k Hk).
  destruct (Init_wf buffer 1 k) as (Hwf & Hc & Hsz & Hcap); [done | lia | lia | done | lia |].
  set (rb := (RingBuffer_Init buffer 1 (2 ^ k)).2) in *. pose proof (q_run_fifo rb ops) as Hfifo.
  destruct (Hfifo (conj Hwf Hsz) Hops) as (ins & outs & rb' & Hrun & [Hwf' Hsz'] & Hio & Hcap').
  exists ins, outs, rb'. split; [done|]. cbn [q_contents q_capacity RINGBUFF_queue] in *.
  rewrite Hc in Hio. split; [done|]. rewrite rbf_contents_length, Hsz' by done.
  pose proof (rbf_items_range rb' Hwf'). lia.
Qed.

Lemma RingBuffer_fifo_witness :
  exists ins outs rb', q_run (RingBuffer_Init (zeros 4) 1 4).2
      [QPut [1; 2; 3]; QGet 2; QPut [4; 5; 6; 7]; QGet 9] = Some (ins, outs, rb')
    /\ ins = outs ++ rbf_contents rb' /\ zlen (rbf_contents rb') <= 4.
Proof.
  apply (RingBuffer_fifo (zeros 4) 2); [lia | apply zeros_ok | reflexivity |].
  repeat (apply Forall_cons_2 || apply Forall_nil_2); cbn [op_ok length];
    try lia; (split; [apply bytes_ok_decide; vm_compute; reflexivity | lia]).
Defined.
