(* ===== verification/Fifo.v ===== *)
(** * fun_buffer/fifo.c and fun_buffer/ringbuffer_simple.c

    Two byte rings that keep one cell free to tell full from empty: the block
    FIFO of fifo.c and the character FIFO of ringbuffer_simple.c. *)

From S2P Require Import Prelude CMem Ring.

(** Unsigned [a % b]; a zero divisor is undefined. *)
Definition umod (a b : Z) : option Z := if b =? 0 then None else Some (a `mod` b).

Lemma umod_Some a b : 0 < b -> umod a b = Some (a `mod` b).
Proof. intros. unfold umod. by zfalse (b =? 0). Qed.

(** ** fifo.c *)

Record fifo_t := mkFifo {
  ff_buffer : list Z;
  ff_size : Z;
  ff_head : Z;
  ff_tail : Z
}.

(** [None] for a null pointer. *)
Definition ring_buffer_init_ (ring_buffer : option fifo_t) (buffer : list Z) (size : Z)
    : Z * option fifo_t :=
  match ring_buffer with
  | Some _ => (0, Some (mkFifo buffer size 0 0))
  | None => (-1, None)
  end.

Definition ring_buffer_deinit (ring_buffer : fifo_t) : Z := 0.

Definition ring_buffer_free_space (f : fifo_t) : option Z :=
  let tail_to_end := u32 (ff_size f - 1 - ff_tail f) in
  umod (u32 (tail_to_end + ff_head f)) (ff_size f).

Definition ring_buffer_used_space (f : fifo_t) : option Z :=
  let head_to_end := u32 (ff_size f - ff_head f) in
  umod (u32 (head_to_end + ff_tail f)) (ff_size f).

(** The offset of the data in the buffer and the number of contiguous bytes. *)
Definition ring_buffer_get_data (f : fifo_t) : option (Z * Z) :=
  let head_to_end := u32 (ff_size f - ff_head f) in
  used ← umod (u32 (head_to_end + ff_tail f)) (ff_size f);
  Some (ff_head f, Z.min head_to_end used).

Definition ring_buffer_consume (f : fifo_t) (bytes_consumed : Z) : option fifo_t :=
  head ← umod (u32 (ff_head f + bytes_consumed)) (ff_size f);
  Some (mkFifo (ff_buffer f) (ff_size f) head (ff_tail f)).

Definition ring_buffer_write (f : fifo_t) (data : list Z) (data_length : Z)
    : option (Z * fifo_t) :=
  let tail_to_end := u32 (ff_size f - 1 - ff_tail f) in
  free ← umod (u32 (tail_to_end + ff_head f)) (ff_size f);
  let amount_to_copy := Z.min data_length free in
  let tail_to_end := u32 (tail_to_end + 1) in
  m ← memcpy (ff_buffer f) (ff_tail f) data 0 (Z.min amount_to_copy tail_to_end);
  m ← (if tail_to_end <? amount_to_copy
       then memcpy m 0 data tail_to_end (amount_to_copy - tail_to_end) else Some m);
  tail ← umod (u32 (ff_tail f + amount_to_copy)) (ff_size f);
  Some (amount_to_copy, mkFifo m (ff_size f) (ff_head f) tail).

(** The number of bytes read, the caller's buffer and the FIFO. *)
Definition ring_buffer_read (f : fifo_t) (data : list Z) (data_length : Z)
    : option (Z * list Z * fifo_t) :=
  used ← ring_buffer_used_space f;
  let max_bytes_to_read := Z.min data_length used in
  return_if max_bytes_to_read =? 0 with Some (0, data, f) ;;
  '(data, _) ← for_range (Z.to_nat max_bytes_to_read) 0
    (fun i '(data, head) =>
       b ← rd8 (ff_buffer f) head;
       data ← wr8 data i b;
       head ← umod (u32 (head + 1)) (ff_size f);
       Some (data, head)) (data, ff_head f);
  f ← ring_buffer_consume f max_bytes_to_read;
  Some (max_bytes_to_read, data, f).

Definition ring_buffer_is_full (f : fifo_t) : option Z :=
  used ← ring_buffer_used_space f;
  Some (if used >=? u32 (ff_size f - 1) then 1 else 0).

Definition ring_buffer_total_size (f : fifo_t) : Z := u32 (ff_size f - 1).

(** *** Invariant and contents *)

Definition fifo_wf (f : fifo_t) : Prop :=
  0 < ff_size f <= 2147483648 /\ zlen (ff_buffer f) = ff_size f /\ bytes_ok (ff_buffer f)
  /\ 0 <= ff_head f < ff_size f /\ 0 <= ff_tail f < ff_size f.

Definition fifo_len (f : fifo_t) : Z := (ff_tail f - ff_head f) `mod` ff_size f.

Definition fifo_contents (f : fifo_t) : list Z :=
  window (ff_buffer f) (ff_head f) (fifo_len f).

Lemma fifo_len_range f : fifo_wf f -> 0 <= fifo_len f < ff_size f.
Proof. intros (Hs & _). apply Z.mod_pos_bound. lia. Qed.

Lemma fifo_contents_length f : fifo_wf f -> zlen (fifo_contents f) = fifo_len f.
Proof. intros H%fifo_len_range. unfold fifo_contents. len. Qed.

Lemma used_spec f : fifo_wf f -> ring_buffer_used_space f = Some (fifo_len f).
Proof.
  intros (Hs & _ & _ & Hh & Ht). unfold ring_buffer_used_space, fifo_len.
  rewrite umod_Some, !u32_id by (rewrite ?u32_id; lia). f_equal.
  rewrite <- (Z_mod_plus_full (ff_tail f - ff_head f) 1). f_equal. lia.
Qed.

Lemma free_spec f : fifo_wf f ->
  ring_buffer_free_space f = Some (ff_size f - 1 - fifo_len f).
Proof.
  intros Hwf. pose proof (fifo_len_range f Hwf) as Hl. destruct Hwf as (Hs & _ & _ & Hh & Ht).
  unfold ring_buffer_free_space, fifo_len in *.
  rewrite umod_Some, !u32_id by (rewrite ?u32_id; lia). f_equal.
  symmetry. apply Z.mod_unique_pos with (q := - ((ff_tail f - ff_head f) `div` ff_size f)); [lia|].
  pose proof (Z.div_mod (ff_tail f - ff_head f) (ff_size f)). lia.
Qed.

Lemma tail_position f : fifo_wf f ->
  ff_tail f = (ff_head f + fifo_len f) `mod` zlen (ff_buffer f).
Proof.
  intros (Hs & -> & _ & Hh & Ht). unfold fifo_len. rewrite Zplus_mod_idemp_r.
  replace (ff_head f + (ff_tail f - ff_head f)) with (ff_tail f) by lia. by rewrite Z.mod_small.
Qed.

Lemma consume_spec f n :
  fifo_wf f -> 0 <= n <= fifo_len f ->
  exists f', ring_buffer_consume f n = Some f' /\ fifo_wf f'
    /\ fifo_contents f' = drop (Z.to_nat n) (fifo_contents f) /\ ff_size f' = ff_size f.
Proof.
  intros Hwf Hn. pose proof (fifo_len_range f Hwf) as Hl. pose proof Hwf as (Hs & Hb & Hok & Hh & Ht).
  unfold ring_buffer_consume. rewrite umod_Some, u32_id, bind_Some by lia. eexists. split; [done|].
  set (f' := mkFifo _ _ _ _).
  assert (fifo_len f' = fifo_len f - n) as Hl'.
  { unfold fifo_len, f'. cbn [ff_tail ff_head ff_size]. rewrite Zminus_mod_idemp_r.
    replace (ff_tail f - (ff_head f + n)) with (ff_tail f - ff_head f - n) by lia.
    rewrite <- Zminus_mod_idemp_l. fold (fifo_len f). apply Z.mod_small. lia. }
  split; [|split; [|done]].
  - split; [done|]. split; [done|]. split; [done|]. split; [cbn; apply Z.mod_pos_bound; lia | done].
  - unfold fifo_contents. rewrite Hl', window_drop by lia. cbn [f' ff_buffer ff_head].
    rewrite <- Hb. apply window_mod.
Qed.

Lemma write_spec f data n :
  fifo_wf f -> bytes_ok data -> 0 <= n <= zlen data -> is_u32 n ->
  let k := Z.min n (ff_size f - 1 - fifo_len f) in
  exists f', ring_buffer_write f data n = Some (k, f') /\ fifo_wf f'
    /\ fifo_contents f' = fifo_contents f ++ take (Z.to_nat k) data /\ ff_size f' = ff_size f.
Proof.
  intros Hwf Hd Hn H32 k. pose proof (fifo_len_range f Hwf) as Hl.
  pose proof (free_spec f Hwf) as Hfree. pose proof Hwf as (Hs & Hb & Hok & Hh & Ht).
  pose proof (tail_position f Hwf) as Hpos.
  unfold ring_buffer_free_space in Hfree. unfold ring_buffer_write. rewrite Hfree, bind_Some.
  fold k. rewrite (u32_id (ff_size f - 1 - ff_tail f)), (u32_id (_ + 1)) by lia.
  replace (ff_size f - 1 - ff_tail f + 1) with (ff_size f - ff_tail f) by lia.
  destruct (memcpy_wrap (ff_buffer f) (ff_tail f) 0 data k) as (m1 & E1 & E2); [lia..| |].
  { by right. }
  rewrite Hb in E1, E2. rewrite (Z.min_comm k), E1, bind_Some.
  set (m' := wrap_write _ _ _) in *.
  replace (if _ <? k then _ else Some m1) with (Some m').
  2: { rewrite <- E2. zcase; [f_equal; lia|]. rewrite Z.min_r by lia. rewrite Z.sub_diag.
       apply memcpy_zero; [lia|lia]. }
  rewrite bind_Some, umod_Some, u32_id, bind_Some by lia. eexists. split; [done|].
  set (f' := mkFifo _ _ _ _).
  assert (fifo_len f' = fifo_len f + k) as Hl'.
  { unfold fifo_len, f'. cbn [ff_tail ff_head ff_size]. rewrite Zminus_mod_idemp_l.
    replace (ff_tail f + k - ff_head f) with (ff_tail f - ff_head f + k) by lia.
    rewrite <- Zplus_mod_idemp_l. fold (fifo_len f). apply Z.mod_small. lia. }
  split; [|split; [|by cbn]].
  - split; [cbn; lia|]. split; [cbn; unfold m'; len|].
    split; [by apply wrap_write_ok; [|apply Forall_take]|]. split; [cbn; lia|].
    cbn. apply Z.mod_pos_bound. lia.
  - unfold fifo_contents. rewrite Hl'. cbn [f' ff_buffer ff_head].
    assert (zlen (take (Z.to_nat k) data) = k) as Hk by len. rewrite <- Hk at 1.
    unfold m'. rewrite Hpos at 1. apply window_wrap_write; lia.
Qed.

(** The byte-by-byte copy of [ring_buffer_read] is a window copy. *)
Lemma read_loop f dst n :
  fifo_wf f -> 0 <= n <= zlen dst ->
  exists h, for_range (Z.to_nat n) 0
    (fun i '(data, head) =>
       b ← rd8 (ff_buffer f) head;
       data ← wr8 data i b;
       head ← umod (u32 (head + 1)) (ff_size f);
       Some (data, head)) (dst, ff_head f)
  = Some (window (ff_buffer f) (ff_head f) n ++ drop (Z.to_nat n) dst, h).
Proof.
  intros (Hs & Hb & Hok & Hh & Ht) Hn.
  match goal with |- context [for_range _ _ ?b _] => set (body := b) end.
  destruct (for_range_inv
    (fun i st => st = (window (ff_buffer f) (ff_head f) i ++ drop (Z.to_nat i) dst,
                       (ff_head f + i) `mod` ff_size f)) body (Z.to_nat n) 0 (dst, ff_head f))
    as ([d h] & Hf & Hi).
  3: { exists h. rewrite Z.add_0_l, Z2Nat.id in Hi by lia. rewrite Hf. congruence. }
  2: { by rewrite drop_0, Z.add_0_r, Z.mod_small. }
  intros i st Hi ->. unfold body. assert (0 <= (ff_head f + i) `mod` ff_size f < ff_size f) by (apply Z.mod_pos_bound; lia).
  eexists. split; [|done]. destruct (rd8_lt (ff_buffer f) ((ff_head f + i) `mod` ff_size f)) as [b Hr]; [lia|].
  assert (is_u8 b) by (by eapply rd8_byte). rewrite Hr, bind_Some.
  destruct (znth_lt dst i) as [y [_ Hy]%znth_Some]; [lia|].
  rewrite (drop_S dst y) by done. rewrite wr8_snoc, u8_id, bind_Some by (len || done).
  rewrite u32_id, umod_Some, bind_Some by lia. rewrite Zplus_mod_idemp_l. do 2 f_equal.
  - replace (i + 1) with (i + zlen [b]) by (cbn; lia).
    erewrite (window_app (ff_buffer f) (ff_buffer f) (ff_head f) i [b]); [|lia|done|].
    + rewrite <- app_assoc. cbn [app]. do 3 f_equal. cbn [length]. lia.
    + intros j Hj. replace j with 0 by (cbn [length] in Hj; lia). rewrite Z.add_0_r. unfold cell.
      unfold rd8 in Hr. by rewrite Hb, Hr.
  - f_equal. lia.
Qed.

Lemma read_spec f dst n :
  fifo_wf f -> is_u32 n -> Z.min n (fifo_len f) <= zlen dst ->
  let k := Z.min n (fifo_len f) in
  exists f', ring_buffer_read f dst n
      = Some (k, take (Z.to_nat k) (fifo_contents f) ++ drop (Z.to_nat k) dst, f')
    /\ fifo_wf f' /\ fifo_contents f' = drop (Z.to_nat k) (fifo_contents f)
    /\ ff_size f' = ff_size f.
Proof.
  intros Hwf Hn Hd k. pose proof (fifo_len_range f Hwf) as Hl.
  unfold ring_buffer_read. rewrite used_spec, bind_Some by done. fold k.
  destruct (Z.eqb_spec k 0) as [->|E]; [by exists f|].
  destruct (read_loop f dst k Hwf) as [h ->]; [lia|]. rewrite bind_Some.
  destruct (consume_spec f k Hwf) as (f' & -> & Hwf' & Hc & Hs); [lia|]. rewrite bind_Some.
  exists f'. split; [|done]. unfold fifo_contents. by rewrite window_take by lia.
Qed.

Lemma fifo_init_wf buffer size old :
  0 < size <= 2147483648 -> zlen buffer = size -> bytes_ok buffer ->
  exists f, ring_buffer_init_ (Some old) buffer size = (0, Some f) /\ fifo_wf f
    /\ fifo_contents f = [] /\ ff_size f = size.
Proof.
  intros Hs Hb Hok. eexists. split; [done|]. split; [|split; [|done]].
  - split; [done|]. split; [done|]. split; [done|]. cbn. lia.
  - apply window_nil. unfold fifo_len. cbn. by rewrite Z.mod_0_l by lia.
Qed.

(** *** The FIFO as a bounded queue *)

Definition fifo_take (f : fifo_t) (n : Z) : option (list Z * fifo_t) :=
  '(k, dst, f) ← ring_buffer_read f (zeros n) n; Some (take (Z.to_nat k) dst, f).

#[export] Program Instance fifo_queue : BoundedQueue fifo_t := {
  q_wf := fifo_wf;
  q_contents := fifo_contents;
  q_capacity f := ff_size f - 1;
  q_put f data := ring_buffer_write f data (zlen data);
  q_get := fifo_take
}.
Next Obligation.
  intros f Hwf. rewrite fifo_contents_length by done. pose proof (fifo_len_range f Hwf). lia.
Qed.
Next Obligation.
  intros f data Hwf Hd Hl. rewrite fifo_contents_length by done.
  destruct (write_spec f data (zlen data) Hwf Hd) as (f' & Hput & Hwf' & Hc & Hs); [lia..|].
  exists f'. split; [done|]. split; [done|]. split; [lia|]. rewrite Hc. f_equal.
  destruct (Z.le_ge_cases (zlen data) (ff_size f - 1 - fifo_len f)).
  - rewrite Z.min_l by done. by rewrite !take_ge by lia.
  - by rewrite Z.min_r by done.
Qed.
Next Obligation.
  intros f n Hwf Hn. unfold fifo_take. pose proof (fifo_len_range f Hwf).
  pose proof (fifo_contents_length f Hwf).
  destruct (read_spec f (zeros n) n Hwf) as (f' & -> & Hwf' & Hc & Hs); [lia | |].
  { rewrite zeros_len by lia. lia. }
  rewrite bind_Some. exists f'. split; [|split; [done|]]; [|split; [lia|]].
  - do 2 f_equal. rewrite take_app_le, firstn_firstn by (rewrite length_take; lia).
    destruct (Z.le_ge_cases n (fifo_len f)); [f_equal; lia|]. by rewrite !take_ge by lia.
  - rewrite Hc. destruct (Z.le_ge_cases n (fifo_len f)); [f_equal; lia|].
    by rewrite !drop_ge by lia.
Qed.

(** *** Zero-copy draining *)

(** One round of the client protocol: take the contiguous region, release it. *)
Definition drain_step (f : fifo_t) : option (list Z * fifo_t) :=
  '(off, n) ← ring_buffer_get_data f;
  region ← rd_bytes (ff_buffer f) off n;
  f ← ring_buffer_consume f n;
  Some (region, f).

Lemma drain_step_spec f :
  fifo_wf f ->
  let n := Z.min (ff_size f - ff_head f) (fifo_len f) in
  exists f', drain_step f = Some (take (Z.to_nat n) (fifo_contents f), f') /\ fifo_wf f'
    /\ fifo_contents f' = drop (Z.to_nat n) (fifo_contents f)
    /\ ff_size f' = ff_size f /\ ff_head f' = (ff_head f + n) `mod` ff_size f.
Proof.
  intros Hwf n. pose proof (fifo_len_range f Hwf) as Hl. pose proof (used_spec f Hwf) as Hu.
  pose proof Hwf as (Hs & Hb & Hok & Hh & Ht). unfold ring_buffer_used_space in Hu.
  unfold drain_step, ring_buffer_get_data. rewrite Hu, !bind_Some.
  rewrite (u32_id (ff_size f - ff_head f)) by lia. fold n. unfold rd_bytes.
  ztrue ((0 <=? ff_head f) && (0 <=? n) && (ff_head f + n <=? zlen (ff_buffer f))).
  rewrite bind_Some. destruct (consume_spec f n Hwf) as (f' & Hf' & Hwf' & Hc & Hs'); [lia|].
  rewrite Hf', bind_Some. exists f'. split; [|split; [done|]; split; [done|]; split; [done|]].
  - unfold fifo_contents. by rewrite window_take, window_straight by lia.
  - unfold ring_buffer_consume in Hf'. rewrite umod_Some, u32_id, bind_Some in Hf' by lia.
    injection Hf' as <-. done.
Qed.

(** ** ringbuffer_simple.c *)

Record Fifo_t := mkFifoS { fs_Begin : Z; fs_End : Z; fs_Data : list Z; fs_Size : Z }.

Definition FifoNext (fifo : Fifo_t) (index : Z) : option Z :=
  n ← umod (index + 1) (fs_Size fifo); Some (u16 n).

Definition FifoInit (buffer : list Z) (size : Z) : Fifo_t := mkFifoS 0 0 buffer size.

Definition FifoPush (fifo : Fifo_t) (data : Z) : option Fifo_t :=
  e ← FifoNext fifo (fs_End fifo);
  d ← wr8 (fs_Data fifo) e data;
  Some (mkFifoS (fs_Begin fifo) e d (fs_Size fifo)).

Definition FifoPop (fifo : Fifo_t) : option (Z * Fifo_t) :=
  b ← FifoNext fifo (fs_Begin fifo);
  data ← rd8 (fs_Data fifo) b;
  Some (data, mkFifoS b (fs_End fifo) (fs_Data fifo) (fs_Size fifo)).

Definition FifoFlush (fifo : Fifo_t) : Fifo_t := mkFifoS 0 0 (fs_Data fifo) (fs_Size fifo).

Definition IsFifoEmpty (fifo : Fifo_t) : bool := fs_Begin fifo =? fs_End fifo.

Definition IsFifoFull (fifo : Fifo_t) : option bool :=
  n ← FifoNext fifo (fs_End fifo); Some (n =? fs_Begin fifo).

Definition fs_wf (f : Fifo_t) : Prop :=
  0 < fs_Size f < 65536 /\ zlen (fs_Data f) = fs_Size f /\ bytes_ok (fs_Data f)
  /\ 0 <= fs_Begin f < fs_Size f /\ 0 <= fs_End f < fs_Size f.

Definition fs_len (f : Fifo_t) : Z := (fs_End f - fs_Begin f) `mod` fs_Size f.

(** The indices name the last cell written and the last cell read. *)
Definition fs_contents (f : Fifo_t) : list Z :=
  window (fs_Data f) (fs_Begin f + 1) (fs_len f).

Lemma FifoNext_spec f i : fs_wf f -> 0 <= i < fs_Size f ->
  FifoNext f i = Some ((i + 1) `mod` fs_Size f).
Proof.
  intros (Hs & _) Hi. unfold FifoNext. rewrite umod_Some, bind_Some by lia.
  rewrite u16_id; [done|]. pose proof (Z.mod_pos_bound (i + 1) (fs_Size f)). lia.
Qed.

Lemma fs_len_range f : fs_wf f -> 0 <= fs_len f < fs_Size f.
Proof. intros (Hs & _). apply Z.mod_pos_bound. lia. Qed.

Lemma IsFifoEmpty_spec f : fs_wf f -> IsFifoEmpty f = (fs_len f =? 0).
Proof.
  intros (Hs & _ & _ & Hb & He). unfold IsFifoEmpty, fs_len.
  destruct (Z.le_gt_cases (fs_Begin f) (fs_End f)).
  - rewrite Z.mod_small by lia. repeat zcase; lia.
  - rewrite <- (Z_mod_plus_full _ 1), Z.mod_small by lia. repeat zcase; lia.
Qed.

Lemma IsFifoFull_spec f : fs_wf f -> IsFifoFull f = Some (fs_len f =? fs_Size f - 1).
Proof.
  intros Hwf. pose proof Hwf as (Hs & _ & _ & Hb & He). unfold IsFifoFull, fs_len.
  rewrite FifoNext_spec, bind_Some by done. f_equal.
  destruct (Z.eq_dec (fs_End f + 1) (fs_Size f)) as [E|E].
  - rewrite E, Z_mod_same_full, Z.mod_small by lia. repeat zcase; lia.
  - rewrite (Z.mod_small (_ + 1)) by lia. destruct (Z.le_gt_cases (fs_Begin f) (fs_End f)).
    + rewrite Z.mod_small by lia. repeat zcase; lia.
    + rewrite <- (Z_mod_plus_full (_ - _) 1), Z.mod_small by lia. repeat zcase; lia.
Qed.

Lemma wrap_write_1 m w x : 0 <= w < zlen m -> wrap_write m w [x] = <[Z.to_nat w := x]> m.
Proof.
  intros. unfold wrap_write. rewrite take_ge, drop_ge by (cbn [length]; lia). done.
Qed.

Lemma FifoPush_spec f x : fs_wf f -> is_u8 x ->
  exists f', FifoPush f x = Some f' /\ fs_wf f' /\ fs_Size f' = fs_Size f
    /\ fs_contents f' = if fs_len f =? fs_Size f - 1 then [] else fs_contents f ++ [x].
Proof.
  intros Hwf Hx. pose proof (fs_len_range f Hwf) as Hl. pose proof Hwf as (Hs & Hd & Hok & Hb & He).
  unfold FifoPush. rewrite FifoNext_spec, bind_Some by done.
  set (e := (fs_End f + 1) `mod` fs_Size f).
  assert (0 <= e < fs_Size f) as Her by (apply Z.mod_pos_bound; lia).
  rewrite wr8_Some, u8_id, bind_Some by lia. rewrite <- wrap_write_1 by lia.
  eexists. split; [done|]. set (f' := mkFifoS _ _ _ _).
  assert (fs_len f' = (fs_len f + 1) `mod` fs_Size f) as Hl'.
  { unfold fs_len, f', e. cbn [fs_Begin fs_End fs_Size].
    rewrite Zminus_mod_idemp_l, Zplus_mod_idemp_l. f_equal. lia. }
  split; [|split; [done|]].
  - split; [done|]. split; [cbn; len|].
    split; [apply wrap_write_ok; [done | by apply Forall_cons_2; [|apply Forall_nil_2]] | done].
  - unfold fs_contents. rewrite Hl'. cbn [f' fs_Data fs_Begin]. destruct (Z.eqb_spec (fs_len f) (fs_Size f - 1)) as [E|E].
    { replace (fs_len f + 1) with (fs_Size f) by lia. rewrite Z_mod_same_full. by apply window_nil. }
    rewrite Z.mod_small by lia. rewrite <- (window_mod (wrap_write _ _ _)), <- (window_mod (fs_Data f)).
    replace (zlen (wrap_write (fs_Data f) e [x])) with (fs_Size f) by len. rewrite Hd.
    change 1 with (zlen [x]) at 2.
    replace e with (((fs_Begin f + 1) `mod` fs_Size f + fs_len f) `mod` zlen (fs_Data f)).
    + apply window_wrap_write; [rewrite Hd; apply Z.mod_pos_bound; lia | lia | cbn [length]; lia].
    + rewrite Hd, Zplus_mod_idemp_l. unfold fs_len, e. rewrite Zplus_mod_idemp_r. f_equal. lia.
Qed.

Lemma FifoPop_spec f : fs_wf f ->
  exists x f', FifoPop f = Some (x, f') /\ fs_wf f' /\ is_u8 x /\ fs_Size f' = fs_Size f
    /\ if fs_len f =? 0 then fs_len f' = fs_Size f - 1
       else fs_contents f = x :: fs_contents f'.
Proof.
  intros Hwf. pose proof (fs_len_range f Hwf) as Hl. pose proof Hwf as (Hs & Hd & Hok & Hb & He).
  unfold FifoPop. rewrite FifoNext_spec, bind_Some by done.
  set (b := (fs_Begin f + 1) `mod` fs_Size f).
  assert (0 <= b < fs_Size f) as Hbr by (apply Z.mod_pos_bound; lia).
  destruct (rd8_lt (fs_Data f) b) as [x Hx]; [lia|]. rewrite Hx, bind_Some.
  exists x. eexists. split; [done|]. set (f' := mkFifoS _ _ _ _).
  assert (fs_len f' = (fs_len f - 1) `mod` fs_Size f) as Hl'.
  { unfold fs_len, f', b. cbn [fs_Begin fs_End fs_Size].
    rewrite Zminus_mod_idemp_r, Zminus_mod_idemp_l. f_equal. lia. }
  split; [done|]. split; [by eapply rd8_byte|]. split; [done|]. rewrite Hl'.
  destruct (Z.eqb_spec (fs_len f) 0) as [E|E].
  { rewrite E. rewrite <- (Z_mod_plus_full _ 1), Z.mod_small by lia. lia. }
  unfold fs_contents. rewrite Hl', Z.mod_small by lia. cbn [f' fs_Data fs_Begin].
  rewrite <- (window_mod _ (fs_Begin f + 1)), Hd. fold b.
  rewrite <- (take_drop (Z.to_nat 1) (window _ b _)), window_take, window_drop by lia.
  rewrite (window_straight _ _ 1) by lia. apply znth_Some in Hx as [_ Hx].
  by rewrite (drop_S _ x).
Qed.

(** ** Properties *)

(** The block FIFO set up on a buffer of [size] bytes is a first-in
    first-out queue of capacity [size - 1] under every sequence of
    [ring_buffer_write] and [ring_buffer_read]. *)
Theorem ring_buffer_fifo buffer size old ops :
  0 < size <= 2147483648 -> zlen buffer = size -> bytes_ok buffer -> Forall op_ok ops ->
  exists f ins outs f', ring_buffer_init_ (Some old) buffer size = (0, Some f)
    /\ q_run f ops = Some (ins, outs, f')
    /\ ins = outs ++ fifo_contents f' /\ zlen (fifo_contents f') <= size - 1.
Proof.
  intros Hs Hb Hok Hops. destruct (fifo_init_wf buffer size old Hs Hb Hok) as (f & Hi & Hwf & Hc & Hsz).
  pose proof (q_run_fifo f ops) as Hfifo.
  destruct (Hfifo Hwf Hops) as (ins & outs & f' & Hrun & Hwf' & Hio & Hcap).
  exists f, ins, outs, f'. split; [done|]. split; [done|].
  cbn [q_contents q_capacity fifo_queue] in *. rewrite Hc in Hio. split; [done|].
  rewrite fifo_contents_length by done. pose proof (fifo_len_range f' Hwf'). lia.
Qed.

Lemma ring_buffer_fifo_witness :
  exists f ins outs f', ring_buffer_init_ (Some (mkFifo [] 0 0 0)) (zeros 4) 4 = (0, Some f)
    /\ q_run f [QPut [1; 2]; QGet 1; QPut [3; 4; 5]; QGet 7] = Some (ins, outs, f')
    /\ ins = outs ++ fifo_contents f' /\ zlen (fifo_contents f') <= 4 - 1.
Proof.
  apply (ring_buffer_fifo (zeros 4) 4); [lia | reflexivity | apply zeros_ok |].
  repeat (apply Forall_cons_2 || apply Forall_nil_2); cbn [op_ok length];
    try lia; (split; [apply bytes_ok_decide; vm_compute; reflexivity | lia]).
Defined.

(** Two rounds of [ring_buffer_get_data] and [ring_buffer_consume] deliver
    the whole contents in order and leave the FIFO empty. *)
Theorem ring_buffer_drain f :
  fifo_wf f ->
  exists r1 r2 f1 f2, drain_step f = Some (r1, f1) /\ drain_step f1 = Some (r2, f2)
    /\ fifo_contents f = r1 ++ r2 /\ fifo_contents f2 = [] /\ ring_buffer_used_space f2 = Some 0.
Proof.
  intros Hwf. destruct (drain_step_spec f Hwf) as (f1 & E1 & Hwf1 & Hc1 & Hs1 & Hh1).
  destruct (drain_step_spec f1 Hwf1) as (f2 & E2 & Hwf2 & Hc2 & Hs2 & Hh2).
  eexists _, _, f1, f2. split; [done|]. split; [done|].
  pose proof (fifo_len_range f Hwf) as Hl. pose proof (fifo_contents_length f Hwf) as Hcl.
  pose proof (fifo_contents_length f1 Hwf1) as Hcl1. pose proof (fifo_contents_length f2 Hwf2) as Hcl2.
  pose proof (fifo_len_range f1 Hwf1) as Hl1.
  destruct Hwf as (Hs & _ & _ & Hh & Ht).
  rewrite Hc1, length_drop in Hcl1. rewrite Hc2, length_drop in Hcl2.
  assert (fifo_len f1 <= ff_size f1 - ff_head f1) as Hfit.
  { rewrite Hh1, Hs1. destruct (Z.le_gt_cases (fifo_len f) (ff_size f - ff_head f)).
    - assert (fifo_len f1 = 0) as -> by lia. pose proof (Z.mod_pos_bound
        (ff_head f + Z.min (ff_size f - ff_head f) (fifo_len f)) (ff_size f)). lia.
    - rewrite Z.min_l by lia. replace (ff_head f + _) with (ff_size f) by lia.
      rewrite Z_mod_same_full. lia. }
  assert (zlen (fifo_contents f1) = fifo_len f1) as Hcl1' by by apply fifo_contents_length.
  rewrite (Z.min_r (ff_size f1 - ff_head f1)) in * by lia.
  rewrite (take_ge (fifo_contents f1)) by lia. split; [by rewrite Hc1, take_drop|].
  assert (fifo_len f2 = 0) as Hz.
  { lia. }
  split; [by apply window_nil; rewrite Hz | by rewrite used_spec, Hz].
Qed.

Lemma ring_buffer_drain_witness :
  let f := mkFifo [4; 5; 0; 1; 2; 3] 6 3 2 in
  fifo_wf f /\ exists r1 r2 f1 f2, drain_step f = Some (r1, f1) /\ drain_step f1 = Some (r2, f2)
    /\ [1; 2; 3; 4; 5] = r1 ++ r2 /\ fifo_contents f2 = [] /\ ring_buffer_used_space f2 = Some 0.
Proof.
  cbv zeta. assert (fifo_wf (mkFifo [4; 5; 0; 1; 2; 3] 6 3 2)) as Hwf.
  { split; [cbn; lia|]. split; [reflexivity|].
    split; [apply bytes_ok_decide; vm_compute; reflexivity | cbn; lia]. }
  split; [exact Hwf|]. exact (ring_buffer_drain _ Hwf).
Defined.

(** The character FIFO: a push appends unless the FIFO is full, when it
    leaves the FIFO empty; a pop removes the oldest byte unless the FIFO is
    empty, when it leaves a full FIFO of stale bytes; [IsFifoFull] and
    [IsFifoEmpty] tell exactly these states. *)
Theorem FifoPush_FifoPop f x :
  fs_wf f -> is_u8 x ->
  (exists f', FifoPush f x = Some f' /\ fs_wf f'
    /\ fs_contents f' = if fs_len f =? fs_Size f - 1 then [] else fs_contents f ++ [x])
  /\ (exists y f', FifoPop f = Some (y, f') /\ fs_wf f'
      /\ if fs_len f =? 0 then fs_len f' = fs_Size f - 1 else fs_contents f = y :: fs_contents f')
  /\ IsFifoFull f = Some (fs_len f =? fs_Size f - 1)
  /\ IsFifoEmpty f = (fs_len f =? 0).
Proof.
  intros Hwf Hx. split; [|split; [|split; [by apply IsFifoFull_spec | by apply IsFifoEmpty_spec]]].
  - destruct (FifoPush_spec f x Hwf Hx) as (f' & H & Hwf' & _ & Hc). by exists f'.
  - destruct (FifoPop_spec f Hwf) as (y & f' & H & Hwf' & _ & _ & Hc). by exists y, f'.
Qed.

(** Pushing into a full FIFO of three cells. *)
Lemma FifoPush_FifoPop_witness :
  let f := mkFifoS 1 0 [8; 0; 7] 3 in
  fs_wf f /\ fs_contents f = [7; 8]
  /\ exists f', FifoPush f 9 = Some f' /\ fs_wf f' /\ fs_contents f' = [].
Proof.
  cbv zeta. assert (fs_wf (mkFifoS 1 0 [8; 0; 7] 3)) as Hwf.
  { split; [cbn; lia|]. split; [reflexivity|].
    split; [apply bytes_ok_decide; vm_compute; reflexivity | cbn; lia]. }
  split; [exact Hwf|]. split; [reflexivity|]. apply (FifoPush_FifoPop _ 9 Hwf). lia.
Defined.
