(* ===== verification/MinHeap.v ===== *)
(** * fun_timer/minheap.c: binary min-heap of (key, data) nodes

    The nodes live in an array used from index 1; [lastIndex] is the first free
    index.  The sift loops run with fuel [lastIndex], which is more than the
    height of the tree; running out of it, leaving the array and overflowing an
    [int32_t] index are [None]. *)

From stdpp Require Import sorting.
From S2P Require Import Prelude CMem.

(** ** State *)

(** [data] is the address the caller stores. *)
Record minHeapNode := mkNode { nd_key : Z; nd_data : Z }.

Record minheap := mkHeap {
  nodeList : list minHeapNode;
  headIndex : Z;
  lastIndex : Z;
  maxNum : Z
}.

(** [malloc_ok], [calloc_ok]: whether the two allocations succeed; [None] is the
    null pointer. *)
Definition minHeapInit (malloc_ok calloc_ok : bool) (maxNum : Z) : option minheap :=
  return_if maxNum <=? 0 with None ;;
  return_if negb malloc_ok with None ;;
  return_if negb calloc_ok with None ;;
  Some (mkHeap (replicate (Z.to_nat maxNum) (mkNode 0 0)) 1 1 maxNum).

(** A representable [int32_t]; overflow is undefined. *)
Definition i32 (x : Z) : option Z :=
  if (-2147483648 <=? x) && (x <? 2147483648) then Some x else None.

Lemma i32_Some x : -2147483648 <= x < 2147483648 -> i32 x = Some x.
Proof. intros. unfold i32. by ztrue ((-2147483648 <=? x) && (x <? 2147483648)). Qed.

(** ** Index arithmetic and exchanges *)

Definition _getFatherIndex (index : Z) : Z :=
  if (index =? 1) || (index =? 0) then 0 else Z.quot index 2.

Definition _getLeftChildIndex (index : Z) : option Z :=
  if index =? 0 then Some 0 else i32 (index * 2).

Definition _getRightChildIndex (index : Z) : option Z :=
  if index =? 0 then Some 0 else i32 (index * 2 + 1).

Definition set_node_key (nodes : list minHeapNode) (i k : Z) : option (list minHeapNode) :=
  n ← znth nodes i; zset nodes i (mkNode k (nd_data n)).
Definition set_node_data (nodes : list minHeapNode) (i d : Z) : option (list minHeapNode) :=
  n ← znth nodes i; zset nodes i (mkNode (nd_key n) d).

(** The keys of nodes [i] and [j]. *)
Definition _exchange (nodes : list minHeapNode) (i j : Z) : option (list minHeapNode) :=
  a ← znth nodes i; b ← znth nodes j;
  nodes ← set_node_key nodes i (nd_key b); set_node_key nodes j (nd_key a).

(** The data pointers of nodes [i] and [j]. *)
Definition _exchangePoint (nodes : list minHeapNode) (i j : Z) : option (list minHeapNode) :=
  a ← znth nodes i; b ← znth nodes j;
  nodes ← set_node_data nodes i (nd_data b); set_node_data nodes j (nd_data a).

(** ** Insertion *)

(** [while (fatherIndex)] of [_minHeapInsert]. *)
Fixpoint sift_up (fuel : nat) (nodes : list minHeapNode) (key index fatherIndex : Z)
    : option (list minHeapNode) :=
  match fuel with
  | O => None
  | S fuel =>
      return_if fatherIndex =? 0 with Some nodes ;;
      f ← znth nodes fatherIndex;
      if key <? nd_key f
      then nodes ← _exchange nodes fatherIndex index;
           nodes ← _exchangePoint nodes fatherIndex index;
           sift_up fuel nodes key fatherIndex (_getFatherIndex fatherIndex)
      else Some nodes
  end.

Definition _minHeapInsert (this : minheap) (key data : Z) : option (Z * minheap) :=
  return_if lastIndex this >=? maxNum this - 1 with Some (-1, this) ;;
  let index := lastIndex this in
  nodes ← set_node_data (nodeList this) (lastIndex this) data;
  nodes ← set_node_key nodes (lastIndex this) key;
  let last := lastIndex this + 1 in
  nodes ← sift_up (Z.to_nat last) nodes key index (_getFatherIndex index);
  Some (0, mkHeap nodes (headIndex this) last (maxNum this)).

(** ** Removal of the minimum *)

Definition _minChildIndex (nodes : list minHeapNode) (last index : Z) : option Z :=
  return_if index >=? last with Some 0 ;;
  l ← _getLeftChildIndex index;
  r ← _getRightChildIndex index;
  return_if (l : Z) >=? last with Some 0 ;;
  return_if (r : Z) >=? last with Some l ;;
  nl ← znth nodes l; nr ← znth nodes r;
  Some (if nd_key nl <? nd_key nr then l else r).

(** [while (childIndex)] of [_minHeapPop]. *)
Fixpoint sift_down (fuel : nat) (nodes : list minHeapNode) (last index childIndex : Z)
    : option (list minHeapNode) :=
  match fuel with
  | O => None
  | S fuel =>
      return_if childIndex =? 0 with Some nodes ;;
      n ← znth nodes index; c ← znth nodes childIndex;
      if nd_key n >=? nd_key c
      then nodes ← _exchange nodes index childIndex;
           nodes ← _exchangePoint nodes index childIndex;
           child ← _minChildIndex nodes last childIndex;
           sift_down fuel nodes last childIndex child
      else Some nodes
  end.

(** The status, the node written for the caller and the heap. *)
Definition _minHeapPop (this : minheap) : option (Z * option minHeapNode * minheap) :=
  return_if lastIndex this =? 1 with Some (-1, None, this) ;;
  node ← znth (nodeList this) (headIndex this);
  nodes ← _exchange (nodeList this) (lastIndex this - 1) (headIndex this);
  nodes ← _exchangePoint nodes (lastIndex this - 1) (headIndex this);
  let last := lastIndex this - 1 in
  child ← _minChildIndex nodes last (headIndex this);
  nodes ← sift_down (Z.to_nat (lastIndex this)) nodes last (headIndex this) child;
  Some (0, Some node, mkHeap nodes (headIndex this) last (maxNum this)).

(** The status and what is left to the caller. *)
Definition _minHeapDes (this : option minheap) : Z :=
  match this with None => -1 | Some _ => 0 end.

(** ** Exchanging two nodes *)

(** Exchanging keys and then data exchanges the nodes, also when [i = j]. *)
Lemma exchange_swap {R} nodes i j (k : list minHeapNode -> option R) :
  0 <= i < zlen nodes -> 0 <= j < zlen nodes ->
  (nodes ← _exchange nodes i j; nodes ← _exchangePoint nodes i j; k nodes) = k (swap nodes i j).
Proof.
  intros Hi Hj. destruct (znth_lt nodes i Hi) as [a Ha], (znth_lt nodes j Hj) as [b Hb].
  assert (forall m i n k, znth m i = Some n ->
    set_node_key m i k = Some (<[Z.to_nat i := mkNode k (nd_data n)]> m)
    /\ set_node_data m i k = Some (<[Z.to_nat i := mkNode (nd_key n) k]> m)) as Hset.
  { intros m i' n k' H. pose proof (znth_Some_lt m i' n H). unfold set_node_key, set_node_data.
    by rewrite H, !bind_Some, !zset_Some. }
  unfold _exchange, _exchangePoint. rewrite Ha, Hb, !bind_Some.
  rewrite (proj1 (Hset _ _ _ _ Ha)), bind_Some.
  set (m1 := <[_ := _]> nodes).
  assert (exists b', znth m1 j = Some b' /\ nd_data b' = nd_data b
    /\ (j = i \/ nd_key b' = nd_key b)) as (b' & Hb' & Hbd & Hbk).
  { unfold m1. rewrite znth_insert by done. destruct (Z.eqb_spec j i) as [->|]; [|by eauto].
    eexists. split; [done|]. assert (a = b) as -> by congruence. auto. }
  rewrite (proj1 (Hset _ _ _ _ Hb')), bind_Some. set (m2 := <[_ := _]> m1).
  assert (zlen m1 = zlen nodes /\ zlen m2 = zlen nodes) as [Hl1 Hl2] by (unfold m2, m1; len).
  assert (znth m2 j = Some (mkNode (nd_key a) (nd_data b))) as E2j.
  { unfold m2. rewrite znth_insert by lia. rewrite Z.eqb_refl. by rewrite Hbd. }
  assert (znth m2 i = Some (mkNode (nd_key b) (nd_data a))) as E2i.
  { unfold m2, m1. rewrite !znth_insert by len. rewrite Z.eqb_refl.
    destruct (Z.eqb_spec i j) as [->|]; [|done]. assert (a = b) as -> by congruence. by rewrite Hbd. }
  rewrite E2i, E2j, !bind_Some. rewrite (proj2 (Hset _ _ _ _ E2i)), bind_Some.
  set (m3 := <[_ := _]> m2). assert (zlen m3 = zlen nodes) as Hl3 by (unfold m3; len).
  cbn [nd_key nd_data] in *.
  assert (znth m3 j = Some (mkNode (nd_key a) (nd_data b))) as E3j.
  { unfold m3. rewrite znth_insert by lia. destruct (Z.eqb_spec j i) as [->|]; [|done]. congruence. }
  rewrite (proj2 (Hset _ _ _ _ E3j)), bind_Some. f_equal. apply list_eq_znth; [len|].
  intros l Hl. rewrite znth_swap, !znth_insert by lia. unfold m3, m2, m1.
  rewrite !znth_insert by len. rewrite Ha, Hb. destruct a, b. repeat zcase; done || congruence.
Qed.

(** ** Heap order *)

(** The key at index [i]. *)
Definition kat (nodes : list minHeapNode) (i : Z) : Z :=
  match znth nodes i with Some n => nd_key n | None => 0 end.

Lemma kat_swap nodes i j k :
  0 <= i < zlen nodes -> 0 <= j < zlen nodes ->
  kat (swap nodes i j) k
  = if k =? j then kat nodes i else if k =? i then kat nodes j else kat nodes k.
Proof. intros. unfold kat. rewrite znth_swap by done. repeat zcase; done. Qed.

Lemma kat_Some nodes i n : znth nodes i = Some n -> kat nodes i = nd_key n.
Proof. unfold kat. by intros ->. Qed.

Definition heap_ordered (nodes : list minHeapNode) (last : Z) : Prop :=
  forall i, 2 <= i < last -> kat nodes (i / 2) <= kat nodes i.

(** Ordered except between [x] and its father; [x]'s children respect [x]'s father. *)
Definition ordered_but_up (nodes : list minHeapNode) (last x : Z) : Prop :=
  (forall i, 2 <= i < last -> i <> x -> kat nodes (i / 2) <= kat nodes i)
  /\ (forall c, 2 <= c < last -> c / 2 = x -> 2 <= x -> kat nodes (x / 2) <= kat nodes c).

(** Ordered except between [x] and its children; they respect [x]'s father. *)
Definition ordered_but_down (nodes : list minHeapNode) (last x : Z) : Prop :=
  (forall i, 2 <= i < last -> i / 2 <> x -> kat nodes (i / 2) <= kat nodes i)
  /\ (forall c, 2 <= c < last -> c / 2 = x -> 2 <= x -> kat nodes (x / 2) <= kat nodes c).

Lemma father_spec i : 1 <= i -> _getFatherIndex i = if i =? 1 then 0 else i / 2.
Proof.
  intros. unfold _getFatherIndex. zfalse (i =? 0). rewrite orb_false_r.
  destruct (i =? 1); [done|]. apply Z.quot_div_nonneg; lia.
Qed.

Lemma swap_up nodes last x :
  last <= zlen nodes -> 2 <= x < last -> kat nodes x < kat nodes (x / 2) ->
  ordered_but_up nodes last x -> ordered_but_up (swap nodes (x / 2) x) last (x / 2).
Proof.
  intros Hl Hx Hlt [H1 H2]. assert (1 <= x / 2 < x) by zlia.
  assert (forall k, kat (swap nodes (x / 2) x) k
    = if k =? x then kat nodes (x / 2) else if k =? x / 2 then kat nodes x else kat nodes k) as Hk.
  { intros k. apply kat_swap; lia. }
  split.
  - intros i Hi Hne. rewrite !Hk. assert (1 <= i / 2 < i) by zlia.
    destruct (Z.eqb_spec i x) as [->|Hix]; [rewrite Z.eqb_refl; zfalse (x / 2 =? x); lia|].
    zfalse (i =? x / 2). specialize (H1 i Hi Hix).
    destruct (Z.eqb_spec (i / 2) x) as [E|]; [apply H2; lia|].
    destruct (Z.eqb_spec (i / 2) (x / 2)) as [E|]; [rewrite E in H1; lia | done].
  - intros c Hc Hcx Hf. rewrite !Hk. assert (1 <= x / 2 / 2 < x / 2) by zlia.
    zfalse (x / 2 / 2 =? x). zfalse (x / 2 / 2 =? x / 2).
    assert (kat nodes (x / 2 / 2) <= kat nodes (x / 2)) as Hg by (apply H1; lia).
    destruct (Z.eqb_spec c x); [done|]. assert (c <> x / 2) by zlia. zfalse (c =? x / 2).
    specialize (H1 c Hc ltac:(done)). rewrite Hcx in H1. lia.
Qed.

Lemma swap_down nodes last x c :
  last <= zlen nodes -> 1 <= x -> 2 <= c < last -> c / 2 = x ->
  (forall d, 2 <= d < last -> d / 2 = x -> kat nodes c <= kat nodes d) ->
  kat nodes c <= kat nodes x ->
  ordered_but_down nodes last x -> ordered_but_down (swap nodes x c) last c.
Proof.
  intros Hl Hx Hc Hcx Hmin Hge [H1 H2]. assert (x < c) by zlia.
  assert (forall k, kat (swap nodes x c) k
    = if k =? c then kat nodes x else if k =? x then kat nodes c else kat nodes k) as Hk.
  { intros k. apply kat_swap; lia. }
  split.
  - intros i Hi Hne. rewrite !Hk. assert (1 <= i / 2 < i) by zlia. zfalse (i / 2 =? c).
    destruct (Z.eqb_spec (i / 2) x) as [E|E].
    + destruct (Z.eqb_spec i c); [done|]. zfalse (i =? x). by apply Hmin.
    + destruct (Z.eqb_spec i c) as [->|]; [done|].
      destruct (Z.eqb_spec i x) as [->|]; [by apply H2; [..|lia] | by apply H1].
  - intros d Hd Hdc _. rewrite !Hk, Hcx. zfalse (x =? c). rewrite Z.eqb_refl.
    assert (c < d) by zlia. zfalse (d =? c). zfalse (d =? x).
    rewrite <- Hdc. apply H1; [done|]. lia.
Qed.

(** ** Node multisets *)

(** The nodes in use. *)
Definition hp_nodes (nodes : list minHeapNode) (last : Z) : list minHeapNode :=
  drop 1 (take (Z.to_nat last) nodes).

Lemma swap_perm nodes last i j :
  last <= zlen nodes -> 1 <= i < last -> 1 <= j < last ->
  hp_nodes (swap nodes i j) last ≡ₚ hp_nodes nodes last.
Proof.
  intros Hl Hi Hj. unfold hp_nodes, swap.
  destruct (znth_lt nodes i) as [a Ha], (znth_lt nodes j) as [b Hb]; [lia..|].
  rewrite Ha, Hb. apply znth_Some in Ha as [_ Ha], Hb as [_ Hb].
  rewrite !take_insert_lt, !drop_insert_ge by lia.
  apply double_insert_perm; rewrite lookup_drop, lookup_take_lt by lia;
    rewrite <- ?Ha, <- ?Hb; f_equal; lia.
Qed.

(** ** The sift loops *)

Lemma sift_up_spec fuel nodes last x :
  last <= zlen nodes -> 1 <= x < last -> (Z.to_nat x < fuel)%nat -> ordered_but_up nodes last x ->
  exists nodes', sift_up fuel nodes (kat nodes x) x (_getFatherIndex x) = Some nodes'
    /\ length nodes' = length nodes /\ heap_ordered nodes' last
    /\ hp_nodes nodes' last ≡ₚ hp_nodes nodes last.
Proof.
  revert nodes x. induction fuel as [|fuel IH]; intros nodes x Hl Hx Hf Ho; [lia|].
  cbn [sift_up]. rewrite father_spec by lia. destruct (Z.eqb_spec x 1) as [->|Hx1].
  { exists nodes. split; [done|]. split; [done|]. split; [|done].
    intros i Hi. apply Ho; lia. }
  assert (1 <= x / 2 < x) as Hh by zlia. zfalse (x / 2 =? 0).
  destruct (znth_lt nodes (x / 2)) as [f Hfn]; [lia|]. rewrite Hfn, bind_Some.
  rewrite <- (kat_Some _ _ _ Hfn). destruct (Z.ltb_spec (kat nodes x) (kat nodes (x / 2))) as [Hlt|Hge].
  - rewrite exchange_swap by lia.
    assert (kat (swap nodes (x / 2) x) (x / 2) = kat nodes x) as Hk.
    { rewrite kat_swap by lia. zfalse (x / 2 =? x). by rewrite Z.eqb_refl. }
    destruct (IH (swap nodes (x / 2) x) (x / 2)) as (nodes' & Hs & Hlen & Hord & Hp);
      [len | lia | lia | apply swap_up; done || lia |].
    rewrite Hk in Hs. exists nodes'. split; [done|]. split; [len|]. split; [done|].
    rewrite Hp. apply swap_perm; lia.
  - exists nodes. split; [done|]. split; [done|]. split; [|done].
    intros i Hi. destruct (Z.eq_dec i x) as [->|]; [done|]. by apply Ho.
Qed.

Lemma minChildIndex_spec nodes last x :
  last <= zlen nodes -> last <= 1073741824 -> 1 <= x ->
  exists c, _minChildIndex nodes last x = Some c
    /\ if c =? 0 then forall d, 2 <= d < last -> d / 2 <> x
       else 2 <= c < last /\ c / 2 = x
            /\ forall d, 2 <= d < last -> d / 2 = x -> kat nodes c <= kat nodes d.
Proof.
  intros Hl Hmax Hx. unfold _minChildIndex, _getLeftChildIndex, _getRightChildIndex.
  rewrite Z.geb_leb. destruct (Z.leb_spec last x).
  { exists 0. split; [done|]. cbn. intros d Hd. zlia. }
  zfalse (x =? 0). rewrite !i32_Some, !bind_Some, !Z.geb_leb by lia.
  destruct (Z.leb_spec last (x * 2)).
  { exists 0. split; [done|]. cbn. intros d Hd. zlia. }
  assert (forall d, d / 2 = x -> d = x * 2 \/ d = x * 2 + 1) as Hch by (intros; zlia).
  destruct (Z.leb_spec last (x * 2 + 1)).
  { exists (x * 2). split; [done|]. zfalse (x * 2 =? 0). split; [lia|]. split; [zlia|].
    intros d Hd [->| ->]%Hch; lia. }
  destruct (znth_lt nodes (x * 2)) as [nl Hnl]; [lia|].
  destruct (znth_lt nodes (x * 2 + 1)) as [nr Hnr]; [lia|].
  rewrite Hnl, Hnr, !bind_Some, <- (kat_Some _ _ _ Hnl), <- (kat_Some _ _ _ Hnr).
  eexists. split; [done|]. destruct (Z.ltb_spec (kat nodes (x * 2)) (kat nodes (x * 2 + 1))).
  - zfalse (x * 2 =? 0). split; [lia|]. split; [zlia|]. intros d Hd [->| ->]%Hch; lia.
  - zfalse (x * 2 + 1 =? 0). split; [lia|]. split; [zlia|]. intros d Hd [->| ->]%Hch; lia.
Qed.

Lemma sift_down_spec fuel nodes last x c :
  last <= zlen nodes -> last <= 1073741824 -> 1 <= x <= last -> (Z.to_nat (last - x) < fuel)%nat ->
  _minChildIndex nodes last x = Some c -> ordered_but_down nodes last x ->
  exists nodes', sift_down fuel nodes last x c = Some nodes'
    /\ length nodes' = length nodes /\ heap_ordered nodes' last
    /\ hp_nodes nodes' last ≡ₚ hp_nodes nodes last.
Proof.
  revert nodes x c. induction fuel as [|fuel IH]; intros nodes x c Hl Hmax Hx Hf Hc Ho; [lia|].
  destruct (minChildIndex_spec nodes last x) as (c' & Hc' & Hspec); [done | done | lia |].
  assert (c' = c) as -> by congruence. cbn [sift_down].
  destruct (Z.eqb_spec c 0) as [->|Hc0].
  { exists nodes. split; [done|]. split; [done|]. split; [|done]. intros i Hi. apply Ho; auto. }
  destruct Hspec as (Hcr & Hcx & Hmin). assert (x < c) by zlia.
  destruct (znth_lt nodes x) as [n Hn]; [lia|]. destruct (znth_lt nodes c) as [nc Hnc]; [lia|].
  rewrite Hn, Hnc, !bind_Some, <- (kat_Some _ _ _ Hn), <- (kat_Some _ _ _ Hnc), Z.geb_leb.
  destruct (Z.leb_spec (kat nodes c) (kat nodes x)) as [Hge|Hlt].
  - rewrite exchange_swap by lia.
    destruct (minChildIndex_spec (swap nodes x c) last c) as (cc & Hcc & _); [len | done | lia |].
    rewrite Hcc, bind_Some.
    destruct (IH (swap nodes x c) c cc) as (nodes' & Hs & Hlen & Hord & Hp);
      [len | done | lia | lia | done | apply swap_down; done || lia |].
    exists nodes'. split; [done|]. split; [len|]. split; [done|].
    rewrite Hp. apply swap_perm; lia.
  - exists nodes. split; [done|]. split; [done|]. split; [|done].
    intros i Hi. destruct (Z.eq_dec (i / 2) x) as [E|]; [|by apply Ho].
    specialize (Hmin i Hi E). rewrite E. lia.
Qed.

(** ** Invariant and operations *)

Definition hp_wf (h : minheap) : Prop :=
  headIndex h = 1 /\ 1 <= lastIndex h <= Z.max 1 (maxNum h - 1) /\ 1 <= maxNum h <= 1073741824
  /\ zlen (nodeList h) = maxNum h /\ heap_ordered (nodeList h) (lastIndex h).

Definition hp_contents (h : minheap) : list minHeapNode := hp_nodes (nodeList h) (lastIndex h).

Lemma hp_contents_length h : hp_wf h -> zlen (hp_contents h) = lastIndex h - 1.
Proof. intros (_ & Hl & Hm & Hn & _). unfold hp_contents, hp_nodes. len. Qed.

Lemma minHeapInit_spec maxNum :
  1 <= maxNum <= 1073741824 ->
  exists h, minHeapInit true true maxNum = Some h /\ hp_wf h /\ hp_contents h = [].
Proof.
  intros Hm. unfold minHeapInit. zfalse (maxNum <=? 0). eexists. split; [done|].
  split; [|unfold hp_contents, hp_nodes; cbn; by rewrite skipn_firstn_comm].
  split; [done|]. cbn. split; [lia|]. split; [done|]. split; [len|]. intros i Hi. lia.
Qed.

(** Writing the data and then the key of a free node. *)
Lemma set_node {R} nodes i key data (k : list minHeapNode -> option R) :
  0 <= i < zlen nodes ->
  (nodes ← set_node_data nodes i data; nodes ← set_node_key nodes i key; k nodes)
  = k (<[Z.to_nat i := mkNode key data]> nodes).
Proof.
  intros Hi. destruct (znth_lt nodes i Hi) as [a Ha]. unfold set_node_data, set_node_key.
  rewrite Ha, !bind_Some, zset_Some, bind_Some by done.
  rewrite znth_insert, Z.eqb_refl, !bind_Some by done. rewrite zset_Some by len.
  by rewrite list_insert_insert_eq.
Qed.

Lemma insert_spec h key data :
  hp_wf h -> lastIndex h < maxNum h - 1 ->
  exists h', _minHeapInsert h key data = Some (0, h') /\ hp_wf h' /\ maxNum h' = maxNum h
    /\ lastIndex h' = lastIndex h + 1
    /\ hp_contents h' ≡ₚ mkNode key data :: hp_contents h.
Proof.
  intros (Hh & Hl & Hm & Hn & Ho) Hfree. unfold _minHeapInsert. rewrite Z.geb_leb.
  zfalse (maxNum h - 1 <=? lastIndex h). rewrite set_node by lia.
  set (x := lastIndex h) in *. set (nodes := <[_ := _]> (nodeList h)).
  assert (zlen nodes = maxNum h) as Hnl by (unfold nodes; len).
  assert (forall i, kat nodes i = if i =? x then key else kat (nodeList h) i) as Hk.
  { intros i. unfold kat, nodes. rewrite znth_insert by lia. by zcase. }
  assert (kat nodes x = key) as Hkx by (by rewrite Hk, Z.eqb_refl).
  destruct (sift_up_spec (Z.to_nat (x + 1)) nodes (x + 1) x) as (nodes' & Hs & Hlen & Hord & Hp);
    [lia | lia | lia | |].
  { split; [|intros c Hc Hcx; zlia]. intros i Hi Hix. rewrite !Hk.
    zfalse (i =? x). assert (i / 2 < i) by zlia. zfalse (i / 2 =? x). apply Ho. lia. }
  rewrite Hkx in Hs. rewrite Hs, bind_Some. eexists. split; [done|].
  split; [|split; [done|split; [done|]]].
  - split; [done|]. split; [cbn; lia|]. split; [done|]. split; [cbn; lia | done].
  - unfold hp_contents. cbn [nodeList lastIndex]. rewrite Hp. unfold hp_nodes, nodes.
    rewrite !skipn_firstn_comm.
    rewrite drop_insert_ge by lia.
    replace (Z.to_nat (x + 1) - 1)%nat with (S (Z.to_nat x - 1)) by lia.
    rewrite (take_S_r _ _ (mkNode key data)).
    + rewrite take_insert_ge by lia. symmetry. apply Permutation_cons_append.
    + apply list_lookup_insert_eq. rewrite length_drop. lia.
Qed.

Lemma heap_root_min nodes last i :
  heap_ordered nodes last -> 1 <= i < last -> kat nodes 1 <= kat nodes i.
Proof.
  intros Ho Hir. assert (0 <= i) as H0 by lia. revert i H0 Hir.
  apply (Z_lt_induction (fun i => 1 <= i < last -> kat nodes 1 <= kat nodes i)).
  - intros i IH Hi. destruct (Z.eq_dec i 1) as [->|]; [done|].
    specialize (Ho i ltac:(lia)). assert (1 <= i / 2 < i) by zlia.
    specialize (IH (i / 2) ltac:(lia) ltac:(lia)). lia.
Qed.

Lemma contents_min h n :
  hp_wf h -> n ∈ hp_contents h -> kat (nodeList h) 1 <= nd_key n.
Proof.
  intros (_ & Hl & _ & Hn & Ho) [i Hi]%list_elem_of_lookup_1.
  assert (1 + i < Z.to_nat (lastIndex h))%nat.
  { apply lookup_lt_Some in Hi. unfold hp_contents, hp_nodes in Hi. len. }
  unfold hp_contents, hp_nodes in Hi. rewrite lookup_drop, lookup_take_lt in Hi by lia.
  assert (znth (nodeList h) (Z.of_nat (1 + i)) = Some n) as <-%kat_Some by by rewrite znth_of_nat.
  apply (heap_root_min _ (lastIndex h)); [done | lia].
Qed.

Lemma pop_spec h :
  hp_wf h -> 1 < lastIndex h ->
  exists node h', _minHeapPop h = Some (0, Some node, h') /\ hp_wf h' /\ maxNum h' = maxNum h
    /\ hp_contents h ≡ₚ node :: hp_contents h'
    /\ forall n, n ∈ hp_contents h -> nd_key node <= nd_key n.
Proof.
  intros Hwf Hne. pose proof Hwf as (Hh & Hl & Hm & Hn & Ho). unfold _minHeapPop.
  rewrite Hh. zfalse (lastIndex h =? 1). set (last := lastIndex h) in *.
  destruct (znth_lt (nodeList h) 1) as [node Hnode]; [lia|]. rewrite Hnode, bind_Some.
  rewrite exchange_swap by lia. set (nodes := swap (nodeList h) (last - 1) 1).
  assert (zlen nodes = maxNum h) as Hnl by (unfold nodes; len).
  assert (forall k, kat nodes k = if k =? 1 then kat (nodeList h) (last - 1)
    else if k =? last - 1 then kat (nodeList h) 1 else kat (nodeList h) k) as Hk.
  { intros k. apply kat_swap; lia. }
  destruct (minChildIndex_spec nodes (last - 1) 1) as (c & Hc & _); [lia..|].
  rewrite Hc, bind_Some.
  destruct (sift_down_spec (Z.to_nat last) nodes (last - 1) 1 c) as (nodes' & Hs & Hlen & Hord & Hp);
    [lia | lia | lia | lia | done | |].
  { split; [|lia]. intros i Hi Hi2. rewrite !Hk. assert (1 <= i / 2 < i) by zlia.
    zfalse (i =? 1). zfalse (i =? last - 1). zfalse (i / 2 =? 1). zfalse (i / 2 =? last - 1).
    apply Ho. lia. }
  rewrite Hs, bind_Some. eexists node, _. split; [done|]. split; [|split; [done|split]].
  - split; [done|]. split; [cbn; lia|]. split; [done|]. split; [cbn; lia | done].
  - unfold hp_contents at 2. cbn [nodeList lastIndex]. rewrite Hp. unfold hp_contents.
    fold last. rewrite <- (swap_perm _ _ (last - 1) 1) by lia. fold nodes.
    assert (nodes !! Z.to_nat (last - 1) = Some node) as Hlast.
    { unfold nodes. rewrite <- znth_of_nat, Z2Nat.id, znth_swap by lia. zcase; [|by rewrite Z.eqb_refl].
      rewrite <- Hnode. f_equal. lia. }
    unfold hp_nodes. replace (Z.to_nat last) with (S (Z.to_nat (last - 1))) by lia.
    rewrite (take_S_r _ _ _ Hlast). destruct (Z.eq_dec last 2) as [E|E].
    + rewrite E. cbn. destruct nodes; done.
    + rewrite drop_app_le by (rewrite length_take; lia). symmetry. apply Permutation_cons_append.
  - intros n Hin. rewrite <- (kat_Some _ _ _ Hnode). by apply contents_min.
Qed.

(** ** Clients *)

(** Inserting a list of nodes; [None] when one of them is refused. *)
Fixpoint insert_all (h : minheap) (kvs : list minHeapNode) : option minheap :=
  match kvs with
  | [] => Some h
  | n :: kvs =>
      '(r, h) ← _minHeapInsert h (nd_key n) (nd_data n);
      if r =? 0 then insert_all h kvs else None
  end.

(** Popping until the heap reports that it is empty. *)
Fixpoint pop_all (fuel : nat) (h : minheap) : option (list minHeapNode * minheap) :=
  match fuel with
  | O => None
  | S fuel =>
      '(r, node, h) ← _minHeapPop h;
      if (r : Z) =? 0 then '(out, h) ← pop_all fuel h; Some (option_list node ++ out, h)
      else Some ([], h)
  end.

Definition key_le (a b : minHeapNode) : Prop := nd_key a <= nd_key b.

Lemma insert_all_spec h kvs :
  hp_wf h -> lastIndex h + zlen kvs <= maxNum h - 1 ->
  exists h', insert_all h kvs = Some h' /\ hp_wf h' /\ maxNum h' = maxNum h
    /\ hp_contents h' ≡ₚ kvs ++ hp_contents h.
Proof.
  revert h. induction kvs as [|n kvs IH]; intros h Hwf Hl; cbn [insert_all]; [by exists h|].
  cbn [length] in Hl. destruct (insert_spec h (nd_key n) (nd_data n) Hwf)
    as (h1 & -> & Hwf1 & Hm1 & Hl1 & Hp1); [lia|].
  rewrite bind_Some. cbn. destruct (IH h1 Hwf1) as (h' & -> & Hwf' & Hm' & Hp'); [lia|].
  exists h'. split; [done|]. split; [done|]. split; [congruence|].
  rewrite Hp', Hp1. destruct n. cbn. by rewrite <- Permutation_middle.
Qed.

Lemma pop_all_spec fuel h :
  hp_wf h -> (length (hp_contents h) < fuel)%nat ->
  exists out h', pop_all fuel h = Some (out, h') /\ hp_wf h' /\ hp_contents h' = []
    /\ out ≡ₚ hp_contents h /\ StronglySorted key_le out.
Proof.
  revert h. induction fuel as [|fuel IH]; intros h Hwf Hf; [lia|]. cbn [pop_all].
  pose proof (hp_contents_length h Hwf) as Hlen.
  destruct (Z.eq_dec (lastIndex h) 1) as [E|E].
  - unfold _minHeapPop. rewrite E. cbn. assert (hp_contents h = []) as Hc.
    { apply length_zero_iff_nil. lia. }
    exists [], h. rewrite Hc.
    split; [done|]. split; [done|]. split; [done|]. split; [done|constructor].
  - assert (1 < lastIndex h) by (destruct Hwf as (_ & ? & _); lia).
    destruct (pop_spec h Hwf) as (n & h1 & -> & Hwf1 & _ & Hp & Hmin); [done|].
    rewrite bind_Some. cbn [Z.eqb].
    destruct (IH h1 Hwf1) as (out & h' & -> & Hwf' & Hc' & Ho & Hs).
    { apply Permutation_length in Hp. cbn in Hp. lia. }
    rewrite bind_Some. exists (n :: out), h'. split; [done|]. split; [done|]. split; [done|].
    split; [by rewrite Ho, Hp|]. constructor; [done|]. apply Forall_forall. intros m Hm.
    apply Hmin. rewrite Hp. right. by rewrite <- Ho.
Qed.

(** ** Properties *)

(** C38: on a heap of capacity at most 2^30, [insert] refuses with -1 exactly when only
    the reserved slot is left and otherwise adds the node and keeps the heap order;
    [pop] refuses with -1 exactly when the heap is empty and otherwise hands out a node
    of least key and removes just that node. The sift loops end within their fuel,
    inside the array and without index overflow. *)
Theorem minheap_operations h key data :
  hp_wf h ->
  (if lastIndex h >=? maxNum h - 1 then _minHeapInsert h key data = Some (-1, h)
   else exists h', _minHeapInsert h key data = Some (0, h') /\ hp_wf h'
          /\ hp_contents h' ≡ₚ mkNode key data :: hp_contents h)
  /\ (if lastIndex h =? 1 then _minHeapPop h = Some (-1, None, h)
      else exists node h', _minHeapPop h = Some (0, Some node, h') /\ hp_wf h'
             /\ hp_contents h ≡ₚ node :: hp_contents h'
             /\ forall n, n ∈ hp_contents h -> nd_key node <= nd_key n).
Proof.
  intros Hwf. pose proof Hwf as (_ & Hl & _). split.
  - rewrite Z.geb_leb. destruct (Z.leb_spec (maxNum h - 1) (lastIndex h)) as [E|E].
    + unfold _minHeapInsert. rewrite Z.geb_leb. by ztrue (maxNum h - 1 <=? lastIndex h).
    + destruct (insert_spec h key data Hwf E) as (h' & H & Hwf' & _ & _ & Hp). by exists h'.
  - destruct (Z.eqb_spec (lastIndex h) 1) as [E|E].
    + unfold _minHeapPop. by ztrue (lastIndex h =? 1).
    + destruct (pop_spec h Hwf) as (n & h' & H & Hwf' & _ & Hp & Hmin); [lia|]. by exists n, h'.
Qed.

Definition sample_heap : minheap :=
  mkHeap [mkNode 0 0; mkNode 2 7; mkNode 5 8; mkNode 2 9; mkNode 0 0; mkNode 0 0] 1 4 6.

Lemma sample_heap_wf : hp_wf sample_heap.
Proof.
  split; [reflexivity|]. split; [cbn; lia|]. split; [cbn; lia|]. split; [reflexivity|].
  intros i Hi. cbn [lastIndex sample_heap] in Hi.
  assert (i = 2 \/ i = 3) as [->| ->] by lia; vm_compute; discriminate.
Qed.

Lemma minheap_operations_witness :
  (exists h', _minHeapInsert sample_heap 1 5 = Some (0, h') /\ hp_wf h'
     /\ hp_contents h' ≡ₚ mkNode 1 5 :: hp_contents sample_heap)
  /\ (exists node h', _minHeapPop sample_heap = Some (0, Some node, h') /\ hp_wf h'
      /\ hp_contents sample_heap ≡ₚ node :: hp_contents h'
      /\ forall n, n ∈ hp_contents sample_heap -> nd_key node <= nd_key n).
Proof. exact (minheap_operations sample_heap 1 5 sample_heap_wf). Defined.

(** On a heap made by [minHeapInit (maxNum)], inserting up to [maxNum - 2]
    nodes and popping until empty returns exactly those nodes, in order of key. *)
Theorem minheap_sorts maxNum kvs :
  1 <= maxNum <= 1073741824 -> zlen kvs <= maxNum - 2 ->
  exists h out h', minHeapInit true true maxNum = Some h
    /\ (h ← insert_all h kvs; pop_all (S (length kvs)) h) = Some (out, h')
    /\ hp_contents h' = [] /\ out ≡ₚ kvs /\ StronglySorted key_le out.
Proof.
  intros Hm Hk. destruct (minHeapInit_spec maxNum Hm) as (h & Hi & Hwf & Hc).
  assert (lastIndex h = 1 /\ MinHeap.maxNum h = maxNum) as [Hl Hmx].
  { unfold minHeapInit in Hi. destruct (Z.leb_spec maxNum 0); [done|]. by injection Hi as <-. }
  destruct (insert_all_spec h kvs Hwf) as (h1 & Hins & Hwf1 & _ & Hp1); [lia|].
  rewrite Hc, app_nil_r in Hp1.
  destruct (pop_all_spec (S (length kvs)) h1 Hwf1) as (out & h' & Hpop & _ & He & Ho & Hs).
  { apply Permutation_length in Hp1. lia. }
  exists h, out, h'. split; [done|]. rewrite Hins, bind_Some. split; [done|]. split; [done|].
  split; [by rewrite Ho | done].
Qed.

Lemma minheap_sorts_witness :
  exists h out h', minHeapInit true true 6 = Some h
    /\ (h ← insert_all h [mkNode 3 1; mkNode 1 2; mkNode 2 3]; pop_all 4 h) = Some (out, h')
    /\ hp_contents h' = [] /\ out ≡ₚ [mkNode 3 1; mkNode 1 2; mkNode 2 3]
    /\ StronglySorted key_le out.
Proof. apply (minheap_sorts 6 [mkNode 3 1; mkNode 1 2; mkNode 2 3]); cbn [length]; lia. Defined.
