(* ===== verification/TimerList.v ===== *)
(** * fun_timer/timer_list.c: one-shot timers on an intrusive list

    The doubly linked list is modelled in a store that maps addresses to
    [list_head] cells; the [list] member is the first of [struct event_timeout],
    so [container_of] is the identity on addresses.  Address 0 is the null
    pointer, and an access through a dangling pointer is [None].  The clock and
    the callbacks are parameters. *)

From stdpp Require Import gmap sorting.
From S2P Require Import Prelude CMem.

(** ** Times *)

Record timeval := mkTv { tv_sec : Z; tv_usec : Z }.

(** Conversion of [long] to [int]. *)
Definition to_int (x : Z) : Z := (x + 2147483648) `mod` 4294967296 - 2147483648.

Definition tv_diff (t1 t2 : timeval) : Z :=
  to_int ((tv_sec t1 - tv_sec t2) * 1000 + Z.quot (tv_usec t1 - tv_usec t2) 1000).

(** ** Store *)

Record list_head := mkLh { lh_next : Z; lh_prev : Z }.

Record event_timeout := mkEv { ev_pending : bool; ev_cb : Z; ev_time : timeval }.

Record store := mkStore { links : gmap Z list_head; events : gmap Z event_timeout }.

Definition get_next (s : store) (a : Z) : option Z := lh_next <$> links s !! a.
Definition get_prev (s : store) (a : Z) : option Z := lh_prev <$> links s !! a.

Definition set_next (s : store) (a v : Z) : option store :=
  c ← links s !! a; Some (mkStore (<[a := mkLh v (lh_prev c)]> (links s)) (events s)).
Definition set_prev (s : store) (a v : Z) : option store :=
  c ← links s !! a; Some (mkStore (<[a := mkLh (lh_next c) v]> (links s)) (events s)).
Definition set_event (s : store) (a : Z) (e : event_timeout) : store :=
  mkStore (links s) (<[a := e]> (events s)).

Definition set_pending (s : store) (a : Z) (p : bool) : option store :=
  e ← events s !! a; Some (set_event s a (mkEv p (ev_cb e) (ev_time e))).

(** ** The list operations of timer_list.h *)

Definition INIT_LIST_HEAD (s : store) (list : Z) : option store :=
  s ← set_prev s list list; set_next s list list.

Definition list_empty (s : store) (head : Z) : option bool :=
  n ← get_next s head; Some (n =? head).

Definition _list_del (s : store) (entry : Z) : option store :=
  n ← get_next s entry; p ← get_prev s entry;
  s ← set_prev s n p;
  n ← get_next s entry; p ← get_prev s entry;
  set_next s p n.

Definition list_del (s : store) (entry : Z) : option store :=
  s ← _list_del s entry;
  s ← set_prev s entry 0;
  set_next s entry 0.

Definition _list_add (s : store) (new prev next : Z) : option store :=
  s ← set_prev s next new;
  s ← set_next s new next;
  s ← set_prev s new prev;
  set_next s prev new.

Definition list_add_tail (s : store) (new head : Z) : option store :=
  p ← get_prev s head; _list_add s new p head.

(** ** Timers *)

(** The scan of [event_timeout_add]: the cell to insert before. *)
Fixpoint find_later (fuel : nat) (s : store) (tm_head : Z) (t : timeval) (p : Z) : option Z :=
  match fuel with
  | O => None
  | S fuel =>
      return_if p =? tm_head with Some tm_head ;;
      e ← events s !! p;
      return_if tv_diff (ev_time e) t >? 0 with Some p ;;
      n ← get_next s p; find_later fuel s tm_head t n
  end.

Definition event_timeout_add (s : store) (tm_head ev : Z) : option (Z * store) :=
  e ← events s !! ev;
  return_if ev_pending e with Some (-1, s) ;;
  first ← get_next s tm_head;
  h ← find_later (S (size (links s))) s tm_head (ev_time e) first;
  s ← list_add_tail s ev h;
  s ← set_pending s ev true;
  Some (0, s).

Definition event_timeout_cancel (s : store) (ev : Z) : option (Z * store) :=
  e ← events s !! ev;
  return_if negb (ev_pending e) with Some (-1, s) ;;
  s ← list_del s ev;
  s ← set_pending s ev false;
  Some (0, s).

(** The expiry [event_timeout_set] computes from the clock reading [now]. *)
Definition deadline (now : timeval) (msecs : Z) : timeval :=
  let sec := tv_sec now + Z.quot msecs 1000 in
  let usec := tv_usec now + Z.rem msecs 1000 * 1000 in
  if usec >? 1000000 then mkTv (sec + 1) (usec - 1000000) else mkTv sec usec.

Definition event_timeout_set (now : timeval) (s : store) (tm_head ev msecs : Z)
    : option (Z * store) :=
  e ← events s !! ev;
  s ← (if ev_pending e then '(_, s) ← event_timeout_cancel s ev; Some s else Some s);
  e ← events s !! ev;
  let s := set_event s ev (mkEv (ev_pending e) (ev_cb e) (deadline now msecs)) in
  event_timeout_add s tm_head ev.

Definition event_timeout_remaining (now : timeval) (s : store) (ev : Z) : option Z :=
  e ← events s !! ev;
  return_if negb (ev_pending e) with Some (-1) ;;
  Some (tv_diff (ev_time e) now).

Definition event_get_next_timeout (s : store) (tm_head : Z) (tv : timeval) : option Z :=
  return_if tm_head =? 0 with Some (-1) ;;
  empty ← list_empty s tm_head;
  return_if (empty : bool) with Some (-1) ;;
  first ← get_next s tm_head;
  e ← events s !! first;
  let diff := tv_diff (ev_time e) tv in
  Some (if diff <? 0 then 0 else diff).

(** [t->cb (t)] on the timers and the rest of the program's state. *)
Section process.
Context {W : Type} (run_cb : Z -> Z -> store * W -> option (store * W)).

Fixpoint event_process_timeouts (fuel : nat) (sw : store * W) (tm_head : Z) (tv : timeval)
    : option (store * W) :=
  match fuel with
  | O => None
  | S fuel =>
      return_if tm_head =? 0 with Some sw ;;
      empty ← list_empty sw.1 tm_head;
      return_if (empty : bool) with Some sw ;;
      t ← get_next sw.1 tm_head;
      e ← events sw.1 !! t;
      return_if tv_diff (ev_time e) tv >? 0 with Some sw ;;
      '(_, s) ← event_timeout_cancel sw.1 t;
      e ← events s !! t;
      sw ← (if ev_cb e =? 0 then Some (s, sw.2) else run_cb (ev_cb e) t (s, sw.2));
      event_process_timeouts fuel sw tm_head tv
  end.
End process.

(** ** Paths through the links *)

(** A path from [a] through [l] to [b], linked in both directions. *)
Fixpoint seg (s : store) (a : Z) (l : list Z) (b : Z) : Prop :=
  match l with
  | [] => get_next s a = Some b /\ get_prev s b = Some a
  | x :: l => get_next s a = Some x /\ get_prev s x = Some a /\ seg s x l b
  end.

Lemma seg_app s a l1 x l2 b : seg s a (l1 ++ x :: l2) b <-> seg s a l1 x /\ seg s x l2 b.
Proof. revert a. induction l1 as [|y l1 IH]; intros a; cbn; [tauto|]. rewrite IH. tauto. Qed.

Lemma seg_ends s a l b : seg s a l b ->
  get_next s a = Some (default b (head l)) /\ get_prev s b = Some (default a (last l)).
Proof.
  revert a. induction l as [|x l IH]; intros a; cbn; [done|]. intros (Hn & _ & Hs).
  split; [done|]. destruct (IH x Hs) as [_ ->]. destruct l as [|y l]; [done|]. cbn [last].
  destruct (last (y :: l)) eqn:E; [done|]. by apply last_None in E.
Qed.

(** Only the [next] of [a :: l] and the [prev] of [l ++ [b]] matter. *)
Lemma seg_ext s s' a l b :
  (forall x, x ∈ a :: l -> get_next s' x = get_next s x) ->
  (forall x, x ∈ l ++ [b] -> get_prev s' x = get_prev s x) ->
  seg s a l b -> seg s' a l b.
Proof.
  revert a. induction l as [|x l IH]; intros a Hn Hp; cbn in *.
  - rewrite Hn, Hp by (by left). done.
  - intros (H1 & H2 & H3). rewrite Hn, Hp by (by left). split; [done|]. split; [done|].
    apply IH; [| |done]; intros y Hy; [apply Hn | apply Hp]; by right.
Qed.

Definition linked (s : store) (h : Z) (ids : list Z) : Prop :=
  NoDup (h :: ids) /\ seg s h ids h.

Lemma set_next_spec s a v : a ∈ dom (links s) ->
  exists s', set_next s a v = Some s' /\ events s' = events s /\ dom (links s') = dom (links s)
    /\ (forall y, get_next s' y = if decide (y = a) then Some v else get_next s y)
    /\ (forall y, get_prev s' y = get_prev s y).
Proof.
  intros [c Hc]%elem_of_dom. unfold set_next. rewrite Hc, bind_Some. eexists. split; [done|].
  unfold get_next, get_prev. cbn. split; [done|].
  split; [by apply dom_insert_lookup_L; rewrite Hc|].
  split; intros y; destruct (decide (y = a)) as [->|];
    rewrite ?lookup_insert_eq, ?lookup_insert_ne, ?Hc by done; done.
Qed.

Lemma set_prev_spec s a v : a ∈ dom (links s) ->
  exists s', set_prev s a v = Some s' /\ events s' = events s /\ dom (links s') = dom (links s)
    /\ (forall y, get_next s' y = get_next s y)
    /\ (forall y, get_prev s' y = if decide (y = a) then Some v else get_prev s y).
Proof.
  intros [c Hc]%elem_of_dom. unfold set_prev. rewrite Hc, bind_Some. eexists. split; [done|].
  unfold get_next, get_prev. cbn. split; [done|].
  split; [by apply dom_insert_lookup_L; rewrite Hc|].
  split; intros y; destruct (decide (y = a)) as [->|];
    rewrite ?lookup_insert_eq, ?lookup_insert_ne, ?Hc by done; done.
Qed.

Lemma get_next_dom s a v : get_next s a = Some v -> a ∈ dom (links s).
Proof. unfold get_next. rewrite fmap_Some. intros (c & Hc & _). by apply elem_of_dom. Qed.

Lemma get_prev_dom s a v : get_prev s a = Some v -> a ∈ dom (links s).
Proof. unfold get_prev. rewrite fmap_Some. intros (c & Hc & _). by apply elem_of_dom. Qed.

Lemma last_default {A} (a b : A) l : default a (last (b :: l)) = default b (last l).
Proof. destruct l as [|x l]; [done|]. cbn [last]. by destruct (last (x :: l)) eqn:E; [|apply last_None in E]. Qed.

Lemma last_elem {A} (a : A) l : default a (last l) ∈ a :: l.
Proof.
  destruct (last l) as [x|] eqn:E; [|by left]. right. apply last_Some in E as [k ->].
  apply elem_of_app. right. by left.
Qed.

Lemma head_elem {A} (b : A) l : default b (head l) ∈ l ++ [b].
Proof. destruct l; by left. Qed.

(** Redirecting the end of a path. *)
Lemma seg_left s s' a l x x' :
  let p := default a (last l) in
  seg s a l x' -> NoDup (a :: l) ->
  (forall y, y ∈ a :: l -> y <> p -> get_next s' y = get_next s y) ->
  (forall y, y ∈ l -> get_prev s' y = get_prev s y) ->
  get_next s' p = Some x -> get_prev s' x = Some p ->
  seg s' a l x.
Proof.
  revert a. induction l as [|y l IH]; intros a p Hs Hnd Hn Hp Hpx Hxp; [done|].
  destruct Hs as (H1 & H2 & H3). apply NoDup_cons in Hnd as [Ha Hnd].
  assert (p = default y (last l)) as Hpl by apply last_default. clearbody p.
  assert (p ∈ y :: l) by (rewrite Hpl; apply last_elem).
  cbn. rewrite Hn, Hp by (by left || (intros ->; done)). split; [done|]. split; [done|].
  apply IH; [done | done | | | by rewrite <- Hpl..].
  - intros z Hz. rewrite <- Hpl. apply Hn. by right.
  - intros z Hz. apply Hp. by right.
Qed.

(** Redirecting the start of a path. *)
Lemma seg_right s s' a a' l b :
  let x := default b (head l) in
  seg s a' l b -> NoDup (l ++ [b]) ->
  (forall y, y ∈ l -> get_next s' y = get_next s y) ->
  (forall y, y ∈ l ++ [b] -> y <> x -> get_prev s' y = get_prev s y) ->
  get_next s' a = Some x -> get_prev s' x = Some a ->
  seg s' a l b.
Proof.
  destruct l as [|x l]; intros y Hs Hnd Hn Hp Hax Hxa; [done|].
  destruct Hs as (_ & _ & Hs). cbn in y, Hnd. apply NoDup_cons in Hnd as [Hx Hnd].
  split; [done|]. split; [done|]. apply (seg_ext s); [done | | done].
  intros z Hz. apply Hp; [by right|]. unfold y. intros ->. done.
Qed.

(** The links alone matter. *)
Lemma linked_links s s' h ids : links s' = links s -> linked s h ids -> linked s' h ids.
Proof.
  intros E [Hnd Hs]. split; [done|]. unfold get_next, get_prev in *.
  apply (seg_ext s); [..|done]; intros x _; unfold get_next, get_prev; by rewrite E.
Qed.

Lemma linked_first s h ids : linked s h ids -> get_next s h = Some (default h (head ids)).
Proof. intros [_ Hs]. apply (seg_ends _ _ _ _ Hs). Qed.

Lemma linked_dom s h ids x : linked s h ids -> x ∈ h :: ids -> x ∈ dom (links s).
Proof.
  intros [_ Hs] [->|Hx]%elem_of_cons.
  - apply seg_ends in Hs as [Hn _]. by eapply get_next_dom.
  - apply list_elem_of_split in Hx as (l1 & l2 & ->). apply seg_app in Hs as [_ Hs].
    apply seg_ends in Hs as [Hn _]. by eapply get_next_dom.
Qed.

Lemma seg_last s a l b : seg s a l b ->
  get_next s (default a (last l)) = Some b /\ get_prev s b = Some (default a (last l)).
Proof.
  revert a. induction l as [|x l IH]; intros a; [done|]. intros (_ & _ & Hs).
  rewrite last_default. by apply IH.
Qed.

(** The path on either side of a position of the circle. *)
Lemma linked_split s h l1 l2 :
  linked s h (l1 ++ l2) ->
  let x := default h (head l2) in
  seg s h l1 x /\ get_prev s x = Some (default h (last l1))
  /\ (exists a, seg s a l2 h) /\ x ∈ l2 ++ [h].
Proof.
  intros [_ Hs] x. assert (seg s h l1 x /\ exists a, seg s a l2 h) as [H1 H2].
  { destruct l2 as [|y l2]; cbn in x.
    - rewrite app_nil_r in Hs. split; [done|]. eexists. by apply (seg_last _ h l1).
    - apply seg_app in Hs as [Ha Hb]. split; [done|].
      apply seg_last in Ha as [Hn Hp]. by eexists. }
  split; [done|]. split; [apply (seg_ends _ _ _ _ H1)|]. split; [done|]. apply head_elem.
Qed.

Lemma NoDup_rot {A} (h : A) l1 l2 : NoDup (h :: l1 ++ l2) -> NoDup (h :: l1) /\ NoDup (l2 ++ [h]).
Proof.
  intros Hnd. split.
  - apply (NoDup_app (h :: l1) l2). by rewrite app_comm_cons in Hnd.
  - rewrite app_comm_cons in Hnd. apply NoDup_app in Hnd as (_ & Hd & Hnd2).
    apply NoDup_app. split; [done|]. split; [|by apply NoDup_singleton].
    intros x Hx ->%list_elem_of_singleton. apply (Hd h); [by left | done].
Qed.

(** Inserting an unlinked cell before a position. *)
Lemma list_add_tail_spec s h l1 l2 n :
  linked s h (l1 ++ l2) -> n ∉ h :: l1 ++ l2 -> n ∈ dom (links s) ->
  exists s', list_add_tail s n (default h (head l2)) = Some s' /\ linked s' h (l1 ++ n :: l2)
    /\ events s' = events s /\ dom (links s') = dom (links s).
Proof.
  intros Hl Hn Hd. pose proof (linked_split _ _ _ _ Hl) as (H1 & Hpx & (a & H2) & Hx).
  set (x := default h (head l2)) in *. set (p := default h (last l1)) in *.
  destruct Hl as [Hnd Hs]. assert (forall y, y ∈ h :: l1 ++ l2 -> y <> n) as Hne by (intros y Hy ->; done).
  assert (p ∈ h :: l1) as Hp by apply last_elem.
  assert (p <> n) as Hpn by (apply Hne; rewrite app_comm_cons; apply elem_of_app; by left).
  assert (x <> n) as Hxn.
  { apply Hne. apply elem_of_app in Hx as [Hx| ->%list_elem_of_singleton]; [|by left].
    right. apply elem_of_app. by right. }
  unfold list_add_tail. rewrite Hpx, bind_Some. unfold _list_add.
  destruct (set_prev_spec s x n) as (s1 & -> & E1 & D1 & N1 & P1); [by eapply get_prev_dom|].
  destruct (set_next_spec s1 n x) as (s2 & H & E2 & D2 & N2 & P2); [by rewrite D1|].
  rewrite bind_Some, H, bind_Some. clear H.
  destruct (set_prev_spec s2 n p) as (s3 & -> & E3 & D3 & N3 & P3); [by rewrite D2, D1|].
  rewrite bind_Some. destruct (set_next_spec s3 p n) as (s4 & -> & E4 & D4 & N4 & P4).
  { rewrite D3, D2, D1. eapply (linked_dom _ h (l1 ++ l2)); [done|].
    rewrite app_comm_cons. apply elem_of_app. by left. }
  assert (forall y, get_next s4 y
    = if decide (y = p) then Some n else if decide (y = n) then Some x else get_next s y) as HN.
  { intros y. by rewrite N4, N3, N2, N1. }
  assert (forall y, get_prev s4 y
    = if decide (y = n) then Some p else if decide (y = x) then Some n else get_prev s y) as HP.
  { intros y. by rewrite P4, P3, P2, P1. }
  destruct (NoDup_rot _ _ _ Hnd) as [Hnd1 Hnd2].
  exists s4. split; [done|]. split; [|split; [congruence|by rewrite D4, D3, D2, D1]]. split.
  - rewrite app_comm_cons in *. rewrite <- Permutation_middle. by apply NoDup_cons.
  - apply seg_app. split.
    + apply (seg_left s _ _ _ _ x); fold p; [done | done | | | |].
      * intros y Hy Hyp. rewrite HN, decide_False by done. apply decide_False, Hne.
        rewrite app_comm_cons. apply elem_of_app. by left.
      * intros y Hy. assert (y ∈ l1 ++ l2) as Hy' by (apply elem_of_app; by left).
        rewrite HP, decide_False by (apply Hne; by right). apply decide_False. intros ->.
        apply elem_of_app in Hx as [Hx|Hx].
        -- apply NoDup_cons in Hnd as [_ (_ & Hnd & _)%NoDup_app]. by apply (Hnd x).
        -- apply list_elem_of_singleton in Hx. rewrite Hx in Hy. by apply NoDup_cons in Hnd1 as [? _].
      * rewrite HN. by apply decide_True.
      * rewrite HP. by apply decide_True.
    + apply (seg_right s _ _ a); fold x; [done | done | | | |].
      * intros y Hy. rewrite HN, decide_False.
        -- apply decide_False, Hne. right. apply elem_of_app. by right.
        -- intros ->. rewrite app_comm_cons in Hnd. apply NoDup_app in Hnd as (_ & Hnd & _).
           by apply (Hnd p).
      * intros y Hy Hyx. rewrite HP, decide_False; [by apply decide_False|].
        apply Hne. apply elem_of_app in Hy as [Hy| ->%list_elem_of_singleton]; [|by left].
        right. apply elem_of_app. by right.
      * rewrite HN, decide_False by done. by apply decide_True.
      * rewrite HP, decide_False by done. by apply decide_True.
Qed.

(** Unlinking a cell. *)
Lemma list_del_spec s h l1 l2 n :
  linked s h (l1 ++ n :: l2) ->
  exists s', list_del s n = Some s' /\ linked s' h (l1 ++ l2)
    /\ events s' = events s /\ dom (links s') = dom (links s)
    /\ get_next s' n = Some 0 /\ get_prev s' n = Some 0.
Proof.
  intros Hl. pose proof (linked_split _ _ _ _ Hl) as (H1 & Hpn & _ & _). cbn in H1, Hpn.
  set (p := default h (last l1)) in *. pose proof Hl as [Hnd Hs].
  apply seg_app in Hs as [_ H2]. set (x := default h (head l2)).
  assert (get_next s n = Some x) as Hnn by apply (seg_ends _ _ _ _ H2).
  assert (NoDup (n :: h :: l1 ++ l2)) as Hnd'.
  { by rewrite (Permutation_middle (h :: l1) l2 n). }
  apply NoDup_cons in Hnd' as [Hn Hnd'].
  assert (forall y, y ∈ h :: l1 ++ l2 -> y <> n) as Hne by (intros y Hy ->; done).
  assert (p ∈ h :: l1) as Hp by apply last_elem. assert (x ∈ l2 ++ [h]) as Hx by apply head_elem.
  assert (p <> n) as Hpn' by (apply Hne; rewrite app_comm_cons; apply elem_of_app; by left).
  assert (x <> n) as Hxn.
  { apply Hne. apply elem_of_app in Hx as [Hx| ->%list_elem_of_singleton]; [|by left].
    right. apply elem_of_app. by right. }
  assert (x ∈ dom (links s) /\ p ∈ dom (links s) /\ n ∈ dom (links s)) as (Dx & Dp & Dn).
  { split; [|split; [|by eapply get_prev_dom]]; apply (linked_dom s h (l1 ++ n :: l2)); try done.
    - apply elem_of_app in Hx as [Hx| ->%list_elem_of_singleton]; [|by left].
      right. apply elem_of_app. right. by right.
    - rewrite app_comm_cons. apply elem_of_app. by left. }
  unfold list_del, _list_del. rewrite Hnn, Hpn, !bind_Some.
  destruct (set_prev_spec s x p) as (s1 & -> & E1 & D1 & N1 & P1); [done|].
  rewrite bind_Some, N1, P1, Hnn, decide_False, Hpn, !bind_Some by done.
  destruct (set_next_spec s1 p x) as (s2 & -> & E2 & D2 & N2 & P2); [by rewrite D1|].
  rewrite bind_Some.
  destruct (set_prev_spec s2 n 0) as (s3 & -> & E3 & D3 & N3 & P3); [by rewrite D2, D1|].
  rewrite bind_Some.
  destruct (set_next_spec s3 n 0) as (s4 & -> & E4 & D4 & N4 & P4); [by rewrite D3, D2, D1|].
  assert (forall y, get_next s4 y
    = if decide (y = n) then Some 0 else if decide (y = p) then Some x else get_next s y) as HN.
  { intros y. by rewrite N4, N3, N2, N1. }
  assert (forall y, get_prev s4 y
    = if decide (y = n) then Some 0 else if decide (y = x) then Some p else get_prev s y) as HP.
  { intros y. by rewrite P4, P3, P2, P1. }
  destruct (NoDup_rot _ _ _ Hnd') as [Hnd1 Hnd2].
  exists s4. split; [done|]. split.
  2: { split; [congruence|]. split; [by rewrite D4, D3, D2, D1|]. rewrite HN, HP. by rewrite !decide_True. }
  split; [done|].
  assert (seg s4 h l1 x) as Hleft.
  { apply (seg_left s _ _ _ _ n); fold p; [done | done | | | |].
    - intros y Hy Hyp. rewrite HN, decide_False; [by apply decide_False|]. apply Hne.
      rewrite app_comm_cons. apply elem_of_app. by left.
    - intros y Hy. rewrite HP, decide_False; [apply decide_False|].
      + intros ->. apply elem_of_app in Hx as [Hx|Hx].
        * apply NoDup_cons in Hnd' as [_ (_ & Hd & _)%NoDup_app]. by apply (Hd x).
        * apply list_elem_of_singleton in Hx. rewrite Hx in Hy. by apply NoDup_cons in Hnd1 as [? _].
      + apply Hne. right. apply elem_of_app. by left.
    - rewrite HN, decide_False by done. by apply decide_True.
    - rewrite HP, decide_False by done. by apply decide_True. }
  destruct l2 as [|y l2]; cbn in x; [by rewrite app_nil_r|].
  apply seg_app. split; [done|]. destruct H2 as (_ & _ & H2). cbn in Hnd2.
  apply NoDup_cons in Hnd2 as [Hy Hnd2]. apply (seg_ext s); [| |done].
  - intros z Hz. rewrite HN, decide_False; [apply decide_False|].
    + intros ->. rewrite app_comm_cons in Hnd'. apply NoDup_app in Hnd' as (_ & Hd & _).
      by apply (Hd p).
    + apply Hne. right. apply elem_of_app. by right.
  - intros z Hz. rewrite HP, decide_False; [apply decide_False|].
    + unfold x. intros ->. done.
    + apply Hne. apply elem_of_app in Hz as [Hz| ->%list_elem_of_singleton]; [|by left].
      right. apply elem_of_app. right. by right.
Qed.

(** ** Time arithmetic *)

(** The instant of a [timeval], in microseconds. *)
Definition time_us (t : timeval) : Z := tv_sec t * 1000000 + tv_usec t.

(** Within eleven days of [base], so that no difference in milliseconds leaves [int]. *)
Definition time_ok (base : Z) (t : timeval) : Prop :=
  base - 1000000 <= tv_sec t <= base + 1000000 /\ -1000000 <= tv_usec t <= 2000000.

Lemma to_int_id x : -2147483648 <= x < 2147483648 -> to_int x = x.
Proof. intros. unfold to_int. zlia. Qed.

(** [tv_diff] is the difference in milliseconds, off by less than one. *)
Lemma tv_diff_spec base a b :
  time_ok base a -> time_ok base b ->
  -1000 < time_us a - time_us b - 1000 * tv_diff a b < 1000.
Proof.
  intros [Ha Hau] [Hb Hbu]. unfold tv_diff, time_us.
  assert (-1000 < tv_usec a - tv_usec b - 1000 * Z.quot (tv_usec a - tv_usec b) 1000 < 1000) by zlia.
  rewrite to_int_id by lia. lia.
Qed.

Lemma deadline_us now msecs : time_us (deadline now msecs) = time_us now + msecs * 1000.
Proof.
  unfold deadline, time_us. pose proof (Z.quot_rem' msecs 1000).
  case_if; cbn [tv_sec tv_usec]; lia.
Qed.

(** ** Invariant *)

Definition etime (s : store) (ev : Z) : timeval :=
  match events s !! ev with Some e => ev_time e | None => mkTv 0 0 end.

(** Earlier on the list means at most 999 microseconds later. *)
Definition before (s : store) (a b : Z) : Prop :=
  time_us (etime s a) <= time_us (etime s b) + 999.

Definition timers_wf (base : Z) (s : store) (h : Z) (ids : list Z) : Prop :=
  linked s h ids /\ h <> 0 /\ events s !! h = None
  /\ (forall ev e, events s !! ev = Some e ->
        ev ∈ dom (links s) /\ (ev_pending e = true <-> ev ∈ ids))
  /\ (forall ev, ev ∈ ids -> is_Some (events s !! ev) /\ time_ok base (etime s ev))
  /\ StronglySorted (before s) ids.

Lemma etime_Some s ev e : events s !! ev = Some e -> etime s ev = ev_time e.
Proof. unfold etime. by intros ->. Qed.

Lemma sorted_insert {A} (R : A -> A -> Prop) l1 x l2 :
  StronglySorted R (l1 ++ l2) -> (forall y, y ∈ l1 -> R y x) -> (forall y, y ∈ l2 -> R x y) ->
  StronglySorted R (l1 ++ x :: l2).
Proof.
  intros Hs H1 H2. induction l1 as [|y l1 IH]; cbn in *.
  - constructor; [done|]. by apply Forall_forall.
  - apply StronglySorted_inv in Hs as [Hs Hy]. constructor.
    + apply IH; [done|]. intros z Hz. apply H1. by right.
    + apply Forall_app in Hy as [Hy1 Hy2]. apply Forall_app_2; [done|].
      constructor; [|done]. apply H1. by left.
Qed.

Lemma sorted_delete {A} (R : A -> A -> Prop) l1 x l2 :
  StronglySorted R (l1 ++ x :: l2) -> StronglySorted R (l1 ++ l2).
Proof.
  induction l1 as [|y l1 IH]; cbn; intros Hs; apply StronglySorted_inv in Hs as [Hs Hy]; [done|].
  constructor; [by apply IH|]. apply Forall_app in Hy as [Hy1 Hy2].
  apply Forall_app_2; [done|]. by inversion Hy2.
Qed.

Lemma sorted_ext s s' ids :
  (forall x, x ∈ ids -> etime s' x = etime s x) ->
  StronglySorted (before s) ids -> StronglySorted (before s') ids.
Proof.
  intros He Hs. induction Hs as [|x ids Hs IH Hx]; constructor.
  - apply IH. intros y Hy. apply He. by right.
  - apply Forall_forall. intros y Hy. rewrite Forall_forall in Hx. specialize (Hx y Hy).
    unfold before in *. rewrite !He by (by left || by right). done.
Qed.

Lemma ids_length s h ids : linked s h ids -> (length ids < size (links s))%nat.
Proof.
  intros Hl. pose proof Hl as [Hnd _]. rewrite <- size_dom.
  assert (length (h :: ids) <= size (dom (links s)))%nat; [|cbn in *; lia].
  rewrite <- (size_list_to_set (C := gset Z)) by done. apply subseteq_size.
  intros x Hx%elem_of_list_to_set. by eapply linked_dom.
Qed.

(** ** Operations *)

(** Where the scan stops. *)
Lemma find_later_spec base s h ids l1 l2 t fuel :
  timers_wf base s h ids -> ids = l1 ++ l2 -> (length l2 < fuel)%nat ->
  exists l2a l2b, l2 = l2a ++ l2b
    /\ find_later fuel s h t (default h (head l2)) = Some (default h (head l2b))
    /\ (forall x, x ∈ l2a -> tv_diff (etime s x) t <= 0)
    /\ (forall x, head l2b = Some x -> tv_diff (etime s x) t > 0).
Proof.
  intros Hwf. revert l1 l2. induction fuel as [|fuel IH]; intros l1 l2 E Hf; [lia|].
  pose proof Hwf as ([Hnd Hs] & _ & _ & _ & Hin & _). cbn [find_later].
  destruct l2 as [|x l2]; cbn [head default from_option id].
  { exists [], []. rewrite Z.eqb_refl. split; [done|]. split; [done|].
    split; [by intros x ?%not_elem_of_nil | done]. }
  assert (x <> h) as Hxh.
  { intros ->. apply NoDup_cons in Hnd as [Hh _]. apply Hh. rewrite E. apply elem_of_app. right. by left. }
  zfalse (x =? h). destruct (Hin x) as [[e He] _].
  { rewrite E. apply elem_of_app. right. by left. }
  rewrite He, bind_Some, <- (etime_Some _ _ _ He). rewrite Z.gtb_ltb.
  destruct (Z.ltb_spec 0 (tv_diff (etime s x) t)) as [Hd|Hd].
  { exists [], (x :: l2). split; [done|]. split; [done|].
    split; [by intros y ?%not_elem_of_nil|]. intros y [= <-]. lia. }
  assert (get_next s x = Some (default h (head l2))) as ->.
  { rewrite E in Hs. apply seg_app in Hs as [_ Hs]. by apply seg_ends in Hs as [? _]. }
  rewrite bind_Some. destruct (IH (l1 ++ [x]) l2) as (l2a & l2b & -> & -> & Ha & Hb).
  { by rewrite <- app_assoc. }
  { cbn in Hf. lia. }
  exists (x :: l2a), l2b. split; [done|]. split; [done|]. split; [|done].
  intros y [->|Hy]%elem_of_cons; [done | auto].
Qed.

Lemma add_spec base s h ids ev e :
  timers_wf base s h ids -> events s !! ev = Some e -> ev_pending e = false ->
  time_ok base (ev_time e) ->
  exists l1 l2 s', ids = l1 ++ l2 /\ event_timeout_add s h ev = Some (0, s')
    /\ timers_wf base s' h (l1 ++ ev :: l2)
    /\ events s' = <[ev := mkEv true (ev_cb e) (ev_time e)]> (events s)
    /\ (forall x, x ∈ l1 -> tv_diff (etime s x) (ev_time e) <= 0)
    /\ (forall x, head l2 = Some x -> tv_diff (etime s x) (ev_time e) > 0).
Proof.
  intros Hwf He Hpend Htime. pose proof Hwf as (Hl & Hh0 & Hh & Hdom & Hin & Hso).
  destruct (Hdom ev e He) as [Hed Hmem].
  assert (ev ∉ ids) as Hev by (intros ?%Hmem; congruence).
  assert (ev <> h) as Hevh by congruence.
  destruct (find_later_spec base s h ids [] ids (ev_time e) (S (size (links s))))
    as (l1 & l2 & E & Hfind & H1 & H2); [done | done | pose proof (ids_length s h ids Hl); lia |].
  unfold event_timeout_add. rewrite He, bind_Some, Hpend.
  rewrite (linked_first s h ids Hl), bind_Some, Hfind, bind_Some. rewrite E in Hl, Hev.
  destruct (list_add_tail_spec s h l1 l2 ev Hl) as (s1 & -> & Hl1 & E1 & D1);
    [by intros [|]%elem_of_cons | done |].
  rewrite bind_Some. unfold set_pending. rewrite E1, He, !bind_Some.
  exists l1, l2. eexists. split; [done|]. split; [done|].
  split; [|split; [by cbn; rewrite E1 | done]].
  set (s' := set_event _ _ _).
  assert (forall x, etime s' x = etime s x) as Het.
  { intros x. unfold etime, s'. cbn. rewrite E1. destruct (decide (x = ev)) as [->|].
    - by rewrite lookup_insert_eq, He.
    - by rewrite lookup_insert_ne. }
  assert (forall x e', events s' !! x = Some e' -> x <> ev -> events s !! x = Some e') as Hother.
  { intros x e' Hx Hne. unfold s' in Hx. cbn in Hx. by rewrite lookup_insert_ne, E1 in Hx. }
  split; [by apply (linked_links s1)|]. split; [done|].
  split; [unfold s'; cbn; by rewrite lookup_insert_ne, E1|].
  split; [|split].
  - intros x e' Hx. change (links s') with (links s1). rewrite D1, <- Permutation_middle, elem_of_cons.
    destruct (decide (x = ev)) as [->|Hne].
    + split; [done|]. unfold s' in Hx. cbn in Hx. rewrite lookup_insert_eq in Hx.
      injection Hx as <-. cbn. tauto.
    + destruct (Hdom x e') as [Hxd Hxm]; [by apply Hother|]. split; [done|].
      rewrite Hxm, E. split; [by right | by intros [->|]].
  - intros x. rewrite <- Permutation_middle, elem_of_cons, Het. intros [->|Hx].
    + split; [unfold s'; cbn; by rewrite lookup_insert_eq|]. by rewrite (etime_Some _ _ _ He).
    + rewrite <- E in Hx. destruct (Hin x Hx) as [[e' He'] Ht]. split; [|done].
      unfold s'. cbn. rewrite lookup_insert_ne, E1 by (intros ->; by rewrite E in Hx).
      by eexists.
  - apply (sorted_ext s); [done|]. rewrite E in Hso, Hin. apply sorted_insert; [done | |].
    + intros y Hy. unfold before. rewrite (etime_Some _ _ _ He). specialize (H1 y Hy).
      destruct (Hin y) as [_ Hty]; [apply elem_of_app; by left|].
      pose proof (tv_diff_spec base _ _ Hty Htime). lia.
    + intros y Hy. unfold before. rewrite (etime_Some _ _ _ He). destruct l2 as [|x l2]; [by apply not_elem_of_nil in Hy|].
      specialize (H2 x eq_refl). destruct (Hin x) as [_ Htx]; [apply elem_of_app; right; by left|].
      pose proof (tv_diff_spec base _ _ Htx Htime).
      apply elem_of_cons in Hy as [->|Hy]; [lia|].
      assert (before s x y) as Hxy; [|unfold before in Hxy; lia].
      apply StronglySorted_app in Hso as (_ & _ & Hso). apply StronglySorted_inv in Hso as [_ Hso].
      rewrite Forall_forall in Hso. by apply Hso.
Qed.

Lemma cancel_spec base s h ids ev e :
  timers_wf base s h ids -> events s !! ev = Some e -> ev_pending e = true ->
  exists l1 l2 s', ids = l1 ++ ev :: l2 /\ event_timeout_cancel s ev = Some (0, s')
    /\ timers_wf base s' h (l1 ++ l2)
    /\ events s' = <[ev := mkEv false (ev_cb e) (ev_time e)]> (events s)
    /\ get_next s' ev = Some 0 /\ get_prev s' ev = Some 0.
Proof.
  intros Hwf He Hpend. pose proof Hwf as (Hl & Hh0 & Hh & Hdom & Hin & Hso).
  destruct (Hdom ev e He) as [Hed [Hmem _]]. specialize (Hmem Hpend).
  apply list_elem_of_split in Hmem as (l1 & l2 & E). rewrite E in Hl, Hso.
  destruct (list_del_spec s h l1 l2 ev Hl) as (s1 & Hdel & Hl1 & E1 & D1 & N1 & P1).
  unfold event_timeout_cancel. rewrite He, bind_Some, Hpend. cbn [negb].
  rewrite Hdel, bind_Some. unfold set_pending. rewrite E1, He, !bind_Some.
  exists l1, l2. eexists. split; [done|]. split; [done|]. set (s' := set_event _ _ _).
  assert (forall x, etime s' x = etime s x) as Het.
  { intros x. unfold etime, s'. cbn. rewrite E1. destruct (decide (x = ev)) as [->|].
    - by rewrite lookup_insert_eq, He.
    - by rewrite lookup_insert_ne. }
  assert (ev ∉ h :: l1 ++ l2) as Hev.
  { destruct Hl as [Hnd _]. rewrite app_comm_cons, <- Permutation_middle in Hnd.
    by apply NoDup_cons in Hnd as [? _]. }
  split; [|split; [by unfold s'; cbn; rewrite E1 | done]].
  split; [by apply (linked_links s1)|]. split; [done|].
  split; [unfold s'; cbn; rewrite lookup_insert_ne, E1; [done|congruence]|].
  split; [|split].
  - intros x e' Hx. change (links s') with (links s1). rewrite D1.
    unfold s' in Hx. cbn in Hx. destruct (decide (x = ev)) as [->|Hne].
    + split; [done|]. rewrite lookup_insert_eq in Hx. injection Hx as <-. cbn.
      split; [done|]. intros Hx. destruct Hev. by right.
    + rewrite lookup_insert_ne, E1 in Hx by done. destruct (Hdom x e' Hx) as [Hxd ->].
      split; [done|]. rewrite E, <- Permutation_middle, elem_of_cons.
      split; [by intros [->|] | by right].
  - intros x Hx. rewrite Het. assert (x <> ev) by (intros ->; destruct Hev; by right).
    destruct (Hin x) as [[e' He'] Ht].
    { rewrite E, <- Permutation_middle. by right. }
    split; [|done]. unfold s'. cbn. rewrite lookup_insert_ne, E1 by done. by eexists.
  - apply (sorted_ext s); [done|]. by eapply sorted_delete.
Qed.

(** Changing the time of a timer that is not on the list. *)
Lemma set_time_wf base s h ids ev e t :
  timers_wf base s h ids -> events s !! ev = Some e -> ev_pending e = false ->
  timers_wf base (set_event s ev (mkEv false (ev_cb e) t)) h ids.
Proof.
  intros (Hl & Hh0 & Hh & Hdom & Hin & Hso) He Hpend. set (s' := set_event _ _ _).
  destruct (Hdom ev e He) as [Hed Hmem].
  assert (ev ∉ ids) as Hev by (intros ?%Hmem; congruence).
  assert (forall x, x <> ev -> events s' !! x = events s !! x) as Hx.
  { intros x Hx. unfold s'. cbn. by rewrite lookup_insert_ne. }
  assert (forall x, x ∈ ids -> etime s' x = etime s x) as Het.
  { intros x Hxi. unfold etime. by rewrite Hx by congruence. }
  split; [by apply (linked_links s)|]. split; [done|]. split; [rewrite Hx; congruence|].
  split; [|split].
  - intros x e' Hxe. destruct (decide (x = ev)) as [->|Hne]; [|rewrite Hx in Hxe by done; by apply Hdom].
    split; [done|]. unfold s' in Hxe. cbn in Hxe. rewrite lookup_insert_eq in Hxe.
    injection Hxe as <-. cbn. split; [done | intros ?; done].
  - intros x Hxi. rewrite Het, Hx by congruence. by apply Hin.
  - by apply (sorted_ext s).
Qed.

Lemma set_spec base now s h ids ev e msecs :
  timers_wf base s h ids -> events s !! ev = Some e -> time_ok base (deadline now msecs) ->
  exists l1 l2 s', event_timeout_set now s h ev msecs = Some (0, s')
    /\ timers_wf base s' h (l1 ++ ev :: l2)
    /\ (ev ∉ l1 ++ l2) /\ (forall x, x <> ev -> x ∈ l1 ++ l2 <-> x ∈ ids)
    /\ events s' = <[ev := mkEv true (ev_cb e) (deadline now msecs)]> (events s).
Proof.
  intros Hwf He Ht. unfold event_timeout_set. rewrite He, bind_Some.
  assert (exists s1 ids1 e1, (if ev_pending e
      then ('(_, s) ← event_timeout_cancel s ev; Some s) else Some s) = Some s1
    /\ timers_wf base s1 h ids1 /\ events s1 !! ev = Some e1 /\ ev_pending e1 = false
    /\ ev_cb e1 = ev_cb e /\ (forall x, x <> ev -> x ∈ ids1 <-> x ∈ ids)
    /\ (forall v, <[ev := v]> (events s1) = <[ev := v]> (events s)))
    as (s1 & ids1 & e1 & -> & Hwf1 & He1 & Hp1 & Hcb & Hids & Hev1).
  { destruct (ev_pending e) eqn:Hp.
    - destruct (cancel_spec base s h ids ev e Hwf He Hp) as (l1 & l2 & s1 & E & -> & Hwf1 & E1 & _).
      rewrite bind_Some. exists s1, (l1 ++ l2), (mkEv false (ev_cb e) (ev_time e)).
      split; [done|]. split; [done|]. rewrite E1. split; [by rewrite lookup_insert_eq|].
      split; [done|]. split; [done|]. split.
      + intros x Hx. rewrite E, <- Permutation_middle, elem_of_cons. split; [by right | by intros [->|]].
      + intros v. by rewrite insert_insert_eq.
    - by exists s, ids, e. }
  rewrite bind_Some, He1, bind_Some, Hp1, Hcb.
  pose proof (set_time_wf base s1 h ids1 ev e1 (deadline now msecs) Hwf1 He1 Hp1) as Hwf2.
  rewrite Hcb in Hwf2. set (s2 := set_event _ _ _) in *.
  destruct (add_spec base s2 h ids1 ev (mkEv false (ev_cb e) (deadline now msecs)))
    as (l1 & l2 & s' & E & -> & Hwf' & E' & _); [done | by unfold s2; cbn; rewrite lookup_insert_eq | done | done |].
  exists l1, l2, s'. split; [done|]. split; [done|]. split.
  { destruct Hwf' as ([Hnd _] & _). rewrite app_comm_cons, <- Permutation_middle in Hnd.
    apply NoDup_cons in Hnd as [Hnd _]. intros ?. apply Hnd. by right. }
  split; [intros x Hx; rewrite <- E; by apply Hids|].
  rewrite E'. unfold s2. cbn. rewrite insert_insert_eq. apply Hev1.
Qed.

(** ** Processing *)

Definition expired (s : store) (tv : timeval) (ev : Z) : Prop := tv_diff (etime s ev) tv <= 0.

(** The callback pointer of a timer. *)
Definition ecb (s : store) (ev : Z) : Z :=
  match events s !! ev with Some e => ev_cb e | None => 0 end.

(** The loop against callbacks that leave the timers alone. *)
Lemma process_spec {W} (act : Z -> Z -> W -> W) run_cb base tv fuel s w h ids :
  (forall cb t s w, run_cb cb t (s, w) = Some (s, act cb t w)) ->
  timers_wf base s h ids -> (length ids < fuel)%nat ->
  exists fired rest s', ids = fired ++ rest
    /\ event_process_timeouts run_cb fuel (s, w) h tv
       = Some (s', fold_left (fun w ev => if ecb s ev =? 0 then w else act (ecb s ev) ev w) fired w)
    /\ timers_wf base s' h rest
    /\ Forall (expired s tv) fired /\ (forall x, head rest = Some x -> ~ expired s tv x)
    /\ (forall x, etime s' x = etime s x).
Proof.
  intros Hcb. revert s w ids. induction fuel as [|fuel IH]; intros s w ids Hwf Hf; [lia|].
  pose proof Hwf as (Hl & Hh0 & Hh & Hdom & Hin & Hso). cbn [event_process_timeouts fst].
  zfalse (h =? 0). unfold list_empty. rewrite (linked_first s h ids Hl), !bind_Some.
  destruct ids as [|x ids]; cbn [head default from_option id].
  { exists [], [], s. rewrite Z.eqb_refl. split; [done|]. split; [done|]. split; [done|].
    split; [constructor|]. done. }
  assert (x <> h) as Hxh.
  { intros ->. destruct Hl as [Hnd _]. apply NoDup_cons in Hnd as [Hnd _]. apply Hnd. by left. }
  zfalse (x =? h). destruct (Hin x) as [[e He] _]; [by left|].
  rewrite He, bind_Some, <- (etime_Some _ _ _ He), Z.gtb_ltb.
  destruct (Z.ltb_spec 0 (tv_diff (etime s x) tv)) as [Hd|Hd].
  { exists [], (x :: ids), s. split; [done|]. split; [done|]. split; [done|].
    split; [constructor|]. split; [|done]. intros y [= <-]. unfold expired. lia. }
  destruct (Hdom x e He) as [_ [_ Hp]]. specialize (Hp ltac:(by left)).
  destruct (cancel_spec base s h (x :: ids) x e Hwf He Hp)
    as (l1 & l2 & s1 & E & -> & Hwf1 & E1 & _).
  assert (l1 ++ l2 = ids) as Hids.
  { destruct l1 as [|y l1]; [by injection E|]. injection E as -> ->.
    destruct Hl as [Hnd _]. apply NoDup_cons in Hnd as [_ Hnd]. apply NoDup_cons in Hnd as [Hnd _].
    destruct Hnd. apply elem_of_app. right. by left. }
  rewrite Hids in Hwf1. rewrite bind_Some, E1, lookup_insert_eq, bind_Some.
  cbn [ev_cb snd]. assert (ecb s x = ev_cb e) as Hecb by (unfold ecb; by rewrite He).
  assert (forall y, etime s1 y = etime s y /\ ecb s1 y = ecb s y) as Hsame.
  { intros y. unfold etime, ecb. rewrite E1. destruct (decide (y = x)) as [->|].
    - by rewrite lookup_insert_eq, He.
    - by rewrite lookup_insert_ne. }
  set (w1 := if ev_cb e =? 0 then w else act (ev_cb e) x w).
  replace (if ev_cb e =? 0 then Some (s1, w) else run_cb (ev_cb e) x (s1, w)) with (Some (s1, w1)).
  2: { unfold w1. rewrite Hcb. by case_if. }
  rewrite bind_Some. destruct (IH s1 w1 ids Hwf1) as (fired & rest & s' & -> & Hrun & Hwf' & Hfired & Hrest & Ht).
  { cbn in Hf. lia. }
  exists (x :: fired), rest, s'. split; [done|]. split; [|split; [done|split; [|split]]].
  - rewrite Hrun. do 2 f_equal. cbn [fold_left]. rewrite Hecb. fold w1.
    apply fold_left_ext. intros v y. by rewrite (proj2 (Hsame y)).
  - constructor; [done|]. apply (Forall_impl _ _ _ Hfired). intros y. unfold expired. by rewrite (proj1 (Hsame y)).
  - intros y Hy. unfold expired. rewrite <- (proj1 (Hsame y)). by apply Hrest.
  - intros y. rewrite Ht. apply Hsame.
Qed.

(** ** Properties *)

(** arming a timer, whether or not it is pending, puts it on the list exactly
    once with the clock reading plus [msecs] milliseconds as its expiry, keeps
    every other timer, and keeps the list doubly linked and in order of expiry up
    to the millisecond that [tv_diff] resolves; adding a pending timer is refused
    without effect. *)
Theorem event_timeout_set_arms base now s h ids ev e msecs :
  timers_wf base s h ids -> events s !! ev = Some e -> time_ok base (deadline now msecs) ->
  (exists ids' s', event_timeout_set now s h ev msecs = Some (0, s')
    /\ timers_wf base s' h ids'
    /\ (forall x, x ∈ ids' <-> x = ev \/ x ∈ ids)
    /\ time_us (etime s' ev) = time_us now + msecs * 1000
    /\ (forall x, x <> ev -> events s' !! x = events s !! x))
  /\ (ev_pending e = true -> event_timeout_add s h ev = Some (-1, s)).
Proof.
  intros Hwf He Ht. split.
  - destruct (set_spec base now s h ids ev e msecs Hwf He Ht)
      as (l1 & l2 & s' & Hset & Hwf' & _ & Hids & E').
    exists (l1 ++ ev :: l2), s'. split; [done|]. split; [done|]. split; [|split].
    + intros x. rewrite <- Permutation_middle, elem_of_cons. destruct (decide (x = ev)) as [->|Hx].
      * split; by left.
      * by rewrite Hids.
    + unfold etime. rewrite E', lookup_insert_eq. apply deadline_us.
    + intros x Hx. by rewrite E', lookup_insert_ne.
  - intros Hp. unfold event_timeout_add. by rewrite He, bind_Some, Hp.
Qed.

(** A list head at 100 and two pending timers, at 1 and 2. *)
Definition sample_timers : store :=
  mkStore
    (list_to_map [(100, mkLh 1 2); (1, mkLh 2 100); (2, mkLh 100 1); (3, mkLh 0 0)])
    (list_to_map [(1, mkEv true 11 (mkTv 50 400)); (2, mkEv true 0 (mkTv 50 999000));
                  (3, mkEv false 13 (mkTv 0 0))]).

Lemma sample_timers_wf : timers_wf 50 sample_timers 100 [1; 2].
Proof.
  assert (map_Forall (fun ev e => ev ∈ dom (links sample_timers) /\
    (ev_pending e = true -> ev ∈ [1; 2]) /\ (ev ∈ [1; 2] -> ev_pending e = true))
    (events sample_timers)) as Hev by (apply (bool_decide_unpack _); vm_compute; exact I).
  split; [|split; [done|split; [reflexivity|split; [|split]]]].
  - split; [apply (bool_decide_unpack _); vm_compute; exact I | vm_compute; done].
  - intros ev e He. destruct (Hev ev e He) as (H1 & H2 & H3). done.
  - intros ev [->|[->|[]%not_elem_of_nil]%elem_of_cons]%elem_of_cons;
      (split; [vm_compute; eauto|]); unfold time_ok.
    + change (etime sample_timers 1) with (mkTv 50 400). cbn. lia.
    + change (etime sample_timers 2) with (mkTv 50 999000). cbn. lia.
  - constructor; [constructor; constructor|]. constructor; [|constructor]. vm_compute. discriminate.
Qed.

Lemma event_timeout_set_arms_witness :
  (exists ids' s', event_timeout_set (mkTv 49 990000) sample_timers 100 3 510 = Some (0, s')
    /\ timers_wf 50 s' 100 ids' /\ (forall x, x ∈ ids' <-> x = 3 \/ x ∈ [1; 2])
    /\ time_us (etime s' 3) = 50500000
    /\ (forall x, x <> 3 -> events s' !! x = events sample_timers !! x)).
Proof.
  apply (event_timeout_set_arms 50 (mkTv 49 990000) sample_timers 100 [1; 2] 3
           (mkEv false 13 (mkTv 0 0)) 510 sample_timers_wf); [reflexivity|].
  change (deadline (mkTv 49 990000) 510) with (mkTv 50 500000). unfold time_ok; cbn; lia.
Defined.

(** Cancelling a pending timer unlinks exactly it, clears its links and flag
    and leaves the other timers armed in their order; cancelling one that is not
    pending is refused without effect. *)
Theorem event_timeout_cancel_unlinks base s h ids ev e :
  timers_wf base s h ids -> events s !! ev = Some e ->
  if ev_pending e
  then exists l1 l2 s', ids = l1 ++ ev :: l2 /\ event_timeout_cancel s ev = Some (0, s')
         /\ timers_wf base s' h (l1 ++ l2)
         /\ get_next s' ev = Some 0 /\ get_prev s' ev = Some 0
         /\ events s' = <[ev := mkEv false (ev_cb e) (ev_time e)]> (events s)
  else event_timeout_cancel s ev = Some (-1, s).
Proof.
  intros Hwf He. destruct (ev_pending e) eqn:Hp.
  - destruct (cancel_spec base s h ids ev e Hwf He Hp)
      as (l1 & l2 & s' & E & Hc & Hwf' & E' & Hn & Hpr).
    by exists l1, l2, s'.
  - unfold event_timeout_cancel. by rewrite He, bind_Some, Hp.
Qed.

Lemma event_timeout_cancel_unlinks_witness :
  exists l1 l2 s', [1; 2] = l1 ++ 1 :: l2 /\ event_timeout_cancel sample_timers 1 = Some (0, s')
    /\ timers_wf 50 s' 100 (l1 ++ l2) /\ get_next s' 1 = Some 0 /\ get_prev s' 1 = Some 0
    /\ events s' = <[1 := mkEv false 11 (mkTv 50 400)]> (events sample_timers).
Proof.
  exact (event_timeout_cancel_unlinks 50 sample_timers 100 [1; 2] 1
           (mkEv true 11 (mkTv 50 400)) sample_timers_wf eq_refl).
Defined.

(** C36: with callbacks that leave the timers alone, and as long as [tv] and all expiry
    times lie within 10^6 seconds (eleven days) of one instant - so that no difference
    in milliseconds leaves an int, which it does from 24.8 days on (timer_list.c:4) -,
    [event_process_timeouts] terminates, fires a prefix of the list in order, each timer
    once and off the list; no fired timer was due a millisecond or more after [tv], no
    remaining one was due a millisecond or more before it, and [event_get_next_timeout]
    then answers -1 for an empty list and otherwise the positive delay of the first
    timer. *)
Theorem event_process_timeouts_fires {W} (act : Z -> Z -> W -> W) run_cb base tv s w h ids :
  (forall cb t s w, run_cb cb t (s, w) = Some (s, act cb t w)) ->
  timers_wf base s h ids -> time_ok base tv ->
  exists fired rest s', ids = fired ++ rest
    /\ event_process_timeouts run_cb (S (length ids)) (s, w) h tv
       = Some (s', fold_left (fun w ev => if ecb s ev =? 0 then w else act (ecb s ev) ev w) fired w)
    /\ timers_wf base s' h rest
    /\ (forall x, x ∈ fired -> time_us (etime s x) < time_us tv + 1000)
    /\ (forall x, x ∈ rest -> time_us tv - 1000 < time_us (etime s x))
    /\ (exists d, event_get_next_timeout s' h tv = Some d
         /\ (d = -1 <-> rest = [])
         /\ forall x, head rest = Some x -> 0 < d /\ d = tv_diff (etime s x) tv).
Proof.
  intros Hcb Hwf Htv.
  destruct (process_spec act run_cb base tv (S (length ids)) s w h ids Hcb Hwf)
    as (fired & rest & s' & E & Hrun & Hwf' & Hf & Hr & Het); [lia|].
  exists fired, rest, s'. split; [done|]. split; [done|]. split; [done|].
  destruct Hwf as (_ & _ & _ & _ & Hin & _).
  pose proof Hwf' as (Hl & Hh0 & Hh & Hdom & Hin' & Hso). split; [|split].
  - intros x Hx. rewrite Forall_forall in Hf. specialize (Hf x Hx). unfold expired in Hf.
    destruct (Hin x) as [_ Htx]; [rewrite E; apply elem_of_app; by left|].
    pose proof (tv_diff_spec base _ _ Htx Htv). lia.
  - intros x Hx. destruct rest as [|y rest]; [by apply not_elem_of_nil in Hx|].
    specialize (Hr y eq_refl). unfold expired in Hr.
    destruct (Hin y) as [_ Hty]; [rewrite E; apply elem_of_app; right; by left|].
    pose proof (tv_diff_spec base _ _ Hty Htv). apply StronglySorted_inv in Hso as [_ Hso].
    apply elem_of_cons in Hx as [->|Hx]; [lia|].
    rewrite Forall_forall in Hso. specialize (Hso x Hx). unfold before in Hso. rewrite !Het in Hso. lia.
  - unfold event_get_next_timeout, list_empty. zfalse (h =? 0).
    rewrite (linked_first s' h rest Hl), !bind_Some.
    destruct rest as [|y rest]; cbn [head default from_option id].
    { rewrite Z.eqb_refl. exists (-1). done. }
    assert (y <> h) as Hyh.
    { intros ->. destruct Hl as [Hnd _]. apply NoDup_cons in Hnd as [Hnd _]. apply Hnd. by left. }
    zfalse (y =? h). destruct (Hin' y) as [[e He] _]; [by left|].
    rewrite He, bind_Some, <- (etime_Some _ _ _ He), Het. cbv zeta.
    specialize (Hr y eq_refl). unfold expired in Hr. zfalse (tv_diff (etime s y) tv <? 0).
    eexists. split; [done|]. split; [split; [lia | done]|]. intros x [= <-]. lia.
Qed.

(** Callbacks that append the timer's address to a log. *)
Lemma event_process_timeouts_fires_witness :
  exists fired rest s', [1; 2] = fired ++ rest
    /\ event_process_timeouts (fun cb t sw => Some (sw.1, sw.2 ++ [t])) 3 (sample_timers, []) 100
         (mkTv 50 500)
       = Some (s', fold_left (fun w ev => if ecb sample_timers ev =? 0 then w else w ++ [ev]) fired [])
    /\ timers_wf 50 s' 100 rest
    /\ (forall x, x ∈ fired -> time_us (etime sample_timers x) < 50000500 + 1000).
Proof.
  destruct (event_process_timeouts_fires (fun _ t w => w ++ [t])
    (fun _ t (sw : store * list Z) => Some (sw.1, sw.2 ++ [t])) 50 (mkTv 50 500) sample_timers [] 100 [1; 2])
    as (fired & rest & s' & H1 & H2 & H3 & H4 & _);
    [reflexivity | exact sample_timers_wf | unfold time_ok; cbn; lia |].
  exists fired, rest, s'. split; [exact H1|]. split; [exact H2|]. split; [exact H3|]. exact H4.
Defined.

(** The carry of [deadline] misses the exact second. *)
Example deadline_exact_second : deadline (mkTv 5 0) 999 = mkTv 5 999000
  /\ deadline (mkTv 5 1000) 999 = mkTv 5 1000000.
Proof. split; reflexivity. Qed.

(** A timer due in 25 days is fired at once: the difference in milliseconds does not
    fit an int. *)
Example far_timer_fires_at_once :
  let far := mkStore (list_to_map [(100, mkLh 1 1); (1, mkLh 100 100)])
               (list_to_map [(1, mkEv true 11 (mkTv 2160000 0))]) in
  snd <$> event_process_timeouts (fun cb t sw => Some (sw.1, sw.2 ++ [t])) 2 (far, []) 100 (mkTv 0 0) = Some [1].
Proof. by vm_compute. Qed.
