(* ===== verification/RbTree.v ===== *)
(** * fun_struct/rbtree.c, rbtree.h: red-black trees of intrusive nodes

    The nodes live in a store from addresses to cells; the first member packs the
    parent's address with the colour in its two low bits, as in the source.
    Address 0 is the null pointer and dereferencing it, or an address without a
    node, is [None].  This file has the operations; the proofs are in
    RbTreeCorrect.v. *)

From stdpp Require Import gmap.
From S2P Require Import Prelude.

(** ** Cells *)

Record rb_node := mkRbNode {
  rb_parent_color : Z;
  rb_right : Z;
  rb_left : Z
}.

Definition RB_RED : Z := 0.
Definition RB_BLACK : Z := 1.

Definition rb_parent (r : rb_node) : Z := Z.land (rb_parent_color r) (Z.lnot 3).
Definition rb_color (r : rb_node) : Z := Z.land (rb_parent_color r) 1.
Definition rb_is_red (r : rb_node) : bool := rb_color r =? 0.
Definition rb_is_black (r : rb_node) : bool := negb (rb_color r =? 0).

Abbreviation rb_store := (gmap Z rb_node).

Definition deref (m : rb_store) (p : Z) : option rb_node := if p =? 0 then None else m !! p.

Definition set_parent_color (m : rb_store) (p : Z) (f : Z -> Z) : option rb_store :=
  n ← deref m p; Some (<[p := mkRbNode (f (rb_parent_color n)) (rb_right n) (rb_left n)]> m).
Definition set_right (m : rb_store) (p v : Z) : option rb_store :=
  n ← deref m p; Some (<[p := mkRbNode (rb_parent_color n) v (rb_left n)]> m).
Definition set_left (m : rb_store) (p v : Z) : option rb_store :=
  n ← deref m p; Some (<[p := mkRbNode (rb_parent_color n) (rb_right n) v]> m).

Definition rb_set_red (m : rb_store) (p : Z) : option rb_store :=
  set_parent_color m p (fun pc => Z.land pc (Z.lnot 1)).
Definition rb_set_black (m : rb_store) (p : Z) : option rb_store :=
  set_parent_color m p (fun pc => Z.lor pc 1).
Definition rb_set_parent (m : rb_store) (rb p : Z) : option rb_store :=
  set_parent_color m rb (fun pc => Z.lor (Z.land pc 3) p).
Definition rb_set_color (m : rb_store) (rb color : Z) : option rb_store :=
  set_parent_color m rb (fun pc => Z.lor (Z.land pc (Z.lnot 1)) color).

(** [!n || rb_is_black (n)] and [n && rb_is_red (n)]. *)
Definition null_or_black (m : rb_store) (p : Z) : option bool :=
  if p =? 0 then Some true else n ← deref m p; Some (rb_is_black n).
Definition nonnull_red (m : rb_store) (p : Z) : option bool :=
  if p =? 0 then Some false else n ← deref m p; Some (rb_is_red n).

Definition rb_init_node (m : rb_store) (rb : Z) : option rb_store :=
  m ← set_parent_color m rb (fun _ => 0);
  m ← set_right m rb 0;
  m ← set_left m rb 0;
  rb_set_parent m rb rb.

(** Where a link lives: the root or a child field of a node. *)
Inductive rb_link := LinkRoot | LinkLeft (p : Z) | LinkRight (p : Z).

(** The tree's two words of state: the store and [root->rb_node]. *)
Abbreviation rb_state := (rb_store * Z)%type.

Definition store_link (s : rb_state) (link : rb_link) (v : Z) : option rb_state :=
  match link with
  | LinkRoot => Some (s.1, v)
  | LinkLeft p => m ← set_left s.1 p v; Some (m, s.2)
  | LinkRight p => m ← set_right s.1 p v; Some (m, s.2)
  end.

Definition rb_link_node (s : rb_state) (node parent : Z) (link : rb_link) : option rb_state :=
  m ← set_parent_color s.1 node (fun _ => parent);
  m ← set_right m node 0;
  m ← set_left m node 0;
  store_link (m, s.2) link node.

(** ** Rotations *)

(** [if (parent) { if (node == parent->rb_left) ... else ... } else root->rb_node = v]. *)
Definition replace_left_first (s : rb_state) (parent node v : Z) : option rb_state :=
  if parent =? 0 then Some (s.1, v)
  else p ← deref s.1 parent;
       m ← (if node =? rb_left p then set_left s.1 parent v else set_right s.1 parent v);
       Some (m, s.2).

Definition replace_right_first (s : rb_state) (parent node v : Z) : option rb_state :=
  if parent =? 0 then Some (s.1, v)
  else p ← deref s.1 parent;
       m ← (if node =? rb_right p then set_right s.1 parent v else set_left s.1 parent v);
       Some (m, s.2).

Definition __rb_rotate_left (s : rb_state) (node : Z) : option rb_state :=
  let '(m, root) := s in
  n ← deref m node;
  let right := rb_right n in
  let parent := rb_parent n in
  r ← deref m right;
  m ← set_right m node (rb_left r);
  m ← (if rb_left r =? 0 then Some m else r ← deref m right; rb_set_parent m (rb_left r) node);
  m ← set_left m right node;
  m ← rb_set_parent m right parent;
  '(m, root) ← replace_left_first (m, root) parent node right;
  m ← rb_set_parent m node right;
  Some (m, root).

Definition __rb_rotate_right (s : rb_state) (node : Z) : option rb_state :=
  let '(m, root) := s in
  n ← deref m node;
  let left := rb_left n in
  let parent := rb_parent n in
  l ← deref m left;
  m ← set_left m node (rb_right l);
  m ← (if rb_right l =? 0 then Some m else l ← deref m left; rb_set_parent m (rb_right l) node);
  m ← set_right m left node;
  m ← rb_set_parent m left parent;
  '(m, root) ← replace_right_first (m, root) parent node left;
  m ← rb_set_parent m node left;
  Some (m, root).

(** ** Insertion *)

(** The loop of [rb_insert_color], one unit of fuel for each turn. *)
Fixpoint insert_color_loop (fuel : nat) (s : rb_state) (node : Z) : option rb_state :=
  match fuel with
  | O => None
  | S fuel =>
      n ← deref s.1 node;
      let parent := rb_parent n in
      return_if parent =? 0 with Some s ;;
      p ← deref s.1 parent;
      return_if negb (rb_is_red p) with Some s ;;
      let gparent := rb_parent p in
      g ← deref s.1 gparent;
      if parent =? rb_left g
      then
        let uncle := rb_right g in
        red ← nonnull_red s.1 uncle;
        if (red : bool)
        then m ← rb_set_black s.1 uncle;
             m ← rb_set_black m parent;
             m ← rb_set_red m gparent;
             insert_color_loop fuel (m, s.2) gparent
        else
          p ← deref s.1 parent;
          '(s, parent, node) ←
            (if rb_right p =? node
             then s ← __rb_rotate_left s parent; Some (s, node, parent)
             else Some (s, parent, node));
          m ← rb_set_black s.1 parent;
          m ← rb_set_red m gparent;
          s ← __rb_rotate_right (m, s.2) gparent;
          insert_color_loop fuel s node
      else
        let uncle := rb_left g in
        red ← nonnull_red s.1 uncle;
        if (red : bool)
        then m ← rb_set_black s.1 uncle;
             m ← rb_set_black m parent;
             m ← rb_set_red m gparent;
             insert_color_loop fuel (m, s.2) gparent
        else
          p ← deref s.1 parent;
          '(s, parent, node) ←
            (if rb_left p =? node
             then s ← __rb_rotate_right s parent; Some (s, node, parent)
             else Some (s, parent, node));
          m ← rb_set_black s.1 parent;
          m ← rb_set_red m gparent;
          s ← __rb_rotate_left (m, s.2) gparent;
          insert_color_loop fuel s node
  end.

Definition rb_insert_color (fuel : nat) (s : rb_state) (node : Z) : option rb_state :=
  s ← insert_color_loop fuel s node;
  m ← rb_set_black s.1 s.2;
  Some (m, s.2).

(** ** Deletion *)

(** [if (rb_is_red (other)) { ... }]: a red sibling gives way to its near child. *)
Definition red_sibling_left (s : rb_state) (parent other : Z) : option (rb_state * Z) :=
  o ← deref s.1 other;
  if rb_is_red o
  then m ← rb_set_black s.1 other;
       m ← rb_set_red m parent;
       s ← __rb_rotate_left (m, s.2) parent;
       p ← deref s.1 parent;
       Some (s, rb_right p)
  else Some (s, other).

Definition red_sibling_right (s : rb_state) (parent other : Z) : option (rb_state * Z) :=
  o ← deref s.1 other;
  if rb_is_red o
  then m ← rb_set_black s.1 other;
       m ← rb_set_red m parent;
       s ← __rb_rotate_right (m, s.2) parent;
       p ← deref s.1 parent;
       Some (s, rb_left p)
  else Some (s, other).

(** The rest of a turn with the sibling [other] on the right (left): whether the
    loop climbs. *)
Definition erase_turn_left (s : rb_state) (parent other : Z) : option (rb_state * bool) :=
  o ← deref s.1 other;
  lblack ← null_or_black s.1 (rb_left o);
  rblack ← null_or_black s.1 (rb_right o);
  if (lblack : bool) && (rblack : bool)
  then m ← rb_set_red s.1 other; Some ((m, s.2), true)
  else
    '(s, other) ←
      (if (rblack : bool)
       then m ← rb_set_black s.1 (rb_left o);
            m ← rb_set_red m other;
            s ← __rb_rotate_right (m, s.2) other;
            p ← deref s.1 parent;
            Some (s, rb_right p)
       else Some (s, other));
    p ← deref s.1 parent;
    m ← rb_set_color s.1 other (rb_color p);
    m ← rb_set_black m parent;
    o ← deref m other;
    m ← rb_set_black m (rb_right o);
    s ← __rb_rotate_left (m, s.2) parent;
    Some (s, false).

Definition erase_turn_right (s : rb_state) (parent other : Z) : option (rb_state * bool) :=
  o ← deref s.1 other;
  lblack ← null_or_black s.1 (rb_left o);
  rblack ← null_or_black s.1 (rb_right o);
  if (lblack : bool) && (rblack : bool)
  then m ← rb_set_red s.1 other; Some ((m, s.2), true)
  else
    '(s, other) ←
      (if (lblack : bool)
       then m ← rb_set_black s.1 (rb_right o);
            m ← rb_set_red m other;
            s ← __rb_rotate_left (m, s.2) other;
            p ← deref s.1 parent;
            Some (s, rb_left p)
       else Some (s, other));
    p ← deref s.1 parent;
    m ← rb_set_color s.1 other (rb_color p);
    m ← rb_set_black m parent;
    o ← deref m other;
    m ← rb_set_black m (rb_left o);
    s ← __rb_rotate_right (m, s.2) parent;
    Some (s, false).

(** The loop of [__rb_erase_color]; [break] leaves with the root as the node. *)
Fixpoint erase_color_loop (fuel : nat) (s : rb_state) (node parent : Z) : option (rb_state * Z) :=
  match fuel with
  | O => None
  | S fuel =>
      black ← null_or_black s.1 node;
      return_if negb ((black : bool) && negb (node =? s.2)) with Some (s, node) ;;
      p ← deref s.1 parent;
      '(s, climb) ←
        (if rb_left p =? node
         then '(s, other) ← red_sibling_left s parent (rb_right p); erase_turn_left s parent other
         else '(s, other) ← red_sibling_right s parent (rb_left p); erase_turn_right s parent other);
      if (climb : bool)
      then p ← deref s.1 parent; erase_color_loop fuel s parent (rb_parent p)
      else Some (s, s.2)
  end.

Definition __rb_erase_color (fuel : nat) (s : rb_state) (node parent : Z) : option rb_state :=
  '(s, node) ← erase_color_loop fuel s node parent;
  if node =? 0 then Some s else m ← rb_set_black s.1 node; Some (m, s.2).

(** [while ((left = node->rb_left) != NULL) node = left;] *)
Fixpoint leftmost (fuel : nat) (m : rb_store) (n : Z) : option Z :=
  match fuel with
  | O => None
  | S fuel => c ← deref m n; if rb_left c =? 0 then Some n else leftmost fuel m (rb_left c)
  end.

Fixpoint rightmost (fuel : nat) (m : rb_store) (n : Z) : option Z :=
  match fuel with
  | O => None
  | S fuel => c ← deref m n; if rb_right c =? 0 then Some n else rightmost fuel m (rb_right c)
  end.

(** [if (rb_parent (old)->rb_left == old) ...]: the child field of [parent] that holds [old]. *)
Definition replace_child (s : rb_state) (parent old v : Z) : option rb_state :=
  if parent =? 0 then Some (s.1, v)
  else p ← deref s.1 parent;
       m ← (if rb_left p =? old then set_left s.1 parent v else set_right s.1 parent v);
       Some (m, s.2).

(** The deletion of a node [old] with two children: its successor [node] leaves its
    own place and takes the place of [old].  The result has the child, the parent
    and the colour of the place it left. *)
Definition splice_successor (s : rb_state) (old node : Z) : option (rb_state * Z * Z * Z) :=
  o ← deref s.1 old;
  s ← replace_child s (rb_parent o) old node;
  n ← deref s.1 node;
  let child := rb_right n in
  let parent := rb_parent n in
  let color := rb_color n in
  '(m, parent) ←
    (if parent =? old then Some (s.1, node)
     else m ← (if child =? 0 then Some s.1 else rb_set_parent s.1 child parent);
          m ← set_left m parent child;
          o ← deref m old;
          m ← set_right m node (rb_right o);
          o ← deref m old;
          m ← rb_set_parent m (rb_right o) node;
          Some (m, parent));
  o ← deref m old;
  m ← set_parent_color m node (fun _ => rb_parent_color o);
  m ← set_left m node (rb_left o);
  m ← rb_set_parent m (rb_left o) node;
  Some ((m, s.2), child, parent, color).

Definition erase_two (fuel : nat) (s : rb_state) (old : Z) : option rb_state :=
  o ← deref s.1 old;
  node ← leftmost fuel s.1 (rb_right o);
  '(s, child, parent, color) ← splice_successor s old node;
  if color =? RB_BLACK then __rb_erase_color fuel s child parent else Some s.

(** A node with at most one child: the child takes its place. *)
Definition splice_child (s : rb_state) (node : Z) : option (rb_state * Z * Z * Z) :=
  n ← deref s.1 node;
  let child := if rb_left n =? 0 then rb_right n else rb_left n in
  let parent := rb_parent n in
  let color := rb_color n in
  m ← (if child =? 0 then Some s.1 else rb_set_parent s.1 child parent);
  s ← replace_child (m, s.2) parent node child;
  Some (s, child, parent, color).

Definition rb_erase (fuel : nat) (s : rb_state) (node : Z) : option rb_state :=
  n ← deref s.1 node;
  if (rb_left n =? 0) || (rb_right n =? 0)
  then '(s, child, parent, color) ← splice_child s node;
       if color =? RB_BLACK then __rb_erase_color fuel s child parent else Some s
  else erase_two fuel s node.

(** ** Traversal *)

Definition rb_first (fuel : nat) (s : rb_state) : option Z :=
  if s.2 =? 0 then Some 0 else leftmost fuel s.1 s.2.

Definition rb_last (fuel : nat) (s : rb_state) : option Z :=
  if s.2 =? 0 then Some 0 else rightmost fuel s.1 s.2.

(** [while ((parent = rb_parent (node)) && node == parent->rb_right) node = parent;] *)
Fixpoint climb_right (fuel : nat) (m : rb_store) (node : Z) : option Z :=
  match fuel with
  | O => None
  | S fuel =>
      n ← deref m node;
      let parent := rb_parent n in
      return_if parent =? 0 with Some 0 ;;
      p ← deref m parent;
      if node =? rb_right p then climb_right fuel m parent else Some parent
  end.

Fixpoint climb_left (fuel : nat) (m : rb_store) (node : Z) : option Z :=
  match fuel with
  | O => None
  | S fuel =>
      n ← deref m node;
      let parent := rb_parent n in
      return_if parent =? 0 with Some 0 ;;
      p ← deref m parent;
      if node =? rb_left p then climb_left fuel m parent else Some parent
  end.

Definition rb_next (fuel : nat) (m : rb_store) (node : Z) : option Z :=
  n ← deref m node;
  return_if rb_parent n =? node with Some 0 ;;
  if rb_right n =? 0 then climb_right fuel m node else leftmost fuel m (rb_right n).

Definition rb_prev (fuel : nat) (m : rb_store) (node : Z) : option Z :=
  n ← deref m node;
  return_if rb_parent n =? node with Some 0 ;;
  if rb_left n =? 0 then climb_left fuel m node else rightmost fuel m (rb_left n).

Definition rb_replace_node (s : rb_state) (victim new : Z) : option rb_state :=
  v ← deref s.1 victim;
  s ← (if rb_parent v =? 0 then Some (s.1, new)
       else p ← deref s.1 (rb_parent v);
            m ← (if victim =? rb_left p then set_left s.1 (rb_parent v) new
                 else set_right s.1 (rb_parent v) new);
            Some (m, s.2));
  v ← deref s.1 victim;
  m ← (if rb_left v =? 0 then Some s.1 else rb_set_parent s.1 (rb_left v) new);
  v ← deref m victim;
  m ← (if rb_right v =? 0 then Some m else rb_set_parent m (rb_right v) new);
  v ← deref m victim;
  n ← deref m new;
  Some (<[new := v]> m, s.2).

(** ** Augmented trees

    The callback works on the client's data [W]. *)
Section augment.
Context {W : Type} (func : Z -> W -> option W).

Fixpoint rb_augment_path (fuel : nat) (m : rb_store) (node : Z) (data : W) : option W :=
  match fuel with
  | O => None
  | S fuel =>
      data ← func node data;
      n ← deref m node;
      let parent := rb_parent n in
      return_if parent =? 0 with Some data ;;
      p ← deref m parent;
      data ← (if (node =? rb_left p) && negb (rb_right p =? 0) then func (rb_right p) data
              else if negb (rb_left p =? 0) then func (rb_left p) data
              else Some data);
      rb_augment_path fuel m parent data
  end.

Definition rb_augment_insert (fuel : nat) (m : rb_store) (node : Z) (data : W) : option W :=
  n ← deref m node;
  let node := if negb (rb_left n =? 0) then rb_left n
              else if negb (rb_right n =? 0) then rb_right n else node in
  rb_augment_path fuel m node data.

Definition rb_augment_erase_end (fuel : nat) (m : rb_store) (node : Z) (data : W) : option W :=
  if node =? 0 then Some data else rb_augment_path fuel m node data.
End augment.

Definition rb_augment_erase_begin (fuel : nat) (m : rb_store) (node : Z) : option Z :=
  n ← deref m node;
  return_if (rb_right n =? 0) && (rb_left n =? 0) with Some (rb_parent n) ;;
  return_if rb_right n =? 0 with Some (rb_left n) ;;
  return_if rb_left n =? 0 with Some (rb_right n) ;;
  deepest ← rb_next fuel m node;
  d ← deref m deepest;
  return_if negb (rb_right d =? 0) with Some (rb_right d) ;;
  Some (if negb (rb_parent d =? node) then rb_parent d else deepest).
