(* ===== verification/RbTreeCorrect.v ===== *)
(** * Red-black trees: representation, rotations and rebalancing

    A store represents a tree when it has exactly the cells of the tree's nodes.
    The loops of the source climb from a node to the root, so a state is a
    subtree and the path above it (a zipper); the pointer operations are proved
    against functions on zippers, and the red-black properties and the order of
    the nodes against those functions. *)

From stdpp Require Import gmap.
From S2P Require Import Prelude CMem RbTree.

(** ** Trees and paths *)

Inductive color := Red | Black.

Inductive rbt :=
  | E
  | T (c : color) (l : rbt) (a : Z) (r : rbt).

Inductive dir := Lft | Rgt.

(** A node above the hole, the side of the hole, and the sibling. *)
Record frame := mkFrame { f_dir : dir; f_color : color; f_addr : Z; f_sib : rbt }.

Abbreviation path := (list frame).

Definition addr (t : rbt) : Z := match t with E => 0 | T _ _ a _ => a end.
Definition top (K : path) : Z := match K with [] => 0 | f :: _ => f_addr f end.

Definition fill (f : frame) (t : rbt) : rbt :=
  match f_dir f with
  | Lft => T (f_color f) t (f_addr f) (f_sib f)
  | Rgt => T (f_color f) (f_sib f) (f_addr f) t
  end.

Fixpoint plug (K : path) (t : rbt) : rbt :=
  match K with [] => t | f :: K => plug K (fill f t) end.

Fixpoint inorder (t : rbt) : list Z :=
  match t with E => [] | T _ l a r => inorder l ++ a :: inorder r end.

(** The nodes before and after the hole. *)
Fixpoint before (K : path) : list Z :=
  match K with
  | [] => []
  | f :: K => before K ++ match f_dir f with Lft => [] | Rgt => inorder (f_sib f) ++ [f_addr f] end
  end.
Fixpoint after (K : path) : list Z :=
  match K with
  | [] => []
  | f :: K => match f_dir f with Lft => f_addr f :: inorder (f_sib f) | Rgt => [] end ++ after K
  end.

Lemma inorder_plug K t : inorder (plug K t) = before K ++ inorder t ++ after K.
Proof.
  revert t. induction K as [|[[] c a s] K IH]; intros t; cbn; [by rewrite app_nil_r| |];
    rewrite IH; cbn; by rewrite <- ?app_assoc.
Qed.

Lemma plug_app K1 K2 t : plug (K1 ++ K2) t = plug K2 (plug K1 t).
Proof. revert t. induction K1; cbn; auto. Qed.

Lemma addr_plug_cons f K t t' : addr (plug (f :: K) t) = addr (plug (f :: K) t').
Proof.
  revert f t t'. induction K as [|g K IH]; intros f t t'; cbn; [by destruct f as [[]]|].
  apply (IH g).
Qed.

Lemma addr_plug K t t' : addr t = addr t' -> addr (plug K t) = addr (plug K t').
Proof. intros. destruct K as [|f K]; [done|]. apply addr_plug_cons. Qed.

(** ** Cells *)

(** A cell by its parts; an address is a multiple of four. *)
Record cell := mkCell { c_parent : Z; c_color : color; c_left : Z; c_right : Z }.

Definition color_bit (c : color) : Z := match c with Red => RB_RED | Black => RB_BLACK end.

Definition conc (c : cell) : rb_node :=
  mkRbNode (c_parent c + color_bit (c_color c)) (c_right c) (c_left c).

Definition aligned (p : Z) : Prop := 0 <= p /\ p `mod` 4 = 0.

Lemma color_bit_cases c : color_bit c = 0 \/ color_bit c = 1.
Proof. destruct c; [by left | by right]. Qed.

Lemma land_lnot_ones x n : 0 <= n -> Z.land x (Z.lnot (Z.ones n)) = x / 2 ^ n * 2 ^ n.
Proof.
  intros. rewrite <- Z.ldiff_land, Z.ldiff_ones_r by lia.
  by rewrite Z.shiftl_mul_pow2, Z.shiftr_div_pow2 by lia.
Qed.

(** The colour bit over an address, as a sum. *)
Lemma lor_color p c : aligned p -> Z.lor p (color_bit c) = p + color_bit c.
Proof.
  intros [Hp Hm]. replace p with ((p / 2) * 2 ^ 1) by zlia. pose proof (color_bit_cases c).
  apply lor_disjoint_add; lia.
Qed.

Lemma land_not3 p c : aligned p -> Z.land (p + color_bit c) (Z.lnot 3) = p.
Proof.
  intros [Hp Hm]. pose proof (color_bit_cases c). change 3 with (Z.ones 2).
  rewrite land_lnot_ones by lia. zlia.
Qed.

Lemma land_not1 p c : aligned p -> Z.land (p + color_bit c) (Z.lnot 1) = p.
Proof.
  intros [Hp Hm]. pose proof (color_bit_cases c). change 1 with (Z.ones 1).
  rewrite land_lnot_ones by lia. zlia.
Qed.

Lemma land_1 p c : aligned p -> Z.land (p + color_bit c) 1 = color_bit c.
Proof.
  intros [Hp Hm]. pose proof (color_bit_cases c). change 1 with (Z.ones 1).
  rewrite Z.land_ones by lia. zlia.
Qed.

Lemma land_3 p c : aligned p -> Z.land (p + color_bit c) 3 = color_bit c.
Proof.
  intros [Hp Hm]. pose proof (color_bit_cases c). change 3 with (Z.ones 2).
  rewrite Z.land_ones by lia. zlia.
Qed.

Lemma rb_parent_conc c : aligned (c_parent c) -> rb_parent (conc c) = c_parent c.
Proof. apply land_not3. Qed.

Lemma rb_color_conc c : aligned (c_parent c) -> rb_color (conc c) = color_bit (c_color c).
Proof. apply land_1. Qed.

Lemma set_black_bits p c : aligned p -> Z.lor (p + color_bit c) 1 = p + color_bit Black.
Proof.
  intros Hp. rewrite <- (lor_color p c), <- (lor_color p Black), <- Z.lor_assoc by done.
  by destruct c.
Qed.

Lemma set_color_bits p c c' :
  aligned p -> Z.lor (Z.land (p + color_bit c) (Z.lnot 1)) (color_bit c') = p + color_bit c'.
Proof. intros Hp. by rewrite land_not1, lor_color. Qed.

Lemma set_parent_bits p c q :
  aligned p -> aligned q -> Z.lor (Z.land (p + color_bit c) 3) q = q + color_bit c.
Proof. intros Hp Hq. by rewrite land_3, Z.lor_comm, lor_color. Qed.

(** ** Stores that hold a list of cells

    The list stands for its permutations; an operation on an address finds the
    address's cell in it and leaves the rest alone. *)

Record holds (m : rb_store) (L : list (Z * cell)) : Prop := {
  h_nodup : NoDup L.*1;
  h_cells : forall a c, (a, c) ∈ L -> m !! a = Some (conc c);
  h_aligned : forall a c, (a, c) ∈ L -> 0 < a /\ aligned a /\ aligned (c_parent c)
}.

Lemma holds_perm m L L' : L ≡ₚ L' -> holds m L -> holds m L'.
Proof.
  intros Hp [Hn Hc Ha]. split.
  - by rewrite <- Hp.
  - intros a c H. apply Hc. by rewrite Hp.
  - intros a c H. apply (Ha a c). by rewrite Hp.
Qed.

(** [Focus p L c R]: the cell of [p] in [L] is [c], the others are [R]. *)
Class Focus (p : Z) (L : list (Z * cell)) (c : cell) (R : list (Z * cell)) : Prop :=
  focus_perm : L ≡ₚ (p, c) :: R.

#[export] Instance focus_here p c L : Focus p ((p, c) :: L) c L.
Proof. unfold Focus. done. Qed.
#[export] Instance focus_cons p x L c R : Focus p L c R -> Focus p (x :: L) c (x :: R) | 10.
Proof. unfold Focus. intros ->. apply perm_swap. Qed.
#[export] Instance focus_app_l p L1 L2 c R : Focus p L1 c R -> Focus p (L1 ++ L2) c (R ++ L2) | 5.
Proof. unfold Focus. by intros ->. Qed.
#[export] Instance focus_app_r p L1 L2 c R : Focus p L2 c R -> Focus p (L1 ++ L2) c (L1 ++ R) | 10.
Proof. unfold Focus. intros ->. by rewrite Permutation_middle. Qed.

Section holds.
Context {m : rb_store} {L : list (Z * cell)} (H : holds m L).

Lemma holds_in p c R `{F : !Focus p L c R} : (p, c) ∈ L.
Proof. rewrite (focus_perm (p:=p)). left. Qed.

Lemma holds_deref p c R `{F : !Focus p L c R} : deref m p = Some (conc c).
Proof.
  pose proof (holds_in p c R) as Hin. destruct (h_aligned _ _ H _ _ Hin) as [Hp _].
  unfold deref. zfalse (p =? 0). by apply (h_cells _ _ H).
Qed.

Lemma holds_pos p c R `{F : !Focus p L c R} : 0 < p.
Proof. by destruct (h_aligned _ _ H _ _ (holds_in p c R)). Qed.

Lemma holds_key_aligned p c R `{F : !Focus p L c R} : aligned p.
Proof. by destruct (h_aligned _ _ H _ _ (holds_in p c R)) as (_ & ? & _). Qed.

Lemma holds_parent_aligned p c R `{F : !Focus p L c R} : aligned (c_parent c).
Proof. by destruct (h_aligned _ _ H _ _ (holds_in p c R)) as (_ & _ & ?). Qed.

Lemma holds_neq p c R q d R' `{F : !Focus p L c R} `{F' : !Focus q R d R'} : p <> q.
Proof.
  intros ->. pose proof (h_nodup _ _ H) as Hn. rewrite F in Hn. rewrite F' in Hn. cbn in Hn.
  apply NoDup_cons_1_1 in Hn. apply Hn. left.
Qed.

(** Overwriting a cell. *)
Lemma holds_insert p c R c' `{F : !Focus p L c R} :
  aligned (c_parent c') -> holds (<[p := conc c']> m) ((p, c') :: R).
Proof.
  intros Hal. pose proof (holds_perm _ _ _ F H) as [Hn Hc Ha]. split; [done| |].
  - intros a d [[= -> ->]|Hin]%elem_of_cons; [by rewrite lookup_insert_eq|].
    rewrite lookup_insert_ne; [apply Hc; by right|]. intros <-.
    apply NoDup_cons_1_1 in Hn. apply Hn, list_elem_of_fmap. by exists (p, d).
  - intros a d [[= -> ->]|Hin]%elem_of_cons; [|apply (Ha a d); by right].
    destruct (Ha p c) as (? & ? & _); [left | done].
Qed.
End holds.

(** ** Cell operations on held stores *)

Section setters.
Context {m : rb_store} {L : list (Z * cell)} (H : holds m L).
Context (p q : Z) (c : color) (l r : Z) (R : list (Z * cell)).
Context `{F : !Focus p L (mkCell q c l r) R}.

Lemma set_parent_color_holds f q' c' :
  f (q + color_bit c) = q' + color_bit c' -> aligned q' ->
  exists m', set_parent_color m p f = Some m' /\ holds m' ((p, mkCell q' c' l r) :: R).
Proof.
  intros Hf Hq. unfold set_parent_color. rewrite (holds_deref H p _ _). cbn. rewrite Hf.
  eexists. split; [done|]. by apply (holds_insert H p _ R (mkCell q' c' l r)).
Qed.

Lemma set_left_holds v :
  exists m', set_left m p v = Some m' /\ holds m' ((p, mkCell q c v r) :: R).
Proof.
  unfold set_left. rewrite (holds_deref H p _ _). eexists. split; [done|].
  apply (holds_insert H p _ R (mkCell q c v r)). apply (holds_parent_aligned H p (mkCell q c l r) R).
Qed.

Lemma set_right_holds v :
  exists m', set_right m p v = Some m' /\ holds m' ((p, mkCell q c l v) :: R).
Proof.
  unfold set_right. rewrite (holds_deref H p _ _). eexists. split; [done|].
  apply (holds_insert H p _ R (mkCell q c l v)). apply (holds_parent_aligned H p (mkCell q c l r) R).
Qed.

Lemma rb_set_parent_holds v : aligned v ->
  exists m', rb_set_parent m p v = Some m' /\ holds m' ((p, mkCell v c l r) :: R).
Proof.
  intros. pose proof (holds_parent_aligned H p _ R). apply set_parent_color_holds; [|done].
  by apply set_parent_bits.
Qed.

Lemma rb_set_black_holds :
  exists m', rb_set_black m p = Some m' /\ holds m' ((p, mkCell q Black l r) :: R).
Proof.
  pose proof (holds_parent_aligned H p _ R). apply set_parent_color_holds; [|done].
  by apply set_black_bits.
Qed.

Lemma rb_set_red_holds :
  exists m', rb_set_red m p = Some m' /\ holds m' ((p, mkCell q Red l r) :: R).
Proof.
  pose proof (holds_parent_aligned H p _ R). apply set_parent_color_holds; [|done].
  rewrite land_not1 by done. cbn. unfold RB_RED. lia.
Qed.

Lemma rb_set_color_holds c' :
  exists m', rb_set_color m p (color_bit c') = Some m' /\ holds m' ((p, mkCell q c' l r) :: R).
Proof.
  pose proof (holds_parent_aligned H p _ R). apply set_parent_color_holds; [|done].
  by apply set_color_bits.
Qed.

Lemma rb_parent_holds : rb_parent (conc (mkCell q c l r)) = q.
Proof. apply rb_parent_conc. apply (holds_parent_aligned H p (mkCell q c l r) R). Qed.

Lemma rb_color_holds : rb_color (conc (mkCell q c l r)) = color_bit c.
Proof. apply rb_color_conc. apply (holds_parent_aligned H p (mkCell q c l r) R). Qed.
End setters.

Definition is_red (c : color) : bool := match c with Red => true | Black => false end.

Lemma rb_is_red_holds {m L} (H : holds m L) p q c l r R `{F : !Focus p L (mkCell q c l r) R} :
  rb_is_red (conc (mkCell q c l r)) = is_red c.
Proof. unfold rb_is_red. rewrite (rb_color_holds H p q c l r R). by destruct c. Qed.

Lemma rb_is_black_holds {m L} (H : holds m L) p q c l r R `{F : !Focus p L (mkCell q c l r) R} :
  rb_is_black (conc (mkCell q c l r)) = negb (is_red c).
Proof. unfold rb_is_black. rewrite (rb_color_holds H p q c l r R). by destruct c. Qed.

Lemma aligned_0 : aligned 0.
Proof. done. Qed.

(** ** Automation *)

(** [find_sub X L R]: the list [X] is a part of [L]. *)
Class FocusList (X L R : list (Z * cell)) : Prop := focus_list_perm : L ≡ₚ X ++ R.
#[export] Instance focusl_here X : FocusList X X [].
Proof. unfold FocusList. by rewrite app_nil_r. Qed.
#[export] Instance focusl_head X L : FocusList X (X ++ L) L | 1.
Proof. unfold FocusList. done. Qed.
#[export] Instance focusl_cons X y L R : FocusList X L R -> FocusList X (y :: L) (y :: R) | 10.
Proof. unfold FocusList. intros ->. by rewrite Permutation_middle. Qed.
#[export] Instance focusl_app_l X L1 L2 R : FocusList X L1 R -> FocusList X (L1 ++ L2) (R ++ L2) | 5.
Proof. unfold FocusList. intros ->. by rewrite app_assoc. Qed.
#[export] Instance focusl_app_r X L1 L2 R : FocusList X L2 R -> FocusList X (L1 ++ L2) (L1 ++ R) | 10.
Proof. unfold FocusList. intros ->. by rewrite !app_assoc, (Permutation_app_comm L1 X). Qed.

(** Cancel the parts of two concatenations. *)
Ltac perm_cancel :=
  lazymatch goal with
  | |- [] ≡ₚ _ => rewrite ?app_nil_r; cbn [app]; reflexivity
  | |- (?p, ?c) :: ?A ≡ₚ ?B =>
      etransitivity; [|symmetry; apply (focus_perm (p:=p) (L:=B) (c:=c) (R:=_))];
      apply perm_skip; perm_cancel
  | |- (_ :: _) ++ _ ≡ₚ _ => cbn [app]; perm_cancel
  | |- (_ ++ _) ++ _ ≡ₚ _ => rewrite <- app_assoc; perm_cancel
  | |- [] ++ _ ≡ₚ _ => cbn [app]; perm_cancel
  | |- ?X ++ ?A ≡ₚ ?B =>
      etransitivity; [|symmetry; apply (focus_list_perm (X:=X) (L:=B) (R:=_))];
      apply Permutation_app_head; perm_cancel
  | |- ?X ≡ₚ ?B => rewrite <- (app_nil_r X); perm_cancel
  end.

(** The cells of a subtree under the parent [p]. *)
Fixpoint nodes (p : Z) (t : rbt) : list (Z * cell) :=
  match t with
  | E => []
  | T c l a r => (a, mkCell p c (addr l) (addr r)) :: nodes a l ++ nodes a r
  end.

Definition tree_red (t : rbt) : bool := match t with T Red _ _ _ => true | _ => false end.

(** What an operation sees of a whole subtree. *)
Section subtrees.
Context {m : rb_store} {L : list (Z * cell)} (H : holds m L) (t : rbt) (q : Z) (R : list (Z * cell)).
Context `{FL : !FocusList (nodes q t) L R}.

Lemma subtree_addr_neq a c R' `{F : !Focus a R c R'} : a <> addr t.
Proof.
  unfold FocusList, Focus in *. rewrite F in FL. apply (holds_perm _ _ _ FL) in H as H'.
  destruct t as [|ct l b r]; cbn [nodes addr] in *.
  - pose proof (holds_pos H' a c _). lia.
  - apply (holds_neq H' a c _ b (mkCell q ct (addr l) (addr r)) _).
Qed.

Lemma nonnull_red_holds : nonnull_red m (addr t) = Some (tree_red t).
Proof.
  unfold FocusList in *. apply (holds_perm _ _ _ FL) in H as H'.
  destruct t as [|ct l b r]; [done|]. cbn [nodes addr app] in *. unfold nonnull_red.
  pose proof (holds_pos H' b _ _). zfalse (b =? 0). rewrite (holds_deref H' b _ _). cbn.
  rewrite (rb_is_red_holds H' b q ct (addr l) (addr r) _). by destruct ct.
Qed.

Lemma null_or_black_holds : null_or_black m (addr t) = Some (negb (tree_red t)).
Proof.
  unfold FocusList in *. apply (holds_perm _ _ _ FL) in H as H'.
  destruct t as [|ct l b r]; [done|]. cbn [nodes addr app] in *. unfold null_or_black.
  pose proof (holds_pos H' b _ _). zfalse (b =? 0). rewrite (holds_deref H' b _ _). cbn.
  rewrite (rb_is_black_holds H' b q ct (addr l) (addr r) _). by destruct ct.
Qed.
End subtrees.

(** Run the next operation of the goal on the held store. *)
Ltac rb_simpl :=
  cbn [mbind option_bind fst snd conc c_parent c_color c_left c_right rb_left rb_right addr top
       f_dir f_color f_addr f_sib negb andb orb].

Ltac rb_aligned H :=
  first [ exact aligned_0 | assumption
        | match goal with |- aligned ?v => apply (holds_key_aligned H v _ _) end ].

Ltac rb_set H lem :=
  let m' := fresh "m" in let E := fresh "E" in let H' := fresh "Hnew" in
  destruct lem as (m' & E & H'); rewrite E; clear E; clear H; rename H' into H.

Ltac rb_step :=
  match goal with
  | Ht : tree_red ?t = _ |- context [tree_red ?t] => rewrite Ht
  | H : holds _ _ |- context [?p =? addr ?t] =>
      rewrite (proj2 (Z.eqb_neq p (addr t))) by (apply (subtree_addr_neq H t _ _ _ _ _))
  | H : holds _ _ |- context [addr ?t =? ?p] =>
      rewrite (proj2 (Z.eqb_neq (addr t) p)) by (apply not_eq_sym, (subtree_addr_neq H t _ _ _ _ _))
  | H : holds ?m _ |- context [nonnull_red ?m (addr ?t)] => rewrite (nonnull_red_holds H t _ _)
  | H : holds ?m _ |- context [null_or_black ?m (addr ?t)] => rewrite (null_or_black_holds H t _ _)
  | H : holds ?m _ |- context [nonnull_red ?m ?p] => unfold nonnull_red
  | H : holds ?m _ |- context [null_or_black ?m ?p] => unfold null_or_black
  | |- context [?p =? ?p] => rewrite (Z.eqb_refl p)
  | H : holds _ _ |- context [?p =? 0] =>
      rewrite (proj2 (Z.eqb_neq p 0)) by (pose proof (holds_pos H p _ _); lia)
  | H : holds _ _ |- context [0 =? ?p] =>
      rewrite (proj2 (Z.eqb_neq 0 p)) by (pose proof (holds_pos H p _ _); lia)
  | H : holds _ _ |- context [?p =? ?q] =>
      rewrite (proj2 (Z.eqb_neq p q)) by (apply (holds_neq H p _ _ q _ _))
  | H : holds ?m _ |- context [deref ?m ?p] =>
      rewrite (holds_deref H p _ _); rb_simpl;
      repeat match goal with
      | |- context [rb_parent (conc (mkCell ?q ?c ?l ?r))] =>
          rewrite (rb_parent_holds H p q c l r _)
      | |- context [rb_color (conc (mkCell ?q ?c ?l ?r))] =>
          rewrite (rb_color_holds H p q c l r _)
      | |- context [rb_is_red (conc (mkCell ?q ?c ?l ?r))] =>
          rewrite (rb_is_red_holds H p q c l r _); cbn [is_red]
      | |- context [rb_is_black (conc (mkCell ?q ?c ?l ?r))] =>
          rewrite (rb_is_black_holds H p q c l r _); cbn [is_red]
      end
  | H : holds ?m _ |- context [set_left ?m ?p ?v] => rb_set H (set_left_holds H p _ _ _ _ _ v)
  | H : holds ?m _ |- context [set_right ?m ?p ?v] => rb_set H (set_right_holds H p _ _ _ _ _ v)
  | H : holds ?m _ |- context [rb_set_parent ?m ?p ?v] =>
      rb_set H (rb_set_parent_holds H p _ _ _ _ _ v ltac:(rb_aligned H))
  | H : holds ?m _ |- context [rb_set_black ?m ?p] => rb_set H (rb_set_black_holds H p _ _ _ _ _)
  | H : holds ?m _ |- context [rb_set_red ?m ?p] => rb_set H (rb_set_red_holds H p _ _ _ _ _)
  | H : holds ?m _ |- context [rb_set_color ?m ?p (color_bit ?c)] =>
      rb_set H (rb_set_color_holds H p _ _ _ _ _ c)
  end; rb_simpl.

Ltac rb_run := rb_simpl; repeat rb_step.

(** ** Representation *)

(** The cells of a path whose hole has the subtree at [h]. *)
Fixpoint path_nodes (K : path) (h : Z) : list (Z * cell) :=
  match K with
  | [] => []
  | f :: K =>
      (f_addr f, match f_dir f with
                 | Lft => mkCell (top K) (f_color f) h (addr (f_sib f))
                 | Rgt => mkCell (top K) (f_color f) (addr (f_sib f)) h
                 end) :: nodes (f_addr f) (f_sib f) ++ path_nodes K (f_addr f)
  end.

(** The state is the tree [t] below the path [K]. *)
Definition zips (s : rb_state) (K : path) (t : rbt) : Prop :=
  holds s.1 (nodes (top K) t ++ path_nodes K (addr t)) /\ s.2 = addr (plug K t).

Lemma zips_up s f K t : zips s (f :: K) t <-> zips s K (fill f t).
Proof.
  unfold zips. destruct f as [[] c a sb]; cbn;
    (split; intros [H ->]; (split; [|done]); (eapply holds_perm; [|exact H]); perm_cancel).
Qed.

Lemma zips_plug s K t : zips s K t <-> zips s [] (plug K t).
Proof.
  revert t. induction K as [|f K IH]; intros t; [done|]. rewrite zips_up. apply IH.
Qed.

(** The state is a whole tree. *)
Definition is_tree (s : rb_state) (t : rbt) : Prop := zips s [] t.

(** ** Rotations *)

(** Open a state on the cells around the hole. *)
Ltac zips_open :=
  match goal with
  | H : zips ?s _ _ |- _ =>
      let m := fresh "m" in let root := fresh "root" in let Hr := fresh "Hroot" in
      destruct s as [m root]; destruct H as [H Hr]; cbn [fst snd] in H, Hr;
      cbn [nodes path_nodes addr top f_dir f_color f_addr f_sib app] in H
  end.

(** The same, keeping the state's description under another name. *)
Ltac zips_view Hz :=
  match goal with
  | H : zips ?s _ _ |- _ =>
      let m := fresh "m" in let root := fresh "root" in let Hr := fresh "Hroot" in
      destruct s as [m root]; pose proof H as Hz; destruct H as [H Hr]; cbn [fst snd] in H, Hr;
      cbn [nodes path_nodes addr top f_dir f_color f_addr f_sib app] in H
  end.

(** A state given by its cells. *)
Ltac zips_close Hr :=
  eexists; split; [reflexivity|]; split;
  [ cbn [fst snd nodes path_nodes addr top f_dir f_color f_addr f_sib app] in *;
    eapply holds_perm; [|eassumption]; perm_cancel
  | cbn [fst snd]; rewrite ?Hr; first [ reflexivity | cbn [plug]; apply addr_plug; reflexivity | apply addr_plug_cons ] ].

Lemma rotate_left_zips s K c l a c' rl b rr :
  zips s K (T c l a (T c' rl b rr)) ->
  exists s', __rb_rotate_left s a = Some s' /\ zips s' K (T c' (T c l a rl) b rr).
Proof.
  intros H. destruct K as [|[[] ck pk sk] K]; destruct rl as [|cl ll al rl]; zips_open; unfold __rb_rotate_left.
  all: unfold replace_left_first; repeat rb_step.
  all: zips_close Hroot.
Qed.

Lemma rotate_right_zips s K c c' ll b lr a r :
  zips s K (T c (T c' ll b lr) a r) ->
  exists s', __rb_rotate_right s a = Some s' /\ zips s' K (T c' ll b (T c lr a r)).
Proof.
  intros H. destruct K as [|[[] ck pk sk] K]; destruct lr as [|cl lll al lr]; zips_open; unfold __rb_rotate_right.
  all: unfold replace_right_first; repeat rb_step.
  all: zips_close Hroot.
Qed.

(** ** Rebalancing after an insertion *)

Definition blacken (t : rbt) : rbt := match t with E => E | T _ l a r => T Black l a r end.

(** The tree the loop of [rb_insert_color] makes of the node [a], with subtrees
    [l] and [r] and colour [c], below [K]. *)
Fixpoint fix_up (K : path) (c : color) (l : rbt) (a : Z) (r : rbt) : rbt :=
  match K with
  | mkFrame d Red p s :: mkFrame d' cg g u :: K' =>
      let t := T c l a r in
      if tree_red u
      then match d' with
           | Lft => fix_up K' Red (fill (mkFrame d Black p s) t) g (blacken u)
           | Rgt => fix_up K' Red (blacken u) g (fill (mkFrame d Black p s) t)
           end
      else plug K'
        match d', d with
        | Lft, Lft => T Black t p (T Red s g u)
        | Lft, Rgt => T Black (T Red s p l) a (T Red r g u)
        | Rgt, Rgt => T Black (T Red u g s) p t
        | Rgt, Lft => T Black (T Red u g l) a (T Red r p s)
        end
  | _ => plug K (T c l a r)
  end.

(** The root is black. *)
Definition root_black (K : path) : Prop :=
  match last K with Some f => f_color f = Black | None => True end.

Lemma root_black_tail f K : K <> [] -> root_black (f :: K) -> root_black K.
Proof. by destruct K. Qed.

Ltac zips_fold K t :=
  match goal with
  | H : holds ?m _, Hr : ?root = addr _ |- _ =>
      let Hz := fresh "Hz" in
      assert (zips (m, root) K t) as Hz;
      [ split;
        [ cbn [fst snd nodes path_nodes addr top f_dir f_color f_addr f_sib app fill];
          eapply holds_perm; [|exact H]; perm_cancel
        | cbn [fst snd]; rewrite Hr; first [ reflexivity | cbn [plug]; apply addr_plug; reflexivity | apply addr_plug_cons ] ]
      | clear H Hr ]
  end.

(** The loop stops below a black parent. *)
Lemma insert_loop_stop fuel s K c l a r :
  (0 < fuel)%nat -> match K with f :: _ => f_color f = Black | [] => True end ->
  zips s K (T c l a r) -> insert_color_loop fuel s a = Some s.
Proof.
  intros Hf HK H. destruct fuel as [|fuel]; [lia|]. destruct K as [|[[] ck pk sk] K]; cbn in HK; subst;
    zips_open; cbn [insert_color_loop]; by rb_run.
Qed.

(** The turns that rotate: the parent is red and the uncle is not. *)
Ltac insert_open := zips_open; cbn [insert_color_loop]; rb_run.

(** The loop ends at the next test, below the black node [f] now at the top. *)
Ltac insert_stop f K :=
  match goal with
  | H : zips ?s K _ |- _ =>
      exists s; split;
      [ eapply (insert_loop_stop _ s (f :: K)); [lia | reflexivity | rewrite zips_up; exact H]
      | unfold is_tree; by rewrite <- zips_plug ]
  end.

Lemma insert_loop_outer_left fuel s K cg g u p sp c l a r :
  (0 < fuel)%nat -> tree_red u = false ->
  zips s (mkFrame Lft Red p sp :: mkFrame Lft cg g u :: K) (T c l a r) ->
  exists s', insert_color_loop (S fuel) s a = Some s'
    /\ is_tree s' (plug K (T Black (T c l a r) p (T Red sp g u))).
Proof.
  intros Hf Hu H. insert_open.
  zips_fold K (T Red (T Black (T c l a r) p sp) g u).
  apply rotate_right_zips in Hz as (s' & -> & Hz); rb_simpl.
  insert_stop (mkFrame Lft Black p (T Red sp g u)) K.
Qed.

Lemma insert_loop_inner_left fuel s K cg g u p sp c l a r :
  (0 < fuel)%nat -> tree_red u = false ->
  zips s (mkFrame Rgt Red p sp :: mkFrame Lft cg g u :: K) (T c l a r) ->
  exists s', insert_color_loop (S fuel) s a = Some s'
    /\ is_tree s' (plug K (T Black (T Red sp p l) a (T Red r g u))).
Proof.
  intros Hf Hu H. insert_open.
  zips_fold (mkFrame Lft cg g u :: K) (T Red sp p (T c l a r)).
  apply rotate_left_zips in Hz as (s' & -> & H). zips_open. rb_run.
  zips_fold K (T Red (T Black (T Red sp p l) a r) g u).
  apply rotate_right_zips in Hz as (s' & -> & Hz); rb_simpl.
  insert_stop (mkFrame Lft Black a (T Red r g u)) K.
Qed.

Lemma insert_loop_outer_right fuel s K cg g u p sp c l a r :
  (0 < fuel)%nat -> tree_red u = false ->
  zips s (mkFrame Rgt Red p sp :: mkFrame Rgt cg g u :: K) (T c l a r) ->
  exists s', insert_color_loop (S fuel) s a = Some s'
    /\ is_tree s' (plug K (T Black (T Red u g sp) p (T c l a r))).
Proof.
  intros Hf Hu H. insert_open.
  zips_fold K (T Red u g (T Black sp p (T c l a r))).
  apply rotate_left_zips in Hz as (s' & -> & Hz); rb_simpl.
  insert_stop (mkFrame Rgt Black p (T Red u g sp)) K.
Qed.

Lemma insert_loop_inner_right fuel s K cg g u p sp c l a r :
  (0 < fuel)%nat -> tree_red u = false ->
  zips s (mkFrame Lft Red p sp :: mkFrame Rgt cg g u :: K) (T c l a r) ->
  exists s', insert_color_loop (S fuel) s a = Some s'
    /\ is_tree s' (plug K (T Black (T Red u g l) a (T Red r p sp))).
Proof.
  intros Hf Hu H. insert_open.
  zips_fold (mkFrame Rgt cg g u :: K) (T Red (T c l a r) p sp).
  apply rotate_right_zips in Hz as (s' & -> & H). zips_open. rb_run.
  zips_fold K (T Red u g (T Black l a (T Red r p sp))).
  apply rotate_left_zips in Hz as (s' & -> & Hz); rb_simpl.
  insert_stop (mkFrame Rgt Black a (T Red u g l)) K.
Qed.

(** A red uncle: recolour and climb. *)
Lemma insert_loop_recolor fuel s K cg g ul ua ur d d' p sp c l a r :
  zips s (mkFrame d Red p sp :: mkFrame d' cg g (T Red ul ua ur) :: K) (T c l a r) ->
  exists s', insert_color_loop (S fuel) s a = insert_color_loop fuel s' g
    /\ zips s' K (fill (mkFrame d' Red g (T Black ul ua ur)) (fill (mkFrame d Black p sp) (T c l a r))).
Proof.
  intros H. destruct d, d'; insert_open.
  - zips_fold K (T Red (T Black (T c l a r) p sp) g (T Black ul ua ur)). eauto.
  - zips_fold K (T Red (T Black ul ua ur) g (T Black (T c l a r) p sp)). eauto.
  - zips_fold K (T Red (T Black sp p (T c l a r)) g (T Black ul ua ur)). eauto.
  - zips_fold K (T Red (T Black ul ua ur) g (T Black sp p (T c l a r))). eauto.
Qed.

Lemma insert_loop_zips fuel s K c l a r :
  (length K < fuel)%nat -> root_black K -> zips s K (T c l a r) ->
  exists s', insert_color_loop fuel s a = Some s' /\ is_tree s' (fix_up K c l a r).
Proof.
  revert s K c l a r. induction fuel as [|fuel IH]; intros s K c l a r Hf HK H; [lia|].
  assert (Hstop : match K with f :: _ => f_color f = Black | [] => True end ->
    fix_up K c l a r = plug K (T c l a r) ->
    exists s', insert_color_loop (S fuel) s a = Some s' /\ is_tree s' (fix_up K c l a r)).
  { intros Hb ->. exists s. split; [|unfold is_tree; by rewrite <- zips_plug].
    eapply insert_loop_stop; [lia | exact Hb | exact H]. }
  destruct K as [|[d [] p sp] [|[d' cg g u] K]]; [by apply Hstop | done | | by apply Hstop ..].
  clear Hstop. cbn [length] in Hf.
  assert (HK' : root_black K) by (destruct K; [exact I | exact HK]).
  destruct (tree_red u) eqn:Hu.
  - destruct u as [|[] ul ua ur]; [done | | done].
    apply (insert_loop_recolor fuel) in H as (s' & -> & H). cbn [fix_up tree_red blacken].
    destruct d'; (eapply IH; [lia | done | exact H]).
  - cbn [fix_up]. rewrite Hu. destruct d, d'.
    + eapply insert_loop_outer_left; [lia | done | exact H].
    + eapply insert_loop_inner_right; [lia | done | exact H].
    + eapply insert_loop_inner_left; [lia | done | exact H].
    + eapply insert_loop_outer_right; [lia | done | exact H].
Qed.

(** Concatenations nested to the right. *)
Ltac app_norm :=
  repeat first [ rewrite <- app_assoc | progress cbn [app] | rewrite app_nil_r | rewrite app_nil_l ].

(** The loop keeps the order of the nodes. *)
Lemma inorder_fix_up K c l a r :
  inorder (fix_up K c l a r) = before K ++ (inorder l ++ a :: inorder r) ++ after K.
Proof.
  remember (length K) as n eqn:Hn. revert K c l a r Hn.
  induction (lt_wf n) as [n _ IH]; intros K c l a r ->.
  destruct K as [|[d [] p sp] [|[d' cg g u] K]]; cbn [fix_up]; try apply inorder_plug.
  destruct (tree_red u) eqn:Hu.
  - destruct u as [|[] ul ua ur]; [done | | done].
    destruct d', d; (rewrite (IH (length K)); [| cbn; lia | done]);
      cbn; app_norm; done.
  - rewrite inorder_plug. destruct d, d'; cbn; app_norm; done.
Qed.

Lemma inorder_blacken t : inorder (blacken t) = inorder t.
Proof. by destruct t. Qed.

Lemma rb_insert_color_zips fuel s K c l a r :
  (length K < fuel)%nat -> root_black K -> zips s K (T c l a r) ->
  exists s', rb_insert_color fuel s a = Some s' /\ is_tree s' (blacken (fix_up K c l a r)).
Proof.
  intros Hf HK H. destruct (insert_loop_zips fuel s K c l a r Hf HK H) as (s1 & E & H1).
  unfold rb_insert_color. rewrite E. rb_simpl. clear E H.
  destruct (fix_up K c l a r) as [|c1 l1 a1 r1] eqn:Efix.
  - exfalso. apply (f_equal (length ∘ inorder)) in Efix. cbn in Efix.
    rewrite inorder_fix_up in Efix. len.
  - unfold is_tree in *. rename H1 into H. zips_open. rewrite Hroot. cbn [plug addr]. rb_run.
    zips_close Hroot.
Qed.

(** ** The red-black properties *)

(** [is_rb c n t]: below a node of colour [c], [t] has black height [n], equal on
    all paths, and no red node has a red child. *)
Inductive is_rb : color -> nat -> rbt -> Prop :=
  | is_rb_E c : is_rb c 0 E
  | is_rb_R n l a r : is_rb Red n l -> is_rb Red n r -> is_rb Black n (T Red l a r)
  | is_rb_B c n l a r : is_rb Black n l -> is_rb Black n r -> is_rb c (S n) (T Black l a r).

(** A path whose hole takes such a tree. *)
Inductive path_ok : color -> nat -> path -> Prop :=
  | path_nil n : path_ok Red n []
  | path_R d n p s K : is_rb Red n s -> path_ok Black n K -> path_ok Red n (mkFrame d Red p s :: K)
  | path_B d c n p s K :
      is_rb Black n s -> path_ok c (S n) K -> path_ok Black n (mkFrame d Black p s :: K).

Definition rb_tree (t : rbt) : Prop := exists n, is_rb Red n t.

#[local] Hint Constructors is_rb path_ok : core.

Lemma is_rb_red_any c n t : is_rb Red n t -> is_rb c n t.
Proof. inversion 1; subst; auto. Qed.
#[local] Hint Resolve is_rb_red_any : core.

Lemma plug_rb K c n t : path_ok c n K -> is_rb c n t -> rb_tree (plug K t).
Proof.
  intros HK. revert t. induction HK as [n|d n p s K Hs _ IH|d c n p s K Hs _ IH]; intros t Ht; cbn.
  - by exists n.
  - apply IH. destruct d; cbn; auto.
  - apply IH. destruct d; cbn; auto.
Qed.

Lemma plug_rb_inv K n t : is_rb Red n (plug K t) -> exists c m, path_ok c m K /\ is_rb c m t.
Proof.
  revert n t. induction K as [|[d c p s] K IH]; intros n t H; [by exists Red, n|]. cbn in H.
  destruct (IH _ _ H) as (c' & m & HK & Ht). destruct d; cbn in Ht; inversion Ht; subst; eauto 6.
Qed.

Lemma blacken_rb c n t : is_rb c n t -> tree_red t = true -> forall c', is_rb c' (S n) (blacken t).
Proof. destruct 1; cbn; [done| |done]. intros _ c'. constructor; auto. Qed.

Lemma path_ok_root c n K : path_ok c n K -> root_black K.
Proof.
  unfold root_black. induction 1 as [|d n p s K Hs HK IH|d c n p s K Hs HK IH]; [done| |].
  - destruct K; [inversion HK | done].
  - by destruct K.
Qed.

(** The loop restores the properties; only the root may be left red. *)
Lemma fix_up_rb K c n l a r :
  path_ok c n K -> is_rb Red n l -> is_rb Red n r -> rb_tree (blacken (fix_up K Red l a r)).
Proof.
  remember (length K) as k eqn:Hk. revert K c n l a r Hk.
  induction (lt_wf k) as [k _ IH]; intros K c n l a r -> HK Hl Hr.
  assert (Hplug : forall t K' c' n', path_ok c' n' K' -> is_rb c' n' t -> rb_tree (blacken (plug K' t))).
  { intros t K' c' n' HK' Ht. destruct (plug_rb _ _ _ _ HK' Ht) as [m Hm].
    destruct (plug K' t) as [|[] x y z]; [by exists m| inversion Hm | by exists m]. }
  inversion HK as [n'|d n' p s K1 Hs HK1|d c' n' p s K1 Hs HK1]; subst.
  - exists (S n). cbn. auto.
  - inversion HK1 as [|?|d' c' n' g u K2 Hu HK2]; subst. cbn [fix_up].
    destruct (tree_red u) eqn:Hur.
    + pose proof (blacken_rb _ _ _ Hu Hur) as Hub.
      assert (forall c0, is_rb c0 (S n) (fill (mkFrame d Black p s) (T Red l a r))) as Hf.
      { intros c0. destruct d; cbn; auto. }
      destruct d'; (eapply (IH (length K2)); [cbn; lia | done | exact HK2 | auto | auto]).
    + assert (is_rb Red n u) as Hu' by (destruct Hu; [auto | done | auto]).
      destruct d, d'; (eapply Hplug; [exact HK2 | auto]).
  - cbn [fix_up]. eapply Hplug; [exact HK | auto].
Qed.

(** ** Inserting a new node *)

(** The link at the hole of a path. *)
Definition link_of (K : path) : rb_link :=
  match K with
  | [] => LinkRoot
  | f :: _ => match f_dir f with Lft => LinkLeft (f_addr f) | Rgt => LinkRight (f_addr f) end
  end.

(** The nodes of a state are its tree's: any other cell of the store is free. *)
Lemma nodes_addrs q t : (nodes q t).*1 ≡ₚ inorder t.
Proof.
  revert q. induction t as [|c l IHl a r IHr]; intros q; [done|]. cbn.
  rewrite fmap_app, IHl, IHr. by rewrite Permutation_middle.
Qed.

Lemma path_nodes_addrs K h : (path_nodes K h).*1 ≡ₚ before K ++ after K.
Proof.
  revert h. induction K as [|[d c p s] K IH]; intros h; [done|]. cbn.
  rewrite fmap_app, IH, nodes_addrs. destruct d; cbn; app_norm.
  - apply (Permutation_app_swap_app (p :: inorder s)).
  - rewrite (Permutation_app_swap_app (before K) (inorder s)).
    rewrite <- (Permutation_middle (before K)). by rewrite Permutation_middle.
Qed.

Lemma holds_fresh m L a c :
  holds m L -> a ∉ L.*1 -> 0 < a -> aligned a -> aligned (c_parent c) ->
  holds (<[a := conc c]> m) ((a, c) :: L).
Proof.
  intros [Hn Hc Ha] Hf Hpos Hal Hp. split.
  - cbn. by constructor.
  - intros b d [[= -> ->]|Hin]%elem_of_cons; [apply lookup_insert_eq|].
    rewrite lookup_insert_ne; [by apply Hc|]. intros <-. apply Hf, list_elem_of_fmap. by exists (a, d).
  - intros b d [[= -> ->]|Hin]%elem_of_cons; [done | by apply (Ha b d)].
Qed.

Lemma top_aligned m q K h : holds m (nodes (top K) q ++ path_nodes K h) -> aligned (top K).
Proof.
  intros H. destruct K as [|[d c p s] K]; [apply aligned_0|]. cbn in *.
  eapply (holds_key_aligned H p _ _).
Qed.

(** Linking a free node at the hole makes it a red leaf there. *)
Lemma rb_link_node_zips s K a n :
  zips s K E -> a ∉ inorder (plug K E) -> 0 < a -> aligned a -> s.1 !! a = Some n ->
  exists s', rb_link_node s a (top K) (link_of K) = Some s' /\ zips s' K (T Red E a E).
Proof.
  intros H Hf Hpos Hal Hn. pose proof (top_aligned _ _ _ _ (proj1 H)) as Htop.
  rewrite inorder_plug in Hf. cbn in Hf.
  destruct s as [m root]. destruct H as [H Hroot]. cbn [fst snd nodes addr app] in *.
  apply (holds_fresh m _ a (mkCell (top K) Red 0 0)) in H; [| | done..].
  2: { by rewrite path_nodes_addrs. }
  unfold rb_link_node, set_parent_color, set_right, set_left, deref. cbn [fst snd].
  zfalse (a =? 0). rewrite Hn. cbn [mbind option_bind].
  rewrite !lookup_insert_eq. cbn [mbind option_bind]. rewrite !lookup_insert_eq.
  cbn [mbind option_bind]. rewrite !insert_insert_eq. cbn [rb_parent_color rb_right rb_left].
  replace (mkRbNode (top K) 0 0) with (conc (mkCell (top K) Red 0 0)) by (unfold conc; cbn; f_equal; unfold RB_RED; lia).
  destruct K as [|[[] c p sb] K]; cbn [link_of f_dir f_addr store_link fst snd];
    cbn [path_nodes top f_dir f_addr f_color f_sib] in *.
  - eexists. split; [done|]. split; [|done]. cbn. exact H.
  - rb_run. eexists. split; [done|]. split; [|cbn [snd]; rewrite Hroot; apply addr_plug_cons].
    cbn. eapply holds_perm; [|exact H]. perm_cancel.
  - rb_run. eexists. split; [done|]. split; [|cbn [snd]; rewrite Hroot; apply addr_plug_cons].
    cbn. eapply holds_perm; [|exact H]. perm_cancel.
Qed.

(** ** Height *)

Fixpoint height (t : rbt) : nat :=
  match t with E => O | T _ l _ r => S (Nat.max (height l) (height r)) end.

Lemma plug_height K t : (length K + height t <= height (plug K t))%nat.
Proof.
  revert t. induction K as [|[d c p s] K IH]; intros t; cbn [length plug]; [lia|].
  specialize (IH (fill (mkFrame d c p s) t)). destruct d; cbn in *; lia.
Qed.

Lemma is_rb_height c n t :
  is_rb c n t -> (height t <= 2 * n + match c with Red => 0 | Black => 1 end)%nat
    /\ (2 ^ n <= S (length (inorder t)))%nat.
Proof.
  induction 1 as [|n l a r _ [IHl1 IHl2] _ [IHr1 IHr2]|c n l a r _ [IHl1 IHl2] _ [IHr1 IHr2]].
  - by destruct c; cbn; lia.
  - cbn -[Nat.pow]. rewrite length_app. cbn. lia.
  - cbn [height inorder]. rewrite length_app, Nat.pow_succ_r'. cbn [length]. destruct c; lia.
Qed.

(** A red-black tree of [n] nodes has no path longer than [2 log2 (n + 1)]. *)
Lemma rb_tree_height t :
  rb_tree t -> (height t <= 2 * Nat.log2 (S (length (inorder t))))%nat.
Proof.
  intros [n [Hh Hs]%is_rb_height]. cbn in Hh.
  assert (n <= Nat.log2 (S (length (inorder t))))%nat; [|lia].
  rewrite <- (Nat.log2_pow2 n) by lia. by apply Nat.log2_le_mono.
Qed.

Lemma rb_tree_path K t :
  rb_tree (plug K t) -> (length K + height t <= 2 * Nat.log2 (S (length (inorder (plug K t)))))%nat.
Proof. intros H%rb_tree_height. pose proof (plug_height K t). lia. Qed.

(** Insertion, by the place of the new node. *)
Lemma rb_insert_zips s K a n fuel :
  zips s K E -> rb_tree (plug K E) -> a ∉ inorder (plug K E) -> 0 < a -> aligned a ->
  s.1 !! a = Some n -> (2 * Nat.log2 (S (length (inorder (plug K E)))) < fuel)%nat ->
  exists s' t', (s ← rb_link_node s a (top K) (link_of K); rb_insert_color fuel s a) = Some s'
    /\ is_tree s' t' /\ rb_tree t' /\ inorder t' = before K ++ a :: after K.
Proof.
  intros H Hrb Hf Hpos Hal Hn Hfuel. pose proof (rb_tree_path K E Hrb). destruct Hrb as [h Hrb].
  destruct (plug_rb_inv _ _ _ Hrb) as (c & k & HK & Ht).
  destruct (rb_link_node_zips s K a n H Hf Hpos Hal Hn) as (s1 & -> & H1). cbn [mbind option_bind].
  destruct (rb_insert_color_zips fuel s1 K Red E a E ltac:(lia) (path_ok_root _ _ _ HK) H1) as (s2 & -> & H2).
  inversion Ht; subst. eexists _, _. split; [done|]. split; [exact H2|]. split.
  - eapply fix_up_rb; [exact HK | constructor | constructor].
  - by rewrite inorder_blacken, inorder_fix_up.
Qed.

(** C5: linking a free node where a search ended and rebalancing always ends,
    restores the red-black properties and places the node between the nodes
    before and after the hole; a tree of [n] nodes needs at most
    [2 log2 (n + 1) + 1] turns. *)
Theorem rb_insert_correct s K a n fuel :
  is_tree s (plug K E) -> rb_tree (plug K E) -> a ∉ inorder (plug K E) -> 0 < a -> aligned a ->
  s.1 !! a = Some n -> (2 * Nat.log2 (S (length (inorder (plug K E)))) < fuel)%nat ->
  exists s' t', (s ← rb_link_node s a (top K) (link_of K); rb_insert_color fuel s a) = Some s'
    /\ is_tree s' t' /\ rb_tree t' /\ inorder t' = before K ++ a :: after K.
Proof. unfold is_tree at 1. rewrite <- zips_plug. apply rb_insert_zips. Qed.

(** ** Traversal *)

Lemma hd_app (l k : list Z) : l <> [] -> hd 0 (l ++ k) = hd 0 l.
Proof. by destruct l. Qed.

Lemma inorder_nonempty c l a r : inorder (T c l a r) <> [].
Proof. cbn. by destruct (inorder l). Qed.

(** Down the left (right) spine of a subtree. *)
Lemma leftmost_zips fuel s K c l a r :
  zips s K (T c l a r) -> (height l < fuel)%nat ->
  leftmost fuel s.1 a = Some (hd 0 (inorder (T c l a r))).
Proof.
  revert K c l a r. induction fuel as [|fuel IH]; intros K c l a r H Hf; [lia|].
  cbn [leftmost]. zips_view Hz. rb_run.
  destruct l as [|cl ll la lr]; [done|]. cbn [addr nodes app] in *.
  pose proof (holds_pos H la _ _). zfalse (la =? 0).
  apply (zips_up _ (mkFrame Lft c a r)) in Hz. apply IH in Hz; [|cbn in Hf; lia].
  cbn [fst] in Hz. rewrite Hz. f_equal. symmetry. cbn [inorder]. apply hd_app.
  by destruct (inorder ll).
Qed.

Lemma last_app_nonempty (l k : list Z) : k <> [] -> last (l ++ k) = last k.
Proof. intros Hk. destruct k using rev_ind; [done|]. by rewrite app_assoc, !last_snoc. Qed.

Lemma rightmost_zips fuel s K c l a r :
  zips s K (T c l a r) -> (height r < fuel)%nat ->
  rightmost fuel s.1 a = last (inorder (T c l a r)).
Proof.
  revert K c l a r. induction fuel as [|fuel IH]; intros K c l a r H Hf; [lia|].
  cbn [rightmost]. zips_view Hz. rb_run.
  destruct r as [|cr rl ra rr]; [cbn; by rewrite last_snoc|]. cbn [addr nodes app] in *.
  pose proof (holds_pos H ra _ _). zfalse (ra =? 0).
  apply (zips_up _ (mkFrame Rgt c a l)) in Hz. apply IH in Hz; [|cbn in Hf; lia].
  cbn [fst] in Hz. rewrite Hz.
  change (inorder (T c l a ?t)) with (inorder l ++ [a] ++ inorder t). rewrite app_assoc.
  symmetry. apply last_app_nonempty, (inorder_nonempty cr).
Qed.

(** Up to the nearest ancestor on the other side. *)
Lemma climb_right_zips fuel s K c l a r :
  zips s K (T c l a r) -> (length K < fuel)%nat -> climb_right fuel s.1 a = Some (hd 0 (after K)).
Proof.
  revert K c l a r. induction fuel as [|fuel IH]; intros K c l a r H Hf; [lia|].
  cbn [climb_right]. destruct K as [|[[] ck p sb] K]; zips_view Hz; rb_run; [done..|].
  rewrite zips_up in Hz. cbn [fill f_dir f_color f_addr f_sib] in Hz.
  apply IH in Hz; [exact Hz | cbn in Hf; lia].
Qed.

Lemma climb_left_zips fuel s K c l a r :
  zips s K (T c l a r) -> (length K < fuel)%nat -> climb_left fuel s.1 a = Some (default 0 (last (before K))).
Proof.
  revert K c l a r. induction fuel as [|fuel IH]; intros K c l a r H Hf; [lia|].
  cbn [climb_left]. destruct K as [|[[] ck p sb] K]; zips_view Hz; rb_run; [done| |].
  - rewrite zips_up in Hz. cbn [fill f_dir f_color f_addr f_sib] in Hz.
    apply IH in Hz; [|cbn in Hf; lia]. cbn [fst before f_dir] in *. by rewrite Hz, app_nil_r.
  - cbn [before f_dir f_sib f_addr]. by rewrite app_assoc, last_snoc.
Qed.

Lemma rb_next_zips fuel s K c l a r :
  zips s K (T c l a r) -> (length K < fuel)%nat -> (height r <= fuel)%nat ->
  rb_next fuel s.1 a = Some (hd 0 (inorder r ++ after K)).
Proof.
  intros H Hk Hh. unfold rb_next.
  assert (Hp : top K <> a).
  { destruct K as [|[d ck p sb] K]; zips_open.
    - pose proof (holds_pos H a _ _). cbn. lia.
    - destruct d; apply not_eq_sym, (holds_neq H a _ _ p _ _). }
  zips_view Hz. rb_run. zfalse (top K =? a).
  destruct r as [|cr rl ra rr]; [by apply (climb_right_zips _ _ _ _ _ _ _ Hz)|].
  cbn [addr nodes app] in *. pose proof (holds_pos H ra _ _). zfalse (ra =? 0).
  apply (zips_up _ (mkFrame Rgt c a l)) in Hz. apply (leftmost_zips fuel) in Hz; [|cbn in Hh; lia].
  cbn [fst] in Hz. rewrite Hz. f_equal. symmetry. apply hd_app, (inorder_nonempty cr).
Qed.

Lemma rb_prev_zips fuel s K c l a r :
  zips s K (T c l a r) -> (length K < fuel)%nat -> (height l <= fuel)%nat ->
  rb_prev fuel s.1 a = Some (default 0 (last (before K ++ inorder l))).
Proof.
  intros H Hk Hh. unfold rb_prev.
  assert (Hp : top K <> a).
  { destruct K as [|[d ck p sb] K]; zips_open.
    - pose proof (holds_pos H a _ _). cbn. lia.
    - destruct d; apply not_eq_sym, (holds_neq H a _ _ p _ _). }
  zips_view Hz. rb_run. zfalse (top K =? a).
  destruct l as [|cl ll la lr].
  { cbn. rewrite app_nil_r. by apply (climb_left_zips _ _ _ _ _ _ _ Hz). }
  cbn [addr nodes app] in *. pose proof (holds_pos H la _ _). zfalse (la =? 0).
  apply (zips_up _ (mkFrame Lft c a r)) in Hz. apply (rightmost_zips fuel) in Hz; [|cbn in Hh; lia].
  cbn [fst] in Hz. rewrite Hz, last_app_nonempty by apply (inorder_nonempty cl).
  destruct (last (inorder (T cl ll la lr))) as [x|] eqn:E; [done|].
  apply last_None in E. by apply (inorder_nonempty cl) in E.
Qed.

(** Every node of a tree is at the hole of a path. *)
Lemma inorder_zipper t a : a ∈ inorder t -> exists K c l r, t = plug K (T c l a r).
Proof.
  induction t as [|c l IHl b r IHr]; [by intros ?%not_elem_of_nil|].
  cbn. intros [H|[<- |H]%elem_of_cons]%elem_of_app.
  - destruct (IHl H) as (K & c' & l' & r' & ->). exists (K ++ [mkFrame Lft c b r]), c', l', r'.
    by rewrite plug_app.
  - by exists [], c, l, r.
  - destruct (IHr H) as (K & c' & l' & r' & ->). exists (K ++ [mkFrame Rgt c b l]), c', l', r'.
    by rewrite plug_app.
Qed.

Lemma is_tree_nodup s t : is_tree s t -> NoDup (inorder t).
Proof.
  intros [H _]. cbn in H. rewrite app_nil_r in H. rewrite <- (nodes_addrs 0). apply (h_nodup _ _ H).
Qed.

(** The zipper of a node, with what comes before and after it in order. *)
Lemma is_tree_zipper s t l1 a l2 :
  is_tree s t -> inorder t = l1 ++ a :: l2 ->
  exists K c l r, t = plug K (T c l a r) /\ zips s K (T c l a r)
    /\ l1 = before K ++ inorder l /\ l2 = inorder r ++ after K.
Proof.
  intros H E. destruct (inorder_zipper t a) as (K & c & l & r & ->).
  { rewrite E. apply elem_of_app. right. left. }
  exists K, c, l, r. split; [done|]. split; [by rewrite zips_plug|].
  apply (NoDup_split_unique a).
  - rewrite <- E. by eapply is_tree_nodup.
  - rewrite <- E, inorder_plug. cbn. app_norm. done.
Qed.

(** The traversal functions visit the nodes of a red-black tree in order: the
    first, the last, and from each node its neighbours, null at the ends. *)
Theorem rb_traversal s t fuel :
  is_tree s t -> rb_tree t -> (2 * Nat.log2 (S (length (inorder t))) < fuel)%nat ->
  rb_first fuel s = Some (hd 0 (inorder t))
  /\ rb_last fuel s = Some (default 0 (last (inorder t)))
  /\ forall l1 a l2, inorder t = l1 ++ a :: l2 ->
       rb_next fuel s.1 a = Some (hd 0 l2) /\ rb_prev fuel s.1 a = Some (default 0 (last l1)).
Proof.
  intros H Hrb Hf. pose proof (rb_tree_height t Hrb) as Hh. split; [|split].
  - unfold rb_first. destruct t as [|c l a r]; [by destruct H as [_ ->]|].
    pose proof (leftmost_zips fuel s [] c l a r H ltac:(cbn [height] in Hh; lia)) as Hl.
    unfold is_tree in H. zips_open. rewrite Hroot. cbn [plug]. rb_simpl. pose proof (holds_pos H a _ _). by zfalse (a =? 0).
  - unfold rb_last. destruct t as [|c l a r]; [by destruct H as [_ ->]|].
    pose proof (rightmost_zips fuel s [] c l a r H ltac:(cbn [height] in Hh; lia)) as Hl.
    unfold is_tree in H. zips_open. rewrite Hroot. cbn [plug]. rb_simpl. pose proof (holds_pos H a _ _). zfalse (a =? 0).
    cbn [fst] in Hl. rewrite Hl. destruct (last (inorder (T c l a r))) eqn:E; [done|].
    apply last_None in E. by apply (inorder_nonempty c) in E.
  - intros l1 a l2 E. destruct (is_tree_zipper s t l1 a l2 H E) as (K & c & l & r & -> & Hz & -> & ->).
    pose proof (plug_height K (T c l a r)) as Hp. cbn [height] in Hp.
    rewrite (rb_next_zips fuel s K c l a r), (rb_prev_zips fuel s K c l a r) by (done || lia). done.
Qed.

(** ** Every tree has a store *)

Definition store_of (t : rbt) : rb_state :=
  (list_to_map ((fun x => (x.1, conc x.2)) <$> nodes 0 t), addr t).

Lemma nodes_parents q t a c : (a, c) ∈ nodes q t -> c_parent c = q \/ c_parent c ∈ inorder t.
Proof.
  revert q. induction t as [|k l IHl b r IHr]; intros q; [by intros ?%not_elem_of_nil|]. cbn.
  rewrite elem_of_cons, !elem_of_app, elem_of_cons.
  intros [[= -> ->]|[[-> | H]%IHl|[-> | H]%IHr]]; cbn; auto.
Qed.

Lemma store_of_is_tree t :
  NoDup (inorder t) -> (forall a, a ∈ inorder t -> 0 < a /\ aligned a) -> is_tree (store_of t) t.
Proof.
  intros Hn Ha. split; [|done]. cbn [fst store_of top path_nodes]. rewrite app_nil_r.
  rewrite <- (nodes_addrs 0) in Hn. split; [done| |].
  - intros a c Hin. apply elem_of_list_to_map.
    + rewrite <- list_fmap_compose. exact Hn.
    + apply list_elem_of_fmap. by exists (a, c).
  - intros a c Hin.
    assert (a ∈ inorder t) as H.
    { rewrite <- (nodes_addrs 0). apply list_elem_of_fmap. by exists (a, c). }
    destruct (Ha a H). split; [done|]. split; [done|].
    destruct (nodes_parents _ _ _ _ Hin) as [-> |H']; [apply aligned_0 | by apply Ha].
Qed.

(** Only the addresses of the tree matter. *)
Lemma zips_agree m m' root K t :
  zips (m, root) K t -> (forall a, a ∈ inorder (plug K t) -> m' !! a = m !! a) -> zips (m', root) K t.
Proof.
  intros [H Hr] Hf. split; [|done]. destruct H as [Hn Hc Ha]. split; [done| |done].
  intros b c Hin. cbn [fst] in *. rewrite Hf; [by apply Hc|].
  assert (b ∈ (nodes (top K) t ++ path_nodes K (addr t)).*1) as H.
  { apply list_elem_of_fmap. by exists (b, c). }
  rewrite fmap_app, path_nodes_addrs, nodes_addrs, !elem_of_app in H.
  rewrite inorder_plug, !elem_of_app. tauto.
Qed.

Lemma zips_free m root K t a n :
  zips (m, root) K t -> a ∉ inorder (plug K t) -> zips (<[a := n]> m, root) K t.
Proof.
  intros H Hf. apply (zips_agree _ _ _ _ _ H). intros b Hb. apply lookup_insert_ne. congruence.
Qed.

Lemma zips_delete m root K t a :
  zips (m, root) K t -> a ∉ inorder (plug K t) -> zips (delete a m, root) K t.
Proof.
  intros H Hf. apply (zips_agree _ _ _ _ _ H). intros b Hb. apply lookup_delete_ne. congruence.
Qed.

(** ** Concrete trees *)

Definition three_nodes : rbt := T Black (T Red E 4 E) 8 (T Red E 12 E).

Lemma three_nodes_rb : rb_tree three_nodes.
Proof. exists 1%nat. repeat constructor. Qed.

Lemma three_nodes_tree : is_tree (store_of three_nodes) three_nodes.
Proof.
  apply store_of_is_tree.
  - apply (bool_decide_unpack _). vm_compute. exact I.
  - intros a. cbn. rewrite !elem_of_cons. intros H. destruct_or? H; subst; try done.
    by apply not_elem_of_nil in H.
Qed.

Lemma rb_traversal_witness :
  rb_first 9 (store_of three_nodes) = Some 4
  /\ (store_of three_nodes).1 !! 8 = Some (mkRbNode 1 12 4).
Proof.
  destruct (rb_traversal (store_of three_nodes) three_nodes 9 three_nodes_tree three_nodes_rb) as [H _].
  - vm_compute. lia.
  - split; [exact H | reflexivity].
Defined.

(** The new node goes under the red node 12, right of it: a recolouring. *)
Lemma rb_insert_correct_witness :
  exists s' t', is_tree s' t' /\ rb_tree t' /\ inorder t' = [4; 8; 12; 16].
Proof.
  pose (K := [mkFrame Rgt Red 12 E; mkFrame Rgt Black 8 (T Red E 4 E)]).
  assert (Hf : 16 ∉ inorder (plug K E)) by (apply (bool_decide_unpack _); vm_compute; exact I).
  destruct (rb_insert_correct (<[16 := mkRbNode 0 0 0]> (store_of three_nodes).1, (store_of three_nodes).2)
              K 16 (mkRbNode 0 0 0) 9) as (s' & t' & _ & H1 & H2 & H3).
  - apply zips_free; [exact three_nodes_tree | exact Hf].
  - exact three_nodes_rb.
  - exact Hf.
  - lia.
  - done.
  - reflexivity.
  - vm_compute. lia.
  - exists s', t'. split; [exact H1|]. split; [exact H2 | exact H3].
Defined.
