(* ===== verification/RbErase.v ===== *)
(** * Red-black trees: deletion

    [rb_erase] unlinks a node, putting its successor in its place when it has two
    children, and [__rb_erase_color] climbs from where a black node is missing.
    The loop is proved against a function on zippers, as for insertion. *)

From stdpp Require Import gmap.
From S2P Require Import Prelude CMem RbTree RbTreeCorrect.

#[local] Hint Constructors is_rb path_ok : core.
#[local] Hint Resolve is_rb_red_any : core.

(** ** The loop on zippers *)

Definition redden (t : rbt) : rbt := match t with E => E | T _ l a r => T Red l a r end.

(** The last turn, at a node [p] of colour [c] whose child [t] lacks a black node
    and whose other child is the black [T _ ol o or]; [None] when the nephews are
    black and the loop climbs. *)
Definition rotate_sib (d : dir) (c : color) (p : Z) (t ol : rbt) (o : Z) (or : rbt) : option rbt :=
  match d with
  | Lft =>
      if tree_red or then Some (T c (T Black t p ol) o (blacken or))
      else match ol with
           | T Red x b y => Some (T c (T Black t p x) b (T Black y o or))
           | _ => None
           end
  | Rgt =>
      if tree_red ol then Some (T c (blacken ol) o (T Black or p t))
      else match or with
           | T Red x b y => Some (T c (T Black ol o x) b (T Black y p t))
           | _ => None
           end
  end.

(** The tree [__rb_erase_color] makes when [t] lacks a black node below [K]. *)
Fixpoint fix_down (K : path) (t : rbt) : rbt :=
  if tree_red t then plug K (blacken t)
  else match K with
  | [] => blacken t
  | mkFrame d c p sib :: K' =>
      match sib with
      | E => plug K t
      | T Black ol o or =>
          match rotate_sib d c p t ol o or with
          | Some t' => blacken (plug K' t')
          | None => fix_down K' (fill (mkFrame d c p (T Red ol o or)) t)
          end
      | T Red ol o or =>
          match d, (match d with Lft => ol | Rgt => or end) with
          | Lft, T _ ql q qr =>
              match rotate_sib d Red p t ql q qr with
              | Some t' => blacken (plug K' (T Black t' o or))
              | None => plug K' (T Black (T Black t p (T Red ql q qr)) o or)
              end
          | Rgt, T _ ql q qr =>
              match rotate_sib d Red p t ql q qr with
              | Some t' => blacken (plug K' (T Black ol o t'))
              | None => plug K' (T Black ol o (T Black (T Red ql q qr) p t))
              end
          | _, E => plug K t
          end
      end
  end.

Lemma inorder_rotate_sib d c p t ol o or t' :
  rotate_sib d c p t ol o or = Some t' ->
  inorder t' = inorder (fill (mkFrame d c p (T Black ol o or)) t).
Proof.
  destruct d; cbn; case_match eqn:E1; try (destruct ol as [|[] x b y]); try (destruct or as [|[] x' b' y']);
    try done; intros [= <-]; cbn; app_norm; done.
Qed.

Lemma inorder_fix_down K t : inorder (fix_down K t) = before K ++ inorder t ++ after K.
Proof.
  rewrite <- inorder_plug. revert t. induction K as [|[d c p sib] K IH]; intros t; cbn [fix_down].
  - destruct (tree_red t); cbn [plug]; apply inorder_blacken.
  - destruct (tree_red t).
    { rewrite !inorder_plug. by rewrite inorder_blacken. }
    destruct sib as [|[] ol o or]; [done| |].
    + destruct d; [destruct ol as [|cq ql q qr] | destruct or as [|cq ql q qr]]; try done.
      all: destruct (rotate_sib _ _ _ _ _ _ _) as [t'|] eqn:Er;
        [apply inorder_rotate_sib in Er; rewrite inorder_blacken|]; cbn [plug];
        rewrite !inorder_plug; cbn; rewrite ?Er; cbn; app_norm; done.
    + destruct (rotate_sib _ _ _ _ _ _ _) as [t'|] eqn:Er.
      * apply inorder_rotate_sib in Er. rewrite inorder_blacken. cbn [plug]. by rewrite !inorder_plug, Er.
      * rewrite IH. cbn [plug]. rewrite !inorder_plug. by destruct d.
Qed.

(** ** Red-black properties *)

Lemma rb_tree_blacken t : rb_tree t -> rb_tree (blacken t).
Proof. intros [n H]. destruct H; cbn; [by exists 0%nat | exists (S n); auto | exists (S n); auto]. Qed.

Lemma is_rb_not_red c n t : is_rb Black n t -> tree_red t = false -> is_rb c n t.
Proof. inversion 1; subst; auto; done. Qed.

(** The last turn restores the height and leaves the top as it was. *)
Lemma rotate_sib_rb d c p t ol o or n t' :
  is_rb Black n t -> tree_red t = false -> is_rb Black n ol -> is_rb Black n or ->
  rotate_sib d c p t ol o or = Some t' ->
  match c with Red => is_rb Black (S n) t' | Black => is_rb Red (S (S n)) t' end.
Proof.
  intros Ht Htr Hol Hor. pose proof (is_rb_not_red Red _ _ Ht Htr) as Ht'.
  assert (Hnr : forall u, is_rb Black n u -> tree_red u = false -> forall c, is_rb c n u)
    by (intros; by apply is_rb_not_red).
  destruct d; cbn; case_match eqn:E1.
  - intros [= <-]. pose proof (blacken_rb _ _ _ Hor E1). destruct c; auto.
  - destruct ol as [|[] x b y]; [done| |done]. intros [= <-]. inversion Hol; subst.
    assert (is_rb Black n x /\ is_rb Black n y) as [? ?] by auto. destruct c; auto 6.
  - intros [= <-]. pose proof (blacken_rb _ _ _ Hol E1). destruct c; auto.
  - destruct or as [|[] x b y]; [done| |done]. intros [= <-]. inversion Hor; subst.
    assert (is_rb Black n x /\ is_rb Black n y) as [? ?] by auto. destruct c; auto 6.
Qed.

(** When the loop climbs, the black nephews allow a red sibling. *)
Lemma rotate_sib_none d c p t ol o or n :
  is_rb Black n ol -> is_rb Black n or -> rotate_sib d c p t ol o or = None ->
  is_rb Black n (T Red ol o or).
Proof.
  intros Hol Hor. destruct d; cbn; case_match eqn:E1; try done.
  - destruct ol as [|[] x b y]; [|done|]; intros _; constructor; auto using is_rb_not_red.
    all: inversion Hol; subst; auto.
  - destruct or as [|[] x b y]; [|done|]; intros _; constructor; auto using is_rb_not_red.
    all: inversion Hor; subst; auto.
Qed.

Lemma fix_down_rb K t c n :
  path_ok c (S n) K -> is_rb Black n t -> rb_tree (fix_down K t).
Proof.
  revert t c n. induction K as [|[d cf p sib] K IH]; intros t c n HK Ht; cbn [fix_down].
  { destruct (tree_red t) eqn:Etr; cbn [plug].
    - exists (S n). by eapply blacken_rb.
    - apply rb_tree_blacken. exists n. by apply is_rb_not_red. }
  destruct (tree_red t) eqn:Etr.
  { eapply plug_rb; [exact HK|]. by eapply blacken_rb. }
  pose proof (fun c => is_rb_not_red c _ _ Ht Etr) as Ht'.
  inversion HK as [|? ? ? ? ? Hs HK'|? c' ? ? ? ? Hs HK']; subst.
  - (* below a red node the sibling is black *)
    inversion Hs as [|?|? ? ol o or Hol Hor]; subst.
    destruct (rotate_sib _ _ _ _ _ _ _) as [t'|] eqn:Er.
    + apply rb_tree_blacken. eapply plug_rb; [exact HK'|].
      apply (rotate_sib_rb _ Red _ _ _ _ _ n _ Ht Etr Hol Hor Er).
    + pose proof (rotate_sib_none _ _ _ _ _ _ _ _ Hol Hor Er) as Hsib.
      assert (tree_red (fill (mkFrame d Red p (T Red ol o or)) t) = true) as Ered by (by destruct d).
      assert (fix_down K (fill (mkFrame d Red p (T Red ol o or)) t)
        = plug K (blacken (fill (mkFrame d Red p (T Red ol o or)) t))) as -> by (destruct K; cbn [fix_down]; by rewrite Ered).
      eapply plug_rb; [exact HK'|]. destruct d; cbn; auto.
  - inversion Hs as [|? ol o or Hol Hor|? ? ol o or Hol Hor]; subst.
    + (* a red sibling gives way to its black child *)
      destruct d.
      * inversion Hol as [|?|? ? ql q qr Hql Hqr]; subst.
        destruct (rotate_sib _ _ _ _ _ _ _) as [t'|] eqn:Er.
        -- apply rb_tree_blacken. eapply plug_rb; [exact HK'|].
           pose proof (rotate_sib_rb _ Red _ _ _ _ _ n _ Ht Etr Hql Hqr Er). cbn in *. auto.
        -- eapply plug_rb; [exact HK'|].
           pose proof (rotate_sib_none _ _ _ _ _ _ _ _ Hql Hqr Er). auto.
      * inversion Hor as [|?|? ? ql q qr Hql Hqr]; subst.
        destruct (rotate_sib _ _ _ _ _ _ _) as [t'|] eqn:Er.
        -- apply rb_tree_blacken. eapply plug_rb; [exact HK'|].
           pose proof (rotate_sib_rb _ Red _ _ _ _ _ n _ Ht Etr Hql Hqr Er). cbn in *. auto.
        -- eapply plug_rb; [exact HK'|].
           pose proof (rotate_sib_none _ _ _ _ _ _ _ _ Hql Hqr Er). auto.
    + destruct (rotate_sib _ _ _ _ _ _ _) as [t'|] eqn:Er.
      * apply rb_tree_blacken. eapply plug_rb; [exact HK'|].
        apply is_rb_red_any. apply (rotate_sib_rb _ Black _ _ _ _ _ n _ Ht Etr Hol Hor Er).
      * pose proof (rotate_sib_none _ _ _ _ _ _ _ _ Hol Hor Er) as Hsib.
        eapply (IH _ _ (S n)); [exact HK'|]. destruct d; cbn; auto.
Qed.

(** ** The turns *)

Ltac erase_open := zips_open; unfold null_or_black in *; rb_run.

Lemma red_sibling_left_zips s K c p ol o or t :
  zips s (mkFrame Lft c p (T Red ol o or) :: K) t ->
  exists s', red_sibling_left s p o = Some (s', addr ol)
    /\ zips s' (mkFrame Lft Red p ol :: mkFrame Lft Black o or :: K) t.
Proof.
  intros H. unfold red_sibling_left. zips_open. rb_run.
  zips_fold K (T Red t p (T Black ol o or)).
  apply rotate_left_zips in Hz as (s' & -> & H). rb_simpl.
  apply (zips_up _ (mkFrame Lft Black o or)) in H. apply (zips_up _ (mkFrame Lft Red p ol)) in H.
  zips_view Hz. rb_run. eauto.
Qed.

Lemma red_sibling_right_zips s K c p ol o or t :
  zips s (mkFrame Rgt c p (T Red ol o or) :: K) t ->
  exists s', red_sibling_right s p o = Some (s', addr or)
    /\ zips s' (mkFrame Rgt Red p or :: mkFrame Rgt Black o ol :: K) t.
Proof.
  intros H. unfold red_sibling_right. zips_open. rb_run.
  zips_fold K (T Red (T Black ol o or) p t).
  apply rotate_right_zips in Hz as (s' & -> & H). rb_simpl.
  apply (zips_up _ (mkFrame Rgt Black o ol)) in H. apply (zips_up _ (mkFrame Rgt Red p or)) in H.
  zips_view Hz. rb_run. eauto.
Qed.

Lemma black_sibling s K d c p ol o or t :
  zips s (mkFrame d c p (T Black ol o or) :: K) t ->
  red_sibling_left s p o = Some (s, o) /\ red_sibling_right s p o = Some (s, o).
Proof.
  intros H. unfold red_sibling_left, red_sibling_right. destruct d; zips_open; by rb_run.
Qed.

(** The turn that ends the loop. *)
Lemma erase_turn_left_last s K c p ol o or t t' :
  zips s (mkFrame Lft c p (T Black ol o or) :: K) t -> rotate_sib Lft c p t ol o or = Some t' ->
  exists s', erase_turn_left s p o = Some (s', false) /\ zips s' K t'.
Proof.
  intros H Hr. cbn in Hr. unfold erase_turn_left. destruct (tree_red or) eqn:Eor.
  - injection Hr as <-. destruct or as [|[] x b y]; [done| |done]. cbn [blacken].
    destruct (tree_red ol) eqn:Eol; zips_open; rb_run.
    all: zips_fold K (T Black t p (T c ol o (T Black x b y)));
      apply rotate_left_zips in Hz as (s' & -> & Hz); rb_simpl; eauto.
  - destruct ol as [|[] x b y]; [done| |done]. injection Hr as <-. zips_open. rb_run.
    zips_fold (mkFrame Rgt c p t :: K) (T Red (T Black x b y) o or).
    apply rotate_right_zips in Hz as (s' & -> & H). zips_open. rb_run.
    zips_fold K (T Black t p (T c x b (T Black y o or))).
    apply rotate_left_zips in Hz as (s' & -> & Hz). rb_simpl. eauto.
Qed.

Lemma erase_turn_right_last s K c p ol o or t t' :
  zips s (mkFrame Rgt c p (T Black ol o or) :: K) t -> rotate_sib Rgt c p t ol o or = Some t' ->
  exists s', erase_turn_right s p o = Some (s', false) /\ zips s' K t'.
Proof.
  intros H Hr. cbn in Hr. unfold erase_turn_right. destruct (tree_red ol) eqn:Eol.
  - injection Hr as <-. destruct ol as [|[] x b y]; [done| |done]. cbn [blacken].
    destruct (tree_red or) eqn:Eor; zips_open; rb_run.
    all: zips_fold K (T Black (T c (T Black x b y) o or) p t);
      apply rotate_right_zips in Hz as (s' & -> & Hz); rb_simpl; eauto.
  - destruct or as [|[] x b y]; [done| |done]. injection Hr as <-. zips_open. rb_run.
    zips_fold (mkFrame Lft c p t :: K) (T Red ol o (T Black x b y)).
    apply rotate_left_zips in Hz as (s' & -> & H). zips_open. rb_run.
    zips_fold K (T Black (T c (T Black ol o x) b y) p t).
    apply rotate_right_zips in Hz as (s' & -> & Hz). rb_simpl. eauto.
Qed.

Lemma rotate_sib_none_black d c p t ol o or :
  rotate_sib d c p t ol o or = None -> tree_red ol = false /\ tree_red or = false.
Proof.
  destruct d; cbn; [destruct (tree_red or) eqn:E; [done|]; destruct ol as [|[] ? ? ?]; done
                   |destruct (tree_red ol) eqn:E; [done|]; destruct or as [|[] ? ? ?]; done].
Qed.

(** The turn that climbs. *)
Lemma erase_turn_left_climb s K c p cb ol o or t :
  zips s (mkFrame Lft c p (T cb ol o or) :: K) t -> tree_red ol = false -> tree_red or = false ->
  exists s', erase_turn_left s p o = Some (s', true) /\ zips s' K (T c t p (T Red ol o or)).
Proof.
  intros H Hl Hr. unfold erase_turn_left. zips_open. rb_run.
  zips_fold K (T c t p (T Red ol o or)). eauto.
Qed.

Lemma erase_turn_right_climb s K c p cb ol o or t :
  zips s (mkFrame Rgt c p (T cb ol o or) :: K) t -> tree_red ol = false -> tree_red or = false ->
  exists s', erase_turn_right s p o = Some (s', true) /\ zips s' K (T c (T Red ol o or) p t).
Proof.
  intros H Hl Hr. unfold erase_turn_right. zips_open. rb_run.
  zips_fold K (T c (T Red ol o or) p t). eauto.
Qed.

(** ** The loop *)

Lemma path_root_in f K h t : addr (plug (f :: K) t) ∈ (path_nodes (f :: K) h).*1.
Proof.
  revert f h t. induction K as [|g K IH]; intros f h t.
  - destruct f as [[] c p sb]; left.
  - cbn [path_nodes fmap list_fmap]. right. rewrite fmap_app. apply elem_of_app. right. apply (IH g).
Qed.

(** The subtree at the end of a path is not the root. *)
Lemma zips_root_neq s f K t : zips s (f :: K) t -> addr t <> s.2.
Proof.
  intros [H ->] E. pose proof (path_root_in f K (addr t) t) as Hin. rewrite <- E in Hin.
  apply list_elem_of_fmap in Hin as ([a c] & Ha & Hin). cbn in Ha. subst a.
  destruct (h_aligned _ _ H (addr t) c) as [Hpos _]; [apply elem_of_app; by right|].
  pose proof (h_nodup _ _ H) as Hn. rewrite fmap_app in Hn. apply NoDup_app in Hn as (_ & Hd & _).
  apply (Hd (addr t)).
  - destruct t; [cbn in Hpos; lia|]. left.
  - apply list_elem_of_fmap. by exists (addr t, c).
Qed.

Lemma null_or_black_zips s K t : zips s K t -> null_or_black s.1 (addr t) = Some (negb (tree_red t)).
Proof. intros [H _]. apply (null_or_black_holds H t _ _). Qed.

(** The loop stops at a red node and at the root. *)
Lemma erase_loop_stop fuel s K t :
  zips s K t -> tree_red t = true \/ K = [] ->
  erase_color_loop (S fuel) s (addr t) (top K) = Some (s, addr t).
Proof.
  intros H Hs. cbn [erase_color_loop]. rewrite (null_or_black_zips s K t H), bind_Some.
  destruct Hs as [-> | ->]; [done|]. destruct H as [_ ->]. cbn [plug].
  by rewrite Z.eqb_refl, andb_false_r.
Qed.

(** One turn at a node without a black node to spare. *)
Lemma erase_loop_turn fuel s d c p sib K t :
  zips s (mkFrame d c p sib :: K) t -> tree_red t = false -> sib <> E ->
  erase_color_loop (S fuel) s (addr t) p
  = '(s, climb) ←
      match d with
      | Lft => '(s, other) ← red_sibling_left s p (addr sib); erase_turn_left s p other
      | Rgt => '(s, other) ← red_sibling_right s p (addr sib); erase_turn_right s p other
      end;
    (if (climb : bool)
     then c ← deref s.1 p; erase_color_loop fuel s p (rb_parent c)
     else Some (s, s.2)).
Proof.
  intros H Ht Hs. cbn [erase_color_loop]. rewrite (null_or_black_zips _ _ _ H), bind_Some, Ht.
  rewrite (proj2 (Z.eqb_neq (addr t) s.2)) by (by eapply zips_root_neq). cbn [negb andb].
  destruct sib as [|cs ol o or]; [done|]. destruct d; zips_open; by rb_run.
Qed.

(** The loop followed by blackening its node. *)
Definition erase_finish (r : option (rb_state * Z)) : option rb_state :=
  '(s, node) ← r; if node =? 0 then Some s else m ← rb_set_black s.1 node; Some (m, s.2).

Lemma finish_at s K t :
  zips s K t -> exists s', erase_finish (Some (s, addr t)) = Some s' /\ is_tree s' (plug K (blacken t)).
Proof.
  intros H. unfold erase_finish, is_tree. rewrite bind_Some.
  destruct t as [|c l a r]; [exists s; by rewrite <- zips_plug|]. zips_open. rb_run.
  zips_fold K (T Black l a r). eexists. split; [done|]. by rewrite <- zips_plug.
Qed.

Lemma finish_root s t :
  zips s [] t -> exists s', erase_finish (Some (s, s.2)) = Some s' /\ is_tree s' (blacken t).
Proof. intros H. pose proof H as [_ E]. cbn in E. rewrite E. by apply (finish_at s [] t). Qed.

(** After a climbing turn the loop goes on at the parent. *)
Lemma climb_parent fuel s K c l a r :
  zips s K (T c l a r) ->
  (n ← deref s.1 a; erase_color_loop fuel s a (rb_parent n)) = erase_color_loop fuel s a (top K).
Proof. intros H. zips_open. by rb_run. Qed.

Lemma erase_loop_black fuel s K d c p ol o or t :
  zips s (mkFrame d c p (T Black ol o or) :: K) t -> tree_red t = false ->
  match rotate_sib d c p t ol o or with
  | Some t' => exists s', erase_color_loop (S fuel) s (addr t) p = Some (s', s'.2) /\ zips s' K t'
  | None => exists s', erase_color_loop (S fuel) s (addr t) p = erase_color_loop fuel s' p (top K)
              /\ zips s' K (fill (mkFrame d c p (T Red ol o or)) t)
  end.
Proof.
  intros H Ht. rewrite (erase_loop_turn fuel s d c p (T Black ol o or) K t) by done.
  destruct (black_sibling _ _ _ _ _ _ _ _ _ H) as [El Er]. cbn [addr].
  destruct (rotate_sib d c p t ol o or) as [t'|] eqn:Erot.
  - destruct d; [rewrite El | rewrite Er]; rb_simpl.
    + destruct (erase_turn_left_last _ _ _ _ _ _ _ _ _ H Erot) as (s' & -> & Hz). rb_simpl. eauto.
    + destruct (erase_turn_right_last _ _ _ _ _ _ _ _ _ H Erot) as (s' & -> & Hz). rb_simpl. eauto.
  - destruct (rotate_sib_none_black _ _ _ _ _ _ _ Erot) as [Hl Hr].
    destruct d; [rewrite El | rewrite Er]; rb_simpl.
    + destruct (erase_turn_left_climb _ _ _ _ _ _ _ _ _ H Hl Hr) as (s' & -> & Hz). rb_simpl.
      rewrite (climb_parent fuel _ _ _ _ _ _ Hz). eauto.
    + destruct (erase_turn_right_climb _ _ _ _ _ _ _ _ _ H Hl Hr) as (s' & -> & Hz). rb_simpl.
      rewrite (climb_parent fuel _ _ _ _ _ _ Hz). eauto.
Qed.

(** The child of the sibling next to the hole, and the other one. *)
Definition near (d : dir) (l r : rbt) : rbt := match d with Lft => l | Rgt => r end.
Definition far (d : dir) (l r : rbt) : rbt := match d with Lft => r | Rgt => l end.

Lemma erase_loop_red fuel s K d c p ol o or ql q qr t :
  zips s (mkFrame d c p (T Red ol o or) :: K) t -> tree_red t = false -> near d ol or = T Black ql q qr ->
  match rotate_sib d Red p t ql q qr with
  | Some t' => exists s', erase_color_loop (S fuel) s (addr t) p = Some (s', s'.2)
              /\ zips s' (mkFrame d Black o (far d ol or) :: K) t'
  | None => exists s', erase_color_loop (S fuel) s (addr t) p = erase_color_loop fuel s' p o
              /\ zips s' (mkFrame d Black o (far d ol or) :: K) (fill (mkFrame d Red p (T Red ql q qr)) t)
  end.
Proof.
  intros H Ht Hn. rewrite (erase_loop_turn fuel s d c p (T Red ol o or) K t) by done. cbn [addr].
  destruct d; cbn in Hn; subst; cbn [near far] in *.
  - destruct (red_sibling_left_zips _ _ _ _ _ _ _ _ H) as (s1 & -> & H1). rb_simpl.
    destruct (rotate_sib Lft Red p t ql q qr) as [t'|] eqn:Er.
    + destruct (erase_turn_left_last _ _ _ _ _ _ _ _ _ H1 Er) as (s' & -> & Hz). rb_simpl. eauto.
    + destruct (rotate_sib_none_black _ _ _ _ _ _ _ Er) as [Hl Hr].
      destruct (erase_turn_left_climb _ _ _ _ _ _ _ _ _ H1 Hl Hr) as (s' & -> & Hz). rb_simpl.
      rewrite (climb_parent fuel _ _ _ _ _ _ Hz). eauto.
  - destruct (red_sibling_right_zips _ _ _ _ _ _ _ _ H) as (s1 & -> & H1). rb_simpl.
    destruct (rotate_sib Rgt Red p t ql q qr) as [t'|] eqn:Er.
    + destruct (erase_turn_right_last _ _ _ _ _ _ _ _ _ H1 Er) as (s' & -> & Hz). rb_simpl. eauto.
    + destruct (rotate_sib_none_black _ _ _ _ _ _ _ Er) as [Hl Hr].
      destruct (erase_turn_right_climb _ _ _ _ _ _ _ _ _ H1 Hl Hr) as (s' & -> & Hz). rb_simpl.
      rewrite (climb_parent fuel _ _ _ _ _ _ Hz). eauto.
Qed.

Lemma is_tree_root s K t : zips s K t -> zips s [] (plug K t).
Proof. by rewrite <- zips_plug. Qed.

(** A turn that ends with a rotation leaves the root to blacken. *)
Lemma finish_plug s K t :
  zips s K t -> exists s', erase_finish (Some (s, s.2)) = Some s' /\ is_tree s' (blacken (plug K t)).
Proof. intros H%is_tree_root. by apply finish_root. Qed.

Lemma erase_loop_zips fuel s K t c n :
  (S (length K) < fuel)%nat -> zips s K t -> path_ok c (S n) K -> is_rb Black n t ->
  exists s', erase_finish (erase_color_loop fuel s (addr t) (top K)) = Some s' /\ is_tree s' (fix_down K t).
Proof.
  revert s K t c n. induction fuel as [|fuel IH]; intros s K t c n Hf H HK Ht; [lia|].
  destruct (tree_red t) eqn:Etr.
  { rewrite (erase_loop_stop fuel s K t) by auto. destruct K; cbn [fix_down]; rewrite Etr; by apply finish_at. }
  destruct K as [|[d cf p sib] K].
  { rewrite (erase_loop_stop fuel s [] t) by auto. cbn [fix_down]. rewrite Etr. by apply (finish_at s [] t). }
  cbn [top f_addr length] in *.
  destruct sib as [|[] ol o or]; [exfalso; inversion HK as [|? ? ? ? ? Hs|? ? ? ? ? ? Hs]; inversion Hs| |].
  - (* red sibling *)
    assert (exists ql q qr, near d ol or = T Black ql q qr) as (ql & q & qr & Hnear).
    { inversion HK as [|? ? ? ? ? Hs|? ? ? ? ? ? Hs]; subst; [inversion Hs|].
      inversion Hs as [|? ? ? ? Hl Hr|]; subst. destruct d; [inversion Hl | inversion Hr]; subst; eauto. }
    pose proof (erase_loop_red fuel _ _ _ _ _ _ _ _ _ _ _ _ H Etr Hnear) as Hstep.
    cbn [fix_down]. rewrite Etr. destruct d; cbn [near far] in *; subst;
      (destruct (rotate_sib _ _ _ _ _ _ _) as [t'|] eqn:Er; destruct Hstep as (s' & -> & Hz);
       [apply (finish_plug _ _ _ Hz)|]).
    + destruct fuel as [|fuel]; [lia|].
      pose proof (erase_loop_stop fuel _ _ _ Hz (or_introl eq_refl)) as Est. cbn [addr top f_addr fill f_dir] in Est.
      rewrite Est. apply (finish_at _ _ _ Hz).
    + destruct fuel as [|fuel]; [lia|].
      pose proof (erase_loop_stop fuel _ _ _ Hz (or_introl eq_refl)) as Est. cbn [addr top f_addr fill f_dir] in Est.
      rewrite Est. apply (finish_at _ _ _ Hz).
  - pose proof (erase_loop_black fuel _ _ _ _ _ _ _ _ _ H Etr) as Hstep.
    cbn [fix_down]. rewrite Etr.
    destruct (rotate_sib _ _ _ _ _ _ _) as [t'|] eqn:Er; destruct Hstep as (s' & -> & Hz);
      [apply (finish_plug _ _ _ Hz)|].
    assert (Hp : addr (fill (mkFrame d cf p (T Red ol o or)) t) = p) by (by destruct d).
    assert (Hf' : (S (length K) < fuel)%nat) by lia.
    inversion HK as [|? ? ? ? ? Hs HK'|? c' ? ? ? ? Hs HK']; subst.
    + (* the red parent is blackened *)
      assert (tree_red (fill (mkFrame d Red p (T Red ol o or)) t) = true) as Ered by (by destruct d).
      destruct fuel as [|fuel]; [lia|].
      pose proof (erase_loop_stop fuel _ _ _ Hz (or_introl Ered)) as Est. rewrite Hp in Est. rewrite Est.
      replace (fix_down _ _) with (plug K (blacken (fill (mkFrame d Red p (T Red ol o or)) t)))
        by (destruct K; cbn [fix_down]; by rewrite Ered).
      pose proof (finish_at _ _ _ Hz) as Hfin. rewrite Hp in Hfin. exact Hfin.
    + inversion Hs as [|?|? ? ? ? ? Hol Hor]; subst.
      pose proof (rotate_sib_none _ _ _ _ _ _ _ _ Hol Hor Er) as Hsib.
      pose proof (is_rb_not_red Black _ _ Ht Etr).
      pose proof (IH s' K _ c' (S n) Hf' Hz HK' ltac:(destruct d; cbn; auto)) as Hrec.
      rewrite Hp in Hrec. exact Hrec.
Qed.

Lemma erase_color_zips fuel s K t c n :
  (S (length K) < fuel)%nat -> zips s K t -> path_ok c (S n) K -> is_rb Black n t ->
  exists s', __rb_erase_color fuel s (addr t) (top K) = Some s' /\ is_tree s' (fix_down K t).
Proof. apply erase_loop_zips. Qed.

(** ** Unlinking *)

Lemma holds_drop m x L : holds m (x :: L) -> holds m L.
Proof.
  intros [Hn Hc Ha]. split; [by apply NoDup_cons in Hn as [_ Hn] | |]; intros a c Hin;
    [apply Hc | apply (Ha a c)]; by right.
Qed.

(** Moving a subtree below another parent. *)
Lemma subtree_set_parent {m L} (H : holds m L) t q R `{FL : !FocusList (nodes q t) L R} v :
  aligned v ->
  exists m', (if addr t =? 0 then Some m else rb_set_parent m (addr t) v) = Some m'
    /\ holds m' (nodes v t ++ R).
Proof.
  intros Hv. apply (holds_perm _ _ _ FL) in H. destruct t as [|c l a r]; [by exists m|].
  cbn [nodes addr app] in *. pose proof (holds_pos H a _ _). zfalse (a =? 0).
  destruct (rb_set_parent_holds H a q c (addr l) (addr r) _ v Hv) as (m' & -> & H'). eauto.
Qed.

(** Reattach the subtree [t] where the goal does it. *)
Ltac rb_move t :=
  match goal with
  | H : holds ?m _ |- context [if addr t =? 0 then Some ?m else rb_set_parent ?m (addr t) ?v] =>
      let m' := fresh "m" in let E := fresh "E" in let H' := fresh "Hnew" in
      destruct (subtree_set_parent H t _ _ v ltac:(rb_aligned H)) as (m' & E & H');
      rewrite E; clear E; clear H; rename H' into H; rb_simpl
  end.

(** Forget the cell of [a] and close a state. *)
Ltac rb_drop a :=
  match goal with
  | H : holds _ _ |- _ =>
      apply (holds_perm _ _ _ (focus_perm (p:=a) (c:=_) (R:=_))) in H; apply holds_drop in H
  end.

Ltac zips_drop a Hr := rb_drop a; zips_close Hr.

(** The node with at most one child is replaced by that child. *)
Lemma splice_child_left s K c a r :
  zips s K (T c E a r) ->
  exists s', splice_child s a = Some (s', addr r, top K, color_bit c) /\ zips s' K r.
Proof.
  intros H. unfold splice_child, replace_child.
  destruct K as [|[[] ck p sb] K]; zips_open; rb_run; rb_move r; rb_run; zips_drop a Hroot.
Qed.

Lemma splice_child_right s K c l a :
  zips s K (T c l a E) -> l <> E ->
  exists s', splice_child s a = Some (s', addr l, top K, color_bit c) /\ zips s' K l.
Proof.
  intros H Hl. destruct l as [|cl ll la lr]; [done|]. clear Hl. unfold splice_child, replace_child.
  destruct K as [|[[] ck p sb] K]; zips_open; rb_run; zips_drop a Hroot.
Qed.

(** Copying the parent [q] and the colour [c] of another cell. *)
Ltac rb_copy_parent p q c :=
  match goal with
  | H : holds ?m _ |- context [set_parent_color ?m p ?f] =>
      rb_set H (set_parent_color_holds H p _ _ _ _ _ f q c eq_refl ltac:(rb_aligned H))
  end.

(** The successor is the right child. *)
Lemma splice_successor_child s K c a cl ll la lr c2 b r2 :
  zips s (mkFrame Rgt c a (T cl ll la lr) :: K) (T c2 E b r2) ->
  exists s', splice_successor s a b = Some (s', addr r2, b, color_bit c2)
    /\ zips s' (mkFrame Rgt c b (T cl ll la lr) :: K) r2.
Proof.
  intros H. unfold splice_successor, replace_child.
  destruct K as [|[[] ck p sb] K]; zips_open; rb_run.
  - rb_copy_parent b 0 c. rb_run. zips_drop a Hroot.
  - rb_copy_parent b p c. rb_run. zips_drop a Hroot.
  - rb_copy_parent b p c. rb_run. zips_drop a Hroot.
Qed.

(** The cells of a path from the bottom up to a parent at [q]. *)
Definition seg_top (K : path) (q : Z) : Z := match K with [] => q | f :: _ => f_addr f end.

Fixpoint seg (K : path) (q h : Z) : list (Z * cell) :=
  match K with
  | [] => []
  | f :: K =>
      (f_addr f, match f_dir f with
                 | Lft => mkCell (seg_top K q) (f_color f) h (addr (f_sib f))
                 | Rgt => mkCell (seg_top K q) (f_color f) (addr (f_sib f)) h
                 end) :: nodes (f_addr f) (f_sib f) ++ seg K q (f_addr f)
  end.

(** The address at the top of a path. *)
Fixpoint end_addr (K : path) (h : Z) : Z := match K with [] => h | f :: K => end_addr K (f_addr f) end.

Lemma path_nodes_app K2 K h :
  path_nodes (K2 ++ K) h = seg K2 (top K) h ++ path_nodes K (end_addr K2 h).
Proof.
  revert h. induction K2 as [|f K2 IH]; intros h; [done|]. cbn. rewrite IH.
  assert (top (K2 ++ K) = seg_top K2 (top K)) as -> by (by destruct K2).
  by rewrite <- app_assoc.
Qed.

(** Changing the parent at the top of a path. *)
Lemma seg_set_parent {m L} (H : holds m L) f K q h R `{FL : !FocusList (seg (f :: K) q h) L R} v :
  aligned v ->
  exists m', rb_set_parent m (end_addr (f :: K) h) v = Some m' /\ holds m' (seg (f :: K) v h ++ R).
Proof.
  intros Hv. apply (holds_perm _ _ _ FL) in H. clear FL L. revert f h R H.
  induction K as [|g K IH]; intros f h R H.
  - destruct f as [[] c a sb]; cbn [seg end_addr f_addr f_dir f_sib f_color seg_top app] in *.
    + destruct (rb_set_parent_holds H a q c h (addr sb) _ v Hv) as (m' & -> & H'). eauto.
    + destruct (rb_set_parent_holds H a q c (addr sb) h _ v Hv) as (m' & -> & H'). eauto.
  - assert (exists x, forall q, seg (f :: g :: K) q h = x :: nodes (f_addr f) (f_sib f) ++ seg (g :: K) q (f_addr f))
      as [x Hx].
    { exists (f_addr f, match f_dir f with
        | Lft => mkCell (f_addr g) (f_color f) h (addr (f_sib f))
        | Rgt => mkCell (f_addr g) (f_color f) (addr (f_sib f)) h end). done. }
    rewrite Hx in H. cbn [app] in H. rewrite <- app_assoc in H.
    destruct (IH g (f_addr f) (x :: nodes (f_addr f) (f_sib f) ++ R)) as (m' & E & H').
    { eapply holds_perm; [|exact H]. apply (Permutation_app_swap_app (x :: nodes _ _)). }
    exists m'. split; [exact E|]. rewrite Hx. cbn [app]. rewrite <- app_assoc.
    eapply holds_perm; [|exact H']. symmetry. apply (Permutation_app_swap_app (x :: nodes _ _)).
Qed.

Lemma end_addr_cons f K h h' : end_addr (f :: K) h = end_addr (f :: K) h'.
Proof. done. Qed.

(** The cells of a path that starts with a given cell. *)
Lemma holds_seg m L cf p sb K q h R1 R2 R3
    `{!Focus p L (mkCell (seg_top K q) cf h (addr sb)) R1}
    `{!FocusList (nodes p sb) R1 R2} `{!FocusList (seg K q p) R2 R3} :
  holds m L -> holds m (seg (mkFrame Lft cf p sb :: K) q h ++ R3).
Proof.
  intros H. eapply holds_perm; [|exact H]. rewrite (focus_perm (p:=p) (L:=L)).
  rewrite (focus_list_perm (X:=nodes p sb) (L:=R1)), (focus_list_perm (X:=seg K q p) (L:=R2)).
  cbn. by rewrite <- app_assoc.
Qed.

Lemma addr_plug_app K2 f K t t' :
  addr (plug (K2 ++ f :: K) t) = addr (plug (f :: K) t').
Proof. rewrite plug_app. apply addr_plug_cons. Qed.

(** The successor is deeper: the leftmost node of the right subtree. *)
Lemma splice_successor_deep s K c a cl ll la lr c2 b r2 cf p sb K2 :
  let f := mkFrame Lft cf p sb in
  zips s (f :: K2 ++ mkFrame Rgt c a (T cl ll la lr) :: K) (T c2 E b r2) ->
  exists s', splice_successor s a b = Some (s', addr r2, p, color_bit c2)
    /\ zips s' (f :: K2 ++ mkFrame Rgt c b (T cl ll la lr) :: K) r2.
Proof.
  intros f [H Hroot]. unfold zips. rewrite app_comm_cons, path_nodes_app in H.
  setoid_rewrite (app_comm_cons K2). setoid_rewrite path_nodes_app.
  rewrite app_comm_cons, (addr_plug_app _ _ _ _ E) in Hroot.
  setoid_rewrite (addr_plug_app _ (mkFrame Rgt c b _) _ _ E).
  destruct s as [m root]. cbn [fst snd] in *.
  cbn [nodes path_nodes addr top f_dir f_color f_addr f_sib app] in H.
  unfold splice_successor, replace_child.
  destruct K as [|[[] ck pk sk] K]; cbn [seg end_addr f f_dir f_color f_addr f_sib top app] in *; rb_run;
    rb_move r2; rb_run.
  all: apply (holds_seg _ _ cf p sb K2 a (addr r2) _ _ _) in H.
  all: assert (aligned b) as Hb by (apply (holds_key_aligned H b _ _)).
  all: destruct (seg_set_parent H (mkFrame Lft cf p sb) K2 a (addr r2) _ b Hb) as (m' & Em & H');
    clear H; rename H' into H; cbn [end_addr f_addr] in Em; rewrite Em; clear Em;
    cbn [seg f_dir f_addr f_color f_sib app] in H; rb_simpl; rb_run.
  1: rb_copy_parent b 0 c.
  2, 3: rb_copy_parent b pk c.
  all: rb_run; rb_drop a; eexists; (split; [reflexivity|]); cbn [fst snd path_nodes top f_dir f_addr f_color f_sib nodes addr];
    (split; [eapply holds_perm; [|exact H]; perm_cancel|]).
  - done.
  - rewrite Hroot. cbn [plug]. apply addr_plug_cons.
  - rewrite Hroot. cbn [plug]. apply addr_plug_cons.
Qed.

(** ** Deletion *)

(** The leftmost node of a tree, at the end of a path of left turns. *)
Lemma leftmost_split c l a r :
  exists K c2 b r2, T c l a r = plug K (T c2 E b r2) /\ Forall (fun f => f_dir f = Lft) K
    /\ before K = [] /\ hd 0 (inorder (T c l a r)) = b.
Proof.
  revert c a r. induction l as [|cl ll IHl la lr _]; intros c a r.
  - by exists [], c, a, r.
  - destruct (IHl cl la lr) as (K & c2 & b & r2 & E & HK & Hb & Hh).
    exists (K ++ [mkFrame Lft c a r]), c2, b, r2. rewrite plug_app, <- E. split; [done|].
    split; [apply Forall_app; split; [done | by constructor]|]. split.
    + clear -HK. induction HK as [|f K Hf _ IH]; [done|]. cbn. by rewrite IH, Hf.
    + cbn [inorder]. rewrite <- Hh. apply hd_app. cbn. by destruct (inorder ll).
Qed.

(** What is left when a node of colour [c] leaves the hole of [K] to the subtree
    [t]: a black node is missing, or none. *)
Lemma erase_rebalance fuel s K t c cK n :
  (S (length K) < fuel)%nat -> zips s K t ->
  path_ok cK (match c with Red => n | Black => S n end) K -> is_rb Black n t ->
  (c = Red -> is_rb cK n t) ->
  exists s' t', (if color_bit c =? RB_BLACK then __rb_erase_color fuel s (addr t) (top K) else Some s) = Some s'
    /\ is_tree s' t' /\ rb_tree t' /\ inorder t' = before K ++ inorder t ++ after K.
Proof.
  intros Hf H HK Ht Hred. destruct c; cbn [color_bit Z.eqb RB_RED RB_BLACK].
  - exists s, (plug K t). split; [done|]. unfold is_tree. rewrite <- zips_plug, inorder_plug.
    split; [done|]. split; [|done]. eapply plug_rb; [exact HK | auto].
  - destruct (erase_color_zips fuel s K t cK n Hf H HK Ht) as (s' & E & Hs').
    exists s', (fix_down K t). split; [exact E|]. split; [done|]. split; [by eapply fix_down_rb|].
    apply inorder_fix_down.
Qed.

(** The sides of a subtree's root, whatever the order of the two cases. *)
Lemma is_rb_children cK n c l a r :
  is_rb cK n (T c l a r) ->
  exists k, is_rb Black k l /\ is_rb Black k r /\ n = (match c with Red => k | Black => S k end)
    /\ (c = Red -> is_rb cK n l /\ is_rb cK n r).
Proof. inversion 1; subst; eexists; eauto 6 using is_rb_red_any; repeat split; eauto; done. Qed.

Lemma before_app K2 K : before (K2 ++ K) = before K ++ before K2.
Proof. induction K2 as [|f K2 IH]; cbn; [by rewrite app_nil_r|]. by rewrite IH, app_assoc. Qed.

Lemma after_app K2 K : after (K2 ++ K) = after K2 ++ after K.
Proof. induction K2 as [|f K2 IH]; cbn; [done|]. by rewrite IH, app_assoc. Qed.

Lemma path_ok_readdress c n K2 d c1 a b l K :
  path_ok c n (K2 ++ mkFrame d c1 a l :: K) -> path_ok c n (K2 ++ mkFrame d c1 b l :: K).
Proof.
  revert c n. induction K2 as [|f K2 IH]; intros c n H; cbn in *; inversion H; subst; econstructor; eauto.
Qed.

Lemma zips_app s K2 K t : zips s K (plug K2 t) <-> zips s (K2 ++ K) t.
Proof. rewrite (zips_plug s K), (zips_plug s (K2 ++ K)). by rewrite plug_app. Qed.

(** The splice of a node with two children, on either side of its successor. *)
Lemma splice_successor_zips s K2 K c a cl ll la lr c2 b r2 :
  Forall (fun f => f_dir f = Lft) K2 ->
  zips s (K2 ++ mkFrame Rgt c a (T cl ll la lr) :: K) (T c2 E b r2) ->
  exists s', splice_successor s a b
      = Some (s', addr r2, top (K2 ++ mkFrame Rgt c b (T cl ll la lr) :: K), color_bit c2)
    /\ zips s' (K2 ++ mkFrame Rgt c b (T cl ll la lr) :: K) r2.
Proof.
  intros HK2 H. destruct HK2 as [|[d cf p sb] K2 Hd _]; [by apply splice_successor_child|].
  cbn in Hd. subst d. by apply splice_successor_deep.
Qed.

Lemma zips_deref s K c l a r :
  zips s K (T c l a r) -> deref s.1 a = Some (conc (mkCell (top K) c (addr l) (addr r))).
Proof. intros H. zips_open. by rb_run. Qed.

(** The children tests of [rb_erase]. *)
Lemma zips_child_null s K c l a r :
  zips s K (T c l a r) -> (addr l =? 0) = (match l with E => true | _ => false end)
    /\ (addr r =? 0) = (match r with E => true | _ => false end).
Proof.
  intros H. zips_open. destruct l as [|cl ll la lr], r as [|cr rl ra rr]; cbn [addr nodes app] in *.
  all: split; try done; apply Z.eqb_neq.
  all: first [pose proof (holds_pos H la _ _); lia | pose proof (holds_pos H ra _ _); lia].
Qed.

Lemma erase_two_correct fuel s K c l a r cK n :
  zips s K (T c l a r) -> path_ok cK n K -> is_rb cK n (T c l a r) -> l <> E -> r <> E ->
  (S (length K + height (T c l a r)) < fuel)%nat ->
  exists s' t', erase_two fuel s a = Some s' /\ is_tree s' t' /\ rb_tree t'
    /\ inorder t' = before K ++ inorder l ++ inorder r ++ after K.
Proof.
  intros H HK Ht Hl Hr Hf. destruct l as [|cl ll la lr]; [done|]. destruct r as [|cr rl ra rr]; [done|].
  destruct (leftmost_split cr rl ra rr) as (K2 & c2 & b & r2 & Er & Hleft & Hbef & Hhd).
  pose proof (zips_up s (mkFrame Rgt c a (T cl ll la lr)) K (T cr rl ra rr)) as [_ Hup].
  apply Hup in H as Hz. clear Hup. cbn [height] in Hf.
  pose proof (leftmost_zips fuel s _ _ _ _ _ Hz ltac:(lia)) as Hlm. rewrite Hhd in Hlm.
  rewrite Er in Hz. apply zips_app in Hz.
  destruct (splice_successor_zips _ _ _ _ _ _ _ _ _ _ _ _ Hleft Hz) as (s' & Es & Hz').
  unfold erase_two. rewrite (zips_deref _ _ _ _ _ _ H). rb_simpl. rewrite Hlm. rb_simpl.
  rewrite Es. rb_simpl.
  set (Kb := K2 ++ mkFrame Rgt c b (T cl ll la lr) :: K) in *.
  assert (exists c' n', path_ok c' n' Kb /\ is_rb c' n' (T c2 E b r2)) as (c' & n' & HKb & Hb).
  { destruct (plug_rb K cK n _ HK Ht) as [m' Hm].
    destruct (plug_rb_inv (K2 ++ mkFrame Rgt c a (T cl ll la lr) :: K) m' (T c2 E b r2)) as (c' & n' & ? & ?).
    { rewrite plug_app, <- Er. exact Hm. }
    exists c', n'. split; [by eapply path_ok_readdress | done]. }
  destruct (is_rb_children _ _ _ _ _ _ Hb) as (k & _ & Hr2 & -> & Hred).
  assert (Hlen : (length Kb <= length K + S (height (T cr rl ra rr)))%nat).
  { subst Kb. rewrite length_app. cbn [length]. rewrite Er.
    pose proof (plug_height K2 (T c2 E b r2)). lia. }
  destruct (erase_rebalance fuel s' Kb r2 c2 c' k) as (s2 & t2 & -> & Hs2 & Ht2 & Hin).
  - cbn [height] in *. lia.
  - exact Hz'.
  - by destruct c2.
  - exact Hr2.
  - intros ->. by destruct (Hred eq_refl).
  - exists s2, t2. split; [done|]. split; [done|]. split; [done|]. rewrite Hin, Er, inorder_plug.
    subst Kb. rewrite before_app, after_app, Hbef. cbn. app_norm. done.
Qed.

(** Deletion, by the place of the node. *)
Lemma rb_erase_zips s K c l a r fuel :
  zips s K (T c l a r) -> rb_tree (plug K (T c l a r)) ->
  (S (2 * Nat.log2 (S (length (inorder (plug K (T c l a r)))))) < fuel)%nat ->
  exists s' t', rb_erase fuel s a = Some s' /\ is_tree s' t' /\ rb_tree t'
    /\ inorder t' = (before K ++ inorder l) ++ inorder r ++ after K.
Proof.
  intros Hz Hrb Hf.
  pose proof (rb_tree_path K _ Hrb) as Hh. cbn [height] in Hh.
  destruct Hrb as [m Hrb]. destruct (plug_rb_inv _ _ _ Hrb) as (cK & n & HK & Ht).
  destruct (is_rb_children _ _ _ _ _ _ Ht) as (k & Hl & Hr & Hn & Hred). rewrite Hn in HK.
  destruct (zips_child_null _ _ _ _ _ _ Hz) as [El Er].
  unfold rb_erase. rewrite (zips_deref _ _ _ _ _ _ Hz), bind_Some.
  cbn [conc rb_left rb_right c_left c_right]. rewrite El, Er. clear El Er.
  destruct l as [|cl ll la lr]; [|destruct r as [|cr rl ra rr]]; cbn [orb].
  - pose proof (splice_child_left s K c a r Hz) as (s' & Es & Hz').
    rewrite Es. rb_simpl.
    destruct (erase_rebalance fuel s' K r c cK k) as (s2 & t2 & E2 & Hs2 & Ht2 & Hin);
      [lia | done | done | done | intros ->; rewrite <- Hn; by destruct (Hred eq_refl) |].
    exists s2, t2. split; [exact E2|]. split; [done|]. split; [done|]. rewrite Hin. app_norm. done.
  - pose proof (splice_child_right s K c (T cl ll la lr) a Hz ltac:(done)) as (s' & Es & Hz').
    rewrite Es. rb_simpl.
    destruct (erase_rebalance fuel s' K (T cl ll la lr) c cK k) as (s2 & t2 & E2 & Hs2 & Ht2 & Hin);
      [lia | done | done | done | intros ->; rewrite <- Hn; by destruct (Hred eq_refl) |].
    exists s2, t2. split; [exact E2|]. split; [done|]. split; [done|]. rewrite Hin. cbn. app_norm. done.
  - rewrite Hn in Ht. clear Hn.
    pose proof (erase_two_correct fuel s K c (T cl ll la lr) a (T cr rl ra rr) cK _ Hz HK Ht ltac:(done)
      ltac:(done) ltac:(cbn [height] in *; lia)) as (s2 & t2 & E2 & Hs2 & Ht2 & Hin).
    exists s2, t2. split; [exact E2|]. split; [done|]. split; [done|]. rewrite Hin. app_norm. done.
Qed.

(** C4: deleting a node always ends, restores the red-black properties and removes
    that node and no other, whatever its place; a tree of [n] nodes needs at most
    [2 log2 (n + 1) + 2] turns of each loop. *)
Theorem rb_erase_correct s t l1 a l2 fuel :
  is_tree s t -> rb_tree t -> inorder t = l1 ++ a :: l2 ->
  (S (2 * Nat.log2 (S (length (inorder t)))) < fuel)%nat ->
  exists s' t', rb_erase fuel s a = Some s' /\ is_tree s' t' /\ rb_tree t' /\ inorder t' = l1 ++ l2.
Proof.
  intros H Hrb E Hf. destruct (is_tree_zipper s t l1 a l2 H E) as (K & c & l & r & -> & Hz & -> & ->).
  by apply (rb_erase_zips s K c).
Qed.

(** ** Replacing a node *)

Lemma holds_add m L a c :
  holds m L -> a ∉ L.*1 -> 0 < a -> aligned a -> aligned (c_parent c) -> m !! a = Some (conc c) ->
  holds m ((a, c) :: L).
Proof.
  intros H Hf Hpos Hal Hp Hm. rewrite <- (insert_id m a (conc c)) by done. by apply holds_fresh.
Qed.

(** [*new = *a] *)
Ltac rb_copy_node a new :=
  match goal with
  | H : holds ?m _ |- context [<[new := conc ?v]> ?m] =>
      let H' := fresh "Hnew" in
      pose proof (holds_insert H new _ _ v (holds_parent_aligned H a _ _)) as H';
      clear H; rename H' into H
  end.

Lemma rb_replace_node_zips s K c l a r new c0 :
  zips s K (T c l a r) -> new ∉ inorder (plug K (T c l a r)) ->
  0 < new -> aligned new -> aligned (c_parent c0) -> s.1 !! new = Some (conc c0) ->
  exists s', rb_replace_node s a new = Some s' /\ zips s' K (T c l new r).
Proof.
  intros [H Hroot] Hf Hpos Hal Hc0 Hn.
  assert (Hfree : new ∉ (nodes (top K) (T c l a r) ++ path_nodes K (addr (T c l a r))).*1).
  { rewrite fmap_app, nodes_addrs, path_nodes_addrs. rewrite inorder_plug in Hf.
    rewrite !elem_of_app in *. tauto. }
  apply (holds_add _ _ new c0) in H; [|done..]. clear Hn Hf Hfree.
  destruct s as [m root], c0 as [q0 cc0 l0 r0]. cbn [fst snd] in *. unfold rb_replace_node.
  cbn [nodes path_nodes addr top f_dir f_color f_addr f_sib app] in H.
  destruct K as [|[[] ck p sb] K]; cbn [nodes path_nodes addr top f_dir f_color f_addr f_sib app] in H; rb_run;
    rb_move l; rb_run; rb_move r; rb_run.
  all: rb_copy_node a new; zips_drop a Hroot.
Qed.

(** [rb_replace_node] puts a free node in the place of another without
    touching the shape, the colours or the other nodes of the tree. *)
Theorem rb_replace_node_correct s t l1 a l2 new c0 :
  is_tree s t -> rb_tree t -> inorder t = l1 ++ a :: l2 ->
  new ∉ inorder t -> 0 < new -> aligned new -> aligned (c_parent c0) -> s.1 !! new = Some (conc c0) ->
  exists s' t', rb_replace_node s a new = Some s' /\ is_tree s' t' /\ rb_tree t'
    /\ inorder t' = l1 ++ new :: l2.
Proof.
  intros H [m Hrb] Ein Hf Hpos Hal Hc0 Hn.
  destruct (is_tree_zipper s t l1 a l2 H Ein) as (K & c & l & r & -> & Hz & -> & ->).
  destruct (rb_replace_node_zips s K c l a r new c0) as (s' & Es & Hz'); [done..|].
  exists s', (plug K (T c l new r)). split; [done|]. unfold is_tree. rewrite <- zips_plug.
  split; [done|]. split; [|rewrite inorder_plug; cbn; app_norm; done].
  destruct (plug_rb_inv _ _ _ Hrb) as (cK & k & HK & Ht). eapply plug_rb; [exact HK|].
  inversion Ht; subst; auto.
Qed.

(** ** Concrete trees *)

(** The root, a node with two children. *)
Lemma rb_erase_correct_witness :
  exists s' t', rb_erase 9 (store_of three_nodes) 8 = Some s' /\ is_tree s' t' /\ rb_tree t'
    /\ inorder t' = [4; 12].
Proof.
  apply (rb_erase_correct (store_of three_nodes) three_nodes [4] 8 [12] 9).
  - exact three_nodes_tree.
  - exact three_nodes_rb.
  - reflexivity.
  - vm_compute. lia.
Defined.

Lemma rb_replace_node_correct_witness :
  exists s' t', rb_replace_node
      (<[16 := conc (mkCell 0 Red 0 0)]> (store_of three_nodes).1, (store_of three_nodes).2) 8 16 = Some s'
    /\ is_tree s' t' /\ rb_tree t' /\ inorder t' = [4; 16; 12].
Proof.
  assert (Hf : 16 ∉ inorder three_nodes) by (apply (bool_decide_unpack _); vm_compute; exact I).
  apply (rb_replace_node_correct _ three_nodes [4] 8 [12] 16 (mkCell 0 Red 0 0)).
  - apply zips_free; [exact three_nodes_tree | exact Hf].
  - exact three_nodes_rb.
  - reflexivity.
  - exact Hf.
  - lia.
  - done.
  - done.
  - reflexivity.
Defined.
