(* ===== verification/StrMap.v ===== *)
(** * fun_struct/map.c: a string map on the red-black tree

    The node is the first member of [struct map], so an entry has its node's
    address; keys and values are separate allocations, kept with the entry.  A key
    is a C string (its bytes without the NUL), a value the bytes of its
    allocation. *)

From stdpp Require Import gmap sorting.
From S2P Require Import Prelude CMem RbTree RbTreeCorrect RbErase.

(** ** The map *)

Record entry := mkEntry { e_key : list Z; e_val : list Z }.

Record map_state := mkMap { mp_tree : rb_state; mp_entries : gmap Z entry }.

Fixpoint get_loop (fuel : nat) (st : map_state) (str : list Z) (node : Z) : option Z :=
  match fuel with
  | O => None
  | S fuel =>
      return_if node =? 0 with Some 0 ;;
      data ← mp_entries st !! node;
      let cmp := strcmp str (e_key data) in
      n ← deref (mp_tree st).1 node;
      if cmp <? 0 then get_loop fuel st str (rb_left n)
      else if cmp >? 0 then get_loop fuel st str (rb_right n)
      else Some node
  end.

(** The entry's address, or null. *)
Definition get (fuel : nat) (st : map_state) (str : list Z) : option Z :=
  get_loop fuel st str (mp_tree st).2.

Definition load_link (s : rb_state) (link : rb_link) : option Z :=
  match link with
  | LinkRoot => Some s.2
  | LinkLeft p => n ← deref s.1 p; Some (rb_left n)
  | LinkRight p => n ← deref s.1 p; Some (rb_right n)
  end.

(** The loop of [put]: the entry with the key, or the link and the parent for it. *)
Fixpoint put_loop (fuel : nat) (st : map_state) (key : list Z) (new_node : rb_link) (parent : Z)
    : option (Z + rb_link * Z) :=
  match fuel with
  | O => None
  | S fuel =>
      p ← load_link (mp_tree st) new_node;
      return_if p =? 0 with Some (inr (new_node, parent)) ;;
      this_node ← mp_entries st !! p;
      let result := strcmp key (e_key this_node) in
      if result <? 0 then put_loop fuel st key (LinkLeft p) p
      else if result >? 0 then put_loop fuel st key (LinkRight p) p
      else Some (inl p)
  end.

(** [strcpy (dst, src)] into an allocation; [src] must hold a NUL. *)
Fixpoint strlen (src : list Z) : option Z :=
  match src with
  | [] => None
  | b :: src => if b =? 0 then Some 0 else n ← strlen src; Some (n + 1)
  end.

Definition strcpy (dst src : list Z) : option (list Z) :=
  n ← strlen src; memcpy dst 0 src 0 (n + 1).

(** [data] is the address [malloc] returns for the entry and [junk] what its node's
    memory holds; the allocations succeed. *)
Definition put (fuel : nat) (data : Z) (junk : rb_node) (st : map_state) (key val : list Z) (val_size : Z)
    : option (Z * map_state) :=
  return_if val_size =? 0 with Some (0, st) ;;
  v ← rd_bytes val 0 val_size;
  r ← put_loop fuel st key LinkRoot 0;
  match r with
  | inl this_node =>
      e ← mp_entries st !! this_node;
      v ← strcpy (e_val e) val;
      Some (0, mkMap (mp_tree st) (<[this_node := mkEntry (e_key e) v]> (mp_entries st)))
  | inr (new_node, parent) =>
      let m := <[data := junk]> (mp_tree st).1 in
      s ← rb_link_node (m, (mp_tree st).2) data parent new_node;
      s ← rb_insert_color fuel s data;
      Some (1, mkMap s (<[data := mkEntry key v]> (mp_entries st)))
  end.

(** [free (node)]: the node and what it points to are no longer accessible. *)
Definition map_free (st : map_state) (node : Z) : map_state :=
  if node =? 0 then st
  else mkMap (delete node (mp_tree st).1, (mp_tree st).2) (delete node (mp_entries st)).

Definition map_first (fuel : nat) (st : map_state) : option Z := rb_first fuel (mp_tree st).
Definition map_next (fuel : nat) (st : map_state) (node : Z) : option Z :=
  rb_next fuel (mp_tree st).1 node.

(** A string that ends has a NUL within its bytes. *)
Lemma strlen_bound src n : strlen src = Some n -> 0 <= n /\ n + 1 <= zlen src.
Proof.
  revert n. induction src as [|b src IH]; cbn; [done|]. intros n. destruct (b =? 0); [intros [= <-]; lia|].
  destruct (strlen src) as [k|]; [|done]. cbn. intros [= <-]. specialize (IH k eq_refl). lia.
Qed.

(** ** Representation *)

Definition ekey (st : map_state) (a : Z) : list Z := default [] (e_key <$> mp_entries st !! a).

(** The state is the tree [t] whose entries are the finite map [M]. *)
Record map_rep (st : map_state) (t : rbt) (M : gmap (list Z) (list Z)) : Prop := {
  mr_tree : is_tree (mp_tree st) t;
  mr_rb : rb_tree t;
  mr_entries : forall a, a ∈ inorder t -> is_Some (mp_entries st !! a);
  mr_sorted : StronglySorted (fun a b => strcmp (ekey st a) (ekey st b) < 0) (inorder t);
  mr_map : forall k v, M !! k = Some v <-> exists a, a ∈ inorder t /\ mp_entries st !! a = Some (mkEntry k v)
}.

(** A search for [str] has passed the nodes on the path. *)
Definition between (st : map_state) (str : list Z) (K : path) : Prop :=
  (forall b, b ∈ before K -> strcmp (ekey st b) str < 0) /\
  (forall b, b ∈ after K -> strcmp str (ekey st b) < 0).

Section search.
Context (st : map_state) (t : rbt) (M : gmap (list Z) (list Z)) (R : map_rep st t M) (str : list Z).

Lemma sorted_at K c l a r : t = plug K (T c l a r) ->
  (forall b, b ∈ before K ++ inorder l -> strcmp (ekey st b) (ekey st a) < 0)
  /\ (forall b, b ∈ inorder r ++ after K -> strcmp (ekey st a) (ekey st b) < 0).
Proof.
  intros ->. pose proof (mr_sorted _ _ _ R) as Hs. rewrite inorder_plug in Hs. cbn in Hs.
  rewrite <- app_assoc, app_assoc in Hs. cbn in Hs. split; intros b Hb.
  - apply (StronglySorted_app_1_elem_of _ _ _ b a) in Hs; [done | done | left].
  - apply StronglySorted_app_1_r, StronglySorted_cons in Hs as [Hs _].
    rewrite Forall_forall in Hs. by apply Hs.
Qed.

Lemma between_left K c l a r : t = plug K (T c l a r) ->
  between st str K -> strcmp str (ekey st a) < 0 -> between st str (mkFrame Lft c a r :: K).
Proof.
  intros Ht [Hb Ha] Hc. destruct (sorted_at _ _ _ _ _ Ht) as [_ Hr]. split; cbn; intros b.
  - rewrite app_nil_r. apply Hb.
  - intros [-> |Hin]%elem_of_cons; [done|]. eapply strcmp_trans; [exact Hc|]. by apply Hr.
Qed.

Lemma between_right K c l a r : t = plug K (T c l a r) ->
  between st str K -> strcmp (ekey st a) str < 0 -> between st str (mkFrame Rgt c a l :: K).
Proof.
  intros Ht [Hb Ha] Hc. destruct (sorted_at _ _ _ _ _ Ht) as [Hl _]. split; cbn; intros b; [|apply Ha].
  rewrite !elem_of_app. intros [Hin|[Hin|Hin]]; [by apply Hb| |].
  - eapply strcmp_trans; [|exact Hc]. apply Hl, elem_of_app. by right.
  - apply list_elem_of_singleton in Hin as ->. done.
Qed.

(** Nodes outside a hole the search ends in have other keys. *)
Lemma between_ne K b : between st str K -> b ∈ before K ++ after K -> ekey st b <> str.
Proof.
  intros [Hb Ha] [Hin|Hin]%elem_of_app E.
  - specialize (Hb b Hin). rewrite E, strcmp_refl in Hb. lia.
  - specialize (Ha b Hin). rewrite E, strcmp_refl in Ha. lia.
Qed.

Lemma node_at K c l a r : t = plug K (T c l a r) ->
  exists e, mp_entries st !! a = Some e /\ ekey st a = e_key e
    /\ deref (mp_tree st).1 a = Some (conc (mkCell (top K) c (addr l) (addr r))).
Proof.
  intros Ht. destruct (mr_entries _ _ _ R a) as [e He].
  { rewrite Ht, inorder_plug. cbn. rewrite !elem_of_app, elem_of_cons. tauto. }
  exists e. split; [done|]. split; [unfold ekey; by rewrite He|].
  pose proof (mr_tree _ _ _ R) as Hz. unfold is_tree in Hz. rewrite Ht, <- zips_plug in Hz.
  zips_open. by rb_run.
Qed.

Lemma subtree_null K u : t = plug K u -> (addr u =? 0) = match u with E => true | _ => false end.
Proof.
  intros Ht. destruct u as [|c l a r]; [done|]. cbn. destruct (node_at _ _ _ _ _ Ht) as (_ & _ & _ & Hd).
  unfold deref in Hd. by destruct (a =? 0).
Qed.

Lemma get_loop_spec fuel K u :
  t = plug K u -> between st str K -> (height u < fuel)%nat ->
  exists a, get_loop fuel st str (addr u) = Some a
    /\ ((a = 0 /\ forall b, b ∈ inorder t -> ekey st b <> str) \/ (a ∈ inorder t /\ ekey st a = str)).
Proof.
  revert K u. induction fuel as [|fuel IH]; intros K u Ht Hb Hf; [lia|].
  cbn [get_loop]. rewrite (subtree_null _ _ Ht). destruct u as [|c l a r].
  - exists 0. split; [done|]. left. split; [done|]. intros b. rewrite Ht, inorder_plug. by apply between_ne.
  - destruct (node_at _ _ _ _ _ Ht) as (e & He & Hk & Hd). cbn [addr height] in *.
    rewrite He, bind_Some, Hd, bind_Some. cbn [conc rb_left rb_right c_left c_right].
    rewrite <- Hk. destruct (strcmp_range str (ekey st a)) as [E|[E|E]]; rewrite E; cbn [Z.ltb Z.gtb Z.compare].
    + apply (IH (mkFrame Lft c a r :: K) l Ht); [|lia]. apply (between_left _ _ _ _ _ Ht); [done | lia].
    + exists a. split; [done|]. right. split; [|symmetry; by apply strcmp_eq].
      rewrite Ht, inorder_plug. cbn. rewrite !elem_of_app, elem_of_cons. tauto.
    + apply (IH (mkFrame Rgt c a l :: K) r Ht); [|lia].
      apply (between_right _ _ _ _ _ Ht); [done | apply strcmp_flip; lia].
Qed.

(** The link of the hole holds the subtree there. *)
Lemma load_link_at K u : t = plug K u -> load_link (mp_tree st) (link_of K) = Some (addr u).
Proof.
  intros Ht. pose proof (mr_tree _ _ _ R) as Hz. unfold is_tree in Hz. rewrite Ht, <- zips_plug in Hz.
  zips_open. destruct K as [|[[] c p sb] K]; cbn in *; [by rewrite Hroot| |]; by rb_run.
Qed.

Lemma put_loop_spec fuel K u :
  t = plug K u -> between st str K -> (height u < fuel)%nat ->
  (exists a, put_loop fuel st str (link_of K) (top K) = Some (inl a) /\ a ∈ inorder t /\ ekey st a = str)
  \/ exists K', t = plug K' E /\ between st str K'
       /\ put_loop fuel st str (link_of K) (top K) = Some (inr (link_of K', top K')).
Proof.
  revert K u. induction fuel as [|fuel IH]; intros K u Ht Hb Hf; [lia|].
  cbn [put_loop]. rewrite (load_link_at _ _ Ht), bind_Some, (subtree_null _ _ Ht).
  destruct u as [|c l a r]; [right; by exists K|].
  destruct (node_at _ _ _ _ _ Ht) as (e & He & Hk & Hd). cbn [addr height] in *.
  rewrite He, bind_Some. rewrite <- Hk.
  destruct (strcmp_range str (ekey st a)) as [C|[C|C]]; rewrite C; cbn [Z.ltb Z.gtb Z.compare].
  - apply (IH (mkFrame Lft c a r :: K) l Ht); [|lia]. apply (between_left _ _ _ _ _ Ht); [done | lia].
  - left. exists a. split; [done|]. split; [|symmetry; by apply strcmp_eq].
    rewrite Ht, inorder_plug. cbn. rewrite !elem_of_app, elem_of_cons. tauto.
  - apply (IH (mkFrame Rgt c a l :: K) r Ht); [|lia].
    apply (between_right _ _ _ _ _ Ht); [done | apply strcmp_flip; lia].
Qed.

(** Different nodes have different keys. *)
Lemma key_inj a b : a ∈ inorder t -> b ∈ inorder t -> ekey st a = ekey st b -> a = b.
Proof.
  intros Ha Hb Hk. pose proof (mr_sorted _ _ _ R) as Hs.
  apply list_elem_of_split in Ha as (l1 & l2 & E). rewrite E in *.
  apply elem_of_app in Hb as [Hb|[-> |Hb]%elem_of_cons]; [|done|].
  - apply (StronglySorted_app_1_elem_of _ _ _ b a) in Hs; [|done|left].
    cbv beta in Hs. rewrite Hk, strcmp_refl in Hs. lia.
  - apply StronglySorted_app_1_r, StronglySorted_cons in Hs as [Hs _]. rewrite Forall_forall in Hs.
    specialize (Hs b Hb). rewrite Hk, strcmp_refl in Hs. lia.
Qed.

Lemma entry_at a : a ∈ inorder t -> exists v, mp_entries st !! a = Some (mkEntry (ekey st a) v).
Proof.
  intros Ha. destruct (mr_entries _ _ _ R a Ha) as [[k v] He]. exists v. unfold ekey. by rewrite He.
Qed.

Lemma key_in a v : a ∈ inorder t -> mp_entries st !! a = Some (mkEntry str v) -> M !! str = Some v.
Proof. intros. apply (mr_map _ _ _ R). by exists a. Qed.

Lemma key_not_in : (forall b, b ∈ inorder t -> ekey st b <> str) -> M !! str = None.
Proof.
  intros Hn. destruct (M !! str) as [v|] eqn:E; [|done]. apply (mr_map _ _ _ R) in E as (a & Ha & He).
  exfalso. apply (Hn a Ha). unfold ekey. by rewrite He.
Qed.

Lemma root_height fuel : (2 * Nat.log2 (S (length (inorder t))) < fuel)%nat -> (height t < fuel)%nat.
Proof. intros. pose proof (rb_tree_height t (mr_rb _ _ _ R)). lia. Qed.

Lemma between_nil : between st str [].
Proof. split; intros b Hb; by apply not_elem_of_nil in Hb. Qed.
End search.

(** ** Lookup *)

(** [get], on a represented map. *)
Lemma get_finds st t M str fuel :
  map_rep st t M -> (2 * Nat.log2 (S (length (inorder t))) < fuel)%nat ->
  exists a, get fuel st str = Some a
    /\ match M !! str with
       | Some v => a <> 0 /\ mp_entries st !! a = Some (mkEntry str v)
       | None => a = 0
       end.
Proof.
  intros R Hf. pose proof (root_height _ _ _ R _ Hf) as Hh. unfold get.
  destruct (mr_tree _ _ _ R) as [_ ->].
  destruct (get_loop_spec st t M R str fuel [] t eq_refl (between_nil st str) Hh)
    as (a & Ha & [[Ha0 Hn]|[Hin Hk]]); exists a; (split; [done|]).
  - by rewrite (key_not_in _ _ _ R _ Hn).
  - destruct (entry_at _ _ _ R a Hin) as [v Hv]. rewrite Hk in Hv.
    rewrite (key_in _ _ _ R _ _ _ Hin Hv). split; [|done]. intros ->.
    apply inorder_zipper in Hin as (K & c & l & r & Ht).
    destruct (node_at _ _ _ R _ _ _ _ _ Ht) as (_ & _ & _ & Hd). done.
Qed.

(** ** Updates of the representation *)

Lemma sorted_keys_ext st st' l :
  (forall a, a ∈ l -> ekey st' a = ekey st a) ->
  StronglySorted (fun a b => strcmp (ekey st a) (ekey st b) < 0) l ->
  StronglySorted (fun a b => strcmp (ekey st' a) (ekey st' b) < 0) l.
Proof.
  induction l as [|x l IH]; intros He Hs; [constructor|].
  apply StronglySorted_cons in Hs as [Hx Hs]. apply StronglySorted_cons. split.
  - rewrite Forall_forall in *. intros b Hb. rewrite !He by (by left || by right). by apply Hx.
  - apply IH; [|done]. intros a Ha. apply He. by right.
Qed.

Lemma ekey_insert_eq s es a k v : ekey (mkMap s (<[a := mkEntry k v]> es)) a = k.
Proof. unfold ekey. cbn. by rewrite lookup_insert_eq. Qed.

Lemma ekey_insert_ne st s e a b : a <> b -> ekey (mkMap s (<[a := e]> (mp_entries st))) b = ekey st b.
Proof. intros. unfold ekey. cbn. by rewrite lookup_insert_ne. Qed.

(** The value of a key changes. *)
Lemma map_rep_update st t M a key v :
  map_rep st t M -> a ∈ inorder t -> ekey st a = key ->
  map_rep (mkMap (mp_tree st) (<[a := mkEntry key v]> (mp_entries st))) t (<[key := v]> M).
Proof.
  intros R Ha Hk. split; cbn [mp_tree mp_entries]; [by apply R | by apply R| | |].
  - intros b Hb. destruct (decide (a = b)) as [<-|]; [rewrite lookup_insert_eq; by eexists|].
    rewrite lookup_insert_ne by done. by apply R.
  - eapply sorted_keys_ext; [|apply R]. intros b _.
    destruct (decide (a = b)) as [<-|]; [by rewrite ekey_insert_eq | by apply ekey_insert_ne].
  - intros k w. destruct (decide (key = k)) as [<-|Hne].
    + rewrite lookup_insert_eq. split; [intros [= ->]; exists a; by rewrite lookup_insert_eq|].
      intros (b & Hb & He). destruct (decide (a = b)) as [<-|Hab].
      { rewrite lookup_insert_eq in He. congruence. }
      rewrite lookup_insert_ne in He by done. exfalso. apply Hab.
      apply (key_inj st t M R); [done..|]. rewrite Hk. unfold ekey. by rewrite He.
    + rewrite lookup_insert_ne, (mr_map _ _ _ R) by done.
      assert (Hlk : forall b, <[a := mkEntry key v]> (mp_entries st) !! b = Some (mkEntry k w)
                              <-> mp_entries st !! b = Some (mkEntry k w)).
      { intros b. destruct (decide (a = b)) as [<-|]; [|by rewrite lookup_insert_ne].
        rewrite lookup_insert_eq. unfold ekey in Hk. split; intros He; [congruence|].
        rewrite He in Hk. cbn in Hk. congruence. }
      by setoid_rewrite Hlk.
Qed.

(** A new entry at the hole where the search ended. *)
Lemma map_rep_insert st K M s' t' a key v :
  map_rep st (plug K E) M -> between st key K -> a ∉ inorder (plug K E) ->
  is_tree s' t' -> rb_tree t' -> inorder t' = before K ++ a :: after K ->
  map_rep (mkMap s' (<[a := mkEntry key v]> (mp_entries st))) t' (<[key := v]> M).
Proof.
  intros R Hb Ha Ht Hrb Hin. set (st' := mkMap _ _).
  assert (Hmem : forall b, b ∈ inorder t' <-> b = a \/ b ∈ inorder (plug K E)).
  { intros b. rewrite Hin, inorder_plug. cbn. rewrite !elem_of_app, elem_of_cons. tauto. }
  assert (Hold : forall b, b ∈ inorder (plug K E) -> a <> b) by (intros b ? ->; done).
  split; cbn [mp_tree mp_entries]; [done | done | | |].
  - intros b [-> |Hbin]%Hmem; [subst st'; cbn; rewrite lookup_insert_eq; by eexists|].
    subst st'. cbn. rewrite lookup_insert_ne by auto. by apply R.
  - rewrite Hin. pose proof (mr_sorted _ _ _ R) as Hs. rewrite inorder_plug in Hs, Hold. cbn in Hs, Hold.
    assert (Hke : forall b, b ∈ before K ++ after K -> ekey st' b = ekey st b).
    { intros b Hbin. apply ekey_insert_ne. by apply Hold. }
    assert (Hka : ekey st' a = key) by apply ekey_insert_eq.
    apply StronglySorted_app in Hs as (Hc & Hs1 & Hs2).
    apply StronglySorted_app. split; [|split].
    + intros x y Hx [-> |Hy]%elem_of_cons.
      * rewrite Hka, Hke by (apply elem_of_app; by left). by apply Hb.
      * rewrite !Hke by (apply elem_of_app; auto). by apply Hc.
    + eapply sorted_keys_ext; [|exact Hs1]. intros. apply Hke, elem_of_app. by left.
    + apply StronglySorted_cons. split.
      * apply Forall_forall. intros y Hy. rewrite Hka, Hke by (apply elem_of_app; by right). by apply Hb.
      * eapply sorted_keys_ext; [|exact Hs2]. intros. apply Hke, elem_of_app. by right.
  - intros k w. destruct (decide (key = k)) as [<-|Hne].
    + rewrite lookup_insert_eq. split.
      { intros [= ->]. exists a. rewrite Hmem. split; [by left|]. subst st'. cbn. by rewrite lookup_insert_eq. }
      intros (b & [-> |Hbin]%Hmem & He).
      { subst st'. cbn in He. rewrite lookup_insert_eq in He. congruence. }
      subst st'. cbn in He. rewrite lookup_insert_ne in He by auto. exfalso.
      rewrite inorder_plug in Hbin. apply (between_ne st key K b Hb); [done|]. unfold ekey. by rewrite He.
    + rewrite lookup_insert_ne, (mr_map _ _ _ R) by done. split.
      * intros (b & Hbin & He). exists b. rewrite Hmem. split; [by right|].
        subst st'. cbn. by rewrite lookup_insert_ne by auto.
      * intros (b & [-> |Hbin]%Hmem & He); subst st'; cbn in He.
        { rewrite lookup_insert_eq in He. congruence. }
        rewrite lookup_insert_ne in He by auto. by exists b.
Qed.

(** ** Insertion *)

Lemma put_found fuel data junk st t M key val val_size :
  map_rep st t M -> 0 < val_size <= zlen val -> is_Some (M !! key) ->
  (2 * Nat.log2 (S (length (inorder t))) < fuel)%nat ->
  exists a, a ∈ inorder t /\ ekey st a = key
    /\ put fuel data junk st key val val_size
       = (e ← mp_entries st !! a;
          v ← strcpy (e_val e) val;
          Some (0, mkMap (mp_tree st) (<[a := mkEntry (e_key e) v]> (mp_entries st)))).
Proof.
  intros R Hv [w HM] Hf. pose proof (root_height _ _ _ R _ Hf) as Hh. unfold put, rd_bytes.
  zfalse (val_size =? 0). ztrue ((0 <=? 0) && (0 <=? val_size) && (0 + val_size <=? zlen val)).
  rewrite bind_Some.
  destruct (put_loop_spec st t M R key fuel [] t eq_refl (between_nil st key) Hh)
    as [(a & E & Ha & Hk)|(K & -> & Hb & E)]; cbn [link_of top] in E; rewrite E, bind_Some.
  - by exists a.
  - apply (mr_map _ _ _ R) in HM as (a & Ha & He). exfalso.
    rewrite inorder_plug in Ha. apply (between_ne st key K a Hb Ha). unfold ekey. by rewrite He.
Qed.

Lemma put_new fuel data junk st t M key val val_size :
  map_rep st t M -> 0 < val_size <= zlen val -> M !! key = None ->
  data ∉ inorder t -> 0 < data -> aligned data ->
  (2 * Nat.log2 (S (length (inorder t))) < fuel)%nat ->
  exists st' t', put fuel data junk st key val val_size = Some (1, st')
    /\ map_rep st' t' (<[key := take (Z.to_nat val_size) val]> M)
    /\ inorder t' ≡ₚ data :: inorder t.
Proof.
  intros R Hv HM Hd Hpos Hal Hf. pose proof (root_height _ _ _ R _ Hf) as Hh. unfold put, rd_bytes.
  zfalse (val_size =? 0). ztrue ((0 <=? 0) && (0 <=? val_size) && (0 + val_size <=? zlen val)).
  rewrite bind_Some.
  destruct (put_loop_spec st t M R key fuel [] t eq_refl (between_nil st key) Hh)
    as [(a & E & Ha & Hk)|(K & -> & Hb & E)]; cbn [link_of top] in E; rewrite E, bind_Some.
  { destruct (entry_at _ _ _ R a Ha) as [v He]. rewrite Hk in He.
    rewrite (key_in _ _ _ R _ _ _ Ha He) in HM. done. }
  pose proof (mr_tree _ _ _ R) as Hz. unfold is_tree in Hz. rewrite <- zips_plug in Hz.
  destruct (mp_tree st) as [m root] eqn:Em. apply (zips_free _ _ _ _ data junk) in Hz; [|done].
  destruct (rb_insert_zips _ K data junk fuel Hz (mr_rb _ _ _ R) Hd Hpos Hal (lookup_insert_eq _ _ _) Hf)
    as (s' & t' & Es & Ht' & Hrb' & Hin).
  destruct (rb_link_node _ data _ _) as [s1|]; [|done]. 
    change (rb_insert_color fuel s1 data = Some s') in Es. rewrite bind_Some, Es, bind_Some.
  eexists _, t'. split; [done|]. split; [by apply (map_rep_insert st K M)|].
  rewrite Hin, inorder_plug. cbn. by rewrite Permutation_middle.
Qed.

(** [put] of a key the map already has copies the new string over the old
    value and keeps the rest of it; it is undefined exactly when the string, with its
    NUL, is longer than the old value (or has no NUL in the bytes given). *)
Theorem put_overwrites fuel data junk st t M key val val_size old :
  map_rep st t M -> 0 < val_size <= zlen val -> M !! key = Some old ->
  (2 * Nat.log2 (S (length (inorder t))) < fuel)%nat ->
  match strlen val with
  | Some n =>
      if n + 1 <=? zlen old
      then exists st', put fuel data junk st key val val_size = Some (0, st')
           /\ map_rep st' t (<[key := take (Z.to_nat (n + 1)) val ++ drop (Z.to_nat (n + 1)) old]> M)
      else put fuel data junk st key val val_size = None
  | None => put fuel data junk st key val val_size = None
  end.
Proof.
  intros R Hv HM Hf.
  destruct (put_found fuel data junk st t M key val val_size R Hv ltac:(by eexists) Hf) as (a & Ha & Hk & ->).
  destruct (entry_at _ _ _ R a Ha) as [w He]. rewrite Hk in He.
  rewrite (key_in _ _ _ R _ _ _ Ha He) in HM. injection HM as ->.
  rewrite He, bind_Some. cbn [e_val e_key]. unfold strcpy.
  destruct (strlen val) as [n|] eqn:En; [rewrite bind_Some | done].
  apply strlen_bound in En as [Hn0 Hn].
  destruct (Z.leb_spec (n + 1) (zlen old)).
  - rewrite memcpy_Some by lia. rewrite bind_Some. eexists. split; [done|].
    rewrite inserts_eq by (rewrite length_take; lia).
    rewrite length_take, drop_0. cbn [Z.to_nat take app].
    rewrite (Nat.min_l (Z.to_nat (n + 1))) by lia.
    by apply map_rep_update.
  - unfold memcpy, rd_bytes. ztrue ((0 <=? 0) && (0 <=? n + 1) && (0 + (n + 1) <=? zlen val)).
    rewrite bind_Some. unfold wr_bytes. rewrite length_take.
    change (drop (Z.to_nat 0) val) with val. rewrite Nat.min_l by lia.
    zfalse ((0 <=? 0) && (0 + Z.of_nat (Z.to_nat (n + 1)) <=? zlen old)). done.
Qed.

(** ** A run of insertions *)

(** The arguments of a [put] of a value of [zlen val] bytes. *)
Record put_args := mkPut { pa_data : Z; pa_junk : rb_node; pa_key : list Z; pa_val : list Z }.

Fixpoint puts (fuel : nat) (st : map_state) (l : list put_args) : option map_state :=
  match l with
  | [] => Some st
  | p :: l =>
      '(_, st) ← put fuel (pa_data p) (pa_junk p) st (pa_key p) (pa_val p) (zlen (pa_val p));
      puts fuel st l
  end.

(** The finite map they build. *)
Definition values_of (l : list put_args) : gmap (list Z) (list Z) :=
  list_to_map ((fun p => (pa_key p, pa_val p)) <$> l).

Definition map_empty : map_state := mkMap (∅, 0) ∅.

Lemma map_empty_rep : map_rep map_empty E ∅.
Proof.
  split; [| | | |].
  - split; [|done]. split; [by constructor| |]; intros a c H; by apply not_elem_of_nil in H.
  - exists 0%nat. constructor.
  - intros a H. by apply not_elem_of_nil in H.
  - constructor.
  - intros k v. split; [by rewrite lookup_empty|]. intros (a & Ha & _). by apply not_elem_of_nil in Ha.
Qed.

(** What the allocator and the caller provide: fresh aligned entries, non-empty values. *)
Definition put_ok (p : put_args) : Prop := 0 < pa_data p /\ aligned (pa_data p) /\ pa_val p <> [].

Lemma puts_map fuel l : forall st t M,
  map_rep st t M -> Forall put_ok l -> NoDup (pa_data <$> l) -> NoDup (pa_key <$> l) ->
  (forall p, p ∈ l -> (pa_data p ∉ inorder t) /\ M !! pa_key p = None) ->
  (2 * Nat.log2 (length (inorder t) + length l) < fuel)%nat ->
  exists st' t', puts fuel st l = Some st' /\ length (inorder t') = (length (inorder t) + length l)%nat
    /\ map_rep st' t' (values_of l ∪ M).
Proof.
  induction l as [|p l IH]; intros st t M R Hok Hd Hk Hf Hfuel.
  - exists st, t. cbn. rewrite Nat.add_0_r, (left_id_L ∅ (∪)). done.
  - apply Forall_cons in Hok as [(Hp1 & Hp2 & Hp3) Hok].
    rewrite fmap_cons in Hd. rewrite fmap_cons in Hk. apply NoDup_cons in Hd as [Hd1 Hd], Hk as [Hk1 Hk].
    destruct (Hf p ltac:(left)) as [Hp4 Hp5].
    assert (0 < zlen (pa_val p)) by (destruct (pa_val p); [done | cbn; lia]).
    destruct (put_new fuel (pa_data p) (pa_junk p) st t M (pa_key p) (pa_val p) (zlen (pa_val p)))
      as (st1 & t1 & E & R1 & Hin); [done | lia | done.. | |].
    { pose proof (Nat.log2_le_mono (S (length (inorder t))) (length (inorder t) + length (p :: l))).
      cbn [length] in *. lia. }
    cbn [puts]. rewrite E, bind_Some. rewrite Nat2Z.id, take_ge in R1 by done.
    pose proof (Permutation_length Hin) as Hlen. cbn [length] in Hlen.
    destruct (IH st1 t1 _ R1 Hok Hd Hk) as (st' & t' & E' & Hl' & R').
    + intros q Hq. rewrite Hin, elem_of_cons. split.
      * intros [Hq'|Hq']; [|by apply (Hf q ltac:(by right))].
        apply Hd1. rewrite <- Hq'. by apply list_elem_of_fmap_2.
      * rewrite lookup_insert_ne; [by apply (Hf q ltac:(by right))|].
        intros Hq'. apply Hk1. rewrite Hq'. by apply list_elem_of_fmap_2.
    + cbn [length] in *. rewrite Hlen. by rewrite Nat.add_succ_l, <- Nat.add_succ_r.
    + exists st', t'. split; [done|]. split; [cbn [length]; lia|].
      unfold values_of in *. rewrite fmap_cons. cbn [list_to_map foldr fst snd].
      rewrite <- insert_union_l. rewrite <- insert_union_r in R'; [done|].
      apply not_elem_of_list_to_map. rewrite <- list_fmap_compose. exact Hk1.
Qed.

(** C8: a map built by [put] from nothing returns by [get], for each key put, an
    entry with its value, and null for any other key: fresh entries, different keys. *)
Theorem put_get fuel l str :
  Forall put_ok l -> NoDup (pa_data <$> l) -> NoDup (pa_key <$> l) ->
  (2 * Nat.log2 (S (length l)) < fuel)%nat ->
  exists st a, puts fuel map_empty l = Some st /\ get fuel st str = Some a
    /\ (forall p, p ∈ l -> pa_key p = str -> a <> 0 /\ mp_entries st !! a = Some (mkEntry str (pa_val p)))
    /\ (str ∉ pa_key <$> l -> a = 0).
Proof.
  intros Hok Hd Hk Hf.
  destruct (puts_map fuel l map_empty E ∅ map_empty_rep Hok Hd Hk) as (st & t & E & Hl & R).
  { intros p _. split; [by apply not_elem_of_nil | apply lookup_empty]. }
  { cbn. pose proof (Nat.log2_le_mono (length l) (S (length l))). lia. }
  rewrite (right_id_L ∅ (∪)) in R. cbn in Hl.
  destruct (get_finds st t _ str fuel R) as (a & Ha & Hs); [by rewrite Hl|].
  exists st, a. split; [done|]. split; [done|]. split.
  - intros p Hp <-.
    assert (values_of l !! pa_key p = Some (pa_val p)) as Hm.
    { apply elem_of_list_to_map; [by rewrite <- list_fmap_compose|].
      apply list_elem_of_fmap. by exists p. }
    by rewrite Hm in Hs.
  - intros Hn. replace (values_of l !! str) with (@None (list Z)) in Hs; [done|].
    symmetry. apply not_elem_of_list_to_map. by rewrite <- list_fmap_compose.
Qed.

(** ** Removal *)

Lemma sorted_remove {A} (R : A -> A -> Prop) l1 a l2 :
  StronglySorted R (l1 ++ a :: l2) -> StronglySorted R (l1 ++ l2).
Proof.
  rewrite !StronglySorted_app. intros (H & H1 & H2%StronglySorted_cons). destruct H2 as [_ H2].
  split; [|done]. intros x y Hx Hy. apply H; [done | by right].
Qed.

(** Erasing the node of an entry and freeing the entry removes its key from the
    map and leaves the others. *)
Theorem erase_free_removes fuel st t M a key v :
  map_rep st t M -> a ∈ inorder t -> mp_entries st !! a = Some (mkEntry key v) ->
  (S (2 * Nat.log2 (S (length (inorder t)))) < fuel)%nat ->
  exists s' t', rb_erase fuel (mp_tree st) a = Some s'
    /\ map_rep (map_free (mkMap s' (mp_entries st)) a) t' (delete key M).
Proof.
  intros R Ha He Hf. pose proof (is_tree_nodup _ _ (mr_tree _ _ _ R)) as Hnd.
  destruct (inorder_zipper t a Ha) as (K & c & l & r & ->).
  pose proof (mr_tree _ _ _ R) as Hz. unfold is_tree in Hz. rewrite <- zips_plug in Hz.
  assert (Hpos : a <> 0) by (intros ->; pose proof (zips_deref _ _ _ _ _ _ Hz) as Hd; discriminate Hd).
  destruct (rb_erase_zips _ K c l a r fuel Hz (mr_rb _ _ _ R) Hf) as ([m root] & t' & E & Ht & Hrb & Hin).
  exists (m, root), t'. split; [done|]. unfold map_free. zfalse (a =? 0). cbn [mp_tree mp_entries fst snd].
  assert (Eo : inorder (plug K (T c l a r)) = (before K ++ inorder l) ++ a :: (inorder r ++ after K)).
  { rewrite inorder_plug. cbn. app_norm. done. }
  rewrite Eo in Hnd. rewrite <- Permutation_middle in Hnd. apply NoDup_cons in Hnd as [Hna Hnd].
  rewrite <- Hin in Hna.
  assert (Hmem : forall b, b ∈ inorder (plug K (T c l a r)) <-> b = a \/ b ∈ inorder t').
  { intros b. rewrite Eo, Hin, !elem_of_app, elem_of_cons, elem_of_app. tauto. }
  split; cbn [mp_tree mp_entries].
  - by apply zips_delete.
  - done.
  - intros b Hb. rewrite lookup_delete_ne by congruence. apply (mr_entries _ _ _ R), Hmem. by right.
  - apply (sorted_keys_ext st).
    + intros b Hb. unfold ekey. cbn. by rewrite lookup_delete_ne by congruence.
    + rewrite Hin. apply (sorted_remove _ _ a). rewrite <- Eo. apply R.
  - intros k w. destruct (decide (key = k)) as [<-|Hne].
    + rewrite lookup_delete_eq. split; [done|]. intros (b & Hb & Hbe). exfalso. apply Hna.
      rewrite lookup_delete_ne in Hbe by congruence.
      replace a with b; [done|]. apply (key_inj st _ M R); [apply Hmem; by right | done|].
      unfold ekey. by rewrite He, Hbe.
    + rewrite lookup_delete_ne, (mr_map _ _ _ R) by done. split.
      * intros (b & [-> |Hb]%Hmem & Hbe); [congruence|]. exists b.
        by rewrite lookup_delete_ne by congruence.
      * intros (b & Hb & Hbe). rewrite lookup_delete_ne in Hbe by congruence.
        exists b. rewrite Hmem. auto.
Qed.

(** ** A map of one entry *)

Definition one_node : rbt := T Black E 8 E.
Definition one_map : map_state :=
  mkMap (store_of one_node) (<[8 := mkEntry [97] [104; 105; 0; 7]]> ∅).

Lemma one_map_rep : map_rep one_map one_node (<[[97] := [104; 105; 0; 7]]> ∅).
Proof.
  apply (map_rep_insert map_empty [] ∅ (store_of one_node) one_node 8); [exact map_empty_rep | | | | |done].
  - apply between_nil.
  - apply not_elem_of_nil.
  - apply store_of_is_tree; cbn; [apply NoDup_singleton|]. intros a ->%list_elem_of_singleton. done.
  - exists 1%nat. repeat constructor.
Qed.

Lemma put_overwrites_witness :
  exists st', put 3 16 (mkRbNode 0 0 0) one_map [97] [111; 0] 2 = Some (0, st')
    /\ map_rep st' one_node (<[[97] := [111; 0; 0; 7]]> (<[[97] := [104; 105; 0; 7]]> ∅)).
Proof.
  exact (put_overwrites 3 16 (mkRbNode 0 0 0) one_map one_node _ [97] [111; 0] 2 [104; 105; 0; 7]
           one_map_rep ltac:(cbn; lia) eq_refl ltac:(vm_compute; lia)).
Defined.

Lemma erase_free_removes_witness :
  exists s' t', rb_erase 4 (mp_tree one_map) 8 = Some s'
    /\ map_rep (map_free (mkMap s' (mp_entries one_map)) 8) t' (delete [97] (<[[97] := [104; 105; 0; 7]]> ∅)).
Proof.
  apply (erase_free_removes 4 one_map one_node _ 8 [97] [104; 105; 0; 7]).
  - exact one_map_rep.
  - cbn. left.
  - reflexivity.
  - vm_compute. lia.
Defined.

Definition two_puts : list put_args :=
  [mkPut 8 (mkRbNode 0 0 0) [98] [1]; mkPut 16 (mkRbNode 0 0 0) [97] [2; 3]].

Lemma put_get_witness :
  exists st a, puts 3 map_empty two_puts = Some st /\ get 3 st [97] = Some a
    /\ mp_entries st !! a = Some (mkEntry [97] [2; 3]).
Proof.
  destruct (put_get 3 two_puts [97]) as (st & a & H1 & H2 & H3 & _).
  - repeat constructor; done.
  - apply (bool_decide_unpack _). vm_compute. exact I.
  - apply (bool_decide_unpack _). vm_compute. exact I.
  - vm_compute. lia.
  - exists st, a. split; [exact H1|]. split; [exact H2|].
    apply (H3 (mkPut 16 (mkRbNode 0 0 0) [97] [2; 3])); [right; left | reflexivity].
Defined.
