(* ===== verification/Regex.v ===== *)
(** * fun_regex/regex.c: the regular-expression matcher

    A pattern is compiled into two static arrays, the symbols and the characters of
    the classes, which keep what earlier patterns left in them.  A C string is its
    characters before the NUL, as values of [char] (so that the file does not fix
    whether [char] is signed); the symbol's member [ch] is an [unsigned char].  The
    lengths of texts stay within [int]. *)

From Stdlib Require Import Ascii.
From stdpp Require Import prelude.
From S2P Require Import Prelude CMem.

(** A character constant. *)
Abbreviation ord a := (ltac:(let x := eval cbv in (Z.of_N (Ascii.N_of_ascii a%char)) in exact x)) (only parsing).

(** ** The compiled pattern *)

Definition MAX_REGEXP_OBJECTS : Z := 30.
Definition MAX_CHAR_CLASS_LEN : Z := 40.

Inductive regex_type :=
  | UNUSED | DOT | BEGIN | END | QUESTIONMARK | STAR | PLUS | CHAR | CHAR_CLASS | INV_CHAR_CLASS
  | DIGIT | NOT_DIGIT | ALPHA | NOT_ALPHA | WHITESPACE | NOT_WHITESPACE.

#[export] Instance regex_type_eq_dec : EqDecision regex_type.
Proof. solve_decision. Defined.

Notation "t =t? u" := (bool_decide (t = u)) (at level 70, only parsing).

(** The union: the character, or the start of the class in [ccl_buf]. *)
Inductive regex_data := Ch (ch : Z) | Ccl (ccl : Z).

Record regex_t := mkRe { re_type : regex_type; re_data : regex_data }.

Record regex_state := mkRegex { re_compiled : list regex_t; ccl_buf : list Z }.

(** The static arrays of a program that has not compiled a pattern. *)
Definition regex_static : regex_state :=
  mkRegex (replicate 30 (mkRe UNUSED (Ch 0))) (zeros 40).

(** The character at an index of a string; its NUL is there, nothing is beyond. *)
Definition str_at (s : list Z) (i : Z) : option Z :=
  if i =? zlen s then Some 0 else znth s i.

(** ** Compilation *)

Definition set_type (comp : list regex_t) (j : Z) (t : regex_type) : option (list regex_t) :=
  r ← znth comp j; zset comp j (mkRe t (re_data r)).
Definition set_data (comp : list regex_t) (j : Z) (d : regex_data) : option (list regex_t) :=
  r ← znth comp j; zset comp j (mkRe (re_type r) d).

(** The copying loop of a class, from the index before its first character; the
    flag is false when the buffer is exceeded. *)
Fixpoint class_loop (fuel : nat) (pattern buf : list Z) (i ccl_bufidx : Z)
    : option (list Z * Z * Z * bool) :=
  match fuel with
  | O => None
  | S fuel =>
      let i := i + 1 in
      c ← str_at pattern i;
      return_if (c =? ord "]") || (c =? 0) with Some (buf, i, ccl_bufidx, true) ;;
      if c =? ord "\"
      then return_if ccl_bufidx >=? MAX_CHAR_CLASS_LEN - 1 with Some (buf, i, ccl_bufidx, false) ;;
           buf ← zset buf ccl_bufidx c;
           c ← str_at pattern (i + 1);
           buf ← zset buf (ccl_bufidx + 1) c;
           class_loop fuel pattern buf (i + 1) (ccl_bufidx + 2)
      else return_if ccl_bufidx >=? MAX_CHAR_CLASS_LEN with Some (buf, i, ccl_bufidx, false) ;;
           buf ← zset buf ccl_bufidx c;
           class_loop fuel pattern buf i (ccl_bufidx + 1)
  end.

(** The case of an escape. *)
Definition compile_escape (comp : list regex_t) (pattern : list Z) (i j : Z) : option (list regex_t * Z) :=
  c ← str_at pattern (i + 1);
  return_if c =? 0 with Some (comp, i) ;;
  comp ←
    (if c =? ord "d" then set_type comp j DIGIT
     else if c =? ord "D" then set_type comp j NOT_DIGIT
     else if c =? ord "w" then set_type comp j ALPHA
     else if c =? ord "W" then set_type comp j NOT_ALPHA
     else if c =? ord "s" then set_type comp j WHITESPACE
     else if c =? ord "S" then set_type comp j NOT_WHITESPACE
     else comp ← set_type comp j CHAR; set_data comp j (Ch (u8 c)));
  Some (comp, i + 1).

(** The case of a class. *)
Definition compile_class (st : regex_state) (pattern : list Z) (i j ccl_bufidx : Z)
    : option (regex_state * Z * Z * bool) :=
  c ← str_at pattern (i + 1);
  let negated := c =? ord "^" in
  comp ← set_type (re_compiled st) j (if negated then INV_CHAR_CLASS else CHAR_CLASS);
  let i := if negated then i + 1 else i in
  '(buf, i, idx, ok) ← class_loop (S (length pattern)) pattern (ccl_buf st) i ccl_bufidx;
  return_if negb ok with Some (mkRegex comp buf, i, idx, false) ;;
  return_if idx >=? MAX_CHAR_CLASS_LEN with Some (mkRegex comp buf, i, idx, false) ;;
  buf ← zset buf idx 0;
  comp ← set_data comp j (Ccl ccl_bufidx);
  Some (mkRegex comp buf, i, idx + 1, true).

(** The [switch] on the character [pattern[i]]. *)
Definition compile_symbol (st : regex_state) (pattern : list Z) (i j ccl_bufidx : Z)
    : option (regex_state * Z * Z * bool) :=
  c ← str_at pattern i;
  let typed t := comp ← set_type (re_compiled st) j t;
                 Some (mkRegex comp (ccl_buf st), i, ccl_bufidx, true) in
  if c =? ord "^" then typed BEGIN
  else if c =? ord "$" then typed END
  else if c =? ord "." then typed DOT
  else if c =? ord "*" then typed STAR
  else if c =? ord "+" then typed PLUS
  else if c =? ord "?" then typed QUESTIONMARK
  else if c =? ord "\" then
    '(comp, i) ← compile_escape (re_compiled st) pattern i j;
    Some (mkRegex comp (ccl_buf st), i, ccl_bufidx, true)
  else if c =? ord "[" then compile_class st pattern i j ccl_bufidx
  else
    comp ← set_type (re_compiled st) j CHAR;
    comp ← set_data comp j (Ch (u8 c));
    Some (mkRegex comp (ccl_buf st), i, ccl_bufidx, true).

Fixpoint compile_loop (fuel : nat) (st : regex_state) (pattern : list Z) (i j ccl_bufidx : Z)
    : option (regex_state * Z * bool) :=
  match fuel with
  | O => None
  | S fuel =>
      c ← str_at pattern i;
      return_if negb (negb (c =? 0) && (j + 1 <? MAX_REGEXP_OBJECTS)) with Some (st, j, true) ;;
      '(st, i, idx, ok) ← compile_symbol st pattern i j ccl_bufidx;
      return_if negb ok with Some (st, j, false) ;;
      compile_loop fuel st pattern (i + 1) (j + 1) idx
  end.

(** The arrays, and whether the result is not null. *)
Definition re_compile (st : regex_state) (pattern : list Z) : option (regex_state * bool) :=
  '(st, j, ok) ← compile_loop (S (length pattern)) st pattern 0 0 1;
  return_if negb ok with Some (st, false) ;;
  comp ← set_type (re_compiled st) j UNUSED;
  Some (mkRegex comp (ccl_buf st), true).

(** ** Matching a character *)

Definition matchdigit (c : Z) : bool := (c >=? ord "0") && (c <=? ord "9").
Definition matchalpha (c : Z) : bool :=
  (c >=? ord "a") && (c <=? ord "z") || (c >=? ord "A") && (c <=? ord "Z").
Definition matchwhitespace (c : Z) : bool :=
  (c =? 32) || (c =? 9) || (c =? 10) || (c =? 13) || (c =? 12) || (c =? 11).
Definition matchalphanum (c : Z) : bool := (c =? ord "_") || matchalpha c || matchdigit c.

Definition ismetachar (c : Z) : bool :=
  (c =? ord "s") || (c =? ord "S") || (c =? ord "w") || (c =? ord "W") || (c =? ord "d") || (c =? ord "D").

(** [matchmetachar (c, str)] reads [str[0]] only. *)
Definition matchmetachar (c s0 : Z) : bool :=
  if s0 =? ord "d" then matchdigit c
  else if s0 =? ord "D" then negb (matchdigit c)
  else if s0 =? ord "w" then matchalphanum c
  else if s0 =? ord "W" then negb (matchalphanum c)
  else if s0 =? ord "s" then matchwhitespace c
  else if s0 =? ord "S" then negb (matchwhitespace c)
  else c =? s0.

Definition matchrange (c : Z) (buf : list Z) (str : Z) : option bool :=
  return_if c =? ord "-" with Some false ;;
  s0 ← znth buf str;
  return_if (s0 =? 0) || (s0 =? ord "-") with Some false ;;
  s1 ← znth buf (str + 1);
  return_if negb (s1 =? ord "-") with Some false ;;
  s2 ← znth buf (str + 2);
  return_if s2 =? 0 with Some false ;;
  Some ((c >=? s0) && (c <=? s2)).

Fixpoint matchcharclass (fuel : nat) (c : Z) (buf : list Z) (str : Z) : option bool :=
  match fuel with
  | O => None
  | S fuel =>
      let continue str := x ← znth buf str;
                          if x =? 0 then Some false else matchcharclass fuel c buf (str + 1) in
      range ← matchrange c buf str;
      return_if (range : bool) with Some true ;;
      s0 ← znth buf str;
      if s0 =? ord "\"
      then let str := str + 1 in
           s0 ← znth buf str;
           return_if matchmetachar c s0 with Some true ;;
           return_if (c =? s0) && negb (ismetachar c) with Some true ;;
           continue str
      else if c =? s0
      then return_if negb (c =? ord "-") with Some true ;;
           before ← znth buf (str - 1);
           return_if before =? 0 with Some true ;;
           after ← znth buf (str + 1);
           Some (after =? 0)
      else continue str
  end.

(** [p.ch] of a symbol that has a class, or [p.ccl] of one that has none, is not a
    value of the program. *)
Definition matchclass (buf : list Z) (p : regex_t) (c : Z) : option bool :=
  match re_data p with Ccl s => matchcharclass (S (length buf)) c buf s | Ch _ => None end.

Definition matchone (buf : list Z) (p : regex_t) (c : Z) : option bool :=
  match re_type p with
  | DOT => Some true
  | CHAR_CLASS => matchclass buf p c
  | INV_CHAR_CLASS => negb <$> matchclass buf p c
  | DIGIT => Some (matchdigit c)
  | NOT_DIGIT => Some (negb (matchdigit c))
  | ALPHA => Some (matchalphanum c)
  | NOT_ALPHA => Some (negb (matchalphanum c))
  | WHITESPACE => Some (matchwhitespace c)
  | NOT_WHITESPACE => Some (negb (matchwhitespace c))
  | _ => match re_data p with Ch ch => Some (ch =? c) | Ccl _ => None end
  end.

(** ** Matching a pattern

    The position of the text pointer and [*matchlength] are passed along; a result
    has the latter. *)

Section matching.
Context (st : regex_state) (text : list Z).

(** [text[0] != 0 && matchone (p, *text)] *)
Definition matchnext (p : regex_t) (pos : Z) : option bool :=
  c ← str_at text pos;
  return_if c =? 0 with Some false ;;
  matchone (ccl_buf st) p c.

(** [while (text[0] != 0 && matchone (p, *text)) { text++; ( *matchlength)++; }] *)
Fixpoint advance (fuel : nat) (p : regex_t) (pos ml : Z) : option (Z * Z) :=
  match fuel with
  | O => None
  | S fuel =>
      m ← matchnext p pos;
      if (m : bool) then advance fuel p (pos + 1) (ml + 1) else Some (pos, ml)
  end.

(** [while (text >= low) { if (matchpattern (pattern, text--, matchlength)) return 1;
    ( *matchlength)--; }] *)
Fixpoint retreat (fuel : nat) (matchrest : Z -> Z -> option (bool * Z)) (low pos ml : Z)
    : option (bool * Z) :=
  match fuel with
  | O => None
  | S fuel =>
      return_if pos <? low with Some (false, ml) ;;
      '(r, ml) ← matchrest pos ml;
      return_if (r : bool) with Some (true, ml) ;;
      retreat fuel matchrest low (pos - 1) (ml - 1)
  end.

Definition matchstar (matchrest : Z -> Z -> option (bool * Z)) (p : regex_t) (pos ml : Z)
    : option (bool * Z) :=
  let prelen := ml in
  '(last, ml) ← advance (S (length text)) p pos ml;
  '(r, ml) ← retreat (length text + 2) matchrest pos last ml;
  Some (if (r : bool) then (true, ml) else (false, prelen)).

Definition matchplus (matchrest : Z -> Z -> option (bool * Z)) (p : regex_t) (pos ml : Z)
    : option (bool * Z) :=
  '(last, ml) ← advance (S (length text)) p pos ml;
  retreat (length text + 2) matchrest (pos + 1) last ml.

Definition matchquestion (matchrest : Z -> Z -> option (bool * Z)) (p : regex_t) (pos ml : Z)
    : option (bool * Z) :=
  return_if re_type p =t? UNUSED with Some (true, ml) ;;
  '(r, ml) ← matchrest pos ml;
  return_if (r : bool) with Some (true, ml) ;;
  m ← matchnext p pos;
  return_if negb (m : bool) with Some (false, ml) ;;
  '(r, ml) ← matchrest (pos + 1) ml;
  Some (if (r : bool) then (true, ml + 1) else (false, ml)).

(** [pattern] is an index of the compiled array, [pre] the length at the call. *)
Fixpoint matchpattern_loop (fuel : nat) (pattern pos ml pre : Z) : option (bool * Z) :=
  match fuel with
  | O => None
  | S fuel =>
      let matchrest pos ml := matchpattern_loop fuel (pattern + 2) pos ml ml in
      p0 ← znth (re_compiled st) pattern;
      return_if re_type p0 =t? UNUSED with matchquestion matchrest p0 pos ml ;;
      p1 ← znth (re_compiled st) (pattern + 1);
      return_if re_type p1 =t? QUESTIONMARK with matchquestion matchrest p0 pos ml ;;
      return_if re_type p1 =t? STAR with matchstar matchrest p0 pos ml ;;
      return_if re_type p1 =t? PLUS with matchplus matchrest p0 pos ml ;;
      return_if (re_type p0 =t? END) && (re_type p1 =t? UNUSED)
        with (c ← str_at text pos; Some (c =? 0, ml)) ;;
      m ← matchnext p0 pos;
      if (m : bool) then matchpattern_loop fuel (pattern + 1) (pos + 1) (ml + 1) pre
      else Some (false, pre)
  end.

(** The pattern gets shorter with each turn and each call. *)
Definition matchpattern (pattern pos ml : Z) : option (bool * Z) :=
  matchpattern_loop (S (length (re_compiled st))) pattern pos ml ml.

(** The loop of [re_matchp] over the starts, with [idx] the start. *)
Fixpoint search_loop (fuel : nat) (idx ml : Z) : option (Z * Z) :=
  match fuel with
  | O => None
  | S fuel =>
      '(r, ml) ← matchpattern 0 idx ml;
      c ← str_at text idx;
      return_if (r : bool) with Some (if c =? 0 then -1 else idx, ml) ;;
      return_if c =? 0 with Some (-1, ml) ;;
      search_loop fuel (idx + 1) ml
  end.

(** The index of the match, or -1, and its length. *)
Definition re_matchp : option (Z * Z) :=
  p0 ← znth (re_compiled st) 0;
  if re_type p0 =t? BEGIN
  then '(r, ml) ← matchpattern 1 0 0; Some (if (r : bool) then 0 else -1, ml)
  else search_loop (S (length text)) 0 0.
End matching.

Definition re_match (st : regex_state) (pattern text : list Z) : option (regex_state * (Z * Z)) :=
  '(st, ok) ← re_compile st pattern;
  return_if negb ok with Some (st, (-1, 0)) ;;
  r ← re_matchp st text;
  Some (st, r).
