(* ===== verification/RegexCorrect.v ===== *)
(** * The regular expressions that fun_regex/regex.c matches

    The syntax the header documents, its meaning as sets of strings, and how the
    compiled arrays represent it; compilation of the text of an expression, and the
    backtracking matcher, proved against that meaning. *)

From Stdlib Require Import Ascii.
From stdpp Require Import prelude.
From S2P Require Import Prelude CMem Regex.

(** ** Expressions *)

Inductive class_item := Single (a : Z) | Span (lo hi : Z) | Escape (x : Z).

(** A class with a hyphen before or after its items. *)
Record char_class := mkClass {
  cc_neg : bool; cc_lead : bool; cc_items : list class_item; cc_trail : bool }.

Inductive atom := AnyChar | Literal (a : Z) | Quoted (x : Z) | Class (k : char_class).

Inductive quant := Once | Optional | Many | AtLeastOne.

Record item := mkItem { it_atom : atom; it_quant : quant }.

Record regex := mkExpr { rx_begin : bool; rx_items : list item; rx_end : bool }.

(** ** Meaning *)

Definition item_match (c : Z) (it : class_item) : bool :=
  match it with
  | Single a => c =? a
  | Span lo hi => (lo <=? c) && (c <=? hi)
  | Escape x => matchmetachar c x
  end.

(** A hyphen is looked for up to the first range only. *)
Fixpoint hyphen_match (trail : bool) (items : list class_item) : bool :=
  match items with
  | [] => trail
  | Span _ _ :: _ => false
  | it :: items => item_match (ord "-") it || hyphen_match trail items
  end.

Definition class_match (k : char_class) (c : Z) : bool :=
  xorb (cc_neg k)
    (if c =? ord "-" then cc_lead k || hyphen_match (cc_trail k) (cc_items k)
     else existsb (item_match c) (cc_items k)).

Definition atom_match (a : atom) (c : Z) : bool :=
  match a with
  | AnyChar => true
  | Literal x => c =? x
  | Quoted x => matchmetachar c x
  | Class k => class_match k c
  end.

Definition quant_ok (q : quant) (n : nat) : Prop :=
  match q with
  | Once => n = 1%nat
  | Optional => (n <= 1)%nat
  | Many => True
  | AtLeastOne => (1 <= n)%nat
  end.

(** The strings of a sequence of items. *)
Fixpoint lang (items : list item) (w : list Z) : Prop :=
  match items with
  | [] => w = []
  | it :: items =>
      exists u v, w = u ++ v /\ quant_ok (it_quant it) (length u)
        /\ Forall (fun c => atom_match (it_atom it) c = true) u /\ lang items v
  end.

(** A prefix of [w] is in the language, all of [w] under the end anchor. *)
Definition accepts (items : list item) (fin : bool) (w : list Z) : Prop :=
  exists u v, w = u ++ v /\ lang items u /\ (fin = true -> v = []).

(** ** Text *)

Definition render_item (it : class_item) : list Z :=
  match it with
  | Single a => [a]
  | Span lo hi => [lo; ord "-"; hi]
  | Escape x => [ord "\"; x]
  end.

Definition hyphen (b : bool) : list Z := if b then [ord "-"] else [].

Definition class_body (k : char_class) : list Z :=
  hyphen (cc_lead k) ++ concat (render_item <$> cc_items k) ++ hyphen (cc_trail k).

(** A symbol of the pattern. *)
Inductive token := TBegin | TEnd | TQuant (q : quant) | TAtom (a : atom).

Definition render_atom (a : atom) : list Z :=
  match a with
  | AnyChar => [ord "."]
  | Literal x => [x]
  | Quoted x => [ord "\"; x]
  | Class k => ord "[" :: (if cc_neg k then [ord "^"] else []) ++ class_body k ++ [ord "]"]
  end.

Definition render_token (t : token) : list Z :=
  match t with
  | TBegin => [ord "^"]
  | TEnd => [ord "$"]
  | TQuant Optional => [ord "?"]
  | TQuant Many => [ord "*"]
  | TQuant AtLeastOne => [ord "+"]
  | TQuant Once => []
  | TAtom a => render_atom a
  end.

Definition item_tokens (it : item) : list token :=
  TAtom (it_atom it) :: match it_quant it with Once => [] | q => [TQuant q] end.

Definition tokens (r : regex) : list token :=
  (if rx_begin r then [TBegin] else []) ++ concat (item_tokens <$> rx_items r)
  ++ (if rx_end r then [TEnd] else []).

Definition render (r : regex) : list Z := concat (render_token <$> tokens r).

(** *** What can be written *)

Definition plain_class_char (a : Z) : Prop :=
  a <> 0 /\ a <> ord "-" /\ a <> ord "\" /\ a <> ord "]".

Definition item_ok (it : class_item) : Prop :=
  match it with
  | Single a => plain_class_char a
  | Span lo hi => plain_class_char lo /\ plain_class_char hi /\ lo <= hi
  | Escape x => x <> 0 /\ x <> ord "-"
  end.

Definition class_ok (k : char_class) : Prop :=
  Forall item_ok (cc_items k) /\ (cc_neg k = false -> head (class_body k) <> Some (ord "^")).

Definition is_special (a : Z) : bool :=
  existsb (Z.eqb a) [ord "^"; ord "$"; ord "."; ord "*"; ord "+"; ord "?"; ord "\"; ord "["].

Definition atom_ok (a : atom) : Prop :=
  match a with
  | AnyChar => True
  | Literal x => 0 < x < 128 /\ is_special x = false
  | Quoted x => 0 < x < 128
  | Class k => class_ok k
  end.

Definition class_size (t : token) : Z :=
  match t with TAtom (Class k) => zlen (class_body k) + 1 | _ => 0 end.

Definition token_ok (t : token) : Prop :=
  match t with TAtom a => atom_ok a | TQuant q => q <> Once | _ => True end.

Definition class_sizes (l : list token) : Z := foldr (fun t n => class_size t + n) 0 l.

(** The expression can be written and its pattern fits the arrays. *)
Definition regex_ok (r : regex) : Prop :=
  Forall (fun it => atom_ok (it_atom it)) (rx_items r)
  /\ zlen (tokens r) < MAX_REGEXP_OBJECTS /\ class_sizes (tokens r) < MAX_CHAR_CLASS_LEN.

(** ** Reading strings *)

Lemma str_at_mid pre c post i : i = zlen pre -> str_at (pre ++ c :: post) i = Some c.
Proof.
  intros ->. unfold str_at. rewrite length_app. cbn [length].
  zfalse (zlen pre =? Z.of_nat (length pre + S (length post))).
  rewrite znth_app_r by lia. by rewrite Z.sub_diag.
Qed.

Lemma str_at_0 pre c post : str_at (pre ++ c :: post) (zlen pre) = Some c.
Proof. by apply str_at_mid. Qed.
Lemma str_at_1 pre a c post : str_at (pre ++ a :: c :: post) (zlen pre + 1) = Some c.
Proof.
  replace (pre ++ a :: c :: post) with ((pre ++ [a]) ++ c :: post) by (by rewrite <- app_assoc).
  apply str_at_mid. len.
Qed.

Lemma str_at_end s : str_at s (zlen s) = Some 0.
Proof. unfold str_at. by rewrite Z.eqb_refl. Qed.

Lemma znth_mid {A} (pre : list A) c post i : i = zlen pre -> znth (pre ++ c :: post) i = Some c.
Proof. intros ->. rewrite znth_app_r by lia. by rewrite Z.sub_diag. Qed.

Lemma znth_0 {A} (p : list A) a l : znth (p ++ a :: l) (zlen p) = Some a.
Proof. by apply znth_mid. Qed.
Lemma znth_1 {A} (p : list A) a b l : znth (p ++ a :: b :: l) (zlen p + 1) = Some b.
Proof. rewrite znth_app_r by lia. by replace (zlen p + 1 - zlen p) with 1 by lia. Qed.
Lemma znth_2 {A} (p : list A) a b c l : znth (p ++ a :: b :: c :: l) (zlen p + 2) = Some c.
Proof. rewrite znth_app_r by lia. by replace (zlen p + 2 - zlen p) with 2 by lia. Qed.

Lemma znth_head {A} (a : A) l : znth (a :: l) 0 = Some a.
Proof. done. Qed.

Lemma zlen_snoc {A} (p : list A) a : zlen p + 1 = zlen (p ++ [a]).
Proof. len. Qed.

Lemma app_cons_mid {A} (p : list A) a l : p ++ a :: l = (p ++ [a]) ++ l.
Proof. by rewrite <- app_assoc. Qed.

(** ** Classes *)

(** What comes after an item: a hyphen only as the last character of the class. *)
Lemma class_rest items trail q :
  Forall item_ok items ->
  exists x l, concat (render_item <$> items) ++ hyphen trail ++ 0 :: q = x :: l
    /\ (x = ord "-" -> exists l', l = 0 :: l').
Proof.
  intros H. destruct items as [|it items]; cbn.
  - destruct trail; cbn; [by eexists _, _; split; [|intros; eexists]|]. eexists _, _. split; [done|]. done.
  - apply Forall_cons in H as [H _]. destruct it; cbn in *; unfold plain_class_char in H;
      eexists _, _; (split; [done|]); intros Hx; destruct_and?; lia.
Qed.

Lemma matchrange_hyphen buf s : matchrange (ord "-") buf s = Some false.
Proof. done. Qed.

(** A range needs a hyphen with something after it. *)
Lemma matchrange_single c p a x l :
  (x = ord "-" -> exists l', l = 0 :: l') -> matchrange c (p ++ a :: x :: l) (zlen p) = Some false.
Proof.
  intros Hx. unfold matchrange. destruct (c =? ord "-"); [done|].
  rewrite znth_0, bind_Some. destruct ((a =? 0) || (a =? ord "-")); [done|].
  rewrite znth_1, bind_Some. destruct (Z.eqb_spec x (ord "-")) as [->|]; [|done].
  destruct (Hx eq_refl) as [l' ->]. by rewrite znth_2.
Qed.

Lemma matchrange_span c p lo hi l :
  plain_class_char lo -> hi <> 0 ->
  matchrange c (p ++ lo :: ord "-" :: hi :: l) (zlen p)
  = Some (negb (c =? ord "-") && (c >=? lo) && (c <=? hi)).
Proof.
  intros (? & ? & ? & ?) Hh. unfold matchrange. destruct (c =? ord "-"); [done|].
  rewrite znth_0, bind_Some. zfalse ((lo =? 0) || (lo =? ord "-")).
  rewrite znth_1, bind_Some. cbn [negb]. change (negb (?x =? ?x)) with false.
  rewrite znth_2, bind_Some. by zfalse (hi =? 0).
Qed.

Section charclass.
Context (c : Z) (buf : list Z) (s x : Z).

Lemma charclass_range fuel :
  matchrange c buf s = Some true -> matchcharclass (S fuel) c buf s = Some true.
Proof. intros H. cbn [matchcharclass]. by rewrite H. Qed.

(** A character of the class that is not its end. *)
Lemma charclass_char fuel :
  matchrange c buf s = Some false -> znth buf s = Some x -> x <> ord "\" -> x <> ord "-" -> x <> 0 ->
  matchcharclass (S fuel) c buf s = if c =? x then Some true else matchcharclass fuel c buf (s + 1).
Proof.
  intros Hr Hx H1 H2 H3. cbn [matchcharclass]. rewrite Hr, bind_Some, Hx, bind_Some.
  zfalse (x =? ord "\"). destruct (Z.eqb_spec c x) as [->|]; [by zfalse (x =? ord "-")|].
  rewrite bind_Some. by zfalse (x =? 0).
Qed.

Lemma charclass_end fuel :
  c <> 0 -> matchrange c buf s = Some false -> znth buf s = Some 0 ->
  matchcharclass (S fuel) c buf s = Some false.
Proof.
  intros Hc Hr Hx. cbn [matchcharclass]. rewrite Hr, bind_Some, Hx, bind_Some.
  change (0 =? ord "\") with false. zfalse (c =? 0). done.
Qed.

Lemma charclass_escape fuel :
  matchrange c buf s = Some false -> znth buf s = Some (ord "\") -> znth buf (s + 1) = Some x -> x <> 0 ->
  matchcharclass (S fuel) c buf s
  = if matchmetachar c x then Some true else matchcharclass fuel c buf (s + 2).
Proof.
  intros Hr Hb Hx H0. cbn [matchcharclass]. rewrite Hr, bind_Some, Hb, bind_Some.
  change (ord "\" =? ord "\") with true. cbn [negb]. rewrite Hx, bind_Some.
  destruct (matchmetachar c x) eqn:Em; [done|].
  replace ((c =? x) && negb (ismetachar c)) with false.
  - rewrite bind_Some. zfalse (x =? 0). by replace (s + 2) with (s + 1 + 1) by lia.
  - symmetry. apply not_true_iff_false. intros [->%Z.eqb_eq Hm]%andb_prop.
    unfold matchmetachar in Em. unfold ismetachar in Hm.
    repeat match type of Em with (if ?b then _ else _) = _ => destruct b eqn:? end; zbool; subst; done || lia.
Qed.

(** A hyphen: what is next to it decides when it is looked for. *)
Lemma charclass_hyphen fuel x0 x1 :
  znth buf s = Some (ord "-") -> znth buf (s - 1) = Some x0 -> znth buf (s + 1) = Some x1 ->
  matchcharclass (S fuel) c buf s
  = if c =? ord "-" then Some ((x0 =? 0) || (x1 =? 0)) else matchcharclass fuel c buf (s + 1).
Proof.
  intros Hb H0 H1. cbn [matchcharclass].
  assert (matchrange c buf s = Some false) as ->.
  { unfold matchrange. destruct (c =? ord "-"); [done|]. by rewrite Hb. }
  rewrite bind_Some, Hb, bind_Some. change (ord "-" =? ord "\") with false.
  destruct (Z.eqb_spec c (ord "-")) as [->|].
  - cbn [negb]. change (negb (?x =? ?x)) with false. cbn [negb]. rewrite H0, bind_Some.
    destruct (x0 =? 0); [done|]. by rewrite H1.
  - by rewrite bind_Some.
Qed.
End charclass.

Lemma class_items_match c items trail q :
  c <> 0 -> Forall item_ok items -> forall p y fuel,
  (length (concat (render_item <$> items)) + 2 < fuel)%nat ->
  matchcharclass fuel c ((p ++ [y]) ++ concat (render_item <$> items) ++ hyphen trail ++ 0 :: q) (zlen (p ++ [y]))
  = Some (if c =? ord "-" then hyphen_match trail items else existsb (item_match c) items).
Proof.
  intros Hc. induction items as [|it items IH]; intros Hok p y fuel Hf.
  - destruct fuel as [|[|fuel]]; [cbn in Hf; lia..|]. cbn [fmap list_fmap concat app hyphen_match existsb].
    destruct trail; cbn [hyphen app].
    + rewrite (charclass_hyphen c _ _ (S fuel) y 0); [| apply znth_0 | | apply znth_1].
      2: { rewrite <- app_assoc. apply znth_mid. len. }
      destruct (Z.eqb_spec c (ord "-")); [by rewrite orb_true_r|].
      rewrite (app_cons_mid (p ++ [y])). replace (zlen (p ++ [y]) + 1) with (zlen ((p ++ [y]) ++ [ord "-"])) by len.
      apply charclass_end; [done | | apply znth_0]. unfold matchrange. by zfalse (c =? ord "-"); rewrite znth_0.
    + rewrite charclass_end; [by case_if | done | | apply znth_0].
      unfold matchrange. destruct (c =? ord "-"); [done|]. by rewrite znth_0.
  - apply Forall_cons in Hok as [Hit Hok].
    destruct (class_rest items trail q Hok) as (x & l & Hx & Hhy). specialize (IH Hok).
    destruct it as [a|lo hi|e]; cbn [fmap list_fmap concat render_item app length existsb hyphen_match item_match] in *.
    + destruct fuel as [|fuel]; [lia|].
      rewrite (charclass_char c _ _ a); [| | apply znth_0 | apply Hit..].
      2: { rewrite Hx. by apply matchrange_single. }
      rewrite (app_cons_mid (p ++ [y])), (zlen_snoc (p ++ [y]) a), IH by lia.
      destruct Hit as (_ & Hh & _). destruct (Z.eqb_spec c a) as [->|]; [by zfalse (a =? ord "-")|].
      destruct (Z.eqb_spec c (ord "-")) as [->|]; [by zfalse (ord "-" =? a) | done].
    + destruct fuel as [|[|[|fuel]]]; [lia..|]. destruct Hit as (Hlo & Hhi & Hle).
      assert (Hr := matchrange_span c (p ++ [y]) lo hi
        (concat (render_item <$> items) ++ hyphen trail ++ 0 :: q) Hlo ltac:(apply Hhi)).
      destruct (negb (c =? ord "-") && (c >=? lo) && (c <=? hi)) eqn:E.
      { rewrite charclass_range by exact Hr. zbool. zfalse (c =? ord "-").
        by ztrue ((lo <=? c) && (c <=? hi)). }
      rewrite (charclass_char c _ _ lo); [| exact Hr | apply znth_0 | apply Hlo..].
      rewrite (app_cons_mid (p ++ [y])), (zlen_snoc (p ++ [y]) lo).
      rewrite (charclass_hyphen c _ _ _ lo hi); [| apply znth_0 | | apply znth_1].
      2: { rewrite <- app_assoc. apply znth_mid. len. }
      rewrite (app_cons_mid ((p ++ [y]) ++ [lo])), (zlen_snoc ((p ++ [y]) ++ [lo]) (ord "-")).
      rewrite (charclass_char c _ _ hi); [| | apply znth_0 | apply Hhi..].
      2: { rewrite Hx. by apply matchrange_single. }
      rewrite (app_cons_mid (((p ++ [y]) ++ [lo]) ++ [ord "-"])), (zlen_snoc (((p ++ [y]) ++ [lo]) ++ [ord "-"]) hi).
      rewrite IH by lia. destruct Hlo as (? & ? & ? & ?), Hhi as (? & ? & ? & ?).
      destruct (Z.eqb_spec c (ord "-")) as [->|].
      * zfalse (ord "-" =? lo). by zfalse ((lo =? 0) || (hi =? 0)).
      * cbn [negb andb] in E. zfalse (c =? lo). zfalse (c =? hi). by zfalse ((lo <=? c) && (c <=? hi)).
    + destruct fuel as [|fuel]; [lia|]. destruct Hit as [H0 Hh].
      rewrite (charclass_escape c _ _ e); [| | apply znth_0 | apply znth_1 | done].
      2: { apply matchrange_single. done. }
      rewrite (app_cons_mid (p ++ [y])), (app_cons_mid ((p ++ [y]) ++ [ord "\"])).
      replace (zlen (p ++ [y]) + 2) with (zlen (((p ++ [y]) ++ [ord "\"]) ++ [e])) by len.
      rewrite IH by lia. destruct (Z.eqb_spec c (ord "-")) as [->|]; by destruct (matchmetachar _ e).
Qed.

(** A class in a buffer, after the NUL of the one before. *)
Definition class_in (b : list Z) (s : Z) (k : char_class) : Prop :=
  exists p q, b = (p ++ [0]) ++ class_body k ++ 0 :: q /\ s = zlen (p ++ [0]).

Lemma class_in_app b b' s k : class_in b s k -> class_in (b ++ b') s k.
Proof. intros (p & q & -> & ->). exists p, (q ++ b'). split; [|done]. by rewrite <- !app_assoc. Qed.

Lemma matchcharclass_class c buf s k :
  class_in buf s k -> class_ok k -> c <> 0 ->
  matchcharclass (S (length buf)) c buf s
  = Some (if c =? ord "-" then cc_lead k || hyphen_match (cc_trail k) (cc_items k)
          else existsb (item_match c) (cc_items k)).
Proof.
  intros (p & q & -> & ->) [Hok _] Hc. destruct k as [neg lead items trail]. unfold class_body.
  cbn [cc_lead cc_items cc_trail] in *. rewrite <- !app_assoc.
  set (fuel := length _). assert (Hf : (length (concat (render_item <$> items)) + (if lead then 3 else 2) <= fuel)%nat).
  { subst fuel. rewrite !length_app. destruct lead; cbn; lia. }
  clearbody fuel. rewrite (app_assoc p). destruct lead; cbn [hyphen app orb].
  - destruct (class_rest items trail q Hok) as (x & l & Hx & _).
    rewrite (charclass_hyphen c _ _ fuel 0 x); [| apply znth_0 | | rewrite Hx; apply znth_1].
    2: { rewrite <- app_assoc. apply znth_mid. len. }
    destruct (c =? ord "-") eqn:E; [done|].
    rewrite (app_cons_mid (p ++ [0])), (zlen_snoc (p ++ [0]) (ord "-")), class_items_match by (done || lia).
    by rewrite E.
  - by rewrite class_items_match by (done || lia).
Qed.

(** ** Symbols of the compiled array *)

Definition quant_type (q : quant) : regex_type :=
  match q with Once => UNUSED | Optional => QUESTIONMARK | Many => STAR | AtLeastOne => PLUS end.

(** The symbol [r] stands for the atom, with the classes in [b]. *)
Definition denotes (b : list Z) (a : atom) (r : regex_t) : Prop :=
  match a with
  | AnyChar => re_type r = DOT
  | Literal x => r = mkRe CHAR (Ch x)
  | Quoted x =>
      if x =? ord "d" then re_type r = DIGIT
      else if x =? ord "D" then re_type r = NOT_DIGIT
      else if x =? ord "w" then re_type r = ALPHA
      else if x =? ord "W" then re_type r = NOT_ALPHA
      else if x =? ord "s" then re_type r = WHITESPACE
      else if x =? ord "S" then re_type r = NOT_WHITESPACE
      else r = mkRe CHAR (Ch x)
  | Class k =>
      exists s, r = mkRe (if cc_neg k then INV_CHAR_CLASS else CHAR_CLASS) (Ccl s) /\ class_in b s k
  end.

Definition token_denotes (b : list Z) (t : token) (r : regex_t) : Prop :=
  match t with
  | TBegin => re_type r = BEGIN
  | TEnd => re_type r = END
  | TQuant q => re_type r = quant_type q
  | TAtom a => denotes b a r
  end.

Lemma token_denotes_app b b' t r : token_denotes b t r -> token_denotes (b ++ b') t r.
Proof.
  destruct t as [| |q|[|x|x|k]]; cbn; try done. intros (s & -> & H). exists s. split; [done|].
  by apply class_in_app.
Qed.

Ltac quoted_cases :=
  repeat match goal with |- context [if ?x =? ?y then _ else _] => destruct (Z.eqb_spec x y); subst end.

Lemma matchone_denotes buf a r c :
  denotes buf a r -> atom_ok a -> c <> 0 -> matchone buf r c = Some (atom_match a c).
Proof.
  intros Hd Ha Hc. destruct a as [|x|x|k]; cbn [denotes atom_match atom_ok] in *.
  - unfold matchone. by rewrite Hd.
  - subst r. cbn. by rewrite Z.eqb_sym.
  - revert Hd. unfold matchmetachar. unfold matchone. quoted_cases; intros Hd; try by rewrite Hd.
    subst r. cbn. by rewrite Z.eqb_sym.
  - destruct Hd as (s & -> & Hs). unfold matchone, matchclass, class_match. cbn [re_type re_data].
    destruct (cc_neg k); rewrite (matchcharclass_class c buf s k) by done; done.
Qed.

(** A symbol of an atom is none of those the matcher looks for. *)
Lemma denotes_type b a r t :
  denotes b a r -> t ∈ [UNUSED; BEGIN; END; QUESTIONMARK; STAR; PLUS] -> re_type r <> t.
Proof.
  intros Hd Ht Hr. subst t. revert Ht. apply (bool_decide_unpack _).
  destruct a as [|x|x|k]; cbn in Hd.
  - by rewrite Hd.
  - by subst r.
  - revert Hd. quoted_cases; intros Hd; rewrite ?Hd; done.
  - destruct Hd as (s & -> & _). by destruct (cc_neg k).
Qed.

(** ** The matcher *)

Section matcher.
Context (st : regex_state) (text : list Z) (Htext : Forall (fun c => c <> 0) text).

Lemma matchnext_denotes a r (i : nat) :
  denotes (ccl_buf st) a r -> atom_ok a -> (i <= length text)%nat ->
  matchnext st text r (Z.of_nat i)
  = Some (match text !! i with Some c => atom_match a c | None => false end).
Proof.
  intros Hd Ha Hi. unfold matchnext, str_at. zcase.
  - rewrite lookup_ge_None_2 by lia. done.
  - rewrite znth_of_nat. destruct (text !! i) as [c|] eqn:E; [|apply lookup_ge_None in E; lia].
    rewrite bind_Some. assert (c <> 0) by (rewrite Forall_lookup in Htext; by apply (Htext i)).
    zfalse (c =? 0). by apply matchone_denotes.
Qed.

(** The matching characters from a position on. *)
Fixpoint span (a : atom) (w : list Z) : nat :=
  match w with c :: w => if atom_match a c then S (span a w) else O | [] => O end.

Lemma span_le a w : (span a w <= length w)%nat.
Proof. induction w as [|c w IH]; cbn; [lia|]. destruct (atom_match a c); lia. Qed.

Lemma span_spec a w k :
  (k <= span a w)%nat <-> (k <= length w)%nat /\ Forall (fun c => atom_match a c = true) (take k w).
Proof.
  revert k. induction w as [|c w IH]; intros [|k]; cbn.
  - split; [split; [lia | constructor] | lia].
  - split; [lia | intros [? _]; lia].
  - split; [split; [lia | constructor] | destruct (atom_match a c); lia].
  - rewrite Forall_cons. specialize (IH k). destruct (atom_match a c).
    + split; [intros H; destruct IH as [IH _]; destruct IH as [? ?]; [lia|]; split; [lia | done]|].
      intros (H & _ & H'). apply le_n_S, IH. split; [lia | done].
    + split; [lia | by intros (_ & ? & _)].
Qed.

Lemma advance_span a r fuel (i : nat) ml :
  denotes (ccl_buf st) a r -> atom_ok a -> (i <= length text)%nat -> (length text - i < fuel)%nat ->
  advance st text fuel r (Z.of_nat i) ml
  = Some (Z.of_nat (i + span a (drop i text)), ml + Z.of_nat (span a (drop i text))).
Proof.
  intros Hd Ha. revert i ml. induction fuel as [|fuel IH]; intros i ml Hi Hf; [lia|].
  cbn [advance]. rewrite (matchnext_denotes a r) by done. rewrite bind_Some.
  destruct (text !! i) as [c|] eqn:E.
  - rewrite (drop_S text c i) by done. cbn [span]. apply lookup_lt_Some in E.
    destruct (atom_match a c); [|f_equal; f_equal; lia].
    replace (Z.of_nat i + 1) with (Z.of_nat (S i)) by lia. rewrite IH by lia. f_equal. f_equal; lia.
  - apply lookup_ge_None in E. rewrite drop_ge by lia. cbn. f_equal. f_equal; lia.
Qed.

(** What the rest of the pattern matches, at each position. *)
Definition decides (f : Z -> Z -> option (bool * Z)) (P : list Z -> Prop) : Prop :=
  forall (i : nat) ml, (i <= length text)%nat ->
  exists b ml', f (Z.of_nat i) ml = Some (b, ml') /\ (b = true <-> P (drop i text)).

Lemma retreat_spec f P fuel (low last : nat) ml :
  decides f P -> (low <= S last)%nat -> (last <= length text)%nat -> (S last - low < fuel)%nat ->
  exists b ml', retreat fuel f (Z.of_nat low) (Z.of_nat last) ml = Some (b, ml')
    /\ (b = true <-> exists k, (low <= k <= last)%nat /\ P (drop k text)).
Proof.
  intros Hd. revert last ml. induction fuel as [|fuel IH]; intros last ml Hl Hlast Hf; [lia|].
  cbn [retreat]. destruct (Z.ltb_spec (Z.of_nat last) (Z.of_nat low)).
  - exists false, ml. split; [done|]. split; [done|]. intros (k & Hk & _). lia.
  - destruct (Hd last ml Hlast) as (b & ml1 & -> & Hb). rewrite bind_Some. destruct b.
    + exists true, ml1. split; [done|]. split; [|done]. intros _. exists last. split; [lia|]. by apply Hb.
    + assert (~ P (drop last text)) as Hn by (intros HP; by apply Hb in HP).
      destruct last as [|last].
      * destruct fuel as [|fuel]; [lia|]. cbn [retreat]. ztrue (Z.of_nat 0 - 1 <? Z.of_nat low).
        eexists false, _. split; [done|]. split; [done|]. intros (k & Hk & HP). by replace k with 0%nat in HP by lia.
      * replace (Z.of_nat (S last) - 1) with (Z.of_nat last) by lia.
        destruct (IH last (ml1 - 1)) as (b & ml2 & -> & Hb2); [lia..|].
        exists b, ml2. split; [done|]. rewrite Hb2. split; intros (k & Hk & HP); exists k; (split; [|done]).
        -- lia.
        -- destruct (decide (k = S last)) as [->|]; [done | lia].
Qed.

(** The language of an item repeated, then what the rest matches. *)
Definition repeats (a : atom) (q : quant) (P : list Z -> Prop) (w : list Z) : Prop :=
  exists u v, w = u ++ v /\ quant_ok q (length u) /\ Forall (fun c => atom_match a c = true) u /\ P v.

Lemma repeats_span a q P i :
  (i <= length text)%nat ->
  repeats a q P (drop i text)
  <-> exists k, (i <= k <= i + span a (drop i text))%nat /\ quant_ok q (k - i) /\ P (drop k text).
Proof.
  intros Hi. split.
  - intros (u & v & E & Hq & Hu & HP). exists (i + length u)%nat.
    pose proof (span_spec a (drop i text) (length u)) as Hs. rewrite E in Hs at 2 3.
    rewrite take_app_length, length_app in Hs.
    split; [destruct Hs as [_ Hs]; specialize (Hs ltac:(split; [lia|done])); lia|].
    replace (i + length u - i)%nat with (length u) by lia. split; [done|].
    by rewrite <- drop_drop, E, drop_app_length.
  - intros (k & Hk & Hq & HP). exists (take (k - i) (drop i text)), (drop (k - i) (drop i text)).
    split; [by rewrite take_drop|]. pose proof (span_le a (drop i text)) as Hl. rewrite length_drop in Hl.
    rewrite length_take, length_drop, Nat.min_l by lia. split; [done|]. split.
    + apply span_spec. lia.
    + rewrite drop_drop. by replace (i + (k - i))%nat with k by lia.
Qed.

Lemma matchstar_spec f P a r :
  decides f P -> denotes (ccl_buf st) a r -> atom_ok a -> decides (matchstar st text f r) (repeats a Many P).
Proof.
  intros Hd Hr Ha i ml Hi. unfold matchstar. rewrite (advance_span a r) by (done || lia). rewrite bind_Some.
  pose proof (span_le a (drop i text)) as Hl. rewrite length_drop in Hl.
  destruct (retreat_spec f P (length text + 2) i (i + span a (drop i text))
              (ml + Z.of_nat (span a (drop i text))) Hd) as (b & ml' & -> & Hb); [lia..|].
  rewrite bind_Some. pose proof (repeats_span a Many P i Hi) as Hrs.
  destruct b; eexists _, _; (split; [done|]); rewrite Hrs, Hb;
    cbn [quant_ok]; split; intros (k & ? & ?); exists k; tauto.
Qed.

Lemma matchplus_spec f P a r :
  decides f P -> denotes (ccl_buf st) a r -> atom_ok a -> decides (matchplus st text f r) (repeats a AtLeastOne P).
Proof.
  intros Hd Hr Ha i ml Hi. unfold matchplus. rewrite (advance_span a r) by (done || lia). rewrite bind_Some.
  pose proof (span_le a (drop i text)) as Hl. rewrite length_drop in Hl.
  replace (Z.of_nat i + 1) with (Z.of_nat (S i)) by lia.
  destruct (retreat_spec f P (length text + 2) (S i) (i + span a (drop i text))
              (ml + Z.of_nat (span a (drop i text))) Hd) as (b & ml' & -> & Hb); [lia..|].
  exists b, ml'. split; [done|]. rewrite (repeats_span a AtLeastOne P i Hi), Hb.
  cbn [quant_ok]. split; intros (k & Hk & HP); exists k; (split; [lia|]); [split; [lia|done] | apply HP].
Qed.

Lemma matchquestion_spec f P a r :
  decides f P -> denotes (ccl_buf st) a r -> atom_ok a ->
  decides (matchquestion st text f r) (repeats a Optional P).
Proof.
  intros Hd Hr Ha i ml Hi. unfold matchquestion.
  assert (re_type r <> UNUSED) by (apply (denotes_type _ _ _ _ Hr); left).
  rewrite bool_decide_eq_false_2 by done. destruct (Hd i ml Hi) as (b & ml1 & -> & Hb). rewrite bind_Some.
  pose proof (repeats_span a Optional P i Hi) as Hrs. destruct b.
  { eexists _, _. split; [done|]. rewrite Hrs. split; [|done]. intros _. exists i. cbn. split; [lia|]. split; [lia|]. by apply Hb. }
  assert (~ P (drop i text)) as Hn by (intros HP; by apply Hb in HP).
  rewrite (matchnext_denotes a r) by done. rewrite bind_Some.
  destruct (text !! i) as [c|] eqn:E.
  - rewrite (drop_S text c i) in Hrs |- * by done. cbn [span] in Hrs. apply lookup_lt_Some in E.
    destruct (atom_match a c); cbn [negb].
    + replace (Z.of_nat i + 1) with (Z.of_nat (S i)) by lia.
      destruct (Hd (S i) ml1 E) as (b & ml2 & -> & Hb2). rewrite bind_Some.
      exists b, (if b then ml2 + 1 else ml2). split; [by destruct b|]. rewrite Hrs, Hb2. split.
      * intros HP. exists (S i). cbn. split; [lia|]. split; [lia | done].
      * intros (k & Hk & Hq & HP). cbn in Hq. destruct (decide (k = i)) as [->|]; [done|].
        by replace (S i) with k by lia.
    + eexists _, _. split; [done|]. rewrite Hrs. split; [done|]. intros (k & Hk & _ & HP).
      by replace k with i in HP by lia.
  - apply lookup_ge_None in E. rewrite (drop_ge text i) in Hrs |- * by lia. cbn [span negb] in *.
    eexists _, _. split; [done|]. rewrite Hrs. split; [done|]. intros (k & Hk & _ & HP).
    by replace k with i in HP by lia.
Qed.

(** *** The whole pattern *)

Lemma accepts_cons it items fin w :
  accepts (it :: items) fin w <-> repeats (it_atom it) (it_quant it) (accepts items fin) w.
Proof.
  split.
  - intros (u & v & -> & (u1 & u2 & -> & Hq & Hu & Hl) & Hf). exists u1, (u2 ++ v).
    rewrite <- app_assoc. split; [done|]. split; [done|]. split; [done|]. by exists u2, v.
  - intros (u & v & -> & Hq & Hu & (u2 & v2 & -> & Hl & Hf)). exists (u ++ u2), v2.
    rewrite <- app_assoc. split; [done|]. split; [|done]. by exists u, u2.
Qed.

Lemma accepts_nil fin w : accepts [] fin w <-> (fin = true -> w = []).
Proof.
  split; [intros (u & v & -> & -> & Hf); done|]. intros Hf. by exists [], w.
Qed.

Lemma accepts_once a items fin w :
  accepts (mkItem a Once :: items) fin w
  <-> exists c v, w = c :: v /\ atom_match a c = true /\ accepts items fin v.
Proof.
  rewrite accepts_cons. unfold repeats. cbn. split.
  - intros (u & v & -> & Hu & Hf & HP). destruct u as [|c [|? ?]]; try done.
    apply Forall_cons in Hf as [Hf _]. by exists c, v.
  - intros (c & v & -> & Hf & HP). exists [c], v. split; [done|]. split; [done|]. split; [|done].
    by constructor.
Qed.

(** No quantifier and no end anchor. *)
Definition plain (items : list item) (fin : bool) : Prop :=
  Forall (fun it => it_quant it = Once) items /\ fin = false.

Context (fin : bool) (u : regex_t) (rest : list regex_t) (Hu : re_type u = UNUSED).

Abbreviation rest_tokens items := (concat (item_tokens <$> items) ++ (if fin then [TEnd] else [])).

(** What follows an unquantified symbol is no quantifier. *)
Lemma next_symbol items l :
  Forall2 (token_denotes (ccl_buf st)) (rest_tokens items) l ->
  exists p l', l ++ u :: rest = p :: l' /\ re_type p <> QUESTIONMARK /\ re_type p <> STAR /\ re_type p <> PLUS
    /\ re_type p <> BEGIN.
Proof.
  intros H. destruct items as [|[a q] items]; cbn in H.
  - destruct fin.
    + apply Forall2_cons_inv_l in H as (r & l' & Hr & H & ->). apply Forall2_nil_inv_l in H as ->.
      eexists _, _. split; [done|]. cbn in Hr. by rewrite Hr.
    + apply Forall2_nil_inv_l in H as ->. eexists _, _. split; [done|]. by rewrite Hu.
  - apply Forall2_cons_inv_l in H as (r & l' & Hr & _ & ->). eexists _, _. split; [done|].
    cbn in Hr. repeat split; (eapply denotes_type; [exact Hr|]); set_solver.
Qed.

(** Decide the tests on known symbol types. *)
Ltac types_compute :=
  repeat match goal with
  | |- context [bool_decide (?x = ?y :> regex_type)] =>
      let v := eval vm_compute in (bool_decide (x = y)) in
      lazymatch v with true => idtac | false => idtac end;
      change (bool_decide (x = y)) with v
  end.

Lemma matchpattern_loop_spec fuel : forall items front l pre (i : nat) ml,
  re_compiled st = front ++ l ++ u :: rest ->
  Forall2 (token_denotes (ccl_buf st)) (rest_tokens items) l ->
  Forall (fun it => atom_ok (it_atom it)) items -> (length l < fuel)%nat -> (i <= length text)%nat ->
  exists b ml', matchpattern_loop st text fuel (zlen front) (Z.of_nat i) ml pre = Some (b, ml')
    /\ (b = true <-> accepts items fin (drop i text))
    /\ (plain items fin -> ml' = if b then ml + zlen items else pre).
Proof.
  induction fuel as [|fuel IH]; intros items front l pre i ml Hc Hl Ha Hf Hi; [lia|].
  cbn [matchpattern_loop]. rewrite Hc. destruct items as [|[a q] items].
  - destruct fin eqn:Efin; cbn in Hl.
    + apply Forall2_cons_inv_l in Hl as (r & l' & Hr & Hl & ->). apply Forall2_nil_inv_l in Hl as ->.
      cbn in Hr. cbn [app]. rewrite znth_0, bind_Some, Hr. cbn [bool_decide decide]. 
      rewrite znth_1, bind_Some, Hu. rewrite !bool_decide_eq_false_2 by done. cbn [andb].
      rewrite !bool_decide_eq_true_2 by done. cbn [andb]. unfold str_at. pose proof (accepts_nil true (drop i text)) as Hac. zcase.
      * eexists _, _. split; [done|]. split; [|by intros [_ ?]]. rewrite Hac. split; [|done]. intros _ _. apply drop_ge. lia.
      * rewrite znth_of_nat. destruct (text !! i) as [c|] eqn:E; [|apply lookup_ge_None in E; lia].
        rewrite bind_Some. eexists _, _. split; [done|]. split; [|by intros [_ ?]].
        assert (c <> 0) by (rewrite Forall_lookup in Htext; by apply (Htext i)). zfalse (c =? 0).
        rewrite Hac. split; [done|]. intros H'. rewrite (drop_S text c i) in H' by done. by specialize (H' eq_refl).
    + apply Forall2_nil_inv_l in Hl as ->. cbn [app]. rewrite znth_0, bind_Some.
      rewrite bool_decide_eq_true_2 by done. unfold matchquestion. rewrite bool_decide_eq_true_2 by done.
      eexists _, _. split; [done|]. split; [by rewrite accepts_nil|]. intros _. cbn. lia.
  - apply Forall_cons in Ha as [Ha Has]. cbn [it_atom] in Ha. cbn in Hl.
    apply Forall2_cons_inv_l in Hl as (r & l' & Hr & Hl & ->). cbn in Hr.
    rewrite <- app_comm_cons, znth_0, bind_Some.
    assert (Ht : forall t, t ∈ [UNUSED; BEGIN; END; QUESTIONMARK; STAR; PLUS] -> (re_type r =t? t) = false).
    { intros t Ht. apply bool_decide_eq_false_2. by apply (denotes_type _ _ _ _ Hr). }
    rewrite Ht by set_solver.
    assert (Hrest : forall r' l'', l' = r' :: l'' -> Forall2 (token_denotes (ccl_buf st)) (rest_tokens items) l'' ->
      decides (fun pos ml => matchpattern_loop st text fuel (zlen front + 2) pos ml ml) (accepts items fin)).
    { intros r' l'' -> Hl' k ml0 Hk. replace (zlen front + 2) with (zlen (front ++ [r; r'])) by len.
      destruct (IH items (front ++ [r; r']) l'' ml0 k ml0) as (b & ml' & ? & ? & _);
        [by rewrite Hc, <- app_assoc | done | done | cbn in Hf; lia | lia | by exists b, ml']. }
    destruct q.
    2-4: apply Forall2_cons_inv_l in Hl as (r' & l'' & Hq & Hl & ->); cbn in Hq;
      rewrite <- app_comm_cons, znth_1, bind_Some, Hq; types_compute; specialize (Hrest _ _ eq_refl Hl).
    2: pose proof (matchquestion_spec _ _ a r Hrest Hr Ha i ml Hi) as Hs.
    3: pose proof (matchstar_spec _ _ a r Hrest Hr Ha i ml Hi) as Hs.
    4: pose proof (matchplus_spec _ _ a r Hrest Hr Ha i ml Hi) as Hs.
    2-4: destruct Hs as (b & ml' & -> & Hb); exists b, ml'; (split; [done|]); (split; [by rewrite accepts_cons|]);
      intros [Hp _]; apply Forall_cons in Hp as [Hp _]; discriminate Hp.
    + cbn [app] in Hl. destruct (next_symbol _ _ Hl) as (p1 & l1 & E1 & H1 & H2 & H3 & _).
      rewrite E1, znth_1, bind_Some. rewrite !bool_decide_eq_false_2 by done. rewrite Ht by set_solver.
      cbn [andb]. rewrite (matchnext_denotes a r) by done. rewrite bind_Some.
      pose proof (accepts_once a items fin (drop i text)) as Hac.
      assert (Hpl : plain (mkItem a Once :: items) fin -> plain items fin).
      { intros [Hp ?]. apply Forall_cons in Hp as [_ Hp]. by split. }
      destruct (text !! i) as [c|] eqn:E.
      * rewrite (drop_S text c i) in Hac |- * by done. apply lookup_lt_Some in E.
        destruct (atom_match a c) eqn:Em.
        -- rewrite (zlen_snoc front r). replace (Z.of_nat i + 1) with (Z.of_nat (S i)) by lia.
           destruct (IH items (front ++ [r]) l' pre (S i) (ml + 1)) as (b & ml' & -> & Hb & Hml);
             [by rewrite Hc, <- app_assoc | done | done | cbn in Hf; lia | lia |].
           eexists _, _. split; [done|]. rewrite Hac, Hb. split.
           ++ split; [intros; by exists c, (drop (S i) text)|]. by intros (c' & v & [= <- <-] & _ & ?).
           ++ intros Hp. rewrite (Hml (Hpl Hp)). destruct b; [cbn [length]; lia | done].
        -- eexists _, _. split; [done|]. rewrite Hac. split; [|done]. split; [done|].
           intros (c' & v & [= <- <-] & ? & _). congruence.
      * apply lookup_ge_None in E. rewrite (drop_ge text i) in Hac |- * by lia.
        eexists _, _. split; [done|]. rewrite Hac. split; [|done]. split; [done|]. by intros (c & v & ? & _).
Qed.

Lemma matchpattern_spec items front l (i : nat) ml :
  re_compiled st = front ++ l ++ u :: rest ->
  Forall2 (token_denotes (ccl_buf st)) (rest_tokens items) l ->
  Forall (fun it => atom_ok (it_atom it)) items -> (i <= length text)%nat ->
  exists b ml', matchpattern st text (zlen front) (Z.of_nat i) ml = Some (b, ml')
    /\ (b = true <-> accepts items fin (drop i text))
    /\ (plain items fin -> ml' = if b then ml + zlen items else ml).
Proof.
  intros Hc Hl Ha Hi. unfold matchpattern. eapply matchpattern_loop_spec; try done.
  rewrite Hc, !length_app. lia.
Qed.

(** The first start of a match within the text from [from] on, or -1. *)
Definition first_match (items : list item) (from : nat) (i : Z) : Prop :=
  (i = -1 /\ forall k, (from <= k < length text)%nat -> ~ accepts items fin (drop k text))
  \/ exists n, i = Z.of_nat n /\ (from <= n < length text)%nat /\ accepts items fin (drop n text)
       /\ forall k, (from <= k < n)%nat -> ~ accepts items fin (drop k text).

Lemma search_loop_spec items l fuel (idx : nat) ml :
  re_compiled st = l ++ u :: rest ->
  Forall2 (token_denotes (ccl_buf st)) (rest_tokens items) l ->
  Forall (fun it => atom_ok (it_atom it)) items ->
  (idx <= length text)%nat -> (length text - idx < fuel)%nat ->
  exists i ml', search_loop st text fuel (Z.of_nat idx) ml = Some (i, ml')
    /\ first_match items idx i /\ (plain items fin -> ml = 0 -> 0 <= i -> ml' = zlen items).
Proof.
  intros Hc Hl Ha. revert idx ml. induction fuel as [|fuel IH]; intros idx ml Hi Hf; [lia|].
  cbn [search_loop].
  destruct (matchpattern_spec items [] l idx ml Hc Hl Ha Hi) as (b & ml1 & E & Hb & Hml).
  change (zlen (@nil regex_t)) with 0 in E. rewrite E, bind_Some.
  destruct (decide (idx = length text)) as [->|Hne].
  - rewrite str_at_end, bind_Some. exists (-1), ml1. split; [by destruct b|]. split; [|lia].
    left. split; [done|]. intros k Hk. lia.
  - destruct (lookup_lt_is_Some_2 text idx) as [c Hc']; [lia|].
    assert (c <> 0) by (rewrite Forall_lookup in Htext; by apply (Htext idx)).
    unfold str_at. zfalse (Z.of_nat idx =? zlen text). rewrite znth_of_nat, Hc', bind_Some.
    zfalse (c =? 0). destruct b.
    + exists (Z.of_nat idx), ml1. split; [done|]. split.
      * right. exists idx. split; [done|]. split; [lia|]. split; [by apply Hb|]. intros k Hk. lia.
      * intros Hp -> _. rewrite (Hml Hp). lia.
    + replace (Z.of_nat idx + 1) with (Z.of_nat (S idx)) by lia.
      destruct (IH (S idx) ml1) as (i & ml2 & -> & Hfm & Hml2); [lia..|].
      exists i, ml2. split; [done|]. assert (~ accepts items fin (drop idx text)) as Hn by (intros H'; by apply Hb in H').
      split.
      * destruct Hfm as [[-> Hk]|(n & -> & Hn1 & Hn2 & Hk)].
        -- left. split; [done|]. intros k Hk'. destruct (decide (k = idx)) as [->|]; [done|]. apply Hk. lia.
        -- right. exists n. split; [done|]. split; [lia|]. split; [done|]. intros k Hk'.
           destruct (decide (k = idx)) as [->|]; [done|]. apply Hk. lia.
      * intros Hp -> Hi0. apply Hml2; [done | | done]. by rewrite (Hml Hp).
Qed.
End matcher.

(** ** Compilation *)

Definition unit_ok (w : list Z) : Prop :=
  (exists a, w = [a] /\ a <> 0 /\ a <> ord "\" /\ a <> ord "]") \/ exists x, w = [ord "\"; x].

(** The characters of a class, escapes with what they escape. *)
Lemma class_units k : class_ok k -> exists ws, class_body k = concat ws /\ Forall unit_ok ws.
Proof.
  assert (Hh : forall b, exists ws, hyphen b = concat ws /\ Forall unit_ok ws).
  { intros []; [exists [[ord "-"]] | by exists []]. split; [done|]. constructor; [|done].
    left. by eexists. }
  intros [Hok _]. unfold class_body.
  destruct (Hh (cc_lead k)) as (ws1 & -> & H1), (Hh (cc_trail k)) as (ws3 & -> & H3).
  assert (exists ws2, concat (render_item <$> cc_items k) = concat ws2 /\ Forall unit_ok ws2) as (ws2 & -> & H2).
  { induction Hok as [|it items Hit _ (ws & E & Hws)]; [by exists []|]. cbn. rewrite E.
    unfold item_ok, plain_class_char in Hit. destruct it as [a|lo hi|x]; destruct_and?.
    - exists ([a] :: ws). split; [done|]. constructor; [left; by exists a | done].
    - exists ([lo] :: [ord "-"] :: [hi] :: ws). split; [done|].
      repeat (constructor; [left; eexists; split; [done|]; split; [done|]; split; done|]). done.
    - exists ([ord "\"; x] :: ws). split; [done|]. constructor; [right; by exists x | done]. }
  exists (ws1 ++ ws2 ++ ws3). rewrite !concat_app. split; [done|]. by rewrite !Forall_app.
Qed.

Ltac tuple_eq :=
  repeat match goal with
  | |- Some _ = Some _ => f_equal
  | |- (_, _) = (_, _) => f_equal
  end; try reflexivity.

Lemma class_loop_spec ws : Forall unit_ok ws -> forall fuel pre post b1 b2,
  (length (concat ws) < fuel)%nat -> zlen b1 + zlen (concat ws) < MAX_CHAR_CLASS_LEN ->
  zlen b1 + zlen b2 = MAX_CHAR_CLASS_LEN ->
  class_loop fuel (pre ++ concat ws ++ ord "]" :: post) (b1 ++ b2) (zlen pre - 1) (zlen b1)
  = Some ((b1 ++ concat ws) ++ drop (length (concat ws)) b2, zlen pre + zlen (concat ws),
          zlen b1 + zlen (concat ws), true).
Proof.
  unfold MAX_CHAR_CLASS_LEN.
  induction 1 as [|w ws Hw _ IH]; intros fuel pre post b1 b2 Hf Hs Hl;
    (destruct fuel as [|fuel]; [lia|]); cbn [class_loop]; replace (zlen pre - 1 + 1) with (zlen pre) by lia.
  - cbn [concat app]. rewrite str_at_0, bind_Some. cbn [length drop].
    change (ord "]" =? ord "]") with true. cbn [orb]. rewrite app_nil_r. tuple_eq; lia.
  - cbn [concat] in *. destruct Hw as [(a & -> & H0 & H1 & H2)|(x & ->)]; cbn [app length] in *.
    + rewrite str_at_0, bind_Some. zfalse ((a =? ord "]") || (a =? 0)). zfalse (a =? ord "\").
      unfold MAX_CHAR_CLASS_LEN. zfalse (zlen b1 >=? 40). destruct b2 as [|y b2]; [cbn in Hl; lia|].
      rewrite zset_snoc, bind_Some by done. rewrite (app_cons_mid pre a), (app_cons_mid b1 a).
      replace (zlen pre) with (zlen (pre ++ [a]) - 1) at 1 by len.
      rewrite (zlen_snoc b1 a), IH by len. rewrite <- (app_assoc b1). cbn [app drop]. tuple_eq; len.
    + rewrite str_at_0, bind_Some. zfalse ((ord "\" =? ord "]") || (ord "\" =? 0)).
      change (ord "\" =? ord "\") with true. cbn [orb]. unfold MAX_CHAR_CLASS_LEN.
      zfalse (zlen b1 >=? 40 - 1). destruct b2 as [|y [|y' b2]]; [cbn in Hl; lia..|].
      rewrite zset_snoc, bind_Some by done. rewrite str_at_1, bind_Some.
      rewrite (app_cons_mid pre (ord "\")).
      rewrite (app_cons_mid b1 (ord "\")), zset_snoc, bind_Some by len.
      rewrite (app_cons_mid (pre ++ [ord "\"]) x), (app_cons_mid (b1 ++ [ord "\"]) x).
      replace (zlen pre + 1) with (zlen ((pre ++ [ord "\"]) ++ [x]) - 1) by len.
      replace (zlen b1 + 2) with (zlen ((b1 ++ [ord "\"]) ++ [x])) by len.
      rewrite IH by len. rewrite <- !(app_assoc b1). cbn [app drop]. tuple_eq; len.
Qed.

Lemma set_type_at front r rest t :
  set_type (front ++ r :: rest) (zlen front) t = Some (front ++ mkRe t (re_data r) :: rest).
Proof. unfold set_type. rewrite znth_0, bind_Some. by rewrite zset_snoc. Qed.

Lemma set_data_at front r rest d :
  set_data (front ++ r :: rest) (zlen front) d = Some (front ++ mkRe (re_type r) d :: rest).
Proof. unfold set_data. rewrite znth_0, bind_Some. by rewrite zset_snoc. Qed.

(** The arrays with the symbols [front] compiled and the classes [b1] copied. *)
Record compiled_to (st : regex_state) (front rest : list regex_t) (b1 : list Z) : Prop := {
  ct_symbols : re_compiled st = front ++ rest;
  ct_size : zlen (front ++ rest) = MAX_REGEXP_OBJECTS;
  ct_buf : exists b2, ccl_buf st = b1 ++ b2 /\ zlen b1 + zlen b2 = MAX_CHAR_CLASS_LEN;
  ct_last : exists p, b1 = p ++ [0]
}.

Lemma compiled_to_symbol st st' front r r' rest b1 :
  compiled_to st front (r :: rest) b1 ->
  re_compiled st' = front ++ r' :: rest -> ccl_buf st' = ccl_buf st ->
  compiled_to st' (front ++ [r']) rest b1.
Proof.
  intros [H1 H2 H3 H4] E1 E2. split; [by rewrite <- app_assoc| | by rewrite E2 | done].
  rewrite <- H2. len.
Qed.

(** A symbol that takes no class. *)
Definition plain_token (t : token) : Prop := match t with TAtom (Class _) => False | _ => True end.

Lemma plain_or_class t : plain_token t \/ exists k, t = TAtom (Class k).
Proof. destruct t as [| | |[| | |k]]; try (by left). right. by exists k. Qed.

Lemma compile_symbol_plain t st pre post front r rest b1 :
  token_ok t -> plain_token t -> compiled_to st front (r :: rest) b1 ->
  exists st' r', compile_symbol st (pre ++ render_token t ++ post) (zlen pre) (zlen front) (zlen b1)
      = Some (st', zlen pre + zlen (render_token t) - 1, zlen b1, true)
    /\ compiled_to st' (front ++ [r']) rest b1 /\ token_denotes b1 t r'.
Proof.
  intros Hok Hpl H. pose proof (ct_symbols _ _ _ _ H) as Hs.
  unfold compile_symbol. destruct t as [| |q|a].
  - cbn [render_token app]. rewrite str_at_0, bind_Some. cbn [Z.eqb Pos.eqb].
    rewrite Hs, set_type_at, bind_Some. eexists _, _. split; [tuple_eq; cbn; lia|].
    split; [by apply (compiled_to_symbol _ _ _ _ _ _ _ H) | done].
  - cbn [render_token app]. rewrite str_at_0, bind_Some. cbn [Z.eqb Pos.eqb].
    rewrite Hs, set_type_at, bind_Some. eexists _, _. split; [tuple_eq; cbn; lia|].
    split; [by apply (compiled_to_symbol _ _ _ _ _ _ _ H) | done].
  - destruct q; [done|..]; cbn [render_token app]; rewrite str_at_0, bind_Some; cbn [Z.eqb Pos.eqb];
      rewrite Hs, set_type_at, bind_Some; (eexists _, _; split; [tuple_eq; cbn; lia|]);
      (split; [by apply (compiled_to_symbol _ _ _ _ _ _ _ H) | done]).
  - destruct a as [|x|x|k]; [| | |done]; cbn [render_token render_atom app].
    + rewrite str_at_0, bind_Some. cbn [Z.eqb Pos.eqb].
      rewrite Hs, set_type_at, bind_Some. eexists _, _. split; [tuple_eq; cbn; lia|].
      split; [by apply (compiled_to_symbol _ _ _ _ _ _ _ H) | done].
    + destruct Hok as [Hx Hsp]. rewrite str_at_0, bind_Some. unfold is_special in Hsp. cbn [existsb] in Hsp.
      rewrite !orb_false_iff in Hsp. destruct_and?. zbool.
      repeat match goal with |- context [if ?a =? ?b then _ else _] => zfalse (a =? b) end.
      rewrite Hs, set_type_at, bind_Some, set_data_at, bind_Some. unfold u8. rewrite Z.mod_small by lia.
      eexists _, _. split; [tuple_eq; cbn; lia|].
      split; [by apply (compiled_to_symbol _ _ _ _ _ _ _ H) | done].
    + rewrite str_at_0, bind_Some. cbn [Z.eqb Pos.eqb]. unfold compile_escape.
      rewrite str_at_1, bind_Some. cbn in Hok. zfalse (x =? 0). rewrite Hs. unfold u8.
      rewrite (Z.mod_small x) by lia.
      quoted_cases; rewrite set_type_at, ?bind_Some, ?set_data_at, ?bind_Some;
        (eexists _, _; split; [tuple_eq; cbn; lia|]);
        (split; [by apply (compiled_to_symbol _ _ _ _ _ _ _ H)|]); cbn; quoted_cases; done.
Qed.

Lemma compile_symbol_class k st pre post front r rest b1 :
  class_ok k -> compiled_to st front (r :: rest) b1 ->
  zlen b1 + zlen (class_body k) + 1 <= MAX_CHAR_CLASS_LEN ->
  exists st' r' b1', compile_symbol st (pre ++ render_atom (Class k) ++ post) (zlen pre) (zlen front) (zlen b1)
      = Some (st', zlen pre + zlen (render_atom (Class k)) - 1, zlen b1', true)
    /\ compiled_to st' (front ++ [r']) rest b1' /\ token_denotes b1' (TAtom (Class k)) r'
    /\ (exists x, b1' = b1 ++ x) /\ zlen b1' = zlen b1 + (zlen (class_body k) + 1).
Proof.
  intros Hok H Hsz. pose proof (ct_symbols _ _ _ _ H) as Hs.
  destruct (ct_buf _ _ _ _ H) as (b2 & Hb & Hl), (ct_last _ _ _ _ H) as (p & Hp).
  destruct (class_units k Hok) as (ws & Ew & Hws).
  assert (Hloop : forall pre' fuel, (length (concat ws) < fuel)%nat ->
    class_loop fuel (pre' ++ class_body k ++ ord "]" :: post) (b1 ++ b2) (zlen pre' - 1) (zlen b1)
    = Some ((b1 ++ class_body k) ++ drop (length (class_body k)) b2, zlen pre' + zlen (class_body k),
            zlen b1 + zlen (class_body k), true)).
  { intros. rewrite Ew in *. apply class_loop_spec; [done | done | lia | done]. }
  unfold compile_symbol. cbn [render_atom app]. rewrite str_at_0, bind_Some. cbn [Z.eqb Pos.eqb].
  unfold compile_class. rewrite <- !app_assoc. cbn [app].
  assert (Hc : exists c l, (if cc_neg k then [ord "^"] else []) ++ class_body k ++ ord "]" :: post = c :: l
     /\ (c =? ord "^") = cc_neg k).
  { destruct Hok as [_ Hh]. destruct (cc_neg k); [by eexists _, _|].
    specialize (Hh eq_refl). cbn [app]. destruct (class_body k) as [|c l]; [by eexists _, _|].
    exists c, (l ++ ord "]" :: post). split; [done|]. cbn in Hh. apply Z.eqb_neq. congruence. }
  destruct Hc as (c & l & Ec & Hneg). rewrite Ec, str_at_1, bind_Some, <- Ec, Hneg, Hs, set_type_at, bind_Some, Hb.
  set (pre' := pre ++ ord "[" :: (if cc_neg k then [ord "^"] else [])).
  replace (pre ++ ord "[" :: (if cc_neg k then [ord "^"] else []) ++ class_body k ++ ord "]" :: post)
    with (pre' ++ class_body k ++ ord "]" :: post) by (subst pre'; by rewrite <- app_assoc).
  replace (if cc_neg k then zlen pre + 1 else zlen pre) with (zlen pre' - 1)
    by (subst pre'; destruct (cc_neg k); len).
  rewrite Hloop by (rewrite <- Ew, !length_app; cbn; lia). rewrite bind_Some. cbn [negb].
  unfold MAX_CHAR_CLASS_LEN in *. zfalse (zlen b1 + zlen (class_body k) >=? 40).
  destruct (drop (length (class_body k)) b2) as [|y b3] eqn:Ed.
  { apply (f_equal length) in Ed. rewrite length_drop in Ed. cbn in Ed. lia. }
  rewrite zset_snoc, bind_Some by len. rewrite set_data_at, bind_Some.
  eexists _, _, ((b1 ++ class_body k) ++ [0]). split.
  { tuple_eq; [|len]. subst pre'. rewrite !length_app. cbn [length]. rewrite !length_app. cbn [length].
    destruct (cc_neg k); cbn [length]; lia. }
  apply (f_equal length) in Ed. rewrite length_drop in Ed. cbn [length] in Ed.
  split; [split| split; [|split]].
  - cbn [re_compiled]. by rewrite <- app_assoc.
  - rewrite <- (ct_size _ _ _ _ H). len.
  - exists b3. cbn [ccl_buf]. split; [by rewrite <- !app_assoc | unfold MAX_CHAR_CLASS_LEN; len].
  - by eexists.
  - cbn. exists (zlen b1). split; [by destruct (cc_neg k)|]. exists p, []. rewrite Hp. by rewrite <- !app_assoc.
  - exists (class_body k ++ [0]). by rewrite <- app_assoc.
  - len.
Qed.

Lemma render_token_head t :
  token_ok t -> exists c l, render_token t = c :: l /\ c <> 0.
Proof.
  destruct t as [| |[]|[|x|x|k]]; cbn; intros H; try done; try (eexists _, _; split; [done|]; done).
  eexists _, _. split; [done|]. lia.
Qed.

(** *** All the symbols *)

Lemma compile_loop_spec ts : forall fuel st pre front rest b1,
  Forall token_ok ts -> (length (concat (render_token <$> ts)) < fuel)%nat ->
  compiled_to st front rest b1 -> zlen front + zlen ts < MAX_REGEXP_OBJECTS ->
  zlen b1 + class_sizes ts <= MAX_CHAR_CLASS_LEN ->
  exists st' l rest' b, compile_loop fuel st (pre ++ concat (render_token <$> ts)) (zlen pre) (zlen front) (zlen b1)
      = Some (st', zlen (front ++ l), true)
    /\ compiled_to st' (front ++ l) rest' b /\ Forall2 (token_denotes b) ts l
    /\ (exists x, b = b1 ++ x) /\ rest' <> [].
Proof.
  unfold MAX_REGEXP_OBJECTS.
  induction ts as [|t ts IH]; intros fuel st pre front rest b1 Hok Hf H Hn Hs;
    (destruct fuel as [|fuel]; [lia|]); cbn [compile_loop fmap list_fmap concat].
  - rewrite app_nil_r, str_at_end, bind_Some. cbn [negb andb Z.eqb].
    exists st, [], rest, b1. rewrite app_nil_r. split; [done|]. split; [done|]. split; [constructor|].
    split; [exists []; by rewrite app_nil_r|]. intros ->. pose proof (ct_size _ _ _ _ H) as Hz.
    rewrite app_nil_r in Hz. unfold MAX_REGEXP_OBJECTS in Hz. cbn in Hn. lia.
  - apply Forall_cons in Hok as [Ht Hok]. cbn [length] in Hn.
    destruct (render_token_head t Ht) as (c & lt & Ec & Hc).
    replace (str_at (pre ++ render_token t ++ concat (render_token <$> ts)) (zlen pre)) with (Some c)
      by (rewrite Ec; symmetry; apply str_at_0).
    rewrite bind_Some. zfalse (c =? 0). unfold MAX_REGEXP_OBJECTS at 1. ztrue (zlen front + 1 <? 30). cbn [negb andb].
    destruct rest as [|r rest].
    { pose proof (ct_size _ _ _ _ H) as Hz. rewrite app_nil_r in Hz. unfold MAX_REGEXP_OBJECTS in Hz. lia. }
    assert (exists st' r' b1', compile_symbol st (pre ++ render_token t ++ concat (render_token <$> ts)) (zlen pre)
        (zlen front) (zlen b1) = Some (st', zlen pre + zlen (render_token t) - 1, zlen b1', true)
      /\ compiled_to st' (front ++ [r']) rest b1' /\ token_denotes b1' t r'
      /\ (exists x, b1' = b1 ++ x) /\ zlen b1' = zlen b1 + class_size t) as (st' & r' & b1' & -> & H' & Hd & [x Hx] & Hl).
    { cbn [class_sizes foldr] in Hs. assert (0 <= class_sizes ts) as H0.
      { clear. unfold class_sizes. induction ts as [|[| | |[]] ts IH]; cbn; lia. }
      unfold class_sizes in H0, Hs. cbn [foldr] in Hs.
      destruct (plain_or_class t) as [Hp|[k ->]].
      - destruct (compile_symbol_plain t st pre (concat (render_token <$> ts)) front r rest b1 Ht Hp H)
          as (st' & r' & E & H' & Hd). exists st', r', b1. split; [exact E|]. split; [done|]. split; [done|].
        split; [exists []; by rewrite app_nil_r|]. destruct t as [| | |[]]; cbn in *; lia || done.
      - apply (compile_symbol_class k st pre _ front r rest b1); [done | done | cbn in Hs; lia]. }
    rewrite bind_Some. cbn [negb]. rewrite (app_assoc pre).
    replace (zlen pre + zlen (render_token t) - 1 + 1) with (zlen (pre ++ render_token t)) by len.
    rewrite (zlen_snoc front r').
    destruct (IH fuel st' (pre ++ render_token t) (front ++ [r']) rest b1' Hok)
      as (st2 & l & rest' & b & E & H2 & Hl2 & [y Hy] & Hr); [| done | len | |].
    { cbn in Hf. rewrite Ec in Hf. rewrite length_app in Hf. cbn in Hf. lia. }
    { unfold class_sizes in *. cbn [foldr] in Hs. lia. }
    exists st2, (r' :: l), rest', b. rewrite (app_cons_mid front r' l). split; [exact E|]. split; [done|]. split.
    { constructor; [|done]. rewrite Hy. by apply token_denotes_app. }
    split; [|done]. exists (x ++ y). by rewrite Hy, Hx, <- app_assoc.
Qed.

(** What the static arrays keep between calls. *)
Definition static_ok (st : regex_state) : Prop :=
  zlen (re_compiled st) = MAX_REGEXP_OBJECTS /\ exists b, ccl_buf st = 0 :: b /\ zlen (ccl_buf st) = MAX_CHAR_CLASS_LEN.

Lemma compiled_to_static st front rest b1 : compiled_to st front rest ([0] ++ b1) -> static_ok st.
Proof.
  intros [H1 H2 (b2 & H3 & H4) _]. split; [by rewrite H1|]. exists (b1 ++ b2). rewrite H3.
  split; [done|]. rewrite <- H4. len.
Qed.

Lemma tokens_ok r : regex_ok r -> Forall token_ok (tokens r).
Proof.
  intros [Ha _]. unfold tokens. rewrite !Forall_app. split; [by destruct (rx_begin r); repeat constructor|].
  split; [|by destruct (rx_end r); repeat constructor].
  induction Ha as [|[a []] items Ha _ IH]; cbn; [constructor|..]; repeat (constructor; [done|]); done.
Qed.

Lemma re_compile_spec st r :
  static_ok st -> regex_ok r ->
  exists st' l u rest, re_compile st (render r) = Some (st', true)
    /\ re_compiled st' = l ++ u :: rest /\ re_type u = UNUSED
    /\ Forall2 (token_denotes (ccl_buf st')) (tokens r) l /\ static_ok st'.
Proof.
  intros [Hn (b & Eb & Hb)] Hok. pose proof (tokens_ok r Hok) as Ht. destruct Hok as (_ & Hlen & Hsz).
  assert (H0 : compiled_to st [] (re_compiled st) [0]).
  { split; [done | done | | by exists []]. exists b. split; [done|]. rewrite Eb in Hb. cbn in *. lia. }
  destruct (compile_loop_spec (tokens r) (S (length (render r))) st [] [] _ [0] Ht
    ltac:(unfold render; lia) H0 ltac:(done)
    ltac:(unfold MAX_CHAR_CLASS_LEN in *; cbn [length]; lia)) as (st' & l & rest & b1 & E & H & Hd & [x Hx] & Hr).
  unfold re_compile. change (zlen (@nil Z)) with 0 in E. change (zlen (@nil regex_t)) with 0 in E.
  change (zlen [0]) with 1 in E. cbn [app] in E. fold (render r) in E. rewrite E, bind_Some. cbn [negb].
  destruct rest as [|u rest]; [done|].
  rewrite (ct_symbols _ _ _ _ H). cbn [app]. rewrite set_type_at, bind_Some.
  destruct (ct_buf _ _ _ _ H) as (b2 & Hb2 & Hl2).
  eexists _, l, _, rest. split; [done|]. split; [done|]. split; [done|]. cbn [ccl_buf]. split.
  - rewrite Hb2. eapply Forall2_impl; [exact Hd|]. intros. by apply token_denotes_app.
  - split; cbn [re_compiled ccl_buf].
    + rewrite <- (ct_size _ _ _ _ H). len.
    + exists (x ++ b2). rewrite Hb2, Hx. split; [done|]. rewrite <- Hl2, Hx. len.
Qed.

(** ** Matching the text of an expression *)

(** The result of a search: the first start of a match, within the text; at the
    start only, under the start anchor. *)
Definition found (r : regex) (text : list Z) (i : Z) : Prop :=
  if rx_begin r
  then i = 0 /\ accepts (rx_items r) (rx_end r) text \/ i = -1 /\ ~ accepts (rx_items r) (rx_end r) text
  else first_match text (rx_end r) (rx_items r) 0 i.

(** C13: for every expression that fits the arrays, [re_match] with its text as the
    pattern never leaves an array or a string, always ends, and returns the first
    index where a string of the expression starts (-1 when there is none), whatever
    the static arrays held; without quantifiers and end anchor the length reported is
    the length of the match. *)
Theorem re_match_correct st r text :
  static_ok st -> regex_ok r -> Forall (fun c => c <> 0) text ->
  exists st' i ml, re_match st (render r) text = Some (st', (i, ml)) /\ static_ok st'
    /\ found r text i
    /\ (plain (rx_items r) (rx_end r) -> 0 <= i -> ml = zlen (rx_items r)).
Proof.
  intros Hst Hok Htext.
  destruct (re_compile_spec st r Hst Hok) as (st' & l & u & rest & E & Hc & Hu & Hl & Hst').
  unfold re_match. rewrite E, bind_Some. cbn [negb]. unfold re_matchp, found.
  unfold tokens in Hl. destruct r as [bg items fin]. cbn [rx_begin rx_items rx_end] in *.
  destruct Hok as (Ha & _). cbn [rx_items] in Ha. destruct bg.
  - cbn [app] in Hl. apply Forall2_cons_inv_l in Hl as (r0 & l' & Hr0 & Hl & ->). cbn in Hr0.
    rewrite Hc. cbn [app]. rewrite znth_head, bind_Some, Hr0, bool_decide_eq_true_2 by done.
    destruct (matchpattern_spec st' text Htext fin u rest Hu items [r0] l' 0 0 Hc Hl Ha ltac:(lia))
      as (b & ml & Em & Hb & Hml).
    change (zlen [r0]) with 1 in Em. change (Z.of_nat 0) with 0 in Em. rewrite Em, bind_Some, bind_Some.
    eexists _, _, _. split; [done|]. split; [done|]. rewrite drop_0 in Hb. destruct b.
    + split; [left; split; [done | by apply Hb]|]. intros Hp _. by rewrite (Hml Hp).
    + split; [right; split; [done|]; intros H; by apply Hb in H | lia].
  - cbn [app] in Hl. destruct (next_symbol st' text Htext fin u rest Hu items l Hl) as (p & l1 & E1 & _ & _ & _ & Hp).
    rewrite Hc, E1, znth_head, bind_Some, bool_decide_eq_false_2 by done.
    destruct (search_loop_spec st' text Htext fin u rest Hu items l (S (length text)) 0 0 Hc Hl Ha)
      as (i & ml & Es & Hfm & Hml); [lia..|].
    change (Z.of_nat 0) with 0 in Es. rewrite Es, bind_Some.
    exists st', i, ml. split; [done|]. split; [done|]. split; [done|]. intros Hpl. by apply Hml.
Qed.

(** ** Concrete expressions *)

(** [[a-c]+\d?x] *)
Definition sample : regex :=
  mkExpr false [mkItem (Class (mkClass false false [Span (ord "a") (ord "c")] false)) AtLeastOne;
                mkItem (Quoted (ord "d")) Optional; mkItem (Literal (ord "x")) Once] false.

Lemma static_regex_ok : static_ok regex_static.
Proof. split; [done|]. by eexists. Qed.

Lemma sample_ok : regex_ok sample.
Proof.
  split; [|done]. repeat constructor; cbn; try done; try (intros [=]).
Qed.

Lemma re_match_correct_witness :
  exists st' i ml, re_match regex_static (render sample) [ord "-"; ord "b"; ord "a"; ord "7"; ord "x"]
      = Some (st', (i, ml)) /\ static_ok st'
    /\ found sample [ord "-"; ord "b"; ord "a"; ord "7"; ord "x"] i.
Proof.
  destruct (re_match_correct regex_static sample [ord "-"; ord "b"; ord "a"; ord "7"; ord "x"]
              static_regex_ok sample_ok) as (st' & i & ml & H1 & H2 & H3 & _).
  - repeat constructor; discriminate.
  - exists st', i, ml. split; [exact H1|]. split; [exact H2 | exact H3].
Defined.

Example sample_matches :
  snd <$> re_match regex_static (render sample) [ord "-"; ord "b"; ord "a"; ord "7"; ord "x"] = Some (1, 4).
Proof. vm_compute. reflexivity. Qed.

(** A failed attempt leaves its characters in [*matchlength]: [b$] in [bb] is found
    at 1 with the length 2. *)
Example matchlength_leaks :
  snd <$> re_match regex_static [ord "b"; ord "$"] [ord "b"; ord "b"] = Some (1, 2).
Proof. vm_compute. reflexivity. Qed.

(** [[a-z-]] does not match a hyphen, [[-a-z]] does. *)
Example hyphen_after_range :
  snd <$> re_match regex_static (ord "[" :: [ord "a"; ord "-"; ord "z"; ord "-"; ord "]"]) [ord "-"] = Some (-1, 0)
  /\ snd <$> re_match regex_static (ord "[" :: [ord "-"; ord "a"; ord "-"; ord "z"; ord "]"]) [ord "-"] = Some (0, 1).
Proof. split; vm_compute; reflexivity. Qed.

(** A class without its bracket is read past the end of the pattern. *)
Example unterminated_class : re_match regex_static [ord "["; ord "a"] [ord "a"] = None.
Proof. vm_compute. reflexivity. Qed.

(** Where [char] is signed, a character beyond 127 does not match itself. *)
Example signed_literal :
  snd <$> re_match regex_static [-61] [-61] = Some (-1, 0)
  /\ snd <$> re_match regex_static [195] [195] = Some (0, 1).
Proof. split; vm_compute; reflexivity. Qed.
