(* ===== verification/Membuf.v ===== *)
(** * fun_buffer/membuf.c: a growable byte buffer

    The memory of a buffer is the list of its bytes; a null pointer is the memory of
    no bytes.  [fresh n] is what [malloc] and [realloc] return for [n] new bytes; the
    allocations succeed. *)

From stdpp Require Import prelude.
From S2P Require Import Prelude CMem.

Record membuf_t := mkMembuf {
  mb_data : list Z;
  mb_size : Z;
  mb_buffer_size : Z;
  mb_local : bool
}.

Definition mb_zero : membuf_t := mkMembuf [] 0 0 false.

Section membuf.
Context (fresh : Z -> list Z).

(** [realloc] to a size that is not zero. *)
Definition realloc (m : list Z) (n : Z) : option (list Z) :=
  if n =? 0 then None
  else Some (take (Z.to_nat n) m ++ drop (length m) (fresh n)).

Definition membuf_init (initial_buffer_size : Z) : membuf_t :=
  mkMembuf (if initial_buffer_size >? 0 then fresh initial_buffer_size else [])
    0 initial_buffer_size false.

Definition membuf_init_local (local_buffer : option (list Z)) (local_buffer_size : Z) : membuf_t :=
  mkMembuf (match local_buffer with
            | Some m => if local_buffer_size >? 0 then m else []
            | None => []
            end) 0 local_buffer_size true.

(** [while (new_buffer_size < new_data_size) new_buffer_size <<= 1;] *)
Fixpoint grow (fuel : nat) (new_buffer_size new_data_size : Z) : option Z :=
  match fuel with
  | O => None
  | S fuel =>
      if new_buffer_size <? new_data_size
      then grow fuel (u32 (Z.shiftl new_buffer_size 1)) new_data_size
      else Some new_buffer_size
  end.

Definition membuf_reserve (fuel : nat) (buf : membuf_t) (extra_size : Z) : option membuf_t :=
  if extra_size >? u32 (mb_buffer_size buf - mb_size buf)
  then
    let new_buffer_size :=
      if mb_buffer_size buf =? 0 then extra_size else u32 (Z.shiftl (mb_buffer_size buf) 1) in
    let new_data_size := u32 (mb_size buf + extra_size) in
    new_buffer_size ← grow fuel new_buffer_size new_data_size;
    data ←
      (if mb_local buf
       then data ← realloc [] new_buffer_size; memcpy data 0 (mb_data buf) 0 (mb_size buf)
       else realloc (mb_data buf) new_buffer_size);
    Some (mkMembuf data (mb_size buf) new_buffer_size false)
  else Some buf.

(** [data] is null or what it points to; the offset of the new data. *)
Definition membuf_append_data (fuel : nat) (buf : membuf_t) (data : option (list Z)) (size : Z)
    : option (Z * membuf_t) :=
  data ← data;
  return_if negb (size >? 0) with None ;;
  buf ← membuf_reserve fuel buf size;
  m ← memcpy (mb_data buf) (mb_size buf) data 0 size;
  let buf := mkMembuf m (u32 (mb_size buf + size)) (mb_buffer_size buf) (mb_local buf) in
  Some (u32 (mb_size buf - size), buf).

Definition membuf_append_zeros (fuel : nat) (buf : membuf_t) (size : Z) : option (Z * membuf_t) :=
  buf ← membuf_reserve fuel buf size;
  m ← wr_bytes (mb_data buf) (mb_size buf) (zeros size);
  let buf := mkMembuf m (u32 (mb_size buf + size)) (mb_buffer_size buf) (mb_local buf) in
  Some (u32 (mb_size buf - size), buf).

(** [str] is null or a C string: its bytes before the NUL. *)
Definition text_len (str : option (list Z)) (len : Z) : Z :=
  match str with Some s => if len =? u32 (-1) then u32 (zlen s) else len | None => len end.

Definition text_bytes (str : option (list Z)) : option (list Z) := (fun s => s ++ [0]) <$> str.

Definition membuf_append_text (fuel : nat) (buf : membuf_t) (str : option (list Z)) (len : Z)
    : option (Z * membuf_t) :=
  membuf_append_data fuel buf (text_bytes str) (text_len str len).

Definition membuf_append_text_zero (fuel : nat) (buf : membuf_t) (str : option (list Z)) (len : Z)
    : option (Z * membuf_t) :=
  let len := text_len str len in
  buf ← membuf_reserve fuel buf (u32 (len + 1));
  '(offset, buf) ← membuf_append_data fuel buf (text_bytes str) len;
  '(_, buf) ← membuf_append_zeros fuel buf 1;
  Some (offset, buf).

Definition membuf_append_byte (fuel : nat) (buf : membuf_t) (b : Z) : option (Z * membuf_t) :=
  membuf_append_data fuel buf (Some [b]) 1.

Definition membuf_insert (fuel : nat) (buf : membuf_t) (offset : Z) (data : list Z) (size : Z)
    : option membuf_t :=
  return_if negb (offset <? mb_size buf) with None ;;
  buf ← membuf_reserve fuel buf size;
  m ← memcpy_in (mb_data buf) (offset + size) offset (u32 (mb_size buf - offset));
  m ← memcpy m offset data 0 size;
  Some (mkMembuf m (u32 (mb_size buf + size)) (mb_buffer_size buf) (mb_local buf)).

Definition membuf_remove (buf : membuf_t) (offset size : Z) : option membuf_t :=
  return_if negb (offset <? mb_size buf) with None ;;
  if u32 (offset + size) >=? mb_size buf
  then Some (mkMembuf (mb_data buf) offset (mb_buffer_size buf) (mb_local buf))
  else m ← memmove_in (mb_data buf) offset (offset + size) (u32 (u32 (mb_size buf - offset) - size));
       Some (mkMembuf m (u32 (mb_size buf - size)) (mb_buffer_size buf) (mb_local buf)).

Definition membuf_empty (buf : membuf_t) : membuf_t :=
  mkMembuf (mb_data buf) 0 (mb_buffer_size buf) (mb_local buf).
Definition membuf_get_size (buf : membuf_t) : Z := mb_size buf.
Definition membuf_is_empty (buf : membuf_t) : bool := mb_size buf =? 0.

(** The offset of the address returned. *)
Definition membuf_offset (buf : membuf_t) (offset : Z) : option Z :=
  if offset <? mb_size buf then Some offset else None.

(** The memory the caller owns now, the size, and the buffer hollowed. *)
Definition membuf_detach (buf : membuf_t) : option (list Z * Z * membuf_t) :=
  result ← (if mb_local buf && (mb_size buf >? 0)
            then memcpy (fresh (mb_size buf)) 0 (mb_data buf) 0 (mb_size buf)
            else Some (mb_data buf));
  Some (result, mb_size buf, mb_zero).

Definition membuf_uninit (buf : membuf_t) : membuf_t := mb_zero.

(** The new buffer and [other], hollowed. *)
Definition membuf_init_move_from (fuel : nat) (other : membuf_t) : option (membuf_t * membuf_t) :=
  buf ← (if mb_local other
         then let buf := membuf_init 0 in
              if mb_size other >? 0
              then '(_, buf) ← membuf_append_data fuel buf (Some (mb_data other)) (mb_size other); Some buf
              else Some buf
         else Some other);
  Some (buf, mb_zero).

(** [file]: the bytes of the file, if it opens; its length as the file system has
    it.  The result is the count returned. *)
Definition membuf_load_from_file (fuel : nat) (buf : membuf_t) (file : option (option (list Z)))
    (append_zero_char : bool) : option (Z * membuf_t) :=
  match file with
  | None => Some (0, buf)
  | Some None => Some (u32 (-1), buf)
  | Some (Some bytes) =>
      '(read_bytes, buf) ←
        (if zlen bytes >? 0
         then buf ← membuf_reserve fuel buf (u32 (zlen bytes));
              m ← wr_bytes (mb_data buf) (mb_size buf) bytes;
              return_if negb (u32 (zlen bytes) =? zlen bytes) with None ;;
              Some (u32 (zlen bytes),
                    mkMembuf m (u32 (mb_size buf + u32 (zlen bytes))) (mb_buffer_size buf) (mb_local buf))
         else Some (0, buf));
      if append_zero_char
      then '(_, buf) ← membuf_append_zeros fuel buf 1; Some (u32 (read_bytes + 1), buf)
      else Some (read_bytes, buf)
  end.

(** ** Contents *)

Context (fresh_length : forall n, 0 <= n -> zlen (fresh n) = n).

(** The buffer's contents are [c], with room behind them. *)
Definition holds_bytes (buf : membuf_t) (c : list Z) : Prop :=
  exists rest, mb_data buf = c ++ rest /\ mb_size buf = zlen c /\ mb_buffer_size buf = zlen (c ++ rest)
    /\ is_u32 (mb_buffer_size buf).

(** Where the buffer comes from does not matter to the contents; a buffer of its own
    has the memory it says it has. *)
Lemma init_holds n : is_u32 n -> holds_bytes (membuf_init n) [].
Proof.
  intros Hn. exists (mb_data (membuf_init n)). split; [done|]. split; [done|]. cbn.
  split; [|done]. destruct (Z.gtb_spec n 0); [by rewrite fresh_length by lia | cbn; lia].
Qed.

Lemma init_local_holds m : is_u32 (zlen m) -> holds_bytes (membuf_init_local (Some m) (zlen m)) [].
Proof.
  intros Hn. exists m. cbn. split; [|done]. destruct m; done.
Qed.

(** *** Growth *)

Lemma u32_shiftl1 n : 0 <= n < 2 ^ 31 -> u32 (Z.shiftl n 1) = 2 * n.
Proof. intros. rewrite Z.shiftl_mul_pow2 by lia. unfold u32. rewrite Z.mod_small; lia. Qed.

(** From a positive size, up to 2^31, doubling ends and at most doubles the need. *)
Lemma grow_spec fuel n need :
  0 < n -> n <= 2 ^ 31 \/ need <= n -> need <= 2 ^ 31 -> need <= n * 2 ^ Z.of_nat fuel ->
  exists n', grow (S fuel) n need = Some n' /\ need <= n' /\ n <= n' /\ (n' = n \/ n' < 2 * need).
Proof.
  revert n. induction fuel as [|fuel IH]; intros n Hn Hb Hneed Hf.
  - cbn [grow]. zfalse (n <? need). exists n. split; [done | lia].
  - change (grow (S (S fuel)) n need)
      with (if n <? need then grow (S fuel) (u32 (Z.shiftl n 1)) need else Some n).
    destruct (Z.ltb_spec n need); [|exists n; split; [done | lia]].
    rewrite u32_shiftl1 by lia. rewrite Nat2Z.inj_succ, Z.pow_succ_r in Hf by lia.
    destruct (IH (2 * n)) as (n' & -> & ? & ? & ?); [lia | lia | lia | |].
    { by rewrite (Z.mul_comm 2 n), <- Z.mul_assoc. }
    exists n'. split; [done|]. lia.
Qed.

(** Beyond 2^31 a power of two is shifted out of the word and the loop runs forever. *)
Lemma grow_diverges need fuel : 2 ^ 31 < need -> forall n,
  n = 0 \/ (exists k, 0 <= k <= 31 /\ n = 2 ^ k) -> grow fuel n need = None.
Proof.
  intros Hneed. induction fuel as [|fuel IH]; intros n Hn; [done|]. cbn [grow].
  assert (n <= 2 ^ 31) as Hle.
  { destruct Hn as [-> |(k & Hk & ->)]; [lia|]. apply Z.pow_le_mono_r; lia. }
  ztrue (n <? need). apply IH. destruct Hn as [-> |(k & Hk & ->)]; [by left|].
  rewrite Z.shiftl_mul_pow2, <- Z.pow_add_r by lia. destruct (decide (k = 31)) as [->|].
  - by left.
  - right. exists (k + 1). split; [lia|]. unfold u32. apply Z.mod_small. split; [lia|].
    apply Z.pow_lt_mono_r; lia.
Qed.

Lemma realloc_app c rest n :
  zlen (c ++ rest) <= n -> 0 < n -> exists rest', realloc (c ++ rest) n = Some (c ++ rest') /\ zlen (c ++ rest') = n.
Proof.
  intros Hn H0. unfold realloc. zfalse (n =? 0). rewrite take_ge by lia.
  exists (rest ++ drop (length (c ++ rest)) (fresh n)). rewrite app_assoc. split; [done|].
  pose proof (fresh_length n ltac:(lia)). len.
Qed.

Lemma reserve_holds fuel buf c extra :
  holds_bytes buf c -> 0 <= extra -> zlen c + extra <= 2 ^ 31 -> (33 <= fuel)%nat ->
  exists buf', membuf_reserve fuel buf extra = Some buf' /\ holds_bytes buf' c
    /\ zlen c + extra <= mb_buffer_size buf'
    /\ (mb_buffer_size buf' <= 2 * mb_buffer_size buf \/ mb_buffer_size buf' < 2 * (zlen c + extra)).
Proof.
  intros (rest & Hd & Hs & Hb & Hu) He Hmax Hf. unfold membuf_reserve. rewrite Hs.
  assert (zlen c <= mb_buffer_size buf) by (rewrite Hb; len).
  assert (E : u32 (mb_buffer_size buf - zlen c) = mb_buffer_size buf - zlen c)
    by (unfold u32; apply Z.mod_small; lia).
  rewrite E. destruct (Z.gtb_spec extra (mb_buffer_size buf - zlen c)).
  2: { exists buf. split; [done|]. split; [by exists rest|]. lia. }
  rewrite (u32_id (zlen c + extra)) by lia.
  assert (Hn : exists n, (if mb_buffer_size buf =? 0 then extra else u32 (Z.shiftl (mb_buffer_size buf) 1)) = n
    /\ 0 < n /\ mb_buffer_size buf <= n /\ (n <= 2 ^ 31 \/ zlen c + extra <= n)
    /\ (n = extra /\ mb_buffer_size buf = 0 \/ n = 2 * mb_buffer_size buf)).
  { destruct (Z.eqb_spec (mb_buffer_size buf) 0); [exists extra; lia|].
    rewrite u32_shiftl1 by lia. exists (2 * mb_buffer_size buf). lia. }
  destruct Hn as (n & -> & Hn0 & Hn1 & Hn2 & Hn3).
  destruct fuel as [|fuel]; [lia|].
  destruct (grow_spec fuel n (zlen c + extra) Hn0 Hn2 Hmax) as (n' & -> & Hneed & Hn' & Hup).
  { assert (2 ^ 31 <= 2 ^ Z.of_nat fuel) by (apply Z.pow_le_mono_r; lia).
    apply Z.le_trans with (1 * 2 ^ Z.of_nat fuel); [lia|]. apply Z.mul_le_mono_nonneg_r; lia. }
  rewrite bind_Some.
  assert (Hdata : exists rest', (if mb_local buf
       then data ← realloc [] n'; memcpy data 0 (mb_data buf) 0 (zlen c)
       else realloc (mb_data buf) n') = Some (c ++ rest') /\ zlen (c ++ rest') = n').
  { rewrite Hd. destruct (mb_local buf).
    - destruct (realloc_app [] [] n') as (new & E1 & Hnew); [cbn; lia..|]. cbn [app] in *.
      rewrite E1, bind_Some, memcpy_Some by (rewrite ?length_app; lia).
      rewrite Nat2Z.id, drop_0, take_app_length, inserts_eq by len. cbn [Z.to_nat take app].
      exists (drop (0 + length c) new). split; [done|]. len.
    - apply realloc_app; [rewrite <- Hb; lia | lia]. }
  destruct Hdata as (rest' & -> & Hr). rewrite bind_Some.
  eexists. split; [done|]. cbn [mb_buffer_size]. split; [|lia].
  exists rest'. cbn. split; [done|]. split; [done|]. split; [done|]. lia.
Qed.

(** *** Operations *)

Lemma holds_intro m n b l c rest :
  m = c ++ rest -> n = zlen c -> b = zlen (c ++ rest) -> is_u32 b -> holds_bytes (mkMembuf m n b l) c.
Proof. intros. by exists rest. Qed.

Lemma holds_bound buf c : holds_bytes buf c -> zlen c < 2 ^ 32.
Proof. intros (rest & _ & _ & Hb & Hu). rewrite Hb in Hu. len. Qed.

(** Bytes written behind the contents, where there is room. *)
Lemma write_end buf c d :
  holds_bytes buf c -> zlen c + zlen d <= mb_buffer_size buf ->
  exists m, wr_bytes (mb_data buf) (mb_size buf) d = Some m
    /\ holds_bytes (mkMembuf m (u32 (mb_size buf + zlen d)) (mb_buffer_size buf) (mb_local buf)) (c ++ d).
Proof.
  intros (rest & -> & Hs & Hb & Hu) Hr. rewrite Hb in Hr. rewrite wr_bytes_app by len.
  eexists. split; [done|]. apply (holds_intro _ _ _ _ _ (drop (length d) rest)); [by rewrite <- app_assoc | | len | done].
  rewrite Hs, u32_id by len. len.
Qed.

Lemma append_data_holds fuel buf c d n :
  holds_bytes buf c -> 0 < n <= zlen d -> zlen c + n <= 2 ^ 31 -> (33 <= fuel)%nat ->
  exists buf', membuf_append_data fuel buf (Some d) n = Some (zlen c, buf')
    /\ holds_bytes buf' (c ++ take (Z.to_nat n) d).
Proof.
  intros H Hn Hmax Hf. unfold membuf_append_data. rewrite bind_Some. ztrue (n >? 0). cbn [negb].
  destruct (reserve_holds fuel buf c n H) as (b1 & -> & H1 & Hr & _); [lia..|]. rewrite bind_Some.
  assert (Hl : zlen (take (Z.to_nat n) d) = n) by len.
  destruct (write_end b1 c (take (Z.to_nat n) d) H1) as (m & Em & Hm); [lia|].
  unfold memcpy, rd_bytes. ztrue ((0 <=? 0) && (0 <=? n) && (0 + n <=? zlen d)).
  rewrite bind_Some, drop_0, Em, bind_Some. cbn [mb_size]. rewrite Hl in Hm.
  eexists. split; [|exact Hm].
  destruct H1 as (_ & _ & -> & _). rewrite (u32_id (zlen c + n)), u32_id by lia. do 2 f_equal. lia.
Qed.

Lemma append_zeros_holds fuel buf c n :
  holds_bytes buf c -> 0 <= n -> zlen c + n <= 2 ^ 31 -> (33 <= fuel)%nat ->
  exists buf', membuf_append_zeros fuel buf n = Some (zlen c, buf') /\ holds_bytes buf' (c ++ zeros n).
Proof.
  intros H Hn Hmax Hf. unfold membuf_append_zeros.
  destruct (reserve_holds fuel buf c n H) as (b1 & -> & H1 & Hr & _); [lia..|]. rewrite bind_Some.
  assert (Hl : zlen (zeros n) = n) by len.
  destruct (write_end b1 c (zeros n) H1) as (m & Em & Hm); [lia|]. rewrite Em, bind_Some. cbn [mb_size].
  rewrite Hl in Hm. eexists. split; [|exact Hm].
  destruct H1 as (_ & _ & -> & _). rewrite (u32_id (zlen c + n)), u32_id by lia. do 2 f_equal. lia.
Qed.

(** An insertion is defined exactly when the bytes behind the offset are no more
    than those inserted; otherwise the copy that opens the gap overlaps itself, which
    [memcpy] does not allow. *)
Lemma membuf_insert_outcomes fuel buf c off d :
  holds_bytes buf c -> 0 <= off < zlen c -> zlen c + zlen d <= 2 ^ 31 -> (33 <= fuel)%nat -> d <> [] ->
  if zlen c - off <=? zlen d
  then exists buf', membuf_insert fuel buf off d (zlen d) = Some buf'
    /\ holds_bytes buf' (take (Z.to_nat off) c ++ d ++ drop (Z.to_nat off) c)
  else membuf_insert fuel buf off d (zlen d) = None.
Proof.
  intros H Ho Hmax Hf Hd. unfold membuf_insert. pose proof H as (_ & _ & Hs & _). rewrite Hs.
  ztrue (off <? zlen c). cbn [negb].
  destruct (reserve_holds fuel buf c (zlen d) H) as (b1 & -> & H1 & Hr & _); [lia..|]. rewrite bind_Some.
  destruct H1 as (rest & Hd1 & Hs1 & Hb1 & Hu1). rewrite Hs1, Hd1, (u32_id (zlen c - off)) by lia.
  unfold memcpy_in. replace (Z.abs (off + zlen d - off)) with (zlen d) by lia.
  destruct (Z.leb_spec (zlen c - off) (zlen d)).
  2: { zfalse (zlen c - off =? 0). done. }
  rewrite orb_true_r. unfold memmove_in.
  set (c1 := take (Z.to_nat off) c). set (c2 := drop (Z.to_nat off) c).
  assert (Hc : c = c1 ++ c2) by (subst c1 c2; by rewrite take_drop).
  assert (L1 : zlen c1 = off) by (subst c1; len). assert (L2 : zlen c2 = zlen c - off) by (subst c2; len).
  clearbody c1 c2. rewrite Hb1, length_app in Hr. clear Hs.
  set (X := take (length d) (c2 ++ rest)). set (Y := drop (length d) (c2 ++ rest)).
  assert (HXY : c2 ++ rest = X ++ Y) by (subst X Y; by rewrite take_drop).
  assert (LX : length X = length d) by (subst X; len). assert (LY : zlen c2 <= zlen Y) by (subst Y; len).
  clearbody X Y. replace (c ++ rest) with (c1 ++ c2 ++ rest) by (by rewrite Hc, app_assoc).
  rewrite rd_bytes_app, bind_Some by lia. rewrite HXY, (app_assoc c1).
  rewrite (wr_bytes_app (c1 ++ X) Y) by (rewrite ?length_app; lia). rewrite bind_Some, <- (app_assoc c1 X).
  rewrite (memcpy_app c1) by (rewrite ?length_app; lia). rewrite bind_Some.
  rewrite Nat2Z.id, take_ge by lia. rewrite drop_app_length' by lia.
  eexists. split; [done|].
  apply (holds_intro _ _ _ _ _ (drop (length c2) Y)); [by rewrite <- !app_assoc | | |done].
  - rewrite u32_id by lia. rewrite !length_app. lia.
  - rewrite Hb1, Hc. apply (f_equal length) in HXY. rewrite !length_app in HXY. rewrite !length_app, length_drop. lia.
Qed.

Lemma remove_holds buf c off n :
  holds_bytes buf c -> 0 <= off < zlen c -> 0 <= n -> off + n < 2 ^ 32 ->
  exists buf', membuf_remove buf off n = Some buf'
    /\ holds_bytes buf' (take (Z.to_nat off) c ++ drop (Z.to_nat (off + n)) c).
Proof.
  intros (rest & Hd & Hs & Hb & Hu) Ho Hn Hmax. unfold membuf_remove. rewrite Hs, Hd.
  ztrue (off <? zlen c). cbn [negb]. rewrite (u32_id (off + n)) by lia.
  assert (zlen c < 2 ^ 32) by (rewrite Hb in Hu; len).
  destruct (Z.geb_spec (off + n) (zlen c)).
  - rewrite (drop_ge c) by lia. rewrite app_nil_r. eexists. split; [done|].
    eapply (holds_intro _ _ _ _ _ (drop (Z.to_nat off) c ++ rest)); [by rewrite app_assoc, take_drop | len | | done].
    rewrite Hb. by rewrite (app_assoc (take _ _)), take_drop.
  - rewrite (u32_id (zlen c - off)), (u32_id (zlen c - off - n)) by lia.
    set (c1 := take (Z.to_nat off) c). set (mid := take (Z.to_nat n) (drop (Z.to_nat off) c)).
    set (c2 := drop (Z.to_nat (off + n)) c).
    assert (Hc : c = c1 ++ mid ++ c2).
    { subst c1 mid c2. replace (Z.to_nat (off + n)) with (Z.to_nat off + Z.to_nat n)%nat by lia.
      by rewrite <- drop_drop, !take_drop. }
    assert (L1 : zlen c1 = off) by (subst c1; len). assert (Lm : zlen mid = n) by (subst mid; len).
    clearbody c1 mid c2. assert (L2 : zlen c2 = zlen c - off - n) by (rewrite Hc; len).
    unfold memmove_in. replace (c ++ rest) with ((c1 ++ mid) ++ c2 ++ rest) by (by rewrite Hc, <- !app_assoc).
    rewrite rd_bytes_app, bind_Some by (rewrite ?length_app; lia).
    rewrite <- app_assoc, wr_bytes_app, bind_Some by (rewrite ?length_app; lia).
    eexists. split; [done|].
    apply (holds_intro _ _ _ _ _ (drop (length c2) (mid ++ c2 ++ rest))); [by rewrite <- !app_assoc | | |done].
    + rewrite u32_id by lia. rewrite !length_app. lia.
    + rewrite Hb, Hc, !length_app, length_drop, !length_app. lia.
Qed.

(** *** Texts and the other operations *)

Lemma text_len_default s : u32 (zlen s) = zlen s -> text_len (Some s) (u32 (-1)) = zlen s.
Proof. intros H. unfold text_len. by rewrite Z.eqb_refl. Qed.

Lemma append_text_holds fuel buf c s :
  holds_bytes buf c -> s <> [] -> zlen c + zlen s <= 2 ^ 31 -> (33 <= fuel)%nat ->
  exists buf', membuf_append_text fuel buf (Some s) (u32 (-1)) = Some (zlen c, buf')
    /\ holds_bytes buf' (c ++ s).
Proof.
  intros H Hs Hmax Hf. unfold membuf_append_text. rewrite text_len_default by (apply u32_id; lia).
  assert (0 < zlen s) by (destruct s; [done | cbn; lia]).
  destruct (append_data_holds fuel buf c (s ++ [0]) (zlen s) H) as (b' & E & Hb'); [len | lia | done |].
  exists b'. split; [exact E|]. by rewrite Nat2Z.id, take_app_length in Hb'.
Qed.

Lemma append_text_zero_holds fuel buf c s :
  holds_bytes buf c -> s <> [] -> zlen c + zlen s + 1 <= 2 ^ 31 -> (33 <= fuel)%nat ->
  exists buf', membuf_append_text_zero fuel buf (Some s) (u32 (-1)) = Some (zlen c, buf')
    /\ holds_bytes buf' (c ++ s ++ [0]).
Proof.
  intros H Hs Hmax Hf. unfold membuf_append_text_zero. rewrite text_len_default by (apply u32_id; lia).
  assert (0 < zlen s) by (destruct s; [done | cbn; lia]). rewrite u32_id by lia.
  destruct (reserve_holds fuel buf c (zlen s + 1) H) as (b1 & -> & H1 & _); [lia..|]. rewrite bind_Some.
  destruct (append_data_holds fuel b1 c (s ++ [0]) (zlen s) H1) as (b2 & E & H2); [len | lia | done |].
  unfold text_bytes. cbn [fmap option_fmap option_map]. rewrite E, bind_Some.
  rewrite Nat2Z.id, take_app_length in H2.
  destruct (append_zeros_holds fuel b2 _ 1 H2) as (b3 & -> & H3); [lia | len | done |].
  rewrite bind_Some. exists b3. split; [done|]. rewrite app_assoc. exact H3.
Qed.

(** ** Sessions *)

Inductive mb_op :=
  | AppendData (d : list Z)
  | AppendZeros (n : Z)
  | AppendText (s : list Z)
  | AppendTextZero (s : list Z)
  | InsertData (off : Z) (d : list Z)
  | Remove (off n : Z)
  | Clear.

Definition mb_step (fuel : nat) (buf : membuf_t) (op : mb_op) : option membuf_t :=
  match op with
  | AppendData d => snd <$> membuf_append_data fuel buf (Some d) (zlen d)
  | AppendZeros n => snd <$> membuf_append_zeros fuel buf n
  | AppendText s => snd <$> membuf_append_text fuel buf (Some s) (u32 (-1))
  | AppendTextZero s => snd <$> membuf_append_text_zero fuel buf (Some s) (u32 (-1))
  | InsertData off d => membuf_insert fuel buf off d (zlen d)
  | Remove off n => membuf_remove buf off n
  | Clear => Some (membuf_empty buf)
  end.

(** What an operation does to the contents. *)
Definition mb_effect (c : list Z) (op : mb_op) : list Z :=
  match op with
  | AppendData d => c ++ d
  | AppendZeros n => c ++ zeros n
  | AppendText s => c ++ s
  | AppendTextZero s => c ++ s ++ [0]
  | InsertData off d => take (Z.to_nat off) c ++ d ++ drop (Z.to_nat off) c
  | Remove off n => take (Z.to_nat off) c ++ drop (Z.to_nat (off + n)) c
  | Clear => []
  end.

(** The arguments of an operation and the room it needs are within the limits. *)
Definition mb_in_range (c : list Z) (op : mb_op) : Prop :=
  zlen (mb_effect c op) <= 2 ^ 31 /\
  match op with
  | AppendZeros n => 0 <= n
  | InsertData off d => 0 <= off /\ zlen c + zlen d <= 2 ^ 31
  | Remove off n => 0 <= off /\ 0 <= n /\ off + n < 2 ^ 32
  | _ => True
  end.

(** The assertions hold, and the copy that opens a gap does not overlap itself. *)
Definition mb_allowed (c : list Z) (op : mb_op) : bool :=
  match op with
  | AppendData d | AppendText d | AppendTextZero d => negb (bool_decide (d = []))
  | InsertData off d => (off <? zlen c) && (zlen c - off <=? zlen d)
  | Remove off n => off <? zlen c
  | AppendZeros _ | Clear => true
  end.

(** The contents after a run, or [None] where an operation is not allowed. *)
Fixpoint mb_model (c : list Z) (ops : list mb_op) : option (list Z) :=
  match ops with
  | [] => Some c
  | op :: ops => if mb_allowed c op then mb_model (mb_effect c op) ops else None
  end.

Fixpoint mb_run (fuel : nat) (buf : membuf_t) (ops : list mb_op) : option membuf_t :=
  match ops with [] => Some buf | op :: ops => buf ← mb_step fuel buf op; mb_run fuel buf ops end.

(** Every operation up to the first that is not allowed is within the limits. *)
Fixpoint mb_ops_in_range (c : list Z) (ops : list mb_op) : Prop :=
  match ops with
  | [] => True
  | op :: ops => mb_in_range c op /\ (mb_allowed c op = true -> mb_ops_in_range (mb_effect c op) ops)
  end.

Lemma append_nothing fuel buf d : membuf_append_data fuel buf (Some d) 0 = None.
Proof. done. Qed.

Lemma insert_nothing fuel buf c off : holds_bytes buf c -> 0 <= off < zlen c -> zlen c <= 2 ^ 31 -> (33 <= fuel)%nat ->
  membuf_insert fuel buf off [] 0 = None.
Proof.
  intros H Ho Hmax Hf. unfold membuf_insert. pose proof H as (_ & _ & Hs & _). rewrite Hs. ztrue (off <? zlen c). cbn [negb].
  destruct (reserve_holds fuel buf c 0 H) as (b1 & -> & (rest & _ & Hs1 & _) & _); [lia..|]. rewrite bind_Some, Hs1.
  rewrite (u32_id (zlen c - off)) by lia. unfold memcpy_in. replace (Z.abs (off + 0 - off)) with 0 by lia.
  zfalse (zlen c - off =? 0). by zfalse (zlen c - off <=? 0).
Qed.

Lemma mb_step_outcome fuel buf c op :
  holds_bytes buf c -> mb_in_range c op -> (33 <= fuel)%nat ->
  if mb_allowed c op
  then exists buf', mb_step fuel buf op = Some buf' /\ holds_bytes buf' (mb_effect c op)
  else mb_step fuel buf op = None.
Proof.
  intros H [Hmax Hok] Hf. destruct op as [d|n|s|s|off d|off n|]; cbn [mb_step mb_effect mb_allowed] in *.
  - case_bool_decide as Hd; cbn [negb]; [by subst|].
    assert (0 < zlen d) by (destruct d; [done | cbn; lia]). rewrite length_app in Hmax.
    destruct (append_data_holds fuel buf c d (zlen d) H) as (b & -> & Hb); [lia..|].
    rewrite Nat2Z.id, take_ge in Hb by done. by exists b.
  - rewrite length_app, Nat2Z.inj_add, zeros_len in Hmax by done.
    destruct (append_zeros_holds fuel buf c n H) as (b & -> & Hb); [lia..|]. by exists b.
  - case_bool_decide as Hs; cbn [negb]; [by subst|].
    rewrite length_app in Hmax. destruct (append_text_holds fuel buf c s H) as (b & -> & Hb); [done | lia | done |].
    by exists b.
  - case_bool_decide as Hs; cbn [negb].
    { subst. unfold membuf_append_text_zero. change (text_len (Some []) (u32 (-1))) with 0.
      by destruct (membuf_reserve fuel buf (u32 (0 + 1))). }
    rewrite !length_app in Hmax. cbn in Hmax.
    destruct (append_text_zero_holds fuel buf c s H) as (b & -> & Hb); [done | lia | done |]. by exists b.
  - destruct Hok as [Ho Hroom]. destruct (Z.ltb_spec off (zlen c)); cbn [andb].
    + destruct d as [|x d]; [|by apply membuf_insert_outcomes].
      change (zlen (@nil Z)) with 0 in Hroom |- *. zfalse (zlen c - off <=? 0). apply (insert_nothing fuel buf c off); try done; lia.
    + unfold membuf_insert. destruct H as (_ & _ & -> & _). by zfalse (off <? zlen c).
  - destruct Hok as (Ho & Hn & Hw). destruct (Z.ltb_spec off (zlen c)); [by apply remove_holds|].
    unfold membuf_remove. destruct H as (_ & _ & -> & _). by zfalse (off <? zlen c).
  - exists (membuf_empty buf). split; [done|]. destruct H as (rest & Hd & _ & Hb & Hu).
    by exists (c ++ rest).
Qed.

Lemma mb_run_outcome fuel ops : forall buf c,
  holds_bytes buf c -> mb_ops_in_range c ops -> (33 <= fuel)%nat ->
  match mb_model c ops with
  | Some c' => exists buf', mb_run fuel buf ops = Some buf' /\ holds_bytes buf' c'
  | None => mb_run fuel buf ops = None
  end.
Proof.
  induction ops as [|op ops IH]; intros buf c H Hok Hf; [by exists buf|]. destruct Hok as [Hop Hok].
  pose proof (mb_step_outcome fuel buf c op H Hop Hf) as Hstep. cbn [mb_run mb_model].
  destruct (mb_allowed c op); [|by rewrite Hstep]. destruct Hstep as (b & E & Hb). rewrite E, bind_Some. by apply IH; [|apply Hok|].
Qed.

(** A buffer just made: on the heap, or over the caller's array. *)
Definition mb_start (buf : membuf_t) : Prop :=
  (exists n, is_u32 n /\ buf = membuf_init n)
  \/ (exists m, is_u32 (zlen m) /\ buf = membuf_init_local (Some m) (zlen m)).

(** C30: a run of operations on a new buffer, heap or local, is what the same operations
    make of a byte string. While the contents (and those an insertion asks for) stay
    within 2^31 bytes and offset and length of a removal are below 2^32, a run of
    appends, insertions, removals and clears is defined - every growth loop ends and
    every access is inside the buffer - exactly when no append but one of zeros is
    empty, every offset is inside the contents, and every insertion is at least as long
    as the bytes behind its offset; what is detached at the end is then the byte string.
    Otherwise an assertion fails (membuf.c:64, 95, 103) or the overlapping memcpy of
    membuf.c:97 is undefined. *)
Theorem membuf_session fuel buf ops :
  mb_start buf -> mb_ops_in_range [] ops -> (33 <= fuel)%nat ->
  match mb_model [] ops with
  | Some c => exists buf' rest, mb_run fuel buf ops = Some buf' /\ membuf_detach buf' = Some (c ++ rest, zlen c, mb_zero)
  | None => mb_run fuel buf ops = None
  end.
Proof.
  intros Hst Hok Hf.
  assert (H0 : holds_bytes buf []).
  { destruct Hst as [(n & Hn & ->)|(m & Hm & ->)]; [by apply init_holds | by apply init_local_holds]. }
  pose proof (mb_run_outcome fuel ops buf [] H0 Hok Hf) as Hrun. destruct (mb_model [] ops) as [c|]; [|done].
  destruct Hrun as (b & E & rest & Hd & Hs & Hb & Hu).
  assert (Hdet : membuf_detach b = (result ← (if mb_local b && (zlen c >? 0)
            then memcpy (fresh (zlen c)) 0 (c ++ rest) 0 (zlen c) else Some (c ++ rest));
            Some (result, zlen c, mb_zero))) by (unfold membuf_detach; by rewrite Hs, Hd).
  destruct (mb_local b && (zlen c >? 0)).
  - exists b, []. rewrite Hdet. split; [done|]. pose proof (fresh_length (zlen c) ltac:(lia)) as Hl.
    rewrite memcpy_Some by (rewrite ?length_app; lia). rewrite bind_Some, Nat2Z.id, drop_0, take_app_length.
    rewrite inserts_eq by lia. cbn [Z.to_nat take app]. by rewrite drop_ge by lia.
  - exists b, rest. by rewrite Hdet.
Qed.

(** Growth for a need of at most 2^31 bytes ends, makes the room, keeps the
    contents and less than doubles the buffer or the need; for more than 2^31 bytes a
    buffer whose size is a power of two doubles to zero and the loop never ends. *)
Theorem membuf_reserve_outcomes buf c extra :
  holds_bytes buf c -> 0 <= extra -> zlen c + extra < 2 ^ 32 ->
  if zlen c + extra <=? 2 ^ 31
  then forall fuel, (33 <= fuel)%nat ->
       exists buf', membuf_reserve fuel buf extra = Some buf' /\ holds_bytes buf' c
         /\ zlen c + extra <= mb_buffer_size buf'
         /\ mb_buffer_size buf' <= Z.max (2 * mb_buffer_size buf) (2 * (zlen c + extra))
  else forall k fuel, 0 <= k <= 31 -> mb_buffer_size buf = 2 ^ k -> membuf_reserve fuel buf extra = None.
Proof.
  intros H He Hu. destruct (Z.leb_spec (zlen c + extra) (2 ^ 31)).
  - intros fuel Hf. destruct (reserve_holds fuel buf c extra H) as (b & E & Hb & Hr & Hup); [done..|].
    exists b. split; [done|]. split; [done|]. lia.
  - intros k fuel Hk Hb. destruct H as (rest & Hd & Hs & Hbs & Hub). unfold membuf_reserve. rewrite Hs.
    assert (zlen c <= mb_buffer_size buf) by (rewrite Hbs, length_app; lia).
    assert (mb_buffer_size buf <= 2 ^ 31) by (rewrite Hb; apply Z.pow_le_mono_r; lia).
    rewrite (u32_id (mb_buffer_size buf - zlen c)), (u32_id (zlen c + extra)) by lia.
    ztrue (extra >? mb_buffer_size buf - zlen c).
    assert (0 < 2 ^ k) by lia. zfalse (mb_buffer_size buf =? 0).
    rewrite grow_diverges; [done | done |]. rewrite Hb. rewrite Z.shiftl_mul_pow2, <- Z.pow_add_r by lia.
    destruct (decide (k = 31)) as [->|]; [by left|]. right. exists (k + 1). split; [lia|].
    unfold u32. apply Z.mod_small. split; [lia | apply Z.pow_lt_mono_r; lia].
Qed.

End membuf.

(** ** Concrete buffers *)

Lemma zeros_fresh n : 0 <= n -> zlen (zeros n) = n.
Proof. apply zeros_len. Qed.

Lemma membuf_session_witness :
  exists buf' rest, mb_run zeros 33 (membuf_init_local (Some [7; 7]) 2)
      [AppendData [1; 2; 3]; AppendTextZero [104; 105]; Remove 1 1; InsertData 3 [8; 9]] = Some buf'
    /\ membuf_detach zeros buf' = Some ([1; 3; 104; 8; 9; 105; 0] ++ rest, 7, mb_zero).
Proof.
  apply (membuf_session zeros zeros_fresh 33 (membuf_init_local (Some [7; 7]) 2)
    [AppendData [1; 2; 3]; AppendTextZero [104; 105]; Remove 1 1; InsertData 3 [8; 9]]).
  - right. exists [7; 7]. split; [cbn; lia | reflexivity].
  - cbn [mb_ops_in_range]. repeat match goal with |- _ /\ _ => split | |- _ = true -> _ => intros _ end; cbn; try done; lia.
  - lia.
Defined.

Lemma zeros_holds n : is_u32 n -> holds_bytes (membuf_init zeros n) [].
Proof. apply init_holds, zeros_fresh. Qed.

Lemma membuf_reserve_outcomes_witness : membuf_reserve zeros 1000 (membuf_init zeros 4) (2 ^ 31 + 1) = None.
Proof.
  exact (membuf_reserve_outcomes zeros zeros_fresh (membuf_init zeros 4) [] (2 ^ 31 + 1)
    (zeros_holds 4 ltac:(lia)) ltac:(lia) ltac:(cbn; lia) 2 1000%nat ltac:(lia) eq_refl).
Defined.

(** [membuf_append_text_zero] of an empty string fails the assertion of
    [membuf_append_data] instead of storing its NUL. *)
Example append_empty_text :
  membuf_append_text_zero zeros 33 (membuf_init zeros 4) (Some []) (u32 (-1)) = None.
Proof. vm_compute. reflexivity. Qed.
