(* ===== verification/Mqtt.v ===== *)
(** * fun_protocol/mqtt/e_mqtt.c: packing and unpacking of MQTT packets

    A buffer is the list of its bytes from the pointer passed; [bufsz] is the size
    the caller states.  A packer returns the value of the call (the bytes written, 0
    when the buffer is too small, a negative error) and the buffer.  C strings are
    their bytes before the NUL.  Pointers into a packet are offsets from the buffer
    passed.  The printf tracing is omitted. *)

From stdpp Require Import prelude.
From S2P Require Import Prelude CMem.

(** ** Constants *)

Definition MQTT_CONTROL_CONNECT : Z := 1.
Definition MQTT_CONTROL_CONNACK : Z := 2.
Definition MQTT_CONTROL_PUBLISH : Z := 3.
Definition MQTT_CONTROL_PUBACK : Z := 4.
Definition MQTT_CONTROL_PUBREC : Z := 5.
Definition MQTT_CONTROL_PUBREL : Z := 6.
Definition MQTT_CONTROL_PUBCOMP : Z := 7.
Definition MQTT_CONTROL_SUBSCRIBE : Z := 8.
Definition MQTT_CONTROL_SUBACK : Z := 9.
Definition MQTT_CONTROL_UNSUBSCRIBE : Z := 10.
Definition MQTT_CONTROL_UNSUBACK : Z := 11.
Definition MQTT_CONTROL_PINGREQ : Z := 12.
Definition MQTT_CONTROL_PINGRESP : Z := 13.
Definition MQTT_CONTROL_DISCONNECT : Z := 14.

Inductive MQTTErrors :=
  | MQTT_ERROR_NULLPTR
  | MQTT_ERROR_CONTROL_FORBIDDEN_TYPE
  | MQTT_ERROR_CONTROL_INVALID_FLAGS
  | MQTT_ERROR_CONTROL_WRONG_TYPE
  | MQTT_ERROR_CONNECT_NULL_CLIENT_ID
  | MQTT_ERROR_CONNECT_NULL_WILL_MESSAGE
  | MQTT_ERROR_CONNECT_FORBIDDEN_WILL_QOS
  | MQTT_ERROR_CONNACK_FORBIDDEN_FLAGS
  | MQTT_ERROR_CONNACK_FORBIDDEN_CODE
  | MQTT_ERROR_PUBLISH_FORBIDDEN_QOS
  | MQTT_ERROR_SUBSCRIBE_TOO_MANY_TOPICS
  | MQTT_ERROR_MALFORMED_RESPONSE
  | MQTT_ERROR_UNSUBSCRIBE_TOO_MANY_TOPICS
  | MQTT_ERROR_RESPONSE_INVALID_CONTROL_TYPE
  | MQTT_ERROR_CONNECT_NOT_CALLED
  | MQTT_ERROR_SEND_BUFFER_IS_FULL
  | MQTT_ERROR_SOCKET_ERROR
  | MQTT_ERROR_MALFORMED_REQUEST
  | MQTT_ERROR_RECV_BUFFER_TOO_SMALL
  | MQTT_ERROR_ACK_OF_UNKNOWN
  | MQTT_ERROR_NOT_IMPLEMENTED
  | MQTT_ERROR_CONNECTION_REFUSED
  | MQTT_ERROR_SUBSCRIBE_FAILED
  | MQTT_ERROR_CONNECTION_CLOSED
  | MQTT_ERROR_INITIAL_RECONNECT
  | MQTT_ERROR_INVALID_REMAINING_LENGTH.

#[export] Instance MQTTErrors_eq_dec : EqDecision MQTTErrors.
Proof. solve_decision. Defined.

(** In the order of the enumeration, which starts at [INT_MIN]. *)
Definition mqtt_errors : list MQTTErrors :=
  [MQTT_ERROR_NULLPTR; MQTT_ERROR_CONTROL_FORBIDDEN_TYPE; MQTT_ERROR_CONTROL_INVALID_FLAGS;
   MQTT_ERROR_CONTROL_WRONG_TYPE; MQTT_ERROR_CONNECT_NULL_CLIENT_ID;
   MQTT_ERROR_CONNECT_NULL_WILL_MESSAGE; MQTT_ERROR_CONNECT_FORBIDDEN_WILL_QOS;
   MQTT_ERROR_CONNACK_FORBIDDEN_FLAGS; MQTT_ERROR_CONNACK_FORBIDDEN_CODE;
   MQTT_ERROR_PUBLISH_FORBIDDEN_QOS; MQTT_ERROR_SUBSCRIBE_TOO_MANY_TOPICS;
   MQTT_ERROR_MALFORMED_RESPONSE; MQTT_ERROR_UNSUBSCRIBE_TOO_MANY_TOPICS;
   MQTT_ERROR_RESPONSE_INVALID_CONTROL_TYPE; MQTT_ERROR_CONNECT_NOT_CALLED;
   MQTT_ERROR_SEND_BUFFER_IS_FULL; MQTT_ERROR_SOCKET_ERROR; MQTT_ERROR_MALFORMED_REQUEST;
   MQTT_ERROR_RECV_BUFFER_TOO_SMALL; MQTT_ERROR_ACK_OF_UNKNOWN; MQTT_ERROR_NOT_IMPLEMENTED;
   MQTT_ERROR_CONNECTION_REFUSED; MQTT_ERROR_SUBSCRIBE_FAILED; MQTT_ERROR_CONNECTION_CLOSED;
   MQTT_ERROR_INITIAL_RECONNECT; MQTT_ERROR_INVALID_REMAINING_LENGTH].

Definition MQTT_ERROR_UNKNOWN : Z := -2147483648.
Definition MQTT_OK : Z := 1.

Definition mqtt_error (e : MQTTErrors) : Z :=
  match list_find (eq e) mqtt_errors with
  | Some (i, _) => MQTT_ERROR_UNKNOWN + 1 + Z.of_nat i
  | None => MQTT_ERROR_UNKNOWN
  end.

Definition MQTT_PROTOCOL_LEVEL : Z := 4.

Definition MQTT_CONNECT_RESERVED : Z := 1.
Definition MQTT_CONNECT_WILL_FLAG : Z := 4.
Definition MQTT_CONNECT_WILL_RETAIN : Z := 32.
Definition MQTT_CONNECT_PASSWORD : Z := 64.
Definition MQTT_CONNECT_USER_NAME : Z := 128.

Definition MQTT_PUBLISH_DUP : Z := 8.
Definition MQTT_PUBLISH_RETAIN : Z := 1.

Definition MAX_NUM_TOPICS : Z := 8.
Definition PAYLOAD_MAX_CNT : Z := 10.

(** [htons] of a value stored in two bytes, [ntohs] of two bytes loaded. *)
Definition net16 (v : Z) : list Z := [u16 v / 256; u16 v mod 256].
Definition rdnet16 (m : list Z) (i : Z) : option Z := rd16 true m i.

(** ** The fixed header *)

(** [control_flags] is a bit field of four bits. *)
Record mqtt_fixed_header := mkHeader { control_type : Z; control_flags : Z; remaining_length : Z }.

Definition make_header (type flags len : Z) : mqtt_fixed_header :=
  mkHeader type (Z.land flags 15) (u32 len).

Definition control_type_is_valid : list Z := [0; 1; 1; 1; 1; 1; 1; 1; 1; 1; 1; 1; 1; 1; 1; 0].
Definition required_flags : list Z := [0; 0; 0; 0; 0; 0; 2; 0; 2; 0; 2; 0; 0; 0; 0; 0].
Definition mask_required_flags : list Z :=
  [0; 15; 15; 0; 15; 15; 15; 15; 15; 15; 15; 15; 15; 15; 15; 0].

Definition mqtt_fixed_header_rule_violation (h : mqtt_fixed_header) : option Z :=
  required ← znth required_flags (control_type h);
  mask ← znth mask_required_flags (control_type h);
  valid ← znth control_type_is_valid (control_type h);
  return_if valid =? 0 with Some (mqtt_error MQTT_ERROR_CONTROL_FORBIDDEN_TYPE) ;;
  return_if negb (Z.land (Z.lxor (control_flags h) required) mask =? 0)
    with Some (mqtt_error MQTT_ERROR_CONTROL_INVALID_FLAGS) ;;
  Some 0.

(** The loop over the bytes of the remaining length: the value of an early return,
    or the position and size left at the last byte; and the length so far. *)
Fixpoint unpack_length (fuel : nat) (buf : list Z) (pos bufsz lshift len : Z)
    : option ((Z + Z * Z) * Z) :=
  match fuel with
  | O => None
  | S fuel =>
      return_if lshift =? 28 with Some (inl (mqtt_error MQTT_ERROR_INVALID_REMAINING_LENGTH), len) ;;
      let bufsz := bufsz - 1 in
      let pos := pos + 1 in
      return_if bufsz =? 0 with Some (inl 0, len) ;;
      b ← rd8 buf pos;
      let len := u32 (len + Z.shiftl (Z.land b 0x7F) lshift) in
      if negb (Z.land b 0x80 =? 0) then unpack_length fuel buf pos bufsz (lshift + 7) len
      else Some (inr (pos, bufsz), len)
  end.

(** The value returned and the header, [h] where it is left alone. *)
Definition mqtt_unpack_fixed_header (h : mqtt_fixed_header) (buf : option (list Z)) (bufsz : Z)
    : option (Z * mqtt_fixed_header) :=
  match buf with
  | None => Some (mqtt_error MQTT_ERROR_NULLPTR, h)
  | Some buf =>
      return_if bufsz =? 0 with Some (0, h) ;;
      b ← rd8 buf 0;
      '(r, len) ← unpack_length 5 buf 0 bufsz 0 0;
      let h := mkHeader (Z.shiftr b 4) (Z.land b 0x0F) len in
      match r with
      | inl rv => Some (rv, h)
      | inr (pos, bufsz) =>
          let bufsz := bufsz - 1 in
          let pos := pos + 1 in
          errcode ← mqtt_fixed_header_rule_violation h;
          return_if negb (errcode =? 0) with Some (errcode, h) ;;
          return_if bufsz <? remaining_length h with Some (0, h) ;;
          Some (pos, h)
      end
  end.

(** The loop that writes the remaining length: the position and size left at the
    last byte, unless the buffer ends, and the buffer. *)
Fixpoint pack_length (fuel : nat) (m : list Z) (pos bufsz len : Z) : option (option (Z * Z) * list Z) :=
  match fuel with
  | O => None
  | S fuel =>
      let bufsz := bufsz - 1 in
      let pos := pos + 1 in
      return_if bufsz =? 0 with Some (None, m) ;;
      let b := Z.lor (Z.land len 0x7F) (if len >? 127 then 0x80 else 0) in
      m ← wr8 m pos b;
      let len := Z.shiftr len 7 in
      if negb (Z.land b 0x80 =? 0) then pack_length fuel m pos bufsz len else Some (Some (pos, bufsz), m)
  end.

Definition mqtt_pack_fixed_header (m : list Z) (bufsz : Z) (h : mqtt_fixed_header) : option (Z * list Z) :=
  errcode ← mqtt_fixed_header_rule_violation h;
  return_if negb (errcode =? 0) with Some (errcode, m) ;;
  return_if bufsz =? 0 with Some (0, m) ;;
  m ← wr8 m 0 (Z.lor (Z.land (Z.shiftl (control_type h) 4) 0xF0) (Z.land (control_flags h) 0x0F));
  return_if remaining_length h >=? 256 * 1024 * 1024
    with Some (mqtt_error MQTT_ERROR_INVALID_REMAINING_LENGTH, m) ;;
  '(r, m) ← pack_length 5 m 0 bufsz (remaining_length h);
  match r with
  | None => Some (0, m)
  | Some (pos, bufsz) =>
      let bufsz := bufsz - 1 in
      let pos := pos + 1 in
      return_if bufsz <? remaining_length h with Some (0, m) ;;
      Some (pos, m)
  end.

(** What every packer does next: leave when the header failed, or when what is left
    of the buffer is smaller than [need]. *)
Definition with_header (m : list Z) (bufsz : Z) (h : mqtt_fixed_header) (need : Z)
    (k : Z -> list Z -> option (Z * list Z)) : option (Z * list Z) :=
  '(rv, m) ← mqtt_pack_fixed_header m bufsz h;
  return_if rv <=? 0 with Some (rv, m) ;;
  return_if bufsz - rv <? need with Some (0, m) ;;
  k rv m.

(** ** Strings *)

(** [__mqtt_packed_cstrlen (x)], as the [size_t] it is. *)
Definition packed_cstrlen (s : list Z) : Z := 2 + zlen s.

(** At offset [pos]; the number of bytes written. *)
Definition __mqtt_pack_str (m : list Z) (pos : Z) (str : list Z) : option (Z * list Z) :=
  let length := u16 (zlen str) in
  m ← wr_bytes m pos (net16 length);
  m ← wr_bytes m (pos + 2) (take (Z.to_nat length) str);
  Some (length + 2, m).

(** ** Packers *)

(** [remaining_length] and [connect_flags] as the tests compute them, or an error. *)
Definition connect_parts (client_id will_topic will_message : option (list Z)) (will_message_size : Z)
    (user_name password : option (list Z)) (connect_flags : Z) : Z + Z * Z :=
  let flags := u8 (Z.land connect_flags (Z.lnot MQTT_CONNECT_RESERVED)) in
  let len := 10 in
  match client_id with
  | None => inl (mqtt_error MQTT_ERROR_CONNECT_NULL_CLIENT_ID)
  | Some client_id =>
      let len := u32 (len + packed_cstrlen client_id) in
      let will :=
        match will_topic with
        | Some will_topic =>
            let flags := u8 (Z.lor flags MQTT_CONNECT_WILL_FLAG) in
            let len := u32 (len + packed_cstrlen will_topic) in
            match will_message with
            | None => inl (mqtt_error MQTT_ERROR_CONNECT_NULL_WILL_MESSAGE)
            | Some _ =>
                let len := u32 (len + (2 + will_message_size)) in
                if Z.land flags 0x18 =? 0x18
                then inl (mqtt_error MQTT_ERROR_CONNECT_FORBIDDEN_WILL_QOS)
                else inr (len, flags)
            end
        | None =>
            let flags := u8 (Z.land flags (Z.lnot MQTT_CONNECT_WILL_FLAG)) in
            let flags := u8 (Z.land flags (Z.lnot 0x18)) in
            let flags := u8 (Z.land flags (Z.lnot MQTT_CONNECT_WILL_RETAIN)) in
            inr (len, flags)
        end in
      match will with
      | inl e => inl e
      | inr (len, flags) =>
          let '(len, flags) :=
            match user_name with
            | Some user_name =>
                (u32 (len + packed_cstrlen user_name), u8 (Z.lor flags MQTT_CONNECT_USER_NAME))
            | None => (len, u8 (Z.land flags (Z.lnot MQTT_CONNECT_USER_NAME)))
            end in
          let '(len, flags) :=
            match password with
            | Some password =>
                (u32 (len + packed_cstrlen password), u8 (Z.lor flags MQTT_CONNECT_PASSWORD))
            | None => (len, u8 (Z.land flags (Z.lnot MQTT_CONNECT_PASSWORD)))
            end in
          inr (len, flags)
      end
  end.

(** [buf += __mqtt_pack_str (buf, str)]; [str] is not null. *)
Definition append_str (m : list Z) (pos : Z) (str : option (list Z)) : option (Z * list Z) :=
  str ← str; '(n, m) ← __mqtt_pack_str m pos str; Some (pos + n, m).

Definition mqtt_pack_connection_request (m : list Z) (bufsz : Z)
    (client_id will_topic will_message : option (list Z)) (will_message_size : Z)
    (user_name password : option (list Z)) (connect_flags keep_alive : Z) : option (Z * list Z) :=
  match connect_parts client_id will_topic will_message will_message_size user_name password connect_flags with
  | inl e => Some (e, m)
  | inr (len, flags) =>
      let h := make_header MQTT_CONTROL_CONNECT 0 len in
      with_header m bufsz h (remaining_length h) (fun rv m =>
        m ← wr_bytes m rv [0; 4; 77; 81; 84; 84; MQTT_PROTOCOL_LEVEL; flags];
        m ← wr_bytes m (rv + 8) (net16 keep_alive);
        '(pos, m) ← append_str m (rv + 10) client_id;
        '(pos, m) ←
          (if negb (Z.land flags MQTT_CONNECT_WILL_FLAG =? 0)
           then '(pos, m) ← append_str m pos will_topic;
                msg ← will_message;
                m ← memcpy m pos msg 0 will_message_size;
                Some (pos + will_message_size, m)
           else Some (pos, m));
        '(pos, m) ← (if negb (Z.land flags MQTT_CONNECT_USER_NAME =? 0)
                     then append_str m pos user_name else Some (pos, m));
        '(pos, m) ← (if negb (Z.land flags MQTT_CONNECT_PASSWORD =? 0)
                     then append_str m pos password else Some (pos, m));
        Some (pos, m))
  end.

Definition mqtt_pack_disconnect (m : list Z) (bufsz : Z) : option (Z * list Z) :=
  mqtt_pack_fixed_header m bufsz (make_header MQTT_CONTROL_DISCONNECT 0 0).

Definition mqtt_pack_ping_request (m : list Z) (bufsz : Z) : option (Z * list Z) :=
  mqtt_pack_fixed_header m bufsz (make_header MQTT_CONTROL_PINGREQ 0 0).

(** [remaining_length] of this packer is a [uint16_t]. *)
Definition mqtt_pack_publish_request (m : list Z) (bufsz : Z) (topic_name : option (list Z)) (packet_id : Z)
    (application_message : list Z) (application_message_size publish_flags : Z) : option (Z * list Z) :=
  match topic_name with
  | None => Some (mqtt_error MQTT_ERROR_NULLPTR, m)
  | Some topic_name =>
      let inspected_qos := Z.shiftr (Z.land publish_flags 0x06) 1 in
      let len := u16 (packed_cstrlen topic_name) in
      let len := if inspected_qos >? 0 then u16 (len + 2) else len in
      let len := u16 (len + application_message_size) in
      let flags := if inspected_qos =? 0
                   then u8 (Z.land publish_flags (Z.lnot MQTT_PUBLISH_DUP)) else publish_flags in
      return_if inspected_qos =? 3 with Some (mqtt_error MQTT_ERROR_PUBLISH_FORBIDDEN_QOS, m) ;;
      with_header m bufsz (make_header MQTT_CONTROL_PUBLISH flags len) len (fun rv m =>
        '(n, m) ← __mqtt_pack_str m rv topic_name;
        let pos := rv + n in
        '(pos, m) ← (if inspected_qos >? 0
                     then m ← wr_bytes m pos (net16 packet_id); Some (pos + 2, m)
                     else Some (pos, m));
        m ← memcpy m pos application_message 0 application_message_size;
        Some (pos + application_message_size, m))
  end.

Definition mqtt_pack_pubxxx_request (m : list Z) (bufsz type packet_id : Z) : option (Z * list Z) :=
  let flags := if type =? MQTT_CONTROL_PUBREL then 0x02 else 0 in
  with_header m bufsz (make_header type flags 2) 2 (fun rv m =>
    m ← wr_bytes m rv (net16 packet_id); Some (rv + 2, m)).

(** The topics of the argument list, up to the null pointer; the test is made after
    each topic. *)
Definition mqtt_pack_subscribe_request (m : list Z) (bufsz packet_id : Z) (topics : list (list Z * Z))
    : option (Z * list Z) :=
  return_if zlen topics >=? MAX_NUM_TOPICS
    with Some (mqtt_error MQTT_ERROR_SUBSCRIBE_TOO_MANY_TOPICS, m) ;;
  let len := fold_left (fun len t => u32 (len + (packed_cstrlen t.1 + 1))) topics 2 in
  with_header m bufsz (make_header MQTT_CONTROL_SUBSCRIBE 2 len) len (fun rv m =>
    m ← wr_bytes m rv (net16 packet_id);
    foldl (fun r t => '(pos, m) ← r;
                      '(n, m) ← __mqtt_pack_str m pos t.1;
                      m ← wr8 m (pos + n) t.2;
                      Some (pos + n + 1, m)) (Some (rv + 2, m)) topics).

Definition mqtt_pack_unsubscribe_request (m : list Z) (bufsz packet_id : Z) (topics : list (list Z))
    : option (Z * list Z) :=
  return_if zlen topics >=? MAX_NUM_TOPICS
    with Some (mqtt_error MQTT_ERROR_UNSUBSCRIBE_TOO_MANY_TOPICS, m) ;;
  let len := fold_left (fun len t => u32 (len + packed_cstrlen t)) topics 2 in
  with_header m bufsz (make_header MQTT_CONTROL_UNSUBSCRIBE 2 len) len (fun rv m =>
    m ← wr_bytes m rv (net16 packet_id);
    foldl (fun r t => '(pos, m) ← r;
                      '(n, m) ← __mqtt_pack_str m pos t;
                      Some (pos + n, m)) (Some (rv + 2, m)) topics).

(** ** Unpackers *)

(** A string of a packet: its length and the offset of its first byte. *)
Record c_string := mkCString { string_len : Z; str : Z }.

Record connect_flags := mkConnectFlags {
  clean_session : Z; will_flag : Z; will_qos : Z; will_retain : Z; password_flag : Z; username_flag : Z }.

(** A string the packet does not have is left as it was. *)
Record response_connect := mkConnect {
  protocol_name : list Z; protocol_level : Z; connect_flag : connect_flags; keep_alive : Z;
  client_id : c_string; will_topic : option c_string; will_msg : option c_string;
  user_name : option c_string; password : option c_string }.

Record response_publish := mkPublish {
  dup_flag : Z; qos_level : Z; retain_flag : Z; topic_name : c_string;
  publish_id : option Z; application_message : Z; application_message_size : Z }.

Inductive mqtt_decoded :=
  | DConnect (c : response_connect)
  | DConnack (session_present_flag return_code : Z)
  | DPublish (p : response_publish)
  | DPuback (packet_id : Z)
  | DPubrec (packet_id : Z)
  | DPubrel (packet_id : Z)
  | DPubcomp (packet_id : Z)
  | DSubscribe (varhead : Z) (payloads : list (Z * Z))
  | DSuback (packet_id num_return_codes return_codes : Z)
  | DUnsuback (packet_id : Z)
  | DPingresp.

(** A string at an offset, and the offset behind it. *)
Definition unpack_string (buf : list Z) (pos : Z) : option (c_string * Z) :=
  n ← rdnet16 buf pos; Some (mkCString n (pos + 2), pos + 2 + n).

Definition unpack_string_if (b : bool) (buf : list Z) (pos : Z) : option (option c_string * Z) :=
  if b then '(s, pos) ← unpack_string buf pos; Some (Some s, pos) else Some (None, pos).

(** The array [protocol_name] has four bytes, [name] before the call. *)
Definition mqtt_unpack_connect_response (name : list Z) (buf : list Z) : option response_connect :=
  protocol_len ← rdnet16 buf 0;
  name ← memcpy name 0 buf 2 protocol_len;
  let pos := 2 + protocol_len in
  level ← rd8 buf pos;
  b ← rd8 buf (pos + 1);
  let bits n w := Z.land (Z.shiftr b n) w in
  let flags := mkConnectFlags (bits 1 1) (bits 2 1) (bits 3 3) (bits 5 1) (bits 6 1) (bits 7 1) in
  keep_alive ← rdnet16 buf (pos + 2);
  '(client_id, pos) ← unpack_string buf (pos + 4);
  '(topic, pos) ← unpack_string_if (will_flag flags =? 1) buf pos;
  '(msg, pos) ← unpack_string_if (will_flag flags =? 1) buf pos;
  '(pass, pos) ← unpack_string_if (password_flag flags =? 1) buf pos;
  '(user, pos) ← unpack_string_if (username_flag flags =? 1) buf pos;
  Some (mkConnect name level flags keep_alive client_id topic msg user pass).

(** The loop over the payloads: offset of the topic and quality of service. *)
Fixpoint subscribe_loop (fuel : nat) (buf : list Z) (curdata cur_len remain n : Z)
    : option (list (Z * Z)) :=
  match fuel with
  | O => None
  | S fuel =>
      if cur_len <? remain
      then topic_len ← rdnet16 buf curdata;
           return_if negb (n <? PAYLOAD_MAX_CNT) with None ;;
           let topic := curdata + 2 in
           qos ← rd8 buf (topic + topic_len);
           l ← subscribe_loop fuel buf (topic + topic_len + 1) (u32 (cur_len + (2 + topic_len + 1))) remain (n + 1);
           Some ((topic, qos) :: l)
      else Some []
  end.

Definition mqtt_unpack_subscribe_response (h : mqtt_fixed_header) (buf : list Z) : option mqtt_decoded :=
  var_head ← rdnet16 buf 0;
  payloads ← subscribe_loop 12 buf 2 0 (u32 (remaining_length h - 2)) 0;
  Some (DSubscribe var_head payloads).

(** The value returned, and what is decoded when it is positive. *)
Definition mqtt_unpack_connack_response (h : mqtt_fixed_header) (buf : list Z) : option (Z * option mqtt_decoded) :=
  return_if negb (remaining_length h =? 2) with Some (mqtt_error MQTT_ERROR_MALFORMED_RESPONSE, None) ;;
  flag ← rd8 buf 0;
  return_if negb (Z.land flag 0xFE =? 0) with Some (mqtt_error MQTT_ERROR_CONNACK_FORBIDDEN_FLAGS, None) ;;
  code ← rd8 buf 1;
  return_if code >? 5 with Some (mqtt_error MQTT_ERROR_CONNACK_FORBIDDEN_CODE, None) ;;
  Some (2, Some (DConnack flag code)).

Definition mqtt_unpack_publish_response (h : mqtt_fixed_header) (buf : list Z) : option (Z * option mqtt_decoded) :=
  let dup := Z.shiftr (Z.land (control_flags h) MQTT_PUBLISH_DUP) 3 in
  let qos := Z.shiftr (Z.land (control_flags h) 0x06) 1 in
  let retain := Z.land (control_flags h) MQTT_PUBLISH_RETAIN in
  return_if remaining_length h <? 4 with Some (mqtt_error MQTT_ERROR_MALFORMED_RESPONSE, None) ;;
  size ← rdnet16 buf 0;
  let pos := 2 + size in
  '(id, pos) ← (if qos >? 0 then id ← rdnet16 buf pos; Some (Some id, pos + 2) else Some (None, pos));
  let n := if qos =? 0 then u32 (u32 (remaining_length h - size) - 2)
           else u32 (u32 (remaining_length h - size) - 4) in
  Some (pos + n, Some (DPublish (mkPublish dup qos retain (mkCString size 2) id pos n))).

Definition mqtt_unpack_pubxxx_response (h : mqtt_fixed_header) (buf : list Z) : option (Z * option mqtt_decoded) :=
  return_if negb (remaining_length h =? 2) with Some (mqtt_error MQTT_ERROR_MALFORMED_RESPONSE, None) ;;
  packet_id ← rdnet16 buf 0;
  Some (2, Some (if control_type h =? MQTT_CONTROL_PUBACK then DPuback packet_id
                 else if control_type h =? MQTT_CONTROL_PUBREC then DPubrec packet_id
                 else if control_type h =? MQTT_CONTROL_PUBREL then DPubrel packet_id
                 else DPubcomp packet_id)).

Definition mqtt_unpack_suback_response (h : mqtt_fixed_header) (buf : list Z) : option (Z * option mqtt_decoded) :=
  return_if remaining_length h <? 3 with Some (mqtt_error MQTT_ERROR_MALFORMED_RESPONSE, None) ;;
  packet_id ← rdnet16 buf 0;
  Some (remaining_length h, Some (DSuback packet_id (remaining_length h - 2) 2)).

Definition mqtt_unpack_unsuback_response (h : mqtt_fixed_header) (buf : list Z) : option (Z * option mqtt_decoded) :=
  return_if negb (remaining_length h =? 2) with Some (mqtt_error MQTT_ERROR_MALFORMED_RESPONSE, None) ;;
  packet_id ← rdnet16 buf 0;
  Some (2, Some (DUnsuback packet_id)).

(** The value returned, the header and what is decoded.  The unpackers of CONNECT
    and SUBSCRIBE leave [rv] alone.  The array of a connect response has four bytes. *)
Definition mqtt_unpack_response (h : mqtt_fixed_header) (buf : list Z) (bufsz : Z)
    : option (Z * mqtt_fixed_header * option mqtt_decoded) :=
  '(rv, h) ← mqtt_unpack_fixed_header h (Some buf) bufsz;
  return_if rv <=? 0 with Some (rv, h, None) ;;
  let n := rv in
  let body := drop (Z.to_nat rv) buf in
  let type := control_type h in
  let finish (r : option (Z * option mqtt_decoded)) : option (Z * mqtt_fixed_header * option mqtt_decoded) :=
    '(rv, d) ← r;
    return_if rv <? 0 with Some (rv, h, d) ;;
    Some (n + rv, h, d) in
  if type =? MQTT_CONTROL_CONNECT
  then finish (c ← mqtt_unpack_connect_response [0; 0; 0; 0] body; Some (rv, Some (DConnect c)))
  else if type =? MQTT_CONTROL_CONNACK then finish (mqtt_unpack_connack_response h body)
  else if type =? MQTT_CONTROL_PUBLISH then finish (mqtt_unpack_publish_response h body)
  else if (type =? MQTT_CONTROL_PUBACK) || (type =? MQTT_CONTROL_PUBREC)
          || (type =? MQTT_CONTROL_PUBREL) || (type =? MQTT_CONTROL_PUBCOMP)
  then finish (mqtt_unpack_pubxxx_response h body)
  else if type =? MQTT_CONTROL_SUBSCRIBE
  then finish (d ← mqtt_unpack_subscribe_response h body; Some (rv, Some d))
  else if type =? MQTT_CONTROL_SUBACK then finish (mqtt_unpack_suback_response h body)
  else if type =? MQTT_CONTROL_UNSUBACK then finish (mqtt_unpack_unsuback_response h body)
  else if type =? MQTT_CONTROL_PINGRESP then Some (rv, h, Some DPingresp)
  else Some (mqtt_error MQTT_ERROR_RESPONSE_INVALID_CONTROL_TYPE, h, None).
