(* ===== verification/MqttCorrect.v ===== *)
(** * MQTT packets: what is packed is what is unpacked

    The bytes of a packet are written out as a reference; the packers produce them,
    exactly when the buffer has room, and the unpackers recover the fields. *)

From stdpp Require Import prelude.
From S2P Require Import Prelude CMem Mqtt.

(** ** Reference encodings *)

(** The remaining length: seven bits a byte, low bits first, the top bit says that
    more follow. *)
Fixpoint varint (fuel : nat) (n : Z) : list Z :=
  match fuel with
  | O => []
  | S fuel => if n <? 128 then [n] else (n mod 128 + 128) :: varint fuel (n / 128)
  end.

Definition header_bytes (h : mqtt_fixed_header) : list Z :=
  (control_type h * 16 + control_flags h) :: varint 4 (remaining_length h).

Definition str_bytes (s : list Z) : list Z := net16 (zlen s) ++ s.

Record header_ok (h : mqtt_fixed_header) : Prop := {
  ho_type : 0 < control_type h < 15;
  ho_flags : 0 <= control_flags h < 16;
  ho_rules : control_type h <> MQTT_CONTROL_PUBLISH ->
    control_flags h = default 0 (znth required_flags (control_type h));
  ho_length : 0 <= remaining_length h < 2 ^ 28
}.

(** ** Bits *)

Lemma low7 n : Z.land n 0x7F = n mod 128.
Proof. change 0x7F with (Z.ones 7). by rewrite Z.land_ones. Qed.

Lemma high_bit n : 0 <= n < 256 -> (Z.land n 0x80 =? 0) = (n <? 128).
Proof.
  intros. apply (forallb_seqZ (fun n => Bool.eqb (Z.land n 0x80 =? 0) (n <? 128)) 256) in H; [|by vm_compute].
  by apply eqb_prop in H.
Qed.

Lemma length_byte n : 0 <= n ->
  Z.lor (Z.land n 0x7F) (if n >? 127 then 0x80 else 0) = if n <? 128 then n else n mod 128 + 128.
Proof.
  intros Hn. rewrite low7. destruct (Z.gtb_spec n 127).
  - zfalse (n <? 128). rewrite (Z.lor_comm (n mod 128)).
    replace 0x80 with (1 * 2 ^ 7) by done. rewrite lor_disjoint_add; zlia.
  - ztrue (n <? 128). rewrite Z.lor_0_r. apply Z.mod_small. lia.
Qed.

Lemma length_byte_range n : 0 <= n -> 0 <= (if n <? 128 then n else n mod 128 + 128) < 256.
Proof. intros. case_if; zbool; zlia. Qed.

Lemma length_byte_more n : 0 <= n ->
  (Z.land (if n <? 128 then n else n mod 128 + 128) 0x80 =? 0) = (n <? 128).
Proof.
  intros Hn. rewrite high_bit by (by apply length_byte_range).
  destruct (Z.ltb_spec n 128) as [|]; [by ztrue (n <? 128) | zfalse (n mod 128 + 128 <? 128); done].
Qed.

Lemma varint_length k n : 0 <= n < 128 ^ Z.of_nat k -> (1 <= k)%nat -> (1 <= length (varint k n) <= k)%nat.
Proof.
  revert n. induction k as [|k IH]; intros n Hn Hk; [lia|]. cbn [varint].
  destruct (Z.ltb_spec n 128); [cbn; lia|]. cbn [length].
  rewrite Nat2Z.inj_succ, Z.pow_succ_r in Hn by lia. destruct k as [|k]; [cbn in Hn; lia|].
  specialize (IH (n / 128)). lapply IH; [lia|]. zlia.
Qed.

(** ** The remaining length *)

(** The length is written in the room there is after [pre]. *)
Lemma pack_length_spec k : forall fuel pre rest pos bufsz n,
  0 <= n < 128 ^ Z.of_nat k -> (k <= fuel)%nat -> (1 <= k)%nat -> pos + 1 = zlen pre ->
  0 < bufsz <= zlen rest + 1 ->
  exists r m, pack_length fuel (pre ++ rest) pos bufsz n = Some (r, m) /\ length m = length (pre ++ rest)
    /\ if zlen (varint k n) <? bufsz
       then r = Some (pos + zlen (varint k n), bufsz - zlen (varint k n))
            /\ m = pre ++ varint k n ++ drop (length (varint k n)) rest
       else r = None.
Proof.
  induction k as [|k IH]; intros fuel pre rest pos bufsz n Hn Hf Hk Hpos Hb; [lia|].
  destruct fuel as [|fuel]; [lia|]. cbn [pack_length varint].
  destruct (Z.eqb_spec (bufsz - 1) 0).
  { eexists _, _. split; [done|]. split; [done|].
    replace (_ <? bufsz) with false; [done|]. symmetry. apply Z.ltb_ge. case_if; cbn [length]; lia. }
  rewrite length_byte, length_byte_more by lia. pose proof (length_byte_range n ltac:(lia)) as Hr.
  destruct rest as [|y rest]; [cbn in Hb; lia|].
  rewrite wr8_snoc, bind_Some by lia. rewrite u8_id by done. rewrite Hpos.
  destruct (Z.ltb_spec n 128); cbn [negb].
  - eexists _, _. split; [done|]. split; [rewrite !length_app; done|]. cbn [length drop].
    ztrue (Z.of_nat 1 <? bufsz). split; [f_equal; f_equal; lia | done].
  - rewrite Z.shiftr_div_pow2 by lia. change (2 ^ 7) with 128.
    rewrite Nat2Z.inj_succ, Z.pow_succ_r in Hn by lia. destruct k as [|k]; [cbn in Hn; lia|].
    replace (pre ++ n mod 128 + 128 :: rest) with ((pre ++ [n mod 128 + 128]) ++ rest) by (by rewrite <- app_assoc).
    destruct (IH fuel (pre ++ [n mod 128 + 128]) rest (zlen pre) (bufsz - 1) (n / 128))
      as (r & m & -> & Hm & Hres); [zlia | lia | lia | rewrite length_app; cbn; lia | cbn [length] in Hb; lia |].
    eexists _, _. split; [done|]. split; [rewrite Hm; rewrite !length_app; cbn [length]; lia|].
    cbn [length]. destruct (Z.ltb_spec (zlen (varint (S k) (n / 128))) (bufsz - 1)).
    + replace (Z.of_nat (S (length (varint (S k) (n / 128)))) <? bufsz) with true by (symmetry; apply Z.ltb_lt; lia).
      destruct Hres as [-> ->]. split; [f_equal; f_equal; lia|].
      rewrite <- app_assoc. done.
    + by replace (Z.of_nat (S (length (varint (S k) (n / 128)))) <? bufsz) with false by (symmetry; apply Z.ltb_ge; lia).
Qed.

Lemma unpack_length_spec k : forall fuel pre rest pos bufsz lshift acc n,
  0 <= n < 128 ^ Z.of_nat k -> (k <= fuel)%nat -> (1 <= k)%nat -> pos + 1 = zlen pre ->
  0 <= lshift -> lshift + 7 * Z.of_nat k <= 28 -> 0 <= acc -> acc + n * 2 ^ lshift < 2 ^ 28 ->
  zlen (varint k n) < bufsz ->
  unpack_length fuel (pre ++ varint k n ++ rest) pos bufsz lshift acc
  = Some (inr (pos + zlen (varint k n), bufsz - zlen (varint k n)), acc + n * 2 ^ lshift).
Proof.
  induction k as [|k IH]; intros fuel pre rest pos bufsz lshift acc n Hn Hf Hk Hpos Hl Hl' Hacc Hlt Hb; [lia|].
  destruct fuel as [|fuel]; [lia|]. cbn [unpack_length varint] in *. zfalse (lshift =? 28). rewrite Hpos.
  pose proof (length_byte_more n ltac:(lia)) as Hmore. assert (Hp : 0 < 2 ^ lshift) by lia.
  assert (Hhead : forall b l, rd8 (pre ++ (b :: l) ++ rest) (zlen pre) = Some b).
  { intros. unfold rd8. by rewrite znth_app_r, Z.sub_diag by lia. }
  destruct (Z.ltb_spec n 128).
  - cbn [length] in *. zfalse (bufsz - 1 =? 0). rewrite Hhead, bind_Some, Hmore. cbn [negb].
    rewrite low7, Z.mod_small, Z.shiftl_mul_pow2, u32_id by lia. repeat f_equal; lia.
  - cbn [length] in *. zfalse (bufsz - 1 =? 0). rewrite Hhead, bind_Some, Hmore. cbn [negb].
    rewrite low7, Z.shiftl_mul_pow2 by lia.
    replace ((n mod 128 + 128) mod 128) with (n mod 128) by zlia.
    rewrite Nat2Z.inj_succ, Z.pow_succ_r in Hn by lia. destruct k as [|k]; [cbn in Hn; lia|].
    assert (Hsplit : n * 2 ^ lshift = n mod 128 * 2 ^ lshift + n / 128 * 2 ^ (lshift + 7)).
    { rewrite Z.pow_add_r by lia. rewrite (Z.div_mod n 128) at 1 by lia. ring. }
    assert (0 <= n mod 128 * 2 ^ lshift /\ 0 <= n / 128 * 2 ^ (lshift + 7)).
    { split; apply Z.mul_nonneg_nonneg; try zlia; lia. }
    rewrite u32_id by lia. rewrite <- app_comm_cons, (cons_middle _ pre), app_assoc.
    rewrite IH; [|zlia|lia|lia|rewrite length_app; cbn; lia|lia|lia|lia|lia|lia].
    f_equal. f_equal; [f_equal; f_equal; lia | lia].
Qed.

(** ** The fixed header *)

Abbreviation header_len h := (zlen (header_bytes h)).

Lemma header_len_bounds h : header_ok h -> 2 <= header_len h <= 5.
Proof.
  intros [_ _ _ Hl]. unfold header_bytes. cbn [length].
  pose proof (varint_length 4 (remaining_length h) ltac:(lia) ltac:(lia)). lia.
Qed.

Lemma rule_violation_ok h : header_ok h -> mqtt_fixed_header_rule_violation h = Some 0.
Proof.
  destruct h as [t f l]. intros [Ht Hf Hr _]. cbn in *.
  change (mqtt_fixed_header_rule_violation (mkHeader t f 0) = Some 0).
  set (ok t f := bool_decide (mqtt_fixed_header_rule_violation (mkHeader t f 0) = Some 0)).
  assert (Hall : forallb (fun t => forallb (fun f =>
            (t =? 0) || (negb (t =? 3) && negb (f =? default 0 (znth required_flags t))) || ok t f)
            (seqZ 0 16)) (seqZ 0 15) = true) by (by vm_compute).
  apply (forallb_seqZ _ _ t) in Hall; [|lia]. apply (forallb_seqZ _ _ f) in Hall; [|lia].
  unfold ok in Hall. rewrite !orb_true_iff, andb_true_iff, !negb_true_iff, bool_decide_eq_true in Hall.
  destruct Hall as [[?|[? ?]]|Hok]; [zbool; lia | | done]. zbool.
  unfold MQTT_CONTROL_PUBLISH in Hr. tauto.
Qed.

Lemma header_byte t f : 0 <= t < 16 -> 0 <= f < 16 ->
  Z.lor (Z.land (Z.shiftl t 4) 0xF0) (Z.land f 0x0F) = t * 16 + f
  /\ Z.shiftr (t * 16 + f) 4 = t /\ Z.land (t * 16 + f) 0x0F = f.
Proof.
  intros Ht Hf. rewrite Z.shiftr_div_pow2 by lia. change 15 with (Z.ones 4).
  rewrite !Z.land_ones by lia. split_and!; [|zlia..].
  rewrite (Z.mod_small f) by lia. rewrite <- lor_disjoint_add with (n := 4) by lia. f_equal.
  change 240 with (Z.shiftl 15 4). rewrite <- Z.shiftl_land, Z.shiftl_mul_pow2 by lia. f_equal.
  change 15 with (Z.ones 4). rewrite Z.land_ones by lia. by rewrite Z.mod_small.
Qed.

Lemma pack_header_spec m bufsz h : header_ok h -> 0 <= bufsz <= zlen m ->
  let fits := header_len h + remaining_length h <=? bufsz in
  exists m', mqtt_pack_fixed_header m bufsz h = Some (if fits then header_len h else 0, m')
    /\ length m' = length m
    /\ (fits = true -> m' = header_bytes h ++ drop (length (header_bytes h)) m).
Proof.
  intros Hh Hb fits. pose proof (header_len_bounds h Hh) as Hl. pose proof (rule_violation_ok h Hh) as Hrv.
  destruct Hh as [Ht Hf _ Hr]. unfold mqtt_pack_fixed_header. rewrite Hrv, bind_Some. cbn [negb Z.eqb].
  destruct (Z.eqb_spec bufsz 0) as [->|Hb0].
  { exists m. unfold fits. zfalse (header_len h + remaining_length h <=? 0). done. }
  destruct m as [|x m]; [cbn in Hb; lia|]. destruct (header_byte (control_type h) (control_flags h)) as [-> _]; [lia..|].
  rewrite (wr8_snoc [] x m), bind_Some by done. cbn [app]. rewrite u8_id by lia.
  zfalse (remaining_length h >=? 256 * 1024 * 1024).
  destruct (pack_length_spec 4 5 [control_type h * 16 + control_flags h] m 0 bufsz (remaining_length h))
    as (r & m' & Hpack & Hm' & Hres); [cbn; lia | lia | lia | done | cbn [length] in Hb; lia |].
  cbn [app] in Hpack. rewrite Hpack, bind_Some.
  unfold header_bytes in fits, Hl |- *. set (v := varint 4 (remaining_length h)) in *. cbn [length] in fits, Hl |- *.
  destruct (Z.ltb_spec (zlen v) bufsz); [|subst r].
  - destruct Hres as [-> Hm]. subst fits. exists m'. rewrite Hm'.
    destruct (Z.leb_spec (Z.of_nat (S (length v)) + remaining_length h) bufsz).
    + zfalse (bufsz - zlen v - 1 <? remaining_length h). split; [f_equal; f_equal; lia|].
      split; [done|]. intros _. rewrite Hm. done.
    + ztrue (bufsz - zlen v - 1 <? remaining_length h). done.
  - subst fits. exists m'. rewrite Hm'. by zfalse (Z.of_nat (S (length v)) + remaining_length h <=? bufsz).
Qed.

(** The header is known before the rest of the packet is there. *)
Lemma unpack_header_known h h0 rest bufsz : header_ok h -> header_len h <= bufsz ->
  mqtt_unpack_fixed_header h0 (Some (header_bytes h ++ rest)) bufsz
  = Some (if header_len h + remaining_length h <=? bufsz then header_len h else 0, h).
Proof.
  intros Hh Hb. pose proof (header_len_bounds h Hh) as Hl. pose proof (rule_violation_ok h Hh) as Hrv.
  destruct Hh as [Ht Hf _ Hr]. unfold mqtt_unpack_fixed_header, header_bytes in *. cbn [length] in *.
  zfalse (bufsz =? 0). rewrite <- app_comm_cons.
  change (rd8 (?b :: ?l) 0) with (Some b). rewrite bind_Some.
  destruct (header_byte (control_type h) (control_flags h)) as (_ & -> & ->); [lia..|].
  pose proof (unpack_length_spec 4 5 [control_type h * 16 + control_flags h] rest 0 bufsz 0 0 (remaining_length h)) as E.
  cbn [app] in E. rewrite E; clear E; [|cbn; lia|lia|lia|done|lia|lia|lia|lia|lia].
  rewrite bind_Some, Z.add_0_l, Z.mul_1_r. replace (mkHeader _ _ _) with h by (by destruct h).
  rewrite Hrv, bind_Some. cbn [negb Z.eqb]. set (v := varint 4 (remaining_length h)) in *.
  destruct (Z.leb_spec (Z.of_nat (S (length v)) + remaining_length h) bufsz).
  - zfalse (bufsz - zlen v - 1 <? remaining_length h). repeat f_equal. lia.
  - by ztrue (bufsz - zlen v - 1 <? remaining_length h).
Qed.

Lemma unpack_header_spec h h0 rest bufsz : header_ok h -> header_len h + remaining_length h <= bufsz ->
  mqtt_unpack_fixed_header h0 (Some (header_bytes h ++ rest)) bufsz = Some (header_len h, h).
Proof.
  intros Hh Hb. pose proof (ho_length h Hh). rewrite unpack_header_known by (done || lia).
  by ztrue (header_len h + remaining_length h <=? bufsz).
Qed.

Lemma unpack_length_short k : forall fuel pre rest pos bufsz lshift acc n,
  0 <= n -> (k <= fuel)%nat -> pos + 1 = zlen pre -> 0 <= lshift -> lshift + 7 * Z.of_nat k <= 28 ->
  0 < bufsz <= zlen (varint k n) ->
  exists len, unpack_length fuel (pre ++ take (Z.to_nat (bufsz - 1)) (varint k n) ++ rest) pos bufsz lshift acc
    = Some (inl 0, len).
Proof.
  induction k as [|k IH]; intros fuel pre rest pos bufsz lshift acc n Hn Hf Hpos Hl Hl' Hb; [cbn in Hb; lia|].
  destruct fuel as [|fuel]; [lia|]. cbn [unpack_length]. zfalse (lshift =? 28).
  destruct (Z.eqb_spec (bufsz - 1) 0) as [|Hne]; [by eexists|].
  pose proof (length_byte_more n Hn) as Hmore. cbn [varint] in *.
  destruct (Z.ltb_spec n 128); [cbn in Hb; lia|]. cbn [length] in Hb.
  replace (Z.to_nat (bufsz - 1)) with (S (Z.to_nat (bufsz - 1 - 1))) by lia. cbn [take].
  assert (Hhead : forall b l, rd8 (pre ++ b :: l) (zlen pre) = Some b).
  { intros. unfold rd8. by rewrite znth_app_r, Z.sub_diag by lia. }
  rewrite Hpos, <- app_comm_cons, Hhead, bind_Some, Hmore. cbn [negb].
  rewrite (cons_middle _ pre), app_assoc. apply IH; [zlia | lia | rewrite length_app; cbn; lia | lia..].
Qed.

(** The beginning of a packet that is not all there. *)
Lemma header_incomplete h body k rest h0 : header_ok h -> remaining_length h = zlen body ->
  0 <= k < header_len h + zlen body ->
  exists h', mqtt_unpack_fixed_header h0 (Some (take (Z.to_nat k) (header_bytes h ++ body) ++ rest)) k = Some (0, h').
Proof.
  intros Hh Hlen Hk. destruct (Z.le_gt_cases (header_len h) k) as [Hle|Hlt].
  - rewrite take_app_ge, <- app_assoc by lia. eexists. rewrite unpack_header_known by done.
    by zfalse (header_len h + remaining_length h <=? k).
  - rewrite take_app_le by lia. unfold mqtt_unpack_fixed_header, header_bytes in *. cbn [length] in *.
    destruct (Z.eqb_spec k 0) as [->|Hk0]; [by eexists|].
    replace (Z.to_nat k) with (S (Z.to_nat (k - 1))) by lia. cbn [take]. rewrite <- app_comm_cons.
    change (rd8 (?b :: ?l) 0) with (Some b). rewrite bind_Some.
    destruct (unpack_length_short 4 5 [control_type h * 16 + control_flags h] rest 0 k 0 0 (remaining_length h))
      as (len & E); [pose proof (ho_length h Hh); lia | lia | done | lia | lia | lia |].
    cbn [app] in E. rewrite E. by eexists.
Qed.

(** Whatever the bytes are: the remaining length as the protocol describes it, seven
    bits a byte from the lowest on, in at most [k] bytes. *)
Inductive length_reading := LengthCut | LengthBad | LengthRead (n used : Z).

Fixpoint read_length (k : nat) (bs : list Z) : length_reading :=
  match k, bs with
  | O, _ => LengthBad
  | S _, [] => LengthCut
  | S k, b :: bs =>
      if b <? 128 then LengthRead b 1
      else match read_length k bs with
           | LengthRead n used => LengthRead (b - 128 + 128 * n) (used + 1)
           | r => r
           end
  end.

Lemma read_length_bounds k bs : bytes_ok bs ->
  match read_length k bs with
  | LengthRead n used => 0 <= n < 128 ^ Z.of_nat k /\ 1 <= used <= Z.of_nat k /\ used <= zlen bs
  | _ => True
  end.
Proof.
  revert bs. induction k as [|k IH]; intros [|b bs] Hbs; try done. inversion_clear Hbs as [|? ? Hb Hbs'].
  cbn [read_length length]. rewrite Nat2Z.inj_succ, Z.pow_succ_r by lia. assert (0 < 128 ^ Z.of_nat k) by lia.
  zcase; [lia|]. specialize (IH bs Hbs'). destruct (read_length k bs) as [| |n used]; [done..|]. lia.
Qed.

Lemma unpack_length_reads k : forall fuel buf pos bufsz lshift acc,
  bytes_ok buf -> lshift + 7 * Z.of_nat k = 28 -> 0 <= lshift -> (k < fuel)%nat -> 0 <= acc < 2 ^ lshift ->
  0 <= pos -> 1 <= bufsz -> pos + bufsz <= zlen buf ->
  exists r len, unpack_length fuel buf pos bufsz lshift acc = Some (r, len)
    /\ match read_length k (take (Z.to_nat (bufsz - 1)) (drop (Z.to_nat (pos + 1)) buf)) with
       | LengthCut => r = inl 0
       | LengthBad => r = inl (mqtt_error MQTT_ERROR_INVALID_REMAINING_LENGTH)
       | LengthRead n used => r = inr (pos + used, bufsz - used) /\ len = acc + n * 2 ^ lshift
       end.
Proof.
  induction k as [|k IH]; intros fuel buf pos bufsz lshift acc Hbuf Hl Hl0 Hf Hacc Hpos Hb Hbb;
    (destruct fuel as [|fuel]; [lia|]); cbn [unpack_length].
  { ztrue (lshift =? 28). by eexists _, _. }
  zfalse (lshift =? 28). destruct (Z.eqb_spec (bufsz - 1) 0) as [->|Hne].
  { change (Z.to_nat 0) with 0%nat. rewrite take_0. by eexists _, _. }
  destruct (rd8_lt buf (pos + 1) ltac:(lia)) as [b Hrd]. pose proof (rd8_byte _ _ _ Hbuf Hrd) as Hbyte.
  rewrite Hrd, bind_Some, low7, Z.shiftl_mul_pow2 by lia.
  assert (drop (Z.to_nat (pos + 1)) buf = b :: drop (Z.to_nat (pos + 1 + 1)) buf) as ->.
  { replace (Z.to_nat (pos + 1 + 1)) with (S (Z.to_nat (pos + 1))) by lia. unfold rd8 in Hrd. rewrite <- (Z2Nat.id (pos + 1)), znth_of_nat in Hrd by lia. by apply drop_S. }
  replace (Z.to_nat (bufsz - 1)) with (S (Z.to_nat (bufsz - 1 - 1))) by lia. cbn [take read_length].
  assert (Hp : 0 < 2 ^ lshift) by lia. assert (Hle : 2 ^ (lshift + 7) <= 2 ^ 28) by (apply Z.pow_le_mono_r; lia).
  rewrite Z.pow_add_r in Hle by lia. change (2 ^ 7) with 128 in Hle.
  assert (Hacc' : 0 <= acc + b mod 128 * 2 ^ lshift < 2 ^ lshift * 128).
  { split; [apply Z.add_nonneg_nonneg; [lia|]; apply Z.mul_nonneg_nonneg; zlia|].
    assert (b mod 128 * 2 ^ lshift <= 127 * 2 ^ lshift) by (apply Z.mul_le_mono_nonneg_r; zlia). lia. }
  rewrite u32_id by lia. rewrite high_bit by done. destruct (Z.ltb_spec b 128) as [Hlt|Hge]; cbn [negb].
  - eexists _, _. split; [done|]. split; [done|]. by rewrite Z.mod_small by lia.
  - destruct (IH fuel buf (pos + 1) (bufsz - 1) (lshift + 7) (acc + b mod 128 * 2 ^ lshift))
      as (r & len & E' & Hr); try done; try lia.
    { by rewrite Z.pow_add_r by lia. }
    eexists _, _. split; [exact E'|].
    destruct (read_length k _) as [| |n used]; [done..|]. destruct Hr as [-> ->]. split; [do 2 f_equal; lia|].
    rewrite Z.pow_add_r by lia. change (2 ^ 7) with 128. replace (b mod 128) with (b - 128) by zlia. lia.
Qed.

(** The types 1 to 14 exist; flags are free for PUBLISH, 2 for PUBREL, SUBSCRIBE and
    UNSUBSCRIBE, 0 for the rest. *)
Definition header_rule (type flags : Z) : Z :=
  if (type =? 0) || (type =? 15) then mqtt_error MQTT_ERROR_CONTROL_FORBIDDEN_TYPE
  else if (type =? 3) || (flags =? if (type =? 6) || (type =? 8) || (type =? 10) then 2 else 0) then 0
  else mqtt_error MQTT_ERROR_CONTROL_INVALID_FLAGS.

Lemma rule_violation_spec type flags len : 0 <= type < 16 -> 0 <= flags < 16 ->
  mqtt_fixed_header_rule_violation (mkHeader type flags len) = Some (header_rule type flags).
Proof.
  intros Ht Hf. unfold mqtt_fixed_header_rule_violation. cbn [control_type control_flags].
  assert (forallb (fun t => forallb (fun f =>
    bool_decide (mqtt_fixed_header_rule_violation (mkHeader t f 0) = Some (header_rule t f))) (seqZ 0 16)) (seqZ 0 16) = true)
    as H by (vm_compute; reflexivity).
  rewrite forallb_forall in H. specialize (H type ltac:(apply list_elem_of_In, elem_of_seqZ; lia)).
  rewrite forallb_forall in H. specialize (H flags ltac:(apply list_elem_of_In, elem_of_seqZ; lia)).
  by apply bool_decide_eq_true in H.
Qed.

(** What the bytes [bs] are: an error, 0 where a packet is not complete, or the size
    of the header of a complete one; and the header when its length can be read. *)
Definition header_reading (h0 : mqtt_fixed_header) (bs : list Z) : Z * option mqtt_fixed_header :=
  match bs with
  | [] => (0, Some h0)
  | b :: bs =>
      match read_length 4 bs with
      | LengthCut => (0, None)
      | LengthBad => (mqtt_error MQTT_ERROR_INVALID_REMAINING_LENGTH, None)
      | LengthRead n used =>
          (if negb (header_rule (b / 16) (b mod 16) =? 0) then header_rule (b / 16) (b mod 16)
           else if zlen bs <? used + n then 0 else 1 + used,
           Some (mkHeader (b / 16) (b mod 16) n))
      end
  end.

(** C32: reading a fixed header: within the [bufsz] bytes stated, whatever they are,
    [mqtt_unpack_fixed_header] gives exactly what they are - 0 when they are the
    beginning of a packet of which bytes are missing, the error of a remaining length
    of more than four bytes, of a type that does not exist or of flags the type does
    not have, and otherwise, for a packet that is all there, the size of its header;
    whenever the length can be read, the structure holds the type, the flags and the
    length.  A positive result is a size of two to five bytes with the body inside
    the buffer; no other byte is read. *)
Theorem unpack_fixed_header_total h0 buf bufsz : bytes_ok buf -> 0 <= bufsz <= zlen buf ->
  let '(rv, header) := header_reading h0 (take (Z.to_nat bufsz) buf) in
  exists h, mqtt_unpack_fixed_header h0 (Some buf) bufsz = Some (rv, h)
    /\ match header with Some header => h = header | None => True end
    /\ (0 < rv -> 2 <= rv <= 5 /\ 0 <= remaining_length h <= bufsz - rv).
Proof.
  intros Hbuf Hb. unfold mqtt_unpack_fixed_header.
  destruct (Z.eqb_spec bufsz 0) as [->|Hne]; [by exists h0|].
  destruct buf as [|b buf]; [cbn in Hb; lia|]. replace (Z.to_nat bufsz) with (S (Z.to_nat (bufsz - 1))) by lia.
  cbn [take header_reading]. change (rd8 (b :: buf) 0) with (Some b). rewrite bind_Some.
  pose proof Hbuf as Hall. inversion_clear Hall as [|? ? Hbyte Hbuf'].
  destruct (unpack_length_reads 4 5 (b :: buf) 0 bufsz 0 0) as (r & len & -> & Hr); try done; try lia.
  change (drop (Z.to_nat (0 + 1)) (b :: buf)) with buf in Hr. rewrite bind_Some. cbv zeta.
  set (bs := take (Z.to_nat (bufsz - 1)) buf) in *.
  assert (Hbs : zlen bs = bufsz - 1) by (unfold bs; cbn [length] in Hb; rewrite length_take; lia).
  assert (bytes_ok bs) as Hbok by (by apply Forall_take). pose proof (read_length_bounds 4 bs Hbok) as Hrange.
  destruct (read_length 4 bs) as [| |n used].
  { subst r. by eexists. }
  { subst r. eexists. split; [done|]. split; [done|]. by intros ?. }
  destruct Hr as [-> ->]. replace (0 + n * 2 ^ 0) with n by lia.
  rewrite Z.shiftr_div_pow2 by lia. change (2 ^ 4) with 16. change 0x0F with (Z.ones 4). rewrite Z.land_ones by lia. change (2 ^ 4) with 16.
  rewrite rule_violation_spec, bind_Some by zlia. set (e := header_rule _ _). eexists.
  destruct (Z.eqb_spec e 0) as [E|E]; cbn [negb remaining_length].
  - rewrite Hbs. replace (bufsz - used - 1 <? n) with (bufsz - 1 <? used + n) by (apply eq_true_iff_eq; rewrite !Z.ltb_lt; lia).
    zcase; (split; [do 2 f_equal; lia|]); (split; [done|]); cbn [remaining_length]; intros ?; lia.
  - split; [done|]. split; [done|]. intros Hpos. exfalso. revert Hpos. unfold e, header_rule. repeat case_if; by vm_compute.
Qed.

(** ** Bodies

    A step of a packer that writes [body] where the last one stopped. *)

Definition writes (k : Z -> list Z -> option (Z * list Z)) (body : list Z) : Prop :=
  forall pre rest, zlen body <= zlen rest ->
    k (zlen pre) (pre ++ rest) = Some (zlen pre + zlen body, pre ++ body ++ drop (length body) rest).

Lemma writes_ext k k' body : (forall pos m, k pos m = k' pos m) -> writes k' body -> writes k body.
Proof. intros E H pre rest Hr. rewrite E. by apply H. Qed.

Lemma writes_nil : writes (fun pos m => Some (pos, m)) [].
Proof. intros pre rest _. cbn. by rewrite Z.add_0_r. Qed.

Lemma writes_bind k1 k2 b1 b2 : writes k1 b1 -> writes k2 b2 ->
  writes (fun pos m => '(pos, m) ← k1 pos m; k2 pos m) (b1 ++ b2).
Proof.
  intros H1 H2 pre rest Hr. rewrite length_app in Hr. rewrite H1, bind_Some by lia.
  rewrite app_assoc, <- Nat2Z.inj_add, <- length_app, H2 by (rewrite length_drop; lia).
  rewrite !length_app, drop_drop, <- !app_assoc, !Nat2Z.inj_add. by rewrite Z.add_assoc.
Qed.

Lemma writes_bytes d n : n = zlen d -> writes (fun pos m => m ← wr_bytes m pos d; Some (pos + n, m)) d.
Proof. intros -> pre rest Hr. by rewrite wr_bytes_app by done. Qed.

Lemma writes_byte x : writes (fun pos m => m ← wr8 m pos x; Some (pos + 1, m)) [u8 x].
Proof. intros pre [|y rest] Hr; [cbn in Hr; lia|]. by rewrite wr8_snoc. Qed.

Lemma writes_memcpy d n : n = zlen d -> writes (fun pos m => m ← memcpy m pos d 0 n; Some (pos + n, m)) d.
Proof.
  intros -> pre rest Hr. rewrite memcpy_app by lia. by rewrite bind_Some, Nat2Z.id, take_ge by done.
Qed.

Lemma net16_length v : length (net16 v) = 2%nat.
Proof. done. Qed.
#[local] Hint Rewrite net16_length : bblen.

Lemma str_bytes_length s : length (str_bytes s) = (2 + length s)%nat.
Proof. done. Qed.

Lemma writes_str s : zlen s < 65536 -> writes (fun pos m => '(n, m) ← __mqtt_pack_str m pos s; Some (pos + n, m)) (str_bytes s).
Proof.
  intros Hs. unfold __mqtt_pack_str. rewrite u16_id by lia.
  eapply writes_ext; [|apply (writes_bind (fun pos m => m ← wr_bytes m pos (net16 (zlen s)); Some (pos + 2, m))
     (fun pos m => m ← wr_bytes m pos s; Some (pos + zlen s, m))); by apply writes_bytes].
  intros pos m. rewrite Nat2Z.id, take_ge by done.
  destruct (wr_bytes m pos (net16 (zlen s))) as [m1|]; [|done]. rewrite !bind_Some.
  destruct (wr_bytes m1 (pos + 2) s) as [m2|]; [|done]. rewrite !bind_Some. f_equal. f_equal. lia.
Qed.

(** The outcome of a packer: the packet when it fits, else nothing is promised of the
    buffer but its length. *)
Definition packs (r : option (Z * list Z)) (m : list Z) (bufsz : Z) (packet : list Z) : Prop :=
  exists m', r = Some (if zlen packet <=? bufsz then zlen packet else 0, m') /\ length m' = length m
    /\ (zlen packet <= bufsz -> m' = packet ++ drop (length packet) m).

Lemma with_header_packs m bufsz h k body : header_ok h -> 0 <= bufsz <= zlen m ->
  remaining_length h = zlen body -> writes k body ->
  packs (with_header m bufsz h (remaining_length h) k) m bufsz (header_bytes h ++ body).
Proof.
  intros Hh Hb Hlen Hk. pose proof (header_len_bounds h Hh) as Hl. unfold packs, with_header.
  destruct (pack_header_spec m bufsz h Hh Hb) as (m' & -> & Hm' & Hw). rewrite bind_Some.
  rewrite length_app, Nat2Z.inj_add, <- Hlen.
  destruct (Z.leb_spec (header_len h + remaining_length h) bufsz).
  - zfalse (header_len h <=? 0). zfalse (bufsz - header_len h <? remaining_length h).
    rewrite (Hw eq_refl), Hk by (rewrite length_drop; lia). rewrite <- Hlen. eexists. split; [done|].
    rewrite <- app_assoc, drop_drop. split; [rewrite !length_app, length_drop; lia | done].
  - exists m'. split; [done|]. split; [done|]. lia.
Qed.

Lemma header_packs m bufsz h : header_ok h -> 0 <= bufsz <= zlen m -> remaining_length h = 0 ->
  packs (mqtt_pack_fixed_header m bufsz h) m bufsz (header_bytes h).
Proof.
  intros Hh Hb H0. unfold packs.
  destruct (pack_header_spec m bufsz h Hh Hb) as (m' & -> & Hm' & Hw). rewrite H0, Z.add_0_r in *.
  exists m'. split; [done|]. split; [done|]. intros Hfit. apply Hw. by apply Z.leb_le.
Qed.

(** ** Reading back *)

Lemma rdnet16_app pre v rest : rdnet16 (pre ++ net16 v ++ rest) (zlen pre) = Some (u16 v).
Proof.
  unfold rdnet16, rd16, rd8. rewrite !(znth_app_r pre), Z.sub_diag, Z.add_simpl_l by lia.
  change (Some (u16 v / 256 * 256 + u16 v mod 256) = Some (u16 v)). f_equal. zlia.
Qed.

Lemma rdnet16_head v rest : rdnet16 (net16 v ++ rest) 0 = Some (u16 v).
Proof. apply (rdnet16_app []). Qed.

Lemma rdnet16_str s rest : zlen s < 65536 -> rdnet16 (str_bytes s ++ rest) 0 = Some (zlen s).
Proof. intros. unfold str_bytes. by rewrite <- app_assoc, rdnet16_head, u16_id by lia. Qed.

Lemma u32_sub2 r a b : 0 <= a -> 0 <= b -> a + b <= r < 65536 -> u32 (u32 (r - a) - b) = r - a - b.
Proof. intros. rewrite (u32_id (r - a)), u32_id; lia. Qed.

(** A string of a packet is the text [s]. *)
Definition denotes (buf : list Z) (c : c_string) (s : list Z) : Prop :=
  rd_bytes buf (str c) (string_len c) = Some s.

Lemma str_denotes pre s rest : zlen s < 65536 ->
  unpack_string (pre ++ str_bytes s ++ rest) (zlen pre)
    = Some (mkCString (zlen s) (zlen pre + 2), zlen pre + zlen (str_bytes s))
  /\ denotes (pre ++ str_bytes s ++ rest) (mkCString (zlen s) (zlen pre + 2)) s.
Proof.
  intros Hs. unfold unpack_string, denotes, str_bytes. cbn [str string_len]. split.
  - rewrite <- (app_assoc (net16 _)), rdnet16_app, bind_Some, u16_id by lia.
    rewrite length_app, net16_length. f_equal. f_equal. lia.
  - rewrite <- (app_assoc (net16 _)), (app_assoc pre). apply rd_bytes_app; [rewrite length_app; cbn; lia | done].
Qed.

(** The unpacker that [mqtt_unpack_response] calls, the header being [n] bytes. *)
Definition unpack_body (h : mqtt_fixed_header) (body : list Z) (n : Z) : option (Z * option mqtt_decoded) :=
  if control_type h =? MQTT_CONTROL_CONNECT
  then c ← mqtt_unpack_connect_response [0; 0; 0; 0] body; Some (n, Some (DConnect c))
  else if control_type h =? MQTT_CONTROL_CONNACK then mqtt_unpack_connack_response h body
  else if control_type h =? MQTT_CONTROL_PUBLISH then mqtt_unpack_publish_response h body
  else if control_type h =? MQTT_CONTROL_SUBSCRIBE
  then d ← mqtt_unpack_subscribe_response h body; Some (n, Some d)
  else if control_type h =? MQTT_CONTROL_SUBACK then mqtt_unpack_suback_response h body
  else if control_type h =? MQTT_CONTROL_UNSUBACK then mqtt_unpack_unsuback_response h body
  else mqtt_unpack_pubxxx_response h body.

Lemma unpack_response_spec h h0 body bufsz rv d : header_ok h -> header_len h + remaining_length h <= bufsz ->
  bool_decide (control_type h ∈ [1; 2; 3; 4; 5; 6; 7; 8; 9; 11]) -> unpack_body h body (header_len h) = Some (rv, d) -> 0 <= rv ->
  mqtt_unpack_response h0 (header_bytes h ++ body) bufsz = Some (header_len h + rv, h, d).
Proof.
  intros Hh Hb Ht Hu Hrv. unfold mqtt_unpack_response. rewrite unpack_header_spec, bind_Some by done.
  pose proof (header_len_bounds h Hh). zfalse (header_len h <=? 0). rewrite Nat2Z.id, drop_app_length.
  unfold unpack_body in Hu. apply bool_decide_unpack in Ht. rewrite !elem_of_cons in Ht.
  destruct_or? Ht; try (by apply elem_of_nil in Ht).
  all: rewrite Ht in *; cbn -[Z.lt] in Hu |- *; rewrite Hu, bind_Some; by zfalse (rv <? 0).
Qed.

(** A packet that is read as [d], whatever the response held before and whatever follows. *)
Definition reads_as (packet : list Z) (h : mqtt_fixed_header) (d : mqtt_decoded) : Prop :=
  forall h0 rest sz, zlen packet <= sz ->
    mqtt_unpack_response h0 (packet ++ rest) sz = Some (zlen packet, h, Some d)
    /\ mqtt_unpack_fixed_header h0 (Some (packet ++ rest)) sz = Some (header_len h, h).

Lemma reads_as_intro h body d : header_ok h -> remaining_length h = zlen body ->
  bool_decide (control_type h ∈ [1; 2; 3; 4; 5; 6; 7; 8; 9; 11]) ->
  (forall rest, unpack_body h (body ++ rest) (header_len h) = Some (zlen body, Some d)) ->
  reads_as (header_bytes h ++ body) h d.
Proof.
  intros Hh Hlen Ht Hu h0 rest sz Hsz. rewrite length_app, Nat2Z.inj_add in *. rewrite <- app_assoc.
  split; [|apply unpack_header_spec; [done | lia]].
  by apply unpack_response_spec; [done | lia | done | apply Hu | lia].
Qed.

(** ** PUBLISH *)

Definition publish_qos (flags : Z) : Z := Z.land flags 6 / 2.

(** A message of quality 0 is never a duplicate. *)
Definition publish_header (flags len : Z) : mqtt_fixed_header :=
  mkHeader MQTT_CONTROL_PUBLISH (if publish_qos flags =? 0 then Z.land flags 7 else flags) len.

Definition publish_body (topic : list Z) (id : Z) (msg : list Z) (flags : Z) : list Z :=
  str_bytes topic ++ (if publish_qos flags >? 0 then net16 id else []) ++ msg.

Definition publish_packet (topic : list Z) (id : Z) (msg : list Z) (flags : Z) : list Z :=
  let body := publish_body topic id msg flags in header_bytes (publish_header flags (zlen body)) ++ body.

Lemma publish_flags_cases flags len : 0 <= flags < 16 ->
  let h := publish_header flags len in
  Z.shiftr (Z.land flags 0x06) 1 = publish_qos flags
  /\ make_header MQTT_CONTROL_PUBLISH
       (if publish_qos flags =? 0 then u8 (Z.land flags (Z.lnot MQTT_PUBLISH_DUP)) else flags) len
     = mkHeader MQTT_CONTROL_PUBLISH (control_flags h) (u32 len)
  /\ 0 <= control_flags h < 16 /\ 0 <= publish_qos flags <= 3
  /\ Z.shiftr (Z.land (control_flags h) MQTT_PUBLISH_DUP) 3 = (if publish_qos flags =? 0 then 0 else flags / 8)
  /\ Z.shiftr (Z.land (control_flags h) 0x06) 1 = publish_qos flags
  /\ Z.land (control_flags h) MQTT_PUBLISH_RETAIN = flags mod 2.
Proof.
  intros Hf. cbn zeta. unfold make_header, publish_header. cbn [control_flags].
  set (f := if publish_qos flags =? 0 then Z.land flags 7 else flags).
  set (g := if publish_qos flags =? 0 then u8 (Z.land flags (Z.lnot MQTT_PUBLISH_DUP)) else flags).
  enough (Z.shiftr (Z.land flags 0x06) 1 = publish_qos flags /\ Z.land g 15 = f
    /\ (0 <=? f) && (f <? 16) = true /\ (0 <=? publish_qos flags) && (publish_qos flags <=? 3) = true
    /\ Z.shiftr (Z.land f MQTT_PUBLISH_DUP) 3 = (if publish_qos flags =? 0 then 0 else flags / 8)
    /\ Z.shiftr (Z.land f 0x06) 1 = publish_qos flags /\ Z.land f MQTT_PUBLISH_RETAIN = flags mod 2)
    as (? & -> & Hr & Hq & ?) by (zbool; split_and!; first [done | lia | tauto]).
  assert (Hin : flags ∈ seqZ 0 16) by (apply elem_of_seqZ; lia). clear Hf.
  unfold f, g. vm_compute in Hin. repeat (apply elem_of_cons in Hin as [->|Hin]; [by vm_compute|]).
  by apply elem_of_nil in Hin.
Qed.

Lemma publish_header_ok flags len : 0 <= flags < 16 -> 0 <= len < 2 ^ 28 -> header_ok (publish_header flags len).
Proof.
  intros Hf Hlen. destruct (publish_flags_cases flags len Hf) as (_ & _ & ? & _).
  by split; cbn [control_type control_flags remaining_length].
Qed.

Lemma publish_body_length topic id msg flags :
  zlen (publish_body topic id msg flags)
  = 2 + zlen topic + (if publish_qos flags >? 0 then 2 else 0) + zlen msg.
Proof. unfold publish_body. rewrite !length_app, str_bytes_length. case_if; len. Qed.

Lemma publish_packs m bufsz topic id msg flags :
  0 <= flags < 16 -> publish_qos flags <> 3 -> 0 <= bufsz <= zlen m ->
  zlen (publish_body topic id msg flags) < 65536 ->
  packs (mqtt_pack_publish_request m bufsz (Some topic) id msg (zlen msg) flags) m bufsz
    (publish_packet topic id msg flags).
Proof.
  intros Hf Hq Hb Hlen. unfold publish_packet. cbv zeta. set (body := publish_body topic id msg flags) in *.
  destruct (publish_flags_cases flags (zlen body) Hf) as (Eq & Eh & _ & Hqr & _).
  pose proof (publish_header_ok flags (zlen body) Hf ltac:(lia)) as Hok.
  unfold mqtt_pack_publish_request. cbv zeta. rewrite Eq. zfalse (publish_qos flags =? 3).
  assert (Elen : u16 ((if publish_qos flags >? 0 then u16 (u16 (packed_cstrlen topic) + 2) else u16 (packed_cstrlen topic))
                      + zlen msg) = zlen body).
  { unfold body, packed_cstrlen in *. rewrite publish_body_length in *. destruct (publish_qos flags >? 0).
    all: rewrite (u16_id (2 + zlen topic)) by lia; rewrite ?(u16_id (2 + zlen topic + 2)) by lia; rewrite u16_id; lia. }
  rewrite Elen, Eh, u32_id by lia. apply (with_header_packs m bufsz (publish_header flags (zlen body))); [done..|].
  unfold body, publish_body in *. rewrite length_app, str_bytes_length in Hlen.
  assert (Hid : writes (fun pos m => if publish_qos flags >? 0 then m ← wr_bytes m pos (net16 id); Some (pos + 2, m)
      else Some (pos, m)) (if publish_qos flags >? 0 then net16 id else [])).
  { destruct (publish_qos flags >? 0); [by apply writes_bytes | apply writes_nil]. }
  eapply writes_ext; [|apply (writes_bind _ _ _ _ (writes_str topic ltac:(lia))
                                (writes_bind _ _ _ _ Hid (writes_memcpy msg _ eq_refl)))].
  intros pos m1. cbn beta. by destruct (__mqtt_pack_str m1 pos topic) as [[n m2]|].
Qed.

Definition publish_decoded (topic : list Z) (id : Z) (msg : list Z) (flags : Z) : response_publish :=
  mkPublish (if publish_qos flags =? 0 then 0 else flags / 8) (publish_qos flags) (flags mod 2)
    (mkCString (zlen topic) 2) (if publish_qos flags >? 0 then Some id else None)
    (2 + zlen topic + (if publish_qos flags >? 0 then 2 else 0)) (zlen msg).

Definition message_text (p : response_publish) : c_string :=
  mkCString (application_message_size p) (application_message p).

Lemma publish_unpacks h topic id msg flags rest :
  0 <= flags < 16 -> is_u16 id -> h = publish_header flags (zlen (publish_body topic id msg flags)) ->
  4 <= remaining_length h < 65536 ->
  let body := publish_body topic id msg flags in
  let p := publish_decoded topic id msg flags in
  mqtt_unpack_publish_response h (body ++ rest) = Some (zlen body, Some (DPublish p))
  /\ denotes (body ++ rest) (topic_name p) topic /\ denotes (body ++ rest) (message_text p) msg.
Proof.
  intros Hf Hid Hh Hlen body p. set (text := 2 + zlen topic + (if publish_qos flags >? 0 then 2 else 0)).
  assert (Hbody : zlen body = text + zlen msg) by apply publish_body_length.
  assert (Hrem : remaining_length h = zlen body) by (by rewrite Hh).
  destruct (publish_flags_cases flags (zlen body) Hf) as (_ & _ & _ & Hqr & Ed & Eq & Er).
  assert (Hcf : control_flags h = control_flags (publish_header flags (zlen body))) by (by rewrite Hh).
  set (ids := if publish_qos flags >? 0 then net16 id else []).
  assert (Hsplit : body ++ rest = str_bytes topic ++ ids ++ msg ++ rest)
    by (unfold body, publish_body; by rewrite <- !app_assoc).
  assert (Hstr : zlen (str_bytes topic) = 2 + zlen topic) by (rewrite str_bytes_length; lia).
  assert (Htext : zlen (str_bytes topic ++ ids) = text).
  { unfold text, ids. rewrite length_app, Nat2Z.inj_add, Hstr. by case_if. }
  assert (Ht : zlen topic < 65536) by (unfold text in *; destruct (publish_qos flags >? 0); lia).
  rewrite Hsplit. split_and!.
  - unfold mqtt_unpack_publish_response. cbv zeta. rewrite Hcf, Ed, Eq, Er. zfalse (remaining_length h <? 4).
    rewrite rdnet16_str, bind_Some by lia.
    unfold p, publish_decoded, text, ids in *. destruct (Z.gtb_spec (publish_qos flags) 0) as [Hq|Hq].
    + rewrite <- Hstr, rdnet16_app, !bind_Some, u16_id by lia. zfalse (publish_qos flags =? 0).
      rewrite u32_sub2 by lia. f_equal. f_equal; [lia|]. do 2 f_equal. rewrite Hstr. f_equal; lia.
    + rewrite !bind_Some. ztrue (publish_qos flags =? 0).
      rewrite u32_sub2 by lia. f_equal. f_equal; [lia|]. do 2 f_equal. f_equal; lia.
  - apply (str_denotes [] topic (ids ++ msg ++ rest)). lia.
  - unfold denotes. cbn [str string_len]. rewrite app_assoc. by apply rd_bytes_app.
Qed.

Lemma publish_reads topic id msg flags :
  0 <= flags < 16 -> is_u16 id -> 4 <= zlen (publish_body topic id msg flags) < 65536 ->
  reads_as (publish_packet topic id msg flags) (publish_header flags (zlen (publish_body topic id msg flags)))
    (DPublish (publish_decoded topic id msg flags)).
Proof.
  intros Hf Hid Hlen. apply reads_as_intro; try done; [apply publish_header_ok; lia|].
  intros rest. by destruct (publish_unpacks _ topic id msg flags rest Hf Hid eq_refl Hlen) as (Eu & _).
Qed.

(** C31: a PUBLISH packet round-trips: when the packet fits, [mqtt_pack_publish_request]
    writes one packet that [mqtt_unpack_response] reads back, whatever follows it, with
    the quality of service, retain and duplicate flags, identifier, topic and message
    given; when it does not fit the packer returns 0.  Packets of less than four bytes
    behind the header or of 65536 and more are excluded. *)
Theorem publish_roundtrip m bufsz topic id msg flags :
  0 <= flags < 16 -> publish_qos flags <> 3 -> is_u16 id -> 0 <= bufsz <= zlen m ->
  4 <= zlen (publish_body topic id msg flags) < 65536 ->
  exists packet,
    packs (mqtt_pack_publish_request m bufsz (Some topic) id msg (zlen msg) flags) m bufsz packet
    /\ forall h0 rest sz, zlen packet <= sz ->
       exists n h p, mqtt_unpack_response h0 (packet ++ rest) sz = Some (zlen packet, h, Some (DPublish p))
         /\ qos_level p = publish_qos flags /\ retain_flag p = flags mod 2
         /\ dup_flag p = (if publish_qos flags =? 0 then 0 else flags / 8)
         /\ publish_id p = (if publish_qos flags >? 0 then Some id else None)
         /\ denotes (drop n (packet ++ rest)) (topic_name p) topic
         /\ denotes (drop n (packet ++ rest)) (message_text p) msg.
Proof.
  intros Hf Hq Hid Hb Hlen. exists (publish_packet topic id msg flags).
  split; [apply publish_packs; try done; lia|]. intros h0 rest sz Hsz.
  destruct (publish_reads topic id msg flags Hf Hid Hlen h0 rest sz Hsz) as [E _].
  destruct (publish_unpacks _ topic id msg flags rest Hf Hid eq_refl Hlen) as (_ & Ht & Hm).
  set (h := publish_header _ _) in *. exists (length (header_bytes h)), h, (publish_decoded topic id msg flags).
  unfold publish_packet. cbv zeta. fold h. rewrite <- app_assoc, drop_app_length.
  unfold publish_packet in E. cbv zeta in E. fold h in E. rewrite <- app_assoc in E. by split_and!.
Qed.

(** The smallest message: a topic of one byte and no text is packed into a packet that
    the unpacker of this file rejects. *)
Example publish_three_bytes :
  let packet := [0x30; 3; 0; 1; 97] in
  mqtt_pack_publish_request (zeros 5) 5 (Some [97]) 0 [] 0 0 = Some (5, packet)
  /\ mqtt_unpack_response (mkHeader 0 0 0) packet 5
     = Some (mqtt_error MQTT_ERROR_MALFORMED_RESPONSE, mkHeader 3 0 3, None).
Proof. by vm_compute. Qed.

(** A message of 65533 bytes and more: the length is kept in 16 bits, the size check
    passes and the copy leaves the buffer. *)
Example publish_long_message :
  mqtt_pack_publish_request (zeros 8) 8 (Some [97]) 0 (zeros 65534) 65534 0 = None.
Proof. by vm_compute. Qed.

(** The length of the topic is not compared with the length of the packet: the size of
    the message wraps around. *)
Example publish_topic_too_long :
  mqtt_unpack_response (mkHeader 0 0 0) [0x30; 4; 255; 255; 0; 0] 6
  = Some (4294967302, mkHeader 3 0 4, Some (DPublish (mkPublish 0 0 0 (mkCString 65535 2) None 65537 4294901763))).
Proof. by vm_compute. Qed.

(** ** Acknowledgements and packets without a body *)

Definition ack_header (type : Z) : mqtt_fixed_header :=
  mkHeader type (if type =? MQTT_CONTROL_PUBREL then 2 else 0) 2.

Definition ack_decoded (type id : Z) : mqtt_decoded :=
  if type =? MQTT_CONTROL_PUBACK then DPuback id
  else if type =? MQTT_CONTROL_PUBREC then DPubrec id
  else if type =? MQTT_CONTROL_PUBREL then DPubrel id
  else DPubcomp id.

Definition ack_types : list Z :=
  [MQTT_CONTROL_PUBACK; MQTT_CONTROL_PUBREC; MQTT_CONTROL_PUBREL; MQTT_CONTROL_PUBCOMP].

Definition ack_packet (type id : Z) : list Z := header_bytes (ack_header type) ++ net16 id.

Lemma ack_types_ind (P : Z -> Prop) :
  P MQTT_CONTROL_PUBACK -> P MQTT_CONTROL_PUBREC -> P MQTT_CONTROL_PUBREL -> P MQTT_CONTROL_PUBCOMP ->
  forall type, bool_decide (type ∈ ack_types) -> P type.
Proof.
  intros H1 H2 H3 H4 type Ht%bool_decide_unpack. unfold ack_types in Ht. rewrite !elem_of_cons in Ht.
  destruct_or? Ht; [by subst..|]. by apply elem_of_nil in Ht.
Qed.

Lemma ack_header_facts type : bool_decide (type ∈ ack_types) ->
  header_ok (ack_header type) /\ header_len (ack_header type) = 2
  /\ make_header type (control_flags (ack_header type)) 2 = ack_header type
  /\ bool_decide (control_type (ack_header type) ∈ [1; 2; 3; 4; 5; 6; 7; 8; 9; 11])
  /\ (forall body, mqtt_unpack_pubxxx_response (ack_header type) body
       = (id ← rdnet16 body 0; Some (2, Some (ack_decoded type id))))
  /\ (forall body n, unpack_body (ack_header type) body n = mqtt_unpack_pubxxx_response (ack_header type) body).
Proof.
  revert type. apply ack_types_ind; repeat split; cbn; try done; lia.
Qed.

Lemma ack_packet_length type id : bool_decide (type ∈ ack_types) -> zlen (ack_packet type id) = 4.
Proof.
  intros Ht. destruct (ack_header_facts type Ht) as (_ & Hl & _). unfold ack_packet.
  rewrite length_app, net16_length. lia.
Qed.

Lemma ack_packs m bufsz type id : bool_decide (type ∈ ack_types) -> 0 <= bufsz <= zlen m ->
  packs (mqtt_pack_pubxxx_request m bufsz type id) m bufsz (ack_packet type id).
Proof.
  intros Ht Hb. destruct (ack_header_facts type Ht) as (Hh & _ & Em & _).
  unfold mqtt_pack_pubxxx_request. cbv zeta. change (if type =? MQTT_CONTROL_PUBREL then 2 else 0)
    with (control_flags (ack_header type)). rewrite Em.
  apply (with_header_packs m bufsz (ack_header type)); [done..|]. by apply writes_bytes.
Qed.

Lemma ack_reads type id : bool_decide (type ∈ ack_types) -> is_u16 id ->
  reads_as (ack_packet type id) (ack_header type) (ack_decoded type id).
Proof.
  intros Ht Hid. destruct (ack_header_facts type Ht) as (Hh & Hl & _ & Hty & Hu & Hb).
  apply reads_as_intro; [done..|]. intros rest.
  by rewrite Hb, Hu, rdnet16_head, bind_Some, u16_id.
Qed.

(** An acknowledgement of a publication (PUBACK, PUBREC, PUBREL or PUBCOMP) is packed
    into four bytes, or not at all, and read back, whatever follows it, as an
    acknowledgement of the same kind with the same identifier. *)
Theorem pubxxx_roundtrip m bufsz type id :
  bool_decide (type ∈ ack_types) -> is_u16 id -> 0 <= bufsz <= zlen m ->
  exists packet, zlen packet = 4 /\ packs (mqtt_pack_pubxxx_request m bufsz type id) m bufsz packet
    /\ forall h0 rest sz, 4 <= sz ->
       mqtt_unpack_response h0 (packet ++ rest) sz = Some (4, ack_header type, Some (ack_decoded type id)).
Proof.
  intros Ht Hid Hb. pose proof (ack_packet_length type id Ht) as Hl. exists (ack_packet type id).
  split; [done|]. split; [by apply ack_packs|]. intros h0 rest sz Hsz. rewrite <- Hl in Hsz.
  destruct (ack_reads type id Ht Hid h0 rest sz Hsz) as [E _]. by rewrite <- Hl.
Qed.

(** ** SUBSCRIBE and UNSUBSCRIBE *)

Definition topic_bytes (t : list Z * Z) : list Z := str_bytes t.1 ++ [u8 t.2].
Definition subscribe_body (id : Z) (topics : list (list Z * Z)) : list Z := net16 id ++ concat (map topic_bytes topics).
Definition unsubscribe_body (id : Z) (topics : list (list Z)) : list Z := net16 id ++ concat (map str_bytes topics).

(** A sum of sizes as the packers compute it. *)
Lemma fold_sizes {A} (size : A -> list Z) (f : A -> Z) l acc :
  (forall t, f t = zlen (size t)) -> 0 <= acc -> acc + zlen (concat (map size l)) < 2 ^ 28 ->
  fold_left (fun len t => u32 (len + f t)) l acc = acc + zlen (concat (map size l)).
Proof.
  intros Hf. revert acc. induction l as [|t l IH]; intros acc H0 Hlt; cbn in *; [lia|].
  rewrite length_app in *. rewrite Hf, u32_id, IH by lia. lia.
Qed.

(** A loop that writes one item after the other. *)
Lemma writes_fold {A} (k : A -> Z -> list Z -> option (Z * list Z)) (bytes : A -> list Z) l :
  Forall (fun t => writes (k t) (bytes t)) l ->
  writes (fun pos m => foldl (fun r t => '(pos, m) ← r; k t pos m) (Some (pos, m)) l) (concat (map bytes l)).
Proof.
  induction 1 as [|t l Ht _ IH]; cbn; [apply writes_nil|].
  eapply writes_ext; [|apply (writes_bind _ _ _ _ Ht IH)]. intros pos m. cbn.
  destruct (k t pos m) as [[p m']|]; [done|]. cbn. clear. by induction l.
Qed.

Lemma writes_topic (t : list Z * Z) : zlen t.1 < 65536 ->
  writes (fun pos m => '(n, m) ← __mqtt_pack_str m pos t.1; m ← wr8 m (pos + n) t.2; Some (pos + n + 1, m)) (topic_bytes t).
Proof.
  intros Ht. eapply writes_ext; [|apply (writes_bind _ _ _ _ (writes_str t.1 Ht) (writes_byte t.2))].
  intros pos m. cbn beta. by destruct (__mqtt_pack_str m pos t.1) as [[n m']|].
Qed.

Lemma list_header_ok type len : type = MQTT_CONTROL_SUBSCRIBE \/ type = MQTT_CONTROL_UNSUBSCRIBE ->
  0 <= len < 2 ^ 28 -> header_ok (mkHeader type 2 len) /\ make_header type 2 len = mkHeader type 2 len.
Proof.
  intros Ht Hl. unfold make_header. rewrite u32_id by lia.
  split; [|done]. destruct Ht as [-> | ->]; split; cbn; try done; lia.
Qed.

Lemma concat_bound {A} (size : A -> list Z) c l :
  Forall (fun t => zlen (size t) <= c) l -> zlen (concat (map size l)) <= c * zlen l.
Proof. induction 1; cbn [map concat]; rewrite ?length_app; cbn [length]; lia. Qed.

(** The two requests differ in the size and the writer of a topic. *)
Lemma list_packs {A} type (size : A -> list Z) (f : A -> Z) (k : A -> Z -> list Z -> option (Z * list Z)) m bufsz id l :
  type = MQTT_CONTROL_SUBSCRIBE \/ type = MQTT_CONTROL_UNSUBSCRIBE ->
  zlen l < 8 -> 0 <= bufsz <= zlen m -> (forall t, f t = zlen (size t)) ->
  Forall (fun t => zlen (size t) <= 65538) l -> Forall (fun t => writes (k t) (size t)) l ->
  let body := net16 id ++ concat (map size l) in
  let len := fold_left (fun len t => u32 (len + f t)) l 2 in
  let h := make_header type 2 len in
  h = mkHeader type 2 (zlen body) /\ header_ok h
  /\ packs (with_header m bufsz h len (fun rv m =>
        m ← wr_bytes m rv (net16 id);
        foldl (fun r t => '(pos, m) ← r; k t pos m) (Some (rv + 2, m)) l)) m bufsz (header_bytes h ++ body).
Proof.
  intros Ht Hn Hb Hf Hsz Hw body len h. pose proof (concat_bound size 65538 l Hsz) as Hc.
  assert (Hlen : len = zlen body).
  { unfold len, body. rewrite (fold_sizes size) by (done || lia). rewrite length_app, net16_length. lia. }
  assert (Hr : 0 <= len < 2 ^ 28) by (rewrite Hlen; unfold body; rewrite length_app, net16_length; lia).
  unfold h. destruct (list_header_ok type len Ht Hr) as [Hok ->]. rewrite <- Hlen.
  split; [done|]. split; [done|]. apply (with_header_packs m bufsz (mkHeader type 2 len)); [done|done|done|].
  eapply writes_ext; [|apply (writes_bind _ _ _ _ (writes_bytes (net16 id) 2 eq_refl) (writes_fold k size l Hw))].
  intros pos m1. cbn beta. by destruct (wr_bytes m1 pos (net16 id)).
Qed.

Definition subscribe_item (t : list Z * Z) (pos : Z) (m : list Z) : option (Z * list Z) :=
  '(n, m) ← __mqtt_pack_str m pos t.1; m ← wr8 m (pos + n) t.2; Some (pos + n + 1, m).
Definition unsubscribe_item (t : list Z) (pos : Z) (m : list Z) : option (Z * list Z) :=
  '(n, m) ← __mqtt_pack_str m pos t; Some (pos + n, m).

Lemma subscribe_packs m bufsz id topics :
  zlen topics < 8 -> 0 <= bufsz <= zlen m -> Forall (fun t => zlen t.1 < 65536) topics ->
  let h := mkHeader MQTT_CONTROL_SUBSCRIBE 2 (zlen (subscribe_body id topics)) in
  packs (mqtt_pack_subscribe_request m bufsz id topics) m bufsz (header_bytes h ++ subscribe_body id topics)
  /\ header_ok h.
Proof.
  intros Hn Hb Ht h. unfold mqtt_pack_subscribe_request, MAX_NUM_TOPICS. zfalse (zlen topics >=? 8).
  destruct (list_packs MQTT_CONTROL_SUBSCRIBE topic_bytes (fun t => packed_cstrlen t.1 + 1) subscribe_item m bufsz id topics
              ltac:(by left) Hn Hb) as (Hh & Hok & Hp).
  - intros t. unfold packed_cstrlen, topic_bytes. rewrite length_app, str_bytes_length. cbn [length]. lia.
  - eapply Forall_impl; [done|]. intros t Htt. unfold topic_bytes.
    rewrite length_app, str_bytes_length. cbn [length] in *. cbn beta in *. lia.
  - eapply Forall_impl; [done|]. apply writes_topic.
  - cbv zeta in *. rewrite Hh in *. done.
Qed.

(** [mqtt_pack_unsubscribe_request] with up to seven topics of less than 65536 bytes
    writes, when it fits, the identifier and each topic with its length behind a fixed
    header that states the length of what follows; else it returns 0. *)
Lemma unsubscribe_packs m bufsz id topics :
  zlen topics < 8 -> 0 <= bufsz <= zlen m -> Forall (fun t => zlen t < 65536) topics ->
  let h := mkHeader MQTT_CONTROL_UNSUBSCRIBE 2 (zlen (unsubscribe_body id topics)) in
  packs (mqtt_pack_unsubscribe_request m bufsz id topics) m bufsz (header_bytes h ++ unsubscribe_body id topics).
Proof.
  intros Hn Hb Ht h. unfold mqtt_pack_unsubscribe_request, MAX_NUM_TOPICS. zfalse (zlen topics >=? 8).
  destruct (list_packs MQTT_CONTROL_UNSUBSCRIBE str_bytes packed_cstrlen unsubscribe_item m bufsz id topics
              ltac:(by right) Hn Hb) as (Hh & _ & Hp).
  - intros t. unfold packed_cstrlen. rewrite str_bytes_length. lia.
  - eapply Forall_impl; [done|]. intros t Htt. cbn beta in *. rewrite str_bytes_length. lia.
  - eapply Forall_impl; [done|]. apply writes_str.
  - cbv zeta in *. by rewrite Hh in *.
Qed.

(** A payload read back: the text at the offset, and the quality of service. *)
Definition payload_of (buf : list Z) (t : list Z * Z) (p : Z * Z) : Prop :=
  rd_bytes buf p.1 (zlen t.1) = Some t.1 /\ p.2 = u8 t.2.

Lemma topic_bytes_length t : zlen (topic_bytes t) = zlen t.1 + 3.
Proof. unfold topic_bytes. rewrite length_app, str_bytes_length. cbn [length]. lia. Qed.

Lemma topic_reads pre (t : list Z * Z) rest : zlen t.1 < 65536 ->
  let buf := pre ++ topic_bytes t ++ rest in
  rdnet16 buf (zlen pre) = Some (zlen t.1) /\ rd8 buf (zlen pre + 2 + zlen t.1) = Some (u8 t.2)
  /\ rd_bytes buf (zlen pre + 2) (zlen t.1) = Some t.1.
Proof.
  intros Ht buf. unfold buf, topic_bytes, str_bytes. rewrite <- !app_assoc. split_and!.
  - by rewrite rdnet16_app, u16_id by lia.
  - unfold rd8. rewrite (app_assoc (net16 _)), (app_assoc pre), znth_app_r by (rewrite !length_app, net16_length; lia).
    rewrite !length_app, net16_length. by replace (_ - _) with 0 by lia.
  - rewrite (app_assoc pre). apply rd_bytes_app; [rewrite length_app, net16_length; lia | done].
Qed.

Lemma subscribe_loop_spec topics : forall fuel pre rest cur n,
  Forall (fun t => zlen t.1 < 65536) topics -> (length topics < fuel)%nat -> 0 <= n -> n + zlen topics <= PAYLOAD_MAX_CNT ->
  0 <= cur -> cur + zlen (concat (map topic_bytes topics)) < 2 ^ 28 ->
  let buf := pre ++ concat (map topic_bytes topics) ++ rest in
  exists ps, subscribe_loop fuel buf (zlen pre) cur (cur + zlen (concat (map topic_bytes topics))) n = Some ps
    /\ Forall2 (payload_of buf) topics ps.
Proof.
  induction topics as [|t topics IH]; intros fuel pre rest cur n Ht Hfuel Hn0 Hn Hc Hmax buf;
    (destruct fuel as [|fuel]; [lia|]); cbn [subscribe_loop map concat length] in *.
  { rewrite Z.add_0_r. zfalse (cur <? cur). by exists []. }
  apply Forall_cons in Ht as [Ht Hts]. pose proof (topic_bytes_length t) as Hl.
  rewrite length_app, Nat2Z.inj_add in *. set (tail := concat (map topic_bytes topics)) in *.
  ztrue (cur <? cur + (zlen (topic_bytes t) + zlen tail)).
  assert (E : buf = pre ++ topic_bytes t ++ (tail ++ rest)) by (unfold buf; by rewrite <- app_assoc).
  destruct (topic_reads pre t (tail ++ rest) Ht) as (H1 & H2 & H3). rewrite <- E in H1, H2, H3.
  rewrite H1, bind_Some, H2, bind_Some. unfold PAYLOAD_MAX_CNT in *. ztrue (n <? 10). cbn [negb].
  destruct (IH fuel (pre ++ topic_bytes t) rest (cur + (2 + zlen t.1 + 1)) (n + 1)) as (ps & Hps & Hall); [done|lia..|].
  rewrite <- app_assoc, <- E in Hps, Hall. rewrite u32_id by lia. rewrite length_app in Hps.
  replace (zlen pre + 2 + zlen t.1 + 1) with (Z.of_nat (length pre + length (topic_bytes t))) by lia.
  replace (cur + (zlen (topic_bytes t) + zlen tail)) with (cur + (2 + zlen t.1 + 1) + zlen tail) by lia.
  rewrite Hps. eexists. split; [done|]. by constructor.
Qed.

(** a SUBSCRIBE packet of up to seven topics round-trips: what
    [mqtt_pack_subscribe_request] writes, [mqtt_unpack_response] reads back as the same
    identifier and, in order, the offset of each topic's text and its quality of
    service.  The value returned is twice the size of the fixed header, since the
    unpacker of the body leaves the count of bytes alone. *)
Theorem subscribe_roundtrip m bufsz id topics :
  zlen topics < 8 -> is_u16 id -> 0 <= bufsz <= zlen m -> Forall (fun t => zlen t.1 < 65536) topics ->
  exists packet n, packs (mqtt_pack_subscribe_request m bufsz id topics) m bufsz packet
    /\ forall h0 rest sz, zlen packet <= sz ->
       exists h payloads, mqtt_unpack_response h0 (packet ++ rest) sz
           = Some (2 * Z.of_nat n, h, Some (DSubscribe id payloads))
         /\ Forall2 (payload_of (drop n (packet ++ rest))) topics payloads.
Proof.
  intros Hn Hid Hb Ht. destruct (subscribe_packs m bufsz id topics Hn Hb Ht) as [Hp Hok].
  cbv zeta in *. set (h := mkHeader MQTT_CONTROL_SUBSCRIBE 2 _) in *. set (body := subscribe_body id topics) in *.
  exists (header_bytes h ++ body), (length (header_bytes h)). split; [done|]. intros h0 rest sz Hsz.
  rewrite length_app in Hsz. rewrite <- app_assoc, drop_app_length.
  assert (Hlen : zlen body = 2 + zlen (concat (map topic_bytes topics)))
    by (unfold body, subscribe_body; rewrite length_app, net16_length; lia).
  pose proof (ho_length h Hok) as Hr. cbn [h remaining_length] in Hr.
  destruct (subscribe_loop_spec topics 12 (net16 id) rest 0 0) as (ps & Hps & Hall); [done | unfold PAYLOAD_MAX_CNT; lia..|].
  exists h, ps. unfold body, subscribe_body. rewrite <- app_assoc. split; [|done].
  rewrite (unpack_response_spec h h0 _ sz (header_len h) (Some (DSubscribe id ps)) Hok);
    [f_equal; f_equal; f_equal; lia | cbn [h remaining_length]; lia | done | | lia].
  unfold unpack_body. change (control_type h) with 8. cbn [Z.eqb Pos.eqb].
  unfold mqtt_unpack_subscribe_response. cbn [h remaining_length]. rewrite rdnet16_head, bind_Some, u16_id by lia.
  replace (u32 (zlen body - 2)) with (0 + zlen (concat (map topic_bytes topics))) by (rewrite u32_id; lia).
  change 2 with (zlen (net16 id)). by rewrite Hps.
Qed.

(** ** CONNECT

    Without a will; see [connect_will_short] for the will. *)

Definition opt_bytes (s : option (list Z)) : list Z := from_option str_bytes [] s.
Abbreviation bit b := (Z.b2z b).
Abbreviation given s := (bool_decide (is_Some s)).
Abbreviation short s := (forall x, s = Some x -> zlen x < 65536).

(** Of the caller's flags only the clean-session bit stays. *)
Definition connect_byte (flags : Z) (user pass : bool) : Z :=
  Z.land flags 2 + 64 * bit pass + 128 * bit user.

Definition connect_body (cid : list Z) (user pass : option (list Z)) (flags ka : Z) : list Z :=
  [0; 4; 77; 81; 84; 84; MQTT_PROTOCOL_LEVEL; connect_byte flags (given user) (given pass)]
  ++ net16 ka ++ str_bytes cid ++ opt_bytes user ++ opt_bytes pass.

Lemma connect_byte_spec flags user pass : is_u8 flags ->
  let f := u8 (Z.land flags (Z.lnot MQTT_CONNECT_RESERVED)) in
  let f := u8 (Z.land f (Z.lnot MQTT_CONNECT_WILL_FLAG)) in
  let f := u8 (Z.land f (Z.lnot 0x18)) in
  let f := u8 (Z.land f (Z.lnot MQTT_CONNECT_WILL_RETAIN)) in
  let f := u8 (if user : bool then Z.lor f MQTT_CONNECT_USER_NAME else Z.land f (Z.lnot MQTT_CONNECT_USER_NAME)) in
  let f := u8 (if pass : bool then Z.lor f MQTT_CONNECT_PASSWORD else Z.land f (Z.lnot MQTT_CONNECT_PASSWORD)) in
  f = connect_byte flags user pass /\ is_u8 f
  /\ Z.land f MQTT_CONNECT_WILL_FLAG = 0
  /\ (Z.land f MQTT_CONNECT_USER_NAME =? 0) = negb user /\ (Z.land f MQTT_CONNECT_PASSWORD =? 0) = negb pass
  /\ Z.land (Z.shiftr f 1) 1 = Z.land (Z.shiftr flags 1) 1 /\ Z.land (Z.shiftr f 2) 1 = 0
  /\ Z.land (Z.shiftr f 6) 1 = bit pass /\ Z.land (Z.shiftr f 7) 1 = bit user.
Proof.
  intros Hf f f0 f1 f2 f3 f4.
  enough (bool_decide (f4 = connect_byte flags user pass) && (0 <=? f4) && (f4 <? 256)
    && (Z.land f4 MQTT_CONNECT_WILL_FLAG =? 0)
    && eqb (Z.land f4 MQTT_CONNECT_USER_NAME =? 0) (negb user) && eqb (Z.land f4 MQTT_CONNECT_PASSWORD =? 0) (negb pass)
    && (Z.land (Z.shiftr f4 1) 1 =? Z.land (Z.shiftr flags 1) 1) && (Z.land (Z.shiftr f4 2) 1 =? 0)
    && (Z.land (Z.shiftr f4 6) 1 =? bit pass) && (Z.land (Z.shiftr f4 7) 1 =? bit user) = true) as H.
  { rewrite !andb_true_iff, !eqb_true_iff, bool_decide_eq_true in H. destruct_and! H. zbool. split_and!; done. }
  subst f f0 f1 f2 f3 f4. revert flags Hf.
  assert (Hall : forall p : Z -> bool, forallb p (seqZ 0 256) = true -> forall flags, is_u8 flags -> p flags = true)
    by (intros p Hp flags Hf; by apply (forallb_seqZ p 256)).
  apply (Hall (fun flags => _)). by destruct user, pass; vm_compute.
Qed.

Lemma opt_bytes_length s : zlen (opt_bytes s) = (if given s then 2 else 0) + zlen (default [] s).
Proof. destruct s; [|done]. cbn. lia. Qed.

Lemma connect_body_length cid user pass flags ka :
  zlen (connect_body cid user pass flags ka) = 12 + zlen cid + zlen (opt_bytes user) + zlen (opt_bytes pass).
Proof. unfold connect_body. rewrite !length_app, str_bytes_length, net16_length. cbn [length]. lia. Qed.

Lemma opt_bytes_short s : short s -> zlen (opt_bytes s) <= 65537 /\ zlen (default [] s) <= 65535.
Proof. intros Hs. destruct s as [x|]; cbn; [specialize (Hs x eq_refl); lia | lia]. Qed.

Lemma connect_parts_spec cid msg msgsz user pass flags :
  is_u8 flags -> zlen cid < 65536 -> short user -> short pass ->
  connect_parts (Some cid) None msg msgsz user pass flags
  = inr (zlen (connect_body cid user pass flags 0), connect_byte flags (given user) (given pass)).
Proof.
  intros Hf Hc Hu Hp. destruct (connect_byte_spec flags (given user) (given pass) Hf) as [Hb _].
  rewrite <- Hb. clear Hb. rewrite connect_body_length.
  apply opt_bytes_short in Hu as [Hu _], Hp as [Hp _].
  unfold connect_parts, packed_cstrlen. rewrite (u32_id (10 + (2 + zlen cid))) by lia.
  destruct user as [user|], pass as [pass|]; cbn [opt_bytes from_option] in *; rewrite ?str_bytes_length in *;
    cbn [length]; rewrite ?(u32_id (10 + (2 + zlen cid) + _)) by lia; rewrite ?u32_id by lia;
    f_equal; f_equal; lia.
Qed.

Lemma append_str_writes s : zlen s < 65536 -> writes (fun pos m => append_str m pos (Some s)) (str_bytes s).
Proof. intros Hs. apply (writes_ext _ _ _ (fun pos m => eq_refl) (writes_str s Hs)). Qed.

Lemma append_opt_writes s (b : bool) : b = negb (given s) -> short s ->
  writes (fun pos m => if negb b then append_str m pos s else Some (pos, m)) (opt_bytes s).
Proof.
  intros -> Hs. destruct s as [s|]; cbn; [|apply writes_nil]. apply append_str_writes. by apply Hs.
Qed.

Definition connect_header (cid : list Z) (user pass : option (list Z)) : mqtt_fixed_header :=
  mkHeader MQTT_CONTROL_CONNECT 0 (zlen (connect_body cid user pass 0 0)).

Lemma connect_remaining cid user pass flags ka :
  remaining_length (connect_header cid user pass) = zlen (connect_body cid user pass flags ka).
Proof. unfold connect_header. cbn [remaining_length]. by rewrite !connect_body_length. Qed.

Lemma connect_packs m bufsz cid msg msgsz user pass flags ka :
  is_u8 flags -> zlen cid < 65536 -> short user -> short pass -> 0 <= bufsz <= zlen m ->
  header_ok (connect_header cid user pass)
  /\ packs (mqtt_pack_connection_request m bufsz (Some cid) None msg msgsz user pass flags ka) m bufsz
       (header_bytes (connect_header cid user pass) ++ connect_body cid user pass flags ka).
Proof.
  intros Hf Hc Hu Hp Hb. unfold mqtt_pack_connection_request. rewrite connect_parts_spec by done.
  destruct (connect_byte_spec flags (given user) (given pass) Hf) as (Eb & Hr & Ew & Eu & Ep & _).
  rewrite Eb in Hr, Ew, Eu, Ep. clear Eb. set (b := connect_byte flags (given user) (given pass)) in *.
  pose proof (opt_bytes_short user Hu) as [Hu' _]. pose proof (opt_bytes_short pass Hp) as [Hp' _].
  assert (Hlen : zlen (connect_body cid user pass flags 0) = remaining_length (connect_header cid user pass)
    /\ zlen (connect_body cid user pass flags ka) = remaining_length (connect_header cid user pass)
    /\ remaining_length (connect_header cid user pass) < 2 ^ 28)
    by (rewrite !(connect_remaining _ _ _ flags ka), !connect_body_length; lia).
  destruct Hlen as (-> & Hlen & Hmax).
  assert (Hok : header_ok (connect_header cid user pass)) by (split; try done; lia).
  split; [done|]. cbv zeta. unfold make_header. rewrite u32_id by lia.
  change (mkHeader MQTT_CONTROL_CONNECT (Z.land 0 15) _) with (connect_header cid user pass).
  apply with_header_packs; [done..|]. unfold connect_body. fold b.
  eapply writes_ext; [|apply (writes_bind _ _ _ _ (writes_bytes [0; 4; 77; 81; 84; 84; MQTT_PROTOCOL_LEVEL; b] 8 eq_refl)
    (writes_bind _ _ _ _ (writes_bytes (net16 ka) 2 eq_refl) (writes_bind _ _ _ _ (append_str_writes cid Hc)
    (writes_bind _ _ _ _ (append_opt_writes user _ Eu Hu) (append_opt_writes pass _ Ep Hp)))))].
  intros pos m1. cbn beta. rewrite Ew. cbn [negb Z.eqb].
  destruct (wr_bytes m1 pos _) as [m2|]; [|done]. rewrite !bind_Some, <- (Z.add_assoc pos 8 2).
  destruct (wr_bytes m2 (pos + 8) (net16 ka)) as [m3|]; [|done]. rewrite !bind_Some. change (8 + 2) with 10.
  destruct (append_str m3 (pos + 10) (Some cid)) as [[p4 m4]|]; [|done]. rewrite !bind_Some.
  destruct (if negb (Z.land b MQTT_CONNECT_USER_NAME =? 0) then _ else _) as [[p5 m5]|]; [|done].
  rewrite !bind_Some. by destruct (if negb (Z.land b MQTT_CONNECT_PASSWORD =? 0) then _ else _) as [[? ?]|].
Qed.

Definition denotes_opt (buf : list Z) (c : option c_string) (s : option (list Z)) : Prop :=
  match c, s with Some c, Some s => denotes buf c s | None, None => True | _, _ => False end.

(** The password and the user name as they are read: the packer writes the user name
    first, the unpacker reads the password first. *)
Definition read_credentials (user pass : option (list Z)) : option (list Z) * option (list Z) :=
  match user, pass with Some _, Some _ => (user, pass) | _, _ => (pass, user) end.

Lemma read_credentials_spec user pass :
  let '(first, second) := read_credentials user pass in
  opt_bytes user ++ opt_bytes pass = opt_bytes first ++ opt_bytes second
  /\ given first = given pass /\ given second = given user.
Proof. destruct user, pass; cbn; rewrite ?app_nil_r; done. Qed.

Lemma opt_denotes pre s rest : short s ->
  exists c, unpack_string_if (given s) (pre ++ opt_bytes s ++ rest) (zlen pre) = Some (c, zlen (pre ++ opt_bytes s))
    /\ denotes_opt (pre ++ opt_bytes s ++ rest) c s.
Proof.
  intros Hs. destruct s as [s|]; cbn [opt_bytes from_option].
  - destruct (str_denotes pre s rest (Hs s eq_refl)) as [E D]. eexists. unfold unpack_string_if.
    rewrite bool_decide_true, E, length_app, Nat2Z.inj_add by done. by split.
  - exists None. rewrite app_nil_r. by split.
Qed.

Lemma short_credentials user pass : short user -> short pass ->
  short (fst (read_credentials user pass)) /\ short (snd (read_credentials user pass)).
Proof. by destruct user, pass. Qed.

Lemma connect_unpacks cid user pass flags ka rest :
  is_u8 flags -> is_u16 ka -> zlen cid < 65536 -> short user -> short pass ->
  let buf := connect_body cid user pass flags ka ++ rest in
  exists c, mqtt_unpack_connect_response [0; 0; 0; 0] buf = Some c
    /\ protocol_name c = [77; 81; 84; 84] /\ protocol_level c = MQTT_PROTOCOL_LEVEL /\ keep_alive c = ka
    /\ clean_session (connect_flag c) = flags / 2 mod 2 /\ will_flag (connect_flag c) = 0
    /\ denotes buf (client_id c) cid
    /\ denotes_opt buf (password c) (fst (read_credentials user pass))
    /\ denotes_opt buf (user_name c) (snd (read_credentials user pass)).
Proof.
  intros Hf Hka Hc Hu Hp buf. destruct (short_credentials user pass Hu Hp) as [Hs1 Hs2].
  pose proof (read_credentials_spec user pass) as Hcr.
  destruct (read_credentials user pass) as [s1 s2]. destruct Hcr as (Ecr & Ep & Eu). cbn [fst snd] in *.
  destruct (connect_byte_spec flags (given user) (given pass) Hf) as (Eb & _ & _ & _ & _ & E1 & E2 & E6 & E7).
  rewrite Eb in E1, E2, E6, E7. clear Eb. set (b := connect_byte flags (given user) (given pass)) in *.
  set (pre := [0; 4; 77; 81; 84; 84; MQTT_PROTOCOL_LEVEL; b]).
  assert (Hbuf : buf = pre ++ net16 ka ++ str_bytes cid ++ opt_bytes s1 ++ opt_bytes s2 ++ rest).
  { unfold buf, connect_body. fold b pre. by rewrite <- !app_assoc, (app_assoc (opt_bytes user)), Ecr, <- app_assoc. }
  unfold mqtt_unpack_connect_response.
  assert (H0 : rdnet16 buf 0 = Some 4 /\ memcpy [0; 0; 0; 0] 0 buf 2 4 = Some [77; 81; 84; 84]
    /\ rd8 buf 6 = Some MQTT_PROTOCOL_LEVEL /\ rd8 buf 7 = Some b /\ rdnet16 buf 8 = Some ka).
  { rewrite Hbuf. split_and!; try done.
    - rewrite memcpy_Some by (rewrite ?length_app; cbn; lia). done.
    - change 8 with (zlen pre). by rewrite rdnet16_app, u16_id. }
  destruct H0 as (-> & H0). rewrite bind_Some. destruct H0 as (-> & H0). rewrite bind_Some. cbv zeta.
  change (2 + 4) with 6. destruct H0 as (-> & H0). rewrite bind_Some. change (6 + 1) with 7.
  destruct H0 as (-> & H0). rewrite bind_Some. change (6 + 2) with 8. rewrite H0, bind_Some. change (6 + 4) with 10.
  cbn [will_flag password_flag username_flag]. rewrite E2, E6, E7.
  destruct (str_denotes (pre ++ net16 ka) cid (opt_bytes s1 ++ opt_bytes s2 ++ rest) Hc) as [R1 D1].
  destruct (opt_denotes ((pre ++ net16 ka) ++ str_bytes cid) s1 (opt_bytes s2 ++ rest) Hs1) as (c1 & R2 & D2).
  destruct (opt_denotes (((pre ++ net16 ka) ++ str_bytes cid) ++ opt_bytes s1) s2 rest Hs2) as (c2 & R3 & D3).
  rewrite <- !app_assoc in R1. rewrite <- !app_assoc in D1. rewrite <- !app_assoc in R2.
  rewrite <- !app_assoc in D2. rewrite <- !app_assoc in R3. rewrite <- !app_assoc in D3.
  rewrite <- Hbuf in R1, D1, R2, D2, R3, D3.
  rewrite Ep in R2. rewrite Eu in R3. change (zlen (pre ++ net16 ka)) with 10 in R1, D1. rewrite R1, bind_Some.
  replace (10 + zlen (str_bytes cid)) with (zlen (pre ++ net16 ka ++ str_bytes cid)) by (rewrite !length_app; cbn; lia).
  assert (Hno : forall p, unpack_string_if (0 =? 1) buf p = Some (None, p)) by done.
  rewrite Hno, bind_Some, Hno, bind_Some.
  replace (bit (given pass) =? 1) with (given pass) by (by destruct (given pass)).
  replace (bit (given user) =? 1) with (given user) by (by destruct (given user)).
  rewrite R2, bind_Some, R3, bind_Some. eexists. split; [done|]. cbn [connect_flag clean_session will_flag].
  rewrite E1, Z.shiftr_div_pow2 by lia.
  split_and!; try done. apply (Z.land_ones (flags / 2) 1). lia.
Qed.

(** a CONNECT packet without a will round-trips up to one exchange: what
    [mqtt_pack_connection_request] writes, [mqtt_unpack_response] reads back with the
    protocol name and level, the keep-alive time, the clean-session flag and the client
    identifier; the user name and the password come back too, but each in the place of
    the other when both are given. *)
Theorem connect_roundtrip m bufsz cid msg msgsz user pass flags ka :
  is_u8 flags -> is_u16 ka -> zlen cid < 65536 -> short user -> short pass -> 0 <= bufsz <= zlen m ->
  exists packet n,
    packs (mqtt_pack_connection_request m bufsz (Some cid) None msg msgsz user pass flags ka) m bufsz packet
    /\ forall h0 rest sz, zlen packet <= sz ->
       exists h c, mqtt_unpack_response h0 (packet ++ rest) sz = Some (2 * Z.of_nat n, h, Some (DConnect c))
         /\ protocol_name c = [77; 81; 84; 84] /\ protocol_level c = MQTT_PROTOCOL_LEVEL /\ keep_alive c = ka
         /\ clean_session (connect_flag c) = flags / 2 mod 2 /\ will_flag (connect_flag c) = 0
         /\ denotes (drop n (packet ++ rest)) (client_id c) cid
         /\ denotes_opt (drop n (packet ++ rest)) (password c) (fst (read_credentials user pass))
         /\ denotes_opt (drop n (packet ++ rest)) (user_name c) (snd (read_credentials user pass)).
Proof.
  intros Hf Hka Hc Hu Hp Hb.
  destruct (connect_packs m bufsz cid msg msgsz user pass flags ka) as [Hok Hpk]; [done..|].
  set (h := connect_header cid user pass) in *. set (body := connect_body cid user pass flags ka) in *.
  exists (header_bytes h ++ body), (length (header_bytes h)). split; [done|]. intros h0 rest sz Hsz.
  rewrite length_app in Hsz. rewrite <- app_assoc, drop_app_length.
  destruct (connect_unpacks cid user pass flags ka rest) as (c & Ec & Hrest); [done..|]. fold body in Ec, Hrest.
  exists h, c. split; [|exact Hrest].
  rewrite (unpack_response_spec h h0 _ sz (header_len h) (Some (DConnect c)) Hok);
    [f_equal; f_equal; f_equal; lia | | done | | lia].
  - pose proof (connect_remaining cid user pass flags ka) as E. fold h body in E. lia.
  - unfold unpack_body. change (control_type h =? MQTT_CONTROL_CONNECT) with true. by rewrite Ec.
Qed.

(** With a will the message is written without its length of two bytes: the packet
    is two bytes shorter than its fixed header says. *)
Example connect_will_short :
  let packet := [16; 20; 0; 4; 77; 81; 84; 84; 4; 4; 0; 0; 0; 1; 99; 0; 1; 116; 104; 105] in
  mqtt_pack_connection_request (zeros 22) 22 (Some [99]) (Some [116]) (Some [104; 105]) 2 None None 0 0
    = Some (20, packet ++ [0; 0])
  /\ mqtt_unpack_fixed_header (mkHeader 0 0 0) (Some (packet ++ [0; 0])) 22 = Some (2, mkHeader MQTT_CONTROL_CONNECT 0 20).
Proof. by vm_compute. Qed.

(** ** Witnesses *)

(** A duplicate of quality 1 with the retain flag, followed by other bytes. *)
Lemma publish_roundtrip_witness : exists packet,
  packs (mqtt_pack_publish_request (zeros 16) 16 (Some [97; 98]) 513 [104; 105] 2 11) (zeros 16) 16 packet
  /\ exists h p, mqtt_unpack_response (mkHeader 0 0 0) (packet ++ [1; 2]) (zlen packet) = Some (zlen packet, h, Some (DPublish p))
     /\ qos_level p = 1 /\ retain_flag p = 1 /\ dup_flag p = 1 /\ publish_id p = Some 513.
Proof.
  destruct (publish_roundtrip (zeros 16) 16 [97; 98] 513 [104; 105] 11) as (packet & Hp & Hu);
    [lia | by vm_compute | lia | by vm_compute | by vm_compute |].
  exists packet. split; [exact Hp|].
  destruct (Hu (mkHeader 0 0 0) [1; 2] (zlen packet) ltac:(lia)) as (n & h & p & E & Hq & Hr & Hd & Hi & _).
  exists h, p. auto.
Defined.

Lemma pubxxx_roundtrip_witness : exists packet, zlen packet = 4
  /\ packs (mqtt_pack_pubxxx_request (zeros 4) 4 MQTT_CONTROL_PUBREL 7) (zeros 4) 4 packet
  /\ mqtt_unpack_response (mkHeader 0 0 0) (packet ++ [9]) 5 = Some (4, ack_header 6, Some (DPubrel 7)).
Proof.
  destruct (pubxxx_roundtrip (zeros 4) 4 MQTT_CONTROL_PUBREL 7) as (packet & Hl & Hp & Hu);
    [done | lia | by vm_compute |].
  exists packet. split; [exact Hl|]. split; [exact Hp|]. apply Hu. lia.
Defined.

Definition sample_topics : list (list Z * Z) := [([97; 47; 98], 1); ([35], 2)].

Lemma subscribe_roundtrip_witness : exists packet n,
  packs (mqtt_pack_subscribe_request (zeros 32) 32 7 sample_topics) (zeros 32) 32 packet
  /\ exists h payloads, mqtt_unpack_response (mkHeader 0 0 0) (packet ++ [9]) (zlen packet)
       = Some (2 * Z.of_nat n, h, Some (DSubscribe 7 payloads))
     /\ Forall2 (payload_of (drop n (packet ++ [9]))) sample_topics payloads.
Proof.
  destruct (subscribe_roundtrip (zeros 32) 32 7 sample_topics) as (packet & n & Hp & Hu);
    [by vm_compute | lia | by vm_compute | by repeat constructor |].
  exists packet, n. split; [exact Hp|]. apply Hu. lia.
Defined.

Lemma unsubscribe_packs_witness :
  packs (mqtt_pack_unsubscribe_request (zeros 16) 16 7 [[97; 98]; [99]]) (zeros 16) 16
    [0xA2; 9; 0; 7; 0; 2; 97; 98; 0; 1; 99].
Proof.
  apply (unsubscribe_packs (zeros 16) 16 7 [[97; 98]; [99]]);
    [by vm_compute | by vm_compute | by repeat constructor].
Defined.

(** A user name and a password: they come back exchanged. *)
Lemma connect_roundtrip_witness : exists packet n,
  packs (mqtt_pack_connection_request (zeros 40) 40 (Some [99]) None None 0 (Some [117]) (Some [112; 119]) 2 60)
    (zeros 40) 40 packet
  /\ exists h c, mqtt_unpack_response (mkHeader 0 0 0) (packet ++ [9]) (zlen packet)
       = Some (2 * Z.of_nat n, h, Some (DConnect c))
     /\ keep_alive c = 60 /\ clean_session (connect_flag c) = 1
     /\ denotes_opt (drop n (packet ++ [9])) (password c) (Some [117])
     /\ denotes_opt (drop n (packet ++ [9])) (user_name c) (Some [112; 119]).
Proof.
  destruct (connect_roundtrip (zeros 40) 40 [99] None 0 (Some [117]) (Some [112; 119]) 2 60) as (packet & n & Hp & Hu);
    [lia | lia | by vm_compute | by intros ? [= <-] | by intros ? [= <-] | by vm_compute |].
  exists packet, n. split; [exact Hp|].
  destruct (Hu (mkHeader 0 0 0) [9] (zlen packet) ltac:(lia)) as (h & c & E & _ & _ & Hk & Hc & _ & _ & Hw & Hn).
  exists h, c. auto.
Defined.

(** A complete PUBACK with a byte behind it, and a malformed length of five bytes. *)
Lemma unpack_fixed_header_total_witness :
  (exists h, mqtt_unpack_fixed_header (mkHeader 0 0 0) (Some [0x40; 2; 0; 7; 9]) 5 = Some (2, h) /\ h = mkHeader 4 0 2)
  /\ exists h, mqtt_unpack_fixed_header (mkHeader 0 0 0) (Some [0x30; 255; 255; 255; 255; 1]) 6
       = Some (mqtt_error MQTT_ERROR_INVALID_REMAINING_LENGTH, h).
Proof.
  split.
  - destruct (unpack_fixed_header_total (mkHeader 0 0 0) [0x40; 2; 0; 7; 9] 5) as (h & E & Hh & _);
      [by apply bytes_ok_decide | by vm_compute | by exists h].
  - destruct (unpack_fixed_header_total (mkHeader 0 0 0) [0x30; 255; 255; 255; 255; 1] 6) as (h & E & _);
      [by apply bytes_ok_decide | by vm_compute | by exists h].
Defined.
