(* ===== verification/MqttQueue.v ===== *)
(** * fun_protocol/mqtt/e_mqtt.c: the message queue and the packet identifiers

    The packets not yet acknowledged lie at the start of a block of memory; a header
    for each lies at its end and grows downwards.  The block is the list of its bytes
    and the list of its headers, the oldest (the highest) first; [hdr] is the size of
    a header.  The bytes of the block a header covers have no value of their own.
    The members a new header is not given hold what the memory held, [uninit] of the
    header's index. *)

From stdpp Require Import gmap.
From S2P Require Import Prelude CMem Mqtt.

(** ** The queue *)

Inductive MQTTQueuedMessageState := MQTT_QUEUED_UNSENT | MQTT_QUEUED_AWAITING_ACK | MQTT_QUEUED_COMPLETE.

#[export] Instance MQTTQueuedMessageState_eq_dec : EqDecision MQTTQueuedMessageState.
Proof. solve_decision. Defined.

Record mqtt_queued_message := mkMsg {
  msg_start : Z; msg_size : Z; msg_state : MQTTQueuedMessageState; msg_time : Z; msg_type : Z; msg_id : Z }.

Record mqtt_message_queue := mkMq {
  mq_mem : list Z; mq_curr : Z; mq_curr_sz : Z; mq_msgs : list mqtt_queued_message }.

Definition is_state (m : mqtt_queued_message) (s : MQTTQueuedMessageState) : bool := bool_decide (msg_state m = s).

Definition set_msg_state (s : MQTTQueuedMessageState) (m : mqtt_queued_message) : mqtt_queued_message :=
  mkMsg (msg_start m) (msg_size m) s (msg_time m) (msg_type m) (msg_id m).

Section queue.
Context (hdr : Z) (uninit : nat -> mqtt_queued_message).

(** The room between [curr] and the header that would be added next, in a block of
    [cap] bytes that has [n] headers. *)
Definition mqtt_mq_currsz (cap curr : Z) (n : nat) : Z :=
  let next := cap - hdr * Z.of_nat n - hdr in if curr >=? next then 0 else next - curr.

Definition mqtt_mq_init (buf : list Z) : mqtt_message_queue :=
  mkMq buf 0 (mqtt_mq_currsz (zlen buf) 0 0) [].

Definition mqtt_mq_register (mq : mqtt_message_queue) (nbytes : Z) : mqtt_message_queue :=
  let m := uninit (length (mq_msgs mq)) in
  let msg := mkMsg (mq_curr mq) nbytes MQTT_QUEUED_UNSENT (msg_time m) (msg_type m) (msg_id m) in
  let curr := mq_curr mq + nbytes in
  let msgs := mq_msgs mq ++ [msg] in
  mkMq (mq_mem mq) curr (mqtt_mq_currsz (zlen (mq_mem mq)) curr (length msgs)) msgs.

(** The loop that looks for the first message to keep; the messages it has passed are
    not looked at any more, so that only what is left matters. *)
Fixpoint clean_loop (msgs : list mqtt_queued_message) : list mqtt_queued_message :=
  match msgs with
  | [] => []
  | m :: rest =>
      let m := if is_state m MQTT_QUEUED_AWAITING_ACK && (msg_type m =? MQTT_CONTROL_CONNECT)
               then set_msg_state MQTT_QUEUED_COMPLETE m else m in
      if negb (is_state m MQTT_QUEUED_COMPLETE) then m :: rest else clean_loop rest
  end.

Definition mqtt_mq_clean (mq : mqtt_message_queue) : option mqtt_message_queue :=
  let msgs := clean_loop (mq_msgs mq) in
  let cap := zlen (mq_mem mq) in
  match msgs with
  | [] => Some (mkMq (mq_mem mq) 0 (mqtt_mq_currsz cap 0 0) [])
  | new_head :: _ =>
      return_if bool_decide (length msgs = length (mq_msgs mq)) with Some mq ;;
      let n := mq_curr mq - msg_start new_head in
      let removing := msg_start new_head in
      mem ← memmove_in (mq_mem mq) 0 (msg_start new_head) n;
      let bump m := mkMsg (msg_start m - removing) (msg_size m) (msg_state m) (msg_time m) (msg_type m) (msg_id m) in
      Some (mkMq mem n (mqtt_mq_currsz cap n (length msgs)) (map bump msgs))
  end.

(** The index of the first message found, for the identifier [None] the first that is
    not complete. *)
Definition found_msg (type : Z) (id : option Z) (m : mqtt_queued_message) : bool :=
  (msg_type m =? type) && match id with
                          | None => negb (is_state m MQTT_QUEUED_COMPLETE)
                          | Some id => id =? msg_id m
                          end.

Definition mqtt_mq_find (mq : mqtt_message_queue) (type : Z) (id : option Z) : option nat :=
  fst <$> list_find (fun m => found_msg type id m) (mq_msgs mq).

(** An assignment to members of the message at an index. *)
Definition mq_update (mq : mqtt_message_queue) (i : nat) (f : mqtt_queued_message -> mqtt_queued_message)
    : mqtt_message_queue :=
  mkMq (mq_mem mq) (mq_curr mq) (mq_curr_sz mq) (alter f i (mq_msgs mq)).

(** ** Packet identifiers *)

Definition lfsr_step (lfsr : Z) : Z :=
  let lsb := Z.land lfsr 1 in
  let lfsr := Z.shiftr lfsr 1 in
  if lsb =? 0 then lfsr else Z.lxor lfsr 0xB400.

Fixpoint next_pid_loop (fuel : nat) (mq : mqtt_message_queue) (lfsr : Z) : option Z :=
  match fuel with
  | O => None
  | S fuel =>
      let lfsr := lfsr_step lfsr in
      if existsb (fun m => msg_id m =? lfsr) (mq_msgs mq) then next_pid_loop fuel mq lfsr else Some lfsr
  end.

(** The identifier, which is also the new state. *)
Definition __mqtt_next_pid (mq : mqtt_message_queue) (pid_lfsr : Z) : option Z :=
  next_pid_loop (Z.to_nat 65535) mq (if pid_lfsr =? 0 then 163 else pid_lfsr).

(** ** The queue as a list of packets *)

Record qmsg := mkQ { q_bytes : list Z; q_state : MQTTQueuedMessageState; q_time : Z; q_type : Z; q_id : Z }.

Definition packed (l : list qmsg) : list Z := concat (map q_bytes l).

(** The headers of packets that lie one behind the other from [pos] on. *)
Fixpoint headers (pos : Z) (l : list qmsg) : list mqtt_queued_message :=
  match l with
  | [] => []
  | m :: l => mkMsg pos (zlen (q_bytes m)) (q_state m) (q_time m) (q_type m) (q_id m)
              :: headers (pos + zlen (q_bytes m)) l
  end.

Record mq_rep (cap : Z) (mq : mqtt_message_queue) (l : list qmsg) : Prop := {
  rep_mem : exists rest, mq_mem mq = packed l ++ rest;
  rep_cap : zlen (mq_mem mq) = cap;
  rep_curr : mq_curr mq = zlen (packed l);
  rep_sz : mq_curr_sz mq = mqtt_mq_currsz cap (zlen (packed l)) (length l);
  rep_msgs : mq_msgs mq = headers 0 l;
  rep_room : l = [] \/ zlen (packed l) + hdr * zlen l <= cap
}.

Definition removable (m : qmsg) : bool :=
  match q_state m with
  | MQTT_QUEUED_COMPLETE => true
  | MQTT_QUEUED_AWAITING_ACK => q_type m =? MQTT_CONTROL_CONNECT
  | MQTT_QUEUED_UNSENT => false
  end.

Fixpoint drop_removable (l : list qmsg) : list qmsg :=
  match l with
  | [] => []
  | m :: l' => if removable m then drop_removable l' else l
  end.

Definition found_q (type : Z) (id : option Z) (m : qmsg) : bool :=
  (q_type m =? type) && match id with
                        | None => negb (bool_decide (q_state m = MQTT_QUEUED_COMPLETE))
                        | Some id => id =? q_id m
                        end.

Lemma packed_app l k : packed (l ++ k) = packed l ++ packed k.
Proof. unfold packed. by rewrite map_app, concat_app. Qed.

Lemma packed_cons m l : packed (m :: l) = q_bytes m ++ packed l.
Proof. done. Qed.

Lemma headers_length pos l : length (headers pos l) = length l.
Proof. revert pos. induction l; intros; cbn; auto. Qed.

Lemma headers_app pos l k : headers pos (l ++ k) = headers pos l ++ headers (pos + zlen (packed l)) k.
Proof.
  revert pos. induction l as [|m l IH]; intros pos; cbn -[packed]; [by rewrite Z.add_0_r|].
  rewrite IH, packed_cons, length_app. do 3 f_equal. lia.
Qed.

Lemma headers_lookup pos l i m :
  l !! i = Some m ->
  headers pos l !! i
  = Some (mkMsg (pos + zlen (packed (take i l))) (zlen (q_bytes m)) (q_state m) (q_time m) (q_type m) (q_id m)).
Proof.
  revert pos i. induction l as [|x l IH]; intros pos [|i] H; cbn -[packed] in *; simplify_eq.
  - by rewrite Z.add_0_r.
  - rewrite (IH _ _ H), packed_cons, length_app. do 2 f_equal. lia.
Qed.

Lemma found_headers type id pos l :
  fst <$> list_find (fun m => found_msg type id m) (headers pos l) = fst <$> list_find (fun m => found_q type id m) l.
Proof.
  revert pos. induction l as [|m l IH]; intros pos; [done|]. cbn [headers list_find].
  unfold found_msg at 1, found_q at 1, is_state. cbn [msg_type msg_state msg_id].
  set (b := (q_type m =? type) && _). destruct (decide (Is_true b)); [done|].
  specialize (IH (pos + zlen (q_bytes m))).
  destruct (list_find _ (headers _ l)) as [[]|], (list_find _ l) as [[]|]; cbn in *; congruence.
Qed.

Lemma mqtt_mq_find_spec cap mq l type id :
  mq_rep cap mq l -> mqtt_mq_find mq type id = fst <$> list_find (fun m => found_q type id m) l.
Proof. intros H. unfold mqtt_mq_find. rewrite (rep_msgs _ _ _ H). apply found_headers. Qed.

Lemma drop_removable_split l : exists l0, l = l0 ++ drop_removable l /\ Forall (fun m => removable m) l0.
Proof.
  induction l as [|m l (l0 & E & IH)]; cbn; [by exists []|].
  destruct (removable m) eqn:Hm; [|by exists []].
  exists (m :: l0). split; [cbn; by f_equal|]. constructor; [by rewrite Hm | done].
Qed.

Lemma clean_loop_spec pos l : exists l0, l = l0 ++ drop_removable l
  /\ clean_loop (headers pos l) = headers (pos + zlen (packed l0)) (drop_removable l).
Proof.
  revert pos. induction l as [|m l IH]; intros pos; cbn [headers clean_loop drop_removable].
  { by exists []. }
  assert (Hkeep : exists l0, m :: l = l0 ++ m :: l /\ headers pos (m :: l) = headers (pos + zlen (packed l0)) (m :: l)).
  { exists []. by rewrite Z.add_0_r. }
  unfold is_state, removable. cbn [msg_state msg_type].
  assert (Hskip : exists l0, m :: l = l0 ++ drop_removable l
    /\ clean_loop (headers (pos + zlen (q_bytes m)) l) = headers (pos + zlen (packed l0)) (drop_removable l)).
  { destruct (IH (pos + zlen (q_bytes m))) as (l0 & E & H). exists (m :: l0).
    split; [cbn; by f_equal|]. rewrite H, packed_cons, length_app. f_equal. lia. }
  destruct m as [? [] ? type ?]; cbn in *; [exact Hkeep | | exact Hskip].
  destruct (type =? MQTT_CONTROL_CONNECT); cbn; [exact Hskip | exact Hkeep].
Qed.

Lemma bump_headers r pos l :
  map (fun m => mkMsg (msg_start m - r) (msg_size m) (msg_state m) (msg_time m) (msg_type m) (msg_id m)) (headers pos l)
  = headers (pos - r) l.
Proof.
  revert pos. induction l as [|m l IH]; intros pos; [done|]. cbn. rewrite IH. do 2 f_equal. lia.
Qed.

Lemma mqtt_mq_clean_spec cap mq l : 0 <= hdr -> mq_rep cap mq l ->
  exists mq', mqtt_mq_clean mq = Some mq' /\ mq_rep cap mq' (drop_removable l).
Proof.
  intros Hhdr [ [rest Hm] Hcap Hc Hs Hq Hroom]. unfold mqtt_mq_clean. rewrite Hq.
  destruct (clean_loop_spec 0 l) as (l0 & Hl & ->). rewrite Z.add_0_l. rewrite !headers_length.
  destruct (drop_removable l) as [|m l'] eqn:Ed; cbn [headers].
  { eexists. split; [done|]. split; cbn; try done; [by eexists | by rewrite Hcap | by left]. }
  set (k := m :: l') in *. assert (Hlen : length l = (length l0 + length k)%nat) by (by rewrite Hl, length_app).
  case_bool_decide as Hz.
  - assert (l0 = []) as -> by (destruct l0; [done | rewrite length_cons in Hlen; lia]). cbn [app] in Hl. rewrite <- Hl.
    eexists. split; [done|]. split; try done. by exists rest.
  - cbn [msg_start]. assert (Hp : packed l = packed l0 ++ packed k) by (by rewrite Hl, packed_app).
    rewrite Hcap, Hc, Hm, Hp.
    rewrite <- app_assoc, memmove_front, bind_Some by (done || (rewrite length_app; lia)).
    eexists. split; [done|]. rewrite length_app in *.
    replace (zlen (packed l0 ++ packed k) - zlen (packed l0)) with (zlen (packed k)) by (rewrite length_app; lia).
    assert (Hlen' : zlen (packed k ++ drop (length (packed k)) (packed l0 ++ packed k ++ rest)) = cap).
    { rewrite <- Hcap, Hm, Hp, <- app_assoc. rewrite !length_app, length_drop, !length_app. lia. }
    split; cbn [mq_mem mq_curr mq_curr_sz mq_msgs]; try done; try by eexists.
    + lia.
    + f_equal. lia.
    + pose proof (bump_headers (zlen (packed l0)) (zlen (packed l0)) k) as Hb. by rewrite Z.sub_diag in Hb.
    + right. destruct Hroom as [-> | Hroom]; [cbn in Hlen; lia|]. rewrite Hp, length_app in Hroom.
      assert (hdr * zlen k <= hdr * zlen l) by (apply Z.mul_le_mono_nonneg_l; lia). lia.
Qed.

(** A packet written at [curr] is registered behind the others. *)
Lemma mqtt_mq_register_spec cap mq l packet rest : 0 <= hdr -> mq_rep cap mq l -> 0 < zlen packet <= mq_curr_sz mq ->
  length (mq_mem mq) = length (packed l ++ packet ++ rest) ->
  let u := uninit (length l) in
  mq_rep cap (mqtt_mq_register (mkMq (packed l ++ packet ++ rest) (mq_curr mq) (mq_curr_sz mq) (mq_msgs mq)) (zlen packet))
    (l ++ [mkQ packet MQTT_QUEUED_UNSENT (msg_time u) (msg_type u) (msg_id u)]).
Proof.
  intros Hhdr H Hp Hmem u. destruct H as [_ Hcap Hc Hs Hq _]. unfold mqtt_mq_register.
  cbn [mq_mem mq_curr mq_curr_sz mq_msgs]. rewrite Hc, Hq, headers_length. fold u.
  assert (Hpk : forall st t ty id, packed (l ++ [mkQ packet st t ty id]) = packed l ++ packet)
    by (intros; rewrite packed_app; cbn; by rewrite app_nil_r).
  assert (Hcap' : zlen (packed l ++ packet ++ rest) = cap) by (rewrite <- Hmem; exact Hcap).
  split; cbn [mq_mem mq_curr mq_curr_sz mq_msgs]; rewrite ?Hpk, ?length_app, ?headers_length.
  - exists rest. by rewrite <- app_assoc.
  - rewrite <- Hcap', !length_app. done.
  - lia.
  - f_equal; [rewrite <- Hcap', !length_app; done | lia].
  - rewrite headers_app. do 2 f_equal.
  - right. rewrite Hs in Hp. unfold mqtt_mq_currsz in Hp. revert Hp. case_if; zbool; cbn [length]; lia.
Qed.

(** An assignment to the members of a header. *)
Lemma mq_update_spec cap mq l i f g :
  (forall p m, f (mkMsg p (zlen (q_bytes m)) (q_state m) (q_time m) (q_type m) (q_id m))
     = mkMsg p (zlen (q_bytes (g m))) (q_state (g m)) (q_time (g m)) (q_type (g m)) (q_id (g m))) ->
  (forall m, q_bytes (g m) = q_bytes m) ->
  mq_rep cap mq l -> mq_rep cap (mq_update mq i f) (alter g i l).
Proof.
  intros Hf Hg [Hm Hcap Hc Hs Hq Hroom]. 
  assert (Hpk : forall i l, packed (alter g i l) = packed l).
  { clear -Hg. intros i l. revert i. induction l as [|m l IH]; intros [|i]; [done..| |].
    - change (packed (g m :: l) = packed (m :: l)). by rewrite !packed_cons, Hg.
    - change (packed (m :: alter g i l) = packed (m :: l)). by rewrite !packed_cons, IH. }
  split; cbn [mq_update mq_mem mq_curr mq_curr_sz mq_msgs]; rewrite ?Hpk, ?length_alter; try done.
  - rewrite Hq. clear -Hf Hg. generalize 0. revert i. induction l as [|m l IH]; intros [|i] p; cbn; try done.
    + by rewrite Hf, Hg.
    + by rewrite IH.
  - destruct Hroom as [->|]; [by left | by right].
Qed.
End queue.

(** ** The cycle of the shift register

    The register goes through every value but 0 before it repeats one: 1 comes back
    after 65535 steps and, 65535 being 3 * 5 * 17 * 257, after no divisor of it. *)

Section period.
Context {A : Type} (f : A -> A) (x : A).

Definition is_period (n : nat) : Prop := Nat.iter n f x = x.

Lemma period_sub a b : is_period a -> is_period (b + a) -> is_period b.
Proof. unfold is_period. intros Ha. by rewrite Nat.iter_add, Ha. Qed.

Lemma period_mul n m : is_period n -> is_period (m * n).
Proof.
  intros Hn. induction m as [|m IH]; [done|]. cbn. unfold is_period. by rewrite Nat.iter_add, IH.
Qed.

Lemma period_gcd a b : is_period a -> is_period b -> is_period (Nat.gcd a b).
Proof.
  remember (a + b)%nat as n eqn:E. revert a b E. induction n as [n IH] using lt_wf_ind. intros a b -> Ha Hb.
  destruct a as [|a]; [done|]. destruct b as [|b]; [by rewrite Nat.gcd_0_r|].
  destruct (Nat.le_gt_cases (S a) (S b)) as [Hle|Hgt].
  - rewrite <- Nat.gcd_sub_diag_r by done. eapply IH; [|done|done|]; [lia|].
    apply (period_sub (S a)); [done|]. by replace (S b - S a + S a)%nat with (S b) by lia.
  - rewrite Nat.gcd_comm, <- Nat.gcd_sub_diag_r by lia. eapply IH; [|done|done|]; [lia|].
    apply (period_sub (S b)); [done|]. by replace (S a - S b + S b)%nat with (S a) by lia.
Qed.

(** Two equal states of the orbit are a period apart. *)
Lemma period_diff n a b : is_period n -> (0 < n)%nat -> (a <= b)%nat ->
  Nat.iter a f x = Nat.iter b f x -> is_period (b - a).
Proof.
  intros Hn Hn0 Hab E. assert (Ha : (a <= a * n)%nat) by (destruct n; [lia | rewrite Nat.mul_succ_r; lia]).
  apply (period_sub (a * n)); [by apply period_mul|].
  replace (b - a + a * n)%nat with ((a * n - a) + b)%nat by lia. unfold is_period.
  rewrite Nat.iter_add, <- E, <- Nat.iter_add. replace (a * n - a + a)%nat with (a * n)%nat by lia.
  by apply period_mul.
Qed.

Lemma orbit_NoDup n j : is_period n -> (forall k, (0 < k < n)%nat -> ~ is_period k) ->
  NoDup (map (fun k => Nat.iter k f (Nat.iter j f x)) (seq 1 n)).
Proof.
  intros Hn Hmin. apply NoDup_fmap_2_strong; [|apply NoDup_seq].
  intros a b Ha%elem_of_seq Hb%elem_of_seq E. rewrite <- !Nat.iter_add in E.
  destruct (Nat.lt_total a b) as [Hlt|[Heq|Hlt]]; [|done|]; exfalso.
  - apply (Hmin (b - a)%nat); [lia|]. replace (b - a)%nat with ((b + j) - (a + j))%nat by lia.
    apply (period_diff n); (done || lia).
  - apply (Hmin (a - b)%nat); [lia|]. replace (a - b)%nat with ((a + j) - (b + j))%nat by lia.
    apply (period_diff n); (done || lia).
Qed.
End period.

Lemma lfsr_step_range x : 0 < x < 65536 -> 0 < lfsr_step x < 65536.
Proof.
  intros Hx. unfold lfsr_step. rewrite !(Z.land_ones x 1 ltac:(lia) : Z.land x 1 = x mod 2 ^ 1), Z.shiftr_div_pow2 by lia.
  change (2 ^ 1) with 2. destruct (Z.eqb_spec (x mod 2) 0); [zlia|].
  assert (Hr : 0 <= x / 2 < 2 ^ 15) by zlia.
  pose proof (lxor_range (x / 2) 0xB400 16 ltac:(lia) ltac:(lia) ltac:(lia)) as Hxor.
  assert (Z.testbit (Z.lxor (x / 2) 0xB400) 15 = true) as Hbit.
  { rewrite Z.lxor_spec, (testbit_high _ 15) by lia. done. }
  destruct (Z.eq_dec (Z.lxor (x / 2) 0xB400) 0) as [E|]; [by rewrite E, Z.bits_0 in Hbit | lia].
Qed.

Lemma pid_iter_range n x : 0 < x < 65536 -> 0 < Nat.iter n lfsr_step x < 65536.
Proof. intros Hx. induction n; cbn; [done|]. by apply lfsr_step_range. Qed.

(** The periods of 1. *)
Lemma lfsr_period : is_period lfsr_step 1 (Z.to_nat 65535).
Proof. by vm_compute. Qed.

Lemma divisor_65535 g : 0 < g < 65535 -> (g | 65535) ->
  (g | 21845) \/ (g | 13107) \/ (g | 3855) \/ (g | 255).
Proof.
  intros Hg [k Hk].
  assert (Hprime : forall p q a b, Z.prime p -> a * b = p * q -> (p | a) \/ exists b', b = p * b' /\ a * b' = q).
  { intros p q a b Hp E. pose proof (Z.prime_ge_2 p Hp).
    assert (Hd : (p | a * b)) by (exists q; lia). apply Z.divide_prime_mul in Hd; [|done].
    destruct Hd as [|[b' ->]]; [by left|]. right. exists b'. split; [lia|]. apply (Z.mul_reg_l _ _ p); lia. }
  assert (Hpr : forallb (fun p => forallb (fun d => (d <=? 1) || negb (p mod d =? 0)) (seqZ 0 p)) [3; 5; 17; 257] = true)
    by (by vm_compute).
  assert (Hps : forall p, p ∈ [3; 5; 17; 257] -> Z.prime p).
  { intros p Hp%list_elem_of_In. rewrite forallb_forall in Hpr. pose proof (Hpr p Hp) as Hd.
    split; [cbn in Hp; lia|]. intros n Hn Hdiv. apply Z.mod_divide in Hdiv; [|lia].
    apply (forallb_seqZ _ _ n) in Hd; [|lia]. cbn beta in Hd. rewrite Hdiv, orb_false_r in Hd. zbool. lia. }
  destruct (Hprime 3 21845 k g) as [[k' ->]|(g1 & -> & E1)]; [apply Hps, list_elem_of_In; cbn; tauto | lia | left; exists k'; lia |].
  destruct (Hprime 5 4369 k g1) as [[k' ->]|(g2 & -> & E2)]; [apply Hps, list_elem_of_In; cbn; tauto | lia | right; left; exists k'; lia |].
  destruct (Hprime 17 257 k g2) as [[k' ->]|(g3 & -> & E3)]; [apply Hps, list_elem_of_In; cbn; tauto | lia | do 2 right; left; exists k'; lia |].
  destruct (Hprime 257 1 k g3) as [[k' ->]|(g4 & -> & E4)]; [apply Hps, list_elem_of_In; cbn; tauto | lia | do 3 right; exists k'; lia |].
  exfalso. assert (k = 1) by (apply (Z.eq_mul_1_nonneg k g4); lia). lia.
Qed.

Lemma lfsr_no_period q : q ∈ [21845; 13107; 3855; 255] -> ~ is_period lfsr_step 1 (Z.to_nat q).
Proof.
  assert (H : forallb (fun q => negb (Nat.iter (Z.to_nat q) lfsr_step 1 =? 1)) [21845; 13107; 3855; 255] = true)
    by (by vm_compute).
  rewrite forallb_forall in H. intros Hq%list_elem_of_In%H Hp. by rewrite Hp in Hq.
Qed.

Lemma lfsr_minimal N k : Z.of_nat N = 65535 -> is_period lfsr_step 1 N -> (0 < k < N)%nat -> ~ is_period lfsr_step 1 k.
Proof.
  intros HN HP Hk Hp. pose proof (period_gcd lfsr_step 1 _ _ Hp HP) as Hg. set (g := Nat.gcd k N) in *.
  assert (Hgk : (Nat.divide g k)) by apply Nat.gcd_divide_l.
  assert (Hgn : (Nat.divide g N)) by apply Nat.gcd_divide_r.
  assert (g <= k)%nat by (apply Nat.divide_pos_le; [lia|done]).
  assert (g <> 0)%nat by (intros E; rewrite E in Hgk; apply Nat.divide_0_l in Hgk; lia).
  assert (Hd : (Z.of_nat g | 65535)) by (destruct Hgn as [c Hc]; exists (Z.of_nat c); lia).
  assert (Hno : forall q, q ∈ [21845; 13107; 3855; 255] -> 0 <= q -> (Z.of_nat g | q) -> False).
  { intros q Hin Hq [c Hc]. apply (lfsr_no_period q Hin). replace (Z.to_nat q) with (Z.to_nat c * g)%nat by nia.
    by apply period_mul. }
  destruct (divisor_65535 (Z.of_nat g)) as [H'|[H'|[H'|H']]]; [lia | done |..];
    (apply Hno in H'; [done | apply list_elem_of_In; cbn; tauto | lia]).
Qed.

(** Every value is an iterate of 1. *)
Lemma lfsr_covers x : 0 < x < 65536 -> exists j, x = Nat.iter j lfsr_step 1.
Proof.
  intros Hx. pose proof lfsr_period as HP. remember (Z.to_nat 65535) as N eqn:EN.
  assert (HN : Z.of_nat N = 65535) by lia. clear EN.
  pose proof (orbit_NoDup lfsr_step 1 N 0 HP (fun k => lfsr_minimal N k HN HP)) as Hnd.
  set (o := map _ (seq 1 N)) in Hnd.
  assert (Hsub : o ⊆+ seqZ 1 65535).
  { apply NoDup_submseteq; [done|]. intros y (k & -> & _)%list_elem_of_fmap. apply elem_of_seqZ.
    pose proof (pid_iter_range k 1). cbn [Nat.iter]. change (Nat.iter 0 lfsr_step 1) with 1. lia. }
  assert (Hperm : o ≡ₚ seqZ 1 65535).
  { apply submseteq_length_Permutation; [done|]. unfold o. rewrite length_map, length_seq, length_seqZ. lia. }
  assert (Hin : x ∈ o) by (rewrite Hperm; apply elem_of_seqZ; lia).
  apply list_elem_of_fmap in Hin as (k & -> & _). by exists k.
Qed.

Lemma next_pid_loop_spec mq k : forall fuel x, (0 < k <= fuel)%nat ->
  Nat.iter k lfsr_step x ∉ map msg_id (mq_msgs mq) ->
  exists j, next_pid_loop fuel mq x = Some (Nat.iter j lfsr_step x) /\ Nat.iter j lfsr_step x ∉ map msg_id (mq_msgs mq).
Proof.
  induction k as [|k IH]; intros fuel x Hk Hfree; [lia|]. destruct fuel as [|fuel]; [lia|]. cbn [next_pid_loop].
  destruct (existsb (fun m => msg_id m =? lfsr_step x) (mq_msgs mq)) eqn:E.
  - apply existsb_exists in E as (m & Hm & E). zbool.
    assert (Hin : lfsr_step x ∈ map msg_id (mq_msgs mq))
      by (rewrite <- E; apply list_elem_of_fmap; exists m; split; [done | by apply list_elem_of_In]).
    rewrite Nat.iter_succ_r in Hfree.
    destruct (IH fuel (lfsr_step x)) as (j & Hj & Hfree'); [|done|].
    { destruct k; [done | lia]. }
    exists (S j). by rewrite Nat.iter_succ_r.
  - exists 1%nat. split; [done|]. cbn. intros Hin. apply list_elem_of_fmap in Hin as (m & Em & Hm).
    apply list_elem_of_In in Hm. assert (Ht : existsb (fun m => msg_id m =? lfsr_step x) (mq_msgs mq) = true)
      by (apply existsb_exists; exists m; split; [done|]; by apply Z.eqb_eq).
    congruence.
Qed.

(** From a state of the register that is not 0 the search ends. *)
Lemma next_pid_ends mq x : 0 < x < 65536 -> zlen (mq_msgs mq) < 65535 ->
  exists id, next_pid_loop (Z.to_nat 65535) mq x = Some id /\ 0 < id < 65536 /\ id ∉ map msg_id (mq_msgs mq).
Proof.
  intros Hx Hn. destruct (lfsr_covers x Hx) as [j Ej].
  pose proof lfsr_period as HP. remember (Z.to_nat 65535) as N eqn:EN.
  assert (HN : Z.of_nat N = 65535) by lia. clear EN.
  pose proof (orbit_NoDup lfsr_step 1 N j HP (fun k => lfsr_minimal N k HN HP)) as Hnd. rewrite <- Ej in Hnd.
  assert (Hfree : exists k, (0 < k <= N)%nat /\ Nat.iter k lfsr_step x ∉ map msg_id (mq_msgs mq)).
  { destruct (decide (Exists (fun k => Nat.iter k lfsr_step x ∉ map msg_id (mq_msgs mq)) (seq 1 N))) as [He|He].
    - apply Exists_exists in He as (k & Hk%elem_of_seq & Hf). exists k. split; [lia | done].
    - exfalso. apply not_Exists_Forall in He; [|tc_solve].
      assert (Hsub : map (fun k => Nat.iter k lfsr_step x) (seq 1 N) ⊆+ map msg_id (mq_msgs mq)).
      { apply NoDup_submseteq; [done|]. intros y (k & -> & Hk)%list_elem_of_fmap.
        rewrite Forall_forall in He. specialize (He k Hk). cbn in He. by apply dec_stable in He. }
      apply submseteq_length in Hsub. rewrite !length_map, length_seq in Hsub. lia. }
  destruct Hfree as (k & Hk & Hf). destruct (next_pid_loop_spec mq k N x Hk Hf) as (i & Ei & Hi).
  exists (Nat.iter i lfsr_step x). split; [done|]. split; [by apply pid_iter_range | done].
Qed.

(** C19: [__mqtt_next_pid] always ends while fewer than 65535 messages are queued, from
    every state of the shift register, and returns an identifier from 1 to 65535 that no
    queued message has. *)
Theorem next_pid_fresh mq pid_lfsr : is_u16 pid_lfsr -> zlen (mq_msgs mq) < 65535 ->
  exists id, __mqtt_next_pid mq pid_lfsr = Some id /\ 0 < id < 65536 /\ id ∉ map msg_id (mq_msgs mq).
Proof. intros Hl Hn. unfold __mqtt_next_pid. apply next_pid_ends; [|done]. case_if; zbool; lia. Qed.

Lemma next_pid_fresh_witness : exists id,
  __mqtt_next_pid (mkMq [] 0 0 [mkMsg 0 2 MQTT_QUEUED_UNSENT 0 MQTT_CONTROL_PUBLISH 46161]) 0 = Some id
  /\ 0 < id < 65536 /\ id ∉ [46161].
Proof.
  apply (next_pid_fresh (mkMq [] 0 0 [mkMsg 0 2 MQTT_QUEUED_UNSENT 0 MQTT_CONTROL_PUBLISH 46161]) 0);
    [lia | by vm_compute].
Defined.
