(* ===== verification/MqttClient.v ===== *)
(** * fun_protocol/mqtt/e_mqtt.c: the MQTT client

    The operations of [mqtt_client] on the message queue of MqttQueue.v: staging of
    requests, sending what is queued, handling what is received.  The clock, the
    socket and the user's callbacks are operations of a world that is passed along.
    The client is used by one thread, so that the mutex does nothing; the statistics
    in floating point and the opaque callback states are omitted; counters and times
    stay within their types. *)

From stdpp Require Import prelude.
From S2P Require Import Prelude CMem Mqtt MqttQueue.

(** ** The world *)

(** [sys_send] is [send] of the bytes given, [sys_recv n] is [recv] of up to [n] bytes:
    the bytes received, none when there are none to read yet or the connection is
    closed, [None] for another error. *)
Class MqttWorld (W : Type) := {
  pal_time : W -> Z * W;
  sys_send : list Z -> W -> Z * W;
  sys_recv : Z -> W -> option (list Z) * W;
  publish_response_callback : response_publish -> list Z -> W -> W
}.

(** ** State *)

Record mqtt_client := mkClient {
  cl_pid_lfsr : Z;
  cl_keep_alive : Z;
  cl_time_of_last_send : Z;
  cl_error : Z;
  cl_response_timeout : Z;
  cl_number_of_timeouts : Z;
  cl_recv_mem : list Z;
  cl_recv_curr : Z;
  cl_recv_curr_sz : Z;
  cl_mq : mqtt_message_queue
}.

Definition set_error (c : mqtt_client) (e : Z) : mqtt_client :=
  mkClient (cl_pid_lfsr c) (cl_keep_alive c) (cl_time_of_last_send c) e (cl_response_timeout c)
    (cl_number_of_timeouts c) (cl_recv_mem c) (cl_recv_curr c) (cl_recv_curr_sz c) (cl_mq c).
Definition set_mq (c : mqtt_client) (q : mqtt_message_queue) : mqtt_client :=
  mkClient (cl_pid_lfsr c) (cl_keep_alive c) (cl_time_of_last_send c) (cl_error c) (cl_response_timeout c)
    (cl_number_of_timeouts c) (cl_recv_mem c) (cl_recv_curr c) (cl_recv_curr_sz c) q.
Definition set_pid (c : mqtt_client) (l : Z) : mqtt_client :=
  mkClient l (cl_keep_alive c) (cl_time_of_last_send c) (cl_error c) (cl_response_timeout c)
    (cl_number_of_timeouts c) (cl_recv_mem c) (cl_recv_curr c) (cl_recv_curr_sz c) (cl_mq c).
Definition set_keep_alive (c : mqtt_client) (k : Z) : mqtt_client :=
  mkClient (cl_pid_lfsr c) k (cl_time_of_last_send c) (cl_error c) (cl_response_timeout c)
    (cl_number_of_timeouts c) (cl_recv_mem c) (cl_recv_curr c) (cl_recv_curr_sz c) (cl_mq c).
Definition set_last_send (c : mqtt_client) (t : Z) : mqtt_client :=
  mkClient (cl_pid_lfsr c) (cl_keep_alive c) t (cl_error c) (cl_response_timeout c)
    (cl_number_of_timeouts c) (cl_recv_mem c) (cl_recv_curr c) (cl_recv_curr_sz c) (cl_mq c).
Definition count_timeout (c : mqtt_client) : mqtt_client :=
  mkClient (cl_pid_lfsr c) (cl_keep_alive c) (cl_time_of_last_send c) (cl_error c) (cl_response_timeout c)
    (cl_number_of_timeouts c + 1) (cl_recv_mem c) (cl_recv_curr c) (cl_recv_curr_sz c) (cl_mq c).
Definition set_recv (c : mqtt_client) (mem : list Z) (curr curr_sz : Z) : mqtt_client :=
  mkClient (cl_pid_lfsr c) (cl_keep_alive c) (cl_time_of_last_send c) (cl_error c) (cl_response_timeout c)
    (cl_number_of_timeouts c) mem curr curr_sz (cl_mq c).

(** [MQTT_CONNACK_ACCEPTED] and [MQTT_SUBACK_FAILURE]. *)
Definition MQTT_CONNACK_ACCEPTED : Z := 0.
Definition MQTT_SUBACK_FAILURE : Z := 128.

Section client.
Context (hdr : Z) (uninit : nat -> mqtt_queued_message).
Context {W : Type} `{MqttWorld W}.

(** The members that initialisation leaves alone are the client's before. *)
Definition mqtt_init (c : mqtt_client) (sendbuf recvbuf : option (list Z)) : Z * mqtt_client :=
  match sendbuf, recvbuf with
  | Some sendbuf, Some recvbuf =>
      (MQTT_OK, mkClient (cl_pid_lfsr c) (cl_keep_alive c) (cl_time_of_last_send c)
                  (mqtt_error MQTT_ERROR_CONNECT_NOT_CALLED) 30 0 recvbuf 0 (zlen recvbuf) (mqtt_mq_init hdr sendbuf))
  | _, _ => (mqtt_error MQTT_ERROR_NULLPTR, c)
  end.

Definition mqtt_reinit (c : mqtt_client) (sendbuf recvbuf : list Z) : mqtt_client :=
  set_mq (set_recv (set_error c (mqtt_error MQTT_ERROR_CONNECT_NOT_CALLED)) recvbuf 0 (zlen recvbuf))
    (mqtt_mq_init hdr sendbuf).

(** ** Staging *)

(** A call of a packer with [mq.curr] and [mq.curr_sz]. *)
Definition pack_at (q : mqtt_message_queue) (pack : list Z -> Z -> option (Z * list Z))
    : option (Z * mqtt_message_queue) :=
  region ← rd_bytes (mq_mem q) (mq_curr q) (mq_curr_sz q);
  '(rv, region) ← pack region (mq_curr_sz q);
  mem ← wr_bytes (mq_mem q) (mq_curr q) region;
  Some (rv, mkMq mem (mq_curr q) (mq_curr_sz q) (mq_msgs q)).

(** The macro [MQTT_CLIENT_TRY_PACK], followed by [msg->control_type = type;] and, when
    there is one, [msg->packet_id = id;], and [return MQTT_OK;]. *)
Definition MQTT_CLIENT_TRY_PACK (c : mqtt_client) (pack : list Z -> Z -> option (Z * list Z))
    (type : Z) (id : option Z) : option (Z * mqtt_client) :=
  return_if cl_error c <? 0 with Some (cl_error c, c) ;;
  let register q n :=
    let q := mqtt_mq_register hdr uninit q n in
    let label m := mkMsg (msg_start m) (msg_size m) (msg_state m) (msg_time m) type (default (msg_id m) id) in
    Some (MQTT_OK, set_mq c (mq_update q (pred (length (mq_msgs q))) label)) in
  '(rv, q) ← pack_at (cl_mq c) pack;
  return_if rv <? 0 with Some (rv, set_error (set_mq c q) rv) ;;
  return_if negb (rv =? 0) with register q rv ;;
  q ← mqtt_mq_clean hdr q;
  '(rv, q) ← pack_at q pack;
  return_if rv <? 0 with Some (rv, set_error (set_mq c q) rv) ;;
  return_if rv =? 0
    with Some (mqtt_error MQTT_ERROR_SEND_BUFFER_IS_FULL,
               set_error (set_mq c q) (mqtt_error MQTT_ERROR_SEND_BUFFER_IS_FULL)) ;;
  register q rv.

Definition mqtt_connect (c : mqtt_client) (client_id will_topic will_message : option (list Z))
    (will_message_size : Z) (user_name password : option (list Z)) (connect_flags keep_alive : Z)
    : option (Z * mqtt_client) :=
  let c := set_keep_alive c keep_alive in
  let c := if cl_error c =? mqtt_error MQTT_ERROR_CONNECT_NOT_CALLED then set_error c MQTT_OK else c in
  MQTT_CLIENT_TRY_PACK c
    (fun m n => mqtt_pack_connection_request m n client_id will_topic will_message will_message_size
                  user_name password connect_flags keep_alive)
    MQTT_CONTROL_CONNECT None.

(** The identifier is drawn before the client's error is looked at. *)
Definition with_pid (c : mqtt_client) (k : mqtt_client -> Z -> option (Z * mqtt_client)) : option (Z * mqtt_client) :=
  packet_id ← __mqtt_next_pid (cl_mq c) (cl_pid_lfsr c);
  k (set_pid c packet_id) packet_id.

Definition mqtt_publish (c : mqtt_client) (topic_name : option (list Z)) (application_message : list Z)
    (application_message_size publish_flags : Z) : option (Z * mqtt_client) :=
  with_pid c (fun c packet_id =>
    MQTT_CLIENT_TRY_PACK c
      (fun m n => mqtt_pack_publish_request m n topic_name packet_id application_message
                    application_message_size publish_flags)
      MQTT_CONTROL_PUBLISH (Some packet_id)).

Definition __mqtt_puback (c : mqtt_client) (packet_id : Z) : option (Z * mqtt_client) :=
  MQTT_CLIENT_TRY_PACK c (fun m n => mqtt_pack_pubxxx_request m n MQTT_CONTROL_PUBACK packet_id)
    MQTT_CONTROL_PUBACK (Some packet_id).

Definition __mqtt_pubrec (c : mqtt_client) (packet_id : Z) : option (Z * mqtt_client) :=
  MQTT_CLIENT_TRY_PACK c (fun m n => mqtt_pack_pubxxx_request m n MQTT_CONTROL_PUBREC packet_id)
    MQTT_CONTROL_PUBREC (Some packet_id).

Definition __mqtt_pubrel (c : mqtt_client) (packet_id : Z) : option (Z * mqtt_client) :=
  MQTT_CLIENT_TRY_PACK c (fun m n => mqtt_pack_pubxxx_request m n MQTT_CONTROL_PUBREL packet_id)
    MQTT_CONTROL_PUBREL (Some packet_id).

Definition __mqtt_pubcomp (c : mqtt_client) (packet_id : Z) : option (Z * mqtt_client) :=
  MQTT_CLIENT_TRY_PACK c (fun m n => mqtt_pack_pubxxx_request m n MQTT_CONTROL_PUBCOMP packet_id)
    MQTT_CONTROL_PUBCOMP (Some packet_id).

Definition mqtt_subscribe (c : mqtt_client) (topic_name : option (list Z)) (max_qos_level : Z)
    : option (Z * mqtt_client) :=
  with_pid c (fun c packet_id =>
    MQTT_CLIENT_TRY_PACK c
      (fun m n => mqtt_pack_subscribe_request m n packet_id
                    (match topic_name with Some t => [(t, max_qos_level)] | None => [] end))
      MQTT_CONTROL_SUBSCRIBE (Some packet_id)).

Definition mqtt_unsubscribe (c : mqtt_client) (topic_name : option (list Z)) : option (Z * mqtt_client) :=
  with_pid c (fun c packet_id =>
    MQTT_CLIENT_TRY_PACK c
      (fun m n => mqtt_pack_unsubscribe_request m n packet_id
                    (match topic_name with Some t => [t] | None => [] end))
      MQTT_CONTROL_UNSUBSCRIBE (Some packet_id)).

Definition __mqtt_ping (c : mqtt_client) : option (Z * mqtt_client) :=
  MQTT_CLIENT_TRY_PACK c mqtt_pack_ping_request MQTT_CONTROL_PINGREQ None.

Definition mqtt_ping (c : mqtt_client) : option (Z * mqtt_client) := __mqtt_ping c.

Definition mqtt_disconnect (c : mqtt_client) : option (Z * mqtt_client) :=
  MQTT_CLIENT_TRY_PACK c mqtt_pack_disconnect MQTT_CONTROL_DISCONNECT None.

(** ** Sending *)

(** Each turn sends a byte at least. *)
Fixpoint sendall_loop (fuel : nat) (buf : list Z) (sent : Z) (w : W) : option (Z * W) :=
  match fuel with
  | O => None
  | S fuel =>
      return_if negb (sent <? zlen buf) with Some (sent, w) ;;
      let '(tmp, w) := sys_send (drop (Z.to_nat sent) buf) w in
      return_if tmp <? 1 with Some (mqtt_error MQTT_ERROR_SOCKET_ERROR, w) ;;
      sendall_loop fuel buf (sent + tmp) w
  end.

Definition mqtt_pal_sendall (buf : list Z) (w : W) : option (Z * W) := sendall_loop (S (length buf)) buf 0 w.

(** Whether the message is unsent or due again. *)
Definition wants_sending (c : mqtt_client) (m : mqtt_queued_message) (w : W) : bool * mqtt_client * W :=
  match msg_state m with
  | MQTT_QUEUED_UNSENT => (true, c, w)
  | MQTT_QUEUED_AWAITING_ACK =>
      let '(t, w) := pal_time w in
      if t >? msg_time m + cl_response_timeout c then (true, count_timeout c, w) else (false, c, w)
  | MQTT_QUEUED_COMPLETE => (false, c, w)
  end.

(** One QoS 2 PUBLISH in flight at a time: whether to send, and the flag. *)
Definition qos2_gate (q : mqtt_message_queue) (m : mqtt_queued_message) (resend inflight_qos2 : bool)
    : option (bool * bool) :=
  if (msg_type m =? MQTT_CONTROL_PUBLISH)
     && (is_state m MQTT_QUEUED_UNSENT || is_state m MQTT_QUEUED_AWAITING_ACK)
  then b ← rd8 (mq_mem q) (msg_start m);
       if Z.land 0x03 (Z.shiftr b 1) =? 2
       then Some (if inflight_qos2 then false else resend, true) else Some (resend, inflight_qos2)
  else Some (resend, inflight_qos2).

(** The [switch] that determines the state of a message that is sent; the memory
    changes for the duplicate flag.  [None] is the default case. *)
Definition after_send (mem : list Z) (m : mqtt_queued_message) : option (option (MQTTQueuedMessageState * list Z)) :=
  let t := msg_type m in
  if (t =? MQTT_CONTROL_PUBACK) || (t =? MQTT_CONTROL_PUBCOMP) || (t =? MQTT_CONTROL_DISCONNECT)
  then Some (Some (MQTT_QUEUED_COMPLETE, mem))
  else if t =? MQTT_CONTROL_PUBLISH
  then b ← rd8 mem (msg_start m);
       let inspected := Z.land 0x03 (Z.shiftr b 1) in
       if inspected =? 0 then Some (Some (MQTT_QUEUED_COMPLETE, mem))
       else if inspected =? 1
       then b ← rd8 mem (msg_start m + 1);
            mem ← wr8 mem (msg_start m + 1) (Z.lor b MQTT_PUBLISH_DUP);
            Some (Some (MQTT_QUEUED_AWAITING_ACK, mem))
       else Some (Some (MQTT_QUEUED_AWAITING_ACK, mem))
  else if (t =? MQTT_CONTROL_CONNECT) || (t =? MQTT_CONTROL_PUBREC) || (t =? MQTT_CONTROL_PUBREL)
          || (t =? MQTT_CONTROL_SUBSCRIBE) || (t =? MQTT_CONTROL_UNSUBSCRIBE) || (t =? MQTT_CONTROL_PINGREQ)
  then Some (Some (MQTT_QUEUED_AWAITING_ACK, mem))
  else Some None.

(** The body of the loop on the message at index [i]: an early return, or the state. *)
Definition send_message (c : mqtt_client) (i : nat) (inflight_qos2 : bool) (w : W)
    : option ((Z * mqtt_client * W) + (mqtt_client * bool * W)) :=
  m ← mq_msgs (cl_mq c) !! i;
  let '(resend, c, w) := wants_sending c m w in
  '(resend, inflight_qos2) ← qos2_gate (cl_mq c) m resend inflight_qos2;
  return_if negb resend with Some (inr (c, inflight_qos2, w)) ;;
  data ← rd_bytes (mq_mem (cl_mq c)) (msg_start m) (msg_size m);
  '(tmp, w) ← mqtt_pal_sendall data w;
  return_if tmp <? 0 with Some (inl (tmp, set_error c tmp, w)) ;;
  let '(t, w) := pal_time w in
  let c := set_last_send c t in
  let sent q s := mq_update q i (fun m => mkMsg (msg_start m) (msg_size m) s t (msg_type m) (msg_id m)) in
  r ← after_send (mq_mem (cl_mq c)) m;
  match r with
  | Some (s, mem) =>
      let q := cl_mq c in
      Some (inr (set_mq c (sent (mkMq mem (mq_curr q) (mq_curr_sz q) (mq_msgs q)) s), inflight_qos2, w))
  | None =>
      let e := mqtt_error MQTT_ERROR_MALFORMED_REQUEST in
      Some (inl (e, set_error (set_mq c (sent (cl_mq c) (msg_state m))) e, w))
  end.

Fixpoint send_loop (n i : nat) (c : mqtt_client) (inflight_qos2 : bool) (w : W)
    : option ((Z * mqtt_client * W) + (mqtt_client * W)) :=
  match n with
  | O => Some (inr (c, w))
  | S n =>
      r ← send_message c i inflight_qos2 w;
      match r with
      | inl e => Some (inl e)
      | inr (c, inflight_qos2, w) => send_loop n (S i) c inflight_qos2 w
      end
  end.

Definition __mqtt_send (c : mqtt_client) (w : W) : option (Z * mqtt_client * W) :=
  return_if (cl_error c <? 0) && negb (cl_error c =? mqtt_error MQTT_ERROR_SEND_BUFFER_IS_FULL)
    with Some (cl_error c, c, w) ;;
  r ← send_loop (length (mq_msgs (cl_mq c))) 0 c false w;
  match r with
  | inl e => Some e
  | inr (c, w) =>
      let keep_alive_timeout := cl_time_of_last_send c + cl_keep_alive c * 3 / 4 in
      let '(t, w) := pal_time w in
      return_if negb (t >? keep_alive_timeout) with Some (MQTT_OK, c, w) ;;
      '(rv, c) ← __mqtt_ping c;
      return_if negb (rv =? MQTT_OK) with Some (rv, set_error c rv, w) ;;
      Some (MQTT_OK, c, w)
  end.

(** ** Receiving *)

(** The loop of [mqtt_pal_recvall] on the memory from [pos] on, [bufsz] bytes of it. *)
Fixpoint recvall_loop (fuel : nat) (mem : list Z) (start pos bufsz : Z) (w : W) : option (Z * list Z * W) :=
  match fuel with
  | O => None
  | S fuel =>
      let '(r, w) := sys_recv bufsz w in
      match r with
      | None => Some (mqtt_error MQTT_ERROR_SOCKET_ERROR, mem, w)
      | Some [] => Some (pos - start, mem, w)
      | Some bytes =>
          mem ← wr_bytes mem pos bytes;
          recvall_loop fuel mem start (pos + zlen bytes) (bufsz - zlen bytes) w
      end
  end.

Definition mqtt_pal_recvall (mem : list Z) (pos bufsz : Z) (w : W) : option (Z * list Z * W) :=
  recvall_loop (Z.to_nat bufsz + 2) mem pos pos bufsz w.

(** [client->error = e; return e;] *)
Definition fail_with (c : mqtt_client) (e : Z) (w : W) : option (Z * mqtt_client * W) := Some (e, set_error c e, w).

(** [msg->state = MQTT_QUEUED_COMPLETE] for the message found; without one the
    acknowledgement is of something unknown. *)
Definition release (c : mqtt_client) (type : Z) (id : option Z) (w : W)
    (k : mqtt_client -> option (Z * mqtt_client * W)) : option (Z * mqtt_client * W) :=
  match mqtt_mq_find (cl_mq c) type id with
  | None => fail_with c (mqtt_error MQTT_ERROR_ACK_OF_UNKNOWN) w
  | Some i => k (set_mq c (mq_update (cl_mq c) i (set_msg_state MQTT_QUEUED_COMPLETE)))
  end.

(** [rv = stage (client, id); if (rv != MQTT_OK) { client->error = rv; return rv; }] *)
Definition staging (r : option (Z * mqtt_client)) (w : W) (k : mqtt_client -> option (Z * mqtt_client * W))
    : option (Z * mqtt_client * W) :=
  '(rv, c) ← r;
  return_if negb (rv =? MQTT_OK) with fail_with c rv w ;;
  k c.

(** The [switch] on the response: [MQTT_OK] when it breaks.  The offsets of the response
    are from [body], what is behind the fixed header. *)
Definition handle_response (c : mqtt_client) (h : mqtt_fixed_header) (d : mqtt_decoded) (body : list Z) (w : W)
    : option (Z * mqtt_client * W) :=
  let done c := Some (MQTT_OK, c, w) in
  match d with
  | DConnack _ return_code =>
      release c MQTT_CONTROL_CONNECT None w (fun c =>
        let w := (pal_time w).2 in
        return_if negb (return_code =? MQTT_CONNACK_ACCEPTED)
          with fail_with c (mqtt_error MQTT_ERROR_CONNECTION_REFUSED) w ;;
        Some (MQTT_OK, c, w))
  | DPublish p =>
      let deliver c := Some (MQTT_OK, c, publish_response_callback p body w) in
      if qos_level p =? 1 then
        packet_id ← publish_id p;
        staging (__mqtt_puback c packet_id) w deliver
      else if qos_level p =? 2 then
        packet_id ← publish_id p;
        return_if bool_decide (is_Some (mqtt_mq_find (cl_mq c) MQTT_CONTROL_PUBREC (Some packet_id)))
          with done c ;;
        staging (__mqtt_pubrec c packet_id) w deliver
      else deliver c
  | DPuback packet_id =>
      release c MQTT_CONTROL_PUBLISH (Some packet_id) w (fun c => Some (MQTT_OK, c, (pal_time w).2))
  | DPubrec packet_id =>
      return_if bool_decide (is_Some (mqtt_mq_find (cl_mq c) MQTT_CONTROL_PUBREL (Some packet_id)))
        with done c ;;
      release c MQTT_CONTROL_PUBLISH (Some packet_id) w (fun c =>
        let w := (pal_time w).2 in
        staging (__mqtt_pubrel c packet_id) w (fun c => Some (MQTT_OK, c, w)))
  | DPubrel packet_id =>
      release c MQTT_CONTROL_PUBREC (Some packet_id) w (fun c =>
        let w := (pal_time w).2 in
        staging (__mqtt_pubcomp c packet_id) w (fun c => Some (MQTT_OK, c, w)))
  | DPubcomp packet_id =>
      release c MQTT_CONTROL_PUBREL (Some packet_id) w (fun c => Some (MQTT_OK, c, (pal_time w).2))
  | DSuback packet_id _ return_codes =>
      release c MQTT_CONTROL_SUBSCRIBE (Some packet_id) w (fun c =>
        let w := (pal_time w).2 in
        code ← rd8 body return_codes;
        return_if code =? MQTT_SUBACK_FAILURE with fail_with c (mqtt_error MQTT_ERROR_SUBSCRIBE_FAILED) w ;;
        Some (MQTT_OK, c, w))
  | DUnsuback packet_id =>
      release c MQTT_CONTROL_UNSUBSCRIBE (Some packet_id) w (fun c => Some (MQTT_OK, c, (pal_time w).2))
  | DPingresp => release c MQTT_CONTROL_PINGREQ None w (fun c => Some (MQTT_OK, c, (pal_time w).2))
  | DConnect _ | DSubscribe _ _ => fail_with c (mqtt_error MQTT_ERROR_MALFORMED_RESPONSE) w
  end.

(** The header that [mqtt_unpack_response] leaves in a response that starts as [h0]. *)
Fixpoint recv_loop (fuel : nat) (h0 : mqtt_fixed_header) (c : mqtt_client) (w : W) : option (Z * mqtt_client * W) :=
  match fuel with
  | O => None
  | S fuel =>
      '(rv, mem, w) ← mqtt_pal_recvall (cl_recv_mem c) (cl_recv_curr c) (cl_recv_curr_sz c) w;
      return_if rv <? 0 with fail_with (set_recv c mem (cl_recv_curr c) (cl_recv_curr_sz c)) rv w ;;
      let c := set_recv c mem (cl_recv_curr c + rv) (cl_recv_curr_sz c - rv) in
      '(consumed, h, d) ← mqtt_unpack_response h0 (cl_recv_mem c) (cl_recv_curr c);
      return_if consumed <? 0 with fail_with c consumed w ;;
      return_if consumed =? 0
        with (if cl_recv_curr_sz c =? 0 then fail_with c (mqtt_error MQTT_ERROR_RECV_BUFFER_TOO_SMALL) w
              else Some (MQTT_OK, c, w)) ;;
      d ← d;
      '(n, _) ← mqtt_unpack_fixed_header h0 (Some (cl_recv_mem c)) (cl_recv_curr c);
      '(rv, c, w) ← handle_response c h d (drop (Z.to_nat n) (cl_recv_mem c)) w;
      return_if negb (rv =? MQTT_OK) with Some (rv, c, w) ;;
      mem ← memmove_in (cl_recv_mem c) 0 consumed (cl_recv_curr c - consumed);
      recv_loop fuel h (set_recv c mem (cl_recv_curr c - consumed) (cl_recv_curr_sz c + consumed)) w
  end.

(** [h0] is what the uninitialised [response] holds. *)
Definition __mqtt_recv (fuel : nat) (h0 : mqtt_fixed_header) (c : mqtt_client) (w : W) : option (Z * mqtt_client * W) :=
  recv_loop fuel h0 c w.

(** The callbacks of the user, where they are set. *)
Definition mqtt_sync (reconnect : option (mqtt_client -> W -> mqtt_client * W))
    (inspector : option (mqtt_client -> W -> Z * mqtt_client * W)) (fuel : nat) (h0 : mqtt_fixed_header)
    (c : mqtt_client) (w : W) : option (Z * mqtt_client * W) :=
  let '(c, w) := if negb (cl_error c =? MQTT_OK) then match reconnect with Some f => f c w | None => (c, w) end else (c, w) in
  let '(err, c, w) := match inspector with Some f => f c w | None => (MQTT_OK, c, w) end in
  return_if negb (err =? MQTT_OK) with Some (err, c, w) ;;
  '(err, c, w) ← __mqtt_recv fuel h0 c w;
  return_if negb (err =? MQTT_OK) with Some (err, c, w) ;;
  __mqtt_send c w.
End client.
