(* ===== verification/MqttClientCorrect.v ===== *)
(** * The MQTT client as a list of packets

    The client's queue is the list of its packets (MqttQueue.v).  Staging, sending and
    the handling of responses are given as functions on that list, which the operations
    of MqttClient.v implement; the block of memory shows up as the room that decides
    whether a packet is staged. *)

From stdpp Require Import prelude.
From S2P Require Import Prelude CMem Mqtt MqttCorrect MqttQueue MqttClient.

Lemma alter_is_insert {A} (f : A -> A) (i : nat) (l : list A) x : l !! i = Some x -> alter f i l = <[i := f x]> l.
Proof.
  revert i. induction l as [|y l IH]; intros [|i] Hx; cbn in *; simplify_eq; [done|]. f_equal. by apply IH.
Qed.

Section staging.
Context (hdr : Z) (uninit : nat -> mqtt_queued_message) (Hhdr : 0 <= hdr) (cap : Z).
Implicit Types (l : list qmsg) (c : mqtt_client).

Abbreviation rep := (mq_rep hdr cap).

(** ** Staging on the list *)

Definition room l : Z := mqtt_mq_currsz hdr cap (zlen (packed l)) (length l).

(** A packet at the end of the queue. *)
Definition enqueue l (packet : list Z) (type : Z) (id : option Z) : list qmsg :=
  let u := uninit (length l) in
  l ++ [mkQ packet MQTT_QUEUED_UNSENT (msg_time u) type (default (msg_id u) id)].

(** As the queue is, or after what is complete at its front has been removed. *)
Definition stage l (packet : list Z) (type : Z) (id : option Z) : Z * list qmsg :=
  if zlen packet <=? room l then (MQTT_OK, enqueue l packet type id)
  else let l := drop_removable l in
       if zlen packet <=? room l then (MQTT_OK, enqueue l packet type id)
       else (mqtt_error MQTT_ERROR_SEND_BUFFER_IS_FULL, l).

(** The client with another queue, and the error a call returned. *)
Definition with_result c (q : mqtt_message_queue) (rv : Z) : mqtt_client :=
  if rv =? MQTT_OK then set_mq c q else set_error (set_mq c q) rv.

(** A packer that writes [packet] wherever it fits. *)
Definition always_packs (pack : list Z -> Z -> option (Z * list Z)) (packet : list Z) : Prop :=
  forall m bufsz, 0 <= bufsz <= zlen m -> packs (pack m bufsz) m bufsz packet.

Lemma room_bounds q l : rep q l -> 0 <= room l /\ zlen (packed l) + room l <= cap.
Proof.
  intros H. assert (Hp : zlen (packed l) <= cap).
  { destruct (rep_mem _ _ _ _ H) as [rest Hm]. rewrite <- (rep_cap _ _ _ _ H), Hm, length_app. lia. }
  unfold room, mqtt_mq_currsz. case_if; zbool; nia.
Qed.

Lemma pack_at_spec q l pack packet : rep q l -> always_packs pack packet ->
  exists q', pack_at q pack = Some (if zlen packet <=? room l then zlen packet else 0, q') /\ rep q' l
    /\ (zlen packet <= room l -> exists rest, q' = mkMq (packed l ++ packet ++ rest) (mq_curr q) (mq_curr_sz q) (mq_msgs q)
        /\ length (mq_mem q) = length (packed l ++ packet ++ rest)).
Proof.
  intros H Hpack. pose proof (room_bounds q l H) as Hr. destruct H as [[rest Hm] Hcap Hc Hs Hq Hroom].
  fold (room l) in Hs. unfold pack_at. rewrite Hm, Hc, Hs.
  assert (Hlen : zlen (packed l) + zlen rest = cap) by (rewrite <- Hcap, Hm, length_app; lia).
  rewrite <- (take_drop (Z.to_nat (room l)) rest).
  set (region := take _ rest). set (after := drop _ rest).
  assert (Hreg : zlen region = room l) by (unfold region; rewrite length_take; lia).
  rewrite rd_bytes_app, bind_Some by done.
  destruct (Hpack region (room l)) as (m' & -> & Hm' & Hw); [lia|]. rewrite bind_Some.
  rewrite wr_bytes_app, bind_Some by (rewrite ?length_app; lia).
  rewrite drop_app_length' by done. eexists. split; [done|]. split.
  - split; cbn [mq_mem mq_curr mq_curr_sz mq_msgs]; try done; [by eexists|].
    rewrite <- Hcap, Hm, <- (take_drop (Z.to_nat (room l)) rest). fold region after.
    rewrite !length_app. lia.
  - intros Hfit. rewrite (Hw Hfit). rewrite <- !app_assoc. eexists. split; [done|].
    rewrite !length_app, length_drop. lia.
Qed.

Lemma label_spec q l packet st t ty id0 type id :
  rep q (l ++ [mkQ packet st t ty id0]) ->
  rep (mq_update q (pred (length (mq_msgs q)))
        (fun m => mkMsg (msg_start m) (msg_size m) (msg_state m) (msg_time m) type (default (msg_id m) id)))
    (l ++ [mkQ packet st t type (default id0 id)]).
Proof.
  intros H. rewrite (rep_msgs _ _ _ _ H), headers_length, length_app. replace (pred _) with (length l) by (cbn; lia).
  set (f := fun m => _).
  pose proof (mq_update_spec hdr cap q (l ++ [mkQ packet st t ty id0]) (length l) f
    (fun m => mkQ (q_bytes m) (q_state m) (q_time m) type (default (q_id m) id))
    (fun _ _ => eq_refl) (fun _ => eq_refl) H) as Hu.
  by rewrite alter_app_r_alt, Nat.sub_diag in Hu by done.
Qed.

Lemma try_pack_spec c l pack packet type id :
  0 <= cl_error c -> rep (cl_mq c) l -> always_packs pack packet -> 0 < zlen packet ->
  let '(rv, l') := stage l packet type id in
  exists q', MQTT_CLIENT_TRY_PACK hdr uninit c pack type id = Some (rv, with_result c q' rv) /\ rep q' l'.
Proof.
  intros He H Hpack Hlen. unfold MQTT_CLIENT_TRY_PACK, stage. zfalse (cl_error c <? 0).
  assert (Hreg : forall q l packet' rest q1, rep q l -> 0 < zlen packet' <= room l ->
    q1 = mkMq (packed l ++ packet' ++ rest) (mq_curr q) (mq_curr_sz q) (mq_msgs q) ->
    length (mq_mem q) = length (packed l ++ packet' ++ rest) ->
    exists q', mq_update (mqtt_mq_register hdr uninit q1 (zlen packet'))
        (pred (length (mq_msgs (mqtt_mq_register hdr uninit q1 (zlen packet')))))
        (fun m => mkMsg (msg_start m) (msg_size m) (msg_state m) (msg_time m) type (default (msg_id m) id)) = q'
      /\ rep q' (enqueue l packet' type id)).
  { clear -Hhdr. intros q l packet rest q1 H Hp -> Hm. eexists. split; [done|]. apply label_spec with (ty := msg_type (uninit (length l))).
    apply mqtt_mq_register_spec; [done | done | | done]. by rewrite (rep_sz _ _ _ _ H). }
  destruct (pack_at_spec (cl_mq c) l pack packet H Hpack) as (q1 & -> & H1 & Hfit). rewrite bind_Some.
  destruct (Z.leb_spec (zlen packet) (room l)) as [Hle|Hgt].
  - destruct (Hfit Hle) as (rest & Eq1 & Hm). zfalse (zlen packet <? 0). zfalse (zlen packet =? 0).
    destruct (Hreg (cl_mq c) l packet rest q1) as (q' & <- & Hq'); [done|done|done|done|]. by eexists.
  - cbn [Z.ltb Z.compare Z.eqb negb]. 
    destruct (mqtt_mq_clean_spec hdr cap q1 l Hhdr H1) as (q2 & -> & H2). rewrite bind_Some.
    destruct (pack_at_spec q2 (drop_removable l) pack packet H2 Hpack) as (q3 & -> & H3 & Hfit'). rewrite bind_Some.
    destruct (Z.leb_spec (zlen packet) (room (drop_removable l))) as [Hle|Hgt'].
    + destruct (Hfit' Hle) as (rest & Eq3 & Hm). zfalse (zlen packet <? 0). zfalse (zlen packet =? 0).
      destruct (Hreg q2 (drop_removable l) packet rest q3) as (q' & <- & Hq'); [done|done|done|done|]. by eexists.
    + by eexists.
Qed.
(** ** Requests with an identifier *)

Lemma headers_ids pos l : map msg_id (headers pos l) = map q_id l.
Proof. revert pos. induction l as [|m l IH]; intros pos; [done|]. cbn. by rewrite IH. Qed.

Lemma next_pid_new q l lfsr : rep q l -> is_u16 lfsr -> zlen l < 65535 ->
  exists id, __mqtt_next_pid q lfsr = Some id /\ 0 < id < 65536 /\ (id ∉ map q_id l).
Proof.
  intros Hr Hl Hn. rewrite <- (headers_ids 0), <- (rep_msgs _ _ _ _ Hr). apply next_pid_ends.
  - case_if; zbool; lia.
  - by rewrite (rep_msgs _ _ _ _ Hr), headers_length.
Qed.

Lemma with_pid_stages c l pack packet type :
  0 <= cl_error c -> rep (cl_mq c) l -> is_u16 (cl_pid_lfsr c) -> zlen l < 65535 ->
  (forall id, is_u16 id -> always_packs (pack id) (packet id)) -> (forall id, 0 < zlen (packet id)) ->
  exists id, 0 < id < 65536 /\ (id ∉ map q_id l)
    /\ let '(rv, l') := stage l (packet id) type (Some id) in
       exists q', with_pid c (fun c id => MQTT_CLIENT_TRY_PACK hdr uninit c (pack id) type (Some id))
           = Some (rv, with_result (set_pid c id) q' rv) /\ rep q' l'.
Proof.
  intros He Hr Hl Hn Hpack Hlen. destruct (next_pid_new (cl_mq c) l (cl_pid_lfsr c) Hr Hl Hn) as (id & E & Hid & Hnew).
  exists id. split; [done|]. split; [done|]. unfold with_pid. rewrite E, bind_Some.
  apply (try_pack_spec (set_pid c id)); [done | done | apply Hpack; lia | done].
Qed.

(** A request, the packet it is, and the call that makes it. *)
Inductive request :=
  | Publish (topic message : list Z) (flags : Z)
  | Subscribe (topic : list Z) (max_qos : Z)
  | Unsubscribe (topic : list Z).

Definition request_ok (r : request) : Prop :=
  match r with
  | Publish topic message flags =>
      0 <= flags < 16 /\ publish_qos flags <> 3 /\ zlen (publish_body topic 0 message flags) < 65536
  | Subscribe topic _ | Unsubscribe topic => zlen topic < 65536
  end.

Definition request_type (r : request) : Z :=
  match r with
  | Publish _ _ _ => MQTT_CONTROL_PUBLISH
  | Subscribe _ _ => MQTT_CONTROL_SUBSCRIBE
  | Unsubscribe _ => MQTT_CONTROL_UNSUBSCRIBE
  end.

Definition request_packet (r : request) (id : Z) : list Z :=
  let framed body := header_bytes (mkHeader (request_type r) 2 (zlen body)) ++ body in
  match r with
  | Publish topic message flags => publish_packet topic id message flags
  | Subscribe topic max_qos => framed (subscribe_body id [(topic, max_qos)])
  | Unsubscribe topic => framed (unsubscribe_body id [topic])
  end.

Definition issue (r : request) (c : mqtt_client) : option (Z * mqtt_client) :=
  match r with
  | Publish topic message flags => mqtt_publish hdr uninit c (Some topic) message (zlen message) flags
  | Subscribe topic max_qos => mqtt_subscribe hdr uninit c (Some topic) max_qos
  | Unsubscribe topic => mqtt_unsubscribe hdr uninit c (Some topic)
  end.

Lemma publish_always_packs topic message flags id : request_ok (Publish topic message flags) ->
  always_packs (fun m n => mqtt_pack_publish_request m n (Some topic) id message (zlen message) flags)
    (publish_packet topic id message flags).
Proof.
  intros (Hf & Hq & Hlen) m n Hn. apply publish_packs; try done.
  by rewrite publish_body_length in *.
Qed.

Lemma request_packet_pos r id : 0 < zlen (request_packet r id).
Proof. destruct r; unfold request_packet, publish_packet, header_bytes; cbn; lia. Qed.

(** C20: for a client without an error and fewer than 65535 messages in the queue,
    [mqtt_publish], [mqtt_subscribe] and [mqtt_unsubscribe] of a request that can be
    packed (a quality of service other than 3, the body of a publication and the topics
    shorter than 65536 bytes) give the request an identifier from 1 to 65535 that no
    queued message has and put its packet at the end of the queue as unsent; when there
    is no room, the messages at the front that are complete, and CONNECT packets whose
    answer is still awaited, are removed first; when there is no room even then nothing
    is queued and the error is [MQTT_ERROR_SEND_BUFFER_IS_FULL], which the client keeps. *)
Theorem mqtt_requests_queue r c l :
  request_ok r -> 0 <= cl_error c -> rep (cl_mq c) l -> is_u16 (cl_pid_lfsr c) -> zlen l < 65535 ->
  exists id, 0 < id < 65536 /\ (id ∉ map q_id l)
    /\ let '(rv, l') := stage l (request_packet r id) (request_type r) (Some id) in
       exists c', issue r c = Some (rv, c') /\ rep (cl_mq c') l' /\ cl_pid_lfsr c' = id
         /\ cl_error c' = (if rv =? MQTT_OK then cl_error c else rv).
Proof.
  intros Hok He Hr Hl Hn.
  assert (Hstage : forall pack, (forall id, is_u16 id -> always_packs (pack id) (request_packet r id)) ->
    issue r c = with_pid c (fun c id => MQTT_CLIENT_TRY_PACK hdr uninit c (pack id) (request_type r) (Some id)) ->
    exists id, 0 < id < 65536 /\ (id ∉ map q_id l)
    /\ let '(rv, l') := stage l (request_packet r id) (request_type r) (Some id) in
       exists c', issue r c = Some (rv, c') /\ rep (cl_mq c') l' /\ cl_pid_lfsr c' = id
         /\ cl_error c' = (if rv =? MQTT_OK then cl_error c else rv)).
  { intros pack Hpack ->.
    destruct (with_pid_stages c l pack (request_packet r) (request_type r) He Hr Hl Hn Hpack (request_packet_pos r))
      as (id & Hid & Hnew & Hs). exists id. split; [done|]. split; [done|].
    destruct (stage _ _ _ _) as [rv l']. destruct Hs as (q' & -> & Hq'). eexists. split; [done|].
    unfold with_result. by destruct (rv =? MQTT_OK). }
  destruct r as [topic message flags|topic max_qos|topic]; (eapply Hstage; [|done]); cbn beta; intros id Hid.
  - by apply publish_always_packs.
  - intros m n Hb. apply subscribe_packs; [done | done | by constructor].
  - intros m n Hb. apply unsubscribe_packs; [done | done | by constructor].
Qed.
End staging.

(** ** A steady world

    What an operation shows of the world: the time, which does not advance during a
    call, what was written to the socket, what it has to be read, and the topics and
    texts handed to the callback.  The socket takes and gives bytes in pieces of any
    size. *)

Record observation := mkObs {
  now : Z; wire : list Z; inbox : list Z; delivered : list (option (list Z) * option (list Z)) }.

Definition heard (p : response_publish) (body : list Z) : option (list Z) * option (list Z) :=
  (rd_bytes body (str (topic_name p)) (string_len (topic_name p)),
   rd_bytes body (str (message_text p)) (string_len (message_text p))).

Class SteadyWorld (W : Type) `{MqttWorld W} (obs : W -> observation) : Prop := {
  law_time w : fst (pal_time w) = now (obs w) /\ obs (snd (pal_time w)) = obs w;
  law_send w buf : 0 < zlen buf ->
    exists n w', sys_send buf w = (n, w') /\ 1 <= n <= zlen buf
      /\ obs w' = mkObs (now (obs w)) (wire (obs w) ++ take (Z.to_nat n) buf) (inbox (obs w)) (delivered (obs w));
  law_recv w n : 0 <= n ->
    exists bytes rest w', sys_recv n w = (Some bytes, w') /\ zlen bytes <= n /\ inbox (obs w) = bytes ++ rest
      /\ (bytes = [] -> n = 0 \/ inbox (obs w) = [])
      /\ obs w' = mkObs (now (obs w)) (wire (obs w)) rest (delivered (obs w));
  law_callback w p body :
    obs (publish_response_callback p body w)
    = mkObs (now (obs w)) (wire (obs w)) (inbox (obs w)) (delivered (obs w) ++ [heard p body])
}.

(** ** Sending the list *)

Definition pending (m : qmsg) : bool := negb (bool_decide (q_state m = MQTT_QUEUED_COMPLETE)).

(** The quality of service in the first byte of a packet. *)
Definition packet_qos (bytes : list Z) : Z := Z.land 3 (Z.shiftr (default 0 (bytes !! 0%nat)) 1).

Definition is_qos2 (m : qmsg) : bool := (q_type m =? MQTT_CONTROL_PUBLISH) && (packet_qos (q_bytes m) =? 2).

(** The flag goes into the second byte, which is one of the remaining length. *)
Definition mark_dup (bytes : list Z) : list Z :=
  alter (fun b => u8 (Z.lor b MQTT_PUBLISH_DUP)) 1%nat bytes.

Definition due (t timeout : Z) (m : qmsg) : bool :=
  match q_state m with
  | MQTT_QUEUED_UNSENT => true
  | MQTT_QUEUED_AWAITING_ACK => t >? q_time m + timeout
  | MQTT_QUEUED_COMPLETE => false
  end.

(** A message that has been sent at time [t]. *)
Definition sent_as (t : Z) (m : qmsg) : qmsg :=
  let type := q_type m in
  let qos := packet_qos (q_bytes m) in
  let complete := (type =? MQTT_CONTROL_PUBACK) || (type =? MQTT_CONTROL_PUBCOMP)
                  || (type =? MQTT_CONTROL_DISCONNECT) || (type =? MQTT_CONTROL_PUBLISH) && (qos =? 0) in
  mkQ (if (type =? MQTT_CONTROL_PUBLISH) && (qos =? 1) then mark_dup (q_bytes m) else q_bytes m)
    (if complete then MQTT_QUEUED_COMPLETE else MQTT_QUEUED_AWAITING_ACK) t type (q_id m).

(** The queue after a round of sending, and the bytes sent; [gate] says that a QoS 2
    message is in flight. *)
Fixpoint send_all (t timeout : Z) (gate : bool) (l : list qmsg) : list qmsg * list Z :=
  match l with
  | [] => ([], [])
  | m :: l =>
      let qos2 := pending m && is_qos2 m in
      let '(l', out) := send_all t timeout (gate || qos2) l in
      if due t timeout m && negb (qos2 && gate) then (sent_as t m :: l', q_bytes m ++ out) else (m :: l', out)
  end.

Definition sendable_types : list Z :=
  [MQTT_CONTROL_CONNECT; MQTT_CONTROL_PUBLISH; MQTT_CONTROL_PUBACK; MQTT_CONTROL_PUBREC; MQTT_CONTROL_PUBREL;
   MQTT_CONTROL_PUBCOMP; MQTT_CONTROL_SUBSCRIBE; MQTT_CONTROL_UNSUBSCRIBE; MQTT_CONTROL_PINGREQ;
   MQTT_CONTROL_DISCONNECT].

Definition sendable (m : qmsg) : Prop := 2 <= zlen (q_bytes m) /\ bool_decide (q_type m ∈ sendable_types).

(** What a round of sending leaves alone. *)
Record same_client (c c' : mqtt_client) : Prop := {
  sc_pid : cl_pid_lfsr c' = cl_pid_lfsr c;
  sc_keep : cl_keep_alive c' = cl_keep_alive c;
  sc_error : cl_error c' = cl_error c;
  sc_timeout : cl_response_timeout c' = cl_response_timeout c;
  sc_recv : cl_recv_mem c' = cl_recv_mem c /\ cl_recv_curr c' = cl_recv_curr c /\ cl_recv_curr_sz c' = cl_recv_curr_sz c
}.

#[export] Instance same_client_preorder : PreOrder same_client.
Proof.
  split; [by intros c; split|]. intros c c' c'' [E1 E2 E3 E4 E5] [F1 F2 F3 F4 F5].
  split; intuition congruence.
Qed.

Section sending.
Context (hdr : Z) (uninit : nat -> mqtt_queued_message) (Hhdr : 0 <= hdr) (cap : Z).
Context {W : Type} `{SteadyWorld W obs}.
Implicit Types (l : list qmsg) (c : mqtt_client) (w : W).

Abbreviation rep := (mq_rep hdr cap).

Definition sent_more (w : W) (out : list Z) : observation :=
  mkObs (now (obs w)) (wire (obs w) ++ out) (inbox (obs w)) (delivered (obs w)).

Lemma sendall_loop_spec buf : forall fuel sent w, 0 <= sent <= zlen buf -> zlen buf - sent < Z.of_nat fuel ->
  exists w', sendall_loop fuel buf sent w = Some (zlen buf, w') /\ obs w' = sent_more w (drop (Z.to_nat sent) buf).
Proof.
  induction fuel as [|fuel IH]; intros sent w Hs Hf; [lia|]. cbn [sendall_loop].
  destruct (Z.ltb_spec sent (zlen buf)); cbn [negb].
  - destruct (law_send w (drop (Z.to_nat sent) buf)) as (n & w1 & -> & Hn & Hw1); [rewrite length_drop; lia|].
    rewrite length_drop in Hn. zfalse (n <? 1).
    destruct (IH (sent + n) w1) as (w' & -> & Hw'); [lia|lia|]. eexists. split; [done|].
    rewrite Hw'. unfold sent_more. rewrite Hw1. cbn [now wire inbox delivered]. f_equal.
    rewrite <- app_assoc. f_equal. replace (Z.to_nat (sent + n)) with (Z.to_nat sent + Z.to_nat n)%nat by lia.
    by rewrite <- drop_drop, take_drop.
  - replace sent with (zlen buf) by lia. eexists. split; [done|]. unfold sent_more.
    rewrite Nat2Z.id, drop_all, app_nil_r. by destruct (obs w).
Qed.

Lemma sendall_spec buf w :
  exists w', mqtt_pal_sendall buf w = Some (zlen buf, w') /\ obs w' = sent_more w buf.
Proof. apply (sendall_loop_spec buf (S (length buf)) 0 w); lia. Qed.

(** Where the packet of a message lies. *)
Lemma message_bytes q l i m : rep q l -> l !! i = Some m ->
  exists pre rest, mq_mem q = pre ++ q_bytes m ++ rest /\ zlen pre = zlen (packed (take i l))
    /\ pre = packed (take i l) /\ rest = packed (drop (S i) l) ++ drop (length (packed l)) (mq_mem q).
Proof.
  intros Hr Hi. destruct (rep_mem _ _ _ _ Hr) as [rest Hm]. rewrite Hm, drop_app_length.
  exists (packed (take i l)), (packed (drop (S i) l) ++ rest). split; [|done].
  rewrite <- (take_drop_middle l i m Hi) at 1. by rewrite packed_app, packed_cons, <- !app_assoc.
Qed.

Lemma mq_set_byte q l i m v : rep q l -> l !! i = Some m -> 2 <= zlen (q_bytes m) ->
  exists mem, wr8 (mq_mem q) (zlen (packed (take i l)) + 1) v = Some mem
    /\ rep (mkMq mem (mq_curr q) (mq_curr_sz q) (mq_msgs q))
         (<[i := mkQ (<[1%nat := u8 v]> (q_bytes m)) (q_state m) (q_time m) (q_type m) (q_id m)]> l).
Proof.
  intros Hr Hi Hlen. destruct (message_bytes q l i m Hr Hi) as (pre & rest & Hm & Hp & Epre & Erest).
  destruct (q_bytes m) as [|b0 [|b1 bs]] eqn:Eb; cbn [length] in Hlen; [lia|lia|].
  assert (Hwr : wr8 (mq_mem q) (zlen (packed (take i l)) + 1) v = Some (pre ++ (b0 :: u8 v :: bs) ++ rest)).
  { rewrite Hm, <- Hp. change (pre ++ (b0 :: b1 :: bs) ++ rest) with (pre ++ [b0] ++ b1 :: bs ++ rest).
    rewrite app_assoc, wr8_snoc by (rewrite length_app; cbn; lia). by rewrite <- app_assoc. }
  eexists. split; [exact Hwr|]. set (m' := mkQ _ _ _ _ _).
  assert (Hpk : packed (<[i:=m']> l) = pre ++ (b0 :: u8 v :: bs) ++ packed (drop (S i) l)).
  { rewrite insert_take_drop by (by eapply lookup_lt_Some). by rewrite packed_app, packed_cons, Epre. }
  assert (Hlen' : length (packed (<[i:=m']> l)) = length (packed l)).
  { rewrite Hpk, <- (take_drop_middle l i m Hi), packed_app, packed_cons, Eb, Epre, !length_app. 
    rewrite (take_drop_middle l i m Hi). cbn [length]. lia. }
  assert (Hh : headers 0 (<[i:=m']> l) = headers 0 l).
  { clear -Hi Eb. subst m'. generalize 0. revert i Hi. induction l as [|x l IH]; intros [|i] Hi p; cbn in *; try done; simplify_eq.
    - by rewrite Eb.
    - by rewrite IH. }
  destruct Hr as [_ Hcap Hc Hs Hq Hroom].
  split; cbn [mq_mem mq_curr mq_curr_sz mq_msgs]; rewrite ?Hlen', ?length_insert, ?Hh; try done.
  - rewrite Hpk, Erest. eexists. by rewrite <- !app_assoc.
  - rewrite <- Hcap, Hm. by rewrite !length_app.
  - destruct Hroom as [->|]; [done | by right].
Qed.

(** What is read and written of a message in the block. *)
Lemma message_reads q l i m : rep q l -> l !! i = Some m -> 2 <= zlen (q_bytes m) ->
  let start := zlen (packed (take i l)) in
  mq_msgs q !! i = Some (mkMsg start (zlen (q_bytes m)) (q_state m) (q_time m) (q_type m) (q_id m))
  /\ rd8 (mq_mem q) start = Some (default 0 (q_bytes m !! 0%nat))
  /\ rd8 (mq_mem q) (start + 1) = q_bytes m !! 1%nat
  /\ rd_bytes (mq_mem q) start (zlen (q_bytes m)) = Some (q_bytes m).
Proof.
  intros Hr Hi Hlen start. destruct (message_bytes q l i m Hr Hi) as (pre & rest & Hm & Hp & _).
  rewrite (rep_msgs _ _ _ _ Hr), (headers_lookup _ _ _ _ Hi), Z.add_0_l. rewrite Hm. fold start in Hp. rewrite <- Hp.
  split; [by rewrite Hp|]. split; [|split; [|by apply rd_bytes_app]].
  - unfold rd8. rewrite znth_app_r, Z.sub_diag, znth_app_l by lia. rewrite (znth_of_nat (q_bytes m) 0 : znth (q_bytes m) 0 = _).
    by destruct (q_bytes m) as [|? ?]; [cbn in Hlen; lia|].
  - unfold rd8. rewrite znth_app_r, Z.add_simpl_l, znth_app_l by lia. apply (znth_of_nat (q_bytes m) 1).
Qed.

Lemma qos2_gate_spec q l i m resend gate : rep q l -> l !! i = Some m -> 2 <= zlen (q_bytes m) ->
  let qos2 := pending m && is_qos2 m in
  qos2_gate q (mkMsg (zlen (packed (take i l))) (zlen (q_bytes m)) (q_state m) (q_time m) (q_type m) (q_id m)) resend gate
  = Some (if qos2 && gate then false else resend, gate || qos2).
Proof.
  intros Hr Hi Hlen qos2. destruct (message_reads q l i m Hr Hi Hlen) as (_ & Hb & _).
  unfold qos2_gate, qos2, pending, is_qos2, is_state. cbn [msg_type msg_state msg_start].
  rewrite Hb. fold (packet_qos (q_bytes m)).
  replace (bool_decide (q_state m = MQTT_QUEUED_UNSENT) || bool_decide (q_state m = MQTT_QUEUED_AWAITING_ACK))
    with (negb (bool_decide (q_state m = MQTT_QUEUED_COMPLETE))) by (by destruct (q_state m)).
  destruct (q_type m =? MQTT_CONTROL_PUBLISH), (negb (bool_decide (q_state m = MQTT_QUEUED_COMPLETE)));
    cbn; rewrite ?orb_false_r; try done.
  unfold packet_qos. destruct (Z.land 3 _ =? 2), gate; done.
Qed.

Lemma wants_sending_spec c w p m :
  exists c' w', wants_sending c (mkMsg p (zlen (q_bytes m)) (q_state m) (q_time m) (q_type m) (q_id m)) w
    = (due (now (obs w)) (cl_response_timeout c) m, c', w') /\ same_client c c' /\ cl_mq c' = cl_mq c /\ obs w' = obs w
    /\ cl_time_of_last_send c' = cl_time_of_last_send c.
Proof.
  unfold wants_sending, due. cbn [msg_state msg_time]. destruct (law_time w) as [Ht Ho].
  destruct (q_state m); [by eexists _, _ | | by eexists _, _].
  destruct (pal_time w) as [t w']. cbn [fst snd] in *. subst t.
  case_if; eexists _, _; (split; [done|]); by repeat split.
Qed.

(** The state and the bytes of a message that has been sent. *)
Lemma after_send_spec q l i m t : rep q l -> l !! i = Some m -> sendable m ->
  exists s mem,
    after_send (mq_mem q) (mkMsg (zlen (packed (take i l))) (zlen (q_bytes m)) (q_state m) (q_time m) (q_type m) (q_id m))
      = Some (Some (s, mem))
    /\ rep (mq_update (mkMq mem (mq_curr q) (mq_curr_sz q) (mq_msgs q)) i
              (fun m => mkMsg (msg_start m) (msg_size m) s t (msg_type m) (msg_id m)))
         (<[i := sent_as t m]> l).
Proof.
  intros Hr Hi [Hlen Hty]. destruct (message_reads q l i m Hr Hi Hlen) as (_ & Hb0 & Hb1 & _).
  set (set_to s := fun m => mkMsg (msg_start m) (msg_size m) s t (msg_type m) (msg_id m)).
  set (setq s := fun m => mkQ (q_bytes m) s t (q_type m) (q_id m)).
  assert (Hset : forall mem m', rep (mkMq mem (mq_curr q) (mq_curr_sz q) (mq_msgs q)) (<[i := m']> l) ->
    forall s, rep (mq_update (mkMq mem (mq_curr q) (mq_curr_sz q) (mq_msgs q)) i (set_to s)) (<[i := setq s m']> l)).
  { intros mem m' Hr' s. apply (mq_update_spec _ _ _ _ i (set_to s) (setq s)) in Hr'; [|done|done].
    rewrite (alter_is_insert _ _ _ m') in Hr' by (apply list_lookup_insert_eq; by eapply lookup_lt_Some).
    by rewrite list_insert_insert_eq in Hr'. }
  assert (Hplain : forall s, rep (mq_update (mkMq (mq_mem q) (mq_curr q) (mq_curr_sz q) (mq_msgs q)) i (set_to s))
      (<[i := setq s m]> l)).
  { intros s. apply Hset. rewrite list_insert_id by done. by destruct q. }
  unfold after_send. cbn [msg_type msg_start]. rewrite Hb0, bind_Some. fold (packet_qos (q_bytes m)).
  assert (Hdup : exists mem, (b ← rd8 (mq_mem q) (zlen (packed (take i l)) + 1);
      wr8 (mq_mem q) (zlen (packed (take i l)) + 1) (Z.lor b MQTT_PUBLISH_DUP)) = Some mem
    /\ rep (mkMq mem (mq_curr q) (mq_curr_sz q) (mq_msgs q))
         (<[i := mkQ (mark_dup (q_bytes m)) (q_state m) (q_time m) (q_type m) (q_id m)]> l)).
  { destruct (lookup_lt_is_Some_2 (q_bytes m) 1) as [b Hb]; [lia|]. rewrite Hb1, Hb, bind_Some.
    destruct (mq_set_byte q l i m (Z.lor b MQTT_PUBLISH_DUP) Hr Hi Hlen) as (mem & -> & Hrep). eexists. split; [done|].
    unfold mark_dup. by rewrite (alter_is_insert _ _ _ b) by done. }
  destruct Hdup as (memd & Hd & Hrd).
  apply bool_decide_unpack in Hty. unfold sendable_types in Hty. rewrite !elem_of_cons in Hty.
  assert (Hother : q_type m <> MQTT_CONTROL_PUBLISH -> sent_as t m = setq (q_state (sent_as t m)) m).
  { intros Hne. unfold sent_as, setq. cbn [q_state]. by zfalse (q_type m =? MQTT_CONTROL_PUBLISH). }
  destruct_or? Hty; try (by apply elem_of_nil in Hty);
    try (rewrite (Hother ltac:(by rewrite Hty)); exists (q_state (sent_as t m)), (mq_mem q);
         split; [unfold sent_as; by rewrite Hty | apply Hplain]).
  assert (Hpub : sent_as t m
    = setq (if packet_qos (q_bytes m) =? 0 then MQTT_QUEUED_COMPLETE else MQTT_QUEUED_AWAITING_ACK)
        (mkQ (if packet_qos (q_bytes m) =? 1 then mark_dup (q_bytes m) else q_bytes m)
           (q_state m) (q_time m) (q_type m) (q_id m))).
  { unfold sent_as, setq. by rewrite Hty. }
  rewrite Hty. cbn [Z.eqb Pos.eqb orb andb].
  destruct (packet_qos (q_bytes m) =? 0) eqn:E0; [|destruct (packet_qos (q_bytes m) =? 1) eqn:E1].
  - zbool. rewrite E0 in Hpub. rewrite Hpub. eexists _, _. split; [done|]. exact (Hplain MQTT_QUEUED_COMPLETE).
  - destruct (rd8 (mq_mem q) (zlen (packed (take i l)) + 1)) as [b|] eqn:Hb; cbn in Hd |- *; [|done].
    rewrite Hd, Hpub. cbn. eexists _, _. split; [done|]. exact (Hset _ _ Hrd MQTT_QUEUED_AWAITING_ACK).
  - rewrite Hpub. eexists _, _. split; [done|]. exact (Hplain MQTT_QUEUED_AWAITING_ACK).
Qed.

(** One turn of the loop. *)
Lemma send_message_spec c l i m gate w : rep (cl_mq c) l -> l !! i = Some m -> sendable m ->
  let t := now (obs w) in
  let qos2 := pending m && is_qos2 m in
  let go := due t (cl_response_timeout c) m && negb (qos2 && gate) in
  exists c' w', send_message c i gate w = Some (inr (c', gate || qos2, w'))
    /\ rep (cl_mq c') (if go then <[i := sent_as t m]> l else l)
    /\ obs w' = sent_more w (if go then q_bytes m else []) /\ same_client c c'
    /\ cl_time_of_last_send c' = (if go then t else cl_time_of_last_send c).
Proof.
  intros Hr Hi Hs t qos2 go. destruct (message_reads (cl_mq c) l i m Hr Hi (proj1 Hs)) as (Hm & _ & _ & Hd).
  unfold send_message. rewrite Hm, bind_Some.
  destruct (wants_sending_spec c w (zlen (packed (take i l))) m) as (c1 & w1 & -> & Hc1 & Eq & Ew & Et). fold t.
  rewrite Eq, (qos2_gate_spec (cl_mq c) l i m _ gate Hr Hi (proj1 Hs)), bind_Some. fold qos2.
  destruct go eqn:Ego; unfold go in Ego.
  - apply andb_true_iff in Ego as [-> Hg]. apply negb_true_iff in Hg as ->. cbn [negb].
    cbn [msg_start msg_size]. rewrite Hd, bind_Some.
    destruct (sendall_spec (q_bytes m) w1) as (w2 & -> & Hw2). rewrite bind_Some. zfalse (zlen (q_bytes m) <? 0).
    destruct (law_time w2) as [Ht2 Ho2]. destruct (pal_time w2) as [t2 w3]. cbn [fst snd] in *.
    assert (t2 = t) as -> by (by rewrite Ht2, Hw2; unfold sent_more; cbn; rewrite Ew).
    cbn [cl_mq set_last_send]. rewrite Eq.
    destruct (after_send_spec (cl_mq c) l i m t Hr Hi Hs) as (s & mem & -> & Hrep). rewrite bind_Some.
    eexists _, _. split; [done|]. split; [exact Hrep|].
    split; [rewrite Ho2, Hw2; unfold sent_more; by rewrite Ew|]. split; [|done]. by destruct Hc1.
  - replace (if qos2 && gate then false else due t (cl_response_timeout c) m) with false
      by (destruct (due _ _ m), (qos2 && gate); done).
    cbn [negb]. eexists _, _. split; [done|]. rewrite Eq. split_and!; try done.
    unfold sent_more. rewrite app_nil_r, Ew. by destruct (obs w).
Qed.

Lemma send_all_keeps t timeout gate l : Forall sendable l -> Forall sendable (fst (send_all t timeout gate l)).
Proof.
  intros Hl. revert gate. induction Hl as [|m l Hm Hl IH]; intros gate; cbn; [done|].
  specialize (IH (gate || pending m && is_qos2 m)). destruct (send_all _ _ _ l) as [l' out]. cbn in IH.
  case_if; constructor; try done. destruct Hm as [Hlen Hty]. split; [|done].
  unfold sent_as, mark_dup. cbn [q_bytes]. case_if; [|done]. by rewrite length_alter.
Qed.

(** The time of the last transmission, when [out] has been sent at [t]. *)
Definition last_send (c : mqtt_client) (t : Z) (out : list Z) : Z :=
  match out with [] => cl_time_of_last_send c | _ => t end.

Lemma send_loop_spec l2 : forall l1 c gate w, rep (cl_mq c) (l1 ++ l2) -> Forall sendable l2 ->
  let '(l', out) := send_all (now (obs w)) (cl_response_timeout c) gate l2 in
  exists c' w', send_loop (length l2) (length l1) c gate w = Some (inr (c', w'))
    /\ rep (cl_mq c') (l1 ++ l') /\ obs w' = sent_more w out /\ same_client c c'
    /\ cl_time_of_last_send c' = last_send c (now (obs w)) out.
Proof.
  induction l2 as [|m l2 IH]; intros l1 c gate w Hr Hl.
  { cbn. eexists _, _. split; [done|]. split_and!; try done. unfold sent_more. rewrite app_nil_r. by destruct (obs w). }
  apply Forall_cons in Hl as [Hm Hl]. cbn [send_all length send_loop].
  destruct (send_message_spec c (l1 ++ m :: l2) (length l1) m gate w Hr (list_lookup_middle l1 l2 m _ eq_refl) Hm)
    as (c1 & w1 & -> & Hr1 & Hw1 & Hc1 & Hlast). rewrite bind_Some.
  set (t := now (obs w)) in *. set (qos2 := pending m && is_qos2 m) in *.
  set (go := due t (cl_response_timeout c) m && negb (qos2 && gate)) in *. set (m' := if go then sent_as t m else m).
  assert (Hr1' : rep (cl_mq c1) ((l1 ++ [m']) ++ l2)).
  { rewrite <- app_assoc. unfold m'. destruct go; [|done]. by rewrite <- (Nat.add_0_r (length l1)), insert_app_r in Hr1. }
  specialize (IH (l1 ++ [m']) c1 (gate || qos2) w1 Hr1' Hl).
  assert (Et : now (obs w1) = t) by (by rewrite Hw1). rewrite Et, (sc_timeout _ _ Hc1) in IH.
  destruct (send_all t _ (gate || qos2) l2) as [l' out]. destruct IH as (c2 & w2 & E2 & Hr2 & Hw2 & Hc2 & Hlast2).
  rewrite length_app, Nat.add_1_r in E2. rewrite <- app_assoc in Hr2. unfold last_send in Hlast2.
  assert (Ew : obs w2 = sent_more w ((if go then q_bytes m else []) ++ out)).
  { rewrite Hw2. unfold sent_more. rewrite Hw1. cbn. by rewrite <- app_assoc. }
  unfold m' in Hr2. destruct go; (exists c2, w2); (split; [done|]); split_and!; try done; try (by transitivity c1).
  - rewrite Hlast2, Hlast. destruct Hm as [Hlen _]. unfold last_send.
    destruct (q_bytes m); [cbn in Hlen; lia|]. by destruct out.
  - rewrite Hlast2, Hlast. unfold last_send. by destruct out.
Qed.

(** A round that sends something stages no ping. *)
Lemma send_busy c w l : rep (cl_mq c) l -> Forall sendable l -> cl_error c = MQTT_OK -> 0 <= cl_keep_alive c ->
  let '(l', out) := send_all (now (obs w)) (cl_response_timeout c) false l in
  out <> [] ->
  exists c' w', __mqtt_send hdr uninit c w = Some (MQTT_OK, c', w') /\ rep (cl_mq c') l'
    /\ obs w' = sent_more w out /\ same_client c c'.
Proof.
  intros Hr Hl He Hk. pose proof (send_loop_spec l [] c false w Hr Hl) as Hloop.
  destruct (send_all _ _ false l) as [l' out]. destruct Hloop as (c1 & w1 & E & Hr1 & Hw1 & Hc1 & Hlast).
  intros Hout. unfold __mqtt_send. rewrite He. cbn [andb Z.ltb Z.compare].
  rewrite (rep_msgs _ _ _ _ Hr), headers_length. cbn [length app] in E, Hr1. rewrite E, bind_Some.
  destruct (law_time w1) as [Ht Ho]. destruct (pal_time w1) as [t w2]. cbn [fst snd] in *.
  assert (Et : t = cl_time_of_last_send c1) by (rewrite Hlast, Ht, Hw1; unfold last_send; by destruct out).
  rewrite <- Et, (sc_keep _ _ Hc1). destruct (Z.gtb_spec t (t + cl_keep_alive c * 3 / 4)) as [Hgt|Hle]; [zlia|].
  exists c1, w2. split; [done|]. by rewrite Ho.
Qed.

Lemma ping_packs : always_packs mqtt_pack_ping_request (header_bytes (mkHeader MQTT_CONTROL_PINGREQ 0 0)).
Proof. intros m bufsz Hb. apply header_packs; [by repeat split | done | done]. Qed.

Lemma enqueue_sendable l packet type id : Forall sendable l -> 2 <= zlen packet ->
  bool_decide (type ∈ sendable_types) -> Forall sendable (enqueue uninit l packet type id).
Proof. intros Hl Hp Ht. apply Forall_app. by repeat constructor. Qed.

Lemma drop_removable_sendable l : Forall sendable l -> Forall sendable (drop_removable l).
Proof.
  intros Hl. destruct (drop_removable_split l) as (l0 & E & _). rewrite E in Hl. by apply Forall_app in Hl as [_ Hl].
Qed.

Lemma stage_sendable l packet type id : Forall sendable l -> 2 <= zlen packet ->
  bool_decide (type ∈ sendable_types) -> Forall sendable (stage hdr uninit cap l packet type id).2.
Proof.
  intros Hl Hp Ht. pose proof (drop_removable_sendable l Hl). unfold stage. cbv zeta.
  repeat case_if; cbn [snd]; auto using enqueue_sendable.
Qed.

(** A ping is staged when nothing has been sent for three quarters of the interval;
    a client in the error of the full buffer stages nothing. *)
Definition keep_alive_ping (error : Z) (l : list qmsg) (idle : bool) : Z * list qmsg :=
  if idle
  then if error <? 0 then (error, l)
       else stage hdr uninit cap l (header_bytes (mkHeader MQTT_CONTROL_PINGREQ 0 0)) MQTT_CONTROL_PINGREQ None
  else (MQTT_OK, l).

(** C16: [__mqtt_send] goes through the queue once, in order. With a client that has no
    error, or the error of the full queue, a clock that stands still during the call and
    a socket that takes at least one byte of what it is given each time, it writes to
    the socket the bytes that the queue holds for the messages that are unsent or whose
    answer is overdue, at most one QoS 2 publication being in flight, and nothing else;
    it marks them as complete when no answer is expected, else as awaiting it, and sets
    bit 3 of the second byte of a QoS 1 publication - not the flag DUP, which is in the
    first, but a bit of the remaining length, so that what is sent again is not the
    packet staged unless that bit was set; then it stages a ping when the connection has
    been idle, and it ends however the socket divides the bytes. *)
Theorem mqtt_send_queue c w l : rep (cl_mq c) l -> Forall sendable l ->
  cl_error c = MQTT_OK \/ cl_error c = mqtt_error MQTT_ERROR_SEND_BUFFER_IS_FULL ->
  let t := now (obs w) in
  let '(l1, out) := send_all t (cl_response_timeout c) false l in
  let '(rv, l2) := keep_alive_ping (cl_error c) l1 (t >? last_send c t out + cl_keep_alive c * 3 / 4) in
  exists c' w', __mqtt_send hdr uninit c w = Some (rv, c', w') /\ rep (cl_mq c') l2 /\ Forall sendable l2
    /\ obs w' = sent_more w out /\ cl_error c' = (if rv =? MQTT_OK then cl_error c else rv).
Proof.
  intros Hr Hl He t. unfold __mqtt_send.
  replace (_ && _) with false by (destruct He as [-> | ->]; done).
  rewrite (rep_msgs _ _ _ _ Hr), headers_length.
  pose proof (send_loop_spec l [] c false w Hr Hl) as Hloop. pose proof (send_all_keeps t (cl_response_timeout c) false l Hl) as Hk.
  fold t in Hloop. destruct (send_all t _ false l) as [l1 out]. cbn [fst] in Hk.
  destruct Hloop as (c1 & w1 & E & Hr1 & Hw1 & Hc1 & Hlast). cbn [length app] in *. rewrite E, bind_Some.
  rewrite Hlast, (sc_keep _ _ Hc1). destruct (law_time w1) as [Ht1 Ho1]. destruct (pal_time w1) as [t1 w2]. cbn [fst snd] in *.
  assert (t1 = t) as -> by (by rewrite Ht1, Hw1). rewrite <- Ho1 in Hw1. pose proof (sc_error _ _ Hc1) as Ee. unfold keep_alive_ping.
  destruct (t >? _); cbn [negb]; [|by exists c1, w2]. rewrite <- Ee.
  destruct (Z.ltb_spec (cl_error c1) 0) as [Hneg|Hpos].
  - unfold __mqtt_ping, MQTT_CLIENT_TRY_PACK. ztrue (cl_error c1 <? 0). rewrite bind_Some.
    destruct He as [He | He]; rewrite Ee, He in *; [by cbn in Hneg|]. eexists _, w2. split; [done|]. split_and!; done.
  - pose proof (try_pack_spec hdr uninit Hhdr cap c1 l1 _ _ MQTT_CONTROL_PINGREQ None Hpos Hr1 ping_packs ltac:(by vm_compute)) as Hp.
    pose proof (stage_sendable l1 (header_bytes (mkHeader MQTT_CONTROL_PINGREQ 0 0)) MQTT_CONTROL_PINGREQ None Hk ltac:(by vm_compute) I) as Hs2.
    fold (__mqtt_ping hdr uninit c1) in Hp.
    destruct (stage _ _ _ l1 _ _ _) as [rv l2]. cbn [snd] in Hs2. destruct Hp as (q' & -> & Hq'). rewrite bind_Some.
    unfold with_result. destruct (rv =? MQTT_OK) eqn:Erv; cbn [negb]; [apply Z.eqb_eq in Erv as ->|].
    all: by eexists _, w2.
Qed.
End sending.

(** ** A concrete world

    Time stands still, the socket takes three bytes and gives two at a time. *)

#[export] Instance sample_io : MqttWorld observation := {
  pal_time w := (now w, w);
  sys_send buf w :=
    let n := Z.min 3 (zlen buf) in
    (n, mkObs (now w) (wire w ++ take (Z.to_nat n) buf) (inbox w) (delivered w));
  sys_recv n w :=
    let k := Z.to_nat (Z.min 2 n) in
    (Some (take k (inbox w)), mkObs (now w) (wire w) (drop k (inbox w)) (delivered w));
  publish_response_callback p body w := mkObs (now w) (wire w) (inbox w) (delivered w ++ [heard p body])
}.

#[export] Instance sample_steady : SteadyWorld observation (fun w => w).
Proof.
  split; intros; try done.
  - eexists _, _. split; [done|]. split; [lia | done].
  - cbn. eexists _, _, _. split; [done|]. split; [rewrite length_take; lia|]. split; [by rewrite take_drop|].
    split; [|done]. intros E. destruct (inbox w) as [|x l]; [by right|]. left.
    destruct (Z.to_nat (Z.min 2 n)) eqn:En; [lia | done].
Qed.

(** A queue that holds the packets of a list, and a client with an empty receive buffer. *)
Definition sample_queue (hdr cap : Z) (l : list qmsg) : mqtt_message_queue :=
  mkMq (packed l ++ zeros (cap - zlen (packed l))) (zlen (packed l))
    (mqtt_mq_currsz hdr cap (zlen (packed l)) (length l)) (headers 0 l).

Lemma sample_queue_rep hdr cap l : 0 <= hdr -> zlen (packed l) + hdr * zlen l <= cap ->
  mq_rep hdr cap (sample_queue hdr cap l) l.
Proof.
  intros Hh Hc. assert (0 <= hdr * zlen l) by nia.
  split; cbn [mq_mem mq_curr mq_curr_sz mq_msgs sample_queue]; try done; [by eexists | | by right].
  rewrite length_app, Nat2Z.inj_add, zeros_len; lia.
Qed.

Definition sample_client (l : list qmsg) : mqtt_client :=
  mkClient 0 400 0 MQTT_OK 30 0 (zeros 40) 0 40 (sample_queue 8 100 l).

Definition sample_uninit : nat -> mqtt_queued_message := fun _ => mkMsg 0 0 MQTT_QUEUED_UNSENT 0 0 0.

Definition sample_packets : list qmsg :=
  [mkQ (publish_packet [97] 5 [98] 2) MQTT_QUEUED_UNSENT 0 MQTT_CONTROL_PUBLISH 5;
   mkQ (publish_packet [97] 6 [99] 4) MQTT_QUEUED_AWAITING_ACK 900 MQTT_CONTROL_PUBLISH 6;
   mkQ (ack_packet MQTT_CONTROL_PUBACK 7) MQTT_QUEUED_UNSENT 0 MQTT_CONTROL_PUBACK 7].

Lemma sample_packets_sendable : Forall sendable sample_packets.
Proof. by repeat constructor. Qed.

(** The second message is due again: its answer has not come for 30 seconds. *)
Lemma mqtt_send_queue_witness :
  let '(l1, out) := send_all 1000 30 false sample_packets in
  let '(rv, l2) := keep_alive_ping 8 sample_uninit 100 MQTT_OK l1
    (1000 >? last_send (sample_client sample_packets) 1000 out + 400 * 3 / 4) in
  exists c' w', __mqtt_send 8 sample_uninit (sample_client sample_packets) (mkObs 1000 [] [] []) = Some (rv, c', w')
    /\ mq_rep 8 100 (cl_mq c') l2 /\ Forall sendable l2
    /\ w' = sent_more (obs := fun w => w) (mkObs 1000 [] [] []) out /\ cl_error c' = (if rv =? MQTT_OK then MQTT_OK else rv).
Proof.
  refine (mqtt_send_queue (obs := fun w => w) 8 sample_uninit _ 100 (sample_client sample_packets) (mkObs 1000 [] [] [])
    sample_packets _ _ _); [lia | | |].
  - by apply sample_queue_rep.
  - apply sample_packets_sendable.
  - by left.
Defined.

Example sample_sent :
  send_all 1000 30 false sample_packets
  = ([mkQ [0x32; 14; 0; 1; 97; 0; 5; 98] MQTT_QUEUED_AWAITING_ACK 1000 MQTT_CONTROL_PUBLISH 5;
      mkQ (publish_packet [97] 6 [99] 4) MQTT_QUEUED_AWAITING_ACK 1000 MQTT_CONTROL_PUBLISH 6;
      mkQ (ack_packet MQTT_CONTROL_PUBACK 7) MQTT_QUEUED_COMPLETE 1000 MQTT_CONTROL_PUBACK 7],
     [0x32; 6; 0; 1; 97; 0; 5; 98; 0x34; 6; 0; 1; 97; 0; 6; 99; 0x40; 2; 0; 7]).
Proof. by vm_compute. Qed.

(** The duplicate flag goes into the remaining length of the packet that is kept: what is
    sent the second time claims fourteen bytes and has six. *)
Example retransmission_malformed :
  let packet := publish_packet [97] 5 [98] 2 in
  let again := q_bytes (sent_as 1000 (mkQ packet MQTT_QUEUED_UNSENT 0 MQTT_CONTROL_PUBLISH 5)) in
  packet = [0x32; 6; 0; 1; 97; 0; 5; 98] /\ again = [0x32; 14; 0; 1; 97; 0; 5; 98]
  /\ option_map (fun r => r.1.1) (mqtt_unpack_response (mkHeader 0 0 0) packet 8) = Some 8 /\ mqtt_unpack_response (mkHeader 0 0 0) again 8 = Some (0, mkHeader 3 2 14, None).
Proof. by vm_compute. Qed.

Lemma mqtt_requests_queue_witness :
  exists id, 0 < id < 65536 /\ (id ∉ [5; 6; 7])
    /\ let '(rv, l') := stage 8 sample_uninit 100 sample_packets (request_packet (Subscribe [97] 1) id) MQTT_CONTROL_SUBSCRIBE (Some id) in
       exists c', issue 8 sample_uninit (Subscribe [97] 1) (sample_client sample_packets) = Some (rv, c')
         /\ mq_rep 8 100 (cl_mq c') l' /\ cl_pid_lfsr c' = id /\ cl_error c' = (if rv =? MQTT_OK then MQTT_OK else rv).
Proof.
  apply (mqtt_requests_queue 8 sample_uninit ltac:(lia) 100 (Subscribe [97] 1) (sample_client sample_packets) sample_packets);
    try done; [by apply sample_queue_rep].
Defined.
