(* ===== verification/MqttReceive.v ===== *)
(** * What the MQTT client receives

    The handling of one response is a function on the list of queued packets; the loop
    of [__mqtt_recv] is its iteration on the packets of the byte stream, however the
    socket divides the stream. *)

From stdpp Require Import prelude.
From S2P Require Import Prelude CMem Mqtt MqttCorrect MqttQueue MqttClient MqttClientCorrect.

Section receive.
Context (hdr : Z) (uninit : nat -> mqtt_queued_message) (Hhdr : 0 <= hdr) (cap : Z).
Context {W : Type} `{SteadyWorld W obs}.
Implicit Types (l : list qmsg) (c : mqtt_client) (w : W).

Abbreviation rep := (mq_rep hdr cap).
Abbreviation outcome := (Z * list qmsg * list (option (list Z) * option (list Z)))%type.

(** ** One response *)

Definition q_complete (m : qmsg) : qmsg := mkQ (q_bytes m) MQTT_QUEUED_COMPLETE (q_time m) (q_type m) (q_id m).

Definition find_q l (type : Z) (id : option Z) : option nat := fst <$> list_find (fun m => found_q type id m) l.

(** The request that is acknowledged is complete, and what follows is done. *)
Definition acknowledge l (type : Z) (id : option Z) (k : list qmsg -> outcome) : outcome :=
  match find_q l type id with
  | None => (mqtt_error MQTT_ERROR_ACK_OF_UNKNOWN, l, [])
  | Some i => k (alter q_complete i l)
  end.

(** The answer [type] is staged, and [out] delivered when it could be. *)
Definition answer l (type id : Z) (out : list (option (list Z) * option (list Z))) : outcome :=
  let '(rv, l) := stage hdr uninit cap l (ack_packet type id) type (Some id) in
  (rv, l, if rv =? MQTT_OK then out else []).

Definition handle l (d : mqtt_decoded) (body : list Z) : option outcome :=
  let fine l : outcome := (MQTT_OK, l, []) in
  match d with
  | DConnack _ return_code =>
      Some (acknowledge l MQTT_CONTROL_CONNECT None (fun l =>
        (if return_code =? MQTT_CONNACK_ACCEPTED then MQTT_OK else mqtt_error MQTT_ERROR_CONNECTION_REFUSED, l, [])))
  | DPublish p =>
      if qos_level p =? 1 then
        id ← publish_id p; Some (answer l MQTT_CONTROL_PUBACK id [heard p body])
      else if qos_level p =? 2 then
        id ← publish_id p;
        Some (if bool_decide (is_Some (find_q l MQTT_CONTROL_PUBREC (Some id))) then fine l
              else answer l MQTT_CONTROL_PUBREC id [heard p body])
      else Some (MQTT_OK, l, [heard p body])
  | DPuback id => Some (acknowledge l MQTT_CONTROL_PUBLISH (Some id) fine)
  | DPubrec id =>
      Some (if bool_decide (is_Some (find_q l MQTT_CONTROL_PUBREL (Some id))) then fine l
            else acknowledge l MQTT_CONTROL_PUBLISH (Some id) (fun l => answer l MQTT_CONTROL_PUBREL id []))
  | DPubrel id => Some (acknowledge l MQTT_CONTROL_PUBREC (Some id) (fun l => answer l MQTT_CONTROL_PUBCOMP id []))
  | DPubcomp id => Some (acknowledge l MQTT_CONTROL_PUBREL (Some id) fine)
  | DSuback id _ codes =>
      code ← rd8 body codes;
      Some (acknowledge l MQTT_CONTROL_SUBSCRIBE (Some id) (fun l =>
        (if code =? MQTT_SUBACK_FAILURE then mqtt_error MQTT_ERROR_SUBSCRIBE_FAILED else MQTT_OK, l, [])))
  | DUnsuback id => Some (acknowledge l MQTT_CONTROL_UNSUBSCRIBE (Some id) fine)
  | DPingresp => Some (acknowledge l MQTT_CONTROL_PINGREQ None fine)
  | DConnect _ | DSubscribe _ _ => Some (mqtt_error MQTT_ERROR_MALFORMED_RESPONSE, l, [])
  end.

Definition heard_more (w : W) (out : list (option (list Z) * option (list Z))) : observation :=
  mkObs (now (obs w)) (wire (obs w)) (inbox (obs w)) (delivered (obs w) ++ out).

Definition settings c : Z * Z * Z := (cl_keep_alive c, cl_response_timeout c, cl_pid_lfsr c).

(** The concrete outcome that an abstract one describes: what is received is left alone. *)
Definition follows c w (r : option (Z * mqtt_client * W)) (o : outcome) : Prop :=
  let '(rv, l, out) := o in
  exists c' w', r = Some (rv, c', w') /\ rep (cl_mq c') l /\ obs w' = heard_more w out
    /\ cl_error c' = (if rv =? MQTT_OK then cl_error c else rv)
    /\ cl_recv_mem c' = cl_recv_mem c /\ cl_recv_curr c' = cl_recv_curr c /\ cl_recv_curr_sz c' = cl_recv_curr_sz c
    /\ settings c' = settings c.

Lemma heard_nothing w w' : obs w' = obs w -> obs w' = heard_more w [].
Proof. intros ->. unfold heard_more. rewrite app_nil_r. by destruct (obs w). Qed.

Lemma follows_return c w w' c' l rv : rep (cl_mq c') l -> obs w' = obs w ->
  cl_error c' = (if rv =? MQTT_OK then cl_error c else rv) ->
  cl_recv_mem c' = cl_recv_mem c /\ cl_recv_curr c' = cl_recv_curr c /\ cl_recv_curr_sz c' = cl_recv_curr_sz c
    /\ settings c' = settings c ->
  follows c w (Some (rv, c', w')) (rv, l, []).
Proof. intros Hr Hw He Hs. exists c', w'. split; [done|]. split; [done|]. split; [by apply heard_nothing | done]. Qed.

Lemma find_same q l type id : rep q l -> mqtt_mq_find q type id = find_q l type id.
Proof. apply mqtt_mq_find_spec. Qed.

Lemma after_time w : obs (pal_time w).2 = obs w.
Proof. by destruct (law_time w). Qed.

Lemma release_spec c l w type id k ka : rep (cl_mq c) l ->
  (forall q l', rep q l' -> follows c w (k (set_mq c q)) (ka l')) ->
  follows c w (release c type id w k) (acknowledge l type id ka).
Proof.
  intros Hr Hk. unfold release, acknowledge. rewrite (find_same _ _ _ _ Hr).
  destruct (find_q l type id) as [i|]; [|by apply follows_return].
  apply Hk. by apply (mq_update_spec hdr cap (cl_mq c) l i (set_msg_state MQTT_QUEUED_COMPLETE) q_complete).
Qed.

(** An acknowledgement is staged in a client that differs from [c] in the queue. *)
Lemma staging_spec c q l w w1 type id (stager : mqtt_client -> Z -> option (Z * mqtt_client)) out k :
  0 <= cl_error c -> rep q l -> obs w1 = obs w -> bool_decide (type ∈ ack_types) ->
  (forall c, stager c id = MQTT_CLIENT_TRY_PACK hdr uninit c (fun m n => mqtt_pack_pubxxx_request m n type id) type (Some id)) ->
  (forall c, exists w', k c = Some (MQTT_OK, c, w') /\ obs w' = heard_more w out) ->
  follows c w (staging (stager (set_mq c q) id) w1 k) (answer l type id out).
Proof.
  intros He Hr Hw Ht Hst Hk. unfold answer, staging. rewrite Hst.
  pose proof (try_pack_spec hdr uninit Hhdr cap (set_mq c q) l _ (ack_packet type id) type (Some id) He Hr
    (fun m n Hb => ack_packs m n type id Ht Hb) ltac:(rewrite ack_packet_length by done; lia)) as Hp.
  destruct (stage _ _ _ l _ _ _) as [rv l']. destruct Hp as (q' & -> & Hq'). rewrite bind_Some. unfold with_result.
  destruct (rv =? MQTT_OK) eqn:E; cbn [negb]; [|by apply follows_return; [..|rewrite E|]].
  apply Z.eqb_eq in E as ->. destruct (Hk (set_mq (set_mq c q) q')) as (w' & -> & Hw'). by eexists _, _.
Qed.

Lemma staging_here c l w w1 type id (stager : mqtt_client -> Z -> option (Z * mqtt_client)) out k :
  0 <= cl_error c -> rep (cl_mq c) l -> obs w1 = obs w -> bool_decide (type ∈ ack_types) ->
  (forall c, stager c id = MQTT_CLIENT_TRY_PACK hdr uninit c (fun m n => mqtt_pack_pubxxx_request m n type id) type (Some id)) ->
  (forall c, exists w', k c = Some (MQTT_OK, c, w') /\ obs w' = heard_more w out) ->
  follows c w (staging (stager c id) w1 k) (answer l type id out).
Proof.
  intros He Hr Hw Ht Hst Hk. pose proof (staging_spec c (cl_mq c) l w w1 type id stager out k He Hr Hw Ht Hst Hk) as Hf.
  by replace (set_mq c (cl_mq c)) with c in Hf by (by destruct c).
Qed.

Lemma handle_spec c l h d body w o : 0 <= cl_error c -> rep (cl_mq c) l -> handle l d body = Some o ->
  follows c w (handle_response hdr uninit c h d body w) o.
Proof.
  intros He Hr Ho. unfold handle in Ho. cbv zeta in Ho. unfold handle_response. cbv zeta.
  assert (Hfine : forall q l' w', rep q l' -> obs w' = obs w -> follows c w (Some (MQTT_OK, set_mq c q, w')) (MQTT_OK, l', []))
    by (intros; by apply follows_return).
  assert (Hcall : forall c' p, exists w', Some (MQTT_OK, c', publish_response_callback p body w) = Some (MQTT_OK, c', w')
      /\ obs w' = heard_more w [heard p body]) by (intros; eexists; split; [done|]; by rewrite law_callback).
  assert (Hquiet : forall c', exists w'', Some (MQTT_OK, c', (pal_time w).2) = Some (MQTT_OK, c', w'')
      /\ obs w'' = heard_more w []) by (intros; eexists; split; [done|]; apply heard_nothing, after_time).
  pose proof (after_time w) as Htime.
  assert (Hrel : forall type id, follows c w (release c type id w (fun c => Some (MQTT_OK, c, (pal_time w).2)))
      (acknowledge l type id (fun l => (MQTT_OK, l, [])))).
  { intros. apply release_spec; [done|]. intros q l' Hq. by apply Hfine. }
  destruct d as [|? code|p|id|id|id|id|? ?|id ? codes|id|]; simplify_eq; try apply Hrel.
  - by apply follows_return.
  - apply release_spec; [done|]. intros q l' Hq. destruct (code =? MQTT_CONNACK_ACCEPTED); cbn [negb]; by apply follows_return.
  - destruct (qos_level p =? 1); [|destruct (qos_level p =? 2)].
    + destruct (publish_id p) as [id|]; [|done]. cbn in Ho |- *. simplify_eq. by apply staging_here.
    + destruct (publish_id p) as [id|]; [|done]. cbn in Ho |- *. simplify_eq. rewrite (find_same _ _ _ _ Hr).
      destruct (bool_decide _); [by apply follows_return | by apply staging_here].
    + simplify_eq. destruct (Hcall c p) as (w' & -> & Hw'). by eexists _, _.
  - rewrite (find_same _ _ _ _ Hr). destruct (bool_decide _); [by apply follows_return|].
    apply release_spec; [done|]. intros q l' Hq. by apply staging_spec.
  - apply release_spec; [done|]. intros q l' Hq. by apply staging_spec.
  - by apply follows_return.
  - destruct (rd8 body codes) as [code|]; [|done]. cbn in Ho |- *. simplify_eq.
    apply release_spec; [done|]. intros q l' Hq. destruct (code =? MQTT_SUBACK_FAILURE); cbn [negb]; by apply follows_return.
Qed.

(** ** Reading what there is *)

Definition inbox_is (w : W) (rest : list Z) : observation :=
  mkObs (now (obs w)) (wire (obs w)) rest (delivered (obs w)).

Lemma recvall_loop_spec fuel : forall start pre free w, (length free + 1 < fuel)%nat ->
  let got := take (length free) (inbox (obs w)) in
  exists w', recvall_loop fuel (pre ++ free) start (zlen pre) (zlen free) w
      = Some (zlen pre + zlen got - start, pre ++ got ++ drop (length got) free, w')
    /\ obs w' = inbox_is w (drop (length free) (inbox (obs w))).
Proof.
  induction fuel as [|fuel IH]; intros start pre free w Hf got; [lia|]. cbn [recvall_loop].
  destruct (law_recv w (zlen free) ltac:(lia)) as (bytes & rest & w1 & -> & Hb & Hin & Hend & Hw1).
  destruct bytes as [|b bytes]; [clear IH|].
  - exists w1. destruct (Hend eq_refl) as [Hz | Hz].
    + assert (free = []) as -> by (by destruct free). unfold got. cbn [length take drop app].
      rewrite Z.add_0_r. split; [done|]. rewrite Hw1. unfold inbox_is. cbn [app length drop] in *. by rewrite Hin.
    + unfold got. rewrite Hz, take_nil, drop_nil. cbn [length app drop]. rewrite Z.add_0_r. split; [done|].
      rewrite Hw1. rewrite Hz in Hin. cbn [app] in Hin. by rewrite <- Hin.
  - set (bs := b :: bytes) in *. rewrite wr_bytes_app, bind_Some by done.
    assert (Hlen : (length (drop (length bs) free) + 1 < fuel)%nat) by (rewrite length_drop; assert (0 < length bs)%nat by (cbn; lia); lia).
    destruct (IH start (pre ++ bs) (drop (length bs) free) w1 Hlen) as (w' & E & Hw').
    rewrite <- app_assoc, length_app, length_drop, Nat2Z.inj_add, Nat2Z.inj_sub in E by lia.
    exists w'. rewrite E. unfold got. rewrite Hin, Hw1. cbn [inbox].
    rewrite take_app_ge, drop_app_ge, drop_drop, length_app by lia. split.
    + rewrite <- !app_assoc. do 3 f_equal. lia.
    + rewrite Hw'. unfold inbox_is. rewrite Hw1. cbn. by rewrite length_drop.
Qed.

Lemma recvall_spec pre free w :
  let got := take (length free) (inbox (obs w)) in
  exists w', mqtt_pal_recvall (pre ++ free) (zlen pre) (zlen free) w
      = Some (zlen got, pre ++ got ++ drop (length got) free, w')
    /\ obs w' = inbox_is w (drop (length free) (inbox (obs w))).
Proof.
  intros got. unfold mqtt_pal_recvall.
  destruct (recvall_loop_spec (Z.to_nat (zlen free) + 2) (zlen pre) pre free w ltac:(lia)) as (w' & E & Hw').
  exists w'. rewrite E. split; [|done]. fold got. repeat f_equal. lia.
Qed.

(** ** The stream *)

(** A packet on its way: its fixed header, the rest, and what it is read as. *)
Record incoming := mkIn { in_header : mqtt_fixed_header; in_body : list Z; in_decoded : mqtt_decoded }.

Definition in_bytes (p : incoming) : list Z := header_bytes (in_header p) ++ in_body p.

(** The parts of the body that the client looks at lie in the packet. *)
Definition self_contained (p : incoming) : Prop :=
  match in_decoded p with
  | DPublish d => is_Some (heard d (in_body p)).1 /\ is_Some (heard d (in_body p)).2
  | DSuback _ _ codes => is_Some (rd8 (in_body p) codes)
  | _ => True
  end.

Record intelligible (room : Z) (p : incoming) : Prop := {
  in_reads : reads_as (in_bytes p) (in_header p) (in_decoded p);
  in_self : self_contained p;
  in_room : zlen (in_bytes p) <= room
}.

(** What is not a packet yet. *)
Definition incomplete (tail : list Z) : Prop :=
  forall h0 rest, exists h, mqtt_unpack_response h0 (tail ++ rest) (zlen tail) = Some (0, h, None).

Lemma packet_prefix_incomplete h body k : header_ok h -> remaining_length h = zlen body ->
  0 <= k < header_len h + zlen body -> incomplete (take (Z.to_nat k) (header_bytes h ++ body)).
Proof.
  intros Hh Hlen Hk h0 rest. rewrite length_take, length_app.
  replace (Z.of_nat _) with k by lia. unfold mqtt_unpack_response.
  destruct (header_incomplete h body k rest h0 Hh Hlen Hk) as (h' & ->). by exists h'.
Qed.

Lemma nothing_incomplete : incomplete [].
Proof. intros h0 rest. by exists h0. Qed.

Lemma heard_suffix d body rest : is_Some (heard d body).1 -> is_Some (heard d body).2 ->
  heard d (body ++ rest) = heard d body.
Proof. unfold heard. intros [x Hx] [y Hy]. cbn in *. by rewrite Hx, Hy, (rd_bytes_prefix _ _ _ _ _ Hx), (rd_bytes_prefix _ _ _ _ _ Hy). Qed.

Lemma handle_suffix l p rest : self_contained p ->
  handle l (in_decoded p) (in_body p ++ rest) = handle l (in_decoded p) (in_body p).
Proof.
  unfold self_contained, handle. destruct (in_decoded p); try done.
  - intros [H1 H2]. by rewrite heard_suffix.
  - intros [x Hx]. by rewrite Hx, (rd8_prefix _ _ _ _ Hx).
Qed.

Lemma in_bytes_pos p room : intelligible room p -> 0 < zlen (in_bytes p).
Proof. intros _. unfold in_bytes, header_bytes. cbn. lia. Qed.

(** One packet after the other, up to the first error. *)
Fixpoint handle_all l (ps : list incoming) : option outcome :=
  match ps with
  | [] => Some (MQTT_OK, l, [])
  | p :: ps =>
      '(rv, l, out) ← handle l (in_decoded p) (in_body p);
      if rv =? MQTT_OK
      then '(rv, l, out') ← handle_all l ps; Some (rv, l, out ++ out')
      else Some (rv, l, out)
  end.

(** The receive buffer holds [b], and has [free] behind it. *)
Definition buffered c (b free : list Z) : Prop :=
  cl_recv_mem c = b ++ free /\ cl_recv_curr c = zlen b /\ cl_recv_curr_sz c = zlen free.

Lemma recv_turn fuel h0 c w b free : buffered c b free ->
  exists w1 b1 free1, zlen (b1 ++ free1) = zlen (b ++ free)
    /\ b1 ++ inbox (obs w1) = b ++ inbox (obs w) /\ (inbox (obs w1) = [] \/ free1 = [])
    /\ obs w1 = inbox_is w (inbox (obs w1))
    /\ recv_loop hdr uninit (S fuel) h0 c w
       = let c := set_recv c (b1 ++ free1) (zlen b1) (zlen free1) in
         '(consumed, h, d) ← mqtt_unpack_response h0 (b1 ++ free1) (zlen b1);
         return_if consumed <? 0 with fail_with c consumed w1 ;;
         return_if consumed =? 0
           with (if zlen free1 =? 0 then fail_with c (mqtt_error MQTT_ERROR_RECV_BUFFER_TOO_SMALL) w1
                 else Some (MQTT_OK, c, w1)) ;;
         d ← d;
         '(n, _) ← mqtt_unpack_fixed_header h0 (Some (b1 ++ free1)) (zlen b1);
         '(rv, c, w) ← handle_response hdr uninit c h d (drop (Z.to_nat n) (b1 ++ free1)) w1;
         return_if negb (rv =? MQTT_OK) with Some (rv, c, w) ;;
         mem ← memmove_in (cl_recv_mem c) 0 consumed (cl_recv_curr c - consumed);
         recv_loop hdr uninit fuel h (set_recv c mem (cl_recv_curr c - consumed) (cl_recv_curr_sz c + consumed)) w.
Proof.
  intros (Em & Ec & Es). set (got := take (length free) (inbox (obs w))).
  destruct (recvall_spec b free w) as (w1 & E & Hw1). fold got in E.
  assert (Hg : (length got <= length free)%nat) by (unfold got; rewrite length_take; lia).
  exists w1, (b ++ got), (drop (length got) free).
  assert (Hinbox : inbox (obs w1) = drop (length free) (inbox (obs w))) by (by rewrite Hw1).
  split; [rewrite !length_app, length_drop; lia|].
  split; [rewrite Hinbox, <- app_assoc; unfold got; by rewrite take_drop|].
  split.
  { rewrite Hinbox. destruct (Nat.le_gt_cases (length free) (length (inbox (obs w)))) as [Hle|Hgt].
    - right. apply nil_length_inv. rewrite length_drop. unfold got. rewrite length_take. lia.
    - left. apply drop_ge. lia. }
  split; [by rewrite Hw1|].
  cbn [recv_loop]. rewrite Em, Ec, Es, E, bind_Some. zfalse (zlen got <? 0). rewrite app_assoc.
  cbn [cl_recv_mem cl_recv_curr cl_recv_curr_sz set_recv].
  replace (zlen b + zlen got) with (zlen (b ++ got)) by (rewrite length_app; lia).
  by replace (zlen free - zlen got) with (zlen (drop (length got) free)) by (rewrite length_drop; lia).
Qed.

Lemma stream_length w w1 (b free b1 free1 s : list Z) : zlen (b1 ++ free1) = zlen (b ++ free) ->
  b1 ++ inbox (obs w1) = s -> (inbox (obs w1) = [] \/ free1 = []) ->
  forall k, zlen k <= zlen (b ++ free) -> forall t, s = k ++ t -> exists b2, b1 = k ++ b2.
Proof.
  intros Hlen Hs Hend k Hk t Ht. rewrite <- Hs in Ht.
  assert (Hle : (length k <= length b1)%nat).
  { destruct Hend as [He | He]; rewrite He in *; rewrite ?app_nil_r in *; [|lia].
    rewrite Ht, length_app. lia. }
  exists (drop (length k) b1). rewrite <- (take_drop (length k) b1) at 1. f_equal.
  transitivity (take (length k) (b1 ++ inbox (obs w1))); [by rewrite take_app_le | by rewrite Ht, take_app_length].
Qed.

(** What the client finds in a buffer of [size] bytes when only [tail] is left of the
    stream, and what it returns: the packet is not all there yet - which is an error when
    the buffer is full - or the unpacker reports the error [e]. *)
Definition rejected (e : Z) (seen : list Z) : Prop :=
  e < 0 /\ forall h0 rest, exists h, mqtt_unpack_response h0 (seen ++ rest) (zlen seen) = Some (e, h, None).

Definition ends (size : Z) (tail : list Z) (e : Z) : Prop :=
  let seen := take (Z.to_nat size) tail in
  incomplete seen /\ e = (if zlen seen =? size then mqtt_error MQTT_ERROR_RECV_BUFFER_TOO_SMALL else MQTT_OK)
  \/ rejected e seen.

(** The result of the whole stream: the first error of a packet, or that of the end. *)
Definition stream_result (rv e : Z) : Z := if rv =? MQTT_OK then e else rv.

Lemma recv_end w w1 (b free b1 free1 tail : list Z) : zlen (b1 ++ free1) = zlen (b ++ free) ->
  b1 ++ inbox (obs w1) = tail -> (inbox (obs w1) = [] \/ free1 = []) ->
  b1 = take (Z.to_nat (zlen (b ++ free))) tail /\ (free1 <> [] -> inbox (obs w1) = []).
Proof.
  intros Hlen Hs Hend. split; [|by destruct Hend].
  rewrite <- Hs. destruct Hend as [-> | ->]; rewrite ?app_nil_r in *; [rewrite take_ge; [done|]|].
  - rewrite length_app in Hlen. lia.
  - by rewrite <- Hlen, Nat2Z.id, take_app_length.
Qed.

Lemma recv_loop_ends tail e ps : forall fuel h0 c w l b free o,
  (length ps < fuel)%nat -> 0 <= cl_error c -> rep (cl_mq c) l -> buffered c b free ->
  b ++ inbox (obs w) = concat (map in_bytes ps) ++ tail ->
  Forall (intelligible (zlen (b ++ free))) ps -> ends (zlen (b ++ free)) tail e ->
  handle_all l ps = Some o ->
  exists c' w', recv_loop hdr uninit fuel h0 c w = Some (stream_result o.1.1 e, c', w') /\ rep (cl_mq c') o.1.2
    /\ obs w' = mkObs (now (obs w)) (wire (obs w)) (inbox (obs w')) (delivered (obs w) ++ o.2)
    /\ cl_error c' = (if stream_result o.1.1 e =? MQTT_OK then cl_error c else stream_result o.1.1 e) /\ settings c' = settings c
    /\ (stream_result o.1.1 e = MQTT_OK -> inbox (obs w') = [] /\ exists free', buffered c' tail free' /\ zlen (tail ++ free') = zlen (b ++ free)).
Proof.
  induction ps as [|p ps IH]; intros fuel h0 c w l b free o Hfuel He Hr Hbuf Hs Hps Ht Ho;
    (destruct fuel as [|fuel]; [cbn in Hfuel; lia|]);
    destruct (recv_turn fuel h0 c w b free Hbuf) as (w1 & b1 & free1 & Hlen & Hs1 & Hend & Hw1 & ->); cbv zeta; rewrite Hs in Hs1;
    cbn [map concat length handle_all app] in *.
  - injection Ho as <-. unfold stream_result. cbn [fst snd Z.eqb] in *.
    destruct (recv_end w w1 b free b1 free1 tail Hlen Hs1 Hend) as [Eb Hin]. unfold ends in Ht. cbv zeta in Ht. rewrite <- Eb in Ht.
    assert (Hobs : obs w1 = mkObs (now (obs w)) (wire (obs w)) (inbox (obs w1)) (delivered (obs w) ++ []))
      by (rewrite Hw1 at 1; by rewrite app_nil_r).
    destruct Ht as [[Hinc ->] | [Hneg Hrej]].
    + destruct (Hinc h0 free1) as (h & ->). rewrite bind_Some. cbn [Z.ltb Z.compare Z.eqb].
      rewrite length_app in Hlen. destruct free1 as [|x free1].
      * rewrite (proj2 (Z.eqb_eq (zlen b1) (zlen (b ++ free)))) by (rewrite <- Hlen; cbn [length]; lia).
        cbn [length Z.of_nat Z.eqb]. eexists _, _. split; [done|]. split; [done|]. split; [done|]. split; [done|]. by split.
      * assert (zlen b1 <> zlen (b ++ free)) by (rewrite <- Hlen; cbn [length]; lia).
        rewrite (proj2 (Z.eqb_neq (zlen b1) (zlen (b ++ free)))) by done.
        cbn [length]. zfalse (Z.of_nat (S (length free1)) =? 0). specialize (Hin ltac:(done)).
        assert (b1 = tail) as -> by (rewrite <- Hs1, Hin; by rewrite app_nil_r).
        eexists _, _. split; [done|]. split; [done|]. split; [done|]. split; [done|]. split; [done|]. intros _. split; [done|]. exists (x :: free1).
        split; [done|]. rewrite length_app. lia.
    + destruct (Hrej h0 free1) as (h & ->). rewrite bind_Some. ztrue (e <? 0).
      rewrite Z.eqb_refl, (proj2 (Z.eqb_neq e MQTT_OK)) by (unfold MQTT_OK; lia).
      eexists _, _. do 5 (split; [done|]). unfold MQTT_OK. lia.
  - apply Forall_cons in Hps as [Hp Hps]. rewrite <- app_assoc in Hs1.
    pose proof (in_bytes_pos p _ Hp) as Hpos. destruct Hp as [Hread Hself Hroom].
    destruct (stream_length w w1 b free b1 free1 _ Hlen Hs1 Hend (in_bytes p) Hroom _ eq_refl) as (b2 & ->).
    rewrite <- app_assoc in Hs1. apply app_inv_head in Hs1. rewrite <- app_assoc in Hlen |- *.
    destruct (Hread h0 (b2 ++ free1) (zlen (in_bytes p ++ b2))) as [-> ->]; [rewrite length_app; lia|].
    rewrite bind_Some. zfalse (zlen (in_bytes p) <? 0). zfalse (zlen (in_bytes p) =? 0). rewrite !bind_Some.
    replace (drop _ (in_bytes p ++ b2 ++ free1)) with (in_body p ++ (b2 ++ free1))
      by (unfold in_bytes; rewrite Nat2Z.id, <- app_assoc, drop_app_length; done).
    destruct (handle l (in_decoded p) (in_body p)) as [[[rv l1] out]|] eqn:Eh; [|done]. cbn [mbind option_bind] in Ho.
    set (c1 := set_recv c _ _ _). 
    destruct (handle_spec c1 l (in_header p) (in_decoded p) (in_body p ++ b2 ++ free1) w1 (rv, l1, out) He Hr)
      as (c2 & w2 & -> & Hr2 & Hw2 & He2 & Em2 & Ec2 & Es2 & Eset); [by rewrite handle_suffix|]. rewrite bind_Some.
    assert (Eo2 : obs w2 = mkObs (now (obs w)) (wire (obs w)) (inbox (obs w1)) (delivered (obs w) ++ out))
      by (rewrite Hw2; unfold heard_more; by rewrite Hw1).
    destruct (rv =? MQTT_OK) eqn:Erv; cbn [negb].
    + rewrite Em2, Ec2, Es2. unfold c1. cbn [cl_recv_mem cl_recv_curr cl_recv_curr_sz set_recv].
      destruct (handle_all l1 ps) as [[[rv' l'] out']|] eqn:Eall; [|done]. cbn in Ho. injection Ho as <-.
      replace (zlen (in_bytes p ++ b2) - zlen (in_bytes p)) with (zlen b2) by (rewrite length_app; lia).
      rewrite memmove_front, bind_Some by done.
      set (free2 := drop (length b2) (in_bytes p ++ b2 ++ free1)).
      assert (Hf2 : zlen free2 = zlen free1 + zlen (in_bytes p))
        by (unfold free2; rewrite length_drop, !length_app; lia).
      assert (Hcap2 : zlen (b2 ++ free2) = zlen (b ++ free)) by (rewrite <- Hlen, !length_app; lia).
      set (c3 := set_recv c2 _ _ _).
      destruct (IH fuel (in_header p) c3 w2 l1 b2 free2 (rv', l', out')) as (c' & w' & -> & Hr' & Hw' & He' & Eset' & Hend');
        try done; try (by rewrite Hcap2); try lia.
      * unfold c3. cbn [cl_error set_recv]. by rewrite He2.
      * by rewrite Eo2.
      * cbn [fst snd] in *. eexists _, _. split; [done|]. split; [done|].
        split; [rewrite Hw', Eo2; cbn; by rewrite <- app_assoc|].
        split; [rewrite He'; unfold c3; cbn [cl_error set_recv]; by rewrite He2|].
        split; [by rewrite Eset'; unfold c3; transitivity (settings c1)|]. intros E. destruct (Hend' E) as (? & free' & ? & ?). split; [done|]. exists free'. split; [done|]. congruence.
    + injection Ho as <-. unfold stream_result. cbn [fst snd]. rewrite !Erv in *. eexists _, _. split; [done|]. split; [done|].
      split; [by rewrite Eo2|]. split; [done|]. split; [done|]. intros ->. done.
Qed.


(** The end of a stream that stops in the middle of a packet. *)
Lemma incomplete_ends size tail : incomplete tail -> zlen tail < size -> ends size tail MQTT_OK.
Proof. intros Ht Hl. left. rewrite take_ge by lia. split; [done|]. by zfalse (zlen tail =? size). Qed.

Lemma stream_result_ok rv : stream_result rv MQTT_OK = rv.
Proof. unfold stream_result. by destruct (Z.eqb_spec rv MQTT_OK) as [->|]. Qed.

Lemma recv_loop_spec tail ps fuel h0 c w l b free o :
  (length ps < fuel)%nat -> 0 <= cl_error c -> rep (cl_mq c) l -> buffered c b free ->
  b ++ inbox (obs w) = concat (map in_bytes ps) ++ tail ->
  Forall (intelligible (zlen (b ++ free))) ps -> incomplete tail -> zlen tail < zlen (b ++ free) ->
  handle_all l ps = Some o ->
  exists c' w', recv_loop hdr uninit fuel h0 c w = Some (o.1.1, c', w') /\ rep (cl_mq c') o.1.2
    /\ obs w' = mkObs (now (obs w)) (wire (obs w)) (inbox (obs w')) (delivered (obs w) ++ o.2)
    /\ cl_error c' = (if o.1.1 =? MQTT_OK then cl_error c else o.1.1) /\ settings c' = settings c
    /\ (o.1.1 = MQTT_OK -> inbox (obs w') = [] /\ exists free', buffered c' tail free' /\ zlen (tail ++ free') = zlen (b ++ free)).
Proof.
  intros Hf He Hr Hb Hs Hps Ht Htl Ho.
  pose proof (recv_loop_ends tail MQTT_OK ps fuel h0 c w l b free o Hf He Hr Hb Hs Hps (incomplete_ends _ _ Ht Htl) Ho) as H'.
  by rewrite stream_result_ok in H'.
Qed.

(** An acknowledgement as it is received. *)
Definition ack_incoming (type id : Z) : incoming := mkIn (ack_header type) (net16 id) (ack_decoded type id).

Lemma ack_intelligible size type id : bool_decide (type ∈ ack_types) -> is_u16 id -> 4 <= size ->
  intelligible size (ack_incoming type id).
Proof.
  intros Ht Hid Hsz. pose proof (ack_packet_length type id Ht : zlen (in_bytes (ack_incoming type id)) = 4) as Hl.
  split; [by apply ack_reads | | by rewrite Hl]. clear Hl.
  revert type Ht. by apply ack_types_ind.
Qed.

(** C15: [__mqtt_recv] ends once there is nothing left to read, and it does not matter
    how a socket that works divides the stream. Let the client have no error, the clock
    stand still and [recv] never fail (a socket error ends the call at once, with the
    error: [mqtt_recv_socket_error]). When the stream is any number of packets that the
    unpacker understands, that fit the receive buffer and whose bodies hold the fields
    the client reads, followed by a part of a packet or by something that the unpacker
    rejects, each of the packets is handled once, in order, up to the first error; the
    acknowledgements and the messages delivered are those of the abstract handler. If
    all of them are handled, what follows decides: a part of a packet (or nothing) with
    room behind it stays in the buffer and the result is [MQTT_OK], one that fills the
    buffer gives [MQTT_ERROR_RECV_BUFFER_TOO_SMALL], and what the unpacker rejects gives
    the unpacker's error. The client keeps every error. *)
Theorem mqtt_recv_stream tail e ps fuel h0 c w l b free rv l' out :
  (length ps < fuel)%nat -> 0 <= cl_error c -> rep (cl_mq c) l -> buffered c b free ->
  b ++ inbox (obs w) = concat (map in_bytes ps) ++ tail ->
  Forall (intelligible (zlen (b ++ free))) ps -> ends (zlen (b ++ free)) tail e ->
  handle_all l ps = Some (rv, l', out) ->
  exists c' w', __mqtt_recv hdr uninit fuel h0 c w = Some (stream_result rv e, c', w') /\ rep (cl_mq c') l'
    /\ delivered (obs w') = delivered (obs w) ++ out /\ wire (obs w') = wire (obs w)
    /\ cl_error c' = (if stream_result rv e =? MQTT_OK then cl_error c else stream_result rv e)
    /\ (stream_result rv e = MQTT_OK -> inbox (obs w') = [] /\ exists free', buffered c' tail free').
Proof.
  intros Hf He Hr Hb Hs Hps Ht Ho.
  destruct (recv_loop_ends tail e ps fuel h0 c w l b free _ Hf He Hr Hb Hs Hps Ht Ho)
    as (c' & w' & E & Hr' & Hw' & He' & _ & Hend). cbn [fst snd] in *. exists c', w'. split; [done|]. split; [done|].
  split; [by rewrite Hw'|]. split; [by rewrite Hw'|]. split; [done|].
  intros Hok. destruct (Hend Hok) as (Hin & free' & Hb' & _). split; [done|]. by exists free'.
Qed.

(** A socket error. *)
Theorem mqtt_recv_socket_error fuel h0 c w w1 : 0 < cl_recv_curr_sz c -> sys_recv (cl_recv_curr_sz c) w = (None, w1) ->
  __mqtt_recv hdr uninit (S fuel) h0 c w
  = fail_with (set_recv c (cl_recv_mem c) (cl_recv_curr c) (cl_recv_curr_sz c)) (mqtt_error MQTT_ERROR_SOCKET_ERROR) w1.
Proof.
  intros Hn E. unfold __mqtt_recv. cbn [recv_loop]. unfold mqtt_pal_recvall.
  replace (Z.to_nat (cl_recv_curr_sz c) + 2)%nat with (S (Z.to_nat (cl_recv_curr_sz c) + 1)) by lia. cbn [recvall_loop].
  by rewrite E.
Qed.
End receive.

(** ** On concrete inputs *)

Definition published (id : Z) (s : MQTTQueuedMessageState) : qmsg :=
  mkQ (publish_packet [97] id [98] 2) s 900 MQTT_CONTROL_PUBLISH id.

Definition waiting : list qmsg := [published 5 MQTT_QUEUED_AWAITING_ACK; published 6 MQTT_QUEUED_AWAITING_ACK].

(** PUBACK for the second message, then for the first, then three bytes of another. *)
Lemma mqtt_recv_stream_witness :
  exists c' w', __mqtt_recv 8 sample_uninit 3 (mkHeader 0 0 0) (sample_client waiting)
      (mkObs 1000 [] [0x40; 2; 0; 6; 0x40; 2; 0; 5; 0x40; 2; 0] []) = Some (MQTT_OK, c', w')
    /\ mq_rep 8 100 (cl_mq c') [published 5 MQTT_QUEUED_COMPLETE; published 6 MQTT_QUEUED_COMPLETE]
    /\ delivered w' = [] /\ wire w' = [] /\ cl_error c' = MQTT_OK
    /\ (MQTT_OK = MQTT_OK -> inbox w' = [] /\ exists free', buffered c' [0x40; 2; 0] free').
Proof.
  refine (mqtt_recv_stream (obs := fun w => w) 8 sample_uninit _ 100 [0x40; 2; 0] MQTT_OK
    [ack_incoming MQTT_CONTROL_PUBACK 6; ack_incoming MQTT_CONTROL_PUBACK 5] 3 (mkHeader 0 0 0) (sample_client waiting)
    (mkObs 1000 [] [0x40; 2; 0; 6; 0x40; 2; 0; 5; 0x40; 2; 0] []) waiting [] (zeros 40) MQTT_OK
    [published 5 MQTT_QUEUED_COMPLETE; published 6 MQTT_QUEUED_COMPLETE] [] _ _ _ _ _ _ _ _); try done; try (cbn; lia).
  - by apply sample_queue_rep.
  - apply Forall_cons. split; [by apply ack_intelligible|]. apply Forall_cons. split; [by apply ack_intelligible | done].
  - apply incomplete_ends; [|by vm_compute].
    by apply (packet_prefix_incomplete (ack_header MQTT_CONTROL_PUBACK) [0; 7] 3); [apply (ack_header_facts MQTT_CONTROL_PUBACK) | |].
Defined.

(** A packet of type 15 at the end of a stream. *)
Example reserved_type_ends : ends 40 [0xF0; 0] (mqtt_error MQTT_ERROR_CONTROL_FORBIDDEN_TYPE).
Proof. right. split; [by vm_compute|]. intros h0 rest. by eexists. Qed.

(** The acknowledgement that is complete still counts as a duplicate: the next message
    that has the identifier is dropped, as long as the acknowledgement is queued. *)
Example reused_identifier_dropped :
  let pubrec := mkQ (ack_packet MQTT_CONTROL_PUBREC 5) MQTT_QUEUED_COMPLETE 900 MQTT_CONTROL_PUBREC 5 in
  let l := [published 9 MQTT_QUEUED_AWAITING_ACK; pubrec] in
  handle 8 sample_uninit 100 l (DPublish (publish_decoded [97] 5 [98] 4)) (publish_body [97] 5 [98] 4)
  = Some (MQTT_OK, l, []).
Proof. by vm_compute. Qed.
