(* ===== verification/MqttExchange.v ===== *)
(** * Two MQTT clients: a message of quality of service 2 arrives exactly once

    Two clients of MqttClient.v are connected by a network that may deliver what is sent
    more than once: the packets PUBLISH, PUBREC, PUBREL and PUBCOMP pass between them. *)

From stdpp Require Import prelude.
From S2P Require Import Prelude CMem Mqtt MqttCorrect MqttQueue MqttClient MqttClientCorrect MqttReceive.

Section exchange.
Context (hdr : Z) (uninit : nat -> mqtt_queued_message) (Hhdr : 0 <= hdr) (cap : Z).
Context {W : Type} `{SteadyWorld W obs}.

(** The network puts bytes into the socket of a client. *)
Context (arrive : W -> list Z -> W).
Hypothesis arrive_obs : forall w bytes,
  obs (arrive w bytes) = mkObs (now (obs w)) (wire (obs w)) (inbox (obs w) ++ bytes) (delivered (obs w)).

Abbreviation peer := (mqtt_client * W)%type.

(** One client sends what it has, and the other receives it, a number of times. *)
Definition round (h0 : mqtt_fixed_header) (copies : nat) (from to : peer) : option (peer * peer) :=
  let '(c, w) := from in
  let '(c', w') := to in
  '(rv, c, w1) ← __mqtt_send hdr uninit c w;
  return_if negb (rv =? MQTT_OK) with None ;;
  let sent := drop (length (wire (obs w))) (wire (obs w1)) in
  '(rv, c', w') ← __mqtt_recv hdr uninit (S copies) h0 c' (arrive w' (concat (repeat sent copies)));
  return_if negb (rv =? MQTT_OK) with None ;;
  Some ((c, w1), (c', w')).

(** The publisher [a] and the subscriber [b]; PUBLISH arrives [n] times more than it is
    sent, and PUBREC [k] times. *)
Definition qos2_session (h0 : mqtt_fixed_header) (n k : nat) (topic message : list Z) (flags : Z) (a b : peer)
    : option (peer * peer) :=
  '(rv, c) ← mqtt_publish hdr uninit a.1 (Some topic) message (zlen message) flags;
  return_if negb (rv =? MQTT_OK) with None ;;
  '(a, b) ← round h0 (S n) (c, a.2) b;
  '(b, a) ← round h0 (S k) b a;
  '(a, b) ← round h0 1 a b;
  '(b, a) ← round h0 1 b a;
  Some (a, b).

(** A client without an error, whose queue is [l] and whose receive buffer of [size] bytes
    is empty. *)
Record peer_at (size t : Z) (heard : list (option (list Z) * option (list Z))) (p : peer) (l : list qmsg) : Prop := {
  pa_rep : mq_rep hdr cap (cl_mq p.1) l;
  pa_error : cl_error p.1 = MQTT_OK;
  pa_keep : 0 <= cl_keep_alive p.1;
  pa_timeout : 0 <= cl_response_timeout p.1;
  pa_buffer : exists free, buffered p.1 [] free /\ zlen free = size;
  pa_inbox : inbox (obs p.2) = [];
  pa_now : now (obs p.2) = t;
  pa_heard : delivered (obs p.2) = heard;
  pa_sendable : Forall sendable l
}.

Lemma round_spec h0 n a b la lb la' lb' p size ta tb ha hb out :
  peer_at size ta ha a la -> peer_at size tb hb b lb -> (0 < n)%nat ->
  (forall timeout, 0 <= timeout -> send_all ta timeout false la = (la', in_bytes p)) ->
  intelligible size p -> 0 < size -> handle_all hdr uninit cap lb (repeat p n) = Some (MQTT_OK, lb', out) ->
  Forall sendable lb' ->
  exists a' b', round h0 n a b = Some (a', b') /\ peer_at size ta ha a' la' /\ peer_at size tb (hb ++ out) b' lb'.
Proof.
  destruct a as [c w], b as [c' w']. intros [Ra Ea Ka Ta (fa & Ba & Za) Ia Na Da Sa] [Rb Eb Kb Tb (fb & Bb & Zb) Ib Nb Db Sb].
  cbn [fst snd] in *. intros Hn Hsend Hp Hsize Hh Hs. unfold round.
  pose proof (send_busy hdr uninit cap c w la Ra Sa Ea Ka) as Hbusy.
  pose proof (send_all_keeps ta (cl_response_timeout c) false la Sa) as Hka.
  rewrite Na, Hsend in Hbusy by done. rewrite Hsend in Hka by done.
  destruct Hbusy as (c1 & w1 & -> & Rc1 & Hw1 & Hc1).
  { intros Hnil. pose proof (in_bytes_pos p size Hp) as Hpos. rewrite Hnil in Hpos. done. }
  rewrite bind_Some. cbn [negb Z.eqb]. rewrite Hw1. unfold sent_more. cbn [wire]. rewrite drop_app_length.
  assert (Estream : concat (repeat (in_bytes p) n) = concat (map in_bytes (repeat p n)))
    by (clear; induction n as [|n IH]; cbn [repeat map concat]; by rewrite ?IH).
  destruct (recv_loop_spec hdr uninit Hhdr cap [] (repeat p n) (S n) h0 c' (arrive w' (concat (repeat (in_bytes p) n))) lb [] fb
    (MQTT_OK, lb', out)) as (c2 & w2 & E & Rc2 & Hw2 & He2 & Hset & Hend); try done.
  - rewrite repeat_length. lia.
  - by rewrite Eb.
  - rewrite arrive_obs, Ib, app_nil_r. cbn. done.
  - apply Forall_forall. intros x Hx%list_elem_of_In%repeat_spec. subst x. cbn [app]. by rewrite Zb.
  - cbn [app]. by apply nothing_incomplete.
  - cbn. lia.
  - unfold __mqtt_recv. rewrite E. cbn [fst snd] in *. rewrite bind_Some. cbn [negb Z.eqb].
    destruct (Hend eq_refl) as (Hin & free' & Hb' & Hz'). eexists _, _. split; [done|].
    injection Hset as Hk Ht _. rewrite arrive_obs in Hw2. cbn in Hw2. split.
    + split; cbn [fst snd]; rewrite ?(sc_error _ _ Hc1), ?(sc_keep _ _ Hc1), ?(sc_timeout _ _ Hc1), ?Hw1; try done.
      exists fa. split; [|done]. unfold buffered in *. by destruct (sc_recv _ _ Hc1) as (-> & -> & ->).
    + split; cbn [fst snd]; rewrite ?He2, ?Hk, ?Ht; try done.
      * exists free'. split; [done|]. cbn [app] in Hz'. lia.
      * by rewrite Hw2.
      * by rewrite Hw2, Db.
Qed.

(** ** The queues of the two clients *)

Implicit Types (l : list qmsg).

Lemma stage_fits l packet type id : 0 < zlen packet ->
  zlen (packed l) + zlen packet + hdr * (zlen l + 1) <= cap ->
  stage hdr uninit cap l packet type id = (MQTT_OK, enqueue uninit l packet type id).
Proof.
  intros Hp Hc. unfold stage, room, mqtt_mq_currsz. cbv zeta.
  zfalse (zlen (packed l) >=? cap - hdr * zlen l - hdr).
  by ztrue (zlen packet <=? cap - hdr * zlen l - hdr - zlen (packed l)).
Qed.

Lemma find_q_here m l : find_q (m :: l) (q_type m) (Some (q_id m)) = Some 0%nat.
Proof.
  unfold find_q. cbn [list_find].
  assert (found_q (q_type m) (Some (q_id m)) m = true) as -> by (unfold found_q; by rewrite !Z.eqb_refl). done.
Qed.

Lemma find_q_skip m l type id : q_type m <> type -> find_q (m :: l) type id = S <$> find_q l type id.
Proof.
  intros Hne. unfold find_q. cbn [list_find].
  assert (found_q type id m = false) as -> by (unfold found_q; by zfalse (q_type m =? type)).
  cbn. by destruct (list_find _ l) as [[]|].
Qed.

Lemma send_last t timeout l m : Forall (fun m => q_state m = MQTT_QUEUED_COMPLETE) l -> q_state m = MQTT_QUEUED_UNSENT ->
  send_all t timeout false (l ++ [m]) = (l ++ [sent_as t m], q_bytes m).
Proof.
  intros Hl Hm. induction Hl as [|x l Hx Hl IH]; cbn [app send_all].
  - unfold due. rewrite Hm, andb_false_r, app_nil_r. done.
  - assert (pending x = false) as -> by (unfold pending; by rewrite Hx). cbn [andb orb]. rewrite IH.
    unfold due. by rewrite Hx.
Qed.

(** Copies of a packet that change nothing. *)
Lemma handle_copies l l' p out n : handle hdr uninit cap l (in_decoded p) (in_body p) = Some (MQTT_OK, l', out) ->
  handle hdr uninit cap l' (in_decoded p) (in_body p) = Some (MQTT_OK, l', []) ->
  handle_all hdr uninit cap l (repeat p (S n)) = Some (MQTT_OK, l', out).
Proof.
  intros H1 H2. cbn [repeat handle_all]. rewrite H1. cbn [mbind option_bind Z.eqb].
  assert (E : handle_all hdr uninit cap l' (repeat p n) = Some (MQTT_OK, l', [])).
  { clear H1. induction n as [|n IH]; [done|]. cbn [repeat handle_all]. rewrite H2. cbn. by rewrite IH. }
  rewrite E. cbn. by rewrite app_nil_r.
Qed.

Definition ack_msg (type id t : Z) (s : MQTTQueuedMessageState) : qmsg := mkQ (ack_packet type id) s t type id.
Lemma find_ack type id t s l : find_q (ack_msg type id t s :: l) type (Some id) = Some 0%nat.
Proof. apply (find_q_here (ack_msg type id t s)). Qed.

Lemma answer_fits l type id out : bool_decide (type ∈ ack_types) -> zlen (packed l) + 4 + hdr * (zlen l + 1) <= cap ->
  answer hdr uninit cap l type id out
  = (MQTT_OK, l ++ [ack_msg type id (msg_time (uninit (length l))) MQTT_QUEUED_UNSENT], out).
Proof.
  intros Ht Hc. pose proof (ack_packet_length type id Ht) as Hl. unfold answer.
  rewrite stage_fits by lia. done.
Qed.

Lemma ack_sendable type id t s : bool_decide (type ∈ ack_types) -> sendable (ack_msg type id t s).
Proof.
  intros Ht. pose proof (ack_packet_length type id Ht) as Hl. split; cbn [q_bytes q_type ack_msg]; [lia|].
  clear Hl. revert type Ht. by apply ack_types_ind.
Qed.

Lemma packet_qos_publish topic id message flags : 0 <= flags < 16 ->
  packet_qos (publish_packet topic id message flags) = publish_qos flags.
Proof.
  intros Hf. unfold packet_qos, publish_packet, header_bytes, publish_header. cbn [app control_type control_flags].
  change (default 0 ((?x :: ?l) !! 0%nat)) with x.
  assert (Hin : flags ∈ seqZ 0 16) by (apply elem_of_seqZ; lia). clear Hf. vm_compute in Hin.
  repeat (apply elem_of_cons in Hin as [->|Hin]; [by vm_compute|]). by apply elem_of_nil in Hin.
Qed.

Section session.
Context (topic message : list Z) (flags id : Z).
Hypothesis (Hf : 0 <= flags < 16) (Hq : publish_qos flags = 2) (Hid : is_u16 id).
Hypothesis Hlen : zlen (publish_body topic id message flags) < 65536.

Definition pub_packet : list Z := publish_packet topic id message flags.
Definition pub_msg (t : Z) (s : MQTTQueuedMessageState) : qmsg := mkQ pub_packet s t MQTT_CONTROL_PUBLISH id.
Lemma find_pub t s l : find_q (pub_msg t s :: l) MQTT_CONTROL_PUBLISH (Some id) = Some 0%nat.
Proof. apply (find_q_here (pub_msg t s)). Qed.

Definition pub_incoming : incoming :=
  mkIn (publish_header flags (zlen (publish_body topic id message flags))) (publish_body topic id message flags)
    (DPublish (publish_decoded topic id message flags)).

Hypothesis Hcap : zlen pub_packet + 8 + 2 * hdr <= cap.

Lemma pub_length : 4 <= zlen (publish_body topic id message flags).
Proof. rewrite publish_body_length, Hq. cbn. lia. Qed.

Lemma pub_heard : heard (publish_decoded topic id message flags) (publish_body topic id message flags) = (Some topic, Some message).
Proof.
  destruct (publish_unpacks _ topic id message flags [] Hf Hid eq_refl) as (_ & Ht & Hm).
  { cbn [remaining_length publish_header]. pose proof pub_length. lia. }
  rewrite app_nil_r in *. unfold heard, denotes in *. cbn [string_len] in *.
  unfold publish_decoded in *. cbn [topic_name string_len] in *. by rewrite Ht, Hm.
Qed.

Lemma pub_intelligible size : zlen pub_packet <= size -> intelligible size pub_incoming.
Proof.
  intros Hs. split; [|unfold self_contained; cbn [in_decoded in_body pub_incoming]; by rewrite pub_heard | done].
  apply publish_reads; [done | done|]. pose proof pub_length. lia.
Qed.

Lemma pub_sent t t' s : sent_as t (pub_msg t' s) = pub_msg t MQTT_QUEUED_AWAITING_ACK.
Proof.
  unfold sent_as. cbn [q_bytes q_type q_id pub_msg]. unfold pub_packet. rewrite packet_qos_publish, Hq by done. done.
Qed.

Lemma pub_sendable t s : sendable (pub_msg t s).
Proof.
  split; [|done]. cbn [q_bytes pub_msg]. unfold pub_packet, publish_packet. rewrite length_app.
  pose proof pub_length. lia.
Qed.

Lemma handle_publish l : handle hdr uninit cap l (in_decoded pub_incoming) (in_body pub_incoming)
  = Some (if bool_decide (is_Some (find_q l MQTT_CONTROL_PUBREC (Some id))) then (MQTT_OK, l, [])
          else answer hdr uninit cap l MQTT_CONTROL_PUBREC id [(Some topic, Some message)]).
Proof.
  unfold handle, pub_incoming. cbn [in_decoded in_body]. rewrite pub_heard. unfold publish_decoded.
  cbn [qos_level publish_id]. by rewrite Hq.
Qed.

(** The subscriber takes the message, once. *)
Lemma take_publish n : handle_all hdr uninit cap [] (repeat pub_incoming (S n))
  = Some (MQTT_OK, [ack_msg MQTT_CONTROL_PUBREC id (msg_time (uninit 0%nat)) MQTT_QUEUED_UNSENT], [(Some topic, Some message)]).
Proof.
  assert (Hp : 4 <= zlen pub_packet) by (unfold pub_packet, publish_packet; rewrite length_app; pose proof pub_length; lia).
  apply handle_copies; rewrite handle_publish.
  - rewrite bool_decide_false by (by intros []). by rewrite answer_fits by (done || (cbn; lia)).
  - by rewrite find_ack.
Qed.

(** The publisher answers PUBREC, once. *)
Lemma take_pubrec t n : handle_all hdr uninit cap [pub_msg t MQTT_QUEUED_AWAITING_ACK] (repeat (ack_incoming MQTT_CONTROL_PUBREC id) (S n))
  = Some (MQTT_OK, [pub_msg t MQTT_QUEUED_COMPLETE; ack_msg MQTT_CONTROL_PUBREL id (msg_time (uninit 1%nat)) MQTT_QUEUED_UNSENT], []).
Proof.
  apply handle_copies; unfold handle; cbn [in_decoded ack_incoming ack_decoded];
    change (ack_decoded MQTT_CONTROL_PUBREC id) with (DPubrec id); cbn beta iota; rewrite find_q_skip by done.
  - rewrite bool_decide_false by (by intros []). unfold acknowledge. rewrite find_pub.
    cbn [alter list_alter]. rewrite answer_fits; [done | done|]. rewrite packed_cons, app_nil_r. cbn [q_bytes q_complete pub_msg length]. lia.
  - by rewrite find_ack.
Qed.

(** The subscriber answers PUBREL. *)
Lemma take_pubrel t : handle_all hdr uninit cap [ack_msg MQTT_CONTROL_PUBREC id t MQTT_QUEUED_AWAITING_ACK]
    (repeat (ack_incoming MQTT_CONTROL_PUBREL id) 1)
  = Some (MQTT_OK, [ack_msg MQTT_CONTROL_PUBREC id t MQTT_QUEUED_COMPLETE;
                    ack_msg MQTT_CONTROL_PUBCOMP id (msg_time (uninit 1%nat)) MQTT_QUEUED_UNSENT], []).
Proof.
  assert (Hp : 4 <= zlen pub_packet) by (unfold pub_packet, publish_packet; rewrite length_app; pose proof pub_length; lia).
  cbn [repeat handle_all in_decoded ack_incoming]. change (ack_decoded MQTT_CONTROL_PUBREL id) with (DPubrel id).
  unfold handle, acknowledge. rewrite find_ack. cbn [alter list_alter].
  rewrite answer_fits; [done | done |]. rewrite packed_cons, app_nil_r. cbn [q_bytes q_complete ack_msg].
  rewrite (ack_packet_length MQTT_CONTROL_PUBREC id) by done. cbn [length]. lia.
Qed.

Lemma take_pubcomp t t' : handle_all hdr uninit cap
    [pub_msg t MQTT_QUEUED_COMPLETE; ack_msg MQTT_CONTROL_PUBREL id t' MQTT_QUEUED_AWAITING_ACK]
    (repeat (ack_incoming MQTT_CONTROL_PUBCOMP id) 1)
  = Some (MQTT_OK, [pub_msg t MQTT_QUEUED_COMPLETE; ack_msg MQTT_CONTROL_PUBREL id t' MQTT_QUEUED_COMPLETE], []).
Proof.
  cbn [repeat handle_all in_decoded ack_incoming]. change (ack_decoded MQTT_CONTROL_PUBCOMP id) with (DPubcomp id).
  unfold handle, acknowledge. rewrite find_q_skip, find_ack by done. done.
Qed.
End session.

Lemma publish_packet_length topic id message flags :
  zlen (publish_packet topic id message flags) = zlen (publish_packet topic 0 message flags).
Proof. unfold publish_packet. cbv zeta. rewrite !length_app, !Nat2Z.inj_add, !publish_body_length. done. Qed.

Lemma first_step size t heard c w topic message flags :
  0 <= flags < 16 -> publish_qos flags = 2 -> zlen (publish_body topic 0 message flags) < 65536 ->
  zlen (publish_packet topic 0 message flags) + 8 + 2 * hdr <= cap -> is_u16 (cl_pid_lfsr c) ->
  peer_at size t heard (c, w) [] ->
  exists id c' t', is_u16 id
    /\ mqtt_publish hdr uninit c (Some topic) message (zlen message) flags = Some (MQTT_OK, c')
    /\ peer_at size t heard (c', w) [pub_msg topic message flags id t' MQTT_QUEUED_UNSENT].
Proof.
  intros Hf Hq Hlen Hcap Hpid [Hr He Hk Ht Hb Hi Hn Hh _]. cbn [fst snd] in *.
  destruct (with_pid_stages hdr uninit Hhdr cap c [] (fun id m n => mqtt_pack_publish_request m n (Some topic) id message (zlen message) flags)
    (fun id => publish_packet topic id message flags) MQTT_CONTROL_PUBLISH) as (id & Hid & _ & Hs); try done.
  - by rewrite He.
  - intros id Hid. apply publish_always_packs. split; [done|]. split; [by rewrite Hq | done].
  - assert (Hid' : is_u16 id) by lia. pose proof (publish_packet_length topic id message flags) as El.
    rewrite stage_fits in Hs; [|apply (request_packet_pos (Publish topic message flags))
      |rewrite El; cbn [length]; change (zlen (packed [])) with 0; lia].
    destruct Hs as (q' & E & Hq'). exists id, (set_mq (set_pid c id) q'), (msg_time (uninit 0%nat)).
    split; [done|]. split; [exact E|].
    assert (Hs : sendable (pub_msg topic message flags id (msg_time (uninit 0%nat)) MQTT_QUEUED_UNSENT)).
    { apply pub_sendable; try done. }
    split; try done. by constructor.
Qed.

(** C14: one QoS 2 publication between two idle clients is delivered exactly once
    although PUBLISH and PUBREC are repeated. At the start both queues and both receive
    buffers are empty and neither client has an error; the packet is shorter than 65536
    bytes and fits the queue, with eight bytes and two headers for the acknowledgements,
    and the other's receive buffer; the clocks stand still, [send] and [recv] never
    fail, the network loses nothing and repeats only the PUBLISH (any number of times,
    all before its first answer) and the PUBREC. Then [mqtt_publish] and the four rounds
    of [__mqtt_send] and [__mqtt_recv], however the sockets divide the bytes, end
    without an error on either side, the subscriber's callback has been given this topic
    and message once more and nothing else, and every message of both queues is
    complete. (With an earlier message of the same identifier still in the subscriber's
    queue the new one is dropped: [reused_identifier_dropped].) *)
Theorem qos2_exactly_once h0 n k topic message flags a b size ta tb ha hb :
  0 <= flags < 16 -> publish_qos flags = 2 -> zlen (publish_body topic 0 message flags) < 65536 ->
  zlen (publish_packet topic 0 message flags) + 8 + 2 * hdr <= cap ->
  zlen (publish_packet topic 0 message flags) <= size -> 4 <= size -> is_u16 (cl_pid_lfsr a.1) ->
  peer_at size ta ha a [] -> peer_at size tb hb b [] ->
  exists a' b' la lb, qos2_session h0 n k topic message flags a b = Some (a', b')
    /\ peer_at size ta ha a' la /\ peer_at size tb (hb ++ [(Some topic, Some message)]) b' lb
    /\ Forall (fun m => q_state m = MQTT_QUEUED_COMPLETE) (la ++ lb).
Proof.
  intros Hf Hq Hlen Hcap Hsz Hsz4 Hpid Ha Hb. destruct a as [c w]. cbn [fst] in Hpid.
  destruct (first_step size ta ha c w topic message flags Hf Hq Hlen Hcap Hpid Ha) as (id & c1 & t0 & Hid & E & Ha1).
  unfold qos2_session. cbn [fst snd]. rewrite E, bind_Some. cbn [negb Z.eqb].
  rewrite <- (publish_packet_length topic id) in Hcap, Hsz. rewrite publish_body_length, <- (publish_body_length topic id) in Hlen.
  set (pub := pub_msg topic message flags id). set (ack type := ack_msg type id).
  assert (Hps : forall t s, sendable (pub t s)) by (intros; by apply pub_sendable).
  assert (Hin : forall type, bool_decide (type ∈ ack_types) -> intelligible size (ack_incoming type id))
    by (intros; by apply ack_intelligible).
  assert (Has : forall type t s, bool_decide (type ∈ ack_types) -> sendable (ack type t s)) by (intros; by apply ack_sendable).
  destruct (round_spec h0 (S n) (c1, w) b [pub t0 MQTT_QUEUED_UNSENT] [] [pub ta MQTT_QUEUED_AWAITING_ACK]
    [ack MQTT_CONTROL_PUBREC (msg_time (uninit 0%nat)) MQTT_QUEUED_UNSENT]
    (pub_incoming topic message flags id) size ta tb ha hb [(Some topic, Some message)] Ha1 Hb) as (a2 & b2 & -> & Ha2 & Hb2); try lia.
  { intros timeout _. etransitivity; [by apply (send_last ta timeout [])|]. cbn [app]. unfold pub. by rewrite pub_sent. }
  { by apply pub_intelligible. }
  { by apply take_publish. }
  { by repeat constructor; apply Has. }
  rewrite bind_Some.
  destruct (round_spec h0 (S k) b2 a2 _ _ [ack MQTT_CONTROL_PUBREC tb MQTT_QUEUED_AWAITING_ACK]
    [pub ta MQTT_QUEUED_COMPLETE; ack MQTT_CONTROL_PUBREL (msg_time (uninit 1%nat)) MQTT_QUEUED_UNSENT]
    (ack_incoming MQTT_CONTROL_PUBREC id) size tb ta _ _ [] Hb2 Ha2) as (b3 & a3 & -> & Hb3 & Ha3); try lia.
  { intros timeout _. by etransitivity; [apply (send_last tb timeout [])|]. }
  { by apply Hin. }
  { by apply take_pubrec. }
  { repeat constructor; [apply Hps | by apply Has]. }
  rewrite bind_Some. cbn beta iota. rewrite app_nil_r in Ha3.
  destruct (round_spec h0 1 a3 b3 _ _ [pub ta MQTT_QUEUED_COMPLETE; ack MQTT_CONTROL_PUBREL ta MQTT_QUEUED_AWAITING_ACK]
    [ack MQTT_CONTROL_PUBREC tb MQTT_QUEUED_COMPLETE; ack MQTT_CONTROL_PUBCOMP (msg_time (uninit 1%nat)) MQTT_QUEUED_UNSENT]
    (ack_incoming MQTT_CONTROL_PUBREL id) size ta tb _ _ [] Ha3 Hb3) as (a4 & b4 & -> & Ha4 & Hb4); try lia.
  { intros timeout _. by etransitivity; [apply (send_last ta timeout [_]); [by repeat constructor | done]|]. }
  { by apply Hin. }
  { by eapply take_pubrel. }
  { repeat constructor; by apply Has. }
  rewrite bind_Some. cbn beta iota. rewrite app_nil_r in Hb4.
  destruct (round_spec h0 1 b4 a4 _ _ [ack MQTT_CONTROL_PUBREC tb MQTT_QUEUED_COMPLETE; ack MQTT_CONTROL_PUBCOMP tb MQTT_QUEUED_COMPLETE]
    [pub ta MQTT_QUEUED_COMPLETE; ack MQTT_CONTROL_PUBREL ta MQTT_QUEUED_COMPLETE]
    (ack_incoming MQTT_CONTROL_PUBCOMP id) size tb ta _ _ [] Hb4 Ha4) as (b5 & a5 & -> & Hb5 & Ha5); try lia.
  { intros timeout _. by etransitivity; [apply (send_last tb timeout [_]); [by repeat constructor | done]|]. }
  { by apply Hin. }
  { by eapply take_pubcomp. }
  { repeat constructor; [apply Hps | by apply Has]. }
  rewrite bind_Some. rewrite app_nil_r in Ha5. eexists a5, b5, _, _. split; [done|].
  split; [exact Ha5|]. split; [exact Hb5|]. by repeat constructor.
Qed.
End exchange.


(** ** On a concrete input *)

Definition sample_peer : mqtt_client * observation := (sample_client [], mkObs 1000 [] [] []).

Definition sample_arrive (w : observation) (bytes : list Z) : observation :=
  mkObs (now w) (wire w) (inbox w ++ bytes) (delivered w).

Lemma sample_peer_at : peer_at (obs := fun w => w) 8 100 40 1000 [] sample_peer [].
Proof. split; try done; [by apply sample_queue_rep|]. by exists (zeros 40). Qed.

(** PUBLISH arrives three times and PUBREC twice. *)
Lemma qos2_exactly_once_witness :
  exists a' b' la lb,
    qos2_session (obs := fun w => w) 8 sample_uninit sample_arrive (mkHeader 0 0 0) 2 1 [97; 47; 98] [104; 105] 4 sample_peer sample_peer
      = Some (a', b')
    /\ peer_at (obs := fun w => w) 8 100 40 1000 [] a' la
    /\ peer_at (obs := fun w => w) 8 100 40 1000 ([] ++ [(Some [97; 47; 98], Some [104; 105])]) b' lb
    /\ Forall (fun m => q_state m = MQTT_QUEUED_COMPLETE) (la ++ lb).
Proof.
  refine (qos2_exactly_once (obs := fun w => w) 8 sample_uninit _ 100 sample_arrive _ (mkHeader 0 0 0) 2 1 [97; 47; 98] [104; 105] 4
    sample_peer sample_peer 40 1000 1000 [] [] _ _ _ _ _ _ _ _ _); try done; try apply sample_peer_at.
Defined.
