(* ===== verification/StrDic.v ===== *)
(** * fun_ini/string_dic_p.c: the string dictionary

    Three parallel arrays of keys, values and hashes, where a null key is a free slot.
    A string is the list of its characters (values of [char]) without the NUL; the
    allocations succeed, except that growing the arrays may fail. *)

From stdpp Require Import gmap.
From S2P Require Import Prelude CMem.

Record string_dic_t := mkDic {
  dic_n : Z; dic_size : Z;
  dic_val : list (option (list Z)); dic_key : list (option (list Z)); dic_hash : list Z
}.

Definition hash_char (hash c : Z) : Z :=
  let hash := u32 (hash + u32 c) in
  let hash := u32 (hash + u32 (Z.shiftl hash 10)) in
  Z.lxor hash (Z.shiftr hash 6).

Definition string_dic_hash (key : list Z) : Z :=
  let hash := fold_left hash_char key 0 in
  let hash := u32 (hash + u32 (Z.shiftl hash 3)) in
  let hash := Z.lxor hash (Z.shiftr hash 11) in
  u32 (hash + u32 (Z.shiftl hash 15)).

Definition STR_DICT_MIN_SIZE : Z := 128.

Definition string_dic_new (size : Z) : string_dic_t :=
  let size := if size <? STR_DICT_MIN_SIZE then STR_DICT_MIN_SIZE else size in
  let nulls := replicate (Z.to_nat size) None in
  mkDic 0 size nulls nulls (replicate (Z.to_nat size) 0).

(** The loop that [string_dic_get], [string_dic_set] and [string_dic_unset] share: the
    slot of the key, the hashes being compared before the strings. *)
Definition find_key (d : string_dic_t) (key : list Z) : option (unit + Z) :=
  let hash := string_dic_hash key in
  for_ret (Z.to_nat (dic_size d)) 0 (fun i _ =>
    k ← znth (dic_key d) i;
    match k with
    | None => Some (inl tt)
    | Some k =>
        h ← znth (dic_hash d) i;
        Some (if (hash =? h) && (strcmp key k =? 0) then inr i else inl tt)
    end) tt.

Definition string_dic_get (d : string_dic_t) (key : list Z) (def : option (list Z)) : option (option (list Z)) :=
  r ← find_key d key;
  match r with inr i => znth (dic_val d) i | inl _ => Some def end.

(** [mem_double_alloc] of the array [l]: the copy, and as many zeros. *)
Definition mem_double_alloc {A} (zero : A) (l : list A) : list A := l ++ replicate (length l) zero.

(** The arrays after growing; when that fails they are lost. *)
Definition grow_arrays (can_grow : bool) (d : string_dic_t) : option (Z * string_dic_t) :=
  return_if negb can_grow with Some (-1, mkDic (dic_n d) (dic_size d) [] [] []) ;;
  return_if dic_size d * 2 >=? 2 ^ 31 with None ;;
  Some (0, mkDic (dic_n d) (dic_size d * 2) (mem_double_alloc None (dic_val d)) (mem_double_alloc None (dic_key d))
             (mem_double_alloc 0 (dic_hash d))).

(** The first free slot from [i] on, around the end. *)
Fixpoint free_slot (fuel : nat) (d : string_dic_t) (i : Z) : option Z :=
  match fuel with
  | O => None
  | S fuel =>
      k ← znth (dic_key d) i;
      match k with
      | None => Some i
      | Some _ => free_slot fuel d (if i + 1 =? dic_size d then 0 else i + 1)
      end
  end.

Definition string_dic_set (can_grow : bool) (d : string_dic_t) (key value : option (list Z))
    : option (Z * string_dic_t) :=
  match key with
  | None => Some (-1, d)
  | Some key =>
      r ← (if dic_n d >? 0 then find_key d key else Some (inl tt));
      match r with
      | inr i =>
          vals ← zset (dic_val d) i value;
          Some (0, mkDic (dic_n d) (dic_size d) vals (dic_key d) (dic_hash d))
      | inl _ =>
          '(rv, d) ← (if dic_n d =? dic_size d then grow_arrays can_grow d else Some (0, d));
          return_if negb (rv =? 0) with Some (rv, d) ;;
          i ← free_slot (S (Z.to_nat (dic_size d))) d (dic_n d);
          keys ← zset (dic_key d) i (Some key);
          vals ← zset (dic_val d) i value;
          hashes ← zset (dic_hash d) i (string_dic_hash key);
          Some (0, mkDic (dic_n d + 1) (dic_size d) vals keys hashes)
      end
  end.

Definition string_dic_unset (d : string_dic_t) (key : option (list Z)) : option string_dic_t :=
  match key with
  | None => Some d
  | Some key =>
      r ← find_key d key;
      match r with
      | inl _ => Some d
      | inr i =>
          keys ← zset (dic_key d) i None;
          vals ← zset (dic_val d) i None;
          hashes ← zset (dic_hash d) i 0;
          Some (mkDic (dic_n d - 1) (dic_size d) vals keys hashes)
      end
  end.

Definition string_dic_get_entries (d : option string_dic_t) : Z :=
  match d with None => -1 | Some d => dic_n d end.

(** What [string_dic_dump] prints, line by line: the key, and the value where there is
    one; nothing but a remark when the dictionary is empty. *)
Definition string_dic_dump (d : string_dic_t) : option (list (list Z * option (list Z))) :=
  return_if dic_n d <? 1 with Some [] ;;
  for_range (Z.to_nat (dic_size d)) 0 (fun i out =>
    k ← znth (dic_key d) i;
    match k with
    | None => Some out
    | Some k => v ← znth (dic_val d) i; Some (out ++ [(k, v)])
    end) [].

(** ** The dictionary as a list of slots *)

Abbreviation slot := (option (list Z * option (list Z))).
Implicit Types (s : list slot).

Definition entries s : list (list Z * option (list Z)) := omap id s.

Definition slot_val (x : slot) : option (list Z) := x ≫= snd.
Definition slot_key (x : slot) : option (list Z) := fst <$> x.
Definition slot_hash (x : slot) : Z := from_option (fun kv => string_dic_hash kv.1) 0 x.

Definition dic_of s : string_dic_t :=
  mkDic (zlen (entries s)) (zlen s) (map slot_val s) (map slot_key s) (map slot_hash s).

Definition keys_of s : list (list Z) := (entries s).*1.

(** The dictionary is the slots [s], which are the finite map [m]. *)
Record dic_rep (d : string_dic_t) s (m : gmap (list Z) (option (list Z))) : Prop := {
  dr_dic : d = dic_of s;
  dr_keys : NoDup (keys_of s);
  dr_map : m = list_to_map (entries s);
  dr_size : 0 < zlen s
}.

Lemma entries_app s1 s2 : entries (s1 ++ s2) = entries s1 ++ entries s2.
Proof. unfold entries. by rewrite omap_app. Qed.

Lemma entries_split s1 x s2 : entries (s1 ++ x :: s2) = entries s1 ++ option_list x ++ entries s2.
Proof. rewrite entries_app. by destruct x. Qed.

Lemma entries_free n : entries (replicate n None) = [].
Proof. induction n; done. Qed.

(** ** Finding a key *)

(** The index of the slot of a key, from [i] on. *)
Fixpoint index_of (key : list Z) (i : Z) s : unit + Z :=
  match s with
  | [] => inl tt
  | x :: s => if bool_decide (slot_key x = Some key) then inr i else index_of key (i + 1) s
  end.

Lemma hash_strcmp key k : (string_dic_hash key =? string_dic_hash k) && (strcmp key k =? 0) = bool_decide (Some k = Some key).
Proof.
  case_bool_decide as E; [simplify_eq; by rewrite strcmp_refl, Z.eqb_refl|].
  apply andb_false_intro2, Z.eqb_neq. intros ->%strcmp_eq. done.
Qed.

Lemma find_key_spec s1 s2 key :
  let d := dic_of (s1 ++ s2) in
  for_ret (length s2) (zlen s1) (fun i _ =>
    k ← znth (dic_key d) i;
    match k with
    | None => Some (inl tt)
    | Some k =>
        h ← znth (dic_hash d) i;
        Some (if (string_dic_hash key =? h) && (strcmp key k =? 0) then inr i else inl tt)
    end) tt = Some (index_of key (zlen s1) s2).
Proof.
  revert s1. induction s2 as [|x s2 IH]; intros s1 d; [done|]. cbn [length for_ret index_of].
  assert (Hk : znth (dic_key d) (zlen s1) = Some (slot_key x)).
  { rewrite znth_of_nat. unfold d. cbn. rewrite map_app. apply list_lookup_middle. by rewrite length_map. }
  assert (Hh : znth (dic_hash d) (zlen s1) = Some (slot_hash x)).
  { rewrite znth_of_nat. unfold d. cbn. rewrite map_app. apply list_lookup_middle. by rewrite length_map. }
  rewrite Hk, bind_Some.
  assert (Hnext : for_ret (length s2) (zlen s1 + 1) (fun i _ =>
    k ← znth (dic_key d) i;
    match k with
    | None => Some (inl tt)
    | Some k =>
        h ← znth (dic_hash d) i;
        Some (if (string_dic_hash key =? h) && (strcmp key k =? 0) then inr i else inl tt)
    end) tt = Some (index_of key (zlen s1 + 1) s2)).
  { replace (zlen s1 + 1) with (zlen (s1 ++ [x])) by (rewrite length_app; cbn; lia).
    unfold d. replace (s1 ++ x :: s2) with ((s1 ++ [x]) ++ s2) by (by rewrite <- app_assoc). apply IH. }
  destruct x as [[k v]|]; cbn [slot_key fmap option_fmap option_map fst].
  - rewrite Hh, bind_Some. cbn [slot_hash from_option fst]. rewrite hash_strcmp. rewrite bind_Some.
    case_bool_decide; [done|]. apply Hnext.
  - rewrite bind_Some. apply Hnext.
Qed.

Lemma find_key_index s key : find_key (dic_of s) key = Some (index_of key 0 s).
Proof. unfold find_key. cbn [dic_size dic_of]. rewrite Nat2Z.id. apply (find_key_spec [] s key). Qed.

Lemma index_of_split key i s :
  match index_of key i s with
  | inl _ => key ∉ keys_of s
  | inr j => exists s1 v s2, s = s1 ++ Some (key, v) :: s2 /\ j = i + zlen s1
  end.
Proof.
  revert i. induction s as [|x s IH]; intros i; cbn [index_of]; [by intros ?%elem_of_nil|].
  case_bool_decide as E.
  - destruct x as [[k v]|]; cbn in E; simplify_eq. exists [], v, s. split; [done|]. cbn. lia.
  - specialize (IH (i + 1)). destruct (index_of key (i + 1) s) as [|j].
    + unfold keys_of in *. intros Hin. apply IH. destruct x as [[k v]|]; [|done]. cbn in Hin.
      apply elem_of_cons in Hin as [->|Hin]; [done | exact Hin].
    + destruct IH as (s1 & v & s2 & -> & ->). exists (x :: s1), v, s2. split; [done|]. cbn [length]. lia.
Qed.

Lemma keys_split s1 key v s2 : keys_of (s1 ++ Some (key, v) :: s2) = keys_of s1 ++ key :: keys_of s2.
Proof. unfold keys_of. by rewrite entries_split, !fmap_app. Qed.

Lemma rep_lookup d s m key : dic_rep d s m ->
  m !! key = match index_of key 0 s with
             | inl _ => None
             | inr i => Some (default None (znth (dic_val d) i))
             end.
Proof.
  intros [-> Hk -> _]. pose proof (index_of_split key 0 s) as Hi. destruct (index_of key 0 s) as [|i].
  - by apply not_elem_of_list_to_map.
  - destruct Hi as (s1 & v & s2 & -> & ->). transitivity (Some v).
    + apply elem_of_list_to_map; [done|]. rewrite entries_split. apply elem_of_app. right. left.
    + f_equal. cbn [dic_of dic_val]. rewrite Z.add_0_l, znth_of_nat, map_app.
      by rewrite (list_lookup_middle (map slot_val s1) (map slot_val s2) (slot_val (Some (key, v)))) by (by rewrite length_map).
Qed.

(** ** Setting and clearing a slot *)

Lemma array_set {A} (f : slot -> A) s1 x y s2 : zset (map f (s1 ++ x :: s2)) (zlen s1) (f y) = Some (map f (s1 ++ y :: s2)).
Proof.
  rewrite !map_app. cbn [map]. rewrite <- (length_map f s1). apply zset_snoc. done.
Qed.

Lemma list_to_map_middle s1 key v s2 : NoDup (keys_of (s1 ++ Some (key, v) :: s2)) ->
  (list_to_map (entries (s1 ++ Some (key, v) :: s2)) : gmap _ _) = <[key := v]> (list_to_map (entries (s1 ++ s2))).
Proof.
  intros Hn. transitivity (list_to_map ((key, v) :: entries (s1 ++ s2)) : gmap _ _); [|done].
  apply list_to_map_proper.
  - unfold keys_of in Hn. exact Hn.
  - rewrite entries_split, entries_app. cbn. by rewrite Permutation_middle.
Qed.

Lemma keys_middle s1 key v s2 : keys_of (s1 ++ Some (key, v) :: s2) ≡ₚ key :: keys_of (s1 ++ s2).
Proof. rewrite keys_split. unfold keys_of. rewrite entries_app, fmap_app. by rewrite Permutation_middle. Qed.

Lemma keys_hole s1 s2 : keys_of (s1 ++ None :: s2) = keys_of (s1 ++ s2).
Proof. unfold keys_of. by rewrite entries_split, entries_app. Qed.

(** The slot that had the key gets another value. *)
Lemma replace_rep s1 key v w s2 m : dic_rep (dic_of (s1 ++ Some (key, v) :: s2)) (s1 ++ Some (key, v) :: s2) m ->
  dic_rep (dic_of (s1 ++ Some (key, w) :: s2)) (s1 ++ Some (key, w) :: s2) (<[key := w]> m).
Proof.
  intros [_ Hk -> Hs]. assert (Hk' : NoDup (keys_of (s1 ++ Some (key, w) :: s2))) by (by rewrite keys_split in *).
  split; [done | done | | by rewrite length_app in *].
  rewrite !list_to_map_middle by done. by rewrite insert_insert_eq.
Qed.

(** A free slot gets a key that the dictionary does not have. *)
Lemma fill_rep s1 key w s2 m : dic_rep (dic_of (s1 ++ None :: s2)) (s1 ++ None :: s2) m -> key ∉ keys_of (s1 ++ None :: s2) ->
  dic_rep (dic_of (s1 ++ Some (key, w) :: s2)) (s1 ++ Some (key, w) :: s2) (<[key := w]> m).
Proof.
  intros [_ Hk -> Hs] Hnew. rewrite keys_hole in *.
  assert (Hk' : NoDup (keys_of (s1 ++ Some (key, w) :: s2))) by (rewrite keys_middle; by constructor).
  split; [done | done | | by rewrite length_app in *]. rewrite list_to_map_middle by done.
  by rewrite entries_split, entries_app.
Qed.

(** A slot is freed. *)
Lemma clear_rep s1 key v s2 m : dic_rep (dic_of (s1 ++ Some (key, v) :: s2)) (s1 ++ Some (key, v) :: s2) m ->
  dic_rep (dic_of (s1 ++ None :: s2)) (s1 ++ None :: s2) (delete key m).
Proof.
  intros [_ Hk -> Hs]. pose proof Hk as Hk'. rewrite keys_middle in Hk'. apply NoDup_cons in Hk' as [Hnew Hk'].
  split; [done | by rewrite keys_hole | | by rewrite length_app in *]. rewrite list_to_map_middle by done.
  rewrite delete_insert_id; [by rewrite entries_split, entries_app|]. by apply not_elem_of_list_to_map.
Qed.

(** ** Growing, and the search for a free slot *)

Lemma double_map {A} (f : slot -> A) zero s : f None = zero ->
  mem_double_alloc zero (map f s) = map f (s ++ replicate (length s) None).
Proof. intros <-. unfold mem_double_alloc. rewrite length_map, map_app. f_equal. by rewrite <- (fmap_replicate f). Qed.

Lemma entries_grown s : entries (s ++ replicate (length s) None) = entries s.
Proof. by rewrite entries_app, entries_free, app_nil_r. Qed.

Lemma dic_grow_spec s m : dic_rep (dic_of s) s m -> 2 * zlen s < 2 ^ 31 ->
  let s' := s ++ replicate (length s) None in
  grow_arrays true (dic_of s) = Some (0, dic_of s') /\ dic_rep (dic_of s') s' m /\ zlen s' = 2 * zlen s.
Proof.
  intros [_ Hk -> Hs] Hlt s'. assert (Hlen : zlen s' = 2 * zlen s) by (unfold s'; rewrite length_app, length_replicate; lia).
  split; [|split; [|done]].
  - unfold grow_arrays. cbn [negb dic_of dic_size dic_n dic_val dic_key dic_hash]. zfalse (zlen s * 2 >=? 2 ^ 31).
    unfold dic_of at 1. rewrite (double_map slot_val), (double_map slot_key), (double_map slot_hash) by done.
    unfold s'. rewrite entries_grown. do 2 f_equal. f_equal. fold s'. lia.
  - split; [done | | | lia]; unfold s', keys_of; by rewrite entries_grown.
Qed.

Lemma entries_length s : (length (entries s) <= length s)%nat /\ ((length (entries s) < length s)%nat -> exists p, s !! p = Some None).
Proof.
  induction s as [|x s [IH IH']]; [split; cbn; lia|]. destruct x as [kv|]; cbn [entries omap list_omap id length].
  - fold (entries s). cbn. split; [lia|]. intros Hlt. destruct IH' as (p & Hp); [lia|]. by exists (S p).
  - fold (entries s). split; [cbn; lia|]. intros _. by exists 0%nat.
Qed.

Lemma znth_key s (i : nat) x : s !! i = Some x -> znth (dic_key (dic_of s)) (Z.of_nat i) = Some (slot_key x).
Proof. intros Hi. rewrite znth_of_nat. cbn. rewrite list_lookup_fmap, Hi. done. Qed.

(** How far the free slot [p] is from [i], going up and around. *)
Definition distance (size p i : Z) : Z := if i <=? p then p - i else p - i + size.

Lemma free_slot_spec s (p : nat) : s !! p = Some None -> forall fuel i, 0 <= i < zlen s ->
  distance (zlen s) (Z.of_nat p) i < Z.of_nat fuel ->
  exists j : nat, free_slot fuel (dic_of s) i = Some (Z.of_nat j) /\ s !! j = Some None.
Proof.
  intros Hp. pose proof (lookup_lt_Some _ _ _ Hp) as Hlt. unfold distance.
  induction fuel as [|fuel IH]; intros i Hi Hd; [destruct (Z.leb_spec i (Z.of_nat p)); lia|]. cbn [free_slot].
  destruct (lookup_lt_is_Some_2 s (Z.to_nat i)) as [x Hx]; [lia|].
  assert (Hi' : Z.of_nat (Z.to_nat i) = i) by lia. pose proof (znth_key s _ _ Hx) as Hk. rewrite Hi' in Hk. rewrite Hk, bind_Some.
  destruct x as [kv|]; cbn [slot_key fmap option_fmap option_map]; [|exists (Z.to_nat i); by rewrite Hi'].
  assert (i <> Z.of_nat p) by (intros ->; rewrite Nat2Z.id in Hx; congruence).
  cbn [dic_of dic_size]. apply IH; destruct (Z.eqb_spec (i + 1) (zlen s)); try lia;
    destruct (Z.leb_spec i (Z.of_nat p)); repeat case_if; zbool; lia.
Qed.

Lemma free_slot_found s : (length (entries s) < length s)%nat ->
  exists s1 s2, s = s1 ++ None :: s2
    /\ free_slot (S (length s)) (dic_of s) (zlen (entries s)) = Some (zlen s1).
Proof.
  intros Hlt. destruct (proj2 (entries_length s) Hlt) as [p Hp]. pose proof (lookup_lt_Some _ _ _ Hp).
  destruct (free_slot_spec s p Hp (S (length s)) (zlen (entries s))) as (j & Hj & Hsj); [lia | unfold distance; zcase; lia |].
  exists (take j s), (drop (S j) s). split; [by rewrite take_drop_middle|]. rewrite Hj. f_equal.
  apply lookup_lt_Some in Hsj. rewrite length_take. lia.
Qed.

(** ** The operations *)

Lemma dic_get_spec d s m key def : dic_rep d s m -> string_dic_get d key def = Some (default def (m !! key)).
Proof.
  intros Hr. pose proof (rep_lookup d s m key Hr) as Hm. unfold string_dic_get.
  rewrite (dr_dic _ _ _ Hr), find_key_index, bind_Some, <- (dr_dic _ _ _ Hr), Hm.
  pose proof (index_of_split key 0 s) as Hi. destruct (index_of key 0 s) as [|i]; [done|].
  destruct Hi as (s1 & v & s2 & E & ->). rewrite (dr_dic _ _ _ Hr), E. cbn [dic_of dic_val].
  rewrite Z.add_0_l, znth_of_nat, map_app. 
  by rewrite (list_lookup_middle (map slot_val s1) (map slot_val s2) (slot_val (Some (key, v)))) by (by rewrite length_map).
Qed.

Lemma find_if_any s key : (if dic_n (dic_of s) >? 0 then find_key (dic_of s) key else Some (inl tt)) = Some (index_of key 0 s).
Proof.
  cbn [dic_of dic_n]. destruct (Z.gtb_spec (zlen (entries s)) 0); [apply find_key_index|].
  pose proof (index_of_split key 0 s) as Hi. destruct (index_of key 0 s) as [[]|]; [done|].
  destruct Hi as (s1 & v & s2 & -> & _). rewrite entries_split, !length_app in *. cbn [option_list option_rect length] in *. lia.
Qed.

(** A key that is new goes into a free slot. *)
Lemma dic_insert_spec s m key value : dic_rep (dic_of s) s m -> (length (entries s) < length s)%nat -> key ∉ keys_of s ->
  exists s', (i ← free_slot (S (Z.to_nat (dic_size (dic_of s)))) (dic_of s) (dic_n (dic_of s));
      keys ← zset (dic_key (dic_of s)) i (Some key);
      vals ← zset (dic_val (dic_of s)) i value;
      hashes ← zset (dic_hash (dic_of s)) i (string_dic_hash key);
      Some (0, mkDic (dic_n (dic_of s) + 1) (dic_size (dic_of s)) vals keys hashes)) = Some (0, dic_of s')
    /\ dic_rep (dic_of s') s' (<[key := value]> m) /\ length s' = length s.
Proof.
  intros Hr Hlt Hnew. destruct (free_slot_found s Hlt) as (s1 & s2 & E & Hf).
  cbn [dic_size dic_n dic_of dic_key dic_val dic_hash]. rewrite Nat2Z.id. unfold dic_of in Hf at 1 |- * at 1.
  fold (dic_of s) in Hf |- *. rewrite Hf, bind_Some, E. set (x := Some (key, value)).
  rewrite (array_set slot_key s1 None x s2 : zset _ _ (Some key) = _), bind_Some.
  rewrite (array_set slot_val s1 None x s2 : zset _ _ value = _), bind_Some.
  rewrite (array_set slot_hash s1 None x s2 : zset _ _ (string_dic_hash key) = _), bind_Some.
  exists (s1 ++ x :: s2). split; [|split; [|by rewrite !length_app]].
  - unfold dic_of. rewrite !entries_split, !length_app. do 2 f_equal. f_equal; cbn [option_list option_rect x length]; lia.
  - subst s. by apply fill_rep.
Qed.

Lemma dic_set_spec s m key value : dic_rep (dic_of s) s m -> 2 * zlen (entries s) < 2 ^ 31 ->
  exists s', string_dic_set true (dic_of s) (Some key) value = Some (0, dic_of s')
    /\ dic_rep (dic_of s') s' (<[key := value]> m) /\ zlen s' <= Z.max (zlen s) (2 * zlen (entries s)).
Proof.
  intros Hr Hmax. unfold string_dic_set. rewrite find_if_any, bind_Some.
  pose proof (index_of_split key 0 s) as Hi. destruct (index_of key 0 s) as [|i].
  - pose proof (proj1 (entries_length s)) as Hle. cbn [dic_n dic_size dic_of].
    fold (dic_of s). destruct (Z.eqb_spec (zlen (entries s)) (zlen s)) as [Eq|Hne].
    + destruct (dic_grow_spec s m Hr) as (-> & Hr' & Hlen'); [lia|]. rewrite bind_Some. cbn [negb Z.eqb].
      destruct (dic_insert_spec (s ++ replicate (length s) None) m key value) as (s' & Es & Hs' & Hl'); [done | | |].
      * rewrite entries_grown. pose proof (dr_size _ _ _ Hr). lia.
      * unfold keys_of. by rewrite entries_grown.
      * exists s'. split; [exact Es|]. split; [done|]. lia.
    + rewrite bind_Some. cbn [negb Z.eqb].
      destruct (dic_insert_spec s m key value Hr) as (s' & Es & Hs' & Hl'); [lia | done |].
      exists s'. split; [exact Es|]. split; [done|]. lia.
  - destruct Hi as (s1 & v & s2 & -> & ->). rewrite Z.add_0_l. cbn [dic_val dic_of].
    rewrite (array_set slot_val s1 (Some (key, v)) (Some (key, value)) s2 : zset _ _ value = _), bind_Some.
    exists (s1 ++ Some (key, value) :: s2). split; [|split; [by eapply replace_rep | rewrite !length_app; cbn; lia]].
    unfold dic_of. by rewrite !entries_split, !map_app, !length_app.
Qed.

Lemma unset_spec s m key : dic_rep (dic_of s) s m ->
  exists s', string_dic_unset (dic_of s) (Some key) = Some (dic_of s') /\ dic_rep (dic_of s') s' (delete key m) /\ length s' = length s.
Proof.
  intros Hr. unfold string_dic_unset. rewrite find_key_index, bind_Some.
  pose proof (index_of_split key 0 s) as Hi. pose proof (rep_lookup _ _ _ key Hr) as Hm. destruct (index_of key 0 s) as [|i].
  - exists s. split; [done|]. split; [|done]. by rewrite delete_id.
  - destruct Hi as (s1 & v & s2 & -> & ->). rewrite Z.add_0_l. cbn [dic_val dic_of dic_key dic_hash].
    rewrite (array_set slot_key s1 (Some (key, v)) None s2 : zset _ _ None = _), bind_Some.
    rewrite (array_set slot_val s1 (Some (key, v)) None s2 : zset _ _ None = _), bind_Some.
    rewrite (array_set slot_hash s1 (Some (key, v)) None s2 : zset _ _ 0 = _), bind_Some.
    exists (s1 ++ None :: s2). split; [|split; [by eapply clear_rep | by rewrite !length_app]].
    unfold dic_of. rewrite !entries_split, !length_app. do 2 f_equal; cbn [option_list option_rect length dic_n]; lia.
Qed.

(** ** Any sequence of operations *)

Inductive dic_op := SetKey (key : list Z) (value : option (list Z)) | UnsetKey (key : list Z).

Definition dic_step (d : string_dic_t) (o : dic_op) : option string_dic_t :=
  match o with
  | SetKey key value => '(rv, d) ← string_dic_set true d (Some key) value; if rv =? 0 then Some d else None
  | UnsetKey key => string_dic_unset d (Some key)
  end.

Definition dic_run (d : string_dic_t) (ops : list dic_op) : option string_dic_t :=
  foldl (fun d o => d ← d; dic_step d o) (Some d) ops.

Definition map_step (m : gmap (list Z) (option (list Z))) (o : dic_op) : gmap (list Z) (option (list Z)) :=
  match o with SetKey key value => <[key := value]> m | UnsetKey key => delete key m end.

Lemma new_rep size : dic_rep (string_dic_new size) (replicate (Z.to_nat (if size <? 128 then 128 else size)) None) ∅.
Proof.
  set (n := if size <? 128 then 128 else size). assert (Hn : 128 <= n) by (unfold n; case_if; zbool; lia).
  split; [|unfold keys_of; rewrite entries_free; constructor | by rewrite entries_free | rewrite length_replicate; lia].
  unfold string_dic_new, STR_DICT_MIN_SIZE, dic_of. fold n. rewrite entries_free, length_replicate.
  f_equal; [lia | symmetry; apply (fmap_replicate slot_val) | symmetry; apply (fmap_replicate slot_key) | symmetry; apply (fmap_replicate slot_hash)].
Qed.

Lemma dic_size_map s m : dic_rep (dic_of s) s m -> zlen (entries s) = Z.of_nat (size m).
Proof. intros [_ Hk -> _]. by rewrite map_size_list_to_map. Qed.

Lemma step_spec s m o bound : dic_rep (dic_of s) s m -> 2 * Z.of_nat (size m) < 2 ^ 31 -> zlen s <= bound -> 2 * Z.of_nat (size m) <= bound ->
  exists s', dic_step (dic_of s) o = Some (dic_of s') /\ dic_rep (dic_of s') s' (map_step m o) /\ zlen s' <= bound.
Proof.
  intros Hr Hmax Hs Hb. pose proof (dic_size_map s m Hr) as Hn. destruct o as [key value|key]; cbn [dic_step map_step].
  - destruct (dic_set_spec s m key value Hr) as (s' & -> & Hr' & Hl); [lia|]. exists s'. split; [done|]. split; [done | lia].
  - destruct (unset_spec s m key Hr) as (s' & -> & Hr' & Hl). exists s'. split; [done|]. split; [done | lia].
Qed.

Lemma map_step_size m o : (size (map_step m o) <= S (size m))%nat.
Proof.
  destruct o as [key value|key]; cbn [map_step].
  - rewrite map_size_insert. case_match; unfold id; lia.
  - rewrite map_size_delete. case_match; unfold id; lia.
Qed.

Lemma run_spec ops : forall s m bound, dic_rep (dic_of s) s m ->
  2 * (Z.of_nat (size m) + zlen ops) < 2 ^ 31 -> zlen s <= bound -> 2 * (Z.of_nat (size m) + zlen ops) <= bound ->
  exists s', dic_run (dic_of s) ops = Some (dic_of s') /\ dic_rep (dic_of s') s' (foldl map_step m ops) /\ zlen s' <= bound.
Proof.
  induction ops as [|o ops IH]; intros s m bound Hr Hmax Hs Hb; [by exists s|]. cbn [length] in *.
  destruct (step_spec s m o bound Hr) as (s1 & E & Hr1 & Hl1); [lia..|]. unfold dic_run. cbn [foldl].
  rewrite bind_Some, E. pose proof (map_step_size m o). by apply IH; [| lia | | lia].
Qed.

(** C23: the string dictionary is a finite map: after any sequence of [string_dic_set] and
    [string_dic_unset] on a new dictionary, each of which ends and succeeds, growing
    included, [string_dic_get] returns for every key the value set last, the default for
    a key without one, and [string_dic_get_entries] counts the keys; whatever the
    hashes are, and as long as the number of slots stays within an [int]. *)
Theorem dic_session size ops : size < 2 ^ 31 -> 2 * zlen ops < 2 ^ 31 ->
  let m := foldl map_step ∅ ops in
  exists d, dic_run (string_dic_new size) ops = Some d
    /\ (forall key def, string_dic_get d key def = Some (default def (m !! key)))
    /\ string_dic_get_entries (Some d) = Z.of_nat (base.size m).
Proof.
  intros Hsize Hops m. pose proof (new_rep size) as Hr. set (s := replicate _ None) in Hr.
  rewrite (dr_dic _ _ _ Hr) in Hr |- *.
  destruct (run_spec ops s ∅ (Z.max (zlen s) (2 * zlen ops)) Hr) as (s' & E & Hr' & _);
    rewrite ?map_size_empty; [lia..|].
  exists (dic_of s'). split; [exact E|]. split; [intros; by eapply dic_get_spec|]. by apply dic_size_map.
Qed.

Lemma dic_session_witness :
  let ops := [SetKey [97] (Some [49]); SetKey [98] None; SetKey [97] (Some [50]); UnsetKey [98]] in
  exists d, dic_run (string_dic_new 0) ops = Some d
    /\ (forall key def, string_dic_get d key def = Some (default def ((foldl map_step ∅ ops) !! key)))
    /\ string_dic_get_entries (Some d) = Z.of_nat (base.size (foldl map_step ∅ ops)).
Proof. apply (dic_session 0); by vm_compute. Defined.
