(* ===== verification/Utility.v ===== *)
(** * fun_base/utility.c: byte orders, BCD, base64, hexadecimal, random numbers

    A [char] is its byte: the code only looks at the low bits or at ASCII characters. *)

From stdpp Require Import prelude.
From S2P Require Import Prelude CMem.

(** ** Byte orders *)

(** The first byte of a 16-bit 1. *)
Definition is_little_endian (be : bool) : option Z := rd8 (store16 be 1) 0.

(** The bytes of the union, low byte first, read as a host word. *)
Definition cpu_to_le16 (be : bool) (value : Z) : Z := load16 be (Z.land value 0xff) (Z.shiftr value 8).
Definition le16_to_cpu (be : bool) (value : Z) : Z := cpu_to_le16 be value.

Definition cpu_to_le32 (value : Z) : Z :=
  Z.lor (Z.lor (Z.lor (u32 (Z.shiftl (Z.land value 0xFF) 24)) (u32 (Z.shiftl (Z.land value 0xFF00) 8)))
    (Z.shiftr (Z.land value 0xFF0000) 8)) (Z.shiftr (Z.land value 0xFF000000) 24).

Definition cpu_to_le64 (value : Z) : Z :=
  let high := cpu_to_le32 (u32 value) in
  let low := cpu_to_le32 (u32 (Z.shiftr value 32)) in
  (Z.shiftl high 32 + low) mod 2 ^ 64.

(** ** Binary coded decimals *)

Definition bin2bcd_8 (val : Z) : Z := u8 (u32 (Z.shiftl (val / 10) 4) + val mod 10).
Definition bcd2bin_8 (val : Z) : Z := Z.land val 0x0f + Z.shiftr val 4 * 10.

(** The buffer holds the digits in pairs, then [bcd] is filled. *)
Definition bin2bcd (bcd : list Z) (bin bcd_len : Z) : option (Z * list Z) :=
  return_if bcd_len >? 16 with Some (-1, bcd) ;;
  '(buf, _) ← for_range (Z.to_nat bcd_len) 0 (fun i '(buf, bin) =>
    buf ← wr8 buf i (bin mod 100); Some (buf, bin / 100)) (zeros 16, bin);
  bcd ← for_range (Z.to_nat bcd_len) 0 (fun i bcd =>
    b ← rd8 buf i;
    bcd ← wr8 bcd i (b mod 10);
    c ← rd8 bcd i;
    wr8 bcd i (Z.lor c (Z.shiftl (b / 10) 4))) bcd;
  Some (0, bcd).

(** ** Base 64 *)

Definition base64_table : list Z :=
  Eval cbv in map Z.of_nat (seq 65 26 ++ seq 97 26 ++ seq 48 10 ++ [43; 47] ++ [0])%nat.

(** One turn of the loop from offset [i] of [in_] on: what is written, and the offset
    before the increment of the loop.  The byte behind the input is read when the last
    group is not full. *)
Definition encode_group (in_ : list Z) (i in_end : Z) : option (list Z * Z) :=
  let next i := if i >? in_end then Some (0, i) else b ← rd8 in_ i; Some (b, i + 1) in
  '(X1, i) ← next i;
  '(X2, i) ← next i;
  X3 ← (if i >? in_end then Some 0 else rd8 in_ i);
  c1 ← znth base64_table (Z.shiftr (Z.land X1 252) 2);
  c2 ← znth base64_table (Z.land (Z.lor (Z.shiftr (Z.land X2 240) 4) (Z.shiftl (Z.land X1 3) 4)) 255);
  c3 ← znth base64_table (Z.land (Z.lor (Z.shiftr (Z.land X3 192) 6) (Z.shiftl (Z.land X2 15) 2)) 255);
  c4 ← znth base64_table (Z.land X3 63);
  Some ([c1; c2; c3; c4], i).

Fixpoint encode_loop (fuel : nat) (in_ : list Z) (i in_end : Z) (out : list Z) (o : Z) : option (list Z * Z) :=
  match fuel with
  | O => None
  | S fuel =>
      return_if negb (i <? in_end) with Some (out, o) ;;
      '(group, i) ← encode_group in_ i in_end;
      out ← wr_bytes out o group;
      encode_loop fuel in_ (i + 1) in_end out (o + 4)
  end.

Definition base64_encode (in_ : list Z) (in_len : Z) (out : list Z) : option (Z * list Z) :=
  return_if in_len <? 1 with Some (-1, out) ;;
  '(out, o) ← encode_loop (S (Z.to_nat in_len)) in_ 0 in_len out 0;
  out ← wr8 out o 0;
  let len_buf := in_len mod 3 in
  out ← (if len_buf >? 0
         then out ← wr8 out (o - 1) 61;
              if len_buf =? 1 then wr8 out (o - 2) 61 else Some out
         else Some out);
  Some (1, out).

(** The search [i = 63; for (; i--;)]: down from index 62, [n] where it finds nothing. *)
Definition table_index (s n : Z) : Z :=
  default n (list_find (fun i => znth base64_table i = Some s) (rev (seqZ 0 63)) ≫= fun r => Some r.2).

Definition decode_bytes (N1 N2 N3 N4 : Z) : list Z :=
  [Z.land (Z.lor (Z.shiftr (Z.land N2 48) 4) (Z.shiftl N1 2)) 255;
   Z.land (Z.lor (Z.shiftr (Z.land N3 60) 2) (Z.shiftl N2 4)) 255;
   u8 (Z.lor (Z.land (Z.land N3 3 * 64) 255) (Z.land N4 63))].

(** [ns] are the variables [N1] to [N4], with whatever they hold at first. *)
Fixpoint decode_loop (fuel : nat) (in_ : list Z) (i : Z) (ns : Z * Z * Z * Z) (out : list Z) (o : Z)
    : option (list Z * Z) :=
  match fuel with
  | O => None
  | S fuel =>
      c ← rd8 in_ i;
      return_if c =? 0 with Some (out, o) ;;
      s1 ← rd8 in_ i; s2 ← rd8 in_ (i + 1); s3 ← rd8 in_ (i + 2); s4 ← rd8 in_ (i + 3);
      let '(N1, N2, N3, N4) := ns in
      let N1 := table_index s1 N1 in
      let N2 := table_index s2 N2 in
      let N3 := table_index s3 N3 in
      let N4 := table_index s4 N4 in
      out ← wr_bytes out o (decode_bytes N1 N2 N3 N4);
      decode_loop fuel in_ (i + 4) (N1, N2, N3, N4) out (o + 3)
  end.

Definition base64_decode (in_ : list Z) (in_len : Z) (ns : Z * Z * Z * Z) (out : list Z)
    : option (Z * list Z * list Z) :=
  return_if (in_len <? 1) || (Z.land in_len 3 >? 0) with Some (-1, in_, out) ;;
  c ← rd8 in_ (in_len - 1);
  in_ ← (if c =? 61
         then in_ ← wr8 in_ (in_len - 1) 65;
              c ← rd8 in_ (in_len - 2);
              if c =? 61 then wr8 in_ (in_len - 2) 65 else Some in_
         else Some in_);
  '(out, o) ← decode_loop (S (length in_)) in_ 0 ns out 0;
  out ← wr8 out o 0;
  Some (1, in_, out).

(** ** Hexadecimal *)

Definition hex_char (n : Z) : Z := let n := u8 (n + 0x30) in if n >? 0x39 then u8 (n + 0x07) else n.

(** The index is a [short]. *)
Definition ByteToHexStr (source dest : list Z) (sourceLen : Z) : option (list Z) :=
  return_if sourceLen >? 32767 with None ;;
  for_range (Z.to_nat sourceLen) 0 (fun i dest =>
    b ← rd8 source i;
    dest ← wr8 dest (i * 2) (hex_char (Z.shiftr b 4));
    wr8 dest (i * 2 + 1) (hex_char (Z.land b 0x0f))) dest.

(** [toupper] in the C locale. *)
Definition toupper (c : Z) : Z := if (97 <=? c) && (c <=? 122) then c - 32 else c.
Definition hex_value (c : Z) : Z := let c := toupper c in if c >? 0x39 then u8 (c - 0x37) else u8 (c - 0x30).

(** [sourceLen] is rounded up to the pairs the loop reads. *)
Definition HexStrToByte (source dest : list Z) (sourceLen : Z) : option (list Z) :=
  return_if sourceLen >? 32766 with None ;;
  for_range (Z.to_nat ((sourceLen + 1) / 2)) 0 (fun k dest =>
    h ← rd8 source (2 * k);
    l ← rd8 source (2 * k + 1);
    wr8 dest k (Z.lor (Z.shiftl (hex_value h) 4) (hex_value l))) dest.

Definition ascii_table : list Z := Eval cbv in map Z.of_nat (seq 48 10 ++ seq 65 6 ++ [0])%nat.

(** The index runs down from [in_len - 1], an [int32_t], and is shifted to the left. *)
Definition hex_to_ascii (in_data : list Z) (in_len : Z) (out_buf : list Z) : option (Z * list Z * Z) :=
  let last := if in_len - 1 <? 2 ^ 31 then in_len - 1 else in_len - 1 - 2 ^ 32 in
  return_if last >=? 2 ^ 30 with None ;;
  out_buf ← for_range (Z.to_nat (last + 1)) 0 (fun k out_buf =>
    let i := last - k in
    v ← rd8 in_data i;
    c ← znth ascii_table (Z.land (Z.shiftr v 4) 0x0F);
    out_buf ← wr8 out_buf (Z.shiftl i 1) c;
    c ← znth ascii_table (Z.land v 0x0F);
    wr8 out_buf (Z.shiftl i 1 + 1) c) out_buf;
  Some (0, out_buf, u32 (Z.shiftl in_len 1)).

(** ** Random numbers

    The seed is an [unsigned], [X] an [int]: the products and the difference do not
    overflow where the result is [Some]. *)

Definition my_rand_r (seed : Z) : option Z :=
  let M := 2 ^ 31 - 1 in
  let X := if seed <? 2 ^ 31 then seed else seed - 2 ^ 32 in
  let a := 48271 * Z.rem X 44488 in
  let b := 3399 * Z.quot X 44488 in
  return_if negb (is_int a && is_int b && is_int (a - b)) with None ;;
  let X := a - b in
  Some (if X <? 0 then X + M else X).

(** The seed of [my_rand], 1 at first. *)
Definition _seed : Z := 1.
Definition my_srand (seed _seed : Z) : Z := seed.
Definition my_rand (_seed : Z) : option (Z * Z) := X ← my_rand_r _seed; Some (X, X).

(** ** Numbers in hexadecimal *)

(** [unsigned long long]; a negative exponent never reaches 0 by decrements that are
    defined. *)
Definition _pow (x y : Z) : option Z :=
  return_if y <? 0 with None ;;
  for_range (Z.to_nat y) 0 (fun _ r => Some ((r * x) mod 2 ^ 64)) 1.

Inductive hex_result := HexNumber (v : Z) | HexExit.

Definition hex_digit_value (c : Z) : option Z :=
  if (48 <=? c) && (c <=? 57) then Some (c - 48)
  else if (97 <=? c) && (c <=? 102) then Some (c - 97 + 10)
  else if (65 <=? c) && (c <=? 70) then Some (c - 65 + 10)
  else None.

(** The number is an [int] that must not overflow; another character ends the program. *)
Fixpoint hex2dec_loop (_16 : list Z) (dwhexnum : Z) : option hex_result :=
  match _16 with
  | [] => None
  | c :: rest =>
      return_if c =? 0 with Some (HexNumber (dwhexnum mod 2 ^ 64)) ;;
      return_if negb (is_int (dwhexnum * 16)) with None ;;
      match hex_digit_value c with
      | Some d => return_if negb (is_int (dwhexnum * 16 + d)) with None ;;
                  hex2dec_loop rest (dwhexnum * 16 + d)
      | None => Some HexExit
      end
  end.

(** The text ends with its NUL. *)
Definition hex2dec (_16 : list Z) : option hex_result :=
  c ← rd8 _16 0;
  x ← (if c =? 48 then rd8 _16 1 else Some 0);
  hex2dec_loop (if (x =? 120) || (x =? 88) then drop 2 _16 else _16) 0.

Definition hex_table : list Z := Eval cbv in map Z.of_nat (seq 48 10 ++ seq 97 6 ++ [0])%nat.

(** The digits are written to [tmp] from offset 10 down, at most eleven of them. *)
Fixpoint dec2hex_loop (fuel : nat) (value : Z) (tmp : list Z) (P : Z) : option (list Z * Z) :=
  match fuel with
  | O => None
  | S fuel =>
      c ← znth hex_table (Z.land value 15);
      tmp ← wr8 tmp P c;
      return_if P - 1 <? 0 with Some (tmp, P - 1) ;;
      return_if Z.shiftr value 4 =? 0 with Some (tmp, P - 1) ;;
      dec2hex_loop fuel (Z.shiftr value 4) tmp (P - 1)
  end.

(** The value is [strlen] of [tmp], which begins with a NUL unless all eleven digits are
    used. *)
Definition dec2hex (value : Z) (output : list Z) : option (Z * list Z) :=
  '(tmp, P) ← dec2hex_loop 11 value (zeros 12) 10;
  output ← wr_bytes output 0 (c_str (drop (Z.to_nat (P + 1)) tmp) ++ [0]);
  Some (zlen (c_str tmp), output).

(** ** Base 64: what is written

    Three bytes are four numbers of six bits; a group that is not full has zeros for the
    bytes it lacks, and the characters that hold none of the data are [=]. *)

Definition chr (v : Z) : Z := default 0 (znth base64_table v).

Definition sextets (a b c : Z) : list Z := [a / 4; a mod 4 * 16 + b / 16; b mod 16 * 4 + c / 64; c mod 64].

Fixpoint raw (l : list Z) : list Z :=
  match l with
  | a :: b :: c :: l => map chr (sextets a b c) ++ raw l
  | [a; b] => map chr (sextets a b 0)
  | [a] => map chr (sextets a 0 0)
  | [] => []
  end.

Definition pads (l : list Z) : nat := match (length l mod 3)%nat with 1%nat => 2%nat | 2%nat => 1%nat | _ => 0%nat end.

Fixpoint base64 (l : list Z) : list Z :=
  match l with
  | a :: b :: c :: l => map chr (sextets a b c) ++ base64 l
  | [a; b] => take 3 (map chr (sextets a b 0)) ++ [61]
  | [a] => take 2 (map chr (sextets a 0 0)) ++ [61; 61]
  | [] => []
  end.

Lemma list_ind3 {A} (P : list A -> Prop) :
  P [] -> (forall a, P [a]) -> (forall a b, P [a; b]) -> (forall a b c l, P l -> P (a :: b :: c :: l)) -> forall l, P l.
Proof.
  intros H0 H1 H2 H3. fix IH 1. intros [|a [|b [|c l]]]; [exact H0 | apply H1 | apply H2 | apply H3, IH].
Qed.

(** A property of two bytes, tested on all of them. *)
Lemma forall_bytes2 (p : Z -> Z -> bool) n m a b :
  forallb (fun a => forallb (p a) (seqZ 0 m)) (seqZ 0 n) = true -> 0 <= a < n -> 0 <= b < m -> p a b = true.
Proof. intros H Ha Hb. apply (forallb_seqZ _ _ _ (forallb_seqZ _ _ _ H Ha) Hb). Qed.

Lemma sextet_bits a b : is_u8 a -> is_u8 b ->
  Z.shiftr (Z.land a 252) 2 = a / 4 /\ Z.land (Z.lor (Z.shiftr (Z.land b 240) 4) (Z.shiftl (Z.land a 3) 4)) 255 = a mod 4 * 16 + b / 16
  /\ Z.land (Z.lor (Z.shiftr (Z.land b 192) 6) (Z.shiftl (Z.land a 15) 2)) 255 = a mod 16 * 4 + b / 64 /\ Z.land a 63 = a mod 64.
Proof.
  intros Ha Hb.
  pose proof (forall_bytes2 (fun a b =>
    (Z.shiftr (Z.land a 252) 2 =? a / 4) && (Z.land (Z.lor (Z.shiftr (Z.land b 240) 4) (Z.shiftl (Z.land a 3) 4)) 255 =? a mod 4 * 16 + b / 16)
    && (Z.land (Z.lor (Z.shiftr (Z.land b 192) 6) (Z.shiftl (Z.land a 15) 2)) 255 =? a mod 16 * 4 + b / 64) && (Z.land a 63 =? a mod 64))
    256 256 a b ltac:(by vm_compute) Ha Hb) as H. cbv beta in H.
  rewrite !andb_true_iff, !Z.eqb_eq in H. tauto.
Qed.

Lemma chr_Some v : 0 <= v < 64 -> znth base64_table v = Some (chr v).
Proof. intros Hv. unfold chr. destruct (znth_lt base64_table v) as [x ->]; [cbn; lia | done]. Qed.

Lemma sextets_range a b c : is_u8 a -> is_u8 b -> is_u8 c -> Forall (fun v => 0 <= v < 64) (sextets a b c).
Proof. intros. unfold sextets. repeat constructor; zlia. Qed.

Lemma group_chars X1 X2 X3 (i : Z) : is_u8 X1 -> is_u8 X2 -> is_u8 X3 ->
  (c1 ← znth base64_table (Z.shiftr (Z.land X1 252) 2);
   c2 ← znth base64_table (Z.land (Z.lor (Z.shiftr (Z.land X2 240) 4) (Z.shiftl (Z.land X1 3) 4)) 255);
   c3 ← znth base64_table (Z.land (Z.lor (Z.shiftr (Z.land X3 192) 6) (Z.shiftl (Z.land X2 15) 2)) 255);
   c4 ← znth base64_table (Z.land X3 63);
   Some ([c1; c2; c3; c4], i)) = Some (map chr (sextets X1 X2 X3), i).
Proof.
  intros H1 H2 H3. destruct (sextet_bits X1 X2 H1 H2) as (-> & -> & _). destruct (sextet_bits X2 X3 H2 H3) as (_ & _ & -> & _).
  destruct (sextet_bits X3 X1 H3 H1) as (_ & _ & _ & ->).
  by rewrite !chr_Some by zlia.
Qed.

Lemma raw_length l : zlen (raw l) = (zlen l + 2) / 3 * 4.
Proof.
  induction l as [| | |a b c l IH] using list_ind3; try done. cbn [raw]. rewrite length_app, length_map. cbn [length sextets].
  rewrite Nat2Z.inj_add, IH. zlia.
Qed.

(** One turn on the bytes that are left. *)
Lemma encode_group_spec d pre rest : bytes_ok d -> d <> [] ->
  let l := d ++ 0 :: rest in
  encode_group (pre ++ l) (zlen pre) (zlen pre + zlen d)
  = Some (take 4 (raw d), zlen pre + 2).
Proof.
  intros Hd Hne l. unfold encode_group. cbv zeta. assert (H0 : is_u8 0) by lia.
  assert (Hrd : forall j i, i = zlen pre + Z.of_nat j -> rd8 (pre ++ l) i = l !! j) by (intros; by apply rd8_skip).
  destruct d as [|a d]; [done|]. apply Forall_cons in Hd as [Ha Hd].
  zfalse (zlen pre >? zlen pre + zlen (a :: d)). rewrite (Hrd 0%nat) by lia. cbn [l app lookup list_lookup mbind option_bind].
  assert (Hl1 : 1 <= zlen (a :: d)) by (cbn [length]; lia).
  zfalse (zlen pre + 1 >? zlen pre + zlen (a :: d)). rewrite (Hrd 1%nat) by lia.
  destruct d as [|b d].
  - cbn [l app lookup list_lookup mbind option_bind]. assert (Hl2 : zlen [a] = 1) by done.
    ztrue (zlen pre + 1 + 1 >? zlen pre + zlen [a]).
    etransitivity; [by apply group_chars|]. do 2 f_equal. lia.
  - apply Forall_cons in Hd as [Hb Hd]. cbn [l app lookup list_lookup mbind option_bind].
    assert (Hl2 : 2 <= zlen (a :: b :: d)) by (cbn [length]; lia).
    zfalse (zlen pre + 1 + 1 >? zlen pre + zlen (a :: b :: d)). rewrite (Hrd 2%nat) by lia.
    destruct d as [|c d]; cbn [l app lookup list_lookup mbind option_bind].
    + etransitivity; [by apply group_chars|]. do 2 f_equal. lia.
    + apply Forall_cons in Hd as [Hc _]. etransitivity; [by apply group_chars|]. do 2 f_equal. lia.
Qed.

Lemma encode_loop_spec d : forall fuel pre rest out0 outr, bytes_ok d -> (length d < fuel)%nat -> zlen (raw d) <= zlen outr ->
  encode_loop fuel (pre ++ d ++ 0 :: rest) (zlen pre) (zlen pre + zlen d) (out0 ++ outr) (zlen out0)
  = Some (out0 ++ raw d ++ drop (length (raw d)) outr, zlen out0 + zlen (raw d)).
Proof.
  assert (Hend : forall fuel l i n out o, n <= i -> (0 < fuel)%nat -> encode_loop fuel l i n out o = Some (out, o)).
  { intros [|fuel] l i n out o Hi Hf; [lia|]. cbn [encode_loop]. by zfalse (i <? n). }
  assert (Hturn : forall fuel d pre rest out0 outr, bytes_ok d -> d <> [] -> zlen (raw d) <= zlen outr ->
    encode_loop (S fuel) (pre ++ d ++ 0 :: rest) (zlen pre) (zlen pre + zlen d) (out0 ++ outr) (zlen out0)
    = encode_loop fuel (pre ++ d ++ 0 :: rest) (zlen pre + 2 + 1) (zlen pre + zlen d)
        (out0 ++ take 4 (raw d) ++ drop 4 outr) (zlen out0 + 4)).
  { intros fuel d' pre rest out0 outr Hd Hne Hl. cbn [encode_loop].
    assert (0 < zlen d') by (destruct d'; [done | cbn; lia]). ztrue (zlen pre <? zlen pre + zlen d'). cbn [negb].
    rewrite encode_group_spec, bind_Some by done. pose proof (raw_length d') as Hr.
    assert (H4 : length (take 4 (raw d')) = 4%nat) by (rewrite length_take; zlia).
    rewrite wr_bytes_app, bind_Some by (done || (rewrite H4; zlia)). by rewrite H4. }
  induction d as [|a|a b|a b c d IH] using list_ind3; intros fuel pre rest out0 outr Hd Hf Hl;
    (destruct fuel as [|fuel]; [lia|]).
  - rewrite Hend by (cbn; lia). cbn. rewrite Z.add_0_r. done.
  - rewrite Hturn by done. rewrite Hend by (cbn in *; lia). done.
  - rewrite Hturn by done. rewrite Hend by (cbn in *; lia). done.
  - rewrite Hturn by done. pose proof Hd as Hd'. do 3 apply Forall_cons in Hd' as [_ Hd'].
    replace (pre ++ (a :: b :: c :: d) ++ 0 :: rest) with ((pre ++ [a; b; c]) ++ d ++ 0 :: rest) by (by rewrite <- app_assoc).
    change (take 4 (raw (a :: b :: c :: d))) with (map chr (sextets a b c)).
    assert (Hlen : forall l, zlen (l ++ map chr (sextets a b c)) = zlen l + 4) by (intros; rewrite length_app; cbn; lia).
    rewrite (app_assoc out0), <- Hlen.
    replace (zlen pre + 2 + 1) with (zlen (pre ++ [a; b; c])) by (rewrite length_app; cbn [length]; lia).
    replace (zlen pre + zlen (a :: b :: c :: d)) with (zlen (pre ++ [a; b; c]) + zlen d) by (rewrite length_app; cbn [length]; lia).
    cbn [length] in Hf. cbn [raw] in Hl. rewrite length_app in Hl. cbn [length sextets map] in Hl.
    rewrite IH; [|done|lia|rewrite length_drop; lia]. cbn [raw]. rewrite <- !app_assoc. f_equal. f_equal.
    + f_equal. f_equal. rewrite drop_drop. by rewrite length_app.
    + rewrite Hlen, length_app. cbn [length sextets map]. lia.
Qed.

Lemma pads_skip a b c l : pads (a :: b :: c :: l) = pads l.
Proof.
  unfold pads. cbn [length]. replace (S (S (S (length l)))) with (length l + 1 * 3)%nat by lia.
  by rewrite Nat.Div0.mod_add.
Qed.

Lemma pads_mod l : Z.of_nat (length l) mod 3 = match pads l with 0%nat => 0 | 1%nat => 2 | _ => 1 end.
Proof.
  induction l as [|a|a b|a b c l IH] using list_ind3; try done. rewrite pads_skip, <- IH. cbn [length]. zlia.
Qed.

(** Where the encoding and its raw form differ. *)
Lemma base64_shape l : bytes_ok l -> l <> [] ->
  exists k v, 0 <= v < 64 /\ raw l = k ++ [chr v] ++ replicate (pads l) 65 /\ base64 l = k ++ [chr v] ++ replicate (pads l) 61.
Proof.
  induction l as [|a|a b|a b c l IH] using list_ind3; intros Hl Hne; [done | | |].
  - apply Forall_cons in Hl as [Ha _]. exists [chr (a / 4)], (a mod 4 * 16 + 0 / 16). split; [zlia | done].
  - apply Forall_cons in Hl as [Ha [Hb _]%Forall_cons].
    exists [chr (a / 4); chr (a mod 4 * 16 + b / 16)], (b mod 16 * 4 + 0 / 64). split; [zlia | done].
  - do 3 apply Forall_cons in Hl as [? Hl]. rewrite pads_skip. destruct l as [|x l].
    + exists [chr (a / 4); chr (a mod 4 * 16 + b / 16); chr (b mod 16 * 4 + c / 64)], (c mod 64). split; [zlia | done].
    + destruct IH as (k & v & Hv & Hr & Hb); [done..|]. exists (map chr (sextets a b c) ++ k), v.
      split; [done|].
      change (raw (a :: b :: c :: x :: l)) with (map chr (sextets a b c) ++ raw (x :: l)).
      change (base64 (a :: b :: c :: x :: l)) with (map chr (sextets a b c) ++ base64 (x :: l)).
      by rewrite Hr, Hb, <- !app_assoc.
Qed.

Lemma raw_pad l : raw (l ++ replicate (pads l) 0) = raw l.
Proof. induction l as [|a|a b|a b c l IH] using list_ind3; try done. rewrite pads_skip. cbn [app raw]. by rewrite IH. Qed.

(** ** Decoding *)

Lemma table_index_chr v n : 0 <= v < 63 -> table_index (chr v) n = v.
Proof.
  intros Hv. unfold table_index.
  pose proof (forallb_seqZ (fun v => bool_decide
    ((list_find (fun i => znth base64_table i = Some (chr v)) (rev (seqZ 0 63)) ≫= fun r => Some r.2) = Some v)) 63 v
    ltac:(by vm_compute) Hv) as E. cbv beta in E. apply bool_decide_eq_true in E. by rewrite E.
Qed.

Lemma chr_other v : 0 <= v < 64 -> chr v <> 0 /\ chr v <> 61.
Proof.
  intros Hv. pose proof (forallb_seqZ (fun v => negb (chr v =? 0) && negb (chr v =? 61)) 64 v ltac:(by vm_compute) Hv) as E.
  cbv beta in E. rewrite andb_true_iff, !negb_true_iff, !Z.eqb_neq in E. done.
Qed.

Lemma decode_bits n m : 0 <= n < 64 -> 0 <= m < 64 ->
  Z.land (Z.lor (Z.shiftr (Z.land m 48) 4) (Z.shiftl n 2)) 255 = n * 4 + m / 16
  /\ Z.land (Z.lor (Z.shiftr (Z.land m 60) 2) (Z.shiftl n 4)) 255 = n mod 16 * 16 + m / 4
  /\ u8 (Z.lor (Z.land (Z.land n 3 * 64) 255) (Z.land m 63)) = n mod 4 * 64 + m.
Proof.
  intros Hn Hm. pose proof (forall_bytes2 (fun n m =>
    (Z.land (Z.lor (Z.shiftr (Z.land m 48) 4) (Z.shiftl n 2)) 255 =? n * 4 + m / 16)
    && (Z.land (Z.lor (Z.shiftr (Z.land m 60) 2) (Z.shiftl n 4)) 255 =? n mod 16 * 16 + m / 4)
    && (u8 (Z.lor (Z.land (Z.land n 3 * 64) 255) (Z.land m 63)) =? n mod 4 * 64 + m))
    64 64 n m ltac:(by vm_compute) Hn Hm) as E. cbv beta in E. rewrite !andb_true_iff, !Z.eqb_eq in E. tauto.
Qed.

Lemma decode_sextets a b c : is_u8 a -> is_u8 b -> is_u8 c ->
  decode_bytes (a / 4) (a mod 4 * 16 + b / 16) (b mod 16 * 4 + c / 64) (c mod 64) = [a; b; c].
Proof.
  intros Ha Hb Hc. unfold decode_bytes.
  destruct (decode_bits (a / 4) (a mod 4 * 16 + b / 16)) as (-> & _ & _); [zlia..|].
  destruct (decode_bits (a mod 4 * 16 + b / 16) (b mod 16 * 4 + c / 64)) as (_ & -> & _); [zlia..|].
  destruct (decode_bits (b mod 16 * 4 + c / 64) (c mod 64)) as (_ & _ & ->); [zlia..|].
  f_equal; [zlia|]. f_equal; [zlia|]. f_equal. zlia.
Qed.

(** [/] has the index that the search leaves out. *)
Lemma not_slash v n : 0 <= v < 64 -> chr v <> 47 -> table_index (chr v) n = v.
Proof. intros Hv Hne. apply table_index_chr. destruct (Z.eq_dec v 63) as [->|]; [by destruct Hne | lia]. Qed.

Lemma decode_loop_spec l : forall fuel pre rest ns out0 outr, bytes_ok l -> (length l mod 3 = 0)%nat -> (length l < fuel)%nat ->
  47 ∉ raw l -> zlen l <= zlen outr ->
  decode_loop fuel (pre ++ raw l ++ 0 :: rest) (zlen pre) ns (out0 ++ outr) (zlen out0)
  = Some (out0 ++ l ++ drop (length l) outr, zlen out0 + zlen l).
Proof.
  induction l as [| | |a b c l IH] using list_ind3; intros fuel pre rest ns out0 outr Hl Hm Hf Hs Ho; try done;
    (destruct fuel as [|fuel]; [lia|]); cbn [decode_loop].
  - rewrite (rd8_skip pre (raw [] ++ 0 :: rest) (zlen pre) 0) by lia. cbn. by rewrite Z.add_0_r.
  - do 3 apply Forall_cons in Hl as [? Hl]. cbn [raw] in Hs |- *. rewrite <- (app_assoc (map chr _)).
    assert (Hr : Forall (fun v => 0 <= v < 64) (sextets a b c)) by (by apply sextets_range).
    assert (Hrd : forall j i, i = zlen pre + Z.of_nat j -> rd8 (pre ++ map chr (sextets a b c) ++ raw l ++ 0 :: rest) i
      = (map chr (sextets a b c) ++ raw l ++ 0 :: rest) !! j) by (intros; by apply rd8_skip).
    rewrite (Hrd 0%nat (zlen pre)), (Hrd 1%nat (zlen pre + 1)), (Hrd 2%nat (zlen pre + 2)), (Hrd 3%nat (zlen pre + 3)) by lia. unfold sextets in Hr, Hs |- *. cbn [map app] in Hs |- *.
    rewrite !not_elem_of_cons in Hs. destruct Hs as (? & ? & ? & ? & Hs). do 4 apply Forall_cons in Hr as [? Hr].
    cbn [lookup list_lookup mbind option_bind].
    destruct (chr_other (a / 4)) as [Hz _]; [done|]. zfalse (chr (a / 4) =? 0).
    destruct ns as [[[N1 N2] N3] N4]. rewrite !not_slash, decode_sextets by done.
    cbn [length] in Ho. rewrite wr_bytes_app by (done || (cbn; lia)). cbn [mbind option_bind].
    replace (pre ++ chr (a / 4) :: _) with ((pre ++ map chr (sextets a b c)) ++ raw l ++ 0 :: rest) by (by rewrite <- app_assoc).
    replace (zlen pre + 4) with (zlen (pre ++ map chr (sextets a b c))) by (rewrite length_app; cbn; lia).
    rewrite (app_assoc out0). replace (zlen out0 + 3) with (zlen (out0 ++ [a; b; c])) by (rewrite length_app; cbn; lia).
    cbn [length] in Hm, Hf. replace (S (S (S (length l)))) with (length l + 1 * 3)%nat in Hm by lia.
    rewrite Nat.Div0.mod_add in Hm. rewrite IH; [|done|done|lia|done|rewrite length_drop; cbn [length]; lia].
    rewrite <- app_assoc, drop_drop. cbn [length]. f_equal. f_equal. rewrite length_app. cbn [length]. lia.
Qed.

Lemma base64_length l : length (base64 l) = length (raw l).
Proof. induction l as [|a|a b|a b c l IH] using list_ind3; try done. cbn [raw base64]. by rewrite !length_app, IH. Qed.

Lemma base64_encodes data rest out : bytes_ok data -> data <> [] -> zlen (base64 data) < zlen out ->
  base64_encode (data ++ 0 :: rest) (zlen data) out
  = Some (1, base64 data ++ 0 :: drop (S (length (base64 data))) out).
Proof.
  intros Hd Hne Hout. rewrite base64_length in *. unfold base64_encode.
  assert (0 < zlen data) by (destruct data; [done | cbn; lia]). zfalse (zlen data <? 1).
  pose proof (encode_loop_spec data (S (Z.to_nat (zlen data))) [] rest [] out Hd ltac:(lia) ltac:(lia)) as E.
  cbn [app length] in E. change (Z.of_nat 0) with 0 in E. rewrite !Z.add_0_l in E. rewrite E, bind_Some.
  destruct (drop (length (raw data)) out) as [|y r] eqn:Er; [apply (f_equal length) in Er; rewrite length_drop in Er; cbn in Er; lia|].
  assert (Er' : drop (S (length (raw data))) out = r) by (replace (S _) with (length (raw data) + 1)%nat by lia; by rewrite <- drop_drop, Er).
  rewrite wr8_at, bind_Some by done. rewrite pads_mod, Er'.
  destruct (base64_shape data Hd Hne) as (k & v & Hv & Hr & Hb). rewrite Hr, Hb.
  assert (Hp : (pads data <= 2)%nat) by (unfold pads; repeat case_match; lia).
  destruct (pads data) as [|[|[|?]]]; [| | |lia]; cbn [replicate app Z.gtb Z.eqb Pos.eqb Z.compare Pos.compare Pos.compare_cont].
  - by rewrite bind_Some.
  - replace (k ++ [chr v; 65]) with ((k ++ [chr v]) ++ [65]) by (by rewrite <- app_assoc).
    rewrite <- (app_assoc (k ++ [chr v])). cbn [app]. rewrite wr8_at by (rewrite ?length_app; cbn [length]; lia).
    rewrite !bind_Some. do 2 f_equal. by rewrite <- !app_assoc.
  - replace (k ++ [chr v; 65; 65]) with ((k ++ [chr v; 65]) ++ [65]) by (by rewrite <- app_assoc).
    rewrite <- (app_assoc (k ++ [chr v; 65])). cbn [app]. rewrite wr8_at by (rewrite ?length_app; cbn [length]; lia).
    rewrite bind_Some. replace (k ++ [chr v; 65]) with ((k ++ [chr v]) ++ [65]) by (by rewrite <- app_assoc).
    rewrite <- (app_assoc (k ++ [chr v])). cbn [app]. rewrite wr8_at by (rewrite ?length_app; cbn [length]; lia).
    rewrite !bind_Some. do 2 f_equal. by rewrite <- !app_assoc.
Qed.

Lemma base64_decodes data rest ns out : bytes_ok data -> data <> [] -> 47 ∉ base64 data ->
  zlen data + Z.of_nat (pads data) < zlen out ->
  exists in_ tail, base64_decode (base64 data ++ 0 :: rest) (zlen (base64 data)) ns out
    = Some (1, in_, data ++ replicate (pads data) 0 ++ 0 :: tail).
Proof.
  intros Hd Hne Hs Hout. unfold base64_decode.
  destruct (base64_shape data Hd Hne) as (k & v & Hv & Hr & Hb). destruct (chr_other v Hv) as [_ Hv61].
  pose proof (raw_length data) as Hrl. rewrite base64_length.
  assert (0 < zlen data) by (destruct data; [done | cbn; lia]).
  zfalse (zlen (raw data) <? 1). change 3 with (Z.ones 2). rewrite Z.land_ones by lia.
  zfalse (zlen (raw data) mod 2 ^ 2 >? 0). cbn [orb].
  assert (Hin : exists c, rd8 (base64 data ++ 0 :: rest) (zlen (raw data) - 1) = Some c
    /\ (if c =? 61
         then in_ ← wr8 (base64 data ++ 0 :: rest) (zlen (raw data) - 1) 65;
              c ← rd8 in_ (zlen (raw data) - 2);
              if c =? 61 then wr8 in_ (zlen (raw data) - 2) 65 else Some in_
         else Some (base64 data ++ 0 :: rest)) = Some (raw data ++ 0 :: rest)).
  { assert (Hp : (pads data <= 2)%nat) by (unfold pads; repeat case_match; lia).
    rewrite Hr, Hb, !length_app, length_replicate. cbn [length].
    destruct (pads data) as [|[|[|?]]]; [| | |lia]; cbn [replicate app]; rewrite <- !app_assoc; cbn [app].
    - exists (chr v). rewrite (rd8_skip k _ _ 0) by lia. split; [done|]. by zfalse (chr v =? 61).
    - exists 61. rewrite (rd8_skip k _ _ 1) by lia. split; [done|]. cbn [Z.eqb Pos.eqb].
      rewrite (cons_middle (chr v)), app_assoc, wr8_at, bind_Some by (done || (rewrite length_app; cbn [length]; lia)).
      rewrite <- app_assoc, (rd8_skip k _ (_ - 2) 0) by lia. cbn [app lookup list_lookup mbind option_bind].
      by zfalse (chr v =? 61).
    - exists 61. rewrite (rd8_skip k _ _ 2) by lia. split; [done|]. cbn [Z.eqb Pos.eqb].
      replace (k ++ chr v :: 61 :: 61 :: 0 :: rest) with ((k ++ [chr v; 61]) ++ 61 :: 0 :: rest) by (by rewrite <- app_assoc).
      rewrite wr8_at, bind_Some by (done || (rewrite length_app; cbn [length]; lia)).
      rewrite <- app_assoc, (rd8_skip k _ (_ - 2) 1) by lia. cbn [app lookup list_lookup mbind option_bind Z.eqb Pos.eqb].
      replace (k ++ chr v :: 61 :: 65 :: 0 :: rest) with ((k ++ [chr v]) ++ 61 :: 65 :: 0 :: rest) by (by rewrite <- app_assoc).
      rewrite wr8_at by (done || (rewrite length_app; cbn [length]; lia)). by rewrite <- app_assoc. }
  destruct Hin as (c & -> & Hin). rewrite bind_Some, Hin, bind_Some.
  set (padded := data ++ replicate (pads data) 0).
  assert (Hpl : length padded = (length data + pads data)%nat) by (unfold padded; by rewrite length_app, length_replicate).
  assert (Hs' : 47 ∉ raw padded).
  { unfold padded. rewrite raw_pad, Hr. rewrite Hb in Hs. rewrite !not_elem_of_app in *. destruct Hs as (? & ? & _).
    split; [done|]. split; [done|]. intros [? _]%elem_of_replicate. done. }
  pose proof (decode_loop_spec padded (S (length (raw data ++ 0 :: rest))) [] rest ns [] out) as E.
  assert (Erp : raw padded = raw data) by apply raw_pad. rewrite Erp in E, Hs'. cbn [app length] in E. change (Z.of_nat 0) with 0 in E. rewrite E; clear E.
  - rewrite bind_Some, Z.add_0_l. exists (raw data ++ 0 :: rest).
    destruct (drop (length padded) out) as [|y r] eqn:Er; [apply (f_equal length) in Er; rewrite length_drop in Er; cbn in Er; lia|].
    exists r. rewrite wr8_at, bind_Some by done. unfold padded. by rewrite <- app_assoc.
  - apply Forall_app. split; [done|]. apply Forall_replicate. lia.
  - rewrite Hpl. pose proof (pads_mod data) as Hm. 
    assert (Hp : (pads data <= 2)%nat) by (unfold pads; repeat case_match; lia).
    apply Nat2Z.inj. rewrite Nat2Z.inj_mod, Nat2Z.inj_add. destruct (pads data) as [|[|[|?]]]; [zlia|zlia|zlia|lia].
  - rewrite length_app, Hpl. cbn [length]. assert (Hp : (pads data <= 2)%nat) by (unfold pads; repeat case_match; lia). zlia.
  - exact Hs'.
  - rewrite Hpl. lia.
Qed.

(** C33: base 64 round-trips, for data that are not empty (the encoder refuses those
    with -1), when no character of the encoding is [/] and the arrays have room:
    [base64_encode] of a string writes four characters for three bytes, with [=] for
    what is missing, and a NUL; [base64_decode] of that writes the bytes back, followed
    by the zeros of the last group, whatever its variables hold at first. *)
Theorem base64_roundtrip data rest rest' ns out out' : bytes_ok data -> data <> [] -> 47 ∉ base64 data ->
  zlen (base64 data) < zlen out -> zlen data + 2 < zlen out' ->
  base64_encode (data ++ 0 :: rest) (zlen data) out = Some (1, base64 data ++ 0 :: drop (S (length (base64 data))) out)
  /\ exists in_ tail, base64_decode (base64 data ++ 0 :: rest') (zlen (base64 data)) ns out'
       = Some (1, in_, data ++ replicate (pads data) 0 ++ 0 :: tail).
Proof.
  intros Hd Hne Hs Ho Ho'. split; [by apply base64_encodes|]. apply base64_decodes; try done.
  assert (pads data <= 2)%nat by (unfold pads; repeat case_match; lia). lia.
Qed.

Lemma base64_roundtrip_witness :
  base64_encode [104; 101; 108; 108; 111; 0] 5 (zeros 9) = Some (1, [97; 71; 86; 115; 98; 71; 56; 61; 0])
  /\ exists in_ tail, base64_decode [97; 71; 86; 115; 98; 71; 56; 61; 0] 8 (7, 7, 7, 7) (zeros 8)
       = Some (1, in_, [104; 101; 108; 108; 111; 0; 0] ++ tail).
Proof.
  assert (H : bytes_ok [104; 101; 108; 108; 111]) by (by apply bytes_ok_decide).
  assert (Hs : 47 ∉ base64 [104; 101; 108; 108; 111]) by (by apply (bool_decide_unpack (47 ∉ base64 _)); vm_compute).
  destruct (base64_roundtrip [104; 101; 108; 108; 111] [] [] (7, 7, 7, 7) (zeros 9) (zeros 8) H ltac:(done) Hs
    ltac:(by vm_compute) ltac:(by vm_compute)) as (E & in_ & tail & E').
  split; [exact E|]. exists in_, tail. exact E'.
Defined.

(** The character [/] is never found: its group is decoded with what the variable held
    before. *)
Example slash_not_decoded :
  base64_encode [255; 0] 1 (zeros 5) = Some (1, [47; 119; 61; 61; 0])
  /\ option_map snd (base64_decode [47; 119; 61; 61; 0] 4 (0, 0, 0, 0) (zeros 4)) = Some [3; 0; 0; 0].
Proof. by vm_compute. Qed.

(** Behind a last group of one byte there has to be a zero. *)
Example encode_reads_behind :
  base64_encode [97; 255] 1 (zeros 5) = Some (1, [89; 102; 61; 61; 0])
  /\ base64_encode [97; 0] 1 (zeros 5) = Some (1, [89; 81; 61; 61; 0]).
Proof. by vm_compute. Qed.

(** ** Hexadecimal *)

Definition hex_text (l : list Z) : list Z := concat (map (fun b => [hex_char (b / 16); hex_char (b mod 16)]) l).

Lemma hex_chars b : is_u8 b ->
  hex_char (Z.shiftr b 4) = hex_char (b / 16) /\ hex_char (Z.land b 0x0f) = hex_char (b mod 16)
  /\ is_u8 (hex_char (b / 16)) /\ is_u8 (hex_char (b mod 16))
  /\ u8 (Z.lor (Z.shiftl (hex_value (hex_char (b / 16))) 4) (hex_value (hex_char (b mod 16)))) = b.
Proof.
  intros Hb. pose proof (forallb_seqZ (fun b =>
    (hex_char (Z.shiftr b 4) =? hex_char (b / 16)) && (hex_char (Z.land b 0x0f) =? hex_char (b mod 16))
    && (0 <=? hex_char (b / 16)) && (hex_char (b / 16) <? 256) && (0 <=? hex_char (b mod 16)) && (hex_char (b mod 16) <? 256)
    && (u8 (Z.lor (Z.shiftl (hex_value (hex_char (b / 16))) 4) (hex_value (hex_char (b mod 16)))) =? b)) 256 b
    ltac:(by vm_compute) Hb) as E. cbv beta in E. rewrite !andb_true_iff in E. zbool. lia.
Qed.

Lemma ascii_digits b : is_u8 b ->
  znth ascii_table (Z.land (Z.shiftr b 4) 0x0F) = Some (hex_char (b / 16))
  /\ znth ascii_table (Z.land b 0x0F) = Some (hex_char (b mod 16))
  /\ is_u8 (hex_char (b / 16)) /\ is_u8 (hex_char (b mod 16)).
Proof.
  intros Hb. destruct (hex_chars b Hb) as (_ & _ & ? & ? & _).
  pose proof (forallb_seqZ (fun b =>
    bool_decide (znth ascii_table (Z.land (Z.shiftr b 4) 0x0F) = Some (hex_char (b / 16)))
    && bool_decide (znth ascii_table (Z.land b 0x0F) = Some (hex_char (b mod 16)))) 256 b ltac:(by vm_compute) Hb) as E.
  cbv beta in E. apply andb_true_iff in E as [?%bool_decide_eq_true ?%bool_decide_eq_true]. done.
Qed.

Lemma hex_text_length l : length (hex_text l) = (2 * length l)%nat.
Proof. induction l as [|b l IH]; [done|]. unfold hex_text in *. cbn [map concat]. rewrite length_app, IH. cbn [length]. lia. Qed.

Lemma to_hex_spec l : forall pre rest dpre drest, bytes_ok l -> zlen (hex_text l) <= zlen drest -> zlen dpre = 2 * zlen pre ->
  for_range (length l) (zlen pre) (fun i dest =>
    b ← rd8 (pre ++ l ++ rest) i;
    dest ← wr8 dest (i * 2) (hex_char (Z.shiftr b 4));
    wr8 dest (i * 2 + 1) (hex_char (Z.land b 0x0f))) (dpre ++ drest)
  = Some (dpre ++ hex_text l ++ drop (length (hex_text l)) drest).
Proof.
  induction l as [|b l IH]; intros pre rest dpre drest Hl Hd Hp; [done|]. apply Forall_cons in Hl as [Hb Hl].
  destruct (hex_chars b Hb) as (E1 & E2 & H1 & H2 & _). rewrite hex_text_length in Hd. cbn [length] in Hd. cbn [length for_range].
  destruct drest as [|y [|z drest]]; [cbn in Hd; lia..|].
  rewrite (rd8_skip pre ((b :: l) ++ rest) (zlen pre) 0) by lia. cbn [app lookup list_lookup]. rewrite bind_Some, E1, E2.
  rewrite wr8_at, bind_Some by (done || lia). rewrite (cons_middle _ dpre), (app_assoc dpre), wr8_at, bind_Some by (done || (rewrite length_app; cbn; lia)).
  replace (pre ++ b :: l ++ rest) with ((pre ++ [b]) ++ l ++ rest) by (by rewrite <- app_assoc).
  replace (zlen pre + 1) with (zlen (pre ++ [b])) by (rewrite length_app; cbn; lia).
  rewrite (cons_middle _ (dpre ++ _)), (app_assoc (dpre ++ _)).
  rewrite IH; [|done|rewrite hex_text_length; cbn [length] in Hd; lia|rewrite !length_app; cbn [length]; lia].
  unfold hex_text. cbn [map concat]. by rewrite <- !app_assoc.
Qed.

Lemma from_hex_spec l : forall pre rest dpre drest, bytes_ok l -> zlen l <= zlen drest -> zlen pre = 2 * zlen dpre ->
  for_range (length l) (zlen dpre) (fun k dest =>
    h ← rd8 (pre ++ hex_text l ++ rest) (2 * k);
    l0 ← rd8 (pre ++ hex_text l ++ rest) (2 * k + 1);
    wr8 dest k (Z.lor (Z.shiftl (hex_value h) 4) (hex_value l0))) (dpre ++ drest)
  = Some (dpre ++ l ++ drop (length l) drest).
Proof.
  induction l as [|b l IH]; intros pre rest dpre drest Hl Hd Hp; [done|]. apply Forall_cons in Hl as [Hb Hl].
  destruct (hex_chars b Hb) as (_ & _ & _ & _ & E). cbn [length] in Hd. cbn [length for_range].
  destruct drest as [|y drest]; [cbn in Hd; lia|]. set (t := hex_text (b :: l) ++ rest).
  assert (Et : t = hex_char (b / 16) :: hex_char (b mod 16) :: hex_text l ++ rest) by done.
  rewrite (rd8_skip pre t (2 * zlen dpre) 0), (rd8_skip pre t (2 * zlen dpre + 1) 1) by lia. rewrite Et.
  cbn [lookup list_lookup]. rewrite !bind_Some, wr8_snoc, bind_Some, E by done.
  replace (pre ++ hex_char (b / 16) :: hex_char (b mod 16) :: hex_text l ++ rest)
    with ((pre ++ [hex_char (b / 16); hex_char (b mod 16)]) ++ hex_text l ++ rest) by (by rewrite <- app_assoc).
  replace (zlen dpre + 1) with (zlen (dpre ++ [b])) by (rewrite length_app; cbn; lia).
  rewrite (cons_middle b dpre drest), (app_assoc dpre).
  rewrite IH; [by rewrite <- app_assoc | done | cbn [length] in Hd; lia | rewrite !length_app; cbn [length]; lia].
Qed.

(** Hexadecimal text round-trips: [ByteToHexStr] of up to 16383 bytes writes two
    digits for each, and [HexStrToByte] of the text writes the bytes back; nothing else
    of either buffer changes. *)
Theorem hex_roundtrip l dest dest' rest rest' : bytes_ok l -> 2 * zlen l <= 32766 ->
  2 * zlen l <= zlen dest -> zlen l <= zlen dest' ->
  exists text, zlen text = 2 * zlen l
    /\ ByteToHexStr (l ++ rest) dest (zlen l) = Some (text ++ drop (length text) dest)
    /\ HexStrToByte (text ++ rest') dest' (zlen text) = Some (l ++ drop (length l) dest').
Proof.
  intros Hl Hmax Hd Hd'. exists (hex_text l). pose proof (hex_text_length l) as Ht. split; [lia|].
  unfold ByteToHexStr, HexStrToByte. zfalse (zlen l >? 32767). zfalse (zlen (hex_text l) >? 32766).
  split; [rewrite Nat2Z.id; apply (to_hex_spec l [] rest [] dest); [done | lia | done]|].
  replace (Z.to_nat ((zlen (hex_text l) + 1) / 2)) with (length l) by zlia.
  by apply (from_hex_spec l [] rest' [] dest').
Qed.

Lemma hex_roundtrip_witness : exists text, zlen text = 6
  /\ ByteToHexStr [0; 175; 16] (zeros 7) 3 = Some (text ++ drop (length text) (zeros 7))
  /\ HexStrToByte (text ++ [0]) (zeros 4) (zlen text) = Some [0; 175; 16; 0].
Proof.
  apply (hex_roundtrip [0; 175; 16] (zeros 7) (zeros 4) [] [0]); [by apply bytes_ok_decide | by vm_compute..].
Defined.

(** The third routine writes the same text, from its end. *)
Lemma hex_to_ascii_loop l1 : forall l2 rest d1 tail, bytes_ok l1 -> zlen d1 = 2 * zlen l1 ->
  for_range (length l1) (zlen l2) (fun k out_buf =>
    let i := zlen (l1 ++ l2) - 1 - k in
    v ← rd8 (l1 ++ l2 ++ rest) i;
    c ← znth ascii_table (Z.land (Z.shiftr v 4) 0x0F);
    out_buf ← wr8 out_buf (Z.shiftl i 1) c;
    c ← znth ascii_table (Z.land v 0x0F);
    wr8 out_buf (Z.shiftl i 1 + 1) c) (d1 ++ tail) = Some (hex_text l1 ++ tail).
Proof.
  induction l1 as [|b l1 IH] using rev_ind; intros l2 rest d1 tail Hl Hd; [by destruct d1|].
  apply Forall_app in Hl as [Hl [Hb _]%Forall_cons]. rewrite !length_app in Hd. cbn [length] in Hd.
  destruct d1 as [|z d1 _] using rev_ind; [cbn in Hd; lia|]. destruct d1 as [|y d1 _] using rev_ind; [cbn in Hd; lia|].
  rewrite !length_app in Hd. cbn [length] in Hd.
  rewrite (length_app l1), Nat.add_comm. cbn [length Nat.add for_range]. rewrite <- !app_assoc. cbn [app].
  replace (zlen (l1 ++ b :: l2) - 1 - zlen l2) with (zlen l1) by (rewrite length_app; cbn; lia).
  rewrite (rd8_skip l1 _ (zlen l1) 0) by lia. cbn [lookup list_lookup]. rewrite bind_Some.
  destruct (ascii_digits b Hb) as (-> & -> & H1 & H2). rewrite !bind_Some, Z.shiftl_mul_pow2 by done.
  rewrite wr8_at, bind_Some by (done || lia).
  rewrite bind_Some, (cons_middle _ d1), (app_assoc d1), wr8_at by (done || (rewrite length_app; cbn; lia)).
  rewrite bind_Some. replace (zlen l2 + 1) with (zlen (b :: l2)) by (cbn; lia).
  rewrite <- app_assoc. rewrite (IH (b :: l2) rest d1 _ Hl) by lia.
  unfold hex_text. rewrite map_app, concat_app. cbn [map concat]. by rewrite <- !app_assoc.
Qed.

Lemma hex_to_ascii_text l rest out : bytes_ok l -> zlen l <= 2 ^ 30 -> 2 * zlen l <= zlen out ->
  hex_to_ascii (l ++ rest) (zlen l) out = Some (0, hex_text l ++ drop (2 * length l) out, 2 * zlen l).
Proof.
  intros Hl Hmax Ho. unfold hex_to_ascii. ztrue (zlen l - 1 <? 2 ^ 31). zfalse (zlen l - 1 >=? 2 ^ 30).
  replace (Z.to_nat (zlen l - 1 + 1)) with (length l) by lia.
  pose proof (hex_to_ascii_loop l [] rest (take (2 * length l) out) (drop (2 * length l) out) Hl) as E.
  rewrite app_nil_r, take_drop in E. cbn [app length] in E. cbv zeta in E |- *. change (Z.of_nat 0) with 0 in E. rewrite E by (rewrite length_take; lia).
  rewrite bind_Some, Z.shiftl_mul_pow2, u32_id by lia. do 2 f_equal. lia.
Qed.

(** ** Numbers in hexadecimal *)

Lemma table_digit d : 0 <= d < 16 -> exists c, znth hex_table d = Some c /\ 0 < c < 256 /\ c <> 120 /\ c <> 88 /\ hex_digit_value c = Some d.
Proof.
  intros Hd. pose proof (forallb_seqZ (fun d => let c := default 0 (znth hex_table d) in
    bool_decide (znth hex_table d = Some c) && (0 <? c) && (c <? 256) && negb (c =? 120) && negb (c =? 88)
    && bool_decide (hex_digit_value c = Some d)) 16 d ltac:(by vm_compute) Hd) as E.
  cbv beta zeta in E. rewrite !andb_true_iff in E. destruct E as [[[[[E1%bool_decide_eq_true ?] ?] ?] ?] E2%bool_decide_eq_true].
  eexists. split; [exact E1|]. zbool. repeat split; assumption || lia.
Qed.

Lemma hex2dec_step c acc n d : hex_digit_value c = Some d -> c <> 0 -> 0 <= n -> 0 <= d < 16 -> n * 16 + d < 2 ^ 31 ->
  hex2dec_loop (c :: acc) n = hex2dec_loop acc (n * 16 + d).
Proof.
  intros Ec H0 Hn Hd Hmax. cbn [hex2dec_loop]. zfalse (c =? 0). rewrite Ec. unfold is_int.
  ztrue ((- 2 ^ 31 <=? n * 16) && (n * 16 <? 2 ^ 31)). by ztrue ((- 2 ^ 31 <=? n * 16 + d) && (n * 16 + d <? 2 ^ 31)).
Qed.

(** What the loop writes is read back as the number. *)
Lemma dec2hex_digits p : forall v acc, 0 <= v < 2 ^ 31 -> v < 16 ^ Z.of_nat (S p) ->
  exists ds (q : nat), dec2hex_loop (S p) v (replicate (S p) 0 ++ acc) (Z.of_nat p) = Some (replicate q 0 ++ ds ++ acc, Z.of_nat q - 1)
    /\ (q + length ds = S p)%nat /\ ((0 < p)%nat -> v < 16 ^ Z.of_nat p -> (1 <= q)%nat)
    /\ Forall (fun c => c <> 0 /\ c <> 120 /\ c <> 88) ds
    /\ (forall acc', hex2dec_loop (ds ++ acc') 0 = hex2dec_loop acc' v).
Proof.
  induction p as [|p IH]; intros v acc Hv Hp; cbn [dec2hex_loop].
  all: destruct (table_digit (v mod 16) ltac:(zlia)) as (c & Ec & Hc & ? & ? & Ed).
  all: change 15 with (2 ^ 4 - 1); rewrite (land_ones_mod v 4), Z.shiftr_div_pow2 by done; change (2 ^ 4) with 16; rewrite Ec, bind_Some.
  all: rewrite replicate_S_end, <- app_assoc; cbn [app].
  all: rewrite wr8_at, bind_Some by (rewrite ?length_replicate; lia).
  - exists [c], 0%nat. change (16 ^ Z.of_nat 1) with 16 in Hp. assert (Hv' : v mod 16 = v) by (apply Z.mod_small; lia). rewrite Hv' in Ed.
    split_and!; [by zfalse (Z.of_nat 0 - 1 >=? 0)|done|lia|by constructor; [lia|]|]. intros acc'. cbn [app]. by rewrite (hex2dec_step c acc' 0 v) by (done || lia).
  - zfalse (Z.of_nat (S p) - 1 <? 0). assert (Hs : v = v / 16 * 16 + v mod 16) by zlia.
    destruct (Z.eqb_spec (v / 16) 0) as [Hz|Hz].
    + exists [c], (S p). split_and!; [done|cbn; lia|lia|by constructor; [lia|]|]. intros acc'. cbn [app].
      rewrite (hex2dec_step c acc' 0 (v mod 16)) by (done || zlia). f_equal. zlia.
    + replace (Z.of_nat (S p) - 1) with (Z.of_nat p) by lia.
      destruct (IH (v / 16) (c :: acc)) as (ds & q & E & Hq & Hq1 & Hds & Hread); [zlia| |].
      { rewrite Nat2Z.inj_succ, Z.pow_succ_r in Hp by lia. zlia. }
      exists (ds ++ [c]), q. rewrite <- app_assoc. cbn [app]. split_and!; [exact E|rewrite length_app; cbn; lia| | |].
      * intros _ Hlt. rewrite Nat2Z.inj_succ, Z.pow_succ_r in Hlt by lia. destruct p as [|p]; [cbn in Hlt; zlia|]. apply Hq1; [lia|zlia].
      * apply Forall_app. split; [done|]. by constructor; [lia|].
      * intros acc'. rewrite <- app_assoc, Hread. cbn [app]. rewrite (hex2dec_step c acc' (v / 16) (v mod 16)) by (done || zlia). f_equal. lia.
Qed.

Lemma hex2dec_digits ds rest : Forall (fun c => c <> 0 /\ c <> 120 /\ c <> 88) ds ->
  hex2dec (ds ++ 0 :: rest) = hex2dec_loop (ds ++ 0 :: rest) 0.
Proof.
  assert (E : forall x y l, rd8 (x :: l) 0 = Some x /\ rd8 (x :: y :: l) 1 = Some y) by done.
  intros Hds. unfold hex2dec. destruct Hds as [|c ds Hc Hds]; [done|]. cbn [app].
  rewrite (proj1 (E c 0 _)), bind_Some. destruct (c =? 48); [|done].
  destruct Hds as [|d ds Hd _]; cbn [app]; rewrite (proj2 (E c _ _)), bind_Some; [done|].
  by zfalse ((d =? 120) || (d =? 88)).
Qed.

(** The text of a number below 2^31 is read back as that number; the value returned is 0. *)
Lemma dec_hex_roundtrip v output : 0 <= v < 2 ^ 31 -> 12 <= zlen output ->
  exists output', dec2hex v output = Some (0, output') /\ hex2dec output' = Some (HexNumber v).
Proof.
  intros Hv Ho. unfold dec2hex.
  destruct (dec2hex_digits 10 v [0]) as (ds & q & E & Hq & Hq1 & Hds & Hread); [done|cbn; lia|].
  change (replicate 11 0 ++ [0]) with (zeros 12) in E. change (Z.of_nat 10) with 10 in E. rewrite E, bind_Some.
  replace (Z.to_nat (Z.of_nat q - 1 + 1)) with (length (replicate q 0)) by (rewrite length_replicate; lia).
  rewrite drop_app_length, (c_str_app ds []) by (intros Hin; rewrite Forall_forall in Hds; by apply Hds in Hin as [? _]).
  rewrite (wr_bytes_app [] output), bind_Some by (rewrite ?length_app; cbn [length]; lia). cbn [app].
  destruct q as [|q]; [specialize (Hq1 ltac:(lia) ltac:(cbn; lia)); lia|]. cbn [replicate app c_str length].
  eexists. split; [done|]. rewrite <- app_assoc. cbn [app]. rewrite hex2dec_digits by done. rewrite Hread. cbn [hex2dec_loop].
  rewrite Z.eqb_refl, Z.mod_small by lia. done.
Qed.

(** ** Random numbers *)

(** [my_rand_r] multiplies by 48271 modulo 2^31 - 1 without an overflow: from every
    seed from 1 to 2^31 - 2 the next one is the product, which is in that range again, so
    that the generator never runs into 0. *)
Theorem my_rand_r_schrage seed : 0 < seed < 2 ^ 31 - 1 ->
  exists next, my_rand_r seed = Some next /\ next = (48271 * seed) mod (2 ^ 31 - 1) /\ 0 < next < 2 ^ 31 - 1.
Proof.
  intros Hs. unfold my_rand_r, is_int. ztrue (seed <? 2 ^ 31).
  rewrite Z.rem_mod_nonneg, Z.quot_div_nonneg by lia.
  pose proof (Z.div_mod seed 44488 ltac:(lia)) as Hdm. pose proof (Z.mod_pos_bound seed 44488 ltac:(lia)) as Hm.
  set (q := seed / 44488) in *. set (r := seed mod 44488) in *. assert (Hq : 0 <= q <= 48271) by lia.
  assert (Eb : negb ((- 2 ^ 31 <=? 48271 * r) && (48271 * r <? 2 ^ 31) && ((- 2 ^ 31 <=? 3399 * q) && (3399 * q <? 2 ^ 31))
    && ((- 2 ^ 31 <=? 48271 * r - 3399 * q) && (48271 * r - 3399 * q <? 2 ^ 31))) = false).
  { apply negb_false_iff. rewrite !andb_true_iff, !Z.leb_le, !Z.ltb_lt. lia. }
  rewrite Eb. set (next := if 48271 * r - 3399 * q <? 0 then 48271 * r - 3399 * q + (2 ^ 31 - 1) else 48271 * r - 3399 * q).
  assert (En : 48271 * seed = (2 ^ 31 - 1) * (if 48271 * r - 3399 * q <? 0 then q - 1 else q) + next).
  { unfold next. destruct (Z.ltb_spec (48271 * r - 3399 * q) 0); lia. }
  assert (Hr : 0 <= next < 2 ^ 31 - 1) by (unfold next; destruct (Z.ltb_spec (48271 * r - 3399 * q) 0); lia).
  exists next. split; [done|]. split; [by apply (Z.mod_unique _ _ (if 48271 * r - 3399 * q <? 0 then q - 1 else q)); [left|]|].
  split; [|lia]. destruct (Z.eq_dec next 0) as [Hz|]; [|lia]. exfalso. rewrite Hz, Z.add_0_r in En.
  assert (Hdiv : (2 ^ 31 - 1 | 48271 * seed)) by (eexists; rewrite En; apply Z.mul_comm).
  apply Z.gauss in Hdiv; [|by vm_compute]. apply Z.divide_pos_le in Hdiv; lia.
Qed.

Lemma my_rand_r_schrage_witness : exists next, my_rand_r 1 = Some next /\ next = 48271 mod (2 ^ 31 - 1) /\ 0 < next < 2 ^ 31 - 1.
Proof. apply (my_rand_r_schrage 1). lia. Defined.

(** ** Byte orders and decimals *)

Lemma bcd_8_roundtrip v : 0 <= v < 100 -> bcd2bin_8 (bin2bcd_8 v) = v.
Proof.
  intros Hv. pose proof (forallb_seqZ (fun v => bcd2bin_8 (bin2bcd_8 v) =? v) 100 v ltac:(by vm_compute) Hv) as E.
  by apply Z.eqb_eq.
Qed.

(** On a little-endian host the 16-bit conversion does nothing, the 32-bit one swaps. *)
Example byte_orders :
  is_little_endian false = Some 1 /\ is_little_endian true = Some 0 /\
  cpu_to_le16 false 0x1234 = 0x1234 /\ cpu_to_le16 true 0x1234 = 0x3412 /\ cpu_to_le32 0x12345678 = 0x78563412
  /\ cpu_to_le64 0x0102030405060708 = 0x0807060504030201.
Proof. by vm_compute. Qed.

Example bcd_of_number : bin2bcd (zeros 3) 123456 3 = Some (0, [0x56; 0x34; 0x12]).
Proof. by vm_compute. Qed.

(** Of a longer number the upper digits are lost, and only then the value returned is the
    length of the text. *)
Example dec2hex_of_long_number :
  option_map (fun r => (r.1, take 12 r.2)) (dec2hex 0x123456789abc (zeros 16))
    = Some (11, [50; 51; 52; 53; 54; 55; 56; 57; 97; 98; 99; 0])
  /\ option_map fst (dec2hex 0x2a (zeros 16)) = Some 0.
Proof. by vm_compute. Qed.

Example hex2dec_of_text : hex2dec [48; 120; 50; 65; 0] = Some (HexNumber 42) /\ hex2dec [50; 103; 0] = Some HexExit
  /\ hex2dec [56; 48; 48; 48; 48; 48; 48; 48; 0] = None.
Proof. by vm_compute. Qed.
