(* ===== verification/HashMap.v ===== *)
(** * fun_cstl/hashmap.c: a chained hash table on intrusive lists

    The chains are the [hlist]s of fun_cstl/list_p.h in a store of nodes: the table has the
    first node of each chain, a node has the next one and, in [pprev], the place that holds
    its own address, a bucket of the table or the [next] member of a node.  A pointer is
    [None] when it is null; an access through any other pointer to a node that is not
    allocated is undefined.  Keys and values are the client's pointers, the callbacks are
    parameters: whether [free_pair] is set, and the pairs it is called with are logged. *)

From stdpp Require Import gmap.
From S2P Require Import Prelude CMem.

(** ** State *)

Inductive place := Bucket (i : Z) | NextOf (a : Z).

#[export] Instance place_eq_dec : EqDecision place.
Proof. solve_decision. Defined.

Record hashmap_node := mkNode {
  hn_key : Z; hn_value : Z; hn_next : option Z; hn_pprev : option place
}.

Record hashmap_t := mkHashmap {
  hm_capacity : Z; hm_size : Z; hm_table : option (list (option Z)); hm_nodes : gmap Z hashmap_node;
  hm_freed : list (Z * Z)
}.

Definition set_table (m : hashmap_t) (t : list (option Z)) : hashmap_t :=
  mkHashmap (hm_capacity m) (hm_size m) (Some t) (hm_nodes m) (hm_freed m).
Definition set_nodes (m : hashmap_t) (n : gmap Z hashmap_node) : hashmap_t :=
  mkHashmap (hm_capacity m) (hm_size m) (hm_table m) n (hm_freed m).
Definition set_size (m : hashmap_t) (size : Z) : hashmap_t :=
  mkHashmap (hm_capacity m) (u32 size) (hm_table m) (hm_nodes m) (hm_freed m).

(** ** list_p.h *)

Definition first (m : hashmap_t) (i : Z) : option (option Z) := t ← hm_table m; znth t i.

(** [*p = v] *)
Definition store_at (m : hashmap_t) (p : place) (v : option Z) : option hashmap_t :=
  match p with
  | Bucket i => t ← hm_table m; t ← zset t i v; Some (set_table m t)
  | NextOf a => n ← hm_nodes m !! a;
                Some (set_nodes m (<[a := mkNode (hn_key n) (hn_value n) v (hn_pprev n)]> (hm_nodes m)))
  end.

Definition set_pprev (m : hashmap_t) (a : Z) (p : option place) : option hashmap_t :=
  n ← hm_nodes m !! a;
  Some (set_nodes m (<[a := mkNode (hn_key n) (hn_value n) (hn_next n) p]> (hm_nodes m))).

Definition INIT_HLIST_NODE (m : hashmap_t) (n : Z) : option hashmap_t :=
  m ← store_at m (NextOf n) None; set_pprev m n None.

Definition hlist_empty (m : hashmap_t) (i : Z) : option bool :=
  f ← first m i; Some (bool_decide (f = None)).

Definition __hlist_del (m : hashmap_t) (n : Z) : option hashmap_t :=
  nd ← hm_nodes m !! n;
  pprev ← hn_pprev nd;
  m ← store_at m pprev (hn_next nd);
  match hn_next nd with
  | Some next => set_pprev m next (Some pprev)
  | None => Some m
  end.

Definition hlist_del (m : hashmap_t) (n : Z) : option hashmap_t :=
  m ← __hlist_del m n;
  m ← store_at m (NextOf n) None;
  set_pprev m n None.

Definition hlist_add_head (m : hashmap_t) (n i : Z) : option hashmap_t :=
  f ← first m i;
  m ← store_at m (NextOf n) f;
  m ← (match f with Some b => set_pprev m b (Some (NextOf n)) | None => Some m end);
  m ← store_at m (Bucket i) (Some n);
  set_pprev m n (Some (Bucket i)).

(** ** hashmap.c *)

Section hashmap.
Context (make_pair : option (Z -> Z -> Z * Z * Z)) (free_pair : bool)
  (compare_key : option (Z -> Z -> Z)) (calculate_hash : option (Z -> Z * Z)).

(** [table] is what [calloc] gives for the table, null or not. *)
Definition hashmap_init (capacity : Z) (table : bool) : Z * option hashmap_t :=
  if capacity =? 0 then (-1, None)
  else if negb table then (-1, None)
  else (0, Some (mkHashmap capacity 0 (Some (replicate (Z.to_nat capacity) None)) ∅ [])).

(** The walk along a chain: the node with the key. *)
Fixpoint find_node (fuel : nat) (compare : Z -> Z -> Z) (m : hashmap_t) (pos : option Z) (key : Z) : option (option Z) :=
  match fuel, pos with
  | _, None => Some None
  | O, _ => None
  | S fuel, Some a =>
      nd ← hm_nodes m !! a;
      return_if compare (hn_key nd) key =? 0 with Some (Some a) ;;
      find_node fuel compare m (hn_next nd) key
  end.

Definition lookup_node (hash_of : Z -> Z * Z) (compare : Z -> Z -> Z) (m : hashmap_t) (key : Z) : option (option Z) :=
  let '(err, hash) := hash_of key in
  return_if negb (err =? 0) with Some None ;;
  let hash := hash mod hm_capacity m in
  empty ← hlist_empty m hash;
  return_if (empty : bool) with Some None ;;
  pos ← first m hash;
  find_node (size (hm_nodes m)) compare m pos key.

(** [node] is what [calloc] gives: an address, or null. *)
Definition hashmap_insert (m : hashmap_t) (key value : Z) (node : option Z) : option (Z * hashmap_t) :=
  match calculate_hash, compare_key with
  | Some hash_of, Some compare =>
      let '(err, hash) := hash_of key in
      return_if negb (err =? 0) with Some (-1, m) ;;
      let hash := hash mod hm_capacity m in
      empty ← hlist_empty m hash;
      conflict ← (if negb empty then pos ← first m hash; find_node (size (hm_nodes m)) compare m pos key else Some None);
      match conflict, node with
      | Some _, _ => Some (-1, m)
      | None, None => Some (-1, m)
      | None, Some a =>
          let '(err, key, value) := match make_pair with Some f => f key value | None => (0, key, value) end in
          return_if negb (err =? 0) with Some (err, m) ;;
          let m := set_nodes m (<[a := mkNode key value None None]> (hm_nodes m)) in
          m ← INIT_HLIST_NODE m a;
          m ← hlist_add_head m a hash;
          Some (0, set_size m (hm_size m + 1))
      end
  | _, _ => Some (-1, m)
  end.

(** [free_pair] when it is set, and [free]. *)
Definition free_node (m : hashmap_t) (a : Z) : option hashmap_t :=
  nd ← hm_nodes m !! a;
  Some (mkHashmap (hm_capacity m) (hm_size m) (hm_table m) (delete a (hm_nodes m))
          (if free_pair then hm_freed m ++ [(hn_key nd, hn_value nd)] else hm_freed m)).

Definition hashmap_remove (m : hashmap_t) (key : Z) : option (Z * hashmap_t) :=
  match calculate_hash, compare_key with
  | Some hash_of, Some compare =>
      node ← lookup_node hash_of compare m key;
      match node with
      | Some a =>
          m ← hlist_del m a;
          m ← free_node m a;
          Some (0, set_size m (hm_size m - 1))
      | None => Some (-1, m)
      end
  | _, _ => Some (-1, m)
  end.

Fixpoint clear_chain (fuel : nat) (m : hashmap_t) (pos : option Z) : option hashmap_t :=
  match fuel, pos with
  | _, None => Some m
  | O, _ => None
  | S fuel, Some a =>
      nd ← hm_nodes m !! a;
      m ← hlist_del m a;
      m ← free_node m a;
      clear_chain fuel m (hn_next nd)
  end.

Definition hashmap_clear (m : hashmap_t) : option (Z * hashmap_t) :=
  match hm_table m with
  | None => Some (-1, m)
  | Some _ =>
      m ← for_range (Z.to_nat (hm_capacity m)) 0 (fun i m => pos ← first m i; clear_chain (size (hm_nodes m)) m pos) m;
      Some (0, m)
  end.

Definition hashmap_deinit (m : hashmap_t) : option (Z * hashmap_t) :=
  '(_, m) ← hashmap_clear m;
  Some (0, mkHashmap (hm_capacity m) (hm_size m) None (hm_nodes m) (hm_freed m)).

(** [size] is unsigned, the result an [int]. *)
Definition hashmap_size (m : option hashmap_t) : Z := match m with None => 0 | Some m => int32 (hm_size m) end.
Definition hashmap_empty (m : option hashmap_t) : bool := hashmap_size m =? 0.

(** The node whose [value] member the caller gets the address of. *)
Definition hashmap_lookup (m : hashmap_t) (key : Z) : option (Z * option Z) :=
  match calculate_hash, compare_key with
  | Some hash_of, Some compare =>
      node ← lookup_node hash_of compare m key;
      Some (match node with Some a => (0, Some a) | None => (-1, None) end)
  | _, _ => Some (-1, None)
  end.
End hashmap.

(** ** Places and cells

    What a place holds, and what a node holds beside its link: the two views of the store on
    which the writes of list_p.h are functional updates. *)

Definition load (m : hashmap_t) (p : place) : option (option Z) :=
  match p with Bucket i => first m i | NextOf a => hn_next <$> hm_nodes m !! a end.

Definition cell (m : hashmap_t) (a : Z) : option (Z * Z * option place) :=
  (fun n => (hn_key n, hn_value n, hn_pprev n)) <$> hm_nodes m !! a.

(** What no link operation changes. *)
Definition same_rest (m m' : hashmap_t) : Prop :=
  hm_capacity m' = hm_capacity m /\ hm_size m' = hm_size m /\ hm_freed m' = hm_freed m
  /\ dom (hm_nodes m') = dom (hm_nodes m).

Lemma same_rest_trans m1 m2 m3 : same_rest m1 m2 -> same_rest m2 m3 -> same_rest m1 m3.
Proof. unfold same_rest. intuition congruence. Qed.

Lemma load_next m a : is_Some (load m (NextOf a)) <-> a ∈ dom (hm_nodes m).
Proof. cbn. by rewrite fmap_is_Some, elem_of_dom. Qed.

Lemma node_eq m a k v p nx :
  load m (NextOf a) = Some nx -> cell m a = Some (k, v, p) -> hm_nodes m !! a = Some (mkNode k v nx p).
Proof. unfold cell. cbn. destruct (hm_nodes m !! a) as [[]|]; cbn; congruence. Qed.

Lemma store_at_spec m p v : is_Some (load m p) ->
  exists m', store_at m p v = Some m' /\ same_rest m m'
    /\ (forall q, load m' q = if decide (q = p) then Some v else load m q)
    /\ (forall b, cell m' b = cell m b).
Proof.
  destruct p as [i|a]; cbn.
  - unfold first. destruct (hm_table m) as [t|] eqn:Ht; [|by intros []]. rewrite !bind_Some. intros [x Hx].
    pose proof (znth_Some_lt _ _ _ Hx). rewrite zset_Some, bind_Some by done.
    eexists. split; [done|]. split; [done|]. split; [|done].
    intros [j|b]; [|done]. cbn. unfold first. rewrite Ht. cbn [hm_table set_table]. rewrite !bind_Some.
    rewrite znth_insert by done. destruct (decide (Bucket j = Bucket i)), (Z.eqb_spec j i); congruence.
  - unfold cell. destruct (hm_nodes m !! a) as [n|] eqn:Hn; [|by intros []]. intros _. rewrite bind_Some.
    eexists. split; [done|].
    split; [unfold same_rest; cbn; by rewrite dom_insert_lookup_L by (by rewrite Hn)|]. split.
    + intros [j|b]; [done|]. cbn. destruct (decide (b = a)) as [->|Hb].
      * rewrite lookup_insert_eq, decide_True by done. done.
      * rewrite lookup_insert_ne, decide_False by congruence. done.
    + intros b. cbn. destruct (decide (b = a)) as [->|Hb]; [rewrite lookup_insert_eq, Hn | rewrite lookup_insert_ne by done]; done.
Qed.

Lemma set_pprev_spec m a p : a ∈ dom (hm_nodes m) ->
  exists m', set_pprev m a p = Some m' /\ same_rest m m'
    /\ (forall q, load m' q = load m q)
    /\ (forall b, cell m' b = if decide (b = a) then (fun c => (c.1, p)) <$> cell m b else cell m b).
Proof.
  intros [n Hn]%elem_of_dom. unfold set_pprev. rewrite Hn, bind_Some.
  eexists. split; [done|].
  split; [unfold same_rest; cbn; by rewrite dom_insert_lookup_L by (by rewrite Hn)|]. unfold cell. split.
  - intros [i|b]; [done|]. cbn.
    destruct (decide (b = a)) as [->|Hb]; [rewrite lookup_insert_eq, Hn | rewrite lookup_insert_ne by done]; done.
  - intros b. cbn. destruct (decide (b = a)) as [->|Hb]; [rewrite lookup_insert_eq, Hn | rewrite lookup_insert_ne by done]; done.
Qed.

(** ** Chains

    A chain from a place, as the list of its nodes' addresses, keys and values. *)

Abbreviation addr e := (e.1.1).
Abbreviation ekey e := (e.1.2).

Fixpoint chain (m : hashmap_t) (src : place) (l : list (Z * Z * Z)) : Prop :=
  match l with
  | [] => load m src = Some None
  | (a, k, v) :: l => load m src = Some (Some a) /\ cell m a = Some (k, v, Some src) /\ chain m (NextOf a) l
  end.

Definition addrs (l : list (Z * Z * Z)) : list Z := (fun e => addr e) <$> l.

Definition places (src : place) (l : list (Z * Z * Z)) : list place := src :: (NextOf <$> addrs l).

Lemma addrs_app l l' : addrs (l ++ l') = addrs l ++ addrs l'.
Proof. apply fmap_app. Qed.

Lemma addrs_cons e l : addrs (e :: l) = addr e :: addrs l.
Proof. done. Qed.

Lemma in_addrs e l : e ∈ l -> addr e ∈ addrs l.
Proof. apply (list_elem_of_fmap_2 (fun e => addr e)). Qed.

Lemma places_cons src e l : places src (e :: l) = src :: places (NextOf (addr e)) l.
Proof. done. Qed.

Lemma in_places e src l : e ∈ l -> NextOf (addr e) ∈ places src l.
Proof. intros He. right. by apply list_elem_of_fmap_2, in_addrs. Qed.

Lemma places_app p src l l' : p ∈ places src l -> p ∈ places src (l ++ l').
Proof. unfold places. rewrite addrs_app, fmap_app, !elem_of_cons, elem_of_app. tauto. Qed.

Lemma chain_load m src l : chain m src l -> load m src = Some (head (addrs l)).
Proof. destruct l as [|[[a k] v] l]; cbn; [done|]. by intros [? _]. Qed.

Lemma chain_dom m src l : chain m src l -> Forall (fun e => addr e ∈ dom (hm_nodes m)) l.
Proof.
  revert src. induction l as [|[[a k] v] l IH]; intros src; cbn; [done|]. intros (_ & Hc & Hl).
  constructor; [|eauto]. apply load_next. cbn. unfold cell in Hc. destruct (hm_nodes m !! a); [eauto|done].
Qed.

Lemma chain_ext m m' src l :
  chain m src l -> (forall p, p ∈ places src l -> load m' p = load m p) ->
  (forall e, e ∈ l -> cell m' (addr e) = cell m (addr e)) -> chain m' src l.
Proof.
  revert src. induction l as [|[[a k] v] l IH]; intros src; cbn [chain].
  - intros H Hl _. rewrite Hl by (by left). done.
  - intros (Hs & Hc & Hl) Hload Hcell. pose proof (Hcell (a, k, v) ltac:(by left)) as Hc'. rewrite Hload by (by left).
    split; [done|]. split; [cbn in Hc'; congruence|]. apply IH; [done| |]; intros x Hx; [apply Hload | apply Hcell]; by right.
Qed.

(** The chain seen from another place, once its head points back to that place. *)
Lemma chain_move m m' src src' l :
  chain m src l -> NoDup (addrs l) -> load m' src' = load m src ->
  (forall e, e ∈ l -> load m' (NextOf (addr e)) = load m (NextOf (addr e))) ->
  (forall e, e ∈ l -> cell m' (addr e) =
     if decide (load m src = Some (Some (addr e))) then Some (e.1.2, e.2, Some src') else cell m (addr e)) ->
  chain m' src' l.
Proof.
  destruct l as [|[[a k] v] l]; cbn [chain]; [by intros ? _ ->|].
  intros (Hs & Hc & Hl) [Ha _]%NoDup_cons Hsrc Hload Hcell. split; [congruence|].
  split; [pose proof (Hcell (a, k, v) ltac:(by left)) as Hc'; cbn in Hc'; by rewrite Hc', decide_True|].
  apply (chain_ext m); [done| |].
  - intros p [->|(b & -> & (e & -> & He)%list_elem_of_fmap)%list_elem_of_fmap]%elem_of_cons;
      [apply (Hload (a, k, v)); by left|]. apply Hload. by right.
  - intros e He. rewrite Hcell by (by right). rewrite decide_False; [done|].
    intros Heq. apply Ha. cbn in *. replace a with (addr e) by congruence. by apply in_addrs.
Qed.

Lemma places_NoDup i l : NoDup (addrs l) -> NoDup (places (Bucket i) l).
Proof.
  intros H. apply NoDup_cons. split; [by intros (e & ? & _)%list_elem_of_fmap|].
  apply NoDup_fmap_2_strong; [|done]. intros x y _ _ [= ->]. done.
Qed.

(** [hlist_del] on the two views. *)
Lemma hlist_del_spec m a k v src nx :
  hm_nodes m !! a = Some (mkNode k v nx (Some src)) -> is_Some (load m src) -> src <> NextOf a ->
  (forall b, nx = Some b -> b ∈ dom (hm_nodes m) /\ b <> a) ->
  exists m', hlist_del m a = Some m' /\ same_rest m m' /\ cell m' a = Some (k, v, None)
    /\ (forall q, load m' q = if decide (q = NextOf a) then Some None else if decide (q = src) then Some nx else load m q)
    /\ (forall b, b <> a -> cell m' b = if decide (nx = Some b) then (fun c => (c.1, Some src)) <$> cell m b else cell m b).
Proof.
  intros Ha Hsrc Hne Hnx. unfold hlist_del, __hlist_del. rewrite Ha, bind_Some. cbn [hn_pprev hn_next]. rewrite bind_Some.
  destruct (store_at_spec m src nx Hsrc) as (m1 & -> & R1 & L1 & C1). rewrite bind_Some.
  assert (exists m2, match nx with Some next => set_pprev m1 next (Some src) | None => Some m1 end = Some m2
    /\ same_rest m1 m2 /\ (forall q, load m2 q = load m1 q)
    /\ (forall b, cell m2 b = if decide (nx = Some b) then (fun c => (c.1, Some src)) <$> cell m1 b else cell m1 b))
    as (m2 & -> & R2 & L2 & C2).
  { destruct nx as [b|]; [|by exists m1].
    destruct (set_pprev_spec m1 b (Some src)) as (m2 & -> & R2 & L2 & C2).
    { destruct R1 as (_ & _ & _ & ->). by apply Hnx. }
    exists m2. split; [done|]. split; [done|]. split; [done|]. intros c. rewrite C2. repeat case_decide; congruence. }
  rewrite bind_Some.
  destruct (store_at_spec m2 (NextOf a) None) as (m3 & -> & R3 & L3 & C3).
  { rewrite L2, L1, decide_False by done. cbn. rewrite Ha. eauto. }
  rewrite bind_Some.
  destruct (set_pprev_spec m3 a None) as (m4 & -> & R4 & L4 & C4).
  { apply load_next. rewrite L3, decide_True by done. eauto. }
  exists m4. split; [done|]. split; [eauto using same_rest_trans|]. split; [|split].
  - rewrite C4, decide_True, C3, C2, decide_False, C1 by (done || (intros Hx; by destruct (Hnx a Hx))).
    unfold cell. by rewrite Ha.
  - intros q. by rewrite L4, L3, L2, L1.
  - intros b Hb. by rewrite C4, decide_False, C3, C2, C1.
Qed.

Lemma list_elem_of_middle {A} (x : A) l1 l2 : x ∈ l1 ++ x :: l2.
Proof. apply elem_of_app. right. by left. Qed.

(** Where the node of an entry is linked, and what unlinking it leaves of its chain. *)
Lemma chain_del m l1 a k v l2 : forall src,
  chain m src (l1 ++ (a, k, v) :: l2) -> NoDup (places src (l1 ++ (a, k, v) :: l2)) ->
  NoDup (addrs (l1 ++ (a, k, v) :: l2)) ->
  exists from nx, hm_nodes m !! a = Some (mkNode k v nx (Some from)) /\ from ∈ places src l1
    /\ nx = head (addrs l2)
    /\ forall m', (forall q, q <> NextOf a -> load m' q = if decide (q = from) then Some nx else load m q) ->
         (forall b, b <> a -> cell m' b = if decide (nx = Some b) then (fun c => (c.1, Some from)) <$> cell m b else cell m b) ->
         chain m' src (l1 ++ l2).
Proof.
  induction l1 as [|[[x kx] vx] l1 IH]; intros src.
  - cbn [app chain]. intros (Hs & Hc & Hl) Hp Hnd. pose proof (chain_load _ _ _ Hl) as Hh.
    exists src, (head (addrs l2)). split; [by apply node_eq|]. split; [by left|]. split; [done|].
    intros m' Hload Hcell. apply NoDup_cons in Hp as [Hp1 Hp2]. apply NoDup_cons in Hnd as [Hn1 Hn2].
    assert (Hin : forall e, e ∈ l2 -> addr e <> a /\ NextOf (addr e) <> src).
    { intros e He. split; intros <-; [exact (Hn1 (in_addrs e l2 He)) | exact (Hp1 (in_places e _ l2 He))]. }
    apply (chain_move m m' (NextOf a)); [done|done| | |].
    + rewrite Hload, decide_True by (done || (intros ->; apply Hp1; by left)). done.
    + intros e He. destruct (Hin e He). rewrite Hload, decide_False by congruence. done.
    + intros e He. destruct (Hin e He). rewrite Hcell, Hh by done.
      repeat case_decide; [|congruence..|done].
      destruct l2 as [|[[b kb] vb] l2]; [done|]. cbn in *. destruct Hl as (_ & Hcb & _).
      assert (b = addr e) as Hbe by congruence. rewrite <- Hbe, Hcb. cbn.
      apply elem_of_cons in He as [->|He]; [done|]. exfalso. apply NoDup_cons in Hn2 as [Hn2 _]. apply Hn2.
      rewrite Hbe. by apply in_addrs.
  - cbn [app chain]. intros (Hs & Hc & Hl) [Hp1 Hp2]%NoDup_cons [Hn1 Hn2]%NoDup_cons.
    destruct (IH (NextOf x) Hl Hp2 Hn2) as (from & nx & Ha & Hin & Hnx & Hch).
    exists from, nx. split; [done|]. split; [by right|]. split; [done|]. intros m' Hload Hcell.
    assert (Hxa : x <> a) by (intros ->; apply Hn1, (in_addrs (a, k, v)), list_elem_of_middle).
    split; [|split; [|by apply Hch]].
    + assert (src <> from) by (intros ->; by apply Hp1, places_app).
      assert (src <> NextOf a) by (intros ->; apply Hp1, (in_places (a, k, v)), list_elem_of_middle).
      by rewrite Hload, decide_False.
    + rewrite Hcell, decide_False; [done| |done]. intros Heq. apply Hn1. rewrite Hnx in Heq.
      destruct l2 as [|e l2]; [done|]. cbn in Heq. injection Heq as <-. apply (in_addrs e), elem_of_app. right. right. by left.
Qed.

(** The node of an entry. *)
Lemma chain_node m l1 a k v l2 : forall src,
  chain m src (l1 ++ (a, k, v) :: l2) -> exists from nx, hm_nodes m !! a = Some (mkNode k v nx (Some from)).
Proof.
  induction l1 as [|[[x kx] vx] l1 IH]; intros src; cbn [app chain].
  - intros (_ & Hc & Hl). pose proof (chain_load _ _ _ Hl). eauto using node_eq.
  - intros (_ & _ & Hl). eauto.
Qed.

(** A chain that shares no node with what was changed. *)
Lemma chain_frame m m' j l (touched : Z -> Prop) :
  load m' (Bucket j) = load m (Bucket j) ->
  (forall b, ~ touched b -> load m' (NextOf b) = load m (NextOf b) /\ cell m' b = cell m b) ->
  (forall e, e ∈ l -> ~ touched (addr e)) ->
  chain m (Bucket j) l -> chain m' (Bucket j) l.
Proof.
  intros Hj Hb Hl H. apply (chain_ext m); [done| |intros e He; by apply Hb, Hl].
  intros p [->|(b & -> & (e & -> & He)%list_elem_of_fmap)%list_elem_of_fmap]%elem_of_cons; [done|].
  by apply Hb, Hl.
Qed.

Lemma head_addrs b l : head (addrs l) = Some b -> b ∈ addrs l.
Proof. destruct l; [done|]. intros [= <-]. by left. Qed.

(** A node is allocated and linked in front of a chain: the two views. *)
Lemma add_node_views m i l a k v :
  chain m (Bucket i) l -> a ∉ dom (hm_nodes m) ->
  exists m1 m2, INIT_HLIST_NODE (set_nodes m (<[a := mkNode k v None None]> (hm_nodes m))) a = Some m1
    /\ hlist_add_head m1 a i = Some m2
    /\ hm_capacity m2 = hm_capacity m /\ hm_size m2 = hm_size m /\ hm_freed m2 = hm_freed m
    /\ dom (hm_nodes m2) = {[a]} ∪ dom (hm_nodes m)
    /\ (forall q, load m2 q = if decide (q = Bucket i) then Some (Some a) else if decide (q = NextOf a) then load m (Bucket i) else load m q)
    /\ cell m2 a = Some (k, v, Some (Bucket i))
    /\ (forall b, b <> a -> cell m2 b = if decide (load m (Bucket i) = Some (Some b)) then (fun c => (c.1, Some (NextOf a))) <$> cell m b else cell m b).
Proof.
  intros Hch Ha. pose proof (chain_load _ _ _ Hch) as Hh. pose proof (chain_dom _ _ _ Hch) as Hd. rewrite Forall_forall in Hd.
  set (m0 := set_nodes m _).
  assert (L0 : forall q, q <> NextOf a -> load m0 q = load m q).
  { intros [j|b] Hq; [done|]. cbn. rewrite lookup_insert_ne by congruence. done. }
  assert (C0 : forall b, b <> a -> cell m0 b = cell m b).
  { intros b Hb. unfold cell. cbn. rewrite lookup_insert_ne by congruence. done. }
  assert (E0 : load m0 (NextOf a) = Some None /\ cell m0 a = Some (k, v, None)).
  { unfold cell. cbn. by rewrite lookup_insert_eq. }
  assert (D0 : dom (hm_nodes m0) = {[a]} ∪ dom (hm_nodes m)) by (cbn; apply dom_insert_L). destruct E0 as [E0 F0].
  unfold INIT_HLIST_NODE. destruct (store_at_spec m0 (NextOf a) None) as (m1 & -> & R1 & L1 & C1); [by rewrite E0|].
  rewrite bind_Some. destruct (set_pprev_spec m1 a None) as (m2 & -> & R2 & L2 & C2); [apply load_next; rewrite L1, decide_True; eauto|].
  eexists m2. assert (Hf : first m2 i = Some (head (addrs l))).
  { change (load m2 (Bucket i) = Some (head (addrs l))). by rewrite L2, L1, decide_False, L0. }
  unfold hlist_add_head. rewrite Hf, bind_Some.
  destruct (store_at_spec m2 (NextOf a) (head (addrs l))) as (m3 & -> & R3 & L3 & C3); [rewrite L2, L1, decide_True; eauto|].
  rewrite bind_Some.
  assert (Hhd : forall b, head (addrs l) = Some b -> b ∈ dom (hm_nodes m)).
  { intros b (e & -> & He)%head_addrs%list_elem_of_fmap. by apply Hd. }
  assert (exists m4, match head (addrs l) with Some b => set_pprev m3 b (Some (NextOf a)) | None => Some m3 end = Some m4
    /\ same_rest m3 m4 /\ (forall q, load m4 q = load m3 q)
    /\ (forall b, cell m4 b = if decide (head (addrs l) = Some b) then (fun c => (c.1, Some (NextOf a))) <$> cell m3 b else cell m3 b))
    as (m4 & -> & R4 & L4 & C4).
  { destruct (head (addrs l)) as [b|] eqn:Hb; [|by exists m3].
    destruct (set_pprev_spec m3 b (Some (NextOf a))) as (m4 & -> & R4 & L4 & C4).
    { destruct R1 as (_ & _ & _ & E1), R2 as (_ & _ & _ & E2), R3 as (_ & _ & _ & E3). rewrite E3, E2, E1, D0.
      apply elem_of_union_r. by apply Hhd. }
    exists m4. split; [done|]. split; [done|]. split; [done|]. intros c. rewrite C4. repeat case_decide; congruence. }
  rewrite bind_Some. destruct (store_at_spec m4 (Bucket i) (Some a)) as (m5 & -> & R5 & L5 & C5).
  { rewrite L4, L3, decide_False, L2, L1, decide_False, L0, Hh by done. eauto. }
  rewrite bind_Some. destruct (set_pprev_spec m5 a (Some (Bucket i))) as (m6 & -> & R6 & L6 & C6).
  { apply load_next. rewrite L5, decide_False, L4, L3, decide_True by done. eauto. }
  exists m6. assert (R : same_rest m0 m6) by eauto 6 using same_rest_trans.
  split; [done|]. split; [done|]. destruct R as (Rc & Rs & Rf & Rd).
  split; [by rewrite Rc|]. split; [by rewrite Rs|]. split; [by rewrite Rf|]. split; [by rewrite Rd, D0|].
  split; [|split].
  - intros q. rewrite L6, L5, L4, L3, L2, L1, Hh. repeat case_decide; try done. by apply L0.
  - rewrite C6, decide_True, C5, C4, decide_False, C3, C2, decide_True, C1, F0; try done.
    intros Hx. by apply Ha, Hhd.
  - intros b Hb. assert (E : cell m3 b = cell m b) by (by rewrite C3, C2, decide_False, C1, C0).
    rewrite C6, decide_False, C5, C4, E, Hh by done. repeat case_decide; congruence.
Qed.

Lemma add_node_spec m i l a k v :
  chain m (Bucket i) l -> NoDup (addrs l) -> a ∉ dom (hm_nodes m) ->
  exists m1 m2, INIT_HLIST_NODE (set_nodes m (<[a := mkNode k v None None]> (hm_nodes m))) a = Some m1
    /\ hlist_add_head m1 a i = Some m2
    /\ hm_capacity m2 = hm_capacity m /\ hm_size m2 = hm_size m /\ hm_freed m2 = hm_freed m
    /\ dom (hm_nodes m2) = {[a]} ∪ dom (hm_nodes m)
    /\ chain m2 (Bucket i) ((a, k, v) :: l)
    /\ forall j l', j <> i -> (forall e, e ∈ l' -> addr e ∉ addrs ((a, k, v) :: l)) ->
         chain m (Bucket j) l' -> chain m2 (Bucket j) l'.
Proof.
  intros Hch Hnd Ha. pose proof (chain_load _ _ _ Hch) as Hh.
  destruct (add_node_views m i l a k v Hch Ha) as (m1 & m2 & H1 & H2 & Hc & Hs & Hf & Hd & L & Ca & C).
  exists m1, m2. do 6 (split; [done|]).
  assert (Hal : forall b, b ∈ addrs l -> b <> a).
  { intros b (e & -> & He)%list_elem_of_fmap <-. apply Ha. pose proof (chain_dom _ _ _ Hch) as D. rewrite Forall_forall in D. by apply D. }
  split.
  - cbn [chain]. split; [by rewrite L, decide_True|]. split; [done|].
    apply (chain_move m m2 (Bucket i)); [done|done|by rewrite L, decide_False, decide_True| |].
    + intros e He. pose proof (Hal _ (in_addrs e l He)). rewrite L, !decide_False by congruence. done.
    + intros e He. rewrite C by (by apply Hal, in_addrs). case_decide as Hx; [|done].
      rewrite Hh in Hx. destruct l as [|[[b kb] vb] l]; [done|]. destruct Hch as (_ & Hcb & _).
      cbn in Hx. injection Hx as ->. rewrite Hcb. cbn.
      apply elem_of_cons in He as [->|He]; [done|]. apply NoDup_cons in Hnd as [Hn _].
      by destruct (Hn (in_addrs e l He)).
  - intros j l' Hj Hl'. apply (chain_frame _ _ _ _ (fun b => b ∈ addrs ((a, k, v) :: l))); [| |done].
    + rewrite L, !decide_False by congruence. done.
    + intros b Hb. rewrite addrs_cons, not_elem_of_cons in Hb. destruct Hb as [Hba Hb]. cbn [fst] in Hba.
      rewrite L, C, !decide_False by (done || congruence || (rewrite Hh; intros [= Hx]; by apply Hb, head_addrs)). done.
Qed.

(** The node of an entry is unlinked and freed. *)
Lemma free_entry_spec free_pair m i l1 a k v l2 :
  chain m (Bucket i) (l1 ++ (a, k, v) :: l2) -> NoDup (addrs (l1 ++ (a, k, v) :: l2)) ->
  exists m1 m2, hlist_del m a = Some m1 /\ free_node free_pair m1 a = Some m2
    /\ hm_capacity m2 = hm_capacity m /\ hm_size m2 = hm_size m
    /\ hm_freed m2 = hm_freed m ++ (if free_pair : bool then [(k, v)] else [])
    /\ dom (hm_nodes m2) = dom (hm_nodes m) ∖ {[a]}
    /\ chain m2 (Bucket i) (l1 ++ l2)
    /\ forall j l', j <> i -> (forall e, e ∈ l' -> addr e ∉ addrs (l1 ++ (a, k, v) :: l2)) ->
         chain m (Bucket j) l' -> chain m2 (Bucket j) l'.
Proof.
  intros Hch Hnd. set (l := l1 ++ (a, k, v) :: l2) in *.
  destruct (chain_del m l1 a k v l2 (Bucket i) Hch (places_NoDup _ _ Hnd) Hnd) as (from & nx & Hn & Hfrom & Hnx & Hdel).
  assert (Hin : forall e, e ∈ l2 -> e ∈ l) by (intros e He; apply elem_of_app; right; by right).
  assert (Hb : forall b, nx = Some b -> b ∈ addrs l2) by (intros b ->; by apply head_addrs).
  pose proof (chain_dom _ _ _ Hch) as Hd. rewrite Forall_forall in Hd.
  unfold l in Hnd. rewrite addrs_app, addrs_cons in Hnd. apply NoDup_app in Hnd as (_ & Hn1 & [Hn2 _]%NoDup_cons). cbn [fst] in *.
  assert (Hfa : from <> NextOf a).
  { intros ->. apply elem_of_cons in Hfrom as [?|(b & [= <-] & Hb')%list_elem_of_fmap]; [done|]. apply (Hn1 _ Hb'). by left. }
  destruct (hlist_del_spec m a k v from nx Hn) as (m1 & -> & (Rc & Rs & Rf & Rd) & Ca & L & C); [|done| |].
  - apply elem_of_cons in Hfrom as [->|(b & -> & (e & -> & He)%list_elem_of_fmap)%list_elem_of_fmap].
    + rewrite (chain_load _ _ _ Hch). eauto.
    + apply load_next, Hd, elem_of_app. by left.
  - intros b Hx. specialize (Hb b Hx). split; [|by intros ->].
    apply list_elem_of_fmap in Hb as (e & -> & He). by apply Hd, Hin.
  - exists m1. unfold free_node. unfold cell in Ca. destruct (hm_nodes m1 !! a) as [nd|] eqn:E; [|done].
    injection Ca as <- <- _. rewrite bind_Some. eexists. split; [done|]. split; [done|]. cbn.
    split; [done|]. split; [done|]. split; [rewrite Rf; by destruct free_pair; rewrite ?app_nil_r|].
    split; [by rewrite dom_delete_L, Rd|].
    set (m2 := mkHashmap _ _ _ _ _).
    assert (L2 : forall q, q <> NextOf a -> load m2 q = if decide (q = from) then Some nx else load m q).
    { intros q Hq. transitivity (load m1 q); [|by rewrite L, decide_False].
      destruct q; [done|]. cbn. by rewrite lookup_delete_ne by congruence. }
    assert (C2 : forall b, b <> a -> cell m2 b = if decide (nx = Some b) then (fun c => (c.1, Some from)) <$> cell m b else cell m b).
    { intros b Hba. rewrite <- C by done. unfold cell. cbn. by rewrite lookup_delete_ne. }
    split; [by apply Hdel|]. intros j l' Hj Hl'. apply (chain_frame _ _ _ _ (fun b => b ∈ addrs l)); [| |done].
    + rewrite L2, decide_False; [done| |done]. intros <-. apply elem_of_cons in Hfrom as [?|(b & ? & _)%list_elem_of_fmap]; congruence.
    + intros b Hbl. unfold l in Hbl. rewrite addrs_app, addrs_cons, elem_of_app, elem_of_cons in Hbl.
      assert (b <> a) by (intros ->; apply Hbl; right; by left).
      rewrite L2, C2, !decide_False; [done|..]; try done; try congruence.
      * intros Hx. apply Hbl. right. right. by apply Hb.
      * intros <-. apply elem_of_cons in Hfrom as [?|(c & [= <-] & ?)%list_elem_of_fmap]; [done|]. apply Hbl. by left.
Qed.

(** ** The table as a finite map

    Keys fall into classes: [compare] is 0 on the keys of a class, and the keys of a class
    have the same hash, or all fail to be hashed.  [make_pair] may replace a key by one of its
    class, a copy for one.  [calloc t live] is what the allocator gives after [t] operations
    when the nodes [live] are allocated. *)

Definition contents (class : Z -> Z) (l : list (Z * Z * Z)) : gmap Z (Z * Z) :=
  list_to_map ((fun e => (class (ekey e), (ekey e, e.2))) <$> l).

Definition classes (class : Z -> Z) (l : list (Z * Z * Z)) : list Z := (fun e => class (ekey e)) <$> l.

#[export] Instance addrs_perm : Proper ((≡ₚ) ==> (≡ₚ)) addrs.
Proof. intros l l' Hl. unfold addrs. by rewrite Hl. Qed.

#[export] Instance classes_perm class : Proper ((≡ₚ) ==> (≡ₚ)) (classes class).
Proof. intros l l' Hl. unfold classes. by rewrite Hl. Qed.

Lemma contents_fst class l : (((fun e : Z * Z * Z => (class (ekey e), (ekey e, e.2))) <$> l).*1) = classes class l.
Proof. unfold classes. by rewrite <- list_fmap_compose. Qed.

Lemma contents_perm class l l' : l ≡ₚ l' -> NoDup (classes class l) -> contents class l = contents class l'.
Proof. intros Hp Hnd. apply list_to_map_proper; [by rewrite contents_fst | by rewrite Hp]. Qed.

Lemma contents_cons class a k v l : contents class ((a, k, v) :: l) = <[class k := (k, v)]> (contents class l).
Proof. done. Qed.

Lemma contents_None class l c : contents class l !! c = None <-> c ∉ classes class l.
Proof. unfold contents. by rewrite <- not_elem_of_list_to_map, contents_fst. Qed.

Lemma contents_remove class a k v l :
  NoDup (classes class ((a, k, v) :: l)) ->
  contents class ((a, k, v) :: l) !! class k = Some (k, v) /\ contents class l = delete (class k) (contents class ((a, k, v) :: l)).
Proof.
  intros [Hn _]%NoDup_cons. rewrite contents_cons, lookup_insert_eq. split; [done|].
  rewrite delete_insert_id; [done|]. by apply contents_None.
Qed.

Lemma list_elem_of_concat {A} (cs : list (list A)) x : x ∈ concat cs <-> exists l, l ∈ cs /\ x ∈ l.
Proof. setoid_rewrite list_elem_of_In. apply in_concat. Qed.

(** The entries of one bucket, and the rest. *)
Lemma concat_insert {A} (cs : list (list A)) i l :
  cs !! i = Some l -> exists rest, forall l', concat (<[i := l']> cs) ≡ₚ l' ++ rest.
Proof.
  intros Hi. exists (concat (take i cs) ++ concat (drop (S i) cs)). intros l'.
  rewrite insert_take_drop by (by eapply lookup_lt_Some).
  rewrite concat_app. cbn. rewrite !(Permutation_app_swap_app (concat (take i cs))). done.
Qed.

Lemma concat_replicate_nil {A} n : concat (replicate n (@nil A)) = [].
Proof. by induction n. Qed.

Lemma concat_split {A} (cs : list (list A)) i l1 e l2 :
  cs !! i = Some (l1 ++ e :: l2) -> exists rest, concat cs ≡ₚ e :: rest /\ concat (<[i := l1 ++ l2]> cs) ≡ₚ rest.
Proof.
  intros Hi. destruct (concat_insert cs i _ Hi) as [rest Hp]. exists ((l1 ++ l2) ++ rest). split; [|apply Hp].
  specialize (Hp (l1 ++ e :: l2)). rewrite list_insert_id in Hp by done.
  rewrite Hp, <- !app_assoc. symmetry. apply Permutation_middle.
Qed.

Section table.
Context (make_pair : option (Z -> Z -> Z * Z * Z)) (free_pair : bool) (compare : Z -> Z -> Z) (hash_of : Z -> Z * Z).
Context (class : Z -> Z).
Hypothesis compare_class : forall a b, compare a b = 0 <-> class a = class b.
Hypothesis hash_class : forall a b, class a = class b -> hash_of a = hash_of b.
Hypothesis make_pair_class : forall f k v k' v', make_pair = Some f -> f k v = (0, k', v') -> class k' = class k.

Record hashmap_ok (m : hashmap_t) (cs : list (list (Z * Z * Z))) : Prop := {
  ok_capacity : 0 < hm_capacity m;
  ok_buckets : zlen cs = hm_capacity m;
  ok_chain : forall i l, cs !! i = Some l -> chain m (Bucket (Z.of_nat i)) l;
  ok_addrs : NoDup (addrs (concat cs));
  ok_dom : dom (hm_nodes m) = list_to_set (addrs (concat cs));
  ok_hash : forall i l e, cs !! i = Some l -> e ∈ l ->
    (hash_of (ekey e)).1 = 0 /\ (hash_of (ekey e)).2 mod hm_capacity m = Z.of_nat i;
  ok_classes : NoDup (classes class (concat cs))
}.

Lemma ok_addrs_bucket m cs i l : hashmap_ok m cs -> cs !! i = Some l -> NoDup (addrs l).
Proof.
  intros [] Hi. destruct (concat_insert cs i l Hi) as [rest Hp]. specialize (Hp l). rewrite list_insert_id in Hp by done.
  rewrite Hp, addrs_app in ok_addrs0. by apply NoDup_app in ok_addrs0 as (? & _).
Qed.

(** Entries of different buckets are different nodes. *)
Lemma ok_addrs_disjoint m cs i l : hashmap_ok m cs -> cs !! i = Some l ->
  forall j l' e, j <> i -> cs !! j = Some l' -> e ∈ l' -> addr e ∉ addrs l.
Proof.
  intros [] Hi j l' e Hj Hl' He Hin. destruct (concat_insert cs i l Hi) as [rest Hp].
  pose proof (Hp l) as Hl. rewrite list_insert_id in Hl by done.
  rewrite Hl, addrs_app in ok_addrs0. apply NoDup_app in ok_addrs0 as (_ & Hd & _). apply (Hd _ Hin), in_addrs.
  assert (Hx : e ∈ concat (<[i := []]> cs)).
  { apply list_elem_of_concat. exists l'. split; [|done]. apply list_elem_of_lookup. exists j. by rewrite list_lookup_insert_ne by congruence. }
  by rewrite (Hp []) in Hx.
Qed.

(** The walk finds the entry of the class, and ends with the number of nodes as fuel. *)
Lemma find_node_chain m key l : forall fuel src pos,
  chain m src l -> load m src = Some pos -> (length l <= fuel)%nat ->
  (exists l1 a k v l2, l = l1 ++ (a, k, v) :: l2 /\ class k = class key /\ find_node fuel compare m pos key = Some (Some a))
  \/ ((class key ∉ classes class l) /\ find_node fuel compare m pos key = Some None).
Proof.
  induction l as [|[[a k] v] l IH]; intros fuel src pos; cbn [chain].
  - intros -> [= <-] _. right. split; [apply not_elem_of_nil|]. by destruct fuel.
  - intros (Hs & Hc & Hl) Hpos Hf. rewrite Hs in Hpos. injection Hpos as <-.
    destruct fuel as [|fuel]; [cbn in Hf; lia|]. pose proof (chain_load _ _ _ Hl) as Hnx.
    cbn [find_node]. rewrite (node_eq _ _ _ _ _ _ Hnx Hc), bind_Some. cbn [hn_key hn_next].
    destruct (Z.eqb_spec (compare k key) 0) as [E|E].
    + left. exists [], a, k, v, l. split; [done|]. split; [by apply compare_class|done].
    + destruct (IH fuel (NextOf a) _ Hl Hnx) as [(l1 & a' & k' & v' & l2 & -> & Hk & Hf')|[Hk Hf']]; [cbn in Hf; lia| |].
      * left. by exists ((a, k, v) :: l1), a', k', v', l2.
      * right. split; [|done]. apply not_elem_of_cons. split; [|done]. cbn. intros Hx. by apply E, compare_class.
Qed.

Lemma ok_fuel m cs i l : hashmap_ok m cs -> cs !! i = Some l -> (length l <= size (hm_nodes m))%nat.
Proof.
  intros Hok Hi. pose proof (ok_addrs _ _ Hok) as Hnd. destruct (concat_insert cs i l Hi) as [rest Hp].
  specialize (Hp l). rewrite list_insert_id in Hp by done.
  rewrite <- size_dom, (ok_dom _ _ Hok), size_list_to_set by done.
  unfold addrs. rewrite length_fmap, Hp, length_app. lia.
Qed.

(** The bucket of a key that can be hashed, and what the walk along it says of the contents. *)
Lemma bucket_of m cs key :
  hashmap_ok m cs -> (hash_of key).1 = 0 ->
  exists i l, Z.of_nat i = (hash_of key).2 mod hm_capacity m /\ cs !! i = Some l
    /\ first m (Z.of_nat i) = Some (head (addrs l))
    /\ ((exists l1 a k v l2, l = l1 ++ (a, k, v) :: l2 /\ class k = class key
           /\ find_node (size (hm_nodes m)) compare m (head (addrs l)) key = Some (Some a)
           /\ contents class (concat cs) !! class key = Some (k, v))
        \/ (find_node (size (hm_nodes m)) compare m (head (addrs l)) key = Some None
            /\ contents class (concat cs) !! class key = None)).
Proof.
  intros Hok Hh. pose proof (ok_capacity _ _ Hok) as Hcap. pose proof (ok_buckets _ _ Hok) as Hlen.
  pose proof (Z.mod_pos_bound (hash_of key).2 (hm_capacity m) Hcap) as Hb.
  exists (Z.to_nat ((hash_of key).2 mod hm_capacity m)).
  destruct (lookup_lt_is_Some_2 cs (Z.to_nat ((hash_of key).2 mod hm_capacity m))) as [l Hl]; [lia|].
  set (i := Z.to_nat _) in *. exists l. split; [lia|]. split; [done|].
  pose proof (ok_chain _ _ Hok i l Hl) as Hch. pose proof (chain_load _ _ _ Hch) as Hld. split; [done|].
  destruct (concat_insert cs i l Hl) as [rest Hp]. pose proof (Hp l) as Hpl. rewrite list_insert_id in Hpl by done.
  destruct (find_node_chain m key l (size (hm_nodes m)) _ _ Hch Hld (ok_fuel _ _ _ _ Hok Hl))
    as [(l1 & a & k & v & l2 & -> & Hk & Hf)|[Hk Hf]]; [left | right].
  - exists l1, a, k, v, l2. split; [done|]. split; [done|]. split; [done|].
    destruct (concat_split cs i l1 (a, k, v) l2 Hl) as (rest' & Hp' & _).
    rewrite (contents_perm _ _ _ Hp'), <- Hk by apply Hok. apply contents_remove.
    rewrite <- Hp'. apply Hok.
  - split; [done|]. apply contents_None. intros (e & He & Hin)%list_elem_of_fmap. apply Hk.
    apply list_elem_of_concat in Hin as (l' & [j Hj]%list_elem_of_lookup & Hin).
    destruct (ok_hash _ _ Hok j l' e Hj Hin) as [_ Hx]. rewrite (hash_class (ekey e) key) in Hx by done.
    assert (j = i) as -> by (unfold i; lia). replace l' with l in Hin by congruence.
    rewrite He. unfold classes. by apply (list_elem_of_fmap_2 (fun e => class (ekey e))).
Qed.

(** What [lookup] returns. *)
Lemma lookup_node_spec m cs key : hashmap_ok m cs ->
  match contents class (concat cs) !! class key with
  | Some (k, v) => (hash_of key).1 = 0 ->
      exists i l1 a l2, cs !! i = Some (l1 ++ (a, k, v) :: l2) /\ class k = class key
        /\ lookup_node hash_of compare m key = Some (Some a)
  | None => lookup_node hash_of compare m key = Some None
  end /\ ((hash_of key).1 <> 0 -> lookup_node hash_of compare m key = Some None).
Proof.
  intros Hok. unfold lookup_node.
  destruct (decide ((hash_of key).1 = 0)) as [Hh|Hh].
  - destruct (bucket_of m cs key Hok Hh) as (i & l & Hi & Hl & Hf & H).
    destruct (hash_of key) as [err hash]. cbn [fst snd] in *. zfalse (negb (err =? 0)). rewrite <- Hi.
    unfold hlist_empty. rewrite Hf, !bind_Some.
    destruct l as [|e l].
    + destruct H as [(l1 & a & k & v & l2 & Hx & _)|[_ ->]]; [by destruct l1|]. done.
    + rewrite bool_decide_false by done.
      destruct H as [(l1 & a & k & v & l2 & Hx & Hk & Hn & ->)|[Hn ->]]; (split; [|done]); [|done].
      intros _. exists i, l1, a, l2. rewrite <- Hx. done.
  - destruct (hash_of key) as [err hash]. cbn [fst snd] in *. ztrue (negb (err =? 0)). split; [|done].
    destruct (_ !! _) as [[]|]; done.
Qed.

(** Unlinking and freeing an entry. *)
Lemma free_entry_ok m cs i l1 a k v l2 :
  hashmap_ok m cs -> cs !! i = Some (l1 ++ (a, k, v) :: l2) ->
  exists m1 m2, hlist_del m a = Some m1 /\ free_node free_pair m1 a = Some m2
    /\ hashmap_ok m2 (<[i := l1 ++ l2]> cs) /\ hm_capacity m2 = hm_capacity m /\ hm_size m2 = hm_size m
    /\ hm_freed m2 = hm_freed m ++ (if free_pair then [(k, v)] else []).
Proof.
  intros Hok Hi. pose proof (ok_addrs_bucket _ _ _ _ Hok Hi) as Hnd. pose proof (ok_addrs_disjoint _ _ _ _ Hok Hi) as Hdis.
  destruct (concat_split cs i l1 _ l2 Hi) as (rest & Hp & Hp'). destruct Hok.
  destruct (free_entry_spec free_pair m (Z.of_nat i) l1 a k v l2) as (m1 & m2 & Hd & Hf & Hc & Hs & Hfr & Hdom & Hch & Hframe); [auto..|].
  exists m1, m2. split; [done|]. split; [done|]. split; [|done].
  rewrite Hp, addrs_cons in ok_addrs0. apply NoDup_cons in ok_addrs0 as [Ha Hrest].
  assert (Hi' : (i < length cs)%nat) by (by eapply lookup_lt_Some).
  constructor.
  - by rewrite Hc.
  - by rewrite length_insert, Hc.
  - intros j l. destruct (decide (i = j)) as [<-|Hj]; [rewrite list_lookup_insert_eq by done; by intros [= <-]|].
    rewrite list_lookup_insert_ne by done. intros Hl. apply Hframe; [lia| |auto]. intros e He. by eapply Hdis.
  - by rewrite Hp'.
  - rewrite Hdom, ok_dom0, Hp, Hp', addrs_cons. cbn [fst list_to_set].
    assert (Hna : a ∉@{gset Z} list_to_set (addrs rest)) by (by rewrite elem_of_list_to_set). 
    apply set_eq. intros x. rewrite elem_of_difference, elem_of_union, elem_of_singleton. split; [tauto|].
    intros Hx. split; [by right|]. by intros ->.
  - intros j l e. rewrite Hc. destruct (decide (i = j)) as [<-|Hj].
    + rewrite list_lookup_insert_eq by done. intros [= <-] He. apply (ok_hash0 i _ e Hi). rewrite elem_of_app, elem_of_cons in *. tauto.
    + rewrite list_lookup_insert_ne by done. apply ok_hash0.
  - rewrite Hp'. rewrite Hp in ok_classes0. by apply NoDup_cons in ok_classes0 as [_ ?].
Qed.

(** Linking a new entry. *)
Lemma add_entry_ok m cs i l a k v :
  hashmap_ok m cs -> cs !! i = Some l -> a ∉ dom (hm_nodes m) ->
  (hash_of k).1 = 0 -> (hash_of k).2 mod hm_capacity m = Z.of_nat i ->
  contents class (concat cs) !! class k = None ->
  exists m1 m2, INIT_HLIST_NODE (set_nodes m (<[a := mkNode k v None None]> (hm_nodes m))) a = Some m1
    /\ hlist_add_head m1 a (Z.of_nat i) = Some m2
    /\ hashmap_ok m2 (<[i := (a, k, v) :: l]> cs) /\ hm_size m2 = hm_size m /\ hm_freed m2 = hm_freed m.
Proof.
  intros Hok Hi Ha He Hh Hnone. pose proof (ok_addrs_bucket _ _ _ _ Hok Hi) as Hnd.
  pose proof (ok_addrs_disjoint _ _ _ _ Hok Hi) as Hdis.
  destruct (concat_insert cs i l Hi) as [rest Hp]. pose proof (Hp l) as Hpl. rewrite list_insert_id in Hpl by done.
  specialize (Hp ((a, k, v) :: l)). rewrite contents_None, Hpl in Hnone. destruct Hok.
  destruct (add_node_spec m (Z.of_nat i) l a k v) as (m1 & m2 & H1 & H2 & Hc & Hs & Hfr & Hdom & Hch & Hframe); [auto..|].
  exists m1, m2. split; [done|]. split; [done|]. split; [|done].
  assert (Hi' : (i < length cs)%nat) by (by eapply lookup_lt_Some).
  constructor.
  - by rewrite Hc.
  - by rewrite length_insert, Hc.
  - intros j l'. destruct (decide (i = j)) as [<-|Hj]; [rewrite list_lookup_insert_eq by done; by intros [= <-]|].
    rewrite list_lookup_insert_ne by done. intros Hl. apply Hframe; [lia| |auto]. intros e Hin.
    rewrite addrs_cons, not_elem_of_cons. cbn [fst]. split; [|by eapply Hdis].
    intros <-. apply Ha. pose proof (chain_dom _ _ _ (ok_chain0 _ _ Hl)) as D. rewrite Forall_forall in D. by apply D.
  - rewrite Hp. cbn [app]. rewrite addrs_cons. apply NoDup_cons. rewrite <- Hpl. split; [|done]. cbn.
    by rewrite ok_dom0, elem_of_list_to_set in Ha.
  - rewrite Hdom, ok_dom0, Hp, Hpl. done.
  - intros j l' e. rewrite Hc. destruct (decide (i = j)) as [<-|Hj].
    + rewrite list_lookup_insert_eq by done. intros [= <-] [->|Hin]%elem_of_cons; [done|]. by apply (ok_hash0 i l e).
    + rewrite list_lookup_insert_ne by done. apply ok_hash0.
  - rewrite Hp. cbn [app]. apply NoDup_cons. split; [done|]. by rewrite <- Hpl.
Qed.

Lemma set_size_ok m cs n : hashmap_ok m cs -> hashmap_ok (set_size m n) cs.
Proof. intros []. constructor; try done. intros i l Hl. by apply (chain_ext m); [auto|..]. Qed.

(** The pairs of a map, as [free_pair] is called with them. *)
Definition pairs (l : list (Z * Z * Z)) : list (Z * Z) := (fun e => (ekey e, e.2)) <$> l.

Lemma pairs_contents l : NoDup (classes class l) -> pairs l ≡ₚ (map_to_list (contents class l)).*2.
Proof.
  intros Hnd. unfold contents. rewrite map_to_list_to_map by (by rewrite contents_fst).
  unfold pairs. by rewrite <- list_fmap_compose.
Qed.

Lemma clear_chain_spec cs i : forall l m fuel,
  hashmap_ok m cs -> cs !! i = Some l -> (length l <= fuel)%nat ->
  exists m', clear_chain free_pair fuel m (head (addrs l)) = Some m'
    /\ hashmap_ok m' (<[i := []]> cs) /\ hm_capacity m' = hm_capacity m /\ hm_size m' = hm_size m
    /\ hm_freed m' = hm_freed m ++ (if free_pair then pairs l else []).
Proof.
  intros l. revert cs. induction l as [|[[a k] v] l IH]; intros cs m fuel Hok Hi Hf.
  - exists m. split; [by destruct fuel|]. rewrite list_insert_id by done. split; [done|].
    by destruct free_pair; cbn; rewrite app_nil_r.
  - destruct fuel as [|fuel]; [cbn in Hf; lia|]. cbn [head addrs fmap list_fmap clear_chain]. change (addr (a, k, v)) with a.
    destruct (ok_chain _ _ Hok i _ Hi) as (Hs & Hc & Hl). pose proof (chain_load _ _ _ Hl) as Hnx.
    rewrite (node_eq _ _ _ _ _ _ Hnx Hc), bind_Some. cbn [hn_next].
    destruct (free_entry_ok m cs i [] a k v l Hok Hi) as (m1 & m2 & -> & E2 & Hok2 & Hc2 & Hs2 & Hf2). rewrite !bind_Some, E2, bind_Some.
    destruct (IH (<[i := l]> cs) m2 fuel) as (m' & -> & Hok' & Hc' & Hs' & Hf'); [done| |cbn in Hf; lia|].
    { apply list_lookup_insert_eq. by eapply lookup_lt_Some. }
    exists m'. split; [done|]. rewrite list_insert_insert_eq in Hok'. split; [done|]. split; [congruence|]. split; [congruence|].
    rewrite Hf', Hf2, <- app_assoc. by destruct free_pair.
Qed.

Lemma hashmap_clear_spec m cs : hashmap_ok m cs ->
  exists m', hashmap_clear free_pair m = Some (0, m') /\ hashmap_ok m' (replicate (length cs) [])
    /\ hm_size m' = hm_size m /\ hm_freed m' = hm_freed m ++ (if free_pair then pairs (concat cs) else []).
Proof.
  intros Hok. pose proof (ok_buckets _ _ Hok) as Hlen. pose proof (ok_capacity _ _ Hok) as Hcap.
  assert (Ht : is_Some (hm_table m)).
  { destruct (lookup_lt_is_Some_2 cs 0%nat) as [l Hl]; [lia|]. pose proof (chain_load _ _ _ (ok_chain _ _ Hok _ _ Hl)) as Hx.
    cbn in Hx. unfold first in Hx. destruct (hm_table m); [eauto|done]. }
  destruct Ht as [t Ht]. unfold hashmap_clear. rewrite Ht.
  destruct (for_range_inv (fun i m' => let n := Z.to_nat i in
      hashmap_ok m' (replicate n [] ++ drop n cs) /\ hm_size m' = hm_size m
      /\ hm_freed m' = hm_freed m ++ (if free_pair then pairs (concat (take n cs)) else []))
    (fun i m => pos ← first m i; clear_chain free_pair (size (hm_nodes m)) m pos) (Z.to_nat (hm_capacity m)) 0 m)
    as (m' & -> & Hok' & Hs & Hf).
  - intros i m1 Hi (Hok1 & Hs1 & Hf1). destruct (lookup_lt_is_Some_2 cs (Z.to_nat i)) as [l Hl]; [lia|].
    assert (Hi1 : (replicate (Z.to_nat i) [] ++ drop (Z.to_nat i) cs) !! Z.to_nat i = Some l).
    { rewrite lookup_app_r by (by rewrite length_replicate). rewrite length_replicate, lookup_drop. by rewrite Nat.sub_diag, Nat.add_0_r. }
    pose proof (chain_load _ _ _ (ok_chain _ _ Hok1 _ _ Hi1)) as Hfirst. rewrite Z2Nat.id in Hfirst by lia.
    cbn [load] in Hfirst. rewrite Hfirst, bind_Some.
    destruct (clear_chain_spec _ _ l m1 (size (hm_nodes m1)) Hok1 Hi1 (ok_fuel _ _ _ _ Hok1 Hi1)) as (m2 & -> & Hok2 & _ & Hs2 & Hf2).
    exists m2. split; [done|]. replace (Z.to_nat (i + 1)) with (S (Z.to_nat i)) by lia. split; [|split; [congruence|]].
    + rewrite insert_app_r_alt, length_replicate, Nat.sub_diag in Hok2 by (by rewrite length_replicate).
      rewrite (drop_S _ l) in Hok2 by done. cbn [insert list_insert] in Hok2. by rewrite replicate_S_end, <- app_assoc.
    + rewrite Hf2, Hf1, <- app_assoc, (take_S_r _ _ l), concat_app by done. cbn [concat]. rewrite app_nil_r.
      destruct free_pair; [|done]. unfold pairs. by rewrite fmap_app.
  - cbn. rewrite take_0. cbn. by destruct free_pair; rewrite app_nil_r.
  - exists m'. split; [done|].
    replace (Z.to_nat (0 + Z.of_nat (Z.to_nat (hm_capacity m)))) with (length cs) in * by lia.
    rewrite drop_all, app_nil_r in Hok'. rewrite take_ge in Hf by lia. done.
Qed.

(** ** Sessions

    The abstract state: the pair of each class that has one, the number [hashmap_size] gives,
    the pairs handed to [free_pair] so far. *)

Inductive hm_op := OInsert (k v : Z) | ORemove (k : Z) | OLookup (k : Z) | OClear.

Record hm_spec := mkSpec { sp_map : gmap Z (Z * Z); sp_size : Z; sp_freed : list (Z * Z) }.

Section session.
Context (calloc : nat -> option (gset Z -> Z)).
Hypothesis calloc_fresh : forall t f live, calloc t = Some f -> f live ∉ live.

(** What the operation returns, with the pair whose value a lookup hands out. *)
Definition run_op (t : nat) (op : hm_op) (m : hashmap_t) : option (Z * option (Z * Z) * hashmap_t) :=
  match op with
  | OInsert k v =>
      '(r, m) ← hashmap_insert make_pair (Some compare) (Some hash_of) m k v ((fun f => f (dom (hm_nodes m))) <$> calloc t);
      Some (r, None, m)
  | ORemove k => '(r, m) ← hashmap_remove free_pair (Some compare) (Some hash_of) m k; Some (r, None, m)
  | OLookup k =>
      '(r, node) ← hashmap_lookup (Some compare) (Some hash_of) m k;
      match node with
      | Some a => nd ← hm_nodes m !! a; Some (r, Some (hn_key nd, hn_value nd), m)
      | None => Some (r, None, m)
      end
  | OClear => '(r, m) ← hashmap_clear free_pair m; Some (r, None, m)
  end.

Definition spec_op (t : nat) (op : hm_op) (s : hm_spec) : Z * option (Z * Z) * hm_spec :=
  match op with
  | OInsert k v =>
      if negb ((hash_of k).1 =? 0) then (-1, None, s)
      else match sp_map s !! class k, calloc t with
      | Some _, _ | None, None => (-1, None, s)
      | None, Some _ =>
          let '(err, k', v') := match make_pair with Some f => f k v | None => (0, k, v) end in
          if negb (err =? 0) then (err, None, s)
          else (0, None, mkSpec (<[class k := (k', v')]> (sp_map s)) (u32 (sp_size s + 1)) (sp_freed s))
      end
  | ORemove k =>
      match (if (hash_of k).1 =? 0 then sp_map s !! class k else None) with
      | None => (-1, None, s)
      | Some p => (0, None, mkSpec (delete (class k) (sp_map s)) (u32 (sp_size s - 1))
                              (sp_freed s ++ if free_pair then [p] else []))
      end
  | OLookup k =>
      match (if (hash_of k).1 =? 0 then sp_map s !! class k else None) with
      | None => (-1, None, s)
      | Some p => (0, Some p, s)
      end
  | OClear => (0, None, mkSpec ∅ (sp_size s) (sp_freed s ++ if free_pair then (map_to_list (sp_map s)).*2 else []))
  end.

Fixpoint run_ops (t : nat) (ops : list hm_op) (m : hashmap_t) : option (list (Z * option (Z * Z)) * hashmap_t) :=
  match ops with
  | [] => Some ([], m)
  | op :: ops => '(r, m) ← run_op t op m; '(rs, m) ← run_ops (S t) ops m; Some (r :: rs, m)
  end.

Fixpoint spec_ops (t : nat) (ops : list hm_op) (s : hm_spec) : list (Z * option (Z * Z)) * hm_spec :=
  match ops with
  | [] => ([], s)
  | op :: ops => let '(r, s) := spec_op t op s in let '(rs, s) := spec_ops (S t) ops s in (r :: rs, s)
  end.

Definition represents (m : hashmap_t) (s : hm_spec) : Prop :=
  exists cs, hashmap_ok m cs /\ sp_map s = contents class (concat cs) /\ sp_size s = hm_size m /\ sp_freed s ≡ₚ hm_freed m.

Lemma insert_refines t k v m s : represents m s ->
  exists r m', run_op t (OInsert k v) m = Some (r, m') /\ r = (spec_op t (OInsert k v) s).1
    /\ represents m' (spec_op t (OInsert k v) s).2.
Proof.
  intros (cs & Hok & Hm & Hs & Hf). unfold run_op, spec_op, hashmap_insert. rewrite Hm.
  assert (Hrep : represents m s) by (exists cs; done).
  destruct (decide ((hash_of k).1 = 0)) as [Hh|Hh].
  2:{ destruct (hash_of k) as [err hash]. cbn [fst] in *. ztrue (negb (err =? 0)). eauto. }
  destruct (bucket_of m cs k Hok Hh) as (i & l & Hi & Hl & Hfi & H). pose proof Hh as Hh'.
  destruct (hash_of k) as [err hash] eqn:Ehash. cbn [fst snd] in *. zfalse (negb (err =? 0)). rewrite <- Hi.
  unfold hlist_empty. rewrite Hfi, !bind_Some.
  match goal with |- context [if negb ?b then find_node ?n ?c ?m ?p ?q else Some None] =>
    assert ((if negb b then find_node n c m p q else Some None) = find_node n c m p q) as -> end.
  { destruct l as [|e l]; [by destruct (size (hm_nodes m))|]. by rewrite bool_decide_false. }
  destruct H as [(l1 & a & k1 & v1 & l2 & _ & _ & -> & ->)|[-> Hnone]]; rewrite bind_Some; [eauto|].
  rewrite Hnone. destruct (calloc t) as [f|] eqn:Ef; cbn [fmap option_fmap option_map]; [|eauto].
  pose proof (calloc_fresh t f (dom (hm_nodes m)) Ef) as Hfresh. set (a := f _) in *.
  destruct (match make_pair with Some f => f k v | None => (0, k, v) end) as [[err' k'] v'] eqn:Ep.
  destruct (Z.eqb_spec err' 0) as [->|He]; cbn [negb]; [|rewrite bind_Some; eauto].
  assert (Hk : class k' = class k).
  { destruct make_pair as [g|] eqn:Eg; [by eapply make_pair_class | congruence]. }
  assert (Hh2 : hash_of k' = (err, hash)) by (rewrite <- Ehash; by apply hash_class).
  destruct (add_entry_ok m cs i l a k' v' Hok Hl Hfresh) as (m1 & m2 & -> & E2 & Hok2 & Hs2 & Hf2).
  { by rewrite Hh2. } { by rewrite Hh2. } { by rewrite Hk. }
  rewrite bind_Some, E2, !bind_Some. eexists _, _. split; [done|]. split; [done|]. eexists. split; [by apply set_size_ok|].
  cbn. split; [|split; [by rewrite Hs, Hs2|by rewrite Hf2]].
  destruct (concat_insert cs i l Hl) as [rest Hp]. pose proof (Hp l) as Hpl. rewrite list_insert_id in Hpl by done.
  specialize (Hp ((a, k', v') :: l)).
  rewrite (contents_perm class _ _ Hp) by apply Hok2. cbn [app]. rewrite contents_cons, Hk. f_equal.
  apply contents_perm; [done|apply Hok].
Qed.

Lemma remove_refines t k m s : represents m s ->
  exists r m', run_op t (ORemove k) m = Some (r, m') /\ r = (spec_op t (ORemove k) s).1
    /\ represents m' (spec_op t (ORemove k) s).2.
Proof.
  intros (cs & Hok & Hm & Hs & Hf). unfold run_op, spec_op, hashmap_remove. rewrite Hm.
  assert (Hrep : represents m s) by (exists cs; done).
  destruct (lookup_node_spec m cs k Hok) as [H1 H2].
  destruct (Z.eqb_spec (hash_of k).1 0) as [Hh|Hh]; [|rewrite H2 by done; rewrite !bind_Some; eauto].
  destruct (contents class (concat cs) !! class k) as [[k1 v1]|] eqn:E; [|rewrite H1, !bind_Some; eauto].
  destruct (H1 Hh) as (i & l1 & a & l2 & Hi & Hk & ->). rewrite bind_Some.
  destruct (free_entry_ok m cs i l1 a k1 v1 l2 Hok Hi) as (m1 & m2 & -> & E2 & Hok2 & _ & Hs2 & Hf2).
  rewrite !bind_Some, E2, !bind_Some. eexists _, _. split; [done|]. split; [done|]. eexists. split; [by apply set_size_ok|].
  cbn. split; [|split; [by rewrite Hs, Hs2|by rewrite Hf2, Hf]].
  destruct (concat_split cs i l1 _ l2 Hi) as (rest & Hp & Hp').
  pose proof (ok_classes _ _ Hok) as Hnd. rewrite (contents_perm class _ _ Hp) by done. rewrite Hp in Hnd.
  rewrite (contents_perm class _ _ Hp') by apply Hok2. rewrite <- Hk.
  symmetry. apply (contents_remove class a k1 v1 rest Hnd).
Qed.

Lemma lookup_refines t k m s : represents m s ->
  exists r m', run_op t (OLookup k) m = Some (r, m') /\ r = (spec_op t (OLookup k) s).1
    /\ represents m' (spec_op t (OLookup k) s).2.
Proof.
  intros (cs & Hok & Hm & Hs & Hf). unfold run_op, spec_op, hashmap_lookup. rewrite Hm.
  assert (Hrep : represents m s) by (exists cs; done).
  destruct (lookup_node_spec m cs k Hok) as [H1 H2].
  destruct (Z.eqb_spec (hash_of k).1 0) as [Hh|Hh]; [|rewrite H2 by done; rewrite !bind_Some; eauto].
  destruct (contents class (concat cs) !! class k) as [[k1 v1]|] eqn:E; [|rewrite H1, !bind_Some; eauto].
  destruct (H1 Hh) as (i & l1 & a & l2 & Hi & Hk & ->). rewrite !bind_Some.
  destruct (chain_node m l1 a k1 v1 l2 _ (ok_chain _ _ Hok _ _ Hi)) as (src & nx & ->). rewrite bind_Some. eauto.
Qed.

Lemma clear_refines t m s : represents m s ->
  exists r m', run_op t OClear m = Some (r, m') /\ r = (spec_op t OClear s).1 /\ represents m' (spec_op t OClear s).2.
Proof.
  intros (cs & Hok & Hm & Hs & Hf). unfold run_op, spec_op.
  destruct (hashmap_clear_spec m cs Hok) as (m' & -> & Hok' & Hs' & Hf'). rewrite bind_Some.
  eexists _, _. split; [done|]. split; [done|]. exists (replicate (length cs) []). split; [done|]. cbn [fst snd sp_map sp_size sp_freed].
  split; [|split; [congruence|]].
  - by rewrite concat_replicate_nil.
  - rewrite Hf', Hf, Hm. destruct free_pair; [|done]. by rewrite pairs_contents by apply Hok.
Qed.

Lemma run_op_refines t op m s : represents m s ->
  exists r m', run_op t op m = Some (r, m') /\ r = (spec_op t op s).1 /\ represents m' (spec_op t op s).2.
Proof. destruct op; [apply insert_refines | apply remove_refines | apply lookup_refines | apply clear_refines]. Qed.

Lemma run_ops_refines ops : forall t m s, represents m s ->
  exists m', run_ops t ops m = Some ((spec_ops t ops s).1, m') /\ represents m' (spec_ops t ops s).2.
Proof.
  induction ops as [|op ops IH]; intros t m s Hr; cbn [run_ops spec_ops]; [eauto|].
  destruct (run_op_refines t op m s Hr) as (r & m1 & -> & -> & Hr1). rewrite bind_Some.
  destruct (spec_op t op s) as [r1 s1]. cbn [fst snd] in *. destruct (IH (S t) m1 s1 Hr1) as (m' & -> & Hr'). rewrite bind_Some.
  destruct (spec_ops (S t) ops s1) as [rs s2]. eauto.
Qed.

(** A table [hashmap_init] has set up. *)
Lemma init_represents capacity m :
  0 <= capacity -> hashmap_init capacity true = (0, Some m) -> represents m (mkSpec ∅ 0 []).
Proof.
  intros Hcap. unfold hashmap_init. case_if; [done|]. intros [= <-]. zbool.
  pose proof (concat_replicate_nil (A := Z * Z * Z) (Z.to_nat capacity)) as Hc.
  exists (replicate (Z.to_nat capacity) []). split; [|cbn; by rewrite Hc].
  constructor; rewrite ?Hc; cbn.
  - lia.
  - rewrite length_replicate. lia.
  - intros i l [-> Hi]%lookup_replicate. cbn. unfold first. cbn. rewrite znth_of_nat. by apply lookup_replicate_2.
  - apply NoDup_nil_2.
  - by rewrite dom_empty_L.
  - intros i l e [-> _]%lookup_replicate He. by apply elem_of_nil in He.
  - apply NoDup_nil_2.
Qed.

(** C27: a table set up by hashmap_init and put through any sequence of insertions, removals,
    lookups and clearings behaves as a finite map from classes of keys to pairs: each
    operation returns what the map says (an insertion is refused when the key cannot be
    hashed, its class is there, memory runs out or make_pair fails; removal and lookup fail
    when the class is absent), a lookup hands out the pair that was inserted, the size is the
    number the operations counted (which clearing leaves alone), and the pairs removed or
    cleared are those given to free_pair.  No access is outside an allocated node, and the
    walks along the chains end. *)
Theorem hashmap_session capacity m ops :
  0 <= capacity -> hashmap_init capacity true = (0, Some m) ->
  exists m', run_ops 0 ops m = Some ((spec_ops 0 ops (mkSpec ∅ 0 [])).1, m')
    /\ represents m' (spec_ops 0 ops (mkSpec ∅ 0 [])).2.
Proof. intros Hcap Hinit. by apply run_ops_refines, (init_represents capacity). Qed.
End session.
End table.

(** Keys compared and hashed as numbers. *)
Definition num_compare (a b : Z) : Z := a - b.
Definition num_hash (k : Z) : Z * Z := (0, k).

Definition sample_insert (k v a : Z) (m : hashmap_t) : option hashmap_t :=
  r ← hashmap_insert None (Some num_compare) (Some num_hash) m k v (Some a); Some r.2.

(** [hashmap_clear] leaves the size, so that the empty map is not empty. *)
Example clear_keeps_size :
  (m ← (hashmap_init 4 true).2; m ← sample_insert 1 10 100 m; m ← sample_insert 5 50 500 m; m ← sample_insert 2 20 200 m;
   r ← hashmap_clear true m; Some (hashmap_size (Some r.2), hm_table r.2, hm_freed r.2, size (hm_nodes r.2)))
  = Some (3, Some [None; None; None; None], [(5, 50); (1, 10); (2, 20)], 0%nat).
Proof. by vm_compute. Qed.

(** Keys that are equal modulo 100 are the same key; the allocator gives a fresh address,
    and fails at the second operation. *)
Definition mod_compare (a b : Z) : Z := a mod 100 - b mod 100.
Definition mod_hash (k : Z) : Z * Z := (0, k mod 100).
Definition sample_calloc (t : nat) : option (gset Z -> Z) := if bool_decide (t = 1%nat) then None else Some fresh.
Definition sample_ops : list hm_op :=
  [OInsert 1 10; OInsert 5 50; OInsert 5 51; OInsert 105 52; OLookup 205; ORemove 101; ORemove 1; OLookup 1; OInsert 9 90; OClear; OLookup 5].

Lemma hashmap_session_witness :
  exists m m', hashmap_init 4 true = (0, Some m)
    /\ run_ops None true mod_compare mod_hash sample_calloc 0 sample_ops m
       = Some ([(0, None); (-1, None); (0, None); (-1, None); (0, Some (5, 51)); (0, None); (-1, None); (-1, None); (0, None);
                (0, None); (-1, None)], m')
    /\ hm_size m' = 2.
Proof.
  eexists. destruct (hashmap_session None true mod_compare mod_hash (fun k => k mod 100)
    ltac:(unfold mod_compare; lia) ltac:(unfold mod_hash; congruence) ltac:(done) sample_calloc
    ltac:(unfold sample_calloc; intros t f live; case_bool_decide; [done | intros [= <-]; apply is_fresh])
    4 _ sample_ops ltac:(done) eq_refl) as (m' & Hr & (cs & _ & _ & Hs & _)).
  exists m'. split; [done|]. split; [exact Hr|]. rewrite <- Hs. by vm_compute.
Defined.
