(* ===== verification/Sort.v ===== *)
(** * fun_sort/: binary search and quicksort

    An array is its bytes; an item is [size] of them, and [compare] is the user's
    comparison of two items.  The quicksort exchanges items with [xj_exch], which no file
    of the repository defines; it is a parameter, and [exch], which qsort.c defines and
    does not use, is one that does what the sort needs.  Offsets are [int] products that
    must not overflow. *)

From stdpp Require Import relations sorting.
From S2P Require Import Prelude CMem.

(** ** bsearch.c *)

Section bsearch.
Context (compare : list Z -> list Z -> Z).

Fixpoint bsearch_loop (fuel : nat) (base key : list Z) (typesize start end_ : Z) : option (option Z) :=
  match fuel with
  | O => None
  | S fuel =>
      return_if negb (start <? end_) with Some None ;;
      let mid := start + (end_ - start) / 2 in
      x ← rd_bytes base (mid * typesize) typesize;
      let result := compare key x in
      if result <? 0 then bsearch_loop fuel base key typesize start mid
      else if result >? 0 then bsearch_loop fuel base key typesize (mid + 1) end_
      else Some (Some (mid * typesize))
  end.

(** The offset of an item found, [None] for the null pointer. *)
Definition bsearch (base key : list Z) (num typesize : Z) : option (option Z) :=
  bsearch_loop (S (Z.to_nat num)) base key typesize 0 num.
End bsearch.

(** ** qsort.c *)

(** Byte by byte; a negative size never counts down to 0. *)
Definition exch (base : list Z) (size a b : Z) : option (list Z) :=
  return_if size <? 0 with None ;;
  x ← int_mul a size;
  y ← int_mul b size;
  for_range (Z.to_nat size) 0 (fun t base =>
    z ← rd8 base (x + t);
    w ← rd8 base (y + t);
    base ← wr8 base (x + t) w;
    wr8 base (y + t) z) base.

Section qsort.
Context (compare : list Z -> list Z -> Z) (xj_exch : list Z -> Z -> Z -> Z -> option (list Z)).

(** [compare (base + i * size, base + j * size)]. *)
Definition compare_at (base : list Z) (size i j : Z) : option Z :=
  x ← int_mul i size; x ← rd_bytes base x size;
  y ← int_mul j size; y ← rd_bytes base y size;
  Some (compare x y).

(** The two inner loops, from the index before the increment or decrement; [v] is the
    item at [r]. *)
Fixpoint scan_up (fuel : nat) (base : list Z) (size r i : Z) : option Z :=
  match fuel with
  | O => None
  | S fuel =>
      let i := i + 1 in
      return_if i =? r with Some i ;;
      c ← compare_at base size i r;
      if c <? 0 then scan_up fuel base size r i else Some i
  end.

Fixpoint scan_down (fuel : nat) (base : list Z) (size l r j : Z) : option Z :=
  match fuel with
  | O => None
  | S fuel =>
      let j := j - 1 in
      c ← compare_at base size r j;
      return_if negb (c <? 0) with Some j ;;
      return_if j =? l with Some j ;;
      scan_down fuel base size l r j
  end.

(** The endless loop: the array, [i], [p] and [q] where it breaks. *)
Fixpoint partition_loop (fuel : nat) (base : list Z) (size l r i j p q : Z) : option (list Z * Z * Z * Z) :=
  match fuel with
  | O => None
  | S fuel =>
      i ← scan_up (Z.to_nat (r - i)) base size r i;
      j ← scan_down (Z.to_nat (j - l)) base size l r j;
      return_if i >=? j with Some (base, i, p, q) ;;
      base ← xj_exch base size i j;
      c ← compare_at base size i r;
      '(base, p) ← (if c =? 0 then base ← xj_exch base size (p + 1) i; Some (base, p + 1) else Some (base, p));
      c ← compare_at base size r j;
      '(base, q) ← (if c =? 0 then base ← xj_exch base size j (q - 1); Some (base, q - 1) else Some (base, q));
      partition_loop fuel base size l r i j p q
  end.

(** What follows the loop: the pivot goes between the parts, and the items that are equal
    to it, kept at both ends, next to it.  The result has the ends of the parts. *)
Definition gather (base : list Z) (size l r i p q : Z) : option (list Z * Z * Z) :=
  base ← xj_exch base size i r;
  '(base, j) ← for_range (Z.to_nat (p - l)) l (fun k '(base, j) =>
    base ← xj_exch base size k j; Some (base, j - 1)) (base, i - 1);
  '(base, i) ← for_range (Z.to_nat (r - 1 - q)) 0 (fun t '(base, i) =>
    base ← xj_exch base size i (r - 1 - t); Some (base, i + 1)) (base, i + 1);
  Some (base, j, i).

Fixpoint quicksort (fuel : nat) (base : list Z) (size l r : Z) : option (list Z) :=
  match fuel with
  | O => None
  | S fuel =>
      _ ← int_mul r size;
      return_if r <=? l with Some base ;;
      '(base, i, p, q) ← partition_loop (Z.to_nat (r - l + 2)) base size l r (l - 1) r (l - 1) r;
      '(base, j, i) ← gather base size l r i p q;
      base ← quicksort fuel base size l j;
      quicksort fuel base size i r
  end.

(** The comparisons are of [unsigned] numbers. *)
Definition qsort (base : list Z) (nmemb size : Z) : option (list Z) :=
  return_if (u32 nmemb >=? 2 ^ 31 - 1) || (u32 size >=? 2 ^ 31 - 1) with Some base ;;
  return_if negb (nmemb >? 1) with Some base ;;
  quicksort (Z.to_nat nmemb) base size 0 (nmemb - 1).
End qsort.

(** A comparison for the examples: of the first bytes. *)
Definition byte_cmp (x y : list Z) : Z := default 0 (head x) - default 0 (head y).

(** ** Arrays of items *)

Section items.
Context (size : Z).
Implicit Types a : list (list Z).

Definition items_ok a : Prop := Forall (fun x => zlen x = size) a.

Lemma concat_len a : items_ok a -> zlen (concat a) = zlen a * size.
Proof. induction 1 as [|x a Hx _ IH]; [done|]. cbn [concat length]. rewrite length_app. lia. Qed.

Lemma rd_item a k x : items_ok a -> znth a k = Some x -> rd_bytes (concat a) (k * size) size = Some x.
Proof.
  intros Ha [Hk Hx]%znth_Some. apply list_elem_of_split_length in Hx as (l & r & -> & Hl).
  apply Forall_app in Ha as [Hal [Hx Har]%Forall_cons]. rewrite concat_app. cbn [concat].
  apply rd_bytes_app; [rewrite concat_len by done; lia | done].
Qed.

Lemma znth_concat a k t x : items_ok a -> znth a k = Some x -> 0 <= t < size -> znth (concat a) (k * size + t) = znth x t.
Proof.
  intros Ha [Hk Hx]%znth_Some Ht. apply list_elem_of_split_length in Hx as (l & r & -> & Hl).
  apply Forall_app in Ha as [Hal [Hx Har]%Forall_cons]. rewrite concat_app. cbn [concat].
  pose proof (concat_len l Hal) as El. replace (k * size + t) with (zlen (concat l) + t) by lia.
  rewrite znth_app_r, znth_app_l by lia. f_equal. lia.
Qed.

Lemma swap_items a i j : items_ok a -> items_ok (swap a i j).
Proof. unfold items_ok. by rewrite swap_permutation. Qed.

(** What [exch] does to the bytes is the exchange of two items. *)
Lemma exch_items a i j : items_ok a -> bytes_ok (concat a) -> 0 <= i < zlen a -> 0 <= j < zlen a ->
  zlen a * size < 2 ^ 31 -> exch (concat a) size i j = Some (concat (swap a i j)).
Proof.
  intros Ha Hb Hi Hj Hmax. set (m0 := concat a).
  assert (Hs : 0 <= size). { destruct Ha as [|x a Hx _]; cbn in Hi; lia. }
  assert (Hx : 0 <= i * size /\ i * size + size <= zlen a * size) by nia.
  assert (Hy : 0 <= j * size /\ j * size + size <= zlen a * size) by nia.
  assert (Hxy : i = j \/ i * size + size <= j * size \/ j * size + size <= i * size) by nia.
  assert (Hxyeq : i = j -> i * size = j * size) by congruence.
  assert (El : zlen m0 = zlen a * size) by (by apply concat_len).
  unfold exch. zfalse (size <? 0). rewrite !int_mul_Some, !bind_Some by lia.
  set (x := i * size) in *. set (y := j * size) in *.
  destruct (for_range_inv (fun t m => zlen m = zlen m0 /\ forall p, znth m p =
    if (x <=? p) && (p <? x + t) then znth m0 (p - x + y) else if (y <=? p) && (p <? y + t) then znth m0 (p - y + x) else znth m0 p)
    (fun t base => z ← rd8 base (x + t); w ← rd8 base (y + t); base ← wr8 base (x + t) w; wr8 base (y + t) z)
    (Z.to_nat size) 0 m0) as (m' & Em & Hl & Hm).
  - intros t m Ht [Hl Hm]. unfold rd8, wr8.
    destruct (znth_lt m0 (x + t)) as [z Hz], (znth_lt m0 (y + t)) as [w Hw]; [lia..|].
    assert (Hzm : znth m (x + t) = Some z).
    { rewrite Hm. zfalse ((x <=? x + t) && (x + t <? x + t)). destruct ((y <=? x + t) && (x + t <? y + t)) eqn:E; [zbool; lia|done]. }
    assert (Hwm : znth m (y + t) = Some w).
    { rewrite Hm. zfalse ((y <=? y + t) && (y + t <? y + t)). destruct ((x <=? y + t) && (y + t <? x + t)) eqn:E; [zbool; lia|done]. }
    rewrite Hzm, Hwm, !bind_Some. rewrite !u8_id by (by eapply rd8_byte).
    rewrite zset_Some, bind_Some, zset_Some by len. eexists. split; [done|]. split; [len|]. intros p.
    rewrite !znth_insert by len. rewrite Hm.
    repeat zcase; cbn [andb]; subst; try lia; try done; rewrite <- ?Hz, <- ?Hw; f_equal; lia.
  - split; [done|]. intros p. by rewrite (andb_comm (x <=? p)), (andb_comm (y <=? p)); zfalse ((p <? x + 0) && (x <=? p)); zfalse ((p <? y + 0) && (y <=? p)).
  - rewrite Em. f_equal. rewrite Z2Nat.id in Hm by done. cbn [Z.add] in Hm. apply list_eq_znth.
    { rewrite Hl, El, concat_len by (by apply swap_items). by rewrite swap_length. }
    intros p Hp. rewrite Hl, El in Hp. assert (Hs0 : 0 < size) by nia.
    pose proof (Z.div_mod p size ltac:(lia)) as Hd. pose proof (Z.mod_pos_bound p size Hs0) as Ht.
    set (k := p / size) in *. set (t := p mod size) in *. assert (Hk : 0 <= k < zlen a) by nia.
    destruct (znth_lt (swap a i j) k) as [u Hu]; [len|]. replace p with (k * size + t) by lia.
    rewrite (znth_concat _ _ _ _ (swap_items _ _ _ Ha) Hu Ht), Hm. rewrite znth_swap in Hu by done. unfold x, y.
    assert (Hin : forall c, (c * size <=? k * size + t) && (k * size + t <? c * size + size) = (k =? c)).
    { intros c. apply eq_true_iff_eq. rewrite andb_true_iff, Z.leb_le, Z.ltb_lt, Z.eqb_eq. nia. }
    rewrite !Hin. clear - Ha Hu Ht. destruct (Z.eqb_spec k j) as [Ej|Ej], (Z.eqb_spec k i) as [Ei|Ei];
      rewrite <- (znth_concat _ _ _ _ Ha Hu Ht); f_equal; congruence || (rewrite ?Ej, ?Ei; lia).
Qed.
End items.

(** ** Exchanges within a range

    [a @ k] is the item at index [k]; [swapped l r] relates the arrays that differ by
    exchanges of items from [l] to [r]. *)

Definition item_at (a : list (list Z)) (k : Z) : list Z := default [] (znth a k).
#[local] Infix "@" := item_at (at level 20).

Lemma item_swap a i j k : 0 <= i < zlen a -> 0 <= j < zlen a ->
  swap a i j @ k = if k =? j then a @ i else if k =? i then a @ j else a @ k.
Proof. intros. unfold item_at. rewrite znth_swap by done. by repeat zcase. Qed.

Definition swapped (l r : Z) : relation (list (list Z)) :=
  rtc (fun a b => exists i j, l <= i <= r /\ l <= j <= r /\ 0 <= i < zlen a /\ 0 <= j < zlen a /\ b = swap a i j).

Lemma swapped_one l r a i j : l <= i <= r -> l <= j <= r -> 0 <= l -> r < zlen a -> swapped l r a (swap a i j).
Proof. intros. apply rtc_once. exists i, j. split_and!; done || lia. Qed.

Lemma swapped_weaken l r l' r' a b : swapped l r a b -> l' <= l -> r <= r' -> swapped l' r' a b.
Proof. intros H Hl Hr. induction H as [|a c b (i & j & ?) _ IH]; [done|]. eapply rtc_l; [|done]. exists i, j. intuition lia. Qed.

Lemma swapped_permutation l r a b : swapped l r a b -> b ≡ₚ a.
Proof. induction 1 as [|a c b (i & j & _ & _ & _ & _ & ->) _ IH]; [done|]. by rewrite IH, swap_permutation. Qed.

Lemma swapped_length l r a b : swapped l r a b -> zlen b = zlen a.
Proof. intros H%swapped_permutation. by rewrite H. Qed.

Lemma swapped_items size l r a b : swapped l r a b -> items_ok size a -> items_ok size b.
Proof. unfold items_ok. intros H%swapped_permutation. by rewrite H. Qed.

Lemma swapped_outside l r a b k : swapped l r a b -> k < l \/ r < k -> b @ k = a @ k.
Proof.
  intros H Hk. induction H as [|a c b (i & j & Hi & Hj & Hia & Hja & ->) _ IH]; [done|].
  rewrite IH, item_swap by done. by zfalse (k =? j); zfalse (k =? i).
Qed.

(** What holds of every item of the range, or of a larger one, holds afterwards. *)
Lemma swapped_inside l r a b (P : list Z -> Prop) l' r' : swapped l r a b -> l' <= l -> r <= r' ->
  (forall k, l' <= k <= r' -> P (a @ k)) -> forall k, l' <= k <= r' -> P (b @ k).
Proof.
  intros H Hl Hr. induction H as [|a c b (i & j & Hi & Hj & Hia & Hja & ->) _ IH]; [done|].
  intros Ha. apply IH. intros k Hk. rewrite item_swap by done. repeat zcase; apply Ha; lia.
Qed.

(** [compare] is the sign of a total preorder. *)
Class TotalCompare (compare : list Z -> list Z -> Z) : Prop := {
  compare_flip x y : compare x y < 0 <-> 0 < compare y x;
  compare_trans x y z : compare x y <= 0 -> compare y z <= 0 -> compare x z <= 0
}.

Section quicksort_correct.
Context (compare : list Z -> list Z -> Z) `{!TotalCompare compare}.
Context (size : Z) (xj_exch : list Z -> Z -> Z -> Z -> option (list Z)).
Implicit Types a b : list (list Z).

Definition le (x y : list Z) : Prop := compare x y <= 0.
Definition eqv (x y : list Z) : Prop := compare x y = 0.

Lemma le_total x y : le x y \/ le y x.
Proof. unfold le. destruct (Z.le_gt_cases (compare x y) 0) as [|H]; [by left|]. right. apply compare_flip in H. lia. Qed.

Lemma eqv_le x y : eqv x y <-> le x y /\ le y x.
Proof.
  unfold eqv, le. split; [|intros [H1 H2]].
  - intros E. split; [lia|]. destruct (Z.le_gt_cases (compare y x) 0) as [|H]; [done|]. apply compare_flip in H. lia.
  - destruct (Z.eq_dec (compare x y) 0); [done|]. assert (H : compare x y < 0) by lia. apply compare_flip in H. lia.
Qed.

Lemma not_less x y : ~ compare x y < 0 <-> le y x.
Proof. rewrite compare_flip. unfold le. lia. Qed.

Lemma less_le x y : compare x y < 0 -> le x y.
Proof. unfold le. lia. Qed.

Lemma eqv_refl x : eqv x x.
Proof. unfold eqv. pose proof (compare_flip x x). lia. Qed.

(** The arrays the sort works on, and the exchange of items it is given. *)
Definition array_ok a : Prop := items_ok size a /\ bytes_ok (concat a) /\ 0 < size < 2 ^ 31 /\ zlen a * size < 2 ^ 31.

Context (exch_ok : forall a i j, array_ok a -> 0 <= i < zlen a -> 0 <= j < zlen a ->
  xj_exch (concat a) size i j = Some (concat (swap a i j))).

Lemma swapped_array l r a b : swapped l r a b -> array_ok a -> array_ok b.
Proof.
  intros H (H1 & H2 & H3 & H4). pose proof (swapped_permutation _ _ _ _ H) as Hp. split_and!; [by eapply swapped_items| |lia|lia|].
  - by rewrite Hp.
  - by rewrite Hp.
Qed.

Lemma offset_ok a i : array_ok a -> -1 <= i <= zlen a -> int_mul i size = Some (i * size).
Proof. intros (_ & _ & H3 & H4) Hi. apply int_mul_Some. nia. Qed.

Lemma compare_items a i j : array_ok a -> 0 <= i < zlen a -> 0 <= j < zlen a ->
  compare_at compare (concat a) size i j = Some (compare (a @ i) (a @ j)).
Proof.
  intros Ha Hi Hj. destruct (znth_lt a i Hi) as [x Hx], (znth_lt a j Hj) as [y Hy].
  unfold compare_at. rewrite (offset_ok a i), bind_Some by (done || lia). rewrite (rd_item _ _ _ _ (proj1 Ha) Hx), bind_Some.
  rewrite (offset_ok a j), bind_Some by (done || lia). rewrite (rd_item _ _ _ _ (proj1 Ha) Hy), bind_Some.
  unfold item_at. by rewrite Hx, Hy.
Qed.

(** *** The scans *)

Lemma scan_up_spec a r : array_ok a -> r < zlen a -> forall fuel i, -1 <= i < r -> (Z.to_nat (r - i) <= fuel)%nat ->
  exists i', scan_up compare fuel (concat a) size r i = Some i' /\ i < i' <= r
    /\ (forall k, i < k < i' -> compare (a @ k) (a @ r) < 0) /\ (i' < r -> le (a @ r) (a @ i')).
Proof.
  intros Ha Hr. induction fuel as [|fuel IH]; intros i Hi Hf; [lia|]. cbn [scan_up].
  destruct (Z.eqb_spec (i + 1) r) as [Hr'|Hne]; [exists (i + 1); split_and!; [done|lia|lia|intros k; lia|lia]|].
  rewrite compare_items, bind_Some by (done || lia). destruct (Z.ltb_spec (compare (a @ (i + 1)) (a @ r)) 0) as [Hc|Hc].
  - destruct (IH (i + 1)) as (i' & E & Hi' & Hlt & Hge); [lia..|]. exists i'. split; [done|]. split; [lia|]. split; [|done].
    intros k Hk. destruct (Z.eq_dec k (i + 1)) as [->|]; [done|]. apply Hlt. lia.
  - exists (i + 1). split; [done|]. split; [lia|]. split; [intros k; lia|]. intros _. apply not_less. lia.
Qed.

Lemma scan_down_spec a l r : array_ok a -> 0 <= l -> r < zlen a -> forall fuel j, l < j <= r -> (Z.to_nat (j - l) <= fuel)%nat ->
  exists j', scan_down compare fuel (concat a) size l r j = Some j' /\ l <= j' < j
    /\ (forall k, j' < k < j -> compare (a @ r) (a @ k) < 0) /\ (l < j' -> le (a @ j') (a @ r)).
Proof.
  intros Ha Hl Hr. induction fuel as [|fuel IH]; intros j Hj Hf; [lia|]. cbn [scan_down].
  rewrite compare_items, bind_Some by (done || lia). destruct (Z.ltb_spec (compare (a @ r) (a @ (j - 1))) 0) as [Hc|Hc]; cbn [negb].
  - destruct (Z.eqb_spec (j - 1) l) as [Hl'|Hne]; [exists (j - 1); split_and!; [done|lia|lia|intros k; lia|lia]|].
    destruct (IH (j - 1)) as (j' & E & Hj' & Hlt & Hge); [lia..|]. exists j'. split; [done|]. split; [lia|]. split; [|done].
    intros k Hk. destruct (Z.eq_dec k (j - 1)) as [->|]; [done|]. apply Hlt. lia.
  - exists (j - 1). split; [done|]. split; [lia|]. split; [intros k; lia|]. intros _. apply not_less. lia.
Qed.
(** *** The partition

    Below [i] and from [j] on the items are on their side of the pivot, the item at [r];
    those up to [p] and those from [q] on are equal to it. *)

Record parted a (l r i j p q : Z) : Prop := {
  pt_p : l - 1 <= p <= i;
  pt_ij : i < j;
  pt_q : j <= q <= r;
  pt_low k : l <= k <= i -> le (a @ k) (a @ r);
  pt_high k : j <= k < r -> le (a @ r) (a @ k);
  pt_eql k : l <= k <= p -> eqv (a @ k) (a @ r);
  pt_eqr k : q <= k < r -> eqv (a @ k) (a @ r)
}.

Lemma parted_exchange a l r i j p q i' j' : 0 <= l -> r < zlen a -> parted a l r i j p q ->
  i < i' -> i' < j' -> j' < j ->
  (forall k, i < k < i' -> compare (a @ k) (a @ r) < 0) -> le (a @ r) (a @ i') ->
  (forall k, j' < k < j -> compare (a @ r) (a @ k) < 0) -> le (a @ j') (a @ r) ->
  parted (swap a i' j') l r i' j' p q.
Proof.
  intros Hl Hr [Hp Hij Hq Hlow Hhigh Heql Heqr] Hi Hij' Hj Hup Hi' Hdown Hj'.
  split; [lia|lia|lia|..]; intros k Hk; rewrite !item_swap by lia.
  all: zfalse (r =? j'); zfalse (r =? i').
  - zfalse (k =? j'). destruct (Z.eqb_spec k i') as [->|]; [done|].
    destruct (Z.le_gt_cases k i); [apply Hlow; lia|apply less_le, Hup; lia].
  - zfalse (k =? i'). destruct (Z.eqb_spec k j') as [->|]; [done|].
    destruct (Z.le_gt_cases j k); [apply Hhigh; lia|apply less_le, Hdown; lia].
  - zfalse (k =? j'). zfalse (k =? i'). by apply Heql.
  - zfalse (k =? j'). zfalse (k =? i'). by apply Heqr.
Qed.

Lemma parted_left a l r i j p q : 0 <= l -> r < zlen a -> parted a l r i j p q -> p < i -> eqv (a @ i) (a @ r) ->
  parted (swap a (p + 1) i) l r i j (p + 1) q.
Proof.
  intros Hl Hr [Hp Hij Hq Hlow Hhigh Heql Heqr] Hpi Ei.
  split; [lia|lia|lia|..]; intros k Hk; rewrite !item_swap by lia; zfalse (r =? i); zfalse (r =? p + 1).
  - repeat zcase; apply Hlow; lia.
  - zfalse (k =? i). zfalse (k =? p + 1). by apply Hhigh.
  - destruct (Z.eqb_spec k i); [subst; replace (p + 1) with i by lia; done|].
    destruct (Z.eqb_spec k (p + 1)); [done|]. apply Heql. lia.
  - zfalse (k =? i). zfalse (k =? p + 1). by apply Heqr.
Qed.

Lemma parted_right a l r i j p q : 0 <= l -> r < zlen a -> parted a l r i j p q -> l <= j < q -> eqv (a @ j) (a @ r) ->
  parted (swap a j (q - 1)) l r i j p (q - 1).
Proof.
  intros Hl Hr [Hp Hij Hq Hlow Hhigh Heql Heqr] Hjq Ej.
  split; [lia|lia|lia|..]; intros k Hk; rewrite !item_swap by lia; zfalse (r =? j); zfalse (r =? q - 1).
  - zfalse (k =? j). zfalse (k =? q - 1). by apply Hlow.
  - repeat zcase; apply Hhigh; lia.
  - zfalse (k =? j). zfalse (k =? q - 1). by apply Heql.
  - destruct (Z.eqb_spec k (q - 1)); [done|].
    destruct (Z.eqb_spec k j); [subst; replace (q - 1) with j by lia; done|]. apply Heqr. lia.
Qed.

Lemma parted_start a l r : l <= r -> parted a l r (l - 1) r (l - 1) r.
Proof. intros. split; intros; lia. Qed.

(** Where the loop breaks. *)
Lemma parted_break a l r i j p q i' j' : l - 1 <= i -> parted a l r i j p q -> i < i' <= r -> j' < j -> j' <= i' ->
  (forall k, i < k < i' -> compare (a @ k) (a @ r) < 0) -> (i' < r -> le (a @ r) (a @ i')) ->
  (forall k, j' < k < j -> compare (a @ r) (a @ k) < 0) ->
  parted a l r (i' - 1) i' p q.
Proof.
  intros Hli [Hp Hij Hq Hlow Hhigh Heql Heqr] Hi Hj Hij' Hup Hi' Hdown.
  assert (Hi'j : i' <= j).
  { destruct (Z.le_gt_cases i' j) as [|H]; [done|]. exfalso. assert (Hl : compare (a @ j) (a @ r) < 0) by (apply Hup; lia).
    assert (Hg : le (a @ r) (a @ j)) by (apply Hhigh; lia). apply not_less in Hg. lia. }
  split; [lia|lia|lia|..]; intros k Hk; [| |by apply Heql|by apply Heqr].
  - destruct (Z.le_gt_cases k i); [apply Hlow; lia|apply less_le, Hup; lia].
  - destruct (Z.le_gt_cases j k); [apply Hhigh; lia|]. destruct (Z.eq_dec k i') as [->|]; [apply Hi'; lia|].
    apply less_le, Hdown. lia.
Qed.

(** The exchanges that are done when an item is equal to the pivot. *)
Lemma left_if_equal a l r i j p q : array_ok a -> 0 <= l -> r < zlen a -> parted a l r i j p q -> p < i -> j < r ->
  exists b p', (if compare (a @ i) (a @ r) =? 0 then base ← xj_exch (concat a) size (p + 1) i; Some (base, p + 1) else Some (concat a, p))
    = Some (concat b, p') /\ swapped l (r - 1) a b /\ parted b l r i j p' q.
Proof.
  intros Ha Hl Hr Hpt Hpi Hj. pose proof (pt_p _ _ _ _ _ _ _ Hpt). pose proof (pt_ij _ _ _ _ _ _ _ Hpt).
  destruct (Z.eqb_spec (compare (a @ i) (a @ r)) 0) as [E|_]; [|by exists a, p].
  rewrite exch_ok by (done || lia). exists (swap a (p + 1) i), (p + 1). split_and!; [done|apply swapped_one; lia|by apply parted_left].
Qed.

Lemma right_if_equal a l r i j p q : array_ok a -> 0 <= l -> r < zlen a -> parted a l r i j p q -> l <= j < q ->
  exists b q', (if compare (a @ r) (a @ j) =? 0 then base ← xj_exch (concat a) size j (q - 1); Some (base, q - 1) else Some (concat a, q))
    = Some (concat b, q') /\ swapped l (r - 1) a b /\ parted b l r i j p q'.
Proof.
  intros Ha Hl Hr Hpt Hjq. pose proof (pt_q _ _ _ _ _ _ _ Hpt).
  destruct (Z.eqb_spec (compare (a @ r) (a @ j)) 0) as [E|_]; [|by exists a, q].
  rewrite exch_ok by (done || lia). exists (swap a j (q - 1)), (q - 1). split_and!; [done|apply swapped_one; lia|].
  apply parted_right; try done. apply eqv_le, and_comm, eqv_le. exact E.
Qed.

Lemma partition_loop_spec l r : 0 <= l < r -> forall fuel a i j p q, array_ok a -> r < zlen a -> parted a l r i j p q -> l < j ->
  (Z.to_nat (j - i) < fuel)%nat ->
  exists b i' p' q', partition_loop compare xj_exch fuel (concat a) size l r i j p q = Some (concat b, i', p', q')
    /\ swapped l (r - 1) a b /\ l <= i' <= r /\ parted b l r (i' - 1) i' p' q'.
Proof.
  intros Hlr. induction fuel as [|fuel IH]; intros a i j p q Ha Hr Hpt Hlj Hf; [lia|]. cbn [partition_loop].
  pose proof (pt_p _ _ _ _ _ _ _ Hpt). pose proof (pt_ij _ _ _ _ _ _ _ Hpt). pose proof (pt_q _ _ _ _ _ _ _ Hpt).
  destruct (scan_up_spec a r Ha Hr (Z.to_nat (r - i)) i) as (i' & Ei & Hi' & Hup & Hge); [lia..|]. rewrite Ei, bind_Some.
  destruct (scan_down_spec a l r Ha ltac:(lia) Hr (Z.to_nat (j - l)) j) as (j' & Ej & Hj' & Hdown & Hle); [lia..|].
  rewrite Ej, bind_Some. rewrite Z.geb_leb. destruct (Z.leb_spec j' i') as [Hb|Hb].
  { exists a, i', p, q. split_and!; [done|done|lia|lia|]. by apply (parted_break a l r i j p q i' j'); try lia. }
  rewrite exch_ok, bind_Some by (done || lia).
  assert (Hpt1 : parted (swap a i' j') l r i' j' p q).
  { apply (parted_exchange a l r i j p q); try done; try lia; [apply Hge; lia|apply Hle; lia]. }
  assert (Hs1 : swapped l (r - 1) a (swap a i' j')) by (apply swapped_one; lia).
  set (a1 := swap a i' j') in *. pose proof (swapped_array _ _ _ _ Hs1 Ha) as Ha1. pose proof (swapped_length _ _ _ _ Hs1) as Hl1.
  rewrite compare_items, bind_Some by (done || lia).
  destruct (left_if_equal a1 l r i' j' p q) as (a2 & p2 & E2 & Hs2 & Hpt2); try done; [lia..|]. rewrite E2, bind_Some.
  pose proof (swapped_array _ _ _ _ Hs2 Ha1) as Ha2. pose proof (swapped_length _ _ _ _ Hs2) as Hl2.
  rewrite compare_items, bind_Some by (done || lia).
  destruct (right_if_equal a2 l r i' j' p2 q) as (a3 & q3 & E3 & Hs3 & Hpt3); try done; [lia..|]. rewrite E3, bind_Some.
  pose proof (swapped_array _ _ _ _ Hs3 Ha2) as Ha3. pose proof (swapped_length _ _ _ _ Hs3) as Hl3.
  destruct (IH a3 i' j' p2 q3) as (b & i'' & p'' & q'' & E & Hs & Hi'' & Hb'); try done; [lia..|].
  exists b, i'', p'', q''. split_and!; try done; [|lia..]. by repeat (etrans; [eassumption|]).
Qed.
(** *** Gathering the items equal to the pivot

    Turn [t] exchanges position [s t] of an end zone with its mirror image [c - s t].
    When the two sides meet, a position may be exchanged twice: its mirror image is then
    in the end zone too, so that both items are equal to the pivot. *)

Section mirror.
Context (E : list Z -> Prop) (s : Z -> Z) (c n : Z) (s_inj : forall u w, s u = s w -> u = w).

Definition mirrored (t : Z) a : Prop :=
  (forall u, 0 <= u < t -> E (a @ (c - s u))) /\ (forall u, t <= u < n -> E (a @ s u))
  /\ (forall u w, 0 <= u < n -> 0 <= w < n -> c - s u = s w -> E (a @ s w)).

Lemma mirrored_start a : (forall u, 0 <= u < n -> E (a @ s u)) -> mirrored 0 a.
Proof. intros H. split_and!; [lia|done|auto]. Qed.

Lemma mirrored_step a b t : mirrored t a -> 0 <= t < n ->
  (forall k, b @ k = if k =? c - s t then a @ s t else if k =? s t then a @ (c - s t) else a @ k) -> mirrored (t + 1) b.
Proof.
  intros (H1 & H2 & H3) Ht Hb. split_and!.
  - intros u Hu. rewrite Hb. destruct (Z.eqb_spec (c - s u) (c - s t)); [apply H2; lia|].
    assert (u <> t) by congruence. destruct (Z.eqb_spec (c - s u) (s t)) as [Hm|]; [|apply H1; lia].
    replace (c - s t) with (s u) by lia. apply (H3 t u); lia.
  - intros u Hu. rewrite Hb. destruct (Z.eqb_spec (s u) (c - s t)); [apply H2; lia|].
    destruct (Z.eqb_spec (s u) (s t)) as [Hu'%s_inj|]; [lia|apply H2; lia].
  - intros u w Hu Hw Huw. rewrite Hb. destruct (Z.eqb_spec (s w) (c - s t)); [apply H2; lia|].
    destruct (Z.eqb_spec (s w) (s t)) as [Hwt%s_inj|]; [|by apply (H3 u w)].
    subst w. replace (c - s t) with (s u) by lia. apply (H3 t u); lia.
Qed.
End mirror.

Lemma gather_left a l r i p v : array_ok a -> 0 <= l -> l <= i <= r -> r < zlen a -> p < i ->
  (forall k, l <= k <= p -> eqv (a @ k) v) ->
  exists b, let n := Z.max 0 (p - l) in
    for_range (Z.to_nat (p - l)) l (fun k '(base, j) => base ← xj_exch base size k j; Some (base, j - 1)) (concat a, i - 1)
      = Some (concat b, i - 1 - n)
    /\ swapped l (i - 1) a b /\ (forall k, i - 1 - n < k < i -> eqv (b @ k) v).
Proof.
  intros Ha Hl Hi Hr Hp Heq. pose (s u := l + u). set (c := l + (i - 1)). set (n := Z.max 0 (p - l)).
  destruct (for_range_inv (fun k '(base, j) => exists b, base = concat b /\ j = i - 1 - (k - l) /\ swapped l (i - 1) a b
      /\ mirrored (fun x => eqv x v) s c n (k - l) b)
    (fun k '(base, j) => base ← xj_exch base size k j; Some (base, j - 1)) (Z.to_nat (p - l)) l (concat a, i - 1))
    as ([base j] & E & b & -> & -> & Hs & Hm).
  - intros k [base j] Hk (b & -> & -> & Hs & Hm). pose proof (swapped_length _ _ _ _ Hs) as Hlen.
    rewrite exch_ok, bind_Some by ((by eapply swapped_array) || lia). eexists. split; [done|].
    exists (swap b k (i - 1 - (k - l))). split_and!; [done|lia| |].
    + etrans; [exact Hs|]. apply swapped_one; lia.
    + replace (k + 1 - l) with (k - l + 1) by lia. eapply mirrored_step; [unfold s; lia|exact Hm|lia|].
      intros x. rewrite item_swap by lia. unfold s, c.
      by replace (l + (i - 1) - (l + (k - l))) with (i - 1 - (k - l)) by lia; replace (l + (k - l)) with k by lia.
  - exists a. split_and!; [done|lia|done|]. rewrite Z.sub_diag. apply mirrored_start. intros u Hu. apply Heq. unfold s. lia.
  - exists b. split_and!; [rewrite E; do 2 f_equal; lia|done|]. intros k Hk. destruct Hm as [Hm _].
    specialize (Hm (i - 1 - k) ltac:(lia)). unfold s, c in Hm. by replace (l + (i - 1) - (l + (i - 1 - k))) with k in Hm by lia.
Qed.

Lemma gather_right a l r i q v : array_ok a -> 0 <= l -> l <= i <= r -> r < zlen a -> i <= q ->
  (forall k, q < k < r -> eqv (a @ k) v) ->
  exists b, let n := Z.max 0 (r - 1 - q) in
    for_range (Z.to_nat (r - 1 - q)) 0 (fun t '(base, i) => base ← xj_exch base size i (r - 1 - t); Some (base, i + 1)) (concat a, i + 1)
      = Some (concat b, i + 1 + n)
    /\ swapped (i + 1) (r - 1) a b /\ (forall k, i < k < i + 1 + n -> eqv (b @ k) v).
Proof.
  intros Ha Hl Hi Hr Hq Heq. pose (s u := r - 1 - u). set (c := i + 1 + (r - 1)). set (n := Z.max 0 (r - 1 - q)).
  destruct (for_range_inv (fun t '(base, x) => exists b, base = concat b /\ x = i + 1 + t /\ swapped (i + 1) (r - 1) a b
      /\ mirrored (fun x => eqv x v) s c n t b)
    (fun t '(base, i) => base ← xj_exch base size i (r - 1 - t); Some (base, i + 1)) (Z.to_nat (r - 1 - q)) 0 (concat a, i + 1))
    as ([base x] & E & b & -> & -> & Hs & Hm).
  - intros t [base x] Ht (b & -> & -> & Hs & Hm). pose proof (swapped_length _ _ _ _ Hs) as Hlen.
    rewrite exch_ok, bind_Some by ((by eapply swapped_array) || lia). eexists. split; [done|].
    exists (swap b (i + 1 + t) (r - 1 - t)). split_and!; [done|lia| |].
    + etrans; [exact Hs|]. apply swapped_one; lia.
    + eapply mirrored_step; [unfold s; lia|exact Hm|lia|].
      intros x. rewrite item_swap by lia. unfold s, c. replace (i + 1 + (r - 1) - (r - 1 - t)) with (i + 1 + t) by lia.
      destruct (Z.eqb_spec x (r - 1 - t)), (Z.eqb_spec x (i + 1 + t)); congruence.
  - exists a. split_and!; [done|lia|done|]. apply mirrored_start. intros u Hu. apply Heq. unfold s. lia.
  - exists b. split_and!; [rewrite E; do 2 f_equal; lia|done|]. intros k Hk. destruct Hm as [Hm _].
    specialize (Hm (k - (i + 1)) ltac:(lia)). unfold s, c in Hm. by replace (i + 1 + (r - 1) - (r - 1 - (k - (i + 1)))) with k in Hm by lia.
Qed.
(** Three parts around the pivot [v]: smaller or equal up to [j], equal, larger or equal
    from [i] on. *)
Definition three_way a (l r j i : Z) (v : list Z) : Prop :=
  (forall k, l <= k <= j -> le (a @ k) v) /\ (forall k, j < k < i -> eqv (a @ k) v) /\ (forall k, i <= k <= r -> le v (a @ k)).

Lemma gather_spec a l r i p q : array_ok a -> 0 <= l -> l <= i <= r -> r < zlen a -> parted a l r (i - 1) i p q ->
  exists b j i', gather xj_exch (concat a) size l r i p q = Some (concat b, j, i')
    /\ swapped l r a b /\ l - 1 <= j < i /\ i < i' <= r + 1 /\ three_way b l r j i' (a @ r).
Proof.
  intros Ha Hl Hi Hr [Hp _ Hq Hlow Hhigh Heql Heqr]. set (v := a @ r) in *. unfold gather.
  rewrite exch_ok, bind_Some by (done || lia). set (a1 := swap a i r).
  assert (Hs1 : swapped l r a a1) by (apply swapped_one; lia).
  pose proof (swapped_array _ _ _ _ Hs1 Ha) as Ha1. pose proof (swapped_length _ _ _ _ Hs1) as Hl1.
  assert (Hat : forall k, a1 @ k = if k =? r then a @ i else if k =? i then v else a @ k) by (intros; apply item_swap; lia).
  destruct (gather_left a1 l r i p v) as (a2 & E2 & Hs2 & Heq2); try done; [lia..| |].
  { intros k Hk. rewrite Hat. zfalse (k =? r). zfalse (k =? i). by apply Heql. }
  cbv zeta in E2, Heq2. rewrite E2, bind_Some.
  pose proof (swapped_array _ _ _ _ Hs2 Ha1) as Ha2. pose proof (swapped_length _ _ _ _ Hs2) as Hl2.
  destruct (gather_right a2 l r i q v) as (a3 & E3 & Hs3 & Heq3); try done; [lia..| |].
  { intros k Hk. rewrite (swapped_outside _ _ _ _ _ Hs2), Hat by lia. zfalse (k =? r). zfalse (k =? i). apply Heqr. lia. }
  cbv zeta in E3, Heq3. rewrite E3, bind_Some. eexists a3, _, _. split; [done|]. split.
  { etrans; [exact Hs1|]. etrans; eapply swapped_weaken; [exact Hs2|lia|lia|exact Hs3|lia|lia]. }
  split; [lia|]. split; [lia|]. split_and!.
  - intros k Hk. rewrite (swapped_outside _ _ _ _ _ Hs3) by lia.
    revert k Hk. intros k Hk. apply (swapped_inside _ _ _ _ (fun x => le x v) l (i - 1) Hs2); [lia|lia| |lia].
    intros k' Hk'. rewrite Hat. zfalse (k' =? r). zfalse (k' =? i). apply Hlow. lia.
  - intros k Hk. destruct (Z.lt_trichotomy k i) as [Hki|[->|Hki]].
    + rewrite (swapped_outside _ _ _ _ _ Hs3) by lia. apply Heq2. lia.
    + rewrite (swapped_outside _ _ _ _ _ Hs3), (swapped_outside _ _ _ _ _ Hs2), Hat by lia. rewrite Z.eqb_refl.
      destruct (Z.eqb_spec i r) as [->|]; apply eqv_refl.
    + apply Heq3. lia.
  - intros k Hk. destruct (Z.eq_dec k r) as [->|].
    + rewrite (swapped_outside _ _ _ _ _ Hs3), (swapped_outside _ _ _ _ _ Hs2), Hat by lia. rewrite Z.eqb_refl.
      apply Hhigh. lia.
    + apply (swapped_inside _ _ _ _ (fun x => le v x) (i + 1) (r - 1) Hs3); [lia|lia| |lia].
      intros k' Hk'. rewrite (swapped_outside _ _ _ _ _ Hs2), Hat by lia. zfalse (k' =? r). zfalse (k' =? i). apply Hhigh. lia.
Qed.

(** *** The sort *)

Definition sorted a (l r : Z) : Prop := forall k k', l <= k -> k <= k' -> k' <= r -> le (a @ k) (a @ k').

Lemma sorted_combine a l r j i v : j < i -> three_way a l r j i v -> sorted a l j -> sorted a i r -> sorted a l r.
Proof.
  intros Hji (Hlow & Hmid & Hhigh) H1 H2 k k' Hk Hkk Hk'.
  destruct (Z.le_gt_cases k' j); [by apply H1|]. destruct (Z.le_gt_cases i k); [by apply H2|].
  assert (Hkv : le (a @ k) v).
  { destruct (Z.le_gt_cases k j); [apply Hlow; lia|]. by destruct (proj1 (eqv_le _ _) (Hmid k ltac:(lia))). }
  assert (Hvk : le v (a @ k')).
  { destruct (Z.le_gt_cases i k'); [apply Hhigh; lia|]. by destruct (proj1 (eqv_le _ _) (Hmid k' ltac:(lia))). }
  by eapply compare_trans.
Qed.

(** Sorting one of the outer parts keeps the three parts. *)
Lemma three_way_swapped a b l r j i v l' r' : swapped l' r' a b -> l <= l' -> r' <= r -> r' <= j \/ i <= l' ->
  j < i -> three_way a l r j i v -> three_way b l r j i v.
Proof.
  intros Hs Hl Hr Hside Hji (Hlow & Hmid & Hhigh). split_and!.
  - destruct Hside.
    + apply (swapped_inside _ _ _ _ (fun x => le x v) l j Hs); done.
    + intros k Hk. rewrite (swapped_outside _ _ _ _ _ Hs) by lia. by apply Hlow.
  - intros k Hk. rewrite (swapped_outside _ _ _ _ _ Hs) by lia. by apply Hmid.
  - destruct Hside.
    + intros k Hk. rewrite (swapped_outside _ _ _ _ _ Hs) by lia. by apply Hhigh.
    + apply (swapped_inside _ _ _ _ (fun x => le v x) i r Hs); done.
Qed.

Lemma sorted_swapped a b l r l' r' : swapped l' r' a b -> r < l' \/ r' < l -> sorted a l r -> sorted b l r.
Proof.
  intros Hs Hd H k k' Hk Hkk Hk'. rewrite !(swapped_outside _ _ _ _ _ Hs) by lia. by apply H.
Qed.

Lemma quicksort_spec : forall fuel a l r, array_ok a -> 0 <= l -> r < zlen a -> l - 1 <= r -> (Z.to_nat (r - l) < fuel)%nat ->
  exists b, quicksort compare xj_exch fuel (concat a) size l r = Some (concat b) /\ swapped l r a b /\ sorted b l r.
Proof.
  induction fuel as [|fuel IH]; intros a l r Ha Hl Hr Hlr Hf; [lia|]. cbn [quicksort].
  rewrite (offset_ok a), bind_Some by (done || lia). destruct (Z.leb_spec r l) as [Hle|Hlt].
  { exists a. split_and!; [done|done|]. intros k k' ? ? ?. replace k' with k by lia. apply eqv_le, eqv_refl. }
  destruct (partition_loop_spec l r ltac:(lia) (Z.to_nat (r - l + 2)) a (l - 1) r (l - 1) r) as (a1 & i0 & p & q & E1 & Hs1 & Hi0 & Hpt);
    [done|done|by apply parted_start; lia|lia|lia|]. rewrite E1, bind_Some.
  pose proof (swapped_array _ _ _ _ Hs1 Ha) as Ha1. pose proof (swapped_length _ _ _ _ Hs1) as Hl1.
  destruct (gather_spec a1 l r i0 p q) as (a2 & j & i & E2 & Hs2 & Hj & Hi & H3); [done|lia|done|lia|done|]. rewrite E2, bind_Some.
  pose proof (swapped_array _ _ _ _ Hs2 Ha1) as Ha2. pose proof (swapped_length _ _ _ _ Hs2) as Hl2.
  destruct (IH a2 l j) as (a3 & E3 & Hs3 & Hso3); [done|lia..|]. rewrite E3, bind_Some.
  pose proof (swapped_array _ _ _ _ Hs3 Ha2) as Ha3. pose proof (swapped_length _ _ _ _ Hs3) as Hl3.
  destruct (IH a3 i r) as (a4 & E4 & Hs4 & Hso4); [done|lia..|]. exists a4. split; [done|]. split.
  - etrans; [eapply swapped_weaken; [exact Hs1|lia..]|]. etrans; [exact Hs2|].
    etrans; eapply swapped_weaken; [exact Hs3|lia|lia|exact Hs4|lia|lia].
  - eapply (sorted_combine _ _ _ j i); [lia| |eapply sorted_swapped; [exact Hs4|lia|done]|done].
    eapply three_way_swapped; [exact Hs4|lia|lia|lia|lia|]. eapply three_way_swapped; [exact Hs3|lia|lia|lia|lia|done].
Qed.
Lemma qsort_items a : array_ok a -> zlen a < 2 ^ 31 - 1 ->
  exists b, qsort compare xj_exch (concat a) (zlen a) size = Some (concat b) /\ b ≡ₚ a /\ sorted b 0 (zlen b - 1).
Proof.
  intros Ha Hn. unfold qsort. rewrite !u32_id by (destruct Ha as (_ & _ & ? & ?); lia).
  assert (Hone : zlen a <= 1 -> sorted a 0 (zlen a - 1)).
  { intros H k k' ? ? ?. replace k' with k by lia. apply eqv_le, eqv_refl. }
  destruct ((zlen a >=? 2 ^ 31 - 1) || (size >=? 2 ^ 31 - 1)) eqn:E.
  { exists a. split_and!; [done|done|]. apply Hone. destruct Ha as (_ & _ & ? & ?). rewrite !Z.geb_leb in E.
    apply orb_true_iff in E as [E%Z.leb_le|E%Z.leb_le]; nia. }
  destruct (zlen a >? 1) eqn:E1; cbn [negb]; zbool; [|exists a; split_and!; [done|done|apply Hone; lia]].
  destruct (quicksort_spec (Z.to_nat (zlen a)) a 0 (zlen a - 1) Ha) as (b & Eb & Hs & Hb); [lia..|].
  exists b. split; [exact Eb|]. split; [by eapply swapped_permutation|]. by rewrite (swapped_length _ _ _ _ Hs).
Qed.

Lemma sorted_strongly a : sorted a 0 (zlen a - 1) -> StronglySorted le a.
Proof.
  induction a as [|x a IH]; intros H; [constructor|].
  assert (Hnth : forall k y, a !! k = Some y -> (x :: a) @ (Z.of_nat (S k)) = y).
  { intros k y Hk. unfold item_at. by rewrite znth_of_nat, lookup_cons, Hk. }
  constructor.
  - apply IH. intros k k' Hk Hkk Hk'. specialize (H (k + 1) (k' + 1)).
    assert (Ht : forall k, 0 <= k -> (x :: a) @ (k + 1) = a @ k).
    { intros m Hm. unfold item_at. rewrite <- (Z2Nat.id m), Z.add_1_r, <- Nat2Z.inj_succ, !znth_of_nat by done. done. }
    rewrite !Ht in H by lia. apply H; cbn [length]; lia.
  - apply Forall_lookup. intros k y Hk. rewrite <- (Hnth k y Hk). pose proof (lookup_lt_Some _ _ _ Hk).
    apply (H 0 (Z.of_nat (S k))); cbn [length]; lia.
Qed.

(** ** Searching *)

Lemma bsearch_loop_spec a key : items_ok size a -> sorted a 0 (zlen a - 1) ->
  forall fuel start end_, 0 <= start -> end_ <= zlen a -> (Z.to_nat (end_ - start) < fuel)%nat ->
  (forall k, 0 <= k < start -> compare (a @ k) key < 0) -> (forall k, end_ <= k < zlen a -> compare key (a @ k) < 0) ->
  exists r, bsearch_loop compare fuel (concat a) key size start end_ = Some r
    /\ match r with
       | Some off => exists k, 0 <= k < zlen a /\ off = k * size /\ eqv key (a @ k)
       | None => forall k, 0 <= k < zlen a -> ~ eqv key (a @ k)
       end.
Proof.
  intros Ha Hs. induction fuel as [|fuel IH]; intros start end_ H0 Hend Hf Hlow Hhigh; [lia|]. cbn [bsearch_loop].
  destruct (Z.ltb_spec start end_) as [Hlt|Hge]; cbn [negb].
  2: { exists None. split; [done|]. intros k Hk E. unfold eqv in E. destruct (Z.lt_ge_cases k start) as [Hk'|Hk'].
       - specialize (Hlow k ltac:(lia)). apply compare_flip in Hlow. lia.
       - specialize (Hhigh k ltac:(lia)). lia. }
  set (mid := start + (end_ - start) / 2). assert (Hmid : start <= mid < end_) by (unfold mid; zlia).
  destruct (znth_lt a mid) as [x Hx]; [lia|]. rewrite (rd_item _ _ _ _ Ha Hx), bind_Some.
  assert (Ex : a @ mid = x) by (unfold item_at; by rewrite Hx).
  destruct (Z.ltb_spec (compare key x) 0) as [Hc|Hc].
  { apply IH; [lia..|done|]. intros k Hk. assert (Hle : le (a @ mid) (a @ k)) by (apply Hs; lia). rewrite Ex in Hle.
    destruct (Z.lt_ge_cases (compare key (a @ k)) 0) as [|Hk']; [done|]. exfalso. apply Z.le_ngt, not_less in Hk'.
    pose proof (compare_trans _ _ _ Hle Hk') as Hxk. apply compare_flip in Hc. lia. }
  rewrite Z.gtb_ltb. destruct (Z.ltb_spec 0 (compare key x)) as [Hc'|Hc'].
  { apply IH; [lia..| |done]. intros k Hk. assert (Hle : le (a @ k) (a @ mid)) by (apply Hs; lia). rewrite Ex in Hle.
    apply compare_flip. destruct (Z.lt_ge_cases 0 (compare key (a @ k))) as [|Hk']; [done|]. exfalso.
    pose proof (compare_trans _ _ _ Hk' Hle). lia. }
  exists (Some (mid * size)). split; [done|]. exists mid. split; [lia|]. split; [done|]. rewrite Ex. unfold eqv. lia.
Qed.
End quicksort_correct.

#[local] Instance byte_cmp_total : TotalCompare byte_cmp.
Proof. unfold byte_cmp. split; intros; lia. Qed.

(** ** The properties

    [exchanges] is what the sort expects of [xj_exch], and what [exch] does. *)

Definition exchanges (size : Z) (xj_exch : list Z -> Z -> Z -> Z -> option (list Z)) : Prop :=
  forall a i j, array_ok size a -> 0 <= i < zlen a -> 0 <= j < zlen a -> xj_exch (concat a) size i j = Some (concat (swap a i j)).

Lemma exch_exchanges size : exchanges size exch.
Proof. intros a i j (H1 & H2 & _ & H4) Hi Hj. by apply exch_items. Qed.

(** [qsort] sorts, if [xj_exch] - which no file of the repository defines or documents -
    exchanges two items, as its name says: on an array of fewer than 2^31 - 1 items and 2^31
    bytes, with a comparison that is a total preorder, it ends without leaving the array or
    overflowing an offset, and its result has the same items in ascending order; [compare]
    may be 0 for any of them. *)
Theorem qsort_sorts compare `{!TotalCompare compare} size xj_exch items :
  exchanges size xj_exch -> array_ok size items -> zlen items < 2 ^ 31 - 1 ->
  exists items', qsort compare xj_exch (concat items) (zlen items) size = Some (concat items')
    /\ items' ≡ₚ items /\ StronglySorted (le compare) items'.
Proof.
  intros Hx Ha Hn. destruct (qsort_items compare size xj_exch Hx items Ha Hn) as (b & E & Hp & Hs).
  exists b. split_and!; [done..|]. by apply sorted_strongly.
Qed.

(** [bsearch] finds what [qsort] has sorted: after sorting, the search for a key ends,
    returns null exactly when no item of the array was equal to the key, and otherwise
    the offset of an item that is. *)
Theorem qsort_bsearch compare `{!TotalCompare compare} size xj_exch items key :
  exchanges size xj_exch -> array_ok size items -> zlen items < 2 ^ 31 - 1 ->
  exists base r, qsort compare xj_exch (concat items) (zlen items) size = Some base
    /\ bsearch compare base key (zlen items) size = Some r
    /\ (r = None <-> forall x, x ∈ items -> compare key x <> 0)
    /\ (forall off, r = Some off -> exists x, rd_bytes base off size = Some x /\ x ∈ items /\ compare key x = 0).
Proof.
  intros Hx Ha Hn. destruct (qsort_items compare size xj_exch Hx items Ha Hn) as (b & E & Hp & Hs).
  assert (Hb : items_ok size b) by (unfold items_ok; rewrite Hp; apply Ha). assert (El : zlen items = zlen b) by (by rewrite Hp).
  destruct (bsearch_loop_spec compare size b key Hb Hs (S (Z.to_nat (zlen items))) 0 (zlen b)) as (r & Er & Hr); [lia..|].
  exists (concat b), r. split; [done|]. split; [unfold bsearch; by rewrite El in *|].
  assert (Hat : forall k x, b !! k = Some x -> 0 <= Z.of_nat k < zlen b /\ item_at b (Z.of_nat k) = x).
  { intros k x Hk. pose proof (lookup_lt_Some _ _ _ Hk). split; [lia|]. unfold item_at. by rewrite znth_of_nat, Hk. }
  destruct r as [off|].
  - destruct Hr as (k & Hk & -> & Ek). destruct (znth_lt b k Hk) as [x Hxk].
    assert (Hin : x ∈ items). { rewrite <- Hp. apply znth_Some in Hxk as [_ Hxk]. by eapply list_elem_of_lookup_2. }
    unfold item_at in Ek. rewrite Hxk in Ek. split.
    + split; [done|]. intros Hnone. by destruct (Hnone x Hin).
    + intros off [= <-]. exists x. split; [by apply rd_item|done].
  - split; [|done]. split; [|done]. intros _ x Hin. rewrite <- Hp in Hin. apply list_elem_of_lookup in Hin as [k Hk].
    destruct (Hat k x Hk) as [Hk' <-]. by apply Hr.
Qed.

Definition sample_items : list (list Z) := [[5;1]; [3;2]; [5;3]; [1;4]; [5;5]; [0;6]; [9;7]; [3;8]].

Lemma sample_items_ok : array_ok 2 sample_items.
Proof. split_and!; [by repeat constructor|by apply bytes_ok_decide|done..]. Qed.

Lemma qsort_sorts_witness : exists items', qsort byte_cmp exch (concat sample_items) 8 2 = Some (concat items')
  /\ items' ≡ₚ sample_items /\ StronglySorted (le byte_cmp) items'.
Proof.
  apply (qsort_sorts byte_cmp 2 exch sample_items); [apply exch_exchanges|apply sample_items_ok|by vm_compute].
Defined.

Lemma qsort_bsearch_witness : exists base r, qsort byte_cmp exch (concat sample_items) 8 2 = Some base
  /\ bsearch byte_cmp base [9] 8 2 = Some r
  /\ (r = None <-> forall x, x ∈ sample_items -> byte_cmp [9] x <> 0)
  /\ (forall off, r = Some off -> exists x, rd_bytes base off 2 = Some x /\ x ∈ sample_items /\ byte_cmp [9] x = 0).
Proof.
  apply (qsort_bsearch byte_cmp 2 exch sample_items [9]); [apply exch_exchanges|apply sample_items_ok|by vm_compute].
Defined.

(** Equal items may change places; a key between the items is not found. *)
Example qsort_example :
  qsort byte_cmp exch (concat sample_items) 8 2 = Some [0;6; 1;4; 3;8; 3;2; 5;1; 5;3; 5;5; 9;7]
  /\ bsearch byte_cmp [0;6; 1;4; 3;8; 3;2; 5;1; 5;3; 5;5; 9;7] [9;0] 8 2 = Some (Some 14)
  /\ bsearch byte_cmp [0;6; 1;4; 3;8; 3;2; 5;1; 5;3; 5;5; 9;7] [4;0] 8 2 = Some None.
Proof. by vm_compute. Qed.
