(* ===== verification/NumText.v ===== *)
(** * fun_base/type_c.c and fun_string/stropt.c: reading numbers

    A text is the list of the characters from the pointer on, values of [char], with its
    NUL; a read behind the list is undefined behaviour.  [unsigned long] and [long] have
    64 bits. *)

From stdpp Require Import prelude.
From S2P Require Import Prelude CMem.

(** ** Character classes *)

Definition t_isspace (x : Z) : bool := (x =? 0x20) || ((x >? 0x8) && (x <? 0xe)).
Definition t_isdigit2 (x : Z) : bool := (x =? 48) || (x =? 49).
Definition t_isdigit8 (x : Z) : bool := (x >? 0x2f) && (x <? 0x38).
Definition t_isdigit10 (x : Z) : bool := (x >? 0x2f) && (x <? 0x3a).

(** ** The steps the readers share *)

(** [while (p ( *s)) s++;] *)
Fixpoint skip (p : Z -> bool) (s : list Z) : option (list Z) :=
  match s with
  | [] => None
  | c :: s' => if p c then skip p s' else Some s
  end.

(** Whether there is a minus, and the text behind the sign. *)
Definition read_sign (s : list Z) : option (bool * list Z) :=
  c ← head s;
  Some (if c =? 45 then (true, tail s) else if c =? 43 then (false, tail s) else (false, s)).

(** [if (s[0] == '0' && (s[1] == lower || s[1] == upper)) s += 2;] *)
Definition skip_prefix (lower upper : Z) (s : list Z) : option (list Z) :=
  c0 ← head s;
  return_if negb (c0 =? 48) with Some s ;;
  c1 ← head (tail s);
  Some (if (c1 =? lower) || (c1 =? upper) then tail (tail s) else s).

(** The loop over the digits: [digit] is the new value, where the character is one. *)
Fixpoint read_digits (digit : Z -> Z -> option Z) (s : list Z) (val : Z) : option Z :=
  match s with
  | [] => None
  | ch :: s =>
      return_if ch =? 0 with Some val ;;
      match digit val ch with
      | Some val => read_digits digit s val
      | None => Some val
      end
  end.

(** [~val + 1] of a negative number. *)
Definition apply_sign (sign : bool) (val : Z) : Z := if sign then u64 (u64 (Z.lnot val) + 1) else val.

(** ** type_c.c *)

Definition digit2 (val ch : Z) : option Z :=
  if t_isdigit2 ch then Some (u64 (u64 (Z.shiftl val 1) + (ch - 48))) else None.
Definition digit8 (val ch : Z) : option Z :=
  if t_isdigit8 ch then Some (u64 (u64 (Z.shiftl val 3) + (ch - 48))) else None.
Definition digit10 (val ch : Z) : option Z :=
  if t_isdigit10 ch then Some (u64 (u64 (val * 10) + (ch - 48))) else None.
Definition digit16 (val ch : Z) : option Z :=
  if t_isdigit10 ch then Some (u64 (u64 (Z.shiftl val 4) + (ch - 48)))
  else if (ch >? 97 - 1) && (ch <? 102 + 1) then Some (u64 (u64 (Z.shiftl val 4) + (ch - 97) + 10))
  else if (ch >? 65 - 1) && (ch <? 70 + 1) then Some (u64 (u64 (Z.shiftl val 4) + (ch - 65) + 10))
  else None.

Definition t_s2_to_u64 (s : list Z) : option Z :=
  s ← skip t_isspace s;
  '(sign, s) ← read_sign s;
  s ← skip_prefix 98 66 s;
  s ← skip (fun c => c =? 48) s;
  val ← read_digits digit2 s 0;
  Some (apply_sign sign val).

Definition t_s8_to_u64 (s : list Z) : option Z :=
  s ← skip t_isspace s;
  '(sign, s) ← read_sign s;
  s ← skip (fun c => c =? 48) s;
  val ← read_digits digit8 s 0;
  Some (apply_sign sign val).

Definition t_s10_to_u64 (s : list Z) : option Z :=
  s ← skip t_isspace s;
  '(sign, s) ← read_sign s;
  s ← skip (fun c => c =? 48) s;
  val ← read_digits digit10 s 0;
  Some (apply_sign sign val).

Definition t_s16_to_u64 (s : list Z) : option Z :=
  s ← skip t_isspace s;
  '(sign, s) ← read_sign s;
  s ← skip_prefix 120 88 s;
  s ← skip (fun c => c =? 48) s;
  val ← read_digits digit16 s 0;
  Some (apply_sign sign val).

Definition t_s_to_u64 (s : list Z) : option Z :=
  p ← skip t_isspace s;
  c ← head p;
  let p := if (c =? 45) || (c =? 43) then tail p else p in
  c ← head p;
  return_if negb (c =? 48) with t_s10_to_u64 s ;;
  c ← head (tail p);
  if (c =? 120) || (c =? 88) then t_s16_to_u64 s
  else if (c =? 98) || (c =? 66) then t_s2_to_u64 s
  else t_s8_to_u64 s.

(** The table has 17 entries and the base is compared with 17 as an unsigned number. *)
Definition s_conv : list (option (list Z -> option Z)) :=
  [None; None; Some t_s2_to_u64; None; None; None; None; None; Some t_s8_to_u64; None; Some t_s10_to_u64;
   None; None; None; None; None; Some t_s16_to_u64].

Definition t_sb_to_u64 (s : list Z) (base : Z) : option Z :=
  return_if base mod 2 ^ 64 >? 17 with Some 0 ;;
  conv ← znth s_conv base;
  match conv with
  | None => Some 0
  | Some conv => conv s
  end.

(** Four characters in each turn. *)
Fixpoint t_strlen_loop (fuel : nat) (s : list Z) (p : Z) : option Z :=
  match fuel with
  | O => None
  | S fuel =>
      c ← rd8 s p; return_if c =? 0 with Some p ;;
      c ← rd8 s (p + 1); return_if c =? 0 with Some (p + 1) ;;
      c ← rd8 s (p + 2); return_if c =? 0 with Some (p + 2) ;;
      c ← rd8 s (p + 3); return_if c =? 0 with Some (p + 3) ;;
      t_strlen_loop fuel s (p + 4)
  end.

Definition t_strlen (s : list Z) : option Z := t_strlen_loop (S (length s)) s 0.

(** ** stropt.c *)

Definition is_long (x : Z) : bool := (- 2 ^ 63 <=? x) && (x <? 2 ^ 63).

(** [*s == ' ' || (unsigned int)( *s - 9) < 5u] *)
Definition is_blank (c : Z) : bool := (c =? 32) || (u32 (c - 9) <? 5).

(** [v = v * 10 + *s - '0'] in [long]: each intermediate value has to fit. *)
Fixpoint atol_loop (s : list Z) (v : Z) : option Z :=
  match s with
  | [] => None
  | c :: s =>
      return_if negb (u32 (c - 48) <? 10) with Some v ;;
      return_if negb (is_long (v * 10) && is_long (v * 10 + c)) with None ;;
      atol_loop s (v * 10 + c - 48)
  end.

Definition my_atol (s : list Z) : option Z :=
  s ← skip is_blank s;
  '(sign, s) ← read_sign s;
  v ← atol_loop s 0;
  Some (if (sign : bool) then - v else v).

(** The result is converted to [int]. *)
Definition my_atoi (s : list Z) : option Z :=
  s ← skip is_blank s;
  '(sign, s) ← read_sign s;
  v ← atol_loop s 0;
  Some (int32 (if (sign : bool) then - v else v)).

Example doc_examples :
  t_s2_to_u64 [49; 48; 48; 49; 0] = Some 9 /\ t_s2_to_u64 [48; 98; 49; 48; 48; 49; 0] = Some 9
  /\ t_s8_to_u64 [49; 49; 0] = Some 9 /\ t_s8_to_u64 [48; 49; 49; 0] = Some 9 /\ t_s10_to_u64 [57; 0] = Some 9
  /\ t_s16_to_u64 [57; 0] = Some 9 /\ t_s16_to_u64 [48; 120; 57; 0] = Some 9
  /\ t_s_to_u64 [48; 98; 49; 48; 48; 49; 0] = Some 9 /\ t_s_to_u64 [48; 49; 49; 0] = Some 9.
Proof. by vm_compute. Qed.

(** ** Numbers as texts

    The value of a digit in a base, and of a sequence of digits. *)

Definition digit_value (ch : Z) : option Z :=
  if (48 <=? ch) && (ch <=? 57) then Some (ch - 48)
  else if (97 <=? ch) && (ch <=? 102) then Some (ch - 87)
  else if (65 <=? ch) && (ch <=? 70) then Some (ch - 55)
  else None.

Definition radix_digit (base ch : Z) : option Z := d ← digit_value ch; if d <? base then Some d else None.

Definition value (base v : Z) (ds : list Z) : Z := fold_left (fun v d => v * base + d) ds v.

Lemma radix_digit_range base ch d : radix_digit base ch = Some d -> 0 <= d < base /\ 48 <= ch /\ (d = 0 <-> ch = 48).
Proof.
  unfold radix_digit, digit_value. repeat (zcase; cbn [andb]; try done; rewrite ?bind_Some); intros [= <-]; lia.
Qed.

Lemma u64_step v k d : u64 (u64 (v * k) + d) = u64 (v * k + d).
Proof. unfold u64. by rewrite Zplus_mod_idemp_l. Qed.

(** What each of the readers does with a character. *)
Definition reads_radix (base : Z) (digit : Z -> Z -> option Z) : Prop :=
  forall val ch, digit val ch = d ← radix_digit base ch; Some (u64 (val * base + d)).

Ltac radix_cases :=
  intros val ch; unfold radix_digit, digit_value, t_isdigit2, t_isdigit8, t_isdigit10;
  repeat (zcase; cbn [andb orb]; rewrite ?bind_Some; try lia; try done);
  rewrite ?Z.shiftl_mul_pow2, <- ?Z.add_assoc, ?u64_step by done; do 2 f_equal; lia.

Lemma digit2_radix : reads_radix 2 digit2.
Proof. unfold digit2. radix_cases. Qed.
Lemma digit8_radix : reads_radix 8 digit8.
Proof. unfold digit8. radix_cases. Qed.
Lemma digit10_radix : reads_radix 10 digit10.
Proof. unfold digit10. radix_cases. Qed.
Lemma digit16_radix : reads_radix 16 digit16.
Proof. unfold digit16. radix_cases. Qed.

(** *** The steps on such texts *)

Abbreviation digits base := (Forall2 (fun ch d => radix_digit base ch = Some d)).

Lemma skip_app p l c rest : Forall (fun x => p x = true) l -> p c = false -> skip p (l ++ c :: rest) = Some (c :: rest).
Proof. intros Hl Hc. induction Hl as [|x l Hx _ IH]; cbn [app skip]; [by rewrite Hc|by rewrite Hx]. Qed.

Lemma read_digits_spec base digit cs ds v t rest : reads_radix base digit -> digits base cs ds -> radix_digit base t = None ->
  read_digits digit (cs ++ t :: rest) (u64 v) = Some (u64 (value base v ds)).
Proof.
  intros Hd Hcs Ht. revert v. induction Hcs as [|ch d cs ds Hch _ IH]; intros v; cbn [app read_digits].
  - rewrite Hd, Ht. by destruct (t =? 0).
  - apply radix_digit_range in Hch as Hr. zfalse (ch =? 0). rewrite Hd, Hch, bind_Some.
    replace (u64 (u64 v * base + d)) with (u64 (v * base + d)); [apply IH|].
    unfold u64. by rewrite Zplus_mod, <- (Zmult_mod_idemp_l v), <- Zplus_mod.
Qed.

Lemma skip_zeros base cs ds t rest : digits base cs ds -> radix_digit base t = None -> 0 < base ->
  exists cs' ds', skip (fun c => c =? 48) (cs ++ t :: rest) = Some (cs' ++ t :: rest) /\ digits base cs' ds'
    /\ value base 0 ds' = value base 0 ds.
Proof.
  intros Hcs Ht Hb. induction Hcs as [|ch d cs ds Hch Hcs IH]; cbn [app skip].
  - exists [], []. split; [|done]. destruct (Z.eqb_spec t 48) as [->|]; [|done].
    exfalso. change (radix_digit base 48) with (if 0 <? base then Some 0 else None) in Ht. by destruct (Z.ltb_spec 0 base); [|lia].
  - destruct (Z.eqb_spec ch 48) as [->|Hne]; [|exists (ch :: cs), (d :: ds); split; [done|]; split; [by constructor|done]].
    destruct IH as (cs' & ds' & E & H & Hv). exists cs', ds'. split; [done|]. split; [done|].
    apply radix_digit_range in Hch as (_ & _ & [_ H0]). rewrite Hv, H0 by done. done.
Qed.

Definition signed (sign : bool) (v : Z) : Z := if sign then - v else v.

Lemma apply_sign_spec sign v : apply_sign sign (u64 v) = u64 (signed sign v).
Proof.
  destruct sign; [|done]. unfold apply_sign, signed, u64. rewrite Zplus_mod_idemp_l. unfold Z.lnot.
  replace (Z.pred (- (v mod 2 ^ 64)) + 1) with (0 - v mod 2 ^ 64) by lia. by rewrite Zminus_mod_idemp_r.
Qed.

(** What the readers do behind the prefix. *)
Lemma read_number base digit sign cs ds t rest : reads_radix base digit -> 0 < base -> digits base cs ds -> radix_digit base t = None ->
  (s ← skip (fun c => c =? 48) (cs ++ t :: rest); val ← read_digits digit s 0; Some (apply_sign sign val))
  = Some (u64 (signed sign (value base 0 ds))).
Proof.
  intros Hd Hb Hcs Ht. destruct (skip_zeros base cs ds t rest) as (cs' & ds' & -> & H & Hv); [done..|]. rewrite bind_Some.
  change 0 with (u64 0). rewrite (read_digits_spec base _ _ ds'), bind_Some by done. by rewrite apply_sign_spec, Hv.
Qed.

Definition sign_chars (sg : option bool) : list Z := match sg with None => [] | Some true => [45] | Some false => [43] end.

Lemma read_sign_spec sg c rest : c <> 43 -> c <> 45 ->
  read_sign (sign_chars sg ++ c :: rest) = Some (default false sg, c :: rest).
Proof. intros H1 H2. destruct sg as [[]|]; cbn; try done. by zfalse (c =? 45); zfalse (c =? 43). Qed.

(** Spaces and sign: [c] is the next character. *)
Lemma read_start spaces sg c rest {R} (k : bool * list Z -> option R) : Forall (fun x => t_isspace x = true) spaces -> 48 <= c ->
  (s ← skip t_isspace (spaces ++ sign_chars sg ++ c :: rest); read_sign s ≫= k) = k (default false sg, c :: rest).
Proof.
  intros Hs Hc. assert (E : exists c' rest', sign_chars sg ++ c :: rest = c' :: rest' /\ t_isspace c' = false).
  { unfold t_isspace. destruct sg as [[]|]; eexists _, _; (split; [done|]); [done|done|]. zfalse (c =? 32). by zfalse ((c >? 8) && (c <? 14)). }
  destruct E as (c' & rest' & E & Hc'). rewrite E, skip_app, bind_Some by done. by rewrite <- E, read_sign_spec, bind_Some by lia.
Qed.

(** ** The four notations *)

Inductive radix := Bin | Oct | Dec | Hex.

Definition base_of (r : radix) : Z := match r with Bin => 2 | Oct => 8 | Dec => 10 | Hex => 16 end.
Definition prefix_of (r : radix) (upper : bool) : list Z :=
  match r with
  | Bin => [48; if upper then 66 else 98]
  | Oct => [48]
  | Dec => []
  | Hex => [48; if upper then 88 else 120]
  end.

(** Digits [cs] followed by [t] that the prefix does not change the meaning of. *)
Definition unambiguous (r : radix) (cs : list Z) (t : Z) : Prop :=
  match r with
  | Dec => exists c cs', cs = c :: cs' /\ c <> 48
  | Oct => cs = [] -> t ∉ [66; 98; 88; 120]
  | _ => True
  end.

Definition number_text (r : radix) (spaces : list Z) (sg : option bool) (upper : bool) (cs : list Z) (t : Z) (rest : list Z) : list Z :=
  spaces ++ sign_chars sg ++ prefix_of r upper ++ cs ++ t :: rest.

Lemma skip_prefix_given l u c s : c = l \/ c = u -> skip_prefix l u (48 :: c :: s) = Some s.
Proof. intros H. unfold skip_prefix. cbn. by ztrue ((c =? l) || (c =? u)). Qed.

(** The reader of the base reads the number. *)
Definition reader (r : radix) : list Z -> option Z :=
  match r with Bin => t_s2_to_u64 | Oct => t_s8_to_u64 | Dec => t_s10_to_u64 | Hex => t_s16_to_u64 end.

Lemma reader_spec r spaces sg upper cs ds t rest : Forall (fun x => t_isspace x = true) spaces ->
  digits (base_of r) cs ds -> radix_digit (base_of r) t = None -> unambiguous r cs t ->
  reader r (number_text r spaces sg upper cs t rest) = Some (u64 (signed (default false sg) (value (base_of r) 0 ds))).
Proof.
  intros Hs Hcs Ht Hu. unfold number_text. destruct r; cbn [prefix_of app reader].
  - unfold t_s2_to_u64. rewrite (read_start spaces sg 48), skip_prefix_given, bind_Some by (done || by destruct upper; auto).
    by apply (read_number 2); [apply digit2_radix|..].
  - unfold t_s8_to_u64. rewrite (read_start spaces sg 48) by done.
    apply (read_number 8 digit8 _ (48 :: cs) (0 :: ds)); [apply digit8_radix|done|by constructor|done].
  - destruct Hu as (c & cs' & -> & Hc). unfold t_s10_to_u64. inversion Hcs as [|? d ? ds' Hd Hcs']; subst.
    apply radix_digit_range in Hd as Hr. cbn [app]. rewrite (read_start spaces sg c) by (done || lia).
    by apply (read_number 10 digit10 _ (c :: cs') (d :: ds')); [apply digit10_radix|..].
  - unfold t_s16_to_u64. rewrite (read_start spaces sg 48), skip_prefix_given, bind_Some by (done || by destruct upper; auto).
    by apply (read_number 16); [apply digit16_radix|..].
Qed.

(** [t_s_to_u64] finds the reader. *)
Lemma t_s_to_u64_reader r spaces sg upper cs ds t rest : Forall (fun x => t_isspace x = true) spaces ->
  digits (base_of r) cs ds -> unambiguous r cs t ->
  t_s_to_u64 (number_text r spaces sg upper cs t rest) = reader r (number_text r spaces sg upper cs t rest).
Proof.
  intros Hs Hcs Hu. unfold t_s_to_u64. set (s := number_text _ _ _ _ _ _ _).
  assert (E : forall c rest', prefix_of r upper ++ cs ++ t :: rest = c :: rest' -> 48 <= c -> forall R (k : list Z -> option R),
    (p ← skip t_isspace s; c ← head p; k (if (c =? 45) || (c =? 43) then tail p else p)) = k (c :: rest')).
  { intros c rest' E Hc R k. unfold s, number_text. rewrite E. destruct sg as [sign|].
    - cbn [sign_chars]. destruct sign; cbn [app]; by rewrite skip_app, bind_Some.
    - cbn [sign_chars app]. rewrite skip_app, bind_Some; [|done|unfold t_isspace; zfalse (c =? 32); by zfalse ((c >? 8) && (c <? 14))].
      cbn [head hd_error]. rewrite bind_Some. by zfalse (c =? 45); zfalse (c =? 43). }
  set (K := fun p => c ← head p; return_if negb (c =? 48) with t_s10_to_u64 s ;; c ← head (tail p);
    if (c =? 120) || (c =? 88) then t_s16_to_u64 s else if (c =? 98) || (c =? 66) then t_s2_to_u64 s else t_s8_to_u64 s).
  change (t_s_to_u64 s = reader r s). change (t_s_to_u64 s) with (p ← skip t_isspace s; c ← head p; K (if (c =? 45) || (c =? 43) then tail p else p)).
  destruct r; cbn [prefix_of app reader base_of] in *.
  - rewrite (E _ _ eq_refl) by done. by destruct upper.
  - rewrite (E _ _ eq_refl) by done. unfold K. cbn [head hd_error tail]. rewrite bind_Some. change (48 =? 48) with true. cbn [negb].
    assert (Hc : exists c cs', cs ++ t :: rest = c :: cs' /\ c ∉ [66; 98; 88; 120]).
    { destruct Hcs as [|ch d cs' ds' Hch]; [exists t, rest; split; [done|by apply Hu]|]. exists ch, (cs' ++ t :: rest). split; [done|].
      unfold radix_digit, digit_value in Hch. intros Hin. rewrite !elem_of_cons in Hin. destruct Hin as [->|[->|[->|[->|[]%elem_of_nil]]]]; done. }
    destruct Hc as (c & cs' & -> & Hc). cbn [hd_error]. rewrite bind_Some.
    rewrite !not_elem_of_cons in Hc. destruct Hc as (? & ? & ? & ? & _).
    by zfalse ((c =? 120) || (c =? 88)); zfalse ((c =? 98) || (c =? 66)).
  - destruct Hu as (c & cs' & -> & Hc). inversion Hcs as [|? d ? ds' Hd Hcs']; subst. apply radix_digit_range in Hd as Hr.
    rewrite (E c (cs' ++ t :: rest)) by (done || lia). unfold K. cbn [head hd_error]. rewrite bind_Some. by zfalse (c =? 48).
  - rewrite (E _ _ eq_refl) by done. by destruct upper.
Qed.

(** C34: numbers are read with the base of their notation, 0b for binary, 0 for octal, 0x
    for hexadecimal and a digit other than 0 for decimal: after any white space and a
    sign, [t_s_to_u64] and, given the base, [t_sb_to_u64] return the value of the digits
    up to the first character that is not one, modulo 2^64 and negated after a minus. *)
Theorem t_s_to_u64_reads r spaces sg upper cs ds t rest : Forall (fun x => t_isspace x = true) spaces ->
  digits (base_of r) cs ds -> radix_digit (base_of r) t = None -> unambiguous r cs t ->
  let text := number_text r spaces sg upper cs t rest in
  let v := signed (default false sg) (value (base_of r) 0 ds) mod 2 ^ 64 in
  t_s_to_u64 text = Some v /\ t_sb_to_u64 text (base_of r) = Some v.
Proof.
  intros Hs Hcs Ht Hu text v. pose proof (reader_spec r spaces sg upper cs ds t rest Hs Hcs Ht Hu) as E. split.
  - unfold text. by rewrite (t_s_to_u64_reader _ _ _ _ _ ds).
  - unfold t_sb_to_u64. by destruct r.
Qed.

Lemma t_s_to_u64_reads_witness :
  t_s_to_u64 [32; 45; 48; 88; 49; 70; 102; 59; 0] = Some (2 ^ 64 - 511)
  /\ t_sb_to_u64 [32; 45; 48; 88; 49; 70; 102; 59; 0] 16 = Some (2 ^ 64 - 511).
Proof.
  apply (t_s_to_u64_reads Hex [32] (Some true) true [49; 70; 102] [1; 15; 15] 59 [0]); [by repeat constructor|by repeat constructor|done|done].
Defined.

(** A base of 17 passes the test and is looked up behind the table. *)
Example base_17 : t_sb_to_u64 [49; 0] 17 = None /\ t_sb_to_u64 [49; 0] 18 = Some 0 /\ t_sb_to_u64 [49; 0] (-2) = Some 0.
Proof. by vm_compute. Qed.

(** ** t_strlen *)

Lemma t_strlen_loop_spec fuel : forall pre s rest, 0 ∉ s -> (length s < fuel)%nat ->
  t_strlen_loop fuel (pre ++ s ++ 0 :: rest) (zlen pre) = Some (zlen pre + zlen s).
Proof.
  induction fuel as [|fuel IH]; intros pre s rest Hs Hf; [lia|]. cbn [t_strlen_loop].
  set (l := s ++ 0 :: rest).
  rewrite (rd8_skip pre l (zlen pre) 0), (rd8_skip pre l (zlen pre + 1) 1), (rd8_skip pre l (zlen pre + 2) 2),
    (rd8_skip pre l (zlen pre + 3) 3) by lia. unfold l.
  do 4 (destruct s as [|? s]; cbn [app lookup list_lookup]; rewrite bind_Some; [cbn; f_equal; lia|];
    apply not_elem_of_cons in Hs as [? Hs]; rewrite (proj2 (Z.eqb_neq _ 0)) by congruence).
  match goal with |- context [pre ++ ?a :: ?b :: ?c :: ?d :: s ++ _] => set (q := [a; b; c; d]) end.
  replace (pre ++ _ :: _) with ((pre ++ q) ++ s ++ 0 :: rest) by (by rewrite <- app_assoc).
  replace (zlen pre + 4) with (zlen (pre ++ q)) by (unfold q; len). rewrite IH by (done || (cbn in Hf; lia)). f_equal. unfold q. len.
Qed.

Lemma t_strlen_spec s rest : 0 ∉ s -> t_strlen (s ++ 0 :: rest) = Some (zlen s).
Proof. intros Hs. apply (t_strlen_loop_spec _ []); [done|]. rewrite length_app. cbn. lia. Qed.

(** ** my_atol and my_atoi *)

Lemma value_grows ds v : Forall (fun d => 0 <= d < 10) ds -> 0 <= v -> v <= value 10 v ds.
Proof.
  intros Hds. revert v. induction Hds as [|d ds Hd _ IH]; intros v Hv; [done|]. cbn [value fold_left].
  specialize (IH (v * 10 + d)). unfold value in IH. lia.
Qed.

Lemma digits_range cs ds : digits 10 cs ds -> Forall (fun d => 0 <= d < 10) ds.
Proof. induction 1 as [|c d cs ds H _ IH]; [constructor|]. constructor; [exact (proj1 (radix_digit_range _ _ _ H))|done]. Qed.

Lemma decimal_digit c d : radix_digit 10 c = Some d -> d = c - 48 /\ 48 <= c < 58.
Proof. unfold radix_digit, digit_value. repeat (zcase; cbn [andb]; try done; rewrite ?bind_Some); intros [= <-]; lia. Qed.

Lemma not_decimal c : - 128 <= c < 256 -> radix_digit 10 c = None -> (u32 (c - 48) <? 10) = false.
Proof.
  unfold radix_digit, digit_value, u32. intros Hc H. apply Z.ltb_ge.
  destruct (Z.le_gt_cases 48 c); [|zlia]. destruct (Z.le_gt_cases c 57); [|zlia]. exfalso. revert H.
  ztrue ((48 <=? c) && (c <=? 57)). rewrite bind_Some. by ztrue (c - 48 <? 10).
Qed.

Lemma atol_loop_spec cs ds t rest v : digits 10 cs ds -> - 128 <= t < 256 -> radix_digit 10 t = None -> 0 <= v ->
  value 10 v ds + 48 < 2 ^ 63 -> atol_loop (cs ++ t :: rest) v = Some (value 10 v ds).
Proof.
  intros Hcs Hr Ht. revert v. induction Hcs as [|c d cs ds Hc Hcs IH]; intros v Hv Hmax; cbn [app atol_loop].
  - by rewrite not_decimal.
  - destruct (decimal_digit c d Hc) as [-> Hd]. cbn [value fold_left] in Hmax |- *. rewrite u32_id by lia.
    ztrue (c - 48 <? 10). cbn [negb]. pose proof (value_grows ds (v * 10 + (c - 48)) (digits_range _ _ Hcs) ltac:(lia)) as Hg.
    unfold value in Hg. unfold is_long.
    ztrue ((- 2 ^ 63 <=? v * 10) && (v * 10 <? 2 ^ 63)). ztrue ((- 2 ^ 63 <=? v * 10 + c) && (v * 10 + c <? 2 ^ 63)). cbn [andb negb].
    rewrite <- Z.add_sub_assoc. apply IH; [lia|done].
Qed.

(** [my_atol] reads decimal numbers: behind white space and a sign the digits up to
    the first other character are the result, negated after a minus, for numbers that are
    at least 48 below the largest [long]; [my_atoi] is its conversion to [int]. *)
Theorem my_atol_reads spaces sg c cs ds t rest : Forall (fun x => is_blank x = true) spaces -> digits 10 (c :: cs) ds ->
  - 128 <= t < 256 -> radix_digit 10 t = None -> value 10 0 ds + 48 < 2 ^ 63 ->
  let text := spaces ++ sign_chars sg ++ c :: cs ++ t :: rest in
  let v := signed (default false sg) (value 10 0 ds) in
  my_atol text = Some v /\ my_atoi text = Some (int32 v).
Proof.
  intros Hs Hcs Hr Ht Hmax text v.
  assert (Hc : 48 <= c < 58). { inversion Hcs as [|? d ? ? Hd]; subst. by destruct (decimal_digit c d Hd). }
  assert (E : (s ← skip is_blank text; read_sign s) = Some (default false sg, (c :: cs) ++ t :: rest)).
  { assert (E : exists c' rest', sign_chars sg ++ c :: cs ++ t :: rest = c' :: rest' /\ is_blank c' = false).
    { unfold is_blank. destruct sg as [[]|]; eexists _, _; (split; [done|]); [done|done|]. rewrite u32_id by lia. by zfalse (c =? 32); zfalse (c - 9 <? 5). }
    destruct E as (c' & rest' & E & Hb). unfold text. rewrite E, skip_app, bind_Some by done. rewrite <- E. apply read_sign_spec; lia. }
  pose proof (atol_loop_spec (c :: cs) ds t rest 0 Hcs Hr Ht ltac:(lia) Hmax) as El.
  unfold my_atol, my_atoi. revert E. destruct (skip is_blank text) as [s|]; [|done]. rewrite !bind_Some. intros E.
  rewrite E, !bind_Some. cbn [app] in El |- *. by rewrite El.
Qed.

Lemma my_atol_reads_witness : my_atol [9; 45; 52; 50; 46; 0] = Some (-42) /\ my_atoi [9; 45; 52; 50; 46; 0] = Some (-42).
Proof.
  apply (my_atol_reads [9] (Some true) 52 [50] [4; 2] 46 [0]); [by repeat constructor|by repeat constructor|lia|done|by vm_compute].
Defined.

(** The largest [long] itself overflows in between; a larger [int] wraps around. *)
Example atol_limits :
  my_atol [57; 50; 50; 51; 51; 55; 50; 48; 51; 54; 56; 53; 52; 55; 55; 53; 56; 48; 55; 0] = None
  /\ my_atoi [50; 49; 52; 55; 52; 56; 51; 54; 52; 56; 0] = Some (- 2 ^ 31).
Proof. by vm_compute. Qed.
