(* ===== verification/Stropt.v ===== *)
(** * fun_string/stropt.c: editing, searching and splitting strings

    A string is the part of a character array from an offset to the next NUL, shorter than
    2^31; the operations work on the whole array, so that what they leave behind the string
    shows. *)

From stdpp Require Import prelude.
From S2P Require Import Prelude CMem.

(** ** The functions of string.h *)

(** How many characters from offset [i] on satisfy [p], before the NUL at the latest. *)
Fixpoint span (p : Z -> bool) (s : list Z) : option Z :=
  match s with
  | [] => None
  | c :: s => if (c =? 0) || negb (p c) then Some 0 else n ← span p s; Some (n + 1)
  end.

Definition span_at (p : Z -> bool) (m : list Z) (i : Z) : option Z :=
  if (0 <=? i) && (i <=? zlen m) then span p (drop (Z.to_nat i) m) else None.

Definition one_of (set : list Z) (c : Z) : bool := existsb (Z.eqb c) set.

Definition strlen (m : list Z) (i : Z) : option Z := span_at (fun _ => true) m i.
Definition strspn (m : list Z) (i : Z) (accept : list Z) : option Z := span_at (one_of accept) m i.
Definition strcspn (m : list Z) (i : Z) (reject : list Z) : option Z := span_at (fun c => negb (one_of reject c)) m i.

(** The offset of the first character of the set, or of the character [c]. *)
Definition strpbrk (m : list Z) (i : Z) (accept : list Z) : option (option Z) :=
  n ← strcspn m i accept;
  c ← rd8 m (i + n);
  Some (if c =? 0 then None else Some (i + n)).

Definition strchr (m : list Z) (i c : Z) : option (option Z) :=
  n ← span_at (fun x => negb (x =? c)) m i;
  x ← rd8 m (i + n);
  Some (if x =? c then Some (i + n) else None).

(** The offset of the last one. *)
Definition strrchr (m : list Z) (i c : Z) : option (option Z) :=
  n ← strlen m i;
  for_range (Z.to_nat (n + 1)) i (fun k found => x ← rd8 m k; Some (if x =? c then Some k else found)) None.

(** ** Searching and cutting

    A null pointer is [None]. *)

Definition find_bychar (str : option (list Z)) (seq from : Z) : option Z :=
  match str with
  | None => Some (-1)
  | Some str =>
      str_len ← strlen str 0;
      return_if from >=? str_len with Some (-1) ;;
      ptr ← strchr str from seq;
      Some (default (-1) ptr)
  end.

(** The result counts from [from]. *)
Definition rfind_bychar (str : option (list Z)) (seq from : Z) : option Z :=
  match str with
  | None => Some (-1)
  | Some str =>
      str_len ← strlen str 0;
      return_if from >=? str_len with Some (-1) ;;
      ptr ← strrchr str from seq;
      Some (match ptr with Some p => p - from | None => -1 end)
  end.

(** [position] is unsigned; no NUL is written. *)
Definition str_substr (str output : option (list Z)) (position n : Z) : option (option (list Z)) :=
  match str, output with
  | Some str, Some output =>
      str_len ← strlen str 0;
      return_if position >=? str_len with Some (Some output) ;;
      let n := if (n >? 0) && (u32 (position + n) >? str_len) then -1 else n in
      out ← memcpy output 0 str position (if n <? 0 then str_len - position else n);
      Some (Some out)
  | _, _ => Some output
  end.

(** Whether [output] is returned, and what it holds. *)
Fixpoint path_loop (fuel : nat) (path : list Z) (output : option (list Z)) (str_len level sep an_dir t_lev : Z)
    : option (bool * option (list Z)) :=
  match fuel with
  | O => None
  | S fuel =>
      t_dir ← find_bychar (Some path) sep an_dir;
      if t_dir =? -1 then
        return_if negb (t_lev =? level) with Some (false, output) ;;
        match output with
        | Some _ => out ← str_substr (Some path) output an_dir (str_len - an_dir); Some (true, out)
        | None => Some (false, output)
        end
      else if t_lev =? level then
        match output with
        | Some _ => out ← str_substr (Some path) output an_dir (t_dir - an_dir); Some (true, out)
        | None => Some (false, output)
        end
      else path_loop fuel path output str_len level sep (t_dir + 1) (t_lev + 1)
  end.

Definition str_strPathSep (path output : option (list Z)) (level sep : Z) : option (bool * option (list Z)) :=
  match path with
  | None => Some (false, output)
  | Some path =>
      str_len ← strlen path 0;
      path_loop (S (length path)) path output str_len level sep 0 0
  end.

(** ** Splitting in place *)

(** The token, the array and the position behind it. *)
Definition str_strtok (m : list Z) (src : Z) (sep : list Z) : option (option Z * list Z * Z) :=
  n ← strspn m src sep;
  let start := src + n in
  c ← rd8 m start;
  return_if c =? 0 with Some (None, m, start) ;;
  n ← strcspn m start sep;
  let end_ := start + n in
  c ← rd8 m end_;
  if negb (c =? 0)
  then m ← wr8 m end_ 0; Some (Some start, m, end_ + 1)
  else Some (Some start, m, end_).

Fixpoint strtoks_loop (fuel : nat) (m : list Z) (start : Z) (delim : list Z) (argv : list Z) (size i : Z)
    : option (Z * list Z * list Z) :=
  match fuel with
  | O => None
  | S fuel =>
      '(arg, m, start) ← str_strtok m start delim;
      match arg with
      | None => Some (i, m, argv)
      | Some arg =>
          argv ← zset argv i arg;
          return_if i + 1 >=? size with Some (i + 1, m, argv) ;;
          strtoks_loop fuel m start delim argv size (i + 1)
      end
  end.

Definition str_strtoks (m : list Z) (src : Z) (delim argv : list Z) (size : Z) : option (Z * list Z * list Z) :=
  strtoks_loop (S (length m)) m src delim argv size 0.

(** The array, [*save_ptr] and [*delim_found] are the state. *)
Definition estrtok_r (m : list Z) (str : option Z) (delims : list Z) (save_ptr : option Z) (delim_found : Z)
    : option (option Z * list Z * option Z * Z) :=
  match (match str with Some s => Some s | None => save_ptr end) with
  | None => Some (None, m, save_ptr, delim_found)
  | Some start =>
      c ← rd8 m start;
      if c =? 0 then
        if negb (delim_found =? 0) then Some (Some start, m, None, 0) else Some (None, m, save_ptr, delim_found)
      else
        del ← strpbrk m start delims;
        match del with
        | None => Some (Some start, m, None, 0)
        | Some del =>
            d ← rd8 m del;
            m ← wr8 m del 0;
            Some (Some start, m, Some (del + 1), d)
        end
  end.

(** The loop of its comment: the first call with the string, the others with null, until
    null is returned; the tokens with the delimiters found. *)
Fixpoint estrtok_all (fuel : nat) (m : list Z) (str : option Z) (delims : list Z) (save_ptr : option Z) (delim_found : Z)
    : option (list (Z * Z) * list Z) :=
  match fuel with
  | O => None
  | S fuel =>
      '(tok, m, save_ptr, delim_found) ← estrtok_r m str delims save_ptr delim_found;
      match tok with
      | None => Some ([], m)
      | Some tok => '(toks, m) ← estrtok_all fuel m None delims save_ptr delim_found; Some ((tok, delim_found) :: toks, m)
      end
  end.

(** ** Editing *)

(** [for (j = i; j < strlen (str); j++) str[j] = str[j + 1];] *)
Fixpoint shift_left (fuel : nat) (str : list Z) (j : Z) : option (list Z) :=
  match fuel with
  | O => None
  | S fuel =>
      len ← strlen str 0;
      return_if negb (j <? len) with Some str ;;
      c ← rd8 str (j + 1);
      str ← wr8 str j c;
      shift_left fuel str (j + 1)
  end.

Fixpoint DelSpace_loop (fuel : nat) (str : list Z) (i : Z) : option (list Z * Z) :=
  match fuel with
  | O => None
  | S fuel =>
      c ← rd8 str i;
      return_if c =? 0 with Some (str, i) ;;
      if c =? 32 then
        str ← shift_left (S (length str)) str i;
        DelSpace_loop fuel str i
      else DelSpace_loop fuel str (i + 1)
  end.

Definition DelSpaceFromString (str : list Z) : option (list Z) :=
  '(str, i) ← DelSpace_loop (S (length str)) str 0;
  wr8 str i 0.

(** [left] and [right] are offsets. *)
Fixpoint deblank_loop (fuel : nat) (str : list Z) (left_ right_ : Z) : option (list Z * Z) :=
  match fuel with
  | O => None
  | S fuel =>
      c ← rd8 str right_;
      return_if c =? 0 with Some (str, left_) ;;
      '(str, left_) ← (if negb (c =? 32)
        then str ← (if left_ <? right_ then wr8 str left_ c else Some str); Some (str, left_ + 1)
        else Some (str, left_));
      c ← rd8 str right_;
      d ← rd8 str (right_ + 1);
      '(str, left_) ← (if (c =? 32) && negb (d =? 32) then str ← wr8 str left_ 32; Some (str, left_ + 1) else Some (str, left_));
      deblank_loop fuel str left_ (right_ + 1)
  end.

(** The array and the offset returned. *)
Definition deblank (str : list Z) : option (list Z * Z) :=
  '(str, left_) ← deblank_loop (S (length str)) str 0 0;
  str ← wr8 str left_ 0;
  c ← rd8 str 0;
  Some (str, if negb (c =? 32) then 0 else 1).

(** [beg] and [end] are -1 until a character that is not in [cfg] is met. *)
Definition trim_step (val cfg : list Z) (cfg_size : Z) (iS : Z) (st : Z * Z) : option (Z * Z) :=
  let '(beg, end_) := st in
  c ← rd8 val iS;
  in_cfg ← exists_range (Z.to_nat cfg_size) 0 (fun iC => d ← rd8 cfg iC; Some (c =? d));
  Some (if (in_cfg : bool) then (beg, end_) else (if beg <? 0 then iS else beg, iS)).

Definition str_Trim (val cfg : option (list Z)) : option (option (list Z * Z)) :=
  match val, cfg with
  | None, _ => Some None
  | Some val, None => Some (Some (val, 0))
  | Some val, Some cfg =>
      val_size ← strlen val 0;
      cfg_size ← strlen cfg 0;
      '(beg, end_) ← for_range (Z.to_nat val_size) 0 (trim_step val cfg cfg_size) (-1, -1);
      return_if negb (beg >=? 0) with Some (Some (val, 0)) ;;
      val ← wr8 val (end_ + 1) 0;
      Some (Some (val, beg))
  end.

(** [isspace] in the C locale. *)
Definition isspace (c : Z) : bool := (c =? 32) || ((9 <=? c) && (c <=? 13)).

Fixpoint trim_end (s : list Z) (n : nat) : option Z :=
  match n with
  | O => Some 0
  | S n' => c ← rd8 s (Z.of_nat n'); if isspace c then trim_end s n' else Some (Z.of_nat n)
  end.

Definition trim (s : list Z) : option (list Z) :=
  len ← strlen s 0;
  len ← trim_end s (Z.to_nat len);
  '(s, len) ← (if negb (len =? 0) then
      lws ← strspn s 0 [10; 13; 9; 11];
      if negb (lws =? 0) then s ← memmove_in s 0 lws (len - lws); Some (s, len - lws) else Some (s, len)
    else Some (s, len));
  wr8 s len 0.

Example stropt_examples :
  DelSpaceFromString [32; 97; 32; 32; 98; 32; 0] = Some [97; 98; 0; 0; 0; 0; 0]
  /\ deblank [32; 32; 97; 32; 32; 98; 32; 0] = Some ([32; 97; 32; 98; 32; 0; 32; 0], 1)
  /\ str_Trim (Some [10; 97; 10; 98; 10; 0]) (Some [10; 0]) = Some (Some ([10; 97; 10; 98; 0; 0], 1))
  /\ trim [9; 32; 97; 98; 32; 0] = Some [32; 97; 98; 0; 32; 0].
Proof. vm_compute. done. Qed.

(** ** Lengths of runs *)

Lemma span_app p s c rest : 0 ∉ s -> Forall (fun x => p x = true) s -> c = 0 \/ p c = false ->
  span p (s ++ c :: rest) = Some (zlen s).
Proof.
  intros Hs Hp Hc. induction Hp as [|x s Hx _ IH]; cbn [app span].
  - destruct Hc as [->|Hc]; [done|]. by rewrite Hc, orb_true_r.
  - apply not_elem_of_cons in Hs as [Hx0 Hs]. rewrite (proj2 (Z.eqb_neq x 0)), Hx, IH by (done || congruence).
    cbn [orb negb mbind option_bind length]. f_equal. lia.
Qed.

Lemma span_at_app p pre s c rest i : i = zlen pre -> 0 ∉ s -> Forall (fun x => p x = true) s -> c = 0 \/ p c = false ->
  span_at p (pre ++ s ++ c :: rest) i = Some (zlen s).
Proof.
  intros -> Hs Hp Hc. unfold span_at. rewrite (length_app pre).
  ztrue ((0 <=? zlen pre) && (zlen pre <=? Z.of_nat (length pre + length (s ++ c :: rest)))).
  rewrite Nat2Z.id, drop_app_length. by apply span_app.
Qed.

Lemma strlen_app pre s rest i : i = zlen pre -> 0 ∉ s -> strlen (pre ++ s ++ 0 :: rest) i = Some (zlen s).
Proof. intros Hi Hs. apply span_at_app; [done|done|by apply Forall_true|by left]. Qed.

Lemma strlen_0 s rest : 0 ∉ s -> strlen (s ++ 0 :: rest) 0 = Some (zlen s).
Proof. by apply (strlen_app []). Qed.

Lemma rd8_app pre c rest i : i = zlen pre -> rd8 (pre ++ c :: rest) i = Some c.
Proof. intros ->. by rewrite (rd8_skip pre (c :: rest) _ 0) by lia. Qed.

(** The part of a list before the first element that does not satisfy [p]. *)
Lemma prefix_split (p : Z -> bool) s : exists a b, s = a ++ b /\ Forall (fun x => p x = true) a
  /\ (b = [] \/ exists c b', b = c :: b' /\ p c = false).
Proof.
  induction s as [|c s (a & b & -> & Ha & Hb)]; [by exists [], []; auto|]. destruct (p c) eqn:E.
  - exists (c :: a), b. auto.
  - exists [], (c :: a ++ b). eauto 10.
Qed.

(** ** Splitting a list *)

(** The segments between the separators. *)
Fixpoint split (p : Z -> bool) (s : list Z) : list (list Z) :=
  match s with
  | [] => [[]]
  | c :: s => if p c then [] :: split p s
              else match split p s with x :: xs => (c :: x) :: xs | [] => [[c]] end
  end.

Definition tokens (p : Z -> bool) (s : list Z) : list (list Z) := filter (fun x => x <> []) (split p s).

Lemma split_last p x : Forall (fun c => p c = false) x -> split p x = [x].
Proof. induction 1 as [|c x Hc _ IH]; [done|]. cbn [split]. by rewrite Hc, IH. Qed.

Lemma split_next p x c s : Forall (fun c => p c = false) x -> p c = true -> split p (x ++ c :: s) = x :: split p s.
Proof. intros Hx Hc. induction Hx as [|d x Hd _ IH]; cbn [app split]; [by rewrite Hc|by rewrite Hd, IH]. Qed.

Lemma tokens_skip p a s : Forall (fun c => p c = true) a -> tokens p (a ++ s) = tokens p s.
Proof. intros Ha. induction Ha as [|c a Hc _ IH]; [done|]. unfold tokens in *. cbn [app split]. rewrite Hc. rewrite filter_cons_False; [done|by intros []]. Qed.

Lemma tokens_last p x : Forall (fun c => p c = false) x -> x <> [] -> tokens p x = [x].
Proof. intros Hx H. unfold tokens. by rewrite split_last, filter_cons_True. Qed.

Lemma tokens_next p x c s : Forall (fun c => p c = false) x -> x <> [] -> p c = true -> tokens p (x ++ c :: s) = x :: tokens p s.
Proof. intros Hx H Hc. unfold tokens. by rewrite split_next, filter_cons_True. Qed.

(** ** str_strtok and str_strtoks *)

Abbreviation seps := one_of.

Lemma strtok_none pre s rest sep : 0 ∉ s -> tokens (seps sep) s = [] ->
  str_strtok (pre ++ s ++ 0 :: rest) (zlen pre) sep = Some (None, pre ++ s ++ 0 :: rest, zlen pre + zlen s).
Proof.
  intros Hs Ht. destruct (prefix_split (seps sep) s) as (a & b & -> & Ha & Hb). rewrite tokens_skip in Ht by done.
  destruct Hb as [->|(c & b' & -> & Hc)].
  - rewrite app_nil_r in *. unfold str_strtok, strspn. rewrite span_at_app, bind_Some by (done || by left).
    rewrite app_assoc, rd8_app, bind_Some by len. done.
  - exfalso. destruct (prefix_split (fun c => negb (seps sep c)) b') as (x & y & -> & Hx & Hy).
    assert (Hx' : Forall (fun c => seps sep c = false) (c :: x)).
    { constructor; [done|]. eapply Forall_impl; [exact Hx|]. intros d Hd. by apply negb_true_iff. }
    destruct Hy as [->|(d & y' & -> & Hd)].
    + rewrite app_nil_r, tokens_last in Ht by done. done.
    + change (c :: x ++ d :: y') with ((c :: x) ++ d :: y') in Ht. rewrite tokens_next in Ht by (done || by apply negb_false_iff). done.
Qed.

(** A token: what is in front of it, and the string that is left. *)
Lemma strtok_some pre s rest sep tok toks : 0 ∉ s -> tokens (seps sep) s = tok :: toks ->
  exists a b s', s = a ++ tok ++ b ++ s' /\ tok <> [] /\ tokens (seps sep) s' = toks
    /\ (b = [] /\ s' = [] \/ exists c, b = [c])
    /\ str_strtok (pre ++ s ++ 0 :: rest) (zlen pre) sep
       = Some (Some (zlen pre + zlen a), pre ++ a ++ tok ++ map (fun _ => 0) b ++ s' ++ 0 :: rest,
               zlen pre + zlen (a ++ tok ++ b)).
Proof.
  intros Hs Ht. destruct (prefix_split (seps sep) s) as (a & b0 & -> & Ha & Hb). rewrite tokens_skip in Ht by done.
  rewrite not_elem_of_app in Hs. destruct Hs as [Hsa Hsb].
  destruct Hb as [->|(c & b' & -> & Hc)]; [done|].
  destruct (prefix_split (fun c => negb (seps sep c)) b') as (x & y & -> & Hx & Hy).
  assert (Hx' : Forall (fun c => seps sep c = false) (c :: x)).
  { constructor; [done|]. eapply Forall_impl; [exact Hx|]. intros d Hd. by apply negb_true_iff. }
  assert (Hc0 : c <> 0) by (intros ->; apply Hsb; left).
  change (c :: x ++ y) with ((c :: x) ++ y) in *. set (tk := c :: x) in *. apply not_elem_of_app in Hsb as [Hx0 Hy0].
  assert (Hx'' : Forall (fun c => negb (seps sep c) = true) tk) by (constructor; [by rewrite Hc|done]).
  unfold str_strtok, strspn, strcspn.
  assert (E1 : span_at (seps sep) (pre ++ (a ++ tk ++ y) ++ 0 :: rest) (zlen pre) = Some (zlen a)).
  { rewrite <- (app_assoc a). by apply (span_at_app _ pre a c); [..|right]. }
  assert (E2 : rd8 (pre ++ (a ++ tk ++ y) ++ 0 :: rest) (zlen pre + zlen a) = Some c).
  { rewrite <- (app_assoc a), (app_assoc pre). apply rd8_app. len. }
  rewrite E1, bind_Some, E2, bind_Some. rewrite (proj2 (Z.eqb_neq c 0)) by done.
  destruct Hy as [->|(d & y' & -> & Hd)].
  - exists a, [], []. rewrite app_nil_r in *. rewrite (tokens_last _ tk) in Ht by done. injection Ht as <- <-.
    split; [by rewrite !app_nil_r|]. split; [done|]. split; [done|]. split; [by left|]. cbn [map app].
    rewrite <- (app_assoc a), (app_assoc pre), (span_at_app _ (pre ++ a)), bind_Some by (len || done || by left).
    rewrite (app_assoc (pre ++ a) tk), rd8_app, bind_Some by len. cbn [negb]. rewrite <- !app_assoc. do 2 f_equal. len.
  - exists a, [d], y'. rewrite (tokens_next _ tk) in Ht by (done || by apply negb_false_iff). injection Ht as <- <-.
    split; [done|]. split; [done|]. split; [done|]. split; [by right; exists d|]. cbn [map app].
    apply not_elem_of_cons in Hy0 as [Hd0 Hy0].
    replace (pre ++ (a ++ tk ++ d :: y') ++ 0 :: rest) with ((pre ++ a) ++ tk ++ d :: y' ++ 0 :: rest) by (by rewrite <- !app_assoc).
    rewrite (span_at_app _ (pre ++ a)), bind_Some by (len || done || by right).
    rewrite (app_assoc (pre ++ a) tk), rd8_app, bind_Some by len. rewrite (proj2 (Z.eqb_neq d 0)) by congruence. cbn [negb].
    rewrite wr8_at, bind_Some by (len || lia). rewrite <- !app_assoc. do 2 f_equal. len.
Qed.

(** *** The loop *)

Lemma strtoks_loop_spec delim size : forall fuel pre s rest argv i, 0 ∉ s -> (length s < fuel)%nat -> 0 <= i < size -> size <= zlen argv ->
  exists s' argv', let toks := tokens (seps delim) s in let n := Z.min (size - i) (zlen toks) in
    let m' := pre ++ s' ++ 0 :: rest in
    strtoks_loop fuel (pre ++ s ++ 0 :: rest) (zlen pre) delim argv size i = Some (i + n, m', argv')
    /\ length s' = length s /\ (forall k, k < i -> znth argv' k = znth argv k)
    /\ (forall k, 0 <= k < n -> exists ptr, znth argv' (i + k) = Some ptr /\ Some (c_str (drop (Z.to_nat ptr) m')) = znth toks k).
Proof.
  induction fuel as [|fuel IH]; intros pre s rest argv i Hs Hf Hi Ha; [lia|]. cbn [strtoks_loop].
  destruct (tokens (seps delim) s) as [|tok toks] eqn:Ht.
  { rewrite strtok_none, bind_Some by done. exists s, argv. cbn [length]. cbv zeta. split_and!; [|done|done|lia].
    do 2 f_equal. f_equal. lia. }
  destruct (strtok_some pre s rest delim tok toks Hs Ht) as (a & b & s' & -> & Htok & Ht' & Hb & E). rewrite E, bind_Some.
  rewrite zset_Some, bind_Some by lia. set (argv1 := <[Z.to_nat i := _]> argv).
  assert (Hz : (0 ∉ tok) /\ (0 ∉ s')).
  { split; intros Hin; apply Hs; rewrite !elem_of_app; auto. }
  set (z := map (fun _ => 0) b). set (pre' := pre ++ a ++ tok ++ z).
  assert (Elen : zlen pre + zlen (a ++ tok ++ b) = zlen pre') by (unfold pre', z; len).
  assert (Em : pre ++ a ++ tok ++ z ++ s' ++ 0 :: rest = pre' ++ s' ++ 0 :: rest) by (unfold pre'; by rewrite <- !app_assoc).
  assert (Hread : forall s'', (s' = [] -> s'' = []) -> c_str (drop (Z.to_nat (zlen pre + zlen a)) (pre' ++ s'' ++ 0 :: rest)) = tok).
  { intros s'' Hs''. replace (Z.to_nat (zlen pre + zlen a)) with (length (pre ++ a)) by len.
    unfold pre'. rewrite <- !app_assoc, (app_assoc pre), drop_app_length. unfold z. destruct Hb as [[-> ->]|[c ->]].
    - rewrite Hs'' by done. apply c_str_app, Hz.
    - apply c_str_app, Hz. }
  assert (Hlen : length (a ++ tok ++ z ++ s') = length (a ++ tok ++ b ++ s')) by (unfold z; len).
  rewrite Em. rewrite Z.geb_leb. destruct (Z.leb_spec size (i + 1)) as [Hsz|Hsz].
  - exists (a ++ tok ++ z ++ s'), argv1. cbv zeta. replace (Z.min (size - i) (zlen (tok :: toks))) with 1 by (cbn [length]; lia).
    replace (pre ++ (a ++ tok ++ z ++ s') ++ 0 :: rest) with (pre' ++ s' ++ 0 :: rest) by (unfold pre'; by rewrite <- !app_assoc).
    split_and!; [done|done| |].
    + intros k Hk. unfold argv1. rewrite znth_insert by lia. by zfalse (k =? i).
    + intros k Hk. replace k with 0 by lia. exists (zlen pre + zlen a). split; [|by rewrite Hread].
      unfold argv1. rewrite znth_insert by lia. by ztrue (i + 0 =? i).
  - rewrite Elen. destruct (IH pre' s' rest argv1 (i + 1)) as (s'' & argv' & E' & Hl & Hlow & Hhigh);
      [by apply Hz|rewrite !length_app in Hf; destruct tok; [done|cbn in Hf; lia]|lia|unfold argv1; rewrite length_insert; lia|].
    exists (a ++ tok ++ z ++ s''), argv'. rewrite Ht' in E', Hhigh. cbv zeta in E', Hhigh |- *.
    replace (pre ++ (a ++ tok ++ z ++ s'') ++ 0 :: rest) with (pre' ++ s'' ++ 0 :: rest) by (unfold pre'; by rewrite <- !app_assoc).
    cbn [length] in Hhigh |- *. split_and!.
    + rewrite E'. do 2 f_equal. f_equal. lia.
    + rewrite !length_app. unfold z. rewrite length_map. lia.
    + intros k Hk. rewrite Hlow by lia. unfold argv1. rewrite znth_insert by lia. by zfalse (k =? i).
    + intros k Hk. destruct (Z.eq_dec k 0) as [->|Hk0].
      * exists (zlen pre + zlen a). rewrite Hlow by lia. split.
        -- unfold argv1. rewrite znth_insert by lia. by ztrue (i + 0 =? i).
        -- rewrite Hread; [done|]. intros ->. by destruct s''.
      * destruct (Hhigh (k - 1)) as (ptr & Hp & Hc); [lia|]. exists ptr. split; [by replace (i + k) with (i + 1 + (k - 1)) by lia|].
        rewrite Hc. change (tok :: toks) with ([tok] ++ toks). by rewrite znth_app_r by (cbn; lia).
Qed.

(** A size below 1 is tested only after the first token is stored. *)
Lemma strtoks_loop_small fuel m start delim argv size : size < 1 ->
  strtoks_loop fuel m start delim argv size 0 = strtoks_loop fuel m start delim argv 1 0.
Proof.
  intros Hs. destruct fuel as [|fuel]; [done|]. cbn [strtoks_loop].
  destruct (str_strtok m start delim) as [[[[arg|] m'] start']|]; [|done..]. rewrite !bind_Some.
  destruct (zset argv 0 arg) as [argv'|]; [|done]. rewrite !bind_Some.
  by ztrue (0 + 1 >=? size).
Qed.

(** C35: [str_strtoks] splits a string at any run of separators: the value returned is
    the number of tokens, or [size] when there are more - a [size] below 1 counts as 1,
    as it is tested only after a token has been stored -; the pointers stored, for which
    the array has that many cells, denote the segments between separators that are not
    empty, in order, as strings of the array of characters, which changes inside the
    string only. *)
Theorem str_strtoks_tokens pre s rest delim argv size : 0 ∉ s -> Z.max 1 size <= zlen argv ->
  exists s' argv', let toks := tokens (one_of delim) s in let n := Z.min (Z.max 1 size) (zlen toks) in
    let m' := pre ++ s' ++ 0 :: rest in
    str_strtoks (pre ++ s ++ 0 :: rest) (zlen pre) delim argv size = Some (n, m', argv')
    /\ length s' = length s
    /\ (forall k, 0 <= k < n -> exists ptr, znth argv' k = Some ptr /\ Some (c_str (drop (Z.to_nat ptr) m')) = znth toks k).
Proof.
  intros Hs Hsz.
  destruct (strtoks_loop_spec delim (Z.max 1 size) (S (length (pre ++ s ++ 0 :: rest))) pre s rest argv 0)
    as (s' & argv' & E & Hl & _ & Hk); [done|rewrite !length_app; lia|lia|lia|].
  exists s', argv'. unfold str_strtoks.
  assert (strtoks_loop (S (length (pre ++ s ++ 0 :: rest))) (pre ++ s ++ 0 :: rest) (zlen pre) delim argv size 0
          = strtoks_loop (S (length (pre ++ s ++ 0 :: rest))) (pre ++ s ++ 0 :: rest) (zlen pre) delim argv (Z.max 1 size) 0) as ->.
  { destruct (Z.lt_ge_cases size 1) as [Hlt|]; [rewrite (strtoks_loop_small _ _ _ _ _ size) by done|]; f_equal; lia. }
  cbv zeta in E, Hk |- *. rewrite Z.sub_0_r in E, Hk. by split_and!.
Qed.

Lemma str_strtoks_tokens_witness : exists s' argv',
  str_strtoks [44; 97; 98; 44; 44; 99; 0; 7] 0 [44] [0; 0; 0] 3 = Some (2, s' ++ [0; 7], argv')
  /\ length s' = 6%nat
  /\ (forall k, 0 <= k < 2 -> exists ptr, znth argv' k = Some ptr
       /\ Some (c_str (drop (Z.to_nat ptr) (s' ++ [0; 7]))) = znth [[97; 98]; [99]] k).
Proof.
  apply (str_strtoks_tokens [] [44; 97; 98; 44; 44; 99] [7] [44] [0; 0; 0] 3); [by apply (bool_decide_unpack (0 ∉ _)); vm_compute|done].
Defined.

(** No room at all: a token is stored and counted all the same. *)
Example strtoks_size_zero : str_strtoks [97; 44; 98; 0] 0 [44] [7] 0 = Some (1, [97; 0; 98; 0], [0]).
Proof. by vm_compute. Qed.

(** Of ["a,,"] a rest of one separator is left behind the first token, and no token is
    in it. *)
Example strtok_rest_without_token :
  str_strtok [97; 44; 44; 0] 0 [44] = Some (Some 0, [97; 0; 44; 0], 2)
  /\ str_strtok [97; 0; 44; 0] 2 [44] = Some (None, [97; 0; 44; 0], 3).
Proof. by vm_compute. Qed.

(** ** estrtok_r *)

Lemma strpbrk_app pre a c rest delims i : i = zlen pre -> 0 ∉ a -> Forall (fun x => negb (one_of delims x) = true) a ->
  c = 0 \/ one_of delims c = true ->
  strpbrk (pre ++ a ++ c :: rest) i delims = Some (if c =? 0 then None else Some (zlen pre + zlen a)).
Proof.
  intros -> Ha Hp Hc. unfold strpbrk, strcspn. rewrite (span_at_app _ pre a c); [|done..|destruct Hc as [->|Hc]; [by left|right; by rewrite Hc]].
  rewrite bind_Some, app_assoc, rd8_app, bind_Some by len. done.
Qed.

Definition strings_at (m : list Z) (ptrs : list Z) : list (list Z) := map (fun ptr => c_str (drop (Z.to_nat ptr) m)) ptrs.

Lemma c_str_at pre s rest : 0 ∉ s -> c_str (drop (Z.to_nat (zlen pre)) (pre ++ s ++ 0 :: rest)) = s.
Proof. intros Hs. rewrite Nat2Z.id, drop_app_length. by apply c_str_app. Qed.

Lemma filter_run (p : Z -> bool) a b : Forall (fun c => p c = false) a -> List.filter p (a ++ b) = List.filter p b.
Proof. intros Ha. induction Ha as [|c a Hc _ IH]; [done|]. cbn [app List.filter]. by rewrite Hc. Qed.

Lemma estrtok_all_spec delims : forall fuel pre s rest str save d, 0 ∉ s -> (length s + 2 <= fuel)%nat ->
  default save (Some <$> str) = Some (zlen pre) -> s <> [] \/ d <> 0 ->
  exists s' ptrs ds, let m' := pre ++ s' ++ 0 :: rest in
    estrtok_all fuel (pre ++ s ++ 0 :: rest) str delims save d = Some (zip ptrs ds, m')
    /\ length s' = length s /\ length ptrs = length ds
    /\ strings_at m' ptrs = split (one_of delims) s /\ ds = List.filter (one_of delims) s ++ [0].
Proof.
  induction fuel as [|fuel IH]; intros pre s rest str save d Hs Hf Hstr Hd; [lia|]. cbn [estrtok_all].
  assert (E0 : estrtok_r (pre ++ s ++ 0 :: rest) str delims save d = estrtok_r (pre ++ s ++ 0 :: rest) (Some (zlen pre)) delims save d).
  { unfold estrtok_r. destruct str as [x|]; cbn in Hstr; [by injection Hstr as ->|by rewrite Hstr]. }
  rewrite E0. unfold estrtok_r. clear E0.
  assert (Hlast : forall m, estrtok_all fuel m None delims None 0 = Some ([], m)) by (intros m; destruct fuel; [lia|done]).
  destruct s as [|x s].
  { cbn [app]. rewrite rd8_app, bind_Some by done. destruct Hd as [|Hd]; [done|]. rewrite (proj2 (Z.eqb_neq d 0)) by done. cbn [Z.eqb negb].
    rewrite bind_Some, Hlast, bind_Some. exists [], [zlen pre], [0]. cbv zeta. split_and!; try done.
    unfold strings_at. cbn [map]. by rewrite (c_str_at pre []). }
  assert (Hx : x <> 0) by (intros ->; apply Hs; left).
  change ((x :: s) ++ 0 :: rest) with (x :: s ++ 0 :: rest). rewrite rd8_app, bind_Some by done.
  rewrite (proj2 (Z.eqb_neq x 0)) by done. change (x :: s ++ 0 :: rest) with ((x :: s) ++ 0 :: rest).
  set (t := x :: s) in *. assert (Ht : t <> []) by done. clearbody t. clear s x Hx.
  destruct (prefix_split (fun c => negb (one_of delims c)) t) as (a & b & -> & Ha & Hb).
  assert (Ha' : Forall (fun c => one_of delims c = false) a).
  { eapply Forall_impl; [exact Ha|]. intros c Hc. by apply negb_true_iff. }
  apply not_elem_of_app in Hs as [Hsa Hsb]. destruct Hb as [->|(c & b' & -> & Hc)].
  - rewrite app_nil_r in *. rewrite strpbrk_app, !bind_Some by (done || by left). cbn [Z.eqb].
    rewrite bind_Some, Hlast, bind_Some. exists a, [zlen pre], [0]. cbv zeta. split_and!; try done.
    + unfold strings_at. cbn [map]. rewrite c_str_at by done. by rewrite split_last.
    + pose proof (filter_run _ a [] Ha') as Ef. rewrite app_nil_r in Ef. by rewrite Ef.
  - apply negb_false_iff in Hc. apply not_elem_of_cons in Hsb as [Hc0 Hsb].
    replace (pre ++ (a ++ c :: b') ++ 0 :: rest) with (pre ++ a ++ c :: b' ++ 0 :: rest) by (by rewrite <- !app_assoc).
    rewrite strpbrk_app, bind_Some by (done || by right). rewrite (proj2 (Z.eqb_neq c 0)) by congruence.
    rewrite (app_assoc pre a), rd8_app, bind_Some by len. rewrite wr8_at, !bind_Some by (len || lia).
    replace ((pre ++ a) ++ 0 :: b' ++ 0 :: rest) with ((pre ++ a ++ [0]) ++ b' ++ 0 :: rest) by (by rewrite <- !app_assoc).
    destruct (IH (pre ++ a ++ [0]) b' rest None (Some (zlen pre + zlen a + 1)) c) as (s' & ptrs & ds & E & Hl & Hpd & Hstrs & Hds);
      [done|rewrite length_app in Hf; cbn in Hf; lia|cbn; f_equal; len|right; congruence|].
    cbv zeta in E, Hstrs. rewrite E, bind_Some. exists (a ++ 0 :: s'), (zlen pre :: ptrs), (c :: ds). cbv zeta.
    replace (pre ++ (a ++ 0 :: s') ++ 0 :: rest) with ((pre ++ a ++ [0]) ++ s' ++ 0 :: rest) by (by rewrite <- !app_assoc).
    split_and!; [done|rewrite !length_app; cbn [length]; lia|cbn [length]; lia| |].
    + unfold strings_at in *. cbn [map]. rewrite Hstrs, split_next by done. f_equal.
      rewrite <- !app_assoc. by apply (c_str_at pre a (s' ++ 0 :: rest)).
    + rewrite filter_run by done. cbn [List.filter]. by rewrite Hc, Hds.
Qed.

(** [estrtok_r] splits at every delimiter: called as its comment shows, on a string
    that is not empty, it returns the segments between the delimiters in order, the empty
    ones included, each with the delimiter behind it and the last one with 0, and then
    null; the tokens are strings of the array, which changes inside the string only. *)
Theorem estrtok_r_splits pre s rest delims save d : 0 ∉ s -> s <> [] ->
  exists s' ptrs ds, let m' := pre ++ s' ++ 0 :: rest in
    estrtok_all (length s + 2) (pre ++ s ++ 0 :: rest) (Some (zlen pre)) delims save d = Some (zip ptrs ds, m')
    /\ length s' = length s /\ length ptrs = length ds
    /\ strings_at m' ptrs = split (one_of delims) s /\ ds = List.filter (one_of delims) s ++ [0].
Proof. intros Hs Hne. apply estrtok_all_spec; [done|done|done|by left]. Qed.

Lemma estrtok_r_splits_witness : exists s' ptrs ds,
  estrtok_all 7 [44; 97; 10; 98; 44; 0] (Some 0) [44; 10] None 0 = Some (zip ptrs ds, s' ++ [0])
  /\ length s' = 5%nat /\ length ptrs = length ds
  /\ strings_at (s' ++ [0]) ptrs = [[]; [97]; [98]; []] /\ ds = [44; 10; 44; 0].
Proof.
  apply (estrtok_r_splits [] [44; 97; 10; 98; 44] [] [44; 10] None 0); [by apply (bool_decide_unpack (0 ∉ _)); vm_compute|done].
Defined.

(** ** Components of a path *)

Lemma find_bychar_spec pre t rest sep : 0 ∉ pre ++ t -> sep <> 0 ->
  exists a b, t = a ++ b /\ Forall (fun c => (c =? sep) = false) a
    /\ (b = [] /\ find_bychar (Some ((pre ++ t) ++ 0 :: rest)) sep (zlen pre) = Some (-1)
        \/ exists b', b = sep :: b' /\ find_bychar (Some ((pre ++ t) ++ 0 :: rest)) sep (zlen pre) = Some (zlen pre + zlen a)).
Proof.
  intros Hs Hsep. destruct (prefix_split (fun c => negb (c =? sep)) t) as (a & b & -> & Ha & Hb). exists a, b.
  split; [done|]. split; [eapply Forall_impl; [exact Ha|]; intros c Hc; by apply negb_true_iff|].
  unfold find_bychar. rewrite (strlen_0 (pre ++ a ++ b)), bind_Some by done.
  rewrite !not_elem_of_app in Hs. destruct Hs as (_ & Hsa & Hsb).
  destruct Hb as [->|(c & b' & -> & Hc)].
  - left. split; [done|]. rewrite Z.geb_leb. destruct (Z.leb_spec (zlen (pre ++ a ++ [])) (zlen pre)) as [|Hlt]; [done|].
    rewrite app_nil_r, <- app_assoc. unfold strchr. rewrite (span_at_app _ pre a), bind_Some by (done || by left).
    rewrite app_assoc, rd8_app, bind_Some by len. by rewrite (proj2 (Z.eqb_neq 0 sep)) by done.
  - right. apply negb_false_iff, Z.eqb_eq in Hc as ->. exists b'. split; [done|].
    assert (Hl : zlen (pre ++ a ++ sep :: b') = zlen pre + zlen a + 1 + zlen b') by len.
    zfalse (zlen pre >=? zlen (pre ++ a ++ sep :: b')).
    rewrite <- !app_assoc. cbn [app]. unfold strchr. rewrite (span_at_app _ pre a), bind_Some by (done || (right; by rewrite Z.eqb_refl)).
    rewrite app_assoc, rd8_app, bind_Some by len. by rewrite Z.eqb_refl.
Qed.

Lemma str_substr_spec pre comp q rest out : 0 ∉ pre ++ comp ++ q -> zlen (pre ++ comp ++ q) < 2 ^ 31 -> zlen comp <= zlen out ->
  str_substr (Some ((pre ++ comp ++ q) ++ 0 :: rest)) (Some out) (zlen pre) (zlen comp) = Some (Some (comp ++ drop (length comp) out)).
Proof.
  intros Hs Hmax Ho. unfold str_substr. rewrite (strlen_0 (pre ++ comp ++ q)), bind_Some by done.
  assert (Hl : zlen (pre ++ comp ++ q) = zlen pre + zlen comp + zlen q) by len. rewrite u32_id by lia.
  rewrite Z.geb_leb. destruct (Z.leb_spec (zlen (pre ++ comp ++ q)) (zlen pre)) as [Hge|Hlt].
  { destruct comp; [done|cbn [length] in Hl; lia]. }
  zfalse ((zlen comp >? 0) && (zlen pre + zlen comp >? zlen (pre ++ comp ++ q))).
  zfalse (zlen comp <? 0). pose proof (memcpy_app [] out comp 0 (zlen comp)) as Em.
  unfold memcpy in *. rewrite <- !app_assoc, rd_bytes_app, bind_Some by done. by rewrite (wr_bytes_app [] out) by done.
Qed.

Lemma path_loop_spec rest sep level out : sep <> 0 -> forall fuel pre t t_lev, 0 ∉ pre ++ t -> zlen (pre ++ t) < 2 ^ 31 ->
  zlen (pre ++ t) <= zlen out -> (length t < fuel)%nat -> 0 <= t_lev <= level ->
  path_loop fuel ((pre ++ t) ++ 0 :: rest) (Some out) (zlen (pre ++ t)) level sep (zlen pre) t_lev
  = Some match znth (split (Z.eqb sep) t) (level - t_lev) with
         | Some comp => (true, Some (comp ++ drop (length comp) out))
         | None => (false, Some out)
         end.
Proof.
  intros Hsep. induction fuel as [|fuel IH]; intros pre t t_lev Hs Hmax Ho Hf Hlev; [lia|]. cbn [path_loop].
  destruct (find_bychar_spec pre t rest sep Hs Hsep) as (a & b & -> & Ha & Hb).
  assert (Ha' : Forall (fun c => (sep =? c) = false) a) by (eapply Forall_impl; [exact Ha|]; intros c Hc; by rewrite Z.eqb_sym).
  destruct Hb as [[-> E]|(b' & -> & E)]; rewrite E, bind_Some.
  - cbn [Z.eqb Pos.eqb]. rewrite app_nil_r in *. rewrite split_last by done.
    destruct (Z.eqb_spec t_lev level) as [->|Hne]; cbn [negb].
    + rewrite Z.sub_diag. replace (zlen (pre ++ a) - zlen pre) with (zlen a) by len.
      pose proof (str_substr_spec pre a [] rest out) as Es. rewrite app_nil_r in Es. by rewrite Es by (done || len).
    + replace (znth [a] (level - t_lev)) with (@None (list Z)); [done|]. symmetry. unfold znth. ztrue (0 <=? level - t_lev).
      apply lookup_ge_None_2. cbn. lia.
  - rewrite (proj2 (Z.eqb_neq _ (-1))) by lia. rewrite split_next by (done || apply Z.eqb_refl).
    destruct (Z.eqb_spec t_lev level) as [->|Hne].
    + rewrite Z.sub_diag. replace (zlen pre + zlen a - zlen pre) with (zlen a) by lia.
      rewrite (str_substr_spec pre a (sep :: b')) by (done || len). done.
    + replace (pre ++ a ++ sep :: b') with ((pre ++ a ++ [sep]) ++ b') in * by (by rewrite <- !app_assoc).
      replace (zlen pre + zlen a + 1) with (zlen (pre ++ a ++ [sep])) by len.
      rewrite IH by (done || lia || (rewrite length_app in Hf; cbn in Hf; lia)).
      change (a :: split (Z.eqb sep) b') with ([a] ++ split (Z.eqb sep) b'). rewrite znth_app_r by (cbn; lia).
      cbn [length]. by replace (level - t_lev - Z.of_nat 1) with (level - (t_lev + 1)) by lia.
Qed.

(** [str_strPathSep] copies component number [level] of a path, counted from 0 and
    between separators, to the start of [output], without a NUL, and returns [output]; if
    the path has fewer components it returns null and copies nothing. *)
Theorem str_strPathSep_component s rest out level sep : 0 ∉ s -> zlen s < 2 ^ 31 -> zlen s <= zlen out -> sep <> 0 -> 0 <= level ->
  str_strPathSep (Some (s ++ 0 :: rest)) (Some out) level sep
  = Some match znth (split (Z.eqb sep) s) level with
         | Some comp => (true, Some (comp ++ drop (length comp) out))
         | None => (false, Some out)
         end.
Proof.
  intros Hs Hmax Ho Hsep Hlev. unfold str_strPathSep. rewrite (strlen_0 s), bind_Some by done.
  pose proof (path_loop_spec rest sep level out Hsep (S (length (s ++ 0 :: rest))) [] s 0) as E. rewrite Z.sub_0_r in E.
  apply E; [done|done|done|rewrite length_app; lia|lia].
Qed.

Lemma str_strPathSep_component_witness :
  str_strPathSep (Some [97; 47; 98; 99; 47; 0]) (Some (zeros 6)) 1 47 = Some (true, Some [98; 99; 0; 0; 0; 0]).
Proof.
  apply (str_strPathSep_component [97; 47; 98; 99; 47] [] (zeros 6) 1 47); [by apply (bool_decide_unpack (0 ∉ _)); vm_compute|done..].
Defined.

(** ** Editing *)

Lemma shift_left_step fuel pre x y q n : strlen (pre ++ x :: y :: q) 0 = Some n -> zlen pre < n -> is_u8 y ->
  shift_left (S fuel) (pre ++ x :: y :: q) (zlen pre) = shift_left fuel (pre ++ y :: y :: q) (zlen pre + 1).
Proof.
  intros Hn Hlt Hy. cbn [shift_left]. rewrite Hn, bind_Some. ztrue (zlen pre <? n). cbn [negb].
  rewrite (cons_middle x pre (y :: q)), app_assoc, rd8_app, bind_Some by len. rewrite <- app_assoc. cbn [app].
  by rewrite wr8_at, bind_Some by done.
Qed.

Lemma shift_left_spec t : forall fuel pre x rest, 0 ∉ pre ++ x :: t -> (length t + 2 <= fuel)%nat -> bytes_ok t ->
  shift_left fuel (pre ++ x :: t ++ 0 :: rest) (zlen pre) = Some (pre ++ t ++ 0 :: 0 :: rest).
Proof.
  induction t as [|y t IH]; intros fuel pre x rest Hs Hf Hb; (destruct fuel as [|fuel]; [cbn in Hf; lia|]); cbn [app].
  - rewrite (shift_left_step _ _ _ _ _ (zlen (pre ++ [x]))); [|rewrite (cons_middle x pre), app_assoc; by apply strlen_0|len|lia].
    destruct fuel as [|fuel]; [cbn in Hf; lia|]. cbn [shift_left]. apply not_elem_of_app in Hs as [Hs _].
    rewrite strlen_0, bind_Some by done. by zfalse (zlen pre + 1 <? zlen pre).
  - apply Forall_cons in Hb as [Hy Hb].
    rewrite (shift_left_step _ _ _ _ _ (zlen (pre ++ x :: y :: t))); [|rewrite <- (strlen_0 _ rest) by done; by rewrite <- app_assoc|len|done].
    rewrite (cons_middle y pre), app_assoc. replace (zlen pre + 1) with (zlen (pre ++ [y])) by len.
    rewrite IH; [by rewrite <- app_assoc| |cbn in Hf; lia|done].
    rewrite <- app_assoc. cbn [app]. rewrite !not_elem_of_app, !not_elem_of_cons in *. tauto.
Qed.

(** The spaces are moved out one by one; behind the string there are zeros. *)
Lemma DelSpace_loop_spec s : forall fuel pre rest, 0 ∉ pre ++ s -> (length s < fuel)%nat -> bytes_ok s ->
  DelSpace_loop fuel (pre ++ s ++ 0 :: rest) (zlen pre)
  = Some (pre ++ filter (fun c => c <> 32) s ++ replicate (length s - length (filter (fun c => c <> 32) s)) 0 ++ 0 :: rest,
          zlen (pre ++ filter (fun c => c <> 32) s)).
Proof.
  induction s as [|c s IH]; intros fuel pre rest Hs Hf Hb; (destruct fuel as [|fuel]; [cbn in Hf; lia|]); cbn [DelSpace_loop app].
  { rewrite rd8_app, bind_Some by done. cbn [Z.eqb]. by rewrite app_nil_r. }
  rewrite rd8_app, bind_Some by done. apply Forall_cons in Hb as [Hc Hb].
  assert (Hc0 : c <> 0). { intros ->. apply Hs, elem_of_app. right. left. }
  assert (Hs' : 0 ∉ pre ++ s) by (rewrite !not_elem_of_app, ?not_elem_of_cons in *; tauto).
  rewrite (proj2 (Z.eqb_neq c 0)) by done. destruct (Z.eqb_spec c 32) as [->|Hne].
  - rewrite shift_left_spec, bind_Some by (done || (rewrite !length_app; cbn [length]; rewrite length_app; lia)).
    rewrite (IH fuel pre (0 :: rest) Hs' ltac:(cbn in Hf; lia) Hb). rewrite filter_cons_False by (intros []; done).
    cbn [length]. pose proof (length_filter (fun c => c <> 32) s).
    rewrite Nat.sub_succ_l by done. do 2 f_equal. rewrite replicate_S_end, <- app_assoc. done.
  - rewrite (cons_middle c pre), app_assoc. replace (zlen pre + 1) with (zlen (pre ++ [c])) by len.
    rewrite (IH fuel (pre ++ [c]) rest); [|by rewrite <- app_assoc|cbn in Hf; lia|done].
    rewrite filter_cons_True by done. cbn [length]. rewrite Nat.sub_succ. by rewrite <- !app_assoc.
Qed.

Lemma DelSpaceFromString_spec s rest : 0 ∉ s -> bytes_ok s ->
  exists rest', DelSpaceFromString (s ++ 0 :: rest) = Some (filter (fun c => c <> 32) s ++ 0 :: rest')
    /\ zlen rest' = zlen rest + zlen s - zlen (filter (fun c => c <> 32) s).
Proof.
  intros Hs Hb. unfold DelSpaceFromString. pose proof (DelSpace_loop_spec s (S (length (s ++ 0 :: rest))) [] rest Hs) as E.
  cbn [app] in E. change (zlen []) with 0 in E. rewrite E, bind_Some by (done || (rewrite length_app; lia)).
  pose proof (length_filter (fun c => c <> 32) s). set (f := filter _ s) in *.
  destruct (length s - length f)%nat as [|n] eqn:En; cbn [replicate app].
  - rewrite wr8_at by (done || lia). exists rest. split; [done|lia].
  - rewrite wr8_at by (done || lia). eexists. split; [done|]. rewrite length_app, length_replicate. cbn [length]. lia.
Qed.

(** Of each run of spaces the last one is kept. *)
Fixpoint squeeze (s : list Z) : list Z :=
  match s with
  | [] => []
  | c :: s' => if (c =? 32) && (match s' with d :: _ => d =? 32 | [] => false end) then squeeze s' else c :: squeeze s'
  end.

(** A character is copied over the first of those that are not needed any more. *)
Lemma copy_back pre junk c q : is_u8 c -> exists junk', length junk' = length junk
  /\ wr8 (pre ++ junk ++ c :: q) (zlen pre) c = Some ((pre ++ [c]) ++ junk' ++ q)
  /\ (junk = [] -> pre ++ junk ++ c :: q = (pre ++ [c]) ++ junk' ++ q)
  /\ rd8 ((pre ++ [c]) ++ junk' ++ q) (zlen pre + zlen junk) = Some c.
Proof.
  intros Hc. destruct junk as [|j junk].
  - exists []. cbn [app length]. rewrite <- app_assoc. cbn [app]. rewrite wr8_at by done. split_and!; [done|done|done|].
    apply rd8_app. lia.
  - exists (junk ++ [c]). cbn [app length]. rewrite wr8_at by done. split_and!; [rewrite length_app; cbn; lia| |done|].
    + by rewrite <- !app_assoc.
    + replace ((pre ++ [c]) ++ (junk ++ [c]) ++ q) with ((pre ++ c :: junk) ++ c :: q) by (by rewrite <- !app_assoc). apply rd8_app. len.
Qed.

Lemma deblank_loop_spec s : forall fuel pre junk rest, 0 ∉ s -> bytes_ok s -> (length s < fuel)%nat ->
  exists junk', length (squeeze s ++ junk') = length (junk ++ s)
    /\ deblank_loop fuel (pre ++ junk ++ s ++ 0 :: rest) (zlen pre) (zlen pre + zlen junk)
       = Some (pre ++ squeeze s ++ junk' ++ 0 :: rest, zlen (pre ++ squeeze s)).
Proof.
  induction s as [|c s IH]; intros fuel pre junk rest Hs Hb Hf; (destruct fuel as [|fuel]; [cbn in Hf; lia|]); cbn [deblank_loop].
  { exists junk. cbn [app squeeze]. rewrite !app_nil_r. split; [done|]. by rewrite (app_assoc pre), rd8_app, bind_Some by len. }
  apply not_elem_of_cons in Hs as [Hc0 Hs]. apply Forall_cons in Hb as [Hc Hb]. cbn [app].
  set (q := s ++ 0 :: rest). assert (Er : rd8 (pre ++ junk ++ c :: q) (zlen pre + zlen junk) = Some c).
  { rewrite app_assoc. apply rd8_app. len. }
  rewrite Er, bind_Some. rewrite (proj2 (Z.eqb_neq c 0)) by congruence.
  destruct (copy_back pre junk c q Hc) as (junk1 & Hl1 & Ew & Ej & Er1).
  set (d := match s with d :: _ => d | [] => 0 end).
  assert (Ed : forall l, zlen l = zlen pre + zlen junk + 1 -> rd8 (l ++ q) (zlen pre + zlen junk + 1) = Some d).
  { intros l Hl. unfold q, d. destruct s; cbn [app]; by apply rd8_app. }
  assert (Esq : squeeze (c :: s) = if (c =? 32) && (d =? 32) then squeeze s else c :: squeeze s) by (cbn [squeeze]; by destruct s).
  assert (Hnext : exists junk', length (c :: squeeze s ++ junk') = length (junk ++ c :: s)
    /\ deblank_loop fuel ((pre ++ [c]) ++ junk1 ++ q) (zlen pre + 1) (zlen pre + zlen junk + 1)
      = Some (pre ++ c :: squeeze s ++ junk' ++ 0 :: rest, zlen (pre ++ c :: squeeze s))).
  { destruct (IH fuel (pre ++ [c]) junk1 rest Hs Hb) as (junk' & Hl & E); [cbn in Hf; lia|]. exists junk'.
    split; [rewrite length_app in Hl |- *; cbn [length]; rewrite length_app in Hl |- *; lia|].
    replace (zlen pre + 1) with (zlen (pre ++ [c])) by len.
    replace (zlen pre + zlen junk + 1) with (zlen (pre ++ [c]) + zlen junk1) by len. unfold q. rewrite E, <- !app_assoc. done. }
  destruct (Z.eqb_spec c 32) as [->|Hne]; cbn [negb].
  - rewrite bind_Some, Er, bind_Some. rewrite (cons_middle 32 junk q), !app_assoc, Ed by len.
    rewrite <- !app_assoc. cbn [app andb]. rewrite bind_Some, Esq. change (32 =? 32) with true. cbn [andb]. destruct (Z.eqb_spec d 32) as [E32|Hd]; cbn [negb].
    + rewrite bind_Some. destruct (IH fuel pre (junk ++ [32]) rest Hs Hb) as (junk' & Hl & E); [cbn in Hf; lia|].
      exists junk'. split; [rewrite Hl; len|]. rewrite <- !app_assoc in E.
      by replace (zlen pre + zlen junk + 1) with (zlen pre + zlen (junk ++ [32])) by len.
    + rewrite Ew, !bind_Some. exact Hnext.
  - rewrite Esq. cbn [andb].
    assert (E1 : (if zlen pre <? zlen pre + zlen junk then wr8 (pre ++ junk ++ c :: q) (zlen pre) c else Some (pre ++ junk ++ c :: q))
      = Some ((pre ++ [c]) ++ junk1 ++ q)).
    { destruct (Z.ltb_spec (zlen pre) (zlen pre + zlen junk)); [done|]. f_equal. apply Ej. destruct junk; [done|cbn [length] in *; lia]. }
    rewrite E1, !bind_Some, Er1, bind_Some. rewrite (app_assoc _ junk1), Ed, bind_Some by len. rewrite (proj2 (Z.eqb_neq c 32)) by done. cbn [andb].
    rewrite bind_Some, <- app_assoc. exact Hnext.
Qed.

Lemma deblank_spec s rest : 0 ∉ s -> bytes_ok s ->
  exists m off, deblank (s ++ 0 :: rest) = Some (m, off) /\ length m = length (s ++ 0 :: rest)
    /\ c_str (drop (Z.to_nat off) m) = match squeeze s with c :: t => if c =? 32 then t else c :: t | [] => [] end.
Proof.
  intros Hs Hb. unfold deblank. destruct (deblank_loop_spec s (S (length (s ++ 0 :: rest))) [] [] rest Hs Hb) as (junk & Hl & E);
    [rewrite length_app; lia|]. cbn [app] in E, Hl. change (zlen [] + zlen []) with 0 in E. change (zlen []) with 0 in E. rewrite E, bind_Some.
  assert (Hsq : 0 ∉ squeeze s).
  { clear - Hs. induction s as [|c s IH]; [done|]. apply not_elem_of_cons in Hs as [Hc Hs]. cbn [squeeze].
    destruct ((c =? 32) && _); [by apply IH|]. apply not_elem_of_cons. auto. }
  assert (Ew : exists q, wr8 (squeeze s ++ junk ++ 0 :: rest) (zlen (squeeze s)) 0 = Some (squeeze s ++ 0 :: q)
    /\ length (0 :: q) = length (junk ++ 0 :: rest)).
  { destruct junk as [|j junk]; cbn [app]; rewrite wr8_at by (done || lia); eexists; split; done. }
  destruct Ew as (q & -> & Hq). rewrite bind_Some.
  assert (Ehead : rd8 (squeeze s ++ 0 :: q) 0 = Some (match squeeze s with c :: _ => c | [] => 0 end)) by (by destruct (squeeze s)).
  rewrite Ehead, bind_Some. eexists _, _. split; [done|]. split; [rewrite !length_app in *; lia|].
  destruct (squeeze s) as [|c t] eqn:Et; [done|]. destruct (Z.eqb_spec c 32) as [->|Hne]; cbn [negb].
  - apply not_elem_of_cons in Hsq as [_ Hsq]. by apply c_str_app.
  - change (Z.to_nat 0) with 0%nat. by rewrite drop_0, c_str_app.
Qed.

(** *** str_Trim and trim *)

Lemma in_cfg_spec c set : forall pre crest,
  exists_range (length set) (zlen pre) (fun iC => d ← rd8 (pre ++ set ++ crest) iC; Some (c =? d)) = Some (one_of set c).
Proof.
  induction set as [|d set IH]; intros pre crest; [done|]. cbn [length exists_range app one_of existsb].
  rewrite rd8_app, !bind_Some by done. destruct (c =? d); [done|]. cbn [orb].
  replace (zlen pre + 1) with (zlen (pre ++ [d])) by len. rewrite (cons_middle d pre (set ++ crest)), app_assoc. apply IH.
Qed.

Section trim.
Context (set crest : list Z).

Lemma trim_step_spec pre c q beg end_ :
  trim_step (pre ++ c :: q) (set ++ 0 :: crest) (zlen set) (zlen pre) (beg, end_)
  = Some (if one_of set c then (beg, end_) else (if beg <? 0 then zlen pre else beg, zlen pre)).
Proof.
  unfold trim_step. rewrite rd8_app, bind_Some by done. rewrite Nat2Z.id.
  pose proof (in_cfg_spec c set [] (0 :: crest)) as E. cbn [app] in E. change (zlen []) with 0 in E. by rewrite E.
Qed.

Lemma trim_skip a : forall pre q st, Forall (fun c => one_of set c = true) a ->
  for_range (length a) (zlen pre) (trim_step (pre ++ a ++ q) (set ++ 0 :: crest) (zlen set)) st = Some st.
Proof.
  induction a as [|c a IH]; intros pre q [beg end_] Ha; [done|]. apply Forall_cons in Ha as [Hc Ha]. cbn [length for_range app].
  rewrite trim_step_spec, Hc, bind_Some. replace (zlen pre + 1) with (zlen (pre ++ [c])) by len.
  rewrite (cons_middle c pre (a ++ q)), app_assoc. by apply IH.
Qed.

Lemma trim_inside core : forall pre q beg end_, 0 <= beg ->
  exists e, for_range (length core) (zlen pre) (trim_step (pre ++ core ++ q) (set ++ 0 :: crest) (zlen set)) (beg, end_) = Some (beg, e).
Proof.
  induction core as [|c core IH]; intros pre q beg end_ Hb; [by exists end_|]. cbn [length for_range app].
  rewrite trim_step_spec, bind_Some. zfalse (beg <? 0). replace (zlen pre + 1) with (zlen (pre ++ [c])) by len.
  rewrite (cons_middle c pre (core ++ q)), app_assoc. destruct (one_of set c); by apply IH.
Qed.

(** The state behind a text that begins and ends with characters that are kept. *)
Lemma trim_core x core pre q : one_of set x = false -> core = [] \/ (exists mid y, core = mid ++ [y] /\ one_of set y = false) ->
  for_range (length (x :: core)) (zlen pre) (trim_step (pre ++ (x :: core) ++ q) (set ++ 0 :: crest) (zlen set)) (-1, -1)
  = Some (zlen pre, zlen pre + zlen core).
Proof.
  intros Hx Hcore. cbn [length for_range app]. rewrite trim_step_spec, Hx, bind_Some. cbn [Z.ltb Z.compare].
  destruct Hcore as [->|(mid & y & -> & Hy)]; [cbn; do 2 f_equal; lia|].
  replace (zlen pre + 1) with (zlen (pre ++ [x])) by len. rewrite length_app, for_range_add.
  rewrite (cons_middle x pre ((mid ++ [y]) ++ q)), app_assoc, <- (app_assoc mid).
  destruct (trim_inside mid (pre ++ [x]) ([y] ++ q) (zlen pre) (zlen pre)) as (e & E); [lia|]. rewrite E, bind_Some.
  cbn [length for_range app]. replace (zlen (pre ++ [x]) + zlen mid) with (zlen ((pre ++ [x]) ++ mid)) by len.
  rewrite (app_assoc _ mid), trim_step_spec, Hy. zfalse (zlen pre <? 0). rewrite bind_Some. do 2 f_equal. len.
Qed.

(** The characters of the set are removed at both ends ... *)
Lemma str_Trim_spec a x core b rest : 0 ∉ set -> 0 ∉ a ++ (x :: core) ++ b ->
  Forall (fun c => one_of set c = true) a -> Forall (fun c => one_of set c = true) b ->
  one_of set x = false -> core = [] \/ (exists mid y, core = mid ++ [y] /\ one_of set y = false) ->
  str_Trim (Some ((a ++ (x :: core) ++ b) ++ 0 :: rest)) (Some (set ++ 0 :: crest))
  = Some (Some (a ++ (x :: core) ++ 0 :: tail (b ++ 0 :: rest), zlen a)).
Proof.
  intros Hset Hs Ha Hb Hx Hcore. unfold str_Trim. rewrite !strlen_0, !bind_Some by done.
  set (val := (a ++ (x :: core) ++ b) ++ 0 :: rest).
  assert (E : for_range (Z.to_nat (zlen (a ++ (x :: core) ++ b))) 0 (trim_step val (set ++ 0 :: crest) (zlen set)) (-1, -1)
    = Some (zlen a, zlen a + zlen core)).
  { rewrite Nat2Z.id, (length_app a), (length_app (x :: core)), !for_range_add.
    unfold val. rewrite <- !app_assoc. pose proof (trim_skip a [] ((x :: core) ++ b ++ 0 :: rest) (-1, -1) Ha) as E1.
    cbn [app] in E1 |- *. change (zlen []) with 0 in E1. rewrite E1, bind_Some. rewrite Z.add_0_l.
    pose proof (trim_core x core a (b ++ 0 :: rest) Hx Hcore) as E2. cbn [app] in E2. rewrite for_range_add, E2, bind_Some.
    pose proof (trim_skip b (a ++ x :: core) (0 :: rest) (zlen a, zlen a + zlen core) Hb) as E3.
    rewrite <- !app_assoc in E3. cbn [app] in E3. rewrite length_app, Nat2Z.inj_add in E3. exact E3. }
  rewrite E, bind_Some. ztrue (zlen a >=? 0). cbn [negb].
  unfold val. replace ((a ++ (x :: core) ++ b) ++ 0 :: rest) with ((a ++ x :: core) ++ b ++ 0 :: rest) by (by rewrite <- !app_assoc).
  assert (El : zlen a + zlen core + 1 = zlen (a ++ x :: core)) by len.
  destruct b as [|y b]; cbn [app tail]; rewrite wr8_at, bind_Some, <- app_assoc by (done || lia); done.
Qed.

(** ... but a text of such characters only is returned as it is. *)
Lemma str_Trim_all s rest : 0 ∉ set -> 0 ∉ s -> Forall (fun c => one_of set c = true) s ->
  str_Trim (Some (s ++ 0 :: rest)) (Some (set ++ 0 :: crest)) = Some (Some (s ++ 0 :: rest, 0)).
Proof.
  intros Hset Hs Ha. unfold str_Trim. rewrite !strlen_0, !bind_Some by done.
  pose proof (trim_skip s [] (0 :: rest) (-1, -1) Ha) as E. cbn [app] in E. change (zlen []) with 0 in E.
  by rewrite Nat2Z.id, E.
Qed.
End trim.

Lemma trim_end_spec core b rest : core = [] \/ (exists mid y, core = mid ++ [y] /\ isspace y = false) -> Forall (fun c => isspace c = true) b ->
  trim_end (core ++ b ++ rest) (length core + length b) = Some (zlen core).
Proof.
  intros Hcore Hb. revert rest. induction b as [|c b IH] using rev_ind; intros rest.
  - cbn [length app]. rewrite Nat.add_0_r. destruct Hcore as [->|(mid & y & -> & Hy)]; [done|].
    rewrite length_app, Nat.add_1_r. cbn [trim_end]. rewrite <- app_assoc. cbn [app]. rewrite rd8_app, bind_Some, Hy by done. f_equal.
  - apply Forall_app in Hb as [Hb [Hc _]%Forall_cons]. rewrite length_app. cbn [length]. rewrite Nat.add_1_r, Nat.add_succ_r. cbn [trim_end].
    rewrite <- app_assoc. cbn [app]. rewrite (app_assoc core), rd8_app, bind_Some, Hc by len. rewrite <- app_assoc. by apply IH.
Qed.

(** [trim] removes white space at the end, but only four of its characters at the start,
    not the space. *)
Lemma trim_spec a x core b rest : 0 ∉ a ++ (x :: core) ++ b -> Forall (fun c => one_of [10; 13; 9; 11] c = true) a ->
  Forall (fun c => isspace c = true) b -> one_of [10; 13; 9; 11] x = false ->
  core = [] /\ isspace x = false \/ (exists mid y, core = mid ++ [y] /\ isspace y = false) ->
  exists rest', trim ((a ++ (x :: core) ++ b) ++ 0 :: rest) = Some ((x :: core) ++ 0 :: rest').
Proof.
  intros Hs Ha Hb Hx Hcore. unfold trim. rewrite strlen_0, bind_Some by done.
  assert (Et : trim_end ((a ++ (x :: core) ++ b) ++ 0 :: rest) (Z.to_nat (zlen (a ++ (x :: core) ++ b))) = Some (zlen (a ++ x :: core))).
  { rewrite Nat2Z.id. replace (length (a ++ (x :: core) ++ b)) with (length (a ++ x :: core) + length b)%nat by len.
    replace ((a ++ (x :: core) ++ b) ++ 0 :: rest) with ((a ++ x :: core) ++ b ++ 0 :: rest) by (by rewrite <- !app_assoc).
    apply trim_end_spec; [|done]. right. destruct Hcore as [[-> Hsp]|(mid & y & -> & Hy)]; [by exists a, x|].
    exists (a ++ x :: mid), y. by rewrite <- app_assoc. }
  assert (El : zlen (a ++ x :: core) = zlen a + zlen (x :: core)) by len. assert (Ex : 0 < zlen (x :: core)) by (cbn; lia).
  rewrite Et, bind_Some. zfalse (zlen (a ++ x :: core) =? 0). cbn [negb].
  replace ((a ++ (x :: core) ++ b) ++ 0 :: rest) with (a ++ (x :: core) ++ b ++ 0 :: rest) by (by rewrite <- !app_assoc).
  apply not_elem_of_app in Hs as [Hsa Hs].
  pose proof (span_at_app (one_of [10; 13; 9; 11]) [] a x (core ++ b ++ 0 :: rest) 0) as Esp. cbn [app] in Esp |- *.
  unfold strspn. rewrite Esp, bind_Some by (done || by right).
  destruct (Z.eqb_spec (zlen a) 0) as [Ha0|Ha0]; cbn [negb].
  - destruct a; [|cbn in Ha0; lia]. rewrite bind_Some. cbn [app].
    destruct b as [|y b]; cbn [app]; rewrite app_comm_cons, wr8_at by (done || lia); eexists; done.
  - pose proof (memmove_front a (x :: core) (b ++ 0 :: rest) (zlen a) (zlen (a ++ x :: core) - zlen a)) as Em.
    cbn [app] in Em. rewrite Em, !bind_Some by lia. replace (zlen (a ++ x :: core) - zlen a) with (zlen (x :: core)) by lia.
    destruct (drop (length (x :: core)) (a ++ x :: core ++ b ++ 0 :: rest)) as [|y q] eqn:Eq.
    + exfalso. apply (f_equal length) in Eq. rewrite length_drop, !length_app in Eq. cbn [length] in Eq. rewrite !length_app in Eq. cbn [length] in Eq. lia.
    + rewrite app_comm_cons, wr8_at by (done || lia). eexists. done.
Qed.
