(* ===== verification/Aes.v ===== *)
(** * fun_other/aes.c: the block cipher AES

    The state is an array of 16 bytes, row by row; the round keys are the array [w] that
    [aes_init] allocates.  [Nk] and [Nr], global variables set by [aes_init], and the global
    array [R] of [Rcon] are arguments and results.  The reference is the cipher of FIPS 197:
    polynomials over GF(2) modulo x^8 + x^4 + x^3 + x + 1, the substitution as an inverse
    followed by an affine map, the rounds on columns and the key schedule on words. *)

From S2P Require Import Prelude CMem.

(** ** Arithmetic in GF(2^8) *)

Definition gadd (a b : Z) : Z := Z.lxor a b.
Definition gsub (a b : Z) : Z := Z.lxor a b.

Definition gmult_step (s : Z * Z * Z) : Z * Z * Z :=
  let '(p, a, b) := s in
  let p := if negb (Z.land b 1 =? 0) then Z.lxor p a else p in
  let hbs := Z.land a 0x80 in
  let a := u8 (Z.shiftl a 1) in
  let a := if negb (hbs =? 0) then Z.lxor a 0x1b else a in
  let b := Z.shiftr b 1 in
  (p, a, b).

Definition gmult (a b : Z) : Z := (Nat.iter 8 gmult_step (0, a, b)).1.1.

(** [d] may be one of the arguments: it is written as the bytes are read. *)
Definition coef_add (a b : list Z) : option (list Z) :=
  a0 ← rd8 a 0; b0 ← rd8 b 0;
  a1 ← rd8 a 1; b1 ← rd8 b 1;
  a2 ← rd8 a 2; b2 ← rd8 b 2;
  a3 ← rd8 a 3; b3 ← rd8 b 3;
  Some [Z.lxor a0 b0; Z.lxor a1 b1; Z.lxor a2 b2; Z.lxor a3 b3].

Definition coef_mult (a b : list Z) : option (list Z) :=
  a0 ← rd8 a 0; a1 ← rd8 a 1; a2 ← rd8 a 2; a3 ← rd8 a 3;
  b0 ← rd8 b 0; b1 ← rd8 b 1; b2 ← rd8 b 2; b3 ← rd8 b 3;
  Some [Z.lxor (Z.lxor (Z.lxor (gmult a0 b0) (gmult a3 b1)) (gmult a2 b2)) (gmult a1 b3);
        Z.lxor (Z.lxor (Z.lxor (gmult a1 b0) (gmult a0 b1)) (gmult a3 b2)) (gmult a2 b3);
        Z.lxor (Z.lxor (Z.lxor (gmult a2 b0) (gmult a1 b1)) (gmult a0 b2)) (gmult a3 b3);
        Z.lxor (Z.lxor (Z.lxor (gmult a3 b0) (gmult a2 b1)) (gmult a1 b2)) (gmult a0 b3)].

Definition Nb : Z := 4.

Definition s_box : list Z := Eval cbv in concat [
  [0x63; 0x7c; 0x77; 0x7b; 0xf2; 0x6b; 0x6f; 0xc5; 0x30; 0x01; 0x67; 0x2b; 0xfe; 0xd7; 0xab; 0x76];
  [0xca; 0x82; 0xc9; 0x7d; 0xfa; 0x59; 0x47; 0xf0; 0xad; 0xd4; 0xa2; 0xaf; 0x9c; 0xa4; 0x72; 0xc0];
  [0xb7; 0xfd; 0x93; 0x26; 0x36; 0x3f; 0xf7; 0xcc; 0x34; 0xa5; 0xe5; 0xf1; 0x71; 0xd8; 0x31; 0x15];
  [0x04; 0xc7; 0x23; 0xc3; 0x18; 0x96; 0x05; 0x9a; 0x07; 0x12; 0x80; 0xe2; 0xeb; 0x27; 0xb2; 0x75];
  [0x09; 0x83; 0x2c; 0x1a; 0x1b; 0x6e; 0x5a; 0xa0; 0x52; 0x3b; 0xd6; 0xb3; 0x29; 0xe3; 0x2f; 0x84];
  [0x53; 0xd1; 0x00; 0xed; 0x20; 0xfc; 0xb1; 0x5b; 0x6a; 0xcb; 0xbe; 0x39; 0x4a; 0x4c; 0x58; 0xcf];
  [0xd0; 0xef; 0xaa; 0xfb; 0x43; 0x4d; 0x33; 0x85; 0x45; 0xf9; 0x02; 0x7f; 0x50; 0x3c; 0x9f; 0xa8];
  [0x51; 0xa3; 0x40; 0x8f; 0x92; 0x9d; 0x38; 0xf5; 0xbc; 0xb6; 0xda; 0x21; 0x10; 0xff; 0xf3; 0xd2];
  [0xcd; 0x0c; 0x13; 0xec; 0x5f; 0x97; 0x44; 0x17; 0xc4; 0xa7; 0x7e; 0x3d; 0x64; 0x5d; 0x19; 0x73];
  [0x60; 0x81; 0x4f; 0xdc; 0x22; 0x2a; 0x90; 0x88; 0x46; 0xee; 0xb8; 0x14; 0xde; 0x5e; 0x0b; 0xdb];
  [0xe0; 0x32; 0x3a; 0x0a; 0x49; 0x06; 0x24; 0x5c; 0xc2; 0xd3; 0xac; 0x62; 0x91; 0x95; 0xe4; 0x79];
  [0xe7; 0xc8; 0x37; 0x6d; 0x8d; 0xd5; 0x4e; 0xa9; 0x6c; 0x56; 0xf4; 0xea; 0x65; 0x7a; 0xae; 0x08];
  [0xba; 0x78; 0x25; 0x2e; 0x1c; 0xa6; 0xb4; 0xc6; 0xe8; 0xdd; 0x74; 0x1f; 0x4b; 0xbd; 0x8b; 0x8a];
  [0x70; 0x3e; 0xb5; 0x66; 0x48; 0x03; 0xf6; 0x0e; 0x61; 0x35; 0x57; 0xb9; 0x86; 0xc1; 0x1d; 0x9e];
  [0xe1; 0xf8; 0x98; 0x11; 0x69; 0xd9; 0x8e; 0x94; 0x9b; 0x1e; 0x87; 0xe9; 0xce; 0x55; 0x28; 0xdf];
  [0x8c; 0xa1; 0x89; 0x0d; 0xbf; 0xe6; 0x42; 0x68; 0x41; 0x99; 0x2d; 0x0f; 0xb0; 0x54; 0xbb; 0x16]].

Definition inv_s_box : list Z := Eval cbv in concat [
  [0x52; 0x09; 0x6a; 0xd5; 0x30; 0x36; 0xa5; 0x38; 0xbf; 0x40; 0xa3; 0x9e; 0x81; 0xf3; 0xd7; 0xfb];
  [0x7c; 0xe3; 0x39; 0x82; 0x9b; 0x2f; 0xff; 0x87; 0x34; 0x8e; 0x43; 0x44; 0xc4; 0xde; 0xe9; 0xcb];
  [0x54; 0x7b; 0x94; 0x32; 0xa6; 0xc2; 0x23; 0x3d; 0xee; 0x4c; 0x95; 0x0b; 0x42; 0xfa; 0xc3; 0x4e];
  [0x08; 0x2e; 0xa1; 0x66; 0x28; 0xd9; 0x24; 0xb2; 0x76; 0x5b; 0xa2; 0x49; 0x6d; 0x8b; 0xd1; 0x25];
  [0x72; 0xf8; 0xf6; 0x64; 0x86; 0x68; 0x98; 0x16; 0xd4; 0xa4; 0x5c; 0xcc; 0x5d; 0x65; 0xb6; 0x92];
  [0x6c; 0x70; 0x48; 0x50; 0xfd; 0xed; 0xb9; 0xda; 0x5e; 0x15; 0x46; 0x57; 0xa7; 0x8d; 0x9d; 0x84];
  [0x90; 0xd8; 0xab; 0x00; 0x8c; 0xbc; 0xd3; 0x0a; 0xf7; 0xe4; 0x58; 0x05; 0xb8; 0xb3; 0x45; 0x06];
  [0xd0; 0x2c; 0x1e; 0x8f; 0xca; 0x3f; 0x0f; 0x02; 0xc1; 0xaf; 0xbd; 0x03; 0x01; 0x13; 0x8a; 0x6b];
  [0x3a; 0x91; 0x11; 0x41; 0x4f; 0x67; 0xdc; 0xea; 0x97; 0xf2; 0xcf; 0xce; 0xf0; 0xb4; 0xe6; 0x73];
  [0x96; 0xac; 0x74; 0x22; 0xe7; 0xad; 0x35; 0x85; 0xe2; 0xf9; 0x37; 0xe8; 0x1c; 0x75; 0xdf; 0x6e];
  [0x47; 0xf1; 0x1a; 0x71; 0x1d; 0x29; 0xc5; 0x89; 0x6f; 0xb7; 0x62; 0x0e; 0xaa; 0x18; 0xbe; 0x1b];
  [0xfc; 0x56; 0x3e; 0x4b; 0xc6; 0xd2; 0x79; 0x20; 0x9a; 0xdb; 0xc0; 0xfe; 0x78; 0xcd; 0x5a; 0xf4];
  [0x1f; 0xdd; 0xa8; 0x33; 0x88; 0x07; 0xc7; 0x31; 0xb1; 0x12; 0x10; 0x59; 0x27; 0x80; 0xec; 0x5f];
  [0x60; 0x51; 0x7f; 0xa9; 0x19; 0xb5; 0x4a; 0x0d; 0x2d; 0xe5; 0x7a; 0x9f; 0x93; 0xc9; 0x9c; 0xef];
  [0xa0; 0xe0; 0x3b; 0x4d; 0xae; 0x2a; 0xf5; 0xb0; 0xc8; 0xeb; 0xbb; 0x3c; 0x83; 0x53; 0x99; 0x61];
  [0x17; 0x2b; 0x04; 0x7e; 0xba; 0x77; 0xd6; 0x26; 0xe1; 0x69; 0x14; 0x63; 0x55; 0x21; 0x0c; 0x7d]].

(** ** The transformations *)

(** [while (i-1 > 0)], after [i--]. *)
Fixpoint Rcon_loop (fuel : nat) (R : list Z) (i : Z) : option (list Z) :=
  match fuel with
  | O => None
  | S fuel =>
      return_if negb (i - 1 >? 0) with Some R ;;
      r ← rd8 R 0;
      R ← wr8 R 0 (gmult r 0x02);
      Rcon_loop fuel R (i - 1)
  end.

Definition Rcon (R : list Z) (i : Z) : option (list Z) :=
  if i =? 1 then wr8 R 0 0x01
  else if i >? 1 then R ← wr8 R 0 0x02; Rcon_loop (Z.to_nat i) R (i - 1)
  else Some R.

Definition add_round_key (state w : list Z) (r : Z) : option (list Z) :=
  for_range (Z.to_nat Nb) 0
    (fun c state =>
       s ← rd8 state (Nb * 0 + c); k ← rd8 w (4 * Nb * r + 4 * c + 0); state ← wr8 state (Nb * 0 + c) (Z.lxor s k);
       s ← rd8 state (Nb * 1 + c); k ← rd8 w (4 * Nb * r + 4 * c + 1); state ← wr8 state (Nb * 1 + c) (Z.lxor s k);
       s ← rd8 state (Nb * 2 + c); k ← rd8 w (4 * Nb * r + 4 * c + 2); state ← wr8 state (Nb * 2 + c) (Z.lxor s k);
       s ← rd8 state (Nb * 3 + c); k ← rd8 w (4 * Nb * r + 4 * c + 3); wr8 state (Nb * 3 + c) (Z.lxor s k)) state.

(** The loop of [mix_columns] and [inv_mix_columns] over the columns, with the polynomial [a]. *)
Definition mult_columns (a state : list Z) : option (list Z) :=
  for_range (Z.to_nat Nb) 0
    (fun j state =>
       col ← for_range 4 0 (fun i col => x ← rd8 state (Nb * i + j); Some (col ++ [x])) [];
       res ← coef_mult a col;
       for_range 4 0 (fun i state => x ← rd8 res i; wr8 state (Nb * i + j) x) state) state.

Definition mix_columns (state : list Z) : option (list Z) := mult_columns [0x02; 0x01; 0x01; 0x03] state.
Definition inv_mix_columns (state : list Z) : option (list Z) := mult_columns [0x0e; 0x09; 0x0d; 0x0b] state.

Definition shift_rows (state : list Z) : option (list Z) :=
  for_range 3 1
    (fun i state =>
       for_range (Z.to_nat i) 0
         (fun _ state =>
            tmp ← rd8 state (Nb * i + 0);
            state ← for_range (Z.to_nat (Nb - 1)) 1 (fun k state => x ← rd8 state (Nb * i + k); wr8 state (Nb * i + k - 1) x) state;
            wr8 state (Nb * i + Nb - 1) tmp) state) state.

(** The inner loop counts [k] down from [Nb - 1]. *)
Definition inv_shift_rows (state : list Z) : option (list Z) :=
  for_range 3 1
    (fun i state =>
       for_range (Z.to_nat i) 0
         (fun _ state =>
            tmp ← rd8 state (Nb * i + Nb - 1);
            state ← for_range (Z.to_nat (Nb - 1)) 0
              (fun n state => let k := Nb - 1 - n in x ← rd8 state (Nb * i + k - 1); wr8 state (Nb * i + k) x) state;
            wr8 state (Nb * i + 0) tmp) state) state.

(** An entry of a substitution table, by the two halves of the byte. *)
Definition box_entry (box : list Z) (x : Z) : option Z :=
  let row := Z.shiftr (Z.land x 0xf0) 4 in
  let col := Z.land x 0x0f in
  znth box (16 * row + col).

Definition box_bytes (box state : list Z) : option (list Z) :=
  for_range 4 0
    (fun i state =>
       for_range (Z.to_nat Nb) 0
         (fun j state => x ← rd8 state (Nb * i + j); y ← box_entry box x; wr8 state (Nb * i + j) y) state) state.

Definition sub_bytes (state : list Z) : option (list Z) := box_bytes s_box state.
Definition inv_sub_bytes (state : list Z) : option (list Z) := box_bytes inv_s_box state.

(** ** The key schedule *)

Definition sub_word (w : list Z) : option (list Z) :=
  for_range 4 0 (fun i w => x ← rd8 w i; y ← box_entry s_box x; wr8 w i y) w.

Definition rot_word (w : list Z) : option (list Z) :=
  tmp ← rd8 w 0;
  w ← for_range 3 0 (fun i w => x ← rd8 w (i + 1); wr8 w i x) w;
  wr8 w 3 tmp.

(** [tmp] after the tests of the second loop, and [R]. *)
Definition key_core (Nk i : Z) (tmp R : list Z) : option (list Z * list Z) :=
  if i mod Nk =? 0 then
    tmp ← rot_word tmp;
    tmp ← sub_word tmp;
    R ← Rcon R (i / Nk);
    tmp ← coef_add tmp R;
    Some (tmp, R)
  else if (Nk >? 6) && (i mod Nk =? 4) then tmp ← sub_word tmp; Some (tmp, R)
  else Some (tmp, R).

Definition key_expansion (Nk Nr : Z) (key w R : list Z) : option (list Z * list Z) :=
  let len := u8 (Nb * (Nr + 1)) in
  w ← for_range (Z.to_nat Nk) 0
    (fun i w => for_range 4 0 (fun n w => x ← rd8 key (4 * i + n); wr8 w (4 * i + n) x) w) w;
  for_range (Z.to_nat (len - Nk)) Nk
    (fun i '(w, R) =>
       tmp ← for_range 4 0 (fun n tmp => x ← rd8 w (4 * (i - 1) + n); Some (tmp ++ [x])) [];
       '(tmp, R) ← key_core Nk i tmp R;
       w ← for_range 4 0 (fun n w => x ← rd8 w (4 * (i - Nk) + n); t ← rd8 tmp n; wr8 w (4 * i + n) (Z.lxor x t)) w;
       Some (w, R)) (w, R).

(** ** The ciphers *)

Definition load_state (inp : list Z) : option (list Z) :=
  for_range 4 0
    (fun i state => for_range (Z.to_nat Nb) 0 (fun j state => x ← rd8 inp (i + 4 * j); Some (state ++ [x])) state) [].

Definition store_state (state out : list Z) : option (list Z) :=
  for_range 4 0
    (fun i out => for_range (Z.to_nat Nb) 0 (fun j out => x ← rd8 state (Nb * i + j); wr8 out (i + 4 * j) x) out) out.

Definition cipher (Nr : Z) (inp out w : list Z) : option (list Z) :=
  state ← load_state inp;
  state ← add_round_key state w 0;
  state ← for_range (Z.to_nat (Nr - 1)) 1
    (fun r state =>
       state ← sub_bytes state;
       state ← shift_rows state;
       state ← mix_columns state;
       add_round_key state w r) state;
  state ← sub_bytes state;
  state ← shift_rows state;
  state ← add_round_key state w Nr;
  store_state state out.

(** [r] counts down from [Nr - 1]. *)
Definition inv_cipher (Nr : Z) (inp out w : list Z) : option (list Z) :=
  state ← load_state inp;
  state ← add_round_key state w Nr;
  state ← for_range (Z.to_nat (Nr - 1)) 0
    (fun n state =>
       let r := Nr - 1 - n in
       state ← inv_shift_rows state;
       state ← inv_sub_bytes state;
       state ← add_round_key state w r;
       inv_mix_columns state) state;
  state ← inv_shift_rows state;
  state ← inv_sub_bytes state;
  state ← add_round_key state w 0;
  store_state state out.

Record aes_key := mkAes { aes_Nk : Z; aes_Nr : Z; aes_w : option (list Z); aes_R : list Z }.

(** The [switch] over the length of the key. *)
Definition aes_params (key_len : Z) : Z * Z :=
  if key_len =? 24 then (6, 12) else if key_len =? 32 then (8, 14) else (4, 10).

(** [malloc n] is null or the contents of [n] fresh bytes. *)
Definition aes_init (malloc : Z -> option (list Z)) (R key : list Z) (key_len : Z) : option (Z * aes_key) :=
  let '(Nk, Nr) := aes_params key_len in
  match malloc (Nb * (Nr + 1) * 4) with
  | None => Some (1, mkAes Nk Nr None R)
  | Some w => '(w, R) ← key_expansion Nk Nr key w R; Some (0, mkAes Nk Nr (Some w) R)
  end.

(** The examples of FIPS 197, appendix C. *)
Definition run_aes (key_len : Z) : option (list Z * list Z) :=
  '(_, k) ← aes_init (fun n => Some (replicate (Z.to_nat n) 0)) [2; 0; 0; 0] (seqZ 0 key_len) key_len;
  w ← aes_w k;
  c ← cipher (aes_Nr k) ((fun x => 0x11 * x) <$> seqZ 0 16) (replicate 16 0) w;
  d ← inv_cipher (aes_Nr k) c (replicate 16 0) w;
  Some (c, d).

Example fips197_vectors :
  run_aes 16 = Some ([0x69; 0xc4; 0xe0; 0xd8; 0x6a; 0x7b; 0x04; 0x30; 0xd8; 0xcd; 0xb7; 0x80; 0x70; 0xb4; 0xc5; 0x5a],
                     (fun x => 0x11 * x) <$> seqZ 0 16)
  /\ run_aes 24 = Some ([0xdd; 0xa9; 0x7c; 0xa4; 0x86; 0x4c; 0xdf; 0xe0; 0x6e; 0xaf; 0x70; 0xa0; 0xec; 0x0d; 0x71; 0x91],
                     (fun x => 0x11 * x) <$> seqZ 0 16)
  /\ run_aes 32 = Some ([0x8e; 0xa2; 0xb7; 0xca; 0x51; 0x67; 0x45; 0xbf; 0xea; 0xfc; 0x49; 0x90; 0x4b; 0x49; 0x60; 0x89],
                     (fun x => 0x11 * x) <$> seqZ 0 16).
Proof. by vm_compute. Qed.

(** ** The reference of FIPS 197 *)

(** The product of two polynomials over GF(2), and its remainder. *)
Definition clmul (a b : Z) : Z :=
  fold_left (fun acc i => if Z.testbit b i then Z.lxor acc (Z.shiftl a i) else acc) (seqZ 0 8) 0.
Definition preduce (x : Z) : Z :=
  fold_left (fun x k => if Z.testbit x k then Z.lxor x (Z.shiftl 0x11b (k - 8)) else x) (reverse (seqZ 8 7)) x.
Definition gf_mul (a b : Z) : Z := preduce (clmul a b).

Definition gf_pow (x : Z) (n : nat) : Z := Nat.iter n (gf_mul x) 1.
Definition rotl8 (x n : Z) : Z := Z.lor (u8 (Z.shiftl x n)) (Z.shiftr x (8 - n)).
(** The inverse is the power 254 = 2 + 4 + ... + 128; 0 has none and stays 0. *)
Definition gf_inv (x : Z) : Z :=
  fold_left (fun acc n => gf_mul acc (Nat.iter n (fun y => gf_mul y y) x)) (seq 1 7) 1.
Definition SubByte (x : Z) : Z :=
  let i := gf_inv x in
  Z.lxor (Z.lxor (Z.lxor (Z.lxor (Z.lxor i (rotl8 i 1)) (rotl8 i 2)) (rotl8 i 3)) (rotl8 i 4)) 0x63.

(** Products of polynomials of four coefficients modulo x^4 + 1. *)
Definition poly_mul (a col : list Z) : list Z :=
  (fun i => fold_left Z.lxor
     ((fun j => gf_mul (default 0 (znth a ((i - j) mod 4))) (default 0 (znth col j))) <$> seqZ 0 4) 0) <$> seqZ 0 4.

(** A block is its columns, one after the other. *)
Definition SubBytes (b : list Z) : list Z := SubByte <$> b.
Definition ShiftRows (b : list Z) : list Z := (fun k => default 0 (znth b ((k + 4 * (k mod 4)) mod 16))) <$> seqZ 0 16.
Definition MixColumns (b : list Z) : list Z :=
  concat ((fun c => poly_mul [2; 1; 1; 3] (take 4 (drop (4 * c) b))) <$> seq 0 4).
Definition AddRoundKey (k b : list Z) : list Z := zip_with Z.lxor b k.

Definition fips_round (k b : list Z) : list Z := AddRoundKey k (MixColumns (ShiftRows (SubBytes b))).
Definition fips_cipher (Nr : Z) (rk : Z -> list Z) (b : list Z) : list Z :=
  let b := fold_left (fun b r => fips_round (rk r) b) (seqZ 1 (Nr - 1)) (AddRoundKey (rk 0) b) in
  AddRoundKey (rk Nr) (ShiftRows (SubBytes b)).

(** The key schedule, on words of four bytes. *)
Definition fips_rcon (i : Z) : list Z := [gf_pow 2 (Z.to_nat (i - 1)); 0; 0; 0].
Definition fips_temp (Nk : Z) (ws : list (list Z)) : list Z :=
  let i := zlen ws in
  let t := default [] (last ws) in
  if i mod Nk =? 0 then zip_with Z.lxor (SubBytes (drop 1 t ++ take 1 t)) (fips_rcon (i / Nk))
  else if (Nk >? 6) && (i mod Nk =? 4) then SubBytes t else t.
Definition fips_next (Nk : Z) (ws : list (list Z)) : list Z :=
  zip_with Z.lxor (default [] (znth ws (zlen ws - Nk))) (fips_temp Nk ws).
Definition fips_words (Nk Nr : Z) (key : list Z) : list (list Z) :=
  Nat.iter (Z.to_nat (4 * (Nr + 1) - Nk)) (fun ws => ws ++ [fips_next Nk ws])
    ((fun i => take 4 (drop (4 * i) key)) <$> seq 0 (Z.to_nat Nk)).
Definition fips_key (Nk Nr : Z) (key : list Z) (r : Z) : list Z :=
  concat (take 4 (drop (4 * Z.to_nat r) (fips_words Nk Nr key))).
