(* ===== verification/AesCorrect.v ===== *)
(** * AES: the code against FIPS 197

    Multiplication of the code against the field, the tables against the inverse and the
    affine map, each transformation on the array of a block against its function on the
    block, the ciphers as folds over the rounds, their inverses, and the key schedule. *)

From Stdlib Require Import Btauto.
From S2P Require Import Prelude CMem Aes.

(** ** Bytes *)

Lemma bytes_check (p : Z -> bool) : forallb p (seqZ 0 256) = true -> forall x, is_u8 x -> p x = true.
Proof. intros H x Hx. by apply (forallb_seqZ p 256). Qed.

Lemma bytes_check_dec (P : Z -> Prop) `{forall x, Decision (P x)} :
  forallb (fun x => bool_decide (P x)) (seqZ 0 256) = true -> forall x, is_u8 x -> P x.
Proof. intros Hb x Hx. apply (bool_decide_eq_true_1 (P x)). exact (bytes_check _ Hb x Hx). Qed.

(** Functions that respect the addition of the field agree when they agree on the powers of x. *)
Definition additive (f : Z -> Z) : Prop := forall x y, f (Z.lxor x y) = Z.lxor (f x) (f y).

Lemma additive_0 f : additive f -> f 0 = 0.
Proof. intros Hf. specialize (Hf 0 0). by rewrite !Z.lxor_nilpotent in Hf. Qed.

Definition from_bits (x : Z) : Z :=
  fold_left (fun acc i => Z.lxor acc (if Z.testbit x i then 2 ^ i else 0)) (seqZ 0 8) 0.

Lemma from_bits_id x : is_u8 x -> from_bits x = x.
Proof. intros Hx. apply Z.eqb_eq. revert x Hx. apply bytes_check. by vm_compute. Qed.

Lemma additive_fold f l x : additive f -> forall acc,
  f (fold_left (fun acc i => Z.lxor acc (if Z.testbit x i then 2 ^ i else 0)) l acc)
  = fold_left (fun acc i => Z.lxor acc (if Z.testbit x i then f (2 ^ i) else 0)) l (f acc).
Proof.
  intros Hf. induction l as [|i l IH]; intros acc; cbn [fold_left]; [done|].
  rewrite IH, Hf. by destruct (Z.testbit x i); rewrite ?(additive_0 f).
Qed.

Lemma additive_ext f g : additive f -> additive g ->
  forallb (fun i => f (2 ^ i) =? g (2 ^ i)) (seqZ 0 8) = true -> forall x, is_u8 x -> f x = g x.
Proof.
  intros Hf Hg Hb x Hx. rewrite <- (from_bits_id x Hx). unfold from_bits. rewrite !additive_fold, (additive_0 f Hf), (additive_0 g Hg) by done.
  apply (fold_left_ext_inv (fun _ => True) (fun i => 0 <= i < 8)); [|apply Forall_seqZ; lia|done].
  intros acc i _ Hi. split; [|done]. pose proof (forallb_seqZ _ 8 i Hb Hi) as E. cbn beta in E. zbool. by rewrite E.
Qed.

Lemma additive_compose f g : additive f -> additive g -> additive (fun x => f (g x)).
Proof. intros Hf Hg x y. by rewrite Hg, Hf. Qed.

Lemma additive_lxor f g : additive f -> additive g -> additive (fun x => Z.lxor (f x) (g x)).
Proof. intros Hf Hg x y. rewrite Hf, Hg. apply Z.bits_inj'. intros k _. rewrite !Z.lxor_spec. by repeat destruct (Z.testbit _ _). Qed.

Lemma land_1_testbit x : negb (Z.land x 1 =? 0) = Z.testbit x 0.
Proof.
  change (Z.land x 1) with (Z.land x (Z.ones 1)). rewrite Z.land_ones, Z.bit0_odd by done. change (2 ^ 1) with 2.
  rewrite Zmod_odd. by destruct (Z.odd x).
Qed.

Lemma gmult_additive a : additive (gmult a).
Proof.
  intros x y. unfold gmult.
  assert (H : forall n p q r a x y z, r = Z.lxor p q -> z = Z.lxor x y ->
    (Nat.iter n gmult_step (r, a, z)).1.1 = Z.lxor (Nat.iter n gmult_step (p, a, x)).1.1 (Nat.iter n gmult_step (q, a, y)).1.1).
  { induction n as [|n IH]; intros p q r a' x' y' z -> ->; [done|]. rewrite !Nat.iter_succ_r. unfold gmult_step at 2 4 6.
    rewrite !land_1_testbit. apply IH; [|by rewrite Z.shiftr_lxor].
    rewrite Z.lxor_spec. apply Z.bits_inj'. intros k _. destruct (Z.testbit x' 0), (Z.testbit y' 0); cbn; rewrite !Z.lxor_spec;
      by repeat destruct (Z.testbit _ _). }
  by apply H.
Qed.

Lemma clmul_additive a : additive (clmul a).
Proof.
  intros x y. unfold clmul. generalize (seqZ 0 8). intros l.
  assert (H : forall p q r, r = Z.lxor p q ->
    fold_left (fun acc i => if Z.testbit (Z.lxor x y) i then Z.lxor acc (Z.shiftl a i) else acc) l r
    = Z.lxor (fold_left (fun acc i => if Z.testbit x i then Z.lxor acc (Z.shiftl a i) else acc) l p)
        (fold_left (fun acc i => if Z.testbit y i then Z.lxor acc (Z.shiftl a i) else acc) l q)); [|by apply H].
  induction l as [|i l IH]; intros p q r ->; cbn [fold_left]; [done|]. apply IH.
  rewrite Z.lxor_spec. apply Z.bits_inj'. intros k _. destruct (Z.testbit x i), (Z.testbit y i); cbn; rewrite !Z.lxor_spec;
    by repeat destruct (Z.testbit _ _).
Qed.

Lemma preduce_additive : additive preduce.
Proof.
  intros x y. unfold preduce. generalize (reverse (seqZ 8 7)). intros l. revert x y.
  induction l as [|i l IH]; intros x y; cbn [fold_left]; [done|]. rewrite <- IH. f_equal.
  rewrite Z.lxor_spec. apply Z.bits_inj'. intros k _. destruct (Z.testbit x i), (Z.testbit y i); cbn; rewrite ?Z.lxor_spec;
    by repeat destruct (Z.testbit _ _).
Qed.

Lemma gf_mul_additive a : additive (gf_mul a).
Proof. exact (additive_compose preduce (clmul a) preduce_additive (clmul_additive a)). Qed.

Lemma gf_mul_range a b : is_u8 a -> is_u8 b -> is_u8 (gf_mul a b).
Proof.
  intros Ha Hb. rewrite <- (from_bits_id b Hb). unfold from_bits.
  rewrite (additive_fold _ _ _ (gf_mul_additive a)), (additive_0 _ (gf_mul_additive a)).
  assert (H : forallb (fun i => (0 <=? gf_mul a (2 ^ i)) && (gf_mul a (2 ^ i) <? 256)) (seqZ 0 8) = true)
    by (revert a Ha; apply bytes_check; by vm_compute).
  apply (fold_left_inv (fun x => is_u8 x) (fun i => 0 <= i < 8)); [|apply Forall_seqZ; lia|lia].
  intros acc i Hacc Hi. apply (lxor_range _ _ 8); [lia|done|]. destruct (Z.testbit b i); [|lia].
  pose proof (forallb_seqZ _ 8 i H Hi) as E. cbn beta in E. zbool. lia.
Qed.

(** The product of the code is that of the field. *)
Lemma gmult_gf_mul a b : is_u8 a -> is_u8 b -> gmult a b = gf_mul a b.
Proof.
  intros Ha. apply additive_ext; [apply gmult_additive | apply gf_mul_additive|].
  revert a Ha. apply bytes_check. by vm_compute.
Qed.

Lemma gf_inv_inverse x : is_u8 x -> x <> 0 -> gf_mul x (gf_inv x) = 1.
Proof.
  revert x. refine (bytes_check_dec _ _); by vm_compute.
Qed.

(** The tables are the affine image of the inverse, and its inverse. *)
Lemma box_entry_sub x : is_u8 x -> box_entry s_box x = Some (SubByte x) /\ box_entry inv_s_box (SubByte x) = Some x /\ is_u8 (SubByte x).
Proof.
  revert x. refine (bytes_check_dec _ _); by vm_compute.
Qed.

(** ** The transformations on blocks *)

(** The array that holds a block. *)
Definition rows_of (b : list Z) : list Z := (fun k => default 0 (znth b (k / 4 + 4 * (k mod 4)))) <$> seqZ 0 16.

Definition is_block (b : list Z) : Prop := length b = 16%nat /\ bytes_ok b.

(** Name the ranges of the bytes. *)
Ltac name_bytes H := repeat (apply Forall_cons in H as [? H]); clear H.

(** Name the sixteen bytes of a block. *)
Ltac explode b H :=
  let Hlen := fresh in let Hok := fresh in
  destruct H as [Hlen Hok]; do 16 (destruct b as [|? b]; [done|]); destruct b; [|done];
  clear Hlen; name_bytes Hok.

Ltac oks := repeat (apply Forall_cons_2; [assumption|]); apply Forall_nil_2.

Ltac cells := lazy -[u8 box_entry coef_mult Z.lxor Z.le Z.lt]; repeat (rewrite u8_id by (assumption || apply u8_range)).

Lemma load_state_spec b : is_block b -> load_state b = Some (rows_of b).
Proof. intros H. explode b H. done. Qed.

Lemma store_state_spec b out : is_block b -> length out = 16%nat -> store_state (rows_of b) out = Some b.
Proof.
  intros H Hout. do 16 (destruct out as [|? out]; [done|]). destruct out; [|done]. clear Hout. explode b H.
  by cells.
Qed.

Lemma shift_rows_spec b : is_block b -> shift_rows (rows_of b) = Some (rows_of (ShiftRows b)).
Proof. intros H. explode b H. by cells. Qed.


Lemma poly_mul_eq a0 a1 a2 a3 b0 b1 b2 b3 :
  poly_mul [a0; a1; a2; a3] [b0; b1; b2; b3]
  = [Z.lxor (Z.lxor (Z.lxor (gf_mul a0 b0) (gf_mul a3 b1)) (gf_mul a2 b2)) (gf_mul a1 b3);
     Z.lxor (Z.lxor (Z.lxor (gf_mul a1 b0) (gf_mul a0 b1)) (gf_mul a3 b2)) (gf_mul a2 b3);
     Z.lxor (Z.lxor (Z.lxor (gf_mul a2 b0) (gf_mul a1 b1)) (gf_mul a0 b2)) (gf_mul a3 b3);
     Z.lxor (Z.lxor (Z.lxor (gf_mul a3 b0) (gf_mul a2 b1)) (gf_mul a1 b2)) (gf_mul a0 b3)].
Proof. lazy -[gf_mul Z.lxor]. by rewrite !Z.lxor_0_l. Qed.

(** The product of a column with a constant polynomial. *)
Lemma coef_mult_spec a0 a1 a2 a3 b0 b1 b2 b3 :
  bytes_ok [a0; a1; a2; a3] -> bytes_ok [b0; b1; b2; b3] ->
  exists r0 r1 r2 r3, poly_mul [a0; a1; a2; a3] [b0; b1; b2; b3] = [r0; r1; r2; r3]
    /\ coef_mult [a0; a1; a2; a3] [b0; b1; b2; b3] = Some [r0; r1; r2; r3] /\ bytes_ok [r0; r1; r2; r3].
Proof.
  intros Ha Hb. name_bytes Ha; name_bytes Hb.
  rewrite poly_mul_eq. do 4 eexists. split; [done|]. split.
  - lazy -[gmult gf_mul Z.lxor Z.le Z.lt]. by rewrite !gmult_gf_mul by done.
  - repeat (apply Forall_cons_2; [repeat (apply (lxor_range _ _ 8); [lia|..]); apply gf_mul_range; assumption|]). apply Forall_nil_2.
Qed.

Lemma mult_columns_spec a0 a1 a2 a3 b : bytes_ok [a0; a1; a2; a3] -> is_block b ->
  let b' := concat ((fun c => poly_mul [a0; a1; a2; a3] (take 4 (drop (4 * c) b))) <$> seq 0 4) in
  mult_columns [a0; a1; a2; a3] (rows_of b) = Some (rows_of b') /\ is_block b'.
Proof.
  intros Ha H. explode b H. cbn [seq fmap list_fmap take drop Nat.mul Nat.add].
  pose proof (coef_mult_spec a0 a1 a2 a3 z z0 z1 z2 Ha ltac:(oks)) as (r0 & r1 & r2 & r3 & E1 & F1 & G1).
  pose proof (coef_mult_spec a0 a1 a2 a3 z3 z4 z5 z6 Ha ltac:(oks)) as (r4 & r5 & r6 & r7 & E2 & F2 & G2).
  pose proof (coef_mult_spec a0 a1 a2 a3 z7 z8 z9 z10 Ha ltac:(oks)) as (r8 & r9 & r10 & r11 & E3 & F3 & G3).
  pose proof (coef_mult_spec a0 a1 a2 a3 z11 z12 z13 z14 Ha ltac:(oks)) as (r12 & r13 & r14 & r15 & E4 & F4 & G4).
  rewrite E1, E2, E3, E4. cbn [concat app]. 
  name_bytes G1; name_bytes G2; name_bytes G3; name_bytes G4.
  split; [|split; [reflexivity|oks]].
  lazy -[u8 coef_mult Z.lxor Z.le Z.lt]. rewrite F1. lazy -[u8 coef_mult Z.lxor Z.le Z.lt]. rewrite F2.
  lazy -[u8 coef_mult Z.lxor Z.le Z.lt]. rewrite F3. lazy -[u8 coef_mult Z.lxor Z.le Z.lt]. rewrite F4. cells. reflexivity.
Qed.

(** Substitution of every byte, by a table whose entries are [f]. *)
Lemma box_bytes_spec box f b :
  (forall x, is_u8 x -> box_entry box x = Some (f x) /\ is_u8 (f x)) -> is_block b ->
  box_bytes box (rows_of b) = Some (rows_of (f <$> b)) /\ is_block (f <$> b).
Proof.
  intros Hf H. split; [|split; [by rewrite length_fmap; apply H|apply Forall_fmap; eapply Forall_impl; [apply H|]; cbn; intros; by apply Hf]].
  assert (E : forall x, is_u8 x -> box_entry box x = Some (f x)) by (intros; by apply Hf).
  explode b H. lazy -[u8 box_entry Z.le Z.lt].
  repeat (rewrite E by assumption; lazy -[u8 box_entry Z.le Z.lt]).
  repeat (rewrite u8_id by (apply Hf; assumption)). reflexivity.
Qed.

Lemma sub_bytes_spec b : is_block b -> sub_bytes (rows_of b) = Some (rows_of (SubBytes b)) /\ is_block (SubBytes b).
Proof. apply box_bytes_spec. intros x Hx. by destruct (box_entry_sub x Hx) as (? & _ & ?). Qed.

(** Only the 16 bytes of the round key are read. *)
Lemma add_round_key_window state w k r :
  (forall n, 0 <= n < 16 -> rd8 w (16 * r + n) = rd8 k n) -> add_round_key state w r = add_round_key state k 0.
Proof.
  intros Hk. unfold add_round_key. apply (for_range_ext_inv (fun _ => True)); [|done].
  intros c s Hc _. split; [|done]. change (Z.to_nat Nb) with 4%nat in Hc. unfold Nb.
  replace (4 * 4 * r + 4 * c + 0) with (16 * r + (4 * 4 * 0 + 4 * c + 0)) by lia.
  replace (4 * 4 * r + 4 * c + 1) with (16 * r + (4 * 4 * 0 + 4 * c + 1)) by lia.
  replace (4 * 4 * r + 4 * c + 2) with (16 * r + (4 * 4 * 0 + 4 * c + 2)) by lia.
  replace (4 * 4 * r + 4 * c + 3) with (16 * r + (4 * 4 * 0 + 4 * c + 3)) by lia.
  by rewrite !Hk by lia.
Qed.

Lemma add_round_key_spec b w k r : is_block b -> is_block k ->
  (forall n, 0 <= n < 16 -> rd8 w (16 * r + n) = rd8 k n) ->
  add_round_key (rows_of b) w r = Some (rows_of (AddRoundKey k b)) /\ is_block (AddRoundKey k b).
Proof.
  intros Hb Hk Hw. rewrite (add_round_key_window _ _ _ _ Hw). explode b Hb. explode k Hk.
  assert (E : forall x y, is_u8 x -> is_u8 y -> u8 (Z.lxor x y) = Z.lxor x y).
  { intros x y Hx Hy. apply u8_id. by apply (lxor_range _ _ 8). }
  split.
  - lazy -[u8 Z.lxor Z.le Z.lt]. repeat (rewrite E by assumption). reflexivity.
  - split; [reflexivity|]. lazy -[Z.lxor Z.le Z.lt].
    repeat (apply Forall_cons_2; [apply (lxor_range _ _ 8); [lia|assumption..]|]). apply Forall_nil_2.
Qed.

Lemma ShiftRows_block b : is_block b -> is_block (ShiftRows b).
Proof. intros H. explode b H. split; [reflexivity|]. lazy -[Z.le Z.lt]. oks. Qed.

(** ** The inverses *)

Definition InvSubByte (x : Z) : Z := default 0 (box_entry inv_s_box x).
Definition InvShiftRows (b : list Z) : list Z := (fun k => default 0 (znth b ((k - 4 * (k mod 4)) mod 16))) <$> seqZ 0 16.
Definition InvMixColumns (b : list Z) : list Z :=
  concat ((fun c => poly_mul [0x0e; 0x09; 0x0d; 0x0b] (take 4 (drop (4 * c) b))) <$> seq 0 4).

Lemma inv_shift_rows_spec b : is_block b -> inv_shift_rows (rows_of b) = Some (rows_of (InvShiftRows b)) /\ is_block (InvShiftRows b).
Proof. intros H. explode b H. split; [by cells|]. split; [reflexivity|]. lazy -[Z.le Z.lt]. oks. Qed.

Lemma inv_sub_bytes_spec b : is_block b -> inv_sub_bytes (rows_of b) = Some (rows_of (InvSubByte <$> b)) /\ is_block (InvSubByte <$> b).
Proof.
  apply box_bytes_spec. apply (bytes_check_dec (fun x => box_entry inv_s_box x = Some (InvSubByte x) /\ is_u8 (InvSubByte x))). by vm_compute.
Qed.

Lemma InvSubBytes_SubBytes b : is_block b -> InvSubByte <$> SubBytes b = b.
Proof.
  intros [_ H]. unfold SubBytes. rewrite <- list_fmap_compose. rewrite <- (list_fmap_id b) at 2.
  apply list_fmap_ext. intros i x Hx. cbn. rewrite Forall_lookup in H. unfold InvSubByte.
  by destruct (box_entry_sub x (H i x Hx)) as (_ & -> & _).
Qed.

Lemma InvShiftRows_ShiftRows b : is_block b -> InvShiftRows (ShiftRows b) = b.
Proof. intros H. explode b H. reflexivity. Qed.

Lemma AddRoundKey_twice k b : length k = length b -> AddRoundKey k (AddRoundKey k b) = b.
Proof.
  revert k. induction b as [|x b IH]; intros [|y k] Hl; [done..|]. cbn in *. unfold AddRoundKey in *.
  rewrite IH by lia. by rewrite Z.lxor_assoc, Z.lxor_nilpotent, Z.lxor_0_r.
Qed.

(** The two polynomials are inverse: the products of their coefficients add up to 1 and to 0. *)
Lemma poly_products x : is_u8 x ->
  Z.lxor (Z.lxor (Z.lxor (gf_mul 0x0e (gf_mul 2 x)) (gf_mul 0x0b (gf_mul 1 x))) (gf_mul 0x0d (gf_mul 1 x))) (gf_mul 0x09 (gf_mul 3 x)) = x
  /\ Z.lxor (Z.lxor (Z.lxor (gf_mul 0x0e (gf_mul 3 x)) (gf_mul 0x0b (gf_mul 2 x))) (gf_mul 0x0d (gf_mul 1 x))) (gf_mul 0x09 (gf_mul 1 x)) = 0
  /\ Z.lxor (Z.lxor (Z.lxor (gf_mul 0x0e (gf_mul 1 x)) (gf_mul 0x0b (gf_mul 3 x))) (gf_mul 0x0d (gf_mul 2 x))) (gf_mul 0x09 (gf_mul 1 x)) = 0
  /\ Z.lxor (Z.lxor (Z.lxor (gf_mul 0x0e (gf_mul 1 x)) (gf_mul 0x0b (gf_mul 1 x))) (gf_mul 0x0d (gf_mul 3 x))) (gf_mul 0x09 (gf_mul 2 x)) = 0.
Proof. revert x. refine (bytes_check_dec _ _); by vm_compute. Qed.

Lemma lxor_of_bits a b : (forall k, Z.testbit a k = Z.testbit b k) -> a = b.
Proof. intros H. apply Z.bits_inj'. auto. Qed.

Ltac lxor_bits := apply lxor_of_bits; intros ?; rewrite !Z.lxor_spec; btauto.

Lemma poly_mul_inverse b0 b1 b2 b3 : bytes_ok [b0; b1; b2; b3] ->
  poly_mul [0x0e; 0x09; 0x0d; 0x0b] (poly_mul [2; 1; 1; 3] [b0; b1; b2; b3]) = [b0; b1; b2; b3].
Proof.
  intros Hb. name_bytes Hb. rewrite !poly_mul_eq.
  assert (D : forall a x y, gf_mul a (Z.lxor x y) = Z.lxor (gf_mul a x) (gf_mul a y)) by (intros a; apply gf_mul_additive).
  rewrite !D.
  assert (E : forall x y z w, is_u8 x -> is_u8 y -> is_u8 z -> is_u8 w ->
    x = Z.lxor (Z.lxor (Z.lxor
       (Z.lxor (Z.lxor (Z.lxor (gf_mul 0x0e (gf_mul 2 x)) (gf_mul 0x0b (gf_mul 1 x))) (gf_mul 0x0d (gf_mul 1 x))) (gf_mul 0x09 (gf_mul 3 x)))
       (Z.lxor (Z.lxor (Z.lxor (gf_mul 0x0e (gf_mul 3 y)) (gf_mul 0x0b (gf_mul 2 y))) (gf_mul 0x0d (gf_mul 1 y))) (gf_mul 0x09 (gf_mul 1 y))))
       (Z.lxor (Z.lxor (Z.lxor (gf_mul 0x0e (gf_mul 1 z)) (gf_mul 0x0b (gf_mul 3 z))) (gf_mul 0x0d (gf_mul 2 z))) (gf_mul 0x09 (gf_mul 1 z))))
       (Z.lxor (Z.lxor (Z.lxor (gf_mul 0x0e (gf_mul 1 w)) (gf_mul 0x0b (gf_mul 1 w))) (gf_mul 0x0d (gf_mul 3 w))) (gf_mul 0x09 (gf_mul 2 w)))).
  { intros x y z w Hx Hy Hz Hw. destruct (poly_products x Hx) as (-> & _), (poly_products y Hy) as (_ & -> & _),
      (poly_products z Hz) as (_ & _ & -> & _), (poly_products w Hw) as (_ & _ & _ & ->). by rewrite !Z.lxor_0_r. }
  f_equal; [|f_equal; [|f_equal; [|f_equal]]].
  - etransitivity; [|symmetry; apply (E b0 b1 b2 b3); assumption]. lxor_bits.
  - etransitivity; [|symmetry; apply (E b1 b2 b3 b0); assumption]. lxor_bits.
  - etransitivity; [|symmetry; apply (E b2 b3 b0 b1); assumption]. lxor_bits.
  - etransitivity; [|symmetry; apply (E b3 b0 b1 b2); assumption]. lxor_bits.
Qed.

Lemma InvMixColumns_MixColumns b : is_block b -> InvMixColumns (MixColumns b) = b.
Proof.
  intros H. explode b H. unfold InvMixColumns, MixColumns. cbn [seq fmap list_fmap take drop Nat.mul Nat.add concat].
  rewrite !poly_mul_eq. cbn [app]. cbn [take drop]. rewrite <- !poly_mul_eq. by rewrite !poly_mul_inverse by oks.
Qed.

Lemma MixColumns_spec b : is_block b -> mix_columns (rows_of b) = Some (rows_of (MixColumns b)) /\ is_block (MixColumns b).
Proof. intros H. apply mult_columns_spec; [by apply bytes_ok_decide|done]. Qed.

Lemma InvMixColumns_spec b : is_block b -> inv_mix_columns (rows_of b) = Some (rows_of (InvMixColumns b)) /\ is_block (InvMixColumns b).
Proof. intros H. apply mult_columns_spec; [by apply bytes_ok_decide|done]. Qed.

(** ** The ciphers *)

(** A loop that follows a fold on related states. *)
Lemma for_range_fold_rel {S T} (Q : T -> S -> Prop) (g : T -> Z -> T) (body : Z -> S -> option S) n i s t :
  (forall k s t, i <= k < i + Z.of_nat n -> Q t s -> exists s', body k s = Some s' /\ Q (g t k) s') ->
  Q t s -> exists s', for_range n i body s = Some s' /\ Q (fold_left g (seqZ i (Z.of_nat n)) t) s'.
Proof.
  revert i s t. induction n as [|n IH]; intros i s t Hb Hq; cbn [for_range]; [by exists s|].
  destruct (Hb i s t) as (s1 & -> & Hq1); [lia|done|]. rewrite bind_Some.
  rewrite (seqZ_cons i (Z.of_nat (Datatypes.S n))) by lia. cbn [fold_left].
  replace (Z.pred (Z.of_nat (Datatypes.S n))) with (Z.of_nat n) by lia.
  replace (Z.succ i) with (i + 1) by lia. apply IH; [|done]. intros k u v Hk. apply Hb. lia.
Qed.

(** [w] holds the round keys [rk]. *)
Definition holds_keys (w : list Z) (rk : Z -> list Z) (Nr : Z) : Prop :=
  forall r, 0 <= r <= Nr -> is_block (rk r) /\ forall n, 0 <= n < 16 -> rd8 w (16 * r + n) = rd8 (rk r) n.

Definition at_block (b s : list Z) : Prop := s = rows_of b /\ is_block b.

Lemma cipher_spec Nr rk b out w : 1 <= Nr -> is_block b -> length out = 16%nat -> holds_keys w rk Nr ->
  cipher Nr b out w = Some (fips_cipher Nr rk b) /\ is_block (fips_cipher Nr rk b).
Proof.
  intros HNr Hb Hout Hw. unfold cipher. rewrite load_state_spec, bind_Some by done.
  destruct (Hw 0 ltac:(lia)) as [Hk0 Hr0]. destruct (add_round_key_spec b w (rk 0) 0 Hb Hk0 Hr0) as [-> Hb0]. rewrite bind_Some.
  destruct (for_range_fold_rel at_block (fun b r => fips_round (rk r) b)
    (fun r state => state ← sub_bytes state; state ← shift_rows state; state ← mix_columns state; add_round_key state w r)
    (Z.to_nat (Nr - 1)) 1 (rows_of (AddRoundKey (rk 0) b)) (AddRoundKey (rk 0) b)) as (s & -> & -> & Hs); [|done|].
  - intros r s t Hr [-> Ht]. destruct (sub_bytes_spec t Ht) as [-> H1]. rewrite bind_Some, shift_rows_spec, bind_Some by done.
    apply ShiftRows_block in H1. destruct (MixColumns_spec _ H1) as [-> H2]. rewrite bind_Some.
    destruct (Hw r ltac:(lia)) as [Hk Hr']. destruct (add_round_key_spec _ w (rk r) r H2 Hk Hr') as [-> H3].
    eexists. split; [done|]. by split.
  - rewrite bind_Some, Z2Nat.id in * by lia. unfold fips_cipher. set (t := fold_left _ _ _) in *.
    destruct (sub_bytes_spec t Hs) as [-> H1]. rewrite bind_Some, shift_rows_spec, bind_Some by done.
    apply ShiftRows_block in H1. destruct (Hw Nr ltac:(lia)) as [Hk Hr].
    destruct (add_round_key_spec _ w (rk Nr) Nr H1 Hk Hr) as [-> H3]. by rewrite bind_Some, store_state_spec.
Qed.

(** The steps of [inv_cipher]. *)
Definition fips_inv_round (k b : list Z) : list Z := InvMixColumns (AddRoundKey k (InvSubByte <$> InvShiftRows b)).
Definition fips_inv_cipher (Nr : Z) (rk : Z -> list Z) (c : list Z) : list Z :=
  let b := fold_left (fun b n => fips_inv_round (rk (Nr - 1 - n)) b) (seqZ 0 (Nr - 1)) (AddRoundKey (rk Nr) c) in
  AddRoundKey (rk 0) (InvSubByte <$> InvShiftRows b).

Lemma inv_cipher_spec Nr rk c out w : 1 <= Nr -> is_block c -> length out = 16%nat -> holds_keys w rk Nr ->
  inv_cipher Nr c out w = Some (fips_inv_cipher Nr rk c).
Proof.
  intros HNr Hb Hout Hw. unfold inv_cipher. rewrite load_state_spec, bind_Some by done.
  destruct (Hw Nr ltac:(lia)) as [Hk0 Hr0]. destruct (add_round_key_spec c w (rk Nr) Nr Hb Hk0 Hr0) as [-> Hb0]. rewrite bind_Some.
  destruct (for_range_fold_rel at_block (fun b n => fips_inv_round (rk (Nr - 1 - n)) b)
    (fun n state => state ← inv_shift_rows state; state ← inv_sub_bytes state; state ← add_round_key state w (Nr - 1 - n);
       inv_mix_columns state)
    (Z.to_nat (Nr - 1)) 0 (rows_of (AddRoundKey (rk Nr) c)) (AddRoundKey (rk Nr) c)) as (s & -> & -> & Hs); [|done|].
  - intros n s t Hr [-> Ht]. destruct (inv_shift_rows_spec t Ht) as [-> H1]. rewrite bind_Some.
    destruct (inv_sub_bytes_spec _ H1) as [-> H2]. rewrite bind_Some.
    destruct (Hw (Nr - 1 - n) ltac:(lia)) as [Hk Hr']. destruct (add_round_key_spec _ w _ _ H2 Hk Hr') as [-> H3].
    rewrite bind_Some. destruct (InvMixColumns_spec _ H3) as [-> H4]. eexists. split; [done|]. by split.
  - rewrite bind_Some, Z2Nat.id in * by lia. unfold fips_inv_cipher. set (t := fold_left _ _ _) in *.
    destruct (inv_shift_rows_spec t Hs) as [-> H1]. rewrite bind_Some.
    destruct (inv_sub_bytes_spec _ H1) as [-> H2]. rewrite bind_Some.
    destruct (Hw 0 ltac:(lia)) as [Hk Hr]. destruct (add_round_key_spec _ w (rk 0) 0 H2 Hk Hr) as [-> H3].
    by rewrite bind_Some, store_state_spec.
Qed.

Definition fips_rounds (rk : Z -> list Z) (b : list Z) (n : nat) : list Z :=
  fold_left (fun b r => fips_round (rk r) b) (seqZ 1 (Z.of_nat n)) b.

Lemma AddRoundKey_block k b : is_block k -> is_block b -> is_block (AddRoundKey k b).
Proof.
  intros [Hk1 Hk2] [Hb1 Hb2]. split; [unfold AddRoundKey; rewrite length_zip_with; lia|].
  apply (Forall_zip_with_fst _ (fun x => is_u8 x)); [done|]. eapply Forall_impl; [exact Hk2|]. cbn. intros y Hy x Hx.
  by apply (lxor_range _ _ 8).
Qed.

Lemma fips_round_block k b : is_block k -> is_block b -> is_block (fips_round k b).
Proof. intros Hk Hb. apply AddRoundKey_block; [done|]. by apply MixColumns_spec, ShiftRows_block, sub_bytes_spec. Qed.

Lemma fips_rounds_S rk b n : fips_rounds rk b (S n) = fips_round (rk (Z.of_nat (S n))) (fips_rounds rk b n).
Proof.
  unfold fips_rounds. rewrite seqZ_S, fold_left_app. cbn [fold_left].
  by replace (1 + Z.of_nat n) with (Z.of_nat (S n)) by lia.
Qed.

Lemma fips_rounds_block rk b n : (forall r, 0 < r <= Z.of_nat n -> is_block (rk r)) -> is_block b -> is_block (fips_rounds rk b n).
Proof.
  induction n as [|n IH]; intros Hk Hb; [done|]. rewrite fips_rounds_S.
  apply fips_round_block; [apply Hk; lia|]. apply IH; [intros; apply Hk; lia|done].
Qed.

(** A round of the inverse takes back the substitution and the shift, and the round before them. *)
Lemma fips_inv_round_round k b : is_block k -> is_block b ->
  fips_inv_round k (ShiftRows (SubBytes (fips_round k b))) = ShiftRows (SubBytes b).
Proof.
  intros Hk Hb. unfold fips_inv_round.
  assert (H : is_block (fips_round k b)) by by apply fips_round_block.
  destruct (sub_bytes_spec _ H) as [_ H1]. destruct (sub_bytes_spec _ Hb) as [_ H2].
  rewrite InvShiftRows_ShiftRows, InvSubBytes_SubBytes by done. unfold fips_round.
  destruct (MixColumns_spec _ (ShiftRows_block _ H2)) as [_ H3].
  rewrite AddRoundKey_twice by (by destruct Hk as [-> _], H3 as [-> _]).
  by rewrite InvMixColumns_MixColumns by by apply ShiftRows_block.
Qed.

Lemma fips_inv_shift rk n l : forall c,
  fold_left (fun b k => fips_inv_round (rk (Z.of_nat (S n) - k)) b) (Z.add 1 <$> l) c
  = fold_left (fun b k => fips_inv_round (rk (Z.of_nat n - k)) b) l c.
Proof.
  induction l as [|x l IH]; intros c; [done|]. cbn [fmap list_fmap fold_left]. rewrite IH.
  by replace (Z.of_nat (S n) - (1 + x)) with (Z.of_nat n - x) by lia.
Qed.

Lemma fips_inv_rounds rk b n : (forall r, 0 < r <= Z.of_nat n -> is_block (rk r)) -> is_block b ->
  fold_left (fun b k => fips_inv_round (rk (Z.of_nat n - k)) b) (seqZ 0 (Z.of_nat n)) (ShiftRows (SubBytes (fips_rounds rk b n)))
  = ShiftRows (SubBytes b).
Proof.
  intros Hk Hb. revert Hk. induction n as [|n IH]; intros Hk; [done|].
  rewrite (seqZ_cons 0), fold_left_cons by lia. replace (Z.succ 0) with (1 + 0) by done. rewrite Z.sub_0_r, fips_rounds_S, fips_inv_round_round;
    [|apply Hk; lia|apply fips_rounds_block; [intros; apply Hk; lia|done]].
  rewrite <- IH by (intros; apply Hk; lia). replace (Z.pred (Z.of_nat (S n))) with (Z.of_nat n) by lia.
  rewrite <- (fmap_add_seqZ 1 0). apply fips_inv_shift.
Qed.

Lemma fips_inverse Nr rk b : 1 <= Nr -> (forall r, 0 <= r <= Nr -> is_block (rk r)) -> is_block b ->
  fips_inv_cipher Nr rk (fips_cipher Nr rk b) = b.
Proof.
  intros HNr Hk Hb. unfold fips_inv_cipher, fips_cipher.
  destruct (Z_of_nat_complete (Nr - 1)) as [n Hn]; [lia|]. rewrite !Hn.
  pose proof (AddRoundKey_block (rk 0) b (Hk 0 ltac:(lia)) Hb) as Hb0.
  fold (fips_rounds rk (AddRoundKey (rk 0) b) n).
  assert (Hr : is_block (fips_rounds rk (AddRoundKey (rk 0) b) n)) by (apply fips_rounds_block; [intros; apply Hk; lia|done]).
  destruct (sub_bytes_spec _ Hr) as [_ H1]. apply ShiftRows_block in H1.
  rewrite AddRoundKey_twice by (by destruct (Hk Nr ltac:(lia)) as [-> _], H1 as [-> _]).
  rewrite fips_inv_rounds by (done || (intros; apply Hk; lia)).
  destruct (sub_bytes_spec _ Hb0) as [_ H2].
  rewrite InvShiftRows_ShiftRows, InvSubBytes_SubBytes by done.
  apply AddRoundKey_twice. by destruct (Hk 0 ltac:(lia)) as [-> _], Hb as [-> _].
Qed.

(** ** The key schedule *)

Definition words_ok (ws : list (list Z)) : Prop := Forall (fun x => length x = 4%nat /\ bytes_ok x) ws.

Lemma words_length_aes ws : words_ok ws -> length (concat ws) = (4 * length ws)%nat.
Proof. induction 1 as [|x ws [Hx _] _ IH]; [done|]. cbn [concat length]. rewrite length_app. lia. Qed.

Lemma words_bytes ws : words_ok ws -> bytes_ok (concat ws).
Proof. induction 1 as [|x ws [_ Hx] _ IH]; [apply Forall_nil_2|]. by apply Forall_app. Qed.

(** Byte [n] of word [j]. *)
Lemma rd_word ws j x q n : words_ok ws -> ws !! j = Some x -> 0 <= n < 4 ->
  rd8 (concat ws ++ q) (4 * Z.of_nat j + n) = rd8 x n.
Proof.
  intros Hws Hj Hn. pose proof (proj1 (Forall_lookup_1 _ _ _ _ Hws Hj)) as Hx.
  rewrite <- (take_drop_middle ws j x Hj) in Hws |- *. apply Forall_app in Hws as [H1 _].
  pose proof (words_length_aes _ H1) as Hl. rewrite length_take_le in Hl by (apply lookup_lt_Some in Hj; lia).
  rewrite concat_app, <- app_assoc. cbn [concat]. rewrite <- app_assoc. unfold rd8.
  rewrite znth_app_r by lia. rewrite znth_app_l by lia. f_equal. lia.
Qed.

(** The loops that write a word byte by byte. *)
Lemma write_loop g p : forall x d pre post i,
  zlen pre = p + i -> length d = length x -> bytes_ok x ->
  (forall n q, i <= n < i + zlen x -> g n (pre ++ q) = rd8 x (n - i)) ->
  for_range (length x) i (fun n w => y ← g n w; wr8 w (p + n) y) (pre ++ d ++ post) = Some (pre ++ x ++ post).
Proof.
  induction x as [|b x IH]; intros [|c d] pre post i Hp Hd Hok Hg; try done. apply Forall_cons in Hok as [Hb Hok].
  cbn [length for_range app] in *. rewrite Hg, Z.sub_diag by lia. cbn [rd8]. change (rd8 (b :: x) 0) with (Some b). rewrite bind_Some.
  rewrite wr8_at, bind_Some by (done || lia). rewrite !(cons_middle b pre).
  rewrite !(app_assoc pre). rewrite (IH d (pre ++ [b]) post (i + 1)); [done|rewrite length_app; cbn; lia|lia|done|].
  intros n q Hn. rewrite <- app_assoc, Hg by lia. unfold rd8, znth. repeat zcase; try lia.
  by replace (Z.to_nat (n - i)) with (S (Z.to_nat (n - (i + 1)))) by lia.
Qed.

Lemma write_word g pre d post p x :
  zlen pre = p -> length d = 4%nat -> length x = 4%nat -> bytes_ok x ->
  (forall n q, 0 <= n < 4 -> g n (pre ++ q) = rd8 x n) ->
  for_range 4 0 (fun n w => y ← g n w; wr8 w (p + n) y) (pre ++ d ++ post) = Some (pre ++ x ++ post).
Proof.
  intros Hp Hd Hx Hok Hg. rewrite <- Hx. apply write_loop; [lia|lia|done|].
  intros n q Hn. rewrite Z.sub_0_r. apply Hg. lia.
Qed.

Lemma sub_word_spec x : length x = 4%nat -> bytes_ok x -> sub_word x = Some (SubBytes x).
Proof.
  intros Hx Hok. do 4 (destruct x as [|? x]; [done|]). destruct x; [|done]. name_bytes Hok.
  assert (E : forall x, is_u8 x -> box_entry s_box x = Some (SubByte x)) by (intros; by apply box_entry_sub).
  lazy -[u8 box_entry s_box SubByte Z.le Z.lt].
  repeat (rewrite E by assumption; lazy -[u8 box_entry s_box SubByte Z.le Z.lt]).
  repeat (rewrite u8_id by (apply box_entry_sub; assumption)). reflexivity.
Qed.

Lemma rot_word_spec x : length x = 4%nat -> bytes_ok x -> rot_word x = Some (drop 1 x ++ take 1 x).
Proof.
  intros Hx Hok. do 4 (destruct x as [|? x]; [done|]). destruct x; [|done]. name_bytes Hok. cells. reflexivity.
Qed.

Lemma SubBytes_ok x : bytes_ok x -> bytes_ok (SubBytes x).
Proof. intros H. apply Forall_fmap. eapply Forall_impl; [exact H|]. cbn. intros y Hy. by apply box_entry_sub. Qed.

Lemma zip_lxor_ok a b : bytes_ok a -> bytes_ok b -> bytes_ok (zip_with Z.lxor a b).
Proof.
  intros Ha Hb. apply (Forall_zip_with_fst _ (fun x => is_u8 x)); [done|]. eapply Forall_impl; [exact Hb|].
  cbn. intros y Hy x Hx. by apply (lxor_range _ _ 8).
Qed.

(** The round constants; [Rcon] forgets what the array held. *)
Lemma Rcon_spec r i : 1 <= i <= 10 -> Rcon [r; 0; 0; 0] i = Some (fips_rcon i).
Proof.
  intros Hi. assert (i = 1 \/ i = 2 \/ i = 3 \/ i = 4 \/ i = 5 \/ i = 6 \/ i = 7 \/ i = 8 \/ i = 9 \/ i = 10) as H by lia.
  repeat (destruct H as [->|H]; [by vm_compute|]). subst i. by vm_compute.
Qed.

Lemma coef_add_spec a b : length a = 4%nat -> length b = 4%nat -> coef_add a b = Some (zip_with Z.lxor a b).
Proof.
  intros Ha Hb. do 4 (destruct a as [|? a]; [done|]). destruct a; [|done].
  do 4 (destruct b as [|? b]; [done|]). by destruct b.
Qed.

Definition rcon_array (R : list Z) : Prop := exists r, R = [r; 0; 0; 0].

Lemma fips_rcon_array i : rcon_array (fips_rcon i).
Proof. by eexists. Qed.

Lemma fips_rcon_ok i : 1 <= i <= 10 -> bytes_ok (fips_rcon i).
Proof.
  intros Hi. assert (i = 1 \/ i = 2 \/ i = 3 \/ i = 4 \/ i = 5 \/ i = 6 \/ i = 7 \/ i = 8 \/ i = 9 \/ i = 10) as H by lia.
  repeat (destruct H as [->|H]; [by apply bytes_ok_decide; vm_compute|]). subst i. by apply bytes_ok_decide; vm_compute.
Qed.

Lemma last_lookup_pred {A} (l : list A) x : last l = Some x -> l !! pred (length l) = Some x.
Proof. by rewrite last_lookup. Qed.

Lemma key_core_spec Nk R ws t :
  words_ok ws -> last ws = Some t -> 1 <= Nk -> Nk <= zlen ws < 11 * Nk -> rcon_array R ->
  exists R', key_core Nk (zlen ws) t R = Some (fips_temp Nk ws, R') /\ rcon_array R'
    /\ length (fips_temp Nk ws) = 4%nat /\ bytes_ok (fips_temp Nk ws).
Proof.
  intros Hws Ht HNk Hi [r ->]. destruct (Forall_lookup_1 _ _ _ _ Hws (last_lookup_pred _ _ Ht)) as [Hlen Hok].
  unfold key_core, fips_temp. rewrite Ht. change (default [] (Some t)) with t.
  assert (Hrot : length (drop 1 t ++ take 1 t) = 4%nat /\ bytes_ok (drop 1 t ++ take 1 t)).
  { split; [rewrite length_app, length_drop, length_take; lia|]. apply Forall_app. split; [by apply Forall_drop | by apply Forall_take]. }
  destruct (Z.eqb_spec (zlen ws mod Nk) 0) as [Hm|Hm].
  - assert (Hq : 1 <= zlen ws / Nk <= 10).
    { split; [apply Z.div_le_lower_bound; lia|]. enough (zlen ws / Nk < 11) by lia. apply Z.div_lt_upper_bound; lia. }
    destruct Hrot as [H1 H2]. rewrite rot_word_spec, bind_Some, sub_word_spec, bind_Some, Rcon_spec, bind_Some by done.
    rewrite coef_add_spec, bind_Some by (unfold SubBytes; by rewrite ?length_fmap).
    eexists. split; [done|]. split; [apply fips_rcon_array|].
    split; [unfold SubBytes; rewrite length_zip_with, length_fmap, H1; done|].
    apply zip_lxor_ok; [by apply SubBytes_ok | by apply fips_rcon_ok].
  - destruct ((Nk >? 6) && (zlen ws mod Nk =? 4)).
    + rewrite sub_word_spec, bind_Some by done. eexists. split; [done|]. split; [by eexists|].
      split; [unfold SubBytes; by rewrite length_fmap | by apply SubBytes_ok].
    + eexists. split; [done|]. split; [by eexists|]. done.
Qed.

Lemma words_firstn (key : list Z) n :
  length key = (4 * n)%nat -> bytes_ok key ->
  let ws := (fun i => take 4 (drop (4 * i) key)) <$> seq 0 n in
  words_ok ws /\ length ws = n /\ concat ws = key.
Proof.
  intros Hl Hok ws. split; [|split; [unfold ws; by rewrite length_fmap, length_seq|]].
  - apply Forall_fmap, Forall_seq. intros i Hi. cbn. split; [rewrite length_take, length_drop; lia|].
    by apply Forall_take, Forall_drop.
  - unfold ws. clear ws. revert key Hl Hok. induction n as [|n IH]; intros key Hl Hok; [by destruct key|].
    cbn [seq fmap list_fmap concat]. rewrite <- fmap_S_seq, <- list_fmap_compose, Nat.mul_0_r, drop_0.
    rewrite <- (take_drop 4 key) at 2. f_equal.
    rewrite <- (IH (drop 4 key)); [|rewrite length_drop; lia|by apply Forall_drop].
    f_equal. apply list_fmap_ext. intros i x _. unfold compose. rewrite drop_drop. by replace (4 * S x)%nat with (4 + 4 * x)%nat by lia.
Qed.

(** One turn of the second loop. *)
Lemma expansion_step Nk ws rest R :
  words_ok ws -> (4 <= length rest)%nat -> 1 <= Nk -> Nk <= zlen ws < 11 * Nk -> rcon_array R ->
  exists R', (tmp ← for_range 4 0 (fun n tmp => x ← rd8 (concat ws ++ rest) (4 * (zlen ws - 1) + n); Some (tmp ++ [x])) [];
     '(tmp, R) ← key_core Nk (zlen ws) tmp R;
     w ← for_range 4 0 (fun n w => x ← rd8 w (4 * (zlen ws - Nk) + n); t ← rd8 tmp n; wr8 w (4 * zlen ws + n) (Z.lxor x t)) (concat ws ++ rest);
     Some (w, R)) = Some (concat (ws ++ [fips_next Nk ws]) ++ drop 4 rest, R')
    /\ rcon_array R' /\ words_ok (ws ++ [fips_next Nk ws]).
Proof.
  intros Hws Hrest HNk Hi HR.
  assert (exists t, last ws = Some t) as [t Ht] by (destruct (last ws) eqn:E; [eauto|apply last_None in E; subst; cbn in *; lia]).
  pose proof (last_lookup_pred _ _ Ht) as Hlast. destruct (Forall_lookup_1 _ _ _ _ Hws Hlast) as [Htl Hto].
  assert (Htmp : for_range 4 0 (fun n tmp => x ← rd8 (concat ws ++ rest) (4 * (zlen ws - 1) + n); Some (tmp ++ [x])) [] = Some t).
  { do 4 (destruct t as [|? t]; [done|]). destruct t; [|done].
    assert (E : forall n, 0 <= n < 4 -> rd8 (concat ws ++ rest) (4 * (zlen ws - 1) + n) = rd8 [z; z0; z1; z2] n).
    { intros n Hn. rewrite <- (rd_word ws (pred (length ws)) _ rest n Hws Hlast Hn). f_equal. lia. }
    cbn [for_range]. rewrite !E by lia. done. }
  rewrite Htmp, bind_Some.
  destruct (key_core_spec Nk R ws t Hws Ht HNk Hi HR) as (R' & -> & HR' & Hl & Ho). rewrite bind_Some.
  destruct (lookup_lt_is_Some_2 ws (Z.to_nat (zlen ws - Nk))) as [y Hy]; [lia|].
  destruct (Forall_lookup_1 _ _ _ _ Hws Hy) as [Hyl Hyo].
  assert (Hnext : fips_next Nk ws = zip_with Z.lxor y (fips_temp Nk ws)).
  { unfold fips_next, znth. ztrue (0 <=? zlen ws - Nk). by rewrite Hy. }
  assert (Hxl : length (fips_next Nk ws) = 4%nat) by (rewrite Hnext, length_zip_with; lia).
  assert (Hxo : bytes_ok (fips_next Nk ws)) by (rewrite Hnext; by apply zip_lxor_ok).
  pose proof (words_length_aes ws Hws) as Hwl.
  assert (Hw : for_range 4 0 (fun n w => x ← rd8 w (4 * (zlen ws - Nk) + n); t ← rd8 (fips_temp Nk ws) n; wr8 w (4 * zlen ws + n) (Z.lxor x t)) (concat ws ++ rest)
    = Some (concat ws ++ fips_next Nk ws ++ drop 4 rest)).
  { rewrite <- (take_drop 4 rest) at 1.
    rewrite <- (write_word (fun n w => x ← rd8 w (4 * (zlen ws - Nk) + n); t ← rd8 (fips_temp Nk ws) n; Some (Z.lxor x t))
      (concat ws) (take 4 rest) (drop 4 rest) (4 * zlen ws) (fips_next Nk ws)); [|lia|rewrite length_take; lia|done|done|].
    - apply (for_range_ext_inv (fun _ => True)); [|done]. intros n w Hn _. split; [|done].
      destruct (rd8 w _); [|done]. cbn. by destruct (rd8 (fips_temp Nk ws) n).
    - intros n q Hn. replace (zlen ws - Nk) with (Z.of_nat (Z.to_nat (zlen ws - Nk))) by lia.
      rewrite (rd_word ws _ y q n Hws Hy Hn), Hnext. unfold rd8, znth. ztrue (0 <=? n).
      rewrite lookup_zip_with. destruct (y !! Z.to_nat n); [|done]. cbn. by destruct (fips_temp Nk ws !! Z.to_nat n). }
  rewrite Hw, bind_Some. exists R'. split; [|split; [done|]].
  - rewrite concat_app. cbn [concat]. by rewrite app_nil_r, <- app_assoc.
  - apply Forall_app. split; [done|]. by repeat constructor.
Qed.

Lemma key_copy Nk key w ws :
  words_ok ws -> concat ws = key -> zlen ws = Nk -> 4 * Nk <= zlen w ->
  for_range (Z.to_nat Nk) 0
    (fun i w => for_range 4 0 (fun n w => x ← rd8 key (4 * i + n); wr8 w (4 * i + n) x) w) w = Some (concat ws ++ drop (length key) w).
Proof.
  intros Hws Hkey Hn Hw.
  destruct (for_range_inv (fun i w' => w' = concat (take (Z.to_nat i) ws) ++ drop (4 * Z.to_nat i) w)
    (fun i w => for_range 4 0 (fun n w => x ← rd8 key (4 * i + n); wr8 w (4 * i + n) x) w) (Z.to_nat Nk) 0 w) as (w' & -> & Hw').
  - intros i w1 Hi ->. eexists. split; [|done].
    destruct (lookup_lt_is_Some_2 ws (Z.to_nat i)) as [x Hx]; [lia|]. destruct (Forall_lookup_1 _ _ _ _ Hws Hx) as [Hxl Hxo].
    assert (Hl : length (concat (take (Z.to_nat i) ws)) = (4 * Z.to_nat i)%nat).
    { rewrite words_length_aes by by apply Forall_take. rewrite length_take. lia. }
    rewrite <- (take_drop 4 (drop (4 * Z.to_nat i) w)), drop_drop.
    rewrite (write_word (fun n _ => rd8 key (4 * i + n)) _ _ _ (4 * i) x); [|lia|rewrite length_take, length_drop; lia|done|done|].
    + replace (Z.to_nat (i + 1)) with (S (Z.to_nat i)) by lia. rewrite (take_S_r _ _ x) by done.
      rewrite concat_app. cbn [concat]. rewrite app_nil_r, <- app_assoc. by replace (4 * S (Z.to_nat i))%nat with (4 * Z.to_nat i + 4)%nat by lia.
    + intros n q Hb. rewrite <- Hkey, <- (app_nil_r (concat ws)). replace (4 * i) with (4 * Z.of_nat (Z.to_nat i)) by lia.
      by apply rd_word.
  - by rewrite drop_0.
  - rewrite Hw'. replace (Z.to_nat (0 + Z.of_nat (Z.to_nat Nk))) with (length ws) by lia.
    rewrite take_ge by lia. by rewrite <- Hkey, words_length_aes by done.
Qed.

(** The schedule the code computes is that of FIPS 197. *)
Lemma key_expansion_spec Nk Nr key w R :
  4 <= Nk -> Nr = Nk + 6 -> Nk <= 8 -> zlen key = 4 * Nk -> bytes_ok key -> zlen w = 16 * (Nr + 1) -> rcon_array R ->
  exists R', key_expansion Nk Nr key w R = Some (concat (fips_words Nk Nr key), R') /\ rcon_array R'
    /\ words_ok (fips_words Nk Nr key) /\ zlen (fips_words Nk Nr key) = 4 * (Nr + 1).
Proof.
  intros HNk HNr HNk8 Hkl Hko Hw HR. unfold key_expansion, fips_words.
  replace (u8 (Nb * (Nr + 1))) with (4 * (Nr + 1)) by (unfold Nb; rewrite u8_id; lia).
  destruct (words_firstn key (Z.to_nat Nk)) as (Hws & Hwl & Hwc); [lia|done|].
  set (ws := (fun i => take 4 (drop (4 * i) key)) <$> seq 0 (Z.to_nat Nk)) in *.
  rewrite (key_copy Nk key w ws Hws Hwc), bind_Some by lia.
  set (next := fun ws => ws ++ [fips_next Nk ws]).
  destruct (for_range_inv (fun i s => let ws := Nat.iter (Z.to_nat (i - Nk)) next ws in
      s.1 = concat ws ++ drop (4 * Z.to_nat i) w /\ words_ok ws /\ zlen ws = i /\ rcon_array s.2)
    (fun i '(w, R) =>
       tmp ← for_range 4 0 (fun n tmp => x ← rd8 w (4 * (i - 1) + n); Some (tmp ++ [x])) [];
       '(tmp, R) ← key_core Nk i tmp R;
       w ← for_range 4 0 (fun n w => x ← rd8 w (4 * (i - Nk) + n); t ← rd8 tmp n; wr8 w (4 * i + n) (Z.lxor x t)) w;
       Some (w, R)) (Z.to_nat (4 * (Nr + 1) - Nk)) Nk (concat ws ++ drop (length key) w, R)) as ([w' R'] & E & Hw' & Hok & Hl & HR').
  - intros i [w1 R1] Hi (H1 & H2 & H3 & H4). cbn [fst snd] in *. set (wi := Nat.iter _ _ _) in *.
    destruct (expansion_step Nk wi (drop (4 * Z.to_nat i) w) R1) as (R2 & E & HR2 & Hok2);
      [done|rewrite length_drop; lia|lia|lia|done|].
    rewrite H1, <- H3. rewrite H3 in E |- *. exists (concat (wi ++ [fips_next Nk wi]) ++ drop 4 (drop (4 * Z.to_nat i) w), R2).
    split; [exact E|]. replace (Z.to_nat (i + 1 - Nk)) with (S (Z.to_nat (i - Nk))) by lia. rewrite Nat.iter_succ. fold wi. cbn [fst snd].
    split; [|split; [done|split; [unfold next; rewrite length_app; cbn; lia|done]]].
    rewrite drop_drop. by replace (4 * Z.to_nat (i + 1))%nat with (4 * Z.to_nat i + 4)%nat by lia.
  - cbv zeta. rewrite Z.sub_diag. change (Nat.iter (Z.to_nat 0) next ws) with ws. cbn [fst snd]. split; [|split; [done|split; [lia|done]]].
    by replace (4 * Z.to_nat Nk)%nat with (length key) by lia.
  - rewrite E. cbn [fst snd] in *. replace (Nk + Z.of_nat (Z.to_nat (4 * (Nr + 1) - Nk))) with (4 * (Nr + 1)) in * by lia.
    exists R'. rewrite Hw', drop_ge, app_nil_r by lia. done.
Qed.

(** The round keys are the blocks of the schedule. *)
Lemma schedule_holds Nk Nr key :
  words_ok (fips_words Nk Nr key) -> zlen (fips_words Nk Nr key) = 4 * (Nr + 1) ->
  holds_keys (concat (fips_words Nk Nr key)) (fips_key Nk Nr key) Nr.
Proof.
  unfold fips_key. set (ws := fips_words Nk Nr key). intros Hws Hl r Hr.
  assert (H4 : words_ok (take 4 (drop (4 * Z.to_nat r) ws))) by by apply Forall_take, Forall_drop.
  assert (Hlen : length (concat (take 4 (drop (4 * Z.to_nat r) ws))) = 16%nat).
  { rewrite words_length_aes by done. rewrite length_take, length_drop. lia. }
  split; [split; [done|by apply words_bytes]|]. intros n Hn.
  rewrite <- (take_drop (4 * Z.to_nat r) ws) at 1. rewrite <- (take_drop 4 (drop (4 * Z.to_nat r) ws)) at 1.
  rewrite !concat_app. unfold rd8.
  assert (Hp : length (concat (take (4 * Z.to_nat r) ws)) = (16 * Z.to_nat r)%nat).
  { rewrite words_length_aes by by apply Forall_take. rewrite length_take. lia. }
  rewrite znth_app_r, znth_app_l by lia. f_equal. lia.
Qed.

Lemma aes_params_cases key_len Nk Nr : aes_params key_len = (Nk, Nr) -> 4 <= Nk <= 8 /\ Nr = Nk + 6.
Proof. unfold aes_params. repeat case_if; intros [= <- <-]; lia. Qed.

(** What [aes_init] sets up. *)
Definition keyed (k : aes_key) (Nk Nr : Z) (key : list Z) : Prop :=
  aes_Nk k = Nk /\ aes_Nr k = Nr /\ rcon_array (aes_R k)
  /\ exists w, aes_w k = Some w /\ holds_keys w (fips_key Nk Nr key) Nr.

Lemma aes_init_spec malloc R key key_len Nk Nr :
  aes_params key_len = (Nk, Nr) -> zlen key = 4 * Nk -> bytes_ok key -> rcon_array R ->
  (forall n w, malloc n = Some w -> zlen w = n) -> is_Some (malloc (Nb * (Nr + 1) * 4)) ->
  exists k, aes_init malloc R key key_len = Some (0, k) /\ keyed k Nk Nr key.
Proof.
  intros Hp Hk Hok HR Hm [w Hw]. destruct (aes_params_cases _ _ _ Hp) as [HNk HNr]. unfold aes_init. rewrite Hp, Hw.
  apply Hm in Hw. unfold Nb in Hw.
  destruct (key_expansion_spec Nk Nr key w R) as (R' & -> & HR' & Hws & Hl); [lia..|done|lia|done|]. rewrite bind_Some.
  eexists. split; [done|]. split; [done|]. split; [done|]. split; [done|]. eexists. split; [done|]. by apply schedule_holds.
Qed.

Section aes.
Context (malloc : Z -> option (list Z)).
Hypothesis malloc_length : forall n w, malloc n = Some w -> zlen w = n.

(** C11: after aes_init on a key of 16, 24 or 32 bytes (any other length counts as 16) has
    found memory for the round keys, cipher returns for every block the block that FIPS 197
    defines: substitution by the inverse in GF(2^8) and the affine map, rotation of the rows,
    product of the columns with 3x^3 + x^2 + x + 2 modulo x^4 + 1, and the round keys of the
    key expansion; a null pointer from malloc is reported as 1. *)
Theorem aes_fips197 R key key_len Nk Nr b out :
  aes_params key_len = (Nk, Nr) -> zlen key = 4 * Nk -> bytes_ok key -> rcon_array R -> is_block b -> length out = 16%nat ->
  exists r k, aes_init malloc R key key_len = Some (r, k)
    /\ match malloc (Nb * (Nr + 1) * 4) with
       | None => r = 1 /\ aes_w k = None
       | Some _ => r = 0 /\ aes_Nr k = Nr /\ exists w, aes_w k = Some w /\ cipher Nr b out w = Some (fips_cipher Nr (fips_key Nk Nr key) b)
       end.
Proof.
  intros Hp Hk Hok HR Hb Hout. destruct (malloc (Nb * (Nr + 1) * 4)) as [w|] eqn:E.
  - destruct (aes_init_spec malloc R key key_len Nk Nr) as (k & -> & _ & Hr & _ & w' & Hw' & Hh); [done..|eauto|].
    exists 0, k. split; [done|]. split; [done|]. split; [done|]. exists w'. split; [done|].
    apply cipher_spec; try done. destruct (aes_params_cases _ _ _ Hp). lia.
  - unfold aes_init. rewrite Hp, E. eauto.
Qed.

(** C12: decryption gives back what was encrypted: for every key of 16, 24 or 32 bytes and
    every block, cipher and inv_cipher with the round keys of aes_init both return, never
    leave their arrays, and inv_cipher of the result of cipher is the block. *)
Theorem aes_decrypts R key key_len Nk Nr b out out' :
  aes_params key_len = (Nk, Nr) -> zlen key = 4 * Nk -> bytes_ok key -> rcon_array R ->
  is_Some (malloc (Nb * (Nr + 1) * 4)) -> is_block b -> length out = 16%nat -> length out' = 16%nat ->
  exists k w c, aes_init malloc R key key_len = Some (0, k) /\ aes_w k = Some w
    /\ cipher (aes_Nr k) b out w = Some c /\ is_block c /\ inv_cipher (aes_Nr k) c out' w = Some b.
Proof.
  intros Hp Hk Hok HR Hm Hb Hout Hout'. destruct (aes_params_cases _ _ _ Hp) as [HNk HNr].
  destruct (aes_init_spec malloc R key key_len Nk Nr) as (k & Hi & _ & Hr & _ & w & Hw & Hh); [done..|].
  destruct (cipher_spec Nr (fips_key Nk Nr key) b out w) as [Hc Hcb]; [lia|done..|].
  exists k, w, (fips_cipher Nr (fips_key Nk Nr key) b). rewrite Hr. do 4 (split; [done|]).
  rewrite (inv_cipher_spec Nr (fips_key Nk Nr key)) by (done || lia). f_equal.
  apply fips_inverse; [lia| |done]. intros r Hr'. by apply Hh.
Qed.
End aes.

(** Fresh memory holds 7s. *)
Definition sample_malloc (n : Z) : option (list Z) := if n <? 0 then None else Some (replicate (Z.to_nat n) 7).
Definition sample_key (n : Z) : list Z := seqZ 0 n.
Definition sample_block : list Z := (fun x => 0x11 * x) <$> seqZ 0 16.

Lemma sample_malloc_length n w : sample_malloc n = Some w -> zlen w = n.
Proof. unfold sample_malloc. case_if; [done|]. intros [= <-]. rewrite length_replicate. zbool. lia. Qed.

Lemma aes_fips197_witness :
  exists r k, aes_init sample_malloc [2; 0; 0; 0] (sample_key 16) 16 = Some (r, k) /\ r = 0 /\ aes_Nr k = 10
    /\ exists w, aes_w k = Some w /\ cipher 10 sample_block (replicate 16 0) w
         = Some [0x69; 0xc4; 0xe0; 0xd8; 0x6a; 0x7b; 0x04; 0x30; 0xd8; 0xcd; 0xb7; 0x80; 0x70; 0xb4; 0xc5; 0x5a].
Proof.
  destruct (aes_fips197 sample_malloc sample_malloc_length [2; 0; 0; 0] (sample_key 16) 16 4 10 sample_block (replicate 16 0)
    eq_refl eq_refl (bytes_ok_decide (sample_key 16) ltac:(by vm_compute)) (ex_intro _ 2 eq_refl)
    (conj eq_refl (bytes_ok_decide sample_block ltac:(by vm_compute))) eq_refl) as (r & k & H1 & H2 & H3 & w & H4 & H5).
  exists r, k. split; [exact H1|]. split; [exact H2|]. split; [exact H3|]. exists w. split; [exact H4|].
  rewrite H5. by vm_compute.
Defined.

Lemma aes_decrypts_witness :
  exists k w c, aes_init sample_malloc [2; 0; 0; 0] (sample_key 32) 32 = Some (0, k) /\ aes_w k = Some w
    /\ cipher (aes_Nr k) sample_block (replicate 16 0) w = Some c /\ is_block c
    /\ inv_cipher (aes_Nr k) c (replicate 16 0) w = Some sample_block.
Proof.
  exact (aes_decrypts sample_malloc sample_malloc_length [2; 0; 0; 0] (sample_key 32) 32 8 14 sample_block (replicate 16 0) (replicate 16 0)
    eq_refl eq_refl (bytes_ok_decide (sample_key 32) ltac:(by vm_compute)) (ex_intro _ 2 eq_refl) (ex_intro _ _ eq_refl)
    (conj eq_refl (bytes_ok_decide sample_block ltac:(by vm_compute))) eq_refl eq_refl).
Defined.
