(* ===== verification/Vector.v ===== *)
(** * fun_cstl/vector.c: a growable array

    A cell of the block holds an element or nothing yet; [typesize] is the size of an element
    and positive.  Malloc and Realloc stop the program when the allocator refuses the size,
    and so does the model ([None]); [alloc_ok] says which sizes it grants.  When a handler is
    set the elements are pointers ([as_ptr]), and the calls of the handler are logged.  An
    iterator is its index. *)

From stdpp Require Import prelude.
From S2P Require Import Prelude CMem.

Record vector_t (A : Type) := mkVector {
  v_data : list (option A); v_size : Z; v_alloc_size : Z; v_typesize : Z; v_vector_free : bool; v_freed : list Z
}.
Arguments mkVector {A} _ _ _ _ _ _.
Arguments v_data {A} _. Arguments v_size {A} _. Arguments v_alloc_size {A} _.
Arguments v_typesize {A} _. Arguments v_vector_free {A} _. Arguments v_freed {A} _.

Definition VECTOR_INIT_SIZE : Z := 16.
Definition VECTOR_INCR_FACTOR : Z := 2.

Section vector.
Context {A : Type} (alloc_ok : Z -> bool) (as_ptr : A -> Z) (zero : A).
Implicit Types (v : vector_t A) (l : list A) (c : list (option A)).

Definition set_cells v c : vector_t A := mkVector c (v_size v) (v_alloc_size v) (v_typesize v) (v_vector_free v) (v_freed v).
Definition set_vsize v n : vector_t A := mkVector (v_data v) (u64 n) (v_alloc_size v) (v_typesize v) (v_vector_free v) (v_freed v).
Definition set_alloc v n : vector_t A := mkVector (v_data v) (v_size v) n (v_typesize v) (v_vector_free v) (v_freed v).

(** [memcpy] to cell [i], and [memmove] of [n] cells. *)
Definition put_cells c (i : Z) (x : list (option A)) : option (list (option A)) :=
  if (0 <=? i) && (i + zlen x <=? zlen c) then Some (list_inserts (Z.to_nat i) x c) else None.
Definition move_cells c (dst src n : Z) : option (list (option A)) :=
  if (0 <=? src) && (0 <=? n) && (src + n <=? zlen c) then put_cells c dst (take (Z.to_nat n) (drop (Z.to_nat src) c)) else None.

Definition __vector_offset v (n : Z) : Z := u64 (n * v_typesize v).

(** The block has the bytes asked for, cut or followed by cells that hold nothing. *)
Definition __vector_realloc v (new_count : Z) : option (vector_t A) :=
  let bytes := __vector_offset v new_count in
  return_if negb (alloc_ok bytes) with None ;;
  let cells := Z.to_nat (bytes / v_typesize v) in
  Some (set_alloc (set_cells v (take cells (v_data v ++ replicate cells None))) new_count).

Definition __vector_free v (start : Z) : option (vector_t A) :=
  return_if negb (v_vector_free v) with Some v ;;
  for_range (Z.to_nat (v_size v - start)) start
    (fun i v =>
       x ← znth (v_data v) i; x ← x;
       Some (if as_ptr x =? 0 then v
             else mkVector (v_data v) (v_size v) (v_alloc_size v) (v_typesize v) (v_vector_free v) (v_freed v ++ [as_ptr x]))) v.

(** [while (v->alloc_size < v->size + count)]. *)
Fixpoint grow_loop (fuel : nat) (alloc_size need : Z) : option Z :=
  match fuel with
  | O => None
  | S fuel =>
      return_if negb (alloc_size <? need) with Some alloc_size ;;
      grow_loop fuel (u64 (alloc_size * VECTOR_INCR_FACTOR)) need
  end.

Definition __vector_insert (fuel : nat) v (pos : Z) (data : list A) : option (vector_t A) :=
  let count := zlen data in
  v ← (if u64 (v_size v + count) >? v_alloc_size v then
         n ← grow_loop fuel (v_alloc_size v) (u64 (v_size v + count)); __vector_realloc v n
       else Some v);
  c ← (if pos <? v_size v then move_cells (v_data v) (pos + count) pos (v_size v - pos) else Some (v_data v));
  c ← put_cells c pos (Some <$> data);
  Some (set_vsize (set_cells v c) (v_size v + count)).

Definition __vector_erase v (pos : Z) : option (vector_t A) :=
  return_if pos >=? v_size v with Some v ;;
  c ← (if pos <? v_size v - 1 then move_cells (v_data v) pos (pos + 1) (v_size v - 1 - pos) else Some (v_data v));
  Some (set_vsize (set_cells v c) (v_size v - 1)).

Definition vector_init (typesize : Z) : option (vector_t A) :=
  let bytes := u64 (VECTOR_INIT_SIZE * typesize) in
  return_if negb (alloc_ok bytes) with None ;;
  Some (mkVector (replicate (Z.to_nat (bytes / typesize)) None) 0 VECTOR_INIT_SIZE typesize false []).

Definition vector_set_free_handler v (vfree : bool) : vector_t A :=
  mkVector (v_data v) (v_size v) (v_alloc_size v) (v_typesize v) vfree (v_freed v).

(** The pointer to a cell is its index; null is [None]. *)
Definition vector_entry v (index : Z) : option Z := if index >=? v_alloc_size v then None else Some index.
Definition vector_front v : option Z := vector_entry v 0.
Definition vector_back v : option Z := if v_size v >? 0 then vector_entry v (v_size v - 1) else None.

Definition vector_begin v : option Z := Some 0.
Definition vector_end v : option Z := if v_size v >? 0 then Some (v_size v - 1) else None.
Definition vector_next v (iter : Z) : bool * Z :=
  if u64 (iter + 1) =? v_size v then (false, iter) else (true, u64 (iter + 1)).
Definition vector_prev v (iter : Z) : bool * Z := if iter =? 0 then (false, iter) else (true, iter - 1).
Definition vector_get v (iter : Z) : option (option A) := znth (v_data v) iter.

Definition vector_empty v : bool := v_size v =? 0.
Definition vector_size v : Z := v_size v.
Definition vector_capacity v : Z := v_alloc_size v.

Definition vector_reserve v (new_cap : Z) : option (vector_t A) :=
  if new_cap >? v_alloc_size v then __vector_realloc v new_cap else Some v.
Definition vector_shrink_to_fit v : option (vector_t A) := __vector_realloc v (v_size v).

Definition vector_insert (fuel : nat) v (pos : option Z) (data : A) : option (vector_t A) :=
  match pos with Some pos => __vector_insert fuel v pos [data] | None => Some v end.
Definition vector_insert1 (fuel : nat) v (pos : option Z) (data : list A) : option (vector_t A) :=
  match pos with Some pos => __vector_insert fuel v pos data | None => Some v end.
Definition vector_erase v (pos : option Z) : option (vector_t A) := pos ← pos; __vector_erase v pos.
Definition vector_push_back (fuel : nat) v (data : A) : option (vector_t A) := __vector_insert fuel v (v_size v) [data].
Definition vector_pop_back v : vector_t A := if v_size v =? 0 then v else set_vsize v (v_size v - 1).

Definition vector_resize v (count : Z) : option (vector_t A) :=
  v ← vector_reserve v count;
  v ← (if count <? v_size v then __vector_free v count
       else c ← put_cells (v_data v) (v_size v) (replicate (Z.to_nat (count - v_size v)) (Some zero)); Some (set_cells v c));
  Some (set_vsize v count).

Definition vector_clear v : option (vector_t A) := v ← __vector_free v 0; Some (set_vsize v 0).

Definition vector_swap v (i j : Z) : option (vector_t A) :=
  return_if i =? j with Some v ;;
  x ← znth (v_data v) i; y ← znth (v_data v) j;
  c ← zset (v_data v) i y;
  c ← zset c j x;
  Some (set_cells v c).

(** ** The vector as a list

    The cells are the elements and then spare cells; [N] bounds the lengths the vector takes,
    so that the block never has more than [2 * N] cells. *)

Context (N : Z) (ts : Z).
Hypothesis HN : 8 <= N.
Hypothesis Hts : 0 < ts.
Hypothesis Hbytes : 2 * N * ts < 2 ^ 64.
Hypothesis Halloc : forall n, 0 < n < 2 ^ 64 -> alloc_ok n = true.

Definition vrep v l : Prop :=
  v_typesize v = ts /\ v_size v = zlen l /\ v_alloc_size v = zlen (v_data v) /\ 0 < v_alloc_size v <= 2 * N
  /\ zlen l <= N /\ exists spare, v_data v = (Some <$> l) ++ spare.

Lemma cells_bound n : 0 <= n <= 2 * N -> 0 <= n * ts < 2 ^ 64 /\ n < 2 ^ 64.
Proof. intros. nia. Qed.

Lemma put_cells_spec c i x :
  0 <= i -> i + zlen x <= zlen c ->
  put_cells c i x = Some (take (Z.to_nat i) c ++ x ++ drop (Z.to_nat i + length x) c).
Proof.
  intros Hi Hx. unfold put_cells. ztrue ((0 <=? i) && (i + zlen x <=? zlen c)). by rewrite inserts_eq by lia.
Qed.

Lemma grow_loop_spec need : need <= N -> forall fuel a,
  0 < a <= 2 * N -> need <= a * 2 ^ Z.of_nat fuel ->
  exists n, grow_loop (S fuel) a need = Some n /\ need <= n /\ (n = a \/ n < 2 * need).
Proof.
  intros Hneed. assert (HN64 : 2 * N < 2 ^ 64) by nia. induction fuel as [|fuel IH]; intros a Ha Hf.
  - exists a. cbn [grow_loop]. ztrue (negb (a <? need)). split; [done|]. lia.
  - change (grow_loop (S (S fuel)) a need) with (if negb (a <? need) then Some a else grow_loop (S fuel) (u64 (a * VECTOR_INCR_FACTOR)) need).
    destruct (Z.ltb_spec a need); cbn [negb]; [|exists a; split; [done|]; lia].
    unfold VECTOR_INCR_FACTOR. replace (u64 (a * 2)) with (a * 2) by (symmetry; apply Z.mod_small; lia).
    destruct (IH (a * 2)) as (n & -> & Hn & Hn'); [lia| |exists n; split; [done|]; lia].
    rewrite Nat2Z.inj_succ, Z.pow_succ_r in Hf by lia. lia.
Qed.

(** What the operations leave alone. *)
Definition same_owner v v' : Prop := v_vector_free v' = v_vector_free v /\ v_freed v' = v_freed v.

Lemma realloc_spec v l n : vrep v l -> zlen l <= n -> 0 < n <= 2 * N ->
  exists v', __vector_realloc v n = Some v' /\ vrep v' l /\ v_alloc_size v' = n /\ same_owner v v'.
Proof.
  intros (Ht & Hs & Ha & Hb & Hl & spare & Hd) Hn Hn2. destruct (cells_bound n) as [Hby _]; [lia|].
  unfold __vector_realloc, __vector_offset. rewrite Ht. replace (u64 (n * ts)) with (n * ts) by (symmetry; apply Z.mod_small; lia).
  rewrite Halloc by nia. cbn [negb]. rewrite Z.div_mul by lia. eexists. split; [done|].
  split; [|done]. unfold vrep. cbn. rewrite Hd, <- app_assoc, take_app_ge by (rewrite length_fmap; lia). rewrite length_fmap.
  split; [done|]. split; [done|]. split; [|split; [lia|split; [lia|by eexists]]].
  rewrite length_app, length_take, length_app, length_replicate, length_fmap. lia.
Qed.

Lemma vector_insert_spec fuel v l pos d :
  vrep v l -> 0 <= pos <= zlen l -> zlen l + zlen d <= N -> (64 < fuel)%nat ->
  exists v', __vector_insert fuel v pos d = Some v' /\ vrep v' (take (Z.to_nat pos) l ++ d ++ drop (Z.to_nat pos) l) /\ same_owner v v'.
Proof.
  intros Hv Hp Hd Hf. pose proof Hv as (Ht & Hs & Ha & Hb & Hl & _).
  assert (HN64 : 2 * N < 2 ^ 64) by nia.
  unfold __vector_insert. replace (u64 (v_size v + zlen d)) with (zlen l + zlen d) by (symmetry; unfold u64; rewrite Z.mod_small; lia).
  assert (exists v1, (if zlen l + zlen d >? v_alloc_size v then n ← grow_loop fuel (v_alloc_size v) (zlen l + zlen d); __vector_realloc v n else Some v) = Some v1
    /\ vrep v1 l /\ zlen l + zlen d <= v_alloc_size v1 /\ same_owner v v1) as (v1 & -> & Hv1 & Hcap & Hsame).
  { rewrite Z.gtb_ltb. destruct (Z.ltb_spec (v_alloc_size v) (zlen l + zlen d)); [|exists v; done].
    destruct fuel as [|fuel]; [lia|]. destruct (grow_loop_spec (zlen l + zlen d) ltac:(lia) fuel (v_alloc_size v)) as (n & -> & Hn & Hn'); [lia| |].
    { assert (2 ^ 64 <= 2 ^ Z.of_nat fuel) by (apply Z.pow_le_mono_r; lia). nia. }
    rewrite bind_Some. destruct (realloc_spec v l n Hv) as (v1 & -> & Hv1 & Hn1 & Hs1); [lia|lia|]. exists v1. rewrite Hn1. done. }
  rewrite bind_Some. destruct Hv1 as (Ht1 & Hs1 & Ha1 & Hb1 & _ & spare & Hd1). rewrite Hs1.
  assert (Hlen : length (v_data v1) = (length l + length spare)%nat) by (by rewrite Hd1, length_app, length_fmap).
  set (p := Z.to_nat pos).
  assert (exists c, (if pos <? zlen l then move_cells (v_data v1) (pos + zlen d) pos (zlen l - pos) else Some (v_data v1)) = Some c
    /\ length c = length (v_data v1) /\ take p c = Some <$> take p l
    /\ drop (p + length d) c = (Some <$> drop p l) ++ drop (length l + length d) (v_data v1)) as (c & -> & Hc1 & Hc2 & Hc3).
  { destruct (Z.ltb_spec pos (zlen l)).
    - unfold move_cells. ztrue ((0 <=? pos) && (0 <=? zlen l - pos) && (pos + (zlen l - pos) <=? zlen (v_data v1))).
      assert (E : take (Z.to_nat (zlen l - pos)) (drop (Z.to_nat pos) (v_data v1)) = Some <$> drop p l).
      { rewrite Hd1, drop_app_le by (rewrite length_fmap; lia). rewrite take_app_le by (rewrite length_drop, length_fmap; lia).
        rewrite take_ge by (rewrite length_drop, length_fmap; lia). by rewrite fmap_drop. }
      rewrite E, put_cells_spec by (rewrite ?length_fmap, ?length_drop; lia). eexists. split; [done|].
      rewrite length_fmap, length_drop. replace (Z.to_nat (pos + zlen d)) with (p + length d)%nat by lia.
      split; [|split].
      + rewrite !length_app, length_take, length_fmap, !length_drop. lia.
      + rewrite take_app_le, take_take by (rewrite length_take; lia). rewrite Hd1, Nat.min_l by lia.
        rewrite take_app_le by (rewrite length_fmap; lia). by rewrite fmap_take.
      + rewrite drop_app_ge by (rewrite length_take; lia). rewrite length_take, Nat.min_l, Nat.sub_diag by lia. rewrite drop_0.
        f_equal. f_equal. unfold p. lia.
    - assert (pos = zlen l) by lia. subst pos. eexists. split; [done|]. split; [done|]. unfold p. rewrite Nat2Z.id, (take_ge l), (drop_ge l) by lia.
      split; [|done]. rewrite Hd1. rewrite take_app_le by (rewrite length_fmap; lia). by rewrite take_ge by (rewrite length_fmap; lia). }
  rewrite bind_Some, put_cells_spec, bind_Some by (rewrite ?length_fmap; lia). eexists. split; [done|].
  split; [|destruct Hsame; done]. rewrite length_fmap. fold p. rewrite Hc2, Hc3.
  split; [done|]. cbn [v_size set_vsize v_data set_cells v_alloc_size v_typesize]. rewrite !length_app, !length_fmap, length_take, !length_drop.
  split; [unfold u64; rewrite Z.mod_small; lia|]. split; [lia|]. split; [lia|]. split; [lia|].
  eexists. rewrite !fmap_app, <- !app_assoc. done.
Qed.

Lemma erase_spec v l pos : vrep v l -> 0 <= pos ->
  exists v', __vector_erase v pos = Some v' /\ vrep v' (take (Z.to_nat pos) l ++ drop (S (Z.to_nat pos)) l) /\ same_owner v v'.
Proof.
  intros Hv Hp. pose proof Hv as (Ht & Hs & Ha & Hb & Hl & spare & Hd). unfold __vector_erase. rewrite Hs, Z.geb_leb.
  destruct (Z.leb_spec (zlen l) pos).
  { exists v. rewrite take_ge, drop_ge, app_nil_r by lia. done. }
  set (p := Z.to_nat pos). assert (Hlen : length (v_data v) = (length l + length spare)%nat) by (by rewrite Hd, length_app, length_fmap).
  assert (exists c, (if pos <? zlen l - 1 then move_cells (v_data v) pos (pos + 1) (zlen l - 1 - pos) else Some (v_data v)) = Some c
    /\ length c = length (v_data v) /\ exists spare', c = (Some <$> take p l ++ drop (S p) l) ++ spare') as (c & -> & Hc1 & spare' & Hc2).
  { assert (Htake : take p (v_data v) = Some <$> take p l).
    { rewrite Hd, take_app_le by (rewrite length_fmap; lia). by rewrite fmap_take. }
    destruct (Z.ltb_spec pos (zlen l - 1)).
    - unfold move_cells. ztrue ((0 <=? pos + 1) && (0 <=? zlen l - 1 - pos) && (pos + 1 + (zlen l - 1 - pos) <=? zlen (v_data v))).
      assert (E : take (Z.to_nat (zlen l - 1 - pos)) (drop (Z.to_nat (pos + 1)) (v_data v)) = Some <$> drop (S p) l).
      { replace (Z.to_nat (pos + 1)) with (S p) by lia. rewrite Hd, drop_app_le by (rewrite length_fmap; lia).
        rewrite take_app_le by (rewrite length_drop, length_fmap; lia).
        rewrite take_ge by (rewrite length_drop, length_fmap; lia). by rewrite fmap_drop. }
      rewrite E, put_cells_spec by (rewrite ?length_fmap, ?length_drop; lia). eexists. split; [done|]. fold p. split.
      + rewrite !length_app, length_take, length_fmap, !length_drop. lia.
      + rewrite Htake, fmap_app. eexists. by rewrite <- app_assoc.
    - eexists. split; [done|]. split; [done|]. rewrite (drop_ge l) by lia. rewrite app_nil_r.
      exists (drop p (v_data v)). by rewrite <- Htake, take_drop. }
  rewrite bind_Some. eexists. split; [done|]. split; [|done]. unfold vrep. cbn. rewrite length_app, length_take, length_drop.
  assert (2 * N < 2 ^ 64) by nia.
  split; [done|]. split; [unfold u64; rewrite Z.mod_small; lia|]. split; [lia|]. split; [lia|]. split; [lia|]. by eexists.
Qed.

(** The pointers handed to the handler for the elements from [start] on. *)
Definition freed_from (h : bool) l (start : Z) : list Z :=
  if h then filter (fun p => p <> 0) (as_ptr <$> drop (Z.to_nat start) l) else [].

Lemma vector_free_spec v l start : vrep v l -> 0 <= start ->
  exists v', __vector_free v start = Some v' /\ vrep v' l /\ v_alloc_size v' = v_alloc_size v
    /\ v_vector_free v' = v_vector_free v /\ v_freed v' = v_freed v ++ freed_from (v_vector_free v) l start.
Proof.
  intros Hv Hp. unfold __vector_free, freed_from.
  destruct (v_vector_free v) eqn:Hh; cbn [negb]; [|exists v; by rewrite app_nil_r].
  pose proof Hv as (_ & Hs & _). rewrite Hs.
  destruct (for_range_inv (fun i v' => vrep v' l /\ v_alloc_size v' = v_alloc_size v /\ v_vector_free v' = true
      /\ v_freed v' = v_freed v ++ filter (fun p => p <> 0) (as_ptr <$> take (Z.to_nat (i - start)) (drop (Z.to_nat start) l)))
    (fun i v => x ← znth (v_data v) i; x ← x;
       Some (if as_ptr x =? 0 then v
             else mkVector (v_data v) (v_size v) (v_alloc_size v) (v_typesize v) (v_vector_free v) (v_freed v ++ [as_ptr x])))
    (Z.to_nat (zlen l - start)) start v) as (v' & -> & H1 & H2 & H3 & H4).
  - intros i v1 Hi (H1 & H2 & H3 & H4). pose proof H1 as (_ & _ & _ & _ & _ & spare & Hd).
    destruct (lookup_lt_is_Some_2 l (Z.to_nat i)) as [x Hx]; [lia|].
    assert (Hz : znth (v_data v1) i = Some (Some x)).
    { apply znth_Some. split; [lia|]. rewrite Hd, lookup_app_l by (rewrite length_fmap; lia). by rewrite list_lookup_fmap, Hx. }
    rewrite Hz, !bind_Some. eexists. split; [done|].
    replace (Z.to_nat (i + 1 - start)) with (S (Z.to_nat (i - start))) by lia.
    rewrite (take_S_r _ _ x) by (rewrite lookup_drop; rewrite <- Hx; f_equal; lia).
    rewrite fmap_app, filter_app. cbn [fmap list_fmap]. destruct (Z.eqb_spec (as_ptr x) 0) as [E|E].
    + rewrite filter_cons_False by (by intros []). rewrite filter_nil, app_nil_r. done.
    + rewrite filter_cons_True, filter_nil by done. cbn. rewrite H4, <- app_assoc. done.
  - rewrite Z.sub_diag. by rewrite app_nil_r.
  - exists v'. split; [done|]. split; [done|]. split; [done|]. split; [done|]. rewrite H4. do 3 f_equal.
    apply take_ge. rewrite length_drop. lia.
Qed.

(** ** Sessions *)

Inductive vop :=
  OPush (x : A) | OPop | OInsert (pos : Z) (xs : list A) | OErase (pos : Z) | OReserve (n : Z) | OResize (n : Z)
  | OShrink | OClear | OSwap (i j : Z).

Definition run_vop (fuel : nat) (op : vop) v : option (vector_t A) :=
  match op with
  | OPush x => vector_push_back fuel v x
  | OPop => Some (vector_pop_back v)
  | OInsert pos xs => vector_insert1 fuel v (Some pos) xs
  | OErase pos => vector_erase v (Some pos)
  | OReserve n => vector_reserve v n
  | OResize n => vector_resize v n
  | OShrink => vector_shrink_to_fit v
  | OClear => vector_clear v
  | OSwap i j => vector_swap v i j
  end.

(** The list after an operation. *)
Definition vop_list (op : vop) l : list A :=
  match op with
  | OPush x => l ++ [x]
  | OPop => take (pred (length l)) l
  | OInsert pos xs => take (Z.to_nat pos) l ++ xs ++ drop (Z.to_nat pos) l
  | OErase pos => take (Z.to_nat pos) l ++ drop (S (Z.to_nat pos)) l
  | OReserve _ | OShrink => l
  | OResize n => take (Z.to_nat n) l ++ replicate (Z.to_nat (n - zlen l)) zero
  | OClear => []
  | OSwap i j =>
      match l !! Z.to_nat i, l !! Z.to_nat j with
      | Some x, Some y => <[Z.to_nat j := x]> (<[Z.to_nat i := y]> l)
      | _, _ => l
      end
  end.

(** The pointers given to the handler: those of the elements cut off by resizing or clearing,
    not those of erased or popped elements. *)
Definition vop_freed (h : bool) (op : vop) l : list Z :=
  match op with
  | OResize n => if n <? zlen l then freed_from h l n else []
  | OClear => freed_from h l 0
  | _ => []
  end.

(** When an operation may be called: positions inside the vector, lengths within the bound. *)
Definition vop_ok (op : vop) l : Prop :=
  match op with
  | OPush _ => zlen l + 1 <= N
  | OInsert pos xs => 0 <= pos <= zlen l /\ zlen l + zlen xs <= N
  | OErase pos => 0 <= pos
  | OReserve n => 0 <= n <= 2 * N
  | OResize n => 0 <= n <= N
  | OShrink => l <> []
  | OSwap i j => 0 <= i < zlen l /\ 0 <= j < zlen l
  | OPop | OClear => True
  end.

Fixpoint vops_ok (ops : list vop) l : Prop :=
  match ops with [] => True | op :: ops => vop_ok op l /\ vops_ok ops (vop_list op l) end.

Fixpoint vops_freed (h : bool) (ops : list vop) l : list Z :=
  match ops with [] => [] | op :: ops => vop_freed h op l ++ vops_freed h ops (vop_list op l) end.

Fixpoint run_vops (fuel : nat) (ops : list vop) v : option (vector_t A) :=
  match ops with [] => Some v | op :: ops => v ← run_vop fuel op v; run_vops fuel ops v end.

Lemma reserve_spec v l n : vrep v l -> 0 <= n <= 2 * N ->
  exists v', vector_reserve v n = Some v' /\ vrep v' l /\ n <= v_alloc_size v' /\ same_owner v v'.
Proof.
  intros Hv Hn. unfold vector_reserve. rewrite Z.gtb_ltb. pose proof Hv as (_ & _ & Ha & Hb & Hl & spare & Hd).
  destruct (Z.ltb_spec (v_alloc_size v) n); [|by exists v].
  destruct (realloc_spec v l n Hv) as (v' & -> & Hv' & Hn' & Hs); [|lia|exists v'; split; [done|]; split; [done|]; split; [lia|done]].
  rewrite Hd, length_app, length_fmap in Ha. lia.
Qed.

Lemma resize_spec v l n : vrep v l -> 0 <= n <= N ->
  exists v', vector_resize v n = Some v' /\ vrep v' (vop_list (OResize n) l)
    /\ v_vector_free v' = v_vector_free v /\ v_freed v' = v_freed v ++ vop_freed (v_vector_free v) (OResize n) l.
Proof.
  intros Hv Hn. unfold vector_resize. assert (2 * N < 2 ^ 64) by nia.
  destruct (reserve_spec v l n Hv) as (v1 & -> & Hv1 & Hcap & Hh & Hfr); [lia|]. rewrite bind_Some.
  pose proof Hv1 as (Ht & Hs & Ha & Hb & Hl & spare & Hd). rewrite Hs. cbn [vop_list vop_freed]. rewrite <- Hh, <- Hfr.
  destruct (Z.ltb_spec n (zlen l)).
  - destruct (vector_free_spec v1 l n Hv1) as (v2 & -> & Hv2 & Ha2 & Hh2 & Hf2); [lia|]. rewrite bind_Some.
    eexists. split; [done|]. split; [|done]. replace (Z.to_nat (n - zlen l)) with 0%nat by lia. rewrite app_nil_r.
    destruct Hv2 as (Ht2 & Hs2 & Hal2 & Hb2 & Hl2 & spare2 & Hd2). unfold vrep. cbn. rewrite length_take.
    split; [done|]. split; [unfold u64; rewrite Z.mod_small; lia|]. split; [done|]. split; [lia|]. split; [lia|].
    exists ((Some <$> drop (Z.to_nat n) l) ++ spare2). by rewrite Hd2, app_assoc, <- fmap_app, take_drop.
  - rewrite put_cells_spec by (rewrite ?length_replicate; lia). rewrite !bind_Some. eexists. split; [done|].
    split; [|by rewrite app_nil_r]. rewrite Hd, take_app_le by (rewrite length_fmap; lia).
    rewrite (take_ge (Some <$> l)) by (rewrite length_fmap; lia). rewrite (take_ge l) by lia.
    unfold vrep. cbn. rewrite !length_app, !length_replicate, length_fmap, length_drop, length_app, length_fmap.
    rewrite Hd, length_app, length_fmap in Ha.
    split; [done|]. split; [unfold u64; rewrite Z.mod_small; lia|]. split; [lia|]. split; [lia|]. split; [lia|].
    eexists. by rewrite fmap_app, fmap_replicate, <- app_assoc.
Qed.

Lemma swap_spec v l i j : vrep v l -> 0 <= i < zlen l -> 0 <= j < zlen l ->
  exists v', vector_swap v i j = Some v' /\ vrep v' (vop_list (OSwap i j) l) /\ same_owner v v'.
Proof.
  intros Hv Hi Hj. unfold vector_swap. cbn [vop_list].
  destruct (lookup_lt_is_Some_2 l (Z.to_nat i)) as [x Hx]; [lia|]. destruct (lookup_lt_is_Some_2 l (Z.to_nat j)) as [y Hy]; [lia|].
  rewrite Hx, Hy. destruct (Z.eqb_spec i j) as [<-|Hij].
  { replace y with x in * by congruence. exists v. rewrite list_insert_insert_eq, list_insert_id by done. done. }
  destruct Hv as (Ht & Hs & Ha & Hb & Hl & spare & Hd).
  assert (Hz : forall k z, 0 <= k -> l !! Z.to_nat k = Some z -> znth (v_data v) k = Some (Some z)).
  { intros k z Hk E. apply znth_Some. split; [done|]. apply lookup_lt_Some in E as E'.
    rewrite Hd, lookup_app_l by (rewrite length_fmap; lia). by rewrite list_lookup_fmap, E. }
  rewrite (Hz i x), (Hz j y), !bind_Some by (done || lia).
  rewrite zset_Some, bind_Some by (rewrite Hd, length_app, length_fmap; lia).
  rewrite zset_Some, bind_Some by (rewrite length_insert, Hd, length_app, length_fmap; lia).
  eexists. split; [done|]. split; [|done]. unfold vrep. cbn. rewrite !length_insert. do 5 (split; [done|]).
  exists spare. rewrite Hd. rewrite insert_app_l by (rewrite length_fmap; lia).
  rewrite insert_app_l by (rewrite length_insert, length_fmap; lia). by rewrite !list_fmap_insert.
Qed.

Lemma set_vsize_spec v l n : vrep v l -> 0 <= n <= zlen l -> vrep (set_vsize v n) (take (Z.to_nat n) l).
Proof.
  intros (Ht & Hs & Ha & Hb & Hl & spare & Hd) Hn. unfold vrep. cbn. rewrite length_take. assert (2 * N < 2 ^ 64) by nia.
  split; [done|]. split; [unfold u64; rewrite Z.mod_small; lia|]. split; [done|]. split; [lia|]. split; [lia|].
  exists ((Some <$> drop (Z.to_nat n) l) ++ spare). by rewrite Hd, app_assoc, <- fmap_app, take_drop.
Qed.

Lemma run_vop_spec fuel op v l : (64 < fuel)%nat -> vrep v l -> vop_ok op l ->
  exists v', run_vop fuel op v = Some v' /\ vrep v' (vop_list op l)
    /\ v_vector_free v' = v_vector_free v /\ v_freed v' = v_freed v ++ vop_freed (v_vector_free v) op l.
Proof.
  intros Hf Hv Hop. pose proof Hv as (_ & Hs & _ & _ & Hl & _).
  destruct op; cbn [run_vop vop_list vop_freed vop_ok] in *; rewrite ?app_nil_r.
  - unfold vector_push_back. rewrite Hs. destruct (vector_insert_spec fuel v l (zlen l) [x] Hv) as (v' & -> & Hv' & Ho); [lia|cbn; lia|done|].
    rewrite Nat2Z.id, take_ge, drop_ge in Hv' by lia. rewrite app_nil_r in Hv'. by exists v'.
  - eexists. split; [done|]. unfold vector_pop_back. rewrite Hs. destruct (Z.eqb_spec (zlen l) 0).
    + destruct l; [done|cbn in *; lia].
    + replace (pred (length l)) with (Z.to_nat (zlen l - 1)) by lia. split; [by apply set_vsize_spec; [|lia]|done].
  - destruct Hop. by apply vector_insert_spec.
  - by apply erase_spec.
  - destruct (reserve_spec v l n Hv Hop) as (v' & -> & Hv' & _ & Ho). by exists v'.
  - by apply resize_spec.
  - unfold vector_shrink_to_fit. rewrite Hs. destruct (realloc_spec v l (zlen l) Hv) as (v' & -> & Hv' & _ & Ho); [lia| |by exists v'].
    destruct l; [done|]. cbn in *. lia.
  - unfold vector_clear. destruct (vector_free_spec v l 0 Hv) as (v1 & -> & Hv1 & _ & Hh & Hfr); [lia|]. rewrite bind_Some.
    eexists. split; [done|]. split; [|done]. apply (set_vsize_spec v1 l 0 Hv1). lia.
  - destruct Hop. by apply swap_spec.
Qed.

(** C28: a vector set up by vector_init and put through any sequence of pushes, pops, insertions
    of one or more elements, erasures, reservations, resizings, shrinkings, clearings and swaps
    is the list that these operations make: every operation returns, no cell outside the block
    and no cell that holds nothing is read, the size is the length of the list, the capacity is
    at least the size and never more than twice the bound on the lengths, and the handler gets the pointers of the
    elements that resizing and clearing cut off.  Positions have to be inside the vector, an
    empty vector must not be shrunk, and twice the largest length must fit in 64 bits as a
    number of bytes. *)
Theorem vector_session fuel h v0 ops :
  (64 < fuel)%nat -> vector_init ts = Some v0 -> vops_ok ops [] ->
  exists v', run_vops fuel ops (vector_set_free_handler v0 h) = Some v'
    /\ vrep v' (fold_left (fun l op => vop_list op l) ops []) /\ v_freed v' = vops_freed h ops [].
Proof.
  intros Hf Hinit Hops.
  assert (vrep (vector_set_free_handler v0 h) [] /\ v_vector_free (vector_set_free_handler v0 h) = h
    /\ v_freed (vector_set_free_handler v0 h) = []) as (Hv & Hh & Hfr).
  { revert Hinit. unfold vector_init, VECTOR_INIT_SIZE. replace (u64 (16 * ts)) with (16 * ts) by (symmetry; apply Z.mod_small; nia).
    rewrite Z.div_mul by lia. case_if; [done|]. intros [= <-]. split; [|done]. unfold vrep. cbn. do 3 (split; [done|]). split; [lia|].
    split; [lia|]. by eexists. }
  rewrite <- (app_nil_l (vops_freed h ops [])), <- Hfr. clear Hfr Hinit. revert Hv Hh Hops.
  generalize (vector_set_free_handler v0 h) as v. generalize (@nil A) as l. clear v0.
  induction ops as [|op ops IH]; intros l v Hv Hh Hops; cbn [run_vops fold_left vops_freed].
  - exists v. by rewrite app_nil_r.
  - destruct Hops as [Hop Hops]. destruct (run_vop_spec fuel op v l Hf Hv Hop) as (v1 & -> & Hv1 & Hh1 & Hf1). rewrite bind_Some.
    destruct (IH _ v1 Hv1) as (v' & -> & Hv' & Hf'); [congruence|done|]. exists v'. split; [done|]. split; [done|].
    by rewrite Hf', Hf1, Hh, app_assoc.
Qed.
End vector.

(** Elements that are pointers of 8 bytes, lists of up to 100 elements. *)
Lemma vector_session_witness :
  exists v v', vector_init (fun n => 0 <? n) 8 = Some v
    /\ run_vops (fun n => 0 <? n) id 0 65
         [OPush 1; OPush 2; OInsert 1 [7; 8]; OSwap 0 3; OErase 1; OResize 5; OResize 2; OShrink; OPush 9; OPop; OClear]
         (vector_set_free_handler v true) = Some v'
    /\ v_freed v' = [1; 2; 8].
Proof.
  eexists. destruct (vector_session (fun n => 0 <? n) id 0 100 8 ltac:(done) ltac:(done) ltac:(done)
    ltac:(intros n [Hn _]; by apply Z.ltb_lt) 65 true _
    [OPush 1; OPush 2; OInsert 1 [7; 8]; OSwap 0 3; OErase 1; OResize 5; OResize 2; OShrink; OPush 9; OPop; OClear]
    ltac:(lia) eq_refl ltac:(cbn; repeat (split; try lia; try done))) as (v' & Hr & _ & Hf).
  exists v'. split; [done|]. split; [exact Hr|]. rewrite Hf. by vm_compute.
Defined.

(** A vector that has been shrunk while empty has no cells, and the doubling never ends. *)
Lemma shrunk_empty_never_grows {A} (alloc_ok : Z -> bool) (v : vector_t A) fuel x :
  v_size v = 0 -> v_alloc_size v = 0 -> vector_push_back alloc_ok fuel v x = None.
Proof.
  intros Hs Ha. unfold vector_push_back, __vector_insert. rewrite Hs, Ha. cbn [length].
  change (u64 (0 + Z.of_nat 1)) with 1. cbn [Z.gtb Z.compare]. change (1 >? 0) with true. cbn [negb].
  assert (E : grow_loop fuel 0 1 = None) by (induction fuel as [|fuel IH]; [done|]; exact IH). by rewrite E.
Qed.

(** The last iterator is the last element: a loop from [vector_begin] to it leaves the element out. *)
Example vector_end_is_last :
  vector_end (mkVector (replicate 16 (Some 5)) 3 16 8 false []) = Some 2.
Proof. done. Qed.
