(* ===== verification/ThreadPool.v ===== *)
(** * fun_threadpool/: the task queue and the pool of worker threads

    thread_queue.c is a bounded circular queue of tasks; thread_async.c announces every task
    with an eventfd of its own in an epoll set, and threadpool.c has the workers, the adding
    of tasks and the shutdown.  One thread calls the pool (as in fun_threadpool/test.c) while
    the workers run, so the system is a labelled transition system: a label says which thread
    moves and what the kernel answers.  Here a call into thread_queue.c is one step, as is a
    system call.  The code has no lock that would make the calls atomic: ThreadRace.v has their
    accesses one by one, and shows for which runs the steps of this file are right.

    The kernel is what the code sees of it: the open eventfds, those that are registered and
    readable, and the guards of the labels (eventfd returns a descriptor that is not open,
    epoll_wait one that is readable, pthread_join a thread that has ended). *)

From stdpp Require Import gmap fin_sets.
From S2P Require Import Prelude CMem.

(** ** thread_queue.c *)

(** The function and its argument, as addresses. *)
Record queue_task_t := mkTask { run : Z; args : Z }.

Record thread_queue_t := mkThreadQueue { tq_head : Z; tq_tail : Z; tq_size : Z; tq_capcity : Z; tq_tasks : list queue_task_t }.

Definition DEFAULT_QUEUE_SIZE : Z := 65535.

(** [tasks] is what calloc returns for the array: zeroed tasks, or null. *)
Definition create_thread_queue (calloc : Z -> bool) (size : Z) : option thread_queue_t :=
  let capcity := if size >? 0 then size else DEFAULT_QUEUE_SIZE in
  return_if negb (calloc 24) with None ;;
  return_if negb (calloc (16 * capcity)) with None ;;
  Some (mkThreadQueue 0 0 0 capcity (replicate (Z.to_nat capcity) (mkTask 0 0))).

Definition thread_queue_is_full (q : option thread_queue_t) : bool :=
  match q with Some q => tq_size q =? tq_capcity q | None => false end.
Definition thread_queue_is_empty (q : option thread_queue_t) : bool :=
  match q with Some q => tq_size q =? 0 | None => false end.

(** [(i + 1) % capcity] on int. *)
Definition next_slot (q : thread_queue_t) (i : Z) : option Z :=
  return_if negb (is_int (i + 1)) || (tq_capcity q =? 0) with None ;;
  Some (Z.rem (i + 1) (tq_capcity q)).

(** Whether the task was stored; [None] is undefined behaviour. *)
Definition thread_queue_push_tail (q : thread_queue_t) (data : queue_task_t) : option (bool * thread_queue_t) :=
  return_if thread_queue_is_full (Some q) with Some (false, q) ;;
  tasks ← zset (tq_tasks q) (tq_tail q) data;
  tail ← next_slot q (tq_tail q);
  Some (true, mkThreadQueue (tq_head q) tail (tq_size q + 1) (tq_capcity q) tasks).

(** The pointer returned is the index of the slot; the slot stays in the array. *)
Definition thread_queue_pop_head (q : thread_queue_t) : option (option Z * thread_queue_t) :=
  return_if thread_queue_is_empty (Some q) with Some (None, q) ;;
  head ← next_slot q (tq_head q);
  Some (Some (tq_head q), mkThreadQueue head (tq_tail q) (tq_size q - 1) (tq_capcity q) (tq_tasks q)).

(** *** The queue as a list *)

Definition tq_ok (q : thread_queue_t) : Prop :=
  0 < tq_capcity q < 2 ^ 31 /\ zlen (tq_tasks q) = tq_capcity q /\ 0 <= tq_head q < tq_capcity q
  /\ 0 <= tq_size q <= tq_capcity q /\ tq_tail q = (tq_head q + tq_size q) `mod` tq_capcity q.

Definition tq_cell (q : thread_queue_t) (k : Z) : queue_task_t :=
  default (mkTask 0 0) (znth (tq_tasks q) (k `mod` tq_capcity q)).

(** The tasks waiting, oldest first. *)
Definition waiting (q : thread_queue_t) : list queue_task_t := (fun k => tq_cell q (tq_head q + k)) <$> seqZ 0 (tq_size q).

Lemma next_slot_ok q i : 0 < tq_capcity q < 2 ^ 31 -> 0 <= i < tq_capcity q -> next_slot q i = Some ((i + 1) `mod` tq_capcity q).
Proof.
  intros Hc Hi. unfold next_slot, is_int. zfalse (negb ((- 2 ^ 31 <=? i + 1) && (i + 1 <? 2 ^ 31)) || (tq_capcity q =? 0)).
  by rewrite Z.rem_mod_nonneg by lia.
Qed.

Lemma waiting_length q : 0 <= tq_size q -> zlen (waiting q) = tq_size q.
Proof. intros. unfold waiting. rewrite length_fmap, length_seqZ. lia. Qed.

Lemma push_tail_full q t : tq_size q = tq_capcity q -> thread_queue_push_tail q t = Some (false, q).
Proof. intros H. unfold thread_queue_push_tail, thread_queue_is_full. by rewrite H, Z.eqb_refl. Qed.

Lemma push_tail_ok q t : tq_ok q -> tq_size q < tq_capcity q ->
  exists q', thread_queue_push_tail q t = Some (true, q') /\ tq_ok q' /\ waiting q' = waiting q ++ [t]
    /\ tq_tasks q' = <[Z.to_nat (tq_tail q) := t]> (tq_tasks q) /\ tq_size q' = tq_size q + 1 /\ tq_capcity q' = tq_capcity q.
Proof.
  intros (Hc & Hl & Hh & Hs & Ht) Hroom. unfold thread_queue_push_tail, thread_queue_is_full. zfalse (tq_size q =? tq_capcity q).
  assert (0 <= tq_tail q < tq_capcity q) by (rewrite Ht; apply Z.mod_pos_bound; lia).
  rewrite zset_Some, bind_Some, next_slot_ok, bind_Some by lia. eexists. split; [done|]. split; [|split].
  - unfold tq_ok. cbn. rewrite length_insert. do 2 (split; [lia|]). split; [lia|]. split; [lia|].
    rewrite Ht, Zplus_mod_idemp_l. f_equal. lia.
  - unfold waiting. cbn [tq_size tq_head]. rewrite (seqZ_app 0 (tq_size q) 1), fmap_app by lia. f_equal.
    + apply list_fmap_ext. intros i k [-> Hk]%lookup_seqZ. unfold tq_cell. cbn.
      rewrite znth_insert by lia.
      case_if; [|done]. zbool. enough ((tq_size q - (0 + Z.of_nat i)) `mod` tq_capcity q = 0) as E0 by (rewrite Z.mod_small in E0; lia).
      replace (tq_size q - (0 + Z.of_nat i)) with ((tq_head q + tq_size q) - (tq_head q + (0 + Z.of_nat i))) by lia.
      rewrite Zminus_mod, <- Ht. by rewrite E, Z.sub_diag, Z.mod_0_l by lia.
    + rewrite Z.add_0_l, seqZ_cons by lia. unfold tq_cell. cbn. by rewrite <- Ht, znth_insert, Z.eqb_refl by lia.
  - done.
Qed.

Lemma pop_head_empty q : tq_size q = 0 -> thread_queue_pop_head q = Some (None, q).
Proof. intros H. unfold thread_queue_pop_head, thread_queue_is_empty. by rewrite H. Qed.

Lemma pop_head_ok q : tq_ok q -> 0 < tq_size q ->
  exists q' t, thread_queue_pop_head q = Some (Some (tq_head q), q') /\ tq_ok q' /\ waiting q = t :: waiting q'
    /\ tq_tasks q' = tq_tasks q /\ znth (tq_tasks q) (tq_head q) = Some t /\ tq_size q' = tq_size q - 1 /\ tq_capcity q' = tq_capcity q.
Proof.
  intros (Hc & Hl & Hh & Hs & Ht) Hne. unfold thread_queue_pop_head, thread_queue_is_empty. zfalse (tq_size q =? 0).
  rewrite next_slot_ok, bind_Some by lia. destruct (znth_lt (tq_tasks q) (tq_head q)) as [t Hx]; [lia|].
  eexists _, t. split; [done|]. split; [|split; [|by rewrite Hx]].
  - unfold tq_ok. cbn. split; [lia|]. split; [lia|]. split; [apply Z.mod_pos_bound; lia|]. split; [lia|].
    rewrite Ht, Zplus_mod_idemp_l. f_equal. lia.
  - unfold waiting. cbn [tq_size tq_head]. rewrite seqZ_cons by lia. cbn [fmap list_fmap]. f_equal.
    + unfold tq_cell. by rewrite Z.add_0_r, Z.mod_small, Hx by lia.
    + change (Z.succ 0) with (1 + 0). rewrite <- (fmap_add_seqZ 1 0), <- list_fmap_compose. replace (Z.pred (tq_size q)) with (tq_size q - 1) by lia.
      apply list_fmap_ext. intros i k _. unfold tq_cell. cbn. do 2 f_equal. rewrite Zplus_mod_idemp_l. f_equal. lia.
Qed.

Lemma create_thread_queue_ok calloc size q : size < 2 ^ 31 -> create_thread_queue calloc size = Some q ->
  tq_ok q /\ waiting q = [] /\ tq_capcity q = if size >? 0 then size else DEFAULT_QUEUE_SIZE.
Proof.
  intros Hs. unfold create_thread_queue. set (c := if size >? 0 then size else DEFAULT_QUEUE_SIZE).
  assert (0 < c < 2 ^ 31) by (unfold c, DEFAULT_QUEUE_SIZE; rewrite Z.gtb_ltb; case_if; zbool; lia).
  repeat (case_if; [done|]). intros [= <-]. split; [|done]. unfold tq_ok. cbn. rewrite length_replicate, Z.mod_0_l; lia.
Qed.

(** ** thread_async.c and threadpool.c *)

(** Where a worker is: in epoll_wait; in thread_async's pop behind epoll_wait, at the read, at
    the close and at the removal from the queue; in threadpool_thread with the pointer to a
    task; at the test for the end of the loop; gone. *)
Inductive worker := WWait | WRead (fd : Z) | WClose (fd : Z) | WPop | WRun (task : Z) | WCheck | WExit.

(** Where the caller is: outside the pool; in the push, at eventfd, at epoll_ctl and at the
    write; in threadpool_destroy, joining thread [i]. *)
Inductive caller := MIdle | MEventfd | MCtl (efd : Z) | MWrite (efd : Z) | MJoin (i : nat) (err : Z).

#[export] Instance worker_eq_dec : EqDecision worker.
Proof. solve_decision. Defined.

Definition threadpool_invalid : Z := -1.
Definition threadpool_shutdown : Z := -4.
Definition threadpool_thread_failure : Z := -5.
Definition immediate_shutdown : Z := 1.
Definition graceful_shutdown : Z := 2.
Definition threadpool_graceful : Z := 1.

(** [p_open] are the eventfds not closed, [p_ready] those of them that are in the epoll set
    and readable. *)
Record threadpool_t := mkPool {
  p_queue : thread_queue_t; p_open : gset Z; p_ready : gset Z; p_tasked : Z;
  p_threads : list worker; p_shutdown : Z; p_started : Z; p_freed : bool; p_caller : caller
}.

(** What a run shows: a task entered the queue, left it, was run; the caller got a result. *)
Inductive event := EAccept (t : queue_task_t) | ETake (t : queue_task_t) | ERun (t : queue_task_t) | EReturn (r : Z).

Inductive label :=
  | LAdd (t : queue_task_t) | LEventfd (fd : option Z) | LCtl (ok : bool) | LWrite
  | LDestroy (flags : Z) | LJoin (ok : bool)
  | LWake (w : nat) (fd : Z) | LInterrupt (w : nat) | LRead (w : nat) | LClose (w : nat)
  | LPop (w : nat) | LRun (w : nat) | LCheck (w : nat).

Definition set_queue (p : threadpool_t) q :=
  mkPool q (p_open p) (p_ready p) (p_tasked p) (p_threads p) (p_shutdown p) (p_started p) (p_freed p) (p_caller p).
Definition set_fds (p : threadpool_t) o r :=
  mkPool (p_queue p) o r (p_tasked p) (p_threads p) (p_shutdown p) (p_started p) (p_freed p) (p_caller p).
Definition set_worker (p : threadpool_t) (w : nat) pc :=
  mkPool (p_queue p) (p_open p) (p_ready p) (p_tasked p) (<[w := pc]> (p_threads p)) (p_shutdown p) (p_started p) (p_freed p) (p_caller p).
Definition set_caller (p : threadpool_t) c :=
  mkPool (p_queue p) (p_open p) (p_ready p) (p_tasked p) (p_threads p) (p_shutdown p) (p_started p) (p_freed p) c.
Definition set_shutdown (p : threadpool_t) s :=
  mkPool (p_queue p) (p_open p) (p_ready p) (p_tasked p) (p_threads p) s (p_started p) (p_freed p) (p_caller p).
Definition set_tasked (p : threadpool_t) n :=
  mkPool (p_queue p) (p_open p) (p_ready p) n (p_threads p) (p_shutdown p) (p_started p) (p_freed p) (p_caller p).
Definition set_freed (p : threadpool_t) :=
  mkPool (p_queue p) (p_open p) (p_ready p) (p_tasked p) (p_threads p) (p_shutdown p) (p_started p) true (p_caller p).

(** A null pointer, a pool whose queue is null because its array could not be allocated (the
    code does not test for it: such a pool drops every task), or a pool. *)
Inductive pool_created := CNull | CNoQueue | CPool (p : threadpool_t).

(** The pool with its threads running: every pthread_create succeeds.  [epoll_create] says
    whether the epoll set can be made. *)
Definition threadpool_create (calloc : Z -> bool) (epoll_create : bool) (thread_count queue_size : Z) : option pool_created :=
  return_if (thread_count <=? 0) || (queue_size <=? 0) with Some CNull ;;
  return_if negb (calloc 40) with Some CNull ;;
  return_if negb (calloc 128) with None ;;
  let queue := create_thread_queue calloc queue_size in
  return_if negb epoll_create || negb (calloc (8 * thread_count)) with Some CNull ;;
  match queue with
  | None => Some CNoQueue
  | Some queue => Some (CPool (mkPool queue ∅ ∅ 0 (replicate (Z.to_nat thread_count) WWait) 0 1 false MIdle))
  end.

Definition back (p : threadpool_t) (r : Z) : threadpool_t * list event := (set_caller p MIdle, [EReturn r]).

(** [threadpool_add], with [async_eventfd_queue_push_tail] up to the eventfd; the result of the
    push is not used. *)
Definition threadpool_add (p : threadpool_t) (t : queue_task_t) : option (threadpool_t * list event) :=
  return_if run t =? 0 with Some (back p threadpool_invalid) ;;
  return_if negb (p_shutdown p =? 0) with Some (back p threadpool_shutdown) ;;
  return_if thread_queue_is_full (Some (p_queue p)) with Some (back p 0) ;;
  '(_, q) ← thread_queue_push_tail (p_queue p) t;
  Some (set_caller (set_queue p q) MEventfd, [EAccept t]).

(** The rest of the push: the eventfd ([None] when it cannot be made: epoll_ctl then fails as
    well), its registration, and the write that makes it readable. *)
Definition push_eventfd (p : threadpool_t) (fd : option Z) : option (threadpool_t * list event) :=
  match fd with
  | None => Some (back p 0)
  | Some fd => if bool_decide (fd ∈ p_open p) || (fd <? 0) then None
               else Some (set_caller (set_fds p ({[fd]} ∪ p_open p) (p_ready p)) (MCtl fd), [])
  end.
Definition push_ctl (p : threadpool_t) (efd : Z) (ok : bool) : option (threadpool_t * list event) :=
  return_if negb ok with Some (back p 0) ;;
  if bool_decide (efd ∈ p_open p) then Some (set_caller p (MWrite efd), []) else None.
Definition push_write (p : threadpool_t) (efd : Z) : threadpool_t * list event :=
  back (if bool_decide (efd ∈ p_open p) then set_fds p (p_open p) ({[efd]} ∪ p_ready p) else p) 0.

Definition threadpool_free (p : threadpool_t) : Z * threadpool_t :=
  if p_started p >? 0 then (-1, p) else (0, set_freed p).

(** [threadpool_destroy] up to the first join, and one join; the queue's destroy does nothing. *)
Definition threadpool_destroy (p : threadpool_t) (flags : Z) : threadpool_t * list event :=
  return_if negb (p_shutdown p =? 0) with back p threadpool_shutdown ;;
  let how := if Z.land flags threadpool_graceful =? 0 then immediate_shutdown else graceful_shutdown in
  (set_caller (set_shutdown p how) (MJoin 0 0), []).
Definition join (p : threadpool_t) (i : nat) (err : Z) (ok : bool) : option (threadpool_t * list event) :=
  match p_threads p !! i with
  | Some WExit => Some (set_caller p (MJoin (S i) (if ok then err else threadpool_thread_failure)), [])
  | Some _ => None
  | None => Some (back (if err =? 0 then (threadpool_free p).2 else p) err)
  end.

(** [async_eventfd_queue_pop_head] of worker [w]: what follows epoll_wait. *)
Definition pop_read (p : threadpool_t) (w : nat) (fd : Z) : threadpool_t * list event :=
  (set_worker (set_fds p (p_open p) (p_ready p ∖ {[fd]})) w (WClose fd), []).
Definition pop_close (p : threadpool_t) (w : nat) (fd : Z) : threadpool_t * list event :=
  (set_worker (set_fds p (p_open p ∖ {[fd]}) (p_ready p ∖ {[fd]})) w WPop, []).
Definition pop_task (p : threadpool_t) (w : nat) : option (threadpool_t * list event) :=
  '(task, q) ← thread_queue_pop_head (p_queue p);
  match task with
  | None => Some (set_worker p w WCheck, [])
  | Some i =>
      t ← znth (tq_tasks q) i;
      Some (set_tasked (set_worker (set_queue p q) w (WRun i)) (p_tasked p + 1), [ETake t])
  end.

(** [task->run(task->args)], read through the pointer, and the end of the turn. *)
Definition run_task (p : threadpool_t) (w : nat) (i : Z) : option (threadpool_t * list event) :=
  t ← znth (tq_tasks (p_queue p)) i;
  Some (set_worker p w WCheck, [ERun t]).
Definition check_end (p : threadpool_t) (w : nat) : threadpool_t * list event :=
  let over := ((p_shutdown p =? immediate_shutdown) || (p_shutdown p =? graceful_shutdown))
              && thread_queue_is_empty (Some (p_queue p)) in
  (set_worker p w (if over then WExit else WWait), []).

(** One step; [None] when the label does not apply. *)
Definition pool_step (p : threadpool_t) (l : label) : option (threadpool_t * list event) :=
  match l with
  | LAdd t => match p_caller p with MIdle => threadpool_add p t | _ => None end
  | LEventfd fd => match p_caller p with MEventfd => push_eventfd p fd | _ => None end
  | LCtl ok => match p_caller p with MCtl efd => push_ctl p efd ok | _ => None end
  | LWrite => match p_caller p with MWrite efd => Some (push_write p efd) | _ => None end
  | LDestroy flags => match p_caller p with MIdle => Some (threadpool_destroy p flags) | _ => None end
  | LJoin ok => match p_caller p with MJoin i err => join p i err ok | _ => None end
  | LWake w fd =>
      match p_threads p !! w with
      | Some WWait => if bool_decide (fd ∈ p_ready p) then Some (set_worker p w (WRead fd), []) else None
      | _ => None
      end
  | LInterrupt w => match p_threads p !! w with Some WWait => Some (set_worker p w WCheck, []) | _ => None end
  | LRead w => match p_threads p !! w with Some (WRead fd) => Some (pop_read p w fd) | _ => None end
  | LClose w => match p_threads p !! w with Some (WClose fd) => Some (pop_close p w fd) | _ => None end
  | LPop w => match p_threads p !! w with Some WPop => pop_task p w | _ => None end
  | LRun w => match p_threads p !! w with Some (WRun i) => run_task p w i | _ => None end
  | LCheck w => match p_threads p !! w with Some WCheck => Some (check_end p w) | _ => None end
  end.

(** A run; [ok p l] says which steps may be taken. *)
Inductive runs (ok : threadpool_t -> label -> Prop) (p0 : threadpool_t) : list event -> threadpool_t -> Prop :=
  | runs_start : runs ok p0 [] p0
  | runs_step evs p l p' new :
      runs ok p0 evs p -> ok p l -> pool_step p l = Some (p', new) -> runs ok p0 (evs ++ new) p'.

Fixpoint run_labels (p : threadpool_t) (ls : list label) : option (threadpool_t * list event) :=
  match ls with
  | [] => Some (p, [])
  | l :: ls => '(p, new) ← pool_step p l; '(p, evs) ← run_labels p ls; Some (p, new ++ evs)
  end.

Definition accepted (evs : list event) : list queue_task_t := omap (fun e => match e with EAccept t => Some t | _ => None end) evs.
Definition taken (evs : list event) : list queue_task_t := omap (fun e => match e with ETake t => Some t | _ => None end) evs.
Definition ran (evs : list event) : list queue_task_t := omap (fun e => match e with ERun t => Some t | _ => None end) evs.

(** The kernel does not refuse an eventfd, nor to register one that is open. *)
Definition kernel_ok (p : threadpool_t) (l : label) : Prop :=
  match l, p_caller p with
  | LEventfd None, _ => False
  | LCtl false, MCtl efd => efd ∉ p_open p
  | _, _ => True
  end.

(** A task is not stored in the slot that a worker still holds a pointer to. *)
Definition slot_free (p : threadpool_t) (l : label) : Prop :=
  match l with
  | LAdd t => snd <$> threadpool_add p t = Some [EAccept t] -> Forall (fun pc => pc <> WRun (tq_tail (p_queue p))) (p_threads p)
  | _ => True
  end.

(** *** Order: tasks leave the queue in the order in which they entered it *)

Definition fifo_inv (cap : Z) (evs : list event) (p : threadpool_t) : Prop :=
  tq_ok (p_queue p) /\ tq_capcity (p_queue p) = cap /\ accepted evs = taken evs ++ waiting (p_queue p)
  /\ p_tasked p = zlen (taken evs).

(** The branches of a step. *)
Ltac pool_cases H :=
  repeat match type of H with
  | context [match ?x with _ => _ end] => destruct x eqn:?; try discriminate H
  end.

Lemma accepted_app e1 e2 : accepted (e1 ++ e2) = accepted e1 ++ accepted e2.
Proof. apply omap_app. Qed.
Lemma taken_app e1 e2 : taken (e1 ++ e2) = taken e1 ++ taken e2.
Proof. apply omap_app. Qed.
Lemma ran_app e1 e2 : ran (e1 ++ e2) = ran e1 ++ ran e2.
Proof. apply omap_app. Qed.

Lemma add_step p t p' new : tq_ok (p_queue p) -> threadpool_add p t = Some (p', new) ->
  (new = [EAccept t] /\ p_shutdown p = 0 /\ tq_ok (p_queue p') /\ p' = set_caller (set_queue p (p_queue p')) MEventfd
     /\ waiting (p_queue p') = waiting (p_queue p) ++ [t] /\ tq_size (p_queue p') = tq_size (p_queue p) + 1
     /\ tq_capcity (p_queue p') = tq_capcity (p_queue p)
     /\ tq_tasks (p_queue p') = <[Z.to_nat (tq_tail (p_queue p)) := t]> (tq_tasks (p_queue p)))
  \/ exists r, new = [EReturn r] /\ p' = set_caller p MIdle.
Proof.
  intros Hq. unfold threadpool_add, back. case_if; [intros [= <- <-]; right; by eexists|].
  destruct (Z.eqb_spec (p_shutdown p) 0); cbn [negb]; [|intros [= <- <-]; right; by eexists].
  unfold thread_queue_is_full. case_if; [intros [= <- <-]; right; by eexists|]. zbool.
  destruct (push_tail_ok (p_queue p) t Hq) as (q & -> & H1 & H2 & H3 & H4 & H5); [destruct Hq as (_ & _ & _ & ? & _); lia|].
  intros [= <- <-]. left. done.
Qed.

Lemma pop_step p w p' new : tq_ok (p_queue p) -> pop_task p w = Some (p', new) ->
  (new = [] /\ tq_size (p_queue p) = 0 /\ p' = set_worker p w WCheck)
  \/ exists v t, new = [ETake t] /\ tq_ok (p_queue p') /\ waiting (p_queue p) = t :: waiting (p_queue p')
     /\ p' = set_tasked (set_worker (set_queue p (p_queue p')) w (WRun v)) (p_tasked p + 1)
     /\ tq_tasks (p_queue p') = tq_tasks (p_queue p) /\ znth (tq_tasks (p_queue p)) v = Some t
     /\ tq_size (p_queue p') = tq_size (p_queue p) - 1 /\ tq_capcity (p_queue p') = tq_capcity (p_queue p).
Proof.
  intros Hq. unfold pop_task. destruct (Z.eq_dec (tq_size (p_queue p)) 0).
  - rewrite pop_head_empty by done. intros [= <- <-]. by left.
  - destruct (pop_head_ok (p_queue p) Hq) as (q & t & -> & H1 & H2 & H3 & H4 & H5 & H6); [destruct Hq as (_ & _ & _ & ? & _); lia|].
    rewrite bind_Some, H3, H4, bind_Some. intros [= <- <-]. right. exists (tq_head (p_queue p)), t. done.
Qed.

Ltac step_open H :=
  cbn [pool_step] in H; pool_cases H;
  unfold push_eventfd, push_ctl, push_write, threadpool_destroy, join, threadpool_free, pop_read, pop_close, check_end, back in H;
  pool_cases H; simplify_eq.

(** Every other step leaves the queue alone. *)
Lemma quiet_step p l p' new : pool_step p l = Some (p', new) ->
  match l with
  | LAdd t => p_caller p = MIdle /\ threadpool_add p t = Some (p', new)
  | LPop w => p_threads p !! w = Some WPop /\ pop_task p w = Some (p', new)
  | _ => p_queue p' = p_queue p /\ p_tasked p' = p_tasked p /\ accepted new = [] /\ taken new = []
  end.
Proof.
  intros H. destruct l; cbn [pool_step] in H; pool_cases H; try done;
    unfold push_eventfd, push_ctl, push_write, threadpool_destroy, join, threadpool_free, run_task, pop_read, pop_close, check_end, back, set_worker in H;
    cbn [mbind option_bind] in H; pool_cases H; simplify_eq; try done.
  all: try (destruct (znth _ _); cbn in H; simplify_eq; done).
  all: by repeat case_match.
Qed.

Lemma fifo_step cap evs p l p' new :
  fifo_inv cap evs p -> pool_step p l = Some (p', new) -> fifo_inv cap (evs ++ new) p'.
Proof.
  intros (Hq & Hc & Ha & Ht) Hs. pose proof (quiet_step p l p' new Hs) as H. unfold fifo_inv. rewrite accepted_app, taken_app.
  destruct l; try (destruct H as (-> & -> & -> & ->); by rewrite !app_nil_r).
  - destruct H as [_ H]. apply add_step in H as [(-> & _ & H1 & H2 & H3 & H4 & H5 & _)|(r & -> & ->)]; [|by rewrite !app_nil_r|done].
    split; [done|]. split; [congruence|]. cbn. rewrite app_nil_r, H3, Ha, app_assoc. split; [done|]. by rewrite H2.
  - destruct H as [_ H]. apply pop_step in H as [(-> & _ & ->)|(v & t & -> & H1 & H2 & H3 & H4 & H5 & H6 & H7)]; [by rewrite !app_nil_r| |done].
    split; [done|]. split; [congruence|]. cbn. rewrite app_nil_r, Ha, H2, <- app_assoc. split; [done|].
    rewrite H3. cbn. rewrite Ht, length_app. cbn. lia.
Qed.

Lemma fifo_runs ok cap p0 evs p : fifo_inv cap [] p0 -> runs ok p0 evs p -> fifo_inv cap evs p.
Proof. intros H0. induction 1; [done|]. by eapply fifo_step. Qed.

Lemma create_fifo calloc epoll thread_count queue_size p : queue_size < 2 ^ 31 ->
  threadpool_create calloc epoll thread_count queue_size = Some (CPool p) -> fifo_inv queue_size [] p.
Proof.
  intros Hs. unfold threadpool_create. destruct (_ || _) eqn:Hargs; [done|]. do 2 (case_if; [done|]). cbv zeta. case_if; [done|].
  destruct (create_thread_queue calloc queue_size) as [q|] eqn:Hq; [|done]. intros [= <-].
  apply create_thread_queue_ok in Hq as (H1 & H2 & H3); [|done]. unfold fifo_inv. cbn. rewrite H2.
  apply orb_false_iff in Hargs as [? ?]. zbool. split; [done|]. rewrite H3. by ztrue (queue_size >? 0).
Qed.

(** *** Every task that was accepted is run, once *)

(** The tasks behind the pointers the workers hold. *)
Definition held (tasks : list queue_task_t) (ws : list worker) : list queue_task_t :=
  omap (fun pc => match pc with WRun i => znth tasks i | _ => None end) ws.

(** The number of workers about to take a task. *)
Definition popping (ws : list worker) : Z := zlen (filter (fun pc => pc = WPop) ws).

Lemma omap_set {A B} (f : A -> option B) l w x y : l !! w = Some x ->
  exists rest, omap f l ≡ₚ option_list (f x) ++ rest /\ omap f (<[w := y]> l) ≡ₚ option_list (f y) ++ rest.
Proof.
  intros Hx. exists (omap f (take w l) ++ omap f (drop (S w) l)). rewrite (insert_take_drop _ _ _ (lookup_lt_Some _ _ _ Hx)).
  rewrite <- (take_drop_middle _ _ _ Hx) at 1. rewrite !omap_app. cbn [omap list_omap].
  split; [destruct (f x)|destruct (f y)]; cbn; auto using Permutation_sym, Permutation_middle.
Qed.

(** A worker that neither gets nor loses a pointer. *)
Lemma held_move tasks ws w pc pc' : ws !! w = Some pc -> (forall i, pc <> WRun i) -> (forall i, pc' <> WRun i) ->
  held tasks (<[w := pc']> ws) ≡ₚ held tasks ws.
Proof.
  intros Hw H H'. unfold held. destruct (omap_set (fun pc => match pc with WRun i => znth tasks i | _ => None end) ws w pc pc' Hw) as (rest & -> & ->).
  destruct pc, pc'; done || (exfalso; by eapply H) || (exfalso; by eapply H').
Qed.

Lemma held_take tasks ws w i t : ws !! w = Some WPop -> znth tasks i = Some t ->
  held tasks (<[w := WRun i]> ws) ≡ₚ t :: held tasks ws.
Proof.
  intros Hw Ht. unfold held. destruct (omap_set (fun pc => match pc with WRun i => znth tasks i | _ => None end) ws w WPop (WRun i) Hw) as (rest & -> & ->).
  by rewrite Ht.
Qed.

Lemma held_run tasks ws w i t : ws !! w = Some (WRun i) -> znth tasks i = Some t ->
  held tasks ws ≡ₚ t :: held tasks (<[w := WCheck]> ws).
Proof.
  intros Hw Ht. unfold held. destruct (omap_set (fun pc => match pc with WRun i => znth tasks i | _ => None end) ws w (WRun i) WCheck Hw) as (rest & -> & ->).
  by rewrite Ht.
Qed.

Lemma held_push tasks ws i t : 0 <= i < zlen tasks -> Forall (fun pc => pc <> WRun i) ws ->
  held (<[Z.to_nat i := t]> tasks) ws = held tasks ws.
Proof.
  intros Hi. unfold held. induction 1 as [|pc ws Hpc _ IH]; [done|]. cbn. rewrite IH. destruct pc as [| | | |j| |]; try done.
  rewrite znth_insert by lia. by destruct (Z.eqb_spec j i) as [->|].
Qed.

#[local] Arguments held : simpl never.
#[local] Arguments popping : simpl never.

Lemma popping_set ws w pc pc' : ws !! w = Some pc ->
  popping (<[w := pc']> ws) = popping ws - (if decide (pc = WPop) then 1 else 0) + (if decide (pc' = WPop) then 1 else 0).
Proof.
  intros Hx. unfold popping. rewrite (insert_take_drop _ _ _ (lookup_lt_Some _ _ _ Hx)).
  assert (zlen (filter (fun pc => pc = WPop) ws) = zlen (filter (fun pc => pc = WPop) (take w ws ++ pc :: drop (S w) ws))) as -> by (by rewrite take_drop_middle).
  rewrite !filter_app, !filter_cons, !length_app. destruct (decide (pc = WPop)), (decide (pc' = WPop)); cbn [length]; lia.
Qed.

(** What has been taken was run or is in the hand of a worker. *)
Definition run_inv (evs : list event) (p : threadpool_t) : Prop :=
  taken evs ≡ₚ ran evs ++ held (tq_tasks (p_queue p)) (p_threads p).

(** An open eventfd is readable, or some thread is about to read, write or close it; there are
    at least as many open eventfds and takers as tasks. *)
Definition kernel_inv (p : threadpool_t) : Prop :=
  p_ready p ⊆ p_open p
  /\ tq_size (p_queue p) <= Z.of_nat (size (p_open p)) + popping (p_threads p) + (match p_caller p with MEventfd => 1 | _ => 0 end)
  /\ (forall fd, fd ∈ p_open p -> fd ∈ p_ready p \/ (exists w, p_threads p !! w = Some (WRead fd) \/ p_threads p !! w = Some (WClose fd))
        \/ p_caller p = MCtl fd \/ p_caller p = MWrite fd)
  /\ (forall w, p_threads p !! w = Some WExit -> p_shutdown p <> 0 /\ tq_size (p_queue p) = 0).

Lemma run_step_inv cap evs p l p' new : fifo_inv cap evs p -> slot_free p l ->
  run_inv evs p -> pool_step p l = Some (p', new) -> run_inv (evs ++ new) p'.
Proof.
  intros (Hq & _) Hok Hr Hs. pose proof (quiet_step p l p' new Hs) as H. unfold run_inv in *. rewrite taken_app, ran_app.
  destruct l; try (step_open Hs; cbn; rewrite ?app_nil_r; first [done | rewrite Hr; f_equiv; symmetry; by eapply held_move]).
  - destruct H as [_ H]. cbn [slot_free] in Hok. rewrite H in Hok.
    apply add_step in H as [(-> & _ & _ & H2 & _ & _ & _ & H6)|(r & -> & ->)]; [|by rewrite !app_nil_r|done].
    rewrite H6, H2. cbn. rewrite !app_nil_r, held_push; [done| |by apply Hok].
    destruct Hq as (? & -> & ? & ? & ->). apply Z.mod_pos_bound. lia.
  - destruct H as [Hw H]. apply pop_step in H as [(-> & _ & ->)|(v & t & -> & _ & _ & H3 & H5 & H6 & _)]; [| |done].
    + cbn. rewrite !app_nil_r. by rewrite (held_move _ _ _ WPop).
    + rewrite H5, H3. cbn. rewrite app_nil_r, (held_take _ _ _ _ t), Hr by done. solve_Permutation.
  - cbn [pool_step] in Hs. destruct (p_threads p !! w) as [pc|] eqn:Hw; [|done]. destruct pc; try done. unfold run_task in Hs.
    destruct (znth _ _) as [t|] eqn:Ht; [|done]. cbn in Hs. simplify_eq. cbn. rewrite app_nil_r, Hr, (held_run _ _ _ _ t) by done. solve_Permutation.
Qed.

Lemma popping_nonneg ws : 0 <= popping ws.
Proof. unfold popping. lia. Qed.

(** A worker that holds no descriptor afterwards gives up at most the one it held. *)
Lemma holder_move (ws : list worker) w pc pc' fd : ws !! w = Some pc -> pc <> WRead fd -> pc <> WClose fd ->
  (exists w', ws !! w' = Some (WRead fd) \/ ws !! w' = Some (WClose fd)) ->
  exists w', <[w := pc']> ws !! w' = Some (WRead fd) \/ <[w := pc']> ws !! w' = Some (WClose fd).
Proof.
  intros Hw H1 H2 (w' & H). exists w'. destruct (decide (w = w')) as [<-|]; [destruct H; congruence|].
  by rewrite list_lookup_insert_ne.
Qed.

Lemma exit_move (ws : list worker) w pc' : pc' <> WExit ->
  forall w', <[w := pc']> ws !! w' = Some WExit -> ws !! w' = Some WExit.
Proof.
  intros Hne w' H. destruct (decide (w = w')) as [<-|]; [|by rewrite list_lookup_insert_ne in H].
  apply list_lookup_insert_Some in H. naive_solver.
Qed.

(** A worker that moves and touches no descriptor, nor the queue. *)
Lemma kernel_move p w pc pc' :
  kernel_inv p -> p_threads p !! w = Some pc -> pc <> WPop -> (forall fd, pc <> WRead fd /\ pc <> WClose fd) -> pc' <> WPop ->
  (pc' = WExit -> p_shutdown p <> 0 /\ tq_size (p_queue p) = 0) ->
  kernel_inv (set_worker p w pc').
Proof.
  intros (H1 & H2 & H3 & H4) Hw Hpc Hfd Hpc' Hex. split; [done|]. split; [|split]; cbn.
  - rewrite (popping_set _ _ pc) by done. rewrite !decide_False by done. lia.
  - intros fd [?|[?|?]]%H3; [by left| |by right; right]. right. left. eapply holder_move; [done|apply Hfd|apply Hfd|done].
  - intros w'. destruct (decide (pc' = WExit)) as [E|E]; [intros _; by apply Hex|]. intros H%exit_move; [by apply (H4 w')|done].
Qed.

Lemma kernel_read p w fd : kernel_inv p -> p_threads p !! w = Some (WRead fd) -> kernel_inv (pop_read p w fd).1.
Proof.
  intros (H1 & H2 & H3 & H4) Hw. split; [cbn; set_solver|]. split; [|split]; cbn.
  - rewrite (popping_set _ _ (WRead fd)) by done. rewrite !decide_False by done. lia.
  - intros fd' Hin. assert (w < length (p_threads p))%nat by (by eapply lookup_lt_Some).
    destruct (decide (fd' = fd)) as [->|Hne].
    + right. left. exists w. right. by apply list_lookup_insert_eq.
    + destruct (H3 fd' Hin) as [?|[?|?]]; [left; set_solver| |by right; right]. right. left. eapply holder_move; [done|congruence|congruence|done].
  - intros w' H%exit_move; [by apply (H4 w')|done].
Qed.

Lemma kernel_close p w fd : kernel_inv p -> p_threads p !! w = Some (WClose fd) -> kernel_inv (pop_close p w fd).1.
Proof.
  intros (H1 & H2 & H3 & H4) Hw. split; [cbn; set_solver|]. split; [|split]; cbn.
  - rewrite (popping_set _ _ (WClose fd)) by done. rewrite decide_False, decide_True by done.
    destruct (decide (fd ∈ p_open p)).
    + rewrite size_difference by set_solver. rewrite size_singleton. lia.
    + replace (p_open p ∖ {[fd]}) with (p_open p) by set_solver. lia.
  - intros fd' [Hin Hne]%elem_of_difference. assert (fd' <> fd) by set_solver.
    destruct (H3 fd' Hin) as [?|[?|?]]; [left; set_solver| |by right; right]. right. left. eapply holder_move; [done|congruence|congruence|done].
  - intros w' H%exit_move; [by apply (H4 w')|done].
Qed.

Lemma kernel_pop p w p' new : tq_ok (p_queue p) -> kernel_inv p -> p_threads p !! w = Some WPop -> pop_task p w = Some (p', new) -> kernel_inv p'.
Proof.
  intros Hq (H1 & H2 & H3 & H4) Hw H. pose proof (popping_nonneg (<[w := WCheck]> (p_threads p))) as Hnn.
  assert (Hlive : forall pc' fd, fd ∈ p_open p -> fd ∈ p_ready p
      \/ (exists w', <[w := pc']> (p_threads p) !! w' = Some (WRead fd) \/ <[w := pc']> (p_threads p) !! w' = Some (WClose fd))
      \/ p_caller p = MCtl fd \/ p_caller p = MWrite fd).
  { intros pc' fd [?|[?|?]]%H3; [by left| |by right; right]. right. left. by eapply holder_move. }
  apply pop_step in H as [(-> & Hz & ->)|(v & t & -> & _ & Hwt & E & _ & _ & Hsz & _)]; [| |done].
  - split; [done|]. split; [|split]; cbn; [|apply Hlive|].
    + rewrite Hz. destruct (p_caller p); lia.
    + intros w' Hx%exit_move; [by apply (H4 w')|done].
  - assert (Hpos : 0 < tq_size (p_queue p)).
    { destruct Hq as (_ & _ & _ & ? & _). pose proof (waiting_length (p_queue p)). rewrite Hwt in *. cbn in *. lia. }
    rewrite E. split; [done|]. split; [|split]; cbn; [|apply Hlive|].
    + rewrite (popping_set _ _ WPop) by done. rewrite decide_True, decide_False by done. lia.
    + intros w' Hx%exit_move; [|done]. apply H4 in Hx. lia.
Qed.

Lemma kernel_step cap evs p l p' new : fifo_inv cap evs p -> kernel_ok p l ->
  kernel_inv p -> pool_step p l = Some (p', new) -> kernel_inv p'.
Proof.
  intros (Hq & _) Hok Hk Hs. pose proof Hk as (H1 & H2 & H3 & H4). destruct l as [t|fd|ok| |flags|ok|w fd|w|w|w|w|w|w]; cbn [pool_step] in Hs.
  - destruct (p_caller p) eqn:Hc; try done.
    apply add_step in Hs as [(-> & Hsd & _ & E & _ & Hsz & _)|(r & -> & ->)]; [| |done].
    + rewrite E. split; [done|]. split; [cbn; lia|]. split; cbn.
      * intros fd [?|[?|[?|?]]]%H3; [by left|by right; left|done..].
      * intros w Hx%H4. lia.
    + split; [done|]. split; [done|]. split; [|done]. cbn. intros fd [?|[?|[?|?]]]%H3; [by left|by right; left|done..].
  - destruct (p_caller p) eqn:Hc; try done. destruct fd as [fd|]; [|done]. cbn in Hs. case_bool_decide; [done|]. destruct (fd <? 0); [done|].
    cbn in Hs. simplify_eq. split; [cbn; set_solver|]. split; [|split; [|done]]; cbn.
    + rewrite size_union by set_solver. rewrite size_singleton. lia.
    + intros fd' [->%elem_of_singleton|Hin]%elem_of_union; [by right; right; left|].
      destruct (H3 fd' Hin) as [?|[?|[?|?]]]; [by left|by right; left|done..].
  - destruct (p_caller p) as [| |efd| |] eqn:Hc; try done. unfold push_ctl, back in Hs. unfold kernel_ok in Hok. rewrite Hc in Hok.
    destruct ok; cbn [negb] in Hs; [case_bool_decide; [|done]|]; simplify_eq; (split; [done|]; split; [done|]; split; [|done]; cbn; intros fd Hin).
    + destruct (H3 fd Hin) as [?|[?|[[= ->]|?]]]; [by left|by right; left|by right; right; right|done].
    + destruct (H3 fd Hin) as [?|[?|[[= ->]|?]]]; [by left|by right; left|done|done].
  - destruct (p_caller p) as [| | |efd|] eqn:Hc; try done. unfold push_write, back in Hs. simplify_eq.
    case_bool_decide as Ho; (split; [cbn; set_solver|]; split; [done|]; split; [|done]; cbn; intros fd Hin).
    + destruct (H3 fd Hin) as [?|[?|[?|[= ->]]]]; [left; set_solver|by right; left|done|left; set_solver].
    + destruct (H3 fd Hin) as [?|[?|[?|[= ->]]]]; [by left|by right; left|done|done].
  - destruct (p_caller p) eqn:Hc; try done. unfold threadpool_destroy, back in Hs.
    destruct (Z.eqb_spec (p_shutdown p) 0); cbn [negb] in Hs; simplify_eq; (split; [done|]; split; [done|]; split; cbn; [|]).
    + intros fd [?|[?|[?|?]]]%H3; [by left|by right; left|done..].
    + intros w Hx%H4. lia.
    + intros fd [?|[?|[?|?]]]%H3; [by left|by right; left|done..].
    + done.
  - destruct (p_caller p) as [| | | |i err] eqn:Hc; try done.
    assert (Hdone : forall c q, match c with MIdle | MJoin _ _ => True | _ => False end -> p_open q = p_open p -> p_ready q = p_ready p ->
      p_threads q = p_threads p -> p_queue q = p_queue p -> p_shutdown q = p_shutdown p -> kernel_inv (set_caller q c)).
    { intros c q Hcc Ho Hr Ht Hqq Hsd. unfold kernel_inv. cbn. rewrite Ho, Hr, Ht, Hqq, Hsd. split; [done|]. split; [by destruct c|]. split; [|done].
      intros fd [?|[?|[?|?]]]%H3; [by left|by right; left|done..]. }
    unfold join, back in Hs. destruct (p_threads p !! i) as [[]|]; simplify_eq; try by apply Hdone.
    unfold threadpool_free. repeat case_match; by apply Hdone.
  - destruct (p_threads p !! w) as [[]|] eqn:Hw; try done. case_bool_decide; [|done]. simplify_eq. by eapply kernel_move.
  - destruct (p_threads p !! w) as [[]|] eqn:Hw; try done. simplify_eq. by eapply kernel_move.
  - destruct (p_threads p !! w) as [[]|] eqn:Hw; try done. simplify_eq. apply (kernel_read _ _ _ Hk) in Hw. by rewrite Hs in Hw.
  - destruct (p_threads p !! w) as [[]|] eqn:Hw; try done. simplify_eq. apply (kernel_close _ _ _ Hk) in Hw. by rewrite Hs in Hw.
  - destruct (p_threads p !! w) as [[]|] eqn:Hw; try done. by eapply kernel_pop.
  - destruct (p_threads p !! w) as [[]|] eqn:Hw; try done. unfold run_task in Hs. destruct (znth _ _); [|done]. cbn in Hs. simplify_eq. by eapply kernel_move.
  - destruct (p_threads p !! w) as [[]|] eqn:Hw; try done. unfold check_end, thread_queue_is_empty in Hs. simplify_eq.
    eapply kernel_move; [done|done|done|done|by destruct (_ && _)|]. destruct (_ && _) eqn:E; [|done]. intros _.
    apply andb_true_iff in E as [E1 E2]. unfold immediate_shutdown, graceful_shutdown in E1. apply orb_true_iff in E1 as [|]; zbool; lia.
Qed.

Lemma step_threads p l p' new : pool_step p l = Some (p', new) -> length (p_threads p') = length (p_threads p).
Proof.
  intros H. destruct l; cbn [pool_step] in H; pool_cases H;
    unfold threadpool_add, push_eventfd, push_ctl, push_write, threadpool_destroy, join, threadpool_free, run_task, pop_read, pop_close, pop_task, check_end, back in H.
  1: destruct (thread_queue_push_tail _ _) as [[]|]. 12: destruct (thread_queue_pop_head _) as [[[] ]|]; cbn [mbind option_bind] in H.
  all: cbn [mbind option_bind] in H; try destruct (znth _ _); cbn [mbind option_bind] in H; pool_cases H; simplify_eq; cbn; rewrite ?length_insert; try done.
  all: repeat case_match; done.
Qed.

(** Every worker waits for an event that is not there, or has ended; the caller is outside the
    pool or waits in threadpool_destroy. *)
Definition quiescent (p : threadpool_t) : Prop :=
  match p_caller p with MIdle | MJoin _ _ => True | _ => False end
  /\ Forall (fun pc => pc = WExit \/ pc = WWait /\ p_ready p = ∅) (p_threads p).

Definition good_step (p : threadpool_t) (l : label) : Prop := kernel_ok p l /\ slot_free p l.

Lemma quiescent_held tasks ws r : Forall (fun pc => pc = WExit \/ pc = WWait /\ r) ws -> held tasks ws = [].
Proof. unfold held. induction 1 as [|pc ws [->|[-> _]] _ IH]; [done|exact IH..]. Qed.

Lemma create_kernel calloc epoll n size p : threadpool_create calloc epoll n size = Some (CPool p) ->
  kernel_inv p /\ run_inv [] p /\ (0 < length (p_threads p))%nat.
Proof.
  unfold threadpool_create. destruct (_ || _) eqn:Hargs; [done|]. do 2 (case_if; [done|]). cbv zeta. case_if; [done|].
  destruct (create_thread_queue calloc size) as [q|] eqn:Hq; [|done]. intros [= <-].
  apply orb_false_iff in Hargs as [? ?]. zbool.
  assert (Hw : forall w, replicate (Z.to_nat n) WWait !! w <> Some WExit).
  { intros w Hx. by apply lookup_replicate in Hx as [? ?]. }
  split; [|split].
  - split; [done|]. split; [|split]; cbn; [|set_solver|intros w Hx; by apply Hw in Hx].
    revert Hq. unfold create_thread_queue. cbv zeta. generalize (if size >? 0 then size else DEFAULT_QUEUE_SIZE) as c. intros c.
    case_if; [done|]. case_if; [done|]. intros [= <-]. cbn [tq_size]. pose proof (popping_nonneg (replicate (Z.to_nat n) WWait)). lia.
  - unfold run_inv. cbn [p_threads]. rewrite (quiescent_held _ _ True); [done|]. apply Forall_replicate. by right.
  - cbn. rewrite length_replicate. lia.
Qed.

(** Either an invariant of all runs, or of those in which the kernel answers and no slot in use
    is overwritten. *)
Lemma runs_inv calloc epoll n size p0 evs p : size < 2 ^ 31 -> threadpool_create calloc epoll n size = Some (CPool p0) ->
  runs good_step p0 evs p -> fifo_inv size evs p /\ kernel_inv p /\ run_inv evs p /\ (0 < length (p_threads p))%nat.
Proof.
  intros Hs Hc. induction 1 as [|evs p l p' new Hr (Hf & Hk & Hi & Hn) [Hok1 Hok2] Hstep].
  - split; [by eapply create_fifo|by eapply create_kernel].
  - split; [by eapply fifo_step|]. split; [by eapply kernel_step|]. split; [by eapply run_step_inv|].
    by erewrite step_threads.
Qed.

Lemma quiescent_popping ws r : Forall (fun pc => pc = WExit \/ pc = WWait /\ r) ws -> popping ws = 0.
Proof. unfold popping. induction 1 as [|pc ws [->|[-> _]] _ IH]; [done|exact IH..]. Qed.

Lemma quiescent_empty evs cap p : fifo_inv cap evs p -> kernel_inv p -> (0 < length (p_threads p))%nat -> quiescent p ->
  tq_size (p_queue p) = 0.
Proof.
  intros ((_ & _ & _ & Hsz & _) & _) (_ & H2 & H3 & H4) Hn [Hc Hq].
  destruct (p_threads p) as [|pc ws] eqn:Hws; [cbn in Hn; lia|]. rewrite <- Hws in *.
  assert (Hpc : pc = WExit \/ pc = WWait /\ p_ready p = ∅) by (apply (Forall_lookup_1 _ _ 0%nat pc Hq); by rewrite Hws).
  destruct Hpc as [->|[-> Hr]]; [apply (H4 0%nat); by rewrite Hws|].
  assert (p_open p = ∅) as Ho.
  { apply elem_of_equiv_empty_L. intros fd Hin. destruct (H3 fd Hin) as [?|[(w & Hw)|Hm]]; [set_solver| |].
    - rewrite Forall_lookup in Hq. destruct Hw as [Hw|Hw]; apply Hq in Hw as [?|[? _]]; done.
    - destruct Hm as [Hm|Hm]; by rewrite Hm in Hc. }
  rewrite Ho, size_empty, (quiescent_popping _ _ Hq) in H2. destruct (p_caller p); cbn in *; lia || done.
Qed.

(** With atomic calls of the queue: in every run, whatever the kernel answers, the tasks
    accepted so far are those taken so far followed by the tasks in the queue. *)
Lemma atomic_fifo calloc epoll n size p0 ok evs p :
  size < 2 ^ 31 -> threadpool_create calloc epoll n size = Some (CPool p0) -> runs ok p0 evs p ->
  accepted evs = taken evs ++ waiting (p_queue p) /\ zlen (waiting (p_queue p)) <= size /\ p_tasked p = zlen (taken evs).
Proof.
  intros Hs Hc Hr. destruct (fifo_runs _ _ _ _ _ (create_fifo _ _ _ _ _ Hs Hc) Hr) as (Hq & Hcap & Ha & Ht).
  split; [done|]. split; [|done]. destruct Hq as (_ & _ & _ & ? & _). rewrite waiting_length; lia.
Qed.

(** With atomic calls of the queue no wake-up is lost: when the workers have nothing to react
    to and the caller is not in the middle of an addition, every task accepted has been run. *)
Lemma atomic_quiescent calloc epoll n size p0 evs p :
  size < 2 ^ 31 -> threadpool_create calloc epoll n size = Some (CPool p0) -> runs good_step p0 evs p -> quiescent p ->
  waiting (p_queue p) = [] /\ ran evs ≡ₚ accepted evs.
Proof.
  intros Hs Hc Hr Hqu. destruct (runs_inv _ _ _ _ _ _ _ Hs Hc Hr) as (Hf & Hk & Hi & Hn).
  pose proof (quiescent_empty _ _ _ Hf Hk Hn Hqu) as Hz. destruct Hf as (_ & _ & Ha & _).
  assert (waiting (p_queue p) = []) as Hw by (unfold waiting; by rewrite Hz).
  split; [done|]. rewrite Ha, Hw, app_nil_r. unfold run_inv in Hi. by rewrite Hi, (quiescent_held _ _ _ (proj2 Hqu)), app_nil_r.
Qed.

(** *** Concrete runs *)

Definition small_pool (size : Z) : threadpool_t :=
  mkPool (mkThreadQueue 0 0 0 size (replicate (Z.to_nat size) (mkTask 0 0))) ∅ ∅ 0 [WWait; WWait] 0 1 false MIdle.

(** A queue of one task: a worker takes the task and before it reads it the next one is stored
    in the slot: one task is run twice, the other never. *)
Example task_overwritten :
  let add t fd := [LAdd (mkTask 100 t); LEventfd (Some fd); LCtl true; LWrite] in
  let turn fd := [LWake 0 fd; LRead 0; LClose 0; LPop 0] in
  ran <$> (snd <$> run_labels (small_pool 1) (add 1 5 ++ turn 5 ++ add 2 6 ++ [LRun 0; LCheck 0] ++ turn 6 ++ [LRun 0]))
    = Some [mkTask 100 2; mkTask 100 2].
Proof. by vm_compute. Qed.

(** threadpool_add reports success for a task that a full queue did not take. *)
Example full_queue_reports_success :
  snd <$> pool_step (mkPool (mkThreadQueue 0 0 1 1 [mkTask 100 1]) ∅ ∅ 0 [WWait] 0 1 false MIdle) (LAdd (mkTask 100 2))
    = Some [EReturn 0].
Proof. done. Qed.

(** threadpool_destroy does not wake the workers: once one of them waits and no eventfd is
    left, it never returns unless a signal interrupts epoll_wait. *)
Lemma destroy_step p l p' new v j err :
  p_caller p = MJoin j err -> (j <= v)%nat -> p_ready p = ∅ -> p_threads p !! v = Some WWait ->
  l <> LInterrupt v -> pool_step p l = Some (p', new) ->
  p_ready p' = ∅ /\ p_threads p' !! v = Some WWait /\ (forall r, EReturn r ∉ new)
  /\ exists j' err', p_caller p' = MJoin j' err' /\ (j' <= v)%nat.
Proof.
  intros Hc Hj Hr Hv Hl H.
  assert (Hset : forall w pc pc', p_threads p !! w = Some pc -> pc <> WWait -> <[w := pc']> (p_threads p) !! v = Some WWait).
  { intros w pc pc' Hw Hne. rewrite list_lookup_insert_ne; [done|]. congruence. }
  assert (Hno : forall r, EReturn r ∉ @nil event) by (intros r; by apply not_elem_of_nil).
  destruct l as [t|fd|ok| |flags|ok|w fd|w|w|w|w|w|w]; cbn [pool_step] in H; rewrite ?Hc in H; try done.
  - unfold join in H. destruct (p_threads p !! j) as [pc|] eqn:Hpj.
    + destruct pc; simplify_eq. cbn. do 3 (split; [done|]). eexists _, _. split; [done|].
      destruct (decide (j = v)) as [->|]; [congruence|lia].
    + apply lookup_ge_None in Hpj. apply lookup_lt_Some in Hv. lia.
  - destruct (p_threads p !! w) as [[]|]; try done. rewrite Hr in H. case_bool_decide; [set_solver|done].
  - destruct (p_threads p !! w) as [[]|] eqn:Hw; try done. simplify_eq. cbn. split; [done|].
    split; [rewrite list_lookup_insert_ne; [done|congruence]|]. split; [done|]. by eexists _, _.
  - destruct (p_threads p !! w) as [[]|] eqn:Hw; try done. unfold pop_read in H. simplify_eq. cbn [p_ready p_threads p_caller set_worker set_fds]. rewrite Hr.
    split; [set_solver|]. split; [by eapply Hset|]. split; [done|]. by eexists _, _.
  - destruct (p_threads p !! w) as [[]|] eqn:Hw; try done. unfold pop_close in H. simplify_eq. cbn [p_ready p_threads p_caller set_worker set_fds]. rewrite Hr.
    split; [set_solver|]. split; [by eapply Hset|]. split; [done|]. by eexists _, _.
  - destruct (p_threads p !! w) as [[]|] eqn:Hw; try done. unfold pop_task in H. destruct (thread_queue_pop_head _) as [[[i|] q]|]; [| |done]; cbn in H.
    + destruct (znth _ _) as [t|]; [|done]. cbn in H. simplify_eq. cbn. split; [done|]. split; [by eapply Hset|].
      split; [intros r ?%list_elem_of_singleton; done|]. by eexists _, _.
    + simplify_eq. cbn. split; [done|]. split; [by eapply Hset|]. split; [done|]. by eexists _, _.
  - destruct (p_threads p !! w) as [[]|] eqn:Hw; try done. unfold run_task in H. destruct (znth _ _) as [t|]; [|done]. cbn in H. simplify_eq. cbn.
    split; [done|]. split; [by eapply Hset|]. split; [intros r ?%list_elem_of_singleton; done|]. by eexists _, _.
  - destruct (p_threads p !! w) as [[]|] eqn:Hw; try done. unfold check_end in H. simplify_eq. cbn [p_ready p_threads p_caller set_worker]. split; [done|]. split; [by eapply Hset|].
    split; [done|]. by eexists _, _.
Qed.

Theorem destroy_never_returns p ls p' evs v j err :
  p_caller p = MJoin j err -> (j <= v)%nat -> p_ready p = ∅ -> p_threads p !! v = Some WWait ->
  LInterrupt v ∉ ls -> run_labels p ls = Some (p', evs) ->
  p_threads p' !! v = Some WWait /\ forall r, EReturn r ∉ evs.
Proof.
  revert p evs j err. induction ls as [|l ls IH]; intros p evs j err Hc Hj Hr Hv Hl H; cbn in H.
  - simplify_eq. split; [done|]. intros r. by apply not_elem_of_nil.
  - destruct (pool_step p l) as [[p1 e1]|] eqn:Hs; [|done]. cbn in H. apply not_elem_of_cons in Hl as [Hl1 Hl].
    destruct (destroy_step p l p1 e1 v j err Hc Hj Hr Hv) as (Hr1 & Hv1 & He1 & j1 & err1 & Hc1 & Hj1); [congruence|done|].
    destruct (run_labels p1 ls) as [[p2 e2]|] eqn:Hr2; [|done]. cbn in H. simplify_eq.
    destruct (IH p1 e2 j1 err1 Hc1 Hj1 Hr1 Hv1 Hl Hr2) as [? He]. split; [done|]. intros r [?|?]%elem_of_app; [by eapply He1|by eapply He].
Qed.
