(* ===== verification/ThreadRace.v ===== *)
(** * fun_threadpool/ without a lock: the accesses to the task queue one by one

    thread_queue.c is called by all threads and takes no lock.  Here the calls of the queue are
    not steps but the accesses to its fields are: each load and each store of the size, the
    head and the count of tasks taken is a step of its own, and so are the stores to the task
    (the tail is the caller's alone); the threads interleave between any two of them.  The rest
    of the pool moves as in ThreadPool.v.

    Runs in which two calls overlap lose tasks and run tasks twice (the examples at the end).
    Runs in which a call of the queue begins only when no other is in progress - what a lock
    around the calls would give - are shown to be runs of the pool of ThreadPool.v, whose
    properties they have. *)

From stdpp Require Import gmap fin_sets.
From S2P Require Import Prelude CMem ThreadPool.

(** ** The accesses *)

Definition q_set_tasks (q : thread_queue_t) tasks := mkThreadQueue (tq_head q) (tq_tail q) (tq_size q) (tq_capcity q) tasks.
Definition q_set_head (q : thread_queue_t) head := mkThreadQueue head (tq_tail q) (tq_size q) (tq_capcity q) (tq_tasks q).
Definition q_set_tail (q : thread_queue_t) tail := mkThreadQueue (tq_head q) tail (tq_size q) (tq_capcity q) (tq_tasks q).
Definition q_set_size (q : thread_queue_t) size := mkThreadQueue (tq_head q) (tq_tail q) size (tq_capcity q) (tq_tasks q).

(** Where the caller is in [async_eventfd_queue_push_tail]: at its own test for room; then in
    [thread_queue_push_tail], at the test, at the stores of the task, at the tail, at the load
    of the size and at its store. *)
Inductive push_pc := PFull | PFull2 | PRun | PArgs | PTail | PSizeLoad | PSizeStore (size : Z).

#[export] Instance push_pc_eq_dec : EqDecision push_pc.
Proof. solve_decision. Defined.

(** How an access ends: inside, back in [threadpool_add] with 0, or behind the call. *)
Inductive push_next := PGo (pc : push_pc) | PReturn | PDone.

Definition push_access (pc : push_pc) (t : queue_task_t) (q : thread_queue_t) : option (push_next * thread_queue_t) :=
  match pc with
  | PFull => Some (if thread_queue_is_full (Some q) then PReturn else PGo PFull2, q)
  | PFull2 => Some (if thread_queue_is_full (Some q) then PDone else PGo PRun, q)
  | PRun =>
      old ← znth (tq_tasks q) (tq_tail q);
      tasks ← zset (tq_tasks q) (tq_tail q) (mkTask (run t) (args old));
      Some (PGo PArgs, q_set_tasks q tasks)
  | PArgs =>
      old ← znth (tq_tasks q) (tq_tail q);
      tasks ← zset (tq_tasks q) (tq_tail q) (mkTask (run old) (args t));
      Some (PGo PTail, q_set_tasks q tasks)
  | PTail => tail ← next_slot q (tq_tail q); Some (PGo PSizeLoad, q_set_tail q tail)
  | PSizeLoad => Some (PGo (PSizeStore (tq_size q)), q)
  | PSizeStore size => return_if negb (is_int (size + 1)) with None ;; Some (PDone, q_set_size q (size + 1))
  end.

(** Where a worker is in [thread_queue_pop_head], whose test it has passed: at the pointer to
    the slot, and with it at the loads and stores of the head, of the size and, behind the
    call, of [tasked]. *)
Inductive pop_pc :=
  | QSlot | QHeadLoad (t : Z) | QHeadStore (t head : Z) | QSizeLoad (t : Z) | QSizeStore (t size : Z)
  | QTaskedLoad (t : Z) | QTaskedStore (t tasked : Z).

(** The next access, or the task taken; the queue and [tasked]. *)
Definition pop_access (pc : pop_pc) (q : thread_queue_t) (tasked : Z) : option ((pop_pc + Z) * thread_queue_t * Z) :=
  match pc with
  | QSlot => Some (inl (QHeadLoad (tq_head q)), q, tasked)
  | QHeadLoad t => Some (inl (QHeadStore t (tq_head q)), q, tasked)
  | QHeadStore t head => head ← next_slot q head; Some (inl (QSizeLoad t), q_set_head q head, tasked)
  | QSizeLoad t => Some (inl (QSizeStore t (tq_size q)), q, tasked)
  | QSizeStore t size => return_if negb (is_int (size - 1)) with None ;; Some (inl (QTaskedLoad t), q_set_size q (size - 1), tasked)
  | QTaskedLoad t => Some (inl (QTaskedStore t tasked), q, tasked)
  | QTaskedStore t tasked => Some (inr t, q, tasked + 1)
  end.

(** ** The threads *)

(** The pool, the caller's place in a push and the workers' places in their pops. *)
Record race := mkRace { r_pool : threadpool_t; r_push : option (push_pc * queue_task_t); r_pops : gmap nat pop_pc }.

Inductive race_label := RAdd (t : queue_task_t) | RPush | RPop (w : nat) | RStep (l : label).

(** [threadpool_add] up to the push. *)
Definition race_add (f : race) (t : queue_task_t) : option (race * list event) :=
  let p := r_pool f in
  match r_push f, p_caller p with
  | None, MIdle =>
      return_if run t =? 0 with Some (mkRace p None (r_pops f), [EReturn threadpool_invalid]) ;;
      return_if negb (p_shutdown p =? 0) with Some (mkRace p None (r_pops f), [EReturn threadpool_shutdown]) ;;
      Some (mkRace p (Some (PFull, t)) (r_pops f), [])
  | _, _ => None
  end.

(** The caller's next access.  A task counts as accepted from the first store on. *)
Definition race_push (f : race) : option (race * list event) :=
  '(pc, t) ← r_push f;
  '(next, q) ← push_access pc t (p_queue (r_pool f));
  let p := set_queue (r_pool f) q in
  Some match next with
       | PReturn => (mkRace p None (r_pops f), [EReturn 0])
       | PGo pc' => (mkRace p (Some (pc', t)) (r_pops f), match pc with PRun => [EAccept t] | _ => [] end)
       | PDone => (mkRace (set_caller p MEventfd) None (r_pops f), [])
       end.

(** The next access of worker [w].  A task counts as taken when the pointer is. *)
Definition race_pop (f : race) (w : nat) : option (race * list event) :=
  let p := r_pool f in
  match p_threads p !! w with
  | Some WPop =>
      match r_pops f !! w with
      | None =>
          if thread_queue_is_empty (Some (p_queue p)) then Some (mkRace (set_worker p w WCheck) (r_push f) (r_pops f), [])
          else Some (mkRace p (r_push f) (<[w := QSlot]> (r_pops f)), [])
      | Some pc =>
          '(next, q, tasked) ← pop_access pc (p_queue p) (p_tasked p);
          new ← match pc with QSlot => t ← znth (tq_tasks q) (tq_head q); Some [ETake t] | _ => Some [] end;
          let p := set_tasked (set_queue p q) tasked in
          Some match next with
               | inl pc => (mkRace p (r_push f) (<[w := pc]> (r_pops f)), new)
               | inr t => (mkRace (set_worker p w (WRun t)) (r_push f) (delete w (r_pops f)), new)
               end
      end
  | _ => None
  end.

(** Every other step is one of ThreadPool.v, where the caller is not in a push.  (The worker's
    test for the end reads [shutdown], which never goes back, and then the size.) *)
Definition race_step (f : race) (l : race_label) : option (race * list event) :=
  match l with
  | RAdd t => race_add f t
  | RPush => race_push f
  | RPop w => race_pop f w
  | RStep l =>
      match l, r_push f with
      | LAdd _, _ | LPop _, _ | LDestroy _, Some _ => None
      | _, _ => '(p, new) ← pool_step (r_pool f) l; Some (mkRace p (r_push f) (r_pops f), new)
      end
  end.

Inductive race_runs (ok : race -> race_label -> Prop) (f0 : race) : list event -> race -> Prop :=
  | race_start : race_runs ok f0 [] f0
  | race_next evs f l f' new :
      race_runs ok f0 evs f -> ok f l -> race_step f l = Some (f', new) -> race_runs ok f0 (evs ++ new) f'.

Fixpoint race_labels (f : race) (ls : list race_label) : option (race * list event) :=
  match ls with
  | [] => Some (f, [])
  | l :: ls => '(f, new) ← race_step f l; '(f, evs) ← race_labels f ls; Some (f, new ++ evs)
  end.

(** No call of the queue is in progress. *)
Definition outside (f : race) : Prop := r_push f = None /\ r_pops f = ∅.

(** A call of the queue begins only when no other is in progress. *)
Definition alone (f : race) (l : race_label) : Prop :=
  match l with
  | RAdd _ | RStep (LCheck _) => outside f
  | RPop w => r_pops f !! w = None -> outside f
  | _ => True
  end.

(** The kernel refuses nothing; a task is not stored in a slot that a worker points to. *)
Definition race_kernel_ok (f : race) (l : race_label) : Prop :=
  match l with RStep l => kernel_ok (r_pool f) l | _ => True end.
Definition race_slot_free (f : race) (l : race_label) : Prop :=
  match l, r_push f with
  | RPush, Some (PRun, _) => Forall (fun pc => pc <> WRun (tq_tail (p_queue (r_pool f)))) (p_threads (r_pool f))
  | _, _ => True
  end.
Definition race_good (f : race) (l : race_label) : Prop := alone f l /\ race_kernel_ok f l /\ race_slot_free f l.

(** ** Calls in progress *)

(** What is left of a push from each access behind the first store on. *)
Definition rest_size (size : Z) (q : thread_queue_t) : thread_queue_t := q_set_size q (size + 1).
Definition rest_tail (q : thread_queue_t) : option thread_queue_t :=
  tail ← next_slot q (tq_tail q); Some (rest_size (tq_size q) (q_set_tail q tail)).
Definition rest_args (t : queue_task_t) (q : thread_queue_t) : option thread_queue_t :=
  old ← znth (tq_tasks q) (tq_tail q);
  tasks ← zset (tq_tasks q) (tq_tail q) (mkTask (run old) (args t));
  rest_tail (q_set_tasks q tasks).

Definition push_rest (pc : push_pc) (t : queue_task_t) (q : thread_queue_t) : option thread_queue_t :=
  match pc with
  | PFull | PFull2 | PRun => None
  | PArgs => rest_args t q
  | PTail => rest_tail q
  | PSizeLoad => Some (rest_size (tq_size q) q)
  | PSizeStore size => Some (rest_size size q)
  end.

(** What is left of a pop, up to the count of tasks taken: the pointer, the queue and the
    count. *)
Definition pop_size (t : Z) (size : Z) (q : thread_queue_t) (tasked : Z) : option (Z * thread_queue_t * Z) :=
  Some (t, q_set_size q (size - 1), tasked + 1).
Definition pop_head_store (t head : Z) (q : thread_queue_t) (tasked : Z) : option (Z * thread_queue_t * Z) :=
  head ← next_slot q head; pop_size t (tq_size q) (q_set_head q head) tasked.

Definition pop_rest (pc : pop_pc) (q : thread_queue_t) (tasked : Z) : option (Z * thread_queue_t * Z) :=
  match pc with
  | QSlot => None
  | QHeadLoad t => pop_head_store t (tq_head q) q tasked
  | QHeadStore t head => pop_head_store t head q tasked
  | QSizeLoad t => pop_size t (tq_size q) q tasked
  | QSizeStore t size => pop_size t size q tasked
  | QTaskedLoad t => Some (t, q, tasked + 1)
  | QTaskedStore t tasked => Some (t, q, tasked + 1)
  end.

(** The pool with the push or the pop in progress done. *)
Definition pushed (p : threadpool_t) (q : thread_queue_t) : threadpool_t := set_caller (set_queue p q) MEventfd.
Definition popped (p : threadpool_t) (w : nat) (t : Z) (q : thread_queue_t) (tasked : Z) : threadpool_t :=
  set_tasked (set_worker (set_queue p q) w (WRun t)) tasked.

(** The pool as it is when no call overlaps another: a call counts as made from its first
    effect on - the first store of the task, the pointer to the slot.  [strict]: no slot is
    overwritten that a worker points to. *)
Inductive sim (strict : Prop) : race -> threadpool_t -> Prop :=
  | sim_out p : sim strict (mkRace p None ∅) p
  | sim_tests p pc t :
      p_caller p = MIdle -> (run t =? 0) = false -> p_shutdown p = 0 ->
      match pc with PFull => True | PFull2 | PRun => thread_queue_is_full (Some (p_queue p)) = false | _ => False end ->
      sim strict (mkRace p (Some (pc, t)) ∅) p
  | sim_stores p pc t q :
      p_caller p = MIdle -> push_rest pc t (p_queue p) = Some q ->
      (strict -> pc = PArgs -> Forall (fun pc => pc <> WRun (tq_tail (p_queue p))) (p_threads p)) ->
      sim strict (mkRace p (Some (pc, t)) ∅) (pushed p q)
  | sim_slot p w :
      p_threads p !! w = Some WPop -> thread_queue_is_empty (Some (p_queue p)) = false ->
      sim strict (mkRace p None {[w := QSlot]}) p
  | sim_pop p w pc t q tasked :
      p_threads p !! w = Some WPop -> pop_rest pc (p_queue p) (p_tasked p) = Some (t, q, tasked) ->
      sim strict (mkRace p None {[w := pc]}) (popped p w t q tasked).

Lemma zset_zset {A} (l : list A) i x y l' : zset l i x = Some l' -> zset l' i y = zset l i y.
Proof.
  intros H. assert (0 <= i < zlen l) as Hi.
  { revert H. unfold zset. case_if; [|done]. zbool. lia. }
  rewrite zset_Some in H by done. injection H as <-. rewrite !zset_Some by (rewrite ?length_insert; lia).
  f_equal. apply list_insert_insert_eq.
Qed.

Lemma push_first t q next q1 : tq_ok q -> thread_queue_is_full (Some q) = false -> push_access PRun t q = Some (next, q1) ->
  next = PGo PArgs /\ exists q', push_rest PArgs t q1 = Some q' /\ thread_queue_push_tail q t = Some (true, q').
Proof.
  intros Hq Hfull Hacc. cbn [push_access] in Hacc. destruct (znth (tq_tasks q) (tq_tail q)) as [old|] eqn:Hold; [|done].
  rewrite bind_Some in Hacc. destruct (zset (tq_tasks q) (tq_tail q) _) as [tasks|] eqn:Hset; [|done].
  rewrite bind_Some in Hacc. simplify_eq. split; [done|].
  pose proof (zset_inv _ _ _ _ Hset) as [Hr ->].
  destruct (push_tail_ok q t Hq) as (q' & E & _).
  { unfold thread_queue_is_full in Hfull. destruct Hq as (_ & _ & _ & ? & _). zbool. lia. }
  exists q'. split; [|done]. revert E. unfold thread_queue_push_tail. rewrite Hfull, zset_Some, bind_Some by done.
  destruct q as [h tl s c ts]. cbn [push_rest tq_tasks tq_tail tq_size tq_head tq_capcity q_set_tasks] in *.
  unfold rest_args, rest_tail. cbn [tq_tasks tq_tail tq_size tq_head tq_capcity q_set_tasks].
  rewrite znth_insert, Z.eqb_refl, bind_Some, zset_Some, bind_Some, list_insert_insert_eq by (rewrite ?length_insert; lia).
  change (next_slot (mkThreadQueue h tl s c ?l) tl) with (next_slot (mkThreadQueue h tl s c ts) tl).
  destruct (next_slot _ tl) as [tail|]; [|done]. rewrite !bind_Some. intros [= <-]. by destruct t.
Qed.

Lemma push_later pc t q q' next q1 : push_rest pc t q = Some q' -> push_access pc t q = Some (next, q1) ->
  match next with PGo pc' => push_rest pc' t q1 = Some q' /\ pc' <> PArgs | PReturn => False | PDone => q1 = q' end.
Proof.
  destruct pc as [| | | | | |size]; try done; cbn [push_rest push_access]; unfold rest_args, rest_tail, rest_size; intros Hr Ha.
  - destruct (znth _ _) as [old|]; [|done]. cbn [mbind option_bind] in *. destruct (zset _ _ _) as [tasks|]; [|done].
    cbn [mbind option_bind] in *. simplify_eq. done.
  - destruct (next_slot q (tq_tail q)) as [tail|]; [|done]. cbn [mbind option_bind] in *. by simplify_eq.
  - by simplify_eq.
  - destruct (negb _); [done|]. by simplify_eq.
Qed.

Lemma push_rest_tasks pc t q q' : push_rest pc t q = Some q' ->
  length (tq_tasks q') = length (tq_tasks q) /\ (pc <> PArgs -> tq_tasks q' = tq_tasks q)
  /\ forall i, i <> tq_tail q -> znth (tq_tasks q') i = znth (tq_tasks q) i.
Proof.
  destruct pc as [| | | | | |size]; try done; cbn [push_rest]; unfold rest_args, rest_tail, rest_size; intros H.
  - destruct (znth _ _) as [old|]; [|done]. cbn [mbind option_bind] in H. destruct (zset _ _ _) as [tasks|] eqn:Hs; [|done].
    cbn [mbind option_bind] in H. destruct (next_slot _ _) as [tail|]; [|done]. cbn [mbind option_bind] in H. simplify_eq. cbn.
    apply zset_inv in Hs as [Hr ->]. rewrite length_insert. split; [done|]. split; [done|]. intros i Hi.
    rewrite znth_insert by done. by rewrite (proj2 (Z.eqb_neq i (tq_tail q))).
  - destruct (next_slot _ _) as [tail|]; [|done]. cbn [mbind option_bind] in H. by simplify_eq.
  - by simplify_eq.
  - by simplify_eq.
Qed.

Lemma pop_first q tasked : tq_ok q -> thread_queue_is_empty (Some q) = false ->
  exists q', pop_rest (QHeadLoad (tq_head q)) q tasked = Some (tq_head q, q', tasked + 1)
    /\ thread_queue_pop_head q = Some (Some (tq_head q), q') /\ tq_tasks q' = tq_tasks q.
Proof.
  intros Hq Hne. destruct (pop_head_ok q Hq) as (q' & t & E & _ & _ & Ht & _).
  { unfold thread_queue_is_empty in Hne. destruct Hq as (_ & _ & _ & ? & _). zbool. lia. }
  exists q'. split; [|done]. revert E. unfold thread_queue_pop_head. rewrite Hne. cbn [pop_rest]. unfold pop_head_store, pop_size.
  destruct (next_slot q (tq_head q)) as [h|]; [|done]. rewrite !bind_Some. intros [= <-]. done.
Qed.

Lemma pop_later pc q tasked t q' n next q1 n1 : pop_rest pc q tasked = Some (t, q', n) ->
  pop_access pc q tasked = Some (next, q1, n1) ->
  match next with inl pc' => pop_rest pc' q1 n1 = Some (t, q', n) | inr t' => t' = t /\ q1 = q' /\ n1 = n end.
Proof.
  destruct pc as [|i|i h|i|i size|i|i k]; try done; cbn [pop_rest pop_access]; unfold pop_head_store, pop_size; intros Hr Ha.
  - by simplify_eq.
  - destruct (next_slot q h) as [head|] eqn:E; [|done]. cbn [mbind option_bind] in *. simplify_eq. done.
  - by simplify_eq.
  - destruct (negb _); [done|]. simplify_eq. done.
  - by simplify_eq.
  - by simplify_eq.
Qed.

Lemma pop_rest_tasks pc q tasked t q' n : pop_rest pc q tasked = Some (t, q', n) -> tq_tasks q' = tq_tasks q.
Proof.
  destruct pc as [|i|i h|i|i size|i|i k]; try done; cbn [pop_rest]; unfold pop_head_store, pop_size; intros H;
    try (destruct (next_slot _ _) as [head|]; [|done]; cbn [mbind option_bind] in H); by simplify_eq.
Qed.

(** ** Steps of the others *)

Definition queue_call (l : label) : bool := match l with LAdd _ | LPop _ | LCheck _ => true | _ => false end.

(** While a push is in progress only workers move, and none of them gets a pointer. *)
Lemma step_beside_push p l p' new q :
  queue_call l = false -> match l with LDestroy _ => False | _ => True end -> p_caller p = MIdle ->
  length (tq_tasks q) = length (tq_tasks (p_queue p)) -> pool_step p l = Some (p', new) ->
  p_caller p' = MIdle /\ p_queue p' = p_queue p /\ p_shutdown p' = p_shutdown p
  /\ (forall i, Forall (fun pc => pc <> WRun i) (p_threads p) -> Forall (fun pc => pc <> WRun i) (p_threads p'))
  /\ exists new', pool_step (pushed p q) l = Some (pushed p' q, new') /\ accepted new' = accepted new /\ taken new' = taken new
     /\ ((forall i, WRun i ∈ p_threads p -> znth (tq_tasks q) i = znth (tq_tasks (p_queue p)) i) -> new' = new).
Proof.
  intros Hl Hd Hc Hlen Hs.
  assert (Hquiet : forall w pc, (forall i, pc <> WRun i) ->
    forall i, Forall (fun pc => pc <> WRun i) (p_threads p) -> Forall (fun pc => pc <> WRun i) (<[w := pc]> (p_threads p))).
  { intros w pc Hpc i Hall. by apply Forall_insert. }
  destruct l as [t|fd|ok| |flags|ok|w fd|w|w|w|w|w|w]; try done; cbn [pool_step] in *; rewrite ?Hc in Hs; try done.
  all: cbn [p_threads p_queue pushed set_caller set_queue].
  all: destruct (p_threads p !! w) as [pc|] eqn:Hw; [|done]; destruct pc; try done.
  - cbn [p_ready]. destruct (bool_decide _); [|done]. simplify_eq. split_and!; try done; [by apply Hquiet|]. by eexists.
  - simplify_eq. split_and!; try done; [by apply Hquiet|]. by eexists.
  - unfold pop_read in *. simplify_eq. split_and!; try done; [by apply Hquiet|]. by eexists.
  - unfold pop_close in *. simplify_eq. split_and!; try done; [by apply Hquiet|]. by eexists.
  - unfold run_task in *. destruct (znth (tq_tasks (p_queue p)) task) as [t|] eqn:Ht; [|done]. cbn [mbind option_bind] in Hs. simplify_eq.
    split_and!; try done; [by apply Hquiet|]. change (p_queue (pushed p q)) with q.
    destruct (znth_lt (tq_tasks q) task) as [t' Ht']; [apply znth_Some_lt in Ht; lia|]. rewrite Ht', bind_Some.
    eexists. split; [done|]. split; [done|]. split; [done|]. intros Heq. rewrite Heq, Ht in Ht' by (by eapply list_elem_of_lookup_2). congruence.
Qed.

(** While a pop of worker [w] is in progress the caller and the other workers move. *)
Lemma step_beside_pop p l p' new w t q n :
  queue_call l = false -> p_threads p !! w = Some WPop -> tq_tasks q = tq_tasks (p_queue p) -> pool_step p l = Some (p', new) ->
  p_threads p' !! w = Some WPop /\ p_queue p' = p_queue p /\ p_tasked p' = p_tasked p
  /\ pool_step (popped p w t q n) l = Some (popped p' w t q n, new).
Proof.
  intros Hl Hw Htq Hs. 
  assert (Hth : forall v pc, p_threads p !! v = Some pc -> pc <> WPop -> v <> w) by (intros v pc Hv Hpc ->; congruence).
  assert (Hset : forall v pc, v <> w -> <[v := pc]> (p_threads p) !! w = Some WPop /\ <[v := pc]> (<[w := WRun t]> (p_threads p)) = <[w := WRun t]> (<[v := pc]> (p_threads p))).
  { intros v pc Hv. split; [by rewrite list_lookup_insert_ne|by apply list_insert_insert_ne]. }
  destruct l as [?|fd|ok| |flags|ok|v fd|v|v|v|v|v|v]; try done; cbn [pool_step] in *;
    change (p_caller (popped p w t q n)) with (p_caller p); change (p_threads (popped p w t q n)) with (<[w := WRun t]> (p_threads p));
    change (p_open (popped p w t q n)) with (p_open p); change (p_ready (popped p w t q n)) with (p_ready p).
  - destruct (p_caller p); try done. unfold push_eventfd, back in *. change (p_open (popped p w t q n)) with (p_open p). destruct fd; [destruct (_ || _); [done|]|]; by simplify_eq.
  - destruct (p_caller p); try done. unfold push_ctl, back in *. change (p_open (popped p w t q n)) with (p_open p). destruct (negb ok); [by simplify_eq|]. destruct (bool_decide _); [|done]. by simplify_eq.
  - destruct (p_caller p); try done. unfold push_write, back in *. change (p_open (popped p w t q n)) with (p_open p). destruct (bool_decide _); by simplify_eq.
  - destruct (p_caller p); try done. unfold threadpool_destroy, back in *. change (p_shutdown (popped p w t q n)) with (p_shutdown p). destruct (negb _); by simplify_eq.
  - destruct (p_caller p) as [| | | |i err]; try done. unfold join, back, threadpool_free in *.
    change (p_threads (popped p w t q n)) with (<[w := WRun t]> (p_threads p)). change (p_started (popped p w t q n)) with (p_started p).
    destruct (decide (i = w)) as [->|Hi]; [by rewrite Hw in Hs|]. rewrite list_lookup_insert_ne by done.
    destruct (p_threads p !! i) as [[]|]; try done; [by simplify_eq|]. destruct (err =? 0), (p_started p >? 0); by simplify_eq.
  - destruct (p_threads p !! v) as [[]|] eqn:Hv; try done. pose proof (Hth v _ Hv ltac:(done)) as Hne. rewrite list_lookup_insert_ne, Hv by done.
    destruct (bool_decide _); [|done]. destruct (Hset v (WRead fd) Hne) as [H1 H2]. simplify_eq. split_and!; try done. unfold popped, set_worker. cbn. by rewrite H2.
  - destruct (p_threads p !! v) as [[]|] eqn:Hv; try done. pose proof (Hth v _ Hv ltac:(done)) as Hne. rewrite list_lookup_insert_ne, Hv by done.
    destruct (Hset v WCheck Hne) as [H1 H2]. simplify_eq. split_and!; try done. unfold popped, set_worker. cbn. by rewrite H2.
  - destruct (p_threads p !! v) as [[]|] eqn:Hv; try done. pose proof (Hth v _ Hv ltac:(done)) as Hne. rewrite list_lookup_insert_ne, Hv by done.
    destruct (Hset v (WClose fd) Hne) as [H1 H2]. unfold pop_read in *. simplify_eq. split_and!; try done. unfold popped, set_worker. cbn. by rewrite H2.
  - destruct (p_threads p !! v) as [[]|] eqn:Hv; try done. pose proof (Hth v _ Hv ltac:(done)) as Hne. rewrite list_lookup_insert_ne, Hv by done.
    destruct (Hset v WPop Hne) as [H1 H2]. unfold pop_close in *. simplify_eq. split_and!; try done. unfold popped, set_worker. cbn. by rewrite H2.
  - destruct (p_threads p !! v) as [[]|] eqn:Hv; try done. pose proof (Hth v _ Hv ltac:(done)) as Hne. rewrite list_lookup_insert_ne, Hv by done.
    destruct (Hset v WCheck Hne) as [H1 H2]. unfold run_task in *. change (p_queue (popped p w t q n)) with q. rewrite Htq.
    destruct (znth _ _) as [x|]; [|done]. cbn [mbind option_bind] in *. simplify_eq. split_and!; try done. unfold popped, set_worker. cbn. by rewrite H2.
Qed.

(** ** Runs without overlap are runs of the pool *)

(** A step is matched by none or one of ThreadPool.v with the same tasks. *)
Definition matched (strict : Prop) (f : race) (l : race_label) (p p' : threadpool_t) (new : list event) : Prop :=
  p' = p /\ new = []
  \/ exists l' new', pool_step p l' = Some (p', new') /\ accepted new' = accepted new /\ taken new' = taken new
       /\ (strict -> new' = new) /\ (race_kernel_ok f l -> kernel_ok p l') /\ (strict -> slot_free p l').

Lemma match_same (strict : Prop) f l p p' new l' : pool_step p l' = Some (p', new) ->
  (race_kernel_ok f l -> kernel_ok p l') -> (strict -> slot_free p l') -> matched strict f l p p' new.
Proof. intros. right. by exists l', new. Qed.

Lemma kernel_ok_other p l : match l with LEventfd _ | LCtl _ => False | _ => True end -> kernel_ok p l.
Proof. destruct l; try done; cbn; by destruct (p_caller p). Qed.

Lemma pool_unchanged p : set_tasked (set_queue p (p_queue p)) (p_tasked p) = p /\ set_queue p (p_queue p) = p.
Proof. by destruct p. Qed.

(** The caller's accesses. *)
Lemma sim_push_step (strict : Prop) f p f' new : tq_ok (p_queue p) -> sim strict f p -> (strict -> race_slot_free f RPush) ->
  race_push f = Some (f', new) -> exists p', sim strict f' p' /\ matched strict f RPush p p' new.
Proof.
  intros Hq Hsim Hslot Hs. unfold race_push in Hs. destruct Hsim as [p|p pc t Hc Hrun Hsd Hpc|p pc t q Hc Hrest Hw|p w|p w pc t q n]; try done;
    cbn [r_push r_pool r_pops mbind option_bind] in Hs.
  - assert (Hadd : forall r, thread_queue_is_full (Some (p_queue p)) = r -> threadpool_add p t
       = if r then Some (back p 0) else '(_, q) ← thread_queue_push_tail (p_queue p) t; Some (set_caller (set_queue p q) MEventfd, [EAccept t])).
    { intros r <-. unfold threadpool_add. by rewrite Hrun, Hsd. }
    destruct pc; try done; cbn [push_access mbind option_bind] in Hs; rewrite ?(proj2 (pool_unchanged p)) in Hs.
    + destruct (thread_queue_is_full (Some (p_queue p))) eqn:Hfull; simplify_eq.
      * exists p. split; [constructor|]. apply (match_same _ _ _ _ _ _ (LAdd t)); [|by intros _; apply kernel_ok_other|].
        -- cbn [pool_step]. rewrite Hc, (Hadd true eq_refl). unfold back. by destruct p; cbn in *; subst.
        -- intros _. cbn [slot_free]. by rewrite (Hadd true eq_refl).
      * exists p. split; [by constructor|]. by left.
    + rewrite Hpc in Hs. simplify_eq. exists p. split; [by constructor|]. by left.
    + destruct (push_access PRun t (p_queue p)) as [[next q1]|] eqn:Hacc; cbn [push_access] in Hacc; rewrite Hacc in Hs; [|done].
      cbn [mbind option_bind] in Hs. destruct (push_first t (p_queue p) next q1 Hq Hpc Hacc) as (-> & q' & Hrest & Hpush). simplify_eq.
      exists (pushed p q'). split.
      * apply (sim_stores strict (set_queue p q1) PArgs t q'); [done|exact Hrest|]. intros Hst _. specialize (Hslot Hst).
        cbn [race_slot_free r_push r_pool] in Hslot.
        change (p_queue (set_queue p q1)) with q1. change (p_threads (set_queue p q1)) with (p_threads p).
        assert (tq_tail q1 = tq_tail (p_queue p)) as ->; [|exact Hslot].
        revert Hacc. destruct (znth _ _); [|done]. cbn [mbind option_bind]. destruct (zset _ _ _); [|done]. cbn. by intros [= <-].
      * apply (match_same _ _ _ _ _ _ (LAdd t)); [|by intros _; apply kernel_ok_other|intros Hst _; by apply Hslot].
        cbn [pool_step]. by rewrite Hc, (Hadd false Hpc), Hpush.
  - destruct (push_access pc t (p_queue p)) as [[next q1]|] eqn:Hacc; [|done]. cbn [mbind option_bind] in Hs.
    pose proof (push_later _ _ _ _ _ _ Hrest Hacc) as Hnext. exists (pushed p q). destruct next as [pc'| |]; [|done|].
    + destruct Hnext as [Hrest' Hne]. simplify_eq. split.
      * by apply (sim_stores strict (set_queue p q1) pc' t q).
      * left. split; [done|]. by destruct pc.
    + subst q1. simplify_eq. split; [constructor|]. by left.
Qed.

(** A worker's accesses. *)
Lemma sim_pop_step (strict : Prop) f p w f' new : tq_ok (p_queue p) -> sim strict f p -> alone f (RPop w) ->
  race_pop f w = Some (f', new) -> exists p', sim strict f' p' /\ matched strict f (RPop w) p p' new.
Proof.
  intros Hq Hsim Hal Hs. unfold race_pop in Hs. destruct (p_threads (r_pool f) !! w) as [pc0|] eqn:Hw; [|done].
  destruct pc0; try done. unfold alone, outside in Hal.
  destruct Hsim as [p|p pc t Hc Hrun Hsd Hpc|p pc t q Hc Hrest _|p v Hv Hne|p v pc t q n Hv Hrest]; cbn [r_push r_pool r_pops] in *.
  - rewrite lookup_empty in Hs. destruct (thread_queue_is_empty (Some (p_queue p))) eqn:He; simplify_eq.
    + exists (set_worker p w WCheck). split; [constructor|]. apply (match_same _ _ _ _ _ _ (LPop w)); [|by intros _; apply kernel_ok_other|done].
      cbn [pool_step]. rewrite Hw. unfold pop_task. by rewrite pop_head_empty by (unfold thread_queue_is_empty in He; by zbool).
    + exists p. rewrite insert_empty. split; [by constructor|]. by left.
  - by destruct (Hal (lookup_empty w)).
  - by destruct (Hal (lookup_empty w)).
  - destruct (decide (v = w)) as [->|Hvw].
    2: { destruct (Hal (lookup_singleton_ne v w _ Hvw)) as [_ E]. by apply map_non_empty_singleton in E. }
    rewrite lookup_singleton_eq in Hs. cbn [pop_access mbind option_bind] in Hs.
    destruct (znth (tq_tasks (p_queue p)) (tq_head (p_queue p))) as [t|] eqn:Ht; [|done]. cbn [mbind option_bind] in Hs. simplify_eq.
    rewrite (proj1 (pool_unchanged p)), insert_singleton_eq.
    destruct (pop_first (p_queue p) (p_tasked p) Hq Hne) as (q' & Hrest & Hpop & Htq).
    exists (popped p w (tq_head (p_queue p)) q' (p_tasked p + 1)). split; [by constructor|].
    apply (match_same _ _ _ _ _ _ (LPop w)); [|by intros _; apply kernel_ok_other|done].
    cbn [pool_step]. rewrite Hv. unfold pop_task. rewrite Hpop, bind_Some, Htq, Ht, bind_Some. done.
  - destruct (decide (v = w)) as [->|Hvw].
    2: { destruct (Hal (lookup_singleton_ne v w _ Hvw)) as [_ E]. by apply map_non_empty_singleton in E. }
    rewrite lookup_singleton_eq in Hs. destruct (pop_access pc (p_queue p) (p_tasked p)) as [[[next q1] n1]|] eqn:Hacc; [|done].
    cbn [mbind option_bind] in Hs. pose proof (pop_later _ _ _ _ _ _ _ _ _ Hrest Hacc) as Hnext.
    assert (Hnew : pc <> QSlot) by (by intros ->).
    exists (popped p w t q n). destruct next as [pc'|t'].
    + destruct pc; try done; cbn [mbind option_bind] in Hs; simplify_eq; rewrite insert_singleton_eq; (split; [|by left]);
        apply (sim_pop strict (set_tasked (set_queue p q1) n1) w pc' t q n); done.
    + destruct Hnext as (-> & -> & ->). destruct pc; try done; cbn [mbind option_bind] in Hs; simplify_eq;
        rewrite delete_singleton_eq; (split; [constructor|by left]).
Qed.

(** The beginning of an addition. *)
Lemma sim_add_step (strict : Prop) f p t f' new : sim strict f p -> alone f (RAdd t) -> race_add f t = Some (f', new) ->
  exists p', sim strict f' p' /\ matched strict f (RAdd t) p p' new.
Proof.
  intros Hsim [Ho1 Ho2] Hs. unfold race_add in Hs.
  destruct Hsim as [p|p pc u|p pc u q|p v|p v pc u q n]; cbn [r_push r_pool r_pops] in *; try done;
    try (by apply map_non_empty_singleton in Ho2).
  destruct (p_caller p) eqn:Hc; try done.
  assert (Hback : forall r, threadpool_add p t = Some (back p r) -> exists p', sim strict (mkRace p None ∅) p' /\ matched strict (mkRace p None ∅) (RAdd t) p p' [EReturn r]).
  { intros r Hadd. exists p. split; [constructor|]. apply (match_same _ _ _ _ _ _ (LAdd t)); [|by intros _; apply kernel_ok_other|].
    - cbn [pool_step]. rewrite Hc, Hadd. unfold back. by destruct p; cbn in *; subst.
    - intros _. cbn [slot_free]. by rewrite Hadd. }
  unfold threadpool_add in Hback. destruct (run t =? 0) eqn:Hrun; [simplify_eq; by apply Hback|].
  destruct (Z.eqb_spec (p_shutdown p) 0) as [Hsd|]; cbn [negb] in *; [|simplify_eq; by apply Hback].
  simplify_eq. exists p. split; [by constructor|]. by left.
Qed.

(** The other steps. *)
Lemma sim_other_step (strict : Prop) f p l f' new : sim strict f p -> alone f (RStep l) -> race_step f (RStep l) = Some (f', new) ->
  exists p', sim strict f' p' /\ matched strict f (RStep l) p p' new.
Proof.
  intros Hsim Hal Hs. cbn [race_step] in Hs.
  assert (Hs' : exists p', pool_step (r_pool f) l = Some (p', new) /\ f' = mkRace p' (r_push f) (r_pops f)
    /\ match l with LAdd _ | LPop _ => False | LDestroy _ => r_push f = None | _ => True end).
  { destruct l; try done; destruct (r_push f) eqn:Hp; try done;
      (destruct (pool_step (r_pool f) _) as [[p' e]|] eqn:E; [|done]); cbn [mbind option_bind] in Hs; simplify_eq; by exists p'. }
  destruct Hs' as (p' & Hstep & -> & Hl). clear Hs.
  assert (Hfree : forall p, slot_free p l) by (by destruct l).
  destruct Hsim as [p|p pc t Hc Hrun Hsd Hpc|p pc t q Hc Hrest Hw|p w Hw Hne|p w pc t q n Hw Hrest]; cbn [r_push r_pool r_pops] in *.
  - exists p'. split; [constructor|]. by apply (match_same _ _ _ _ _ _ l).
  - assert (queue_call l = false) as Hq by (destruct l; try done; by destruct Hal).
    destruct (step_beside_push p l p' new (p_queue p) Hq) as (Hc' & Hq' & Hsd' & _); try done; [by destruct l|].
    exists p'. split; [|by apply (match_same _ _ _ _ _ _ l)]. constructor; try done; [congruence|]. by rewrite Hq'.
  - assert (queue_call l = false) as Hq by (destruct l; try done; by destruct Hal).
    destruct (push_rest_tasks _ _ _ _ Hrest) as (Hlen & Hsame & Hother).
    destruct (step_beside_push p l p' new q Hq) as (Hc' & Hq' & _ & Hthreads & new' & Hstep' & Ha & Ht & Heq); try done; [by destruct l|].
    exists (pushed p' q). split.
    + apply (sim_stores strict p' pc t q); [done|by rewrite Hq'|]. intros Hst Hpc. rewrite Hq'. by apply Hthreads, Hw.
    + right. exists l, new'. split; [done|]. split; [done|]. split; [done|]. split; [|split; [|done]].
      * intros Hst. apply Heq. intros i Hi. destruct (decide (pc = PArgs)) as [Hpc|]; [|by rewrite Hsame].
        apply Hother. intros ->. specialize (Hw Hst Hpc). rewrite Forall_forall in Hw. by apply (Hw _ Hi).
      * intros _. destruct l; try (by apply kernel_ok_other); by cbn [pool_step] in Hstep; rewrite Hc in Hstep.
  - assert (queue_call l = false) as Hq by (destruct l; try done; destruct Hal as [_ E]; cbn [r_pops] in E; by apply map_non_empty_singleton in E).
    destruct (step_beside_pop p l p' new w 0 (p_queue p) 0 Hq Hw eq_refl Hstep) as (Hw' & Hq' & _ & _).
    exists p'. split; [|by apply (match_same _ _ _ _ _ _ l)]. constructor; [done|]. by rewrite Hq'.
  - assert (queue_call l = false) as Hq by (destruct l; try done; destruct Hal as [_ E]; cbn [r_pops] in E; by apply map_non_empty_singleton in E).
    destruct (step_beside_pop p l p' new w t q n Hq Hw (pop_rest_tasks _ _ _ _ _ _ Hrest) Hstep) as (Hw' & Hq' & Hn' & Hstep').
    exists (popped p' w t q n). split; [constructor; [done|by rewrite Hq', Hn']|].
    apply (match_same _ _ _ _ _ _ l); [done| |done]. intros H. exact H.
Qed.

Lemma sim_step (strict : Prop) f p l f' new : tq_ok (p_queue p) -> sim strict f p -> alone f l -> (strict -> race_slot_free f l) ->
  race_step f l = Some (f', new) -> exists p', sim strict f' p' /\ matched strict f l p p' new.
Proof.
  intros Hq Hsim Hal Hslot Hs. destruct l as [t| |w|l].
  - by eapply sim_add_step.
  - by eapply sim_push_step.
  - by eapply sim_pop_step.
  - by eapply sim_other_step.
Qed.

(** The matching run of the pool. *)
Lemma sim_runs (strict : Prop) ok cap p0 evs f :
  fifo_inv cap [] p0 -> (forall f l, ok f l -> alone f l /\ (strict -> race_kernel_ok f l /\ race_slot_free f l)) ->
  race_runs ok (mkRace p0 None ∅) evs f ->
  exists evs' p, sim strict f p /\ runs (fun p l => strict -> good_step p l) p0 evs' p
    /\ accepted evs' = accepted evs /\ taken evs' = taken evs /\ (strict -> evs' = evs).
Proof.
  intros H0 Hok. induction 1 as [|evs f l f' new _ (evs' & p & Hsim & Hruns & Ha & Ht & He) Hl Hs].
  { exists [], p0. split; [constructor|]. split; [constructor|]. done. }
  destruct (Hok _ _ Hl) as [Hal Hst].
  destruct (fifo_runs _ _ _ _ _ H0 Hruns) as [Hq _].
  destruct (sim_step strict f p l f' new Hq Hsim Hal (fun h => proj2 (Hst h)) Hs) as (p' & Hsim' & [[-> ->]|(l' & new' & Hstep & Ha' & Ht' & He' & Hk & Hfr)]).
  - exists evs', p. rewrite app_nil_r. done.
  - exists (evs' ++ new'), p'. split; [done|]. split; [|split; [|split]].
    + eapply runs_step; [done| |done]. intros h. split; [by apply Hk, Hst|by apply Hfr].
    + by rewrite !accepted_app, Ha, Ha'.
    + by rewrite !taken_app, Ht, Ht'.
    + intros h. by rewrite He, He'.
Qed.

Lemma sim_outside strict f p : sim strict f p -> outside f -> f = mkRace p None ∅.
Proof.
  intros [] [Ho1 Ho2]; cbn in *; try done; by apply map_non_empty_singleton in Ho2.
Qed.

(** C18: tasks leave the queue in the order in which threadpool_add put them there,
    provided no two calls of the queue overlap - the code has no lock that would see to
    it, and overlapping calls lose tasks or run them twice (examples lost_task and
    task_run_twice). With every load and store of the queue a step of its own: in every
    run in which a call of the queue begins only when no other is in progress, whatever
    the kernel answers, whenever no call is in progress the tasks accepted so far are
    those taken so far followed by the tasks in the queue, the queue has no more tasks
    than its capacity, and tasked counts the tasks taken. *)
Theorem pool_fifo calloc epoll n size p0 evs f :
  size < 2 ^ 31 -> threadpool_create calloc epoll n size = Some (CPool p0) ->
  race_runs alone (mkRace p0 None ∅) evs f -> outside f ->
  accepted evs = taken evs ++ waiting (p_queue (r_pool f)) /\ zlen (waiting (p_queue (r_pool f))) <= size
  /\ p_tasked (r_pool f) = zlen (taken evs).
Proof.
  intros Hs Hc Hr Ho. pose proof (create_fifo _ _ _ _ _ Hs Hc) as H0.
  destruct (sim_runs False alone size p0 evs f H0) as (evs' & p & Hsim & Hruns & Ha & Ht & _); [by split|done|].
  rewrite (sim_outside _ _ _ Hsim Ho). cbn [r_pool]. rewrite <- Ha, <- Ht. by eapply atomic_fifo.
Qed.

(** C17: no wake-up is lost, provided no two calls of the queue overlap (the code has no
    lock that would see to it), the kernel refuses no eventfd, and no task is stored in
    the slot a worker still has a pointer to (finding thread_queue.c:84). With every
    load and store of the queue a step of its own: in every such run, when the workers
    have nothing to react to (each waits and no eventfd is readable, or has ended) and
    the caller is not in the middle of an addition, the queue is empty and every task
    that threadpool_add accepted has been run, exactly once - although several workers
    may wake up for one eventfd, read it and close the same descriptor, which may be a
    new eventfd by then. *)
Theorem quiescent_all_run calloc epoll n size p0 evs f :
  size < 2 ^ 31 -> threadpool_create calloc epoll n size = Some (CPool p0) ->
  race_runs race_good (mkRace p0 None ∅) evs f -> r_push f = None -> quiescent (r_pool f) ->
  waiting (p_queue (r_pool f)) = [] /\ ran evs ≡ₚ accepted evs.
Proof.
  intros Hs Hc Hr Hpush Hqu. pose proof (create_fifo _ _ _ _ _ Hs Hc) as H0.
  destruct (sim_runs True race_good size p0 evs f H0) as (evs' & p & Hsim & Hruns & _ & _ & He); [by intros g l (? & ? & ?)|done|].
  rewrite He in Hruns by done.
  assert (Hquiet : forall w, p_threads (r_pool f) !! w <> Some WPop).
  { intros w Hw. destruct Hqu as [_ Hq]. rewrite Forall_lookup in Hq. by destruct (Hq w _ Hw) as [|[? _]]. }
  assert (r_pool f = p) as Hp.
  { destruct Hsim as [| | |p w Hw _|p w pc t q k Hw _]; try done; exfalso; by apply (Hquiet w). }
  subst p. eapply (atomic_quiescent calloc epoll n size p0); try done.
  clear -Hruns. induction Hruns as [|evs p l p' new _ IH Hok Hstep]; [constructor|]. by eapply runs_step; [done|apply Hok|].
Qed.

(** ** Concrete runs *)

Fixpoint race_allowed (ok : race -> race_label -> Prop) (f : race) (ls : list race_label) : Prop :=
  match ls with
  | [] => True
  | l :: ls => ok f l /\ match race_step f l with Some (f, _) => race_allowed ok f ls | None => True end
  end.

#[local] Instance task_eq_dec : EqDecision queue_task_t.
Proof. solve_decision. Defined.
#[local] Instance pop_pc_eq_dec : EqDecision pop_pc.
Proof. solve_decision. Defined.
#[local] Instance outside_dec f : Decision (outside f).
Proof. unfold outside. apply _. Defined.
#[local] Instance alone_dec f l : Decision (alone f l).
Proof. destruct l as [| | |[]]; cbn; apply _. Defined.
#[local] Instance kernel_ok_dec p l : Decision (kernel_ok p l).
Proof. destruct l as [|[]|[]| | | | | | | | | |], p as [? ? ? ? ? ? ? ? []]; cbn; apply _. Defined.
#[local] Instance good_dec f l : Decision (race_good f l).
Proof.
  apply and_dec; [apply _|]. apply and_dec; [destruct l; cbn; apply _|].
  destruct l; cbn; try apply _. destruct (r_push f) as [[[] ?]|]; apply _.
Defined.
#[local] Instance allowed_dec (ok : race -> race_label -> Prop) `{forall f l, Decision (ok f l)} f ls : Decision (race_allowed ok f ls).
Proof.
  revert f. induction ls as [|l ls IH]; intros f; cbn; [apply _|]. apply and_dec; [apply _|].
  destruct (race_step f l) as [[f' e]|]; apply _.
Defined.

Lemma race_labels_runs ok f0 evs f ls f' new : race_runs ok f0 evs f -> race_allowed ok f ls -> race_labels f ls = Some (f', new) ->
  race_runs ok f0 (evs ++ new) f'.
Proof.
  revert evs f new. induction ls as [|l ls IH]; intros evs f new Hr Ha H; cbn in H.
  - simplify_eq. by rewrite app_nil_r.
  - cbn in Ha. destruct Ha as [Hok Ha]. destruct (race_step f l) as [[f1 e1]|] eqn:Hs; [|done]. cbn in H.
    destruct (race_labels f1 ls) as [[f2 e2]|] eqn:Hr2; [|done]. cbn in H. simplify_eq. rewrite app_assoc.
    eapply IH; [|done|done]. by eapply race_next.
Qed.

Lemma race_labels_from_start ok f0 ls f new : race_allowed ok f0 ls -> race_labels f0 ls = Some (f, new) -> race_runs ok f0 new f.
Proof. intros Ha H. exact (race_labels_runs ok f0 [] f0 ls f new (race_start ok f0) Ha H). Qed.

(** All accesses of an addition up to the last, the rest of it, and a worker's turn. *)
Definition add_begin (t : Z) : list race_label := RAdd (mkTask 100 t) :: replicate 6 RPush.
Definition add_end (fd : Z) : list race_label := [RPush; RStep (LEventfd (Some fd)); RStep (LCtl true); RStep LWrite].
Definition wake (w : nat) (fd : Z) : list race_label := [RStep (LWake w fd); RStep (LRead w); RStep (LClose w)].
Definition pop (w : nat) : list race_label := replicate 8 (RPop w).
Definition finish (w : nat) : list race_label := [RStep (LRun w); RStep (LCheck w)].
Definition start (size : Z) : race := mkRace (small_pool size) None ∅.

(** Two workers and a queue of two tasks.  Both workers wake up for descriptor 5; the first
    closes it, the caller gets the same number for the second task, and the second worker
    closes that. *)
Definition shared_wakeup : list race_label :=
  add_begin 1 ++ add_end 5 ++ [RStep (LWake 0 5); RStep (LWake 1 5); RStep (LRead 1); RStep (LRead 0); RStep (LClose 0)]
  ++ add_begin 2 ++ add_end 5 ++ [RStep (LClose 1)] ++ pop 1 ++ [RStep (LRun 1)] ++ pop 0 ++ [RStep (LCheck 1)] ++ finish 0.

Definition wakeup_end : race * list event := default (start 2, []) (race_labels (start 2) shared_wakeup).

Lemma wakeup_runs (ok : race -> race_label -> Prop) : race_allowed ok (start 2) shared_wakeup -> race_runs ok (start 2) wakeup_end.2 wakeup_end.1.
Proof.
  intros H. eapply race_labels_from_start; [exact H|]. vm_compute. reflexivity.
Qed.

Lemma pool_fifo_witness :
  accepted wakeup_end.2 = taken wakeup_end.2 ++ waiting (p_queue (r_pool wakeup_end.1))
  /\ accepted wakeup_end.2 = [mkTask 100 1; mkTask 100 2] /\ p_tasked (r_pool wakeup_end.1) = 2.
Proof.
  split; [|by vm_compute].
  refine (proj1 (pool_fifo (fun _ => true) true 2 2 (small_pool 2) wakeup_end.2 wakeup_end.1 _ _ _ _)).
  - done.
  - done.
  - apply wakeup_runs, (bool_decide_unpack _). vm_compute. exact I.
  - by vm_compute.
Defined.

Lemma quiescent_all_run_witness : ran wakeup_end.2 ≡ₚ accepted wakeup_end.2 /\ length (ran wakeup_end.2) = 2%nat.
Proof.
  split; [|by vm_compute].
  refine (proj2 (quiescent_all_run (fun _ => true) true 2 2 (small_pool 2) wakeup_end.2 wakeup_end.1 _ _ _ _ _)).
  - done.
  - done.
  - apply wakeup_runs, (bool_decide_unpack _). vm_compute. exact I.
  - by vm_compute.
  - vm_compute. split; [done|]. repeat constructor; by right.
Defined.

(** The pushes of one thread and the pop of another overlap: the worker loads the size 1, the
    caller adds a task and stores the size 2, the worker stores 0.  The second task stays
    behind: at rest it has been accepted and not run. *)
Example lost_task :
  (fun '(f, evs) => (accepted evs, ran evs, waiting (p_queue (r_pool f)), p_threads (r_pool f), p_ready (r_pool f)))
  <$> race_labels (start 4)
        (add_begin 1 ++ add_end 5 ++ wake 0 5 ++ replicate 5 (RPop 0) ++ add_begin 2 ++ add_end 6 ++ replicate 3 (RPop 0)
           ++ finish 0 ++ wake 0 6 ++ [RPop 0; RStep (LCheck 0)])
  = Some ([mkTask 100 1; mkTask 100 2], [mkTask 100 1], [], [WWait; WWait], ∅).
Proof. by vm_compute. Qed.

(** Two workers take the pointer before either has moved the head: the first task is run
    twice, the second never. *)
Example task_run_twice :
  (fun '(f, evs) => (accepted evs, ran evs, waiting (p_queue (r_pool f))))
  <$> race_labels (start 4)
        (add_begin 1 ++ add_end 5 ++ add_begin 2 ++ add_end 6 ++ wake 0 5 ++ wake 1 6
           ++ [RPop 0; RPop 0; RPop 1; RPop 1] ++ replicate 6 (RPop 0) ++ replicate 6 (RPop 1) ++ finish 0 ++ finish 1)
  = Some ([mkTask 100 1; mkTask 100 2], [mkTask 100 1; mkTask 100 1], []).
Proof. by vm_compute. Qed.
