(* ===== verification/IniRw.v ===== *)
(** * fun_ini/ini_2/inirw.c: reading and editing INI files

    The reader works on the bytes of the file; a position is the offset from the start of the
    buffer, or of the line where a function gets a line.  The editor writes the file anew: the
    file is the list of its bytes, and [fopen] says whether it can be opened.  The writes
    succeed, and [isspace] is that of the C locale.  The floating-point reader and the number
    writer are not modelled. *)

From stdpp Require Import prelude.
From S2P Require Import Prelude CMem.

Definition SIZE_LINE : Z := 1024.
Definition SIZE_FILENAME : Z := 256.

(** LINE_IDLE is not used by the code. *)
Inductive ELineType := LINE_ERROR | LINE_EMPTY | LINE_SECTION | LINE_VALUE.

(** gBuflen is the length of the buffer. *)
Record ini_t := mkIni { gFileName : list Z; gBuffer : option (list Z) }.

(** ** Strings *)

Definition isspace (c : Z) : bool := (c =? 32) || ((9 <=? c) && (c <=? 13)).

Fixpoint skip_spaces (s : list Z) : list Z :=
  match s with
  | [] => []
  | c :: s' => if isspace c then skip_spaces s' else s
  end.

Fixpoint cut_spaces (s : list Z) : list Z :=
  match s with
  | [] => []
  | c :: s' =>
      match cut_spaces s' with
      | [] => if isspace c then [] else [c]
      | t => c :: t
      end
  end.

(** The string with the spaces at its end cut off and those at its start moved over. *)
Definition StrStrip (s : list Z) : list Z := skip_spaces (cut_spaces s).

Definition to_lower (c : Z) : Z := if (65 <=? c) && (c <=? 90) then c + 32 else c.

(** The strings without their NUL. *)
Fixpoint StriCmp (s1 s2 : list Z) : Z :=
  let ch1 := to_lower (default 0 (head s1)) in
  let ch2 := to_lower (default 0 (head s2)) in
  match s1 with
  | [] => ch1 - ch2
  | _ :: s1 => if ch1 =? ch2 then StriCmp s1 (tail s2) else ch1 - ch2
  end.

(** ** Lines *)

(** The variables of the loop of GetLine; the null pointer is [None]. *)
Record scan := mkScan {
  cntblank : Z; cntCR : Z; cntLF : Z; isQuot1 : bool; isQuot2 : bool; rem1 : option Z; cont1 : option Z
}.

(** The switch on the character [c] at [p]. *)
Definition getline_char (c p : Z) (s : scan) : scan :=
  let '(mkScan b cr lf q1 q2 r c1) := s in
  if c =? 13 then mkScan b (cr + 1) lf q1 q2 r c1
  else if c =? 10 then mkScan b cr (lf + 1) q1 q2 r c1
  else if c =? 39 then mkScan b cr lf (if q2 then q1 else negb q1) q2 r c1
  else if c =? 34 then mkScan b cr lf q1 (if q1 then q2 else negb q2) r c1
  else if (c =? 59) || (c =? 35) then
    if q1 || q2 then s else mkScan b cr lf q1 q2 (match r with None => Some (p - b) | _ => r end) c1
  else if isspace c then mkScan (b + 1) cr lf q1 q2 r c1
  else mkScan 0 cr lf q1 q2 r (match r, c1 with None, None => Some p | _, _ => c1 end).

(** The loop, from position [p] with the bytes [l] left. *)
Fixpoint getline_loop (l : list Z) (p : Z) (s : scan) : Z * scan :=
  match l with
  | [] => (p, s)
  | c :: l =>
      return_if c =? 0 with (p + 1, s) ;;
      return_if (cntCR s =? 2) || (cntLF s =? 2) with (p - 1, s) ;;
      return_if cntCR s + cntLF s >=? 2 with (p, s) ;;
      return_if ((0 <? cntCR s) || (0 <? cntLF s)) && negb (c =? 13) && negb (c =? 10) with (p, s) ;;
      getline_loop l (p + 1) (getline_char c p s)
  end.

Record line := mkLine { l_type : ELineType; l_content : list Z; l_rem1 : Z; l_rem2 : Z; l_next : Z }.

(** [content] is the array up to the terminating NUL that is stored; a negative size of the
    copy is undefined. *)
Definition GetLine (buf : list Z) : option line :=
  let '(p, s) := getline_loop buf 0 (mkScan 0 0 0 false false None None) in
  let rem2 := p - cntCR s - cntLF s in
  let rem1 := default rem2 (rem1 s) in
  let cont2 := rem1 - cntblank s in
  match cont1 s with
  | None => Some (mkLine LINE_EMPTY [] rem1 rem2 p)
  | Some cont1 =>
      let i := cont2 - cont1 in
      return_if i >=? SIZE_LINE with Some (mkLine LINE_ERROR [] rem1 rem2 p) ;;
      content ← rd_bytes buf cont1 i;
      let type :=
        if bool_decide (head content = Some 91) && bool_decide (last content = Some 93) then LINE_SECTION
        else if bool_decide (61 ∈ c_str content) then LINE_VALUE else LINE_ERROR in
      Some (mkLine type content rem1 rem2 p)
  end.

(** [content[strlen(content) - 1] = 0; StrStrip(content + 1);]: the name in a section line. *)
Definition section_name (content : list Z) : list Z := StrStrip (tail (removelast (c_str content))).

Definition same_string (s1 s2 : list Z) : bool := StriCmp s1 s2 =? 0.

Definition is_section (section : option (list Z)) (content : list Z) : bool :=
  match section with Some s => same_string (section_name content) s | None => false end.

(** What comes before the first [=] and behind it. *)
Fixpoint split_eq (content : list Z) : list Z * list Z :=
  match content with
  | [] => ([], [])
  | c :: s => if c =? 61 then ([], s) else let '(k, v) := split_eq s in (c :: k, v)
  end.

Definition GetKeyValue (content : list Z) : list Z * list Z :=
  let '(key, value) := split_eq (c_str content) in (StrStrip key, StrStrip value).

(** ** Sections *)

Record section_t := mkSection { sect1 : Z; sect2 : Z; cont1_ : Z; cont2_ : Z; nextsect : Z }.

(** The loop from offset [uselen], where the bytes [l] are left; [found] is sect1, sect2 and
    cont1 once they are known, [empty] is not read before. *)
Fixpoint find_loop (fuel : nat) (section : option (list Z)) (l : list Z) (uselen : Z)
    (found : option (Z * Z * Z)) (empty nextline : Z) : option (option section_t) :=
  let finish nextline :=
    Some (match found with Some (s1, s2, c1) => Some (mkSection s1 s2 c1 empty nextline) | None => None end) in
  match fuel with
  | O => None
  | S fuel =>
      return_if zlen l <=? 0 with finish nextline ;;
      t ← GetLine l;
      let rest := drop (Z.to_nat (l_next t)) l in
      let next := uselen + l_next t in
      match l_type t with
      | LINE_SECTION =>
          return_if bool_decide (is_Some found) || bool_decide (section = None) with finish next ;;
          find_loop fuel section rest next (if is_section section (l_content t) then Some (uselen, uselen + l_rem1 t, next) else found) next next
      | LINE_VALUE =>
          let here := bool_decide (found = None) && bool_decide (section = None) in
          find_loop fuel section rest next (if here then Some (uselen, uselen, uselen) else found) next next
      | _ => find_loop fuel section rest next found empty next
      end
  end.

Definition FindSection (ini : ini_t) (section : option (list Z)) : option (option section_t) :=
  match gBuffer ini with
  | None => Some None
  | Some buf => find_loop (S (length buf)) section buf 0 None 0 0
  end.

(** ** Files *)

Definition parser_ini_free (ini : ini_t) : ini_t := mkIni (gFileName ini) None.

(** [file] is the file of that name, [malloc] says whether the buffer can be had. *)
Definition parser_ini_load (malloc : Z -> bool) (filename : list Z) (file : option (list Z)) : option ini_t :=
  return_if negb (malloc 272) with None ;;
  return_if zlen filename >=? SIZE_FILENAME with None ;;
  match file with
  | None => None
  | Some bytes => return_if negb (malloc (zlen bytes)) with None ;; Some (mkIni filename (Some bytes))
  end.

(** ** Reading *)

(** [strncpy(value, s, len); value[len] = 0;] with [len] at most the length of [s]. *)
Definition put_string (value s : list Z) (len : Z) : option (list Z) :=
  return_if len <? 0 with None ;;
  value ← wr_bytes value 0 (take (Z.to_nat len) s);
  wr8 value len 0.

(** [value] is the array the caller passes, or null. *)
Definition put_value (value : option (list Z)) (s : list Z) (maxlen : Z) : option (option (list Z)) :=
  match value with
  | None => Some None
  | Some m => m ← put_string m s (Z.min (zlen s) (maxlen - 1)); Some (Some m)
  end.

Definition put_default (value : option (list Z)) (maxlen : Z) (defvalue : option (list Z)) : option (Z * option (list Z)) :=
  match value with
  | None => Some (0, None)
  | Some m =>
      m ← (match defvalue with Some d => put_string m d (Z.min (zlen d) (maxlen - 1)) | None => wr8 m 0 0 end);
      Some (0, Some m)
  end.

Fixpoint value_loop (fuel : nat) (section : option (list Z)) (key : list Z) (l : list Z) (found : bool)
    (value : option (list Z)) (maxlen : Z) (defvalue : option (list Z)) : option (Z * option (list Z)) :=
  match fuel with
  | O => None
  | S fuel =>
      return_if zlen l <=? 0 with put_default value maxlen defvalue ;;
      t ← GetLine l;
      let rest := drop (Z.to_nat (l_next t)) l in
      match l_type t with
      | LINE_SECTION =>
          return_if found || bool_decide (section = None) with put_default value maxlen defvalue ;;
          value_loop fuel section key rest (is_section section (l_content t)) value maxlen defvalue
      | LINE_VALUE =>
          let found := found || bool_decide (section = None) in
          return_if negb found with value_loop fuel section key rest found value maxlen defvalue ;;
          let '(key0, value0) := GetKeyValue (l_content t) in
          return_if negb (same_string key0 key) with value_loop fuel section key rest found value maxlen defvalue ;;
          return_if zlen value0 =? 0 with put_default value maxlen defvalue ;;
          value ← put_value value value0 maxlen;
          Some (1, value)
      | _ => value_loop fuel section key rest found value maxlen defvalue
      end
  end.

Definition iniGetValue (ini : ini_t) (section key : option (list Z)) (value : option (list Z)) (maxlen : Z)
    (defvalue : option (list Z)) : option (Z * option (list Z)) :=
  match gBuffer ini, key with
  | Some buf, Some key => value_loop (S (length buf)) section key buf false value maxlen defvalue
  | _, _ =>
      match value with
      | Some m => m ← wr8 m 0 0; Some (0, Some m)
      | None => Some (0, None)
      end
  end.

(** The quotation marks around a value are dropped. *)
Definition strip_quotes (value : list Z) : option (list Z) :=
  let len := zlen (c_str value) in
  c0 ← rd8 value 0;
  return_if negb ((c0 =? 39) || (c0 =? 34)) with Some value ;;
  c1 ← rd8 value (len - 1);
  return_if negb (c1 =? c0) with Some value ;;
  value ← wr8 value (len - 1) 0;
  memmove_in value 0 1 (len - 1).

Definition iniGetString (ini : ini_t) (section key : option (list Z)) (value : option (list Z)) (maxlen : Z)
    (defvalue : option (list Z)) : option (Z * option (list Z)) :=
  '(ret, value) ← iniGetValue ini section key value maxlen defvalue;
  return_if ret =? 0 with Some (ret, value) ;;
  m ← value;
  m ← strip_quotes m;
  Some (ret, Some m).

(** [strtol] is that of the C library with base 0; [valstr] is the uninitialised array. *)
Definition iniGetInt (strtol : list Z -> Z) (valstr : list Z) (ini : ini_t) (section key : option (list Z)) (defvalue : Z) : option Z :=
  '(ret, value) ← iniGetValue ini section key (Some (take 64 valstr)) 64 None;
  return_if ret =? 0 with Some defvalue ;;
  m ← value;
  Some (int32 (strtol (c_str m))).

(** ** Editing *)

(** [" = "] *)
Definition assign : list Z := [32; 61; 32].
Definition LF : Z := 10.

(** The loop over the lines of the section, from offset [p]; [l] are the bytes up to its end.
    The offsets of the line of the key, of its comment and of the next line. *)
Fixpoint key_loop (fuel : nat) (key : list Z) (l : list Z) (p : Z) : option (option (Z * Z * Z)) :=
  match fuel with
  | O => None
  | S fuel =>
      return_if zlen l <=? 0 with Some None ;;
      t ← GetLine l;
      let next := key_loop fuel key (drop (Z.to_nat (l_next t)) l) (p + l_next t) in
      match l_type t with
      | LINE_VALUE =>
          let '(key0, _) := GetKeyValue (l_content t) in
          if same_string key0 key then Some (Some (p, p + l_rem1 t, p + l_next t)) else next
      | _ => next
      end
  end.

Definition upto (buf : list Z) (n : Z) : list Z := take (Z.to_nat n) buf.
Definition behind (buf : list Z) (n : Z) : list Z := drop (Z.to_nat n) buf.

(** The result and the file afterwards; [fopen] says whether it can be opened.  The buffer of
    [ini] stays as it is: what parser_ini_load returns at the end is not used.  A null [section]
    that is not found reaches fprintf with a null string. *)
Definition iniSetString (fopen : bool) (ini : ini_t) (file : list Z) (section : option (list Z)) (key : list Z) (value : option (list Z))
    : option (Z * list Z) :=
  match gBuffer ini with
  | None => Some (0, file)
  | Some buf =>
      s ← FindSection ini section;
      match s with
      | None =>
          match value with
          | None => Some (0, file)
          | Some value =>
              return_if negb fopen with Some (0, file) ;;
              section ← section;
              Some (1, file ++ [LF; 91] ++ section ++ [93; LF] ++ key ++ assign ++ value ++ [LF])
          end
      | Some s =>
          let cont1 := cont1_ s in
          let cont2 := cont2_ s in
          k ← key_loop (S (length buf)) key (upto (behind buf cont1) (cont2 - cont1)) cont1;
          match k, value with
          | Some (p, rem1, nextline), Some value =>
              return_if negb fopen with Some (0, file) ;;
              Some (1, upto buf p ++ key ++ assign ++ value ++ behind buf rem1)
          | Some (p, rem1, nextline), None =>
              return_if negb fopen with Some (0, file) ;; Some (1, upto buf p ++ behind buf nextline)
          | None, None => Some (0, file)
          | None, Some value =>
              return_if negb fopen with Some (0, file) ;;
              Some (1, upto buf cont2 ++ key ++ assign ++ value ++ [LF] ++ behind buf cont2)
          end
      end
  end.
