(* ===== verification/IniRwCorrect.v ===== *)
(** * The INI reader and editor on documents

    A document has lines before its first section and sections with values, comments and other
    lines; its text is what the lines spell.  Reading finds what the document says, and editing
    the file is editing the document (IniRw.v has the model of inirw.c).

    The text has to stay clear of what GetLine gets wrong: an empty line takes the last
    character of the line before it, and a comment or a quoted value that ends with a blank (or
    with a quotation mark or comment sign behind a blank) takes characters of the value. *)

From Stdlib Require Import Ascii String.
From stdpp Require Import prelude strings.
From S2P Require Import Prelude CMem IniRw.

(** ** One line *)

(** Characters of a line. *)
Definition in_line (c : Z) : bool := (0 <? c) && (c <? 256) && negb ((c =? 10) || (c =? 13)).
(** Characters that the switch of GetLine has no case for. *)
Definition plain (c : Z) : bool := in_line c && negb ((c =? 34) || (c =? 39) || (c =? 59) || (c =? 35)).
Definition blank (c : Z) : bool := plain c && isspace c.
Definition solid (c : Z) : bool := plain c && negb (isspace c).

Definition first_is (f : Z -> bool) (l : list Z) : bool := match l with c :: _ => f c | [] => false end.
Definition last_is (f : Z -> bool) (l : list Z) : bool := match last l with Some c => f c | None => false end.

(** Blanks up to the end of the line, or blanks and a comment. *)
Inductive trail := TBlank (bs : list Z) | TComment (bs : list Z) (sign : Z) (text : list Z).

Definition trail_text (t : trail) : list Z :=
  match t with TBlank bs => bs | TComment bs sign text => bs ++ sign :: text end.

Definition trail_ok (t : trail) : bool :=
  match t with
  | TBlank bs => forallb blank bs
  | TComment bs sign text => forallb blank bs && ((sign =? 59) || (sign =? 35)) && forallb in_line text && last_is solid text
  end.

Definition eol (crlf : bool) : list Z := if crlf then [13; 10] else [10].

Record text_line := mkText { t_word : list Z; t_trail : trail; t_crlf : bool }.

Definition line_text (t : text_line) : list Z := t_word t ++ trail_text (t_trail t) ++ eol (t_crlf t).

(** The loop of GetLine over characters of a line. *)
Fixpoint scan_chars (l : list Z) (p : Z) (s : scan) : scan :=
  match l with [] => s | c :: l => scan_chars l (p + 1) (getline_char c p s) end.

Definition at_start : scan := mkScan 0 0 0 false false None None.

(** A text whose first character starts the content and that ends it, with no open quote. *)
Definition good_word (w : list Z) : Prop :=
  w <> [] /\ forallb in_line w = true /\ forall p, scan_chars w p at_start = mkScan 0 0 0 false false None (Some p).

Definition text_ok (t : text_line) : Prop :=
  (t_word t = [] \/ good_word (t_word t)) /\ zlen (t_word t) < SIZE_LINE /\ trail_ok (t_trail t) = true
  /\ t_word t ++ trail_text (t_trail t) <> [].

Definition good_rest (l : list Z) : Prop := match l with [] => True | c :: _ => in_line c = true end.

Lemma scan_chars_app l k p s : scan_chars (l ++ k) p s = scan_chars k (p + zlen l) (scan_chars l p s).
Proof.
  revert p s. induction l as [|c l IH]; intros p s; cbn [app scan_chars length]; [by rewrite Z.add_0_r|].
  rewrite IH. f_equal. lia.
Qed.

Lemma in_line_neq c : in_line c = true -> c <> 0 /\ c <> 10 /\ c <> 13.
Proof. unfold in_line. rewrite !andb_true_iff, negb_true_iff, !orb_false_iff. intros [[? ?] [? ?]]. zbool. lia. Qed.

Lemma plain_in_line c : plain c = true -> in_line c = true.
Proof. unfold plain. by intros [? _]%andb_true_iff. Qed.

Lemma getline_char_counts c p s : in_line c = true -> cntCR (getline_char c p s) = cntCR s /\ cntLF (getline_char c p s) = cntLF s.
Proof.
  intros (_ & H1 & H2)%in_line_neq. destruct s as [b cr lf q1 q2 r c1]. unfold getline_char.
  zfalse (c =? 13). zfalse (c =? 10). repeat case_match; done.
Qed.

Lemma getline_loop_chars l rest p s : forallb in_line l = true -> cntCR s = 0 -> cntLF s = 0 ->
  getline_loop (l ++ rest) p s = getline_loop rest (p + zlen l) (scan_chars l p s)
  /\ cntCR (scan_chars l p s) = 0 /\ cntLF (scan_chars l p s) = 0.
Proof.
  revert p s. induction l as [|c l IH]; intros p s Hl Hcr Hlf; cbn [app scan_chars length].
  - by rewrite Z.add_0_r.
  - apply andb_true_iff in Hl as [Hc Hl]. destruct (getline_char_counts c p s Hc) as [H1 H2].
    destruct (IH (p + 1) (getline_char c p s) Hl) as (IH1 & IH2); [congruence..|]. split; [|done].
    cbn [getline_loop]. apply in_line_neq in Hc as (Hc & _). zfalse (c =? 0). rewrite Hcr, Hlf. cbn.
    rewrite IH1. f_equal. lia.
Qed.

Definition with_eol (crlf : bool) (s : scan) : scan :=
  mkScan (cntblank s) (if crlf then 1 else 0) 1 (isQuot1 s) (isQuot2 s) (rem1 s) (cont1 s).

Lemma getline_loop_eol crlf rest p s : good_rest rest -> cntCR s = 0 -> cntLF s = 0 ->
  getline_loop (eol crlf ++ rest) p s = (p + zlen (eol crlf), with_eol crlf s).
Proof.
  intros Hr Hcr Hlf. destruct s as [b cr lf q1 q2 r c1]. cbn in Hcr, Hlf. subst cr lf.
  destruct rest as [|c rest].
  - destruct crlf; cbn; f_equal; lia.
  - apply in_line_neq in Hr as (H0 & H1 & H2). destruct crlf; cbn; zfalse (c =? 0).
    + f_equal. lia.
    + zfalse (c =? 13). zfalse (c =? 10). done.
Qed.

(** *** What the switch does with runs of characters *)

Lemma blank_char c p b q1 q2 r c1 : blank c = true ->
  getline_char c p (mkScan b 0 0 q1 q2 r c1) = mkScan (b + 1) 0 0 q1 q2 r c1.
Proof.
  unfold blank, plain. rewrite !andb_true_iff, negb_true_iff, !orb_false_iff. intros [[Hl [[[? ?] ?] ?]] Hs].
  apply in_line_neq in Hl as (_ & ? & ?). cbn. zfalse (c =? 13). zfalse (c =? 10). zbool. zfalse (c =? 39). zfalse (c =? 34).
  zfalse ((c =? 59) || (c =? 35)). by rewrite Hs.
Qed.

Lemma solid_char c p b q1 q2 r c1 : solid c = true ->
  getline_char c p (mkScan b 0 0 q1 q2 r c1) = mkScan 0 0 0 q1 q2 r (match r, c1 with None, None => Some p | _, _ => c1 end).
Proof.
  unfold solid, plain. rewrite !andb_true_iff, !negb_true_iff, !orb_false_iff. intros [[Hl [[[? ?] ?] ?]] Hs].
  apply in_line_neq in Hl as (_ & ? & ?). cbn. zfalse (c =? 13). zfalse (c =? 10). zbool. zfalse (c =? 39). zfalse (c =? 34).
  zfalse ((c =? 59) || (c =? 35)). by rewrite Hs.
Qed.

Lemma scan_blanks bs p b q1 q2 r c1 : forallb blank bs = true ->
  scan_chars bs p (mkScan b 0 0 q1 q2 r c1) = mkScan (b + zlen bs) 0 0 q1 q2 r c1.
Proof.
  revert p b. induction bs as [|c bs IH]; intros p b H; cbn [scan_chars length]; [by rewrite Z.add_0_r|].
  apply andb_true_iff in H as [Hc H]. rewrite blank_char, IH by done. f_equal. lia.
Qed.

Lemma plain_blank_or_solid c : plain c = true -> blank c = true \/ solid c = true.
Proof. unfold blank, solid. intros ->. destruct (isspace c); auto. Qed.

(** Behind the start of the content, plain characters only count blanks. *)
Lemma scan_plain l p b q1 q2 c1 : forallb plain l = true ->
  exists b', scan_chars l p (mkScan b 0 0 q1 q2 None (Some c1)) = mkScan b' 0 0 q1 q2 None (Some c1).
Proof.
  revert p b. induction l as [|c l IH]; intros p b H; cbn [scan_chars]; [by eexists|].
  apply andb_true_iff in H as [[Hc|Hc]%plain_blank_or_solid H]; [rewrite blank_char|rewrite solid_char]; auto.
Qed.

Lemma last_is_split f l : last_is f l = true -> exists k c, l = k ++ [c] /\ f c = true.
Proof. destruct l as [|c l _] using rev_ind; [done|]. unfold last_is. rewrite last_snoc. intros H. by exists l, c. Qed.

Lemma scan_plain_solid l p b q1 q2 c1 : forallb plain l = true -> last_is solid l = true ->
  scan_chars l p (mkScan b 0 0 q1 q2 None (Some c1)) = mkScan 0 0 0 q1 q2 None (Some c1).
Proof.
  intros H (k & c & -> & Hc)%last_is_split. rewrite forallb_app in H. apply andb_true_iff in H as [H _].
  rewrite scan_chars_app. destruct (scan_plain k p b q1 q2 c1 H) as (b' & ->). cbn [scan_chars]. by rewrite solid_char.
Qed.

(** A comment changes neither its start nor the content. *)
Lemma comment_char c p s r : in_line c = true -> cntCR s = 0 -> cntLF s = 0 -> rem1 s = Some r ->
  rem1 (getline_char c p s) = Some r /\ cont1 (getline_char c p s) = cont1 s.
Proof.
  intros (_ & ? & ?)%in_line_neq _ _ Hr. destruct s as [b cr lf q1 q2 r' c1]. cbn in Hr. subst r'. cbn.
  zfalse (c =? 13). zfalse (c =? 10). repeat case_match; done.
Qed.

Lemma scan_comment l p s r : forallb in_line l = true -> cntCR s = 0 -> cntLF s = 0 -> rem1 s = Some r ->
  rem1 (scan_chars l p s) = Some r /\ cont1 (scan_chars l p s) = cont1 s.
Proof.
  revert p s. induction l as [|c l IH]; intros p s Hl H1 H2 Hr; [done|]. apply andb_true_iff in Hl as [Hc Hl]. cbn [scan_chars].
  destruct (getline_char_counts c p s Hc) as [H3 H4]. destruct (comment_char c p s r Hc H1 H2 Hr) as [H5 H6].
  destruct (IH (p + 1) (getline_char c p s) Hl) as [-> ->]; [congruence..|]. done.
Qed.

Lemma solid_blank0 c p s : solid c = true -> cntCR s = 0 -> cntLF s = 0 -> cntblank (getline_char c p s) = 0.
Proof. intros Hc H1 H2. destruct s as [b cr lf q1 q2 r c1]. cbn in H1, H2. subst. by rewrite solid_char. Qed.

(** The trail of a line, scanned behind its word: where the comment starts, and how many blanks
    the end of the content has to be moved back from there. *)
Lemma scan_trail t p c1 : trail_ok t = true ->
  let s := scan_chars (trail_text t) p (mkScan 0 0 0 false false None c1) in
  cont1 s = c1 /\ default (p + zlen (trail_text t)) (rem1 s) - cntblank s = p
  /\ default (p + zlen (trail_text t)) (rem1 s) = match t with TBlank bs => p + zlen bs | TComment _ _ _ => p end.
Proof.
  destruct t as [bs|bs sign text]; cbn [trail_ok trail_text].
  - intros H. rewrite scan_blanks by done. cbn. split_and!; [done|lia|done].
  - rewrite !andb_true_iff. intros [[[Hb Hs] Ht] Hl]. cbv zeta. rewrite scan_chars_app, scan_blanks by done. cbn [scan_chars].
    assert (getline_char sign (p + zlen bs) (mkScan (0 + zlen bs) 0 0 false false None c1) = mkScan (zlen bs) 0 0 false false (Some p) c1) as ->.
    { apply orb_true_iff in Hs as [?|?]; zbool; subst sign; cbn; do 2 f_equal; lia. }
    destruct (scan_comment text (p + zlen bs + 1) (mkScan (zlen bs) 0 0 false false (Some p) c1) p Ht) as [H1 H2]; [done..|].
    rewrite H1, H2. cbn [default cont1]. split; [done|]. split; [|done].
    apply last_is_split in Hl as (k & c & -> & Hc). rewrite scan_chars_app. cbn [scan_chars].
    rewrite forallb_app in Ht. apply andb_true_iff in Ht as [Ht _].
    destruct (getline_loop_chars k [] (p + zlen bs + 1) (mkScan (zlen bs) 0 0 false false (Some p) c1) Ht) as (_ & ? & ?); [done..|].
    rewrite solid_blank0 by done. cbn. lia.
Qed.

Lemma eol_length crlf : zlen (eol crlf) = if crlf then 2 else 1.
Proof. by destruct crlf. Qed.

Lemma blank_in_line bs : forallb blank bs = true -> forallb in_line bs = true.
Proof.
  intros H. apply forallb_forall. intros c Hc. rewrite forallb_forall in H. apply H in Hc.
  unfold blank in Hc. apply andb_true_iff in Hc as [? _]. by apply plain_in_line.
Qed.

Lemma trail_in_line t : trail_ok t = true -> forallb in_line (trail_text t) = true.
Proof.
  destruct t as [bs|bs sign text]; cbn [trail_ok trail_text]; [apply blank_in_line|].
  rewrite !andb_true_iff. intros [[[Hb Hs] Ht] _]. rewrite forallb_app. cbn. rewrite blank_in_line, Ht, andb_true_r by done.
  apply orb_true_iff in Hs as [?|?]; zbool; by subst sign.
Qed.

(** The kind of line that a content makes. *)
Definition word_type (w : list Z) : ELineType :=
  match w with
  | [] => LINE_EMPTY
  | _ => if bool_decide (head w = Some 91) && bool_decide (last w = Some 93) then LINE_SECTION
         else if bool_decide (61 ∈ w) then LINE_VALUE else LINE_ERROR
  end.

(** The offset of what iniSetString keeps of the line. *)
Definition trail_keep (t : trail) : list Z := match t with TBlank _ => [] | _ => trail_text t end.

Lemma c_str_in_line w : forallb in_line w = true -> c_str w = w.
Proof.
  induction w as [|c w IH]; intros H; [done|]. apply andb_true_iff in H as [(Hc & _)%in_line_neq H]. cbn.
  zfalse (c =? 0). by rewrite IH.
Qed.

Lemma GetLine_text t rest : text_ok t -> good_rest rest ->
  exists r2, GetLine (line_text t ++ rest)
    = Some (mkLine (word_type (t_word t)) (t_word t) (zlen (line_text t) - zlen (trail_keep (t_trail t) ++ eol (t_crlf t))) r2 (zlen (line_text t))).
Proof.
  destruct t as [w tr crlf]. unfold text_ok, line_text. cbn [t_word t_trail t_crlf]. intros (Hw & Hlen & Htr & Hne) Hrest.
  unfold GetLine. rewrite <- !app_assoc. change (mkScan 0 0 0 false false None None) with at_start.
  assert (Hwl : forallb in_line w = true) by (by destruct Hw as [->|(_ & ? & _)]).
  destruct (getline_loop_chars w (trail_text tr ++ eol crlf ++ rest) 0 at_start Hwl) as (-> & _ & _); [done..|].
  set (c1 := match w with [] => None | _ => Some 0 end).
  assert (scan_chars w 0 at_start = mkScan 0 0 0 false false None c1) as ->.
  { unfold c1. destruct Hw as [->|(Hn & _ & Hs)]; [done|]. rewrite Hs. by destruct w. }
  set (s0 := mkScan 0 0 0 false false None c1).
  destruct (getline_loop_chars (trail_text tr) (eol crlf ++ rest) (0 + zlen w) s0 (trail_in_line _ Htr)) as (-> & Hcr & Hlf); [done..|].
  rewrite getline_loop_eol by done. destruct (scan_trail tr (0 + zlen w) c1 Htr) as (H1 & H2 & H3). fold s0 in H1, H2, H3. cbv zeta in *.
  unfold with_eol. cbn [cntCR cntLF rem1 cont1 cntblank]. rewrite H1. 
  replace (0 + zlen w + zlen (trail_text tr) + zlen (eol crlf) - (if crlf then 1 else 0) - 1) with (0 + zlen w + zlen (trail_text tr))
    by (rewrite eol_length; destruct crlf; lia).
  rewrite H2, H3. eexists. clear H1 H2 H3.
  assert (Hrem : match tr with TBlank bs => 0 + zlen w + zlen bs | TComment _ _ _ => 0 + zlen w end
     = zlen (w ++ trail_text tr ++ eol crlf) - zlen (trail_keep tr ++ eol crlf)).
  { rewrite !length_app. destruct tr; cbn [trail_keep trail_text]; rewrite ?length_app; cbn [length]; lia. }
  assert (Hnext : 0 + zlen w + zlen (trail_text tr) + zlen (eol crlf) = zlen (w ++ trail_text tr ++ eol crlf)).
  { rewrite !length_app. lia. }
  rewrite Hrem, Hnext. unfold c1. destruct w as [|c w]; [done|]. rewrite Z.sub_0_r, Z.add_0_l. unfold SIZE_LINE in *.
  zfalse (zlen (c :: w) >=? 1024).
  pose proof (rd_bytes_app [] (c :: w) (trail_text tr ++ eol crlf ++ rest) 0 (zlen (c :: w)) eq_refl eq_refl) as E. cbn [app] in E |- *.
  rewrite E, bind_Some, c_str_in_line by done. done.
Qed.

(** ** Strings *)

Lemma cut_spaces_blank bs : forallb isspace bs = true -> cut_spaces bs = [].
Proof.
  induction bs as [|c bs IH]; intros H; [done|]. apply andb_true_iff in H as [Hc H]. cbn. by rewrite IH, Hc.
Qed.

Lemma cut_spaces_app w bs : last_is (fun c => negb (isspace c)) w = true -> forallb isspace bs = true -> cut_spaces (w ++ bs) = w.
Proof.
  intros (k & c & -> & Hc)%last_is_split Hb. rewrite <- app_assoc. apply negb_true_iff in Hc. cbn [app]. induction k as [|d k IH]; cbn [app cut_spaces].
  - by rewrite cut_spaces_blank, Hc.
  - rewrite IH. by destruct k.
Qed.

Lemma skip_spaces_app bs w : forallb isspace bs = true -> first_is (fun c => negb (isspace c)) w = true -> skip_spaces (bs ++ w) = w.
Proof.
  intros Hb Hw. induction bs as [|c bs IH]; cbn.
  - destruct w as [|c w]; [done|]. cbn in *. apply negb_true_iff in Hw. by rewrite Hw.
  - apply andb_true_iff in Hb as [Hc Hb]. rewrite Hc. by apply IH.
Qed.

Lemma StrStrip_word b1 w b2 : forallb isspace b1 = true -> forallb isspace b2 = true ->
  w = [] \/ first_is (fun c => negb (isspace c)) w = true /\ last_is (fun c => negb (isspace c)) w = true ->
  StrStrip (b1 ++ w ++ b2) = w.
Proof.
  intros H1 H2 [->|[Hf Hl]]; unfold StrStrip.
  - rewrite cut_spaces_blank by (cbn; by rewrite forallb_app, H1, H2). done.
  - rewrite app_assoc, cut_spaces_app; [by apply skip_spaces_app| |done].
    apply last_is_split in Hl as (k & c & -> & Hc). unfold last_is. by rewrite app_assoc, last_snoc.
Qed.

(** Comparison without regard to the case of ASCII letters. *)
Definition ci_eq (s1 s2 : list Z) : bool := bool_decide (to_lower <$> s1 = to_lower <$> s2).

Definition no_nul (s : list Z) : bool := forallb (fun c => 0 <? c) s.

Lemma to_lower_pos c : 0 < c -> 0 < to_lower c.
Proof. intros. unfold to_lower. case_if; lia. Qed.

Lemma same_string_ci s1 s2 : no_nul s1 = true -> no_nul s2 = true -> same_string s1 s2 = ci_eq s1 s2.
Proof.
  unfold same_string, ci_eq. revert s2. induction s1 as [|c s1 IH]; intros [|d s2] H1 H2; cbn [no_nul forallb] in *;
    rewrite ?andb_true_iff in *; cbn [StriCmp head default from_option tail fmap list_fmap].
  - done.
  - destruct H2 as [Hd _]. zbool. apply to_lower_pos in Hd. unfold id. change (to_lower 0) with 0.
    zfalse (0 - to_lower d =? 0). by rewrite bool_decide_false.
  - destruct H1 as [Hc _]. zbool. apply to_lower_pos in Hc. unfold id. change (to_lower 0) with 0.
    zfalse (to_lower c =? 0). zfalse (to_lower c - 0 =? 0). by rewrite bool_decide_false.
  - unfold id. destruct (Z.eqb_spec (to_lower c) (to_lower d)) as [E|E].
    + rewrite IH by (destruct H1, H2; done). apply bool_decide_ext. rewrite E. split; [by intros ->|by intros [= ->]].
    + zfalse (to_lower c - to_lower d =? 0). rewrite bool_decide_false; [done|]. by intros [= ? ?].
Qed.

(** ** Documents *)

Inductive value := VPlain (v : list Z) | VQuoted (quote : Z) (text : list Z).

(** The value as it is written, and what iniGetString makes of it. *)
Definition raw (v : value) : list Z := match v with VPlain v => v | VQuoted q t => q :: t ++ [q] end.
Definition meaning (v : value) : list Z := match v with VPlain v => v | VQuoted _ t => t end.

Definition word_ok (w : list Z) : bool := forallb plain w && first_is solid w && last_is solid w.

Definition value_ok (v : value) : bool :=
  match v with
  | VPlain v => word_ok v
  | VQuoted q t => ((q =? 34) || (q =? 39)) && forallb (fun c => in_line c && negb (c =? q)) t && last_is solid t
  end.

Definition key_ok (k : list Z) : bool := word_ok k && negb (bool_decide (61 ∈ k)) && negb (bool_decide (head k = Some 91)).

(** [key = value], with blanks around the sign and a trail; or a line that says nothing. *)
Inductive item :=
  | IValue (k b1 b2 : list Z) (v : value) (t : trail) (crlf : bool)
  | INote (w : list Z) (t : trail) (crlf : bool).

Definition item_word (i : item) : list Z :=
  match i with IValue k b1 b2 v _ _ => k ++ b1 ++ [61] ++ b2 ++ raw v | INote w _ _ => w end.

Definition item_line (i : item) : text_line :=
  match i with IValue _ _ _ _ t crlf | INote _ t crlf => mkText (item_word i) t crlf end.

Definition item_ok (i : item) : bool :=
  (zlen (item_word i) <? SIZE_LINE) &&
  match i with
  | IValue k b1 b2 v t _ => key_ok k && forallb blank b1 && forallb blank b2 && value_ok v && trail_ok t
  | INote w t _ =>
      (bool_decide (w = []) || word_ok w && negb (bool_decide (61 ∈ w)) && negb (bool_decide (head w = Some 91)))
      && trail_ok t && negb (bool_decide (w ++ trail_text t = []))
  end.

Record sect := mkSect { sc_pad1 : list Z; sc_name : list Z; sc_pad2 : list Z; sc_trail : trail; sc_crlf : bool; sc_items : list item }.

Definition sect_word (s : sect) : list Z := [91] ++ sc_pad1 s ++ sc_name s ++ sc_pad2 s ++ [93].
Definition sect_line (s : sect) : text_line := mkText (sect_word s) (sc_trail s) (sc_crlf s).

Definition sect_ok (s : sect) : bool :=
  (zlen (sect_word s) <? SIZE_LINE) && forallb blank (sc_pad1 s) && forallb blank (sc_pad2 s)
  && (bool_decide (sc_name s = []) || word_ok (sc_name s)) && trail_ok (sc_trail s) && forallb item_ok (sc_items s).

Record doc := mkDoc { d_top : list item; d_sects : list sect }.

Definition doc_ok (d : doc) : bool := forallb item_ok (d_top d) && forallb sect_ok (d_sects d).

(** The text of a document. *)
Definition lines_text (ls : list text_line) : list Z := concat (line_text <$> ls).
Definition sect_lines (s : sect) : list text_line := sect_line s :: (item_line <$> sc_items s).
Definition doc_lines (d : doc) : list text_line := (item_line <$> d_top d) ++ concat (sect_lines <$> d_sects d).
Definition render (d : doc) : list Z := lines_text (doc_lines d).

(** ** The lines of a document are good lines *)

Lemma word_ok_spec w : word_ok w = true -> forallb plain w = true /\ first_is solid w = true /\ last_is solid w = true.
Proof. unfold word_ok. by intros [[? ?]%andb_true_iff ?]%andb_true_iff. Qed.

Lemma plain_all_in_line w : forallb plain w = true -> forallb in_line w = true.
Proof. rewrite !forallb_forall. intros H c Hc. by apply plain_in_line, H. Qed.

Lemma blank_all_plain w : forallb blank w = true -> forallb plain w = true.
Proof. rewrite !forallb_forall. intros H c Hc. apply H in Hc. unfold blank in Hc. by apply andb_true_iff in Hc as [? _]. Qed.

Lemma blank_all_space w : forallb blank w = true -> forallb isspace w = true.
Proof. rewrite !forallb_forall. intros H c Hc. apply H in Hc. unfold blank in Hc. by apply andb_true_iff in Hc as [_ ?]. Qed.

Lemma solid_first w : first_is solid w = true -> first_is (fun c => negb (isspace c)) w = true.
Proof. destruct w as [|c w]; [done|]. cbn. unfold solid. by intros [_ ?]%andb_true_iff. Qed.

Lemma solid_last w : last_is solid w = true -> last_is (fun c => negb (isspace c)) w = true.
Proof. unfold last_is. destruct (last w); [|done]. unfold solid. by intros [_ ?]%andb_true_iff. Qed.

Lemma last_is_app f l k : last_is f k = true -> last_is f (l ++ k) = true.
Proof. intros (m & c & -> & Hc)%last_is_split. unfold last_is. by rewrite app_assoc, last_snoc. Qed.

Lemma first_is_app f l k : first_is f l = true -> first_is f (l ++ k) = true.
Proof. by destruct l. Qed.

Lemma good_word_plain w : word_ok w = true -> good_word w.
Proof.
  intros (Hp & Hf & Hl)%word_ok_spec. destruct w as [|c w]; [done|]. split; [done|]. split; [by apply plain_all_in_line|].
  intros p. cbn [scan_chars]. unfold at_start. cbn in Hf. rewrite solid_char by done.
  destruct w as [|d w]; [done|]. apply andb_true_iff in Hp as [_ Hp]. apply scan_plain_solid; [done|].
  unfold last_is in *. by rewrite last_cons_cons in Hl.
Qed.

Lemma quote_char q p b c1 : q = 34 \/ q = 39 ->
  getline_char q p (mkScan b 0 0 false false None c1) = mkScan b 0 0 (q =? 39) (q =? 34) None c1
  /\ getline_char q p (mkScan b 0 0 (q =? 39) (q =? 34) None c1) = mkScan b 0 0 false false None c1.
Proof. by intros [->| ->]. Qed.

Lemma quoted_char q c p b c1 : q = 34 \/ q = 39 -> in_line c = true -> c <> q ->
  exists b', getline_char c p (mkScan b 0 0 (q =? 39) (q =? 34) None (Some c1)) = mkScan b' 0 0 (q =? 39) (q =? 34) None (Some c1)
    /\ (solid c = true -> b' = 0).
Proof.
  intros Hq Hc Hne. destruct (plain c) eqn:Hp.
  - apply plain_blank_or_solid in Hp as [Hb|Hs]; [rewrite blank_char by done|rewrite solid_char by done]; eexists; (split; [done|]); [|done].
    unfold blank, solid in *. rewrite !andb_true_iff, negb_true_iff in *. intros [_ ?]. destruct Hb. congruence.
  - exists b. split; [|unfold solid; by rewrite Hp]. unfold plain in Hp. rewrite Hc in Hp. cbn in Hp. apply negb_false_iff in Hp.
    rewrite !orb_true_iff in Hp. destruct Hq as [->| ->], Hp as [[[?|?]|?]|?]; zbool; subst c; done.
Qed.

Lemma scan_quoted q t p b c1 : q = 34 \/ q = 39 -> forallb (fun c => in_line c && negb (c =? q)) t = true ->
  exists b', scan_chars t p (mkScan b 0 0 (q =? 39) (q =? 34) None (Some c1)) = mkScan b' 0 0 (q =? 39) (q =? 34) None (Some c1).
Proof.
  intros Hq. revert p b. induction t as [|c t IH]; intros p b H; cbn [scan_chars]; [by eexists|].
  apply andb_true_iff in H as [[Hc Hne]%andb_true_iff H]. apply negb_true_iff in Hne. zbool.
  destruct (quoted_char q c p b c1 Hq Hc Hne) as (b' & -> & _). by apply IH.
Qed.

Lemma scan_quotation q t p b c1 : value_ok (VQuoted q t) = true ->
  scan_chars (raw (VQuoted q t)) p (mkScan b 0 0 false false None (Some c1)) = mkScan 0 0 0 false false None (Some c1).
Proof.
  cbn [value_ok raw]. rewrite !andb_true_iff. intros [[Hq Ht] Hl].
  assert (Hq' : q = 34 \/ q = 39) by (apply orb_true_iff in Hq as [?|?]; zbool; auto).
  cbn [scan_chars]. rewrite (proj1 (quote_char q p b (Some c1) Hq')). rewrite scan_chars_app.
  apply last_is_split in Hl as (k & c & -> & Hc). rewrite forallb_app in Ht. apply andb_true_iff in Ht as [Hk Ht].
  rewrite scan_chars_app. destruct (scan_quoted q k (p + 1) b c1 Hq' Hk) as (b1 & ->). cbn [scan_chars].
  cbn in Ht. rewrite andb_true_r in Ht. apply andb_true_iff in Ht as [Hcl Hne]. apply negb_true_iff in Hne. zbool.
  destruct (quoted_char q c (p + 1 + zlen k) b1 c1 Hq' Hcl Hne) as (b2 & -> & Hb2). rewrite Hb2 by done. by apply quote_char.
Qed.

Lemma value_in_line v : value_ok v = true -> forallb in_line (raw v) = true.
Proof.
  destruct v as [v|q t]; cbn [value_ok raw].
  - intros (? & _ & _)%word_ok_spec. by apply plain_all_in_line.
  - rewrite !andb_true_iff. intros [[Hq Ht] _]. cbn. rewrite forallb_app. cbn.
    assert (in_line q = true) as -> by (apply orb_true_iff in Hq as [?|?]; zbool; by subst q). cbn. rewrite andb_true_r.
    rewrite forallb_forall in *. intros c Hc. apply Ht in Hc. by apply andb_true_iff in Hc as [? _].
Qed.

Lemma value_ends v : value_ok v = true ->
  first_is (fun c => negb (isspace c)) (raw v) = true /\ last_is (fun c => negb (isspace c)) (raw v) = true.
Proof.
  destruct v as [v|q t]; cbn [value_ok raw].
  - intros (_ & ? & ?)%word_ok_spec. split; [by apply solid_first|by apply solid_last].
  - rewrite !andb_true_iff. intros [[Hq _] _]. assert (negb (isspace q) = true) by (apply orb_true_iff in Hq as [?|?]; zbool; by subst q).
    split; [done|]. change (q :: t ++ [q]) with ((q :: t) ++ [q]). by apply last_is_app.
Qed.

Lemma key_ok_spec k : key_ok k = true -> word_ok k = true /\ (61 ∉ k) /\ head k <> Some 91.
Proof. unfold key_ok. rewrite !andb_true_iff, !negb_true_iff, !bool_decide_eq_false. by intros [[? ?] ?]. Qed.

Lemma good_word_value k b1 b2 v : key_ok k = true -> forallb blank b1 = true -> forallb blank b2 = true -> value_ok v = true ->
  good_word (k ++ b1 ++ [61] ++ b2 ++ raw v).
Proof.
  intros (Hk & _ & _)%key_ok_spec H1 H2 Hv. destruct v as [v|q t].
  - apply good_word_plain. apply word_ok_spec in Hk as (Hp & Hf & _). apply word_ok_spec in Hv as (Hvp & _ & Hvl).
    unfold word_ok. rewrite !forallb_app. cbn [forallb raw]. rewrite Hp, Hvp, (blank_all_plain b1), (blank_all_plain b2) by done. cbn.
    rewrite first_is_app by done. cbn [app]. by do 2 apply last_is_app; apply (last_is_app solid (61 :: b2)).
  - apply word_ok_spec in Hk as (Hp & Hf & _). destruct k as [|c k]; [done|]. split; [done|]. split.
    { rewrite !forallb_app. rewrite (value_in_line (VQuoted q t)), (blank_in_line b1), (blank_in_line b2), (plain_all_in_line (c :: k)) by done. done. }
    intros p. replace ((c :: k) ++ b1 ++ [61] ++ b2 ++ raw (VQuoted q t)) with ([c] ++ (k ++ b1 ++ [61] ++ b2) ++ raw (VQuoted q t)) by (by rewrite <- !app_assoc).
    rewrite scan_chars_app. cbn [scan_chars]. unfold at_start. cbn in Hf. rewrite solid_char by done. rewrite scan_chars_app.
    change (plain c && forallb plain k = true) in Hp. apply andb_true_iff in Hp as [_ Hp].
    destruct (scan_plain (k ++ b1 ++ [61] ++ b2) (p + zlen [c]) 0 false false p) as (b' & ->).
    { rewrite !forallb_app. rewrite Hp, (blank_all_plain b1), (blank_all_plain b2) by done. done. }
    by apply scan_quotation.
Qed.

Lemma item_text_ok i : item_ok i = true -> text_ok (item_line i).
Proof.
  unfold item_ok. intros [Hlen H]%andb_true_iff. zbool. destruct i as [k b1 b2 v t crlf|w t crlf]; unfold text_ok; cbn [item_line t_word t_trail t_crlf item_word] in *.
  - rewrite !andb_true_iff in H. destruct H as [[[[Hk H1] H2] Hv] Ht]. split; [right; by apply good_word_value|].
    split; [done|]. split; [done|]. destruct k; [by apply key_ok_spec in Hk as [? _]|done].
  - rewrite !andb_true_iff, !negb_true_iff, bool_decide_eq_false, orb_true_iff, bool_decide_eq_true in H. destruct H as [[H Ht] Hne].
    split; [|done]. destruct H as [->|H]; [by left|]. rewrite !andb_true_iff in H. destruct H as [[Hw _] _]. right. by apply good_word_plain.
Qed.

Lemma sect_ok_spec s : sect_ok s = true ->
  zlen (sect_word s) < SIZE_LINE /\ forallb blank (sc_pad1 s) = true /\ forallb blank (sc_pad2 s) = true
  /\ (sc_name s = [] \/ word_ok (sc_name s) = true) /\ trail_ok (sc_trail s) = true /\ forallb item_ok (sc_items s) = true.
Proof.
  unfold sect_ok. rewrite !andb_true_iff, orb_true_iff, bool_decide_eq_true. intros [[[[[? ?] ?] ?] ?] ?]. zbool. done.
Qed.

Lemma name_plain s : sect_ok s = true -> forallb plain (sc_name s) = true.
Proof. intros (_ & _ & _ & [->|(? & _ & _)%word_ok_spec] & _)%sect_ok_spec; done. Qed.

Lemma sect_text_ok s : sect_ok s = true -> text_ok (sect_line s).
Proof.
  intros Hs. pose proof (name_plain s Hs) as Hn. apply sect_ok_spec in Hs as (Hlen & H1 & H2 & _ & Ht & _). unfold text_ok, sect_line. cbn [t_word t_trail].
  split; [right|done]. apply good_word_plain. unfold word_ok, sect_word. rewrite !forallb_app, Hn, (blank_all_plain (sc_pad1 s)), (blank_all_plain (sc_pad2 s)) by done.
  rewrite first_is_app by done. by do 4 apply last_is_app.
Qed.

Lemma GetKeyValue_item k b1 b2 v t crlf : item_ok (IValue k b1 b2 v t crlf) = true ->
  GetKeyValue (item_word (IValue k b1 b2 v t crlf)) = (k, raw v).
Proof.
  intros Hi. pose proof (item_text_ok _ Hi) as ([Hw|(_ & Hw & _)] & _); cbn [item_line t_word] in Hw; [by destruct k, b1|].
  unfold item_ok in Hi. rewrite !andb_true_iff in Hi. destruct Hi as [_ [[[[Hk H1] H2] Hv] _]].
  unfold GetKeyValue. rewrite c_str_in_line by done. cbn [item_word]. apply key_ok_spec in Hk as (Hk & Hne & _).
  assert (E : forall l r, 61 ∉ l -> split_eq (l ++ 61 :: r) = (l, r)).
  { clear. intros l r. induction l as [|c l IH]; intros H; [done|]. apply not_elem_of_cons in H as [Hc H]. cbn. zfalse (c =? 61). by rewrite IH. }
  rewrite app_assoc. cbn [app]. rewrite E.
  - apply word_ok_spec in Hk as (_ & Hf & Hl). apply blank_all_space in H1, H2. f_equal.
    + apply (StrStrip_word [] k b1); [done..|]. right. split; [by apply solid_first|by apply solid_last].
    + rewrite <- (app_nil_r (raw v)) at 1. apply StrStrip_word; [done..|]. right. by apply value_ends.
  - intros [?|Hin]%elem_of_app; [done|]. rewrite forallb_forall in H1. apply list_elem_of_In, H1 in Hin. done.
Qed.

Lemma section_name_sect s : sect_ok s = true -> section_name (sect_word s) = sc_name s.
Proof.
  intros Hs. pose proof (sect_text_ok s Hs) as ([?|(_ & Hw & _)] & _); [done|]. cbn [sect_line t_word] in Hw.
  unfold section_name. rewrite c_str_in_line by done. apply sect_ok_spec in Hs as (_ & H1 & H2 & Hn & _).
  unfold sect_word. replace ([91] ++ sc_pad1 s ++ sc_name s ++ sc_pad2 s ++ [93]) with (([91] ++ sc_pad1 s ++ sc_name s ++ sc_pad2 s) ++ [93]) by (by rewrite <- !app_assoc).
  rewrite removelast_last. cbn [app tail]. apply StrStrip_word; [by apply blank_all_space..|].
  destruct Hn as [?|(_ & ? & ?)%word_ok_spec]; [by left|right]. split; [by apply solid_first|by apply solid_last].
Qed.

Lemma sect_type s : word_type (sect_word s) = LINE_SECTION.
Proof.
  unfold word_type, sect_word. cbn [app head]. rewrite bool_decide_true by done.
  replace (91 :: sc_pad1 s ++ sc_name s ++ sc_pad2 s ++ [93]) with ((91 :: sc_pad1 s ++ sc_name s ++ sc_pad2 s) ++ [93]) by (cbn [app]; by rewrite <- !app_assoc).
  by rewrite last_snoc, bool_decide_true.
Qed.

Lemma value_type k b1 b2 v t crlf : item_ok (IValue k b1 b2 v t crlf) = true -> word_type (item_word (IValue k b1 b2 v t crlf)) = LINE_VALUE.
Proof.
  unfold item_ok. rewrite !andb_true_iff. intros [_ [[[[Hk _] _] _] _]]. apply key_ok_spec in Hk as (Hw & _ & Hh). cbn [item_word].
  destruct k as [|c k]; [done|]. unfold word_type. cbn [app head] in *. rewrite (bool_decide_false (Some c = Some 91)) by done. cbn [andb].
  rewrite bool_decide_true; [done|]. set_solver.
Qed.

Lemma note_type w t crlf : item_ok (INote w t crlf) = true -> word_type w = LINE_EMPTY \/ word_type w = LINE_ERROR.
Proof.
  unfold item_ok. rewrite !andb_true_iff, orb_true_iff, !bool_decide_eq_true. intros [_ [[[->|H] _] _]]; [by left|right].
  rewrite !andb_true_iff, !negb_true_iff, !bool_decide_eq_false in H. destruct H as [[Hw Hn] Hh].
  destruct w as [|c w]; [done|]. unfold word_type. rewrite (bool_decide_false (head _ = _)) by done. cbn [andb]. by rewrite bool_decide_false.
Qed.

(** ** Reading *)

Lemma line_text_head t : text_ok t -> exists c l, line_text t = c :: l /\ in_line c = true.
Proof.
  intros (Hw & _ & Ht & Hne). unfold line_text. rewrite app_assoc.
  assert (H : forallb in_line (t_word t ++ trail_text (t_trail t)) = true).
  { rewrite forallb_app, trail_in_line by done. destruct Hw as [->|(_ & -> & _)]; done. }
  destruct (t_word t ++ trail_text (t_trail t)) as [|c l]; [done|]. eexists c, _. split; [done|]. by apply andb_true_iff in H as [? _].
Qed.

Lemma good_rest_lines ls rest : Forall text_ok ls -> good_rest rest -> good_rest (lines_text ls ++ rest).
Proof.
  intros H Hr. destruct H as [|t ls Ht _]; [done|]. unfold lines_text. cbn. rewrite <- app_assoc.
  destruct (line_text_head t Ht) as (c & l & -> & Hc). exact Hc.
Qed.

Lemma lines_text_app ls1 ls2 : lines_text (ls1 ++ ls2) = lines_text ls1 ++ lines_text ls2.
Proof. unfold lines_text. by rewrite fmap_app, concat_app. Qed.

Lemma lines_text_length ls : Forall text_ok ls -> (length ls <= length (lines_text ls))%nat.
Proof.
  induction 1 as [|t ls Ht _ IH]; [done|]. unfold lines_text in *. cbn. rewrite length_app.
  destruct (line_text_head t Ht) as (c & l & -> & _). cbn. lia.
Qed.

Lemma items_text_ok its : forallb item_ok its = true -> Forall text_ok (item_line <$> its).
Proof.
  rewrite forallb_forall. intros H. apply Forall_fmap, Forall_forall. intros i Hi. apply item_text_ok, H. by apply list_elem_of_In.
Qed.

Lemma sect_lines_ok s : sect_ok s = true -> Forall text_ok (sect_lines s).
Proof. intros Hs. constructor; [by apply sect_text_ok|]. apply sect_ok_spec in Hs as (_ & _ & _ & _ & _ & ?). by apply items_text_ok. Qed.

Lemma sects_text_ok ss : forallb sect_ok ss = true -> Forall text_ok (concat (sect_lines <$> ss)).
Proof.
  induction ss as [|s ss IH]; intros H; [constructor|]. apply andb_true_iff in H as [Hs H]. cbn [fmap list_fmap concat]. apply Forall_app. split; [by apply sect_lines_ok|by apply IH].
Qed.

Definition items_text (its : list item) : list Z := lines_text (item_line <$> its).
Definition sects_text (ss : list sect) : list Z := lines_text (concat (sect_lines <$> ss)).

Lemma items_text_cons i its : items_text (i :: its) = line_text (item_line i) ++ items_text its.
Proof. done. Qed.

Lemma sects_text_cons s ss : sects_text (s :: ss) = line_text (sect_line s) ++ items_text (sc_items s) ++ sects_text ss.
Proof. unfold sects_text, items_text. cbn [fmap list_fmap concat]. rewrite lines_text_app. unfold sect_lines, lines_text. cbn [fmap list_fmap concat]. by rewrite <- app_assoc. Qed.

Lemma render_split d : render d = items_text (d_top d) ++ sects_text (d_sects d).
Proof. unfold render, doc_lines. by rewrite lines_text_app. Qed.

(** What the loops see of a line: [GetLine] of the bytes from it on, and the bytes behind it. *)
Lemma GetLine_item i rest : item_ok i = true -> good_rest rest ->
  exists r2, GetLine (line_text (item_line i) ++ rest)
    = Some (mkLine (word_type (item_word i)) (item_word i)
        (zlen (line_text (item_line i)) - zlen (trail_keep (t_trail (item_line i)) ++ eol (t_crlf (item_line i)))) r2 (zlen (line_text (item_line i)))).
Proof. intros Hi Hr. destruct (GetLine_text (item_line i) rest (item_text_ok i Hi) Hr) as (r2 & E). exists r2. by destruct i. Qed.

Lemma GetLine_sect s rest : sect_ok s = true -> good_rest rest ->
  exists r1 r2, GetLine (line_text (sect_line s) ++ rest) = Some (mkLine LINE_SECTION (sect_word s) r1 r2 (zlen (line_text (sect_line s)))).
Proof.
  intros Hs Hr. destruct (GetLine_text (sect_line s) rest (sect_text_ok s Hs) Hr) as (r2 & E). rewrite E. cbn [sect_line t_word]. rewrite sect_type. by eexists _, _.
Qed.

Lemma drop_line t rest : drop (Z.to_nat (zlen (line_text t))) (line_text t ++ rest) = rest.
Proof. by rewrite Nat2Z.id, drop_app_length. Qed.

Lemma line_not_empty t rest : text_ok t -> (zlen (line_text t ++ rest) <=? 0) = false.
Proof. intros Ht. destruct (line_text_head t Ht) as (c & l & -> & _). apply Z.leb_gt. cbn [app length]. lia. Qed.

Lemma is_section_ci s sc : no_nul s = true -> sect_ok sc = true -> is_section (Some s) (sect_word sc) = ci_eq (sc_name sc) s.
Proof.
  intros Hs Hsc. unfold is_section. rewrite section_name_sect by done. apply same_string_ci; [|done].
  pose proof (name_plain sc Hsc) as Hn. unfold no_nul. rewrite forallb_forall in *. intros c Hc. apply Hn, plain_in_line in Hc.
  unfold in_line in Hc. by rewrite !andb_true_iff in Hc; destruct Hc as [[? _] _].
Qed.

Lemma in_line_no_nul w : forallb in_line w = true -> no_nul w = true.
Proof.
  unfold no_nul. rewrite !forallb_forall. intros H c Hc. apply H in Hc. unfold in_line in Hc. by rewrite !andb_true_iff in Hc; destruct Hc as [[? _] _].
Qed.

Lemma key_no_nul k : key_ok k = true -> no_nul k = true.
Proof. intros ((Hp & _)%word_ok_spec & _)%key_ok_spec. by apply in_line_no_nul, plain_all_in_line. Qed.

(** The value the document gives. *)
Fixpoint items_get (k : list Z) (its : list item) : option value :=
  match its with
  | [] => None
  | IValue k' _ _ v _ _ :: its => if ci_eq k' k then Some v else items_get k its
  | INote _ _ _ :: its => items_get k its
  end.

Fixpoint sects_get (s k : list Z) (ss : list sect) : option value :=
  match ss with
  | [] => None
  | sc :: ss => if ci_eq (sc_name sc) s then items_get k (sc_items sc) else sects_get s k ss
  end.

Definition doc_get (d : doc) (s k : list Z) : option value := sects_get s k (d_sects d).

Section reading.
Context (s key : list Z) (value : option (list Z)) (maxlen : Z) (defvalue : option (list Z)).
Hypothesis Hs : no_nul s = true.
Hypothesis Hk : no_nul key = true.

Abbreviation loop fuel l found := (value_loop fuel (Some s) key l found value maxlen defvalue).
Abbreviation found_value v := (value ← put_value value (raw v) maxlen; Some (1, value)).

(** Lines before the section. *)
Lemma loop_skip its rest fuel : forallb item_ok its = true -> good_rest rest ->
  loop (length its + fuel)%nat (items_text its ++ rest) false = loop fuel rest false.
Proof.
  intros His Hr. induction its as [|i its IH]; [done|]. apply andb_true_iff in His as [Hi His].
  rewrite items_text_cons, <- app_assoc. cbn [length plus value_loop].
  rewrite line_not_empty by (by apply item_text_ok). rewrite <- IH by done.
  destruct (GetLine_item i (items_text its ++ rest) Hi) as (r2 & ->); [by apply good_rest_lines; [apply items_text_ok|]|].
  rewrite bind_Some. cbn [l_type l_next l_content]. rewrite drop_line.
  destruct i as [k b1 b2 v t crlf|w t crlf]; [by rewrite value_type|]. cbn [item_word]. by destruct (note_type w t crlf Hi) as [->| ->].
Qed.

(** Lines of the section. *)
Lemma loop_items its rest fuel : forallb item_ok its = true -> good_rest rest ->
  loop (length its + fuel)%nat (items_text its ++ rest) true
  = match items_get key its with Some v => found_value v | None => loop fuel rest true end.
Proof.
  intros His Hr. induction its as [|i its IH]; [done|]. apply andb_true_iff in His as [Hi His].
  rewrite items_text_cons, <- app_assoc. cbn [length plus value_loop].
  rewrite line_not_empty by (by apply item_text_ok). specialize (IH His).
  destruct (GetLine_item i (items_text its ++ rest) Hi) as (r2 & ->); [by apply good_rest_lines; [apply items_text_ok|]|].
  rewrite bind_Some. cbn [l_type l_next l_content]. rewrite drop_line.
  destruct i as [k b1 b2 v t crlf|w t crlf].
  - rewrite value_type by done. cbn [orb negb]. rewrite GetKeyValue_item by done. cbn [items_get].
    pose proof Hi as Hi'. unfold item_ok in Hi'. rewrite !andb_true_iff in Hi'. destruct Hi' as [_ [[[[Hkey _] _] Hv] _]].
    rewrite same_string_ci by (done || by apply key_no_nul). destruct (ci_eq k key); cbn [negb]; [|exact IH].
    apply value_ends in Hv as [Hf _]. destruct (raw v); done.
  - cbn [item_word items_get]. by destruct (note_type w t crlf Hi) as [->| ->].
Qed.

Lemma loop_end fuel found : loop (S fuel) [] found = put_default value maxlen defvalue.
Proof. done. Qed.

Lemma loop_sects ss fuel : forallb sect_ok ss = true ->
  loop (length (concat (sect_lines <$> ss)) + S fuel)%nat (sects_text ss) false
  = match sects_get s key ss with Some v => found_value v | None => put_default value maxlen defvalue end.
Proof.
  revert fuel. induction ss as [|sc ss IH]; intros fuel H; [done|]. cbn in H. apply andb_true_iff in H as [Hsc H].
  assert (Hrest : good_rest (sects_text ss)) by (rewrite <- (app_nil_r (sects_text ss)); apply good_rest_lines; [by apply sects_text_ok|done]).
  pose proof (sect_ok_spec sc Hsc) as (_ & _ & _ & _ & _ & Hit).
  rewrite sects_text_cons. cbn [fmap list_fmap concat]. rewrite length_app. cbn [sect_lines length plus value_loop].
  rewrite line_not_empty by (by apply sect_text_ok).
  destruct (GetLine_sect sc (items_text (sc_items sc) ++ sects_text ss) Hsc) as (r1 & r2 & ->); [by apply good_rest_lines; [apply items_text_ok|]|].
  rewrite bind_Some. cbn [l_type l_next l_content]. rewrite drop_line. rewrite (bool_decide_false (Some s = None)) by done. cbn [orb].
  rewrite is_section_ci by done. rewrite length_fmap, <- Nat.add_assoc. cbn [sects_get]. destruct (ci_eq (sc_name sc) s).
  - rewrite loop_items by done. destruct (items_get key (sc_items sc)); [done|].
    destruct ss as [|sc2 ss]; [done|]. rewrite sects_text_cons. cbn in H. apply andb_true_iff in H as [Hsc2 H].
    cbn [fmap list_fmap concat sect_lines app length plus]. cbn [value_loop].
    rewrite line_not_empty by (by apply sect_text_ok).
    destruct (GetLine_sect sc2 (items_text (sc_items sc2) ++ sects_text ss) Hsc2) as (r3 & r4 & ->); [|done].
    apply good_rest_lines; [apply items_text_ok; by apply sect_ok_spec in Hsc2 as (_ & _ & _ & _ & _ & ?)|].
    rewrite <- (app_nil_r (sects_text ss)); apply good_rest_lines; [by apply sects_text_ok|done].
  - rewrite loop_skip by done. by apply IH.
Qed.
End reading.

Lemma no_nul_notin s : no_nul s = true -> 0 ∉ s.
Proof. unfold no_nul. rewrite forallb_forall. intros H Hin. apply list_elem_of_In, H in Hin. done. Qed.

Lemma no_nul_take n s : no_nul s = true -> no_nul (take n s) = true.
Proof. unfold no_nul. rewrite !forallb_forall. intros H c Hc. apply H. apply list_elem_of_In in Hc. apply list_elem_of_In.
  apply elem_of_take in Hc as (i & Hi & _). by eapply list_elem_of_lookup_2. Qed.

Lemma put_string_ok m s maxlen : 1 <= maxlen <= zlen m ->
  exists rest, put_string m s (Z.min (zlen s) (maxlen - 1)) = Some (take (Z.to_nat (maxlen - 1)) s ++ 0 :: rest)
    /\ zlen (take (Z.to_nat (maxlen - 1)) s ++ 0 :: rest) = zlen m.
Proof.
  intros Hm. unfold put_string. set (n := Z.min (zlen s) (maxlen - 1)). zfalse (n <? 0).
  assert (take (Z.to_nat n) s = take (Z.to_nat (maxlen - 1)) s) as ->.
  { unfold n. destruct (Z.le_ge_cases (zlen s) (maxlen - 1)); [|f_equal; lia]. rewrite !take_ge by lia. done. }
  set (t := take (Z.to_nat (maxlen - 1)) s). assert (Ht : zlen t = n) by (unfold t, n; rewrite length_take; lia).
  rewrite (wr_bytes_app [] m t) by (cbn; lia). rewrite bind_Some. cbn [app].
  destruct (drop (length t) m) as [|x rest] eqn:E.
  { apply (f_equal length) in E. rewrite length_drop in E. cbn in E. lia. }
  rewrite wr8_at by (done || lia). exists rest. split; [done|].
  apply (f_equal length) in E. rewrite length_drop in E. cbn in E. rewrite length_app. cbn. lia.
Qed.

Lemma strip_quotes_value v rest : value_ok v = true -> exists m', strip_quotes (raw v ++ 0 :: rest) = Some m' /\ c_str m' = meaning v.
Proof.
  intros Hv. assert (Hn : 0 ∉ raw v) by (by apply no_nul_notin, in_line_no_nul, value_in_line). unfold strip_quotes. rewrite c_str_app by done.
  destruct v as [w|q t]; cbn [raw meaning value_ok] in *.
  - apply word_ok_spec in Hv as (Hp & Hf & _). destruct w as [|c w]; [done|]. cbn [app rd8 znth]. change (rd8 (c :: w ++ 0 :: rest) 0) with (Some c).
    rewrite bind_Some. apply andb_true_iff in Hp as [Hc _]. unfold plain in Hc. rewrite andb_true_iff, negb_true_iff, !orb_false_iff in Hc.
    destruct Hc as [_ [[[? ?] _] _]]. rewrite (orb_comm (c =? 39)). replace (c =? 34) with false. replace (c =? 39) with false. cbn [orb negb].
    eexists. split; [done|]. change (c :: w ++ 0 :: rest) with ((c :: w) ++ 0 :: rest). by apply c_str_app.
  - rewrite !andb_true_iff in Hv. destruct Hv as [[Hq Ht] _]. change (rd8 ((q :: t ++ [q]) ++ 0 :: rest) 0) with (Some q). rewrite bind_Some.
    rewrite (orb_comm (q =? 39)), Hq. cbn [negb]. replace (zlen (q :: t ++ [q]) - 1) with (zlen (q :: t)) by (cbn [length]; rewrite length_app; cbn; lia).
    replace ((q :: t ++ [q]) ++ 0 :: rest) with ((q :: t) ++ q :: 0 :: rest) by (cbn; by rewrite <- app_assoc).
    rewrite (rd8_skip (q :: t) _ _ 0) by lia. cbn [lookup list_lookup]. rewrite bind_Some, Z.eqb_refl. cbn [negb].
    rewrite wr8_at by (done || lia). rewrite bind_Some.
    replace ((q :: t) ++ 0 :: 0 :: rest) with ([q] ++ (t ++ [0]) ++ 0 :: rest) by (cbn; by rewrite <- app_assoc).
    rewrite memmove_front by (done || (cbn [length]; rewrite length_app; cbn; lia)). eexists. split; [done|].
    rewrite <- app_assoc. cbn [app]. apply c_str_app. set_solver.
Qed.

(** What an array for [n] characters and the NUL holds of a value: all of it, or the
    first [n] characters of its text, where a quotation mark alone goes too. *)
Definition shown (n : Z) (v : value) : list Z :=
  if zlen (raw v) <=? n then meaning v
  else match v with
       | VQuoted _ _ => if n =? 1 then [] else take (Z.to_nat n) (raw v)
       | VPlain w => take (Z.to_nat n) w
       end.

Lemma elem_of_take_incl {A} n (l : list A) x : x ∈ take n l -> x ∈ l.
Proof. intros Hx. rewrite <- (take_drop n l), elem_of_app. by left. Qed.

Lemma strip_quotes_not m c rest : m = c :: rest -> c <> 34 -> c <> 39 -> strip_quotes m = Some m.
Proof.
  intros -> H1 H2. unfold strip_quotes. change (rd8 (c :: rest) 0) with (Some c). rewrite bind_Some.
  by rewrite (proj2 (Z.eqb_neq c 39)), (proj2 (Z.eqb_neq c 34)).
Qed.

Lemma strip_quotes_open q t rest : q = 34 \/ q = 39 -> 0 < zlen t -> (0 ∉ t) -> (q ∉ t) ->
  strip_quotes (q :: t ++ 0 :: rest) = Some (q :: t ++ 0 :: rest).
Proof.
  intros Hq Hl Hn Hqt. unfold strip_quotes.
  assert (c_str (q :: t ++ 0 :: rest) = q :: t) as ->.
  { change (q :: t ++ 0 :: rest) with ((q :: t) ++ 0 :: rest). apply c_str_app, not_elem_of_cons. split; [lia|done]. }
  change (rd8 (q :: t ++ 0 :: rest) 0) with (Some q). rewrite bind_Some.
  assert ((q =? 39) || (q =? 34) = true) as -> by (by destruct Hq as [->| ->]). cbn [negb].
  destruct (exists_last (l := t)) as (t' & c & ->); [by intros ->|].
  replace (zlen (q :: t' ++ [c]) - 1) with (zlen (q :: t')) by (cbn [length]; rewrite length_app; cbn; lia).
  replace (q :: (t' ++ [c]) ++ 0 :: rest) with ((q :: t') ++ c :: 0 :: rest) by (cbn; by rewrite <- app_assoc).
  rewrite (rd8_skip (q :: t') _ _ 0) by lia. cbn [lookup list_lookup]. rewrite bind_Some.
  rewrite (proj2 (Z.eqb_neq c q)) by (intros ->; apply Hqt, elem_of_app; right; by left). done.
Qed.

(** Whatever of the value the array holds. *)
Lemma strip_quotes_shown v n rest : value_ok v = true -> 0 <= n ->
  exists m', strip_quotes (take (Z.to_nat n) (raw v) ++ 0 :: rest) = Some m' /\ c_str m' = shown n v.
Proof.
  intros Hv Hn. unfold shown. destruct (Z.leb_spec (zlen (raw v)) n) as [Hle|Hgt].
  { rewrite take_ge by lia. by apply strip_quotes_value. }
  assert (Hz : 0 ∉ take (Z.to_nat n) (raw v)).
  { intros Hin%elem_of_take_incl. revert Hin. by apply no_nul_notin, in_line_no_nul, value_in_line. }
  destruct (decide (n = 0)) as [->|Hn0].
  { exists (0 :: rest). change (Z.to_nat 0) with 0%nat. rewrite take_0. split; [by apply (strip_quotes_not _ 0 rest)|]. by destruct v. }
  destruct v as [w|q t]; cbn [raw value_ok] in *.
  - exists (take (Z.to_nat n) w ++ 0 :: rest). split; [|by apply c_str_app].
    apply word_ok_spec in Hv as (Hp & _). destruct w as [|c w]; [cbn [length] in Hgt; lia|]. cbn [forallb] in Hp. apply andb_true_iff in Hp as [Hc _].
    unfold plain in Hc. rewrite andb_true_iff, negb_true_iff, !orb_false_iff in Hc. destruct Hc as [_ [[[? ?] _] _]]. zbool.
    replace (Z.to_nat n) with (S (Z.to_nat (n - 1))) by lia. by eapply strip_quotes_not.
  - rewrite !andb_true_iff, orb_true_iff in Hv. destruct Hv as [[Hq Ht] _]. rewrite !Z.eqb_eq in Hq.
    rewrite length_cons, length_app in Hgt. cbn [length] in Hgt.
    destruct (Z.eqb_spec n 1) as [->|Hn1].
    + exists (0 :: 0 :: rest). split; [|done]. unfold strip_quotes.
      replace (c_str (take (Z.to_nat 1) (q :: t ++ [q]) ++ 0 :: rest)) with [q] by (by destruct Hq as [->| ->]).
      change (take (Z.to_nat 1) (q :: t ++ [q]) ++ 0 :: rest) with ([] ++ q :: 0 :: rest). change (zlen [q] - 1) with (zlen (@nil Z)).
      change (rd8 ([] ++ q :: 0 :: rest) _) with (Some q). rewrite !bind_Some, Z.eqb_refl.
      assert ((q =? 39) || (q =? 34) = true) as -> by (by destruct Hq as [->| ->]). cbn [negb].
      rewrite wr8_at, bind_Some by done. exact (memmove_front [0] [] (0 :: rest) 1 0 eq_refl eq_refl).
    + assert (take (Z.to_nat n) (q :: t ++ [q]) = q :: take (Z.to_nat (n - 1)) t) as E.
      { replace (Z.to_nat n) with (S (Z.to_nat (n - 1))) by lia. cbn [take]. f_equal. rewrite take_app_le by lia. done. }
      rewrite E in *. cbn [app]. eexists. split; [apply strip_quotes_open; try done|].
      * rewrite length_take. lia.
      * intros Hin. apply Hz. by right.
      * intros Hin%elem_of_take_incl. rewrite forallb_forall in Ht. apply list_elem_of_In, Ht in Hin. rewrite Z.eqb_refl, andb_false_r in Hin. done.
      * change (q :: take (Z.to_nat (n - 1)) t ++ 0 :: rest) with ((q :: take (Z.to_nat (n - 1)) t) ++ 0 :: rest). by apply c_str_app.
Qed.

Lemma doc_get_ok d s k v : doc_ok d = true -> doc_get d s k = Some v -> value_ok v = true.
Proof.
  unfold doc_ok, doc_get. intros [_ H]%andb_true_iff. revert H. induction (d_sects d) as [|sc ss IH]; intros H; [done|]. cbn in H.
  apply andb_true_iff in H as [(_ & _ & _ & _ & _ & Hit)%sect_ok_spec H]. cbn [sects_get]. case_match; [|by apply IH].
  clear IH H. induction (sc_items sc) as [|i its IH]; [done|]. apply andb_true_iff in Hit as [Hi Hit]. destruct i as [k' b1 b2 v' t crlf|]; cbn [items_get]; [|by apply IH].
  case_match; [|by apply IH]. intros [= <-]. unfold item_ok in Hi. rewrite !andb_true_iff in Hi. by destruct Hi as [_ [[[_ _] ?] _]].
Qed.

(** The loop over the whole text. *)
Lemma value_loop_doc d s key m maxlen def : doc_ok d = true -> no_nul s = true -> no_nul key = true ->
  value_loop (S (length (render d))) (Some s) key (render d) false (Some m) maxlen def
  = match doc_get d s key with Some v => value ← put_value (Some m) (raw v) maxlen; Some (1, value) | None => put_default (Some m) maxlen def end.
Proof.
  intros Hd Hs Hk. unfold doc_ok in Hd. apply andb_true_iff in Hd as [Ht Hss].
  assert (Hrest : good_rest (sects_text (d_sects d))) by (rewrite <- (app_nil_r (sects_text _)); apply good_rest_lines; [by apply sects_text_ok|done]).
  assert (exists f, S (length (render d)) = (length (d_top d) + (length (concat (sect_lines <$> d_sects d)) + S f))%nat) as (f & ->).
  { exists (length (render d) - (length (d_top d) + length (concat (sect_lines <$> d_sects d))))%nat.
    assert (length (doc_lines d) <= length (render d))%nat.
    { apply lines_text_length. unfold doc_lines. apply Forall_app. split; [by apply items_text_ok|by apply sects_text_ok]. }
    unfold doc_lines in *. rewrite length_app, length_fmap in *. lia. }
  rewrite render_split, loop_skip by done. by apply loop_sects.
Qed.

Lemma get_string_doc d name s k m maxlen def :
  doc_ok d = true -> no_nul s = true -> no_nul k = true -> 1 <= maxlen <= zlen m ->
  match def with Some df => no_nul df = true | None => True end ->
  exists m', iniGetString (mkIni name (Some (render d))) (Some s) (Some k) (Some m) maxlen def
      = Some (match doc_get d s k with Some _ => 1 | None => 0 end, Some m')
    /\ c_str m' = match doc_get d s k with Some v => shown (maxlen - 1) v | None => take (Z.to_nat (maxlen - 1)) (default [] def) end.
Proof.
  intros Hd Hs Hk Hm Hdef. unfold iniGetString, iniGetValue. cbn [gBuffer]. rewrite value_loop_doc by done.
  destruct (doc_get d s k) as [v|] eqn:Hv.
  - apply doc_get_ok in Hv; [|done]. unfold put_value.
    destruct (put_string_ok m (raw v) maxlen Hm) as (rest & -> & _). rewrite !bind_Some. cbn [Z.eqb].
    destruct (strip_quotes_shown v (maxlen - 1) rest Hv) as (m' & E & Hm'); [lia|]. exists m'. by rewrite E.
  - unfold put_default. destruct def as [df|].
    + destruct (put_string_ok m df maxlen Hm) as (rest & -> & _). rewrite !bind_Some. eexists. split; [done|].
      cbn [default from_option id]. apply c_str_app, no_nul_notin. by apply no_nul_take.
    + destruct m as [|x m]; [cbn in Hm; lia|]. change (wr8 (x :: m) 0 0) with (Some (0 :: m)). rewrite !bind_Some. eexists. split; [done|].
      cbn. by rewrite take_nil.
Qed.

(** C26: on the text of a document iniGetString finds what the document says: for a
    section and a key in any spelling of upper and lower case it returns 1 and leaves
    the value of the first such key of the first such section as a string in the
    caller's array - without its quotation marks when it fits, else its first maxlen - 1
    characters, of which an opening quotation mark goes only if it is the only one; for
    what the document does not have it returns 0 and leaves the default, cut to the
    array. The array has at least one byte; no byte outside the arrays is touched, and
    the loop over the lines ends. A document is a text of lines of the following forms,
    each below 1024 bytes: section headers with blanks around the name, keys with blanks
    around the sign and a plain value or one in either quotation marks (comment signs
    inside allowed, no blank before the closing mark), notes and comments, with either
    line end. Not covered are empty lines and comments or quoted texts that end in
    blanks, which the reader gets wrong (inirw.c:104, 153 and 165). *)
Theorem ini_get_reads d name s k m maxlen def :
  doc_ok d = true -> no_nul s = true -> no_nul k = true -> 1 <= maxlen <= zlen m ->
  match def with Some df => no_nul df = true | None => True end ->
  exists m', iniGetString (mkIni name (Some (render d))) (Some s) (Some k) (Some m) maxlen def
      = Some (match doc_get d s k with Some _ => 1 | None => 0 end, Some m')
    /\ c_str m' = match doc_get d s k with Some v => shown (maxlen - 1) v | None => take (Z.to_nat (maxlen - 1)) (default [] def) end.
Proof. apply get_string_doc. Qed.

(** ** Editing *)

(** The items up to the last value, and the rest. *)
Fixpoint split_values (its : list item) : list item * list item :=
  match its with
  | [] => ([], [])
  | i :: its =>
      let '(xs, ys) := split_values its in
      match xs, i with [], INote _ _ _ => ([], i :: ys) | _, _ => (i :: xs, ys) end
  end.

(** The line that replaces a value: a comment stays, blanks at the end of the line go. *)
Definition new_value (k : list Z) (v : value) (t : trail) (crlf : bool) : item :=
  IValue k [32] [32] v (match t with TBlank _ => TBlank [] | _ => t end) crlf.

Fixpoint replace_key (k : list Z) (f : item -> list item) (its : list item) : option (list item) :=
  match its with
  | [] => None
  | i :: its =>
      match i with
      | IValue k' _ _ _ _ _ => if ci_eq k' k then Some (f i ++ its) else cons i <$> replace_key k f its
      | INote _ _ _ => cons i <$> replace_key k f its
      end
  end.

Definition items_set (k : list Z) (v : value) (its : list item) : list item :=
  match replace_key k (fun i => match i with IValue _ _ _ _ t crlf => [new_value k v t crlf] | _ => [i] end) its with
  | Some its => its
  | None => let '(xs, ys) := split_values its in xs ++ [new_value k v (TBlank []) false] ++ ys
  end.
Definition items_del (k : list Z) (its : list item) : option (list item) := replace_key k (fun _ => []) its.

Definition set_items (sc : sect) (its : list item) : sect :=
  mkSect (sc_pad1 sc) (sc_name sc) (sc_pad2 sc) (sc_trail sc) (sc_crlf sc) its.

(** The first section of the name, changed; [None] when there is none or it stays as it is. *)
Fixpoint sects_edit (s : list Z) (f : list item -> option (list item)) (ss : list sect) : option (list sect) :=
  match ss with
  | [] => None
  | sc :: ss =>
      if ci_eq (sc_name sc) s then its ← f (sc_items sc); Some (set_items sc its :: ss)
      else cons sc <$> sects_edit s f ss
  end.

Definition doc_edit (d : doc) (s : list Z) (f : list item -> option (list item)) : option doc :=
  mkDoc (d_top d) <$> sects_edit s f (d_sects d).
Definition doc_set (d : doc) (s k : list Z) (v : value) : option doc := doc_edit d s (fun its => Some (items_set k v its)).
Definition doc_del (d : doc) (s k : list Z) : option doc := doc_edit d s (items_del k).

Lemma split_values_app its : its = (split_values its).1 ++ (split_values its).2.
Proof.
  induction its as [|i its IH]; [done|]. cbn. destruct (split_values its) as [xs ys]. cbn in IH. subst its.
  destruct xs, i; done.
Qed.

Lemma items_text_app xs ys : items_text (xs ++ ys) = items_text xs ++ items_text ys.
Proof. unfold items_text. by rewrite fmap_app, lines_text_app. Qed.

Lemma sects_text_app xs ys : sects_text (xs ++ ys) = sects_text xs ++ sects_text ys.
Proof. unfold sects_text. by rewrite fmap_app, concat_app, lines_text_app. Qed.

Section editing.
Context (s : list Z).
Hypothesis Hs : no_nul s = true.

(** The lines before the section. *)
Lemma find_skip its rest fuel u e nx : forallb item_ok its = true -> good_rest rest ->
  exists e' nx', find_loop (length its + fuel) (Some s) (items_text its ++ rest) u None e nx
    = find_loop fuel (Some s) rest (u + zlen (items_text its)) None e' nx'.
Proof.
  intros Hits Hr. revert u e nx. induction its as [|i its IH]; intros u e nx.
  { exists e, nx. cbn. by rewrite Z.add_0_r. }
  apply andb_true_iff in Hits as [Hi Hits]. rewrite items_text_cons, <- app_assoc. cbn [length plus find_loop].
  rewrite line_not_empty by (by apply item_text_ok).
  destruct (GetLine_item i (items_text its ++ rest) Hi) as (r2 & ->); [by apply good_rest_lines; [apply items_text_ok|]|].
  rewrite bind_Some. cbn [l_type l_next l_content]. rewrite drop_line.
  set (u' := u + zlen (line_text (item_line i))).
  replace (u + zlen (line_text (item_line i) ++ items_text its)) with (u' + zlen (items_text its)) by (rewrite length_app; lia).
  destruct i as [k b1 b2 v t crlf|w t crlf].
  - rewrite value_type by done. rewrite (bool_decide_false (Some s = None)), andb_false_r by done. by apply IH.
  - cbn [item_word]. by destruct (note_type w t crlf Hi) as [->| ->]; apply IH.
Qed.

(** The lines of the section: [empty] is behind the last value. *)
Lemma find_items its rest fuel u fd e nx : forallb item_ok its = true -> good_rest rest ->
  exists nx', find_loop (length its + fuel) (Some s) (items_text its ++ rest) u (Some fd) e nx
    = find_loop fuel (Some s) rest (u + zlen (items_text its)) (Some fd)
        (match (split_values its).1 with [] => e | xs => u + zlen (items_text xs) end) nx'.
Proof.
  intros Hits Hr. revert u e nx. induction its as [|i its IH]; intros u e nx.
  { exists nx. cbn. by rewrite Z.add_0_r. }
  apply andb_true_iff in Hits as [Hi Hits]. rewrite items_text_cons, <- app_assoc. cbn [length plus find_loop].
  rewrite line_not_empty by (by apply item_text_ok).
  destruct (GetLine_item i (items_text its ++ rest) Hi) as (r2 & ->); [by apply good_rest_lines; [apply items_text_ok|]|].
  rewrite bind_Some. cbn [l_type l_next l_content]. rewrite drop_line.
  set (u' := u + zlen (line_text (item_line i))).
  replace (u + zlen (line_text (item_line i) ++ items_text its)) with (u' + zlen (items_text its)) by (rewrite length_app; lia).
  cbn [split_values]. destruct (split_values its) as [xs ys] eqn:Hsp. cbn [fst] in IH.
  assert (Hxs : forall z zs, xs = z :: zs -> u + zlen (items_text (i :: xs)) = u' + zlen (items_text xs)).
  { intros z zs _. rewrite items_text_cons, length_app. unfold u'. lia. }
  destruct i as [k b1 b2 v t crlf|w t crlf].
  - rewrite value_type by done. rewrite (bool_decide_false (Some s = None)), andb_false_r by done.
    destruct (IH Hits u' u' u') as (nx' & ->). exists nx'. f_equal.
    destruct xs as [|z zs]; cbn [fst]; [|by erewrite Hxs]. rewrite items_text_cons, app_nil_r. done.
  - cbn [item_word]. destruct (note_type w t crlf Hi) as [->| ->]; destruct (IH Hits u' e u') as (nx' & ->); exists nx'; f_equal;
      (destruct xs as [|z zs]; cbn [fst]; [done|by erewrite Hxs]).
Qed.

Lemma sects_rest ss : forallb sect_ok ss = true -> good_rest (sects_text ss).
Proof. intros H. rewrite <- (app_nil_r (sects_text ss)). apply good_rest_lines; [by apply sects_text_ok|done]. Qed.

(** The end of the section: the next one, or the end of the text. *)
Lemma find_end ss fuel u fd e nx : forallb sect_ok ss = true ->
  exists nx', find_loop (length (concat (sect_lines <$> ss)) + S fuel) (Some s) (sects_text ss) u (Some fd) e nx
    = Some (Some (mkSection fd.1.1 fd.1.2 fd.2 e nx')).
Proof.
  destruct fd as [[s1 s2] c1]. destruct ss as [|sc ss]; intros H; [by eexists|]. cbn in H. apply andb_true_iff in H as [Hsc H].
  rewrite sects_text_cons. cbn [fmap list_fmap concat sect_lines app length plus find_loop].
  rewrite line_not_empty by (by apply sect_text_ok).
  destruct (GetLine_sect sc (items_text (sc_items sc) ++ sects_text ss) Hsc) as (r3 & r4 & ->).
  { apply good_rest_lines; [apply items_text_ok; by apply sect_ok_spec in Hsc as (_ & _ & _ & _ & _ & ?)|by apply sects_rest]. }
  rewrite bind_Some. cbn [l_type l_next]. rewrite bool_decide_true by done. cbn. by eexists.
Qed.

(** The sections before it, and the section. *)
Lemma find_sects ss fuel u e nx : forallb sect_ok ss = true ->
  (exists ss1 sc ss2 s1 s2 nx', ss = ss1 ++ sc :: ss2 /\ ci_eq (sc_name sc) s = true /\ (forall sc', In sc' ss1 -> ci_eq (sc_name sc') s = false)
     /\ let c1 := u + zlen (sects_text ss1) + zlen (line_text (sect_line sc)) in
        find_loop (length (concat (sect_lines <$> ss)) + S fuel) (Some s) (sects_text ss) u None e nx
        = Some (Some (mkSection s1 s2 c1 (c1 + zlen (items_text (split_values (sc_items sc)).1)) nx')))
  \/ (forall sc', In sc' ss -> ci_eq (sc_name sc') s = false)
     /\ find_loop (length (concat (sect_lines <$> ss)) + S fuel) (Some s) (sects_text ss) u None e nx = Some None.
Proof.
  revert u e nx. induction ss as [|sc ss IH]; intros u e nx H; [right; done|]. cbn in H. apply andb_true_iff in H as [Hsc H].
  pose proof (sects_rest ss H) as Hrest. pose proof (sect_ok_spec sc Hsc) as (_ & _ & _ & _ & _ & Hit).
  rewrite sects_text_cons. cbn [fmap list_fmap concat]. rewrite length_app. cbn [sect_lines length plus find_loop].
  rewrite line_not_empty by (by apply sect_text_ok).
  destruct (GetLine_sect sc (items_text (sc_items sc) ++ sects_text ss) Hsc) as (r1 & r2 & ->); [by apply good_rest_lines; [apply items_text_ok|]|].
  rewrite bind_Some. cbn [l_type l_next l_content l_rem1]. rewrite drop_line. rewrite (bool_decide_false (Some s = None)), bool_decide_false by done. cbn [orb].
  rewrite is_section_ci by done. rewrite length_fmap, <- Nat.add_assoc. set (u' := u + zlen (line_text (sect_line sc))).
  destruct (ci_eq (sc_name sc) s) eqn:Hci.
  - left. destruct (find_items (sc_items sc) (sects_text ss) (length (concat (sect_lines <$> ss)) + S fuel) u' (u, u + r1, u') u' u' Hit Hrest) as (nx1 & ->).
    destruct (find_end ss fuel (u' + zlen (items_text (sc_items sc))) (u, u + r1, u')
      (match (split_values (sc_items sc)).1 with [] => u' | xs => u' + zlen (items_text xs) end) nx1 H) as (nx2 & ->).
    exists [], sc, ss, u, (u + r1), nx2. split; [done|]. split; [done|]. split; [done|]. cbv zeta. cbn [fst snd].
    replace (u + zlen (sects_text []) + zlen (line_text (sect_line sc))) with u' by (unfold u'; cbn; lia).
    do 3 f_equal. destruct (split_values (sc_items sc)).1; [cbn; lia|done].
  - destruct (find_skip (sc_items sc) (sects_text ss) (length (concat (sect_lines <$> ss)) + S fuel) u' u' u' Hit Hrest) as (e1 & nx1 & ->).
    destruct (IH (u' + zlen (items_text (sc_items sc))) e1 nx1 H) as [(ss1 & sc1 & ss2 & s1 & s2 & nx2 & -> & H1 & H2 & ->)|[H1 ->]].
    + left. exists (sc :: ss1), sc1, ss2, s1, s2, nx2. split; [done|]. split; [done|]. split; [by intros sc' [<-|?]; auto|]. cbv zeta.
      rewrite sects_text_cons, !length_app. unfold u'.
      replace (u + Z.of_nat (length (line_text (sect_line sc)) + (length (items_text (sc_items sc)) + length (sects_text ss1))))
        with (u + zlen (line_text (sect_line sc)) + zlen (items_text (sc_items sc)) + zlen (sects_text ss1)) by lia. done.
    + right. split; [|done]. by intros sc' [<-|?]; auto.
Qed.
End editing.

(** The first item of the key, with the items around it. *)
Fixpoint key_at (k : list Z) (its : list item) : option (list item * item * list item) :=
  match its with
  | [] => None
  | i :: its =>
      let later := '(x1, j, x2) ← key_at k its; Some (i :: x1, j, x2) in
      match i with
      | IValue k' _ _ _ _ _ => if ci_eq k' k then Some ([], i, its) else later
      | INote _ _ _ => later
      end
  end.

Lemma replace_key_at k f its : replace_key k f its = '(x1, i, x2) ← key_at k its; Some (x1 ++ f i ++ x2).
Proof.
  induction its as [|i its IH]; [done|]. cbn [replace_key key_at]. destruct i as [k' b1 b2 v t crlf|w t crlf]; [case_match; [done|]|]; rewrite IH;
    by destruct (key_at k its) as [[[x1 j] x2]|].
Qed.

Lemma key_at_split k its x1 i x2 : key_at k its = Some (x1, i, x2) ->
  its = x1 ++ i :: x2 /\ exists k' b1 b2 v t crlf, i = IValue k' b1 b2 v t crlf.
Proof.
  revert x1. induction its as [|j its IH]; intros x1; [done|]. cbn [key_at].
  destruct j as [k' b1 b2 v t crlf|w t crlf]; [case_match|].
  - intros [= <- <- <-]. split; [done|]. by do 6 eexists.
  - destruct (key_at k its) as [[[y1 j] y2]|]; [|done]. cbn. intros [= <- <- <-]. destruct (IH y1 eq_refl) as [-> ?]. done.
  - destruct (key_at k its) as [[[y1 j] y2]|]; [|done]. cbn. intros [= <- <- <-]. destruct (IH y1 eq_refl) as [-> ?]. done.
Qed.

(** The key is among the items up to the last value. *)
Lemma key_at_values k its : key_at k its = '(x1, i, x2) ← key_at k (split_values its).1; Some (x1, i, x2 ++ (split_values its).2).
Proof.
  induction its as [|i its IH]; [done|]. pose proof (split_values_app its) as Happ. cbn [key_at split_values].
  destruct (split_values its) as [xs ys]. cbn [fst snd] in *. subst its.
  destruct i as [k' b1 b2 v t crlf|w t crlf].
  - assert (E : forall xs : list item, ci_eq k' k = false ->
      ('(x1, j, x2) ← '(x1, i, x2) ← key_at k xs; Some (x1, i, x2 ++ ys); Some (IValue k' b1 b2 v t crlf :: x1, j, x2))
      = ('(x1, i, x2) ← key_at k (IValue k' b1 b2 v t crlf :: xs); Some (x1, i, x2 ++ ys))).
    { intros zs E. cbn [key_at]. rewrite E. by destruct (key_at k zs) as [[[x1 j] x2]|]. }
    destruct xs as [|x xs]; cbn [fst snd]; destruct (ci_eq k' k) eqn:Hci; rewrite ?IH; (try by apply E); cbn [key_at]; by rewrite Hci.
  - rewrite IH. destruct xs as [|x xs]; [done|]. cbn [fst snd].
    change (key_at k (INote w t crlf :: x :: xs)) with ('(x1, j, x2) ← key_at k (x :: xs); Some (INote w t crlf :: x1, j, x2)).
    by destruct (key_at k (x :: xs)) as [[[x1 j] x2]|].
Qed.

Lemma key_loop_items key its fuel p : no_nul key = true -> forallb item_ok its = true ->
  key_loop (length its + S fuel) key (items_text its) p
  = Some ('(x1, i, _) ← key_at key its;
          let q := p + zlen (items_text x1) in
          Some (q, q + (zlen (line_text (item_line i)) - zlen (trail_keep (t_trail (item_line i)) ++ eol (t_crlf (item_line i)))), q + zlen (line_text (item_line i)))).
Proof.
  intros Hk. revert p. induction its as [|i its IH]; intros p Hits; [done|]. apply andb_true_iff in Hits as [Hi Hits].
  rewrite items_text_cons. cbn [length plus key_loop]. rewrite line_not_empty by (by apply item_text_ok).
  destruct (GetLine_item i (items_text its) Hi) as (r2 & ->); [rewrite <- (app_nil_r (items_text its)); apply good_rest_lines; [by apply items_text_ok|done]|].
  rewrite bind_Some. cbn [l_type l_next l_content l_rem1]. rewrite drop_line, IH by done. cbn [key_at].
  assert (Hlater : forall j,
    (('(x1, i0, _) ← key_at key its; let q := p + zlen (line_text (item_line i)) + zlen (items_text x1) in
       Some (q, q + (zlen (line_text (item_line i0)) - zlen (trail_keep (t_trail (item_line i0)) ++ eol (t_crlf (item_line i0)))), q + zlen (line_text (item_line i0)))) = j)
    -> ('(x1, i0, _) ← '(x1, j, x2) ← key_at key its; Some (i :: x1, j, x2); let q := p + zlen (items_text x1) in
       Some (q, q + (zlen (line_text (item_line i0)) - zlen (trail_keep (t_trail (item_line i0)) ++ eol (t_crlf (item_line i0)))), q + zlen (line_text (item_line i0)))) = j).
  { intros j <-. destruct (key_at key its) as [[[x1 i0] x2]|]; [|done]. cbn [mbind option_bind]. rewrite items_text_cons, length_app. cbv zeta.
    replace (p + Z.of_nat (length (line_text (item_line i)) + length (items_text x1))) with (p + zlen (line_text (item_line i)) + zlen (items_text x1)) by lia. done. }
  destruct i as [k' b1 b2 v t crlf|w t crlf].
  - rewrite value_type, GetKeyValue_item by done. pose proof Hi as Hi'. unfold item_ok in Hi'. rewrite !andb_true_iff in Hi'. destruct Hi' as [_ [[[[Hkey _] _] _] _]].
    rewrite same_string_ci by (done || by apply key_no_nul). destruct (ci_eq k' key).
    + cbn [mbind option_bind]. cbv zeta. do 2 f_equal. cbn [items_text lines_text fmap list_fmap concat length]. f_equal; [f_equal|]; unfold items_text, lines_text; cbn [fmap list_fmap concat length]; lia.
    + f_equal. symmetry. by apply Hlater.
  - cbn [item_word]. destruct (note_type w t crlf Hi) as [->| ->]; f_equal; symmetry; by apply Hlater.
Qed.

Lemma upto_app l r n : n = zlen l -> upto (l ++ r) n = l.
Proof. intros ->. unfold upto. by rewrite Nat2Z.id, take_app_length. Qed.

Lemma behind_app l r n : n = zlen l -> behind (l ++ r) n = r.
Proof. intros ->. unfold behind. by rewrite Nat2Z.id, drop_app_length. Qed.

Lemma line_keep t : exists pre, line_text t = pre ++ trail_keep (t_trail t) ++ eol (t_crlf t).
Proof.
  destruct t as [w [bs|bs sign text] crlf]; unfold line_text; cbn [t_word t_trail t_crlf trail_keep trail_text].
  - exists (w ++ bs). by rewrite <- app_assoc.
  - by exists w.
Qed.

(** What is written: the bytes around the line of the key, or behind the last value. *)
Definition edited (A C file k : list Z) (xs : list item) (val : option (list Z)) : Z * list Z :=
  match key_at k xs, val with
  | Some (x1, i, x2), Some v =>
      (1, A ++ items_text x1 ++ (k ++ assign ++ v ++ trail_keep (t_trail (item_line i)) ++ eol (t_crlf (item_line i))) ++ items_text x2 ++ C)
  | Some (x1, i, x2), None => (1, A ++ items_text x1 ++ items_text x2 ++ C)
  | None, Some v => (1, A ++ items_text xs ++ (k ++ assign ++ v ++ [LF]) ++ C)
  | None, None => (0, file)
  end.

Lemma edit_bytes name A xs C file s k val s1 s2 nx c1 : no_nul k = true -> forallb item_ok xs = true -> c1 = zlen A ->
  FindSection (mkIni name (Some (A ++ items_text xs ++ C))) s = Some (Some (mkSection s1 s2 c1 (c1 + zlen (items_text xs)) nx)) ->
  iniSetString true (mkIni name (Some (A ++ items_text xs ++ C))) file s k val = Some (edited A C file k xs val).
Proof.
  intros Hk Hxs Hc1 Hf. unfold iniSetString. cbn [gBuffer]. rewrite Hf, bind_Some. cbv zeta. cbn [cont1_ cont2_].
  rewrite (behind_app A (items_text xs ++ C) c1 Hc1). rewrite (upto_app (items_text xs) C) by lia.
  assert (exists f, S (length (A ++ items_text xs ++ C)) = (length xs + S f)%nat) as (f & ->).
  { exists (length (A ++ items_text xs ++ C) - length xs)%nat. pose proof (lines_text_length (item_line <$> xs) (items_text_ok xs Hxs)) as H.
    rewrite length_fmap in H. unfold items_text. rewrite !length_app. lia. }
  rewrite key_loop_items by done. unfold edited. rewrite bind_Some. destruct (key_at k xs) as [[[x1 i] x2]|] eqn:Hat.
  - cbn [mbind option_bind]. cbv zeta. apply key_at_split in Hat as [-> _]. rewrite items_text_app, items_text_cons.
    destruct (line_keep (item_line i)) as (pre & Hpre). set (keep := trail_keep _ ++ _) in *. cbn [negb].
    replace (A ++ (items_text x1 ++ line_text (item_line i) ++ items_text x2) ++ C)
      with ((A ++ items_text x1) ++ line_text (item_line i) ++ items_text x2 ++ C) by (by rewrite <- !app_assoc).
    rewrite upto_app by (rewrite length_app; lia). destruct val as [v|].
    + rewrite Hpre. replace ((A ++ items_text x1) ++ (pre ++ keep) ++ items_text x2 ++ C) with ((A ++ items_text x1 ++ pre) ++ keep ++ items_text x2 ++ C)
        by (by rewrite <- !app_assoc).
      rewrite behind_app by (rewrite !length_app; lia). unfold keep. by rewrite <- !app_assoc.
    + replace ((A ++ items_text x1) ++ line_text (item_line i) ++ items_text x2 ++ C) with ((A ++ items_text x1 ++ line_text (item_line i)) ++ items_text x2 ++ C)
        by (by rewrite <- !app_assoc).
      rewrite behind_app by (rewrite !length_app; lia). by rewrite <- !app_assoc.
  - cbn [mbind option_bind negb]. destruct val as [v|]; [|done]. rewrite (app_assoc A).
    rewrite upto_app, behind_app by (rewrite !length_app; lia). by rewrite <- !app_assoc.
Qed.

Lemma items_text_one i : items_text [i] = line_text (item_line i).
Proof. by rewrite items_text_cons, app_nil_r. Qed.

Lemma new_value_text k v t crlf : line_text (item_line (new_value k v t crlf)) = k ++ assign ++ raw v ++ trail_keep t ++ eol crlf.
Proof.
  unfold line_text, new_value. cbn [item_line item_word t_word t_trail t_crlf]. unfold assign. rewrite <- !app_assoc. cbn [app].
  do 4 f_equal. destruct t; done.
Qed.

(** The text of the changed items. *)
Lemma items_set_text k v its : 
  let xs := (split_values its).1 in let ys := (split_values its).2 in
  items_text (items_set k v its) = match key_at k xs with
    | Some (x1, i, x2) => items_text x1 ++ (k ++ assign ++ raw v ++ trail_keep (t_trail (item_line i)) ++ eol (t_crlf (item_line i))) ++ items_text x2 ++ items_text ys
    | None => items_text xs ++ (k ++ assign ++ raw v ++ [LF]) ++ items_text ys
    end.
Proof.
  cbv zeta. unfold items_set. rewrite replace_key_at, (key_at_values k its). destruct (split_values its) as [xs ys]. cbn [fst snd].
  destruct (key_at k xs) as [[[x1 i] x2]|] eqn:Hat; cbn [mbind option_bind].
  - apply key_at_split in Hat as [_ (k' & b1 & b2 & v' & t & crlf & ->)]. cbn [item_line t_trail t_crlf].
    by rewrite !items_text_app, items_text_one, new_value_text.
  - rewrite !items_text_app, items_text_one, new_value_text. done.
Qed.

(** *** The changed document *)

Lemma ci_eq_spec a b : ci_eq a b = true <-> to_lower <$> a = to_lower <$> b.
Proof. apply bool_decide_eq_true. Qed.

Lemma ci_eq_trans_l a b c : ci_eq a b = true -> ci_eq a c = ci_eq b c.
Proof. intros H%ci_eq_spec. unfold ci_eq. by rewrite H. Qed.

Lemma ci_eq_sym a b : ci_eq a b = ci_eq b a.
Proof. unfold ci_eq. by apply bool_decide_ext. Qed.

Lemma sects_edit_at s f ss1 sc ss2 : ci_eq (sc_name sc) s = true -> (forall sc', In sc' ss1 -> ci_eq (sc_name sc') s = false) ->
  sects_edit s f (ss1 ++ sc :: ss2) = its ← f (sc_items sc); Some (ss1 ++ set_items sc its :: ss2).
Proof.
  intros Hci. induction ss1 as [|sc1 ss1 IH]; intros H; cbn [app sects_edit]; [by rewrite Hci|].
  rewrite H by (by left). rewrite IH by (intros; apply H; by right). by destruct (f (sc_items sc)).
Qed.

Lemma sects_edit_none s f ss : (forall sc, In sc ss -> ci_eq (sc_name sc) s = false) -> sects_edit s f ss = None.
Proof.
  induction ss as [|sc ss IH]; intros H; [done|]. cbn [sects_edit]. rewrite H by (by left). by rewrite IH by (intros; apply H; by right).
Qed.

(** The bytes around the values of a section. *)
Lemma render_around top ss1 sc ss2 :
  render (mkDoc top (ss1 ++ sc :: ss2))
  = (items_text top ++ sects_text ss1 ++ line_text (sect_line sc)) ++ items_text (sc_items sc) ++ sects_text ss2.
Proof. rewrite render_split. cbn [d_top d_sects]. by rewrite sects_text_app, sects_text_cons, <- !app_assoc. Qed.

(** iniSetString on a document, when it has the section and when it has not. *)
Lemma set_string_doc d name file s k val : doc_ok d = true -> no_nul s = true -> no_nul k = true ->
  (exists ss1 sc ss2, d_sects d = ss1 ++ sc :: ss2 /\ ci_eq (sc_name sc) s = true /\ (forall sc', In sc' ss1 -> ci_eq (sc_name sc') s = false)
     /\ iniSetString true (mkIni name (Some (render d))) file (Some s) k val
        = Some (edited (items_text (d_top d) ++ sects_text ss1 ++ line_text (sect_line sc))
                  (items_text (split_values (sc_items sc)).2 ++ sects_text ss2) file k (split_values (sc_items sc)).1 val))
  \/ (forall sc, In sc (d_sects d) -> ci_eq (sc_name sc) s = false)
     /\ FindSection (mkIni name (Some (render d))) (Some s) = Some None.
Proof.
  intros Hd Hs Hk. destruct d as [top ss]. unfold doc_ok in Hd. cbn [d_top d_sects] in *. apply andb_true_iff in Hd as [Ht Hss].
  pose proof (sects_rest ss Hss) as Hrest.
  assert (exists f, S (length (render (mkDoc top ss))) = (length top + (length (concat (sect_lines <$> ss)) + S f))%nat) as (f & Hf).
  { exists (length (render (mkDoc top ss)) - (length top + length (concat (sect_lines <$> ss))))%nat.
    assert (length (doc_lines (mkDoc top ss)) <= length (render (mkDoc top ss)))%nat.
    { apply lines_text_length. unfold doc_lines. apply Forall_app. split; [by apply items_text_ok|by apply sects_text_ok]. }
    unfold doc_lines in *. cbn [d_top d_sects] in *. rewrite length_app, length_fmap in *. lia. }
  assert (Hfs : exists e' nx', FindSection (mkIni name (Some (render (mkDoc top ss)))) (Some s)
    = find_loop (length (concat (sect_lines <$> ss)) + S f) (Some s) (sects_text ss) (0 + zlen (items_text top)) None e' nx').
  { unfold FindSection. cbn [gBuffer]. rewrite Hf, render_split. cbn [d_top d_sects]. by apply find_skip. }
  destruct Hfs as (e' & nx' & Hfs).
  destruct (find_sects s Hs ss f (0 + zlen (items_text top)) e' nx' Hss) as [(ss1 & sc & ss2 & s1 & s2 & nx & -> & Hci & Hno & E)|[Hno E]];
    rewrite E in Hfs; clear E; [left|by right].
  exists ss1, sc, ss2. split; [done|]. split; [done|]. split; [done|]. cbv zeta in Hfs.
  assert (Hr : render (mkDoc top (ss1 ++ sc :: ss2)) = (items_text top ++ sects_text ss1 ++ line_text (sect_line sc))
      ++ items_text (split_values (sc_items sc)).1 ++ (items_text (split_values (sc_items sc)).2 ++ sects_text ss2)).
  { rewrite render_around, (app_assoc (items_text (split_values (sc_items sc)).1)), <- items_text_app. by rewrite <- split_values_app. }
  rewrite Hr in *. clear Hr.
  rewrite forallb_app in Hss. cbn [forallb] in Hss. rewrite !andb_true_iff in Hss. destruct Hss as [_ [(_ & _ & _ & _ & _ & Hit)%sect_ok_spec _]].
  rewrite (split_values_app (sc_items sc)), forallb_app in Hit. apply andb_true_iff in Hit as [Hxs _].
  eapply edit_bytes; [done|done| |exact Hfs]. rewrite !length_app. lia.
Qed.

Lemma doc_edit_at d s f ss1 sc ss2 : d_sects d = ss1 ++ sc :: ss2 -> ci_eq (sc_name sc) s = true ->
  (forall sc', In sc' ss1 -> ci_eq (sc_name sc') s = false) ->
  doc_edit d s f = its ← f (sc_items sc); Some (mkDoc (d_top d) (ss1 ++ set_items sc its :: ss2)).
Proof. intros E H1 H2. unfold doc_edit. rewrite E, sects_edit_at by done. by destruct (f (sc_items sc)). Qed.

Lemma set_string_set d name file s k v d' : doc_ok d = true -> no_nul s = true -> no_nul k = true -> doc_set d s k v = Some d' ->
  iniSetString true (mkIni name (Some (render d))) file (Some s) k (Some (raw v)) = Some (1, render d').
Proof.
  intros Hd Hs Hk. destruct (set_string_doc d name file s k (Some (raw v)) Hd Hs Hk) as [(ss1 & sc & ss2 & E & H1 & H2 & ->)|[H _]]; unfold doc_set.
  - rewrite (doc_edit_at d s _ ss1 sc ss2) by done. cbn [mbind option_bind]. intros [= <-]. f_equal.
    rewrite render_around. cbn [set_items sc_items]. rewrite items_set_text. unfold edited.
    change (sect_line (set_items sc _)) with (sect_line sc).
    destruct (key_at k (split_values (sc_items sc)).1) as [[[x1 i] x2]|]; by rewrite <- !app_assoc.
  - unfold doc_edit. by rewrite sects_edit_none.
Qed.

Lemma set_string_del d name file s k : doc_ok d = true -> no_nul s = true -> no_nul k = true ->
  iniSetString true (mkIni name (Some (render d))) file (Some s) k None
  = Some (match doc_del d s k with Some d' => (1, render d') | None => (0, file) end).
Proof.
  intros Hd Hs Hk. destruct (set_string_doc d name file s k None Hd Hs Hk) as [(ss1 & sc & ss2 & E & H1 & H2 & ->)|[H Hf]]; unfold doc_del.
  - rewrite (doc_edit_at d s _ ss1 sc ss2) by done. f_equal. unfold items_del, edited. rewrite replace_key_at, (key_at_values k (sc_items sc)).
    destruct (key_at k (split_values (sc_items sc)).1) as [[[x1 i] x2]|]; cbn [mbind option_bind]; [|done]. f_equal.
    rewrite render_around. cbn [set_items sc_items app]. change (sect_line (set_items sc _)) with (sect_line sc).
    by rewrite !items_text_app, <- !app_assoc.
  - unfold doc_edit. rewrite sects_edit_none by done. unfold iniSetString. cbn [gBuffer]. by rewrite Hf.
Qed.

Definition entry_ok (k : list Z) (v : value) : bool := key_ok k && value_ok v && (zlen k + 3 + zlen (raw v) <? SIZE_LINE).

Lemma new_value_ok k v t crlf : entry_ok k v = true -> trail_ok t = true -> item_ok (new_value k v t crlf) = true.
Proof.
  unfold entry_ok, item_ok, new_value. rewrite !andb_true_iff. intros [[Hk Hv] Hl] Ht. split.
  - cbn [item_word]. rewrite !length_app. cbn. zbool. apply Z.ltb_lt. lia.
  - rewrite Hk, Hv. by destruct t.
Qed.

Lemma forallb_app_iff {A} (f : A -> bool) l k : forallb f (l ++ k) = true <-> forallb f l = true /\ forallb f k = true.
Proof. by rewrite forallb_app, andb_true_iff. Qed.

Lemma items_set_ok k v its : entry_ok k v = true -> forallb item_ok its = true -> forallb item_ok (items_set k v its) = true.
Proof.
  intros He Hi. unfold items_set. rewrite replace_key_at. destruct (key_at k its) as [[[x1 i] x2]|] eqn:Hat; cbn [mbind option_bind].
  - apply key_at_split in Hat as [-> (k' & b1 & b2 & v' & t & crlf & ->)]. apply forallb_app_iff in Hi as [H1 H2].
    cbn [forallb] in H2. apply andb_true_iff in H2 as [H2 H3]. apply forallb_app_iff. split; [done|]. cbn [app forallb]. rewrite H3, new_value_ok; [done|done|].
    unfold item_ok in H2. rewrite !andb_true_iff in H2. by destruct H2 as [_ [_ ?]].
  - rewrite (split_values_app its) in Hi. destruct (split_values its) as [xs ys]. cbn [fst snd] in Hi. apply forallb_app_iff in Hi as [H1 H2].
    apply forallb_app_iff. split; [done|]. cbn [app forallb]. by rewrite H2, new_value_ok.
Qed.

Lemma items_del_ok k its its' : forallb item_ok its = true -> items_del k its = Some its' -> forallb item_ok its' = true.
Proof.
  intros Hi. unfold items_del. rewrite replace_key_at. destruct (key_at k its) as [[[x1 i] x2]|] eqn:Hat; [|done]. cbn. intros [= <-].
  apply key_at_split in Hat as [-> _]. apply forallb_app_iff in Hi as [H1 H2]. cbn in H2. apply andb_true_iff in H2 as [_ H2]. by apply forallb_app_iff.
Qed.

Lemma doc_edit_ok d s f d' : doc_ok d = true -> (forall its its', forallb item_ok its = true -> f its = Some its' -> forallb item_ok its' = true) ->
  doc_edit d s f = Some d' -> doc_ok d' = true.
Proof.
  unfold doc_ok, doc_edit. intros [Ht H]%andb_true_iff Hf. destruct (sects_edit s f (d_sects d)) as [ss'|] eqn:E; [|done]. cbn [fmap option_fmap option_map].
  intros [= <-]. cbn [d_top d_sects]. rewrite Ht. cbn [andb]. revert ss' E. induction (d_sects d) as [|sc ss IH]; intros ss'; [done|].
  cbn in H. apply andb_true_iff in H as [Hsc H]. cbn [sects_edit]. case_match.
  - destruct (f (sc_items sc)) as [its|] eqn:Hits; [|done]. cbn. intros [= <-]. apply andb_true_iff. split; [|done].
    unfold sect_ok in *. rewrite !andb_true_iff in *. destruct Hsc as [Hsc Hit]. split; [done|]. by eapply Hf.
  - destruct (sects_edit s f ss) as [ss1|]; [|done]. cbn. intros [= <-]. apply andb_true_iff. split; [done|]. by apply IH.
Qed.

(** *** Sessions *)

Inductive ini_op := OSet (s k : list Z) (v : value) | ODel (s k : list Z).

(** The file is loaded and edited: a set or a deletion. *)
Definition run_op (malloc : Z -> bool) (name file : list Z) (op : ini_op) : option (Z * list Z) :=
  ini ← parser_ini_load malloc name (Some file);
  match op with
  | OSet s k v => iniSetString true ini file (Some s) k (Some (raw v))
  | ODel s k => iniSetString true ini file (Some s) k None
  end.

Fixpoint run_ops (malloc : Z -> bool) (name file : list Z) (ops : list ini_op) : option (list Z * list Z) :=
  match ops with
  | [] => Some ([], file)
  | op :: ops =>
      '(r, file) ← run_op malloc name file op;
      '(rs, file) ← run_ops malloc name file ops;
      Some (r :: rs, file)
  end.

(** The result and the document afterwards. *)
Definition op_doc (d : doc) (op : ini_op) : Z * doc :=
  match (match op with OSet s k v => doc_set d s k v | ODel s k => doc_del d s k end) with
  | Some d => (1, d)
  | None => (0, d)
  end.

Fixpoint ops_doc (d : doc) (ops : list ini_op) : list Z * doc :=
  match ops with
  | [] => ([], d)
  | op :: ops => let '(r, d) := op_doc d op in let '(rs, d) := ops_doc d ops in (r :: rs, d)
  end.

(** What is set has a section already and can be written on a line. *)
Definition op_ok (d : doc) (op : ini_op) : bool :=
  match op with
  | OSet s k v => no_nul s && entry_ok k v && existsb (fun sc => ci_eq (sc_name sc) s) (d_sects d)
  | ODel s k => no_nul s && no_nul k
  end.

Fixpoint ops_ok (d : doc) (ops : list ini_op) : bool :=
  match ops with [] => true | op :: ops => op_ok d op && ops_ok (op_doc d op).2 ops end.

Lemma set_exists d s k v : doc_ok d = true -> op_ok d (OSet s k v) = true -> exists d', doc_set d s k v = Some d'.
Proof.
  intros Hd Hop. cbn [op_ok] in Hop. rewrite !andb_true_iff in Hop. destruct Hop as [[Hs He] (sc & Hin & Hci)%existsb_exists].
  assert (Hk : no_nul k = true) by (unfold entry_ok in He; rewrite !andb_true_iff in He; destruct He as [[? _] _]; by apply key_no_nul).
  destruct (set_string_doc d [] [] s k None Hd Hs Hk) as [(ss1 & sc' & ss2 & E & H1 & H2 & _)|[H _]].
  - unfold doc_set. rewrite (doc_edit_at d s _ ss1 sc' ss2) by done. by eexists.
  - exfalso. rewrite H in Hci; done.
Qed.

Lemma op_step malloc d name op file : (forall n, malloc n = true) -> zlen name < SIZE_FILENAME -> doc_ok d = true -> op_ok d op = true ->
  file = render d ->
  run_op malloc name file op = Some ((op_doc d op).1, render (op_doc d op).2) /\ doc_ok (op_doc d op).2 = true.
Proof.
  intros Hm Hn Hd Hop ->. unfold run_op, parser_ini_load. rewrite !Hm. zfalse (zlen name >=? SIZE_FILENAME). cbn [negb].
  rewrite bind_Some. destruct op as [s k v|s k]; unfold op_doc.
  - destruct (set_exists d s k v Hd Hop) as (d' & E). cbn [op_ok] in Hop. rewrite !andb_true_iff in Hop. destruct Hop as [[Hs He] _].
    assert (Hk : no_nul k = true) by (unfold entry_ok in He; rewrite !andb_true_iff in He; destruct He as [[? _] _]; by apply key_no_nul).
    rewrite (set_string_set d name (render d) s k v d' Hd Hs Hk E). rewrite E. split; [done|]. cbn [snd].
    eapply doc_edit_ok; [done| |exact E]. intros its its' Hi [= <-]. by apply items_set_ok.
  - cbn [op_ok] in Hop. apply andb_true_iff in Hop as [Hs Hk]. rewrite set_string_del by done. destruct (doc_del d s k) as [d'|] eqn:E; (split; [done|]); cbn [snd]; [|done].
    eapply doc_edit_ok; [done| |exact E]. intros its its' Hi. by apply items_del_ok.
Qed.

(** C24: for a document, editing the file is editing the document: as long as memory is
    allocated, the file can be opened and its name has fewer than 256 characters, a
    session of sets and deletions of keys, each of which loads the file and writes it
    anew, takes the text of a document to the text of the edited document - a set key
    keeps its place, the line end and the comment of its line, a new key comes behind
    the last value of its section, a deleted key goes with its line, every other byte
    stays - and reports 1 for each change made. What is set is a key and a value of the
    forms of a document that fit a line, in a section the document has (a section that
    is added cuts the value before it, inirw.c:444). A document is a text of lines of
    the following forms, each below 1024 bytes: section headers with blanks around the
    name, keys with blanks around the sign and a plain value or one in either quotation
    marks (comment signs inside allowed, no blank before the closing mark), notes and
    comments, with either line end. Not covered are empty lines and comments or quoted
    texts that end in blanks, which the reader gets wrong (inirw.c:104, 153 and 165). *)
Theorem ini_session malloc d name ops :
  (forall n, malloc n = true) -> zlen name < SIZE_FILENAME -> doc_ok d = true -> ops_ok d ops = true ->
  run_ops malloc name (render d) ops = Some ((ops_doc d ops).1, render (ops_doc d ops).2) /\ doc_ok (ops_doc d ops).2 = true.
Proof.
  intros Hm Hn. revert d. induction ops as [|op ops IH]; intros d Hd Hops; [done|]. cbn [ops_ok] in Hops. apply andb_true_iff in Hops as [Hop Hops].
  destruct (op_step malloc d name op (render d) Hm Hn Hd Hop eq_refl) as [E Hd']. cbn [run_ops ops_doc]. rewrite E, bind_Some.
  destruct (op_doc d op) as [r d1]. cbn [fst snd] in *. destruct (IH d1 Hd' Hops) as [-> ?]. rewrite bind_Some.
  by destruct (ops_doc d1 ops) as [rs d2].
Qed.

(** *** What is set is read *)

Lemma items_get_app k xs ys : items_get k (xs ++ ys) = match items_get k xs with Some v => Some v | None => items_get k ys end.
Proof. induction xs as [|[k' b1 b2 v t crlf|w t crlf] xs IH]; [done| |exact IH]. cbn. rewrite IH. by destruct (ci_eq k' k). Qed.

Lemma key_at_none k its : key_at k its = None -> items_get k its = None.
Proof.
  induction its as [|[k' b1 b2 v t crlf|w t crlf] its IH]; [done| |]; cbn [key_at items_get].
  - case_match; [done|]. destruct (key_at k its) as [[[x1 i] x2]|]; [done|]. by auto.
  - destruct (key_at k its) as [[[x1 i] x2]|]; [done|]. by auto.
Qed.

Lemma key_at_first k its x1 i x2 : key_at k its = Some (x1, i, x2) -> items_get k x1 = None
  /\ exists k' b1 b2 v t crlf, i = IValue k' b1 b2 v t crlf /\ ci_eq k' k = true.
Proof.
  revert x1. induction its as [|j its IH]; intros x1; [done|]. cbn [key_at].
  destruct j as [k' b1 b2 v t crlf|w t crlf]; [destruct (ci_eq k' k) eqn:Hci|].
  - intros [= <- <- <-]. split; [done|]. by do 6 eexists.
  - destruct (key_at k its) as [[[y1 j] y2]|]; [|done]. cbn. intros [= <- <- <-]. destruct (IH y1 eq_refl) as [H ?]. cbn. by rewrite Hci.
  - destruct (key_at k its) as [[[y1 j] y2]|]; [|done]. cbn. intros [= <- <- <-]. by apply (IH y1).
Qed.

Lemma items_get_set k k' v its : items_get k' (items_set k v its) = if ci_eq k k' then Some v else items_get k' its.
Proof.
  unfold items_set. rewrite replace_key_at. destruct (key_at k its) as [[[x1 i] x2]|] eqn:Hat; cbn [mbind option_bind].
  - pose proof (key_at_split _ _ _ _ _ Hat) as [-> _]. apply key_at_first in Hat as [H1 (k1 & b1 & b2 & v1 & t & crlf & -> & Hci)].
    rewrite !items_get_app. cbn [app items_get new_value]. rewrite (ci_eq_trans_l k1 k k' Hci). destruct (ci_eq k k') eqn:E; [|done].
    assert (items_get k' x1 = items_get k x1) as ->; [|by rewrite H1].
    clear H1. induction x1 as [|[]]; [done| |done]. cbn. rewrite IHx1. rewrite (ci_eq_sym _ k'), <- (ci_eq_trans_l k k' _ E), ci_eq_sym. done.
  - apply key_at_none in Hat. rewrite (split_values_app its) in Hat. rewrite (split_values_app its) at 2. destruct (split_values its) as [xs ys]. cbn [fst snd] in *.
    rewrite !items_get_app in *. cbn [items_get new_value app]. destruct (ci_eq k k') eqn:E; [|done].
    assert (items_get k' xs = items_get k xs) as ->; [|by destruct (items_get k xs)].
    clear Hat. induction xs as [|[]]; [done| |done]. cbn. rewrite IHxs. rewrite (ci_eq_sym _ k'), <- (ci_eq_trans_l k k' _ E), ci_eq_sym. done.
Qed.

Lemma doc_get_set d s k v d' s' k' : doc_set d s k v = Some d' ->
  doc_get d' s' k' = if ci_eq s s' && ci_eq k k' then Some v else doc_get d s' k'.
Proof.
  unfold doc_set, doc_edit, doc_get. destruct (sects_edit s _ (d_sects d)) as [ss'|] eqn:E; [|done]. cbn. intros [= <-]. cbn [d_sects].
  revert ss' E. induction (d_sects d) as [|sc ss IH]; intros ss'; [done|]. cbn [sects_edit]. destruct (ci_eq (sc_name sc) s) eqn:Hci.
  - cbn. intros [= <-]. cbn [sects_get set_items sc_name sc_items]. rewrite (ci_eq_trans_l _ _ s' Hci). destruct (ci_eq s s'); cbn [andb].
    + apply items_get_set.
    + done.
  - destruct (sects_edit s _ ss) as [ss1|]; [|done]. cbn. intros [= <-]. cbn [sects_get]. rewrite (IH ss1 eq_refl).
    destruct (ci_eq s s') eqn:Hs; cbn [andb]; [|done].
    assert (ci_eq (sc_name sc) s' = false) as ->; [|done]. by rewrite (ci_eq_sym _ s'), <- (ci_eq_trans_l s s' _ Hs), ci_eq_sym.
Qed.

(** C25: reading back from a document: as long as memory is allocated, the file can be
    opened and its name has fewer than 256 characters, after iniSetString has set a key
    of a section that the document has to a value (key and value of the forms of a
    document, fitting a line), loading the file again and asking iniGetString for any
    section and key gives the value that was set if they are the same but for the case
    of letters, and otherwise what the document gave before - cut to the caller's array,
    of at least one byte, when it does not fit. A document is a text of lines of the
    following forms, each below 1024 bytes: section headers with blanks around the name,
    keys with blanks around the sign and a plain value or one in either quotation marks
    (comment signs inside allowed, no blank before the closing mark), notes and
    comments, with either line end. Not covered are empty lines and comments or quoted
    texts that end in blanks, which the reader gets wrong (inirw.c:104, 153 and 165). *)
Theorem ini_set_get malloc d name s k v r file' s' k' m maxlen :
  (forall n, malloc n = true) -> zlen name < SIZE_FILENAME -> doc_ok d = true -> op_ok d (OSet s k v) = true ->
  no_nul s' = true -> no_nul k' = true ->
  let found := if ci_eq s s' && ci_eq k k' then Some v else doc_get d s' k' in
  1 <= maxlen <= zlen m ->
  run_op malloc name (render d) (OSet s k v) = Some (r, file') ->
  r = 1 /\ exists ini m', parser_ini_load malloc name (Some file') = Some ini
    /\ iniGetString ini (Some s') (Some k') (Some m) maxlen None = Some (match found with Some _ => 1 | None => 0 end, Some m')
    /\ c_str m' = match found with Some v => shown (maxlen - 1) v | None => [] end.
Proof.
  intros Hm Hn Hd Hop Hs' Hk' found Hmax Hrun.
  destruct (op_step malloc d name (OSet s k v) (render d) Hm Hn Hd Hop eq_refl) as [E Hd']. rewrite E in Hrun.
  destruct (set_exists d s k v Hd Hop) as (d' & Hset).
  unfold op_doc in *. rewrite Hset in *. cbn [fst snd] in *. injection Hrun as <- <-. split; [done|].
  unfold parser_ini_load. rewrite !Hm. zfalse (zlen name >=? SIZE_FILENAME). cbn [negb].
  assert (Hg : doc_get d' s' k' = found) by (unfold found; by apply doc_get_set).
  destruct (get_string_doc d' name s' k' m maxlen None) as (m' & Hget & Hc); [done..|]. rewrite Hg in *.
  eexists _, m'. split; [done|]. split; [done|]. rewrite Hc. destruct found; [done|]. cbn. by rewrite take_nil.
Qed.

(** ** A file *)

Definition text (s : string) : list Z := (fun a => Z.of_nat (nat_of_ascii a)) <$> list_ascii_of_string s.

(** [#top], a section [Net] with three values, a note and CR LF line ends in places, and a
    section with a padded name. *)
Definition sample : doc :=
  mkDoc [INote [] (TComment [] 35 (text "top")) false]
    [mkSect [] (text "Net") [] (TComment [32] 59 (text " the net")) false
       [IValue (text "host") [32] [32] (VQuoted 34 (text "a;b # c")) (TComment [9; 32] 59 (text "quoted")) true;
        IValue (text "Port") [] [32; 32] (VPlain (text "80 a=b")) (TBlank [32; 32]) false;
        INote [] (TComment [32] 35 (text "note")) false];
     mkSect [32] (text "log") [32] (TBlank []) true
       [IValue (text "level") [32] [32] (VQuoted 39 (text "it")) (TBlank []) false; INote (text "no sign") (TBlank []) false]].

Lemma ini_get_reads_witness :
  doc_get sample (text "NET") (text "Host") = Some (VQuoted 34 (text "a;b # c"))
  /\ exists m', iniGetString (mkIni [] (Some (render sample))) (Some (text "NET")) (Some (text "Host")) (Some (zeros 32)) 32 None = Some (1, Some m')
       /\ c_str m' = text "a;b # c".
Proof.
  split; [by vm_compute|].
  exact (ini_get_reads sample [] (text "NET") (text "Host") (zeros 32) 32 None eq_refl eq_refl eq_refl ltac:(by vm_compute) I).
Defined.

Definition sample_ops : list ini_op :=
  [OSet (text "net") (text "PORT") (VPlain (text "8080")); OSet (text "Net") (text "proto") (VQuoted 34 (text "tcp"));
   ODel (text "log") (text "LEVEL"); ODel (text "log") (text "none")].

Lemma ini_session_witness :
  run_ops (fun _ => true) [] (render sample) sample_ops = Some ([1; 1; 1; 0], render (ops_doc sample sample_ops).2)
  /\ doc_ok (ops_doc sample sample_ops).2 = true.
Proof. exact (ini_session (fun _ => true) sample [] sample_ops (fun _ => eq_refl) eq_refl eq_refl ltac:(by vm_compute)). Defined.

Lemma ini_set_get_witness :
  exists file' m', run_op (fun _ => true) [] (render sample) (OSet (text "net") (text "PORT") (VPlain (text "8080"))) = Some (1, file')
    /\ iniGetString (mkIni [] (Some file')) (Some (text "Net")) (Some (text "port")) (Some (zeros 8)) 8 None = Some (1, Some m')
    /\ c_str m' = text "8080".
Proof.
  eexists. 
  destruct (ini_set_get (fun _ => true) sample [] (text "net") (text "PORT") (VPlain (text "8080")) 1 _ (text "Net") (text "port") (zeros 8) 8
    (fun _ => eq_refl) eq_refl eq_refl eq_refl eq_refl eq_refl ltac:(by vm_compute) ltac:(vm_compute; reflexivity))
    as (_ & ini & m' & Hl & Hg & Hc).
  injection Hl as <-. exists m'. split; [vm_compute; reflexivity|]. split; [exact Hg|exact Hc].
Defined.

(** ** What GetLine gets wrong *)

Definition content (s : string) : option (ELineType * list Z) := t ← GetLine (text s); Some (l_type t, l_content t).

(** An empty line behind a line takes its last character. *)
Example empty_line_cuts : content ("k=12" +:+ String "010" (String "010" "x")) = Some (LINE_VALUE, text "k=1").
Proof. by vm_compute. Qed.

(** So the section that iniSetString adds to a file cuts the last value of the file. *)
Example new_section_cuts :
  let d := mkDoc [] [mkSect [] (text "a") [] (TBlank []) false [IValue (text "k") [32] [32] (VPlain (text "12")) (TBlank []) false]] in
  ('(r, file) ← iniSetString true (mkIni [] (Some (render d))) (render d) (Some (text "b")) (text "x") (Some (text "1"));
   '(r, m) ← iniGetString (mkIni [] (Some file)) (Some (text "a")) (Some (text "k")) (Some (zeros 8)) 8 None; c_str <$> m)
  = Some (text "1").
Proof. by vm_compute. Qed.

(** A blank at the end of a comment takes a character of the value; a comment of blanks only is
    a copy of negative length when the value is short. *)
Example blank_after_comment : content "k=12 ;note " = Some (LINE_VALUE, text "k=1").
Proof. by vm_compute. Qed.
Example comment_of_blanks : content "a ; " = None.
Proof. by vm_compute. Qed.

