(* ===== verification/DataBuffer.v ===== *)
(** * fun_buffer/data_buffer.c: a text buffer

    The memory behind [contents] is the list of its bytes.  Whether an allocation
    succeeds is an argument of the operation that asks for it; [fresh n] is what
    [realloc] puts behind the old bytes.  A text formatted by the C library is an
    argument of the operations that format it. *)

From stdpp Require Import prelude.
From S2P Require Import Prelude CMem.

Record Buffer := mkBuffer {
  db_contents : list Z;
  db_bytes_used : Z;
  db_total_size : Z
}.

(** [inl]: the null pointer. *)
Abbreviation buffer_ptr := (option Buffer).

(** The conversion of a [size_t] to [int]. *)
Definition int_of_size (x : Z) : Z := let y := u32 x in if y <? 2 ^ 31 then y else y - 2 ^ 32.

Section data_buffer.
Context (fresh : Z -> list Z).

(** Without memory for the characters, [buffer_free] frees the pointer of a
    structure that has none yet. *)
Definition buffer_alloc (malloc calloc : bool) (initial_size : Z) : option buffer_ptr :=
  let tmp := calloc && (0 <=? initial_size) in
  match malloc, tmp with
  | true, true => Some (Some (mkBuffer (zeros initial_size) 0 initial_size))
  | true, false => None
  | false, _ => Some None
  end.

Definition buffer_strlen (buf : Buffer) : Z := db_bytes_used buf.

(** 0 for yes, 1 for no. *)
Definition buffer_has_space (buf : Buffer) (desired_length : Z) : Z :=
  let bytes_remaining := db_total_size buf - db_bytes_used buf in
  if desired_length <=? bytes_remaining then 0 else 1.

Definition buffer_grow (realloc : bool) (buf : Buffer) (minimum_size : Z) : option (Z * Buffer) :=
  let factor := db_total_size buf in
  let factor := if factor <? minimum_size then minimum_size else factor in
  return_if 2 ^ 31 <=? factor * 2 with None ;;
  let new_size := factor * 2 in
  return_if negb realloc with Some (-1, buf) ;;
  Some (0, mkBuffer (take (Z.to_nat new_size) (db_contents buf)
                       ++ drop (length (db_contents buf)) (fresh new_size))
             (db_bytes_used buf) new_size).

Definition buffer_cat (buf : Buffer) (append : list Z) (length : Z) : option Buffer :=
  let buffer_position := db_bytes_used buf in
  contents ← memcpy (db_contents buf) buffer_position append 0 length;
  return_if 2 ^ 31 <=? db_bytes_used buf + length with None ;;
  Some (mkBuffer contents (db_bytes_used buf + length) (db_total_size buf)).

(** [jump_to_error_unless (A)] jumps if [A] holds, like [jump_to_error_if (A)]. *)
Definition buffer_append (realloc : bool) (buf : Buffer) (append : list Z) (length : Z)
    : option (Z * Buffer) :=
  return_if 2 ^ 31 <=? length + 1 with None ;;
  let desired_length := length + 1 in
  if buffer_has_space buf desired_length =? 0
  then '(status, buf) ← buffer_grow realloc buf desired_length;
       return_if status =? 0 with Some (-1, buf) ;;
       buf ← buffer_cat buf append length; Some (0, buf)
  else buf ← buffer_cat buf append length; Some (0, buf).

(** [text]: what the format gives, [None] if it fails.  A null [tmp] is printed. *)
Definition buffer_appendf (malloc realloc : bool) (buf : Buffer) (text : option (list Z))
    : option (Z * Buffer) :=
  match text with
  | None => Some (-1, buf)
  | Some text =>
      return_if negb malloc with None ;;
      '(status, buf) ← buffer_append realloc buf (text ++ [0]) (zlen text);
      return_if status =? 0 with Some (-1, buf) ;;
      Some (0, buf)
  end.

(** [length] is a [size_t], the size of [tmp] an [int]; a negative one is more than
    there is.  [length] bytes are appended, those behind a shorter text are zero. *)
Definition buffer_nappendf (calloc realloc : bool) (buf : Buffer) (length : Z) (text : option (list Z))
    : option (Z * Buffer) :=
  let printf_length := int_of_size (length + 1) in
  return_if negb (calloc && (0 <=? printf_length)) with Some (-1, buf) ;;
  match text with
  | None => Some (-1, buf)
  | Some text =>
      let written := take (Z.to_nat (printf_length - 1)) text in
      let tmp := written ++ zeros (printf_length - zlen written) in
      '(status, buf) ← buffer_append realloc buf tmp (int_of_size length);
      return_if status =? 0 with Some (-1, buf) ;;
      Some (0, buf)
  end.

(** The string [strncpy] leaves in [result]. *)
Definition buffer_to_string (calloc : bool) (buf : Buffer) : option (list Z) :=
  return_if negb calloc with None ;;
  Some (c_str (take (Z.to_nat (buffer_strlen buf)) (db_contents buf) ++ [0])).

(** ** What an append does *)

Context (fresh_length : forall n, 0 <= n -> zlen (fresh n) = n).

(** The buffer holds the bytes [c]. *)
Definition buffer_holds (buf : Buffer) (c : list Z) : Prop :=
  exists rest, db_contents buf = c ++ rest /\ db_bytes_used buf = zlen c
    /\ db_total_size buf = zlen (c ++ rest) /\ zlen (c ++ rest) < 2 ^ 31.

Lemma buffer_alloc_holds n : 0 <= n < 2 ^ 31 ->
  exists buf, buffer_alloc true true n = Some (Some buf) /\ buffer_holds buf [].
Proof.
  intros Hn. unfold buffer_alloc. ztrue (0 <=? n). eexists. split; [done|].
  exists (zeros n). cbn. rewrite zeros_length. split_and!; done || lia.
Qed.

Lemma buffer_cat_spec buf c append n :
  buffer_holds buf c -> 0 <= n <= zlen append ->
  match buffer_cat buf append n with
  | Some buf' => n <= db_total_size buf - zlen c /\ buffer_holds buf' (c ++ take (Z.to_nat n) append)
                 /\ db_total_size buf' = db_total_size buf
  | None => db_total_size buf - zlen c < n
  end.
Proof.
  intros (rest & Hm & Hu & Ht & Hlt) Hn. unfold buffer_cat. rewrite Hm, Hu, Ht in *.
  rewrite length_app in *. destruct (decide (n <= zlen rest)) as [Hr|Hr].
  - rewrite memcpy_app, bind_Some by done. zfalse (2 ^ 31 <=? zlen c + n).
    cbn [db_total_size]. split; [lia|]. split; [|done].
    exists (drop (Z.to_nat n) rest). cbn. rewrite <- app_assoc. split; [done|]. len.
  - unfold memcpy, rd_bytes. ztrue ((0 <=? 0) && (0 <=? n) && (0 + n <=? zlen append)).
    rewrite bind_Some. unfold wr_bytes. rewrite drop_0, length_take, length_app.
    zfalse ((0 <=? zlen c) && (zlen c + Z.of_nat (Z.to_nat n `min` length append) <=? Z.of_nat (length c + length rest))).
    cbn. lia.
Qed.

Lemma buffer_grow_spec realloc buf c m :
  buffer_holds buf c -> m <= db_total_size buf -> 2 * db_total_size buf < 2 ^ 31 ->
  exists buf', buffer_grow realloc buf m = Some (if realloc then 0 else -1, buf')
    /\ buffer_holds buf' c /\ db_total_size buf' = (if realloc then 2 * db_total_size buf else db_total_size buf).
Proof.
  intros Hc Hle Hb. pose proof Hc as (rest & Hm & Hu & Ht & Hlt). unfold buffer_grow. zfalse (db_total_size buf <? m).
  zfalse (2 ^ 31 <=? db_total_size buf * 2). destruct realloc; cbn [negb].
  - eexists. split; [done|]. cbn [db_total_size]. split; [|lia]. rewrite Hm, Ht in *.
    pose proof (fresh_length (zlen (c ++ rest) * 2) ltac:(lia)) as Hf.
    exists (rest ++ drop (length (c ++ rest)) (fresh (zlen (c ++ rest) * 2))). cbn [db_contents db_bytes_used db_total_size].
    rewrite take_ge by lia. rewrite app_assoc. split; [done|]. split; [done|].
    rewrite length_app in *. rewrite !length_app, length_drop. lia.
  - by exists buf.
Qed.

(** The result of an append of the [n] bytes [t] to the bytes [c] of a buffer of
    [total] bytes: with room for them and a NUL the buffer is doubled and nothing is
    appended, unless memory is short; without, what fits exactly is appended and
    everything longer is written behind the buffer. *)
Definition append_result (realloc : bool) (total : Z) (c t : list Z) : option (Z * list Z) :=
  if zlen c + zlen t <? total then Some (if realloc then (-1, c) else (0, c ++ t))
  else if zlen c + zlen t =? total then Some (0, c ++ t)
  else None.

Lemma append_spec realloc buf c append n :
  buffer_holds buf c -> 0 <= n <= zlen append -> n < 2 ^ 31 - 1 -> 2 * db_total_size buf < 2 ^ 31 ->
  match buffer_append realloc buf append n with
  | Some (status, buf') =>
      exists c', append_result realloc (db_total_size buf) c (take (Z.to_nat n) append) = Some (status, c')
        /\ buffer_holds buf' c'
        /\ db_total_size buf' = (if status =? 0 then db_total_size buf else 2 * db_total_size buf)
  | None => append_result realloc (db_total_size buf) c (take (Z.to_nat n) append) = None
  end.
Proof.
  intros Hb Hn Hmax Ht. unfold buffer_append, buffer_has_space, append_result.
  rewrite length_take, Nat.min_l by lia. rewrite Z2Nat.id by lia.
  zfalse (2 ^ 31 <=? n + 1). pose proof Hb as (rest & _ & Hu & _). rewrite Hu.
  assert (0 <= zlen c) by lia.
  destruct (Z.leb_spec (n + 1) (db_total_size buf - zlen c)).
  - ztrue (zlen c + n <? db_total_size buf). cbn [Z.eqb].
    destruct (buffer_grow_spec realloc buf c (n + 1) Hb) as (buf1 & -> & Hb1 & Ht1); [lia..|].
    rewrite bind_Some. destruct realloc; cbn [Z.eqb].
    + by exists c.
    + pose proof (buffer_cat_spec buf1 c append n Hb1 Hn) as Hc.
      destruct (buffer_cat buf1 append n) as [buf2|]; [|lia]. rewrite bind_Some. cbn [Z.eqb].
      eexists. split; [done|]. split; [apply Hc|]. rewrite <- Ht1. apply Hc.
  - zfalse (zlen c + n <? db_total_size buf). cbn [Z.eqb].
    pose proof (buffer_cat_spec buf c append n Hb Hn) as Hc.
    destruct (buffer_cat buf append n) as [buf2|].
    + rewrite bind_Some. ztrue (zlen c + n =? db_total_size buf). cbn [Z.eqb].
      eexists. split; [done|]. apply Hc.
    + cbn. by zfalse (zlen c + n =? db_total_size buf).
Qed.

(** A run of appends, each with the answer of [realloc], and what each returns. *)
Fixpoint buffer_appends (buf : Buffer) (ops : list (bool * list Z)) : option (list Z * Buffer) :=
  match ops with
  | [] => Some ([], buf)
  | (realloc, t) :: ops =>
      '(status, buf) ← buffer_append realloc buf t (zlen t);
      '(out, buf) ← buffer_appends buf ops;
      Some (status :: out, buf)
  end.

(** The texts whose append returned 0. *)
Definition appended (ops : list (bool * list Z)) (out : list Z) : list Z :=
  mjoin ((fun p : (bool * list Z) * Z => if p.2 =? 0 then p.1.2 else []) <$> zip ops out).

Lemma appends_hold ops buf c :
  buffer_holds buf c -> db_total_size buf * 2 ^ zlen ops < 2 ^ 31 ->
  Forall (fun op => zlen op.2 < 2 ^ 31 - 1) ops ->
  match buffer_appends buf ops with
  | Some (out, buf') => buffer_holds buf' (c ++ appended ops out) /\ length out = length ops
  | None => True
  end.
Proof.
  revert buf c. induction ops as [|[r t] ops IH]; intros buf c Hb Ht Hops.
  { cbn. by rewrite app_nil_r. }
  inversion_clear Hops as [|? ? Hlen Hops']. cbn [snd] in Hlen. cbn [buffer_appends].
  assert (0 <= db_total_size buf) by (destruct Hb as (? & _ & _ & -> & _); lia).
  cbn [length] in Ht. rewrite Nat2Z.inj_succ, Z.pow_succ_r in Ht by lia.
  assert (0 < 2 ^ zlen ops) by lia.
  pose proof (append_spec r buf c t (zlen t) Hb ltac:(lia) Hlen ltac:(nia)) as H1.
  destruct (buffer_append r buf t (zlen t)) as [[status buf1]|]; [|done]. rewrite bind_Some.
  rewrite Nat2Z.id, firstn_all in H1. destruct H1 as (c' & Hr & Hb1 & Ht1).
  assert (db_total_size buf1 * 2 ^ zlen ops < 2 ^ 31) as Ht2 by (rewrite Ht1; case_if; nia).
  specialize (IH buf1 c' Hb1 Ht2 Hops').
  destruct (buffer_appends buf1 ops) as [[out buf2]|]; [|done]. rewrite bind_Some.
  destruct IH as [IH Hl]. split; [|cbn; by rewrite Hl].
  unfold appended in *. cbn [zip zip_with fmap list_fmap mjoin list_join fst snd].
  replace (c ++ _) with (c' ++ mjoin ((fun p : (bool * list Z) * Z => if p.2 =? 0 then p.1.2 else []) <$> zip ops out)); [done|].
  unfold append_result in Hr. rewrite app_assoc. f_equal.
  revert Hr. repeat case_if; intros Hr; try discriminate; injection Hr as <- <-;
    cbn [Z.eqb] in *; rewrite ?app_nil_r; done.
Qed.

(** Whatever the run of appends and whatever [realloc] answers, the buffer holds,
    in their order, exactly the texts whose append returned 0. *)
Theorem buffer_session n ops buf out buf' :
  0 <= n -> n * 2 ^ zlen ops < 2 ^ 31 -> Forall (fun op => zlen op.2 < 2 ^ 31 - 1) ops ->
  buffer_alloc true true n = Some (Some buf) -> buffer_appends buf ops = Some (out, buf') ->
  buffer_holds buf' (appended ops out) /\ length out = length ops.
Proof.
  intros Hn Ht Hops Ha Hr. destruct (buffer_alloc_holds n) as (buf0 & Ha' & Hb).
  { split; [done|]. assert (0 < 2 ^ zlen ops) by lia. nia. }
  assert (buf0 = buf) as -> by congruence.
  assert (db_total_size buf = n) as Htn.
  { unfold buffer_alloc in Ha. cbn [andb] in Ha. destruct (0 <=? n); [|done]. by injection Ha as <-. }
  pose proof (appends_hold ops buf [] Hb ltac:(by rewrite Htn) Hops) as H. by rewrite Hr in H.
Qed.

(** With memory to be had an append succeeds only if the text fills the buffer to
    the last byte: with room to spare it returns -1 and appends nothing, and a
    longer text is written behind the buffer. *)
Theorem buffer_append_fails buf c t :
  buffer_holds buf c -> zlen t < 2 ^ 31 - 1 -> 2 * db_total_size buf < 2 ^ 31 ->
  match buffer_append true buf t (zlen t) with
  | Some (0, buf') => zlen c + zlen t = db_total_size buf /\ buffer_holds buf' (c ++ t)
  | Some (status, buf') => status = -1 /\ zlen c + zlen t < db_total_size buf /\ buffer_holds buf' c
  | None => db_total_size buf < zlen c + zlen t
  end.
Proof.
  intros Hb Hl Ht. pose proof (append_spec true buf c t (zlen t) Hb ltac:(lia) Hl Ht) as H.
  rewrite Nat2Z.id, firstn_all in H. unfold append_result in H.
  destruct (buffer_append true buf t (zlen t)) as [[status buf']|].
  - destruct H as (c' & Hr & Hb' & _). revert Hr. repeat case_if; intros Hr; zbool; try discriminate;
      by injection Hr as <- <-.
  - revert H. repeat case_if; intros H; zbool; try discriminate. lia.
Qed.

(** [buffer_appendf] turns the answer round: 0 says that nothing was appended. *)
Theorem buffer_appendf_inverts realloc buf text :
  buffer_appendf true realloc buf (Some text)
  = '(status, buf') ← buffer_append realloc buf (text ++ [0]) (zlen text);
    Some (if status =? 0 then -1 else 0, buf').
Proof.
  unfold buffer_appendf. cbn [negb]. destruct (buffer_append _ _ _ _) as [[status buf']|]; [|done].
  rewrite !bind_Some. by destruct (status =? 0).
Qed.
End data_buffer.

(** ** Concrete runs *)

Definition four : Buffer := mkBuffer [0; 0; 0; 0] 0 4.

(** Room for the text and its NUL: the buffer grows and the text is dropped. *)
Example room_is_failure :
  buffer_append (fun n => zeros n) true four [97; 98] 2 = Some (-1, mkBuffer (zeros 8) 0 8).
Proof. reflexivity. Qed.

(** No room: the text is written behind the buffer. *)
Example no_room_overflows : buffer_append (fun n => zeros n) true four [97; 98; 99; 100; 101] 5 = None.
Proof. reflexivity. Qed.

(** The buffer filled to the last byte, and its text. *)
Example full_is_success :
  exists buf, buffer_append (fun n => zeros n) true four [97; 98; 99; 100] 4 = Some (0, buf)
    /\ buffer_to_string true buf = Some [97; 98; 99; 100].
Proof. eexists. split; reflexivity. Qed.

Lemma buffer_session_witness :
  buffer_holds (mkBuffer [97; 98; 99; 100; 0; 0; 0; 0] 4 8) [97; 98; 99; 100].
Proof.
  apply (buffer_session (fun n => zeros n) ltac:(intros n Hn; rewrite zeros_length; lia) 8
           [(false, [97; 98]); (false, [99; 100])] (mkBuffer (zeros 8) 0 8) [0; 0]);
    first [lia | reflexivity | repeat constructor; cbn; lia].
Defined.
