(* ===== verification/Ymodem.v ===== *)
(** * fun_protocol/ymodem/ymodem.c: the Y-modem sender and receiver

    [Receive_Byte] and [Send_Byte] belong to the porting layer, whose bodies are
    empty in the repository: a [serial] line is the sequence of what [Receive_Byte] will
    deliver - a byte, or a timeout; timeouts for ever when the sequence is used up -
    and the bytes sent so far.  Arrays that are not initialised have arbitrary
    contents, given as arguments. *)

From stdpp Require Import prelude.
From S2P Require Import Prelude CMem.

(** ** ymodem.h *)

Definition PACKET_HEADER : Z := 3.
Definition PACKET_OVERHEAD : Z := 5.
Definition PACKET_128B_SIZE : Z := 128.
Definition PACKET_1KB_SIZE : Z := 1024.
Definition FILE_NAME_LENGTH : Z := 256.
Definition FILE_SIZE_LENGTH : Z := 16.
Definition SOH : Z := 0x01.
Definition STX : Z := 0x02.
Definition EOT : Z := 0x04.
Definition ACK : Z := 0x06.
Definition NAK : Z := 0x15.
Definition CA : Z := 0x18.
Definition CRC16 : Z := 0x43.
Definition MAX_ERRORS : Z := 5.

(** ** The line *)

Record serial := mkLine { rx : list (option Z); tx : list Z }.

Definition Send_Byte (l : serial) (c : Z) : serial := mkLine (rx l) (tx l ++ [c]).

Definition Receive_Byte (l : serial) : option Z * serial :=
  match rx l with
  | [] => (None, l)
  | r :: rx => (r, mkLine rx (tx l))
  end.

(** ** Numbers *)

(** [intnum / Div] and [intnum % Div] are computed as [uint32_t]. *)
Definition Int2Str_step (s : list Z * Z * Z * Z * Z) : option (list Z * Z * Z * Z * Z) :=
  let '(str, j, intnum, Div, Status) := s in
  return_if Div =? 0 with None ;;
  str ← wr8 str j (intnum `div` Div + 48);
  let j := j + 1 in
  let intnum := intnum `mod` Div in
  let Div := Div `div` 10 in
  c ← rd8 str (j - 1);
  if (c =? 48) && (Status =? 0) then Some (str, 0, intnum, Div, Status)
  else Some (str, j, intnum, Div, Status + 1).

Definition Int2Str (str : list Z) (intnum : Z) : option (list Z) :=
  '(str, _, _, _, _) ← for_range 10 0 (fun _ => Int2Str_step) (str, 0, u32 intnum, 1000000000, 0);
  Some str.

Definition IS_AF (c : Z) : bool := (65 <=? c) && (c <=? 70).
Definition IS_af (c : Z) : bool := (97 <=? c) && (c <=? 102).
Definition IS_09 (c : Z) : bool := (48 <=? c) && (c <=? 57).
Definition CONVERTHEX_alpha (c : Z) : Z := if IS_AF c then c - 65 + 10 else c - 97 + 10.
Definition CONVERTHEX (c : Z) : Z := if IS_09 c then c - 48 else CONVERTHEX_alpha c.

(** The conversion of [val] to the [int32_t] behind [intnum]. *)
Definition to_int32 (x : Z) : Z := if x <? 2 ^ 31 then x else x - 2 ^ 32.

(** [inl]: the loop goes on with [val]; [inr]: [res] and [*intnum], if it is set. *)
Definition hex_step (inputstr : list Z) (i val : Z) : option (Z + Z * option Z) :=
  c ← rd8 inputstr i;
  return_if c =? 0 with Some (inr (1, Some (to_int32 val))) ;;
  if IS_AF c || IS_af c || IS_09 c
  then Some (inl (u32 (u32 (Z.shiftl val 4) + CONVERTHEX c)))
  else Some (inr (0, None)).

Definition dec_step (inputstr : list Z) (i val : Z) : option (Z + Z * option Z) :=
  c ← rd8 inputstr i;
  return_if c =? 0 with Some (inr (1, Some (to_int32 val))) ;;
  return_if ((c =? 107) || (c =? 75)) && (i >? 0)
    with Some (inr (1, Some (to_int32 (u32 (Z.shiftl val 10))))) ;;
  return_if ((c =? 109) || (c =? 77)) && (i >? 0)
    with Some (inr (1, Some (to_int32 (u32 (Z.shiftl val 20))))) ;;
  if IS_09 c then Some (inl (u32 (val * 10 + (c - 48)))) else Some (inr (0, None)).

(** The result and the new [*intnum]. *)
Definition Str2Int (inputstr : list Z) (intnum : Z) : option (Z * Z) :=
  c0 ← rd8 inputstr 0;
  hex ← (if c0 =? 48 then c1 ← rd8 inputstr 1; Some ((c1 =? 120) || (c1 =? 88)) else Some false);
  let done (r : Z + Z * option Z) :=
    match r with
    | inl _ => (0, intnum)
    | inr (res, v) => (res, default intnum v)
    end in
  if hex : bool
  then c2 ← rd8 inputstr 2;
       return_if c2 =? 0 with Some (0, intnum) ;;
       r ← for_ret 9 2 (hex_step inputstr) 0;
       Some (done r)
  else r ← for_ret 11 0 (dec_step inputstr) 0;
       Some (done r).

(** ** Checks *)

Fixpoint update_loop (fuel : nat) (crc inp : Z) : option Z :=
  match fuel with
  | O => None
  | S fuel =>
      let crc := u32 (Z.shiftl crc 1) in
      let inp := u32 (Z.shiftl inp 1) in
      let crc := if negb (Z.land inp 0x100 =? 0) then u32 (crc + 1) else crc in
      let crc := if negb (Z.land crc 0x10000 =? 0) then Z.lxor crc 0x1021 else crc in
      if Z.land inp 0x10000 =? 0 then update_loop fuel crc inp else Some (Z.land crc 0xffff)
  end.

Definition UpdateCRC16 (crcIn byte : Z) : option Z := update_loop 8 crcIn (Z.lor byte 0x100).

Definition Cal_CRC16 (data : list Z) (size : Z) : option Z :=
  crc ← for_range (Z.to_nat size) 0 (fun i crc => b ← rd8 data i; UpdateCRC16 crc b) 0;
  crc ← UpdateCRC16 crc 0;
  crc ← UpdateCRC16 crc 0;
  Some (Z.land crc 0xffff).

Definition CalChecksum (data : list Z) (size : Z) : option Z :=
  sum ← for_range (Z.to_nat size) 0 (fun i sum => b ← rd8 data i; Some (u32 (sum + b))) 0;
  Some (Z.land sum 0xff).

(** ** Receiving *)

Definition packet_size (c : Z) : option Z :=
  if c =? 0xA1 then Some 8
  else if c =? 0xA2 then Some 16
  else if c =? 0xA3 then Some 32
  else if c =? 0xA4 then Some 64
  else if (c =? 0xA5) || (c =? SOH) then Some PACKET_128B_SIZE
  else if c =? 0xA6 then Some 256
  else if c =? 0xA7 then Some 512
  else if (c =? 0xA8) || (c =? STX) then Some PACKET_1KB_SIZE
  else if c =? 0xA9 then Some 2048
  else None.

Definition receive_at (i : Z) (s : list Z * serial) : option (list Z * serial + list Z * serial) :=
  let '(data, l) := s in
  let '(r, l) := Receive_Byte l in
  match r with
  | None => Some (inr (data, l))
  | Some b => data ← wr8 data i b; Some (inl (data, l))
  end.

(** The value returned, [*length], the packet and the line. *)
Definition Receive_Packet (data : list Z) (l : serial) : option (Z * Z * list Z * serial) :=
  let '(r, l) := Receive_Byte l in
  match r with
  | None => Some (-1, 0, data, l)
  | Some c =>
      match packet_size c with
      | Some packet_size =>
          data ← wr8 data 0 c;
          r ← for_ret (Z.to_nat (packet_size + PACKET_OVERHEAD - 1)) 1 receive_at (data, l);
          match r with
          | inr (data, l) => Some (-1, 0, data, l)
          | inl (data, l) =>
              seqno ← rd8 data 1;
              comp ← rd8 data 2;
              return_if negb (seqno =? Z.land (Z.lxor comp 0xff) 0xff) with Some (-1, 0, data, l) ;;
              Some (0, packet_size, data, l)
          end
      | None =>
          if c =? EOT then Some (0, 0, data, l)
          else if c =? CA then
            let '(r, l) := Receive_Byte l in
            match r with
            | Some c => if c =? CA then Some (0, -1, data, l) else Some (-1, 0, data, l)
            | None => Some (-1, 0, data, l)
            end
          else if (c =? 0x41) || (c =? 0x61) then Some (1, 0, data, l)
          else Some (-1, 0, data, l)
      end
  end.

Record receiver := mkReceiver {
  rc_line : serial;
  rc_packet : list Z;
  rc_name : list Z;
  rc_file_size : list Z;
  rc_buf : list Z;
  rc_packets_received : Z;
  rc_errors : Z;
  rc_session_begin : Z;
  rc_size : Z;
  rc_file_done : bool;
  rc_session_done : bool
}.

Definition rc_with_line (r : receiver) (l : serial) : receiver :=
  mkReceiver l (rc_packet r) (rc_name r) (rc_file_size r) (rc_buf r) (rc_packets_received r)
    (rc_errors r) (rc_session_begin r) (rc_size r) (rc_file_done r) (rc_session_done r).
Definition rc_send (r : receiver) (bytes : list Z) : receiver :=
  rc_with_line r (fold_left Send_Byte bytes (rc_line r)).
Definition rc_with_packet (r : receiver) (data : list Z) : receiver :=
  mkReceiver (rc_line r) data (rc_name r) (rc_file_size r) (rc_buf r) (rc_packets_received r)
    (rc_errors r) (rc_session_begin r) (rc_size r) (rc_file_done r) (rc_session_done r).
Definition rc_with_buf (r : receiver) (buf : list Z) : receiver :=
  mkReceiver (rc_line r) (rc_packet r) (rc_name r) (rc_file_size r) buf (rc_packets_received r)
    (rc_errors r) (rc_session_begin r) (rc_size r) (rc_file_done r) (rc_session_done r).
Definition rc_with_errors (r : receiver) (errors : Z) : receiver :=
  mkReceiver (rc_line r) (rc_packet r) (rc_name r) (rc_file_size r) (rc_buf r) (rc_packets_received r)
    errors (rc_session_begin r) (rc_size r) (rc_file_done r) (rc_session_done r).
Definition rc_with_file (r : receiver) (name file_size : list Z) (size : Z) : receiver :=
  mkReceiver (rc_line r) (rc_packet r) name file_size (rc_buf r) (rc_packets_received r)
    (rc_errors r) (rc_session_begin r) size (rc_file_done r) (rc_session_done r).
Definition rc_with_done (r : receiver) (file_done session_done : bool) : receiver :=
  mkReceiver (rc_line r) (rc_packet r) (rc_name r) (rc_file_size r) (rc_buf r) (rc_packets_received r)
    (rc_errors r) (rc_session_begin r) (rc_size r) file_done session_done.
Definition rc_with_packets (r : receiver) (packets_received session_begin : Z) : receiver :=
  mkReceiver (rc_line r) (rc_packet r) (rc_name r) (rc_file_size r) (rc_buf r) packets_received
    (rc_errors r) session_begin (rc_size r) (rc_file_done r) (rc_session_done r).

(** [for (; *file_ptr != stop && i < limit;) dst[i++] = *file_ptr++;] *)
Fixpoint copy_until (fuel : nat) (stop limit : Z) (packet : list Z) (file_ptr : Z) (dst : list Z) (i : Z)
    : option (list Z * Z * Z) :=
  match fuel with
  | O => None
  | S fuel =>
      c ← rd8 packet file_ptr;
      if negb (c =? stop) && (i <? limit)
      then dst ← wr8 dst i c; copy_until fuel stop limit packet (file_ptr + 1) dst (i + 1)
      else Some (dst, file_ptr, i)
  end.

(** The first packet of a file: its name and its size. *)
Definition receive_file_info (r : receiver) : option receiver :=
  '(name, file_ptr, i) ←
    copy_until (S (Z.to_nat FILE_NAME_LENGTH)) 0 FILE_NAME_LENGTH (rc_packet r) PACKET_HEADER (rc_name r) 0;
  name ← wr8 name i 0;
  '(file_size, _, i) ←
    copy_until (S (Z.to_nat FILE_SIZE_LENGTH)) 32 FILE_SIZE_LENGTH (rc_packet r) (file_ptr + 1) (rc_file_size r) 0;
  file_size ← wr8 file_size i 0;
  '(_, size) ← Str2Int file_size (rc_size r);
  Some (rc_send (rc_with_file r name file_size size) [ACK; CRC16]).

(** The [default] case of a packet with the number expected or another. *)
Definition receive_normal (r : receiver) (packet_length : Z) : option receiver :=
  seqno ← rd8 (rc_packet r) 1;
  if negb (Z.land seqno 0xff =? Z.land (rc_packets_received r) 0xff)
  then Some (rc_send r [NAK])
  else
    let next (r : receiver) :=
      return_if 2 ^ 31 - 1 <=? rc_packets_received r with None ;;
      Some (rc_with_packets r (rc_packets_received r + 1) 1) in
    if rc_packets_received r =? 0 then
      c ← rd8 (rc_packet r) PACKET_HEADER;
      if negb (c =? 0) then r ← receive_file_info r; next r
      else Some (rc_with_done (rc_send r [ACK]) true true)
    else
      buf ← memcpy (rc_buf r) 0 (rc_packet r) PACKET_HEADER packet_length;
      next (rc_send (rc_with_buf r buf) [ACK]).

(** One turn of the inner loop; [inl]: the value returned. *)
Definition receive_step (r : receiver) : option (Z * receiver + receiver) :=
  '(ret, packet_length, data, l) ← Receive_Packet (rc_packet r) (rc_line r);
  let r := rc_with_packet (rc_with_line r l) data in
  if ret =? 0 then
    let r := rc_with_errors r 0 in
    if packet_length =? -1 then Some (inl (0, rc_send r [ACK]))
    else if packet_length =? 0 then Some (inr (rc_with_done (rc_send r [ACK]) true (rc_session_done r)))
    else r ← receive_normal r packet_length; Some (inr r)
  else if ret =? 1 then Some (inl (-3, rc_send r [CA; CA]))
  else
    let r := if rc_session_begin r >? 0 then rc_with_errors r (rc_errors r + 1) else r in
    return_if rc_errors r >? MAX_ERRORS with Some (inl (0, rc_send r [CA; CA])) ;;
    Some (inr (rc_send r [CRC16])).

(** Both loops: a file that is done starts the next one, unless the session is. *)
Fixpoint receive_loop (fuel : nat) (r : receiver) : option (Z * receiver) :=
  match fuel with
  | O => None
  | S fuel =>
      s ← receive_step r;
      match s with
      | inl result => Some result
      | inr r =>
          if rc_file_done r
          then return_if rc_session_done r with Some (rc_size r, r) ;;
               receive_loop fuel (rc_with_done (rc_with_packets r 0 (rc_session_begin r)) false false)
          else receive_loop fuel r
      end
  end.

(** The value returned and the receiver, whose [rc_buf] is the caller's buffer. *)
Definition Ymodem_Receive (fuel : nat) (packet_data file_size file_name : list Z) (l : serial) (buf : list Z)
    : option (Z * receiver) :=
  receive_loop fuel
    (mkReceiver (Send_Byte l CRC16) packet_data file_name file_size buf 0 0 0 0 false false).

(** ** Sending *)

Fixpoint copy_name (fuel : nat) (data fileName : list Z) (i : Z) : option (list Z * Z) :=
  match fuel with
  | O => None
  | S fuel =>
      c ← rd8 fileName i;
      if negb (c =? 0) && (i <? FILE_NAME_LENGTH)
      then data ← wr8 data (i + PACKET_HEADER) c; copy_name fuel data fileName (i + 1)
      else Some (data, i)
  end.

Fixpoint copy_digits (fuel : nat) (data file_ptr : list Z) (i j : Z) : option (list Z * Z) :=
  match fuel with
  | O => None
  | S fuel =>
      c ← rd8 file_ptr j;
      if negb (c =? 0) then data ← wr8 data i c; copy_digits fuel data file_ptr (i + 1) (j + 1)
      else Some (data, i)
  end.

(** [file_ptr]: the ten bytes of the local array, which are not initialised. *)
Definition Ymodem_PrepareIntialPacket (file_ptr data fileName : list Z) (length : Z) : option (list Z) :=
  data ← wr8 data 0 SOH;
  data ← wr8 data 1 0x00;
  data ← wr8 data 2 0xff;
  '(data, i) ← copy_name (S (Z.to_nat FILE_NAME_LENGTH)) data fileName 0;
  data ← wr8 data (i + PACKET_HEADER) 0x00;
  file_ptr ← Int2Str file_ptr length;
  '(data, i) ← copy_digits 11 data file_ptr (i + PACKET_HEADER + 1) 0;
  for_range (Z.to_nat (PACKET_128B_SIZE + PACKET_HEADER - i)) i (fun j data => wr8 data j 0) data.

(** [file_ptr]: the memory from [SourceBuf] on. *)
Definition Ymodem_PreparePacket (file_ptr data : list Z) (pktNo sizeBlk : Z) : option (list Z) :=
  let packetSize := if sizeBlk >=? PACKET_1KB_SIZE then PACKET_1KB_SIZE else PACKET_128B_SIZE in
  let size := if sizeBlk <? packetSize then sizeBlk else packetSize in
  data ← wr8 data 0 (if packetSize =? PACKET_1KB_SIZE then STX else SOH);
  data ← wr8 data 1 pktNo;
  data ← wr8 data 2 (Z.lnot pktNo);
  data ← for_range (Z.to_nat size) PACKET_HEADER
           (fun i data => c ← rd8 file_ptr (i - PACKET_HEADER); wr8 data i c) data;
  if size <=? packetSize
  then for_range (Z.to_nat (packetSize - size)) (size + PACKET_HEADER) (fun i data => wr8 data i 0x1A) data
  else Some data.

Definition Ymodem_SendPacket (l : serial) (data : list Z) (length : Z) : option serial :=
  for_range (Z.to_nat length) 0 (fun i l => b ← rd8 data i; Some (Send_Byte l b)) l.

(** The packet and its check; [CRC16_F] is always 1. *)
Definition send_with_crc (l : serial) (packet_data : list Z) (pktSize : Z) : option serial :=
  l ← Ymodem_SendPacket l packet_data (pktSize + PACKET_HEADER);
  tempCRC ← Cal_CRC16 (drop 3 packet_data) pktSize;
  Some (Send_Byte (Send_Byte l (u8 (Z.shiftr tempCRC 8))) (u8 (Z.land tempCRC 0xFF))).

(** The loops around the first and the last packet: only a timeout is an error.
    The number of errors when the loop ends. *)
Fixpoint info_loop (fuel : nat) (l : serial) (packet_data : list Z) (errors : Z) : option (Z * serial) :=
  match fuel with
  | O => None
  | S fuel =>
      l ← send_with_crc l packet_data PACKET_128B_SIZE;
      let '(r, l) := Receive_Byte l in
      let ackReceived := bool_decide (r = Some ACK) in
      let errors := match r with Some _ => errors | None => errors + 1 end in
      if negb ackReceived && (errors <? 0x0A) then info_loop fuel l packet_data errors
      else Some (errors, l)
  end.

(** The loop around a block: every answer but [ACK] is an error. *)
Fixpoint block_loop (fuel : nat) (l : serial) (packet_data : list Z) (pktSize errors : Z) : option (Z * serial) :=
  match fuel with
  | O => None
  | S fuel =>
      l ← send_with_crc l packet_data pktSize;
      let '(r, l) := Receive_Byte l in
      let ackReceived := bool_decide (r = Some ACK) in
      let errors := if ackReceived then errors else errors + 1 in
      if negb ackReceived && (errors <? 0x0A) then block_loop fuel l packet_data pktSize errors
      else Some (errors, l)
  end.

(** The loops around [EOT], from the values [ackReceived] and [errors] have when they
    are entered. *)
Fixpoint eot_loop (fuel : nat) (ackReceived : bool) (l : serial) (errors : Z) : option (Z * serial) :=
  match fuel with
  | O => None
  | S fuel =>
      let '(r, l) := Receive_Byte (Send_Byte l EOT) in
      let '(ackReceived, errors) :=
        if bool_decide (r = Some ACK) then (true, errors) else (ackReceived, errors + 1) in
      if negb ackReceived && (errors <? 0x0A) then eot_loop fuel ackReceived l errors else Some (errors, l)
  end.

(** [while (size)]: [buf_ptr] is an offset into [buf].  The errors of the block that
    failed, or 0, the packet and the line. *)
Fixpoint data_loop (fuel : nat) (l : serial) (buf packet_data : list Z) (buf_ptr blkNumber size : Z)
    : option (Z * list Z * serial) :=
  match fuel with
  | O => None
  | S fuel =>
      return_if size =? 0 with Some (0, packet_data, l) ;;
      packet_data ← Ymodem_PreparePacket (drop (Z.to_nat buf_ptr) buf) packet_data (u8 blkNumber) size;
      let pktSize := if size >=? PACKET_1KB_SIZE then PACKET_1KB_SIZE else PACKET_128B_SIZE in
      '(errors, l) ← block_loop 10 l packet_data pktSize 0;
      return_if errors >=? 0x0A with Some (errors, packet_data, l) ;;
      if size >? pktSize
      then data_loop fuel l buf packet_data (buf_ptr + pktSize) (u16 (blkNumber + 1)) (size - pktSize)
      else data_loop fuel l buf packet_data (buf_ptr + pktSize) blkNumber 0
  end.

(** The value returned and the line.  [fuel] bounds the turns of the two loops that
    count only timeouts.  The loop around the last packet ends with [ackReceived] set
    or with ten errors; neither it nor [errors] is reset before the last [EOT]. *)
Definition Ymodem_Transmit (fuel : nat) (packet_data FileName file_ptr : list Z) (l : serial)
    (buf sendFileName : list Z) (sizeFile : Z) : option (Z * serial) :=
  FileName ← for_range (Z.to_nat (FILE_NAME_LENGTH - 1)) 0
               (fun i FileName => c ← rd8 sendFileName i; wr8 FileName i c) FileName;
  packet_data ← Ymodem_PrepareIntialPacket file_ptr packet_data FileName sizeFile;
  '(errors, l) ← info_loop fuel l packet_data 0;
  return_if errors >=? 0x0A with Some (errors, l) ;;
  '(errors, packet_data, l) ← data_loop (S (Z.to_nat sizeFile)) l buf packet_data 0 1 sizeFile;
  return_if errors >=? 0x0A with Some (errors, l) ;;
  '(errors, l) ← eot_loop 10 false l 0;
  return_if errors >=? 0x0A with Some (errors, l) ;;
  packet_data ← wr8 packet_data 0 SOH;
  packet_data ← wr8 packet_data 1 0;
  packet_data ← wr8 packet_data 2 0xFF;
  packet_data ← for_range (Z.to_nat PACKET_128B_SIZE) PACKET_HEADER (fun i data => wr8 data i 0) packet_data;
  '(errors, l) ← info_loop fuel l packet_data 0;
  return_if errors >=? 0x0A with Some (errors, l) ;;
  '(errors, l) ← eot_loop 10 true l errors;
  return_if errors >=? 0x0A with Some (errors, l) ;;
  Some (0, l).
