(* ===== verification/YmodemCorrect.v ===== *)
(** * Y-modem: the check, the packets and the sessions

    The check of ymodem.c is the CRC-16 of XMODEM; the packets are those of the
    protocol; a transmission offers them in order, each until it is acknowledged; a
    reception answers a well-formed session and writes every block to the start of
    the buffer. *)

From stdpp Require Import prelude.
From S2P Require Import Prelude CMem Ymodem.

(** ** The shift register

    A register of 16 bits shifted to the left, with a bit shifted in. *)

Definition shift_in (b : bool) (c : Z) : Z :=
  Z.lxor (Z.lor (Z.shiftl (Z.land c (Z.ones 15)) 1) (Z.b2z b)) (if Z.testbit c 15 then 0x1021 else 0).

Definition shift_zeros (k : nat) (c : Z) : Z := Nat.iter k (shift_in false) c.

(** A byte shifted in, the most significant bit first. *)
Definition shift_byte (c b : Z) : Z :=
  fold_left (fun c i => shift_in (Z.testbit b i) c) [7; 6; 5; 4; 3; 2; 1; 0] c.

(** The CRC-16 of XMODEM: a byte is added to the upper half, then eight shifts. *)
Definition xmodem_byte (c b : Z) : Z := shift_zeros 8 (Z.lxor c (Z.shiftl b 8)).
Definition xmodem (l : list Z) : Z := fold_left xmodem_byte l 0.

Lemma shift_in_testbit b c i : 0 <= i ->
  Z.testbit (shift_in b c) i
  = xorb (if i =? 0 then b else (i <? 16) && Z.testbit c (i - 1)) (Z.testbit c 15 && Z.testbit 0x1021 i).
Proof.
  intros Hi. unfold shift_in. rewrite Z.lxor_spec. f_equal.
  - rewrite Z.lor_spec, Z.shiftl_spec, Z.land_spec by lia. destruct (Z.eqb_spec i 0) as [->|Hn].
    + rewrite (Z.testbit_neg_r c (0 - 1)) by lia. by destruct b.
    + rewrite Z.testbit_ones by lia.
      replace (Z.testbit (Z.b2z b) i) with false
        by (destruct b; cbn [Z.b2z]; [|by rewrite Z.bits_0]; symmetry; apply Z.bits_above_log2; cbn; lia).
      rewrite orb_false_r, andb_comm. f_equal. repeat zcase; try lia; done.
  - destruct (Z.testbit c 15); [done|]. by rewrite Z.bits_0.
Qed.

Lemma shift_in_linear a b x y :
  shift_in (xorb a b) (Z.lxor x y) = Z.lxor (shift_in a x) (shift_in b y).
Proof.
  apply Z.bits_inj'. intros i Hi. rewrite Z.lxor_spec, !shift_in_testbit, !Z.lxor_spec by done.
  destruct (i =? 0), (i <? 16); cbn [andb];
    destruct a, b, (Z.testbit x 15), (Z.testbit y 15), (Z.testbit 0x1021 i); cbn;
    destruct (Z.testbit x (i - 1)), (Z.testbit y (i - 1)); done.
Qed.

Lemma poly_high i : 16 <= i -> Z.testbit 0x1021 i = false.
Proof. intros. apply Z.bits_above_log2; [lia|]. change (Z.log2 0x1021) with 12. lia. Qed.

Lemma shift_in_range b c : is_u16 (shift_in b c).
Proof.
  apply (bits_range _ 16); [lia|]. intros i Hi. rewrite shift_in_testbit, poly_high by lia.
  zfalse (i =? 0). zfalse (i <? 16). by rewrite andb_false_r.
Qed.

Lemma shift_zeros_linear k x y :
  shift_zeros k (Z.lxor x y) = Z.lxor (shift_zeros k x) (shift_zeros k y).
Proof.
  unfold shift_zeros. induction k as [|k IH]; [done|]. rewrite !Nat.iter_succ, IH.
  exact (shift_in_linear false false _ _).
Qed.

Lemma shift_zeros_add j k c : shift_zeros (j + k) c = shift_zeros j (shift_zeros k c).
Proof. apply Nat.iter_add. Qed.

Lemma shift_zeros_range k c : is_u16 c -> is_u16 (shift_zeros k c).
Proof. intros Hc. destruct k; [done|]. apply shift_in_range. Qed.

(** Nothing falls out of the register as long as the upper bits are clear. *)
Lemma shift_zeros_small k b : 0 <= b -> b * 2 ^ Z.of_nat k < 2 ^ 16 -> shift_zeros k b = Z.shiftl b (Z.of_nat k).
Proof.
  intros Hb. induction k as [|k IH]; intros Hk; [by rewrite Z.shiftl_0_r|].
  unfold shift_zeros in *. rewrite Nat2Z.inj_succ, Z.pow_succ_r in * by lia.
  rewrite Nat.iter_succ, IH by nia. rewrite <- Z.add_1_r, <- Z.shiftl_shiftl by lia.
  set (x := Z.shiftl b (Z.of_nat k)). assert (0 <= x < 2 ^ 15) as Hx.
  { unfold x. rewrite Z.shiftl_mul_pow2 by lia. nia. }
  apply Z.bits_inj'. intros i Hi. rewrite shift_in_testbit, Z.shiftl_spec by lia.
  replace (Z.testbit x 15) with false.
  2: { symmetry. rewrite <- (Z.mod_small x (2 ^ 15)) by done. by rewrite Z.mod_pow2_bits_high by lia. }
  cbn [andb]. rewrite xorb_false_r. destruct (Z.eqb_spec i 0) as [->|Hi0].
  { symmetry. by apply Z.testbit_neg_r. }
  destruct (Z.ltb_spec i 16); [done|]. symmetry.
  rewrite <- (Z.mod_small x (2 ^ 15)) by done. by rewrite Z.mod_pow2_bits_high by lia.
Qed.

(** A byte shifted in is eight shifts and the byte added. *)
Lemma shift_byte_alt c b : is_u8 b -> shift_byte c b = Z.lxor (shift_zeros 8 c) b.
Proof.
  intros Hb.
  assert (forall a x, shift_in a (Z.lxor x 0) = Z.lxor (shift_in false x) (shift_in a 0)) as Hs.
  { intros a x. by rewrite <- shift_in_linear, xorb_false_l. }
  assert (forall l x y, fold_left (fun c i => shift_in (Z.testbit b i) c) l (Z.lxor x y)
            = Z.lxor (shift_zeros (length l) x) (fold_left (fun c i => shift_in (Z.testbit b i) c) l y)) as Hf.
  { induction l as [|i l IH]; intros x y; [done|]. cbn [fold_left length].
    rewrite <- (xorb_false_l (Z.testbit b i)), shift_in_linear, IH, xorb_false_l. f_equal.
    unfold shift_zeros. by rewrite <- Nat.iter_succ_r. }
  unfold shift_byte. rewrite <- (Z.lxor_0_r c) at 1. rewrite Hf. cbn [length]. f_equal.
  assert (forallb (fun b => fold_left (fun c i => shift_in (Z.testbit b i) c) [7; 6; 5; 4; 3; 2; 1; 0] 0 =? b)
            (seqZ 0 256) = true) as Hall by (vm_compute; reflexivity).
  rewrite forallb_forall in Hall. apply Z.eqb_eq, Hall, list_elem_of_In, elem_of_seqZ. lia.
Qed.

(** ** The check *)

(** [UpdateCRC16] is [shift_byte]: the bits of [crc] that leave the register stay
    above it and are masked at the end. *)
Definition crc_turn (crc inp : Z) : Z * Z :=
  let crc := u32 (Z.shiftl crc 1) in
  let inp := u32 (Z.shiftl inp 1) in
  let crc := if negb (Z.land inp 0x100 =? 0) then u32 (crc + 1) else crc in
  (if negb (Z.land crc 0x10000 =? 0) then Z.lxor crc 0x1021 else crc, inp).

Lemma land_bit x k : 0 <= k -> negb (Z.land x (2 ^ k) =? 0) = Z.testbit x k.
Proof.
  intros Hk. destruct (Z.testbit x k) eqn:E.
  - apply negb_true_iff, Z.eqb_neq. intros H. assert (Z.testbit (Z.land x (2 ^ k)) k = false) as H2 by (by rewrite H, Z.bits_0).
    rewrite Z.land_spec, E, Z.pow2_bits_true in H2 by lia. done.
  - apply negb_false_iff, Z.eqb_eq, Z.bits_inj'. intros i Hi. rewrite Z.land_spec, Z.bits_0.
    destruct (decide (i = k)) as [->|]; [by rewrite E|]. rewrite Z.pow2_bits_false by lia. apply andb_false_r.
Qed.

Lemma double_testbit x b i : 0 <= i ->
  Z.testbit (2 * x + Z.b2z b) i = if i =? 0 then b else Z.testbit x (i - 1).
Proof.
  intros Hi. destruct (Z.eqb_spec i 0) as [->|Hn]; [apply Z.testbit_0_r|].
  replace i with (Z.succ (i - 1)) at 1 by lia. apply Z.testbit_succ_r. lia.
Qed.

Lemma crc_turn_spec m crc inp :
  16 <= m <= 30 -> 0 <= crc < 2 ^ m -> 0 <= inp < 2 ^ 31 ->
  (crc_turn crc inp).2 = 2 * inp
  /\ Z.land (crc_turn crc inp).1 0xffff = shift_in (Z.testbit inp 7) (Z.land crc 0xffff)
  /\ 0 <= (crc_turn crc inp).1 < 2 ^ (m + 1).
Proof.
  intros Hm Hc Hi. unfold crc_turn.
  assert (2 ^ m <= 2 ^ 30) by (apply Z.pow_le_mono_r; lia).
  rewrite !Z.shiftl_mul_pow2 by lia. rewrite (u32_id (inp * 2 ^ 1)), (u32_id (crc * 2 ^ 1)) by lia.
  change 0x100 with (2 ^ 8). change 0x10000 with (2 ^ 16). rewrite !land_bit by lia. cbn [fst snd].
  split; [lia|]. replace (inp * 2 ^ 1) with (2 * inp + Z.b2z false) by (cbn [Z.b2z]; lia).
  rewrite double_testbit by lia. change (8 - 1) with 7. cbn [Z.eqb].
  set (b := Z.testbit inp 7).
  replace (if b then u32 (crc * 2 ^ 1 + 1) else crc * 2 ^ 1) with (2 * crc + Z.b2z b).
  2: { destruct b; cbn [Z.b2z]; [rewrite u32_id by lia|]; lia. }
  rewrite double_testbit by lia. change (16 - 1) with 15. cbn [Z.eqb].
  split.
  - apply Z.bits_inj'. intros i Hi0. change 0xffff with (Z.ones 16).
    rewrite shift_in_testbit, Z.land_spec, Z.land_spec, !Z.testbit_ones, (Z.land_spec crc), !Z.testbit_ones by lia.
    replace (Z.testbit (if Z.testbit crc 15 then _ else _) i)
      with (xorb (if i =? 0 then b else Z.testbit crc (i - 1)) (Z.testbit crc 15 && Z.testbit 0x1021 i)).
    2: { destruct (Z.testbit crc 15); rewrite ?Z.lxor_spec, double_testbit by lia; by destruct (if i =? 0 then _ else _). }
    ztrue (0 <=? 15). ztrue (15 <? 16). rewrite !andb_true_r. cbn [andb].
    destruct (Z.ltb_spec i 16).
    + ztrue (0 <=? i). rewrite !andb_true_r. destruct (Z.eqb_spec i 0); [done|].
      ztrue (0 <=? i - 1). ztrue (i - 1 <? 16). by rewrite !andb_true_r.
    + rewrite poly_high by lia. zfalse (i =? 0). by rewrite !andb_false_r.
  - rewrite Z.pow_add_r by lia. assert (0 <= 2 * crc + Z.b2z b < 2 ^ m * 2 ^ 1) as Hr by (destruct b; cbn [Z.b2z]; lia).
    destruct (Z.testbit crc 15); [|done]. rewrite <- Z.pow_add_r in * by lia.
    apply lxor_range; [lia | done|]. split; [lia|].
    apply Z.lt_le_trans with (2 ^ 17); [lia|]. apply Z.pow_le_mono_r; lia.
Qed.

Lemma update_loop_step fuel crc inp :
  update_loop (S fuel) crc inp
  = if Z.testbit (crc_turn crc inp).2 16 then Some (Z.land (crc_turn crc inp).1 0xffff)
    else update_loop fuel (crc_turn crc inp).1 (crc_turn crc inp).2.
Proof.
  rewrite <- (land_bit _ 16) by lia. change (2 ^ 16) with 0x10000. cbn [update_loop].
  unfold crc_turn at 1. cbn [snd]. by destruct (Z.land (u32 (Z.shiftl inp 1)) 0x10000 =? 0).
Qed.

Fixpoint down (k : nat) : list Z := match k with O => [] | S k => Z.of_nat k :: down k end.

Lemma byte_high b i : is_u8 b -> 8 <= i -> Z.testbit b i = false.
Proof.
  intros Hb Hi. apply Z.bits_above_log2; [lia|]. destruct (Z.eq_dec b 0) as [->|]; [cbn; lia|].
  apply Z.lt_le_trans with 8; [apply Z.log2_lt_pow2; lia | lia].
Qed.

Lemma land_marker b : is_u8 b -> Z.land 256 b = 0.
Proof.
  intros Hb. apply Z.bits_inj'. intros i Hi. rewrite Z.land_spec, Z.bits_0. change 256 with (2 ^ 8).
  destruct (Z.eqb_spec i 8) as [->|]; [|by rewrite Z.pow2_bits_false by lia].
  by rewrite (byte_high b), andb_false_r by (done || lia).
Qed.

(** The bits of [byte|0x100], shifted to bit 7 and bit 16 turn by turn. *)
Lemma marked_bits b k : is_u8 b -> 0 <= k <= 7 ->
  0 <= (256 + b) * 2 ^ (7 - k) < 2 ^ 31
  /\ Z.testbit ((256 + b) * 2 ^ (7 - k)) 7 = Z.testbit b k
  /\ Z.testbit (2 * ((256 + b) * 2 ^ (7 - k))) 16 = (k =? 0).
Proof.
  intros Hb Hk. assert (0 < 2 ^ (7 - k) <= 2 ^ 7) by (split; [lia | apply Z.pow_le_mono_r; lia]).
  assert (forall i, 0 <= i -> Z.testbit (256 + b) i = (i =? 8) || Z.testbit b i) as Ht.
  { intros i Hi. rewrite Z.add_nocarry_lxor.
    - rewrite Z.lxor_spec. change 256 with (2 ^ 8). destruct (Z.eqb_spec i 8) as [->|].
      + by rewrite Z.pow2_bits_true, (byte_high b) by (done || lia).
      + by rewrite Z.pow2_bits_false by lia.
    - by apply land_marker. }
  split; [nia|]. split.
  - rewrite Z.mul_pow2_bits by lia. replace (7 - (7 - k)) with k by lia. rewrite Ht by lia. by zfalse (k =? 8).
  - replace (2 * _) with ((256 + b) * 2 ^ (8 - k)).
    2: { replace (8 - k) with (7 - k + 1) by lia. rewrite Z.pow_add_r by lia. lia. }
    rewrite Z.mul_pow2_bits by lia. rewrite Ht by lia.
    destruct (Z.eqb_spec k 0) as [->|]; [done|]. zfalse (16 - (8 - k) =? 8).
    apply byte_high; lia.
Qed.

Lemma update_loop_spec b k crc : is_u8 b -> (k < 8)%nat -> 0 <= crc < 2 ^ (23 - Z.of_nat k) ->
  update_loop (S k) crc ((256 + b) * 2 ^ (7 - Z.of_nat k))
  = Some (fold_left (fun c i => shift_in (Z.testbit b i) c) (down (S k)) (Z.land crc 0xffff)).
Proof.
  intros Hb. revert crc. induction k as [|k IH]; intros crc Hk Hc; rewrite update_loop_step.
  - destruct (marked_bits b 0 Hb ltac:(lia)) as (Hr & H7 & H16). change (Z.of_nat 0) with 0 in *.
    destruct (crc_turn_spec 23 crc _ ltac:(lia) Hc Hr) as (-> & -> & _). by rewrite H7, H16.
  - destruct (marked_bits b (Z.of_nat (S k)) Hb ltac:(lia)) as (Hr & H7 & H16).
    destruct (crc_turn_spec (23 - Z.of_nat (S k)) crc _ ltac:(lia) Hc Hr) as (-> & Ht & Hc'). rewrite H16.
    zfalse (Z.of_nat (S k) =? 0).
    replace (2 * ((256 + b) * 2 ^ (7 - Z.of_nat (S k)))) with ((256 + b) * 2 ^ (7 - Z.of_nat k)).
    2: { replace (7 - Z.of_nat k) with (7 - Z.of_nat (S k) + 1) by lia. rewrite Z.pow_add_r by lia. lia. }
    rewrite IH, Ht, H7; [done | lia|]. by replace (23 - Z.of_nat k) with (23 - Z.of_nat (S k) + 1) by lia.
Qed.

Lemma UpdateCRC16_spec c b : is_u16 c -> is_u8 b -> UpdateCRC16 c b = Some (shift_byte c b).
Proof.
  intros Hc Hb. unfold UpdateCRC16, shift_byte.
  pose proof (update_loop_spec b 7 c Hb ltac:(lia) Hc) as H. change (7 - Z.of_nat 7) with 0 in H.
  replace (Z.lor b 0x100) with ((256 + b) * 2 ^ 0).
  - rewrite H. change 0xffff with (Z.ones 16). by rewrite Z.land_ones, Z.mod_small by lia.
  - rewrite Z.mul_1_r, Z.lor_comm, <- Z.lxor_lor by (by apply land_marker).
    by rewrite Z.add_nocarry_lxor by (by apply land_marker).
Qed.

Lemma shift_byte_range c b : is_u16 (shift_byte c b).
Proof. apply shift_in_range. Qed.

Opaque shift_byte.

Lemma shift_bytes_range l c : is_u16 c -> is_u16 (fold_left shift_byte l c).
Proof.
  intros Hc. apply (fold_left_inv (fun c => is_u16 c) (fun _ => True)); [|by apply Forall_true | done].
  intros ? ? _ _. apply shift_byte_range.
Qed.

Lemma shift_zeros_byte b : is_u8 b -> shift_zeros 8 b = Z.shiftl b 8.
Proof. intros Hb. rewrite (shift_zeros_small 8 b); [done | lia | lia]. Qed.

Lemma shift_step c b : is_u8 b ->
  xmodem_byte (shift_zeros 16 c) b = shift_zeros 16 (shift_byte c b).
Proof.
  intros Hb. unfold xmodem_byte. rewrite shift_byte_alt, !shift_zeros_linear, <- shift_zeros_byte by done.
  generalize (shift_zeros_add 8 16 c), (shift_zeros_add 16 8 c), (shift_zeros_add 8 8 b).
  change (8 + 16)%nat with 24%nat. change (16 + 8)%nat with 24%nat. change (8 + 8)%nat with 16%nat.
  intros H1 H2 H3. congruence.
Qed.

Lemma shift_bytes_xmodem l c : bytes_ok l ->
  fold_left xmodem_byte l (shift_zeros 16 c) = shift_zeros 16 (fold_left shift_byte l c).
Proof.
  intros Hl. revert c. induction Hl as [|b l Hb _ IH]; intros c; [done|].
  by rewrite !fold_left_cons, shift_step, IH.
Qed.

Lemma xmodem_alt l : bytes_ok l -> xmodem l = shift_zeros 16 (fold_left shift_byte l 0).
Proof.
  intros Hl. rewrite <- shift_bytes_xmodem by done. unfold xmodem.
  assert (shift_zeros 16 0 = 0) as H0 by (vm_compute; reflexivity). by rewrite H0.
Qed.

Lemma xmodem_range l : bytes_ok l -> is_u16 (xmodem l).
Proof. intros Hl. rewrite xmodem_alt by done. apply shift_zeros_range, shift_bytes_range. lia. Qed.

Lemma shift_byte_0 c : shift_byte c 0 = shift_zeros 8 c.
Proof. rewrite shift_byte_alt by lia. apply Z.lxor_0_r. Qed.

Lemma Cal_CRC16_spec data n : 0 <= n <= zlen data -> bytes_ok data ->
  Cal_CRC16 data n = Some (xmodem (take (Z.to_nat n) data)).
Proof.
  intros Hn Hd. unfold Cal_CRC16.
  assert (forall k, (k <= length data)%nat ->
            for_range k 0 (fun i crc => b ← rd8 data i; UpdateCRC16 crc b) 0
            = Some (fold_left shift_byte (take k data) 0)) as Hf.
  { induction k as [|k IH]; intros Hk; [by destruct data|].
    replace (S k) with (k + 1)%nat by lia. rewrite for_range_add, IH by lia. rewrite bind_Some.
    cbn [for_range]. destruct (lookup_lt_is_Some_2 data k ltac:(lia)) as [b Hb].
    rewrite Z.add_0_l. unfold rd8. rewrite znth_of_nat, Hb, bind_Some.
    rewrite UpdateCRC16_spec, bind_Some.
    - replace (k + 1)%nat with (S k) by lia. by rewrite (take_S_r data k b), fold_left_app by done.
    - apply shift_bytes_range. lia.
    - by apply (Forall_lookup_1 _ _ _ _ Hd Hb). }
  rewrite Hf, bind_Some by lia. set (l := take _ data). assert (bytes_ok l) by (by apply Forall_take).
  rewrite UpdateCRC16_spec, bind_Some by (done || apply shift_bytes_range; lia).
  rewrite UpdateCRC16_spec, bind_Some by (done || apply shift_byte_range).
  rewrite !shift_byte_0, <- shift_zeros_add. cbn [Nat.add].
  change 0xffff with (Z.ones 16). rewrite Z.land_ones, Z.mod_small by lia || (apply shift_zeros_range, shift_bytes_range; lia).
  by rewrite xmodem_alt.
Qed.

(** Feeding the two bytes of the check behind the data leaves a clear register. *)
Lemma xmodem_residue l : bytes_ok l ->
  fold_left shift_byte (l ++ [xmodem l `div` 256; xmodem l `mod` 256]) 0 = 0.
Proof.
  intros Hl. pose proof (xmodem_range l Hl) as Hr. rewrite fold_left_app. cbn [fold_left].
  rewrite (shift_byte_alt _ (_ `mod` 256)), (shift_byte_alt _ (_ `div` 256)), shift_zeros_linear by zlia.
  rewrite <- shift_zeros_add. change (8 + 8)%nat with 16%nat. rewrite <- xmodem_alt by done.
  rewrite (shift_zeros_byte (_ `div` 256)) by zlia.
  rewrite Z.lxor_assoc. set (x := xmodem l) in *.
  replace (Z.lxor (Z.shiftl (x `div` 256) 8) (x `mod` 256)) with x; [apply Z.lxor_nilpotent|].
  rewrite <- Z.add_nocarry_lxor.
  - rewrite Z.shiftl_mul_pow2 by lia. change (2 ^ 8) with 256. zlia.
  - apply Z.bits_inj'. intros i Hi. rewrite Z.land_spec, Z.bits_0. change 256 with (2 ^ 8).
    destruct (decide (i < 8)).
    + by rewrite Z.shiftl_spec_low by lia.
    + rewrite Z.mod_pow2_bits_high by lia. apply andb_false_r.
Qed.

(** ** Numbers *)

(** The decimal text of a number of at most ten digits. *)
Fixpoint digits (fuel : nat) (n : Z) : list Z :=
  match fuel with
  | O => []
  | S fuel => if n <? 10 then [48 + n] else digits fuel (n `div` 10) ++ [48 + n `mod` 10]
  end.
Definition decimal (n : Z) : list Z := digits 10 n.

Lemma digits_fuel f n : 0 <= n < 10 ^ Z.of_nat (S f) -> digits (S (S f)) n = digits (S f) n.
Proof.
  revert n. induction f as [|f IH]; intros n Hn.
  - cbn in *. by ztrue (n <? 10).
  - change (digits (S (S (S f))) n) with (if n <? 10 then [48 + n] else digits (S (S f)) (n `div` 10) ++ [48 + n `mod` 10]).
    change (digits (S (S f)) n) with (if n <? 10 then [48 + n] else digits (S f) (n `div` 10) ++ [48 + n `mod` 10]).
    destruct (Z.ltb_spec n 10); [done|]. rewrite <- IH; [done|].
    rewrite Nat2Z.inj_succ, Z.pow_succ_r in Hn by lia. zlia.
Qed.

Lemma decimal_snoc q d : 0 < q -> 0 <= d < 10 -> 10 * q + d < 2 ^ 32 ->
  decimal (10 * q + d) = decimal q ++ [48 + d].
Proof.
  intros Hq Hd Hm. unfold decimal at 1. remember 9%nat as f eqn:Hf. cbn [digits]. zfalse (10 * q + d <? 10).
  replace ((10 * q + d) `div` 10) with q by zlia. replace ((10 * q + d) `mod` 10) with d by zlia.
  f_equal. subst f. symmetry. apply digits_fuel. change (10 ^ Z.of_nat 9) with 1000000000. lia.
Qed.

Lemma decimal_small d : 0 <= d < 10 -> decimal d = [48 + d].
Proof. intros. unfold decimal. cbn [digits]. by ztrue (d <? 10). Qed.

Lemma digits_length f n : (length (digits f n) <= f)%nat.
Proof.
  revert n. induction f as [|f IH]; intros n; cbn [digits]; [done|]. case_if; [cbn; lia|].
  rewrite length_app. specialize (IH (n `div` 10)). cbn. lia.
Qed.

Lemma decimal_length n : (length (decimal n) <= 10)%nat.
Proof. apply digits_length. Qed.

Lemma digits_chars f n : 0 <= n -> Forall (fun c => 48 <= c <= 57) (digits f n).
Proof.
  revert n. induction f as [|f IH]; intros n Hn; cbn [digits]; [done|]. case_if; zbool.
  - repeat constructor; lia.
  - apply Forall_app_2; [apply IH; zlia|]. repeat constructor; zlia.
Qed.

(** What [Int2Str] has after the digits above [10 ^ k]. *)
Definition int2str_inv (n : Z) (junk : list Z) (k : nat) (s : list Z * Z * Z * Z * Z) : Prop :=
  let '(str, j, r, Div, Status) := s in
  let q := n `div` 10 ^ Z.of_nat k in
  r = n `mod` 10 ^ Z.of_nat k /\ Div = 10 ^ Z.of_nat k `div` 10 /\
  ((q = 0 /\ j = 0 /\ Status = 0 /\ exists c, str = c :: drop 1 junk /\ ((k < 10)%nat -> c = 48))
   \/ (0 < q /\ j = zlen (decimal q) /\ 0 < Status /\ str = decimal q ++ drop (length (decimal q)) junk)).

Lemma int2str_step n junk k s : 0 <= n < 2 ^ 32 -> length junk = 10%nat -> int2str_inv n junk (S k) s ->
  exists s', Int2Str_step s = Some s' /\ int2str_inv n junk k s'.
Proof.
  destruct s as [[[[str j] r] Div] St]. intros Hn Hj (-> & -> & Hs). unfold Int2Str_step.
  rewrite Nat2Z.inj_succ, Z.pow_succ_r in * by lia. set (T := 10 ^ Z.of_nat k) in *.
  assert (0 < T) as HT by (unfold T; lia).
  replace ((10 * T) `div` 10) with T by (rewrite (Z.mul_comm 10 T), Z.div_mul; lia). zfalse (T =? 0).
  set (q := n `div` (10 * T)) in *. set (d := (n `mod` (10 * T)) `div` T).
  assert (n = 10 * T * q + n `mod` (10 * T)) as Hq by (unfold q; apply Z.div_mod; lia).
  assert (0 <= n `mod` (10 * T) < 10 * T) as Hr by (apply Z.mod_pos_bound; lia).
  assert (n `mod` (10 * T) = T * d + (n `mod` (10 * T)) `mod` T) as Hd by (unfold d; apply Z.div_mod; lia).
  assert (0 <= (n `mod` (10 * T)) `mod` T < T) as Hr2 by (apply Z.mod_pos_bound; lia).
  assert (0 <= d < 10) as Hd9 by (split; [apply Z.div_pos; lia | apply Z.div_lt_upper_bound; lia]).
  assert (n `div` T = 10 * q + d /\ n `mod` T = (n `mod` (10 * T)) `mod` T) as [Hq' Hr'].
  { split; symmetry; [apply (Z.div_unique _ _ _ ((n `mod` (10 * T)) `mod` T)) | apply (Z.mod_unique _ _ (10 * q + d))]; lia. }
  assert (0 <= q) as Hq0 by (apply Z.div_pos; lia).
  destruct Hs as [(H0 & -> & -> & c & -> & Hc)|(Hp & -> & HSt & ->)].
  - rewrite (wr8_at [] c (drop 1 junk)), bind_Some by (done || lia).
    rewrite (rd8_skip [] _ _ 0) by (cbn; lia). cbn [lookup list_lookup app]. rewrite bind_Some, Z.eqb_refl, andb_true_r, <- Hr'.
    destruct (Z.eqb_spec (d + 48) 48) as [Hd0|Hd0]; eexists; (split; [done|]); unfold int2str_inv; fold T;
      rewrite Hq', H0; (split; [done|]); (split; [done|]).
    + left. assert (d = 0) as -> by lia. split; [done|]. split; [done|]. split; [done|]. by eexists.
    + right. rewrite decimal_small by lia. split; [lia|]. split; [done|]. split; [lia|].
      cbn [length app]. by rewrite (Z.add_comm 48).
  - assert (10 * q + d < 2 ^ 32) as Hmax by (rewrite <- Hq'; apply Z.div_lt_upper_bound; nia).
    pose proof (decimal_snoc q d Hp Hd9 Hmax) as Hsn.
    assert (length (decimal q) < 10)%nat as Hl.
    { pose proof (decimal_length (10 * q + d)) as Hl. rewrite Hsn, length_app in Hl. cbn [length] in Hl. lia. }
    destruct (drop (length (decimal q)) junk) as [|x rest] eqn:Hdrop.
    { apply (f_equal length) in Hdrop. rewrite length_drop in Hdrop. cbn [length] in Hdrop. lia. }
    rewrite (wr8_at (decimal q)), bind_Some by (done || lia).
    rewrite (rd8_skip (decimal q) _ _ 0) by lia. cbn [lookup list_lookup]. rewrite bind_Some.
    zfalse (St =? 0). rewrite andb_false_r, <- Hr'. eexists. split; [done|]. unfold int2str_inv. fold T.
    rewrite Hq', Hsn. split; [done|]. split; [done|]. right. split; [lia|].
    split; [rewrite length_app; cbn [length]; lia|]. split; [lia|]. rewrite length_app, <- app_assoc. cbn [length app].
    rewrite <- drop_drop, Hdrop. by rewrite (Z.add_comm d).
Qed.

(** [Int2Str] writes the decimal text and nothing behind it, no NUL either. *)
Lemma Int2Str_spec n junk : 0 <= n < 2 ^ 32 -> length junk = 10%nat ->
  Int2Str junk n = Some (decimal n ++ drop (length (decimal n)) junk).
Proof.
  intros Hn Hj. unfold Int2Str. rewrite u32_id by lia.
  assert (forall k i s, int2str_inv n junk k s ->
            exists s', for_range k i (fun _ => Int2Str_step) s = Some s' /\ int2str_inv n junk 0 s') as Hl.
  { induction k as [|k IH]; intros i s Hs; [by exists s|]. cbn [for_range].
    destruct (int2str_step n junk k s Hn Hj Hs) as (s1 & -> & Hs1). rewrite bind_Some. by apply IH. }
  destruct (Hl 10%nat 0 (junk, 0, n, 1000000000, 0)) as ([[[[str j] r] Div] St] & -> & _ & _ & Hs).
  { unfold int2str_inv. change (10 ^ Z.of_nat 10) with 10000000000. split; [zlia|]. split; [done|]. left.
    split; [zlia|]. split; [done|]. split; [done|]. destruct junk as [|c junk]; [done|]. exists c. split; [done|]. lia. }
  rewrite bind_Some. f_equal. change (10 ^ Z.of_nat 0) with 1 in Hs. rewrite Z.div_1_r in Hs.
  destruct Hs as [(-> & _ & _ & c & -> & Hc)|(_ & _ & _ & ->)]; [|done].
  rewrite decimal_small by lia. rewrite Hc by lia. done.
Qed.

Definition text_value (v : Z) (l : list Z) : Z := fold_left (fun v c => v * 10 + (c - 48)) l v.

Lemma text_value_digits f n : 0 <= n < 10 ^ Z.of_nat f -> text_value 0 (digits f n) = n.
Proof.
  revert n. induction f as [|f IH]; intros n Hn; [cbn in *; lia|]. cbn [digits]. case_if; zbool; [cbn; lia|].
  rewrite Nat2Z.inj_succ, Z.pow_succ_r in Hn by lia.
  unfold text_value in *. rewrite fold_left_app, IH by zlia. cbn [fold_left]. zlia.
Qed.

Lemma text_value_mono l v : Forall (fun c => 48 <= c <= 57) l -> 0 <= v -> v <= text_value v l.
Proof.
  intros Hl. revert v. induction Hl as [|c l Hc _ IH]; intros v Hv; [done|].
  etransitivity; [|apply (IH (v * 10 + (c - 48))); lia]. lia.
Qed.

Lemma dec_step_end pre rest v : 0 <= v < 2 ^ 31 ->
  dec_step (pre ++ 0 :: rest) (zlen pre) v = Some (inr (1, Some v)).
Proof.
  intros Hv. unfold dec_step. rewrite (rd8_skip pre _ _ 0) by lia. cbn [lookup list_lookup].
  rewrite bind_Some. unfold to_int32. by ztrue (v <? 2 ^ 31).
Qed.

Lemma dec_step_digit pre c rest v : 48 <= c <= 57 -> 0 <= v -> v * 10 + (c - 48) < 2 ^ 31 ->
  dec_step (pre ++ c :: rest) (zlen pre) v = Some (inl (v * 10 + (c - 48))).
Proof.
  intros Hc Hv Hm. unfold dec_step. rewrite (rd8_skip pre _ _ 0) by lia. cbn [lookup list_lookup].
  rewrite bind_Some. zfalse (c =? 0). zfalse ((c =? 107) || (c =? 75)). zfalse ((c =? 109) || (c =? 77)). cbn [andb].
  unfold IS_09. ztrue ((48 <=? c) && (c <=? 57)). by rewrite u32_id by lia.
Qed.

Lemma dec_loop l rest pre k v :
  Forall (fun c => 48 <= c <= 57) l -> (length l < k)%nat -> 0 <= v -> text_value v l < 2 ^ 31 ->
  for_ret k (zlen pre) (dec_step (pre ++ l ++ 0 :: rest)) v = Some (inr (1, Some (text_value v l))).
Proof.
  intros Hl. revert pre k v. induction Hl as [|c l Hc Hl IH]; intros pre k v Hk Hv Hmax;
    (destruct k as [|k]; [cbn in Hk; lia|]); cbn [for_ret app].
  - by rewrite dec_step_end.
  - assert (text_value v (c :: l) = text_value (v * 10 + (c - 48)) l) as Hs by done. rewrite Hs in *.
    pose proof (text_value_mono l (v * 10 + (c - 48)) Hl ltac:(lia)).
    rewrite dec_step_digit, bind_Some by lia.
    specialize (IH (pre ++ [c]) k (v * 10 + (c - 48))). rewrite <- app_assoc in IH. cbn [app] in IH.
    replace (zlen pre + 1) with (zlen (pre ++ [c])) by (rewrite length_app; cbn [length]; lia).
    apply IH; [cbn [length] in Hk; lia | lia | done].
Qed.

(** Texts of digits are read as decimal numbers, also those that start with 0. *)
Lemma Str2Int_digits l rest x : Forall (fun c => 48 <= c <= 57) l -> (0 < length l < 11)%nat ->
  text_value 0 l < 2 ^ 31 -> Str2Int (l ++ 0 :: rest) x = Some (1, text_value 0 l).
Proof.
  intros Hc Hl Hv. pose proof (dec_loop l rest [] 11 0 Hc ltac:(lia) ltac:(lia) Hv) as Hd.
  cbn [app] in Hd. change (zlen []) with 0 in Hd. unfold Str2Int. rewrite Hd.
  destruct l as [|c l]; [cbn [length] in Hl; lia|]. cbn [app].
  change (rd8 (c :: l ++ 0 :: rest) 0) with (Some c). rewrite bind_Some.
  assert (exists c1 m, l ++ 0 :: rest = c1 :: m /\ c1 < 58) as (c1 & m & -> & Hc1).
  { inversion_clear Hc as [|? ? _ Hc']. destruct Hc' as [|c1 l' ? _]; eexists _, _; (split; [done|]); lia. }
  assert ((c1 =? 120) || (c1 =? 88) = false) as Hx by (repeat zcase; lia || done).
  change (rd8 (c :: c1 :: m) 1) with (Some c1). destruct (c =? 48); rewrite !bind_Some; [|done].
  by rewrite Hx.
Qed.

Lemma decimal_value n : 0 <= n < 2 ^ 32 -> text_value 0 (decimal n) = n.
Proof. intros. apply text_value_digits. change (10 ^ Z.of_nat 10) with 10000000000. lia. Qed.

Lemma decimal_nonempty n : decimal n <> [].
Proof. unfold decimal. cbn [digits]. case_if; [done|]. intros [_ H]%app_eq_nil. done. Qed.

(** The text of a size reads back as the size. *)
Lemma Str2Int_decimal n rest x : 0 <= n < 2 ^ 31 -> Str2Int (decimal n ++ 0 :: rest) x = Some (1, n).
Proof.
  intros Hn. rewrite Str2Int_digits; rewrite ?decimal_value by lia; try lia; [done | by apply digits_chars; lia |].
  pose proof (decimal_length n). pose proof (decimal_nonempty n). destruct (decimal n); cbn [length] in *; [done | lia].
Qed.

(** ** Packets *)

Lemma fill_loop (src : Z -> option Z) vs pre junk :
  (forall k v, vs !! k = Some v -> src (zlen pre + Z.of_nat k) = Some v) -> bytes_ok vs ->
  (length vs <= length junk)%nat ->
  for_range (length vs) (zlen pre) (fun i d => c ← src i; wr8 d i c) (pre ++ junk)
  = Some (pre ++ vs ++ drop (length vs) junk).
Proof.
  revert pre junk. induction vs as [|v vs IH]; intros pre junk Hs Hb Hl; [done|].
  inversion_clear Hb as [|? ? Hv Hb']. destruct junk as [|y junk]; [cbn [length] in Hl; lia|].
  cbn [length for_range]. pose proof (Hs 0%nat v eq_refl) as H0. rewrite Z.add_0_r in H0. rewrite H0, bind_Some.
  rewrite (wr8_at pre), bind_Some by done.
  specialize (IH (pre ++ [v]) junk). rewrite <- !app_assoc in IH. cbn [app] in IH.
  replace (zlen pre + 1) with (zlen (pre ++ [v])) by (rewrite length_app; cbn [length]; lia).
  rewrite IH; [done | | done | cbn [length] in Hl; lia].
  intros k w Hk. rewrite length_app. cbn [length]. rewrite <- (Hs (S k) w Hk). f_equal. lia.
Qed.

Lemma fill_const c n pre junk : is_u8 c -> (n <= length junk)%nat ->
  for_range n (zlen pre) (fun i d => wr8 d i c) (pre ++ junk) = Some (pre ++ replicate n c ++ drop n junk).
Proof.
  intros Hc Hn. pose proof (fill_loop (fun _ => Some c) (replicate n c) pre junk) as H.
  rewrite length_replicate in H. apply H; [|by apply Forall_replicate | done].
  intros k v Hk. apply lookup_replicate in Hk as [-> _]. done.
Qed.

Lemma copy_name_spec l fuel pre dn junk more :
  Forall (fun c => is_u8 c /\ c <> 0) l -> (length l < fuel)%nat -> (length l <= length junk)%nat ->
  zlen pre = zlen dn + 3 -> zlen dn + zlen l <= 255 ->
  copy_name fuel (pre ++ junk) (dn ++ l ++ 0 :: more) (zlen dn)
  = Some (pre ++ l ++ drop (length l) junk, zlen dn + zlen l).
Proof.
  intros Hl. revert fuel pre dn junk.
  induction Hl as [|c l [Hc H0] _ IH]; intros fuel pre dn junk Hf Hj Hp Hm;
    (destruct fuel as [|fuel]; [lia|]); cbn [copy_name app].
  - rewrite (rd8_skip dn _ _ 0) by lia. cbn [lookup list_lookup]. rewrite bind_Some. cbn [Z.eqb negb andb length].
    by rewrite Z.add_0_r.
  - rewrite (rd8_skip dn _ _ 0) by lia. cbn [lookup list_lookup]. rewrite bind_Some. cbn [length] in *.
    rewrite (proj2 (Z.eqb_neq c 0) H0). unfold FILE_NAME_LENGTH, PACKET_HEADER. ztrue (zlen dn <? 256). cbn [negb andb].
    destruct junk as [|y junk]; [cbn [length] in Hj; lia|]. cbn [length] in Hj.
    rewrite (wr8_at pre), bind_Some by (done || lia).
    specialize (IH fuel (pre ++ [c]) (dn ++ [c]) junk). rewrite <- !app_assoc, !length_app in IH. cbn [app length] in IH.
    replace (zlen dn + 1) with (Z.of_nat (length dn + 1)) by lia.
    rewrite IH by lia. cbn [drop]. do 2 f_equal. lia.
Qed.

Lemma copy_digits_spec l fuel pre dn junk more :
  Forall (fun c => is_u8 c /\ c <> 0) l -> (length l < fuel)%nat -> (length l <= length junk)%nat ->
  copy_digits fuel (pre ++ junk) (dn ++ l ++ 0 :: more) (zlen pre) (zlen dn)
  = Some (pre ++ l ++ drop (length l) junk, zlen pre + zlen l).
Proof.
  intros Hl. revert fuel pre dn junk.
  induction Hl as [|c l [Hc H0] _ IH]; intros fuel pre dn junk Hf Hj;
    (destruct fuel as [|fuel]; [lia|]); cbn [copy_digits app].
  - rewrite (rd8_skip dn _ _ 0) by lia. cbn [lookup list_lookup]. rewrite bind_Some. cbn [Z.eqb negb length].
    by rewrite Z.add_0_r.
  - rewrite (rd8_skip dn _ _ 0) by lia. cbn [lookup list_lookup]. rewrite bind_Some. cbn [length] in *.
    rewrite (proj2 (Z.eqb_neq c 0) H0). cbn [negb].
    destruct junk as [|y junk]; [cbn [length] in Hj; lia|]. cbn [length] in Hj.
    rewrite (wr8_at pre), bind_Some by done.
    specialize (IH fuel (pre ++ [c]) (dn ++ [c]) junk). rewrite <- !app_assoc, !length_app in IH. cbn [app length] in IH.
    replace (zlen dn + 1) with (Z.of_nat (length dn + 1)) by lia.
    replace (zlen pre + 1) with (Z.of_nat (length pre + 1)) by lia.
    rewrite IH by lia. cbn [drop]. do 2 f_equal. lia.
Qed.

(** The first packet: name, NUL, size in decimal, zeros. *)
Definition info_packet (name : list Z) (n : Z) : list Z :=
  [SOH; 0; 255] ++ name ++ [0] ++ decimal n ++ replicate (127 - length name - length (decimal n)) 0.

(** The bytes of a packet array behind its first three. *)
Lemma header_bytes a b c data : is_u8 a -> is_u8 b -> is_u8 c -> (3 <= length data)%nat ->
  (data ← wr8 data 0 a; data ← wr8 data 1 b; wr8 data 2 c) = Some ([a; b; c] ++ drop 3 data).
Proof.
  intros Ha Hb Hc Hl. destruct data as [|x [|y [|z data]]]; cbn [length] in Hl; try lia.
  rewrite (wr8_at [] x (y :: z :: data)), bind_Some by done.
  rewrite (wr8_at [a] y (z :: data)), bind_Some by done. by rewrite (wr8_at [a; b] z data) by done.
Qed.

Lemma header_bind {B} (k : list Z -> option B) a b c data : is_u8 a -> is_u8 b -> is_u8 (u8 c) -> (3 <= length data)%nat ->
  (data ← wr8 data 0 a; data ← wr8 data 1 b; data ← wr8 data 2 c; k data) = k ([a; b; u8 c] ++ drop 3 data).
Proof.
  intros Ha Hb Hc Hl. pose proof (header_bytes a b (u8 c) data Ha Hb Hc Hl) as H.
  destruct (wr8 data 0 a) as [d1|]; [|done]. rewrite bind_Some in H. rewrite bind_Some.
  destruct (wr8 d1 1 b) as [d2|]; [|done]. rewrite bind_Some in H. rewrite bind_Some.
  replace (wr8 d2 2 c) with (wr8 d2 2 (u8 c)); [by rewrite H|]. unfold wr8. by rewrite (u8_id (u8 c)).
Qed.

Lemma decimal_chars n : 0 <= n -> Forall (fun c => is_u8 c /\ c <> 0) (decimal n).
Proof.
  intros Hn. eapply Forall_impl; [by apply (digits_chars 10 n)|]. cbn. lia.
Qed.

Lemma Ymodem_PrepareIntialPacket_spec junk data name more n :
  length junk = 10%nat -> 0 <= n < 2 ^ 32 -> junk !! length (decimal n) = Some 0 ->
  (131 <= length data)%nat -> Forall (fun c => is_u8 c /\ c <> 0) name ->
  (length name + length (decimal n) <= 127)%nat ->
  Ymodem_PrepareIntialPacket junk data (name ++ 0 :: more) n = Some (info_packet name n ++ drop 131 data).
Proof.
  intros Hj Hn H0 Hd Hname Hlen. unfold Ymodem_PrepareIntialPacket.
  rewrite header_bind by (done || lia). change (u8 255) with 255.
  set (junk1 := drop 3 data). assert (length junk1 = length data - 3)%nat as Hj1 by apply length_drop.
  pose proof (copy_name_spec name (S (Z.to_nat FILE_NAME_LENGTH)) [SOH; 0; 255] [] junk1 more Hname) as Hc.
  cbn [app length] in Hc. change (Z.of_nat 0) with 0 in Hc.
  change (S (Z.to_nat FILE_NAME_LENGTH)) with 257%nat in *. cbn [app] in Hc |- *.
  rewrite Hc, bind_Some by lia. clear Hc.
  set (P := [SOH; 0; 255] ++ name). set (L := length name) in *. set (d := length (decimal n)) in *.
  assert (length P = L + 3)%nat as HP by (unfold P; rewrite length_app; cbn [length]; lia).
  change (SOH :: 0 :: 255 :: name ++ drop L junk1) with (P ++ drop L junk1).
  destruct (drop L junk1) as [|y junk2] eqn:Hy.
  { apply (f_equal length) in Hy. rewrite length_drop in Hy. cbn [length] in Hy. lia. }
  assert (junk2 = drop (L + 4) data) as Hj2.
  { pose proof (drop_drop junk1 1 L) as E. rewrite Hy in E. change (drop 1 (y :: junk2)) with junk2 in E. rewrite E. unfold junk1. rewrite drop_drop. f_equal. lia. }
  unfold PACKET_HEADER, PACKET_128B_SIZE.
  rewrite (wr8_at P), bind_Some by lia. rewrite Int2Str_spec, bind_Some by done. fold d.
  rewrite (drop_S junk 0 d H0).
  pose proof (copy_digits_spec (decimal n) 11 (P ++ [0]) [] junk2 (drop (S d) junk) (decimal_chars n ltac:(lia))) as Hc.
  pose proof (decimal_length n). cbn [app] in Hc. change (zlen []) with 0 in Hc.
  rewrite <- app_assoc in Hc. cbn [app] in Hc. rewrite !length_app in Hc. cbn [length] in Hc.
  replace (0 + Z.of_nat L + 3 + 1) with (Z.of_nat (length P + 1)) by lia.
  rewrite Hc, bind_Some by (rewrite ?Hj2, ?length_drop; lia). fold d.
  set (Q := P ++ 0 :: decimal n).
  assert (length Q = L + d + 4)%nat as HQ by (unfold Q; rewrite length_app; cbn [length]; lia).
  replace ((P ++ [0]) ++ decimal n ++ drop d junk2) with (Q ++ drop d junk2) by (unfold Q; by rewrite <- !app_assoc).
  replace (Z.of_nat (length P + 1) + Z.of_nat d) with (zlen Q) by lia.
  replace (Z.to_nat (128 + 3 - zlen Q)) with (127 - L - d)%nat by lia.
  rewrite fill_const by (try lia; rewrite Hj2, !length_drop; lia). f_equal.
  unfold info_packet, Q, P. fold L d. rewrite Hj2, !drop_drop. replace (L + 4 + (d + (127 - L - d)))%nat with 131%nat by lia.
  cbn [app]. rewrite <- !app_assoc. cbn [app]. by rewrite <- ?app_assoc.
Qed.

(** A block: the number of its packet, its bytes, and 0x1A up to the size of the
    packet. *)
Definition block_size (n : Z) : Z := if n >=? 1024 then 1024 else 128.
Definition block_packet (k : Z) (chunk : list Z) (size : Z) : list Z :=
  [if size =? 1024 then STX else SOH; u8 k; 255 - u8 k]
    ++ chunk ++ replicate (Z.to_nat size - length chunk) 0x1A.

Lemma lnot_u8 k : is_u8 k -> u8 (Z.lnot k) = 255 - k.
Proof. intros. unfold u8, Z.lnot. zlia. Qed.

Lemma Ymodem_PreparePacket_spec data k l n :
  is_u8 k -> bytes_ok l -> 0 < n <= zlen l -> length data = 1029%nat ->
  Ymodem_PreparePacket l data k n
  = Some (block_packet k (take (Z.to_nat (block_size n)) (take (Z.to_nat n) l)) (block_size n)
          ++ drop (3 + Z.to_nat (block_size n)) data).
Proof.
  intros Hk Hl Hn Hd. unfold Ymodem_PreparePacket, PACKET_1KB_SIZE, PACKET_128B_SIZE, PACKET_HEADER, block_size.
  set (ps := if n >=? 1024 then 1024 else 128). set (size := if n <? ps then n else ps).
  assert ((ps = 128 \/ ps = 1024) /\ 0 < size <= ps /\ size <= n /\ (n <= ps -> size = n) /\ (ps <= n -> size = ps)) as (Hps & Hs & Hsn & Hs1 & Hs2).
  { unfold size, ps. repeat case_if; zbool; lia. }
  set (t := if ps =? 1024 then STX else SOH). assert (is_u8 t) as Ht by (unfold t; case_if; done).
  rewrite header_bind by (auto with bigbox || lia). rewrite lnot_u8 by done.
  set (P := [t; k; 255 - k]). set (junk := drop 3 data).
  assert (length junk = 1026)%nat as Hj by (unfold junk; rewrite length_drop; lia).
  set (chunk := take (Z.to_nat ps) (take (Z.to_nat n) l)).
  assert (zlen chunk = size) as Hc by (unfold chunk; rewrite !length_take; lia).
  pose proof (fill_loop (fun i => rd8 l (i - 3)) chunk P junk) as Hf.
  replace (length chunk) with (Z.to_nat size) in Hf by lia. change (zlen P) with 3 in Hf.
  rewrite Hf, bind_Some; clear Hf; [| | unfold chunk; by repeat apply Forall_take | lia].
  2: { intros i v Hi. unfold rd8. replace (3 + Z.of_nat i - 3) with (Z.of_nat i) by lia. rewrite znth_of_nat.
       unfold chunk in Hi. by do 2 apply lookup_take_Some in Hi as [Hi _]. }
  ztrue (size <=? ps). set (Q := P ++ chunk).
  assert (zlen Q = size + 3) as HQ by (unfold Q; rewrite length_app; cbn [length P]; lia).
  replace (P ++ chunk ++ drop (Z.to_nat size) junk) with (Q ++ drop (Z.to_nat size) junk) by (unfold Q; by rewrite <- app_assoc).
  rewrite <- HQ, fill_const by (try done; rewrite length_drop; lia). f_equal.
  unfold block_packet, Q, P. rewrite u8_id by lia. rewrite <- !app_assoc. do 2 f_equal.
  replace (Z.to_nat (ps - size)) with (Z.to_nat ps - length chunk)%nat by lia. f_equal.
  unfold junk. rewrite !drop_drop. f_equal. lia.
Qed.

(** ** Sending *)

(** A packet on the line: its bytes and the check of what follows its number. *)
Definition frame (p : list Z) : list Z :=
  p ++ [xmodem (drop 3 p) `div` 256; xmodem (drop 3 p) `mod` 256].

Definition send_bytes (l : serial) (bytes : list Z) : serial := mkLine (rx l) (tx l ++ bytes).

Lemma Ymodem_SendPacket_spec l p junk : Ymodem_SendPacket l (p ++ junk) (zlen p) = Some (send_bytes l p).
Proof.
  unfold Ymodem_SendPacket. rewrite Nat2Z.id.
  assert (forall q pre l, for_range (length q) (zlen pre)
            (fun i l => b ← rd8 (pre ++ q ++ junk) i; Some (Send_Byte l b)) l = Some (send_bytes l q)) as H.
  { induction q as [|b q IH]; intros pre l'; cbn [length for_range app].
    - unfold send_bytes. rewrite app_nil_r. by destruct l'.
    - rewrite (rd8_skip pre _ _ 0) by lia. cbn [lookup list_lookup]. rewrite !bind_Some.
      specialize (IH (pre ++ [b]) (Send_Byte l' b)). rewrite <- app_assoc in IH. cbn [app] in IH.
      replace (zlen pre + 1) with (zlen (pre ++ [b])) by (rewrite length_app; cbn [length]; lia).
      rewrite IH. unfold send_bytes, Send_Byte. cbn [rx tx]. by rewrite <- app_assoc. }
  exact (H p [] l).
Qed.

Lemma send_with_crc_spec l p junk n : zlen p = n + 3 -> 0 <= n -> bytes_ok (p ++ junk) ->
  send_with_crc l (p ++ junk) n = Some (send_bytes l (frame p)).
Proof.
  intros Hp Hn Hb. unfold send_with_crc, PACKET_HEADER. rewrite <- Hp, Ymodem_SendPacket_spec, bind_Some.
  rewrite drop_app_le by lia. apply Forall_app in Hb as [Hb1 Hb2].
  assert (length (drop 3 p) = Z.to_nat n) as Hl by (rewrite length_drop; lia).
  rewrite Cal_CRC16_spec, bind_Some.
  2: { rewrite length_app, Hl. lia. }
  2: { apply Forall_app_2; [by apply Forall_drop | done]. }
  rewrite <- Hl, take_app_length. pose proof (xmodem_range (drop 3 p) ltac:(by apply Forall_drop)) as Hx.
  set (x := xmodem (drop 3 p)) in *. unfold send_bytes, Send_Byte, frame. fold x. cbn [rx tx].
  rewrite Z.shiftr_div_pow2 by lia. change (2 ^ 8) with 256. change 0xFF with (Z.ones 8). rewrite Z.land_ones by lia.
  change (2 ^ 8) with 256. rewrite !u8_id by zlia. by rewrite <- !app_assoc.
Qed.

(** *** Messages offered until they are acknowledged

    In the [strict] case every answer but [ACK] is an error, otherwise only a
    timeout is. *)
Definition is_error (strict : bool) (r : option Z) : bool :=
  if strict then bool_decide (r <> Some ACK) else bool_decide (r = None).

Fixpoint offer (fuel : nat) (strict : bool) (msg : list Z) (l : serial) (errors : Z) : option (Z * serial) :=
  match fuel with
  | O => None
  | S fuel =>
      let '(r, l) := Receive_Byte (send_bytes l msg) in
      let errors := if is_error strict r then errors + 1 else errors in
      if bool_decide (r <> Some ACK) && (errors <? 10) then offer fuel strict msg l errors
      else Some (errors, l)
  end.

Fixpoint offer_all (fuel : nat) (msgs : list (bool * list Z)) (l : serial) : option (Z * serial) :=
  match msgs with
  | [] => Some (0, l)
  | (strict, msg) :: msgs =>
      '(errors, l) ← offer (if strict then 10%nat else fuel) strict msg l 0;
      return_if errors >=? 10 with Some (errors, l) ;;
      offer_all fuel msgs l
  end.

Lemma offer_all_app fuel ms ms' l :
  offer_all fuel (ms ++ ms') l
  = '(errors, l) ← offer_all fuel ms l;
    return_if errors >=? 10 with Some (errors, l) ;;
    offer_all fuel ms' l.
Proof.
  revert l. induction ms as [|[strict m] ms IH]; intros l; cbn [app offer_all]; [done|].
  destruct (offer _ strict m l 0) as [[e l1]|]; [|done]. rewrite !bind_Some.
  destruct (e >=? 10) eqn:E; [by rewrite bind_Some, E | apply IH].
Qed.

Lemma info_loop_offers fuel l p junk e : zlen p = 131 -> bytes_ok (p ++ junk) ->
  info_loop fuel l (p ++ junk) e = offer fuel false (frame p) l e.
Proof.
  intros Hp Hb. revert l e. induction fuel as [|fuel IH]; intros l e; [done|]. cbn [info_loop offer].
  unfold PACKET_128B_SIZE in *. rewrite send_with_crc_spec, bind_Some by (done || lia).
  destruct (Receive_Byte (send_bytes l (frame p))) as [[b|] l']; cbn [is_error];
    [destruct (decide (b = ACK)) as [->|Hne] | ]; repeat (case_bool_decide; try done); try congruence; cbn [negb andb];
    by rewrite IH.
Qed.

Lemma block_loop_offers fuel l p junk n e : zlen p = n + 3 -> 0 <= n -> bytes_ok (p ++ junk) ->
  block_loop fuel l (p ++ junk) n e = offer fuel true (frame p) l e.
Proof.
  intros Hp Hn Hb. revert l e. induction fuel as [|fuel IH]; intros l e; [done|]. cbn [block_loop offer].
  rewrite send_with_crc_spec, bind_Some by done.
  destruct (Receive_Byte (send_bytes l (frame p))) as [r l']. cbn [is_error].
  destruct (decide (r = Some ACK)) as [->|Hne]; [done|]. rewrite (bool_decide_eq_false_2 (r = Some ACK)) by done.
  rewrite (bool_decide_eq_true_2 (r <> Some ACK)) by done. cbn [negb andb]. by rewrite IH.
Qed.

Lemma eot_loop_offers fuel l e : eot_loop fuel false l e = offer fuel true [EOT] l e.
Proof.
  revert l e. induction fuel as [|fuel IH]; intros l e; [done|]. cbn [eot_loop offer].
  change (Send_Byte l EOT) with (send_bytes l [EOT]).
  destruct (Receive_Byte (send_bytes l [EOT])) as [r l']. cbn [is_error].
  destruct (decide (r = Some ACK)) as [->|Hne]; [done|]. rewrite (bool_decide_eq_false_2 (r = Some ACK)) by done.
  rewrite (bool_decide_eq_true_2 (r <> Some ACK)) by done. cbn [negb andb]. by rewrite IH.
Qed.

(** The last [EOT]: sent once; its answer only counts as one more error. *)
Definition last_eot (l : serial) (errors : Z) : Z * serial :=
  let '(r, l) := Receive_Byte (send_bytes l [EOT]) in
  (if bool_decide (r = Some ACK) then errors else errors + 1, l).

Lemma eot_loop_once fuel l e : eot_loop (S fuel) true l e = Some (last_eot l e).
Proof.
  cbn [eot_loop]. unfold last_eot. change (Send_Byte l EOT) with (send_bytes l [EOT]).
  destruct (Receive_Byte (send_bytes l [EOT])) as [r l']. by case_bool_decide.
Qed.

(** *** The file as blocks *)

Fixpoint file_blocks (fuel : nat) (k : Z) (l : list Z) : list (list Z) :=
  match fuel, l with
  | S fuel, _ :: _ =>
      let n := block_size (zlen l) in
      block_packet k (take (Z.to_nat n) l) n :: file_blocks fuel (k + 1) (drop (Z.to_nat n) l)
  | _, _ => []
  end.

Definition blocks (k : Z) (l : list Z) : list (list Z) := file_blocks (length l) k l.

Definition block_messages (k : Z) (l : list Z) : list (bool * list Z) :=
  (fun p => (true, frame p)) <$> blocks k l.

Lemma block_size_range n : 0 < n -> (block_size n = 128 \/ block_size n = 1024) /\ (1024 <= n -> block_size n = 1024).
Proof. intros. unfold block_size. case_if; zbool; lia. Qed.

Lemma file_blocks_fuel f g k l : (length l <= f)%nat -> (length l <= g)%nat -> file_blocks f k l = file_blocks g k l.
Proof.
  revert g k l. induction f as [|f IH]; intros g k l Hf Hg; (destruct l as [|b l]; [by destruct g|]); cbn [length] in *; [lia|].
  destruct g as [|g]; [lia|]. cbn [file_blocks]. f_equal.
  destruct (block_size_range (zlen (b :: l))) as [Hn _]; [cbn [length]; lia|].
  set (n := block_size _) in *. clearbody n.
  apply IH; rewrite length_drop; cbn [length]; lia.
Qed.

Lemma blocks_step k l : l <> [] ->
  blocks k l = block_packet k (take (Z.to_nat (block_size (zlen l))) l) (block_size (zlen l))
                 :: blocks (k + 1) (drop (Z.to_nat (block_size (zlen l))) l).
Proof.
  intros Hl. unfold blocks. destruct l as [|b l]; [done|]. cbn [length file_blocks].
  destruct (block_size_range (zlen (b :: l))) as [Hn _]; [cbn [length]; lia|].
  set (n := block_size _) in *. clearbody n.
  f_equal. apply file_blocks_fuel; rewrite length_drop; cbn [length]; lia.
Qed.

Lemma block_packet_length k chunk n : zlen chunk <= n -> zlen (block_packet k chunk n) = n + 3.
Proof. intros. unfold block_packet. rewrite !length_app, length_replicate. cbn [length]. lia. Qed.

Lemma block_packet_ok k chunk n : bytes_ok chunk -> bytes_ok (block_packet k chunk n).
Proof.
  intros Hc. unfold block_packet. assert (is_u8 (u8 k)) by auto with bigbox.
  repeat apply Forall_app_2; [|done | by apply Forall_replicate].
  repeat apply Forall_cons_2; try lia; [case_if; done | by apply Forall_nil_2].
Qed.

Lemma u8_u16 k : u8 (u16 k) = u8 k.
Proof. unfold u8, u16. zlia. Qed.

Lemma data_loop_offers fuel g buf size ptr k l pd :
  length pd = 1029%nat -> bytes_ok pd -> bytes_ok buf -> 0 <= ptr -> 0 <= size -> ptr + size <= zlen buf ->
  (Z.to_nat size < fuel)%nat ->
  exists pd', length pd' = 1029%nat /\ bytes_ok pd'
    /\ data_loop fuel l buf pd ptr (u16 k) size
       = '(e, l) ← offer_all g (block_messages k (take (Z.to_nat size) (drop (Z.to_nat ptr) buf))) l;
         Some (e, pd', l).
Proof.
  revert size ptr k l pd. induction fuel as [|fuel IH]; intros size ptr k l pd Hpd Hpo Hbo Hptr Hsize Hin Hf; [lia|].
  cbn [data_loop]. destruct (Z.eqb_spec size 0) as [->|Hne].
  { exists pd. split; [done|]. split; [done|]. change (Z.to_nat 0) with 0%nat. by rewrite take_0. }
  set (src := drop (Z.to_nat ptr) buf). set (rem := take (Z.to_nat size) src).
  assert (zlen rem = size) as Hrem by (unfold rem, src; rewrite length_take, length_drop; lia).
  assert (bytes_ok src) as Hso by (by apply Forall_drop). assert (bytes_ok rem) as Hro by (by apply Forall_take).
  set (n := block_size size). destruct (block_size_range size ltac:(lia)) as [Hn Hn']. fold n in Hn, Hn'.
  rewrite Ymodem_PreparePacket_spec, bind_Some; [|auto with bigbox | done | unfold src; rewrite length_drop; lia | done].
  fold rem. fold n. set (P := block_packet (u8 (u16 k)) (take (Z.to_nat n) rem) n).
  assert (P = block_packet k (take (Z.to_nat n) rem) n) as HP.
  { unfold P, block_packet. by rewrite u8_u16, (u8_id (u8 k)) by auto with bigbox. }
  assert (zlen P = n + 3) as HPl by (apply block_packet_length; rewrite length_take; lia).
  assert (bytes_ok P) as HPo by (by apply block_packet_ok, Forall_take).
  set (junk := drop (3 + Z.to_nat n) pd). assert (bytes_ok (P ++ junk)) as Hall.
  { apply Forall_app_2; [done | by apply Forall_drop]. }
  assert (length (P ++ junk) = 1029%nat) as Hl1 by (unfold junk; rewrite length_app, length_drop; lia).
  change (if size >=? PACKET_1KB_SIZE then PACKET_1KB_SIZE else PACKET_128B_SIZE) with n.
  rewrite block_loop_offers by (done || lia).
  fold rem. unfold block_messages. rewrite (blocks_step k rem) by (intros E; rewrite E in Hrem; cbn [length] in Hrem; lia).
  rewrite Hrem. fold n. cbn [fmap list_fmap offer_all]. rewrite <- HP. fold (block_messages (k + 1) (drop (Z.to_nat n) rem)).
  destruct (offer 10 true (frame P) l 0) as [[e l1]|]; [|by exists (P ++ junk)]. rewrite !bind_Some.
  destruct (e >=? 10); [exists (P ++ junk); split_and!; by rewrite ?bind_Some|].
  assert (forall size', take (Z.to_nat size') (drop (Z.to_nat (ptr + n)) buf) = drop (Z.to_nat n) rem ->
            0 <= size' -> ptr + n + size' <= zlen buf \/ size' = 0 -> (Z.to_nat size' < fuel)%nat -> forall blk,
            blk = u16 (k + 1) \/ size' = 0 ->
            exists pd', length pd' = 1029%nat /\ bytes_ok pd'
              /\ data_loop fuel l1 buf (P ++ junk) (ptr + n) blk size'
                 = '(e, l) ← offer_all g (block_messages (k + 1) (drop (Z.to_nat n) rem)) l1; Some (e, pd', l)) as Hnext.
  { intros size' Hd Hs' Hb' Hf' blk Hblk. destruct (decide (size' = 0)) as [->|].
    - rewrite <- Hd. change (Z.to_nat 0) with 0%nat. rewrite take_0. exists (P ++ junk). split; [done|]. split; [done|].
      destruct fuel; [lia|]. done.
    - destruct Hblk as [->|]; [|done]. rewrite <- Hd. apply IH; try done; lia. }
  replace (u16 (u16 k + 1)) with (u16 (k + 1)) by (unfold u16; zlia).
  destruct (Z.gtb_spec size n) as [Hgt|Hle]; apply Hnext; try lia; try (by left); try (by right).
  - unfold rem, src. rewrite skipn_firstn_comm, drop_drop. f_equal; [lia|]. f_equal. lia.
  - change (Z.to_nat 0) with 0%nat. rewrite take_0. symmetry. apply drop_ge. lia.
Qed.

(** *** The whole transmission *)

Definition last_packet : list Z := [SOH; 0; 255] ++ replicate 128 0.


(** What the sender is called with: local arrays of their sizes, a NUL where the
    digits of the size end, a name that can be read for 255 bytes and that leaves
    room for the size in the first packet, and a file in memory. *)
Record sendable (packet_data FileName file_ptr buf sendFileName name data : list Z) : Prop := {
  sn_packet : length packet_data = 1029%nat /\ bytes_ok packet_data;
  sn_local_name : length FileName = 256%nat;
  sn_digits : length file_ptr = 10%nat /\ file_ptr !! length (decimal (zlen data)) = Some 0;
  sn_name : exists more, sendFileName = name ++ 0 :: more /\ (255 <= length sendFileName)%nat /\ bytes_ok sendFileName;
  sn_chars : (0 ∉ name) /\ (length name + length (decimal (zlen data)) <= 127)%nat;
  sn_file : exists rest, buf = data ++ rest /\ bytes_ok buf /\ zlen data < 2 ^ 32
}.

Lemma info_packet_length name n : (length name + length (decimal n) <= 127)%nat -> zlen (info_packet name n) = 131.
Proof. intros. unfold info_packet. rewrite !length_app, length_replicate. cbn [length]. lia. Qed.

Lemma info_packet_ok name n : 0 <= n -> bytes_ok name -> bytes_ok (info_packet name n).
Proof.
  intros Hn Hname. unfold info_packet. repeat apply Forall_app_2; try done.
  - by apply bytes_ok_decide.
  - by apply bytes_ok_decide.
  - eapply Forall_impl; [by apply decimal_chars|]. cbn. tauto.
  - by apply Forall_replicate.
Qed.

Lemma Ymodem_Transmit_offers fuel packet_data FileName file_ptr l buf sendFileName name data :
  sendable packet_data FileName file_ptr buf sendFileName name data ->
  Ymodem_Transmit fuel packet_data FileName file_ptr l buf sendFileName (zlen data)
  = '(errors, l) ← offer_all fuel ((false, frame (info_packet name (zlen data))) :: block_messages 1 data ++ [(true, [EOT])]) l;
    return_if errors >=? 10 with Some (errors, l) ;;
    '(errors, l) ← offer fuel false (frame last_packet) l 0;
    return_if errors >=? 10 with Some (errors, l) ;;
    let '(errors, l) := last_eot l errors in
    return_if errors >=? 10 with Some (errors, l) ;;
    Some (0, l).
Proof.
  intros [[Hp Hpo] HF [Hd Hd0] (more & -> & Hs & Hso) [Hnz Hnl] (rest & -> & Hbo & Hsz)].
  set (size := zlen data) in *. unfold Ymodem_Transmit, FILE_NAME_LENGTH, PACKET_HEADER, PACKET_128B_SIZE.
  set (src := name ++ 0 :: more) in *.
  pose proof (fill_loop (rd8 src) (take 255 src) [] FileName) as Hf. cbn [app] in Hf.
  rewrite length_take, Nat.min_l in Hf by lia. change (zlen []) with 0 in Hf.
  change (Z.to_nat (256 - 1)) with 255%nat. rewrite Hf, bind_Some; clear Hf; [| | by apply Forall_take | lia].
  2: { intros k v [Hk _]%lookup_take_Some. unfold rd8. by rewrite Z.add_0_l, znth_of_nat. }
  assert (take 255 src = name ++ 0 :: take (254 - length name) more) as Htk.
  { unfold src. rewrite take_app_ge by lia. f_equal. by replace (255 - length name)%nat with (S (254 - length name)) by lia. }
  apply Forall_app in Hso as [Hno _].
  assert (Forall (fun c => is_u8 c /\ c <> 0) name) as Hchars.
  { rewrite Forall_forall in Hno |- *. intros c Hc. split; [by apply Hno | by intros ->]. }
  rewrite Htk, <- app_assoc. cbn [app]. rewrite Ymodem_PrepareIntialPacket_spec, bind_Some by (done || lia).
  set (P := info_packet name size). assert (zlen P = 131) as HP by (by apply info_packet_length).
  assert (bytes_ok P) as HPo by (apply info_packet_ok; [unfold size; lia | done]).
  assert (bytes_ok (P ++ drop 131 packet_data)) as Hall by (apply Forall_app_2; [done | by apply Forall_drop]).
  rewrite info_loop_offers by done. fold size P. cbn [offer_all].
  destruct (offer fuel false (frame P) l 0) as [[e1 l1]|]; [|done]. rewrite !bind_Some.
  destruct (e1 >=? 10) eqn:E1; [by rewrite bind_Some, E1|].
  destruct (data_loop_offers (S (Z.to_nat size)) fuel (data ++ rest) size 0 1 l1 (P ++ drop 131 packet_data))
    as (pd & Hpd & Hpdo & Hrun); try done; try (rewrite ?length_app, ?length_drop; unfold size; lia).
  change (u16 1) with 1 in Hrun. rewrite Hrun. clear Hrun.
  change (Z.to_nat 0) with 0%nat. rewrite drop_0. unfold size. rewrite Nat2Z.id, take_app_length.
  rewrite offer_all_app. destruct (offer_all fuel (block_messages 1 data) l1) as [[e2 l2]|]; [|done]. rewrite !bind_Some.
  destruct (e2 >=? 10) eqn:E2; [by rewrite bind_Some, E2|]. cbn [offer_all]. rewrite eot_loop_offers.
  destruct (offer 10 true [EOT] l2 0) as [[e3 l3]|]; [|done]. rewrite !bind_Some.
  destruct (e3 >=? 10) eqn:E3; [by rewrite bind_Some, E3|]. rewrite bind_Some. change (0 >=? 10) with false. cbv iota.
  rewrite header_bind by (done || lia). change (u8 255) with 255.
  pose proof (fill_const 0 128 [SOH; 0; 255] (drop 3 pd) ltac:(lia) ltac:(rewrite length_drop; lia)) as Hz.
  change (zlen [SOH; 0; 255]) with 3 in Hz. change (Z.to_nat 128) with 128%nat. rewrite Hz, bind_Some. clear Hz.
  rewrite app_assoc. fold last_packet. rewrite info_loop_offers.
  2: { done. }
  2: { apply Forall_app_2; [by apply bytes_ok_decide | by repeat apply Forall_drop]. }
  destruct (offer fuel false (frame last_packet) l3 0) as [[e4 l4]|]; [|done]. rewrite !bind_Some.
  destruct (e4 >=? 10); [done|]. rewrite (eot_loop_once 9), bind_Some. by destruct (last_eot l4 e4).
Qed.

(** *** Outcomes *)











Lemma offer_total fuel strict msg l e : 0 <= e < 10 -> (length (rx l) + Z.to_nat (10 - e) < fuel)%nat ->
  exists e' l', offer fuel strict msg l e = Some (e', l') /\ 0 <= e' <= 10 /\ (length (rx l') <= length (rx l))%nat.
Proof.
  revert l e. induction fuel as [|fuel IH]; intros l e He Hf; [lia|]. cbn [offer].
  assert (exists r l1, Receive_Byte (send_bytes l msg) = (r, l1) /\ (length (rx l1) <= length (rx l))%nat
            /\ (r = None \/ (length (rx l1) < length (rx l))%nat)) as (r & l1 & -> & Hl1 & Hr).
  { unfold Receive_Byte, send_bytes. cbn [rx]. destruct (rx l) as [|r x]; eexists _, _; (split; [done|]); cbn [rx length]; [auto | lia]. }
  destruct (bool_decide (r <> Some ACK) && ((if is_error strict r then e + 1 else e) <? 10)) eqn:E.
  - apply andb_true_iff in E as [E1 E2]. zbool. apply bool_decide_eq_true in E1.
    assert (r = None -> is_error strict r = true) as Hn.
    { intros ->. destruct strict; by apply bool_decide_eq_true_2. }
    destruct (is_error strict r) eqn:Er.
    + destruct (IH l1 (e + 1)) as (e' & l' & -> & He' & Hl'); [lia | lia|]. exists e', l'. split_and!; try done; lia.
    + destruct Hr as [->|Hr]; [by specialize (Hn eq_refl)|].
      destruct (IH l1 e) as (e' & l' & -> & He' & Hl'); [lia | lia|]. exists e', l'. split_and!; try done; lia.
  - eexists _, l1. split; [done|]. split; [|done]. apply andb_false_iff in E as [E|E].
    + apply bool_decide_eq_false in E. apply dec_stable in E as ->. replace (is_error strict (Some ACK)) with false by (by destruct strict). lia.
    + zbool. revert E. case_if; lia.
Qed.

Lemma Receive_Byte_length l : (length (rx (Receive_Byte l).2) <= length (rx l))%nat.
Proof. unfold Receive_Byte. destruct (rx l) as [|r x] eqn:E; cbn [snd rx]; rewrite ?E; cbn [length]; lia. Qed.

(** Ten turns are enough where every answer but the acknowledgement is an error. *)
Lemma offer_strict_total k msg l e : 0 <= e -> e = 10 - Z.of_nat (S k) ->
  exists e' l', offer (S k) true msg l e = Some (e', l') /\ 0 <= e' <= 10 /\ (length (rx l') <= length (rx l))%nat.
Proof.
  revert l e. induction k as [|k IH]; intros l e He0 He; cbn [offer];
    pose proof (Receive_Byte_length (send_bytes l msg)) as Hle; cbn [send_bytes rx] in Hle;
    destruct (Receive_Byte (send_bytes l msg)) as [r l1]; cbn [snd] in Hle; unfold is_error;
    (destruct (decide (r = Some ACK)) as [->|Hr];
      [exists e, l1; split; [done|]; lia | rewrite (bool_decide_eq_true_2 (r <> Some ACK)) by done; cbn [andb]]).
  - zfalse (e + 1 <? 10). exists (e + 1), l1. split; [done|]. lia.
  - ztrue (e + 1 <? 10). destruct (IH l1 (e + 1)) as (e' & l' & Ho & ? & ?); [lia | lia|].
    cbn [offer] in Ho. exists e', l'. split; [exact Ho|]. lia.
Qed.

Lemma offer_all_total fuel msgs l : (length (rx l) + 10 < fuel)%nat ->
  exists e l', offer_all fuel msgs l = Some (e, l') /\ (e = 0 \/ e = 10) /\ (length (rx l') <= length (rx l))%nat.
Proof.
  revert l. induction msgs as [|[strict m] msgs IH]; intros l Hf; cbn [offer_all]; [exists 0, l; auto|].
  assert (exists e l1, offer (if strict then 10%nat else fuel) strict m l 0 = Some (e, l1)
            /\ 0 <= e <= 10 /\ (length (rx l1) <= length (rx l))%nat) as (e & l1 & -> & He & Hl1).
  { destruct strict; [by apply (offer_strict_total 9) | apply offer_total; lia]. }
  rewrite bind_Some. destruct (Z.geb_spec e 10); [exists e, l1; split; [done|]; lia|].
  destruct (IH l1) as (e' & l' & -> & He' & Hl'); [lia|]. exists e', l'. split; [done|]. lia.
Qed.

(** A peer that answers NAK keeps the first packet on the line for as long as it
    does. *)
Lemma nak_repeats fuel msg l rest : rx l = replicate fuel (Some NAK) ++ rest -> offer fuel false msg l 0 = None.
Proof.
  revert l. induction fuel as [|fuel IH]; intros l Hl; [done|]. cbn [offer].
  unfold Receive_Byte, send_bytes. cbn [rx tx]. rewrite Hl. cbn [replicate app]. by apply IH.
Qed.

(** ** Receiving *)

Lemma receive_fill bs pre junk rest t : bytes_ok bs -> (length bs <= length junk)%nat ->
  for_ret (length bs) (zlen pre) receive_at (pre ++ junk, mkLine ((Some <$> bs) ++ rest) t)
  = Some (inl (pre ++ bs ++ drop (length bs) junk, mkLine rest t)).
Proof.
  intros Hb. revert pre junk. induction Hb as [|b bs Hb _ IH]; intros pre junk Hl; [done|].
  destruct junk as [|y junk]; [cbn [length] in Hl; lia|]. cbn [length for_ret fmap list_fmap app].
  assert (receive_at (zlen pre) (pre ++ y :: junk, mkLine (Some b :: (Some <$> bs) ++ rest) t)
          = Some (inl (pre ++ b :: junk, mkLine ((Some <$> bs) ++ rest) t))) as ->.
  { unfold receive_at, Receive_Byte. cbn [rx tx]. by rewrite (wr8_at pre). }
  rewrite bind_Some.
  specialize (IH (pre ++ [b]) junk). rewrite <- !app_assoc in IH. cbn [app] in IH.
  replace (zlen pre + 1) with (zlen (pre ++ [b])) by (rewrite length_app; cbn [length]; lia).
  apply IH. cbn [length] in Hl. lia.
Qed.

(** A packet as it arrives: its start byte, its number, the complement, the bytes
    and two bytes of check, which may be any. *)
Record packet_on_line (c k : Z) (payload check : list Z) : Prop := {
  pl_size : packet_size c = Some (zlen payload);
  pl_room : zlen payload <= 1024;
  pl_bytes : is_u8 c /\ is_u8 k /\ bytes_ok payload /\ bytes_ok check;
  pl_check : length check = 2%nat
}.

Definition packet_bytes (c k : Z) (payload check : list Z) : list Z := [c; k; 255 - k] ++ payload ++ check.

Lemma complement_byte k : is_u8 k -> Z.land (Z.lxor (255 - k) 0xff) 0xff = k.
Proof.
  intros Hk. assert (forallb (fun k => Z.land (Z.lxor (255 - k) 0xff) 0xff =? k) (seqZ 0 256) = true) as H by (vm_compute; reflexivity).
  rewrite forallb_forall in H. apply Z.eqb_eq, H, list_elem_of_In, elem_of_seqZ. lia.
Qed.

Lemma Receive_Packet_spec data c k payload check rest t :
  packet_on_line c k payload check -> length data = 1029%nat ->
  Receive_Packet data (mkLine ((Some <$> packet_bytes c k payload check) ++ rest) t)
  = Some (0, zlen payload, packet_bytes c k payload check ++ drop (length payload + 5) data, mkLine rest t).
Proof.
  intros [Hs Hr (Hc & Hk & Hp & Hch) Hl] Hd. unfold Receive_Packet, Receive_Byte. cbn [packet_bytes fmap list_fmap app rx tx].
  rewrite Hs. destruct data as [|y data]; [done|].
  rewrite (wr8_at [] y data), bind_Some by done. cbn [app].
  set (bs := k :: (255 - k) :: payload ++ check).
  assert (length bs = length payload + 4)%nat as Hbl by (unfold bs; cbn [length]; rewrite length_app; lia).
  unfold PACKET_OVERHEAD. replace (Z.to_nat (zlen payload + 5 - 1)) with (length bs) by lia.
  pose proof (receive_fill bs [c] data rest t) as Hf. cbn [app] in Hf. change (zlen [c]) with 1 in Hf.
  change (Some k :: Some (255 - k) :: (Some <$> payload ++ check) ++ rest) with ((Some <$> bs) ++ rest).
  rewrite Hf, bind_Some; [|unfold bs; repeat apply Forall_cons_2; [done | lia | by apply Forall_app_2] | cbn [length] in Hd; lia].
  change (rd8 (c :: bs ++ _) 1) with (Some k). change (rd8 (c :: bs ++ _) 2) with (Some (255 - k)).
  rewrite !bind_Some, complement_byte, Z.eqb_refl by done. cbn [negb].
  unfold packet_bytes, bs. cbn [app]. rewrite <- !app_assoc. do 6 f_equal.
  cbn [length]. rewrite length_app, Hl. by replace (length payload + 5)%nat with (S (S (S (length payload + 2)))) by lia.
Qed.

Lemma copy_until_spec l fuel stop limit pk more dn junk :
  Forall (fun c => is_u8 c /\ c <> stop) l -> (length l < fuel)%nat -> (length l <= length junk)%nat ->
  zlen dn + zlen l <= limit ->
  copy_until fuel stop limit (pk ++ l ++ stop :: more) (zlen pk) (dn ++ junk) (zlen dn)
  = Some (dn ++ l ++ drop (length l) junk, zlen pk + zlen l, zlen dn + zlen l).
Proof.
  intros Hl. revert fuel pk dn junk.
  induction Hl as [|c l [Hc H0] _ IH]; intros fuel pk dn junk Hf Hj Hm;
    (destruct fuel as [|fuel]; [lia|]); cbn [copy_until app].
  - rewrite (rd8_skip pk _ _ 0) by lia. cbn [lookup list_lookup]. rewrite bind_Some, Z.eqb_refl. cbn [negb andb length].
    by rewrite !Z.add_0_r.
  - rewrite (rd8_skip pk _ _ 0) by lia. cbn [lookup list_lookup]. rewrite bind_Some. cbn [length] in *.
    rewrite (proj2 (Z.eqb_neq c stop) H0). ztrue (zlen dn <? limit). cbn [negb andb].
    destruct junk as [|y junk]; [cbn [length] in Hj; lia|]. cbn [length] in Hj.
    rewrite (wr8_at dn), bind_Some by done.
    specialize (IH fuel (pk ++ [c]) (dn ++ [c]) junk). rewrite <- !app_assoc, !length_app in IH. cbn [app length] in IH.
    replace (zlen dn + 1) with (Z.of_nat (length dn + 1)) by lia.
    replace (zlen pk + 1) with (Z.of_nat (length pk + 1)) by lia.
    rewrite IH by lia. cbn [drop]. do 2 f_equal; [f_equal|]; lia.
Qed.

(** A receiver between two packets: where the line stands, the packets received,
    the size announced and the caller's buffer. *)
Record ready (r : receiver) (l : serial) (n size : Z) (buf : list Z) : Prop := {
  rd_line : rc_line r = l;
  rd_packet : length (rc_packet r) = 1029%nat;
  rd_name : length (rc_name r) = 256%nat;
  rd_file_size : length (rc_file_size r) = 16%nat;
  rd_received : rc_packets_received r = n;
  rd_size : rc_size r = size;
  rd_buf : rc_buf r = buf;
  rd_file_done : rc_file_done r = false;
  rd_session_done : rc_session_done r = false
}.

Lemma seqno_matches n : Z.land (u8 n) 0xff = Z.land n 0xff.
Proof. change 0xff with (Z.ones 8). rewrite !Z.land_ones by lia. unfold u8. zlia. Qed.

(** The first turn after a packet has arrived. *)
Lemma receive_step_packet r c n payload check rest t s buf :
  ready r (mkLine ((Some <$> packet_bytes c (u8 n) payload check) ++ rest) t) n s buf ->
  packet_on_line c (u8 n) payload check -> 0 < zlen payload ->
  exists r1, ready r1 (mkLine rest t) n s buf
    /\ rc_packet r1 = packet_bytes c (u8 n) payload check ++ drop (length payload + 5) (rc_packet r)
    /\ receive_step r = r2 ← receive_normal r1 (zlen payload); Some (inr r2).
Proof.
  intros [Hl Hp Hnm Hfs Hn Hs Hb Hfd Hsd] Hpl Hpos. unfold receive_step. rewrite Hl.
  rewrite (Receive_Packet_spec _ c (u8 n) payload check rest t Hpl Hp), bind_Some.
  cbn [Z.eqb]. zfalse (zlen payload =? -1). zfalse (zlen payload =? 0).
  eexists. split; [|split; [|done]]; [|done].
  constructor; cbn; try done. unfold packet_bytes. destruct Hpl. rewrite !length_app, length_drop. cbn [length]. lia.
Qed.

Lemma step_header r c name size pad check rest t s buf :
  ready r (mkLine ((Some <$> packet_bytes c 0 (name ++ 0 :: size ++ 32 :: pad) check) ++ rest) t) 0 s buf ->
  packet_on_line c 0 (name ++ 0 :: size ++ 32 :: pad) check ->
  name <> [] -> (0 ∉ name) -> (length name <= 255)%nat ->
  Forall (fun c => 48 <= c <= 57) size -> (0 < length size < 11)%nat -> text_value 0 size < 2 ^ 31 ->
  exists r', receive_step r = Some (inr r')
    /\ ready r' (mkLine rest (t ++ [ACK; CRC16])) 1 (text_value 0 size) buf.
Proof.
  intros Hr Hpl Hne Hnz Hnl Hsz Hsl Hv. set (payload := name ++ 0 :: size ++ 32 :: pad) in *.
  destruct (receive_step_packet r c 0 payload check rest t s buf Hr Hpl) as (r1 & [Hl Hp Hnm Hfs Hn Hs Hb Hfd Hsd] & Hpk & ->).
  { unfold payload. rewrite length_app. cbn [length]. lia. }
  unfold receive_normal. rewrite Hpk. change (rd8 (packet_bytes c (u8 0) payload check ++ _) 1) with (Some (u8 0)).
  rewrite bind_Some, Hn. change (negb (Z.land (u8 0) 255 =? Z.land 0 255)) with false. cbn [Z.eqb].
  assert (exists c0 name', name = c0 :: name') as (c0 & name' & Hname) by (destruct name; [done | by eexists _, _]).
  assert (rd8 (packet_bytes c (u8 0) payload check ++ drop (length payload + 5) (rc_packet r)) PACKET_HEADER = Some c0) as ->.
  { unfold payload, PACKET_HEADER. rewrite Hname. done. }
  rewrite bind_Some. destruct (Z.eqb_spec c0 0) as [->|Hc0]; [exfalso; apply Hnz; rewrite Hname; by left|]. cbn [negb].
  unfold receive_file_info. rewrite Hpk. destruct Hpl as [_ _ (_ & _ & Hpo & _) _].
  assert (bytes_ok name) as Hno by (unfold payload in Hpo; by apply Forall_app in Hpo as [? _]).
  set (tail := check ++ drop (length payload + 5) (rc_packet r)).
  replace (packet_bytes c (u8 0) payload check ++ drop (length payload + 5) (rc_packet r))
    with ([c; 0; 255] ++ name ++ 0 :: (size ++ 32 :: pad ++ tail)).
  2: { unfold packet_bytes, payload, tail. change (u8 0) with 0. cbn [app]. rewrite <- !app_assoc. cbn [app]. by rewrite <- !app_assoc. }
  pose proof (copy_until_spec name 257 0 256 [c; 0; 255] (size ++ 32 :: pad ++ tail) [] (rc_name r1)) as Hc1.
  cbn [app length] in Hc1. change (Z.of_nat 3) with 3 in Hc1. change (Z.of_nat 0) with 0 in Hc1.
  unfold FILE_NAME_LENGTH, FILE_SIZE_LENGTH, PACKET_HEADER. change (S (Z.to_nat 256)) with 257%nat. change (S (Z.to_nat 16)) with 17%nat.
  cbn [app]. rewrite Hc1, bind_Some; [|clear Hc1 | lia..].
  2: { rewrite Forall_forall in Hno |- *. intros x Hx. split; [by apply Hno | by intros ->]. }
  clear Hc1. destruct (drop (length name) (rc_name r1)) as [|y rest1] eqn:Hd1.
  { apply (f_equal length) in Hd1. rewrite length_drop in Hd1. cbn [length] in Hd1. lia. }
  rewrite (wr8_at name), bind_Some by lia.
  pose proof (copy_until_spec size 17 32 16 (c :: 0 :: 255 :: name ++ [0]) (pad ++ tail) [] (rc_file_size r1)) as Hc2.
  assert (Forall (fun c => is_u8 c /\ c <> 32) size) as Hsz' by (eapply Forall_impl; [exact Hsz|]; cbn; lia).
  specialize (Hc2 Hsz' ltac:(lia) ltac:(lia) ltac:(cbn [length]; lia)). cbn [app length] in Hc2. change (Z.of_nat 0) with 0 in Hc2.
  rewrite length_app in Hc2. cbn [length] in Hc2. rewrite <- app_assoc in Hc2. cbn [app] in Hc2.
  replace (3 + zlen name + 1) with (Z.of_nat (S (S (S (length name + 1))))) by lia.
  rewrite Hc2, bind_Some. clear Hc2.
  destruct (drop (length size) (rc_file_size r1)) as [|z rest2] eqn:Hd2.
  { apply (f_equal length) in Hd2. rewrite length_drop in Hd2. cbn [length] in Hd2. lia. }
  rewrite (wr8_at size), bind_Some by lia. rewrite Str2Int_digits, !bind_Some by done.
  cbn [rc_packets_received rc_send rc_with_line rc_with_file]. rewrite Hn. cbn [Z.leb Z.sub].
  change (2 ^ 31 - 1 <=? 0) with false. cbn [Z.add]. rewrite bind_Some. eexists. split; [done|].
  constructor; cbn; try done.
  - rewrite Hl. unfold Send_Byte. cbn [rx tx]. by rewrite <- app_assoc.
  - apply (f_equal length) in Hd1. rewrite length_drop in Hd1. cbn [length] in Hd1. rewrite length_app. cbn [length]. lia.
  - apply (f_equal length) in Hd2. rewrite length_drop in Hd2. cbn [length] in Hd2. rewrite length_app. cbn [length]. lia.
Qed.

Lemma step_block r c n payload check rest t s buf :
  ready r (mkLine ((Some <$> packet_bytes c (u8 n) payload check) ++ rest) t) n s buf ->
  packet_on_line c (u8 n) payload check -> 0 < zlen payload <= zlen buf -> 0 < n < 2 ^ 31 - 1 ->
  exists r', receive_step r = Some (inr r')
    /\ ready r' (mkLine rest (t ++ [ACK])) (n + 1) s (payload ++ drop (length payload) buf).
Proof.
  intros Hr Hpl Hlen Hn0.
  destruct (receive_step_packet r c n payload check rest t s buf Hr Hpl) as (r1 & [Hl Hp Hnm Hfs Hn Hs Hb Hfd Hsd] & Hpk & ->); [lia|].
  unfold receive_normal. rewrite Hpk. change (rd8 (packet_bytes c (u8 n) payload check ++ _) 1) with (Some (u8 n)).
  rewrite bind_Some, Hn, seqno_matches, Z.eqb_refl. cbn [negb]. zfalse (n =? 0).
  assert (memcpy (rc_buf r1) 0 (packet_bytes c (u8 n) payload check ++ drop (length payload + 5) (rc_packet r)) PACKET_HEADER (zlen payload)
          = Some (payload ++ drop (length payload) buf)) as ->.
  { unfold memcpy, PACKET_HEADER. unfold packet_bytes. rewrite <- !app_assoc, rd_bytes_app, bind_Some by done.
    rewrite Hb. exact (wr_bytes_app [] buf payload 0 eq_refl ltac:(lia)). }
  rewrite bind_Some. cbn [rc_packets_received rc_send rc_with_line rc_with_buf]. rewrite Hn. zfalse (2 ^ 31 - 1 <=? n).
  rewrite bind_Some. eexists. split; [done|]. constructor; cbn; try done. rewrite Hl. by unfold Send_Byte.
Qed.

Lemma step_eot r rest t n s buf : ready r (mkLine (Some EOT :: rest) t) n s buf ->
  exists r', receive_step r = Some (inr r') /\ rc_file_done r' = true /\ rc_session_done r' = false
    /\ ready (rc_with_done (rc_with_packets r' 0 (rc_session_begin r')) false false) (mkLine rest (t ++ [ACK])) 0 s buf.
Proof.
  intros [Hl Hp Hnm Hfs Hn Hs Hb Hfd Hsd]. unfold receive_step. rewrite Hl.
  assert (Receive_Packet (rc_packet r) (mkLine (Some EOT :: rest) t) = Some (0, 0, rc_packet r, mkLine rest t)) as -> by reflexivity.
  rewrite bind_Some. cbn [Z.eqb]. eexists. split; [done|]. split; [done|]. split; [done|]. by constructor.
Qed.

Lemma step_last r c pad check rest t s buf :
  ready r (mkLine ((Some <$> packet_bytes c 0 (0 :: pad) check) ++ rest) t) 0 s buf -> packet_on_line c 0 (0 :: pad) check ->
  exists r', receive_step r = Some (inr r') /\ rc_file_done r' = true /\ rc_session_done r' = true
    /\ rc_size r' = s /\ rc_buf r' = buf /\ rc_line r' = mkLine rest (t ++ [ACK]).
Proof.
  intros Hr Hpl.
  destruct (receive_step_packet r c 0 (0 :: pad) check rest t s buf Hr Hpl) as (r1 & [Hl Hp Hnm Hfs Hn Hs Hb Hfd Hsd] & Hpk & ->); [cbn [length]; lia|].
  unfold receive_normal. rewrite Hpk. change (rd8 (packet_bytes c (u8 0) (0 :: pad) check ++ _) 1) with (Some (u8 0)).
  rewrite bind_Some, Hn. change (negb (Z.land (u8 0) 255 =? Z.land 0 255)) with false. cbn [Z.eqb].
  change (rd8 (packet_bytes c (u8 0) (0 :: pad) check ++ _) PACKET_HEADER) with (Some 0).
  rewrite !bind_Some. cbn [Z.eqb negb]. rewrite bind_Some. eexists. split; [done|]. cbn. rewrite Hs, Hb, Hl. done.
Qed.

(** *** A session *)

(** A data packet of a session: start byte, bytes, check. *)
Record data_packet := mkData { dp_start : Z; dp_bytes : list Z; dp_check : list Z }.

Fixpoint data_on_line (n : Z) (ps : list data_packet) : list Z :=
  match ps with
  | [] => []
  | p :: ps => packet_bytes (dp_start p) (u8 n) (dp_bytes p) (dp_check p) ++ data_on_line (n + 1) ps
  end.

(** Every packet goes to the start of the buffer. *)
Definition overlay (buf : list Z) (p : data_packet) : list Z := dp_bytes p ++ drop (length (dp_bytes p)) buf.

Definition data_ok (room : Z) (p : data_packet) : Prop :=
  packet_on_line (dp_start p) 0 (dp_bytes p) (dp_check p) /\ 0 < zlen (dp_bytes p) <= room.

Lemma overlay_length buf p : zlen (dp_bytes p) <= zlen buf -> length (overlay buf p) = length buf.
Proof. intros. unfold overlay. rewrite length_app, length_drop. lia. Qed.

Lemma receive_blocks ps fuel r n rest t s buf :
  ready r (mkLine ((Some <$> data_on_line n ps) ++ rest) t) n s buf ->
  Forall (data_ok (zlen buf)) ps -> 0 < n -> n + zlen ps < 2 ^ 31 - 1 ->
  exists r', receive_loop (length ps + fuel) r = receive_loop fuel r'
    /\ ready r' (mkLine rest (t ++ replicate (length ps) ACK)) (n + zlen ps) s (fold_left overlay ps buf).
Proof.
  revert r n t buf. induction ps as [|p ps IH]; intros r n t buf Hr Hok Hn Hmax.
  { exists r. split; [done|]. cbn in *. by rewrite Z.add_0_r, app_nil_r. }
  inversion_clear Hok as [|? ? [Hp Hlen] Hok']. cbn [data_on_line length] in *. rewrite fmap_app, <- app_assoc in Hr.
  assert (packet_on_line (dp_start p) (u8 n) (dp_bytes p) (dp_check p)) as Hp'.
  { destruct Hp as [? ? (? & _ & ? & ?) ?]. assert (is_u8 (u8 n)) by auto with bigbox. by constructor. }
  destruct (step_block r (dp_start p) n (dp_bytes p) (dp_check p) _ t s buf Hr Hp' Hlen ltac:(lia)) as (r1 & Hstep & Hr1).
  destruct (IH r1 (n + 1) (t ++ [ACK]) (overlay buf p) Hr1) as (r' & Hrun & Hr'); try lia.
  { by rewrite overlay_length by lia. }
  exists r'. cbn [Nat.add receive_loop]. rewrite Hstep, bind_Some, (rd_file_done _ _ _ _ _ Hr1). split; [exact Hrun|].
  cbn [replicate fold_left]. rewrite <- app_assoc in Hr'. by replace (n + Z.of_nat (S (length ps))) with (n + 1 + zlen ps) by lia.
Qed.

(** ** Properties *)

(** The check is the CRC-16 of XMODEM: [Cal_CRC16], which shifts the data and two
    zero bytes through the register with [UpdateCRC16], gives what adding each byte
    to the upper half of the register gives; a receiver that also shifted in the two
    bytes sent behind the data would be left with 0. *)
Theorem Cal_CRC16_xmodem data n : 0 <= n <= zlen data -> bytes_ok data ->
  let l := take (Z.to_nat n) data in
  Cal_CRC16 data n = Some (xmodem l) /\ is_u16 (xmodem l)
  /\ fold_left (fun c b => c ← c; UpdateCRC16 c b) (drop 3 (frame ([0; 0; 0] ++ l))) (Some 0) = Some 0.
Proof.
  intros Hn Hd. cbv zeta. set (l := take _ data). assert (bytes_ok l) as Hl by (by apply Forall_take).
  pose proof (xmodem_range l Hl) as Hr.
  split; [by apply Cal_CRC16_spec|]. split; [done|]. change (drop 3 (frame ([0; 0; 0] ++ l))) with (l ++ [xmodem l `div` 256; xmodem l `mod` 256]).
  enough (forall bs c, is_u16 c -> bytes_ok bs ->
            fold_left (fun c b => c ← c; UpdateCRC16 c b) bs (Some c) = Some (fold_left shift_byte bs c)) as H.
  { rewrite H; [by rewrite xmodem_residue | lia|]. apply Forall_app_2; [done|]. repeat apply Forall_cons_2; [zlia | zlia | by apply Forall_nil_2]. }
  induction bs as [|b bs IH]; intros c Hc Hbs; [done|]. inversion_clear Hbs as [|? ? Hb Hbs'].
  rewrite !fold_left_cons, bind_Some, UpdateCRC16_spec by done. apply IH; [apply shift_byte_range | done].
Qed.


(** The sender returns whatever arrives on the line, as long as it falls silent at
    some time: with success or with ten errors. *)
Theorem transmit_terminates fuel packet_data FileName file_ptr l buf sendFileName name data :
  sendable packet_data FileName file_ptr buf sendFileName name data -> (length (rx l) + 10 < fuel)%nat ->
  exists r l', Ymodem_Transmit fuel packet_data FileName file_ptr l buf sendFileName (zlen data) = Some (r, l')
    /\ (r = 0 \/ r = 10).
Proof.
  intros Hs Hf. rewrite (Ymodem_Transmit_offers _ _ _ _ _ _ _ name) by done.
  destruct (offer_all_total fuel ((false, frame (info_packet name (zlen data))) :: block_messages 1 data ++ [(true, [EOT])]) l Hf)
    as (e & l1 & -> & He & Hl1). rewrite bind_Some.
  destruct (Z.geb_spec e 10); [exists e, l1; split; [done|]; lia|].
  destruct (offer_total fuel false (frame last_packet) l1 0) as (e2 & l2 & -> & He2 & _); [lia | lia|]. rewrite bind_Some.
  destruct (Z.geb_spec e2 10); [exists e2, l2; split; [done|]; lia|].
  unfold last_eot. destruct (Receive_Byte _) as [r l3]. cbv zeta iota beta.
  destruct (Z.geb_spec (if bool_decide (r = Some ACK) then e2 else e2 + 1) 10) as [Hge|]; [|exists 0, l3; auto].
  eexists _, l3. split; [done|]. revert Hge. case_bool_decide; lia.
Qed.

(** A peer that answers the first packet with NAK keeps the sender repeating it: no
    number of turns is enough. *)
Theorem transmit_repeats_for_nak fuel packet_data FileName file_ptr l buf sendFileName name data rest :
  sendable packet_data FileName file_ptr buf sendFileName name data ->
  rx l = replicate fuel (Some NAK) ++ rest ->
  Ymodem_Transmit fuel packet_data FileName file_ptr l buf sendFileName (zlen data) = None.
Proof.
  intros Hs Hrx. rewrite (Ymodem_Transmit_offers _ _ _ _ _ _ _ name) by done.
  cbn [offer_all]. by rewrite (nak_repeats fuel _ l rest).
Qed.

(** C22: a session is received as follows. For local arrays of their sizes, a first
    packet with a non-empty name of at most 255 bytes, a size of one to ten decimal
    digits below 2^31 and a space behind it, then fewer than 2^31 - 2 data packets with
    consecutive numbers, each of 8 to 1024 bytes (any size of the protocol but 2048,
    which the array of the receiver cannot hold) and none longer than the buffer of the
    caller, then the end of transmission and an empty packet, [Ymodem_Receive] requests
    the transfer, acknowledges every packet, and returns the size the first packet
    announces; it reads exactly the bytes of the session, never looks at a check, and
    leaves every data packet at the start of the buffer, so that of a file of several
    packets only the last one and what shorter ones did not overwrite is left. *)
Theorem receive_session fuel packet_data file_size file_name l buf c name size pad check ps cl padl checkl rest :
  length packet_data = 1029%nat -> length file_size = 16%nat -> length file_name = 256%nat ->
  packet_on_line c 0 (name ++ 0 :: size ++ 32 :: pad) check ->
  name <> [] -> (0 ∉ name) -> (length name <= 255)%nat ->
  Forall (fun c => 48 <= c <= 57) size -> (0 < length size < 11)%nat -> text_value 0 size < 2 ^ 31 ->
  Forall (data_ok (zlen buf)) ps -> 1 + zlen ps < 2 ^ 31 - 1 ->
  packet_on_line cl 0 (0 :: padl) checkl ->
  rx l = (Some <$> packet_bytes c 0 (name ++ 0 :: size ++ 32 :: pad) check ++ data_on_line 1 ps
            ++ EOT :: packet_bytes cl 0 (0 :: padl) checkl) ++ rest ->
  (length ps + 2 < fuel)%nat ->
  exists r, Ymodem_Receive fuel packet_data file_size file_name l buf = Some (text_value 0 size, r)
    /\ rc_buf r = fold_left overlay ps buf
    /\ rc_line r = mkLine rest (tx l ++ [CRC16; ACK; CRC16] ++ replicate (length ps) ACK ++ [ACK; ACK]).
Proof.
  intros Hp Hfs Hfn Hc Hne Hnz Hnl Hsz Hsl Hv Hps Hmax Hcl Hrx Hfuel.
  replace fuel with (S (length ps + S (S (fuel - length ps - 3)))) by lia. set (g := (fuel - length ps - 3)%nat).
  unfold Ymodem_Receive. rewrite !fmap_app, fmap_cons, <- !app_assoc in Hrx. cbn [app] in Hrx.
  set (r0 := mkReceiver _ _ _ _ _ _ _ _ _ _ _).
  set (M2 := (Some <$> packet_bytes cl 0 (0 :: padl) checkl) ++ rest) in *.
  set (M1 := (Some <$> data_on_line 1 ps) ++ Some EOT :: M2) in *.
  destruct (step_header r0 c name size pad check M1 (tx l ++ [CRC16]) 0 buf) as (r1 & Hs1 & Hr1); try done.
  { constructor; try done. unfold r0, Send_Byte. cbn [rc_line]. by rewrite Hrx. }
  cbn [receive_loop]. rewrite Hs1, bind_Some, (rd_file_done _ _ _ _ _ Hr1).
  destruct (receive_blocks ps (S (S g)) r1 1 (Some EOT :: M2) _ _ buf Hr1 Hps ltac:(lia) ltac:(lia)) as (r2 & -> & Hr2).
  destruct (step_eot r2 M2 _ _ _ _ Hr2) as (r3 & Hs3 & Hf3 & Hd3 & Hr3).
  cbn [receive_loop]. rewrite Hs3, bind_Some, Hf3, Hd3.
  destruct (step_last _ cl padl checkl rest _ _ _ Hr3 Hcl) as (r4 & Hs4 & Hf4 & Hd4 & Hsz4 & Hb4 & Hl4).
  rewrite Hs4, bind_Some, Hf4, Hd4. exists r4. rewrite Hsz4. split; [done|]. split; [done|].
  rewrite Hl4. by rewrite <- !app_assoc.
Qed.

(** ** Concrete runs *)




Lemma receive_session_witness :
  exists r, Ymodem_Receive 10 (zeros 1029) (zeros 16) (zeros 256)
              (mkLine ((Some <$> packet_bytes SOH 0 ([97] ++ 0 :: [51] ++ 32 :: zeros 124) [0; 0]
                          ++ data_on_line 1 [mkData SOH (replicate 128 7) [0; 0]; mkData 0xA1 (replicate 8 9) [0; 0]]
                          ++ EOT :: packet_bytes SOH 0 (0 :: zeros 127) [0; 0]) ++ []) [])
              (zeros 128) = Some (3, r)
    /\ rc_buf r = replicate 8 9 ++ replicate 120 7.
Proof.
  destruct (receive_session 10 (zeros 1029) (zeros 16) (zeros 256)
              (mkLine ((Some <$> packet_bytes SOH 0 ([97] ++ 0 :: [51] ++ 32 :: zeros 124) [0; 0]
                          ++ data_on_line 1 [mkData SOH (replicate 128 7) [0; 0]; mkData 0xA1 (replicate 8 9) [0; 0]]
                          ++ EOT :: packet_bytes SOH 0 (0 :: zeros 127) [0; 0]) ++ []) [])
              (zeros 128) SOH [97] [51] (zeros 124) [0; 0]
              [mkData SOH (replicate 128 7) [0; 0]; mkData 0xA1 (replicate 8 9) [0; 0]] SOH (zeros 127) [0; 0] [])
    as (r & Hrun & Hbuf & _).
  all: try reflexivity.
  all: try (apply Nat.ltb_lt; vm_compute; reflexivity).
  all: try (apply Nat.leb_le; vm_compute; reflexivity).
  - constructor; [reflexivity | vm_compute; discriminate | | reflexivity].
    split; [done|]. split; [done|]. split; by apply bytes_ok_decide.
  - discriminate.
  - set_solver.
  - repeat constructor; lia.
  - cbn [length]. lia.
  - repeat constructor; cbn; try done; try lia; repeat apply Forall_cons_2; try done; lia.
  - constructor; [reflexivity | vm_compute; discriminate | | reflexivity].
    split; [done|]. split; [done|]. split; by apply bytes_ok_decide.
  - exists r. split; [exact Hrun|]. rewrite Hbuf. vm_compute. reflexivity.
Defined.

(** The sender writes no space behind the size, so its own first packet makes the
    receiver write the NUL behind [file_size]. *)
Example own_header_overruns :
  Ymodem_Receive 10 (zeros 1029) (zeros 16) (zeros 256)
    (mkLine (Some <$> frame (info_packet [97] 3)) []) (zeros 1024) = None.
Proof. vm_compute. reflexivity. Qed.

(** The packet of 2048 bytes does not fit the array it is received into. *)
Example two_kb_overruns :
  Receive_Packet (zeros 1029) (mkLine (Some <$> 0xA9 :: zeros 2052) []) = None.
Proof. vm_compute. reflexivity. Qed.

(** A name of 256 bytes leaves no room for its NUL. *)
Example long_name_overruns :
  Ymodem_Receive 10 (zeros 1029) (zeros 16) (zeros 256)
    (mkLine (Some <$> packet_bytes STX 0 (replicate 256 97 ++ zeros 768) [0; 0]) []) (zeros 1024) = None.
Proof. vm_compute. reflexivity. Qed.
