(* ===== verification/Sbuf.v ===== *)
(** * fun_buffer/sbuf.c: a growable string

    The memory behind [buf] is the list of its bytes.  Whether an allocation succeeds
    is an argument; [fresh n] is what fresh memory of [n] bytes holds.  The capacity is
    computed in [double]: [SBUF_BUF] is a fifth of it, and a sum becomes an integer
    again when it is stored.  Below 2^50 that is exact up to the fraction that is cut
    off; larger sums are left undefined.  Formatted texts are arguments, [None] when
    the C library cannot format. *)

From stdpp Require Import prelude.
From S2P Require Import Prelude CMem.

Record SBUF := mkSBUF { sb_buf : list Z; sb_size : Z; sb_len : Z }.

Section sbuf.
Context (fresh : Z -> list Z).

Definition SBUF_BUF (data : SBUF) : Z := sb_size data `div` 5.

(** [Some None]: the null pointer.  Without a size the capacity is computed from the
    member that is not initialised yet; the characters are written unchecked. *)
Definition sbuf_new (malloc1 malloc2 : bool) (size : Z) : option (option SBUF) :=
  return_if negb malloc1 with Some None ;;
  return_if size =? 0 with None ;;
  return_if negb malloc2 with None ;;
  buf ← wr8 (fresh size) 0 0;
  Some (Some (mkSBUF buf size 0)).

(** [if (data->size < data->len+size)]: the capacity is more than doubled. *)
Definition sbuf_room (realloc : bool) (data : SBUF) (size : Z) : option (bool * SBUF) :=
  if sb_size data <? sb_len data + size
  then
    let n := sb_size data + sb_len data + size + SBUF_BUF data in
    return_if 2 ^ 50 <=? n with None ;;
    return_if negb realloc with Some (false, data) ;;
    Some (true, mkSBUF (sb_buf data ++ drop (length (sb_buf data)) (fresh n)) n (sb_len data))
  else Some (true, data).

(** A format that fails makes [size] 0 and takes a character away. *)
Definition sbuf_append (realloc : bool) (data : SBUF) (text : option (list Z)) : option (bool * SBUF) :=
  match text with
  | Some t =>
      let size := zlen t + 1 in
      '(ok, data) ← sbuf_room realloc data size;
      if ok : bool
      then buf ← wr_bytes (sb_buf data) (sb_len data) (t ++ [0]);
           Some (true, mkSBUF buf (sb_size data) (u64 (sb_len data + (size - 1))))
      else Some (false, data)
  | None => Some (true, mkSBUF (sb_buf data) (sb_size data) (u64 (sb_len data - 1)))
  end.

Definition sbuf_nappend (realloc : bool) (data : SBUF) (n : Z) (text : option (list Z)) : option (bool * SBUF) :=
  let size := match text with Some t => zlen t | None => 1 end in
  let n := if n >? size then size else n in
  '(ok, data) ← sbuf_room realloc data (n + 1);
  if ok : bool
  then buf ← match text with
             | Some t => wr_bytes (sb_buf data) (sb_len data) (take (Z.to_nat n) t ++ [0])
             | None => Some (sb_buf data)
             end;
       Some (true, mkSBUF buf (sb_size data) (u64 (sb_len data + n)))
  else Some (false, data).

Definition sbuf_append_str (realloc : bool) (data : SBUF) (s : list Z) : option (bool * SBUF) :=
  let size := zlen s + 1 in
  '(ok, data) ← sbuf_room realloc data size;
  if ok : bool
  then buf ← wr_bytes (sb_buf data) (sb_len data) (s ++ [0]);
       Some (true, mkSBUF buf (sb_size data) (u64 (sb_len data + (size - 1))))
  else Some (false, data).

Definition sbuf_append_chr (realloc : bool) (data : SBUF) (c : Z) : option (bool * SBUF) :=
  '(ok, data) ← sbuf_room realloc data 2;
  if ok : bool
  then buf ← wr8 (sb_buf data) (sb_len data) c;
       buf ← wr8 buf (sb_len data + 1) 0;
       Some (true, mkSBUF buf (sb_size data) (u64 (sb_len data + 1)))
  else Some (false, data).

Definition sbuf_reset (data : SBUF) : option SBUF :=
  buf ← wr8 (sb_buf data) 0 0; Some (mkSBUF buf (sb_size data) 0).

Definition sbuf_back (data : SBUF) (len : Z) : option (bool * SBUF) :=
  return_if sb_len data =? 0 with Some (false, data) ;;
  let n := u64 (sb_len data - len) in
  buf ← wr8 (sb_buf data) n 0;
  Some (true, mkSBUF buf (sb_size data) n).

Definition sbuf_eraser (data : SBUF) (start end_ : Z) : option (bool * SBUF) :=
  return_if sb_len data =? 0 with Some (false, data) ;;
  return_if (start >=? sb_len data) || (start >=? end_) || (end_ <=? 0) || (end_ >? sb_len data)
    with Some (false, data) ;;
  let len := sb_len data - end_ + 1 in
  return_if 2 ^ 31 <=? len with None ;;
  buf ← memcpy_in (sb_buf data) start end_ len;
  Some (true, mkSBUF buf (sb_size data) (sb_len data - (end_ - start))).

(** [to] with a copy of [from]; its NUL is not copied.  Without memory for it [to]
    keeps the numbers and a null pointer. *)
Definition sbuf_copy (malloc : bool) (from : SBUF) : option (bool * SBUF) :=
  return_if negb malloc with Some (false, mkSBUF [] (sb_size from) (sb_len from)) ;;
  buf ← memcpy (fresh (sb_size from)) 0 (sb_buf from) 0 (sb_len from);
  Some (true, mkSBUF buf (sb_size from) (sb_len from)).

(** The string is appended, to have the room, and erased again. *)
Definition sbuf_insert_str (realloc : bool) (data : SBUF) (pos : Z) (str : list Z) : option (bool * SBUF) :=
  return_if pos >? sb_len data with Some (false, data) ;;
  let len := zlen str in
  return_if len <=? 0 with Some (false, data) ;;
  '(_, data) ← sbuf_append_str realloc data str;
  '(_, data) ← sbuf_eraser data (u64 (sb_len data - len)) (sb_len data);
  buf ← memcpy_in (sb_buf data) (pos + len) pos (sb_len data - pos);
  buf ← wr_bytes buf pos str;
  Some (true, mkSBUF buf (sb_size data) (u64 (sb_len data + len))).

Definition sbuf_insert_chr (realloc : bool) (data : SBUF) (pos c : Z) : option (bool * SBUF) :=
  sbuf_insert_str realloc data pos (c_str [c]).

(** The result of the insertion is not used. *)
Definition sbuf_insert (realloc : bool) (data : SBUF) (pos : Z) (text : option (list Z)) : option (bool * SBUF) :=
  return_if pos >? sb_len data with Some (false, data) ;;
  temp ← text;
  '(_, data) ← sbuf_insert_str realloc data pos temp;
  Some (true, data).

Definition sbuf_ninsert (realloc : bool) (data : SBUF) (pos len : Z) (text : option (list Z))
    : option (bool * SBUF) :=
  return_if pos >? sb_len data with Some (false, data) ;;
  temp ← text;
  let temp := if zlen temp >? len then take (Z.to_nat len) temp else temp in
  '(_, data) ← sbuf_insert_str realloc data pos temp;
  Some (true, data).

Definition sbuf_length (data : option SBUF) : Z := match data with Some data => sb_len data | None => 0 end.

(** The string at the address returned. *)
Definition sbuf_string (data : option SBUF) : option (list Z) := (fun data => c_str (sb_buf data)) <$> data.

(** ** The string a buffer holds *)

Context (fresh_length : forall n, 0 <= n -> zlen (fresh n) = n).

(** The bytes [s], a NUL, and room behind them. *)
Definition sbuf_holds (data : SBUF) (s : list Z) : Prop :=
  exists rest, sb_buf data = s ++ 0 :: rest /\ sb_len data = zlen s /\ sb_size data = zlen (sb_buf data).

Lemma sbuf_string_holds data s : sbuf_holds data s -> (0 ∉ s) ->
  sbuf_string (Some data) = Some s /\ sbuf_length (Some data) = zlen s.
Proof. intros (rest & Hb & Hl & _) Hs. cbn. by rewrite Hb, c_str_app, Hl. Qed.

Lemma sbuf_new_holds n : 0 < n -> exists data, sbuf_new true true n = Some (Some data) /\ sbuf_holds data [] /\ sb_size data = n.
Proof.
  intros Hn. unfold sbuf_new. cbn [negb]. zfalse (n =? 0). pose proof (fresh_length n ltac:(lia)) as Hf.
  destruct (fresh n) as [|y rest]; [cbn in Hf; lia|]. rewrite (wr8_at [] y rest), bind_Some by done.
  eexists. split; [done|]. split; [|done]. exists rest. cbn [sb_buf sb_len sb_size app length] in *. split_and!; done || lia.
Qed.

Lemma sbuf_room_holds realloc data s n :
  sbuf_holds data s -> 0 <= n -> 3 * sb_size data + n < 2 ^ 50 ->
  exists ok data', sbuf_room realloc data n = Some (ok, data') /\ sbuf_holds data' s
    /\ (ok = true -> zlen s + n <= sb_size data') /\ (realloc = true -> ok = true)
    /\ sb_size data' <= 3 * sb_size data + n.
Proof.
  intros H Hn Hb. pose proof H as (rest & Hm & Hl & Hs). unfold sbuf_room, SBUF_BUF. rewrite Hl.
  assert (zlen s < sb_size data) as Hlt by (rewrite Hs, Hm, length_app; cbn [length]; lia).
  destruct (Z.ltb_spec (sb_size data) (zlen s + n)).
  2: { exists true, data. split_and!; try done; lia. }
  set (m := sb_size data + zlen s + n + sb_size data `div` 5). assert (sb_size data <= m <= 3 * sb_size data + n) as Hm1 by (unfold m; zlia).
  zfalse (2 ^ 50 <=? m). destruct realloc; cbn [negb].
  - exists true. eexists. split; [done|]. cbn [sb_size]. split_and!; try done; try (unfold m; zlia).
    exists (rest ++ drop (length (sb_buf data)) (fresh m)). cbn [sb_buf sb_len sb_size]. split; [by rewrite Hm, <- app_assoc|].
    split; [done|]. pose proof (fresh_length m ltac:(lia)). rewrite length_app, length_drop. lia.
  - exists false, data. split_and!; try done; lia.
Qed.

Lemma size_t_id x : 0 <= x < 2 ^ 50 -> u64 x = x.
Proof. intros. unfold u64. apply Z.mod_small. lia. Qed.

(** Bytes and a NUL written over the NUL at the end. *)
Lemma sbuf_write data s t : sbuf_holds data s -> zlen s + zlen t + 1 <= sb_size data -> sb_size data < 2 ^ 50 ->
  exists buf, wr_bytes (sb_buf data) (sb_len data) (t ++ [0]) = Some buf
    /\ sbuf_holds (mkSBUF buf (sb_size data) (u64 (sb_len data + zlen t))) (s ++ t).
Proof.
  intros (rest & Hm & Hl & Hs) Hr Hb. rewrite Hs, Hm, length_app in Hr. cbn [length] in Hr.
  rewrite Hm, Hl, wr_bytes_app; [|done | rewrite length_app; cbn [length]; lia].
  eexists. split; [done|]. exists (drop (length t) rest). cbn [sb_buf sb_len sb_size].
  assert (zlen s + zlen t < 2 ^ 50) by (rewrite Hs, Hm, length_app in Hb; cbn [length] in Hb; lia).
  split; [|split; [rewrite size_t_id by lia; rewrite length_app; lia|]].
  - replace (length (t ++ [0])) with (S (length t)) by (rewrite length_app; cbn [length]; lia). by rewrite <- !app_assoc.
  - rewrite Hs, Hm, !length_app, length_drop, ?length_app. cbn [length]. lia.
Qed.

(** A block of the string moved to the left or, over itself in no byte, to the right. *)
Lemma move_left m pre gap l rest : m = pre ++ gap ++ l ++ rest -> (length l <= length gap)%nat ->
  memcpy_in m (zlen pre) (zlen pre + zlen gap) (zlen l)
  = Some (pre ++ l ++ drop (length l) (gap ++ l ++ rest)).
Proof.
  intros -> Hl. unfold memcpy_in. ztrue ((zlen l =? 0) || (zlen l <=? Z.abs (zlen pre - (zlen pre + zlen gap)))).
  unfold memmove_in. rewrite app_assoc, rd_bytes_app, bind_Some by (rewrite ?length_app; lia).
  rewrite <- app_assoc. rewrite wr_bytes_app; [done | done | rewrite !length_app; lia].
Qed.

Lemma move_right m pre l room rest : m = pre ++ l ++ room ++ rest -> (length l <= length room)%nat ->
  memcpy_in m (zlen pre + zlen room) (zlen pre) (zlen l)
  = Some (pre ++ take (length room) (l ++ room) ++ l ++ rest).
Proof.
  intros -> Hl. unfold memcpy_in. ztrue ((zlen l =? 0) || (zlen l <=? Z.abs (zlen pre + zlen room - zlen pre))).
  unfold memmove_in. rewrite rd_bytes_app, bind_Some by done.
  rewrite (app_assoc l room). rewrite <- (take_drop (length room) (l ++ room)) at 1.
  rewrite <- app_assoc, app_assoc, wr_bytes_app.
  - rewrite <- app_assoc. do 4 f_equal. rewrite drop_app_ge by (rewrite length_drop, length_app; lia).
    rewrite length_drop, length_app. by replace (length l - (length l + length room - length room))%nat with 0%nat by lia.
  - rewrite length_app, length_take, length_app. lia.
  - rewrite length_app, length_drop, length_app. lia.
Qed.

Lemma sbuf_append_str_holds realloc data s t :
  sbuf_holds data s -> 3 * sb_size data + zlen t + 1 < 2 ^ 50 ->
  exists ok data', sbuf_append_str realloc data t = Some (ok, data')
    /\ sbuf_holds data' (if ok then s ++ t else s) /\ (realloc = true -> ok = true)
    /\ sb_size data' <= 3 * sb_size data + zlen t + 1.
Proof.
  intros H Hb. unfold sbuf_append_str.
  destruct (sbuf_room_holds realloc data s (zlen t + 1) H) as (ok & d1 & -> & H1 & Hr & Hok & Hs1); [lia | lia|].
  rewrite bind_Some. destruct ok; [|exists false, d1; split_and!; done || lia].
  destruct (sbuf_write d1 s t H1) as (buf & -> & Hh); [specialize (Hr eq_refl); lia | lia|]. rewrite bind_Some.
  replace (zlen t + 1 - 1) with (zlen t) by lia. exists true. eexists. split_and!; [done | done | done | cbn [sb_size]; lia].
Qed.

(** An erased range: the bytes behind it, their NUL included, may not overlap it. *)
Lemma sbuf_eraser_holds data s i j :
  sbuf_holds data s -> 0 <= i < j -> j <= zlen s -> zlen s - j + 1 <= j - i -> zlen s < 2 ^ 31 - 1 ->
  exists data', sbuf_eraser data i j = Some (true, data')
    /\ sbuf_holds data' (take (Z.to_nat i) s ++ drop (Z.to_nat j) s) /\ sb_size data' = sb_size data
    /\ exists gap rest', sb_buf data = take (Z.to_nat i) s ++ gap ++ drop (Z.to_nat j) s ++ 0 :: rest' /\ length gap = Z.to_nat (j - i)
       /\ sb_buf data' = take (Z.to_nat i) s ++ (drop (Z.to_nat j) s ++ [0])
                          ++ drop (length (drop (Z.to_nat j) s ++ [0])) (gap ++ drop (Z.to_nat j) s ++ 0 :: rest').
Proof.
  intros (rest & Hm & Hl & Hs) Hi Hj Hov Hmax. unfold sbuf_eraser. rewrite Hl.
  zfalse (zlen s =? 0). zfalse ((i >=? zlen s) || (i >=? j) || (j <=? 0) || (j >? zlen s)). zfalse (2 ^ 31 <=? zlen s - j + 1).
  set (pre := take (Z.to_nat i) s). set (tl := drop (Z.to_nat j) s). set (gap := take (Z.to_nat (j - i)) (drop (Z.to_nat i) s)).
  assert (s = pre ++ gap ++ tl) as Hsplit.
  { unfold pre, gap, tl. rewrite <- (take_drop (Z.to_nat i) s) at 1. f_equal.
    rewrite <- (take_drop (Z.to_nat (j - i)) (drop (Z.to_nat i) s)) at 1. f_equal. rewrite drop_drop. f_equal. lia. }
  assert (zlen pre = i) as Hp by (unfold pre; rewrite length_take; lia).
  assert (zlen gap = j - i) as Hg by (unfold gap; rewrite length_take, length_drop; lia).
  assert (zlen tl = zlen s - j) as Ht by (unfold tl; rewrite length_drop; lia).
  assert (sb_buf data = pre ++ gap ++ (tl ++ [0]) ++ rest) as Hm'.
  { rewrite Hm, Hsplit at 1. by rewrite <- !app_assoc. }
  replace (memcpy_in (sb_buf data) i j (zlen s - j + 1))
    with (memcpy_in (sb_buf data) (zlen pre) (zlen pre + zlen gap) (zlen (tl ++ [0]))).
  2: { f_equal; rewrite ?length_app; cbn [length]; lia. }
  rewrite (move_left _ pre gap (tl ++ [0]) rest Hm'), bind_Some by (rewrite length_app; cbn [length]; lia).
  eexists. split; [done|]. split; [|split; [done|]].
  - exists (drop (length (tl ++ [0])) (gap ++ (tl ++ [0]) ++ rest)). cbn [sb_buf sb_len sb_size]. split; [by rewrite <- !app_assoc|].
    split; [rewrite length_app; lia|]. rewrite Hs, Hm'. rewrite !length_app, !length_drop, !length_app. lia.
  - exists gap, rest. split; [rewrite Hm'; by rewrite <- !app_assoc|]. split; [lia|]. cbn [sb_buf]. by rewrite <- !app_assoc.
Qed.

Lemma sbuf_insert_str_holds data s pos t :
  sbuf_holds data s -> 0 <= pos <= zlen s -> t <> [] -> zlen s - pos <= zlen t -> zlen s + zlen t < 2 ^ 31 - 1 ->
  3 * sb_size data + zlen t + 1 < 2 ^ 50 ->
  exists data', sbuf_insert_str true data pos t = Some (true, data')
    /\ sbuf_holds data' (take (Z.to_nat pos) s ++ t ++ drop (Z.to_nat pos) s)
    /\ sb_size data' <= 3 * sb_size data + zlen t + 1.
Proof.
  intros H Hp Ht Hov Hmax Hb. unfold sbuf_insert_str. pose proof H as (_ & _ & Hl & _). rewrite Hl.
  zfalse (pos >? zlen s). assert (0 < zlen t) by (destruct t; [done | cbn [length]; lia]). zfalse (zlen t <=? 0).
  destruct (sbuf_append_str_holds true data s t H Hb) as (ok & d1 & -> & H1 & Hok & Hs1). rewrite bind_Some.
  rewrite Hok in H1 by done. pose proof H1 as (_ & _ & Hl1 & _). rewrite length_app in Hl1.
  rewrite Hl1, size_t_id by lia. replace (Z.of_nat (length s + length t) - zlen t) with (zlen s) by lia.
  destruct (sbuf_eraser_holds d1 (s ++ t) (zlen s) (Z.of_nat (length s + length t)) H1)
    as (d2 & -> & H2 & Hs2 & gap & rest' & _ & Hgap & Hm2); [lia | rewrite length_app; lia.. |]. rewrite bind_Some.
  rewrite !Nat2Z.id, take_app_length in *.
  assert (drop (length s + length t) (s ++ t) = []) as Hnil by (apply drop_ge; rewrite length_app; lia).
  rewrite Hnil in *. rewrite app_nil_r in H2. cbn [app length] in Hm2. pose proof H2 as (_ & _ & Hl2 & Hz2).
  destruct gap as [|y gap]; [cbn [length] in Hgap; lia|]. cbn [app] in Hm2. change (drop 1 (y :: gap ++ 0 :: rest')) with (gap ++ 0 :: rest') in Hm2.
  set (pre := take (Z.to_nat pos) s) in *. set (l := drop (Z.to_nat pos) s) in *.
  assert (zlen pre = pos) as Hpre by (unfold pre; rewrite length_take; lia).
  assert (zlen l = zlen s - pos) as Hll by (unfold l; rewrite length_drop; lia).
  set (room := (0 :: gap) : list Z). assert (length room = length t) as Hroom by (unfold room; cbn [length] in *; lia).
  assert (sb_buf d2 = pre ++ l ++ room ++ 0 :: rest') as Hm3.
  { rewrite Hm2. rewrite <- (take_drop (Z.to_nat pos) s) at 1. by rewrite <- app_assoc. }
  replace (memcpy_in (sb_buf d2) (pos + zlen t) pos (sb_len d2 - pos))
    with (memcpy_in (sb_buf d2) (zlen pre + zlen room) (zlen pre) (zlen l)) by (f_equal; lia).
  rewrite (move_right _ pre l room (0 :: rest') Hm3), bind_Some by lia.
  rewrite wr_bytes_app, bind_Some; [|lia | rewrite length_app, length_take, length_app; lia].
  rewrite drop_app_ge by (rewrite length_take, length_app; lia).
  replace (length t - length (take (length room) (l ++ room)))%nat with 0%nat by (rewrite length_take, length_app; lia).
  rewrite drop_0. eexists. split; [done|]. split; [|cbn [sb_size]; lia].
  exists rest'. cbn [sb_buf sb_len sb_size]. split; [by rewrite <- !app_assoc|]. split.
  - rewrite Hl2, size_t_id by lia. rewrite !length_app. lia.
  - rewrite Hz2, Hm3, !length_app, Hroom. lia.
Qed.

(** *** Sequences of operations *)

Inductive sbuf_op :=
  | SAppend (t : list Z) | SNappend (n : Z) (t : list Z) | SStr (t : list Z) | SChr (c : Z)
  | SReset | SBack (n : Z) | SErase (i j : Z) | SInsert (pos : Z) (t : list Z).

Definition sbuf_step (data : SBUF) (op : sbuf_op) : option (bool * SBUF) :=
  match op with
  | SAppend t => sbuf_append true data (Some t)
  | SNappend n t => sbuf_nappend true data n (Some t)
  | SStr t => sbuf_append_str true data t
  | SChr c => sbuf_append_chr true data c
  | SReset => data ← sbuf_reset data; Some (true, data)
  | SBack n => sbuf_back data n
  | SErase i j => sbuf_eraser data i j
  | SInsert pos t => sbuf_insert_str true data pos t
  end.

(** What the operation returns and the string it leaves. *)
Definition sbuf_effect (s : list Z) (op : sbuf_op) : bool * list Z :=
  match op with
  | SAppend t | SStr t => (true, s ++ t)
  | SNappend n t => (true, s ++ take (Z.to_nat n) t)
  | SChr c => (true, s ++ [c])
  | SReset => (true, [])
  | SBack n => if zlen s =? 0 then (false, s) else (true, take (Z.to_nat (zlen s - n)) s)
  | SErase i j => if (i <? j) && (j <=? zlen s) then (true, take (Z.to_nat i) s ++ drop (Z.to_nat j) s) else (false, s)
  | SInsert pos t =>
      if (pos <=? zlen s) && negb (zlen t =? 0)
      then (true, take (Z.to_nat pos) s ++ t ++ drop (Z.to_nat pos) s) else (false, s)
  end.

(** No more is taken off than there is, and bytes that move do not overlap. *)
Definition sbuf_op_ok (s : list Z) (op : sbuf_op) : Prop :=
  match op with
  | SAppend _ | SStr _ | SReset => True
  | SNappend n _ => 0 <= n
  | SChr c => is_u8 c
  | SBack n => 0 <= n <= zlen s
  | SErase i j => 0 <= i /\ (i < j <= zlen s -> zlen s - j + 1 <= j - i)
  | SInsert pos t => 0 <= pos /\ (pos <= zlen s -> zlen s - pos <= zlen t)
  end.

Definition sbuf_op_size (op : sbuf_op) : Z :=
  match op with SAppend t | SStr t | SNappend _ t | SInsert _ t => zlen t | _ => 1 end.

Lemma sbuf_step_holds data s op : sbuf_holds data s -> sbuf_op_ok s op -> 3 * sb_size data + sbuf_op_size op + 1 < 2 ^ 31 - 1 ->
  exists data', sbuf_step data op = Some ((sbuf_effect s op).1, data') /\ sbuf_holds data' (sbuf_effect s op).2
    /\ sb_size data' <= 3 * sb_size data + sbuf_op_size op + 1.
Proof.
  intros H Hok Hmax. pose proof H as (rest & Hm & Hl & Hs).
  assert (zlen s < sb_size data) as Hlt by (rewrite Hs, Hm, length_app; cbn [length]; lia).
  destruct op as [t|n t|t|c| |n|i j|pos t]; cbn [sbuf_step sbuf_effect sbuf_op_ok sbuf_op_size fst snd] in *.
  - destruct (sbuf_append_str_holds true data s t H) as (ok & d & Hr & Hd & Hk & Hsz); [lia|]. rewrite Hk in * by done.
    exists d. split_and!; [exact Hr | done | lia].
  - unfold sbuf_nappend. set (k := if n >? zlen t then zlen t else n).
    assert (0 <= k <= zlen t /\ take (Z.to_nat n) t = take (Z.to_nat k) t) as [Hk ->].
    { unfold k. destruct (Z.gtb_spec n (zlen t)); [|done]. split; [lia|]. rewrite !take_ge by lia. done. }
    destruct (sbuf_append_str_holds true data s (take (Z.to_nat k) t) H) as (ok & d & Hr & Hd & Ho & Hsz); [rewrite length_take; lia|].
    rewrite Ho in * by done. unfold sbuf_append_str in Hr. rewrite length_take, Nat.min_l, Z2Nat.id in * by lia.
    replace (k + 1 - 1) with k in Hr by lia. exists d. split_and!; [exact Hr | done | lia].
  - destruct (sbuf_append_str_holds true data s t H) as (ok & d & Hr & Hd & Hk & Hsz); [lia|]. rewrite Hk in * by done.
    exists d. split_and!; [done | done | lia].
  - unfold sbuf_append_chr. destruct (sbuf_room_holds true data s 2 H) as (ok & d1 & -> & (rest1 & Hm1 & Hl1 & Hs1) & Hr & Hk & Hsz); [lia | lia|].
    rewrite bind_Some, Hk by done. specialize (Hr (Hk eq_refl)). rewrite Hs1, Hm1, length_app in Hr. cbn [length] in Hr.
    destruct rest1 as [|y rest1]; [cbn [length] in Hr; lia|].
    rewrite Hl1, Hm1, (wr8_at s), bind_Some by done.
    change (s ++ c :: y :: rest1) with (s ++ [c] ++ y :: rest1). rewrite app_assoc, (wr8_at (s ++ [c])), bind_Some by (rewrite ?length_app; cbn [length]; lia).
    eexists. split; [done|]. split; [|cbn [sb_size]; lia]. exists rest1. cbn [sb_buf sb_len sb_size]. split; [done|].
    rewrite size_t_id by lia. split; [rewrite length_app; cbn [length]; lia|]. rewrite Hs1, Hm1, !length_app. cbn [length]. lia.
  - unfold sbuf_reset. rewrite Hm. destruct (s ++ 0 :: rest) as [|y m] eqn:E; [by destruct s|].
    rewrite (wr8_at [] y m), !bind_Some by done. eexists. split; [done|]. split; [|cbn [sb_size]; lia].
    exists m. cbn [sb_buf sb_len sb_size app length] in *. split_and!; try done. by rewrite Hs, Hm.
  - unfold sbuf_back. rewrite Hl. destruct (Z.eqb_spec (zlen s) 0); [exists data; split_and!; done || lia|].
    rewrite size_t_id by lia. set (k := zlen s - n).
    destruct (drop (Z.to_nat k) (s ++ [0])) as [|y q] eqn:E.
    { apply (f_equal length) in E. rewrite length_drop, length_app in E. cbn [length] in E. lia. }
    assert (sb_buf data = take (Z.to_nat k) s ++ y :: q ++ rest) as ->.
    { rewrite Hm. change (s ++ 0 :: rest) with (s ++ [0] ++ rest). rewrite app_assoc, <- (take_drop (Z.to_nat k) (s ++ [0])), E.
      rewrite take_app_le by lia. by rewrite <- app_assoc. }
    rewrite (wr8_at (take (Z.to_nat k) s)), bind_Some by (rewrite ?length_take; lia).
    cbn [fst snd]. eexists. split; [done|]. split; [|cbn [sb_size]; lia]. exists (q ++ rest). cbn [sb_buf sb_len sb_size]. split; [done|].
    rewrite length_take. split; [lia|]. rewrite Hs, Hm. apply (f_equal length) in E. rewrite length_drop, length_app in E. cbn [length] in E.
    rewrite !length_app, length_take. cbn [length]. rewrite length_app. lia.
  - destruct Hok as [Hi Hov]. destruct (Z.ltb_spec i j); [destruct (Z.leb_spec j (zlen s))|]; cbn [andb fst snd].
    + destruct (sbuf_eraser_holds data s i j H) as (d & Hr & Hd & Hsz & _); [lia.. |]. exists d. split_and!; [done | done | lia].
    + exists data. split_and!; [|done | lia]. unfold sbuf_eraser. rewrite Hl. case_if; [done|].
      by ztrue ((i >=? zlen s) || (i >=? j) || (j <=? 0) || (j >? zlen s)).
    + exists data. split_and!; [|done | lia]. unfold sbuf_eraser. rewrite Hl. case_if; [done|].
      by ztrue ((i >=? zlen s) || (i >=? j) || (j <=? 0) || (j >? zlen s)).
  - destruct Hok as [Hp Hov]. destruct (Z.leb_spec pos (zlen s)); [destruct (Z.eqb_spec (zlen t) 0)|]; cbn [andb negb fst snd].
    + exists data. split_and!; [|done | lia]. unfold sbuf_insert_str. rewrite Hl. zfalse (pos >? zlen s). by ztrue (zlen t <=? 0).
    + destruct (sbuf_insert_str_holds data s pos t H) as (d & Hr & Hd & Hsz); [lia | by intros -> | lia | lia | lia|].
      exists d. split_and!; [done | done | lia].
    + exists data. split_and!; [|done | lia]. unfold sbuf_insert_str. rewrite Hl. by ztrue (pos >? zlen s).
Qed.

Fixpoint sbuf_run (data : SBUF) (ops : list sbuf_op) : option (list bool * SBUF) :=
  match ops with
  | [] => Some ([], data)
  | op :: ops =>
      '(r, data) ← sbuf_step data op;
      '(rs, data) ← sbuf_run data ops;
      Some (r :: rs, data)
  end.

Fixpoint sbuf_effects (s : list Z) (ops : list sbuf_op) : list bool * list Z :=
  match ops with
  | [] => ([], s)
  | op :: ops =>
      let '(r, s) := sbuf_effect s op in
      let '(rs, s) := sbuf_effects s ops in (r :: rs, s)
  end.

Fixpoint sbuf_ops_ok (s : list Z) (ops : list sbuf_op) : Prop :=
  match ops with
  | [] => True
  | op :: ops => sbuf_op_ok s op /\ sbuf_ops_ok (sbuf_effect s op).2 ops
  end.

Lemma sbuf_run_holds m ops data s : sbuf_holds data s -> sbuf_ops_ok s ops ->
  Forall (fun op => sbuf_op_size op <= m) ops -> (sb_size data + m + 1) * 3 ^ zlen ops < 2 ^ 31 - 1 -> 0 <= m ->
  exists data', sbuf_run data ops = Some ((sbuf_effects s ops).1, data') /\ sbuf_holds data' (sbuf_effects s ops).2.
Proof.
  intros H Hok Hm Hb Hm0. revert data s H Hok Hb. induction Hm as [|op ops Hop _ IH]; intros data s H Hok Hb; [by exists data|].
  destruct Hok as [Hok1 Hok2]. cbn [sbuf_run sbuf_effects length] in *. rewrite Nat2Z.inj_succ, Z.pow_succ_r in Hb by lia.
  assert (0 <= sb_size data) by (destruct H as (? & _ & _ & ->); lia).
  assert (1 <= 3 ^ zlen ops) by (change 1 with (3 ^ 0); apply Z.pow_le_mono_r; lia).
  destruct (sbuf_step_holds data s op H Hok1) as (d1 & -> & Hd1 & Hs1); [nia|]. rewrite bind_Some.
  destruct (sbuf_effect s op) as [r s1]. cbn [fst snd] in *.
  destruct (IH d1 s1 Hd1 Hok2) as (d2 & -> & H2); [nia|]. rewrite bind_Some.
  destruct (sbuf_effects s1 ops) as [rs s2]. by exists d2.
Qed.

(** Any sequence of operations on a new string of [n] bytes returns what the same
    operations on a list of characters say and leaves the list they leave, which
    [sbuf_string] and [sbuf_length] give back; every copy stays within the memory
    reserved.  The capacity is at most tripled by an operation, which bounds how long
    the sequence may be for the 32-bit lengths of the code. *)
Theorem sbuf_session n m ops :
  0 < n -> 0 <= m -> sbuf_ops_ok [] ops -> Forall (fun op => sbuf_op_size op <= m) ops ->
  (n + m + 1) * 3 ^ zlen ops < 2 ^ 31 - 1 -> (0 ∉ (sbuf_effects [] ops).2) ->
  exists data data', sbuf_new true true n = Some (Some data)
    /\ sbuf_run data ops = Some ((sbuf_effects [] ops).1, data')
    /\ sbuf_string (Some data') = Some (sbuf_effects [] ops).2
    /\ sbuf_length (Some data') = zlen (sbuf_effects [] ops).2.
Proof.
  intros Hn Hm Hok Hsz Hb Hnz. destruct (sbuf_new_holds n Hn) as (data & Hnew & H & Hs).
  destruct (sbuf_run_holds m ops data [] H Hok Hsz) as (data' & Hrun & H'); [by rewrite Hs | done|].
  destruct (sbuf_string_holds data' _ H' Hnz) as [Hstr Hlen]. by exists data, data'.
Qed.

(** An append that cannot get its memory leaves the string as it is. *)
Theorem sbuf_append_refused data s t :
  sbuf_holds data s -> sb_size data < zlen s + zlen t + 1 -> 3 * sb_size data + zlen t + 1 < 2 ^ 50 ->
  sbuf_append_str false data t = Some (false, data).
Proof.
  intros (rest & Hm & Hl & Hs) Hlt Hb. unfold sbuf_append_str, sbuf_room, SBUF_BUF. rewrite Hl.
  ztrue (sb_size data <? zlen s + (zlen t + 1)).
  assert (zlen s < sb_size data) by (rewrite Hs, Hm, length_app; cbn [length]; lia).
  by zfalse (2 ^ 50 <=? sb_size data + zlen s + (zlen t + 1) + sb_size data `div` 5).
Qed.
End sbuf.

(** ** Concrete runs *)

Definition zero_memory (n : Z) : list Z := zeros n.

(** Erasing a short range in front of a longer rest copies memory onto itself. *)
Example eraser_overlaps :
  ('(_, data) ← sbuf_append_str zero_memory true (mkSBUF (zeros 16) 16 0) [97; 98; 99; 100]; sbuf_eraser data 0 1) = None.
Proof. reflexivity. Qed.

(** A copy lacks the NUL: here the memory it is made in was not clear. *)
Example copy_not_terminated :
  (data ← snd <$> sbuf_append_str zero_memory true (mkSBUF (zeros 4) 4 0) [97; 98];
   '(_, to) ← sbuf_copy (fun n => replicate (Z.to_nat n) 99) true data;
   sbuf_string (Some to)) = Some [97; 98; 99; 99].
Proof. reflexivity. Qed.

(** Taking off more than there is makes the length wrap. *)
Example back_underflows : sbuf_back (mkSBUF [97; 0] 2 1) 2 = None.
Proof. reflexivity. Qed.

Lemma sbuf_session_witness :
  exists data data', sbuf_new zero_memory true true 4 = Some (Some data)
    /\ sbuf_run zero_memory data [SStr [97; 98; 99]; SInsert 1 [100; 101]; SErase 1 4; SBack 1] = Some ([true; true; true; true], data')
    /\ sbuf_string (Some data') = Some [97].
Proof.
  destruct (sbuf_session zero_memory ltac:(intros n Hn; unfold zero_memory; rewrite zeros_length; lia) 4 3
              [SStr [97; 98; 99]; SInsert 1 [100; 101]; SErase 1 4; SBack 1]) as (data & data' & H1 & H2 & H3 & _).
  - lia.
  - lia.
  - repeat split; vm_compute; try discriminate; intros _; discriminate.
  - repeat constructor; cbn; lia.
  - reflexivity.
  - vm_compute. set_solver.
  - exists data, data'. split; [exact H1 | split; [exact H2 | exact H3]].
Defined.
