(* ===== verification/IniConfig.v ===== *)
(** * fun_ini/ini_config1.c: configurations in a string dictionary

    A configuration is a string dictionary (StrDic.v) with an entry without a value for
    a section and an entry [section:key] for a key.  A file is the list of its characters
    (values of [char]), a string is one without its NUL; the allocations succeed, except
    that growing the arrays of the dictionary may fail.  [fgets], [sscanf], [strtol] and
    the formats are those of the C library in the C locale; what is printed on the
    console is left out, but not that a string is printed from an invalid pointer.
    [config_ini_getDouble], which reads a floating-point number, and
    [config_ini_free] are not modelled.  [skip_spaces] and [cut_spaces] are from IniRw.v. *)

From stdpp Require Import prelude.
From S2P Require Import Prelude CMem StrDic IniRw.

(** ** Strings *)

(** The loop compares where it means to assign: nothing is changed. *)
Definition strlwc (s : list Z) : list Z := s.

Definition strstrip (s : list Z) : list Z := cut_spaces (skip_spaces s).

(** The longest prefix of characters with [p], and the rest. *)
Fixpoint span_while (p : Z -> bool) (s : list Z) : list Z * list Z :=
  match s with
  | [] => ([], [])
  | c :: s' => if p c then let '(a, b) := span_while p s' in (c :: a, b) else ([], s)
  end.

Definition one_of (set : list Z) (c : Z) : bool := bool_decide (c ∈ set).
Definition none_of (set : list Z) (c : Z) : bool := negb (one_of set c).

(** A conversion of [sscanf] by a set of characters matches at least one. *)
Definition scan_set (p : Z -> bool) (s : list Z) : option (list Z * list Z) :=
  match span_while p s with ([], _) => None | r => Some r end.

Definition scan_char (c : Z) (s : list Z) : option (list Z) :=
  match s with d :: s => if d =? c then Some s else None | [] => None end.

(** The start of most formats: characters other than an equals sign, the equals sign, and
    blanks before and behind it. *)
Definition scan_key (line : list Z) : option (list Z * list Z) :=
  '(key, s) ← scan_set (none_of [61]) line;
  s ← scan_char 61 (skip_spaces s);
  Some (key, skip_spaces s).

(** The formats for a value in quotation marks or apostrophes [q]. *)
Definition scan_quoted (q : Z) (line : list Z) : option (list Z * list Z) :=
  '(key, s) ← scan_key line;
  s ← scan_char q s;
  '(value, _) ← scan_set (none_of [q]) s;
  Some (key, value).

(** [%[^=] = %[^;#]] *)
Definition scan_plain (line : list Z) : option (list Z * list Z) :=
  '(key, s) ← scan_key line;
  '(value, _) ← scan_set (none_of [59; 35]) s;
  Some (key, value).

(** [%[^=] = %[;#]] *)
Definition scan_comment (line : list Z) : option (list Z * list Z) :=
  '(key, s) ← scan_key line;
  '(value, _) ← scan_set (one_of [59; 35]) s;
  Some (key, value).

(** [%[^=] %[=]] *)
Definition scan_equals (line : list Z) : option (list Z * list Z) :=
  '(key, s) ← scan_set (none_of [61]) line;
  '(value, _) ← scan_set (one_of [61]) (skip_spaces s);
  Some (key, value).

Definition or_else {A} (x y : option A) : option A := match x with Some _ => x | None => y end.

(** ** Lines *)

Definition ASCIILINESZ : Z := 1024.

(** The status with the strings that the function gives its caller. *)
Inductive line_status :=
  | LINE_ERROR | LINE_EMPTY | LINE_COMMENT | LINE_SECTION (section : list Z) | LINE_VALUE (key value : list Z).

(** [line_size] is the size of the copies.  The values fit the memory they are read into;
    the name of a section is read into what was meant for the key before an equals sign. *)
Definition iniparser_line (line_size : Z) (input_line : list Z) : option line_status :=
  return_if line_size <? zlen input_line + 1 with None ;;
  let line := strstrip input_line in
  let '(before, after) := span_while (none_of [61]) line in
  let equals := negb (bool_decide (after = [])) in
  let key_size := if equals then zlen before + 1 else line_size + 1 in
  return_if zlen line <? 1 with Some LINE_EMPTY ;;
  return_if bool_decide (head line = Some 35) || bool_decide (head line = Some 59) with Some LINE_COMMENT ;;
  return_if bool_decide (head line = Some 91) && bool_decide (last line = Some 93) with
    (let key := match scan_set (none_of [93]) (tail line) with Some (name, _) => name | None => [] end in
     return_if key_size <? zlen key + 1 with None ;;
     Some (LINE_SECTION (strlwc (strstrip key)))) ;;
  match (if equals then or_else (scan_quoted 34 line) (or_else (scan_quoted 39 line) (scan_plain line)) else None) with
  | Some (key, value) =>
      let value := strstrip value in
      let value := if bool_decide (value = [34; 34]) || bool_decide (value = [39; 39]) then [] else value in
      Some (LINE_VALUE (strlwc (strstrip key)) value)
  | None =>
      match (if equals then or_else (scan_comment line) (scan_equals line) else None) with
      | Some (key, _) => Some (LINE_VALUE (strlwc (strstrip key)) [])
      | None => Some LINE_ERROR
      end
  end.

(** ** Loading *)

(** At most [n] characters of the file, up to and with the first line feed. *)
Fixpoint take_line (n : nat) (f : list Z) : list Z * list Z :=
  match n, f with
  | S n, c :: f => if c =? 10 then ([10], f) else let '(l, rest) := take_line n f in (c :: l, rest)
  | _, _ => ([], f)
  end.

(** [fgets(line, size, in)]: the string read, whether the end of the file was met, and
    what is left; [None] when nothing is left. *)
Definition fgets (size : Z) (f : list Z) : option (list Z * bool * list Z) :=
  match f with
  | [] => None
  | _ =>
      let '(l, rest) := take_line (Z.to_nat (size - 1)) f in
      let eof := bool_decide (rest = []) && negb (bool_decide (last l = Some 10)) && (zlen l <? size - 1) in
      Some (c_str l, eof, rest)
  end.

Record loader := mkLoader { ld_errs : Z; ld_section : list Z; ld_full_line : option (list Z); ld_d : string_dic_t }.

Section load.
(** Whether the arrays of a dictionary with that many entries can grow. *)
Context (can_grow : Z -> bool).

(** The switch on the status: [false] where the loop is left. *)
Definition load_status (st : loader) (status : line_status) : option (loader * bool) :=
  '(errs, section, d) ← match status with
    | LINE_EMPTY | LINE_COMMENT => Some (ld_errs st, ld_section st, ld_d st)
    | LINE_SECTION section =>
        '(errs, d) ← string_dic_set (can_grow (dic_n (ld_d st))) (ld_d st) (Some section) None;
        Some (errs, section, d)
    | LINE_VALUE key value =>
        '(errs, d) ← string_dic_set (can_grow (dic_n (ld_d st))) (ld_d st) (Some (ld_section st ++ 58 :: key)) (Some value);
        Some (errs, ld_section st, d)
    | LINE_ERROR => return_if negb (is_int (ld_errs st + 1)) with None ;; Some (ld_errs st + 1, ld_section st, ld_d st)
    end;
  Some (mkLoader errs section None d, negb (errs <? 0)).

(** One turn of the loop with the string [line] that [fgets] read. *)
Definition load_line (st : loader) (line : list Z) (eof : bool) : option (loader * bool) :=
  let len := zlen line - 1 in
  return_if len =? 0 with Some (st, true) ;;
  return_if len <? 0 with None ;;
  return_if negb (bool_decide (last line = Some 10)) && negb eof with
    Some (mkLoader (ld_errs st + 1) (ld_section st) (ld_full_line st) (ld_d st), false) ;;
  let line := cut_spaces line in
  let len := if zlen line - 1 <? 0 then 0 else zlen line - 1 in
  let multi_line := bool_decide (last line = Some 92) in
  let line := if multi_line then removelast line else line in
  let len := if multi_line then len - 1 else len in
  let prev_line := default [] (ld_full_line st) in
  let total_size := len + 1 + zlen prev_line + 1 in
  return_if 2 ^ 31 <=? total_size with None ;;
  let full_line := prev_line ++ line in
  return_if multi_line with Some (mkLoader (ld_errs st) (ld_section st) (Some full_line) (ld_d st), true) ;;
  status ← iniparser_line total_size full_line;
  load_status st status.

(** The loop over the file; with errors the dictionary is deleted. *)
Fixpoint load_loop (fuel : nat) (st : loader) (f : list Z) : option (option string_dic_t) :=
  let out st := Some (if ld_errs st =? 0 then Some (ld_d st) else None) in
  match fuel with
  | O => None
  | S fuel =>
      match fgets ASCIILINESZ f with
      | None => out st
      | Some (line, eof, f) =>
          '(st, go) ← load_line st line eof;
          if go : bool then load_loop fuel st f else out st
      end
  end.

(** [None] for a file that cannot be opened; the result is the dictionary of the
    structure returned, or its null pointer. *)
Definition config_init_load (file : option (list Z)) : option (option string_dic_t) :=
  match file with
  | None => Some None
  | Some f => load_loop (S (length f)) (mkLoader 0 [] None (string_dic_new 0)) f
  end.
End load.

(** ** Reading and changing entries *)

Definition config_ini_new : string_dic_t := string_dic_new 0.

(** The pointers passed for a default: null, the pointer -1 or a string. *)
Inductive c_ptr := NullPtr | MinusOne | StrPtr (s : list Z).

Definition ptr_of (s : option (list Z)) : c_ptr := match s with Some s => StrPtr s | None => NullPtr end.

(** The string that was found is printed, unless it is null: nothing is defined when it
    is the default -1. *)
Definition config_ini_getString (d : option string_dic_t) (key : option (list Z)) (def : c_ptr) : option c_ptr :=
  match d, key with
  | Some d, Some key =>
      let lc_key := strlwc key in
      match def with
      | NullPtr => ptr_of <$> string_dic_get d lc_key None
      | StrPtr s => ptr_of <$> string_dic_get d lc_key (Some s)
      | MinusOne =>
          r ← find_key d lc_key;
          match r with inr _ => ptr_of <$> string_dic_get d lc_key None | inl _ => None end
      end
  | _, _ => Some def
  end.

Definition digit_val (c : Z) : Z :=
  if (48 <=? c) && (c <=? 57) then c - 48
  else if (97 <=? c) && (c <=? 122) then c - 87
  else if (65 <=? c) && (c <=? 90) then c - 55 else 99.

Fixpoint digits (base acc : Z) (s : list Z) : Z :=
  match s with
  | c :: s => if digit_val c <? base then digits base (acc * base + digit_val c) s else acc
  | [] => acc
  end.

(** [strtol(str, NULL, 0)], with the saturation of the C library. *)
Definition strtol (s : list Z) : Z :=
  let s := skip_spaces s in
  let neg := bool_decide (head s = Some 45) in
  let s := if neg || bool_decide (head s = Some 43) then tail s else s in
  let value :=
    match s with
    | 48 :: x :: c :: s' =>
        if ((x =? 120) || (x =? 88)) && (digit_val c <? 16) then digits 16 0 (c :: s') else digits 8 0 s
    | 48 :: _ => digits 8 0 s
    | _ => digits 10 0 s
    end in
  Z.max (- 2 ^ 63) (Z.min (2 ^ 63 - 1) (if neg then - value else value)).

(** A section has no string to convert. *)
Definition config_ini_getInt (d : option string_dic_t) (key : option (list Z)) (notfound : Z) : option Z :=
  str ← config_ini_getString d key MinusOne;
  match str with
  | MinusOne => Some notfound
  | NullPtr => None
  | StrPtr s => Some (int32 (strtol s))
  end.

Definition config_ini_getBoolean (d : option string_dic_t) (key : option (list Z)) (notfound : Z) : option Z :=
  c ← config_ini_getString d key MinusOne;
  match c with
  | MinusOne => Some notfound
  | NullPtr => None
  | StrPtr c =>
      let c0 := default 0 (head c) in
      Some (if one_of [121; 89; 49; 116; 84] c0 then 1 else if one_of [110; 78; 48; 102; 70] c0 then 0 else notfound)
  end.

Definition config_ini_set (grow : bool) (d : string_dic_t) (entry : list Z) (val : option (list Z)) : option (Z * string_dic_t) :=
  string_dic_set grow d (Some (strlwc entry)) val.

Definition config_ini_unset (d : string_dic_t) (entry : list Z) : option string_dic_t :=
  string_dic_unset d (Some (strlwc entry)).

Definition config_ini_find_entry (d : option string_dic_t) (entry : option (list Z)) : option Z :=
  r ← config_ini_getString d entry MinusOne;
  Some (match r with MinusOne => 0 | _ => 1 end).

(** ** Sections and saving *)

Definition is_section_key (key : list Z) : bool := bool_decide (58 ∉ key).

(** The loop over the slots with a key that most functions have. *)
Definition for_keys {A} (d : string_dic_t) (body : Z -> list Z -> A -> option A) (a : A) : option A :=
  for_range (Z.to_nat (dic_size d)) 0 (fun i a =>
    k ← znth (dic_key d) i;
    match k with None => Some a | Some k => body i k a end) a.

Definition config_ini_get_section_num (d : option string_dic_t) : option Z :=
  match d with
  | None => Some (-1)
  | Some d => for_keys d (fun _ k nsec => Some (if is_section_key k then nsec + 1 else nsec)) 0
  end.

Definition config_ini_get_section_name (d : option string_dic_t) (n : Z) : option (option (list Z)) :=
  match d with
  | None => Some None
  | Some d =>
      return_if n <? 0 with Some None ;;
      r ← for_ret (Z.to_nat (dic_size d)) 0 (fun i foundsec =>
            k ← znth (dic_key d) i;
            match k with
            | None => Some (inl foundsec)
            | Some k =>
                let foundsec := if is_section_key k then foundsec + 1 else foundsec in
                Some (if is_section_key k && (foundsec >? n) then inr i else inl foundsec)
            end) 0;
      match r with inl _ => Some None | inr i => znth (dic_key d) i end
  end.

(** [strncmp(key, keym, secsize-1) == 0] for the [secsize-1] characters of [section:] *)
Definition of_section (s key : list Z) : bool :=
  let keym := s ++ [58] in bool_decide (take (length keym) key = keym).

(** [%-30s] *)
Definition pad30 (s : list Z) : list Z := s ++ replicate (30 - length s) 32.

Definition config_ini_savesection_to_file (d : option string_dic_t) (s : list Z) (f : list Z) : option (list Z) :=
  match d with
  | None => Some f
  | Some d =>
      found ← config_ini_find_entry (Some d) (Some s);
      return_if found =? 0 with Some f ;;
      f ← for_keys d (fun j key f =>
            return_if negb (of_section s key) with Some f ;;
            val ← znth (dic_val d) j;
            Some (f ++ pad30 (drop (length s + 1) key) ++ [32; 61; 32] ++ default [] val ++ [10]))
          (f ++ [10; 91] ++ s ++ [93; 10]);
      Some (f ++ [10])
  end.

Definition config_ini_save_ini (d : option string_dic_t) (f : list Z) : option (list Z) :=
  match d with
  | None => Some f
  | Some d' =>
      nsec ← config_ini_get_section_num d;
      return_if nsec <? 1 with
        for_keys d' (fun i key f =>
          val ← znth (dic_val d') i;
          val ← val;
          Some (f ++ key ++ [32; 61; 32] ++ val ++ [10])) f ;;
      f ← for_range (Z.to_nat nsec) 0 (fun i f =>
            secname ← config_ini_get_section_name d i;
            secname ← secname;
            config_ini_savesection_to_file d secname f) f;
      Some (f ++ [10])
  end.

(** [can_open] says whether the file can be opened; the file is then written anew. *)
Definition config_ini_save (can_open : bool) (d : option string_dic_t) (file : option (list Z)) : option (Z * option (list Z)) :=
  match d with
  | None => Some (-1, file)
  | Some _ =>
      return_if negb can_open with Some (-1, file) ;;
      f ← config_ini_save_ini d [];
      Some (0, Some f)
  end.

Definition config_ini_dump (d : option string_dic_t) (f : list Z) : option (list Z) :=
  match d with
  | None => Some f
  | Some d =>
      for_keys d (fun i key f =>
        val ← znth (dic_val d) i;
        Some (f ++ [91] ++ key ++ [93; 61] ++ match val with Some v => [91] ++ v ++ [93] | None => [85; 78; 68; 69; 70] end ++ [10])) f
  end.

Definition config_ini_get_section_keys_num (d : option string_dic_t) (s : list Z) : option Z :=
  match d with
  | None => Some 0
  | Some d =>
      found ← config_ini_find_entry (Some d) (Some s);
      return_if found =? 0 with Some 0 ;;
      for_keys d (fun _ key nkeys => Some (if of_section s key then nkeys + 1 else nkeys)) 0
  end.

(** The array of keys; writing it stays within the [nkeys] cells allocated. *)
Definition config_ini_get_section_keys (d : option string_dic_t) (s : list Z) : option (option (list (list Z))) :=
  match d with
  | None => Some None
  | Some d' =>
      found ← config_ini_find_entry d (Some s);
      return_if found =? 0 with Some None ;;
      nkeys ← config_ini_get_section_keys_num d s;
      keys ← for_keys d' (fun _ key keys =>
               return_if negb (of_section s key) with Some keys ;;
               return_if nkeys <=? zlen keys with None ;;
               Some (keys ++ [key])) [];
      Some (Some keys)
  end.
