(* ===== verification/IniConfigCorrect.v ===== *)
(** * Saving a configuration and loading it again

    The text that ini_config1.c writes for a configuration, and what it reads from such a
    text: when the names and values are free of the characters that the format gives a
    meaning, the configuration loaded is the one saved.  The examples at the end are the
    inputs on which the reader goes wrong. *)

From Stdlib Require Import Ascii String.
From stdpp Require Import gmap strings.
From S2P Require Import Prelude CMem StrDic IniRw IniRwCorrect IniConfig.

(** ** What can be saved *)

Definition ink (c : Z) : bool := negb (isspace c).
Definition trimmed (s : list Z) : bool := first_is ink s && last_is ink s.

Definition section_ok (s : list Z) : bool :=
  trimmed s && forallb (none_of [0; 10; 58; 61; 93]) s && (zlen s <=? 1020).

Definition key_ok (k : list Z) : bool :=
  trimmed k && forallb (none_of [0; 10; 61]) k && first_is (none_of [35; 59; 91]) k.

Definition value_ok (v : list Z) : bool :=
  bool_decide (v = [])
  || trimmed v && forallb (none_of [0; 10; 35; 59]) v && first_is (none_of [34; 39]) v && last_is (none_of [92]) v.

(** A configuration: sections without a value, and keys of its sections. *)
Definition ini_wf (m : gmap (list Z) (option (list Z))) : Prop :=
  map_Forall (fun key v =>
    match v with
    | None => section_ok key = true
    | Some v => exists s k, key = s ++ 58 :: k /\ m !! s = Some None /\ key_ok k = true /\ value_ok v = true
                            /\ zlen (pad30 k) + zlen v + 4 <= 1023
    end) m.

(** ** Texts as lines *)

Inductive doc_line := DBlank | DSection (s : list Z) | DValue (k v : list Z).

Definition doc_text (l : doc_line) : list Z :=
  match l with
  | DBlank => [10]
  | DSection s => 91 :: s ++ [93; 10]
  | DValue k v => pad30 k ++ [32; 61; 32] ++ v ++ [10]
  end.

Definition doc_ok (l : doc_line) : Prop :=
  match l with
  | DBlank => True
  | DSection s => section_ok s = true
  | DValue k v => key_ok k = true /\ value_ok v = true /\ zlen (pad30 k) + zlen v + 4 <= 1023
  end.

(** The entries that the lines set, in the section [sec]. *)
Fixpoint doc_pairs (sec : list Z) (ls : list doc_line) : list (list Z * option (list Z)) :=
  match ls with
  | [] => []
  | DBlank :: ls => doc_pairs sec ls
  | DSection s :: ls => (s, None) :: doc_pairs s ls
  | DValue k v :: ls => (sec ++ 58 :: k, Some v) :: doc_pairs sec ls
  end.

(** ** Strings *)

Lemma none_of_spec set s : forallb (none_of set) s = true -> forall c, c ∈ set -> c ∉ s.
Proof.
  rewrite forallb_forall. intros H c Hc Hs. apply list_elem_of_In, H in Hs. unfold none_of, one_of in Hs.
  by rewrite bool_decide_true in Hs.
Qed.

Lemma skip_ink s : s = [] \/ first_is ink s = true -> skip_spaces s = s.
Proof. intros [->|H]; [done|]. by apply (skip_spaces_app []). Qed.

Lemma strstrip_trimmed b1 w b2 : forallb isspace b1 = true -> forallb isspace b2 = true -> trimmed w = true ->
  strstrip (b1 ++ w ++ b2) = w.
Proof.
  unfold trimmed. intros H1 H2 [Hf Hl]%andb_true_iff. unfold strstrip.
  rewrite skip_spaces_app; [by apply cut_spaces_app | done | by apply first_is_app].
Qed.

Lemma span_while_all p s : forallb p s = true -> span_while p s = (s, []).
Proof. induction s as [|c s IH]; intros H; [done|]. apply andb_true_iff in H as [Hc H]. cbn. by rewrite Hc, IH. Qed.

Lemma span_while_app p s c rest : forallb p s = true -> p c = false -> span_while p (s ++ c :: rest) = (s, c :: rest).
Proof.
  intros H Hc. induction s as [|d s IH]; cbn; [by rewrite Hc|]. apply andb_true_iff in H as [Hd H]. by rewrite Hd, IH.
Qed.

Lemma scan_set_app p s c rest : s <> [] -> forallb p s = true -> p c = false -> scan_set p (s ++ c :: rest) = Some (s, c :: rest).
Proof. intros Hn H Hc. unfold scan_set. rewrite span_while_app by done. by destruct s. Qed.

Lemma scan_set_all p s : s <> [] -> forallb p s = true -> scan_set p s = Some (s, []).
Proof. intros Hn H. unfold scan_set. rewrite span_while_all by done. by destruct s. Qed.

Lemma fgets_line x rest : (0 ∉ x) -> (10 ∉ x) -> zlen x < 1023 -> fgets ASCIILINESZ (x ++ 10 :: rest) = Some (x ++ [10], false, rest).
Proof.
  intros H0 H10 Hl. assert (E : forall n, (length x < n)%nat -> take_line n (x ++ 10 :: rest) = (x ++ [10], rest)).
  { clear - H10. induction x as [|c x IH]; intros [|n] Hn; cbn [length] in Hn; try lia; [done|].
    apply not_elem_of_cons in H10 as [Hc H]. cbn [app take_line].
    zfalse (c =? 10). rewrite IH by (done || lia). done. }
  assert (fgets ASCIILINESZ (x ++ 10 :: rest) =
    let '(l, rest) := take_line (Z.to_nat (ASCIILINESZ - 1)) (x ++ 10 :: rest) in
    Some (c_str l, bool_decide (rest = []) && negb (bool_decide (last l = Some 10)) && (zlen l <? ASCIILINESZ - 1), rest)) as ->
    by (by destruct x).
  rewrite E by (unfold ASCIILINESZ; lia).
  rewrite last_snoc, (bool_decide_true (Some 10 = Some 10)) by done. cbn [negb]. rewrite andb_false_r.
  do 3 f_equal. clear - H0. induction x as [|c x IH]; [done|]. apply not_elem_of_cons in H0 as [Hc H]. cbn.
  zfalse (c =? 0). by rewrite IH.
Qed.

(** ** The lines read *)

Definition line_status_of (l : doc_line) : line_status :=
  match l with DBlank => LINE_EMPTY | DSection s => LINE_SECTION s | DValue k v => LINE_VALUE k v end.

(** The line without the blanks at its end. *)
Definition doc_line_cut (l : doc_line) : list Z :=
  match l with
  | DBlank => []
  | DSection s => 91 :: s ++ [93]
  | DValue k [] => pad30 k ++ [32; 61]
  | DValue k v => pad30 k ++ [32; 61; 32] ++ v
  end.

Lemma pad30_first (p : Z -> bool) k rest : first_is p k = true -> first_is p (pad30 k ++ rest) = true.
Proof. intros. unfold pad30. rewrite <- app_assoc. by apply first_is_app. Qed.

Lemma forallb_spaces n : forallb isspace (replicate n 32) = true.
Proof. induction n; done. Qed.

Lemma section_ok_spec s : section_ok s = true -> trimmed s = true /\ forallb (none_of [0; 10; 58; 61; 93]) s = true /\ zlen s <= 1020.
Proof. unfold section_ok. rewrite !andb_true_iff. intros [[? ?] ?%Z.leb_le]. done. Qed.

Lemma config_key_ok_spec k : key_ok k = true -> trimmed k = true /\ forallb (none_of [0; 10; 61]) k = true /\ first_is (none_of [35; 59; 91]) k = true.
Proof. unfold key_ok. rewrite !andb_true_iff. by intros [[? ?] ?]. Qed.

Lemma value_ok_spec v : value_ok v = true -> v = [] \/ v <> [] /\ trimmed v = true /\ forallb (none_of [0; 10; 35; 59]) v = true
  /\ first_is (none_of [34; 39]) v = true /\ last_is (none_of [92]) v = true.
Proof.
  unfold value_ok. rewrite orb_true_iff, bool_decide_eq_true, !andb_true_iff. intros [->|[[[? ?] ?] ?]]; [by left|right].
  split; [by intros ->|done].
Qed.

Lemma weaken_none set set' s : (forall c, c ∈ set' -> c ∈ set) -> forallb (none_of set) s = true -> forallb (none_of set') s = true.
Proof.
  intros Hs. rewrite !forallb_forall. intros H x Hx. apply H in Hx. unfold none_of, one_of in *.
  apply negb_true_iff, bool_decide_eq_false. apply negb_true_iff, bool_decide_eq_false in Hx. naive_solver.
Qed.

Lemma pad30_none set k : one_of set 32 = false -> forallb (none_of set) k = true -> forallb (none_of set) (pad30 k) = true.
Proof.
  intros H32 Hk. unfold pad30. rewrite forallb_app, Hk. cbn. induction (30 - length k)%nat; [done|]. cbn. unfold none_of at 1. by rewrite H32.
Qed.

Lemma strstrip_self w : trimmed w = true -> strstrip w = w.
Proof. intros H. pose proof (strstrip_trimmed [] w [] eq_refl eq_refl H) as E. by rewrite app_nil_r in E. Qed.

Lemma iniparser_section n s : section_ok s = true -> zlen s + 3 <= n ->
  iniparser_line n (91 :: s ++ [93]) = Some (LINE_SECTION s).
Proof.
  intros (Ht & Hn & _)%section_ok_spec Hl. unfold iniparser_line.
  assert (El : zlen (91 :: s ++ [93]) = zlen s + 2) by (cbn [length]; rewrite length_app; cbn; lia).
  rewrite El. zfalse (n <? zlen s + 2 + 1). rewrite strstrip_self by (unfold trimmed, last_is; change (91 :: s ++ [93]) with ([91] ++ s ++ [93]); by rewrite app_assoc, last_snoc).
  rewrite span_while_all.
  2:{ cbn. rewrite forallb_app. cbn. rewrite (weaken_none [0; 10; 58; 61; 93] [61] s); [done|set_solver|done]. }
  cbn [head]. rewrite El. zfalse (zlen s + 2 <? 1). cbn [tail].
  rewrite (scan_set_app _ s 93 []); [|by intros ->|apply (weaken_none _ _ s) with (2 := Hn); set_solver|done].
  assert (Hlast : last (91 :: s ++ [93]) = Some 93) by (change (91 :: s ++ [93]) with ([91] ++ s ++ [93]); by rewrite app_assoc, last_snoc).
  rewrite Hlast. rewrite !bool_decide_false, !bool_decide_true by done. cbn [orb andb negb].
  zfalse (n + 1 <? zlen s + 1). by rewrite strstrip_self.
Qed.

(** Reading a line with a value: the key and the blanks behind it, the equals sign, a
    blank and the value. *)
Lemma scan_key_value k rest : key_ok k = true -> rest = [] \/ first_is ink rest = true ->
  scan_key (pad30 k ++ [32; 61; 32] ++ rest) = Some (pad30 k ++ [32], rest)
  /\ scan_key (pad30 k ++ [32; 61]) = Some (pad30 k ++ [32], []).
Proof.
  intros (Ht & Hn & _)%config_key_ok_spec Hr.
  assert (Hne : pad30 k ++ [32] <> []) by (by destruct (pad30 k)).
  assert (Hp : forallb (none_of [61]) (pad30 k ++ [32]) = true).
  { rewrite forallb_app, pad30_none; [done..|]. eapply weaken_none, Hn. set_solver. }
  split; unfold scan_key.
  - replace (pad30 k ++ [32; 61; 32] ++ rest) with ((pad30 k ++ [32]) ++ 61 :: 32 :: rest) by (by rewrite <- app_assoc).
    rewrite scan_set_app by done. rewrite bind_Some. cbn [skip_spaces isspace Z.eqb orb]. cbn. by rewrite skip_ink.
  - replace (pad30 k ++ [32; 61]) with ((pad30 k ++ [32]) ++ 61 :: []) by (by rewrite <- app_assoc).
    rewrite scan_set_app by done. done.
Qed.

Lemma strstrip_pad k : trimmed k = true -> strstrip (pad30 k ++ [32]) = k.
Proof.
  intros H. unfold pad30. rewrite <- app_assoc. apply (strstrip_trimmed []); [done | | done].
  by rewrite forallb_app, forallb_spaces.
Qed.

Lemma first_is_head p s c : first_is p s = true -> p c = false -> head s <> Some c.
Proof. destruct s as [|d s]; [done|]. cbn. intros Hd Hc [= ->]. congruence. Qed.

Lemma value_line_trimmed k v : key_ok k = true -> value_ok v = true -> trimmed (doc_line_cut (DValue k v)) = true.
Proof.
  intros ([Hf _]%andb_true_iff & _)%config_key_ok_spec Hv. unfold trimmed. destruct (value_ok_spec v Hv) as [->|(Hne & [_ Hl]%andb_true_iff & _)].
  - cbn [doc_line_cut]. rewrite pad30_first by done. unfold last_is. change [32; 61] with ([32] ++ [61]). by rewrite app_assoc, last_snoc.
  - destruct v as [|c v]; [done|]. cbn [doc_line_cut]. rewrite pad30_first by done. cbn [andb]. by do 2 apply last_is_app.
Qed.

Lemma scan_value k v : key_ok k = true -> value_ok v = true -> v <> [] ->
  let w := pad30 k ++ [32; 61; 32] ++ v in
  scan_quoted 34 w = None /\ scan_quoted 39 w = None /\ scan_plain w = Some (pad30 k ++ [32], v).
Proof.
  intros Hk Hv Hne w. destruct (value_ok_spec v Hv) as [->|(_ & [Hf _]%andb_true_iff & Hn & Hq & _)]; [done|].
  destruct (scan_key_value k v Hk (or_intror Hf)) as [E _]. unfold scan_quoted, scan_plain. fold w in E. rewrite E, !bind_Some.
  destruct v as [|c v]; [done|]. cbn [scan_char first_is] in *. unfold none_of, one_of in Hq. apply negb_true_iff, bool_decide_eq_false in Hq.
  rewrite (proj2 (Z.eqb_neq c 34)), (proj2 (Z.eqb_neq c 39)) by set_solver. do 2 (split; [done|]).
  rewrite scan_set_all; [done | done |]. eapply weaken_none, Hn. set_solver.
Qed.

Lemma scan_no_value k : key_ok k = true ->
  let w := pad30 k ++ [32; 61] in
  scan_quoted 34 w = None /\ scan_quoted 39 w = None /\ scan_plain w = None /\ scan_comment w = None
  /\ scan_equals w = Some (pad30 k ++ [32], [61]).
Proof.
  intros Hk w. destruct (scan_key_value k [] Hk (or_introl eq_refl)) as [_ E]. fold w in E.
  unfold scan_quoted, scan_plain, scan_comment. rewrite E. do 4 (split; [done|]). unfold scan_equals, w.
  replace (pad30 k ++ [32; 61]) with ((pad30 k ++ [32]) ++ 61 :: []) by (by rewrite <- app_assoc).
  rewrite scan_set_app; [done | by destruct (pad30 k) | | done].
  rewrite forallb_app, pad30_none; [done..|]. apply config_key_ok_spec in Hk as (_ & Hn & _). eapply weaken_none, Hn. set_solver.
Qed.

Lemma iniparser_value n k v : key_ok k = true -> value_ok v = true -> zlen (doc_line_cut (DValue k v)) + 1 <= n ->
  iniparser_line n (doc_line_cut (DValue k v)) = Some (LINE_VALUE k v).
Proof.
  intros Hk Hv Hl. pose proof (value_line_trimmed k v Hk Hv) as Ht. set (w := doc_line_cut _) in *. unfold iniparser_line.
  zfalse (n <? zlen w + 1). rewrite (strstrip_self w Ht).
  pose proof (config_key_ok_spec k Hk) as (Hkt & Hkn & Hk1).
  assert (Hspan : exists rest, span_while (none_of [61]) w = (pad30 k ++ [32], 61 :: rest)).
  { exists (match v with [] => [] | _ => 32 :: v end).
    replace w with ((pad30 k ++ [32]) ++ 61 :: match v with [] => [] | _ => 32 :: v end) by (unfold w; destruct v; cbn [doc_line_cut]; by rewrite <- !app_assoc).
    apply span_while_app; [|done]. rewrite forallb_app, pad30_none; [done..|]. eapply weaken_none, Hkn. set_solver. }
  destruct Hspan as [rest ->]. 
  assert (Hw : first_is (none_of [35; 59; 91]) w = true) by (unfold w; destruct v; cbn [doc_line_cut]; by apply pad30_first).
  rewrite (bool_decide_false (61 :: rest = [])), (bool_decide_false (head w = Some 35)), (bool_decide_false (head w = Some 59)),
    (bool_decide_false (head w = Some 91)) by (done || by apply (first_is_head _ _ _ Hw)). cbn [negb orb andb].
  assert (zlen w <> 0) by (destruct w; [done | cbn [length]; lia]). zfalse (zlen w <? 1).
  destruct v as [|c v].
  - unfold w. cbn [doc_line_cut]. destruct (scan_no_value k Hk) as (-> & -> & -> & -> & ->). cbn [or_else]. by rewrite strstrip_pad.
  - unfold w. cbn [doc_line_cut]. destruct (scan_value k (c :: v) Hk Hv) as (-> & -> & ->); [done|]. cbn [or_else].
    destruct (value_ok_spec _ Hv) as [|(_ & Hvt & _ & Hq & _)]; [done|]. rewrite strstrip_pad, strstrip_self by done.
    rewrite !bool_decide_false by (intros [= -> ->]; done). done.
Qed.

Lemma pad30_not_in (c : Z) k : c <> 32 -> (c ∉ k) -> c ∉ pad30 k.
Proof. intros. unfold pad30. rewrite elem_of_app, elem_of_replicate. naive_solver. Qed.

(** A line is a string of the file with its line feed. *)
Lemma doc_text_line l : doc_ok l ->
  exists x, doc_text l = x ++ [10] /\ (0 ∉ x) /\ (10 ∉ x) /\ zlen x < 1023
    /\ match l with DBlank => x = [] | _ => x <> [] /\ cut_spaces (doc_text l) = doc_line_cut l /\ last (doc_line_cut l) <> Some 92 /\ doc_line_cut l <> [] end.
Proof.
  destruct l as [|s|k v]; cbn [doc_text doc_ok].
  - intros _. exists []. split; [done|]. by do 2 (split; [set_solver|]).
  - intros (Ht & Hn & Hl)%section_ok_spec. pose proof (none_of_spec _ _ Hn) as Hnone.
    assert (E : 91 :: s ++ [93; 10] = (91 :: s ++ [93]) ++ [10]) by (cbn; by rewrite <- app_assoc).
    assert (Hlast : last (91 :: s ++ [93]) = Some 93) by (change (91 :: s ++ [93]) with ([91] ++ s ++ [93]); by rewrite app_assoc, last_snoc).
    exists (91 :: s ++ [93]). split; [exact E|]. cbn [doc_line_cut].
    rewrite !not_elem_of_cons, !not_elem_of_app, !list_elem_of_singleton, E, Hlast. split; [split; [done|]; split; [apply Hnone; set_solver | done]|].
    split; [split; [done|]; split; [apply Hnone; set_solver | done]|]. split; [cbn [length]; rewrite length_app; cbn; lia|].
    repeat split; try done. apply cut_spaces_app; [|done]. unfold last_is. by rewrite Hlast.
  - intros (Hk & Hv & Hl). pose proof (config_key_ok_spec k Hk) as (_ & Hkn & _). pose proof (none_of_spec _ _ Hkn) as Hknone. pose proof (value_line_trimmed k v Hk Hv) as [_ Ht]%andb_true_iff.
    exists (pad30 k ++ [32; 61; 32] ++ v). split; [by rewrite <- !app_assoc|].
    assert (Hno : forall c, c = 0 \/ c = 10 -> c ∉ pad30 k ++ [32; 61; 32] ++ v).
    { intros c Hc. rewrite !elem_of_app. intros [Hin|[Hin|Hin]].
      - revert Hin. apply pad30_not_in; [lia|]. apply Hknone. set_solver.
      - set_solver.
      - destruct (value_ok_spec v Hv) as [->|(_ & _ & Hvn & _)]; [set_solver|]. revert Hin. apply (none_of_spec _ _ Hvn). set_solver. }
    split; [by apply Hno; left|]. split; [by apply Hno; right|]. split; [rewrite !length_app in *; cbn [length]; lia|].
    split; [by destruct (pad30 k)|]. destruct (value_ok_spec v Hv) as [->|(Hne & _ & _ & _ & Hl92)]; cbn [doc_line_cut] in *.
    + change (pad30 k ++ [32; 61; 32] ++ [] ++ [10]) with (pad30 k ++ [32; 61] ++ [32; 10]). rewrite app_assoc.
      split; [by apply cut_spaces_app|]. change [32; 61] with ([32] ++ [61]). rewrite app_assoc, last_snoc. split; [done|]. by intros [_ [=]]%app_nil.
    + destruct v as [|c v]; [done|].
      replace (pad30 k ++ [32; 61; 32] ++ (c :: v) ++ [10]) with ((pad30 k ++ [32; 61; 32] ++ c :: v) ++ [10]) by (by rewrite <- !app_assoc).
      split; [by apply cut_spaces_app|]. split; [|by destruct (pad30 k)]. 
      apply last_is_split in Hl92 as (w & d & Ew & Hd). rewrite Ew, !app_assoc, last_snoc. intros [= ->]. done.
Qed.

Section loading.
Context (can_grow : Z -> bool).

Lemma load_line_doc l sec d : doc_ok l ->
  load_line can_grow (mkLoader 0 sec None d) (doc_text l) false
  = match l with DBlank => Some (mkLoader 0 sec None d, true) | _ => load_status can_grow (mkLoader 0 sec None d) (line_status_of l) end.
Proof.
  intros Hok. destruct (doc_text_line l Hok) as (x & E & _ & _ & Hx & Hl). unfold load_line.
  assert (Hn : zlen (doc_text l) = zlen x + 1) by (rewrite E, length_app; cbn; lia). rewrite Hn.
  destruct l as [|s|k v]; [by subst x|..]; destruct Hl as (Hne & -> & H92 & Hcut);
    (assert (1 <= zlen x) by (destruct x; [done | cbn [length]; lia]));
    zfalse (zlen x + 1 - 1 =? 0); zfalse (zlen x + 1 - 1 <? 0); rewrite E, last_snoc, bool_decide_true by done; cbn [negb andb];
    rewrite bool_decide_false by done; cbn [ld_full_line default from_option app length];
    [set (w := doc_line_cut (DSection s)) in * | set (w := doc_line_cut (DValue k v)) in *];
    (assert (1 <= zlen w) by (destruct w; [done | cbn [length]; lia])); zfalse (zlen w - 1 <? 0);
    replace (zlen w - 1 + 1 + Z.of_nat 0 + 1) with (zlen w + 1) by lia;
    (assert (zlen w <= zlen x + 1)).
  - unfold w. apply (f_equal length) in E. cbn [doc_text doc_line_cut length] in *. rewrite !length_app in *. cbn [length] in *. lia.
  - zfalse (2 ^ 31 <=? zlen w + 1). unfold w. cbn [doc_line_cut]. rewrite iniparser_section; [done | done |].
    cbn [length]. rewrite length_app. cbn [length]. lia.
  - unfold w. apply (f_equal length) in E. cbn [doc_text] in E. destruct v; cbn [doc_line_cut] in *; rewrite !length_app in *; cbn [length] in *; lia.
  - zfalse (2 ^ 31 <=? zlen w + 1). destruct Hok as (Hk & Hv & _). unfold w. by rewrite iniparser_value.
Qed.
End loading.

(** ** Loading lines *)

Abbreviation config := (gmap (list Z) (option (list Z))).

Definition add_pair (m : config) (kv : list Z * option (list Z)) : config := <[kv.1 := kv.2]> m.

Lemma load_set s m key v : dic_rep (dic_of s) s m -> 2 * Z.of_nat (size m) < 2 ^ 31 ->
  exists s', string_dic_set true (dic_of s) (Some key) v = Some (0, dic_of s') /\ dic_rep (dic_of s') s' (add_pair m (key, v)).
Proof.
  intros Hr Hm. destruct (dic_set_spec s m key v Hr) as (s' & E & Hr' & _); [by rewrite (dic_size_map s m Hr)|]. by exists s'.
Qed.

Lemma load_lines (M : config) ls : Forall doc_ok ls -> 2 * Z.of_nat (size M) < 2 ^ 31 ->
  forall fuel sec s m, dic_rep (dic_of s) s m -> m ⊆ M -> Forall (fun kv => M !! kv.1 = Some kv.2) (doc_pairs sec ls) -> (length ls < fuel)%nat ->
  exists s', load_loop (fun _ => true) fuel (mkLoader 0 sec None (dic_of s)) (concat (map doc_text ls)) = Some (Some (dic_of s'))
    /\ dic_rep (dic_of s') s' (foldl add_pair m (doc_pairs sec ls)).
Proof.
  intros Hok HM. induction Hok as [|l ls Hl Hls IH]; intros [|fuel] sec s m Hr Hsub Hp Hf; cbn [length] in Hf; try lia; [by exists s|].
  assert (Hm : 2 * Z.of_nat (size m) < 2 ^ 31) by (apply map_subseteq_size in Hsub; lia).
  destruct (doc_text_line l Hl) as (x & Ex & H0 & H10 & Hx & _). cbn [load_loop map concat]. rewrite Ex, <- app_assoc. cbn [app].
  rewrite fgets_line by done. rewrite <- Ex, load_line_doc by done.
  assert (Hgo : forall key v sec', M !! key = Some v -> Forall (fun kv => M !! kv.1 = Some kv.2) (doc_pairs sec' ls) ->
    exists s1, string_dic_set true (dic_of s) (Some key) v = Some (0, dic_of s1)
      /\ exists s', load_loop (fun _ => true) fuel (mkLoader 0 sec' None (dic_of s1)) (concat (map doc_text ls)) = Some (Some (dic_of s'))
        /\ dic_rep (dic_of s') s' (foldl add_pair m ((key, v) :: doc_pairs sec' ls))).
  { intros key v sec' Hk Hps. destruct (load_set s m key v Hr Hm) as (s1 & E & Hr1). exists s1. split; [exact E|].
    apply IH; [exact Hr1 | by apply insert_subseteq_l | done | lia]. }
  destruct l as [|sc|k v]; cbn [doc_pairs] in *.
  - rewrite bind_Some. by apply IH; [..|lia].
  - apply Forall_cons in Hp as [Hk Hps]. destruct (Hgo sc None sc Hk Hps) as (s1 & E & Hrest).
    cbn [line_status_of load_status ld_d ld_section dic_n dic_of] in *. fold (dic_of s). unfold load_status. cbn [ld_d]. by rewrite E.
  - apply Forall_cons in Hp as [Hk Hps]. destruct (Hgo (sec ++ 58 :: k) (Some v) sec Hk Hps) as (s1 & E & Hrest).
    cbn [line_status_of]. unfold load_status. cbn [ld_d ld_section]. by rewrite E.
Qed.

Lemma add_pairs_lookup (M m : config) ps : m ⊆ M -> Forall (fun kv => M !! kv.1 = Some kv.2) ps ->
  foldl add_pair m ps ⊆ M /\ m ⊆ foldl add_pair m ps /\ forall k v, (k, v) ∈ ps -> foldl add_pair m ps !! k = Some v.
Proof.
  revert m. induction ps as [|[k v] ps IH]; intros m Hm Hp; cbn [foldl]; [split; [done|]; split; [done|]; set_solver|].
  apply Forall_cons in Hp as [Hk Hp]. cbn in Hk. destruct (IH (add_pair m (k, v))) as (H1 & H2 & H3); [by apply insert_subseteq_l | done |].
  split; [done|].
  assert (Hkv : foldl add_pair (add_pair m (k, v)) ps !! k = Some v) by (eapply lookup_weaken, H2; apply lookup_insert_eq).
  split.
  - intros k' . destruct (decide (k' = k)) as [->|Hne].
    + rewrite Hkv. destruct (m !! k) as [w|] eqn:E; [|done]. cbn. pose proof (lookup_weaken _ _ _ _ E Hm). congruence.
    + specialize (H2 k'). unfold add_pair in H2 at 1. cbn in H2. by rewrite lookup_insert_ne in H2.
  - intros k' v' [[= -> ->]|Hin]%elem_of_cons; [done | by apply H3].
Qed.

(** Pairs that are those of a map build the map. *)
Lemma add_pairs_all (M : config) ps : Forall (fun kv => M !! kv.1 = Some kv.2) ps -> (forall k v, M !! k = Some v -> (k, v) ∈ ps) ->
  foldl add_pair ∅ ps = M.
Proof.
  intros Hp Hall. destruct (add_pairs_lookup M ∅ ps) as (H1 & _ & H3); [apply map_empty_subseteq | done |].
  apply map_eq. intros k. destruct (M !! k) as [v|] eqn:E; [by apply H3, Hall|].
  destruct (foldl add_pair ∅ ps !! k) as [v|] eqn:E'; [|done]. pose proof (lookup_weaken _ _ _ _ E' H1). congruence.
Qed.

(** ** Saving *)

Lemma for_keys_entries {A} s (body : Z -> list Z -> A -> option A) (g : A -> list Z * option (list Z) -> A) a :
  (forall (i : nat) k v a, s !! i = Some (Some (k, v)) -> body (Z.of_nat i) k a = Some (g a (k, v))) ->
  for_keys (dic_of s) body a = Some (foldl g a (entries s)).
Proof.
  intros Hb. unfold for_keys. cbn [dic_size dic_of]. rewrite Nat2Z.id. fold (dic_of s).
  assert (H : forall s2 s1 a, s = s1 ++ s2 -> for_range (length s2) (zlen s1) (fun i a =>
    k ← znth (dic_key (dic_of s)) i; match k with None => Some a | Some k => body i k a end) a = Some (foldl g a (entries s2))).
  { induction s2 as [|x s2 IH]; intros s1 b E; [done|]. cbn [length for_range].
    assert (Hx : s !! length s1 = Some x) by (rewrite E; by apply list_lookup_middle).
    rewrite (znth_key s _ _ Hx), bind_Some.
    assert (Hnext : forall c, for_range (length s2) (zlen s1 + 1) (fun i a =>
      k ← znth (dic_key (dic_of s)) i; match k with None => Some a | Some k => body i k a end) c = Some (foldl g c (entries s2))).
    { intros c. replace (zlen s1 + 1) with (zlen (s1 ++ [x])) by (rewrite length_app; cbn; lia). apply IH. by rewrite <- app_assoc. }
    destruct x as [[k v]|]; cbn [slot_key fmap option_fmap option_map fst]; [|by rewrite bind_Some; apply Hnext].
    rewrite (Hb _ k v b Hx), bind_Some. apply Hnext. }
  by apply (H s []).
Qed.

Lemma znth_val s (i : nat) k v : s !! i = Some (Some (k, v)) -> znth (dic_val (dic_of s)) (Z.of_nat i) = Some v.
Proof. intros Hi. rewrite znth_of_nat. cbn. by rewrite list_lookup_fmap, Hi. Qed.

Definition sections s : list (list Z) := List.filter is_section_key (keys_of s).

Lemma section_num s : config_ini_get_section_num (Some (dic_of s)) = Some (zlen (sections s)).
Proof.
  unfold config_ini_get_section_num.
  rewrite (for_keys_entries s _ (fun n kv => if is_section_key kv.1 then n + 1 else n)) by done. f_equal.
  unfold sections, keys_of. assert (H : forall l n, foldl (fun n (kv : list Z * option (list Z)) => if is_section_key kv.1 then n + 1 else n) n l
    = n + zlen (List.filter is_section_key l.*1)).
  { induction l as [|[k v] l IH]; intros n; [cbn; lia|]. cbn [foldl fst]. rewrite IH. cbn [fmap list_fmap fst List.filter].
    destruct (is_section_key k); cbn [length]; lia. }
  rewrite H. lia.
Qed.

Lemma section_name_nth s (n : nat) sec : sections s !! n = Some sec ->
  config_ini_get_section_name (Some (dic_of s)) (Z.of_nat n) = Some (Some sec).
Proof.
  intros Hn. unfold config_ini_get_section_name. zfalse (Z.of_nat n <? 0). cbn [dic_size dic_of]. rewrite Nat2Z.id. fold (dic_of s).
  assert (H : forall s2 s1 found, s = s1 ++ s2 -> 0 <= found <= Z.of_nat n -> sections s2 !! Z.to_nat (Z.of_nat n - found) = Some sec ->
    exists j, for_ret (length s2) (zlen s1) (fun i foundsec =>
            k ← znth (dic_key (dic_of s)) i;
            match k with
            | None => Some (inl foundsec)
            | Some k =>
                let foundsec := if is_section_key k then foundsec + 1 else foundsec in
                Some (if is_section_key k && (foundsec >? Z.of_nat n) then inr i else inl foundsec)
            end) found = Some (inr j) /\ znth (dic_key (dic_of s)) j = Some (Some sec)).
  { induction s2 as [|x s2 IH]; intros s1 found E Hf Hs; [done|]. cbn [length for_ret].
    assert (Hx : s !! length s1 = Some x) by (rewrite E; by apply list_lookup_middle).
    pose proof (znth_key s _ _ Hx) as Hk. rewrite Hk, bind_Some.
    replace (zlen s1 + 1) with (zlen (s1 ++ [x])) by (rewrite length_app; cbn; lia).
    destruct x as [[k v]|]; cbn [slot_key fmap option_fmap option_map fst] in *; [|apply IH; [by rewrite <- app_assoc | done | exact Hs]].
    unfold sections, keys_of in Hs. cbn [entries omap list_omap id fmap list_fmap fst List.filter] in Hs.
    destruct (is_section_key k) eqn:Ek; cbn [andb]; [|apply IH; [by rewrite <- app_assoc | done | exact Hs]].
    destruct (Z.gtb_spec (found + 1) (Z.of_nat n)).
    - replace (Z.to_nat (Z.of_nat n - found)) with 0%nat in Hs by lia. injection Hs as ->. by exists (zlen s1).
    - replace (Z.to_nat (Z.of_nat n - found)) with (S (Z.to_nat (Z.of_nat n - (found + 1)))) in Hs by lia.
      apply IH; [by rewrite <- app_assoc | lia | exact Hs]. }
  destruct (H s [] 0) as (j & Hj & Hs); [done | lia | by replace (Z.to_nat (Z.of_nat n - 0)) with n by lia |]. cbn [length] in Hj. change (Z.of_nat 0) with 0 in Hj. by rewrite Hj.
Qed.

Lemma getString_spec s m key def : dic_rep (dic_of s) s m ->
  config_ini_getString (Some (dic_of s)) (Some key) def
  = match m !! key with
    | Some v => Some (ptr_of v)
    | None => match def with MinusOne => None | _ => Some def end
    end.
Proof.
  intros Hr. unfold config_ini_getString, strlwc.
  destruct def; rewrite ?find_key_index, ?bind_Some, (dic_get_spec _ s m) by done; [by destruct (m !! key) | | by destruct (m !! key)].
  rewrite (rep_lookup _ _ _ key Hr). by destruct (index_of key 0 s).
Qed.

(** The lines of a section: its name, and its keys in the order of their slots. *)
Definition key_lines (s : list slot) (sec : list Z) : list doc_line :=
  omap (fun kv => if of_section sec kv.1 then Some (DValue (drop (length sec + 1) kv.1) (default [] kv.2)) else None) (entries s).

Definition section_lines (s : list slot) (sec : list Z) : list doc_line :=
  DBlank :: DSection sec :: key_lines s sec ++ [DBlank].

Definition lines_text (ls : list doc_line) : list Z := concat (map doc_text ls).

Lemma find_entry_spec s m sec : dic_rep (dic_of s) s m -> is_Some (m !! sec) ->
  config_ini_find_entry (Some (dic_of s)) (Some sec) = Some 1.
Proof.
  intros Hr [v Hv]. unfold config_ini_find_entry. rewrite (getString_spec s m), Hv, bind_Some by done. by destruct v.
Qed.

Lemma key_lines_text (sec : list Z) (l : list (list Z * option (list Z))) : forall g,
  foldl (fun f kv => if of_section sec kv.1 then f ++ doc_text (DValue (drop (length sec + 1) kv.1) (default [] kv.2)) else f) g l
  = g ++ lines_text (omap (fun kv => if of_section sec kv.1 then Some (DValue (drop (length sec + 1) kv.1) (default [] kv.2)) else None) l).
Proof.
  induction l as [|[k w] l IH]; intros g; [by rewrite app_nil_r|]. cbn [foldl fst snd omap list_omap]. rewrite IH.
  unfold lines_text. destruct (of_section sec k); cbn [map concat]; by rewrite <- ?app_assoc.
Qed.

Lemma config_lines_app a b : lines_text (a ++ b) = lines_text a ++ lines_text b.
Proof. unfold lines_text. by rewrite map_app, concat_app. Qed.

Lemma savesection_text s m sec f : dic_rep (dic_of s) s m -> is_Some (m !! sec) ->
  config_ini_savesection_to_file (Some (dic_of s)) sec f = Some (f ++ lines_text (section_lines s sec)).
Proof.
  intros Hr Hsec. unfold config_ini_savesection_to_file. rewrite (find_entry_spec s m) by done. rewrite bind_Some. cbn [Z.eqb].
  rewrite (for_keys_entries s _ (fun f kv => if of_section sec kv.1
    then f ++ doc_text (DValue (drop (length sec + 1) kv.1) (default [] kv.2)) else f)).
  - rewrite bind_Some, key_lines_text. unfold section_lines, key_lines. change (DBlank :: DSection sec :: ?l ++ [DBlank]) with ([DBlank; DSection sec] ++ l ++ [DBlank]).
    rewrite !config_lines_app. cbn [lines_text map concat doc_text]. rewrite app_nil_r, <- !app_assoc. cbn [app]. by rewrite <- !app_assoc.
  - intros i k w a Hi. cbn [fst snd]. destruct (of_section sec k); cbn [negb]; [|done]. by rewrite (znth_val s i k w Hi).
Qed.

(** The lines of the whole file. *)
Definition saved_lines (s : list slot) : list doc_line :=
  match sections s with [] => [] | secs => flat_map (section_lines s) secs ++ [DBlank] end.

Lemma of_section_spec sec key : of_section sec key = true <-> exists k, key = sec ++ 58 :: k.
Proof.
  unfold of_section. rewrite bool_decide_eq_true. split.
  - intros E. exists (drop (length (sec ++ [58])) key). rewrite <- (take_drop (length (sec ++ [58])) key) at 1. by rewrite E, <- app_assoc.
  - intros [k ->]. change (58 :: k) with ([58] ++ k). rewrite app_assoc. by rewrite take_app_length.
Qed.

Lemma first_colon (s s' k k' : list Z) : (58 ∉ s) -> (58 ∉ s') -> s ++ 58 :: k = s' ++ 58 :: k' -> s = s' /\ k = k'.
Proof.
  revert s'. induction s as [|c s IH]; intros [|c' s'] H H' E; cbn in E; simplify_eq; try (exfalso; set_solver); [done|].
  destruct (IH s') as [-> ->]; [set_solver..|done|done].
Qed.

Section saved.
Context (s : list slot) (m : config) (Hr : dic_rep (dic_of s) s m) (Hwf : ini_wf m).

Lemma entry_in k v : (k, v) ∈ entries s <-> m !! k = Some v.
Proof. clear Hwf. destruct Hr as [_ Hk -> _]. by rewrite <- elem_of_list_to_map. Qed.

Lemma section_in sec : sec ∈ sections s <-> m !! sec = Some None.
Proof.
  unfold sections. rewrite list_elem_of_In, filter_In, <- list_elem_of_In. unfold keys_of. rewrite list_elem_of_fmap. split.
  - intros [([k v] & -> & Hin) Hc]. cbn in *. apply entry_in in Hin. destruct v as [v|]; [|done].
    apply Hwf in Hin as (s' & k' & -> & _). unfold is_section_key in Hc. apply bool_decide_eq_true in Hc. set_solver.
  - intros Hin. split; [exists (sec, None); split; [done | by apply entry_in]|]. apply Hwf in Hin as (_ & Hn & _)%section_ok_spec.
    unfold is_section_key. apply bool_decide_eq_true. apply (none_of_spec _ _ Hn). set_solver.
Qed.

Lemma section_no_colon sec : m !! sec = Some None -> 58 ∉ sec.
Proof. intros (_ & Hn & _)%Hwf%section_ok_spec. apply (none_of_spec _ _ Hn). set_solver. Qed.

(** An entry whose key starts with a section and a colon is a key of the section. *)
Lemma key_of_section sec key v : m !! sec = Some None -> m !! key = Some v -> of_section sec key = true ->
  exists k w, key = sec ++ 58 :: k /\ v = Some w /\ doc_ok (DValue k w) /\ drop (length sec + 1) key = k.
Proof.
  intros Hsec Hkey (k & ->)%of_section_spec. exists k. destruct v as [w|].
  - pose proof (Hwf _ _ Hkey) as (s' & k' & E & Hs' & Hok). apply first_colon in E as [<- <-]; [|by apply section_no_colon..].
    exists w. do 3 (split; [done|]). change (58 :: k) with ([58] ++ k). rewrite app_assoc, drop_app_length'; [done|]. by rewrite length_app.
  - apply section_no_colon in Hkey. set_solver.
Qed.

Lemma key_lines_ok sec : m !! sec = Some None ->
  Forall doc_ok (key_lines s sec)
  /\ Forall (fun kv => m !! kv.1 = Some kv.2) (doc_pairs sec (key_lines s sec ++ [DBlank]))
  /\ (forall key v, m !! key = Some v -> of_section sec key = true -> (key, v) ∈ doc_pairs sec (key_lines s sec ++ [DBlank])).
Proof.
  intros Hsec. unfold key_lines. set (f := fun kv : list Z * option (list Z) => _).
  assert (Hin : forall key v, (key, v) ∈ entries s -> of_section sec key = true ->
    exists k w, f (key, v) = Some (DValue k w) /\ key = sec ++ 58 :: k /\ v = Some w /\ doc_ok (DValue k w)).
  { intros key v Hin%entry_in Ho. unfold f. cbn [fst snd]. rewrite Ho.
    destruct (key_of_section sec key v Hsec Hin Ho) as (k & w & -> & -> & Hok & ->). by exists k, w. }
  assert (Hm : forall key v, (key, v) ∈ entries s -> m !! key = Some v) by (intros; by apply entry_in).
  assert (Hrev : forall key v, m !! key = Some v -> of_section sec key = true -> (key, v) ∈ entries s) by (intros; by apply entry_in).
  revert Hin Hm Hrev. generalize (entries s) as l. intros l Hin Hm Hrev.
  assert (H : Forall doc_ok (omap f l) /\ Forall (fun kv => m !! kv.1 = Some kv.2) (doc_pairs sec (omap f l ++ [DBlank]))
    /\ (forall key v, (key, v) ∈ l -> of_section sec key = true -> (key, v) ∈ doc_pairs sec (omap f l ++ [DBlank]))).
  2:{ destruct H as (H1 & H2 & H3). split; [done|]. split; [done|]. intros key v Hk Ho. apply H3; [by apply Hrev | done]. }
  clear Hrev. induction l as [|[key v] l IH]; [split; [constructor|]; split; [constructor|]; set_solver|].
  destruct IH as (H1 & H2 & H3); [intros; apply Hin; [by right | done] | intros; apply Hm; by right |].
  cbn [omap list_omap]. destruct (of_section sec key) eqn:Ho.
  - destruct (Hin key v) as (k & w & Ef & -> & -> & Hok); [by left | done |]. rewrite Ef. cbn [app doc_pairs].
    split; [by constructor|]. split; [constructor; [apply Hm; by left | done]|].
    intros key' v' [[= -> ->]|Hl]%elem_of_cons Ho'; [by left|]. right. by apply H3.
  - replace (f (key, v)) with (@None doc_line) by (unfold f; cbn [fst]; by rewrite Ho).
    split; [done|]. split; [done|]. intros key' v' [[= -> ->]|Hl]%elem_of_cons Ho'; [congruence|]. by apply H3.
Qed.
End saved.

Lemma doc_pairs_app a : forall sec, exists sec', forall b, doc_pairs sec (a ++ b) = doc_pairs sec a ++ doc_pairs sec' b.
Proof.
  induction a as [|l a IH]; intros sec; [by exists sec|]. destruct l as [|s|k v]; cbn [app doc_pairs];
    [destruct (IH sec) as [sec' E] | destruct (IH s) as [sec' E] | destruct (IH sec) as [sec' E]]; exists sec'; intros b; by rewrite E.
Qed.

Section saved_file.
Context (s : list slot) (m : config) (Hr : dic_rep (dic_of s) s m) (Hwf : ini_wf m).

Lemma sections_lines secs : Forall (fun sec => m !! sec = Some None) secs ->
  Forall doc_ok (flat_map (section_lines s) secs)
  /\ forall sec0, Forall (fun kv => m !! kv.1 = Some kv.2) (doc_pairs sec0 (flat_map (section_lines s) secs ++ [DBlank]))
    /\ forall sec, sec ∈ secs -> (sec, None) ∈ doc_pairs sec0 (flat_map (section_lines s) secs ++ [DBlank])
       /\ forall key v, m !! key = Some v -> of_section sec key = true -> (key, v) ∈ doc_pairs sec0 (flat_map (section_lines s) secs ++ [DBlank]).
Proof.
  induction 1 as [|sec secs Hsec _ [IHok IH]]; [split; [constructor|]; intros sec0; split; [constructor|]; set_solver|].
  destruct (key_lines_ok s m Hr Hwf sec Hsec) as (H1 & H2 & H3). cbn [flat_map]. split.
  { apply Forall_app. split; [|done]. unfold section_lines. constructor; [done|]. constructor; [exact (Hwf sec None Hsec)|].
    apply Forall_app. split; [done|]. by constructor. }
  intros sec0. set (rest := flat_map (section_lines s) secs ++ [DBlank]) in *.
  replace ((section_lines s sec ++ flat_map (section_lines s) secs) ++ [DBlank]) with (DBlank :: DSection sec :: (key_lines s sec ++ [DBlank]) ++ rest)
    by (unfold section_lines, rest; cbn; by rewrite <- !app_assoc).
  cbn [doc_pairs]. destruct (doc_pairs_app (key_lines s sec ++ [DBlank]) sec) as [sec' E]. rewrite E. destruct (IH sec') as [Hp Hall]. split.
  - constructor; [done|]. by apply Forall_app.
  - intros sec1 [->|Hin]%elem_of_cons.
    + split; [by left|]. intros key v Hk Ho. right. apply elem_of_app. left. by apply H3.
    + destruct (Hall sec1 Hin) as [Hs Hks]. split; [right; apply elem_of_app; by right|].
      intros key v Hk Ho. right. apply elem_of_app. right. by apply Hks.
Qed.

Lemma sections_all : Forall (fun sec => m !! sec = Some None) (sections s).
Proof. apply Forall_forall. intros sec Hsec. by apply (section_in s m Hr Hwf). Qed.

(** Every entry is a section or of one. *)
Lemma entry_section key v : m !! key = Some v ->
  exists sec, sec ∈ sections s /\ (key = sec /\ v = None \/ of_section sec key = true).
Proof.
  intros Hk. destruct v as [v|].
  - pose proof (Hwf _ _ Hk) as (sec & k & -> & Hsec & _). exists sec. split; [by apply (section_in s m Hr Hwf)|]. right. apply of_section_spec. by exists k.
  - exists key. split; [by apply (section_in s m Hr Hwf) | by left].
Qed.

Lemma saved_lines_ok : Forall doc_ok (saved_lines s)
  /\ Forall (fun kv => m !! kv.1 = Some kv.2) (doc_pairs [] (saved_lines s))
  /\ (forall key v, m !! key = Some v -> (key, v) ∈ doc_pairs [] (saved_lines s)).
Proof.
  destruct (sections_lines (sections s) sections_all) as [H1 H2]. specialize (H2 []). unfold saved_lines. 
  destruct (sections s) as [|sec0 secs] eqn:Es.
  - split; [done|]. split; [done|]. intros key v (sec & Hin & _)%entry_section. rewrite Es in Hin. set_solver.
  - rewrite <- Es in *. destruct H2 as [Hp Hall]. split; [apply Forall_app; split; [done | by constructor]|]. split; [done|].
    intros key v Hk. destruct (entry_section key v Hk) as (sec & Hin & Hor). destruct (Hall sec Hin) as [Hs Hks].
    destruct Hor as [[-> ->]|Ho]; [done | by apply Hks].
Qed.

Lemma save_text f : config_ini_save_ini (Some (dic_of s)) f = Some (f ++ lines_text (saved_lines s)).
Proof.
  unfold config_ini_save_ini. rewrite section_num, bind_Some. unfold saved_lines.
  destruct (sections s) as [|sec0 secs] eqn:Es.
  - cbn [length Z.of_nat Z.ltb Z.compare]. rewrite (for_keys_entries s _ (fun f _ => f)).
    + unfold lines_text. cbn. rewrite app_nil_r. f_equal. induction (entries s); done.
    + intros i k v a Hi. exfalso. assert (Hk : m !! k = Some v).
      { apply (entry_in s m Hr). unfold entries. apply list_elem_of_omap. exists (Some (k, v)). split; [by eapply list_elem_of_lookup_2 | done]. }
      apply entry_section in Hk as (sec & Hin & _). rewrite Es in Hin. set_solver.
  - rewrite <- Es in *. assert (Hge : 1 <= zlen (sections s)) by (rewrite Es; cbn [length]; lia). zfalse (zlen (sections s) <? 1).
    rewrite Nat2Z.id.
    assert (H : forall secs pre g, sections s = pre ++ secs ->
      for_range (length secs) (zlen pre) (fun i f =>
            secname ← config_ini_get_section_name (Some (dic_of s)) i;
            secname ← secname;
            config_ini_savesection_to_file (Some (dic_of s)) secname f) g = Some (g ++ lines_text (flat_map (section_lines s) secs))).
    { clear Es Hge sec0 secs. induction secs as [|sec secs IH]; intros pre g E; [cbn; by rewrite app_nil_r|]. cbn [length for_range].
      rewrite (section_name_nth s _ sec), !bind_Some by (rewrite E; by apply list_lookup_middle).
      rewrite (savesection_text s m) by (done || (pose proof (proj1 (Forall_forall _ _) sections_all sec) as Hs; rewrite Hs; [done|]; rewrite E; set_solver)).
      rewrite bind_Some. replace (zlen pre + 1) with (zlen (pre ++ [sec])) by (rewrite length_app; cbn; lia).
      rewrite IH by (by rewrite <- app_assoc). cbn [flat_map]. by rewrite config_lines_app, <- app_assoc. }
    pose proof (H (sections s) [] f eq_refl) as E. cbn [length] in E. change (Z.of_nat 0) with 0 in E. rewrite E, bind_Some, config_lines_app, <- app_assoc. done.
Qed.
End saved_file.

(** ** Changing, saving and loading *)

Definition config_step (d : string_dic_t) (o : dic_op) : option string_dic_t :=
  match o with
  | SetKey entry val => '(rv, d) ← config_ini_set true d entry val; if rv =? 0 then Some d else None
  | UnsetKey entry => config_ini_unset d entry
  end.

Definition config_run (d : string_dic_t) (ops : list dic_op) : option string_dic_t :=
  foldl (fun d o => d ← d; config_step d o) (Some d) ops.

Lemma config_run_spec ops : 2 * zlen ops < 2 ^ 31 ->
  exists s, config_run config_ini_new ops = Some (dic_of s) /\ dic_rep (dic_of s) s (foldl map_step ∅ ops).
Proof.
  intros Hops. pose proof (new_rep 0) as Hr. set (s := replicate _ None) in Hr.
  rewrite (dr_dic _ _ _ Hr) in Hr.
  destruct (run_spec ops s ∅ (Z.max (zlen s) (2 * zlen ops)) Hr) as (s' & E & Hr' & _); rewrite ?map_size_empty; [lia..|].
  exists s'. split; [|done]. unfold config_ini_new. rewrite <- E. by rewrite (dr_dic _ _ _ (new_rep 0)).
Qed.

Lemma config_load_saved s m : dic_rep (dic_of s) s m -> ini_wf m -> 2 * Z.of_nat (size m) < 2 ^ 31 ->
  exists s', config_init_load (fun _ => true) (Some (lines_text (saved_lines s))) = Some (Some (dic_of s')) /\ dic_rep (dic_of s') s' m.
Proof.
  intros Hr Hwf Hm. destruct (saved_lines_ok s m Hr Hwf) as (Hok & Hp & Hall). unfold config_init_load.
  pose proof (new_rep 0) as Hnew. set (s0 := replicate _ None) in Hnew. rewrite (dr_dic _ _ _ Hnew) in Hnew |- *.
  destruct (load_lines m (saved_lines s) Hok Hm (S (length (lines_text (saved_lines s)))) [] s0 ∅ Hnew) as (s' & E & Hr');
    [apply map_empty_subseteq | done | | ].
  - apply Nat.lt_succ_r. unfold lines_text. clear - Hok. induction Hok as [|l ls Hl _ IH]; [done|]. cbn [map concat length].
    rewrite length_app. destruct (doc_text_line l Hl) as (x & -> & _). rewrite length_app. cbn [length]. lia.
  - exists s'. split; [exact E|]. by rewrite (add_pairs_all m) in Hr'.
Qed.

(** C29: saving and loading a configuration. As long as memory is allocated and the
    files can be opened, a configuration built by fewer than 2^30 sets and removals of
    entries - in which every key with a value belongs to a section it has; names and
    keys are not empty and neither they nor values begin or end with a blank (values may
    be empty); a section name is at most 1020 characters without line feeds, colons,
    equals signs and closing brackets; a key has no line feed or equals sign and does
    not start with a comment sign or a bracket; a value has no line feed or comment
    sign, does not start with a quotation mark or end with a backslash; and a key
    (padded to 30) and its value fit a line of 1023 - is the one that is loaded from the
    file it is saved to: every look-up gives the same, with every default, and there are
    as many entries. Saving and loading end and stay within their buffers. (On other
    names and values the program does go wrong: findings at ini_config1.c:130, 558 and
    590.) *)
Theorem config_save_load ops file : 2 * zlen ops < 2 ^ 31 -> ini_wf (foldl map_step ∅ ops) ->
  exists d text d', config_run config_ini_new ops = Some d
    /\ config_ini_save true (Some d) file = Some (0, Some text)
    /\ config_init_load (fun _ => true) (Some text) = Some (Some d')
    /\ (forall key def, config_ini_getString (Some d') (Some key) def = config_ini_getString (Some d) (Some key) def)
    /\ dic_n d' = dic_n d.
Proof.
  intros Hops Hwf. destruct (config_run_spec ops Hops) as (s & Hrun & Hr).
  assert (Hsize : forall ops m, (size (foldl map_step m ops) <= size m + length ops)%nat).
  { clear. induction ops as [|o ops IH]; intros m; cbn [foldl length]; [lia|]. pose proof (IH (map_step m o)). pose proof (map_step_size m o). lia. }
  specialize (Hsize ops ∅). rewrite map_size_empty in Hsize.
  destruct (config_load_saved s _ Hr Hwf) as (s' & Hload & Hr'); [lia|].
  exists (dic_of s), (lines_text (saved_lines s)), (dic_of s'). split; [done|].
  split; [unfold config_ini_save; by rewrite (save_text s _ Hr Hwf)|]. split; [done|].
  split; [intros key def; by rewrite (getString_spec s' _ key def Hr'), (getString_spec s _ key def Hr)|].
  cbn [dic_of dic_n]. by rewrite (dic_size_map _ _ Hr'), (dic_size_map _ _ Hr).
Qed.

(** Looking up an entry that a configuration does not have, with the default -1 that the
    typed readers pass, prints the string at that address. *)
Theorem config_missing ops key n : 2 * zlen ops < 2 ^ 31 -> foldl map_step ∅ ops !! key = None ->
  exists d, config_run config_ini_new ops = Some d
    /\ config_ini_getInt (Some d) (Some key) n = None /\ config_ini_getBoolean (Some d) (Some key) n = None
    /\ config_ini_find_entry (Some d) (Some key) = None.
Proof.
  intros Hops Hk. destruct (config_run_spec ops Hops) as (s & Hrun & Hr). exists (dic_of s). split; [done|].
  unfold config_ini_getInt, config_ini_getBoolean, config_ini_find_entry. rewrite (getString_spec s _ key MinusOne Hr). by rewrite Hk.
Qed.

(** ** Concrete runs *)

Definition demo_ops : list dic_op :=
  [SetKey (text "net") None; SetKey (text "net:ip") (Some (text "10.0.0.1")); SetKey (text "log") None;
   SetKey (text "net:port") (Some (text "80")); SetKey (text "log:file name") (Some []); SetKey (text "net:port") (Some (text "8080"));
   SetKey (text "log:level") (Some (text "all = yes")); UnsetKey (text "net:ip")].

Lemma config_save_load_witness :
  exists d text' d', config_run config_ini_new demo_ops = Some d
    /\ config_ini_save true (Some d) None = Some (0, Some text')
    /\ config_init_load (fun _ => true) (Some text') = Some (Some d')
    /\ (forall key def, config_ini_getString (Some d') (Some key) def = config_ini_getString (Some d) (Some key) def)
    /\ dic_n d' = dic_n d.
Proof.
  apply (config_save_load demo_ops None); [by vm_compute|]. apply map_Forall_to_list.
  set (m := foldl map_step ∅ demo_ops).
  assert (Hm : m !! text "net" = Some None /\ m !! text "log" = Some None) by (split; vm_compute; reflexivity).
  assert (E : map_to_list m = ltac:(let l := eval vm_compute in (map_to_list (foldl map_step ∅ demo_ops)) in exact l)) by (vm_compute; reflexivity).
  rewrite E. destruct Hm as [Hnet Hlog]. clearbody m. clear E.
  constructor; [exists (text "net"), (text "port") | constructor; [| constructor; [exists (text "log"), (text "level")
    | constructor; [| constructor; [exists (text "log"), (text "file name") | constructor]]]]]; cbn [uncurry fst snd].
  all: try (split; [vm_compute; reflexivity|]; split; [assumption|]; repeat split; vm_compute; congruence).
  all: vm_compute; reflexivity.
Defined.

Definition load_text (lines : list string) : option (option (list (list Z * option (list Z)))) :=
  d ← config_init_load (fun _ => true) (Some (concat (map (fun l => text l ++ [10]) lines)));
  match d with None => Some None | Some d => Some <$> string_dic_dump d end.

(** Comments, blanks, quotation marks and a line that is continued. *)
Example load_forms :
  load_text ["; settings"; "[ net ]"; "ip =10.0.0.1 # host"; "name = 'a;b' "; " "; "empty ="; "long = one \"; "two"]%string
  = Some (Some [(text "net", None); (text "net:ip", Some (text "10.0.0.1")); (text "net:name", Some (text "a;b"));
                (text "net:empty", Some []); (text "net:long", Some (text "one two"))]).
Proof. by vm_compute. Qed.

(** A name with an equals sign is longer than the memory for it. *)
Example section_name_overruns : load_text ["[a=bc]"]%string = None.
Proof. by vm_compute. Qed.

(** A line that is not understood makes the load fail, unless an entry follows. *)
Example error_kept : load_text ["[a]"; "x"]%string = Some None.
Proof. by vm_compute. Qed.

Example error_forgotten : load_text ["[a]"; "x"; "y = 1"]%string = Some (Some [(text "a", None); (text "a:y", Some (text "1"))]).
Proof. by vm_compute. Qed.

(** The case of keys is kept. *)
Example case_kept : load_text ["[A]"; "Key = 1"]%string = Some (Some [(text "A", None); (text "A:Key", Some (text "1"))]).
Proof. by vm_compute. Qed.

(** What comes before the first section is not saved when there is a section. *)
Example top_keys_lost :
  (d ← config_init_load (fun _ => true) (Some (text "x = 1" ++ [10] ++ text "[a]" ++ [10]));
   config_ini_save_ini d []) = Some (10 :: text "[a]" ++ [10; 10; 10]).
Proof. by vm_compute. Qed.

(** A value with a comment sign is cut when it is loaded again. *)
Example comment_sign_cuts :
  (d ← config_run config_ini_new [SetKey (text "a") None; SetKey (text "a:x") (Some (text "1;2"))];
   f ← config_ini_save_ini (Some d) [];
   d ← config_init_load (fun _ => true) (Some f);
   config_ini_getString d (Some (text "a:x")) NullPtr) = Some (StrPtr (text "1")).
Proof. by vm_compute. Qed.

Example getInt_reads :
  (fun v => d ← config_run config_ini_new [SetKey (text "a:x") (Some (text v))]; config_ini_getInt (Some d) (Some (text "a:x")) 7)
    <$> ["42"; " -0x1F"; "010"; "9zz"; "4294967297"; "none"; "99999999999999999999"]%string
  = [Some 42; Some (-31); Some 8; Some 9; Some 1; Some 0; Some (-1)].
Proof. by vm_compute. Qed.

Lemma config_missing_witness :
  foldl map_step ∅ demo_ops !! text "net:ip" = None
  /\ exists d, config_run config_ini_new demo_ops = Some d
    /\ config_ini_getInt (Some d) (Some (text "net:ip")) 7 = None /\ config_ini_getBoolean (Some d) (Some (text "net:ip")) 7 = None
    /\ config_ini_find_entry (Some d) (Some (text "net:ip")) = None.
Proof. split; [by vm_compute|]. apply (config_missing demo_ops (text "net:ip") 7); by vm_compute. Defined.
